(* ===== verification/_CoqProject ===== *)
-Q . S2P
Prelude.v
MmArea.v
MmSet.v
MmView.v
MmMerge.v
MmSetProofs.v
MmQueries.v
MmUpdates.v
MmProps.v
SchedClass.v
Eevdf.v
CpuMask.v
Topology.v
TopologyProofs.v
TopologySelect.v
TopologyProps.v
DeadlineAdmission.v
FlowExecution.v
Ring.v
TimerWheel.v
TimerLinks.v
TimerCache.v
TimerProofs.v
TimerTick.v
TimerProps.v
NetTypes.v
FlowTable.v
FlowTableProps.v
Packet.v
Reassembly.v
ReassemblyTable.v
ReassemblyBuild.v
ReassemblyProofs.v
ReassemblyProps.v
BpfSpec.v
Cbpf.v
CbpfProps.v
Seccomp.v
SeccompProps.v
RecordLock.v
RecordLockProofs.v
RecordLockProps.v
WaitQueue.v
WaitQueueProofs.v
WaitQueueProps.v
SetlkWait.v
SetlkWaitProps.v
Cred.v
Ipc.v
Sem.v
SemProofs.v
SemWait.v
SemWaitProofs.v
SemProps.v
Msg.v
MsgProofs.v
MsgProps.v
Mqueue.v
MqueueProofs.v
MqueueProps.v
Buddy.v
BuddyInit.v
BuddyAudit.v
BuddyLinks.v
BuddyBlocks.v
BuddyShape.v
BuddyProofs.v
BuddySplit.v
BuddyAlloc.v
BuddyExact.v
BuddyRequest.v
BuddyRefs.v
BuddySeed.v
BuddyMeta.v
BuddyStart.v
BuddyRelease.v
BuddyAuditProofs.v
BuddyOwners.v
BuddyOps.v
BuddyProps.v
