(* ===== verification/Prelude.v ===== *)
(** * A verification library for the Hitoshizuku kernel

    Hitoshizuku is a kernel written in Rust: a set of libraries ([src/libs])
    that hold the algorithms, and the code that puts them together for a machine
    ([src/general], [src/kernel], [src/arch], [src/drivers]).  This library
    models a number of the algorithmic cores of those libraries as executable
    Rocq functions, one definition per operation, and proves what makes each of
    them correct.

    ** Conventions

    An integer of the source is a [Z] kept at its width: the methods that
    saturate, wrap or fail at the end of a range are written out below, and a
    typing invariant carries the ranges.  Lengths and indices of vectors are
    [nat].  Code that may panic returns an [exec], whose [Panic] stands for a
    failed assertion, [unwrap] or index; code that returns an error returns a
    [result] or an [option].  A loop that is not structural takes fuel; running
    out of it is a [Panic], or the unchanged value where the loop only refines
    one, and the theorems prove that the fuel each caller passes is enough, by
    the measure named at the definition (the elements left, the distance to
    walk, the bits left).  Where several threads meet, the operations are cut at
    their atomic accesses into a step relation, and the theorems are about all
    interleavings.

    ** Parts

    - Virtual memory areas, [libs/mm]: [MmArea] (areas, flags, backings),
      [MmSet] (the sorted set and its operations), [MmView] (the address space
      as a function from addresses to cells, the contract), [MmMerge],
      [MmSetProofs], [MmQueries], [MmUpdates] (what each operation does to that
      function) and [MmProps].  The theorems: every reachable set is well formed
      and sorted; insertion, removal, protection and growth change exactly the
      cells they should; the gap searches return the lowest fit; the cached
      lookup is right whatever is cached.
    - Scheduling attributes, [libs/sched/src/sched_class.rs] and [eevdf.rs]:
      [SchedClass] and [Eevdf].  Validation accepts exactly the admissible
      attributes, weighting is the exact quotient, an entity gives back what was
      stored, and concurrent charges of a budget are linearizable.
    - Processors and topology, [libs/sched/src/cpu.rs]: [CpuMask], [Topology],
      [TopologyProofs], [TopologySelect], [TopologyProps].  A topology is
      accepted exactly when it is a tree of nested domains; the choice of a
      processor and of the balancing sources is characterised.
    - Deadline bandwidth, [libs/sched/src/deadline_admission.rs]:
      [DeadlineAdmission].  No processor is ever promised more than its
      capacity, and each operation changes exactly one reservation.
    - Flow execution lease, [libs/net/src/flow/execution.rs]: [FlowExecution].
      The packed atomic word behaves as a lease with one holder, and no work
      published is forgotten.
    - Bounded queue, [libs/net/src/ring.rs]: [Ring].  The slots with their
      sequence numbers are a bounded queue for many producers and one consumer.
    - Timer wheel, [libs/net/src/flow/timer.rs]: [TimerWheel] (the operations),
      [TimerLinks], [TimerCache], [TimerProofs], [TimerTick], [TimerProps].
      Four levels of linked slots behave as a set of armed timers, each firing
      once, in the order of the deadlines.
    - Flow table, [libs/net/src/flow/table.rs] and [address.rs]: [NetTypes]
      (with the Toeplitz hash), [FlowTable], [FlowTableProps].  The slab,
      the index and the list of pending work behave as a finite map with a queue,
      for any hash table that keeps its documented laws.
    - Packets and reassembly, [libs/net/src/pipeline/mod.rs],
      [libs/net/src/buf] and [libs/net/src/flow/reassembly.rs]: [Packet] (chains of
      fragments, the Internet checksum), [Reassembly] (the table), [ReassemblyTable] (eviction and limits), [ReassemblyBuild] (the
      rebuilt packet), [ReassemblyProofs] and [ReassemblyProps].  The fragments
      of a datagram reassemble into it in any order; whatever arrives, the
      limits hold and what is handed on arrived.

    - Filters of packets and of system calls, [libs/net/src/bpf.rs] and
      [general/src/seccomp.rs]: [BpfSpec] (the documented machine, with what its
      two hosts share), [Cbpf], [CbpfProps] and [Seccomp], [SeccompProps].
      Accepted programs end within one round
      per instruction and compute the answer of the documented machine; filters
      of a process combine in the order of installation and only restrict.  The
      fuel of a filter of system calls is its length, that of a socket filter
      the budget of steps the code has; both are proved enough.
    - Record locks, [libs/vfs/src/record_lock.rs]: [RecordLock],
      [RecordLockProofs] (locks as bytes and the normal form) and
      [RecordLockProps].  Readers and writers exclude each other byte by byte,
      requests change exactly their bytes, queries and the search for deadlocks
      are exact.  The fuel of that search is the number of waiting owners and
      three more rounds, proved enough.
      [SetlkWait] and [SetlkWaitProps] put the critical sections and the wait
      queues together into the whole of [setlk_inner] and of the closing path,
      for any number of tasks: no wake-up is lost.
    - Wait queues, [libs/sched/src/wait.rs] and the task states of [task.rs]:
      [WaitQueue], [WaitQueueProofs] and [WaitQueueProps].  The proofs hold the
      protocol that all users of the queues follow: a view of a system (who is
      registered where and for what, who owes a wake-up), its steps, and the
      invariant that says where the wake-up of a sleeping task is at any time.
      A subsystem is an instance of the class [Waiting], which asks that its
      steps be steps of the protocol; [no_lost_wakeup] then holds of it.  The
      instances are [wait_event], record locks, semaphores and the two kinds of
      message queues.
    - System V objects, [general/src/ipc] and the calls of
      [kernel/src/syscalls/ipc.rs]: [Cred] (credentials and modes,
      [libs/vfs/src/cred.rs] and [stat.rs]); [Ipc] (permissions, and the manager
      of numbers and keys, which [sem.rs] and [msg.rs] have a copy of each: a
      kind of object is an instance of the class [IpcObject], and the
      consistency of numbers, keys and objects is proved from its laws);
      [Sem], [SemProofs], [SemWait] (semop, semctl, semget, clone and exit as
      interleaved steps), [SemWaitProofs], [SemProps]; [Msg] (the queues, and
      msgsnd, msgrcv, msgctl and msgget as interleaved steps), [MsgProofs],
      [MsgProps].  A batch of semaphore operations is all or nothing, what is to
      be undone at exit is undone, the counts of waiting tasks are exact;
      a receive takes the message its mode stands for, and the messages of a type
      stay in order; no wake-up is lost.  Where that fails - a set that is
      removed under an exiting process, undo tables that are shared, values set
      under the adjustments of others, a receiver with a bad address, a limit
      that is raised - a run of the system shows it.  The search for a free
      number has the tries of the code, proved enough.  User memory, signals,
      timers and clocks may answer anything at every step; the status structures
      for user space are left out.
    - POSIX message queues, [general/src/ipc/mqueue.rs], their descriptors and
      directory in [general/src/vfs/mqueue.rs] and the calls of
      [kernel/src/syscalls/ipc.rs]: [Mqueue] (the queues, the registry of names,
      the calls, and sending, receiving, opening, unlinking and closing as
      interleaved steps over two wait queues for each object), [MqueueProofs],
      [MqueueProps].  The map from priorities to FIFOs behaves as one list in the
      order of priorities, with one registration that is told once; names stand
      one to one for live queues; no wake-up is lost, without exception.  The
      rights of descriptors and registrations are not kept, and the directory
      reaches no queue: theorems show it.  The sources that publish the state of
      a queue to [poll] and the delivery of notifications are left out.
    - The page allocator, [libs/allocator/src/buddy.rs] and the requests of
      [request.rs].  The operations: [Buddy] (descriptors, free lists,
      allocation, freeing, merging, requests, references, the page cache),
      [BuddyInit] (the start on a memory map, the release of reserved ranges,
      NUMA ranges), [BuddyAudit] (the audit, the frame calls), [BuddyOwners]
      (the lock-free index of slab pages, with its proofs).  A state-passing
      monad carries the allocator through code that may panic; a pointer to the
      descriptor [i] is [S i], and [0] is null.  The proofs, from the bottom:
      [BuddyLinks] (the intrusive lists), [BuddyBlocks] (blocks as intervals of pages), [BuddyShape] (the
      invariant, and merging), [BuddyProofs] (freeing, deferred merges),
      [BuddySplit], [BuddyAlloc], [BuddyExact], [BuddyRequest] (allocating),
      [BuddyRefs], [BuddySeed], [BuddyMeta] (reserved runs, segments and
      metadata), [BuddyStart] (starting), [BuddyRelease] (reserved ranges, NUMA), [BuddyAuditProofs],
      [BuddyOps] (sequences of operations) and [BuddyProps].
      From any start on a map of disjoint ranges, any sequence of operations
      runs without a panic, keeps every usable page in exactly one block, and
      passes the audit; an allocation succeeds exactly when an aligned run of
      free pages exists where it is asked for, and a block is taken back once.
      Until a reserved range is released, that is: its pages are not merged
      with their free neighbours, and the theorems on completeness say so.  The
      fuel of a walk is the number of descriptors it can meet, that of the
      deferred merges the square of it, that of the other loops the pages or the
      orders left; all are proved enough.
    ** Interfaces

    The hash table the flow table is built on is outside the sources; it is the
    class [HashTable] with the laws [HashTableLaws] of its documentation, and an
    association list is an instance of both.  The sizes and alignments the
    compiler gives to the tables of the page allocator are the class [Layouts].
    What other processors do to the slots of the slab index between two accesses
    is a function of the slots, bound only to leave an owner's own slots alone.
    The subsystems that wait meet the wait queues through the class [Waiting],
    and the System V objects their manager through [IpcObject] and
    [IpcObjectLaws].  The callbacks that operations take (the load of a
    processor, the success of an attribute change) are functions of the caller's
    state and unconstrained.

    ** Not modelled

    Memory orderings weaker than sequential consistency, allocation failure and
    the profiling features.  The parts of the kernel outside the files above:
    the run queues and task switching, the protocol engines and sockets, the
    kernel heap above the page allocator, shared memory and key rings, the file systems, module loading, the image parsers, page tables,
    and everything that talks to hardware; the manifest lists them with the
    reasons. *)

From stdpp Require Export base tactics list list_numbers option relations sets sorting.
From Stdlib Require Export ZArith Lia Sorted.

Set Default Goal Selector "!".

(** ** Machine integers

    Every integer of the source keeps its Rust width.  A value of type [uN] is
    a [Z] in the range [0 .. 2^N - 1]; the three supported targets are 64-bit,
    so [usize] is [u64].  The arithmetic below writes out what the Rust methods
    of the same name do at the end of the range. *)

Declare Scope rust_scope.
Delimit Scope rust_scope with rust.
#[global] Open Scope Z_scope.

Definition U8_MAX : Z := 255.
Definition U16_MAX : Z := 65535.
Definition U32_MAX : Z := 4294967295.
Definition U64_MAX : Z := 18446744073709551615.
Definition U64_MOD : Z := 18446744073709551616.
Definition I64_MAX : Z := 9223372036854775807.
Definition USIZE_MAX : Z := U64_MAX.

Definition is_u8 (x : Z) : Prop := 0 <= x <= U8_MAX.
Definition is_u16 (x : Z) : Prop := 0 <= x <= U16_MAX.
Definition is_u32 (x : Z) : Prop := 0 <= x <= U32_MAX.
Definition is_u64 (x : Z) : Prop := 0 <= x <= U64_MAX.

(** [u64::checked_add], [checked_sub]: [None] on overflow. *)
Definition checked_add (a b : Z) : option Z :=
  if a + b <=? U64_MAX then Some (a + b) else None.

Definition checked_sub (a b : Z) : option Z :=
  if b <=? a then Some (a - b) else None.

(** [u64::saturating_add], [saturating_sub], [saturating_mul]. *)
Definition saturating_add (a b : Z) : Z := Z.min U64_MAX (a + b).
Definition saturating_sub (a b : Z) : Z := Z.max 0 (a - b).
Definition saturating_mul (a b : Z) : Z := Z.min U64_MAX (a * b).

(** [u64::wrapping_add], [wrapping_sub], and the cast of a [usize] to [isize]. *)
Definition wrapping_add (a b : Z) : Z := (a + b) mod U64_MOD.
Definition wrapping_sub (a b : Z) : Z := (a - b) mod U64_MOD.
Definition as_isize (x : Z) : Z := if x <=? I64_MAX then x else x - U64_MOD.

(** [u32::try_from] and [u8::try_from] on an unsigned value. *)
Definition try_u32 (x : Z) : option Z := if x <=? U32_MAX then Some x else None.
Definition try_u8 (x : Z) : option Z := if x <=? U8_MAX then Some x else None.

(** [usize::is_power_of_two]. *)
Definition is_power_of_two (x : Z) : bool := (0 <? x) && (Z.land x (x - 1) =? 0).

(** Integers as little-endian bytes. *)
Definition le_bytes (n : nat) (v : Z) : list Z :=
  map (fun j => Z.land (Z.shiftr v (8 * Z.of_nat j)) 255) (seq 0 n).
Fixpoint of_le_bytes (l : list Z) : Z :=
  match l with [] => 0 | b :: l => b + 256 * of_le_bytes l end.

(** ** Failure

    A Rust function that may panic returns an [exec]: [Panic] is what a failed
    [assert!], [expect], [unwrap] or an index out of range does. *)

Inductive exec (A : Type) : Type :=
| Done (a : A)
| Panic.
Arguments Done {A} a.
Arguments Panic {A}.

#[global] Instance exec_ret : MRet exec := fun _ a => Done a.
#[global] Instance exec_bind : MBind exec := fun _ _ f m =>
  match m with Done a => f a | Panic => Panic end.
#[global] Instance exec_fmap : FMap exec := fun _ _ f m =>
  match m with Done a => Done (f a) | Panic => Panic end.

(** [Option::expect] and [Option::unwrap]. *)
Definition unwrap {A} (o : option A) : exec A :=
  match o with Some a => Done a | None => Panic end.

(** [Result]. *)
Inductive result (A E : Type) : Type :=
| Ok (a : A)
| Err (e : E).
Arguments Ok {A E} a.
Arguments Err {A E} e.

#[global] Instance result_eq_dec `{EqDecision A, EqDecision E} : EqDecision (result A E).
Proof. solve_decision. Defined.

(** The error numbers the modelled code returns. *)
Inductive Errno : Type :=
| EPERM | ENOENT | EINTR | E2BIG | EBADF | EAGAIN | EACCES | EFAULT | EBUSY | EEXIST | EINVAL | EMFILE | EFBIG | ENOSPC
| ERANGE | ENAMETOOLONG | EIDRM | EMSGSIZE | ETIMEDOUT.
#[global] Instance Errno_eq_dec : EqDecision Errno.
Proof. solve_decision. Defined.

(** ** Vectors *)

Section vectors.
Context {A : Type}.
Implicit Types (l : list A) (p : A -> bool).

(** [slice::partition_point], the binary search of the core library: [base]
    and [size] are its loop variables, the search ends when one element is
    left. [fuel] bounds the halvings; the length of the slice is enough. *)
Fixpoint partition_point_loop (fuel : nat) p l (base size : nat) : nat :=
  match fuel with
  | O => base
  | S fuel =>
      if (1 <? size)%nat then
        let half := (size / 2)%nat in
        let mid := (base + half)%nat in
        let base := match l !! mid with
                    | Some x => if p x then mid else base
                    | None => base
                    end in
        partition_point_loop fuel p l base (size - half)%nat
      else base
  end.

Definition partition_point p l : nat :=
  match l with
  | [] => 0%nat
  | _ =>
      let base := partition_point_loop (length l) p l 0 (length l) in
      match l !! base with
      | Some x => if p x then S base else base
      | None => base
      end
  end.

(** [Vec::insert] at a position that is at most the length. *)
Definition vec_insert (pos : nat) (x : A) l : list A := take pos l ++ x :: drop pos l.

(** [Vec::swap_remove]: the last element takes the place of the removed one. *)
Definition swap_remove (i : nat) l : list A :=
  match last l with
  | Some x => take (length l - 1) (<[i := x]> l)
  | None => l
  end.

(** [Iterator::position]. *)
Fixpoint position p l : option nat :=
  match l with
  | [] => None
  | x :: l => if p x then Some 0%nat else S <$> position p l
  end.

End vectors.

(** ** Lemmas on vectors *)

Section vector_lemmas.
Context {A : Type}.
Implicit Types (l : list A) (p : A -> bool).

(** A slice is partitioned at [k] by [p] when [p] holds before [k] and nowhere
    from [k] on: the precondition of [slice::partition_point]. *)
Definition partitioned p l (k : nat) : Prop :=
  (k <= length l)%nat /\
  (forall i x, l !! i = Some x -> p x = true <-> (i < k)%nat).

Lemma partition_point_loop_spec p l k fuel base size :
  partitioned p l k ->
  (base = 0 \/ base < k)%nat -> (k <= base + size)%nat ->
  (1 <= size)%nat -> (base + size <= length l)%nat -> (size <= fuel)%nat ->
  let b := partition_point_loop fuel p l base size in
  (b < length l)%nat /\ (b = 0 \/ b < k)%nat /\ (k <= S b)%nat.
Proof.
  intros [Hk Hp]. revert base size.
  induction fuel as [|fuel IH]; intros base size Hb Hks Hs Hl Hf;
    cbn [partition_point_loop]; [lia|].
  destruct (Nat.ltb_spec 1 size) as [H1|H1]; [|lia].
  assert (1 <= size / 2 < size)%nat as Hh.
  { split; [apply Nat.div_le_lower_bound; lia|apply Nat.div_lt; lia]. }
  pose proof (Nat.Div0.mul_div_le size 2) as Hh2.
  destruct (lookup_lt_is_Some_2 l (base + size / 2)) as [x Hx]; [lia|].
  rewrite Hx. specialize (Hp _ _ Hx).
  destruct (p x).
  - assert (base + size / 2 < k)%nat by (by apply Hp). apply IH; lia.
  - assert (~ (base + size / 2 < k)%nat) by (intros ?%Hp; done). apply IH; lia.
Qed.

(** On a partitioned slice the binary search finds the partition point. *)
Lemma partition_point_partitioned p l k :
  partitioned p l k -> partition_point p l = k.
Proof.
  intros Hpart. unfold partition_point. destruct l as [|y l].
  { destruct Hpart as [Hk _]. simpl in Hk. lia. }
  set (l' := y :: l) in *.
  destruct (partition_point_loop_spec p l' k (length l') 0 (length l'))
    as (Hlt & Hb & Hk); [done|lia|destruct Hpart; lia|simpl; lia|lia|lia|].
  destruct (lookup_lt_is_Some_2 l' _ Hlt) as [x Hx]. rewrite Hx.
  destruct Hpart as [_ Hp]. specialize (Hp _ _ Hx).
  destruct (p x); [assert (_ < k)%nat by (by apply Hp); lia|].
  assert (~ (partition_point_loop (length l') p l' 0 (length l') < k)%nat)
    by (intros ?%Hp; done). lia.
Qed.

Lemma partitioned_app p l1 l2 :
  Forall (fun x => p x = true) l1 -> Forall (fun x => p x = false) l2 ->
  partitioned p (l1 ++ l2) (length l1).
Proof.
  intros H1 H2. split; [rewrite length_app; lia|].
  intros i x [Hi|[Hi Hx]]%lookup_app_Some.
  - rewrite Forall_lookup in H1. apply lookup_lt_Some in Hi as ?.
    specialize (H1 _ _ Hi). naive_solver.
  - rewrite Forall_lookup in H2. specialize (H2 _ _ Hx). split; [congruence|lia].
Qed.

(** The slice split at its partition point. *)
Lemma partition_point_app p l1 l2 :
  Forall (fun x => p x = true) l1 -> Forall (fun x => p x = false) l2 ->
  partition_point p (l1 ++ l2) = length l1.
Proof. intros. by apply partition_point_partitioned, partitioned_app. Qed.

(** A predicate that is downwards closed along a strongly sorted slice splits
    it into a prefix where it holds and a suffix where it does not. *)
Lemma sorted_split (R : A -> A -> Prop) p l :
  StronglySorted R l ->
  (forall x y, x ∈ l -> y ∈ l -> R x y -> p y = true -> p x = true) ->
  exists l1 l2, l = l1 ++ l2 /\ partition_point p l = length l1 /\
    Forall (fun x => p x = true) l1 /\ Forall (fun x => p x = false) l2.
Proof.
  intros Hs Hdown.
  assert (exists l1 l2, l = l1 ++ l2 /\
    Forall (fun x => p x = true) l1 /\ Forall (fun x => p x = false) l2)
    as (l1 & l2 & -> & H1 & H2).
  { induction Hs as [|x l Hs IH Hx]; [by exists [], []|].
    destruct (p x) eqn:Hpx.
    - destruct IH as (l1 & l2 & -> & H1 & H2).
      { intros y z Hy Hz. apply Hdown; by right. }
      exists (x :: l1), l2. split_and!; [done|by constructor|done].
    - exists [], (x :: l). split_and!; [done|constructor|constructor; [done|]].
      rewrite Forall_forall in Hx |- *. intros y Hy.
      destruct (p y) eqn:Hpy; [|done]. exfalso.
      assert (p x = true); [|congruence].
      apply (Hdown x y); [left|by right|by apply Hx|done]. }
  exists l1, l2. split_and!; try done. by apply partition_point_app.
Qed.

Lemma vec_insert_app l1 l2 x :
  vec_insert (length l1) x (l1 ++ l2) = l1 ++ x :: l2.
Proof. unfold vec_insert. by rewrite take_app_length, drop_app_length. Qed.

(** [swap_remove] returns the other elements, in another order. *)
Lemma swap_remove_perm l i x :
  l !! i = Some x -> x :: swap_remove i l ≡ₚ l.
Proof.
  intros Hi. unfold swap_remove.
  destruct (last l) as [y|] eqn:Hlast; [|apply last_None in Hlast; by subst].
  apply last_Some in Hlast as [l' ->]. rewrite length_app. simpl.
  replace (length l' + 1 - 1)%nat with (length l') by lia.
  destruct (decide (i = length l')) as [->|Hne].
  - rewrite lookup_app_r in Hi by lia. rewrite Nat.sub_diag in Hi.
    injection Hi as <-.
    rewrite insert_app_r_alt by lia. rewrite Nat.sub_diag. simpl.
    rewrite take_app_length. by rewrite Permutation_app_comm.
  - pose proof (lookup_lt_Some _ _ _ Hi) as Hlt. rewrite length_app in Hlt.
    simpl in Hlt. rewrite insert_app_l by lia. rewrite lookup_app_l in Hi by lia.
    rewrite take_app_le by (rewrite length_insert; lia).
    rewrite take_ge by (rewrite length_insert; lia).
    rewrite (Permutation_app_comm l' [y]). simpl.
    rewrite <- (take_drop_middle l' i x Hi) at 2.
    rewrite insert_take_drop by lia.
    rewrite <- !Permutation_middle. apply perm_swap.
Qed.

Lemma length_swap_remove l i :
  (i < length l)%nat -> length (swap_remove i l) = (length l - 1)%nat.
Proof.
  intros [x Hx]%lookup_lt_is_Some_2.
  pose proof (Permutation_length (swap_remove_perm _ _ _ Hx)) as Hl. simpl in Hl. lia.
Qed.

Lemma take_swap_remove l i :
  (i < length l)%nat -> take i (swap_remove i l) = take i l.
Proof.
  intros Hi. unfold swap_remove. destruct (last l) as [x|] eqn:E; [|done].
  rewrite take_take. rewrite Nat.min_l by lia. by rewrite take_insert_ge by lia.
Qed.

(** Writing over an element, in terms of the other elements. *)
Lemma insert_swap_perm l i e x :
  l !! i = Some e -> <[i := x]> l ≡ₚ x :: swap_remove i l.
Proof.
  intros Hi. pose proof (swap_remove_perm _ _ _ Hi) as Hp.
  destruct (list_elem_of_split_length _ _ _ Hi) as (l1 & l2 & -> & ->).
  rewrite insert_app_r_alt by lia. rewrite Nat.sub_diag. simpl.
  rewrite <- Permutation_middle. constructor. apply (Permutation_cons_inv (a := e)).
  rewrite Hp. apply Permutation_middle.
Qed.

Lemma position_Some p l i :
  position p l = Some i ->
  exists x, l !! i = Some x /\ p x = true /\
    forall j y, (j < i)%nat -> l !! j = Some y -> p y = false.
Proof.
  revert i. induction l as [|a l IH]; simpl; intros i Hi; [done|].
  destruct (p a) eqn:Ha.
  - injection Hi as <-. exists a. split_and!; [done|done|lia].
  - apply fmap_Some in Hi as (j & Hj & ->).
    destruct (IH _ Hj) as (x & Hx & Hpx & Hmin). exists x.
    split_and!; [done|done|]. intros [|j'] y Hlt Hy; simpl in *; [congruence|].
    eapply Hmin; [|done]. lia.
Qed.

Lemma position_None p l :
  position p l = None <-> Forall (fun x => p x = false) l.
Proof.
  induction l as [|a l IH]; simpl; [by split|].
  destruct (p a) eqn:Ha; rewrite Forall_cons, Ha.
  - split; [done|naive_solver].
  - rewrite fmap_None. tauto.
Qed.

End vector_lemmas.

(** ** Lemmas on machine integers *)

Lemma checked_add_Some a b c : checked_add a b = Some c <-> a + b <= U64_MAX /\ c = a + b.
Proof.
  unfold checked_add. destruct (Z.leb_spec (a + b) U64_MAX); split; intros; simplify_eq;
    try naive_solver lia.
Qed.

Lemma checked_add_ok a b : a + b <= U64_MAX -> checked_add a b = Some (a + b).
Proof. intros. by apply checked_add_Some. Qed.

Lemma is_Some_checked_add a b : is_Some (checked_add a b) <-> a + b <= U64_MAX.
Proof.
  split; [intros [c [? ?]%checked_add_Some]; done|].
  intros. exists (a + b). by apply checked_add_Some.
Qed.

(** ** Little-endian bytes *)

Lemma of_le_bytes_app l l' : of_le_bytes (l ++ l') = of_le_bytes l + 256 ^ Z.of_nat (length l) * of_le_bytes l'.
Proof.
  induction l as [|b l IH]; cbn [app of_le_bytes length].
  - rewrite Z.pow_0_r. lia.
  - rewrite IH, Nat2Z.inj_succ, Z.pow_succ_r by lia. lia.
Qed.

Lemma le_bytes_S n v : le_bytes (S n) v = le_bytes n v ++ [Z.land (Z.shiftr v (8 * Z.of_nat n)) 255].
Proof. unfold le_bytes. by rewrite seq_S, map_app. Qed.

Lemma length_le_bytes n v : length (le_bytes n v) = n.
Proof. unfold le_bytes. by rewrite length_map, length_seq. Qed.

Lemma of_le_bytes_le n v : of_le_bytes (le_bytes n v) = v mod 256 ^ Z.of_nat n.
Proof.
  induction n as [|n IH].
  - by rewrite Z.mod_1_r.
  - rewrite le_bytes_S, of_le_bytes_app, IH, length_le_bytes. cbn [of_le_bytes].
    change 255 with (Z.ones 8). rewrite Z.land_ones, Z.shiftr_div_pow2 by lia.
    replace (2 ^ (8 * Z.of_nat n)) with (256 ^ Z.of_nat n) by (rewrite Z.pow_mul_r by lia; done).
    rewrite Nat2Z.inj_succ, Z.pow_succ_r, (Z.mul_comm 256 (256 ^ _)) by lia.
    rewrite (Z.rem_mul_r v) by (try apply Z.pow_nonzero; lia). change (2 ^ 8) with 256. ring.
Qed.

Lemma le_bytes_u8 n v : Forall is_u8 (le_bytes n v).
Proof.
  unfold le_bytes. apply Forall_forall. intros b (j & -> & _)%list_elem_of_fmap.
  change 255 with (Z.ones 8). rewrite Z.land_ones by lia. unfold is_u8, U8_MAX.
  pose proof (Z.mod_pos_bound (Z.shiftr v (8 * Z.of_nat j)) (2 ^ 8) ltac:(lia)). lia.
Qed.

(** ** Filters *)

Lemma filter_ext_elem {A} (P Q : A -> Prop) `{!forall x, Decision (P x)} `{!forall x, Decision (Q x)} (l : list A) :
  (forall x, x ∈ l -> P x <-> Q x) -> filter P l = filter Q l.
Proof.
  induction l as [|x l IH]; intros Hpq; [done|]. rewrite !filter_cons, IH by (intros; apply Hpq; by right).
  destruct (decide (P x)) as [Hp|Hp], (decide (Q x)) as [Hq|Hq]; try done; exfalso;
    specialize (Hpq x ltac:(by left)); tauto.
Qed.

Lemma Forall_filter_keep {A} (P Q : A -> Prop) `{!forall x, Decision (P x)} (l : list A) :
  Forall Q l -> Forall Q (filter P l).
Proof. rewrite !Forall_forall. intros Hl x [_ Hx]%list_elem_of_filter. by apply Hl. Qed.

Lemma filter_id {A} (P : A -> Prop) `{!forall x, Decision (P x)} (l : list A) :
  (forall x, x ∈ l -> P x) -> filter P l = l.
Proof.
  induction l as [|x l IH]; intros Hp; [done|]. rewrite filter_cons_True by (apply Hp; by left).
  f_equal. apply IH. intros y Hy. apply Hp. by right.
Qed.

(** ** Bit fields *)

Lemma testbit_above x w n : 0 <= x < 2 ^ w -> w <= n -> Z.testbit x n = false.
Proof.
  intros [Hx Hw] Hn. destruct (Z.eq_dec x 0) as [->|]; [apply Z.bits_0|].
  apply Z.bits_above_log2; [done|]. apply Z.log2_lt_pow2; [lia|].
  eapply Z.lt_le_trans; [exact Hw|]. apply Z.pow_le_mono_r; lia.
Qed.

Lemma testbit_split k a x n :
  0 <= k -> 0 <= x < 2 ^ k -> 0 <= n ->
  Z.testbit (a * 2 ^ k + x) n = if n <? k then Z.testbit x n else Z.testbit a (n - k).
Proof.
  intros Hk Hx Hn. rewrite <- Z.shiftl_mul_pow2 by done.
  rewrite (Z.add_nocarry_lxor (Z.shiftl a k) x).
  - rewrite Z.lxor_spec, Z.shiftl_spec by done. destruct (Z.ltb_spec n k).
    + rewrite (Z.testbit_neg_r a) by lia. by rewrite xorb_false_l.
    + rewrite (testbit_above x k n) by lia. by rewrite xorb_false_r.
  - apply Z.bits_inj'. intros m Hm. rewrite Z.land_spec, Z.shiftl_spec, Z.bits_0 by done.
    destruct (Z.lt_ge_cases m k).
    + by rewrite Z.testbit_neg_r by lia.
    + rewrite (testbit_above x k m) by lia. apply andb_false_r.
Qed.

Lemma bits_bound z k :
  0 <= k -> 0 <= z -> (forall n, k <= n -> Z.testbit z n = false) -> 0 <= z < 2 ^ k.
Proof.
  intros Hk Hz Hb. split; [done|]. replace z with (Z.land z (Z.ones k)).
  - rewrite Z.land_ones by done. apply Z.mod_pos_bound. lia.
  - apply Z.bits_inj'. intros n Hn. rewrite Z.land_spec, Z.testbit_ones_nonneg by done.
    destruct (Z.ltb_spec n k); [apply andb_true_r|]. by rewrite Hb.
Qed.

(** A bit operation works on the halves of a word separately. *)
Lemma land_split k a b x y :
  0 <= k -> 0 <= x < 2 ^ k -> 0 <= y < 2 ^ k ->
  Z.land (a * 2 ^ k + x) (b * 2 ^ k + y) = Z.land a b * 2 ^ k + Z.land x y.
Proof.
  intros Hk Hx Hy. apply Z.bits_inj'. intros n Hn.
  assert (0 <= Z.land x y < 2 ^ k).
  { apply bits_bound; [done|apply Z.land_nonneg; lia|]. intros m Hm.
    by rewrite Z.land_spec, (testbit_above x k m). }
  rewrite Z.land_spec, !testbit_split, !Z.land_spec by done. by destruct (n <? k).
Qed.

Lemma lor_split k a b x y :
  0 <= k -> 0 <= x < 2 ^ k -> 0 <= y < 2 ^ k ->
  Z.lor (a * 2 ^ k + x) (b * 2 ^ k + y) = Z.lor a b * 2 ^ k + Z.lor x y.
Proof.
  intros Hk Hx Hy. apply Z.bits_inj'. intros n Hn.
  assert (0 <= Z.lor x y < 2 ^ k).
  { apply bits_bound; [done|apply Z.lor_nonneg; lia|]. intros m Hm.
    by rewrite Z.lor_spec, (testbit_above x k m), (testbit_above y k m). }
  rewrite Z.lor_spec, !testbit_split, !Z.lor_spec by done. by destruct (n <? k).
Qed.

(** ** Automation *)

(** Unfold the integer ranges and close an arithmetic goal. *)
Ltac ulia :=
  unfold is_u8, is_u16, is_u32, is_u64, USIZE_MAX, U8_MAX, U16_MAX, U32_MAX,
    U64_MAX, U64_MOD, I64_MAX in *; lia.

(** Turn the boolean comparisons of the context into propositions. *)
Ltac reflect_bools :=
  repeat match goal with
  | H : _ && _ = true |- _ => apply andb_true_iff in H; destruct H
  | H : _ && _ = false |- _ => apply andb_false_iff in H
  | H : _ || _ = false |- _ => apply orb_false_iff in H; destruct H
  | H : _ || _ = true |- _ => apply orb_true_iff in H
  | H : negb _ = true |- _ => apply negb_true_iff in H
  | H : negb _ = false |- _ => apply negb_false_iff in H
  | H : (_ <? _) = true |- _ => apply Z.ltb_lt in H
  | H : (_ <? _) = false |- _ => apply Z.ltb_ge in H
  | H : (_ <=? _) = true |- _ => apply Z.leb_le in H
  | H : (_ <=? _) = false |- _ => apply Z.leb_gt in H
  | H : (_ =? _) = true |- _ => apply Z.eqb_eq in H
  | H : (_ =? _) = false |- _ => apply Z.eqb_neq in H
  end.


Lemma is_power_of_two_spec x :
  is_power_of_two x = true -> exists k, 0 <= k /\ x = 2 ^ k.
Proof.
  unfold is_power_of_two. intros H. reflect_bools.
  exists (Z.log2 x). split; [apply Z.log2_nonneg|].
  destruct (Z.log2_spec x) as [Hlo Hhi]; [done|].
  destruct (Z.eq_dec x (2 ^ Z.log2 x)) as [|Hne]; [done|exfalso].
  assert (Z.testbit (Z.land x (x - 1)) (Z.log2 x) = true) as Hbit.
  { rewrite Z.land_spec, Z.bit_log2 by done. simpl.
    assert (Z.log2 (x - 1) = Z.log2 x) as <-; [|apply Z.bit_log2; pose proof (Z.pow_pos_nonneg 2 (Z.log2 x)); pose proof (Z.log2_nonneg x); lia].
    apply Z.log2_unique; [apply Z.log2_nonneg|]. lia. }
  rewrite H0, Z.bits_0 in Hbit. done.
Qed.
