(* ===== verification/MmArea.v ===== *)
(** * Virtual memory areas

    The model of [libs/mm/src/flags.rs] and [libs/mm/src/area.rs]: the flag
    word of an area, the merge domain of a private anonymous mapping, the
    backing of an area and the area itself with its split and clip operations.

    Addresses, lengths, offsets and physical addresses are [Z] at their 64-bit
    width.  An [Arc] is its identity: the code only clones it and compares it
    with [Arc::ptr_eq]. *)

From S2P Require Import Prelude.

(** ** Flags ([VmFlags]) *)

Module VmFlags.

(** [VmFlags(u32)]. *)
Record VmFlags : Type := VmFlags_ { bits : Z }.

#[global] Instance VmFlags_eq_dec : EqDecision VmFlags.
Proof. solve_decision. Defined.

Definition EMPTY : VmFlags := VmFlags_ 0.
Definition READ : Z := Z.shiftl 1 0.
Definition WRITE : Z := Z.shiftl 1 1.
Definition EXEC : Z := Z.shiftl 1 2.
Definition PERM_MASK : Z := Z.lor (Z.lor READ WRITE) EXEC.
Definition USER : Z := Z.shiftl 1 8.
Definition SHARED : Z := Z.shiftl 1 9.
Definition GROWS_DOWN : Z := Z.shiftl 1 10.
Definition ANON : Z := Z.shiftl 1 11.
Definition LOCKED : Z := Z.shiftl 1 12.
Definition DONTFORK : Z := Z.shiftl 1 13.
Definition WIPEONFORK : Z := Z.shiftl 1 14.

Definition from_bits (b : Z) : VmFlags := VmFlags_ b.

(** [!mask] on a [u32]. *)
Definition not32 (m : Z) : Z := Z.lxor U32_MAX m.

Definition permissions (f : VmFlags) : VmFlags :=
  VmFlags_ (Z.land (bits f) PERM_MASK).

Definition with_permissions (f p : VmFlags) : VmFlags :=
  VmFlags_ (Z.lor (Z.land (bits f) (not32 PERM_MASK)) (Z.land (bits p) PERM_MASK)).

Definition has (f : VmFlags) (flag : Z) : bool :=
  (Z.land (bits f) flag =? flag) && negb (flag =? 0).

Definition with_ (f : VmFlags) (flag : Z) : VmFlags := VmFlags_ (Z.lor (bits f) flag).

Definition without (f : VmFlags) (flag : Z) : VmFlags :=
  VmFlags_ (Z.land (bits f) (not32 flag)).

Definition contains_all (f : VmFlags) (flags : Z) : bool :=
  negb (flags =? 0) && (Z.land (bits f) flags =? flags).

End VmFlags.
Abbreviation VmFlags := VmFlags.VmFlags.

(** ** Merge domains of private anonymous mappings *)

Module AnonMergeDomain.

Record AnonMergeDomain : Type := mk { id : Z; inherited : bool }.

#[global] Instance AnonMergeDomain_eq_dec : EqDecision AnonMergeDomain.
Proof. solve_decision. Defined.

(** [fresh]: the loop around the global counter [NEXT_ANON_MERGE_DOMAIN], which
    is passed in and out.  The counter wraps and zero is skipped; [fuel] bounds
    the iterations. *)
Fixpoint fresh_loop (fuel : nat) (next : Z) : option (AnonMergeDomain * Z) :=
  match fuel with
  | O => None
  | S fuel =>
      let i := next in
      let next := wrapping_add next 1 in
      if negb (i =? 0) then Some (mk i false, next) else fresh_loop fuel next
  end.

Definition fresh (next : Z) : option (AnonMergeDomain * Z) := fresh_loop 2 next.

Definition mark_inherited (d : AnonMergeDomain) : AnonMergeDomain := mk (id d) true.

Definition can_merge (self other : AnonMergeDomain) : bool :=
  (id self =? id other) || (negb (inherited self) && negb (inherited other)).

Definition same_snapshot_identity (self other : AnonMergeDomain) : bool :=
  id self =? id other.

End AnonMergeDomain.
Abbreviation AnonMergeDomain := AnonMergeDomain.AnonMergeDomain.

(** ** Backings *)

Module VmBacking.

(** The identity of an [Arc<SharedAnonObject>] or of an [Arc<dyn FileLike>]. *)
Definition ArcId : Type := Z.

Inductive VmBacking : Type :=
| Anon (merge_domain : AnonMergeDomain)
| SharedAnon (object : ArcId) (offset : Z)
| File (file : ArcId) (offset : Z)
| Direct (base : Z).

#[global] Instance VmBacking_eq_dec : EqDecision VmBacking.
Proof. solve_decision. Defined.

Definition anonymous (next : Z) : option (VmBacking * Z) :=
  '(d, next) ← AnonMergeDomain.fresh next; Some (Anon d, next).

Definition mark_fork_inherited (b : VmBacking) : VmBacking :=
  match b with
  | Anon d => Anon (AnonMergeDomain.mark_inherited d)
  | _ => b
  end.

Definition can_shift (b : VmBacking) (shift : Z) : bool :=
  match b with
  | Anon _ => true
  | SharedAnon _ offset | File _ offset => bool_decide (is_Some (checked_add offset shift))
  | Direct base => bool_decide (is_Some (checked_add base shift))
  end.

Definition checked_shift (b : VmBacking) (shift : Z) : option VmBacking :=
  match b with
  | Anon d => Some (Anon d)
  | SharedAnon object offset => o ← checked_add offset shift; Some (SharedAnon object o)
  | File file offset => o ← checked_add offset shift; Some (File file o)
  | Direct base => p ← checked_add base shift; Some (Direct p)
  end.

End VmBacking.
Abbreviation VmBacking := VmBacking.VmBacking.

(** ** Areas *)

(** [core::ops::Range<usize>]. *)
Record Range : Type := mkRange { start : Z; end_ : Z }.

#[global] Instance Range_eq_dec : EqDecision Range.
Proof. solve_decision. Defined.

Module VmArea.

Record VmArea : Type := mk { range : Range; flags : VmFlags; backing : VmBacking }.

#[global] Instance VmArea_eq_dec : EqDecision VmArea.
Proof. solve_decision. Defined.

Definition len (a : VmArea) : option Z := checked_sub (end_ (range a)) (start (range a)).

Definition is_well_formed (a : VmArea) : bool :=
  match len a with
  | None => false
  | Some n => negb (n =? 0) && VmBacking.can_shift (backing a) n
  end.

Definition contains (a : VmArea) (addr : Z) : bool :=
  (start (range a) <=? addr) && (addr <? end_ (range a)).

Definition overlap (a : VmArea) (other : Range) : bool :=
  (start (range a) <? end_ other) && (start other <? end_ (range a)).

Definition split_at (a : VmArea) (addr : Z) : option (VmArea * VmArea) :=
  if negb (is_well_formed a) || (addr <=? start (range a)) || (end_ (range a) <=? addr)
  then None
  else
    let left := mk (mkRange (start (range a)) addr) (flags a) (backing a) in
    right_backing ← VmBacking.checked_shift (backing a) (addr - start (range a));
    let right := mk (mkRange addr (end_ (range a))) (flags a) right_backing in
    Some (left, right).

Definition clip_to (a : VmArea) (clip : Range) : option VmArea :=
  if negb (is_well_formed a) then None
  else
    let s := Z.max (start (range a)) (start clip) in
    let e := Z.min (end_ (range a)) (end_ clip) in
    if e <=? s then None
    else
      b ← VmBacking.checked_shift (backing a) (s - start (range a));
      Some (mk (mkRange s e) (flags a) b).

(** Field updates. *)
Definition set_flags (a : VmArea) (f : VmFlags) : VmArea := mk (range a) f (backing a).
Definition set_start (a : VmArea) (s : Z) : VmArea :=
  mk (mkRange s (end_ (range a))) (flags a) (backing a).
Definition set_end (a : VmArea) (e : Z) : VmArea :=
  mk (mkRange (start (range a)) e) (flags a) (backing a).
Definition set_backing (a : VmArea) (b : VmBacking) : VmArea := mk (range a) (flags a) b.

End VmArea.
Abbreviation VmArea := VmArea.VmArea.
