(* ===== verification/MmSet.v ===== *)
(** * The set of areas of an address space

    The model of [libs/mm/src/set.rs]: a vector of areas sorted by start
    address, with the index cached by the last lookup.  Every operation is a
    function on the whole set; a method that takes [&self] but writes the cache
    cell returns the new set too.  The [expect]s of [unmap_range] are modelled
    by [Panic]; [debug_assert!]s are not evaluated in a release build and are
    omitted. *)

From S2P Require Import Prelude MmArea.

Module VmaSet.
Import VmArea.

Record VmaSet : Type := mk { areas : list VmArea; last_find : option nat }.

Definition set_areas (self : VmaSet) (l : list VmArea) : VmaSet := mk l (last_find self).

Definition new : VmaSet := mk [] None.

Definition len (self : VmaSet) : nat := length (areas self).

Definition is_empty (self : VmaSet) : bool :=
  match areas self with [] => true | _ => false end.

(** ** Merging *)

Definition checked_offset_after (offset len : Z) : option Z := checked_add offset len.

Definition can_merge_areas (left_ right_ : VmArea) : bool :=
  if negb (is_well_formed left_) || negb (is_well_formed right_)
     || negb (end_ (range left_) =? start (range right_))
     || negb (bool_decide (flags left_ = flags right_))
  then false
  else
    let left_len := end_ (range left_) - start (range left_) in
    match backing left_, backing right_ with
    | VmBacking.Anon left_domain, VmBacking.Anon right_domain =>
        AnonMergeDomain.can_merge left_domain right_domain
    | VmBacking.SharedAnon left_object left_offset,
      VmBacking.SharedAnon right_object right_offset =>
        (left_object =? right_object)
        && bool_decide (checked_offset_after left_offset left_len = Some right_offset)
    | VmBacking.File left_file left_offset, VmBacking.File right_file right_offset =>
        (left_file =? right_file)
        && bool_decide (checked_offset_after left_offset left_len = Some right_offset)
    | VmBacking.Direct left_base, VmBacking.Direct right_base =>
        bool_decide (checked_add left_base left_len = Some right_base)
    | _, _ => false
    end.

Definition next_idx (l : list VmArea) (pos : nat) : option nat :=
  if (S pos <? length l)%nat then Some (S pos) else None.

(** [try_merge_pair]: whether [areas[i]] and [areas[i+1]] were merged, and the
    vector after it. *)
Definition try_merge_pair (l : list VmArea) (i : nat) : bool * list VmArea :=
  match l !! i, l !! S i with
  | Some left_, Some right_ =>
      if can_merge_areas left_ right_
      then (true, <[i := set_end left_ (end_ (range right_))]> (delete (S i) l))
      else (false, l)
  | _, _ => (false, l)
  end.

(** The [while] loop of [merge_around]; each round removes an element. *)
Fixpoint merge_right (fuel : nat) (l : list VmArea) (pos : nat) : list VmArea :=
  match fuel with
  | O => l
  | S fuel =>
      match next_idx l pos with
      | None => l
      | Some _ =>
          match try_merge_pair l pos with
          | (true, l) => merge_right fuel l pos
          | (false, l) => l
          end
      end
  end.

Definition merge_around (l : list VmArea) (pos : nat) : list VmArea :=
  let '(l, pos) :=
    if (0 <? pos)%nat then
      match try_merge_pair l (pos - 1) with
      | (true, l) => (l, (pos - 1)%nat)
      | (false, l) => (l, pos)
      end
    else (l, pos) in
  merge_right (length l) l pos.

(** The [while] loop of [merge_neighbors]; each round removes an element or
    advances. *)
Fixpoint merge_neighbors_loop (fuel : nat) (l : list VmArea) (pos : nat) : list VmArea :=
  match fuel with
  | O => l
  | S fuel =>
      match next_idx l pos with
      | None => l
      | Some _ =>
          match try_merge_pair l pos with
          | (true, l) => merge_neighbors_loop fuel l pos
          | (false, l) => merge_neighbors_loop fuel l (S pos)
          end
      end
  end.

Definition merge_neighbors (self : VmaSet) : VmaSet :=
  if is_empty self then self
  else set_areas self (merge_neighbors_loop (len self) (areas self) 0).

(** ** Queries *)

Definition overlaps_range (self : VmaSet) (r : Range) : bool :=
  let l := areas self in
  let idx := partition_point (fun a => start (range a) <? start r) l in
  if (0 <? idx)%nat
     && match l !! (idx - 1)%nat with
        | Some prev => start r <? end_ (range prev)
        | None => false
        end
  then true
  else match l !! idx with
       | Some a => start (range a) <? end_ r
       | None => false
       end.

Definition is_range_free (self : VmaSet) (r : Range) : bool :=
  (start r <? end_ r) && negb (overlaps_range self r).

Definition find_area_index (self : VmaSet) (addr : Z) : option nat * VmaSet :=
  let l := areas self in
  let cached :=
    idx ← last_find self; a ← l !! idx;
    if contains a addr then Some idx else None in
  match cached with
  | Some idx => (Some idx, self)
  | None =>
      let next := partition_point (fun a => start (range a) <=? addr) l in
      let found :=
        match next with
        | O => None
        | S idx =>
            match l !! idx with
            | Some a => if addr <? end_ (range a) then Some idx else None
            | None => None
            end
        end in
      (found, mk l found)
  end.

Definition find (self : VmaSet) (addr : Z) : option VmArea * VmaSet :=
  let '(idx, self) := find_area_index self addr in
  (i ← idx; areas self !! i, self).

(** [find_mut] followed by [VmAreaMut::set_flags], the only mutation the
    restricted view offers. *)
Definition find_mut_set_flags (self : VmaSet) (addr : Z) (f : VmFlags) : bool * VmaSet :=
  let '(idx, self) := find_area_index self addr in
  match idx with
  | None => (false, self)
  | Some i => (true, set_areas self (alter (fun a => set_flags a f) i (areas self)))
  end.

Definition iter_overlap (self : VmaSet) (r : Range) : list VmArea :=
  let end_bound := partition_point (fun a => start (range a) <? end_ r) (areas self) in
  filter (fun v => ((start r <? end_ r) && (start (range v) <? end_ (range v))
                    && (start r <? end_ (range v))) = true)
    (take end_bound (areas self)).

Fixpoint contains_range_loop (l : list VmArea) (r : Range) (cursor : Z) : bool :=
  match l with
  | [] => false
  | a :: l =>
      if negb (is_well_formed a) then false
      else if cursor <? start (range a) then false
      else
        let cursor := Z.max cursor (end_ (range a)) in
        if end_ r <=? cursor then true else contains_range_loop l r cursor
  end.

Definition contains_range (self : VmaSet) (r : Range) : bool :=
  if end_ r <=? start r then false
  else contains_range_loop (iter_overlap self r) r (start r).

Fixpoint find_gap_loop (l : list VmArea) (search : Range) (len cursor : Z) : option Range :=
  match l with
  | [] =>
      if (cursor <=? end_ search) && (len <=? end_ search - cursor)
      then e ← checked_add cursor len; Some (mkRange cursor e)
      else None
  | a :: l =>
      if negb (is_well_formed a) then None
      else if end_ (range a) <=? start search then find_gap_loop l search len cursor
      else
        let gap_end := Z.min (start (range a)) (end_ search) in
        if (cursor <=? gap_end) && (len <=? gap_end - cursor)
        then e ← checked_add cursor len; Some (mkRange cursor e)
        else
          let cursor := Z.max cursor (end_ (range a)) in
          if end_ search <=? cursor then None else find_gap_loop l search len cursor
  end.

Definition find_gap (self : VmaSet) (search : Range) (len : Z) : option Range :=
  if (len =? 0) || (end_ search <=? start search) then None
  else
    let end_bound :=
      partition_point (fun a => start (range a) <? end_ search) (areas self) in
    find_gap_loop (take end_bound (areas self)) search len (start search).

(** The closure [align_up] of [find_aligned_gap]. *)
Definition align_up (alignment value : Z) : option Z :=
  aligned ← checked_add value (alignment - 1);
  Some (Z.land aligned (Z.lxor USIZE_MAX (alignment - 1))).

Fixpoint find_aligned_gap_loop (l : list VmArea) (search : Range)
    (len alignment cursor : Z) : option Range :=
  match l with
  | [] =>
      aligned ← align_up alignment cursor;
      e ← checked_add aligned len;
      if e <=? end_ search then Some (mkRange aligned e) else None
  | a :: l =>
      if negb (is_well_formed a) then None
      else if end_ (range a) <=? start search
      then find_aligned_gap_loop l search len alignment cursor
      else
        let gap_end := Z.min (start (range a)) (end_ search) in
        let continue_ :=
          let cursor := Z.max cursor (end_ (range a)) in
          if end_ search <=? cursor then None
          else find_aligned_gap_loop l search len alignment cursor in
        if cursor <? gap_end then
          aligned ← align_up alignment cursor;
          e ← checked_add aligned len;
          if e <=? gap_end then Some (mkRange aligned e) else continue_
        else continue_
  end.

Definition find_aligned_gap (self : VmaSet) (search : Range) (len alignment : Z)
  : option Range :=
  if (len =? 0) || (end_ search <=? start search) || (alignment =? 0)
     || negb (is_power_of_two alignment)
  then None
  else
    let end_bound :=
      partition_point (fun a => start (range a) <? end_ search) (areas self) in
    find_aligned_gap_loop (take end_bound (areas self)) search len alignment (start search).

(** ** Updates *)

Definition insert (self : VmaSet) (area : VmArea) : result unit Errno * VmaSet :=
  if negb (is_well_formed area) then (Err EINVAL, self)
  else if overlaps_range self (range area) then (Err EEXIST, self)
  else
    let pos :=
      partition_point (fun a => start (range a) <? start (range area)) (areas self) in
    let l := vec_insert pos area (areas self) in
    (Ok tt, set_areas self (merge_around l pos)).

Definition grow_down_to (self : VmaSet) (page max_growth : Z)
  : option (Range * VmFlags) * VmaSet :=
  let l := areas self in
  let res :=
    threshold ← checked_add page 1;
    let idx := partition_point (fun a => start (range a) <? threshold) l in
    area ← l !! idx;
    let key := start (range area) in
    if negb (is_well_formed area) then None
    else if (start (range area) <=? page)
            || negb (VmFlags.has (flags area) VmFlags.GROWS_DOWN) then None
    else if match backing area with VmBacking.Anon _ => false | _ => true end then None
    else if (0 <? idx)%nat
            && match l !! (idx - 1)%nat with
               | Some prev => page <? end_ (range prev)
               | None => false
               end then None
    else
      let lowest := saturating_sub (end_ (range area)) max_growth in
      if page <? lowest then None
      else Some ((mkRange page key, flags area), <[idx := set_start area page]> l) in
  match res with
  | Some (r, l) => (Some r, set_areas self l)
  | None => (None, self)
  end.

(** The body of the first loop of [unmap_range]: the part of the area to the
    left of the range, the part inside it and the part to its right. *)
Definition unmap_one (area : VmArea) (r : Range)
  : exec (option VmArea * VmArea * option VmArea) :=
  '(mid_start, carry_left) ←
    (if start (range area) <? start r
     then '(left_, rest) ← unwrap (split_at area (start r));
          Done (start (range rest), Some left_)
     else Done (start (range area), None));
  area_rest ← unwrap (clip_to area (mkRange mid_start (end_ (range area))));
  '(mid_part, right_residual) ←
    (if end_ r <? end_ (range area_rest)
     then '(mid, right_) ← unwrap (split_at area_rest (end_ r));
          Done (mid, Some right_)
     else Done (area_rest, None));
  Done (carry_left, mid_part, right_residual).

(** The first loop, over the areas drained from the vector: the removed pieces
    and the residuals, in the order they are pushed. *)
Fixpoint unmap_loop (overlapping : list VmArea) (r : Range)
  : exec (list VmArea * list VmArea) :=
  match overlapping with
  | [] => Done ([], [])
  | area :: rest =>
      if negb (is_well_formed area) then unmap_loop rest r
      else
        '(carry_left, mid_part, right_residual) ← unmap_one area r;
        '(removed, residuals) ← unmap_loop rest r;
        Done (mid_part :: removed,
              option_list carry_left ++ option_list right_residual ++ residuals)
  end.

(** One round of the second loop: a residual goes back to its sorted place. *)
Definition reinsert (l : list VmArea) (r : VmArea) : list VmArea :=
  let pos := partition_point (fun a => start (range a) <? start (range r)) l in
  vec_insert pos r l.

Definition unmap_range (self : VmaSet) (r : Range) : exec (list VmArea * VmaSet) :=
  if end_ r <=? start r then Done ([], self)
  else
    let l := areas self in
    let first := partition_point (fun a => end_ (range a) <=? start r) l in
    let last := partition_point (fun a => start (range a) <? end_ r) l in
    if (last <=? first)%nat then Done ([], self)
    else
      let overlapping := drop first (take last l) in
      '(removed, residuals) ← unmap_loop overlapping r;
      let l := fold_left reinsert residuals (take first l ++ drop last l) in
      Done (removed, set_areas self l).

(** The loop shared by [protect_range] and [update_flags_range]: every removed
    piece gets its new flags and is inserted again. *)
Fixpoint reflag_loop (update : VmFlags -> VmFlags) (pieces : list VmArea) (self : VmaSet)
  : list (Range * VmFlags) * VmaSet :=
  match pieces with
  | [] => ([], self)
  | p :: pieces =>
      let p := set_flags p (update (flags p)) in
      let '(_, self) := insert self p in
      let '(out, self) := reflag_loop update pieces self in
      ((range p, flags p) :: out, self)
  end.

Definition update_flags_range (self : VmaSet) (r : Range) (update : VmFlags -> VmFlags)
  : exec (list (Range * VmFlags) * VmaSet) :=
  '(cut_pieces, self) ← unmap_range self r;
  let '(out, self) := reflag_loop update cut_pieces self in
  Done (out, merge_neighbors self).

Definition protect_range (self : VmaSet) (r : Range) (new_flags : VmFlags)
  : exec (list (Range * VmFlags) * VmaSet) :=
  '(cut_pieces, self) ← unmap_range self r;
  let '(out, self) :=
    reflag_loop
      (fun f => VmFlags.with_permissions f (VmFlags.permissions new_flags))
      cut_pieces self in
  Done (out, merge_neighbors self).

Definition protect_single_area (self : VmaSet) (r : Range) (new_flags : VmFlags)
  : option bool * VmaSet :=
  let l := areas self in
  let res :=
    if end_ r <=? start r then None
    else
      match partition_point (fun a => start (range a) <=? start r) l with
      | O => None
      | S idx =>
          area ← l !! idx;
          if negb (is_well_formed area) || (start r <? start (range area))
             || (end_ (range area) <? end_ r)
          then None
          else
            let permissions := VmFlags.permissions new_flags in
            let protect a := set_flags a (VmFlags.with_permissions (flags a) permissions) in
            if bool_decide (VmFlags.permissions (flags area) = permissions)
            then Some (false, l)
            else
              match start r =? start (range area), end_ r =? end_ (range area) with
              | true, true =>
                  Some (true, merge_around (<[idx := protect area]> l) idx)
              | true, false =>
                  '(protected, right_) ← split_at area (end_ r);
                  Some (true,
                    merge_around
                      (vec_insert (idx + 1) right_ (<[idx := protect protected]> l)) idx)
              | false, true =>
                  '(left_, protected) ← split_at area (start r);
                  Some (true,
                    merge_around
                      (vec_insert (idx + 1) (protect protected) (<[idx := left_]> l))
                      (idx + 1))
              | false, false =>
                  '(left_, remainder) ← split_at area (start r);
                  '(protected, right_) ← split_at remainder (end_ r);
                  Some (true,
                    merge_around
                      (vec_insert (idx + 2) right_
                         (vec_insert (idx + 1) (protect protected) (<[idx := left_]> l)))
                      (idx + 1))
              end
      end in
  match res with
  | Some (b, l) => (Some b, set_areas self l)
  | None => (None, self)
  end.

(** [fork_clone_metadata]: the child's set and the parent's after the call. *)
Definition fork_clone_metadata (self : VmaSet) : VmaSet * VmaSet :=
  let l := map (fun a => set_backing a (VmBacking.mark_fork_inherited (backing a)))
             (areas self) in
  (mk (filter (fun a => VmFlags.has (flags a) VmFlags.DONTFORK = false) l) None,
   set_areas self l).

Definition take_all (self : VmaSet) : list VmArea * VmaSet := (areas self, mk [] None).

End VmaSet.
Abbreviation VmaSet := VmaSet.VmaSet.
