(* ===== verification/MmView.v ===== *)
(** * What a set of areas means

    The abstract specification of a [VmaSet]: the partial function from
    addresses to cells that it represents, the invariant the documentation of
    [libs/mm/src/set.rs] states, and the lemmas that relate the elementary
    moves on the vector (split, clip, merge, sorted insertion) to that
    function. *)

From S2P Require Import Prelude MmArea MmSet.
Import VmArea VmaSet.

(** ** The abstract address space *)

(** Where the contents of one address come from.  A private anonymous address
    carries the seal that [fork] puts on it; the identity of its merge domain
    is not observable, since merging keeps one of two unsealed identities. *)
Inductive source : Type :=
| SrcAnon (sealed : bool)
| SrcShared (object : Z) (offset : Z)
| SrcFile (file : Z) (offset : Z)
| SrcDirect (paddr : Z).

Definition cell : Type := VmFlags * source.

(** The source of the address at distance [d] from the start of the area. *)
Definition source_at (b : VmBacking) (d : Z) : source :=
  match b with
  | VmBacking.Anon m => SrcAnon (AnonMergeDomain.inherited m)
  | VmBacking.SharedAnon object offset => SrcShared object (offset + d)
  | VmBacking.File file offset => SrcFile file (offset + d)
  | VmBacking.Direct base => SrcDirect (base + d)
  end.

Definition cell_at (a : VmArea) (addr : Z) : cell :=
  (flags a, source_at (backing a) (addr - start (range a))).

Definition area_view (a : VmArea) (addr : Z) : option cell :=
  if contains a addr then Some (cell_at a addr) else None.

(** The address space a vector of areas represents. *)
Fixpoint view (l : list VmArea) (addr : Z) : option cell :=
  match l with
  | [] => None
  | a :: l => if contains a addr then Some (cell_at a addr) else view l addr
  end.

Definition in_range (r : Range) (addr : Z) : bool :=
  (start r <=? addr) && (addr <? end_ r).

(** ** The invariant *)

Definition wf (a : VmArea) : Prop := is_well_formed a = true.

Definition before (a b : VmArea) : Prop := end_ (range a) <= start (range b).

(** The merge domain of a private anonymous area. *)
Definition dom_of (a : VmArea) : option AnonMergeDomain :=
  match backing a with VmBacking.Anon d => Some d | _ => None end.

(** Two areas that come from one mapping agree on whether it was inherited. *)
Definition uniform (l : list VmArea) : Prop :=
  forall a b da db, a ∈ l -> b ∈ l -> dom_of a = Some da -> dom_of b = Some db ->
    AnonMergeDomain.id da = AnonMergeDomain.id db ->
    AnonMergeDomain.inherited da = AnonMergeDomain.inherited db.

(** Well-formed areas, strictly ascending and disjoint, with consistent merge
    domains. *)
Record inv (l : list VmArea) : Prop := mk_inv {
  inv_wf : Forall wf l;
  inv_sorted : StronglySorted before l;
  inv_uniform : uniform l
}.

Create HintDb mm.
#[export] Hint Resolve inv_wf inv_sorted inv_uniform : mm.

(** ** Areas *)

(** What well-formedness says of the backing. *)
Definition covers (b : VmBacking) (n : Z) : Prop :=
  match b with
  | VmBacking.Anon _ => True
  | VmBacking.SharedAnon _ offset | VmBacking.File _ offset => offset + n <= U64_MAX
  | VmBacking.Direct base => base + n <= U64_MAX
  end.

Lemma can_shift_covers b n : VmBacking.can_shift b n = true <-> covers b n.
Proof.
  destruct b; simpl; [done|..]; rewrite bool_decide_eq_true; apply is_Some_checked_add.
Qed.

Lemma wf_iff a :
  wf a <-> start (range a) < end_ (range a) /\
           covers (backing a) (end_ (range a) - start (range a)).
Proof.
  unfold wf, is_well_formed, VmArea.len, checked_sub.
  destruct (Z.leb_spec (start (range a)) (end_ (range a))) as [H|H].
  - rewrite andb_true_iff, negb_true_iff, Z.eqb_neq, can_shift_covers. split; intros []; split;
      auto; lia.
  - split; [done|lia].
Qed.

Lemma wf_nonempty a : wf a -> start (range a) < end_ (range a).
Proof. rewrite wf_iff. tauto. Qed.

Lemma covers_le b n m : covers b n -> m <= n -> covers b m.
Proof. destruct b; simpl; lia. Qed.

Lemma contains_true a addr :
  contains a addr = true <-> start (range a) <= addr < end_ (range a).
Proof. unfold contains. rewrite andb_true_iff, Z.leb_le, Z.ltb_lt. tauto. Qed.

Lemma contains_false a addr :
  contains a addr = false <-> addr < start (range a) \/ end_ (range a) <= addr.
Proof. unfold contains. rewrite andb_false_iff, Z.leb_gt, Z.ltb_ge. tauto. Qed.

Lemma in_range_true r addr : in_range r addr = true <-> start r <= addr < end_ r.
Proof. unfold in_range. rewrite andb_true_iff, Z.leb_le, Z.ltb_lt. tauto. Qed.

Lemma in_range_false r addr : in_range r addr = false <-> addr < start r \/ end_ r <= addr.
Proof. unfold in_range. rewrite andb_false_iff, Z.leb_gt, Z.ltb_ge. tauto. Qed.

(** Shifting a backing moves the origin of its sources. *)
Lemma checked_shift_spec b n b' :
  VmBacking.checked_shift b n = Some b' ->
  (forall d, source_at b' d = source_at b (n + d)) /\
  (forall m, covers b (n + m) -> covers b' m) /\
  (forall f f' r r', dom_of (VmArea.mk r f b) = dom_of (VmArea.mk r' f' b')).
Proof.
  destruct b; simpl; intros H; simplify_option_eq; simpl;
    repeat match goal with
    | H : checked_add _ _ = Some _ |- _ => apply checked_add_Some in H as [? ->]
    end; split_and!; eauto; intros; try (f_equal; lia); lia.
Qed.

Lemma checked_shift_covers b n :
  covers b n -> exists b', VmBacking.checked_shift b n = Some b'.
Proof. destruct b; simpl; intros; [eauto|..]; rewrite checked_add_ok by done; simpl; eauto. Qed.

(** Splitting an area keeps every cell. *)
Lemma split_at_Some a x l r :
  split_at a x = Some (l, r) ->
  wf a /\ wf l /\ wf r /\ start (range a) < x < end_ (range a) /\
  range l = mkRange (start (range a)) x /\ range r = mkRange x (end_ (range a)) /\
  flags l = flags a /\ flags r = flags a /\
  dom_of l = dom_of a /\ dom_of r = dom_of a /\
  (forall y, cell_at l y = cell_at a y) /\ (forall y, cell_at r y = cell_at a y).
Proof.
  unfold split_at. destruct (_ || _) eqn:Hg; [done|]. reflect_bools.
  intros Hs. apply bind_Some in Hs as (b & Hb & Hs). simplify_eq.
  assert (wf a) as Ha by done. apply wf_iff in Ha as Ha'. destruct Ha' as [_ Hc].
  apply checked_shift_spec in Hb as (Hsrc & Hcov & Hdom).
  split_and!; try done.
  - apply wf_iff. simpl. split; [lia|]. eapply covers_le; [done|]. lia.
  - apply wf_iff. simpl. split; [lia|]. apply Hcov. eapply covers_le; [done|]. lia.
  - unfold dom_of at 2. by rewrite <- (Hdom (flags a) (flags a) (range a)).
  - intros y. unfold cell_at. simpl. rewrite Hsrc. do 2 f_equal. lia.
Qed.

Lemma split_at_ok a x :
  wf a -> start (range a) < x < end_ (range a) -> exists l r, split_at a x = Some (l, r).
Proof.
  intros Ha Hx. unfold split_at. rewrite Ha. simpl.
  destruct (Z.leb_spec x (start (range a))); [lia|].
  destruct (Z.leb_spec (end_ (range a)) x); [lia|]. simpl.
  destruct (checked_shift_covers (backing a) (x - start (range a))) as [b ->]; [|simpl; eauto].
  apply wf_iff in Ha as [_ Hc]. eapply covers_le; [done|]. lia.
Qed.

(** Clipping an area keeps the cells of the clip. *)
Lemma clip_to_Some a c a' :
  clip_to a c = Some a' ->
  wf a' /\ range a' = mkRange (Z.max (start (range a)) (start c))
                              (Z.min (end_ (range a)) (end_ c)) /\
  flags a' = flags a /\ dom_of a' = dom_of a /\
  (forall y, cell_at a' y = cell_at a y).
Proof.
  unfold clip_to. destruct (is_well_formed a) eqn:Ha; [|done]. simpl.
  case_match; [done|]. reflect_bools.
  intros H'. apply bind_Some in H' as (b & Hb & H'). simplify_eq.
  apply wf_iff in Ha as [_ Hc].
  apply checked_shift_spec in Hb as (Hsrc & Hcov & Hdom). split_and!; try done.
  - apply wf_iff. simpl. split; [lia|]. apply Hcov. eapply covers_le; [done|]. lia.
  - unfold dom_of at 2. by rewrite <- (Hdom (flags a) (flags a) (range a)).
  - intros y. unfold cell_at. simpl. rewrite Hsrc. do 2 f_equal. lia.
Qed.

Lemma clip_to_ok a c :
  wf a -> Z.max (start (range a)) (start c) < Z.min (end_ (range a)) (end_ c) ->
  exists a', clip_to a c = Some a'.
Proof.
  intros Ha Hx. unfold clip_to. rewrite Ha. simpl.
  case_match; reflect_bools; [lia|].
  destruct (checked_shift_covers (backing a)
    (Z.max (start (range a)) (start c) - start (range a))) as [b ->]; [|simpl; eauto].
  apply wf_iff in Ha as [_ Hc]. eapply covers_le; [done|]. lia.
Qed.

(** Merging two areas keeps every cell. *)
Lemma can_merge_areas_spec a b :
  can_merge_areas a b = true -> uniform [a; b] ->
  wf a /\ wf b /\ wf (set_end a (end_ (range b))) /\ end_ (range a) = start (range b) /\
  (forall y, cell_at (set_end a (end_ (range b))) y = cell_at a y) /\
  (forall y, cell_at (set_end a (end_ (range b))) y = cell_at b y).
Proof.
  unfold can_merge_areas. destruct (_ || _) eqn:Hg; [done|]. reflect_bools.
  intros Hm Hu. assert (wf a) as Ha by done. assert (wf b) as Hb by done.
  apply bool_decide_eq_true in H0.
  apply wf_iff in Ha as [Ha Hca], Hb as [Hb Hcb].
  split_and!; try done; unfold set_end.
  - apply wf_iff. simpl. split; [lia|].
    destruct (backing a), (backing b); simpl in *; try done; reflect_bools;
      repeat match goal with H : _ = true |- _ => apply bool_decide_eq_true in H end;
      unfold checked_offset_after in *;
      repeat match goal with H : checked_add _ _ = Some _ |- _ =>
        apply checked_add_Some in H as [? ->] end; lia.
  - intros y. unfold cell_at. simpl. rewrite H0. f_equal.
    specialize (Hu a b). unfold dom_of in Hu.
    destruct (backing a) as [da|?|?|?], (backing b) as [db|?|?|?]; simpl in *; try done;
      reflect_bools;
      repeat match goal with H : bool_decide _ = true |- _ => apply bool_decide_eq_true in H end;
      unfold checked_offset_after in *;
      repeat match goal with H : checked_add _ _ = Some _ |- _ =>
        apply checked_add_Some in H as [? ->] end; try (f_equal; lia).
    f_equal. unfold AnonMergeDomain.can_merge in Hm.
    destruct (Z.eqb_spec (AnonMergeDomain.id da) (AnonMergeDomain.id db)).
    + apply (Hu da db); [left|right; left|done..].
    + simpl in Hm. reflect_bools. congruence.
Qed.

(** ** Views of vectors *)

Lemma view_app l1 l2 addr :
  view (l1 ++ l2) addr =
  match view l1 addr with Some c => Some c | None => view l2 addr end.
Proof. induction l1 as [|a l1 IH]; simpl; [done|].
  by destruct (contains a addr).
Qed.

Lemma view_None l addr :
  view l addr = None <-> Forall (fun a => contains a addr = false) l.
Proof.
  induction l as [|a l IH]; simpl; [by split|].
  rewrite Forall_cons. destruct (contains a addr); split; try done; [by intros [? _]|tauto..].
Qed.

Lemma before_disjoint a b addr :
  wf a -> before a b -> contains a addr = true -> contains b addr = true -> False.
Proof. unfold before. rewrite !contains_true. lia. Qed.

(** In an ordered vector an address lies in at most one area, so its cell is
    that of any area that contains it. *)
Lemma view_elem l a addr :
  StronglySorted before l -> Forall wf l -> a ∈ l -> contains a addr = true ->
  view l addr = Some (cell_at a addr).
Proof.
  induction 1 as [|b l Hs IH Hb]; intros Hwf Hin Hc; [set_solver|].
  apply Forall_cons in Hwf as [Hwb Hwf]. simpl.
  apply elem_of_cons in Hin as [->|Hin]; [by rewrite Hc|].
  destruct (contains b addr) eqn:Hcb; [|by apply IH].
  exfalso. rewrite Forall_forall in Hb. eapply (before_disjoint b a); eauto.
Qed.

Lemma view_Some l addr c :
  view l addr = Some c -> exists a, a ∈ l /\ contains a addr = true /\ c = cell_at a addr.
Proof.
  induction l as [|a l IH]; simpl; [done|].
  destruct (contains a addr) eqn:Hc.
  - intros [= <-]. exists a. split_and!; [left|done|done].
  - intros (b & ? & ? & ?)%IH. exists b. split_and!; [by right|done|done].
Qed.

Lemma view_Some_iff l addr c :
  inv l -> view l addr = Some c <->
  exists a, a ∈ l /\ contains a addr = true /\ c = cell_at a addr.
Proof.
  intros [Hwf Hs _]. split; [apply view_Some|].
  intros (a & ? & ? & ->). by apply view_elem.
Qed.

(** The view of a vector only depends on its elements. *)
Lemma view_perm l1 l2 addr : inv l1 -> inv l2 -> l1 ≡ₚ l2 -> view l1 addr = view l2 addr.
Proof.
  intros H1 H2 Hp. apply option_eq. intros c.
  rewrite !view_Some_iff by done. by setoid_rewrite Hp.
Qed.

Lemma uniform_subset l l' :
  (forall a d, a ∈ l -> dom_of a = Some d -> exists b, b ∈ l' /\ dom_of b = Some d) ->
  uniform l' -> uniform l.
Proof.
  intros Hsub Hu a b da db Ha Hb Hda Hdb Hid.
  destruct (Hsub a da) as (a' & ? & ?), (Hsub b db) as (b' & ? & ?); try done.
  eapply (Hu a' b'); eauto.
Qed.

Lemma uniform_mono l l' : (forall a, a ∈ l -> a ∈ l') -> uniform l' -> uniform l.
Proof. intros Hs. apply uniform_subset. eauto. Qed.

Lemma inv_app_l l1 l2 : inv (l1 ++ l2) -> inv l1.
Proof.
  intros [Hw Hs Hu]. apply Forall_app in Hw as [? ?]. apply StronglySorted_app in Hs as (?&?&?).
  split; [done|done|]. eapply uniform_mono; [|done]. set_solver.
Qed.

Lemma inv_app_r l1 l2 : inv (l1 ++ l2) -> inv l2.
Proof.
  intros [Hw Hs Hu]. apply Forall_app in Hw as [? ?]. apply StronglySorted_app in Hs as (?&?&?).
  split; [done|done|]. eapply uniform_mono; [|done]. set_solver.
Qed.

Lemma inv_nil : inv [].
Proof. split; [constructor|constructor|]. intros ????. set_solver. Qed.

#[export] Hint Resolve inv_app_l inv_app_r inv_nil : mm.

(** An address is in at most one area. *)
Lemma sorted_unique l a b addr :
  inv l -> a ∈ l -> b ∈ l -> contains a addr = true -> contains b addr = true -> a = b.
Proof.
  intros [_ Hs _] Ha Hb Hca Hcb. induction Hs as [|c l Hs IH Hc]; [by apply not_elem_of_nil in Ha|].
  rewrite Forall_forall in Hc. unfold before in Hc. rewrite contains_true in Hca, Hcb.
  apply elem_of_cons in Ha, Hb. destruct Ha as [->|Ha], Hb as [->|Hb]; [done|..|by auto].
  - specialize (Hc b Hb). lia.
  - specialize (Hc a Ha). lia.
Qed.

(** ** Deciding the invariant *)

Definition same_seal (a b : VmArea) : bool :=
  match dom_of a, dom_of b with
  | Some da, Some db =>
      negb (AnonMergeDomain.id da =? AnonMergeDomain.id db)
      || Bool.eqb (AnonMergeDomain.inherited da) (AnonMergeDomain.inherited db)
  | _, _ => true
  end.

Fixpoint sorted_b (l : list VmArea) : bool :=
  match l with
  | [] => true
  | a :: l => forallb (fun b => end_ (range a) <=? start (range b)) l && sorted_b l
  end.

Definition uniform_b (l : list VmArea) : bool := forallb (fun a => forallb (same_seal a) l) l.

Lemma uniform_b_sound l : uniform_b l = true -> uniform l.
Proof.
  unfold uniform_b. rewrite forallb_forall. intros Hu a b da db Ha Hb Hda Hdb Hid.
  apply list_elem_of_In in Ha, Hb. specialize (Hu a Ha). rewrite forallb_forall in Hu.
  specialize (Hu b Hb). unfold same_seal in Hu.
  rewrite Hda, Hdb, Hid, Z.eqb_refl in Hu. by apply eqb_prop.
Qed.

Definition inv_b (l : list VmArea) : bool :=
  forallb is_well_formed l && sorted_b l && uniform_b l.

Lemma inv_b_sound l : inv_b l = true -> inv l.
Proof.
  unfold inv_b. rewrite !andb_true_iff, !forallb_forall. intros [[Hw Hs] Hu].
  split; [| |by apply uniform_b_sound].
  - apply Forall_forall. intros a Ha. apply Hw. by apply list_elem_of_In.
  - clear Hw Hu. induction l as [|a l IH]; [constructor|]. simpl in Hs.
    apply andb_true_iff in Hs as [Ha Hs]. constructor; [by apply IH|].
    apply Forall_forall. intros b Hb. rewrite forallb_forall in Ha. apply list_elem_of_In in Hb.
    specialize (Ha b Hb). by apply Z.leb_le.
Qed.
