(* ===== verification/MmMerge.v ===== *)
(** * Merging and sorted insertion

    The moves of [libs/mm/src/set.rs] that rearrange the vector without
    changing the address space it represents ([try_merge_pair],
    [merge_around], [merge_neighbors]), and the insertion of an area at its
    sorted place. *)

From S2P Require Import Prelude MmArea MmSet MmView.
Import VmArea VmaSet.

(** [l'] is another vector for the address space of [l]. *)
Record preserves (l l' : list VmArea) : Prop := mk_preserves {
  pres_inv : inv l';
  pres_view : forall addr, view l' addr = view l addr;
  pres_dom : forall a d, a ∈ l' -> dom_of a = Some d ->
    exists b, b ∈ l /\ dom_of b = Some d
}.

Lemma preserves_refl l : inv l -> preserves l l.
Proof. intros; split; eauto. Qed.

Lemma preserves_trans l1 l2 l3 : preserves l1 l2 -> preserves l2 l3 -> preserves l1 l3.
Proof.
  intros [I1 V1 D1] [I2 V2 D2]. split; [done|congruence|].
  intros a d Ha Hd. destruct (D2 a d Ha Hd) as (b & ? & ?). eauto.
Qed.

#[export] Hint Resolve preserves_refl preserves_trans pres_inv : mm.

(** ** [try_merge_pair] *)

Lemma lookup_second (l1 l2 : list VmArea) a b :
  (l1 ++ a :: b :: l2) !! S (length l1) = Some b.
Proof. rewrite lookup_app_r by lia. by replace (S (length l1) - length l1)%nat with 1%nat by lia. Qed.

Lemma try_merge_pair_app l1 a b l2 :
  try_merge_pair (l1 ++ a :: b :: l2) (length l1) =
  if can_merge_areas a b
  then (true, l1 ++ set_end a (end_ (range b)) :: l2)
  else (false, l1 ++ a :: b :: l2).
Proof.
  unfold try_merge_pair. rewrite list_lookup_middle, lookup_second by done.
  replace (S (length l1)) with (length (l1 ++ [a])) by (rewrite length_app; simpl; lia).
  replace (l1 ++ a :: b :: l2) with ((l1 ++ [a]) ++ b :: l2) by (by rewrite <- app_assoc).
  rewrite delete_middle. destruct (can_merge_areas a b); [|done].
  rewrite <- app_assoc. simpl. by rewrite insert_app_r_alt, Nat.sub_diag by lia.
Qed.

(** A vector is either too short for a pair at [i] or splits around it. *)
Lemma pair_split (l : list VmArea) i :
  (exists l1 a b l2, l = l1 ++ a :: b :: l2 /\ length l1 = i) \/ (length l <= S i)%nat.
Proof.
  destruct (decide (S i < length l)%nat) as [H|H]; [left|right; lia].
  destruct (lookup_lt_is_Some_2 l (S i)) as [b Hb]; [done|].
  destruct (lookup_lt_is_Some_2 l i) as [a Ha]; [lia|].
  exists (take i l), a, b, (drop (S (S i)) l).
  rewrite <- (drop_S l b (S i)) by done. rewrite <- (drop_S l a i) by done.
  rewrite take_drop, length_take. split; [done|lia].
Qed.

Lemma try_merge_pair_short l i : (length l <= S i)%nat -> try_merge_pair l i = (false, l).
Proof.
  intros H. unfold try_merge_pair. rewrite (lookup_ge_None_2 l (S i)) by done.
  by destruct (l !! i).
Qed.

Lemma merged_preserves l1 a b l2 :
  inv (l1 ++ a :: b :: l2) -> can_merge_areas a b = true ->
  preserves (l1 ++ a :: b :: l2) (l1 ++ set_end a (end_ (range b)) :: l2).
Proof.
  intros Hinv Hm. set (m := set_end a (end_ (range b))).
  assert (uniform [a; b]) as Hu.
  { eapply uniform_mono; [|apply inv_uniform, Hinv]. set_solver. }
  destruct (can_merge_areas_spec a b Hm Hu) as (Ha & Hb & Hwm & Hadj & Hca & Hcb).
  fold m in Hwm, Hca, Hcb. destruct Hinv as [Hw Hs Hun]. split; [split|..].
  - rewrite Forall_app, !Forall_cons in *. tauto.
  - rewrite StronglySorted_app, !StronglySorted_cons, !Forall_cons in *.
    destruct Hs as (H12 & Hs1 & [_ Hal] & Hbl & Hs2).
    split_and!; try done.
    intros x y Hx [->|Hy]%elem_of_cons; [|apply H12; [done|by do 2 right]].
    change (before x a). apply H12; [done|left].
  - eapply uniform_subset; [|exact Hun]. intros x d Hx Hd.
    rewrite elem_of_app, elem_of_cons in Hx.
    destruct Hx as [?|[->|?]]; [exists x; set_solver|exists a; set_solver|exists x; set_solver].
  - intros addr. rewrite !view_app. case_match; [done|]. simpl.
    apply wf_nonempty in Ha, Hb.
    destruct (contains a addr) eqn:E1, (contains b addr) eqn:E2, (contains m addr) eqn:E3;
      rewrite ?Hca, ?Hcb; try done;
      rewrite ?contains_true, ?contains_false in *; unfold m in *; simpl in *; try lia.
    by rewrite <- Hcb, Hca.
  - intros x d Hx Hd. rewrite elem_of_app, elem_of_cons in Hx.
    destruct Hx as [?|[->|?]]; [exists x; set_solver|exists a; set_solver|exists x; set_solver].
Qed.

Lemma try_merge_pair_preserves l i :
  inv l -> preserves l (snd (try_merge_pair l i)).
Proof.
  intros Hinv. destruct (pair_split l i) as [(l1 & a & b & l2 & -> & <-)|H].
  - rewrite try_merge_pair_app. destruct (can_merge_areas a b) eqn:Hm; simpl; auto with mm.
    by apply merged_preserves.
  - rewrite try_merge_pair_short by done. simpl. auto with mm.
Qed.

(** ** The loops *)

Lemma merge_right_preserves fuel l pos : inv l -> preserves l (merge_right fuel l pos).
Proof.
  revert l. induction fuel as [|fuel IH]; intros l Hinv; simpl; auto with mm.
  destruct (next_idx l pos); [|auto with mm].
  pose proof (try_merge_pair_preserves l pos Hinv) as Hp.
  destruct (try_merge_pair l pos) as [[] l']; simpl in Hp; [|done].
  eapply preserves_trans; [done|]. apply IH, Hp.
Qed.

Lemma merge_around_preserves l pos : inv l -> preserves l (merge_around l pos).
Proof.
  intros Hinv. unfold merge_around. destruct (0 <? pos)%nat.
  - pose proof (try_merge_pair_preserves l (pos - 1) Hinv) as Hp.
    destruct (try_merge_pair l (pos - 1)) as [[] l']; simpl in Hp;
      (eapply preserves_trans; [done|]; apply merge_right_preserves, Hp).
  - by apply merge_right_preserves.
Qed.

Lemma merge_neighbors_loop_preserves fuel l pos :
  inv l -> preserves l (merge_neighbors_loop fuel l pos).
Proof.
  revert l pos. induction fuel as [|fuel IH]; intros l pos Hinv; simpl; auto with mm.
  destruct (next_idx l pos); [|auto with mm].
  pose proof (try_merge_pair_preserves l pos Hinv) as Hp.
  destruct (try_merge_pair l pos) as [[] l']; simpl in Hp;
    (eapply preserves_trans; [done|]; apply IH, Hp).
Qed.

Lemma merge_neighbors_preserves s :
  inv (areas s) -> preserves (areas s) (areas (merge_neighbors s)).
Proof.
  intros Hinv. unfold merge_neighbors. destruct (is_empty s); [auto with mm|].
  by apply merge_neighbors_loop_preserves.
Qed.

(** No two neighbours of [l] before position [pos] can be merged. *)
Definition compact_upto (pos : nat) (l : list VmArea) : Prop :=
  forall i a b, (i < pos)%nat -> l !! i = Some a -> l !! S i = Some b ->
    can_merge_areas a b = false.

(** Extending the right area of a pair does not make the pair mergeable. *)
Lemma can_merge_set_end p a e :
  wf a -> wf (set_end a e) -> can_merge_areas p (set_end a e) = can_merge_areas p a.
Proof. unfold can_merge_areas. intros -> ->. done. Qed.

(** With a step of fuel per remaining position the loop leaves no mergeable
    neighbours. *)
Lemma merge_neighbors_loop_compact fuel l pos :
  inv l -> (length l <= S pos + fuel)%nat -> compact_upto pos l ->
  let l' := merge_neighbors_loop fuel l pos in compact_upto (length l') l'.
Proof.
  revert l pos. induction fuel as [|fuel IH]; intros l pos Hinv Hf Hc; cbn zeta.
  { simpl. intros i a b Hi Ha Hb. apply (Hc i); try done. apply lookup_lt_Some in Hb. lia. }
  cbn [merge_neighbors_loop]. unfold next_idx. destruct (Nat.ltb_spec (S pos) (length l)).
  2: { intros i a b Hi Ha Hb. apply (Hc i); try done. apply lookup_lt_Some in Hb. lia. }
  destruct (pair_split l pos) as [(l1 & a & b & l2 & -> & <-)|?]; [|lia].
  rewrite try_merge_pair_app. rewrite length_app in Hf, H. simpl in Hf, H.
  destruct (can_merge_areas a b) eqn:Hm.
  - apply IH; [eapply pres_inv, merged_preserves; done|rewrite length_app; simpl; lia|].
    intros i x y Hi Hx Hy. rewrite lookup_app_l in Hx by done.
    destruct (decide (S i = length l1)) as [Heq|].
    + rewrite Heq, list_lookup_middle in Hy by done. injection Hy as <-.
      assert (uniform [a; b]) as Hu.
      { eapply uniform_mono; [|apply inv_uniform, Hinv]. set_solver. }
      destruct (can_merge_areas_spec a b Hm Hu) as (? & _ & ? & _).
      rewrite can_merge_set_end by done.
      apply (Hc i); [done|by rewrite lookup_app_l by done|].
      by rewrite Heq, list_lookup_middle by done.
    + rewrite lookup_app_l in Hy by lia.
      apply (Hc i); [done|by rewrite lookup_app_l by done|by rewrite lookup_app_l by lia].
  - apply IH; [done|rewrite length_app; simpl; lia|].
    intros i x y Hi Hx Hy. destruct (decide (i = length l1)) as [->|].
    + rewrite list_lookup_middle in Hx by done. injection Hx as <-.
      rewrite lookup_second in Hy. congruence.
    + apply (Hc i); [lia|done..].
Qed.

(** ** Sorted insertion *)

(** [a] overlaps no area of [l]. *)
Definition fits (a : VmArea) (l : list VmArea) : Prop :=
  forall addr, contains a addr = true -> view l addr = None.

Lemma fits_elem a b l :
  fits a l -> wf a -> wf b -> b ∈ l -> before a b \/ before b a.
Proof.
  intros Hf Ha Hb Hin. unfold before. apply wf_nonempty in Ha, Hb.
  destruct (Z.le_gt_cases (end_ (range a)) (start (range b))); [by left|].
  destruct (Z.le_gt_cases (end_ (range b)) (start (range a))); [by right|].
  exfalso. assert (view l (Z.max (start (range a)) (start (range b))) = None) as Hn.
  { apply Hf, contains_true. lia. }
  rewrite view_None, Forall_forall in Hn. specialize (Hn _ Hin).
  apply contains_false in Hn. lia.
Qed.

(** Inserting a fitting area at the partition point of its start. *)
Lemma sorted_insert l a :
  inv l -> wf a -> fits a l -> uniform (a :: l) ->
  exists l1 l2, l = l1 ++ l2 /\
    partition_point (fun b => start (range b) <? start (range a)) l = length l1 /\
    inv (l1 ++ a :: l2) /\
    (forall addr, view (l1 ++ a :: l2) addr =
      if contains a addr then Some (cell_at a addr) else view l addr).
Proof.
  intros Hinv Ha Hf Hu.
  assert (Forall wf l) as Hw by apply Hinv.
  destruct (sorted_split before (fun b => start (range b) <? start (range a)) l)
    as (l1 & l2 & -> & Hpp & H1 & H2); [apply Hinv| |].
  { intros x y Hx _ Hxy Hy. rewrite Forall_forall in Hw. specialize (Hw x Hx).
    apply wf_nonempty in Hw. reflect_bools. unfold before in Hxy. apply Z.ltb_lt. lia. }
  exists l1, l2. split_and!; [done|done| |].
  - split; [| |eapply uniform_mono; [|done]; set_solver].
    + rewrite Forall_app, Forall_cons in *. tauto.
    + assert (forall b, b ∈ l1 -> before b a) as Hl1.
      { intros b Hb. rewrite Forall_forall in H1, Hw. specialize (H1 _ Hb).
        destruct (fits_elem a b _ Hf Ha) as [Hab|]; [apply Hw; set_solver|set_solver| |done].
        apply wf_nonempty in Ha. reflect_bools. unfold before in *. lia. }
      assert (forall b, b ∈ l2 -> before a b) as Hl2.
      { intros b Hb. rewrite Forall_forall in H2, Hw. specialize (H2 _ Hb).
        assert (wf b) as Hwb by (apply Hw; set_solver).
        destruct (fits_elem a b _ Hf Ha Hwb) as [|Hba]; [set_solver|done|].
        apply wf_nonempty in Hwb. reflect_bools. unfold before in *. lia. }
      destruct Hinv as [_ Hs _].
      rewrite StronglySorted_app, StronglySorted_cons, Forall_forall in *.
      destruct Hs as (H12 & ? & ?). split_and!; try done.
      intros x y Hx [->|Hy]%elem_of_cons; auto.
  - intros addr. specialize (Hf addr). rewrite !view_app in *. simpl.
    destruct (contains a addr) eqn:Hc; [|done].
    specialize (Hf eq_refl). by destruct (view l1 addr).
Qed.

Lemma reinsert_spec l a :
  inv l -> wf a -> fits a l -> uniform (a :: l) ->
  inv (reinsert l a) /\ reinsert l a ≡ₚ a :: l /\
  (forall addr, view (reinsert l a) addr =
    if contains a addr then Some (cell_at a addr) else view l addr).
Proof.
  intros Hinv Ha Hf Hu.
  destruct (sorted_insert l a) as (l1 & l2 & -> & Hpp & Hi & Hv); try done.
  unfold reinsert. rewrite Hpp, vec_insert_app.
  split_and!; [done|by rewrite Permutation_middle|done].
Qed.
