(* ===== verification/MmSetProofs.v ===== *)
(** * Correctness of the set of areas

    Every operation of [libs/mm/src/set.rs] against the address space the
    vector represents ([MmView.view]). *)

From S2P Require Import Prelude MmArea MmSet MmView MmMerge.
Import VmArea VmaSet.

(** ** Splitting the vector around an address or a range *)

(** Starts are ordered along the vector, so a bound on the start splits it. *)
Lemma split_by_start l (f : Z -> bool) :
  inv l -> (forall x y, x < y -> f y = true -> f x = true) ->
  exists l1 l2, l = l1 ++ l2 /\ partition_point (fun a => f (start (range a))) l = length l1 /\
    Forall (fun a => f (start (range a)) = true) l1 /\
    Forall (fun a => f (start (range a)) = false) l2.
Proof.
  intros [Hw Hs _] Hf. eapply sorted_split; [exact Hs|].
  intros x y Hx _ Hxy Hy. rewrite Forall_forall in Hw.
  specialize (Hw x Hx). apply wf_nonempty in Hw. unfold before in Hxy.
  eapply Hf; [|exact Hy]. lia.
Qed.

Lemma ltb_down n x y : x < y -> (y <? n) = true -> (x <? n) = true.
Proof. rewrite !Z.ltb_lt. lia. Qed.

Lemma leb_down n x y : x < y -> (y <=? n) = true -> (x <=? n) = true.
Proof. rewrite !Z.leb_le. lia. Qed.

Lemma elem_mapped l a addr :
  inv l -> a ∈ l -> contains a addr = true -> is_Some (view l addr).
Proof. intros [] ? ?. eexists. by apply view_elem. Qed.

Lemma elem_wf l a : inv l -> a ∈ l -> wf a.
Proof. intros [Hw _ _]. rewrite Forall_forall in Hw. auto. Qed.

(** The last area of a part bounds the part from above, its first from below. *)
Lemma inv_last_bound l p a :
  inv (l ++ [p]) -> a ∈ l ++ [p] -> end_ (range a) <= end_ (range p).
Proof.
  intros Hinv Ha. assert (wf p) as Hp by (eapply elem_wf; [done|set_solver]).
  apply wf_nonempty in Hp.
  rewrite elem_of_app, list_elem_of_singleton in Ha. destruct Ha as [Ha| ->]; [|lia].
  assert (before a p) as Hb; [|unfold before in Hb; lia].
  eapply StronglySorted_app_1_elem_of; [apply Hinv|done|set_solver].
Qed.

Lemma inv_head_bound p l a :
  inv (p :: l) -> a ∈ p :: l -> start (range p) <= start (range a).
Proof.
  intros Hinv Ha. assert (wf p) as Hp by (eapply elem_wf; [done|set_solver]).
  apply wf_nonempty in Hp. apply elem_of_cons in Ha as [->|Ha]; [lia|].
  destruct Hinv as [_ Hs _]. apply StronglySorted_cons in Hs as [Hs _].
  rewrite Forall_forall in Hs. specialize (Hs a Ha). unfold before in Hs. lia.
Qed.

(** Whether some address of the range is mapped, as a decision. *)
Definition decides_mapped (b : bool) (l : list VmArea) (r : Range) : Prop :=
  if b then exists addr, in_range r addr = true /\ is_Some (view l addr)
  else forall addr, in_range r addr = true -> view l addr = None.

(** Among the areas that start before the range the last one decides. *)
Lemma overlap_prev l r :
  inv l -> start r < end_ r -> Forall (fun a => (start (range a) <? start r) = true) l ->
  decides_mapped (match last l with Some p => start r <? end_ (range p) | None => false end) l r.
Proof.
  intros Hinv Hr Hf. destruct (last l) as [p|] eqn:Hlast.
  2: { apply last_None in Hlast as ->. done. }
  apply last_Some in Hlast as [l' ->].
  rewrite Forall_app, Forall_cons in Hf. destruct Hf as (_ & Hp & _). reflect_bools.
  destruct (Z.ltb_spec (start r) (end_ (range p))); simpl.
  - exists (start r). split; [apply in_range_true; lia|].
    apply (elem_mapped _ p); [done|set_solver|]. apply contains_true. lia.
  - intros addr Ha. apply view_None, Forall_forall. intros b Hb.
    pose proof (inv_last_bound _ _ _ Hinv Hb). apply in_range_true in Ha.
    apply contains_false. lia.
Qed.

(** Among the areas that start in or after the range the first one decides. *)
Lemma overlap_next l r :
  inv l -> start r < end_ r -> Forall (fun a => (start (range a) <? start r) = false) l ->
  decides_mapped (match head l with Some a => start (range a) <? end_ r | None => false end) l r.
Proof.
  intros Hinv Hr Hf. destruct l as [|a l]; [done|]. simpl.
  apply Forall_cons in Hf as [Ha _]. reflect_bools.
  destruct (Z.ltb_spec (start (range a)) (end_ r)); unfold decides_mapped.
  - exists (start (range a)). split; [apply in_range_true; lia|].
    apply (elem_mapped _ a); [done|left|].
    assert (wf a) as Hw%wf_nonempty by (eapply elem_wf; [done|left]).
    apply contains_true. lia.
  - intros addr Hin. apply view_None, Forall_forall. intros b Hb.
    pose proof (inv_head_bound _ _ _ Hinv Hb). apply in_range_true in Hin.
    apply contains_false. lia.
Qed.

Lemma decides_mapped_app b1 b2 l1 l2 r :
  decides_mapped b1 l1 r -> decides_mapped b2 l2 r ->
  decides_mapped (if b1 then true else b2) (l1 ++ l2) r.
Proof.
  unfold decides_mapped. destruct b1.
  - intros (addr & Hin & [c Hc]) _. exists addr. rewrite view_app, Hc. eauto.
  - intros H1. destruct b2.
    + intros (addr & Hin & Hc). exists addr. rewrite view_app, H1; auto.
    + intros H2 addr Hin. rewrite view_app, H1, H2; auto.
Qed.

Lemma last_lookup_app {A} (l1 l2 : list A) :
  last l1 = if (0 <? length l1)%nat then (l1 ++ l2) !! (length l1 - 1)%nat else None.
Proof.
  rewrite last_lookup. destruct l1 as [|x l1]; simpl; [done|].
  rewrite Nat.sub_0_r. change (x :: l1 ++ l2) with ((x :: l1) ++ l2).
  by rewrite lookup_app_l by (simpl; lia).
Qed.

(** [overlaps_range] looks at two neighbours and decides whether any address of
    the range is mapped. *)
Lemma overlaps_range_spec s r :
  inv (areas s) -> start r < end_ r -> decides_mapped (overlaps_range s r) (areas s) r.
Proof.
  intros Hinv Hr. unfold overlaps_range.
  destruct (split_by_start (areas s) (fun x => x <? start r)) as (l1 & l2 & Hl & -> & H1 & H2);
    [done|apply ltb_down|].
  rewrite Hl in *.
  pose proof (decides_mapped_app _ _ _ _ _ (overlap_prev l1 r (inv_app_l _ _ Hinv) Hr H1)
    (overlap_next l2 r (inv_app_r _ _ Hinv) Hr H2)) as H.
  rewrite (last_lookup_app l1 l2), head_lookup in H.
  rewrite (lookup_app_r l1 l2 (length l1)), Nat.sub_diag by lia.
  destruct (0 <? length l1)%nat; exact H.
Qed.

(** ** Insertion *)

(** The merged vector is a vector for the address space with the new area. *)
Lemma insert_ok_spec s a :
  inv (areas s) -> wf a -> fits a (areas s) -> uniform (a :: areas s) ->
  exists s', insert s a = (Ok tt, s') /\ inv (areas s') /\ last_find s' = last_find s /\
    (forall addr, view (areas s') addr =
      if contains a addr then Some (cell_at a addr) else view (areas s) addr) /\
    (forall x d, x ∈ areas s' -> dom_of x = Some d ->
      exists b, b ∈ a :: areas s /\ dom_of b = Some d).
Proof.
  intros Hinv Ha Hf Hu. unfold insert. rewrite Ha. simpl.
  pose proof (overlaps_range_spec s (range a) Hinv (wf_nonempty _ Ha)) as Hov.
  destruct (overlaps_range s (range a)).
  { destruct Hov as (addr & Hin & [c Hc]). exfalso.
    rewrite (Hf addr) in Hc; [done|]. by apply contains_true, in_range_true. }
  destruct (sorted_insert (areas s) a) as (l1 & l2 & Hl & Hpp & Hi & Hv); try done.
  rewrite Hpp.
  assert (vec_insert (length l1) a (areas s) = l1 ++ a :: l2) as ->
    by (rewrite Hl; apply vec_insert_app).
  destruct (merge_around_preserves _ (length l1) Hi) as [Hpi Hpv Hpd].
  eexists. split_and!; [done|done|done|..]; simpl.
  - intros addr. rewrite Hpv. apply Hv.
  - intros x d Hx Hd. destruct (Hpd x d Hx Hd) as (b & Hb & ?). exists b.
    split; [|done]. rewrite Hl. set_solver.
Qed.

(** ** Unmapping *)

(** [p] is a part of [a] with the same cells. *)
Record piece_of (a p : VmArea) : Prop := mk_piece {
  piece_wf : wf p;
  piece_start : start (range a) <= start (range p);
  piece_end : end_ (range p) <= end_ (range a);
  piece_dom : dom_of p = dom_of a;
  piece_cell : forall addr, cell_at p addr = cell_at a addr
}.

Lemma piece_refl a : wf a -> piece_of a a.
Proof. intros. split; (done || lia). Qed.

Lemma piece_contains a p addr :
  piece_of a p -> contains p addr = true -> contains a addr = true.
Proof. intros [_ ? ? _ _]. rewrite !contains_true. lia. Qed.

(** The part of [a] outside the range, as an optional piece. *)
Definition residual (a : VmArea) (cond : bool) (r : Range) (o : option VmArea) : Prop :=
  if cond then exists l, o = Some l /\ piece_of a l /\ range l = r else o = None.

Lemma unmap_left_spec a r :
  wf a -> start r < end_ (range a) ->
  exists cl, (if start (range a) <? start r
     then '(left_, rest) ← unwrap (split_at a (start r)); Done (start (range rest), Some left_)
     else Done (start (range a), None)) = Done (Z.max (start (range a)) (start r), cl) /\
    residual a (start (range a) <? start r) (mkRange (start (range a)) (start r)) cl.
Proof.
  intros Ha H2. unfold residual. destruct (Z.ltb_spec (start (range a)) (start r)).
  - destruct (split_at_ok a (start r)) as (l & rest & Hs); [done|lia|]. rewrite Hs. simpl.
    apply split_at_Some in Hs as (_ & Hl & _ & _ & El & Er & _ & _ & Hd & _ & Hc & _).
    rewrite Er, Z.max_r by lia. eexists. split; [done|].
    eexists. split_and!; [done| |done]. split; rewrite ?El; simpl; (done || lia).
  - rewrite Z.max_l by lia. eauto.
Qed.

Lemma unmap_one_spec a r :
  wf a -> start (range a) < end_ r -> start r < end_ (range a) -> start r < end_ r ->
  exists cl mid rr, unmap_one a r = Done (cl, mid, rr) /\
    piece_of a mid /\ range mid = mkRange (Z.max (start (range a)) (start r))
                                          (Z.min (end_ (range a)) (end_ r)) /\
    residual a (start (range a) <? start r) (mkRange (start (range a)) (start r)) cl /\
    residual a (end_ r <? end_ (range a)) (mkRange (end_ r) (end_ (range a))) rr.
Proof.
  intros Ha H1 H2 Hr. unfold unmap_one. apply wf_nonempty in Ha as Hne.
  destruct (unmap_left_spec a r Ha H2) as (cl & -> & Hcl). simpl.
  destruct (clip_to_ok a (mkRange (Z.max (start (range a)) (start r)) (end_ (range a))))
    as [a' Hclip]; [done|simpl; lia|]. rewrite Hclip. simpl.
  apply clip_to_Some in Hclip as (Hw' & Hr' & _ & Hd' & Hc'). simpl in Hr'.
  rewrite Hr'. simpl. rewrite Z.min_id. unfold residual at 2.
  destruct (Z.ltb_spec (end_ r) (end_ (range a))).
  - destruct (split_at_ok a' (end_ r)) as (mid & rr & Hs); [done|rewrite Hr'; simpl; lia|].
    rewrite Hs. simpl.
    apply split_at_Some in Hs as (_&Hwm&Hwr&Hx&Em&Er&_&_&Hdm&Hdr&Hcm&Hcr).
    rewrite Hr' in Em, Er. simpl in Em, Er.
    eexists _, _, _. split_and!; [done| | |exact Hcl|].
    + split; rewrite ?Em; simpl; [done|lia|lia|congruence|]. intros. by rewrite Hcm.
    + rewrite Em. f_equal; lia.
    + eexists. split_and!; [done| |rewrite Er; f_equal; lia].
      split; rewrite ?Er; simpl; [done|lia|lia|congruence|]. intros. by rewrite Hcr.
  - eexists _, _, _. split_and!; [done| | |exact Hcl|done].
    + split; rewrite ?Hr'; simpl; [done|lia|lia|congruence|done].
    + rewrite Hr'. f_equal; lia.
Qed.

(** Every area of [l'] is a piece of an area of [l]. *)
Definition pieces_of (l l' : list VmArea) : Prop :=
  Forall (fun p => exists a, a ∈ l /\ piece_of a p) l'.

Lemma pieces_of_dom l l' p d :
  pieces_of l l' -> p ∈ l' -> dom_of p = Some d -> exists b, b ∈ l /\ dom_of b = Some d.
Proof.
  intros Hp Hin Hd. unfold pieces_of in Hp. rewrite Forall_forall in Hp.
  destruct (Hp p Hin) as (a & Ha & Hpc). exists a. split; [done|].
  by rewrite <- (piece_dom _ _ Hpc).
Qed.

Lemma pieces_of_uniform l l' : uniform l -> pieces_of l l' -> uniform l'.
Proof. intros Hu Hp. eapply uniform_subset; [|done]. intros. by eapply pieces_of_dom. Qed.

Lemma inv_cons_inv a l : inv (a :: l) -> wf a /\ Forall (before a) l /\ inv l.
Proof.
  intros Hinv. split_and!; [eapply elem_wf; [done|left]| |by apply (inv_app_r [a])].
  by apply inv_sorted, StronglySorted_cons in Hinv as [? _].
Qed.

(** Sorted pieces of an area followed by sorted pieces of later areas. *)
Lemma inv_pieces_app a l p1 p2 :
  inv (a :: l) -> Forall (piece_of a) p1 -> StronglySorted before p1 ->
  pieces_of l p2 -> inv p2 -> inv (p1 ++ p2) /\ pieces_of (a :: l) (p1 ++ p2).
Proof.
  intros Hinv H1 Hs1 H2 Hi2.
  assert (pieces_of (a :: l) (p1 ++ p2)) as Hp.
  { apply Forall_app. split.
    - eapply Forall_impl; [exact H1|]. intros p Hp. exists a. split; [left|done].
    - eapply Forall_impl; [exact H2|]. intros p (b & Hb & Hp). exists b. split; [by right|done]. }
  split; [|done]. apply inv_cons_inv in Hinv as Hc. destruct Hc as (_ & Hb & _). split.
  - apply Forall_app. split; [|apply Hi2]. eapply Forall_impl; [exact H1|]. by intros p [].
  - apply StronglySorted_app. split_and!; [|done|apply Hi2].
    unfold pieces_of in H2. rewrite Forall_forall in H1, H2, Hb.
    intros x y Hx Hy. destruct (H2 y Hy) as (b & Hbl & Hpb).
    specialize (H1 x Hx). specialize (Hb b Hbl).
    destruct H1, Hpb. unfold before in *. lia.
  - eapply pieces_of_uniform; [apply Hinv|done].
Qed.

(** Case analysis on which pieces of [a] contain [addr]. *)
Ltac piece_cases a addr :=
  simpl;
  repeat match goal with
  | |- context [contains ?p addr] => destruct (contains p addr) eqn:?
  end;
  match goal with |- context [in_range ?r addr] => destruct (in_range r addr) eqn:? end;
  try done;
  try (match goal with H : piece_of a ?p |- context [cell_at ?p addr] =>
         by rewrite (piece_cell a p H) end);
  exfalso; rewrite ?contains_true, ?contains_false, ?in_range_true, ?in_range_false in *;
  repeat match goal with H : piece_of a ?p |- _ =>
    pose proof (piece_start a p H); pose proof (piece_end a p H); clear H end;
  repeat match goal with H : range _ = _ |- _ => rewrite H in *; clear H end;
  simpl in *; lia.

(** The residuals of one area: sorted pieces that keep its cells outside the
    range. *)
Lemma residuals_spec a r cl rr :
  wf a -> start r < end_ r ->
  residual a (start (range a) <? start r) (mkRange (start (range a)) (start r)) cl ->
  residual a (end_ r <? end_ (range a)) (mkRange (end_ r) (end_ (range a))) rr ->
  Forall (piece_of a) (option_list cl ++ option_list rr) /\
  StronglySorted before (option_list cl ++ option_list rr) /\
  forall addr, view (option_list cl ++ option_list rr) addr =
    if in_range r addr then None else view [a] addr.
Proof.
  unfold residual. intros Ha Hr Hl Hrr.
  destruct (Z.ltb_spec (start (range a)) (start r)), (Z.ltb_spec (end_ r) (end_ (range a)));
    repeat match goal with H : exists _, _ |- _ => destruct H as (?&->&?&?) end; subst; simpl;
    (split_and!;
      [repeat apply Forall_cons_2; (apply Forall_nil_2 || done)
      |repeat first [apply SSorted_nil|apply SSorted_cons|apply Forall_nil_2|apply Forall_cons_2];
       unfold before; repeat match goal with H : range _ = _ |- _ => rewrite H end; simpl; lia
      |intros addr; piece_cases a addr]).
Qed.

(** The first loop of [unmap_range] does not panic, and separates the cells
    inside the range from those outside it. *)
Lemma unmap_loop_spec l r :
  inv l -> start r < end_ r ->
  Forall (fun a => start (range a) < end_ r /\ start r < end_ (range a)) l ->
  exists removed residuals, unmap_loop l r = Done (removed, residuals) /\
    inv removed /\ pieces_of l removed /\
    (forall addr, view removed addr = if in_range r addr then view l addr else None) /\
    inv residuals /\ pieces_of l residuals /\
    (forall addr, view residuals addr = if in_range r addr then None else view l addr).
Proof.
  intros Hinv Hr. induction l as [|a l IH]; intros Hf.
  { exists [], []. split_and!; try apply inv_nil; try apply Forall_nil_2; try done;
      intros; by destruct (in_range r addr). }
  apply Forall_cons in Hf as [[H1 H2] Hf].
  apply inv_cons_inv in Hinv as Hc. destruct Hc as (Ha & Hb & Hl).
  destruct (IH Hl Hf) as (rem & res & E & Ir & Pr & Vr & Is & Ps & Vs).
  destruct (unmap_one_spec a r) as (cl & mid & rr & Eo & Pm & Rm & Hcl & Hrr); try done.
  destruct (residuals_spec a r cl rr) as (Pres & Sres & Vres); try done.
  cbn [unmap_loop]. rewrite Ha. simpl. rewrite Eo. simpl. rewrite E. simpl.
  destruct (inv_pieces_app a l [mid] rem) as [Ir' Pr']; try done.
  { apply Forall_cons_2; [done|apply Forall_nil_2]. }
  { apply SSorted_cons; [apply SSorted_nil|apply Forall_nil_2]. }
  destruct (inv_pieces_app a l (option_list cl ++ option_list rr) res) as [Is' Ps']; try done.
  rewrite <- app_assoc in Is', Ps'.
  eexists _, _. split_and!; [done|exact Ir'|exact Pr'| |exact Is'|exact Ps'|].
  - intros addr. simpl. rewrite Vr. clear - Pm Rm H1 H2. piece_cases a addr.
  - intros addr. rewrite app_assoc, view_app, Vres, Vs. simpl.
    destruct (in_range r addr), (contains a addr); done.
Qed.

(** ** Putting residuals back *)

Lemma reinsert_all_spec res l :
  inv l -> inv res -> Forall (fun p => fits p l) res -> uniform (res ++ l) ->
  let l' := fold_left reinsert res l in
  inv l' /\ l' ≡ₚ res ++ l /\
  (forall addr, view l' addr =
    match view res addr with Some c => Some c | None => view l addr end).
Proof.
  revert l. induction res as [|p res IH]; intros l Hl Hres Hf Hu; simpl; [done|].
  apply inv_cons_inv in Hres as (Hp & Hb & Hres). apply Forall_cons in Hf as [Hfp Hf].
  destruct (reinsert_spec l p) as (Hi & Hperm & Hv); try done.
  { eapply uniform_mono; [|exact Hu]. set_solver. }
  destruct (IH (reinsert l p)) as (Hi' & Hperm' & Hv'); try done.
  - rewrite Forall_forall in Hf, Hb |- *. intros q Hq addr Hc. rewrite Hv.
    destruct (contains p addr) eqn:Hcp; [|by eapply Hf].
    exfalso. eapply (before_disjoint p q); eauto.
  - eapply uniform_mono; [|exact Hu]. intros x. rewrite Hperm. set_solver.
  - split_and!; [done| |].
    + rewrite Hperm', Hperm. simpl. by rewrite Permutation_middle.
    + intros addr. rewrite Hv', Hv. destruct (contains p addr) eqn:Hcp; [|done].
      destruct (view res addr) as [c|] eqn:Hvr; [|done].
      apply view_Some in Hvr as (q & Hq & Hcq & _). rewrite Forall_forall in Hb.
      exfalso. eapply (before_disjoint p q); eauto.
Qed.

(** The vector around a range: the areas that end before it, those that meet
    it, those that start after it. *)
Lemma split_around l r :
  inv l -> start r < end_ r ->
  exists la lb lc, l = la ++ lb ++ lc /\
    partition_point (fun a => end_ (range a) <=? start r) l = length la /\
    partition_point (fun a => start (range a) <? end_ r) l = length (la ++ lb) /\
    Forall (fun a => end_ (range a) <= start r) la /\
    Forall (fun a => start (range a) < end_ r /\ start r < end_ (range a)) lb /\
    Forall (fun a => end_ r <= start (range a)) lc.
Proof.
  intros Hinv Hr.
  destruct (sorted_split before (fun a => end_ (range a) <=? start r) l)
    as (la & lx & -> & Hp1 & H1 & Hx); [apply Hinv| |].
  { intros x y _ Hy Hxy Hend. pose proof (elem_wf _ _ Hinv Hy) as Hw%wf_nonempty.
    reflect_bools. unfold before in Hxy. apply Z.leb_le. lia. }
  destruct (split_by_start lx (fun x => x <? end_ r)) as (lb & lc & -> & _ & H2 & H3);
    [by eapply inv_app_r|apply ltb_down|].
  exists la, lb, lc. split_and!; [done|done| |..].
  - rewrite app_assoc. apply partition_point_app; [|done]. apply Forall_app. split; [|done].
    rewrite Forall_forall in H1 |- *. intros x Hx'. specialize (H1 x Hx').
    assert (wf x) as Hw%wf_nonempty by (eapply elem_wf; [done|set_solver]).
    reflect_bools. apply Z.ltb_lt. lia.
  - eapply Forall_impl; [exact H1|]. intros; simpl in *; reflect_bools; lia.
  - rewrite Forall_app in Hx. destruct Hx as [Hx _]. rewrite Forall_forall in *.
    intros x Hin. specialize (Hx x Hin). specialize (H2 x Hin). simpl in *. reflect_bools. lia.
  - eapply Forall_impl; [exact H3|]. intros; simpl in *; reflect_bools; lia.
Qed.

(** Areas wholly outside a range contribute nothing inside it. *)
Lemma view_outside l r addr :
  Forall (fun a => end_ (range a) <= start r \/ end_ r <= start (range a)) l ->
  in_range r addr = true -> view l addr = None.
Proof.
  intros Hf Hin. apply in_range_true in Hin. apply view_None.
  eapply Forall_impl; [exact Hf|]. intros a Ha. simpl in Ha. apply contains_false. lia.
Qed.

(** The drained vector: what is left after removing the areas that meet the
    range. *)
Lemma inv_drain la lb lc : inv (la ++ lb ++ lc) -> inv (la ++ lc).
Proof.
  intros [Hw Hs Hu]. rewrite !Forall_app in Hw. rewrite !StronglySorted_app in Hs.
  destruct Hs as (H1 & ? & H2 & ? & ?). split.
  - rewrite Forall_app. tauto.
  - rewrite StronglySorted_app. split_and!; try done. intros x y Hx Hy. apply H1; set_solver.
  - eapply uniform_mono; [|exact Hu]. set_solver.
Qed.

(** An address of the middle part is mapped by no area around it. *)
Lemma view_middle la lb lc a addr :
  inv (la ++ lb ++ lc) -> a ∈ lb -> contains a addr = true -> view (la ++ lc) addr = None.
Proof.
  intros Hinv Ha Hca. apply view_None, Forall_forall. intros b Hb.
  destruct (contains b addr) eqn:Hcb; [exfalso|done].
  assert (forall x, x ∈ la ++ lb ++ lc -> wf x) as Hw by (intros; by eapply elem_wf).
  destruct Hinv as [_ Hs _]. rewrite !StronglySorted_app in Hs.
  destruct Hs as (H1 & _ & H2 & _). rewrite elem_of_app in Hb. destruct Hb as [Hb|Hb].
  - apply (before_disjoint b a addr); auto.
    + apply Hw. rewrite elem_of_app. auto.
    + apply H1; [done|]. rewrite elem_of_app. auto.
  - apply (before_disjoint a b addr); auto. apply Hw. rewrite !elem_of_app. auto.
Qed.

Lemma pieces_fit la lb lc res :
  inv (la ++ lb ++ lc) -> pieces_of lb res -> Forall (fun p => fits p (la ++ lc)) res.
Proof.
  intros Hinv Hp. eapply Forall_impl; [exact Hp|]. simpl. intros p (a & Ha & Hpc) addr Hc.
  eapply view_middle; eauto using piece_contains.
Qed.

Lemma pieces_uniform la lb lc rem res :
  inv (la ++ lb ++ lc) -> pieces_of lb rem -> pieces_of lb res ->
  uniform (rem ++ res ++ la ++ lc).
Proof.
  intros Hinv Pr Ps. eapply uniform_subset; [|apply Hinv]. intros p d Hp Hd.
  setoid_rewrite elem_of_app. setoid_rewrite elem_of_app.
  rewrite !elem_of_app in Hp. destruct Hp as [Hp|[Hp|Hp]]; [| |exists p; tauto].
  - destruct (pieces_of_dom _ _ _ _ Pr Hp Hd) as (b & ? & ?). exists b. tauto.
  - destruct (pieces_of_dom _ _ _ _ Ps Hp Hd) as (b & ? & ?). exists b. tauto.
Qed.

(** [unmap_range] never panics; it returns the cells of the range and leaves
    the others. *)
Lemma unmap_range_spec s r :
  inv (areas s) ->
  exists removed s', unmap_range s r = Done (removed, s') /\
    inv removed /\ inv (areas s') /\ last_find s' = last_find s /\
    uniform (removed ++ areas s') /\
    (forall addr, view removed addr = if in_range r addr then view (areas s) addr else None) /\
    (forall addr, view (areas s') addr = if in_range r addr then None else view (areas s) addr).
Proof.
  intros Hinv. unfold unmap_range. destruct (Z.leb_spec (end_ r) (start r)) as [Hr|Hr].
  { exists [], s. split_and!; try done; [apply inv_nil|apply Hinv|..]; intros addr;
      (destruct (in_range r addr) eqn:E; [apply in_range_true in E; lia|done]). }
  destruct (split_around (areas s) r) as (la & lb & lc & Hl & -> & -> & Ha & Hb & Hc); try done.
  assert (Ha' : Forall (fun a => end_ (range a) <= start r \/ end_ r <= start (range a)) (la ++ lc)).
  { apply Forall_app. split; (eapply Forall_impl; [eassumption|]); simpl; lia. }
  destruct (Nat.leb_spec (length (la ++ lb)) (length la)) as [Hlen|Hlen].
  { rewrite length_app in Hlen. destruct lb; [|simpl in Hlen; lia]. simpl in Hl.
    exists [], s. split_and!; try done; [apply inv_nil|apply Hinv|..]; intros addr;
      (destruct (in_range r addr) eqn:E; [|done]); by rewrite Hl, (view_outside (la ++ lc) r). }
  destruct (unmap_loop_spec lb r) as (rem & res & E & Ir & Pr & Vr & Is & Ps & Vs); try done.
  { rewrite Hl in Hinv. eapply inv_app_l, inv_app_r, Hinv. }
  rewrite Hl in Hinv |- *.
  assert (drop (length la) (take (length (la ++ lb)) (la ++ lb ++ lc)) = lb) as ->.
  { by rewrite app_assoc, take_app_length, drop_app_length. }
  rewrite E. simpl. rewrite take_app_length, app_assoc, drop_app_length, <- app_assoc.
  pose proof (pieces_uniform la lb lc rem res Hinv Pr Ps) as Hu.
  destruct (reinsert_all_spec res (la ++ lc)) as (Hi & Hperm & Hv); try done.
  { by eapply inv_drain. } { by eapply pieces_fit. }
  { eapply uniform_mono; [|exact Hu]. intros x. rewrite (elem_of_app rem). auto. }
  eexists _, _. split_and!; [done|done|exact Hi|done| | |]; simpl.
  - eapply uniform_mono; [|exact Hu]. intros x. rewrite elem_of_app, Hperm.
    by rewrite (elem_of_app rem).
  - intros addr. rewrite Vr. destruct (in_range r addr) eqn:Hin; [|done].
    rewrite !view_app. apply Forall_app in Ha' as [Ha1 Ha2].
    rewrite (view_outside la r), (view_outside lc r) by done. by destruct (view lb addr).
  - intros addr. rewrite Hv, Vs. destruct (in_range r addr) eqn:Hin.
    + by apply (view_outside _ r).
    + rewrite !view_app. destruct (view lb addr) eqn:Hvb; [|done].
      apply view_Some in Hvb as (b & Hb' & Hcb & ->).
      pose proof (view_middle _ _ _ _ _ Hinv Hb' Hcb) as Hm.
      rewrite view_app in Hm. by destruct (view la addr).
Qed.

(** ** Changing flags *)

Definition reflag_cell (update : VmFlags -> VmFlags) (c : cell) : cell := (update c.1, c.2).

Lemma wf_set_flags a f : wf (set_flags a f) <-> wf a.
Proof. by rewrite !wf_iff. Qed.

Lemma reflag_loop_spec update pieces s :
  inv pieces -> inv (areas s) -> Forall (fun p => fits p (areas s)) pieces ->
  uniform (pieces ++ areas s) ->
  exists s', reflag_loop update pieces s =
      (map (fun p => (range p, update (flags p))) pieces, s') /\
    inv (areas s') /\ last_find s' = last_find s /\
    (forall addr, view (areas s') addr =
      match view pieces addr with
      | Some c => Some (reflag_cell update c)
      | None => view (areas s) addr
      end).
Proof.
  revert s. induction pieces as [|p pieces IH]; intros s Hp Hs Hf Hu; simpl; [eauto|].
  apply inv_cons_inv in Hp as (Hw & Hb & Hp). apply Forall_cons in Hf as [Hfp Hf].
  set (p' := set_flags p (update (flags p))).
  assert (uniform (p' :: pieces ++ areas s)) as Hu'.
  { eapply uniform_subset; [|exact Hu]. intros x d Hx Hd.
    apply elem_of_cons in Hx as [->|Hx]; [exists p; split; [left|done]|].
    exists x. split; [by right|done]. }
  destruct (insert_ok_spec s p') as (s1 & -> & Hi1 & Hl1 & Hv1 & Hd1); try done.
  { eapply uniform_mono; [|exact Hu']. set_solver. }
  destruct (IH s1) as (s2 & -> & Hi2 & Hl2 & Hv2); try done.
  - rewrite Forall_forall in Hf, Hb |- *. intros q Hq addr Hc. rewrite Hv1.
    change (contains p' addr) with (contains p addr).
    destruct (contains p addr) eqn:Hcp; [|by eapply Hf].
    exfalso. eapply (before_disjoint p q); eauto.
  - eapply uniform_subset; [|exact Hu']. intros x d Hx Hd.
    apply elem_of_app in Hx as [Hx|Hx]; [exists x; set_solver|].
    destruct (Hd1 x d Hx Hd) as (b & Hb' & ?). exists b. set_solver.
  - eexists. split_and!; [done|done|congruence|]. intros addr. rewrite Hv2, Hv1.
    change (contains p' addr) with (contains p addr).
    destruct (contains p addr) eqn:Hcp; [|done].
    destruct (view pieces addr) as [c|] eqn:Hvp; [|done].
    apply view_Some in Hvp as (q & Hq & Hcq & _). rewrite Forall_forall in Hb.
    exfalso. eapply (before_disjoint p q); eauto.
Qed.

Lemma update_flags_range_spec s r update :
  inv (areas s) ->
  exists out s', update_flags_range s r update = Done (out, s') /\
    inv (areas s') /\ last_find s' = last_find s /\
    compact_upto (length (areas s')) (areas s') /\
    (forall addr, view (areas s') addr =
      if in_range r addr then reflag_cell update <$> view (areas s) addr
      else view (areas s) addr) /\
    (forall addr, in_range r addr = true ->
      forall f, (exists src, view (areas s') addr = Some (f, src)) <->
                (exists rg, (rg, f) ∈ out /\ in_range rg addr = true)).
Proof.
  intros Hinv. unfold update_flags_range.
  destruct (unmap_range_spec s r Hinv) as (rem & s1 & -> & Ir & I1 & L1 & U1 & Vr & V1). simpl.
  destruct (reflag_loop_spec update rem s1) as (s2 & -> & I2 & L2 & V2); try done.
  { apply Forall_forall. intros p Hp addr Hc. rewrite V1.
    destruct (in_range r addr) eqn:Hin; [done|].
    pose proof (elem_mapped _ _ _ Ir Hp Hc) as [c Hc']. rewrite Vr, Hin in Hc'. done. }
  destruct (merge_neighbors_preserves s2 I2) as [I3 V3 _].
  assert (V : forall addr, view (areas (merge_neighbors s2)) addr =
      if in_range r addr then reflag_cell update <$> view (areas s) addr
      else view (areas s) addr).
  { intros addr. rewrite V3, V2, Vr, V1. destruct (in_range r addr); [|done].
    by destruct (view (areas s) addr). }
  eexists _, _. split_and!; [done|done| | |exact V|].
  - unfold merge_neighbors. destruct (is_empty s2); simpl; congruence.
  - unfold merge_neighbors. destruct (is_empty s2) eqn:He.
    + unfold is_empty in He. destruct (areas s2) eqn:E; [|done]. by intros i.
    + apply merge_neighbors_loop_compact; [done|unfold len; lia|]. intros i; lia.
  - intros addr Hin f. rewrite V3, V2, V1, Hin. split.
    + intros [src Hs]. destruct (view rem addr) as [c|] eqn:Hvr; [|done].
      apply view_Some in Hvr as (p & Hp & Hc & ->). exists (range p).
      split; [|by apply contains_true, in_range_true in Hc].
      apply list_elem_of_fmap. exists p. split; [|done]. unfold reflag_cell in Hs.
      simpl in Hs. congruence.
    + intros (rg & Hrg & Hin'). apply list_elem_of_fmap in Hrg as (p & [= -> ->] & Hp).
      assert (contains p addr = true) as Hc by (by apply contains_true, in_range_true).
      assert (view rem addr = Some (cell_at p addr)) as ->.
      { apply view_elem; auto; apply Ir. }
      eexists. done.
Qed.
