(* ===== verification/MmQueries.v ===== *)
(** * Lookups, gap searches and in-place updates of the set of areas

    The rest of [libs/mm/src/set.rs]: the cached lookup, the coverage and gap
    queries, the downward growth of a stack area, the single-area permission
    change and [fork]. *)

From S2P Require Import Prelude MmArea MmSet MmView MmMerge MmSetProofs.
Import VmArea VmaSet.

(** ** Lookup *)

(** The last area that starts at or before an address is the only one that can
    contain it. *)
Lemma find_in_prefix l1 l2 addr :
  inv (l1 ++ l2) -> Forall (fun a => (start (range a) <=? addr) = true) l1 ->
  Forall (fun a => (start (range a) <=? addr) = false) l2 ->
  forall a, a ∈ l1 ++ l2 -> contains a addr = true -> last l1 = Some a.
Proof.
  intros Hinv H1 H2 a Ha Hc. apply contains_true in Hc.
  rewrite Forall_forall in H1, H2. apply elem_of_app in Ha as [Ha|Ha].
  2: { specialize (H2 a Ha). reflect_bools. lia. }
  destruct (last l1) as [p|] eqn:Hlast; [|apply last_None in Hlast as ->; set_solver].
  apply last_Some in Hlast as [l' ->]. f_equal.
  apply elem_of_app in Ha as [Ha|Ha]; [|set_solver].
  exfalso. apply inv_app_l in Hinv.
  assert (before a p) as Hb.
  { eapply StronglySorted_app_1_elem_of; [apply Hinv|done|set_solver]. }
  unfold before in Hb. assert ((start (range p) <=? addr) = true) by (apply H1; set_solver).
  reflect_bools. lia.
Qed.

(** Whatever index the cache holds, the lookup returns the area that contains
    the address, and only the cache changes. *)
Lemma find_area_index_spec s addr :
  inv (areas s) ->
  let '(o, s') := find_area_index s addr in
  areas s' = areas s /\
  match o with
  | Some i => exists a, areas s !! i = Some a /\ contains a addr = true
  | None => view (areas s) addr = None
  end.
Proof.
  intros Hinv. unfold find_area_index.
  destruct (idx ← last_find s; a ← areas s !! idx; if contains a addr then Some idx else None)
    as [i|] eqn:Hc.
  { split; [done|]. apply bind_Some in Hc as (i' & _ & Hc).
    apply bind_Some in Hc as (a & Ha & Hc). exists a. destruct (contains a addr) eqn:E; [|done].
    injection Hc as ->. done. }
  clear Hc. split; [done|].
  destruct (split_by_start (areas s) (fun x => x <=? addr)) as (l1 & l2 & Hl & -> & H1 & H2);
    [done|apply leb_down|].
  rewrite Hl in *. pose proof (find_in_prefix l1 l2 addr Hinv H1 H2) as Hf.
  assert (forall a, last l1 = Some a -> contains a addr = false -> view (l1 ++ l2) addr = None)
    as Hnone.
  { intros a Hla Hca. apply view_None, Forall_forall. intros b Hb.
    destruct (contains b addr) eqn:E; [|done]. rewrite (Hf b Hb E) in Hla. congruence. }
  rewrite (last_lookup_app l1 l2) in Hf, Hnone. destruct (length l1) as [|n] eqn:Hlen.
  { apply view_None, Forall_forall. intros b Hb.
    destruct (contains b addr) eqn:E; [|done]. by specialize (Hf b Hb E). }
  simpl in Hf, Hnone. rewrite Nat.sub_0_r in Hf, Hnone.
  destruct (lookup_lt_is_Some_2 (l1 ++ l2) n) as [a Ha]; [rewrite length_app; lia|].
  rewrite Ha in *.
  assert (start (range a) <= addr) as Hs.
  { rewrite lookup_app_l in Ha by lia. rewrite Forall_lookup in H1. specialize (H1 _ _ Ha).
    simpl in H1. by apply Z.leb_le. }
  destruct (Z.ltb_spec addr (end_ (range a))) as [He|He].
  - exists a. split; [done|]. apply contains_true. lia.
  - apply (Hnone a); [done|]. apply contains_false. lia.
Qed.

(** ** Coverage *)

(** The vector restricted to the areas that start before the end of a range
    represents the same cells below that end. *)
Lemma view_take_start l e addr :
  inv l -> addr < e ->
  view (take (partition_point (fun a => start (range a) <? e) l) l) addr = view l addr.
Proof.
  intros Hinv He.
  destruct (split_by_start l (fun x => x <? e)) as (l1 & l2 & -> & -> & H1 & H2);
    [done|apply ltb_down|].
  rewrite take_app_length, view_app. destruct (view l1 addr); [done|].
  symmetry. apply view_None. eapply Forall_impl; [exact H2|].
  intros a Ha. simpl in Ha. reflect_bools. apply contains_false. lia.
Qed.

Lemma inv_take n l : inv l -> inv (take n l).
Proof. intros H. rewrite <- (take_drop n l) in H. by eapply inv_app_l. Qed.

Lemma inv_filter (P : VmArea -> Prop) `{!forall x, Decision (P x)} l :
  inv l -> inv (filter P l).
Proof.
  intros [Hw Hs Hu]. split; [| |eapply uniform_mono; [|exact Hu]; intros x;
    rewrite list_elem_of_filter; tauto].
  - apply Forall_forall. intros x. rewrite list_elem_of_filter. rewrite Forall_forall in Hw. naive_solver.
  - induction Hs as [|a l Hs IH Ha]; [constructor|]. rewrite filter_cons. apply Forall_cons in Hw as [_ Hw].
    assert (uniform l) by (eapply uniform_mono; [|exact Hu]; set_solver).
    case_decide; [|by apply IH]. constructor; [by apply IH|].
    apply Forall_forall. intros x. rewrite list_elem_of_filter. rewrite Forall_forall in Ha. naive_solver.
Qed.

(** The loop answers whether every address from [cursor] on is mapped. *)
Lemma contains_range_loop_spec l r cursor :
  inv l -> cursor < end_ r ->
  Forall (fun a => start r < end_ (range a)) l -> start r <= cursor ->
  contains_range_loop l r cursor = true <->
  (forall addr, cursor <= addr < end_ r -> is_Some (view l addr)).
Proof.
  revert cursor. induction l as [|a l IH]; intros cursor Hinv Hc Hf Hs; simpl.
  { split; [done|]. intros H. destruct (H cursor) as [? ?]; [lia|done]. }
  apply inv_cons_inv in Hinv as Hx. destruct Hx as (Ha & Hb & Hl). rewrite Ha. simpl.
  apply wf_nonempty in Ha as Hne. apply Forall_cons in Hf as [Hfa Hf].
  assert (forall addr, addr < start (range a) -> view l addr = None) as Hafter.
  { intros addr Hlt. apply view_None. eapply Forall_impl; [exact Hb|].
    intros b Hab. unfold before in Hab. apply contains_false. lia. }
  destruct (Z.ltb_spec cursor (start (range a))) as [Hlt|Hge].
  { split; [done|]. intros H. destruct (H cursor) as [c Hc']; [lia|].
    rewrite Hafter in Hc' by done. case_match; [|done]. apply contains_true in H0. lia. }
  destruct (Z.leb_spec (end_ r) (Z.max cursor (end_ (range a)))) as [He|He].
  { split; [|done]. intros _ addr Haddr. rewrite (proj2 (contains_true a addr)) by lia. eauto. }
  rewrite IH by (done || lia). split.
  - intros H addr Haddr. destruct (contains a addr) eqn:E; [eauto|].
    apply contains_false in E. apply H. lia.
  - intros H addr Haddr. specialize (H addr ltac:(lia)).
    rewrite (proj2 (contains_false a addr)) in H by lia. done.
Qed.

Lemma contains_range_spec s r :
  inv (areas s) -> start r < end_ r ->
  contains_range s r = true <->
  (forall addr, in_range r addr = true -> is_Some (view (areas s) addr)).
Proof.
  intros Hinv Hr. unfold contains_range. rewrite (proj2 (Z.leb_gt _ _)) by done.
  unfold iter_overlap. set (tk := take _ _). set (P := fun v => _ = true).
  assert (inv tk) as Htk by (by apply inv_take).
  assert (forall addr, in_range r addr = true -> view (filter P tk) addr = view (areas s) addr)
    as Hv.
  { intros addr Hin%in_range_true. rewrite <- (view_take_start (areas s) (end_ r)) by (done || lia).
    fold tk. apply option_eq. intros c. rewrite !view_Some_iff by eauto using inv_filter.
    split; intros (a & Ha & Hc & ->); exists a; rewrite list_elem_of_filter in *; [tauto|].
    split_and!; try done. unfold P. pose proof (elem_wf _ _ Htk Ha) as Hw%wf_nonempty.
    apply contains_true in Hc. rewrite !andb_true_iff, !Z.ltb_lt. lia. }
  rewrite contains_range_loop_spec; [|by apply inv_filter|done| |lia].
  - setoid_rewrite in_range_true. split; intros H addr Haddr.
    + rewrite <- Hv by (by apply in_range_true). by apply H.
    + rewrite Hv by (by apply in_range_true). by apply H.
  - apply Forall_forall. intros a. rewrite list_elem_of_filter. unfold P.
    rewrite !andb_true_iff, !Z.ltb_lt. tauto.
Qed.

(** ** Gaps *)

(** A window of [len] bytes at [s] between [lo] and [hi] that no area meets. *)
Definition free_window (l : list VmArea) (lo hi len s : Z) : Prop :=
  lo <= s /\ s + len <= hi /\ forall addr, s <= addr < s + len -> view l addr = None.

(** [o] is the lowest window that satisfies [P], [None] when there is none. *)
Definition lowest_window (P : Z -> Prop) (len : Z) (o : option Range) : Prop :=
  match o with
  | Some g => P (start g) /\ end_ g = start g + len /\ forall s, P s -> start g <= s
  | None => forall s, ~ P s
  end.

Lemma lowest_window_iff (P Q : Z -> Prop) len o :
  (forall s, P s <-> Q s) -> lowest_window P len o -> lowest_window Q len o.
Proof. intros H. unfold lowest_window. destruct o; setoid_rewrite H; tauto. Qed.

(** A window above [cursor] meets the first area of the vector unless it ends
    before it or starts after it. *)
Lemma free_window_cons a l cursor hi len s :
  wf a -> 0 < len ->
  free_window (a :: l) cursor hi len s <->
  free_window l cursor hi len s /\
  (s + len <= start (range a) \/ end_ (range a) <= s).
Proof.
  intros Ha%wf_nonempty Hlen. unfold free_window. split.
  - intros (H1 & H2 & H3). simpl in H3. split_and!; try done.
    + intros addr Hin. specialize (H3 addr Hin). by destruct (contains a addr).
    + destruct (Z.le_gt_cases (s + len) (start (range a))); [by left|].
      destruct (Z.le_gt_cases (end_ (range a)) s); [by right|].
      specialize (H3 (Z.max s (start (range a))) ltac:(lia)).
      rewrite (proj2 (contains_true a _)) in H3 by lia. done.
  - intros ((H1 & H2 & H3) & H4). split_and!; try done. intros addr Hin. simpl.
    rewrite (proj2 (contains_false a _)) by lia. by apply H3.
Qed.

(** Below the first area of an ordered vector everything is free. *)
Lemma free_below a l lo hi len s :
  inv (a :: l) -> lo <= s -> s + len <= hi -> s + len <= start (range a) ->
  free_window (a :: l) lo hi len s.
Proof.
  intros Hinv ? ? ?. split_and!; try done. intros addr Hin. apply view_None, Forall_forall.
  intros b Hb. pose proof (inv_head_bound _ _ _ Hinv Hb). apply contains_false. lia.
Qed.

Lemma find_gap_loop_spec l search len cursor :
  inv l -> 0 < len -> start search <= cursor -> end_ search <= U64_MAX ->
  lowest_window (free_window l cursor (end_ search) len) len
    (find_gap_loop l search len cursor).
Proof.
  revert cursor. induction l as [|a l IH]; intros cursor Hinv Hlen Hc He; simpl.
  { destruct ((cursor <=? end_ search) && (len <=? end_ search - cursor)) eqn:E; reflect_bools.
    - rewrite checked_add_ok by lia. simpl. split; [split_and!; [done|lia|done]|].
      split; [done|]. by intros s (? & _).
    - intros s (? & ? & _). destruct E; reflect_bools; lia. }
  apply inv_cons_inv in Hinv as Hx. destruct Hx as (Ha & _ & Hl). rewrite Ha. simpl.
  apply wf_nonempty in Ha as Hne.
  destruct (Z.leb_spec (end_ (range a)) (start search)).
  { eapply lowest_window_iff; [|by apply IH]. intros s. rewrite free_window_cons by done.
    split; [intros Hw; split; [done|destruct Hw; lia]|tauto]. }
  destruct (_ && _) eqn:E; reflect_bools.
  { rewrite checked_add_ok by lia. simpl. split; [apply free_below; (done || lia)|].
    split; [done|]. by intros s (? & _). }
  assert (forall s, free_window (a :: l) cursor (end_ search) len s <->
    free_window l (Z.max cursor (end_ (range a))) (end_ search) len s) as Hiff.
  { intros s. rewrite free_window_cons by done. unfold free_window. split.
    - intros ((? & ? & ?) & Hd). split_and!; try done.
      destruct E; reflect_bools; lia.
    - intros (? & ? & ?). split_and!; try done; lia. }
  destruct (Z.leb_spec (end_ search) (Z.max cursor (end_ (range a)))).
  - intros s. rewrite Hiff. intros (? & ? & _). lia.
  - eapply lowest_window_iff; [intros s; symmetry; apply Hiff|]. apply IH; (done || lia).
Qed.

(** The windows of the whole vector are those of the areas that start before
    the end of the search range. *)
Lemma free_window_take l lo hi len s :
  inv l -> 
  free_window (take (partition_point (fun a => start (range a) <? hi) l) l) lo hi len s <->
  free_window l lo hi len s.
Proof.
  intros Hinv. unfold free_window.
  split; intros (? & ? & H); split_and!; try done; intros addr Hin; specialize (H addr Hin);
    rewrite view_take_start in * by (done || lia); done.
Qed.

(** ** Aligned gaps *)

(** Clearing the low bits of a 64-bit value rounds it down. *)
Lemma land_not_mask k y :
  0 <= k -> 2 ^ k <= U64_MAX -> 0 <= y <= U64_MAX ->
  Z.land y (Z.lxor USIZE_MAX (2 ^ k - 1)) = y / 2 ^ k * 2 ^ k.
Proof.
  intros Hk Hm Hy.
  rewrite <- Z.shiftl_mul_pow2, <- Z.shiftr_div_pow2, <- Z.ldiff_ones_r by done.
  replace (2 ^ k - 1) with (Z.ones k) by (rewrite Z.ones_equiv; lia).
  assert (USIZE_MAX = Z.ones 64) as -> by done.
  apply Z.bits_inj'. intros n Hn.
  rewrite Z.land_spec, Z.lxor_spec, Z.ldiff_spec.
  destruct (Z.lt_ge_cases n 64) as [Hn64|Hn64].
  - rewrite (Z.ones_spec_low 64) by lia. by rewrite xorb_true_l.
  - replace (Z.testbit y n) with false; [done|]. symmetry.
    apply Z.bits_above_log2; [lia|]. destruct (Z.eq_dec y 0) as [->|]; [simpl; lia|].
    apply Z.log2_lt_pow2; [lia|]. assert (2 ^ 64 <= 2 ^ n) by (apply Z.pow_le_mono_r; lia).
    change (2 ^ 64) with (U64_MAX + 1) in *. lia.
Qed.

(** [align_up] is the least multiple of the alignment at or above the value,
    and fails only when that rounding leaves the address space. *)
Lemma align_up_spec al v :
  is_power_of_two al = true -> al <= U64_MAX -> 0 <= v ->
  match align_up al v with
  | Some x => v <= x <= v + al - 1 /\ x mod al = 0 /\ forall y, v <= y -> y mod al = 0 -> x <= y
  | None => forall y, v <= y -> y mod al = 0 -> U64_MAX < y
  end.
Proof.
  intros (k & Hk & ->)%is_power_of_two_spec Hm Hv. unfold align_up.
  assert (0 < 2 ^ k) as Hpos by (by apply Z.pow_pos_nonneg).
  destruct (checked_add v (2 ^ k - 1)) as [w|] eqn:Hw; simpl.
  - apply checked_add_Some in Hw as [Hle ->]. rewrite land_not_mask by (done || lia).
    set (P := 2 ^ k) in *. pose proof (Z.div_mod (v + (P - 1)) P ltac:(lia)) as Hdm.
    pose proof (Z.mod_pos_bound (v + (P - 1)) P Hpos) as Hmb.
    split_and!; [lia|lia|by apply Z.mod_mul; lia|].
    intros y Hy Hmod. apply Z.mod_divide in Hmod as [q ->]; [|lia].
    apply Z.mul_le_mono_nonneg_r; [lia|].
    apply Z.lt_succ_r, Z.div_lt_upper_bound; [lia|]. nia.
  - intros y Hy Hmod. apply Z.mod_divide in Hmod as [q ->]; [|lia].
    assert (U64_MAX < v + (2 ^ k - 1)) as Hov.
    { unfold checked_add in Hw. case_match; reflect_bools; [done|lia]. }
    assert (k <= 64) as Hk64.
    { apply (Z.pow_le_mono_r_iff 2); [lia|lia|]. change (2 ^ 64) with (U64_MAX + 1). lia. }
    assert (U64_MAX + 1 = 2 ^ (64 - k) * 2 ^ k) as Hsplit.
    { rewrite <- Z.pow_add_r by lia. by replace (64 - k + k) with 64 by lia. }
    assert (2 ^ (64 - k) <= q); nia.
Qed.

(** An aligned free window. *)
Definition aligned_window (l : list VmArea) (lo hi len al s : Z) : Prop :=
  free_window l lo hi len s /\ s mod al = 0.

(** The common tail of the loop: round the cursor up and test the bound. *)
Lemma aligned_step al len cursor bound hi P fallback :
  0 < len -> is_power_of_two al = true -> al <= U64_MAX -> 0 <= cursor ->
  hi <= U64_MAX -> bound <= hi ->
  (forall s, P s -> cursor <= s /\ s + len <= hi /\ s mod al = 0) ->
  (forall s, cursor <= s -> s mod al = 0 -> s + len <= bound -> P s) ->
  ((forall s, cursor <= s -> s mod al = 0 -> bound < s + len) -> lowest_window P len fallback) ->
  lowest_window P len
    (aligned ← align_up al cursor; e ← checked_add aligned len;
     if e <=? bound then Some (mkRange aligned e) else fallback).
Proof.
  intros Hlen Hal Hm Hc Hhi Hb HP1 HP2 Hfb. pose proof (align_up_spec al cursor Hal Hm Hc) as Hup.
  destruct (align_up al cursor) as [x|]; simpl.
  2: { intros s Hs. apply HP1 in Hs as (H1 & ? & H3). specialize (Hup s H1 H3). lia. }
  destruct Hup as (Hx & Hmod & Hmin).
  destruct (checked_add x len) as [e|] eqn:He; simpl.
  2: { intros s Hs. apply HP1 in Hs as (H1 & ? & H3). specialize (Hmin s H1 H3).
       unfold checked_add in He. case_match; reflect_bools; [done|lia]. }
  apply checked_add_Some in He as [_ ->]. destruct (Z.leb_spec (x + len) bound).
  - simpl. split; [apply HP2; (done || lia)|]. split; [done|].
    intros s (? & ? & ?)%HP1. auto.
  - apply Hfb. intros s H1 H3. specialize (Hmin s H1 H3). lia.
Qed.

Lemma find_aligned_gap_loop_spec l search len al cursor :
  inv l -> 0 < len -> 0 <= start search <= cursor -> end_ search <= U64_MAX ->
  is_power_of_two al = true -> al <= U64_MAX ->
  lowest_window (aligned_window l cursor (end_ search) len al) len
    (find_aligned_gap_loop l search len al cursor).
Proof.
  intros Hinv Hlen Hc He Hal Hm. revert cursor Hc Hinv.
  induction l as [|a l IH]; intros cursor Hc Hinv; cbn [find_aligned_gap_loop].
  { eapply (aligned_step al len cursor _ (end_ search)); [done|done|done|lia|done|reflexivity|..].
    - by intros s ((? & ? & _) & ?).
    - intros s ? ? ?. by split_and!.
    - intros Hno s ((H1 & ? & _) & H3). specialize (Hno s H1 H3). lia. }
  apply inv_cons_inv in Hinv as Hx. destruct Hx as (Ha & _ & Hl). rewrite Ha. simpl.
  apply wf_nonempty in Ha as Hne.
  destruct (Z.leb_spec (end_ (range a)) (start search)).
  { eapply lowest_window_iff; [|by apply IH]. intros s. unfold aligned_window.
    rewrite free_window_cons by done. unfold free_window. split; [|tauto].
    intros ((? & ? & ?) & ?). split_and!; (done || lia). }
  set (cont := if end_ search <=? _ then None else _).
  assert ((forall s, cursor <= s -> s mod al = 0 ->
      Z.min (start (range a)) (end_ search) < s + len) ->
    lowest_window (aligned_window (a :: l) cursor (end_ search) len al) len cont) as Hcont.
  { intros Hno. assert (forall s, aligned_window (a :: l) cursor (end_ search) len al s <->
      aligned_window l (Z.max cursor (end_ (range a))) (end_ search) len al s) as Hiff.
    { intros s. unfold aligned_window. rewrite free_window_cons by done. unfold free_window. split.
      - intros (((H1 & ? & ?) & Hd) & H3). specialize (Hno s H1 H3). split_and!; (done || lia).
      - intros ((? & ? & ?) & ?). split_and!; (done || lia). }
    unfold cont. destruct (Z.leb_spec (end_ search) (Z.max cursor (end_ (range a)))).
    - intros s. rewrite Hiff. intros ((? & ? & _) & _). lia.
    - eapply lowest_window_iff; [intros s; symmetry; apply Hiff|]. apply IH; (done || lia). }
  destruct (Z.ltb_spec cursor (Z.min (start (range a)) (end_ search))).
  - eapply (aligned_step al len cursor _ (end_ search));
      [done|done|done|lia|done|lia|..|exact Hcont].
    + by intros s ((? & ? & _) & ?).
    + intros s ? ? ?. split; [|done]. apply free_below; (done || lia).
  - apply Hcont. lia.
Qed.
