(* ===== verification/MmUpdates.v ===== *)
(** * In-place updates of the set of areas

    [grow_down_to], [protect_single_area] and [fork_clone_metadata] of
    [libs/mm/src/set.rs]. *)

From S2P Require Import Prelude MmArea MmSet MmView MmMerge MmSetProofs MmQueries.
Import VmArea VmaSet.

(** ** Replacing one area by parts of it *)

(** [p] lies within [a] and comes from the same mapping. *)
Record within (a p : VmArea) : Prop := mk_within {
  within_wf : wf p;
  within_start : start (range a) <= start (range p);
  within_end : end_ (range p) <= end_ (range a);
  within_dom : dom_of p = dom_of a
}.

Lemma replace_middle l1 a l2 ps :
  inv (l1 ++ a :: l2) -> Forall (within a) ps -> StronglySorted before ps ->
  inv (l1 ++ ps ++ l2) /\
  forall addr, view (l1 ++ ps ++ l2) addr =
    if contains a addr then view ps addr else view (l1 ++ a :: l2) addr.
Proof.
  intros Hinv Hps Hs. assert (Hps' := Hps). rewrite Forall_forall in Hps'.
  pose proof Hinv as [Hw Hss Hu].
  rewrite Forall_app, Forall_cons in Hw. destruct Hw as (Hw1 & Ha & Hw2).
  rewrite StronglySorted_app, StronglySorted_cons in Hss.
  destruct Hss as (H12 & Hs1 & Hal & Hs2). rewrite Forall_forall in Hal.
  split; [split|].
  - rewrite !Forall_app. split_and!; try done. eapply Forall_impl; [exact Hps|]. by intros ? [].
  - rewrite !StronglySorted_app. split_and!; try done.
    + intros x y Hx [Hy|Hy]%elem_of_app; [|apply H12; [done|by right]].
      specialize (H12 x a Hx ltac:(left)). destruct (Hps' y Hy). unfold before in *. lia.
    + intros x y Hx Hy. specialize (Hal y Hy). destruct (Hps' x Hx). unfold before in *. lia.
  - eapply uniform_subset; [|exact Hu]. intros x d Hx Hd.
    rewrite !elem_of_app in Hx. destruct Hx as [Hx|[Hx|Hx]]; [exists x; set_solver| |exists x; set_solver].
    exists a. split; [set_solver|]. by rewrite <- (within_dom _ _ (Hps' x Hx)).
  - intros addr. destruct (contains a addr) eqn:Hc.
    + pose proof (view_middle l1 [a] l2 a addr Hinv ltac:(left) Hc) as Hn.
      rewrite view_app in Hn. rewrite !view_app. destruct (view l1 addr); [done|].
      rewrite Hn. by destruct (view ps addr).
    + rewrite !view_app. simpl. rewrite Hc. destruct (view l1 addr); [done|].
      replace (view ps addr) with (@None cell); [done|]. symmetry.
      apply view_None. eapply Forall_impl; [exact Hps|]. intros p [_ ? ? _].
      apply contains_false. apply contains_false in Hc. lia.
Qed.

Lemma insert_middle (l1 l2 : list VmArea) a x : <[length l1 := x]> (l1 ++ a :: l2) = l1 ++ x :: l2.
Proof. by rewrite insert_app_r_alt, Nat.sub_diag by lia. Qed.

Lemma vec_insert_second (l1 l2 : list VmArea) x y :
  vec_insert (length l1 + 1) y (l1 ++ x :: l2) = l1 ++ x :: y :: l2.
Proof.
  replace (length l1 + 1)%nat with (length (l1 ++ [x])) by (rewrite length_app; done).
  assert (l1 ++ x :: l2 = (l1 ++ [x]) ++ l2) as -> by (by rewrite <- app_assoc).
  rewrite vec_insert_app. by rewrite <- app_assoc.
Qed.

Lemma vec_insert_third (l1 l2 : list VmArea) x y z :
  vec_insert (length l1 + 2) z (l1 ++ x :: y :: l2) = l1 ++ x :: y :: z :: l2.
Proof.
  replace (length l1 + 2)%nat with (length (l1 ++ [x]) + 1)%nat by (rewrite length_app; simpl; lia).
  assert (l1 ++ x :: y :: l2 = (l1 ++ [x]) ++ y :: l2) as -> by (by rewrite <- app_assoc).
  rewrite vec_insert_second. by rewrite <- app_assoc.
Qed.

(** ** Single-area permission change *)

(** The permission change as the code writes it. *)
Definition protect_with (new_flags : VmFlags) (a : VmArea) : VmArea :=
  set_flags a (VmFlags.with_permissions (flags a) (VmFlags.permissions new_flags)).

Definition set_perms (new_flags f : VmFlags) : VmFlags :=
  VmFlags.with_permissions f (VmFlags.permissions new_flags).

(** The cells of an area [a] after the range [r] of it was protected. *)
Definition protected_view (nf : VmFlags) (r : Range) (a : VmArea) (addr : Z) : option cell :=
  Some (if in_range r addr then reflag_cell (set_perms nf) (cell_at a addr) else cell_at a addr).

(** The cut of one area by a range inside it, as the three mutating branches of
    [protect_single_area] produce it. *)
Definition protect_pieces (nf : VmFlags) (r : Range) (a : VmArea) : option (list VmArea) :=
  match start r =? start (range a), end_ r =? end_ (range a) with
  | true, true => Some [protect_with nf a]
  | true, false => '(p, right_) ← split_at a (end_ r); Some [protect_with nf p; right_]
  | false, true => '(left_, p) ← split_at a (start r); Some [left_; protect_with nf p]
  | false, false =>
      '(left_, rest) ← split_at a (start r); '(p, right_) ← split_at rest (end_ r);
      Some [left_; protect_with nf p; right_]
  end.

Lemma within_split a x l r :
  split_at a x = Some (l, r) -> within a l /\ within a r.
Proof.
  intros (Ha&Hl&Hr&Hx&El&Er&_&_&Hdl&Hdr&_)%split_at_Some.
  split; split; rewrite ?El, ?Er; simpl; (done || lia).
Qed.

Lemma within_protect nf a p : within a p -> within a (protect_with nf p).
Proof. intros []. by split. Qed.

Lemma within_trans a b c : within a b -> within b c -> within a c.
Proof. intros [] []. split; [done|lia|lia|congruence]. Qed.

(** Case analysis on which of the listed parts contain [addr]. *)
Ltac parts_cases addr :=
  simpl; unfold protected_view;
  repeat match goal with
  | |- context [contains (protect_with ?nf ?p) addr] =>
      change (contains (protect_with nf p) addr) with (contains p addr)
  | |- context [contains ?p addr] => destruct (contains p addr) eqn:?
  end;
  match goal with |- context [in_range ?r addr] => destruct (in_range r addr) eqn:? end;
  try match goal with H : contains ?p addr = true |- Some _ = Some _ => f_equal end;
  try (by unfold reflag_cell, protect_with, cell_at in *; simpl in *; congruence);
  exfalso; rewrite ?contains_true, ?contains_false, ?in_range_true, ?in_range_false in *;
  repeat match goal with H : range _ = _ |- _ => rewrite H in *; clear H end;
  simpl in *; lia.

(** Protecting a part of a split keeps the source and sets the permissions. *)
Lemma protect_with_cell nf a p addr :
  cell_at p addr = cell_at a addr ->
  cell_at (protect_with nf p) addr = reflag_cell (set_perms nf) (cell_at a addr).
Proof. unfold cell_at, reflag_cell. simpl. intros [= -> ->]. done. Qed.

Lemma sorted2 a b : before a b -> StronglySorted before [a; b].
Proof. intros. repeat constructor. done. Qed.

Lemma sorted3 a b c : before a b -> before a c -> before b c -> StronglySorted before [a; b; c].
Proof. intros. repeat constructor; done. Qed.

Lemma protect_pieces_spec nf r a :
  wf a -> start (range a) <= start r -> end_ r <= end_ (range a) -> start r < end_ r ->
  exists ps, protect_pieces nf r a = Some ps /\ Forall (within a) ps /\
    StronglySorted before ps /\
    forall addr, contains a addr = true -> view ps addr = protected_view nf r a addr.
Proof.
  intros Ha Hs He Hr. unfold protect_pieces.
  assert (within a a) as Haa by (split; (done || lia)).
  destruct (Z.eqb_spec (start r) (start (range a))), (Z.eqb_spec (end_ r) (end_ (range a))).
  - eexists. split_and!; [done| |repeat constructor|].
    { apply Forall_cons_2; [by apply within_protect|apply Forall_nil_2]. }
    intros addr Hc. simpl. change (contains (protect_with nf a) addr) with (contains a addr).
    rewrite Hc. unfold protected_view. apply contains_true in Hc.
    rewrite (proj2 (in_range_true r addr)) by lia. by rewrite (protect_with_cell nf a a).
  - destruct (split_at_ok a (end_ r)) as (p & q & E); [done|lia|]. rewrite E. simpl.
    destruct (within_split _ _ _ _ E) as [Wp Wq].
    apply split_at_Some in E as (_&_&_&Hx&Ep&Eq&_&_&_&_&Cp&Cq).
    eexists. split_and!; [done| | |].
    { repeat apply Forall_cons_2; try apply Forall_nil_2; [by apply within_protect|done]. }
    { apply sorted2. unfold before. simpl. rewrite Ep, Eq. done. }
    intros addr Hc. rewrite contains_true in Hc.
    pose proof (protect_with_cell nf a p addr (Cp addr)). parts_cases addr.
  - destruct (split_at_ok a (start r)) as (q & p & E); [done|lia|]. rewrite E. simpl.
    destruct (within_split _ _ _ _ E) as [Wq Wp].
    apply split_at_Some in E as (_&_&_&Hx&Eq&Ep&_&_&_&_&Cq&Cp).
    eexists. split_and!; [done| | |].
    { repeat apply Forall_cons_2; try apply Forall_nil_2; [done|by apply within_protect]. }
    { apply sorted2. unfold before. simpl. rewrite Ep, Eq. done. }
    intros addr Hc. rewrite contains_true in Hc.
    pose proof (protect_with_cell nf a p addr (Cp addr)). parts_cases addr.
  - destruct (split_at_ok a (start r)) as (q & m & E); [done|lia|]. rewrite E. simpl.
    destruct (within_split _ _ _ _ E) as [Wq Wm].
    apply split_at_Some in E as (_&_&Hm&Hx&Eq&Em&_&_&_&_&Cq&Cm).
    destruct (split_at_ok m (end_ r)) as (p & t & E); [done|rewrite Em; simpl; lia|].
    rewrite E. simpl. destruct (within_split _ _ _ _ E) as [Wp Wt].
    apply split_at_Some in E as (_&_&_&Hy&Ep&Et&_&_&_&_&Cp&Ct).
    rewrite Em in Hy, Ep, Et. simpl in Hy, Ep, Et.
    eexists. split_and!; [done| | |].
    { repeat apply Forall_cons_2; try apply Forall_nil_2;
        eauto using within_protect, within_trans. }
    { apply sorted3; unfold before; simpl; rewrite ?Ep, ?Eq, ?Et; simpl; lia. }
    intros addr Hc. rewrite contains_true in Hc.
    pose proof (protect_with_cell nf a p addr ltac:(by rewrite Cp)) as Hcell.
    pose proof (Ct addr) as Ht. rewrite Cm in Ht. parts_cases addr.
Qed.

(** ** The flag word *)

(** [with_permissions] replaces the permission bits and keeps the others. *)
Lemma with_permissions_testbit f p n :
  is_u32 (VmFlags.bits f) -> 0 <= n ->
  Z.testbit (VmFlags.bits (VmFlags.with_permissions f p)) n =
  if Z.testbit VmFlags.PERM_MASK n then Z.testbit (VmFlags.bits p) n
  else Z.testbit (VmFlags.bits f) n.
Proof.
  intros Hf Hn. unfold VmFlags.with_permissions, VmFlags.not32. simpl.
  rewrite Z.lor_spec, !Z.land_spec, Z.lxor_spec.
  destruct (Z.lt_ge_cases n 32) as [Hlt|Hge].
  - change U32_MAX with (Z.ones 32). rewrite Z.ones_spec_low by lia.
    destruct (Z.testbit VmFlags.PERM_MASK n); simpl;
      by rewrite ?andb_false_r, ?andb_true_r, ?orb_false_r.
  - rewrite (testbit_above (VmFlags.bits f) 32) by (unfold is_u32, U32_MAX in Hf; lia).
    rewrite (testbit_above VmFlags.PERM_MASK 32) by (done || lia). by rewrite andb_false_r.
Qed.

Lemma set_perms_same nf f :
  is_u32 (VmFlags.bits f) -> VmFlags.permissions f = VmFlags.permissions nf ->
  set_perms nf f = f.
Proof.
  intros Hf Hp. destruct f as [b]. unfold set_perms.
  enough (VmFlags.bits (VmFlags.with_permissions (VmFlags.VmFlags_ b) (VmFlags.permissions nf)) = b)
    as Heq by (revert Heq; destruct (VmFlags.with_permissions _ _) as [b']; simpl; congruence).
  apply Z.bits_inj'. intros n Hn. rewrite with_permissions_testbit by done.
  rewrite <- Hp. simpl. destruct (Z.testbit VmFlags.PERM_MASK n) eqn:E; [|done].
  by rewrite Z.land_spec, E, andb_true_r.
Qed.

(** ** [protect_single_area] *)

(** One area covers the whole (non-empty) range. *)
Definition covered_by_one (l : list VmArea) (r : Range) (a : VmArea) : Prop :=
  start r < end_ r /\ a ∈ l /\ start (range a) <= start r /\ end_ r <= end_ (range a).

(** The code's four branches are the merge of the cut parts into the vector. *)
Lemma protect_branches nf r l1 a l2 :
  match start r =? start (range a), end_ r =? end_ (range a) with
  | true, true =>
      Some (true, merge_around (<[length l1 := protect_with nf a]> (l1 ++ a :: l2)) (length l1))
  | true, false =>
      '(protected, right_) ← split_at a (end_ r);
      Some (true, merge_around (vec_insert (length l1 + 1) right_
        (<[length l1 := protect_with nf protected]> (l1 ++ a :: l2))) (length l1))
  | false, true =>
      '(left_, protected) ← split_at a (start r);
      Some (true, merge_around (vec_insert (length l1 + 1) (protect_with nf protected)
        (<[length l1 := left_]> (l1 ++ a :: l2))) (length l1 + 1))
  | false, false =>
      '(left_, remainder) ← split_at a (start r);
      '(protected, right_) ← split_at remainder (end_ r);
      Some (true, merge_around (vec_insert (length l1 + 2) right_
        (vec_insert (length l1 + 1) (protect_with nf protected)
          (<[length l1 := left_]> (l1 ++ a :: l2)))) (length l1 + 1))
  end =
  ps ← protect_pieces nf r a;
  Some (true, merge_around (l1 ++ ps ++ l2)
                (if start r =? start (range a) then length l1 else (length l1 + 1)%nat)).
Proof.
  unfold protect_pieces. destruct (start r =? _), (end_ r =? _).
  - by rewrite insert_middle.
  - destruct (split_at a (end_ r)) as [[p q]|]; [|done]. simpl.
    by rewrite insert_middle, vec_insert_second.
  - destruct (split_at a (start r)) as [[p q]|]; [|done]. simpl.
    by rewrite insert_middle, vec_insert_second.
  - destruct (split_at a (start r)) as [[p q]|]; [|done]. simpl.
    destruct (split_at q (end_ r)) as [[x y]|]; [|done]. simpl.
    by rewrite insert_middle, vec_insert_second, vec_insert_third.
Qed.

(** The area the code selects, when one covers the range. *)
Lemma covered_selected l r :
  inv l -> start r < end_ r ->
  match partition_point (fun a => start (range a) <=? start r) l with
  | O => forall a, ~ covered_by_one l r a
  | S idx => exists l1 a l2, l = l1 ++ a :: l2 /\ length l1 = idx /\
      start (range a) <= start r /\ (forall b, covered_by_one l r b -> b = a)
  end.
Proof.
  intros Hinv Hr.
  destruct (split_by_start l (fun x => x <=? start r)) as (l1 & l2 & -> & -> & H1 & H2);
    [done|apply leb_down|].
  assert (forall b, covered_by_one (l1 ++ l2) r b -> last l1 = Some b) as Hlast.
  { intros b (_ & Hb & Hbs & Hbe). eapply find_in_prefix; try done. apply contains_true. lia. }
  destruct (last l1) as [a|] eqn:Hl.
  - apply last_Some in Hl as [l1' ->]. rewrite length_app, Nat.add_comm. simpl.
    exists l1', a, l2. rewrite Forall_app, Forall_cons in H1. destruct H1 as (_ & Ha & _).
    reflect_bools. split_and!; [by rewrite <- app_assoc|done|done|]. intros b Hb.
    specialize (Hlast b Hb). congruence.
  - apply last_None in Hl as ->. simpl. intros a Ha. by specialize (Hlast a Ha).
Qed.

Lemma protect_single_area_spec s r nf :
  inv (areas s) ->
  let '(o, s') := protect_single_area s r nf in
  match o with
  | None => s' = s /\ forall a, ~ covered_by_one (areas s) r a
  | Some changed =>
      (exists a, covered_by_one (areas s) r a) /\ inv (areas s') /\
      last_find s' = last_find s /\ (changed = false -> s' = s) /\
      (Forall (fun a => is_u32 (VmFlags.bits (flags a))) (areas s) ->
       forall addr, view (areas s') addr =
         if in_range r addr then reflag_cell (set_perms nf) <$> view (areas s) addr
         else view (areas s) addr)
  end.
Proof.
  intros Hinv. unfold protect_single_area.
  destruct (Z.leb_spec (end_ r) (start r)) as [Hr|Hr].
  { split; [done|]. intros a (? & _). lia. }
  pose proof (covered_selected (areas s) r Hinv Hr) as Hsel.
  destruct (partition_point _ (areas s)) as [|idx]; [done|].
  destruct Hsel as (l1 & a & l2 & Hl & <- & Hsa & Huniq).
  rewrite Hl. rewrite list_lookup_middle by done. simpl.
  assert (a ∈ areas s) as Ha by (rewrite Hl; set_solver).
  pose proof (elem_wf _ _ Hinv Ha) as Hw. rewrite Hw, (proj2 (Z.ltb_ge _ _)) by done. simpl.
  destruct (Z.ltb_spec (end_ (range a)) (end_ r)) as [He|He].
  { split; [done|]. intros b Hb. rewrite <- Hl in Hb. specialize (Huniq b Hb). subst.
    destruct Hb as (_ & _ & _ & ?). lia. }
  assert (covered_by_one (l1 ++ a :: l2) r a) as Hcov by (rewrite <- Hl; by split_and!).
  assert (Hin : forall addr, in_range r addr = true -> contains a addr = true).
  { intros addr. rewrite in_range_true, contains_true. lia. }
  case_bool_decide as Hp.
  { rewrite <- Hl. destruct s as [ls lf]. simpl in *. split_and!; try done.
    - exists a. by rewrite Hl.
    - intros Hu addr. destruct (in_range r addr) eqn:E; [|done].
      rewrite (view_elem ls a addr) by (apply Hinv || auto). simpl.
      rewrite Forall_forall in Hu. unfold reflag_cell, cell_at. simpl.
      by rewrite set_perms_same by auto. }

  change (fun a0 => set_flags a0 (VmFlags.with_permissions (flags a0) (VmFlags.permissions nf)))
    with (protect_with nf).
  pose proof (protect_branches nf r l1 a l2) as Hbr. unfold protect_with in Hbr at 1 2 3 4.
  rewrite Hbr. clear Hbr.
  destruct (protect_pieces_spec nf r a) as (ps & -> & Hwi & Hso & Hvw); try done. simpl.
  destruct (replace_middle l1 a l2 ps) as [Hi Hv]; [by rewrite <- Hl|done|done|].
  edestruct (merge_around_preserves (l1 ++ ps ++ l2)) as [Hi' Hv' _]; [done|].
  split_and!; [by exists a|exact Hi'|done|done|]. intros _ addr. simpl. rewrite Hv', Hv.
  destruct (contains a addr) eqn:Hc.
  - rewrite Hvw by done. unfold protected_view. rewrite Hl in Hinv.
    rewrite (view_elem (l1 ++ a :: l2) a addr); [|apply Hinv|apply Hinv|set_solver|done].
    by destruct (in_range r addr).
  - destruct (in_range r addr) eqn:E; [|done]. apply Hin in E. congruence.
Qed.

(** ** Growing a stack *)

(** [a] is the anonymous grows-down area that can be extended down to [page]:
    the addresses in between are free and the area stays within its window. *)
Definition growable (l : list VmArea) (page max_growth : Z) (a : VmArea) : Prop :=
  a ∈ l /\ page < start (range a) /\
  (forall addr, page <= addr < start (range a) -> view l addr = None) /\
  VmFlags.has (flags a) VmFlags.GROWS_DOWN = true /\ is_Some (dom_of a) /\
  end_ (range a) - max_growth <= page.

Definition room_below (l : list VmArea) (page : Z) : bool :=
  match last l with Some p => end_ (range p) <=? page | None => true end.

(** The areas before the grown one end at or before [page]. *)
Lemma grow_room l1 a l2 page :
  inv (l1 ++ a :: l2) -> page < start (range a) ->
  Forall (fun b => start (range b) <= page) l1 ->
  room_below l1 page = true <->
  (forall addr, page <= addr < start (range a) -> view (l1 ++ a :: l2) addr = None).
Proof.
  intros Hinv Hp H1. unfold room_below. split.
  - intros Hlast addr Haddr. rewrite view_app.
    assert (view (a :: l2) addr = None) as ->.
    { apply view_None, Forall_forall. intros b Hb. apply inv_app_r in Hinv.
      pose proof (inv_head_bound _ _ _ Hinv Hb). apply contains_false. lia. }
    replace (view l1 addr) with (@None cell); [done|]. symmetry.
    apply view_None, Forall_forall. intros b Hb. apply inv_app_l in Hinv.
    destruct (last l1) as [p|] eqn:E; [|apply last_None in E as ->; set_solver].
    apply last_Some in E as [l' ->]. pose proof (inv_last_bound _ _ _ Hinv Hb).
    reflect_bools. apply contains_false. lia.
  - intros Hfree. destruct (last l1) as [p|] eqn:E; [|done].
    apply last_Some in E as [l' ->]. rewrite Forall_app, Forall_cons in H1.
    destruct H1 as (_ & Hps & _). destruct (Z.leb_spec (end_ (range p)) page); [done|].
    specialize (Hfree page ltac:(lia)).
    rewrite (view_elem _ p) in Hfree; [done|apply Hinv|apply Hinv|set_solver|].
    apply contains_true. lia.
Qed.

(** Extending the area keeps the invariant and maps the new addresses. *)
Lemma grow_view l1 a l2 page d :
  inv (l1 ++ a :: l2) -> page < start (range a) -> dom_of a = Some d ->
  (forall addr, page <= addr < start (range a) -> view (l1 ++ a :: l2) addr = None) ->
  inv (l1 ++ set_start a page :: l2) /\
  forall addr, view (l1 ++ set_start a page :: l2) addr =
    if in_range (mkRange page (start (range a))) addr
    then Some (flags a, SrcAnon (AnonMergeDomain.inherited d))
    else view (l1 ++ a :: l2) addr.
Proof.
  intros Hinv Hp Hd Hfree. set (a' := set_start a page).
  assert (wf a) as Ha by (eapply elem_wf; [done|set_solver]).
  assert (wf a') as Ha'.
  { apply wf_iff in Ha as [? Hc]. apply wf_iff. unfold a', set_start, dom_of in *. simpl.
    split; [lia|]. by destruct (backing a). }
  assert (forall addr, cell_at a' addr = (flags a, SrcAnon (AnonMergeDomain.inherited d)) /\
                       cell_at a addr = (flags a, SrcAnon (AnonMergeDomain.inherited d))) as Hcell.
  { intros addr. unfold cell_at, a', dom_of in *. simpl. destruct (backing a); simplify_eq. done. }
  assert (Hw : Forall wf (l1 ++ a :: l2)) by apply Hinv.
  assert (Hs : StronglySorted before (l1 ++ a :: l2)) by apply Hinv.
  split; [split|].
  - rewrite Forall_app, Forall_cons in *. tauto.
  - rewrite StronglySorted_app, StronglySorted_cons in *.
    destruct Hs as (H12 & ? & Hal & ?). split_and!; try done.
    intros x y Hx [->|Hy]%elem_of_cons; [|apply H12; [done|by right]].
    destruct (fits_elem (VmArea.mk (mkRange page (start (range a))) (flags a) (VmBacking.Anon d))
      x (l1 ++ a :: l2)) as [Hb|Hb]; try done.
    + intros addr [? ?]%contains_true. apply Hfree. done.
    + apply wf_iff. done.
    + rewrite Forall_forall in Hw. apply Hw. set_solver.
    + set_solver.
    + specialize (H12 x a Hx ltac:(left)). unfold before in *. simpl in *.
      assert (wf x) as Hwx%wf_nonempty by (rewrite Forall_forall in Hw; apply Hw; set_solver). lia.
  - eapply uniform_subset; [|apply Hinv]. intros x dx Hx Hdx.
    rewrite elem_of_app, elem_of_cons in Hx.
    destruct Hx as [Hx|[->|Hx]]; [exists x; set_solver|exists a; set_solver|exists x; set_solver].
  - intros addr. specialize (Hfree addr). specialize (Hcell addr) as [Hc1 Hc2].
    rewrite !view_app in *. simpl in *. rewrite Hc1, Hc2 in *.
    destruct (in_range _ addr) eqn:Hin.
    + apply in_range_true in Hin. simpl in Hin. specialize (Hfree Hin).
      destruct (view l1 addr); [done|].
      rewrite (proj2 (contains_true a' addr)); [done|]. apply wf_nonempty in Ha. simpl. lia.
    + destruct (view l1 addr); [done|]. apply in_range_false in Hin. simpl in Hin.
      assert (contains a' addr = contains a addr) as ->; [|done].
      apply eq_true_iff_eq. rewrite !contains_true. simpl. lia.
Qed.

(** Only the first area above [page] can grow down to it. *)
Lemma growable_head l1 l2 page mg b :
  inv (l1 ++ l2) -> Forall (fun b => start (range b) <= page) l1 ->
  Forall (fun b => page < start (range b)) l2 ->
  growable (l1 ++ l2) page mg b -> head l2 = Some b.
Proof.
  intros Hinv H1 H2 (Hb & Hlt & Hfree & _). apply elem_of_app in Hb as [Hb|Hb].
  { rewrite Forall_forall in H1. specialize (H1 b Hb). simpl in H1. lia. }
  destruct l2 as [|a l2]; [set_solver|]. simpl. f_equal.
  apply elem_of_cons in Hb as [->|Hb]; [done|exfalso].
  assert (before a b) as Hab.
  { apply inv_app_r, inv_cons_inv in Hinv as (_ & Hf & _). rewrite Forall_forall in Hf. auto. }
  assert (wf a) as Hwa%wf_nonempty by (eapply elem_wf; [done|set_solver]).
  apply Forall_cons in H2 as [H2 _]. unfold before in Hab.
  specialize (Hfree (start (range a)) ltac:(lia)).
  rewrite (view_elem _ a) in Hfree; [done|apply Hinv|apply Hinv|set_solver|].
  apply contains_true. lia.
Qed.

Lemma growable_iff l1 a l2 page mg :
  inv (l1 ++ a :: l2) -> Forall (fun b => start (range b) <= page) l1 ->
  page < start (range a) ->
  growable (l1 ++ a :: l2) page mg a <->
  VmFlags.has (flags a) VmFlags.GROWS_DOWN = true /\ is_Some (dom_of a) /\
  room_below l1 page = true /\
  end_ (range a) - mg <= page.
Proof.
  intros Hinv H1 Hlt. rewrite (grow_room l1 a l2 page) by done. unfold growable.
  split; [tauto|]. intros (? & ? & ? & ?). split_and!; try done. set_solver.
Qed.

(** The guards of the code, in its order, are the conditions of [growable]. *)
Lemma grow_guards (l1 l2 : list VmArea) a page mg :
  wf a -> page < start (range a) -> 0 <= page ->
  (if negb (is_well_formed a) then None
   else if (start (range a) <=? page) || negb (VmFlags.has (flags a) VmFlags.GROWS_DOWN) then None
   else if match backing a with VmBacking.Anon _ => false | _ => true end then None
   else if (0 <? length l1)%nat
           && match (l1 ++ a :: l2) !! (length l1 - 1)%nat with
              | Some prev => page <? end_ (range prev)
              | None => false
              end then None
   else if page <? saturating_sub (end_ (range a)) mg then None
   else Some ((mkRange page (start (range a)), flags a),
              <[length l1 := set_start a page]> (l1 ++ a :: l2))) =
  if decide (VmFlags.has (flags a) VmFlags.GROWS_DOWN = true /\ is_Some (dom_of a) /\
       room_below l1 page = true /\
       end_ (range a) - mg <= page)
  then Some ((mkRange page (start (range a)), flags a), l1 ++ set_start a page :: l2)
  else None.
Proof.
  intros Hw Hlt Hp. rewrite Hw, (proj2 (Z.leb_gt _ _)) by done. simpl.
  unfold room_below. rewrite (last_lookup_app l1 (a :: l2)), insert_middle.
  assert ((page <? saturating_sub (end_ (range a)) mg) = negb (end_ (range a) - mg <=? page)) as ->.
  { apply eq_true_iff_eq. unfold saturating_sub. rewrite negb_true_iff, Z.ltb_lt, Z.leb_gt. lia. }
  unfold dom_of.
  destruct (VmFlags.has _ _), (backing a), (0 <? length l1)%nat; cbn [negb orb andb];
    try (rewrite decide_False by (intros (? & [? ?] & _); done); done);
    try (destruct ((l1 ++ a :: l2) !! _) as [p|];
         [rewrite Z.ltb_antisym; destruct (end_ (range p) <=? page)|]);
    cbn [negb orb andb];
    destruct (Z.leb_spec (end_ (range a) - mg) page); cbn [negb];
    case_decide as Hd; try done; exfalso;
    (apply Hd; split_and!; (done || lia || eauto)) || (destruct Hd as (? & ? & ? & ?); done || lia).
Qed.

Lemma grow_down_to_spec s page max_growth :
  inv (areas s) -> 0 <= page ->
  let '(o, s') := grow_down_to s page max_growth in
  match o with
  | None => s' = s /\ (Forall (fun a => end_ (range a) <= U64_MAX) (areas s) ->
                       forall a, ~ growable (areas s) page max_growth a)
  | Some (added, f) =>
      exists a d, growable (areas s) page max_growth a /\ dom_of a = Some d /\
        added = mkRange page (start (range a)) /\ f = flags a /\
        inv (areas s') /\ last_find s' = last_find s /\
        forall addr, view (areas s') addr =
          if in_range added addr then Some (f, SrcAnon (AnonMergeDomain.inherited d))
          else view (areas s) addr
  end.
Proof.
  intros Hinv Hp. unfold grow_down_to.
  destruct (checked_add page 1) as [th|] eqn:Hth; simpl.
  2: { split; [done|]. intros Hty a (Ha & Hlt & _).
       pose proof (elem_wf _ _ Hinv Ha) as Hw%wf_nonempty.
       rewrite Forall_forall in Hty. specialize (Hty a Ha).
       unfold checked_add in Hth. case_match; reflect_bools; [done|lia]. }
  apply checked_add_Some in Hth as [_ ->].
  destruct (split_by_start (areas s) (fun x => x <? page + 1)) as (l1 & l2 & Hl & -> & H1 & H2);
    [done|apply ltb_down|].
  assert (Forall (fun b => start (range b) <= page) l1) as H1'.
  { eapply Forall_impl; [exact H1|]. intros; simpl in *; reflect_bools; lia. }
  assert (Forall (fun b => page < start (range b)) l2) as H2'.
  { eapply Forall_impl; [exact H2|]. intros; simpl in *; reflect_bools; lia. }
  clear H1 H2. rewrite Hl in *. rewrite (lookup_app_r l1 l2 (length l1)), Nat.sub_diag by lia.
  pose proof (fun b => growable_head l1 l2 page max_growth b Hinv H1' H2') as Huniq.
  destruct l2 as [|a l2]; simpl.
  { split; [done|]. intros _ b Hb. by specialize (Huniq b Hb). }
  apply Forall_cons in H2' as [Hlt _].
  assert (wf a) as Hw by (eapply elem_wf; [done|set_solver]).
  pose proof (growable_iff l1 a l2 page max_growth Hinv H1' Hlt) as Hiff.
  rewrite (grow_guards l1 l2 a page max_growth) by done. case_decide as Hg; simpl.
  - apply Hiff in Hg as Hgr. destruct Hg as (_ & [d Hd] & _). exists a, d.
    destruct (grow_view l1 a l2 page d) as [Hi Hv]; [done|done|done|apply Hgr|].
    split_and!; try done.
  - split; [done|]. intros _ b Hb. pose proof (Huniq b Hb) as [= <-]. by apply Hg, Hiff.
Qed.

(** ** [fork] *)

Definition seal (c : cell) : cell :=
  (c.1, match c.2 with SrcAnon _ => SrcAnon true | x => x end).

Definition sealed (a : VmArea) : VmArea :=
  set_backing a (VmBacking.mark_fork_inherited (backing a)).

Lemma sealed_cell a addr : cell_at (sealed a) addr = seal (cell_at a addr).
Proof. unfold cell_at, seal, sealed. simpl. by destruct (backing a). Qed.

Lemma map_sealed_inv l : inv l -> inv (map sealed l).
Proof.
  intros [Hw Hs _]. split.
  - apply Forall_fmap. eapply Forall_impl; [exact Hw|]. intros a. simpl. rewrite !wf_iff.
    unfold sealed. simpl. by destruct (backing a).
  - induction Hs as [|a l Hs IH Ha]; [constructor|]. apply Forall_cons in Hw as [_ Hw].
    simpl. constructor; [by apply IH|]. by apply Forall_fmap.
  - intros a b da db Ha Hb Hda Hdb _.
    assert (forall x d, x ∈ map sealed l -> dom_of x = Some d ->
      AnonMergeDomain.inherited d = true) as Hall.
    { intros x d Hx Hd. apply list_elem_of_fmap in Hx as (y & -> & _).
      unfold dom_of, sealed in Hd. simpl in Hd. destruct (backing y); simpl in Hd; simplify_eq. done. }
    rewrite (Hall a), (Hall b); done.
Qed.

(** A sealed area never merges with an area of another domain. *)
Lemma sealed_never_merges l a b da db :
  a ∈ map sealed l -> dom_of a = Some da -> dom_of b = Some db ->
  AnonMergeDomain.id db <> AnonMergeDomain.id da ->
  can_merge_areas a b = false /\ can_merge_areas b a = false.
Proof.
  intros Ha Hda Hdb Hid. assert (AnonMergeDomain.inherited da = true) as Hs.
  { apply list_elem_of_fmap in Ha as (y & -> & _). unfold dom_of, sealed in Hda. simpl in Hda.
    destruct (backing y); simpl in Hda; by simplify_eq. }
  assert (backing a = VmBacking.Anon da /\ backing b = VmBacking.Anon db) as [Ea Eb].
  { unfold dom_of in Hda, Hdb. by destruct (backing a), (backing b); simplify_eq. }
  unfold can_merge_areas, AnonMergeDomain.can_merge. rewrite Ea, Eb, Hs.
  rewrite (proj2 (Z.eqb_neq _ _) Hid), (proj2 (Z.eqb_neq _ _) (not_eq_sym Hid)).
  simpl. rewrite andb_false_r. by destruct (_ || _), (_ || _).
Qed.

Lemma map_sealed_view l addr : view (map sealed l) addr = seal <$> view l addr.
Proof.
  induction l as [|a l IH]; simpl; [done|]. change (contains (sealed a) addr) with (contains a addr).
  rewrite sealed_cell. by destruct (contains a addr).
Qed.

Lemma fork_spec s :
  inv (areas s) ->
  let '(child, parent) := fork_clone_metadata s in
  inv (areas child) /\ inv (areas parent) /\
  (forall addr, view (areas parent) addr = seal <$> view (areas s) addr) /\
  (forall addr, view (areas child) addr =
    c ← view (areas parent) addr;
    if VmFlags.has c.1 VmFlags.DONTFORK then None else Some c).
Proof.
  intros Hinv. unfold fork_clone_metadata. simpl. fold sealed.
  assert (inv (map sealed (areas s))) as Hi by (by apply map_sealed_inv).
  split_and!; [by apply inv_filter|done|apply map_sealed_view|].
  intros addr. apply option_eq. intros c.
  rewrite view_Some_iff by (by apply inv_filter). rewrite bind_Some.
  setoid_rewrite (view_Some_iff _ addr _ Hi). setoid_rewrite list_elem_of_filter. split.
  - intros (a & [Hf Ha] & Hc & ->). exists (cell_at a addr). split; [eauto|]. simpl. by rewrite Hf.
  - intros (c' & (a & Ha & Hc & ->) & Hf). simpl in Hf.
    destruct (VmFlags.has (flags a) _) eqn:E; simplify_eq. eauto 6.
Qed.
