(* ===== verification/MmProps.v ===== *)
(** * Properties of the address space model

    The theorems of the [libs/mm] component: each operation of a [VmaSet]
    implements its effect on the address space the set represents, and every
    operation keeps the invariant that the documentation of the set states. *)

From S2P Require Import Prelude MmArea MmSet MmView MmMerge MmSetProofs MmQueries MmUpdates.
Import VmArea VmaSet.

(** ** An address space to instantiate the theorems at *)

Definition ex_anon : VmArea :=
  VmArea.mk (mkRange 4096 12288) (VmFlags.VmFlags_ 3)
    (VmBacking.Anon (AnonMergeDomain.mk 1 false)).
Definition ex_stack : VmArea :=
  VmArea.mk (mkRange 32768 40960) (VmFlags.VmFlags_ 1027)
    (VmBacking.Anon (AnonMergeDomain.mk 2 false)).
Definition ex_file : VmArea :=
  VmArea.mk (mkRange 16384 24576) (VmFlags.VmFlags_ 1) (VmBacking.File 7 8192).
(** A set with a cached index that no longer matches a lookup. *)
Definition ex_set : VmaSet := VmaSet.mk [ex_anon; ex_file; ex_stack] (Some 2%nat).
Definition ex_new : VmArea :=
  VmArea.mk (mkRange 12288 16384) (VmFlags.VmFlags_ 3)
    (VmBacking.Anon (AnonMergeDomain.mk 3 false)).

Lemma ex_inv : inv (areas ex_set).
Proof. apply inv_b_sound. reflexivity. Defined.

(** ** Every operation keeps the invariant *)

(** The operations a client of the set can perform.  A new area brings a merge
    domain that is consistent with those present: [AnonMergeDomain::fresh]
    hands out an identity that no area has. *)
Inductive vma_step : VmaSet -> VmaSet -> Prop :=
| step_insert s a r s' :
    uniform (a :: areas s) -> insert s a = (r, s') -> vma_step s s'
| step_unmap s r out s' : unmap_range s r = Done (out, s') -> vma_step s s'
| step_protect s r f out s' : protect_range s r f = Done (out, s') -> vma_step s s'
| step_protect_single s r f o s' : protect_single_area s r f = (o, s') -> vma_step s s'
| step_update_flags s r u out s' : update_flags_range s r u = Done (out, s') -> vma_step s s'
| step_grow s page n o s' : 0 <= page -> grow_down_to s page n = (o, s') -> vma_step s s'
| step_find s addr o s' : find s addr = (o, s') -> vma_step s s'
| step_set_flags s addr f o s' : find_mut_set_flags s addr f = (o, s') -> vma_step s s'
| step_merge s : vma_step s (merge_neighbors s)
| step_fork_parent s child parent : fork_clone_metadata s = (child, parent) -> vma_step s parent
| step_fork_child s child parent : fork_clone_metadata s = (child, parent) -> vma_step s child
| step_take_all s out s' : take_all s = (out, s') -> vma_step s s'.

Lemma insert_cases s a :
  inv (areas s) -> uniform (a :: areas s) ->
  let '(r, s') := insert s a in
  match r with
  | Ok _ => wf a /\ fits a (areas s) /\ inv (areas s') /\
      forall addr, view (areas s') addr =
        if contains a addr then Some (cell_at a addr) else view (areas s) addr
  | Err EINVAL => ~ wf a /\ s' = s
  | Err EEXIST => wf a /\ s' = s /\
      exists addr, contains a addr = true /\ is_Some (view (areas s) addr)
  | Err _ => False
  end.
Proof.
  intros Hinv Hu. destruct (is_well_formed a) eqn:Hw.
  2: { unfold insert. rewrite Hw. simpl. split; [unfold wf; congruence|done]. }
  pose proof (overlaps_range_spec s (range a) Hinv (wf_nonempty _ Hw)) as Hov.
  destruct (overlaps_range s (range a)) eqn:E.
  - unfold insert. rewrite Hw, E. simpl. split_and!; try done.
  - assert (fits a (areas s)) as Hf.
    { intros addr Hc. apply Hov. by apply in_range_true, contains_true. }
    destruct (insert_ok_spec s a) as (s' & -> & ? & ? & ? & ?); try done.
Qed.

Lemma find_mut_set_flags_inv s addr f o s' :
  inv (areas s) -> find_mut_set_flags s addr f = (o, s') -> inv (areas s').
Proof.
  intros Hinv. unfold find_mut_set_flags.
  pose proof (find_area_index_spec s addr Hinv) as Hf.
  destruct (find_area_index s addr) as [[i|] s1]; destruct Hf as [Ha Hf]; intros [= <- <-];
    simpl; rewrite Ha; [|done].
  destruct Hf as (a & Hi & _).
  destruct (list_elem_of_split_length _ _ _ Hi) as (l1 & l2 & Hl & ->). rewrite Hl in *.
  rewrite alter_app_r_alt, Nat.sub_diag by done. simpl.
  apply (replace_middle l1 a l2 [set_flags a f]); [done|..].
  - apply Forall_cons_2; [|apply Forall_nil_2].
    assert (wf a) by (eapply elem_wf; [done|rewrite elem_of_app, elem_of_cons; auto]).
    split; done.
  - apply SSorted_cons; constructor.
Qed.

Lemma vma_step_inv s s' : vma_step s s' -> inv (areas s) -> inv (areas s').
Proof.
  intros Hs Hinv. destruct Hs as
    [s a r s' Hu E|s r out s' E|s r f out s' E|s r f o s' E|s r u out s' E
    |s page n o s' Hp E|s addr o s' E|s addr f o s' E|s|s child parent E|s child parent E
    |s out s' E].
  - pose proof (insert_cases s a Hinv Hu) as H. rewrite E in H.
    destruct r as [|[]]; naive_solver.
  - destruct (unmap_range_spec s r Hinv) as (? & ? & E' & _ & ? & _). rewrite E in E'; by simplify_eq.
  - destruct (update_flags_range_spec s r (set_perms f) Hinv) as (? & ? & E' & ? & _).
    unfold update_flags_range, set_perms in E'. unfold protect_range in E. rewrite E in E'; by simplify_eq.
  - pose proof (protect_single_area_spec s r f Hinv) as H. rewrite E in H.
    destruct o; naive_solver.
  - destruct (update_flags_range_spec s r u Hinv) as (? & ? & E' & ? & _). rewrite E in E'; by simplify_eq.
  - pose proof (grow_down_to_spec s page n Hinv Hp) as H. rewrite E in H.
    destruct o as [[]|]; naive_solver.
  - unfold find in E. pose proof (find_area_index_spec s addr Hinv) as H.
    destruct (find_area_index s addr) as [i s1]. destruct H as [H _]. simplify_eq. by rewrite H.
  - by eapply find_mut_set_flags_inv.
  - by apply merge_neighbors_preserves.
  - pose proof (fork_spec s Hinv) as H. rewrite E in H. tauto.
  - pose proof (fork_spec s Hinv) as H. rewrite E in H. tauto.
  - unfold take_all in E. simplify_eq. apply inv_nil.
Qed.

(** Every address space that the operations of a [VmaSet] can build from
    the empty set has well-formed, disjoint areas in ascending order, and areas
    of one merge domain agree on whether a fork sealed them. *)
Theorem vma_reachable_inv s : rtc vma_step VmaSet.new s -> inv (areas s).
Proof.
  intros H. assert (inv (areas VmaSet.new)) as Hnew by apply inv_nil.
  revert Hnew. induction H; eauto using vma_step_inv.
Qed.

Lemma vma_reachable_inv_witness :
  exists s, areas s <> [] /\ rtc vma_step VmaSet.new s /\ inv (areas s).
Proof.
  assert (rtc vma_step VmaSet.new (VmaSet.mk [ex_anon] None)) as H.
  { apply rtc_once. apply (step_insert VmaSet.new ex_anon (Ok tt)); [|reflexivity].
    apply uniform_b_sound. reflexivity. }
  exists (VmaSet.mk [ex_anon] None). split_and!; [discriminate|exact H|].
  apply (vma_reachable_inv _ H).
Defined.

(** ** Mapping, lookup, unmapping *)

(** [insert] maps exactly the addresses of the new area, with its flags and
    its backing, and nothing else changes; an empty area or one whose backing
    offset overflows is refused with [EINVAL], one that meets a mapped address
    with [EEXIST], and a refused call leaves the set as it was. *)
Theorem vma_insert_refines s a :
  inv (areas s) -> uniform (a :: areas s) ->
  let '(r, s') := insert s a in
  match r with
  | Ok _ => wf a /\ fits a (areas s) /\ inv (areas s') /\
      forall addr, view (areas s') addr =
        if contains a addr then Some (cell_at a addr) else view (areas s) addr
  | Err EINVAL => ~ wf a /\ s' = s
  | Err EEXIST => wf a /\ s' = s /\
      exists addr, contains a addr = true /\ is_Some (view (areas s) addr)
  | Err _ => False
  end.
Proof. apply insert_cases. Qed.

Lemma vma_insert_refines_witness :
  fst (insert ex_set ex_new) = Ok tt /\
  forall addr, view (areas (snd (insert ex_set ex_new))) addr =
    if contains ex_new addr then Some (cell_at ex_new addr) else view (areas ex_set) addr.
Proof.
  split; [reflexivity|].
  apply (vma_insert_refines ex_set ex_new ex_inv). apply uniform_b_sound. reflexivity.
Defined.

(** [find] returns the area that holds the address whenever there is one,
    whatever index the cache holds: a stale or out-of-range cached index never
    changes the answer, and a lookup never changes the areas. *)
Theorem vma_find_correct s addr :
  inv (areas s) ->
  let '(o, s') := find s addr in
  areas s' = areas s /\
  (forall a, o = Some a <-> a ∈ areas s /\ contains a addr = true) /\
  view (areas s) addr = (fun a => cell_at a addr) <$> o.
Proof.
  intros Hinv. unfold find. pose proof (find_area_index_spec s addr Hinv) as Hf.
  destruct (find_area_index s addr) as [[i|] s']; destruct Hf as [Ha Hf]; rewrite Ha; simpl.
  - destruct Hf as (a & Hi & Hc). rewrite Hi.
    pose proof (list_elem_of_lookup_2 _ _ _ Hi) as Hin.
    split_and!; [done| |apply view_elem; auto with mm].
    intros b. split; [by intros [= <-]|]. intros [Hb Hcb].
    f_equal. by apply (sorted_unique _ _ _ addr Hinv).
  - split_and!; [done| |done]. intros b. split; [done|]. intros [Hb Hcb].
    destruct (elem_mapped _ _ _ Hinv Hb Hcb). congruence.
Qed.

Lemma vma_find_correct_witness :
  fst (find ex_set 20000) = Some ex_file /\
  view (areas ex_set) 20000 = Some (cell_at ex_file 20000).
Proof.
  split; [reflexivity|].
  apply (vma_find_correct ex_set 20000 ex_inv).
Defined.

(** C24. [unmap_range] never panics: it hands back exactly the cells inside the
    range and leaves exactly the cells outside it, splitting the areas that
    straddle an end; an empty or reversed range removes nothing. *)
Theorem vma_unmap_refines s r :
  inv (areas s) ->
  exists removed s', unmap_range s r = Done (removed, s') /\
    inv removed /\ inv (areas s') /\ last_find s' = last_find s /\
    (forall addr, view removed addr = if in_range r addr then view (areas s) addr else None) /\
    (forall addr, view (areas s') addr = if in_range r addr then None else view (areas s) addr).
Proof.
  intros Hinv. destruct (unmap_range_spec s r Hinv) as (rem & s' & ? & ? & ? & ? & _ & ? & ?).
  exists rem, s'. done.
Qed.

Lemma vma_unmap_refines_witness :
  exists removed s', unmap_range ex_set (mkRange 8192 20480) = Done (removed, s') /\
    length removed = 2%nat /\ length (areas s') = 3%nat /\ inv (areas s').
Proof.
  destruct (vma_unmap_refines ex_set (mkRange 8192 20480) ex_inv)
    as (rem & s' & E & Hi & Hi' & _).
  exists rem, s'. split; [exact E|]. vm_compute in E. injection E as E1 E2. subst rem s'.
  split_and!; [reflexivity|reflexivity|exact Hi'].
Defined.

(** ** Changing protections *)

(** [update_flags_range] rewrites the flags of exactly the mapped addresses
    of the range, keeps what every address is backed by, reports each rewritten
    address with its new flags, and leaves no two neighbours that could be one
    area. *)
Theorem vma_update_flags_refines s r update :
  inv (areas s) ->
  exists out s', update_flags_range s r update = Done (out, s') /\
    inv (areas s') /\ compact_upto (length (areas s')) (areas s') /\
    (forall addr, view (areas s') addr =
      if in_range r addr then reflag_cell update <$> view (areas s) addr
      else view (areas s) addr) /\
    (forall addr, in_range r addr = true ->
      forall f, (exists src, view (areas s') addr = Some (f, src)) <->
                (exists rg, (rg, f) ∈ out /\ in_range rg addr = true)).
Proof.
  intros Hinv. destruct (update_flags_range_spec s r update Hinv) as (out & s' & ? & ? & _ & ? & ?).
  exists out, s'. done.
Qed.

Lemma vma_update_flags_refines_witness :
  exists out s',
    update_flags_range ex_set (mkRange 8192 20480)
      (fun f => VmFlags.with_ f VmFlags.WIPEONFORK) = Done (out, s') /\
    length out = 2%nat /\ length (areas s') = 5%nat /\ inv (areas s').
Proof.
  destruct (vma_update_flags_refines ex_set (mkRange 8192 20480)
    (fun f => VmFlags.with_ f VmFlags.WIPEONFORK) ex_inv) as (out & s' & E & Hi & _).
  exists out, s'. split; [exact E|]. vm_compute in E. injection E as E1 E2. subst out s'.
  split_and!; [reflexivity|reflexivity|exact Hi].
Defined.

Definition typed_flags (l : list VmArea) : Prop :=
  Forall (fun a => is_u32 (VmFlags.bits (flags a))) l.

Lemma ex_typed_flags : typed_flags (areas ex_set).
Proof. repeat (constructor; [vm_compute; intuition discriminate|]); constructor. Defined.

(** [protect_range] replaces the access permissions, and no other flag, of
    exactly the mapped addresses of the range. *)
Theorem vma_protect_refines s r new_flags :
  inv (areas s) ->
  exists out s', protect_range s r new_flags = Done (out, s') /\ inv (areas s') /\
    compact_upto (length (areas s')) (areas s') /\
    forall addr, view (areas s') addr =
      if in_range r addr
      then (fun c => (VmFlags.with_permissions c.1 (VmFlags.permissions new_flags), c.2))
             <$> view (areas s) addr
      else view (areas s) addr.
Proof.
  intros Hinv.
  destruct (update_flags_range_spec s r (set_perms new_flags) Hinv)
    as (out & s' & E & ? & _ & ? & ? & _).
  exists out, s'. done.
Qed.

Lemma vma_protect_refines_witness :
  exists out s',
    protect_range ex_set (mkRange 8192 12288) (VmFlags.VmFlags_ 1) = Done (out, s') /\
    out = [(mkRange 8192 12288, VmFlags.VmFlags_ 1)] /\ inv (areas s').
Proof.
  destruct (vma_protect_refines ex_set (mkRange 8192 12288) (VmFlags.VmFlags_ 1) ex_inv)
    as (out & s' & E & Hi & _).
  exists out, s'. split; [exact E|]. vm_compute in E. injection E as E1 E2. subst out.
  split; [reflexivity|exact Hi].
Defined.

(** The fast path [protect_single_area] applies exactly when one area covers
    the whole range, and then gives the address space that [protect_range]
    gives; it refuses otherwise and leaves the set as it was, and it reports
    [false] only when nothing had to change. *)
Theorem vma_protect_single_agrees s r new_flags :
  inv (areas s) -> typed_flags (areas s) ->
  let '(o, s1) := protect_single_area s r new_flags in
  (is_Some o <-> exists a, covered_by_one (areas s) r a) /\
  match o with
  | None => s1 = s
  | Some changed =>
      (changed = false -> s1 = s) /\
      exists out s2, protect_range s r new_flags = Done (out, s2) /\
        forall addr, view (areas s1) addr = view (areas s2) addr
  end.
Proof.
  intros Hinv Hty. pose proof (protect_single_area_spec s r new_flags Hinv) as H.
  destruct (protect_single_area s r new_flags) as [[changed|] s1].
  - destruct H as (Hc & _ & _ & Hch & Hv). specialize (Hv Hty). split_and!; [by split|done|].
    destruct (update_flags_range_spec s r (set_perms new_flags) Hinv)
      as (out & s2 & E & _ & _ & _ & Hv2 & _).
    exists out, s2. split; [done|]. intros addr. by rewrite Hv, Hv2.
  - destruct H as [-> Hn]. split; [|done]. split; [by intros []|]. intros [a Ha]. by destruct (Hn a).
Qed.

Lemma vma_protect_single_agrees_witness :
  fst (protect_single_area ex_set (mkRange 8192 12288) (VmFlags.VmFlags_ 1)) = Some true /\
  exists out s2,
    protect_range ex_set (mkRange 8192 12288) (VmFlags.VmFlags_ 1) = Done (out, s2) /\
    forall addr,
      view (areas (snd (protect_single_area ex_set (mkRange 8192 12288) (VmFlags.VmFlags_ 1)))) addr
      = view (areas s2) addr.
Proof.
  split; [reflexivity|].
  apply (vma_protect_single_agrees ex_set (mkRange 8192 12288) (VmFlags.VmFlags_ 1)
    ex_inv ex_typed_flags).
Defined.

(** ** Searching for room *)

(** [find_gap] returns the lowest window of the requested length that lies
    in the search range and meets no mapped address, and [None] only when the
    range has no such window. *)
Theorem vma_find_gap_lowest s search len :
  inv (areas s) -> 0 < len -> end_ search <= U64_MAX ->
  lowest_window (free_window (areas s) (start search) (end_ search) len) len
    (find_gap s search len).
Proof.
  intros Hinv Hlen Hend. unfold find_gap.
  destruct (Z.eqb_spec len 0); [lia|]. simpl.
  destruct (Z.leb_spec (end_ search) (start search)).
  - intros x (? & ? & _). lia.
  - eapply lowest_window_iff; [intros; by apply free_window_take|].
    apply find_gap_loop_spec; auto using inv_take. lia.
Qed.

Lemma vma_find_gap_lowest_witness :
  find_gap ex_set (mkRange 4096 65536) 4096 = Some (mkRange 12288 16384) /\
  lowest_window (free_window (areas ex_set) 4096 65536 4096) 4096
    (find_gap ex_set (mkRange 4096 65536) 4096).
Proof.
  split; [reflexivity|].
  apply (vma_find_gap_lowest ex_set (mkRange 4096 65536) 4096 ex_inv); vm_compute; done.
Defined.

(** [find_aligned_gap] returns the lowest free window whose start is a
    multiple of the alignment, and [None] only when there is none; an alignment
    that is not a power of two is refused. *)
Theorem vma_find_aligned_gap_lowest s search len alignment :
  inv (areas s) -> 0 < len -> 0 <= start search -> end_ search <= U64_MAX ->
  alignment <= U64_MAX ->
  if is_power_of_two alignment
  then lowest_window
         (aligned_window (areas s) (start search) (end_ search) len alignment) len
         (find_aligned_gap s search len alignment)
  else find_aligned_gap s search len alignment = None.
Proof.
  intros Hinv Hlen Hst Hend Hal. unfold find_aligned_gap.
  destruct (is_power_of_two alignment) eqn:Hp; cbn [negb]; [|by rewrite orb_true_r].
  destruct (Z.eqb_spec len 0); [lia|]. destruct (Z.eqb_spec alignment 0) as [->|]; [done|].
  cbn [orb]. destruct (Z.leb_spec (end_ search) (start search)); cbn [orb].
  - intros x [(? & ? & _) _]. lia.
  - eapply lowest_window_iff; [|apply find_aligned_gap_loop_spec; auto using inv_take; lia].
    intros x. unfold aligned_window. by rewrite free_window_take.
Qed.

Lemma vma_find_aligned_gap_lowest_witness :
  find_aligned_gap ex_set (mkRange 4096 131072) 8192 65536 = Some (mkRange 65536 73728) /\
  lowest_window (aligned_window (areas ex_set) 4096 131072 8192 65536) 8192
    (find_aligned_gap ex_set (mkRange 4096 131072) 8192 65536).
Proof.
  split; [reflexivity|].
  apply (vma_find_aligned_gap_lowest ex_set (mkRange 4096 131072) 8192 65536 ex_inv);
    vm_compute; done.
Defined.

(** [contains_range] holds exactly when every address of a non-empty range
    is mapped, also across areas that touch, and [is_range_free] exactly when
    the range is non-empty and none of its addresses is mapped. *)
Theorem vma_range_queries_exact s r :
  inv (areas s) ->
  (contains_range s r = true <->
     start r < end_ r /\ forall addr, in_range r addr = true -> is_Some (view (areas s) addr)) /\
  (is_range_free s r = true <->
     start r < end_ r /\ forall addr, in_range r addr = true -> view (areas s) addr = None).
Proof.
  intros Hinv. destruct (Z.lt_ge_cases (start r) (end_ r)) as [Hlt|Hge].
  - rewrite contains_range_spec by done. split; [naive_solver|].
    unfold is_range_free. pose proof (overlaps_range_spec s r Hinv Hlt) as H.
    rewrite (proj2 (Z.ltb_lt _ _) Hlt). destruct (overlaps_range s r); simpl; [|naive_solver].
    split; [done|]. intros [_ Hn]. destruct H as (addr & Hin & [c Hc]).
    rewrite Hn in Hc by done. done.
  - unfold contains_range, is_range_free. rewrite (proj2 (Z.leb_le _ _) Hge).
    rewrite (proj2 (Z.ltb_ge _ _) Hge). simpl. split; split; (done || lia).
Qed.

Lemma vma_range_queries_exact_witness :
  contains_range ex_set (mkRange 4096 12288) = true /\
  forall addr, in_range (mkRange 4096 12288) addr = true -> is_Some (view (areas ex_set) addr).
Proof.
  split; [reflexivity|].
  apply (proj1 (vma_range_queries_exact ex_set (mkRange 4096 12288) ex_inv)). reflexivity.
Defined.

(** ** Stacks and fork *)

(** [grow_down_to] extends an area down to [page] exactly when the nearest
    area above it is a private anonymous stack, no address from [page] up to it
    is mapped, and the area stays within the growth limit; it then adds exactly
    those addresses, with the flags and the seal of the stack, and otherwise
    leaves the set as it was. *)
Theorem vma_grow_down_refines s page max_growth :
  inv (areas s) -> 0 <= page -> Forall (fun a => end_ (range a) <= U64_MAX) (areas s) ->
  let '(o, s') := grow_down_to s page max_growth in
  match o with
  | None => s' = s /\ forall a, ~ growable (areas s) page max_growth a
  | Some (added, f) =>
      exists a d, growable (areas s) page max_growth a /\ dom_of a = Some d /\
        added = mkRange page (start (range a)) /\ f = flags a /\ inv (areas s') /\
        forall addr, view (areas s') addr =
          if in_range added addr then Some (f, SrcAnon (AnonMergeDomain.inherited d))
          else view (areas s) addr
  end.
Proof.
  intros Hinv Hp Hend. pose proof (grow_down_to_spec s page max_growth Hinv Hp) as H.
  destruct (grow_down_to s page max_growth) as [[[added f]|] s'].
  - destruct H as (a & d & ? & ? & ? & ? & ? & _ & ?). by exists a, d.
  - destruct H as [-> H]. split; [done|by apply H].
Qed.

Lemma vma_grow_down_refines_witness :
  fst (grow_down_to ex_set 28672 65536) =
    Some (mkRange 28672 32768, VmFlags.VmFlags_ 1027) /\
  exists a, growable (areas ex_set) 28672 65536 a.
Proof.
  split; [reflexivity|].
  assert (Forall (fun a => end_ (range a) <= U64_MAX) (areas ex_set)) as Hend
    by (repeat (constructor; [vm_compute; discriminate|]); constructor).
  destruct (vma_grow_down_refines ex_set 28672 65536 ex_inv ltac:(lia) Hend) as (a & d & Ha & _).
  exists a. exact Ha.
Defined.

(** [fork_clone_metadata] gives the child the parent's cells except those
    marked [DONTFORK], and seals the private anonymous cells of both: no area
    the parent or the child maps later, under a merge domain of its own, can
    merge with an inherited one. *)
Theorem vma_fork_seals s :
  inv (areas s) ->
  let '(child, parent) := fork_clone_metadata s in
  inv (areas child) /\ inv (areas parent) /\
  (forall addr, view (areas parent) addr = seal <$> view (areas s) addr) /\
  (forall addr, view (areas child) addr =
    c ← seal <$> view (areas s) addr;
    if VmFlags.has c.1 VmFlags.DONTFORK then None else Some c) /\
  (forall a b da db, a ∈ areas child ++ areas parent -> dom_of a = Some da ->
     dom_of b = Some db -> AnonMergeDomain.id db <> AnonMergeDomain.id da ->
     can_merge_areas a b = false /\ can_merge_areas b a = false).
Proof.
  intros Hinv. pose proof (fork_spec s Hinv) as H.
  destruct (fork_clone_metadata s) as [child parent] eqn:E.
  destruct H as (? & ? & Hp & Hc). split_and!; [done..| |].
  - intros addr. by rewrite Hc, Hp.
  - intros a b da db Ha Hda Hdb Hid. assert (a ∈ map sealed (areas s)) as Hs.
    { unfold fork_clone_metadata in E. simplify_eq. apply elem_of_app in Ha as [Ha|Ha]; [|done].
      by apply list_elem_of_filter in Ha as [_ Ha]. }
    by apply (sealed_never_merges (areas s) a b da db).
Qed.

Lemma vma_fork_seals_witness :
  view (areas (snd (fork_clone_metadata ex_set))) 4096 =
    Some (VmFlags.VmFlags_ 3, SrcAnon true).
Proof.
  pose proof (vma_fork_seals ex_set ex_inv) as H.
  destruct (fork_clone_metadata ex_set) as [child parent] eqn:E.
  destruct H as (_ & _ & H & _). apply (H 4096).
Defined.
