(* ===== verification/SchedClass.v ===== *)
(** * Scheduling policies and attributes

    The model of [libs/sched/src/sched_class.rs] and of the parameter part of
    [libs/sched/src/eevdf.rs]: policies, classes, attributes with their
    normalisation and validation, the nice-to-weight table and the scaling of
    execution time to virtual time. *)

From S2P Require Import Prelude.

(** [Ord::clamp]. *)
Definition clamp (x lo hi : Z) : Z := if x <? lo then lo else if hi <? x then hi else x.

(** ** Policies and classes *)

Inductive SchedClass : Type := ClsDeadline | ClsRealtime | ClsFair | ClsIdle.

Inductive SchedPolicy : Type :=
  Fair | RtFifo | RtRoundRobin | Deadline | Idle | Batch.

#[global] Instance SchedPolicy_eq_dec : EqDecision SchedPolicy.
Proof. solve_decision. Defined.

Module SchedPolicy.

(** [policy as u8]. *)
Definition as_u8 (p : SchedPolicy) : Z :=
  match p with
  | Fair => 0 | RtFifo => 1 | RtRoundRobin => 2 | Deadline => 3 | Idle => 4 | Batch => 5
  end.

Definition from_raw (raw : Z) : option SchedPolicy :=
  match raw with
  | 0 => Some Fair
  | 1 => Some RtFifo
  | 2 => Some RtRoundRobin
  | 3 => Some Deadline
  | 4 => Some Idle
  | 5 => Some Batch
  | _ => None
  end.

Definition class (p : SchedPolicy) : SchedClass :=
  match p with
  | Deadline => ClsDeadline
  | RtFifo | RtRoundRobin => ClsRealtime
  | Fair | Batch => ClsFair
  | Idle => ClsIdle
  end.

End SchedPolicy.

Definition RT_PRIO_MIN : Z := 1.
Definition RT_PRIO_MAX : Z := 99.
Definition DEFAULT_RR_SLICE_NS : Z := 100000000.
Definition DEFAULT_DL_RUNTIME_NS : Z := 4000000.
Definition DEFAULT_DL_DEADLINE_NS : Z := 16000000.
Definition DEFAULT_DL_PERIOD_NS : Z := 16000000.

(** ** Weights *)

Definition NICE_0_WEIGHT : Z := 1024.
Definition DEFAULT_BASE_SLICE_NS : Z := 6000000.
Definition NICE_MIN : Z := -20.
Definition NICE_MAX : Z := 19.

Definition NICE_TO_WEIGHT : list Z := [
  88761; 71755; 56483; 46273; 36291;
  29154; 23254; 18705; 14949; 11916;
  9548; 7620; 6100; 4904; 3906;
  3121; 2501; 1991; 1586; 1277;
  1024;
  820; 655; 526; 423; 335;
  272; 215; 172; 137; 110;
  87; 70; 56; 45; 36;
  29; 23; 18; 15].

(** The index expression panics out of range. *)
Definition weight_from_nice (nice : Z) : exec Z :=
  let clamped := clamp nice NICE_MIN NICE_MAX in
  unwrap (NICE_TO_WEIGHT !! Z.to_nat (clamped - NICE_MIN)).

Definition scale_delta_by_weight (delta weight : Z) : Z :=
  let weight := Z.max weight 1 in
  let quotient := delta / weight in
  let remainder := delta mod weight in
  saturating_add (saturating_mul quotient NICE_0_WEIGHT)
    (saturating_mul remainder NICE_0_WEIGHT / weight).

(** ** Attributes *)

Module SchedAttr.

Record SchedAttr : Type := mk {
  policy : SchedPolicy;
  nice : Z;
  slice_ns : Z;
  priority : Z;
  runtime_ns : Z;
  deadline_ns : Z;
  period_ns : Z
}.

#[global] Instance SchedAttr_eq_dec : EqDecision SchedAttr.
Proof. solve_decision. Defined.

Definition fair (nice slice_ns : Z) : SchedAttr := mk Fair nice slice_ns 0 0 0 0.
Definition idle : SchedAttr := mk Idle NICE_MAX DEFAULT_BASE_SLICE_NS 0 0 0 0.
Definition rt_fifo (priority : Z) : SchedAttr := mk RtFifo 0 0 priority 0 0 0.
Definition rt_round_robin (priority slice_ns : Z) : SchedAttr :=
  mk RtRoundRobin 0 slice_ns priority 0 0 0.
Definition deadline (runtime_ns deadline_ns period_ns : Z) : SchedAttr :=
  mk Deadline 0 0 0 runtime_ns deadline_ns period_ns.

Definition or_default (x d : Z) : Z := if x =? 0 then d else x.

Definition normalized (self : SchedAttr) : SchedAttr :=
  let n := clamp (nice self) NICE_MIN NICE_MAX in
  match policy self with
  | Fair | Batch =>
      mk (policy self) n (or_default (slice_ns self) DEFAULT_BASE_SLICE_NS) 0 0 0 0
  | Idle =>
      mk (policy self) NICE_MAX (or_default (slice_ns self) DEFAULT_BASE_SLICE_NS) 0 0 0 0
  | RtFifo =>
      mk (policy self) n 0 (clamp (priority self) RT_PRIO_MIN RT_PRIO_MAX) 0 0 0
  | RtRoundRobin =>
      mk (policy self) n (or_default (slice_ns self) DEFAULT_RR_SLICE_NS)
        (clamp (priority self) RT_PRIO_MIN RT_PRIO_MAX) 0 0 0
  | Deadline =>
      let rt := or_default (runtime_ns self) DEFAULT_DL_RUNTIME_NS in
      let dl := or_default (deadline_ns self) DEFAULT_DL_DEADLINE_NS in
      let pd := or_default (period_ns self) (Z.max dl DEFAULT_DL_PERIOD_NS) in
      mk (policy self) n (slice_ns self) 0 rt dl pd
  end.

Definition validate (self : SchedAttr) : result SchedAttr Errno :=
  let attr := normalized self in
  match policy attr with
  | Fair | Batch | Idle => Ok attr
  | RtFifo | RtRoundRobin =>
      if (priority self <? RT_PRIO_MIN) || (RT_PRIO_MAX <? priority self)
      then Err EINVAL else Ok attr
  | Deadline =>
      if (runtime_ns attr =? 0) || (deadline_ns attr =? 0) || (period_ns attr =? 0)
         || (deadline_ns attr <? runtime_ns attr) || (period_ns attr <? deadline_ns attr)
      then Err EINVAL else Ok attr
  end.

End SchedAttr.
Abbreviation SchedAttr := SchedAttr.SchedAttr.
Import SchedAttr.

(** ** Normalisation *)

Lemma clamp_range x lo hi : lo <= hi -> lo <= clamp x lo hi <= hi.
Proof. unfold clamp. repeat case_match; reflect_bools; lia. Qed.

Lemma clamp_id x lo hi : lo <= x <= hi -> clamp x lo hi = x.
Proof. unfold clamp. repeat case_match; reflect_bools; lia. Qed.

Lemma or_default_idem x d : d <> 0 -> or_default (or_default x d) d = or_default x d.
Proof. unfold or_default. repeat case_match; reflect_bools; lia. Qed.

Lemma or_default_nonzero x d : d <> 0 -> or_default x d <> 0.
Proof. unfold or_default. case_match; reflect_bools; lia. Qed.

(** A default that is present is not replaced, whatever the second default is. *)
Lemma or_default_set x d d' : d <> 0 -> or_default (or_default x d) d' = or_default x d.
Proof.
  intros Hd. pose proof (or_default_nonzero x d Hd). unfold or_default at 1.
  case_match; reflect_bools; [lia|done].
Qed.

Lemma normalized_idem a : normalized (normalized a) = normalized a.
Proof.
  destruct a as [p n s pr rt dl pd]. unfold normalized.
  destruct p; simpl; f_equal;
    rewrite ?or_default_idem, ?clamp_id by
      (done || apply clamp_range; done || unfold NICE_MIN, NICE_MAX; lia); try done.
  apply or_default_set. unfold DEFAULT_DL_PERIOD_NS. lia.
Qed.

(** What an attribute accepted by [validate] satisfies. *)
Definition admissible (a : SchedAttr) : Prop :=
  NICE_MIN <= nice a <= NICE_MAX /\
  match policy a with
  | Fair | Batch | Idle => slice_ns a <> 0
  | RtFifo => RT_PRIO_MIN <= priority a <= RT_PRIO_MAX
  | RtRoundRobin => RT_PRIO_MIN <= priority a <= RT_PRIO_MAX /\ slice_ns a <> 0
  | Deadline =>
      runtime_ns a <> 0 /\ deadline_ns a <> 0 /\ period_ns a <> 0 /\
      runtime_ns a <= deadline_ns a <= period_ns a
  end.

Lemma normalized_policy a : policy (normalized a) = policy a.
Proof. unfold normalized. by destruct (policy a). Qed.

Lemma normalized_nice a : NICE_MIN <= nice (normalized a) <= NICE_MAX.
Proof.
  unfold normalized. destruct (policy a); simpl; try (apply clamp_range); try done.
Qed.

Lemma validate_idem a b : validate a = Ok b -> validate b = Ok b.
Proof.
  intros H. assert (b = normalized a) as ->.
  { unfold validate in H. repeat case_match; congruence. }
  unfold validate in *. rewrite normalized_idem, !normalized_policy in *.
  destruct (policy a) eqn:E; try done.
  all: assert (RT_PRIO_MIN <= priority (normalized a) <= RT_PRIO_MAX) as Hp
    by (unfold normalized; rewrite E; apply clamp_range; done).
  all: by rewrite (proj2 (Z.ltb_ge _ _) (proj1 Hp)), (proj2 (Z.ltb_ge _ _) (proj2 Hp)).
Qed.

Lemma validate_admissible a b : validate a = Ok b -> b = normalized a /\ admissible b.
Proof.
  unfold validate, admissible. rewrite normalized_policy. intros H.
  assert (b = normalized a) as -> by (repeat case_match; congruence).
  split; [done|]. split; [apply normalized_nice|]. rewrite normalized_policy.
  destruct (policy a) eqn:E; unfold normalized in *; rewrite E in *; simpl in *;
    try (apply or_default_nonzero; done); try (apply clamp_range; done).
  - split; [apply clamp_range; done|apply or_default_nonzero; done].
  - destruct (_ || _) eqn:Hc in H; [done|]. reflect_bools. lia.
Qed.

(** [validate] accepts an attribute exactly when its real-time priority is
    in [1, 99] or its deadline parameters, after defaults, satisfy
    [0 < runtime <= deadline <= period]; what it returns is the normal form,
    which is admissible and which [validate] accepts unchanged. *)
Theorem sched_validate_sound a :
  match validate a with
  | Ok b => b = normalized a /\ admissible b /\ validate b = Ok b
  | Err e => e = EINVAL /\
      match policy a with
      | RtFifo | RtRoundRobin => priority a < RT_PRIO_MIN \/ RT_PRIO_MAX < priority a
      | Deadline => ~ admissible (normalized a)
      | _ => False
      end
  end.
Proof.
  destruct (validate a) as [b|e] eqn:H.
  - destruct (validate_admissible _ _ H). by eauto using validate_idem.
  - unfold validate in H. rewrite normalized_policy in H. unfold admissible.
    rewrite normalized_policy. destruct (policy a); simplify_eq;
      destruct (_ || _) eqn:Hc in H; simplify_eq; (split; [done|]); reflect_bools.
    1,2: destruct Hc; reflect_bools; auto.
    intros (_ & ? & ? & ? & ?).
    repeat (destruct Hc as [Hc|Hc]; [|reflect_bools; lia]; reflect_bools); lia.
Qed.

(** ** Virtual time *)

(** The exact value the 64-bit computation stands for. *)
Definition scaled_exact (delta weight : Z) : Z := delta * NICE_0_WEIGHT / weight.

Lemma scale_split delta weight :
  0 < weight ->
  scaled_exact delta weight =
  delta / weight * NICE_0_WEIGHT + delta mod weight * NICE_0_WEIGHT / weight.
Proof.
  intros Hw. unfold scaled_exact. rewrite (Z.div_mod delta weight) at 1 by lia.
  rewrite Z.mul_add_distr_r.
  replace (weight * (delta / weight) * NICE_0_WEIGHT)
    with (delta / weight * NICE_0_WEIGHT * weight) by ring.
  by rewrite Z.div_add_l by lia.
Qed.

(** For every weight up to [2^54] the two-part division that avoids 128-bit
    arithmetic computes [delta * 1024 / weight] exactly, saturating at
    [u64::MAX] when the quotient does not fit. *)
Theorem scale_delta_exact delta weight :
  is_u64 delta -> 0 <= weight <= 2 ^ 54 ->
  scale_delta_by_weight delta weight = Z.min U64_MAX (scaled_exact delta (Z.max weight 1)).
Proof.
  intros Hd Hw. unfold scale_delta_by_weight, saturating_add, saturating_mul.
  set (w := Z.max weight 1). assert (1 <= w <= 2 ^ 54) by lia.
  rewrite scale_split by lia.
  pose proof (Z.mod_pos_bound delta w ltac:(lia)) as Hm.
  rewrite (Z.min_r U64_MAX (delta mod w * NICE_0_WEIGHT)); [|unfold NICE_0_WEIGHT; ulia].
  assert (0 <= delta mod w * NICE_0_WEIGHT / w)
    by (apply Z.div_pos; unfold NICE_0_WEIGHT; lia).
  lia.
Qed.

Lemma scale_delta_exact_witness :
  scale_delta_by_weight 6000000 15 = 409600000 /\
  scale_delta_by_weight 6000000 15 = Z.min U64_MAX (scaled_exact 6000000 (Z.max 15 1)).
Proof. split; [reflexivity|]. apply (scale_delta_exact 6000000 15); vm_compute; split; discriminate. Defined.
