(* ===== verification/Eevdf.v ===== *)
(** * Scheduling entities

    The model of [SchedEntity] of [libs/sched/src/eevdf.rs]: the fields of the
    entity with the operations that a single CPU performs on them, and, as a
    step relation over the accesses to one atomic word, the retry loops with
    which several CPUs charge one budget at the same time. *)

From S2P Require Import Prelude SchedClass.
Import SchedAttr.

(** [x as i8] of an [i64]. *)
Definition as_i8 (x : Z) : Z := let y := x mod 256 in if y <? 128 then y else y - 256.

(** [SchedParams]. *)
Record SchedParams : Type := mk_params { p_nice : Z; p_slice_ns : Z }.

Definition default_fair : SchedParams := mk_params 0 DEFAULT_BASE_SLICE_NS.
Definition params_weight (p : SchedParams) : exec Z := weight_from_nice (p_nice p).
Definition params_slice (p : SchedParams) : Z := or_default (p_slice_ns p) DEFAULT_BASE_SLICE_NS.
Definition attr_from_params (p : SchedParams) : SchedAttr :=
  normalized (SchedAttr.fair (p_nice p) (p_slice_ns p)).

Definition TASK_ON_RQ_NONE : Z := 0.
Definition TASK_ON_RQ_QUEUED : Z := 1.
Definition TASK_ON_RQ_MIGRATING : Z := 2.

Module SchedEntity.

(** Every field is an atomic word of the type the source gives it. *)
Record SchedEntity : Type := mk {
  f_policy : Z;
  f_nice : Z;
  f_weight : Z;
  f_slice_ns : Z;
  f_rt_priority : Z;
  dl_runtime_ns : Z;
  dl_deadline_ns : Z;
  dl_period_ns : Z;
  dl_abs_deadline_ns : Z;
  dl_replenish_ns : Z;
  dl_budget_ns : Z;
  rr_remaining_ns : Z;
  rq_vruntime : Z;
  rq_weight : Z;
  rq_fair_deadline : Z;
  f_vruntime : Z;
  f_deadline : Z;
  f_lag : Z;
  f_on_rq : Z;
  enqueue_in_progress : bool
}.

Definition new (params : SchedParams) : exec SchedEntity :=
  let attr := attr_from_params params in
  w ← weight_from_nice (nice attr);
  Done (mk (SchedPolicy.as_u8 (policy attr)) (nice attr) w (slice_ns attr) (priority attr)
          (runtime_ns attr) (deadline_ns attr) (period_ns attr) 0 0 (runtime_ns attr)
          (slice_ns attr) 0 0 0 0 0 0 TASK_ON_RQ_NONE false).

Definition get_policy (e : SchedEntity) : SchedPolicy :=
  default Fair (SchedPolicy.from_raw (f_policy e)).
Definition class (e : SchedEntity) : SchedClass := SchedPolicy.class (get_policy e).
Definition get_nice (e : SchedEntity) : Z := as_i8 (f_nice e).

Definition sched_attr (e : SchedEntity) : SchedAttr :=
  SchedAttr.mk (get_policy e) (get_nice e) (f_slice_ns e) (f_rt_priority e)
    (dl_runtime_ns e) (dl_deadline_ns e) (dl_period_ns e).

Definition set_sched_attr (e : SchedEntity) (attr : SchedAttr) : exec SchedEntity :=
  let attr := normalized attr in
  w ← weight_from_nice (nice attr);
  Done (mk (SchedPolicy.as_u8 (policy attr)) (nice attr) (Z.max w 1) (slice_ns attr)
          (priority attr) (runtime_ns attr) (deadline_ns attr) (period_ns attr) 0 0
          (runtime_ns attr) (slice_ns attr)
          (rq_vruntime e) (rq_weight e) (rq_fair_deadline e) (f_vruntime e) (f_deadline e)
          (f_lag e) (f_on_rq e) (enqueue_in_progress e)).

(** A store to one field. *)
Definition store_weight (e : SchedEntity) (w : Z) : SchedEntity :=
  let '(mk a b _ d f g h i j k l m n o p q r s t u) := e in
  mk a b w d f g h i j k l m n o p q r s t u.
Definition store_nice (e : SchedEntity) (x : Z) : SchedEntity :=
  let '(mk a _ c d f g h i j k l m n o p q r s t u) := e in
  mk a x c d f g h i j k l m n o p q r s t u.
Definition store_slice (e : SchedEntity) (x : Z) : SchedEntity :=
  let '(mk a b c _ f g h i j k l m n o p q r s t u) := e in
  mk a b c x f g h i j k l m n o p q r s t u.
Definition store_dl (e : SchedEntity) (abs_deadline replenish budget : Z) : SchedEntity :=
  let '(mk a b c d f g h i _ _ _ m n o p q r s t u) := e in
  mk a b c d f g h i abs_deadline replenish budget m n o p q r s t u.
Definition store_rr (e : SchedEntity) (x : Z) : SchedEntity :=
  let '(mk a b c d f g h i j k l _ n o p q r s t u) := e in
  mk a b c d f g h i j k l x n o p q r s t u.
Definition store_rq (e : SchedEntity) (vr w dl : Z) : SchedEntity :=
  let '(mk a b c d f g h i j k l m _ _ _ q r s t u) := e in
  mk a b c d f g h i j k l m vr w dl q r s t u.
Definition store_vruntime (e : SchedEntity) (x : Z) : SchedEntity :=
  let '(mk a b c d f g h i j k l m n o p _ r s t u) := e in
  mk a b c d f g h i j k l m n o p x r s t u.
Definition store_deadline (e : SchedEntity) (x : Z) : SchedEntity :=
  let '(mk a b c d f g h i j k l m n o p q _ s t u) := e in
  mk a b c d f g h i j k l m n o p q x s t u.
Definition store_lag (e : SchedEntity) (x : Z) : SchedEntity :=
  let '(mk a b c d f g h i j k l m n o p q r _ t u) := e in
  mk a b c d f g h i j k l m n o p q r x t u.
Definition store_on_rq (e : SchedEntity) (x : Z) : SchedEntity :=
  let '(mk a b c d f g h i j k l m n o p q r s _ u) := e in
  mk a b c d f g h i j k l m n o p q r s x u.
Definition store_enqueue (e : SchedEntity) (x : bool) : SchedEntity :=
  let '(mk a b c d f g h i j k l m n o p q r s t _) := e in
  mk a b c d f g h i j k l m n o p q r s t x.

Definition set_weight (e : SchedEntity) (w : Z) : SchedEntity := store_weight e (Z.max w 1).

Definition set_slice_ns (e : SchedEntity) (slice : Z) : SchedEntity :=
  let s := or_default slice DEFAULT_BASE_SLICE_NS in
  let e := store_slice e s in
  if bool_decide (get_policy e = RtRoundRobin) then store_rr e s else e.

Definition set_nice (e : SchedEntity) (n : Z) : exec SchedEntity :=
  let n := clamp n NICE_MIN NICE_MAX in
  let e := store_nice e n in
  w ← weight_from_nice n;
  Done (store_weight e (Z.max w 1)).

Definition set_params (e : SchedEntity) (params : SchedParams) : exec SchedEntity :=
  e ← set_nice e (p_nice params);
  let e := store_slice e (params_slice params) in
  Done (if bool_decide (get_policy e = RtRoundRobin)
        then store_rr e (Z.max (params_slice params) 1) else e).

(** *** Ownership by a run queue *)

Definition on_rq_state (e : SchedEntity) : Z := f_on_rq e.
Definition on_rq (e : SchedEntity) : bool := negb (on_rq_state e =? TASK_ON_RQ_NONE).
Definition is_migrating (e : SchedEntity) : bool := on_rq_state e =? TASK_ON_RQ_MIGRATING.

Definition set_on_rq (e : SchedEntity) (on : bool) : SchedEntity :=
  store_on_rq e (if on then TASK_ON_RQ_QUEUED else TASK_ON_RQ_NONE).
Definition set_migrating (e : SchedEntity) : SchedEntity := store_on_rq e TASK_ON_RQ_MIGRATING.
(** A compare-and-exchange from [MIGRATING] to [NONE]. *)
Definition force_finish_migrating (e : SchedEntity) : SchedEntity :=
  if f_on_rq e =? TASK_ON_RQ_MIGRATING then store_on_rq e TASK_ON_RQ_NONE else e.
Definition finish_migrating (e : SchedEntity) (queued : bool) : SchedEntity := set_on_rq e queued.

(** [try_begin_enqueue], and the [Drop] of the guard it returns. *)
Definition try_begin_enqueue (e : SchedEntity) : bool * SchedEntity :=
  if enqueue_in_progress e then (false, e) else (true, store_enqueue e true).
Definition drop_enqueue_guard (e : SchedEntity) : SchedEntity := store_enqueue e false.

(** *** Accounts of the run queue *)

Definition store_rq_account (e : SchedEntity) (vruntime weight : Z) : SchedEntity :=
  store_rq e vruntime weight (rq_fair_deadline e).
Definition rq_account (e : SchedEntity) : Z * Z := (rq_vruntime e, rq_weight e).
Definition clear_rq_account (e : SchedEntity) : SchedEntity := store_rq e 0 0 0.
Definition store_rq_fair_deadline (e : SchedEntity) (deadline : Z) : SchedEntity :=
  store_rq e (rq_vruntime e) (rq_weight e) deadline.

(** *** Virtual time, deadline budget, round-robin slice *)

Definition scale_delta (e : SchedEntity) (delta_exec_ns : Z) : Z :=
  scale_delta_by_weight delta_exec_ns (f_weight e).

Definition recalc_deadline (e : SchedEntity) : Z :=
  saturating_add (f_vruntime e) (scale_delta e (f_slice_ns e)).

Definition replenish_deadline (e : SchedEntity) (now_ns : Z) : SchedEntity :=
  store_dl e (saturating_add now_ns (dl_deadline_ns e)) (saturating_add now_ns (dl_period_ns e))
    (dl_runtime_ns e).

(** The charge of a budget when no other CPU interferes. *)
Definition charge_deadline_runtime (e : SchedEntity) (delta_ns : Z) : bool * SchedEntity :=
  let next := saturating_sub (dl_budget_ns e) delta_ns in
  (next =? 0, store_dl e (dl_abs_deadline_ns e) (dl_replenish_ns e) next).

(** [reset_rr_slice]: the scheduler's time slice is read from a global. *)
Definition reset_rr_slice (e : SchedEntity) (sched_rr_timeslice_ns : Z) : SchedEntity :=
  store_rr e sched_rr_timeslice_ns.

Definition charge_rr_runtime (e : SchedEntity) (delta_ns : Z) : bool * SchedEntity :=
  let next := saturating_sub (rr_remaining_ns e) delta_ns in
  (next =? 0, store_rr e next).

End SchedEntity.
Abbreviation SchedEntity := SchedEntity.SchedEntity.
Import SchedEntity.

Lemma weight_from_nice_total n :
  exists w, weight_from_nice n = Done w /\ 15 <= w <= 88761.
Proof.
  unfold weight_from_nice. pose proof (clamp_range n NICE_MIN NICE_MAX ltac:(done)) as Hc.
  assert (Forall (fun w => 15 <= w <= 88761) NICE_TO_WEIGHT) as Hall.
  { unfold NICE_TO_WEIGHT. repeat (apply Forall_cons_2; [lia|]). apply Forall_nil_2. }
  destruct (lookup_lt_is_Some_2 NICE_TO_WEIGHT (Z.to_nat (clamp n NICE_MIN NICE_MAX - NICE_MIN)))
    as [w Hw]. { unfold NICE_MIN, NICE_MAX in *. simpl length. lia. }
  rewrite Hw. exists w. split; [done|]. by apply (Forall_lookup_1 _ _ _ _ Hall Hw).
Qed.

Lemma from_raw_as_u8 p : SchedPolicy.from_raw (SchedPolicy.as_u8 p) = Some p.
Proof. by destruct p. Qed.

Lemma as_i8_id x : -128 <= x < 128 -> as_i8 x = x.
Proof.
  intros. unfold as_i8. destruct (Z.lt_ge_cases x 0).
  - rewrite <- (Z.mod_add x 1 256), Z.mod_small by lia. case_match; reflect_bools; lia.
  - rewrite Z.mod_small by lia. case_match; reflect_bools; lia.
Qed.

(** Setting attributes never panics, and reading them back gives their
    normal form; the entity then has a weight of its nice value and a full
    deadline budget and round-robin slice, and stays where it was queued. *)
Theorem entity_attr_roundtrip e a :
  exists e', set_sched_attr e a = Done e' /\
    sched_attr e' = normalized a /\
    weight_from_nice (nice (normalized a)) = Done (f_weight e') /\
    dl_budget_ns e' = runtime_ns (normalized a) /\
    rr_remaining_ns e' = slice_ns (normalized a) /\
    on_rq_state e' = on_rq_state e /\ rq_account e' = rq_account e.
Proof.
  unfold set_sched_attr. destruct (weight_from_nice_total (nice (normalized a))) as (w & E & Hw).
  rewrite E. eexists. split; [done|]. simpl. split_and!; try done.
  - unfold sched_attr, get_policy, get_nice. simpl. rewrite from_raw_as_u8.
    pose proof (normalized_nice a). unfold NICE_MIN, NICE_MAX in *.
    rewrite as_i8_id by lia. by destruct (normalized a).
  - f_equal. lia.
Qed.

(** ** Charging a budget from several CPUs

    [charge_deadline_runtime] and [charge_rr_runtime] are one retry loop around
    a [compare_exchange] of the budget word.  A CPU that charges is at one of
    three points: it has not read the word yet, it has read [old] and is about
    to exchange it, or it has returned.  Another CPU may store a new budget at
    any moment ([replenish_deadline], [reset_rr_slice]). *)

Inductive charge_pc : Type :=
| CStart (delta : Z)
| CLoaded (delta old : Z)
| CReturned (delta : Z) (exhausted : bool).

(** What happened to the word, in the order it happened. *)
Inductive charge_event : Type :=
| EvCharge (delta : Z) (exhausted : bool)
| EvStore (budget : Z).

Record charge_state : Type := mk_charge {
  budget : Z;
  cpus : list charge_pc;
  events : list charge_event
}.

Inductive charge_step : charge_state -> charge_state -> Prop :=
| charge_load s i delta :
    cpus s !! i = Some (CStart delta) ->
    charge_step s (mk_charge (budget s) (<[i := CLoaded delta (budget s)]> (cpus s)) (events s))
| charge_exchange s i delta old :
    cpus s !! i = Some (CLoaded delta old) -> budget s = old ->
    let next := saturating_sub old delta in
    charge_step s
      (mk_charge next (<[i := CReturned delta (next =? 0)]> (cpus s))
         (events s ++ [EvCharge delta (next =? 0)]))
| charge_retry s i delta old :
    cpus s !! i = Some (CLoaded delta old) -> budget s <> old ->
    charge_step s (mk_charge (budget s) (<[i := CLoaded delta (budget s)]> (cpus s)) (events s))
| charge_store s b :
    charge_step s (mk_charge b (cpus s) (events s ++ [EvStore b])).

(** The sequential specification: the charges and stores one after the other;
    [None] when a charge reported something else than it should have. *)
Definition spec_event (b : option Z) (ev : charge_event) : option Z :=
  x ← b;
  match ev with
  | EvStore y => Some y
  | EvCharge delta r =>
      let next := saturating_sub x delta in
      if Bool.eqb r (next =? 0) then Some next else None
  end.

Definition spec_run (b : Z) (evs : list charge_event) : option Z :=
  foldl spec_event (Some b) evs.

(** The charges that returned, by CPU, and those of the event list. *)
Definition returned (l : list charge_pc) : list (Z * bool) :=
  omap (fun pc => match pc with CReturned d r => Some (d, r) | _ => None end) l.
Definition charges (l : list charge_event) : list (Z * bool) :=
  omap (fun ev => match ev with EvCharge d r => Some (d, r) | _ => None end) l.

Lemma returned_insert_same l i pc pc' :
  l !! i = Some pc -> (forall d r, pc <> CReturned d r) -> (forall d r, pc' <> CReturned d r) ->
  returned (<[i := pc']> l) = returned l.
Proof.
  revert i. induction l as [|x l IH]; intros [|i] Hl Hpc Hpc'; simpl in *; try done.
  - injection Hl as ->. destruct pc, pc'; try done; naive_solver.
  - unfold returned in *. simpl. by rewrite (IH i Hl Hpc Hpc').
Qed.

Lemma returned_insert_new l i pc d r :
  l !! i = Some pc -> (forall d r, pc <> CReturned d r) ->
  returned (<[i := CReturned d r]> l) ≡ₚ (d, r) :: returned l.
Proof.
  revert i. induction l as [|x l IH]; intros [|i] Hl Hpc; simpl in *; try done.
  - injection Hl as ->. destruct pc; try done; naive_solver.
  - unfold returned in *. simpl. case_match; rewrite (IH i Hl Hpc); [|done]. apply perm_swap.
Qed.

Lemma returned_start pcs : (forall pc, pc ∈ pcs -> exists d, pc = CStart d) -> returned pcs = [].
Proof.
  induction pcs as [|pc pcs IH]; intros H; [done|]. unfold returned in *. simpl.
  destruct (H pc) as [d ->]; [by left|]. apply IH. intros. apply H. by right.
Qed.

(** The sequential specification explains the state. *)
Definition explained (b : Z) (s : charge_state) : Prop :=
  spec_run b (events s) = Some (budget s) /\ charges (events s) ≡ₚ returned (cpus s).

Lemma spec_run_snoc b evs ev : spec_run b (evs ++ [ev]) = spec_event (spec_run b evs) ev.
Proof. unfold spec_run. by rewrite foldl_app. Qed.

Lemma charges_snoc evs ev : charges (evs ++ [ev]) = charges evs ++ charges [ev].
Proof. apply omap_app. Qed.

Lemma charge_step_explained b s s' : charge_step s s' -> explained b s -> explained b s'.
Proof.
  intros Hs [Hrun Hch]. unfold explained.
  destruct Hs as [s i d Hi|s i d old Hi Hb next|s i d old Hi Hb|s x]; simpl.
  - by rewrite (returned_insert_same _ _ _ _ Hi).
  - rewrite spec_run_snoc, charges_snoc, Hrun, Hch. simpl. rewrite Hb. fold next.
    rewrite Bool.eqb_reflx. split; [done|].
    rewrite (returned_insert_new _ _ _ _ _ Hi) by done. by rewrite <- Permutation_cons_append.
  - by rewrite (returned_insert_same _ _ _ _ Hi).
  - rewrite spec_run_snoc, charges_snoc, Hrun, Hch. simpl. by rewrite app_nil_r.
Qed.

(** C25. Whatever the interleaving of the retry loops with each other and with
    stores of a new budget, the word holds what the charges and stores give
    when performed one after the other in the order of their exchanges, every
    charge reports whether its own exchange emptied the budget, and no charge
    is applied twice or lost. *)
Theorem charge_linearizable b pcs s :
  (forall pc, pc ∈ pcs -> exists d, pc = CStart d) ->
  rtc charge_step (mk_charge b pcs []) s ->
  spec_run b (events s) = Some (budget s) /\ charges (events s) ≡ₚ returned (cpus s).
Proof.
  intros Hpcs Hr. change (explained b s).
  assert (explained b (mk_charge b pcs [])) as Hinit
    by (split; simpl; [done|by rewrite returned_start]).
  revert Hinit. induction Hr; eauto using charge_step_explained.
Qed.

(** Two CPUs charge 3 and 4 against a budget of 5; the second one loses the
    race for the word and retries. *)
Lemma charge_linearizable_witness :
  exists s, rtc charge_step (mk_charge 5 [CStart 3; CStart 4] []) s /\
    cpus s = [CReturned 3 false; CReturned 4 true] /\
    spec_run 5 (events s) = Some (budget s).
Proof.
  set (s := mk_charge 0 [CReturned 3 false; CReturned 4 true] [EvCharge 3 false; EvCharge 4 true]).
  assert (rtc charge_step (mk_charge 5 [CStart 3; CStart 4] []) s) as Hr.
  { eapply rtc_l; [apply (charge_load _ 0%nat 3); reflexivity|]. simpl.
    eapply rtc_l; [apply (charge_load _ 1%nat 4); reflexivity|]. simpl.
    eapply rtc_l; [apply (charge_exchange _ 0%nat 3 5); reflexivity|]. simpl.
    eapply rtc_l; [apply (charge_retry _ 1%nat 4 5); [reflexivity|discriminate]|]. simpl.
    eapply rtc_l; [apply (charge_exchange _ 1%nat 4 2); reflexivity|]. apply rtc_refl. }
  exists s. split; [exact Hr|]. split; [reflexivity|].
  apply (charge_linearizable 5 [CStart 3; CStart 4] s); [|exact Hr].
  intros pc Hpc. apply elem_of_cons in Hpc as [->|Hpc]; [eauto|].
  apply elem_of_cons in Hpc as [->|Hpc]; [eauto|]. by apply not_elem_of_nil in Hpc.
Defined.
