(* ===== verification/CpuMask.v ===== *)
(** * CPU numbers and CPU bitmaps

    The model of the first half of [libs/sched/src/cpu.rs]: [CpuId], the 64-bit
    bitmap [CpuMask] and its iterator.  A bitmap is read as the set of the CPUs
    it contains; the operations are the operations on sets, and the iterator
    lists a set in ascending order. *)

From stdpp Require Import fin finite vector.
From S2P Require Import Prelude.

Definition MAX_CPUS : nat := 12.
Definition BOOT_CPU_ID : Z := 0.
Definition SCHED_CAPACITY_SCALE : Z := 1024.

(** A [CpuId] can only be made below [MAX_CPUS], so indexing a per-CPU array
    with it is always in range. *)
Abbreviation CpuId := (fin MAX_CPUS).

(** [CpuId::new]. *)
Definition cpu_new (raw : nat) : option CpuId :=
  match decide (raw < MAX_CPUS)%nat with
  | left H => Some (nat_to_fin H)
  | right _ => None
  end.

Definition cpu_boot : CpuId := 0%fin.
Definition cpu_get (c : CpuId) : Z := Z.of_nat (fin_to_nat c).

(** Bitwise [!] of a [u64]. *)
Definition not_u64 (x : Z) : Z := Z.lxor x U64_MAX.

(** [u64::count_ones] and [u64::trailing_zeros]. *)
Definition bit_numbers : list nat := seq 0 64.
#[global] Arguments bit_numbers : simpl never.
Definition count_ones (x : Z) : nat :=
  length (filter (fun i => Is_true (Z.testbit x (Z.of_nat i))) bit_numbers).
Definition trailing_zeros (x : Z) : nat :=
  default 64%nat (position (fun i => Z.testbit x (Z.of_nat i)) bit_numbers).

Module CpuMask.

Definition supported_bits : Z :=
  if 64 <=? Z.of_nat MAX_CPUS then U64_MAX else Z.shiftl 1 (Z.of_nat MAX_CPUS) - 1.

Definition cpu_bit_raw (cpu_id : Z) : Z :=
  if (cpu_id <? Z.of_nat MAX_CPUS) && (cpu_id <? 64) then Z.shiftl 1 cpu_id else 0.

(** [CpuId::mask]. *)
Definition cpu_mask (c : CpuId) : Z := cpu_bit_raw (cpu_get c).

Definition EMPTY : Z := 0.
Definition SUPPORTED : Z := supported_bits.
Definition BOOT : Z := cpu_bit_raw BOOT_CPU_ID.
Definition single (c : CpuId) : Z := cpu_mask c.
Definition single_raw (cpu_id : Z) : Z := cpu_bit_raw cpu_id.
Definition from_bits_truncate (bits : Z) : Z := Z.land bits supported_bits.
Definition is_empty (m : Z) : bool := m =? 0.
Definition or_boot (m : Z) : Z := if is_empty m then BOOT else m.
Definition from_bits_or_boot (bits : Z) : Z := or_boot (from_bits_truncate bits).
Definition intersection (m other : Z) : Z := Z.land (Z.land m other) supported_bits.
Definition union (m other : Z) : Z := Z.land (Z.lor m other) supported_bits.
Definition without (m : Z) (c : CpuId) : Z :=
  Z.land (Z.land m (not_u64 (cpu_mask c))) supported_bits.
Definition contains (m : Z) (c : CpuId) : bool := negb (Z.land m (cpu_mask c) =? 0).
Definition contains_raw (m cpu_id : Z) : bool := negb (Z.land m (cpu_bit_raw cpu_id) =? 0).
Definition intersects (m other : Z) : bool :=
  negb (Z.land (Z.land m other) supported_bits =? 0).
Definition contains_mask (m other : Z) : bool :=
  Z.land (Z.land other (not_u64 m)) supported_bits =? 0.
Definition count (m : Z) : nat := count_ones m.

(** [CpuMaskIter::next]; every round clears a bit of the word, so the loop ends
    within 64 rounds. *)
Fixpoint next_loop (fuel : nat) (bits : Z) : option CpuId * Z :=
  match fuel with
  | O => (None, bits)
  | S fuel =>
      if bits =? 0 then (None, bits)
      else
        let raw := trailing_zeros bits in
        let bits := Z.land bits (bits - 1) in
        match cpu_new raw with
        | Some cpu => (Some cpu, bits)
        | None => next_loop fuel bits
        end
  end.
Definition next (bits : Z) : option CpuId * Z := next_loop 64 bits.
#[global] Arguments next : simpl never.

(** The CPUs an iterator yields, up to its first [None]. *)
Fixpoint collect (fuel : nat) (bits : Z) : list CpuId :=
  match fuel with
  | O => []
  | S fuel =>
      match next bits with
      | (Some cpu, bits) => cpu :: collect fuel bits
      | (None, _) => []
      end
  end.
Definition iter (m : Z) : list CpuId := collect 65 (intersection m SUPPORTED).
#[global] Arguments iter : simpl never.
Definition first (m : Z) : option CpuId := fst (next (intersection m SUPPORTED)).

Definition supported_storage_bytes : Z :=
  let supported := if 64 <? Z.of_nat MAX_CPUS then 64 else Z.of_nat MAX_CPUS in
  let bytes := (supported + 7) / 8 in
  if bytes =? 0 then 1 else bytes.

End CpuMask.
Import CpuMask.

(** A bitmap within the supported CPUs. *)
Definition supported (m : Z) : Prop := 0 <= m < 2 ^ 12.

(** ** Bits *)

Lemma cpu_lt (c : CpuId) : 0 <= cpu_get c < 12.
Proof. unfold cpu_get. pose proof (fin_to_nat_lt c). unfold MAX_CPUS in *. lia. Qed.

Lemma supported_bit n : 0 <= n -> Z.testbit supported_bits n = (n <? 12).
Proof. intros Hn. change supported_bits with (Z.ones 12). by rewrite Z.testbit_ones_nonneg. Qed.

Lemma cpu_mask_pow c : cpu_mask c = 2 ^ cpu_get c.
Proof.
  pose proof (cpu_lt c). unfold cpu_mask, cpu_bit_raw, MAX_CPUS.
  rewrite !(proj2 (Z.ltb_lt _ _)) by lia. simpl. by rewrite Z.shiftl_1_l.
Qed.

Lemma not_u64_bit x n : 0 <= n < 64 -> Z.testbit (not_u64 x) n = negb (Z.testbit x n).
Proof.
  intros Hn. unfold not_u64. change U64_MAX with (Z.ones 64).
  rewrite Z.lxor_spec, Z.testbit_ones_nonneg by lia. rewrite (proj2 (Z.ltb_lt _ _)) by lia.
  by destruct (Z.testbit x n).
Qed.

(** A word within a window is zero when its bits in the window are. *)
Lemma zero_iff_bits x : supported x -> x = 0 <-> forall c, Z.testbit x (cpu_get c) = false.
Proof.
  intros Hx. split; [intros -> c; apply Z.bits_0|]. intros Hb. apply Z.bits_inj'.
  intros n Hn. rewrite Z.bits_0. destruct (Z.lt_ge_cases n 12) as [Hlt|Hge].
  - assert (Z.to_nat n < MAX_CPUS)%nat as Hc by (unfold MAX_CPUS; lia).
    specialize (Hb (nat_to_fin Hc)). unfold cpu_get in Hb.
    by rewrite fin_to_nat_to_fin, Z2Nat.id in Hb.
  - by apply (testbit_above x 12).
Qed.

Lemma land_supported x : supported (Z.land x supported_bits).
Proof.
  change supported_bits with (Z.ones 12). rewrite Z.land_ones by lia. apply Z.mod_pos_bound. lia.
Qed.

Lemma contains_bit m c : contains m c = Z.testbit m (cpu_get c).
Proof.
  unfold contains. rewrite cpu_mask_pow. pose proof (cpu_lt c) as Hc.
  destruct (Z.eqb_spec (Z.land m (2 ^ cpu_get c)) 0) as [E|E]; simpl.
  - apply (f_equal (fun x => Z.testbit x (cpu_get c))) in E.
    by rewrite Z.land_spec, Z.pow2_bits_true, andb_true_r, Z.bits_0 in E by lia.
  - destruct (Z.testbit m (cpu_get c)) eqn:Hm; [done|]. exfalso. apply E.
    apply Z.bits_inj'. intros n Hn. rewrite Z.land_spec, Z.bits_0, Z.pow2_bits_eqb by lia.
    destruct (Z.eqb_spec (cpu_get c) n) as [<-|]; [by rewrite Hm|by rewrite andb_false_r].
Qed.

Lemma supported_bit_cpu c : Z.testbit supported_bits (cpu_get c) = true.
Proof. pose proof (cpu_lt c). rewrite supported_bit by lia. apply Z.ltb_lt. lia. Qed.

Lemma cpu_get_inj c d : cpu_get c = cpu_get d -> c = d.
Proof. unfold cpu_get. intros E. apply fin_to_nat_inj. lia. Qed.

(** ** Set operations *)

Create HintDb cpumask.
Create Rewrite HintDb cpumask.

Lemma contains_intersection a b c : contains (intersection a b) c = contains a c && contains b c.
Proof.
  rewrite !contains_bit. unfold intersection. by rewrite !Z.land_spec, supported_bit_cpu, andb_true_r.
Qed.

Lemma contains_union a b c : contains (union a b) c = contains a c || contains b c.
Proof.
  rewrite !contains_bit. unfold union.
  by rewrite Z.land_spec, Z.lor_spec, supported_bit_cpu, andb_true_r.
Qed.

Lemma contains_single c d : contains (single c) d = bool_decide (c = d).
Proof.
  rewrite contains_bit. unfold single. rewrite cpu_mask_pow. pose proof (cpu_lt c).
  rewrite Z.pow2_bits_eqb by lia. apply Bool.eq_true_iff_eq. rewrite Z.eqb_eq, bool_decide_eq_true.
  split; [apply cpu_get_inj|by intros ->].
Qed.

Lemma contains_without a c d : contains (without a c) d = contains a d && bool_decide (c <> d).
Proof.
  pose proof (contains_single c d) as Hs. rewrite contains_bit in Hs |- *. pose proof (cpu_lt d).
  unfold without. rewrite !Z.land_spec, supported_bit_cpu, andb_true_r, not_u64_bit by lia.
  fold (single c). rewrite Hs, contains_bit. f_equal. by rewrite bool_decide_not.
Qed.

Lemma contains_truncate a c : contains (from_bits_truncate a) c = contains a c.
Proof.
  rewrite !contains_bit. unfold from_bits_truncate. by rewrite Z.land_spec, supported_bit_cpu, andb_true_r.
Qed.

Lemma contains_SUPPORTED c : contains SUPPORTED c = true.
Proof. rewrite contains_bit. apply supported_bit_cpu. Qed.

Lemma contains_EMPTY c : contains EMPTY c = false.
Proof. rewrite contains_bit. apply Z.bits_0. Qed.

#[export] Hint Rewrite contains_intersection contains_union contains_single contains_without
  contains_truncate contains_SUPPORTED contains_EMPTY : cpumask.

Lemma supported_intersection a b : supported (intersection a b).
Proof. apply land_supported. Qed.
Lemma supported_union a b : supported (union a b).
Proof. apply land_supported. Qed.
Lemma supported_without a c : supported (without a c).
Proof. apply land_supported. Qed.
Lemma supported_truncate a : supported (from_bits_truncate a).
Proof. apply land_supported. Qed.
Lemma supported_SUPPORTED : supported SUPPORTED.
Proof. by unfold supported. Qed.
Lemma supported_EMPTY : supported EMPTY.
Proof. by unfold supported. Qed.
Lemma supported_single c : supported (single c).
Proof.
  unfold supported, single. rewrite cpu_mask_pow. pose proof (cpu_lt c).
  split; [apply Z.pow_nonneg; lia|apply Z.pow_lt_mono_r; lia].
Qed.

#[export] Hint Resolve supported_intersection supported_union supported_without
  supported_truncate supported_SUPPORTED supported_EMPTY supported_single : cpumask.

(** Bitmaps with the same CPUs are equal. *)
Lemma mask_ext a b : supported a -> supported b -> (forall c, contains a c = contains b c) -> a = b.
Proof.
  intros Ha Hb Heq. apply Z.bits_inj'. intros n Hn. destruct (Z.lt_ge_cases n 12) as [Hlt|Hge].
  - assert (Z.to_nat n < MAX_CPUS)%nat as Hc by (unfold MAX_CPUS; lia).
    specialize (Heq (nat_to_fin Hc)). rewrite !contains_bit in Heq. unfold cpu_get in Heq.
    by rewrite fin_to_nat_to_fin, Z2Nat.id in Heq.
  - by rewrite (testbit_above a 12), (testbit_above b 12).
Qed.

Lemma is_empty_iff a : supported a -> is_empty a = true <-> forall c, contains a c = false.
Proof.
  intros Ha. unfold is_empty. rewrite Z.eqb_eq, (zero_iff_bits a Ha).
  by setoid_rewrite contains_bit.
Qed.

Lemma intersects_iff a b :
  intersects a b = true <-> exists c, contains a c = true /\ contains b c = true.
Proof.
  unfold intersects. change (Z.land (Z.land a b) supported_bits) with (intersection a b).
  change (intersection a b =? 0) with (is_empty (intersection a b)).
  pose proof (is_empty_iff (intersection a b) (supported_intersection a b)) as He.
  destruct (is_empty (intersection a b)); simpl; split; try done.
  - intros (c & Ha & Hb). pose proof (proj1 He eq_refl c) as E.
    by rewrite contains_intersection, Ha, Hb in E.
  - intros _. apply dec_stable. intros Hno.
    assert (forall c, contains (intersection a b) c = false) as [= ]%He.
    intros c. rewrite contains_intersection. destruct (contains a c) eqn:Ha; [|done].
    destruct (contains b c) eqn:Hb; [|done]. exfalso. eauto.
Qed.

Lemma contains_mask_iff a b :
  contains_mask a b = true <-> forall c, contains b c = true -> contains a c = true.
Proof.
  unfold contains_mask. rewrite Z.eqb_eq, (zero_iff_bits _ (land_supported _)).
  assert (forall c, Z.testbit (Z.land (Z.land b (not_u64 a)) supported_bits) (cpu_get c) =
            contains b c && negb (contains a c)) as Hb.
  { intros c. pose proof (cpu_lt c). rewrite !Z.land_spec, supported_bit_cpu, andb_true_r, not_u64_bit by lia.
    by rewrite !contains_bit. }
  setoid_rewrite Hb. split; intros H c; specialize (H c); destruct (contains b c), (contains a c);
    simpl in *; first [done|by rewrite H].
Qed.

(** ** The iterator *)

(** [x & (x - 1)] clears the lowest bit that is set. *)
Lemma clear_lowest x k :
  0 <= k -> Z.testbit x k = true -> (forall n, 0 <= n < k -> Z.testbit x n = false) ->
  forall n, 0 <= n -> Z.testbit (Z.land x (x - 1)) n = Z.testbit x n && negb (n =? k).
Proof.
  intros Hk Hbit Hlow.
  assert (exists q, x = (q * 2 ^ 1 + 1) * 2 ^ k + 0) as (q & ->).
  { exists (x / 2 ^ k / 2). assert (x mod 2 ^ k = 0) as Hm.
    { apply Z.bits_inj'. intros n Hn. rewrite Z.bits_0. destruct (Z.lt_ge_cases n k) as [Hlt|Hge].
      - rewrite Z.mod_pow2_bits_low by lia. apply Hlow. lia.
      - by apply Z.mod_pow2_bits_high. }
    pose proof (Z.div_mod x (2 ^ k) ltac:(lia)) as Hx.
    rewrite Z.testbit_odd, Z.shiftr_div_pow2 in Hbit by done.
    pose proof (Zeven.Zdiv2_odd_eqn (x / 2 ^ k)) as Ho. rewrite Hbit, Z.div2_div in Ho. lia. }
  assert (Z.land ((q * 2 ^ 1 + 1) * 2 ^ k + 0) ((q * 2 ^ 1 + 1) * 2 ^ k + 0 - 1) =
          (q * 2 ^ 1 + 0) * 2 ^ k + 0) as ->.
  { pose proof (Z.pow_pos_nonneg 2 k ltac:(lia) Hk).
    replace ((q * 2 ^ 1 + 1) * 2 ^ k + 0 - 1) with ((q * 2 ^ 1 + 0) * 2 ^ k + (2 ^ k - 1)) by lia.
    rewrite land_split by lia. rewrite land_split by lia. by rewrite Z.land_diag, Z.land_0_l. }
  intros n Hn. assert (0 <= 0 < 2 ^ k) by (pose proof (Z.pow_pos_nonneg 2 k); lia).
  rewrite (testbit_split k (q * 2 ^ 1 + 0)), (testbit_split k (q * 2 ^ 1 + 1)) by done.
  destruct (Z.ltb_spec n k); [by rewrite Z.bits_0|].
  rewrite (testbit_split 1 q 0), (testbit_split 1 q 1) by lia. destruct (Z.eqb_spec n k) as [->|Hne]; simpl.
  - by rewrite Z.sub_diag.
  - rewrite andb_true_r. by rewrite (proj2 (Z.ltb_ge (n - k) 1)) by lia.
Qed.

Lemma trailing_zeros_spec x :
  supported x -> x <> 0 ->
  (trailing_zeros x < MAX_CPUS)%nat /\ Z.testbit x (Z.of_nat (trailing_zeros x)) = true /\
  forall n, 0 <= n < Z.of_nat (trailing_zeros x) -> Z.testbit x n = false.
Proof.
  intros Hx Hne. unfold trailing_zeros.
  destruct (position (fun i => Z.testbit x (Z.of_nat i)) bit_numbers) as [i|] eqn:E; simpl.
  - apply position_Some in E as (j & Hj & Hbit & Hmin).
    apply lookup_seq in Hj as [-> Hi]. simpl in *. split_and!; [|done|].
    + destruct (Nat.lt_ge_cases i MAX_CPUS) as [|Hge]; [done|].
      rewrite (testbit_above x 12) in Hbit; [done|done|unfold MAX_CPUS in Hge; lia].
    + intros n Hn. specialize (Hmin (Z.to_nat n) (Z.to_nat n) ltac:(lia)).
      rewrite Z2Nat.id in Hmin by lia. apply Hmin, lookup_seq. lia.
  - exfalso. apply Hne, (zero_iff_bits x Hx). intros c. apply position_None in E.
    rewrite Forall_forall in E. apply (E (fin_to_nat c)). apply elem_of_seq.
    pose proof (fin_to_nat_lt c). unfold MAX_CPUS in *. lia.
Qed.

Lemma next_loop_S fuel bits :
  next_loop (S fuel) bits =
    if bits =? 0 then (None, bits)
    else match cpu_new (trailing_zeros bits) with
         | Some cpu => (Some cpu, Z.land bits (bits - 1))
         | None => next_loop fuel (Z.land bits (bits - 1))
         end.
Proof. done. Qed.

Lemma next_spec x :
  supported x ->
  match next x with
  | (None, _) => x = 0
  | (Some c, x') =>
      contains x c = true /\ supported x' /\
      (forall d, contains x d = true -> cpu_get c <= cpu_get d) /\
      (forall d, contains x' d = contains x d && bool_decide (c <> d))
  end.
Proof.
  intros Hx. unfold next. rewrite next_loop_S. destruct (Z.eqb_spec x 0) as [|Hne]; [done|].
  destruct (trailing_zeros_spec x Hx Hne) as (Hlt & Hbit & Hlow).
  unfold cpu_new. destruct (decide _) as [H|]; [|done].
  assert (cpu_get (nat_to_fin H) = Z.of_nat (trailing_zeros x)) as Hc
    by (unfold cpu_get; by rewrite fin_to_nat_to_fin).
  set (c := nat_to_fin H) in *. rewrite <- Hc in Hbit, Hlow.
  pose proof (cpu_lt c) as Hc12. pose proof (clear_lowest x (cpu_get c) ltac:(lia) Hbit Hlow) as Hclear.
  split_and!; [by rewrite contains_bit| | |].
  - apply bits_bound; [lia|apply Z.land_nonneg; left; apply Hx|]. intros n Hn.
    rewrite Hclear by lia. by rewrite (testbit_above x 12).
  - intros d Hd. rewrite contains_bit in Hd. destruct (Z.lt_ge_cases (cpu_get d) (cpu_get c)); [|done].
    pose proof (cpu_lt d). rewrite Hlow in Hd by lia. done.
  - intros d. pose proof (cpu_lt d). rewrite !contains_bit, Hclear by lia. f_equal.
    apply Bool.eq_true_iff_eq. rewrite negb_true_iff, Z.eqb_neq, bool_decide_eq_true.
    split; [by intros ? ->|]. intros Hcd E. apply Hcd. symmetry. by apply cpu_get_inj.
Qed.

Definition ascending : list CpuId -> Prop := StronglySorted (fun c d => cpu_get c < cpu_get d).

Lemma collect_spec fuel x k :
  supported x -> (forall d, contains x d = true -> k <= cpu_get d) -> 12 - k < Z.of_nat fuel ->
  ascending (collect fuel x) /\ forall d, d ∈ collect fuel x <-> contains x d = true.
Proof.
  revert x k. induction fuel as [|fuel IH]; intros x k Hx Hk Hf.
  { split; [constructor|]. intros d. split; [by intros ?%not_elem_of_nil|].
    intros Hd%Hk. pose proof (cpu_lt d). lia. }
  simpl. pose proof (next_spec x Hx) as Hn. destruct (next x) as [[c|] x'].
  - destruct Hn as (Hc & Hx' & Hmin & Hrest).
    destruct (IH x' (cpu_get c + 1)) as [Hs Hel]; [done| |specialize (Hk c Hc); lia|].
    { intros d Hd. rewrite Hrest in Hd. apply andb_prop in Hd as [Hd Hne%bool_decide_eq_true].
      specialize (Hmin d Hd). assert (cpu_get c <> cpu_get d); [by intros ?%cpu_get_inj|lia]. }
    split.
    + constructor; [done|]. apply Forall_forall. intros d Hd%Hel.
      rewrite Hrest in Hd. apply andb_prop in Hd as [Hd Hne%bool_decide_eq_true].
      specialize (Hmin d Hd). assert (cpu_get c <> cpu_get d); [by intros ?%cpu_get_inj|lia].
    + intros d. rewrite elem_of_cons, Hel, Hrest, andb_true_iff, bool_decide_eq_true.
      split; [by intros [->|[? _]]|]. intros Hd. destruct (decide (c = d)); auto.
  - subst x. split; [constructor|]. intros d. rewrite contains_bit, Z.bits_0.
    split; [by intros ?%not_elem_of_nil|done].
Qed.

Lemma elem_of_iter m c : c ∈ iter m <-> contains m c = true.
Proof.
  unfold iter. destruct (collect_spec 65 (intersection m SUPPORTED) 0) as [_ ->].
  - apply supported_intersection.
  - intros d _. pose proof (cpu_lt d). lia.
  - lia.
  - by rewrite contains_intersection, contains_SUPPORTED, andb_true_r.
Qed.

Lemma iter_ascending m : ascending (iter m).
Proof.
  unfold iter. destruct (collect_spec 65 (intersection m SUPPORTED) 0) as [H _];
    [apply supported_intersection| |lia|done].
  intros d _. pose proof (cpu_lt d). lia.
Qed.

Lemma ascending_nodup l : ascending l -> NoDup l.
Proof.
  induction 1 as [|c l Hs IH Hf]; constructor; [|done]. rewrite Forall_forall in Hf.
  intros Hc%Hf. lia.
Qed.

(** Two ascending lists of the same CPUs are equal. *)
Lemma ascending_unique l l' :
  ascending l -> ascending l' -> (forall c, c ∈ l <-> c ∈ l') -> l = l'.
Proof.
  intros Hl. revert l'. induction Hl as [|c l Hs IH Hf]; intros l' Hl' Heq.
  - destruct l' as [|d l']; [done|]. destruct (Heq d) as [_ H]. by apply not_elem_of_nil in H; [|left].
  - destruct Hl' as [|d l' Hs' Hf'].
    { destruct (Heq c) as [H _]. by apply not_elem_of_nil in H; [|left]. }
    rewrite Forall_forall in Hf, Hf'. assert (c = d) as ->.
    { destruct (proj1 (elem_of_cons _ _ _) (proj1 (Heq c) ltac:(by left))) as [|H1]; [done|].
      destruct (proj1 (elem_of_cons _ _ _) (proj2 (Heq d) ltac:(by left))) as [|H2]; [done|].
      apply Hf' in H1. apply Hf in H2. lia. }
    f_equal. apply IH; [done|]. intros x. split; intros Hx.
    + destruct (proj1 (elem_of_cons _ _ _) (proj1 (Heq x) ltac:(by right))) as [->|]; [|done].
      apply Hf in Hx. lia.
    + destruct (proj1 (elem_of_cons _ _ _) (proj2 (Heq x) ltac:(by right))) as [->|]; [|done].
      apply Hf' in Hx. lia.
Qed.

(** The CPUs of a bitmap, listed from the definition of a set of CPUs. *)
Definition members (m : Z) : list CpuId := filter (fun c => contains m c = true) (enum CpuId).

Lemma enum_ascending : ascending (enum CpuId).
Proof. unfold ascending. apply Sorted_StronglySorted; [intros a b c; lia|]. repeat constructor. Qed.

Lemma filter_ascending (P : CpuId -> Prop) `{!forall c, Decision (P c)} l :
  ascending l -> ascending (filter P l).
Proof.
  induction 1 as [|c l Hs IH Hf]; [constructor|]. rewrite filter_cons. case_decide; [|done].
  constructor; [done|]. rewrite Forall_forall in Hf |- *. intros d [_ Hd]%list_elem_of_filter. auto.
Qed.

Lemma iter_members m : iter m = members m.
Proof.
  apply ascending_unique; [apply iter_ascending|apply filter_ascending, enum_ascending|].
  intros c. unfold members. rewrite elem_of_iter, list_elem_of_filter.
  split; [|by intros [? _]]. intros H. split; [done|apply elem_of_enum].
Qed.

Lemma first_head m : first m = head (iter m).
Proof.
  unfold first, iter. cbn [collect]. by destruct (next _) as [[c|] x'].
Qed.

Lemma count_members m : supported m -> count m = length (members m).
Proof.
  intros Hm. unfold count, count_ones. rewrite <- (length_fmap fin_to_nat (members m)).
  apply Permutation_length, NoDup_Permutation.
  - apply NoDup_filter, NoDup_seq.
  - apply NoDup_fmap_2; [apply _|]. apply ascending_nodup, filter_ascending, enum_ascending.
  - intros i. rewrite list_elem_of_filter, list_elem_of_fmap, Is_true_true. split.
    + intros [Hi _]. destruct (Nat.lt_ge_cases i MAX_CPUS) as [Hlt|Hge].
      * exists (nat_to_fin Hlt). rewrite fin_to_nat_to_fin. split; [done|].
        rewrite <- iter_members, elem_of_iter, contains_bit. unfold cpu_get. by rewrite fin_to_nat_to_fin.
      * rewrite (testbit_above m 12) in Hi; [done|done|unfold MAX_CPUS in Hge; lia].
    + intros (c & -> & Hc). rewrite <- iter_members, elem_of_iter, contains_bit in Hc. split; [done|].
      apply elem_of_seq. pose proof (fin_to_nat_lt c). unfold MAX_CPUS in *. lia.
Qed.

(** A bitmap within another has at most as many CPUs, and fewer unless they are
    equal. *)
Lemma count_mono a b :
  supported a -> supported b -> contains_mask b a = true ->
  (count a <= count b)%nat /\ (count b <= count a -> a = b)%nat.
Proof.
  intros Ha Hb Hsub. rewrite contains_mask_iff in Hsub. rewrite !count_members by done.
  assert (forall m, NoDup (members m)) as Hnd
    by (intros; apply ascending_nodup, filter_ascending, enum_ascending).
  assert (members a ⊆ members b) as Hincl.
  { intros c. rewrite <- !iter_members, !elem_of_iter. apply Hsub. }
  assert (members a ⊆+ members b) as Hs by (by apply NoDup_submseteq).
  split; [by apply submseteq_length|]. intros Hlen.
  apply submseteq_length_Permutation in Hs; [|done].
  apply mask_ext; [done|done|]. intros c. apply Bool.eq_true_iff_eq.
  by rewrite <- !elem_of_iter, !iter_members, Hs.
Qed.

Lemma iter_empty m : supported m -> iter m = [] <-> is_empty m = true.
Proof.
  intros Hm. rewrite (is_empty_iff m Hm). split.
  - intros E c. destruct (contains m c) eqn:Hc; [|done]. apply elem_of_iter in Hc.
    rewrite E in Hc. by apply not_elem_of_nil in Hc.
  - intros He. destruct (iter m) as [|c l] eqn:E; [done|]. assert (c ∈ iter m) as Hc by (rewrite E; by left).
    apply elem_of_iter in Hc. by rewrite He in Hc.
Qed.

(** ** Properties *)

(** A [CpuMask] is a set of CPUs: the operations are intersection, union,
    removal, membership, inclusion and overlap of sets, and never leave the
    supported CPUs. *)
Lemma cpumask_set_operations a b c d :
  contains (intersection a b) c = contains a c && contains b c /\
  contains (union a b) c = contains a c || contains b c /\
  contains (without a d) c = contains a c && bool_decide (d <> c) /\
  contains (single d) c = bool_decide (d = c) /\
  contains (from_bits_truncate a) c = contains a c /\
  (contains_mask a b = true <-> forall x, contains b x = true -> contains a x = true) /\
  (intersects a b = true <-> exists x, contains a x = true /\ contains b x = true) /\
  (is_empty (intersection a b) = true <-> intersects a b = false) /\
  contains (from_bits_or_boot a) c =
    (if is_empty (from_bits_truncate a) then bool_decide (c = cpu_boot) else contains a c) /\
  Forall supported [intersection a b; union a b; without a d; single d; from_bits_truncate a;
                    from_bits_or_boot a].
Proof.
  assert (BOOT = single cpu_boot) as Hboot by done.
  split_and!; try (by autorewrite with cpumask).
  - apply contains_mask_iff.
  - apply intersects_iff.
  - unfold intersects, is_empty, intersection. by rewrite negb_false_iff.
  - unfold from_bits_or_boot, or_boot. destruct (is_empty (from_bits_truncate a)).
    + rewrite Hboot, contains_single. apply bool_decide_ext. split; congruence.
    + apply contains_truncate.
  - repeat (apply Forall_cons; split; [by auto with cpumask|]). apply Forall_cons. split; [|constructor].
    unfold from_bits_or_boot, or_boot. rewrite Hboot. destruct (is_empty _); auto with cpumask.
Qed.

(** The iterator of a mask lists its CPUs in ascending order, each once;
    [first] is the least of them and [count] their number. *)
Lemma cpumask_iter_exact m :
  supported m ->
  iter m = members m /\ first m = head (members m) /\ count m = length (members m) /\
  (iter m = [] <-> is_empty m = true).
Proof.
  intros Hm. split_and!; [apply iter_members| |by apply count_members|by apply iter_empty].
  by rewrite first_head, iter_members.
Qed.

Example cpumask_iter_2084 : map cpu_get (iter 2084) = [2; 5; 11].
Proof. by vm_compute. Qed.

(** From here on the iterator is used through its lemmas. *)
#[global] Opaque CpuMask.iter.
