(* ===== verification/Topology.v ===== *)
(** * Scheduling domains and CPU selection

    The model of the second half of [libs/sched/src/cpu.rs]: [SchedDomain],
    [SchedTopology] with its validation, and the choice of a CPU for a task.
    Array accesses that the source writes with [\[\]] panic out of range, so the
    operations are computations of [exec]. *)

From stdpp Require Import fin finite vector.
From S2P Require Import Prelude CpuMask.
Import CpuMask.CpuMask.

Definition MAX_SCHED_DOMAINS : nat := MAX_CPUS * 2.
Definition ROOT_SCHED_DOMAIN_ID : Z := 0.

(** [xs\[i\]]. *)
Definition index {A} (xs : list A) (i : Z) : exec A :=
  if (0 <=? i) && (i <? Z.of_nat (length xs)) then unwrap (xs !! Z.to_nat i) else Panic.

(** A [for] loop whose body may leave the function early: [false] stands for
    the early return. *)
Fixpoint for_all {A} (body : A -> exec bool) (l : list A) : exec bool :=
  match l with
  | [] => Done true
  | x :: l => b ← body x; if b : bool then for_all body l else Done false
  end.

(** A [for] loop over an accumulator. *)
Fixpoint for_fold {A S} (body : S -> A -> exec S) (s : S) (l : list A) : exec S :=
  match l with
  | [] => Done s
  | x :: l => s ← body s x; for_fold body s l
  end.

(** The index range [a..b]. *)
Definition range (a b : Z) : list Z := map Z.of_nat (seq (Z.to_nat a) (Z.to_nat b - Z.to_nat a)).

Module SchedDomain.

Record SchedDomain : Type := mk {
  id : Z;
  span : Z;
  level : Z;
  parent : option Z;
  capacity : Z
}.

#[global] Instance SchedDomain_eq_dec : EqDecision SchedDomain.
Proof. solve_decision. Defined.

Definition empty : SchedDomain := mk USIZE_MAX EMPTY 0 None 0.
Definition root : SchedDomain :=
  mk ROOT_SCHED_DOMAIN_ID SUPPORTED 0 None (Z.of_nat MAX_CPUS * SCHED_CAPACITY_SCALE).

Definition with_capacity (id span level : Z) (parent : option Z) (capacity : Z)
  : result SchedDomain Errno :=
  if (Z.of_nat MAX_SCHED_DOMAINS <=? id) || is_empty span || negb (contains_mask SUPPORTED span)
  then Err EINVAL
  else if capacity =? 0 then Err EINVAL
  else Ok (mk id span level parent capacity).

Definition new (id span level : Z) (parent : option Z) : result SchedDomain Errno :=
  let capacity := Z.of_nat (count span) * SCHED_CAPACITY_SCALE in
  with_capacity id span level parent capacity.

Definition effective_capacity (d : SchedDomain) (active : Z) : Z :=
  let total_cpus := Z.of_nat (count (span d)) in
  let active_cpus := Z.of_nat (count (intersection (span d) active)) in
  if (total_cpus =? 0) || (active_cpus =? 0) then 0
  else saturating_mul (capacity d) active_cpus / total_cpus.

End SchedDomain.
Abbreviation SchedDomain := SchedDomain.SchedDomain.
Import SchedDomain.

Record SchedPlacement : Type := mk_placement {
  current_cpu : option CpuId;
  current_domain : option Z;
  preferred_cpu : option CpuId;
  affinity : Z;
  effective : Z
}.

Module SchedTopology.

Record SchedTopology : Type := mk {
  domains : list SchedDomain;
  len : Z;
  cpu_domain : vec Z MAX_CPUS
}.

Definition no_domains : list SchedDomain := replicate MAX_SCHED_DOMAINS SchedDomain.empty.

Definition bootstrap : SchedTopology :=
  mk (<[Z.to_nat ROOT_SCHED_DOMAIN_ID := SchedDomain.root]> no_domains) 1
     (vreplicate MAX_CPUS ROOT_SCHED_DOMAIN_ID).

Definition with_cpu_domains : SchedTopology :=
  let ds := <[Z.to_nat ROOT_SCHED_DOMAIN_ID := SchedDomain.root]> no_domains in
  let cd := vreplicate MAX_CPUS ROOT_SCHED_DOMAIN_ID in
  let '(ds, cd) :=
    foldl (fun '(ds, cd) (cpu : CpuId) =>
             let domain_id := cpu_get cpu + 1 in
             (<[Z.to_nat domain_id :=
                  SchedDomain.mk domain_id (single_raw (cpu_get cpu)) 1
                    (Some ROOT_SCHED_DOMAIN_ID) SCHED_CAPACITY_SCALE]> ds,
              vinsert cpu domain_id cd))
          (ds, cd) (enum CpuId) in
  mk ds (Z.of_nat MAX_CPUS + 1) cd.

Definition domain (t : SchedTopology) (i : Z) : exec (option SchedDomain) :=
  if i <? len t then d ← index (domains t) i; Done (Some d) else Done None.

Definition domain_for_cpu (t : SchedTopology) (cpu : CpuId) : exec (option SchedDomain) :=
  domain t (cpu_domain t !!! cpu).

Definition root_domain (t : SchedTopology) : exec SchedDomain :=
  index (domains t) ROOT_SCHED_DOMAIN_ID.

(** [unwrap_or_else(|| self.root_domain())]. *)
Definition or_root (t : SchedTopology) (d : option SchedDomain) : exec SchedDomain :=
  match d with Some d => Done d | None => root_domain t end.

Definition cpu_capacity (t : SchedTopology) (cpu : CpuId) : exec Z :=
  found ← domain_for_cpu t cpu;
  d ← or_root t found;
  let cpus := Z.max (Z.of_nat (count (span d))) 1 in
  Done (Z.max (capacity d / cpus) 1).

Definition capacity_of (t : SchedTopology) (cpus : Z) : exec Z :=
  for_fold (fun acc cpu => c ← cpu_capacity t cpu; Done (saturating_add acc c)) 0
    (iter (intersection cpus SUPPORTED)).

Definition effective_domain_capacity (t : SchedTopology) (domain_id active : Z)
  : exec (option Z) :=
  found ← domain t domain_id;
  match found with
  | None => Done None
  | Some d => c ← capacity_of t (intersection (span d) active); Done (Some c)
  end.

(** The walk of [domain_is_ancestor]; [seen] stops it after [len] rounds. *)
Fixpoint ancestor_loop (fuel : nat) (t : SchedTopology) (ancestor seen : Z) (cursor : option Z)
  : exec bool :=
  match cursor with
  | None => Done false
  | Some parent_id =>
      if parent_id =? ancestor then Done true
      else if (len t <=? parent_id) || (len t <=? seen) then Done false
      else
        match fuel with
        | O => Panic
        | S fuel =>
            d ← index (domains t) parent_id;
            ancestor_loop fuel t ancestor (seen + 1) (parent d)
        end
  end.

Definition domain_is_ancestor (t : SchedTopology) (ancestor child : Z) : exec bool :=
  d ← index (domains t) child;
  ancestor_loop (Z.to_nat (len t)) t ancestor 0 (parent d).

Definition best_step (t : SchedTopology) (cpu : CpuId) (s : Z * Z * Z) (idx : Z)
  : exec (Z * Z * Z) :=
  let '(best, best_size, best_level) := s in
  d ← index (domains t) idx;
  if negb (contains (span d) cpu) then Done s
  else
    let size := Z.of_nat (count (span d)) in
    if (size <? best_size) || ((size =? best_size) && (best_level <=? level d))
    then Done (idx, size, level d)
    else Done s.

Definition best_domain_for_cpu (t : SchedTopology) (cpu : CpuId) : exec Z :=
  '(best, _, _) ← for_fold (best_step t cpu) (ROOT_SCHED_DOMAIN_ID, USIZE_MAX, 0) (range 0 (len t));
  Done best.

(** ** [from_domains] *)

(** The first loop: [None] stands for the early return of [EINVAL]. *)
Fixpoint fill_loop (input : list SchedDomain) (idx : nat) (ds : list SchedDomain)
  : option (list SchedDomain) :=
  match input with
  | [] => Some ds
  | d :: input =>
      if negb (id d =? Z.of_nat idx) || is_empty (span d)
         || negb (contains_mask SUPPORTED (span d))
      then None
      else if negb (Z.of_nat idx =? ROOT_SCHED_DOMAIN_ID) && bool_decide (parent d = None)
      then None
      else fill_loop input (S idx) (<[idx := d]> ds)
  end.

Fixpoint cycle_loop (fuel : nat) (t : SchedTopology) (idx seen : Z) (cursor : option Z)
  : exec bool :=
  match cursor with
  | None => Done true
  | Some parent_id =>
      if (parent_id =? idx) || (len t <=? seen) then Done false
      else
        match fuel with
        | O => Panic
        | S fuel =>
            d ← index (domains t) parent_id;
            cycle_loop fuel t idx (seen + 1) (parent d)
        end
  end.

Definition parent_check (t : SchedTopology) (idx : Z) : exec bool :=
  d ← index (domains t) idx;
  match parent d with
  | None => Done false
  | Some p =>
      if (len t <=? p) || (p =? idx) then Done false
      else
        pd ← index (domains t) p;
        if negb (contains_mask (span pd) (span d)) then Done false
        else if level d <=? level pd then Done false
        else cycle_loop (Z.to_nat (len t)) t idx 0 (Some p)
  end.

Definition pair_check (t : SchedTopology) (left right : Z) : exec bool :=
  l ← index (domains t) left;
  r ← index (domains t) right;
  if negb (intersects (span l) (span r)) then Done true
  else
    lr ← domain_is_ancestor t left right;
    if lr : bool then Done true else domain_is_ancestor t right left.

Definition assign_cpu (t : SchedTopology) (cd : vec Z MAX_CPUS) (cpu : CpuId)
  : exec (vec Z MAX_CPUS) :=
  best ← best_domain_for_cpu t cpu;
  Done (vinsert cpu best cd).

Definition root_ok (d : SchedDomain) : bool :=
  (id d =? ROOT_SCHED_DOMAIN_ID) && contains_mask (span d) SUPPORTED
  && bool_decide (parent d = None).

Definition from_domains (input : list SchedDomain) : exec (result SchedTopology Errno) :=
  match input with
  | [] => Done (Err EINVAL)
  | first :: _ =>
      if (MAX_SCHED_DOMAINS <? length input)%nat then Done (Err EINVAL)
      else if negb (root_ok first) then Done (Err EINVAL)
      else
        match fill_loop input 0 no_domains with
        | None => Done (Err EINVAL)
        | Some ds =>
            let out := mk ds (Z.of_nat (length input)) (cpu_domain bootstrap) in
            parents ← for_all (parent_check out) (range 1 (len out));
            if negb parents then Done (Err EINVAL)
            else
              laminar ← for_all (fun left => for_all (pair_check out left) (range (left + 1) (len out)))
                          (range 1 (len out));
              if negb laminar then Done (Err EINVAL)
              else
                cd ← for_fold (assign_cpu out) (cpu_domain out) (iter SUPPORTED);
                Done (Ok (mk ds (len out) cd))
        end
  end.

(** ** Choosing a CPU

    The closure [load_of] reads live run queues and may answer differently each
    time it is called: it is a function of the number of the call.  The
    round-robin counter is the static [PLACEMENT_ROUND_ROBIN]. *)

Definition U128_MAX : Z := 2 ^ 128 - 1.
Definition mul_u128 (a b : Z) : Z := Z.min U128_MAX (a * b).

Record scan : Type := mk_scan {
  calls : nat;
  min_load : Z;
  min_capacity : Z;
  tie_count : Z
}.

Definition scan_step (t : SchedTopology) (load_of : nat -> CpuId -> Z) (s : scan) (cpu : CpuId)
  : exec scan :=
  let load := load_of (calls s) cpu in
  c ← cpu_capacity t cpu;
  let less := mul_u128 load (min_capacity s) <? mul_u128 (min_load s) c in
  let equal := negb less && (0 <? tie_count s)
               && (mul_u128 load (min_capacity s) =? mul_u128 (min_load s) c) in
  if (tie_count s =? 0) || less then Done (mk_scan (S (calls s)) load c 1)
  else if equal then Done (mk_scan (S (calls s)) (min_load s) (min_capacity s) (tie_count s + 1))
  else Done (mk_scan (S (calls s)) (min_load s) (min_capacity s) (tie_count s)).

(** The second pass: the candidate of rank [target]. *)
Fixpoint pick_loop (t : SchedTopology) (load_of : nat -> CpuId -> Z) (s : scan) (n : nat)
  (rank target : Z) (l : list CpuId) : exec (option CpuId * nat) :=
  match l with
  | [] => Done (None, n)
  | cpu :: l =>
      let load := load_of n cpu in
      c ← cpu_capacity t cpu;
      if mul_u128 load (min_capacity s) =? mul_u128 (min_load s) c then
        if rank =? target then Done (Some cpu, S n)
        else pick_loop t load_of s (S n) (rank + 1) target l
      else pick_loop t load_of s (S n) rank target l
  end.

(** The CPU chosen, the calls made and the round-robin counter. *)
Definition choose_least_loaded (t : SchedTopology) (mask : Z) (load_of : nat -> CpuId -> Z)
  (n : nat) (round_robin : Z) : exec (option CpuId * nat * Z) :=
  s ← for_fold (scan_step t load_of) (mk_scan n USIZE_MAX 1 0) (iter mask);
  if tie_count s =? 0 then Done (None, calls s, round_robin)
  else
    let '(target, round_robin) :=
      if 1 <? tie_count s
      then (round_robin mod tie_count s, wrapping_add round_robin 1) else (0, round_robin) in
    '(picked, n) ← pick_loop t load_of s (calls s) 0 target (iter mask);
    match picked with
    | Some cpu => Done (Some cpu, n, round_robin)
    | None => Done (first mask, n, round_robin)
    end.

Definition select_cpu (t : SchedTopology) (allowed active : Z) (current : option CpuId)
  (prefer_current : bool) (load_of : nat -> CpuId -> Z) (round_robin : Z)
  : exec (option CpuId * Z) :=
  let eligible := intersection allowed active in
  if is_empty eligible then Done (None, round_robin)
  else
    let keep := match current with
                | Some cpu => prefer_current && contains eligible cpu
                | None => false
                end in
    if keep then Done (current, round_robin)
    else
      local ← (match current with
               | Some cpu =>
                   found ← domain_for_cpu t cpu;
                   match found with
                   | Some d => choose_least_loaded t (intersection (span d) eligible) load_of 0 round_robin
                   | None => Done (None, 0%nat, round_robin)
                   end
               | None => Done (None, 0%nat, round_robin)
               end);
      let '(chosen, n, round_robin) := local in
      match chosen with
      | Some cpu => Done (Some cpu, round_robin)
      | None =>
          '(chosen, _, round_robin) ← choose_least_loaded t eligible load_of n round_robin;
          Done (chosen, round_robin)
      end.

Definition describe_placement (t : SchedTopology) (affinity active : Z) (current : option CpuId)
  (prefer_current : bool) (load_of : nat -> CpuId -> Z) (round_robin : Z)
  : exec (SchedPlacement * Z) :=
  let affinity := or_boot affinity in
  let effective := intersection affinity active in
  found ← (match current with
           | Some cpu => domain_for_cpu t cpu
           | None => Done None
           end);
  '(preferred_cpu, round_robin) ←
    select_cpu t affinity active current prefer_current load_of round_robin;
  Done (mk_placement current (id <$> found) preferred_cpu affinity effective, round_robin).

(** The climb of [balance_sources]; running out of [fuel] counts as a failure. *)
Fixpoint balance_loop (fuel : nat) (t : SchedTopology) (cpu : CpuId) (active domain_id : Z)
  : exec Z :=
  match fuel with
  | O => Panic
  | S fuel =>
      found ← domain t domain_id;
      d ← or_root t found;
      let sources := without (intersection (span d) active) cpu in
      if negb (is_empty sources) || (id d =? ROOT_SCHED_DOMAIN_ID) then Done sources
      else balance_loop fuel t cpu active (default ROOT_SCHED_DOMAIN_ID (parent d))
  end.

Definition balance_sources (t : SchedTopology) (cpu : CpuId) (active : Z) : exec Z :=
  balance_loop MAX_SCHED_DOMAINS t cpu active (cpu_domain t !!! cpu).

End SchedTopology.
Abbreviation SchedTopology := SchedTopology.SchedTopology.
Import SchedTopology.
