(* ===== verification/TopologyProofs.v ===== *)
(** * Which topologies are accepted

    The tree of domains a topology describes, the exact condition under which
    [from_domains] accepts a list of domains, and what holds of every topology
    the constructors return: each CPU is assigned the deepest domain that
    contains it. *)

From stdpp Require Import fin finite vector.
From S2P Require Import Prelude CpuMask Topology.
Import CpuMask.CpuMask SchedDomain SchedTopology.

(** ** Loops *)

Lemma index_ok {A} (xs : list A) i x : xs !! i = Some x -> index xs (Z.of_nat i) = Done x.
Proof.
  intros Hi. pose proof (lookup_lt_Some _ _ _ Hi). unfold index.
  rewrite (proj2 (Z.leb_le _ _)), (proj2 (Z.ltb_lt _ _)) by lia. simpl. by rewrite Nat2Z.id, Hi.
Qed.

Lemma index_Done {A} (xs : list A) i x :
  index xs i = Done x -> exists n, i = Z.of_nat n /\ xs !! n = Some x.
Proof.
  unfold index. destruct (Z.leb_spec 0 i); [|done]. destruct (_ <? _); [|done]. simpl.
  intros H1. exists (Z.to_nat i). split; [lia|]. destruct (xs !! Z.to_nat i); [|done]. simpl in H1. congruence.
Qed.

Lemma for_all_spec {A} (body : A -> exec bool) l :
  (forall x, x ∈ l -> exists b, body x = Done b) ->
  exists b, for_all body l = Done b /\ (b = true <-> forall x, x ∈ l -> body x = Done true).
Proof.
  induction l as [|x l IH]; intros Hl; simpl.
  { exists true. split; [done|]. split; [|done]. by intros _ x ?%not_elem_of_nil. }
  destruct (Hl x) as [b Hb]; [by left|]. rewrite Hb. cbn [mbind exec_bind]. destruct b.
  - destruct IH as (b & -> & Hb'); [intros y Hy; apply Hl; by right|]. exists b. split; [done|].
    rewrite Hb'. setoid_rewrite elem_of_cons. split; [intros H y [->|Hy]; auto|auto].
  - exists false. split; [done|]. split; [done|]. intros H. rewrite (H x) in Hb by (by left). done.
Qed.

Lemma for_fold_inv {A S} (body : S -> A -> exec S) (P : list A -> S -> Prop) l s :
  P [] s ->
  (forall done_ s x, P done_ s -> x ∈ l -> exists s', body s x = Done s' /\ P (done_ ++ [x]) s') ->
  exists s', for_fold body s l = Done s' /\ P l s'.
Proof.
  intros H0 Hstep. cut (forall done_ s, P done_ s ->
    exists s', for_fold body s l = Done s' /\ P (done_ ++ l) s'); [intros H; by apply (H [])|].
  clear H0 s. induction l as [|x l IH]; intros done_ s Hs; simpl.
  { exists s. by rewrite app_nil_r. }
  destruct (Hstep done_ s x Hs) as (s1 & -> & Hs1); [by left|]. cbn [mbind exec_bind].
  destruct (IH (fun d s y Hp Hy => Hstep d s y Hp ltac:(by right)) _ _ Hs1) as (s2 & E & Hs2).
  exists s2. split; [done|]. by rewrite <- app_assoc in Hs2.
Qed.

Lemma elem_of_range a b x : 0 <= a -> x ∈ range a b <-> a <= x < b.
Proof.
  intros Ha. unfold range. rewrite list_elem_of_fmap. setoid_rewrite elem_of_seq. split.
  - intros (n & -> & Hn). lia.
  - intros Hx. exists (Z.to_nat x). lia.
Qed.

(** ** The tree of domains *)

(** The parent relation, on positions. *)
Definition up (ds : list SchedDomain) (c p : nat) : Prop :=
  exists d, ds !! c = Some d /\ parent d = Some (Z.of_nat p).

(** The conditions a list of domains has to meet: at most 24 domains numbered by
    their positions, the first the root, which spans every CPU; every other
    domain inside its parent and at a deeper level; and two domains that share
    a CPU are on one branch. *)
Record acceptable (ds : list SchedDomain) : Prop := mk_acceptable {
  ac_size : (0 < length ds <= MAX_SCHED_DOMAINS)%nat;
  ac_root : exists r, ds !! 0%nat = Some r /\ parent r = None /\ span r = SUPPORTED;
  ac_domain : forall i d, ds !! i = Some d -> id d = Z.of_nat i /\ is_empty (span d) = false;
  ac_parent : forall i d, ds !! i = Some d -> i <> 0%nat ->
    exists p pd, parent d = Some (Z.of_nat p) /\ ds !! p = Some pd /\
      contains_mask (span pd) (span d) = true /\ level pd < level d;
  ac_branch : forall i j di dj, ds !! i = Some di -> ds !! j = Some dj ->
    i <> 0%nat -> (i < j)%nat -> intersects (span di) (span dj) = true ->
    tc (up ds) j i \/ tc (up ds) i j
}.

(** The type of a domain: its bitmap only has supported CPUs, its level and
    parent are unsigned, its capacity is a [u64]. *)
Definition typed_domain (d : SchedDomain) : Prop :=
  supported (span d) /\ 0 <= level d /\ match parent d with Some p => 0 <= p | None => True end /\
  is_u64 (capacity d).

(** A parent number within the array. *)
Definition safe_parent (d : SchedDomain) : Prop :=
  match parent d with Some p => 0 <= p < Z.of_nat MAX_SCHED_DOMAINS | None => True end.

Section tree.
Context (ds : list SchedDomain) (Hac : acceptable ds) (Htyped : Forall typed_domain ds).

Lemma up_facts c p :
  up ds c p -> exists d pd, ds !! c = Some d /\ ds !! p = Some pd /\ level pd < level d /\
    contains_mask (span pd) (span d) = true.
Proof.
  intros (d & Hd & Hp). destruct (decide (c = 0%nat)) as [->|Hc].
  - destruct (ac_root _ Hac) as (r & Hr & Hn & _). rewrite Hd in Hr. simplify_eq.
  - destruct (ac_parent _ Hac c d Hd Hc) as (p' & pd & E & Hpd & Hs & Hl). rewrite Hp in E.
    simplify_eq. by exists d, pd.
Qed.

Lemma tc_up_facts c p :
  tc (up ds) c p -> exists d pd, ds !! c = Some d /\ ds !! p = Some pd /\ level pd < level d /\
    (forall x, contains (span d) x = true -> contains (span pd) x = true).
Proof.
  induction 1 as [c p Hup|c m p Hup Htc (d' & pd & Hd' & Hpd & Hl & Hs)].
  - destruct (up_facts c p Hup) as (d & pd & Hd & Hpd & Hl & Hs). rewrite contains_mask_iff in Hs.
    by exists d, pd.
  - destruct (up_facts c m Hup) as (d & d'' & Hd & Hd'' & Hl' & Hs'). rewrite Hd' in Hd''. simplify_eq.
    rewrite contains_mask_iff in Hs'. exists d, pd. split_and!; try done; [lia|]. auto.
Qed.

Lemma domain_supported i d : ds !! i = Some d -> supported (span d).
Proof. intros Hd. rewrite Forall_lookup in Htyped. by apply (Htyped i d). Qed.

(** Every branch ends at the root. *)
Lemma climbs_to_root i d : ds !! i = Some d -> rtc (up ds) i 0%nat.
Proof.
  remember (Z.to_nat (level d)) as n eqn:Hn. revert i d Hn.
  induction (lt_wf n) as [n _ IH]. intros i d Hn Hd. destruct (decide (i = 0%nat)) as [->|Hi]; [done|].
  destruct (ac_parent _ Hac i d Hd Hi) as (p & pd & E & Hpd & _ & Hl).
  eapply rtc_l; [by exists d|]. eapply (IH (Z.to_nat (level pd))); [|done|done].
  rewrite Forall_lookup in Htyped. destruct (Htyped p pd Hpd) as (_ & ? & _).
  destruct (Htyped i d Hd) as (_ & ? & _). lia.
Qed.

(** A climb has room left: the domains it passed are distinct. *)
Lemma climb_room (vis : list nat) p d :
  ds !! p = Some d -> NoDup vis ->
  Forall (fun v => exists vd, ds !! v = Some vd /\ level d < level vd) vis ->
  (length vis < length ds)%nat.
Proof.
  intros Hp Hnd Hvis. rewrite <- (length_seq (length ds) 0).
  apply (submseteq_length (p :: vis)). apply NoDup_submseteq.
  - constructor; [|done]. rewrite Forall_forall in Hvis. intros (vd & Hv & Hl)%Hvis.
    rewrite Hp in Hv. simplify_eq. lia.
  - intros v Hv. apply elem_of_seq. rewrite Forall_forall in Hvis.
    apply elem_of_cons in Hv as [->|(vd & Hv & _)%Hvis]; [apply lookup_lt_Some in Hp; lia|].
    apply lookup_lt_Some in Hv. lia.
Qed.

Lemma climb_extend (vis : list nat) p d pd :
  ds !! p = Some d -> level pd < level d -> NoDup vis ->
  Forall (fun v => exists vd, ds !! v = Some vd /\ level d < level vd) vis ->
  NoDup (p :: vis) /\
  Forall (fun v => exists vd, ds !! v = Some vd /\ level pd < level vd) (p :: vis).
Proof.
  intros Hp Hl Hnd Hvis. rewrite Forall_forall in Hvis. split.
  - constructor; [|done]. intros (vd & Hv & Hlv)%Hvis. rewrite Hp in Hv. simplify_eq. lia.
  - constructor; [by exists d|]. apply Forall_forall. intros v (vd & Hv & Hlv)%Hvis.
    exists vd. split; [done|lia].
Qed.

(** Two domains that share a CPU are on one branch, the root included. *)
Lemma same_branch i j di dj c :
  ds !! i = Some di -> ds !! j = Some dj -> i <> j ->
  contains (span di) c = true -> contains (span dj) c = true ->
  tc (up ds) i j \/ tc (up ds) j i.
Proof.
  intros Hi Hj Hne Hci Hcj.
  assert (intersects (span di) (span dj) = true /\ intersects (span dj) (span di) = true) as [H1 H2]
    by (split; apply intersects_iff; eauto).
  assert (forall k d, ds !! k = Some d -> k <> 0%nat -> tc (up ds) k 0%nat) as Hroot.
  { intros k d Hk Hk0. pose proof (climbs_to_root k d Hk) as Hr.
    destruct (proj1 (rtc_tc _ _) Hr) as [|]; [by simplify_eq|done]. }
  destruct (decide (i = 0%nat)) as [->|Hi0]; [right; by eapply Hroot|].
  destruct (decide (j = 0%nat)) as [->|Hj0]; [left; by eapply Hroot|].
  destruct (Nat.lt_trichotomy i j) as [Hlt|[|Hlt]]; [|done|].
  - destruct (ac_branch _ Hac i j di dj); auto.
  - destruct (ac_branch _ Hac j i dj di); auto.
Qed.

End tree.

(** ** The walks *)

Section walks.
Context (t : SchedTopology) (ds rest : list SchedDomain).
Context (Hdom : domains t = ds ++ rest) (Hlen : len t = Z.of_nat (length ds)).

Lemma index_domain i d : ds !! i = Some d -> index (domains t) (Z.of_nat i) = Done d.
Proof. intros Hi. apply index_ok. rewrite Hdom. by apply lookup_app_l_Some. Qed.

Lemma index_domain_inv i d :
  index (domains t) i = Done d -> i < len t -> exists n, i = Z.of_nat n /\ ds !! n = Some d.
Proof.
  intros (n & -> & Hn)%index_Done Hlt. exists n. split; [done|].
  rewrite Hdom, lookup_app_l in Hn by lia. done.
Qed.

Lemma ancestor_loop_sound fuel a seen p :
  ancestor_loop fuel t (Z.of_nat a) seen (Some p) = Done true ->
  p = Z.of_nat a \/ exists n, p = Z.of_nat n /\ tc (up ds) n a.
Proof.
  revert seen p. induction fuel as [|fuel IH]; intros seen p; simpl;
    (destruct (Z.eqb_spec p (Z.of_nat a)) as [|Hne]; [by left|]);
    (destruct (_ || _) eqn:E; [done|]); [done|].
  apply orb_false_iff in E as [E%Z.leb_gt _].
  destruct (index (domains t) p) as [d|] eqn:Hi; [|done]. cbn [mbind exec_bind]. intros Hloop.
  destruct (index_domain_inv p d Hi E) as (n & -> & Hn). right. exists n. split; [done|].
  destruct (parent d) as [p'|] eqn:Hp; [|by destruct fuel].
  destruct (IH _ _ Hloop) as [->|(n' & -> & Htc)].
  - apply tc_once. by exists d.
  - eapply tc_l; [by exists d|done].
Qed.

Lemma domain_is_ancestor_sound a c :
  domain_is_ancestor t (Z.of_nat a) (Z.of_nat c) = Done true -> (c < length ds)%nat ->
  tc (up ds) c a.
Proof.
  unfold domain_is_ancestor. intros H Hc.
  destruct (lookup_lt_is_Some_2 ds c Hc) as [d Hd]. rewrite (index_domain c d Hd) in H.
  cbn [mbind exec_bind] in H. destruct (parent d) as [p|] eqn:Hp; [|by destruct (Z.to_nat (len t))].
  apply ancestor_loop_sound in H as [->|(n & -> & Htc)].
  - apply tc_once. by exists d.
  - eapply tc_l; [by exists d|done].
Qed.

(** No walk leaves the array as long as no parent number does. *)
Context (Hfull : length (ds ++ rest) = MAX_SCHED_DOMAINS).
Context (Hsafe : Forall safe_parent (ds ++ rest)).

Lemma index_safe p :
  0 <= p < Z.of_nat MAX_SCHED_DOMAINS -> exists d, index (domains t) p = Done d /\ safe_parent d.
Proof.
  intros Hp. destruct (lookup_lt_is_Some_2 (ds ++ rest) (Z.to_nat p)) as [d Hd]; [lia|].
  exists d. split; [|rewrite Forall_lookup in Hsafe; by eapply Hsafe].
  rewrite <- (Z2Nat.id p) by lia. apply index_ok. by rewrite Hdom.
Qed.

Lemma len_bound : 0 <= len t <= Z.of_nat MAX_SCHED_DOMAINS.
Proof. rewrite Hlen, <- Hfull, length_app. lia. Qed.

Lemma ancestor_loop_total fuel a seen cursor :
  match cursor with Some p => 0 <= p | None => True end -> len t <= Z.of_nat fuel + seen ->
  exists b, ancestor_loop fuel t a seen cursor = Done b.
Proof.
  revert seen cursor. induction fuel as [|fuel IH]; intros seen [p|] Hp Hf; simpl; try by eexists.
  - destruct (p =? a); [by eexists|]. rewrite (proj2 (Z.leb_le (len t) seen)) by lia.
    rewrite orb_true_r. by eexists.
  - destruct (p =? a); [by eexists|]. destruct (_ || _) eqn:E; [by eexists|].
    apply orb_false_iff in E as [E%Z.leb_gt _]. pose proof len_bound.
    destruct (index_safe p) as (d & -> & Hd); [lia|]. cbn [mbind exec_bind]. apply IH; [|lia].
    unfold safe_parent in Hd. destruct (parent d); [lia|done].
Qed.

Lemma domain_is_ancestor_total a c :
  0 <= c < len t -> exists b, domain_is_ancestor t a c = Done b.
Proof.
  intros Hc. pose proof len_bound. unfold domain_is_ancestor.
  destruct (index_safe c) as (d & -> & Hd); [lia|]. cbn [mbind exec_bind].
  apply ancestor_loop_total; [|lia]. unfold safe_parent in Hd. destruct (parent d); [lia|done].
Qed.

Lemma cycle_loop_total fuel i seen cursor :
  match cursor with Some p => 0 <= p < Z.of_nat MAX_SCHED_DOMAINS | None => True end ->
  len t <= Z.of_nat fuel + seen -> exists b, cycle_loop fuel t i seen cursor = Done b.
Proof.
  revert seen cursor. induction fuel as [|fuel IH]; intros seen [p|] Hp Hf; simpl; try by eexists.
  - rewrite (proj2 (Z.leb_le (len t) seen)) by lia. rewrite orb_true_r. by eexists.
  - destruct (_ || _); [by eexists|]. destruct (index_safe p Hp) as (d & -> & Hd).
    cbn [mbind exec_bind]. apply IH; [done|lia].
Qed.

Lemma parent_check_total i : 0 <= i < len t -> exists b, parent_check t i = Done b.
Proof.
  intros Hi. pose proof len_bound. unfold parent_check.
  destruct (index_safe i) as (d & -> & Hd); [lia|]. cbn [mbind exec_bind].
  unfold safe_parent in Hd. destruct (parent d) as [p|]; [|by eexists].
  destruct (_ || _); [by eexists|]. destruct (index_safe p Hd) as (pd & -> & _). cbn [mbind exec_bind].
  destruct (negb _); [by eexists|]. destruct (_ <=? _); [by eexists|].
  apply cycle_loop_total; [done|lia].
Qed.

Lemma pair_check_total i j :
  0 <= i < len t -> 0 <= j < len t -> exists b, pair_check t i j = Done b.
Proof.
  intros Hi Hj. pose proof len_bound. unfold pair_check.
  destruct (index_safe i) as (di & -> & _); [lia|]. destruct (index_safe j) as (dj & -> & _); [lia|].
  cbn [mbind exec_bind]. destruct (negb _); [by eexists|].
  destruct (domain_is_ancestor_total i j Hj) as (b & ->). cbn [mbind exec_bind].
  destruct b; [by eexists|]. by apply domain_is_ancestor_total.
Qed.

(** In an acceptable tree the walks reach what they look for. *)

Context (Hac : acceptable ds).

Lemma ancestor_loop_complete fuel a vis p d :
  rtc (up ds) p a -> ds !! p = Some d -> NoDup vis ->
  Forall (fun v => exists vd, ds !! v = Some vd /\ level d < level vd) vis ->
  (length ds <= fuel + length vis)%nat ->
  ancestor_loop fuel t (Z.of_nat a) (Z.of_nat (length vis)) (Some (Z.of_nat p)) = Done true.
Proof.
  revert vis p d. induction fuel as [|fuel IH]; intros vis p d Hr Hp Hnd Hvis Hf;
    pose proof (climb_room ds vis p d Hp Hnd Hvis) as Hroom; [lia|].
  cbn [ancestor_loop]. destruct (Z.eqb_spec (Z.of_nat p) (Z.of_nat a)) as [|Hne]; [done|].
  pose proof (lookup_lt_Some _ _ _ Hp). rewrite !(proj2 (Z.leb_gt _ _)) by lia. simpl.
  rewrite (index_domain p d Hp). cbn [mbind exec_bind].
  destruct (rtc_inv _ _ Hr) as [->|(q & Hq & Hr')]; [done|].
  destruct (up_facts ds Hac p q Hq) as (d' & qd & Hd' & Hqd & Hl & _). rewrite Hp in Hd'. simplify_eq.
  destruct Hq as (d'' & Hd'' & Hpar). rewrite Hp in Hd''. simplify_eq. rewrite Hpar.
  destruct (climb_extend ds vis p d'' qd Hp Hl Hnd Hvis) as [Hnd' Hvis'].
  replace (Z.of_nat (length vis) + 1) with (Z.of_nat (length (p :: vis))) by (simpl; lia).
  eapply IH; [done|exact Hqd|done|done|simpl; lia].
Qed.

Lemma domain_is_ancestor_complete a c :
  tc (up ds) c a -> domain_is_ancestor t (Z.of_nat a) (Z.of_nat c) = Done true.
Proof.
  intros Htc. unfold domain_is_ancestor.
  assert (exists q, up ds c q /\ rtc (up ds) q a) as (q & Hq & Hr).
  { inversion Htc as [? ? Hu|? m ? Hu Ht]; subst; [by exists a|]. exists m. split; [done|by apply tc_rtc]. }
  destruct (up_facts ds Hac c q Hq) as (d & qd & Hd & Hqd & _ & _).
  rewrite (index_domain c d Hd). cbn [mbind exec_bind].
  destruct Hq as (d'' & Hd'' & Hpar). rewrite Hd in Hd''. simplify_eq. rewrite Hpar.
  apply (ancestor_loop_complete _ a [] q qd); [done|done|constructor|constructor|simpl; lia].
Qed.

Lemma cycle_loop_complete fuel i di vis p d :
  ds !! i = Some di -> ds !! p = Some d -> level d < level di -> NoDup vis ->
  Forall (fun v => exists vd, ds !! v = Some vd /\ level d < level vd) vis ->
  (length ds <= fuel + length vis)%nat ->
  cycle_loop fuel t (Z.of_nat i) (Z.of_nat (length vis)) (Some (Z.of_nat p)) = Done true.
Proof.
  intros Hi. revert vis p d. induction fuel as [|fuel IH]; intros vis p d Hp Hl Hnd Hvis Hf;
    pose proof (climb_room ds vis p d Hp Hnd Hvis) as Hroom; [lia|].
  cbn [cycle_loop]. assert (p <> i) by (intros ->; rewrite Hi in Hp; simplify_eq; lia).
  rewrite (proj2 (Z.eqb_neq _ _)), (proj2 (Z.leb_gt _ _)) by lia. simpl.
  rewrite (index_domain p d Hp). cbn [mbind exec_bind].
  destruct (decide (p = 0%nat)) as [->|Hp0].
  - destruct (ac_root _ Hac) as (r & Hr & Hn & _). rewrite Hp in Hr. simplify_eq. rewrite Hn. by destruct fuel.
  - destruct (ac_parent _ Hac p d Hp Hp0) as (q & qd & -> & Hqd & _ & Hlq).
    destruct (climb_extend ds vis p d qd Hp Hlq Hnd Hvis) as [Hnd' Hvis'].
    replace (Z.of_nat (length vis) + 1) with (Z.of_nat (length (p :: vis))) by (simpl; lia).
    eapply IH; [exact Hqd|lia|done|done|simpl; lia].
Qed.

Lemma parent_check_complete i : (0 < i < length ds)%nat -> parent_check t (Z.of_nat i) = Done true.
Proof.
  intros Hi. destruct (lookup_lt_is_Some_2 ds i) as [d Hd]; [lia|]. unfold parent_check.
  rewrite (index_domain i d Hd). cbn [mbind exec_bind].
  destruct (ac_parent _ Hac i d Hd ltac:(lia)) as (p & pd & -> & Hpd & Hs & Hl).
  pose proof (lookup_lt_Some _ _ _ Hpd).
  assert (p <> i) by (intros ->; rewrite Hd in Hpd; simplify_eq; lia).
  rewrite (proj2 (Z.leb_gt _ _)), (proj2 (Z.eqb_neq _ _)) by lia. simpl.
  rewrite (index_domain p pd Hpd). cbn [mbind exec_bind].
  rewrite Hs. simpl. rewrite (proj2 (Z.leb_gt _ _)) by lia.
  eapply (cycle_loop_complete _ i d [] p pd); [done|done|done|constructor|constructor|simpl; lia].
Qed.

Lemma pair_check_complete i j :
  (0 < i)%nat -> (i < j < length ds)%nat -> pair_check t (Z.of_nat i) (Z.of_nat j) = Done true.
Proof.
  intros Hi Hj. destruct (lookup_lt_is_Some_2 ds i) as [di Hdi]; [lia|].
  destruct (lookup_lt_is_Some_2 ds j) as [dj Hdj]; [lia|]. unfold pair_check.
  rewrite (index_domain i di Hdi), (index_domain j dj Hdj). cbn [mbind exec_bind].
  destruct (intersects (span di) (span dj)) eqn:E; [simpl|done].
  destruct (ac_branch _ Hac i j di dj) as [H1|H2]; [done|done|lia|lia|done| |].
  - by rewrite (domain_is_ancestor_complete i j H1).
  - destruct (domain_is_ancestor_total (Z.of_nat i) (Z.of_nat j)) as (b & ->); [lia|].
    cbn [mbind exec_bind]. destruct b; [done|]. by apply domain_is_ancestor_complete.
Qed.

(** What the two checks have verified when they pass. *)

Lemma parent_check_sound i d :
  ds !! i = Some d -> parent_check t (Z.of_nat i) = Done true ->
  exists p pd, parent d = Some (Z.of_nat p) /\ ds !! p = Some pd /\
    contains_mask (span pd) (span d) = true /\ level pd < level d.
Proof.
  intros Hd. unfold parent_check. rewrite (index_domain i d Hd). cbn [mbind exec_bind].
  destruct (parent d) as [p|]; [|done]. destruct (_ || _) eqn:E; [done|].
  apply orb_false_iff in E as [E%Z.leb_gt _].
  destruct (index (domains t) p) as [pd|] eqn:Hi; [|done]. cbn [mbind exec_bind].
  destruct (index_domain_inv p pd Hi E) as (n & -> & Hn).
  destruct (contains_mask (span pd) (span d)) eqn:Hs; [simpl|done].
  destruct (Z.leb_spec (level d) (level pd)); [done|]. intros _. by exists n, pd.
Qed.

Lemma pair_check_sound i j di dj :
  ds !! i = Some di -> ds !! j = Some dj -> pair_check t (Z.of_nat i) (Z.of_nat j) = Done true ->
  intersects (span di) (span dj) = true -> tc (up ds) j i \/ tc (up ds) i j.
Proof.
  intros Hi Hj. unfold pair_check. rewrite (index_domain i di Hi), (index_domain j dj Hj).
  cbn [mbind exec_bind]. intros H Hx. rewrite Hx in H. simpl in H.
  pose proof (lookup_lt_Some _ _ _ Hi). pose proof (lookup_lt_Some _ _ _ Hj).
  destruct (domain_is_ancestor t (Z.of_nat i) (Z.of_nat j)) as [[]|] eqn:E; [| |done]; simpl in H.
  - left. by apply domain_is_ancestor_sound.
  - right. by apply domain_is_ancestor_sound.
Qed.

End walks.

(** ** The deepest domain of a CPU *)

Lemma count_small m : supported m -> (count m <= 12)%nat.
Proof.
  intros Hm. rewrite count_members by done. unfold members.
  etransitivity; [apply length_filter|]. done.
Qed.

(** Smaller, or of the same size and at least as deep. *)
Definition no_worse (bd d : SchedDomain) : Prop :=
  (count (span bd) < count (span d))%nat \/
  (count (span bd) = count (span d) /\ level d <= level bd).

(** [best] is a domain that contains the CPU, with no smaller one among those
    looked at, and the deepest of its size. *)
Definition best_of (ds : list SchedDomain) (cpu : CpuId) (looked : Z -> Prop) (s : Z * Z * Z) : Prop :=
  exists b bd, s = (Z.of_nat b, Z.of_nat (count (span bd)), level bd) /\ ds !! b = Some bd /\
    contains (span bd) cpu = true /\
    forall i d, ds !! i = Some d -> looked (Z.of_nat i) -> contains (span d) cpu = true ->
      no_worse bd d.

Lemma best_keep ds cpu looked b bd idx d :
  ds !! b = Some bd -> contains (span bd) cpu = true -> ds !! idx = Some d ->
  (contains (span d) cpu = true -> no_worse bd d) ->
  (forall i d, ds !! i = Some d -> looked (Z.of_nat i) -> contains (span d) cpu = true ->
     no_worse bd d) ->
  best_of ds cpu (fun i => looked i \/ i = Z.of_nat idx)
    (Z.of_nat b, Z.of_nat (count (span bd)), level bd).
Proof.
  intros Hb Hc Hd Hnew Hmin. exists b, bd. split_and!; [done|done|done|].
  intros i d' Hd' [Hl|Hl] Hcd'; [by eapply Hmin|]. assert (i = idx) as -> by lia.
  rewrite Hd in Hd'. simplify_eq. auto.
Qed.

Lemma best_step_of t ds rest cpu looked s idx :
  domains t = ds ++ rest -> (idx < length ds)%nat -> best_of ds cpu looked s ->
  exists s', best_step t cpu s (Z.of_nat idx) = Done s' /\
    best_of ds cpu (fun i => looked i \/ i = Z.of_nat idx) s'.
Proof.
  intros Hdom Hi (b & bd & -> & Hb & Hc & Hmin).
  destruct (lookup_lt_is_Some_2 ds idx Hi) as [d Hd]. unfold best_step.
  rewrite (index_domain t ds rest Hdom idx d Hd). cbn [mbind exec_bind].
  destruct (contains (span d) cpu) eqn:Hcd; simpl.
  2: { eexists. split; [done|]. eapply best_keep; [done|done|done|congruence|done]. }
  destruct (_ || _) eqn:E; (eexists; split; [done|]).
  - apply orb_true_iff in E. rewrite andb_true_iff, Z.ltb_lt, Z.eqb_eq, Z.leb_le in E.
    eapply best_keep; [done|done|done|unfold no_worse; lia|].
    intros i d' Hd' Hl Hcd'. specialize (Hmin i d' Hd' Hl Hcd'). unfold no_worse in *. lia.
  - apply orb_false_iff in E. rewrite andb_false_iff, Z.ltb_ge, Z.eqb_neq, Z.leb_gt in E.
    eapply best_keep; [done|done|done|unfold no_worse; lia|done].
Qed.

Lemma range_S n : range 0 (Z.of_nat (S n)) = 0 :: range 1 (Z.of_nat (S n)).
Proof.
  unfold range. simpl. rewrite Nat.sub_0_r. replace (Pos.to_nat 1) with 1%nat by lia.
  replace (Z.to_nat (Z.of_nat (S n))) with (S n) by lia. simpl. f_equal. f_equal. f_equal. lia.
Qed.

Lemma best_domain_spec t ds rest cpu :
  domains t = ds ++ rest -> len t = Z.of_nat (length ds) -> acceptable ds -> Forall typed_domain ds ->
  exists b bd, best_domain_for_cpu t cpu = Done (Z.of_nat b) /\ ds !! b = Some bd /\
    contains (span bd) cpu = true /\
    forall i d, ds !! i = Some d -> contains (span d) cpu = true ->
      no_worse bd d.
Proof.
  intros Hdom Hlen Hac Hty. destruct (ac_root _ Hac) as (r & Hr & Hn & Hs).
  assert (exists n, length ds = S n) as [n Hn'].
  { pose proof (ac_size _ Hac). destruct (length ds) as [|n]; [lia|by exists n]. }
  unfold best_domain_for_cpu. rewrite Hlen, Hn', range_S. cbn [for_fold].
  assert (best_step t cpu (ROOT_SCHED_DOMAIN_ID, USIZE_MAX, 0) 0 =
            Done (0, Z.of_nat (count (span r)), level r)) as ->.
  { unfold best_step. change 0 with (Z.of_nat 0). rewrite (index_domain t ds rest Hdom 0 r Hr).
    cbn [mbind exec_bind]. rewrite Hs, contains_SUPPORTED. done. }
  cbn [mbind exec_bind].
  destruct (for_fold_inv (best_step t cpu)
    (fun l s => best_of ds cpu (fun i => i = 0 \/ i ∈ l) s) (range 1 (Z.of_nat (S n)))
    (0, Z.of_nat (count (span r)), level r)) as (s & -> & b & bd & -> & Hb & Hc & Hmin).
  - exists 0%nat, r. split_and!; [done|done|by rewrite Hs, contains_SUPPORTED|].
    intros i d Hd [Hi|?%not_elem_of_nil] _; [|done]. assert (i = 0%nat) as -> by lia.
    rewrite Hr in Hd. simplify_eq. unfold no_worse. lia.
  - intros l s x Hs' Hx%elem_of_range; [|lia].
    destruct (best_step_of t ds rest cpu _ s (Z.to_nat x) Hdom ltac:(lia) Hs') as (s' & E & Hs'').
    rewrite Z2Nat.id in E by lia. exists s'. split; [done|]. destruct Hs'' as (b & bd & H1 & H2 & H3 & H4).
    exists b, bd. split_and!; try done. intros i d Hd Hi. apply (H4 i d Hd).
    rewrite elem_of_app, list_elem_of_singleton in Hi. rewrite Z2Nat.id by lia. tauto.
  - exists b, bd. split_and!; [done|done|done|]. intros i d Hd Hcd. apply (Hmin i d Hd); [|done].
    pose proof (lookup_lt_Some _ _ _ Hd). rewrite elem_of_range by lia. lia.
Qed.

(** The smallest domain of a CPU is the deepest: the domains that contain the
    CPU are that one and those above it. *)
Lemma best_is_deepest ds b bd cpu :
  acceptable ds -> Forall typed_domain ds -> ds !! b = Some bd -> contains (span bd) cpu = true ->
  (forall i d, ds !! i = Some d -> contains (span d) cpu = true ->
      no_worse bd d) ->
  forall i d, ds !! i = Some d -> contains (span d) cpu = true <-> rtc (up ds) b i.
Proof.
  intros Hac Hty Hb Hc Hmin i d Hd. split.
  - intros Hcd. destruct (decide (b = i)) as [->|Hne]; [done|].
    destruct (same_branch ds Hac Hty b i bd d cpu) as [H|H]; try done; [by apply tc_rtc|exfalso].
    destruct (tc_up_facts ds Hac _ _ H) as (d1 & d2 & Hd1 & Hd2 & Hl & Hs).
    rewrite Hd in Hd1. injection Hd1 as <-. rewrite Hb in Hd2. injection Hd2 as <-.
    assert (contains_mask (span bd) (span d) = true) as Hsub by (by apply contains_mask_iff).
    destruct (count_mono (span d) (span bd)) as [Hle Heq]; [by eapply domain_supported..|done|].
    specialize (Hmin i d Hd Hcd). unfold no_worse in Hmin. lia.
  - intros Hr. apply rtc_tc in Hr as [->|H]; [by simplify_eq|].
    destruct (tc_up_facts ds Hac _ _ H) as (d1 & d2 & Hd1 & Hd2 & _ & Hs).
    rewrite Hb in Hd1. injection Hd1 as <-. rewrite Hd in Hd2. injection Hd2 as <-. auto.
Qed.

(** ** [from_domains] *)

(** What the first loop checks of the domains from position [idx] on. *)
Definition numbered (idx : nat) (input : list SchedDomain) : Prop :=
  forall i d, input !! i = Some d ->
    id d = Z.of_nat (idx + i) /\ is_empty (span d) = false /\
    ((idx + i)%nat <> 0%nat -> parent d <> None).

Lemma contains_mask_SUPPORTED m : contains_mask SUPPORTED m = true.
Proof. apply contains_mask_iff. intros c _. apply contains_SUPPORTED. Qed.

Lemma fill_loop_spec input idx done_ free :
  length done_ = idx -> (length input <= length free)%nat ->
  match fill_loop input idx (done_ ++ free) with
  | Some ds => numbered idx input /\ ds = done_ ++ input ++ drop (length input) free
  | None => ~ numbered idx input
  end.
Proof.
  revert idx done_ free. induction input as [|d input IH]; intros idx done_ free Hd Hf; simpl.
  { split; [|by rewrite drop_0]. intros i d Hi. by rewrite lookup_nil in Hi. }
  destruct free as [|x free]; simpl in Hf; [lia|]. rewrite contains_mask_SUPPORTED, orb_false_r.
  assert (<[idx := d]> (done_ ++ x :: free) = (done_ ++ [d]) ++ free) as E.
  { rewrite insert_app_r_alt by lia. rewrite Hd, Nat.sub_diag. simpl. by rewrite <- app_assoc. }
  rewrite E. specialize (IH (S idx) (done_ ++ [d]) free). rewrite length_app in IH. simpl in IH.
  destruct (Z.eqb_spec (id d) (Z.of_nat idx)) as [Hid|Hid]; simpl.
  2: { intros H. destruct (H 0%nat d) as [H0 _]; [done|]. rewrite Nat.add_0_r in H0. done. }
  destruct (is_empty (span d)) eqn:He.
  { intros H. destruct (H 0%nat d) as (_ & H0 & _); [done|]. congruence. }
  destruct (negb _ && _) eqn:Hp.
  { apply andb_prop in Hp as [Hi%negb_true_iff%Z.eqb_neq Hp%bool_decide_eq_true].
    intros H. destruct (H 0%nat d) as (_ & _ & H0); [done|]. unfold ROOT_SCHED_DOMAIN_ID in Hi. apply H0; [lia|done]. }
  specialize (IH ltac:(lia) ltac:(lia)).
  assert (numbered (S idx) input <-> numbered idx (d :: input)) as Hiff.
  { split; intros H i d' Hi.
    - destruct i as [|i]; simpl in Hi.
      + simplify_eq. rewrite Nat.add_0_r. split_and!; [done|done|]. intros Hi0.
        apply andb_false_iff in Hp as [Hp%negb_false_iff%Z.eqb_eq|Hp%bool_decide_eq_false]; [|done].
        unfold ROOT_SCHED_DOMAIN_ID in Hp. lia.
      + rewrite Nat.add_succ_r. by apply (H i d').
    - specialize (H (S i) d' Hi). by rewrite Nat.add_succ_r in H. }
  destruct (fill_loop input (S idx) ((done_ ++ [d]) ++ free)) as [ds|].
  - destruct IH as [Hn ->]. split; [by apply Hiff|]. by rewrite <- app_assoc.
  - by rewrite <- Hiff.
Qed.

(** A topology with the tree [ds]: every CPU is assigned the deepest domain that
    contains it. *)
Record has_tree (t : SchedTopology) (ds : list SchedDomain) : Prop := mk_has_tree {
  ht_acceptable : acceptable ds;
  ht_typed : Forall typed_domain ds;
  ht_domains : exists rest, domains t = ds ++ rest;
  ht_len : len t = Z.of_nat (length ds);
  ht_cpu : forall c, exists b bd, cpu_domain t !!! c = Z.of_nat b /\ ds !! b = Some bd /\
    forall i d, ds !! i = Some d -> contains (span d) c = true <-> rtc (up ds) b i
}.

Lemma assign_cpus_spec t ds rest cd :
  domains t = ds ++ rest -> len t = Z.of_nat (length ds) -> acceptable ds -> Forall typed_domain ds ->
  exists cd', for_fold (assign_cpu t) cd (iter SUPPORTED) = Done cd' /\
    has_tree (mk (domains t) (len t) cd') ds.
Proof.
  intros Hdom Hlen Hac Hty.
  destruct (for_fold_inv (assign_cpu t) (fun l cd' => forall c, c ∈ l ->
      exists b bd, cd' !!! c = Z.of_nat b /\ ds !! b = Some bd /\
        forall i d, ds !! i = Some d -> contains (span d) c = true <-> rtc (up ds) b i)
    (iter SUPPORTED) cd) as (cd' & E & Hcd).
  - by intros c ?%not_elem_of_nil.
  - intros l cd1 c Hl _. unfold assign_cpu.
    destruct (best_domain_spec t ds rest c Hdom Hlen Hac Hty) as (b & bd & -> & Hb & Hc & Hmin).
    cbn [mbind exec_bind]. eexists. split; [done|]. intros x Hx.
    destruct (decide (x = c)) as [->|Hne].
    + rewrite vlookup_insert. exists b, bd. split_and!; [done|done|].
      by apply (best_is_deepest ds b bd c Hac Hty Hb Hc Hmin).
    + rewrite vlookup_insert_ne by done. apply Hl.
      apply elem_of_app in Hx as [|Hx%list_elem_of_singleton]; done.
  - exists cd'. split; [done|]. split; simpl; try done; [by exists rest|].
    intros c. apply Hcd, elem_of_iter, contains_SUPPORTED.
Qed.

(** Once numbered, a list is acceptable when the two groups of checks pass. *)
Lemma checks_acceptable t ds rest :
  domains t = ds ++ rest -> len t = Z.of_nat (length ds) ->
  (0 < length ds <= MAX_SCHED_DOMAINS)%nat -> numbered 0 ds -> Forall typed_domain ds ->
  (exists r, ds !! 0%nat = Some r /\ root_ok r = true) ->
  (forall i, i ∈ range 1 (len t) -> parent_check t i = Done true) ->
  (forall i, i ∈ range 1 (len t) -> forall j, j ∈ range (i + 1) (len t) -> pair_check t i j = Done true) ->
  acceptable ds.
Proof.
  intros Hdom Hlen Hsize Hnum Hty (r & Hr & Hrok) Hpar Hpair. rewrite Hlen in Hpar, Hpair.
  assert (forall i (d : SchedDomain), ds !! i = Some d -> (i < length ds)%nat) as Hlt
    by (intros i d Hi; by eapply lookup_lt_Some).
  split; [done| | | |].
  - exists r. apply andb_prop in Hrok as [Hrok Hp%bool_decide_eq_true]. apply andb_prop in Hrok as [_ Hs].
    split_and!; [done|done|]. rewrite Forall_lookup in Hty. destruct (Hty 0%nat r Hr) as [Hsr _].
    apply mask_ext; [done|apply supported_SUPPORTED|]. intros c. rewrite contains_SUPPORTED.
    rewrite contains_mask_iff in Hs. apply Hs, contains_SUPPORTED.
  - intros i d Hd. by destruct (Hnum i d Hd) as (? & ? & _).
  - intros i d Hd Hi. specialize (Hlt i d Hd). eapply parent_check_sound; [done|done|done|].
    apply Hpar, elem_of_range; lia.
  - intros i j di dj Hi Hj Hi0 Hij. pose proof (Hlt j dj Hj).
    eapply pair_check_sound; [done|done|done|done|]. apply Hpair; apply elem_of_range; lia.
Qed.

Lemma acceptable_numbered ds : acceptable ds -> numbered 0 ds.
Proof.
  intros Hac i d Hd. simpl. destruct (ac_domain _ Hac i d Hd) as [Hi He]. split_and!; [done|done|].
  intros Hi0 Hn. destruct (ac_parent _ Hac i d Hd Hi0) as (p & pd & E & _). congruence.
Qed.

Lemma acceptable_root d ds : acceptable (d :: ds) -> root_ok d = true.
Proof.
  intros Hac. destruct (ac_root _ Hac) as (r & [= ->] & Hp & Hs).
  destruct (ac_domain _ Hac 0%nat r eq_refl) as [Hi _]. unfold root_ok.
  rewrite Hi, Hp, Hs, contains_mask_SUPPORTED. done.
Qed.

(** The two groups of checks on a numbered list: they never panic, and they
    pass exactly on the acceptable ones. *)
Lemma checks_spec t ds rest :
  domains t = ds ++ rest -> len t = Z.of_nat (length ds) ->
  length (ds ++ rest) = MAX_SCHED_DOMAINS -> Forall safe_parent (ds ++ rest) ->
  exists parents laminar,
    for_all (parent_check t) (range 1 (len t)) = Done parents /\
    for_all (fun left => for_all (pair_check t left) (range (left + 1) (len t))) (range 1 (len t))
      = Done laminar /\
    (acceptable ds -> parents = true /\ laminar = true) /\
    (parents = true -> forall i, i ∈ range 1 (len t) -> parent_check t i = Done true) /\
    (laminar = true -> forall i, i ∈ range 1 (len t) ->
       forall j, j ∈ range (i + 1) (len t) -> pair_check t i j = Done true).
Proof.
  intros Hdom Hlen Hfull Hsafe.
  assert (forall i j, i ∈ range 1 (len t) -> j ∈ range (i + 1) (len t) -> 1 <= i < j /\ j < len t) as Hr.
  { intros i j Hi%elem_of_range Hj%elem_of_range; lia. }
  destruct (for_all_spec (parent_check t) (range 1 (len t))) as (parents & E1 & H1).
  { intros i Hi%elem_of_range; [|lia]. eapply parent_check_total; [done..|lia]. }
  destruct (for_all_spec (fun left => for_all (pair_check t left) (range (left + 1) (len t)))
    (range 1 (len t))) as (laminar & E2 & H2).
  { intros i Hi. edestruct (for_all_spec (pair_check t i)) as (b & E & _); [|by exists b].
    intros j Hj. destruct (Hr i j Hi Hj). eapply pair_check_total; [done..|lia|lia]. }
  exists parents, laminar. split_and!; [done|done| |by apply H1|].
  - intros Hac. rewrite H1, H2. split.
    + intros i Hi%elem_of_range; [|lia]. rewrite <- (Z2Nat.id i) by lia.
      eapply parent_check_complete; [done..|lia].
    + intros i Hi. destruct (for_all_spec (pair_check t i) (range (i + 1) (len t))) as (b & E & Hb).
      { intros j Hj. destruct (Hr i j Hi Hj). eapply pair_check_total; [done..|lia|lia]. }
      rewrite E. f_equal. apply Hb. intros j Hj. destruct (Hr i j Hi Hj) as [H3 H4].
      rewrite <- (Z2Nat.id i), <- (Z2Nat.id j) by lia. eapply pair_check_complete; [done..|lia|lia].
  - intros Hl i Hi. destruct (for_all_spec (pair_check t i) (range (i + 1) (len t))) as (b & E & Hb).
    { intros j Hj. destruct (Hr i j Hi Hj). eapply pair_check_total; [done..|lia|lia]. }
    apply Hb. pose proof (proj1 H2 Hl i Hi) as E'. rewrite E in E'. by simplify_eq.
Qed.

Lemma from_domains_spec input :
  Forall typed_domain input -> Forall safe_parent input ->
  (acceptable input /\ exists t, from_domains input = Done (Ok t) /\ has_tree t input) \/
  (~ acceptable input /\ from_domains input = Done (Err EINVAL)).
Proof.
  intros Hty Hsafe. unfold from_domains. destruct input as [|r input'] eqn:Einput.
  { right. split; [|done]. intros Hac. pose proof (ac_size _ Hac). simpl in *. lia. }
  rewrite <- Einput in *. destruct (Nat.ltb_spec MAX_SCHED_DOMAINS (length input)) as [Hbig|Hsize].
  { right. split; [|done]. intros Hac. pose proof (ac_size _ Hac). lia. }
  destruct (root_ok r) eqn:Hr.
  2: { right. split; [|done]. rewrite Einput. intros Hac. apply acceptable_root in Hac. congruence. }
  pose proof (fill_loop_spec input 0 [] no_domains eq_refl) as Hfill.
  assert (length no_domains = MAX_SCHED_DOMAINS) as Hnd by apply length_replicate.
  rewrite Hnd in Hfill. specialize (Hfill Hsize). cbn [negb]. simpl app in Hfill.
  destruct (fill_loop input 0 no_domains) as [ds|].
  2: { right. split; [|done]. by intros ?%acceptable_numbered. }
  destruct Hfill as [Hnum Hds]. set (rest := drop (length input) no_domains) in *.
  set (out := mk ds (Z.of_nat (length input)) (cpu_domain bootstrap)).
  assert (length (input ++ rest) = MAX_SCHED_DOMAINS) as Hfull
    by (unfold rest; rewrite length_app, length_drop, Hnd; lia).
  destruct (checks_spec out input rest) as (parents & laminar & E1 & E2 & Hacc & Hpar & Hlam);
    [done|done|done| |].
  { apply Forall_app. split; [done|]. apply Forall_drop, Forall_replicate. done. }
  cbv zeta. rewrite E1. cbn [mbind exec_bind]. destruct parents; cbn [negb].
  2: { right. split; [|done]. intros [[=] _]%Hacc. }
  change (Z.of_nat (length input)) with (len out). rewrite E2. cbn [mbind exec_bind]. destruct laminar; cbn [negb].
  2: { right. split; [|done]. intros [_ [=]]%Hacc. }
  assert (acceptable input) as Hac.
  { eapply (checks_acceptable out input rest); try done; [|by exists r; rewrite Einput|by apply Hpar|by apply Hlam].
    rewrite Einput. simpl. rewrite Einput in Hsize. simpl in Hsize. lia. }
  left. split; [done|].
  destruct (assign_cpus_spec out input rest (cpu_domain out)) as (cd & E3 & Ht); [done..|].
  rewrite E3. cbn [mbind exec_bind]. eexists. split; [done|exact Ht].
Qed.
