(* ===== verification/TopologySelect.v ===== *)
(** * Choosing a CPU in a topology

    [choose_least_loaded] takes a CPU of least load relative to its capacity,
    the ties in turn; [select_cpu] applies it to the domain of the task's
    current CPU first; [balance_sources] climbs to the nearest domain with
    another active CPU. *)

From stdpp Require Import fin finite vector.
From S2P Require Import Prelude CpuMask Topology TopologyProofs.
Import CpuMask.CpuMask SchedDomain SchedTopology.

(** ** Loads relative to capacities *)

(** [a / b <= c / d], cross-multiplied. *)
Lemma ratio_trans a b c d e f :
  0 < b -> 0 < d -> 0 < f -> a * d <= c * b -> c * f <= e * d -> a * f <= e * b.
Proof.
  intros Hb Hd Hf H1 H2. apply (Z.mul_le_mono_pos_l _ _ d Hd).
  assert (a * d * f <= c * b * f) by (apply Z.mul_le_mono_nonneg_r; lia).
  assert (c * f * b <= e * d * b) by (apply Z.mul_le_mono_nonneg_r; lia). lia.
Qed.

Lemma mul_u128_exact a b : is_u64 a -> is_u64 b -> mul_u128 a b = a * b.
Proof. unfold mul_u128, is_u64, U128_MAX, U64_MAX. nia. Qed.

Section select.
Context (t : SchedTopology) (ds : list SchedDomain) (Ht : has_tree t ds).

Lemma domain_of_cpu c :
  exists b bd, cpu_domain t !!! c = Z.of_nat b /\ ds !! b = Some bd /\
    domain_for_cpu t c = Done (Some bd) /\ contains (span bd) c = true /\
    forall i d, ds !! i = Some d -> contains (span d) c = true <-> rtc (up ds) b i.
Proof.
  destruct (ht_cpu _ _ Ht c) as (b & bd & E & Hb & Hd). exists b, bd. split_and!; try done.
  - destruct (ht_domains _ _ Ht) as [rest Hdom]. unfold domain_for_cpu, domain. rewrite E, (ht_len _ _ Ht).
    pose proof (lookup_lt_Some _ _ _ Hb). rewrite (proj2 (Z.ltb_lt _ _)) by lia.
    by rewrite (index_domain t ds rest Hdom b bd Hb).
  - by apply (Hd b bd Hb).
Qed.

(** The capacity of a CPU, and the span of its domain. *)
Definition cap (c : CpuId) : Z := match cpu_capacity t c with Done k => k | Panic => 1 end.
Definition home (c : CpuId) : Z :=
  match domain_for_cpu t c with Done (Some d) => span d | _ => EMPTY end.

Lemma cap_spec c : cpu_capacity t c = Done (cap c) /\ 0 < cap c /\ is_u64 (cap c).
Proof.
  destruct (domain_of_cpu c) as (b & bd & _ & Hb & E & _). unfold cap, cpu_capacity. rewrite E.
  cbn [mbind exec_bind or_root]. split; [done|].
  pose proof (ht_typed _ _ Ht) as Hty. rewrite Forall_lookup in Hty.
  destruct (Hty b bd Hb) as (_ & _ & _ & Hcap). set (k := Z.max (Z.of_nat _) 1).
  assert (0 <= capacity bd / k <= capacity bd); [|unfold is_u64, U64_MAX in *; lia].
  split; [apply Z.div_pos; unfold k, is_u64 in *; lia|]. apply Z.div_le_upper_bound; unfold k, is_u64 in *; nia.
Qed.

(** ** The two passes, with loads that do not change meanwhile *)

Section stable.
Context (ld : CpuId -> Z) (Hld : forall c, is_u64 (ld c)).
Context (load_of : nat -> CpuId -> Z) (Hstable : forall n c, load_of n c = ld c).

(** [x] is at most as loaded as [y]. *)
Definition lighter (x y : CpuId) : Prop := ld x * cap y <= ld y * cap x.
Definition as_light (x y : CpuId) : Prop := ld y * cap x = ld x * cap y.

#[global] Instance as_light_dec x y : Decision (as_light x y).
Proof. unfold as_light. apply _. Defined.
#[global] Instance lighter_dec x y : Decision (lighter x y).
Proof. unfold lighter. apply _. Defined.

Lemma lighter_trans x y z : lighter x y -> lighter y z -> lighter x z.
Proof. unfold lighter. apply ratio_trans; apply cap_spec. Qed.

Record scanned (n : nat) (l : list CpuId) (s : scan) : Prop := mk_scanned {
  sc_calls : calls s = (n + length l)%nat;
  sc_empty : l = [] -> tie_count s = 0;
  sc_min : l <> [] -> exists m, m ∈ l /\ min_load s = ld m /\ min_capacity s = cap m /\
    Forall (lighter m) l /\ tie_count s = Z.of_nat (length (filter (as_light m) l))
}.

Lemma scan_step_first n s c :
  scanned n [] s -> exists s', scan_step t load_of s c = Done s' /\ scanned n [c] s'.
Proof.
  intros [Hc He _]. unfold scan_step. rewrite Hstable. destruct (cap_spec c) as (-> & _ & _).
  cbn [mbind exec_bind]. rewrite He by done. simpl. eexists. split; [done|]. split; simpl; try done.
  - simpl in Hc. lia.
  - intros _. exists c. split_and!; [by left|done|done|repeat constructor; unfold lighter; lia|].
    rewrite filter_cons, decide_True by done. done.
Qed.

Lemma scan_step_next n l s c :
  scanned n l s -> l <> [] ->
  exists s', scan_step t load_of s c = Done s' /\ scanned n (l ++ [c]) s'.
Proof.
  intros [Hc _ Hm] Hl. destruct (Hm Hl) as (m & Hin & E1 & E2 & Hmin & Htie).
  assert (l ++ [c] <> []) as Hne by (by destruct l). unfold scan_step. rewrite Hstable.
  destruct (cap_spec c) as (-> & Hpos & Hu). cbn [mbind exec_bind].
  destruct (cap_spec m) as (_ & Hpos' & Hu').
  rewrite E1, E2, !mul_u128_exact by auto.
  assert (0 < tie_count s) as Hpt.
  { rewrite Htie. destruct (filter (as_light m) l) eqn:E; [|simpl; lia]. exfalso.
    assert (m ∈ filter (as_light m) l) as H by (apply list_elem_of_filter; done).
    rewrite E in H. by apply not_elem_of_nil in H. }
  rewrite (proj2 (Z.eqb_neq _ _)) by lia. rewrite (proj2 (Z.ltb_lt 0 _)) by done. simpl.
  assert (calls s + 1 = n + length (l ++ [c]))%nat as Hcalls by (rewrite length_app; simpl; lia).
  destruct (Z.ltb_spec (ld c * cap m) (ld m * cap c)) as [Hlt|Hge]; simpl.
  - eexists. split; [done|]. split; simpl; [lia|done|]. intros _. exists c.
    rewrite filter_app, length_app, (filter_cons_True _ _ []), filter_nil by done.
    assert (filter (as_light c) l = []) as ->.
    { apply elem_of_nil_inv. intros x [Hx Hxl]%list_elem_of_filter. rewrite Forall_forall in Hmin.
      specialize (Hmin x Hxl). unfold as_light, lighter in *.
      assert (lighter m c); [|unfold lighter in *; lia].
      apply (lighter_trans m x c); unfold lighter; lia. }
    split_and!; [apply elem_of_app; right; by left|done|done| |done].
    apply Forall_app. split; [|repeat constructor; unfold lighter; lia].
    eapply Forall_impl; [exact Hmin|]. intros x. apply lighter_trans. unfold lighter. lia.
  - assert (Forall (lighter m) (l ++ [c])) as Hmin'
      by (apply Forall_app; split; [done|repeat constructor; unfold lighter; lia]).
    assert (m ∈ l ++ [c]) as Hin' by (apply elem_of_app; by left).
    destruct (Z.eqb_spec (ld c * cap m) (ld m * cap c)) as [Heq|Hneq]; simpl;
      (eexists; split; [done|]); (split; simpl; [lia|done|]); intros _; exists m;
      rewrite filter_app, length_app; (split_and!; [done|done|done|done|]).
    + rewrite (filter_cons_True _ _ []), filter_nil by done. simpl. lia.
    + rewrite (filter_cons_False _ _ []), filter_nil by done. simpl. lia.
Qed.

Lemma scan_spec n l :
  exists s, for_fold (scan_step t load_of) (mk_scan n USIZE_MAX 1 0) l = Done s /\ scanned n l s.
Proof.
  apply (for_fold_inv _ (scanned n)).
  - split; simpl; [lia|done|done].
  - intros l' s x Hs _. destruct l' as [|y l']; [by apply scan_step_first|by apply scan_step_next].
Qed.

Lemma pick_loop_spec s m n rank target l :
  min_load s = ld m -> min_capacity s = cap m -> 0 <= rank <= target ->
  exists n', pick_loop t load_of s n rank target l =
    Done (filter (as_light m) l !! Z.to_nat (target - rank), n').
Proof.
  intros E1 E2. revert n rank. induction l as [|c l IH]; intros n rank Hr; simpl; [by eexists|].
  rewrite Hstable. destruct (cap_spec c) as (-> & _ & Hu). cbn [mbind exec_bind].
  destruct (cap_spec m) as (_ & _ & Hu'). rewrite E1, E2, !mul_u128_exact by auto.
  destruct (Z.eqb_spec (ld c * cap m) (ld m * cap c)) as [Heq|Hne].
  - rewrite filter_cons_True by done. destruct (Z.eqb_spec rank target) as [->|Hrt].
    + rewrite Z.sub_diag. by eexists.
    + destruct (IH (S n) (rank + 1)) as (n' & ->); [lia|]. exists n'. f_equal. f_equal.
      replace (Z.to_nat (target - rank)) with (S (Z.to_nat (target - (rank + 1)))) by lia. done.
  - rewrite filter_cons_False by done. by apply IH.
Qed.

(** The CPUs of [mask] that no CPU of it is less loaded than. *)
Definition lightest (l : list CpuId) : list CpuId := filter (fun c => Forall (lighter c) l) l.
Definition candidates (mask : Z) : list CpuId := lightest (iter mask).

(** The candidate whose turn it is. *)
Definition turn (round_robin : Z) (mask : Z) : nat :=
  if (1 <? length (candidates mask))%nat
  then Z.to_nat (round_robin mod Z.of_nat (length (candidates mask))) else 0.

Lemma elem_of_lightest l c : c ∈ lightest l <-> Forall (lighter c) l /\ c ∈ l.
Proof. unfold lightest. by rewrite list_elem_of_filter. Qed.

Lemma lightest_as_light l m :
  m ∈ l -> Forall (lighter m) l -> filter (as_light m) l = lightest l.
Proof.
  intros Hin Hmin. apply filter_ext_elem. intros c Hc. split.
  - intros Heq. eapply Forall_impl; [exact Hmin|]. intros x. apply lighter_trans.
    unfold as_light, lighter in *. lia.
  - intros Hall. rewrite Forall_forall in Hall, Hmin. specialize (Hall m Hin). specialize (Hmin c Hc).
    unfold as_light, lighter in *. lia.
Qed.

Lemma choose_stable mask n round_robin :
  0 <= round_robin -> iter mask <> [] ->
  exists c n' round_robin',
    choose_least_loaded t mask load_of n round_robin = Done (Some c, n', round_robin') /\
    candidates mask !! turn round_robin mask = Some c.
Proof.
  intros Hrr Hne. unfold choose_least_loaded.
  destruct (scan_spec n (iter mask)) as (s & -> & [Hc _ Hm]). cbn [mbind exec_bind].
  destruct (Hm Hne) as (m & Hin & E1 & E2 & Hmin & Htie).
  pose proof (lightest_as_light (iter mask) m Hin Hmin) as Hcand. change (lightest (iter mask)) with (candidates mask) in Hcand. rewrite Hcand in Htie.
  assert (m ∈ candidates mask) as Hmc by (apply elem_of_lightest; done).
  assert (0 < length (candidates mask))%nat as Hpos
    by (destruct (candidates mask); [by apply not_elem_of_nil in Hmc|simpl; lia]).
  rewrite (proj2 (Z.eqb_neq _ _)) by lia.
  assert (exists target rr', (if 1 <? tie_count s
    then (round_robin mod tie_count s, wrapping_add round_robin 1) else (0, round_robin)) = (target, rr') /\
    0 <= target /\ Z.to_nat target = turn round_robin mask /\ (turn round_robin mask < length (candidates mask))%nat)
    as (target & rr' & -> & Ht0 & Hturn & Hlt).
  { unfold turn. rewrite Htie. destruct (Z.ltb_spec 1 (Z.of_nat (length (candidates mask)))).
    - pose proof (Z.mod_pos_bound round_robin (Z.of_nat (length (candidates mask))) ltac:(lia)).
      rewrite (proj2 (Nat.ltb_lt _ _)) by lia. eexists _, _. split_and!; [done|lia|done|lia].
    - rewrite (proj2 (Nat.ltb_ge _ _)) by lia. by eexists _, _. }
  destruct (pick_loop_spec s m (calls s) 0 target (iter mask) E1 E2 ltac:(lia)) as (n' & ->).
  cbn [mbind exec_bind]. rewrite Hcand, Z.sub_0_r, Hturn.
  destruct (lookup_lt_is_Some_2 _ _ Hlt) as [c Hcc]. rewrite Hcc. by eexists c, n', rr'.
Qed.

End stable.

(** ** With loads that may change *)

Lemma scan_total load_of n l :
  exists s, for_fold (scan_step t load_of) (mk_scan n USIZE_MAX 1 0) l = Done s /\
    (tie_count s = 0 <-> l = []) /\ 0 <= tie_count s.
Proof.
  apply (for_fold_inv _ (fun l s => (tie_count s = 0 <-> l = []) /\ 0 <= tie_count s)); [done|].
  intros l' s x [Hs Hp] _. unfold scan_step. destruct (cap_spec x) as (-> & _ & _). cbn [mbind exec_bind].
  assert (l' ++ [x] <> []) by (by destruct l').
  destruct (Z.eqb_spec (tie_count s) 0) as [E|E]; simpl; [by eexists|].
  destruct (_ <? _); simpl; [by eexists|]. destruct (_ && _); eexists; (split; [done|]); simpl; split; try lia;
    split; (lia || done).
Qed.

Lemma pick_loop_total load_of s n rank target l :
  exists r n', pick_loop t load_of s n rank target l = Done (r, n') /\ forall c, r = Some c -> c ∈ l.
Proof.
  revert n rank. induction l as [|c l IH]; intros n rank; simpl; [by eexists _, _|].
  destruct (cap_spec c) as (-> & _ & _). cbn [mbind exec_bind].
  destruct (_ =? _); [destruct (rank =? target)|].
  - eexists _, _. split; [done|]. intros x [= ->]. by left.
  - destruct (IH (S n) (rank + 1)) as (r & n' & -> & H). eexists _, _. split; [done|]. intros x Hx. right. auto.
  - destruct (IH (S n) rank) as (r & n' & -> & H). eexists _, _. split; [done|]. intros x Hx. right. auto.
Qed.

Lemma choose_total mask load_of n round_robin :
  exists r n' round_robin',
    choose_least_loaded t mask load_of n round_robin = Done (r, n', round_robin') /\
    (iter mask = [] -> r = None /\ n' = n /\ round_robin' = round_robin) /\
    (iter mask <> [] -> exists c, r = Some c /\ contains mask c = true).
Proof.
  unfold choose_least_loaded. destruct (iter mask) as [|c0 l] eqn:El.
  { simpl. eexists _, _, _. split; [done|]. split; [done|]. by intros ?. }
  rewrite <- El. destruct (scan_total load_of n (iter mask)) as (s & -> & Hs & _).
  cbn [mbind exec_bind]. rewrite (proj2 (Z.eqb_neq _ _)) by (rewrite Hs, El; done).
  destruct (if 1 <? tie_count s then _ else _) as [target rr'].
  destruct (pick_loop_total load_of s (calls s) 0 target (iter mask)) as (r & n' & -> & Hr).
  cbn [mbind exec_bind]. destruct r as [c|].
  - eexists _, _, _. split; [done|]. split; [by rewrite El|]. intros _. exists c. split; [done|].
    apply elem_of_iter, Hr. done.
  - eexists _, _, _. split; [done|]. split; [by rewrite El|]. intros _. exists c0.
    rewrite first_head, El. split; [done|]. apply elem_of_iter. rewrite El. by left.
Qed.

(** The set of CPUs [select_cpu] chooses from: the eligible CPUs of the current
    CPU's domain if there are any. *)
Definition pool (eligible : Z) (current : option CpuId) : Z :=
  match current with
  | Some c => let local := intersection (home c) eligible in
              if is_empty local then eligible else local
  | None => eligible
  end.

(** [select_cpu] past its two early returns is one choice from the pool. *)
Lemma select_cpu_pool allowed active eligible current prefer load_of round_robin :
  eligible = intersection allowed active -> is_empty eligible = false ->
  match current with Some c => prefer && contains eligible c | None => false end = false ->
  select_cpu t allowed active current prefer load_of round_robin =
    ('(chosen, _, round_robin) ← choose_least_loaded t (pool eligible current) load_of 0 round_robin;
     Done (chosen, round_robin)).
Proof.
  intros -> He Hk. unfold select_cpu, pool. cbv zeta. rewrite He, Hk.
  set (eligible := intersection allowed active) in *. clearbody eligible.
  destruct current as [c|]; [|generalize (choose_least_loaded t); intros choose; abstract done].
  unfold home. destruct (domain_of_cpu c) as (b & bd & _ & _ & E & _). rewrite E.
  pose proof (iter_empty (intersection (span bd) eligible) (supported_intersection _ _)) as Hie.
  pose proof (choose_total (intersection (span bd) eligible) load_of 0 round_robin) as Hc.
  revert Hc. generalize (choose_least_loaded t). intros choose Hc. abstract (
    destruct Hc as (r & n' & rr' & Ec & Hnil & Hcons);
    cbn [mbind exec_bind]; destruct (is_empty (intersection (span bd) eligible)); rewrite Ec; simpl;
      [by destruct Hnil as (-> & -> & ->); [apply Hie|]|];
    destruct Hcons as (x & -> & _); [intros Hi%Hie; congruence|done]).
Qed.

Lemma choose_from mask load_of round_robin :
  0 <= round_robin -> iter mask <> [] ->
  exists c n round_robin',
    choose_least_loaded t mask load_of 0 round_robin = Done (Some c, n, round_robin') /\
    contains mask c = true /\
    forall ld, (forall n x, load_of n x = ld x /\ is_u64 (ld x)) ->
      candidates ld mask !! turn ld round_robin mask = Some c /\
      forall x, contains mask x = true -> ld c * cap x <= ld x * cap c.
Proof.
  intros Hrr Hne. destruct (choose_total mask load_of 0 round_robin) as (r & n & rr' & E & _ & Hc).
  destruct (Hc Hne) as (c & -> & Hin). exists c, n, rr'. split_and!; [done|done|]. intros ld Hld.
  destruct (choose_stable ld (fun x => proj2 (Hld 0%nat x)) load_of (fun n x => proj1 (Hld n x))
    mask 0 round_robin Hrr Hne) as (c' & n2 & rr2 & E' & Hcand).
  assert (c' = c) as -> by congruence. split; [done|]. intros x Hx%elem_of_iter.
  apply list_elem_of_lookup_2, elem_of_lightest in Hcand as [Hall _].
  rewrite Forall_forall in Hall. exact (Hall x Hx).
Qed.

Lemma pool_eligible eligible current c :
  contains (pool eligible current) c = true -> contains eligible c = true.
Proof.
  unfold pool. destruct current as [d|]; [|done]. destruct (is_empty _); [done|].
  rewrite contains_intersection. by intros [_ ?]%andb_prop.
Qed.

Lemma pool_nonempty eligible current :
  supported eligible -> is_empty eligible = false -> iter (pool eligible current) <> [].
Proof.
  intros Hs He. assert (supported (pool eligible current) /\ is_empty (pool eligible current) = false) as [H1 H2].
  { unfold pool. destruct current as [d|]; [|done]. destruct (is_empty (intersection _ _)) eqn:E; [done|].
    split; [apply supported_intersection|done]. }
  intros E%iter_empty; [|done]. congruence.
Qed.

(** ** Balancing *)

Definition sources (d : SchedDomain) (active : Z) (c : CpuId) : Z :=
  without (intersection (span d) active) c.

(** Going from [p] up to [q]: the domains of the CPU deeper than [q] are those
    deeper than [p], and [p]. *)
Lemma between_levels p q d qd j jd c :
  ds !! p = Some d -> ds !! j = Some jd -> up ds p q -> ds !! q = Some qd ->
  contains (span d) c = true -> contains (span jd) c = true -> level qd < level jd ->
  j = p \/ level d < level jd.
Proof.
  intros Hp Hj Hup Hq Hc Hcj Hl. pose proof (ht_acceptable _ _ Ht) as Hac.
  destruct (decide (j = p)) as [|Hne]; [by left|right].
  destruct (same_branch ds Hac (ht_typed _ _ Ht) j p jd d c) as [H|H]; try done.
  - destruct (tc_up_facts ds Hac _ _ H) as (d1 & d2 & Hd1 & Hd2 & Hlt & _). simplify_eq. lia.
  - exfalso. assert (q = j \/ tc (up ds) q j) as [->|H'].
    { inversion H as [? ? Hu|? m ? Hu Hm]; subst; destruct Hup as (d1 & Hd1 & Hp1), Hu as (d2 & Hd2 & Hp2);
        rewrite Hd1 in Hd2; injection Hd2 as <-; rewrite Hp1 in Hp2; injection Hp2 as Hp2%Nat2Z.inj;
        subst; auto. }
    + simplify_eq. lia.
    + destruct (tc_up_facts ds Hac _ _ H') as (d1 & d2 & Hd1 & Hd2 & Hlt & _). simplify_eq. lia.
Qed.

Lemma balance_loop_spec fuel vis p d c active :
  ds !! p = Some d -> contains (span d) c = true -> NoDup vis ->
  Forall (fun v => exists vd, ds !! v = Some vd /\ level d < level vd) vis ->
  (length ds <= fuel + length vis)%nat ->
  (forall j jd, ds !! j = Some jd -> contains (span jd) c = true -> level d < level jd ->
     is_empty (sources jd active c) = true) ->
  exists k kd, balance_loop fuel t c active (Z.of_nat p) = Done (sources kd active c) /\
    ds !! k = Some kd /\ contains (span kd) c = true /\
    (is_empty (sources kd active c) = true -> k = 0%nat) /\
    (forall j jd, ds !! j = Some jd -> contains (span jd) c = true -> level kd < level jd ->
       is_empty (sources jd active c) = true).
Proof.
  pose proof (ht_acceptable _ _ Ht) as Hac. destruct (ht_domains _ _ Ht) as [rest Hdom].
  revert vis p d. induction fuel as [|fuel IH]; intros vis p d Hp Hc Hnd Hvis Hf Hbelow;
    pose proof (climb_room ds vis p d Hp Hnd Hvis) as Hroom; [lia|].
  pose proof (lookup_lt_Some _ _ _ Hp) as Hlt.
  cbn [balance_loop]. unfold domain at 1. rewrite (ht_len _ _ Ht), (proj2 (Z.ltb_lt _ _)) by lia.
  rewrite (index_domain t ds rest Hdom p d Hp). cbn [mbind exec_bind or_root]. fold (sources d active c).
  destruct (ac_domain _ Hac p d Hp) as [-> _]. unfold ROOT_SCHED_DOMAIN_ID.
  destruct (is_empty (sources d active c)) eqn:He; simpl.
  2: { exists p, d. split_and!; [done|done|done|congruence|done]. }
  destruct (Z.eqb_spec (Z.of_nat p) 0) as [Hp0|Hp0].
  { exists p, d. split_and!; [done|done|done|lia|done]. }
  destruct (ac_parent _ Hac p d Hp ltac:(lia)) as (q & qd & Hpar & Hq & Hs & Hlq). rewrite Hpar. simpl.
  destruct (climb_extend ds vis p d qd Hp Hlq Hnd Hvis) as [Hnd' Hvis'].
  rewrite contains_mask_iff in Hs.
  apply (IH (p :: vis) q qd); [done|by apply Hs|done|done|simpl; lia|].
  intros j jd Hj Hcj Hlj. assert (up ds p q) as Hup by (by exists d).
  destruct (between_levels p q d qd j jd c) as [->|]; try done; [congruence|by eapply Hbelow].
Qed.

Lemma balance_sources_spec c active :
  exists k kd, balance_sources t c active = Done (sources kd active c) /\
    ds !! k = Some kd /\ contains (span kd) c = true /\
    (is_empty (sources kd active c) = true -> k = 0%nat) /\
    (forall j jd, ds !! j = Some jd -> contains (span jd) c = true -> level kd < level jd ->
       is_empty (sources jd active c) = true).
Proof.
  pose proof (ht_acceptable _ _ Ht) as Hac. unfold balance_sources.
  destruct (domain_of_cpu c) as (b & bd & -> & Hb & _ & Hc & Hdeep).
  eapply (balance_loop_spec _ [] b bd); [done|done|apply NoDup_nil_2|apply Forall_nil_2|pose proof (ac_size _ Hac); cbn [length]; lia|].
  intros j jd Hj Hcj Hl. exfalso. apply (Hdeep j jd Hj) in Hcj.
  apply rtc_tc in Hcj as [->|H]; [simplify_eq; lia|].
  destruct (tc_up_facts ds Hac _ _ H) as (d1 & d2 & Hd1 & Hd2 & Hlt & _). simplify_eq. lia.
Qed.

End select.
