(* ===== verification/TopologyProps.v ===== *)
(** * Properties of scheduling topologies

    Stated for every topology a constructor of [SchedTopology] returns. *)

From stdpp Require Import fin finite vector.
From S2P Require Import Prelude CpuMask Topology TopologyProofs TopologySelect.
Import CpuMask.CpuMask SchedDomain SchedTopology.

Inductive constructed : SchedTopology -> Prop :=
  | constructed_bootstrap : constructed bootstrap
  | constructed_cpu_domains : constructed with_cpu_domains
  | constructed_from_domains input t :
      Forall typed_domain input -> Forall safe_parent input ->
      from_domains input = Done (Ok t) -> constructed t.

Definition cpu_leaf (c : CpuId) : SchedDomain :=
  SchedDomain.mk (cpu_get c + 1) (single c) 1 (Some 0) SCHED_CAPACITY_SCALE.

Lemma root_typed : typed_domain SchedDomain.root /\ safe_parent SchedDomain.root.
Proof. by vm_compute. Qed.

Lemma leaf_typed c : typed_domain (cpu_leaf c) /\ safe_parent (cpu_leaf c).
Proof.
  split; [|by vm_compute]. split_and!; simpl; [apply supported_single|lia|done|].
  by vm_compute.
Qed.

Lemma bootstrap_from_domains : from_domains [SchedDomain.root] = Done (Ok bootstrap).
Proof. by vm_compute. Qed.

Lemma cpu_domains_from_domains :
  from_domains (SchedDomain.root :: map cpu_leaf (enum CpuId)) = Done (Ok with_cpu_domains).
Proof. by vm_compute. Qed.

Lemma from_domains_tree input t :
  Forall typed_domain input -> Forall safe_parent input -> from_domains input = Done (Ok t) ->
  has_tree t input.
Proof.
  intros Hty Hsafe E. destruct (from_domains_spec input Hty Hsafe) as [(_ & t' & E' & Ht)|(_ & E')];
    rewrite E in E'; by simplify_eq.
Qed.

Lemma constructed_tree t : constructed t -> exists ds, has_tree t ds.
Proof.
  destruct root_typed as [R1 R2]. destruct 1 as [| |input t Hty Hsafe E].
  - eexists. eapply from_domains_tree; [| |apply bootstrap_from_domains]; by repeat constructor.
  - eexists. eapply from_domains_tree; [| |apply cpu_domains_from_domains];
      (apply Forall_cons; split; [done|]); apply Forall_fmap, Forall_true; intros c; apply leaf_typed.
  - eexists. by eapply from_domains_tree.
Qed.

Lemma capacity_sum t ds cpus :
  has_tree t ds ->
  capacity_of t cpus =
    Done (Z.min U64_MAX (foldr (fun c acc => cap t c + acc) 0 (iter (intersection cpus SUPPORTED)))).
Proof.
  intros Ht. unfold capacity_of. generalize (iter (intersection cpus SUPPORTED)). intros l.
  assert (forall l, 0 <= foldr (fun c acc => cap t c + acc) 0 l) as Hpos.
  { induction l0 as [|c l0 IH]; simpl; [done|]. destruct (cap_spec t ds Ht c) as (_ & ? & _). lia. }
  cut (forall a, 0 <= a -> for_fold (fun acc cpu => c ← cpu_capacity t cpu; Done (saturating_add acc c))
    (Z.min U64_MAX a) l = Done (Z.min U64_MAX (a + foldr (fun c acc => cap t c + acc) 0 l))).
  { intros H. specialize (H 0). rewrite Z.add_0_l in H. apply H. done. }
  induction l as [|c l IH]; intros a Ha; cbn [for_fold foldr]; [by rewrite Z.add_0_r|].
  destruct (cap_spec t ds Ht c) as (-> & Hp & _). cbn [mbind exec_bind].
  replace (saturating_add (Z.min U64_MAX a) (cap t c)) with (Z.min U64_MAX (a + cap t c))
    by (unfold saturating_add; lia).
  rewrite IH by lia. by rewrite Z.add_assoc.
Qed.

(** ** Properties *)

(** [from_domains] accepts exactly the lists that describe a tree of nested
    domains: it returns the topology with that tree, or [EINVAL] and the list
    is not acceptable.  It does not panic as long as no parent number is beyond
    the array of domains. *)
Theorem topology_accepts_exactly input :
  Forall typed_domain input -> Forall safe_parent input ->
  match from_domains input with
  | Done (Ok t) => acceptable input /\ has_tree t input
  | Done (Err e) => e = EINVAL /\ ~ acceptable input
  | Panic => False
  end.
Proof.
  intros Hty Hsafe. destruct (from_domains_spec input Hty Hsafe) as [(Hac & t & -> & Ht)|(Hac & ->)]; done.
Qed.

(** Two clusters of two CPUs, one of them split again. *)
Definition ex_domains : list SchedDomain :=
  [SchedDomain.root; SchedDomain.mk 1 3 1 (Some 0) 2048; SchedDomain.mk 2 12 1 (Some 0) 1024;
   SchedDomain.mk 3 4 2 (Some 2) 512].

Lemma ex_domains_typed : Forall typed_domain ex_domains /\ Forall safe_parent ex_domains.
Proof.
  split; repeat (apply Forall_cons; split; [by vm_compute|]); by apply Forall_nil_2.
Qed.

Lemma topology_accepts_exactly_witness :
  match from_domains ex_domains with Done (Ok t) => vec_to_list (cpu_domain t) | _ => [] end =
    [1; 1; 3; 2; 0; 0; 0; 0; 0; 0; 0; 0] /\
  match from_domains ex_domains with
  | Done (Ok t) => acceptable ex_domains /\ has_tree t ex_domains
  | Done (Err e) => e = EINVAL /\ ~ acceptable ex_domains
  | Panic => False
  end.
Proof.
  split; [by vm_compute|].
  apply (topology_accepts_exactly ex_domains); [exact (proj1 ex_domains_typed)|exact (proj2 ex_domains_typed)].
Defined.


(** In every topology each CPU has its deepest domain: a domain of the tree
    that contains the CPU and lies inside every other one that does.  The
    capacity of a CPU is that domain's share for one CPU, and [capacity_of]
    adds the capacities of its CPUs, saturating. *)
Theorem topology_cpu_domain_deepest t :
  constructed t ->
  exists ds, has_tree t ds /\
    (forall cpus, capacity_of t cpus =
      Done (Z.min U64_MAX (foldr (fun c acc => cap t c + acc) 0 (iter (intersection cpus SUPPORTED))))) /\
    forall c, exists bd, bd ∈ ds /\ domain_for_cpu t c = Done (Some bd) /\ contains (span bd) c = true /\
    (forall d, d ∈ ds -> contains (span d) c = true ->
       contains_mask (span d) (span bd) = true /\ level d <= level bd) /\
    cpu_capacity t c = Done (Z.max (capacity bd / Z.of_nat (count (span bd))) 1).
Proof.
  intros (ds & Ht)%constructed_tree. exists ds.
  split; [done|]. split; [intros cpus; by eapply capacity_sum|]. intros c.
  destruct (domain_of_cpu t ds Ht c) as (b & bd & _ & Hb & E & Hc & Hdeep).
  pose proof (ht_acceptable _ _ Ht) as Hac. exists bd. split_and!; [by eapply list_elem_of_lookup_2|done|done| |].
  - intros d (i & Hi)%list_elem_of_lookup Hd. apply (Hdeep i d Hi) in Hd.
    apply rtc_tc in Hd as [->|H]; [simplify_eq; split; [by apply contains_mask_iff|done]|].
    destruct (tc_up_facts ds Hac _ _ H) as (d1 & d2 & Hd1 & Hd2 & Hl & Hs). simplify_eq.
    split; [by apply contains_mask_iff|lia].
  - unfold cpu_capacity. rewrite E. cbn [mbind exec_bind or_root]. do 2 f_equal. f_equal.
    assert (0 < count (span bd))%nat; [|lia].
    pose proof (domain_supported ds (ht_typed _ _ Ht) b bd Hb) as Hs. rewrite count_members by done.
    apply elem_of_iter in Hc. rewrite iter_members in Hc.
    destruct (members (span bd)); [by apply not_elem_of_nil in Hc|simpl; lia].
Qed.

Lemma topology_cpu_domain_deepest_witness :
  exists ds, has_tree with_cpu_domains ds /\
    (forall cpus, capacity_of with_cpu_domains cpus =
      Done (Z.min U64_MAX (foldr (fun c acc => cap with_cpu_domains c + acc) 0
                             (iter (intersection cpus SUPPORTED))))) /\
    forall c, exists bd, bd ∈ ds /\ domain_for_cpu with_cpu_domains c = Done (Some bd) /\ contains (span bd) c = true /\
    (forall d, d ∈ ds -> contains (span d) c = true ->
       contains_mask (span d) (span bd) = true /\ level d <= level bd) /\
    cpu_capacity with_cpu_domains c = Done (Z.max (capacity bd / Z.of_nat (count (span bd))) 1).
Proof. apply (topology_cpu_domain_deepest with_cpu_domains). constructor. Defined.

(** [select_cpu] finds a CPU exactly when an allowed CPU is active, whatever
    the loads do meanwhile.  It keeps the current CPU when asked to and when it
    is eligible; otherwise it chooses among the eligible CPUs of the current
    CPU's domain, or among all eligible ones when that domain has none.  When
    the loads do not change during the call, the CPU chosen is the one whose
    turn it is among those with the least load relative to their capacity. *)
Theorem topology_select_cpu t allowed active current prefer load_of round_robin :
  constructed t -> 0 <= round_robin ->
  let eligible := intersection allowed active in
  exists r round_robin',
    select_cpu t allowed active current prefer load_of round_robin = Done (r, round_robin') /\
    if is_empty eligible then r = None
    else if match current with Some c => prefer && contains eligible c | None => false end
    then r = current
    else exists c, r = Some c /\ contains (pool t eligible current) c = true /\
      contains allowed c = true /\ contains active c = true /\
      forall ld, (forall n x, load_of n x = ld x /\ is_u64 (ld x)) ->
        candidates t ld (pool t eligible current) !! turn t ld round_robin (pool t eligible current)
          = Some c /\
        forall x, contains (pool t eligible current) x = true -> ld c * cap t x <= ld x * cap t c.
Proof.
  intros (ds & Ht)%constructed_tree Hrr eligible.
  destruct (is_empty eligible) eqn:He.
  { exists None, round_robin. split; [|done]. unfold select_cpu. fold eligible. by rewrite He. }
  destruct (match current with Some c => prefer && contains eligible c | None => false end) eqn:Hk.
  { exists current, round_robin. split; [|done]. unfold select_cpu. fold eligible. by rewrite He, Hk. }
  rewrite (select_cpu_pool t ds Ht allowed active eligible current prefer load_of round_robin) by done.
  assert (iter (pool t eligible current) <> []) as Hne
    by (apply pool_nonempty; [apply supported_intersection|done]).
  destruct (choose_from t ds Ht (pool t eligible current) load_of round_robin Hrr Hne)
    as (c & n & rr' & E & Hin & Hld).
  exists (Some c), rr'. split; [by rewrite E|]. exists c. pose proof (pool_eligible _ _ _ _ Hin) as Hel.
  unfold eligible in Hel. rewrite contains_intersection in Hel. by apply andb_prop in Hel as [H1 H2].
Qed.

(** CPU 2 was active on CPU 0; of CPUs 1 to 3, CPUs 1 and 3 are idle. *)
Lemma topology_select_cpu_witness :
  let load (n : nat) (c : CpuId) := if cpu_get c =? 2 then 500 else 0 in
  let ld c := load 0%nat c in
  exists r round_robin',
    select_cpu with_cpu_domains 14 4095 (Some cpu_boot) true load 1 = Done (r, round_robin') /\
    (cpu_get <$> r) = Some 3 /\
    exists c, r = Some c /\
      forall x, contains (pool with_cpu_domains (intersection 14 4095) (Some cpu_boot)) x = true ->
        ld c * cap with_cpu_domains x <= ld x * cap with_cpu_domains c.
Proof.
  intros load ld.
  destruct (topology_select_cpu with_cpu_domains 14 4095 (Some cpu_boot) true load 1)
    as (r & rr & E & H); [constructor|lia|].
  exists r, rr. split; [exact E|]. split.
  - assert (select_cpu with_cpu_domains 14 4095 (Some cpu_boot) true load 1 =
              Done (cpu_new 3, 2)) as E2 by (by vm_compute).
    rewrite E in E2. injection E2 as -> _. reflexivity.
  - change (is_empty (intersection 14 4095)) with false in H.
    change (true && contains (intersection 14 4095) cpu_boot) with false in H.
    destruct H as (c & -> & _ & _ & _ & Hld). exists c. split; [reflexivity|].
    apply (Hld ld). intros n x. split; [reflexivity|]. unfold ld, load, is_u64, U64_MAX.
    destruct (cpu_get x =? 2); lia.
Defined.

(** [balance_sources] returns the other active CPUs of the nearest domain
    around the CPU that has any: none of the deeper domains around it has
    another active CPU, and the result is empty only if no other CPU is
    active.  The climb ends at the root. *)
Theorem topology_balance_nearest t c active :
  constructed t ->
  exists ds kd s,
    has_tree t ds /\ kd ∈ ds /\ contains (span kd) c = true /\
    balance_sources t c active = Done s /\
    (forall x, contains s x = contains (span kd) x && contains active x && bool_decide (c <> x)) /\
    (forall jd x, jd ∈ ds -> contains (span jd) c = true -> level kd < level jd ->
       contains (span jd) x = true -> contains active x = true -> x = c) /\
    (is_empty s = true -> forall x, contains active x = true -> x = c).
Proof.
  intros (ds & Ht)%constructed_tree. pose proof (ht_acceptable _ _ Ht) as Hac.
  destruct (balance_sources_spec t ds Ht c active) as (k & kd & E & Hk & Hc & Hroot & Hdeep).
  assert (forall d x, is_empty (sources d active c) = true ->
            contains (span d) x = true -> contains active x = true -> x = c) as Hempty.
  { intros d x He Hd Ha. unfold sources in He.
    rewrite (is_empty_iff _ (supported_without _ _)) in He. specialize (He x). rewrite contains_without, contains_intersection, Hd, Ha in He.
    apply bool_decide_eq_false in He. symmetry. by apply dec_stable. }
  exists ds, kd, (sources kd active c). split_and!; try done; [by eapply list_elem_of_lookup_2| | |].
  - intros x. unfold sources. by rewrite contains_without, contains_intersection.
  - intros jd x (j & Hj)%list_elem_of_lookup Hcj Hl. apply Hempty. by eapply Hdeep.
  - intros He x Ha. destruct (ac_root _ Hac) as (r & Hr & _ & Hs). rewrite (Hroot He) in Hk.
    simplify_eq. eapply Hempty; [done| |done]. rewrite Hs. apply contains_SUPPORTED.
Qed.

Lemma topology_balance_nearest_witness :
  balance_sources with_cpu_domains cpu_boot 7 = Done 6 /\
  exists ds kd s,
    has_tree with_cpu_domains ds /\ kd ∈ ds /\ contains (span kd) cpu_boot = true /\
    balance_sources with_cpu_domains cpu_boot 7 = Done s /\
    (forall x, contains s x = contains (span kd) x && contains 7 x && bool_decide (cpu_boot <> x)) /\
    (forall jd x, jd ∈ ds -> contains (span jd) cpu_boot = true -> level kd < level jd ->
       contains (span jd) x = true -> contains 7 x = true -> x = cpu_boot) /\
    (is_empty s = true -> forall x, contains 7 x = true -> x = cpu_boot).
Proof.
  split; [by vm_compute|]. apply (topology_balance_nearest with_cpu_domains cpu_boot 7). constructor.
Defined.
