(* ===== verification/DeadlineAdmission.v ===== *)
(** * Admission control for deadline tasks

    The model of [libs/sched/src/deadline_admission.rs]: the ledger of deadline
    bandwidth reserved on each CPU, with the weak references that tie a
    reservation to its task.  Every method holds the ledger's spinlock from its
    first to its last access, so each is one step; what other CPUs do between
    two steps is that tasks disappear. *)

From stdpp Require Import fin vector.
From S2P Require Import Prelude SchedClass CpuMask.
Import SchedAttr.

(** The identity of a task: [Weak::ptr_eq] compares control blocks, which stay
    allocated as long as a weak reference exists. *)
Definition TaskId : Type := Z.

Definition utilization_of (attr : SchedAttr) : Z :=
  if negb (bool_decide (policy attr = Deadline)) || (runtime_ns attr =? 0)
     || (period_ns attr =? 0)
  then 0
  else Z.min (runtime_ns attr * SCHED_CAPACITY_SCALE / period_ns attr) U64_MAX.

Module Ledger.

Record Reservation : Type := mk_reservation { task : TaskId; cpu : CpuId; utilization : Z }.

Record AdmissionState : Type := mk {
  totals : vec Z MAX_CPUS;
  reservations : list Reservation
}.

Definition new : AdmissionState := mk (vreplicate MAX_CPUS 0) [].

(** [totals[c] = totals[c].saturating_sub(u)] and its counterpart. *)
Definition sub_total (t : vec Z MAX_CPUS) (c : CpuId) (u : Z) : vec Z MAX_CPUS :=
  vinsert c (saturating_sub (t !!! c) u) t.
Definition add_total (t : vec Z MAX_CPUS) (c : CpuId) (u : Z) : vec Z MAX_CPUS :=
  vinsert c (saturating_add (t !!! c) u) t.

(** [prune_dead]: [alive] says which tasks still have a strong reference.  Each
    round advances the index or shortens the vector, so its length bounds the
    rounds. *)
Fixpoint prune_loop (fuel : nat) (alive : TaskId -> bool) (index : nat) (st : AdmissionState)
  : AdmissionState :=
  match fuel with
  | O => st
  | S fuel =>
      match reservations st !! index with
      | None => st
      | Some entry =>
          if alive (task entry) then prune_loop fuel alive (S index) st
          else prune_loop fuel alive index
                 (mk (sub_total (totals st) (cpu entry) (utilization entry))
                     (swap_remove index (reservations st)))
      end
  end.

Definition prune_dead (alive : TaskId -> bool) (st : AdmissionState) : AdmissionState :=
  prune_loop (length (reservations st)) alive 0 st.

Definition find (st : AdmissionState) (t : TaskId) : option nat :=
  position (fun entry => task entry =? t) (reservations st).

Definition fits (st : AdmissionState) (c : CpuId) (replacing requested capacity : Z) : bool :=
  saturating_add (saturating_sub (totals st !!! c) replacing) requested <=? capacity.

(** [replace]; the entry is read through the index that [find] returned. *)
Definition replace (st : AdmissionState) (t : TaskId) (c : CpuId) (u : Z) : exec AdmissionState :=
  match find st t with
  | Some index =>
      old ← unwrap (reservations st !! index);
      let tot := sub_total (totals st) (cpu old) (utilization old) in
      if u =? 0 then Done (mk tot (swap_remove index (reservations st)))
      else Done (mk (add_total tot c u)
                    (<[index := mk_reservation (task old) c u]> (reservations st)))
  | None =>
      if negb (u =? 0)
      then Done (mk (add_total (totals st) c u)
                    (reservations st ++ [mk_reservation t c u]))
      else Done st
  end.

(** The reservation found, as the closures of [update_attr] and [migrate] read
    it through its index. *)
Definition entry_of (st : AdmissionState) (t : TaskId) : exec (option Reservation) :=
  match find st t with
  | None => Done None
  | Some index => e ← unwrap (reservations st !! index); Done (Some e)
  end.

Section operations.
(** [W] is what the caller's closure reads and changes, under the lock. *)
Context {W : Type}.

Definition update_attr (alive : TaskId -> bool) (t : TaskId) (owner_cpu : CpuId)
    (attr : SchedAttr) (capacity : Z) (apply : W -> bool * W) (st : AdmissionState) (w : W)
  : exec (result unit Errno * AdmissionState * W) :=
  let requested := utilization_of attr in
  let st := prune_dead alive st in
  old ← entry_of st t;
  let '(target_cpu, replacing) :=
    match old with Some e => (cpu e, utilization e) | None => (owner_cpu, 0) end in
  if negb (fits st target_cpu replacing requested capacity) then Done (Err EBUSY, st, w)
  else
    let '(applied, w) := apply w in
    if negb applied then Done (Err EBUSY, st, w)
    else st ← replace st t target_cpu requested; Done (Ok tt, st, w).

(** The utilization [migrate] and [can_migrate] account for: the reservation's,
    or what the task's attributes ask for. *)
Definition migrating_utilization (attr : SchedAttr) (old : option Reservation) : Z :=
  match old with Some e => utilization e | None => utilization_of attr end.
Definition migrating_replaced (target_cpu : CpuId) (old : option Reservation) : Z :=
  match old with
  | Some e => if bool_decide (cpu e = target_cpu) then utilization e else 0
  | None => 0
  end.

(** The source CPU is only compared by a [debug_assert_eq!] and is omitted. *)
Definition migrate (alive : TaskId -> bool) (t : TaskId) (attr : SchedAttr)
    (target_cpu : CpuId) (target_capacity : Z) (apply : W -> result unit Errno * W)
    (st : AdmissionState) (w : W) : exec (result unit Errno * AdmissionState * W) :=
  let st := prune_dead alive st in
  old ← entry_of st t;
  let u := migrating_utilization attr old in
  let replacing := migrating_replaced target_cpu old in
  if negb (u =? 0) && negb (fits st target_cpu replacing u target_capacity)
  then Done (Err EBUSY, st, w)
  else
    match apply w with
    | (Err e, w) => Done (Err e, st, w)
    | (Ok _, w) =>
        if negb (u =? 0)
        then st ← replace st t target_cpu u; Done (Ok tt, st, w)
        else Done (Ok tt, st, w)
    end.

End operations.

Definition can_migrate (alive : TaskId -> bool) (t : TaskId) (attr : SchedAttr)
    (target_cpu : CpuId) (target_capacity : Z) (st : AdmissionState)
  : exec (bool * AdmissionState) :=
  let st := prune_dead alive st in
  old ← entry_of st t;
  Done (fits st target_cpu (migrating_replaced target_cpu old)
          (migrating_utilization attr old) target_capacity, st).

Definition release (alive : TaskId -> bool) (t : TaskId) (st : AdmissionState)
  : exec AdmissionState :=
  let st := prune_dead alive st in
  match find st t with
  | None => Done st
  | Some index =>
      entry ← unwrap (reservations st !! index);
      Done (mk (sub_total (totals st) (cpu entry) (utilization entry))
               (swap_remove index (reservations st)))
  end.

Definition reserved (alive : TaskId -> bool) (c : CpuId) (st : AdmissionState)
  : Z * AdmissionState :=
  let st := prune_dead alive st in (totals st !!! c, st).

Definition all_totals (alive : TaskId -> bool) (st : AdmissionState)
  : vec Z MAX_CPUS * AdmissionState :=
  let st := prune_dead alive st in (totals st, st).

Definition fits_capacities (alive : TaskId -> bool) (capacities : vec Z MAX_CPUS)
    (st : AdmissionState) : bool * AdmissionState :=
  let st := prune_dead alive st in
  (forallb (fun '(reserved, capacity) => reserved <=? capacity)
     (zip (vec_to_list (totals st)) (vec_to_list capacities)), st).

(** [tasks_on_cpu]: [upgrade] fails on a task that has died. *)
Definition tasks_on_cpu (alive : TaskId -> bool) (c : CpuId) (st : AdmissionState)
  : list TaskId * AdmissionState :=
  let st := prune_dead alive st in
  (omap (fun e => if alive (task e) then Some (task e) else None)
     (filter (fun e => cpu e = c) (reservations st)), st).

Definition reservation_of (alive : TaskId -> bool) (t : TaskId) (st : AdmissionState)
  : exec (option (CpuId * Z) * AdmissionState) :=
  let st := prune_dead alive st in
  old ← entry_of st t;
  Done (match old with Some e => Some (cpu e, utilization e) | None => None end, st).

End Ledger.
Import Ledger.

(** ** The invariant of the ledger *)

(** The bandwidth reserved on a CPU, summed from the reservations. *)
Definition load (c : CpuId) (l : list Reservation) : Z :=
  foldr (fun e acc => (if decide (cpu e = c) then utilization e else 0) + acc) 0 l.

Definition holds (st : AdmissionState) (t : TaskId) (c : CpuId) (u : Z) : Prop :=
  mk_reservation t c u ∈ reservations st.

(** [K] bounds what may be reserved on each CPU. *)
Record ledger_inv (K : CpuId -> Z) (st : AdmissionState) : Prop := mk_ledger_inv {
  ledger_nodup : NoDup (task <$> reservations st);
  ledger_pos : Forall (fun e => 0 < utilization e) (reservations st);
  ledger_exact : forall c, totals st !!! c = load c (reservations st);
  ledger_bound : forall c, load c (reservations st) <= K c
}.

#[global] Instance load_proper c : Proper ((≡ₚ) ==> eq) (load c).
Proof.
  intros l l' H. induction H; simpl; try congruence; lia.
Qed.

Lemma load_nonneg c l : Forall (fun e => 0 < utilization e) l -> 0 <= load c l.
Proof. induction 1 as [|e l He Hl IH]; simpl; [lia|]. case_decide; lia. Qed.

Lemma load_cons c e l :
  load c (e :: l) = (if decide (cpu e = c) then utilization e else 0) + load c l.
Proof. done. Qed.

Lemma load_app c l1 l2 : load c (l1 ++ l2) = load c l1 + load c l2.
Proof. induction l1 as [|e l1 IH]; simpl; [done|]. rewrite IH. lia. Qed.

Section ledger.
Context (K : CpuId -> Z) (HK : forall c, 0 <= K c < U64_MAX).

Lemma ledger_new : ledger_inv K new.
Proof.
  split; [constructor|constructor|intros c; apply vlookup_replicate|intros c; apply HK].
Qed.

(** A subset of the reservations, with totals recomputed exactly. *)
Lemma ledger_remove st i e :
  ledger_inv K st -> reservations st !! i = Some e ->
  ledger_inv K (mk (sub_total (totals st) (cpu e) (utilization e))
                   (swap_remove i (reservations st))).
Proof.
  intros [Hn Hp He Hb] Hi. pose proof (swap_remove_perm _ _ _ Hi) as Hperm.
  rewrite <- Hperm in Hn, Hp. apply Forall_cons in Hp as [Hpe Hp].
  apply NoDup_cons in Hn as [_ Hn]. split; cbn [totals reservations]; [done|done| |].
  - intros c. specialize (He c). rewrite <- Hperm in He. simpl in He.
    pose proof (load_nonneg c _ Hp). unfold sub_total, saturating_sub.
    destruct (decide (cpu e = c)) as [->|Hne].
    + rewrite vlookup_insert. lia.
    + rewrite vlookup_insert_ne by done. lia.
  - intros c. specialize (Hb c). rewrite <- Hperm in Hb. simpl in Hb. case_decide; lia.
Qed.

Lemma ledger_add st t c u :
  ledger_inv K st -> 0 < u -> t ∉ task <$> reservations st ->
  load c (reservations st) + u <= K c ->
  forall l, l ≡ₚ mk_reservation t c u :: reservations st ->
  ledger_inv K (mk (add_total (totals st) c u) l).
Proof.
  intros [Hn Hp He Hb] Hu Ht Hk l Hl. split; cbn [totals reservations].
  - rewrite Hl. simpl. by apply NoDup_cons.
  - rewrite Hl. by apply Forall_cons.
  - intros c'. rewrite Hl, load_cons. cbn [cpu utilization]. pose proof (HK c). unfold add_total, saturating_add.
    destruct (decide (c = c')) as [<-|Hne].
    + rewrite vlookup_insert, He. lia.
    + rewrite vlookup_insert_ne by done. by rewrite He.
  - intros c'. rewrite Hl. simpl. specialize (Hb c'). case_decide; subst; lia.
Qed.

(** ** Pruning *)

Lemma filter_all {A} (P : A -> Prop) `{!forall x, Decision (P x)} l : Forall P l -> filter P l = l.
Proof. induction 1; [done|]. rewrite filter_cons_True by done. by f_equal. Qed.

Lemma prune_loop_spec alive fuel index st :
  ledger_inv K st -> (length (reservations st) <= index + fuel)%nat ->
  Forall (fun e => alive (task e) = true) (take index (reservations st)) ->
  let st' := prune_loop fuel alive index st in
  ledger_inv K st' /\
  reservations st' ≡ₚ filter (fun e => alive (task e) = true) (reservations st).
Proof.
  revert index st. induction fuel as [|fuel IH]; intros index st Hinv Hl Ht; simpl.
  - rewrite take_ge in Ht by lia. split; [done|]. by rewrite filter_all.
  - destruct (reservations st !! index) as [e|] eqn:E.
    2: { apply lookup_ge_None_1 in E. rewrite take_ge in Ht by lia. split; [done|].
         by rewrite filter_all. }
    pose proof (lookup_lt_Some _ _ _ E) as Hlt. destruct (alive (task e)) eqn:Ha.
    + apply IH; [done|lia|]. rewrite (take_S_r _ _ e) by done. apply Forall_app. split; [done|].
      by apply Forall_singleton.
    + destruct (IH index (mk (sub_total (totals st) (cpu e) (utilization e))
                 (swap_remove index (reservations st)))) as [Hi' Hp'].
      * by apply ledger_remove.
      * simpl. rewrite length_swap_remove by done. lia.
      * simpl. by rewrite take_swap_remove.
      * split; [done|]. rewrite Hp'. simpl. rewrite <- (swap_remove_perm _ _ _ E) at 2.
        by rewrite filter_cons_False by congruence.
Qed.

Lemma prune_dead_spec alive st :
  ledger_inv K st ->
  ledger_inv K (prune_dead alive st) /\
  reservations (prune_dead alive st) ≡ₚ
    filter (fun e => alive (task e) = true) (reservations st).
Proof. intros. apply prune_loop_spec; [done|lia|constructor]. Qed.

(** ** Lookup and replacement *)

Lemma ledger_find st t :
  match find st t with
  | Some i => exists e, reservations st !! i = Some e /\ task e = t
  | None => t ∉ task <$> reservations st
  end.
Proof.
  unfold find. destruct (position _ _) as [i|] eqn:E.
  - apply position_Some in E as (e & Hi & Ht & _). exists e. split; [done|]. by apply Z.eqb_eq.
  - apply position_None in E. intros (e & -> & He)%list_elem_of_fmap.
    rewrite Forall_forall in E. specialize (E e He). by rewrite Z.eqb_refl in E.
Qed.

Definition others (st : AdmissionState) (t : TaskId) : list Reservation :=
  filter (fun e => task e <> t) (reservations st).

(** The reservation found is the only one of its task. *)
Lemma others_split st i e :
  NoDup (task <$> reservations st) -> reservations st !! i = Some e ->
  others st (task e) ≡ₚ swap_remove i (reservations st).
Proof.
  intros Hn Hi. unfold others. pose proof (swap_remove_perm _ _ _ Hi) as Hp.
  rewrite <- Hp in Hn |- * at 1. apply NoDup_cons in Hn as [Hn _].
  rewrite filter_cons_False by naive_solver. rewrite filter_all; [done|].
  apply Forall_forall. intros x Hx Heq. apply Hn. rewrite <- Heq. by apply list_elem_of_fmap_2.
Qed.

Lemma others_absent st t : t ∉ task <$> reservations st -> others st t = reservations st.
Proof.
  intros Hn. apply filter_all, Forall_forall. intros x Hx <-. apply Hn.
  by apply list_elem_of_fmap_2.
Qed.

(** What the ledger accounts for one task. *)
Definition share (c : CpuId) (o : option Reservation) : Z :=
  match o with Some e => if decide (cpu e = c) then utilization e else 0 | None => 0 end.

Definition held (st : AdmissionState) (t : TaskId) : option Reservation :=
  i ← find st t; reservations st !! i.

Lemma entry_of_spec st t :
  ledger_inv K st ->
  entry_of st t = Done (held st t) /\
  reservations st ≡ₚ option_list (held st t) ++ others st t /\
  match held st t with Some e => task e = t /\ 0 < utilization e | None => True end.
Proof.
  intros [Hn Hp _ _]. unfold entry_of, held. pose proof (ledger_find st t) as Hf.
  destruct (find st t) as [i|]; simpl.
  - destruct Hf as (e & Hi & <-). rewrite Hi. simpl. split_and!; [done| |done|].
    + by rewrite (others_split _ _ _ Hn Hi), (swap_remove_perm _ _ _ Hi).
    + by apply (Forall_lookup_1 _ _ _ _ Hp Hi).
  - by rewrite others_absent.
Qed.

Lemma load_share st t c :
  ledger_inv K st ->
  load c (reservations st) = share c (held st t) + load c (others st t).
Proof.
  intros Hinv. destruct (entry_of_spec st t Hinv) as (_ & -> & _).
  rewrite load_app. f_equal. destruct (held st t); simpl; lia.
Qed.

(** The admission test, on the exact sums. *)
Lemma fits_spec st t c u capacity :
  ledger_inv K st -> 0 <= u -> capacity < U64_MAX ->
  fits st c (share c (held st t)) u capacity = bool_decide (load c (others st t) + u <= capacity).
Proof.
  intros Hinv Hu Hc. pose proof (load_share st t c Hinv) as Hs. unfold fits.
  rewrite (ledger_exact _ _ Hinv), Hs. destruct (entry_of_spec st t Hinv) as (_ & Ho & _).
  pose proof (ledger_pos _ _ Hinv) as Hp. rewrite Ho in Hp. apply Forall_app in Hp as [_ Hp].
  pose proof (load_nonneg c _ Hp). unfold saturating_add, saturating_sub.
  apply Bool.eq_true_iff_eq. rewrite bool_decide_eq_true, Z.leb_le. lia.
Qed.

Lemma replace_spec st t c u :
  ledger_inv K st -> 0 <= u -> (u <> 0 -> load c (others st t) + u <= K c) ->
  exists st', replace st t c u = Done st' /\ ledger_inv K st' /\
    reservations st' ≡ₚ
      (if decide (u = 0) then [] else [mk_reservation t c u]) ++ others st t.
Proof.
  intros Hinv Hu Hk. pose proof (ledger_nodup _ _ Hinv) as Hn.
  unfold replace. pose proof (ledger_find st t) as Hf. destruct (find st t) as [i|].
  - destruct Hf as (e & Hi & <-). rewrite Hi. simpl.
    pose proof (ledger_remove _ _ _ Hinv Hi) as Hinv'.
    pose proof (others_split _ _ _ Hn Hi) as Ho.
    destruct (Z.eqb_spec u 0) as [->|Hne]; eexists; (split; [done|]).
    + split; [done|]. by rewrite Ho.
    + rewrite decide_False by done. split.
      * apply (ledger_add _ (task e) c u Hinv'); [lia| |by cbn [reservations]; rewrite <- Ho; apply Hk|].
        -- cbn [reservations]. rewrite <- (swap_remove_perm _ _ _ Hi) in Hn.
           by apply NoDup_cons in Hn as [Hn _].
        -- by apply (insert_swap_perm _ _ e).
      * cbn [reservations]. rewrite (insert_swap_perm _ _ e) by done. by rewrite Ho.
  - rewrite (others_absent _ _ Hf) in *. destruct (Z.eqb_spec u 0) as [->|Hne]; simpl.
    + by exists st.
    + eexists. split; [done|]. rewrite decide_False by done. split.
      * apply (ledger_add _ t c u Hinv); [lia|done|by apply Hk|].
        by rewrite <- Permutation_cons_append.
      * cbn [reservations]. by rewrite <- Permutation_cons_append.
Qed.

(** ** The operations *)

Lemma utilization_nonneg a : is_u64 (runtime_ns a) -> is_u64 (period_ns a) -> 0 <= utilization_of a.
Proof.
  intros Hr Hp. unfold utilization_of. case_match; [done|]. reflect_bools.
  apply Z.min_glb; [|done]. apply Z.div_pos; unfold SCHED_CAPACITY_SCALE; ulia.
Qed.

(** The CPU [update_attr] charges: the one of the reservation, if there is one. *)
Definition charged_cpu (owner : CpuId) (o : option Reservation) : CpuId :=
  match o with Some e => cpu e | None => owner end.

Definition reserve (t : TaskId) (c : CpuId) (u : Z) : list Reservation :=
  if decide (u = 0) then [] else [mk_reservation t c u].

Lemma update_attr_spec {W} alive t owner attr capacity (apply : W -> bool * W) st w :
  ledger_inv K st -> 0 <= utilization_of attr ->
  let pst := prune_dead alive st in
  let c := charged_cpu owner (held pst t) in
  capacity <= K c ->
  exists r st' w',
    update_attr alive t owner attr capacity apply st w = Done (r, st', w') /\ ledger_inv K st' /\
    if bool_decide (load c (others pst t) + utilization_of attr <= capacity)
    then
      w' = snd (apply w) /\
      if fst (apply w)
      then r = Ok tt /\ reservations st' ≡ₚ reserve t c (utilization_of attr) ++ others pst t
      else r = Err EBUSY /\ st' = pst
    else r = Err EBUSY /\ st' = pst /\ w' = w.
Proof.
  intros Hinv Hu pst c Hcap. destruct (prune_dead_spec alive st Hinv) as [Hp _]. fold pst in Hp.
  destruct (entry_of_spec pst t Hp) as (Eo & _). unfold update_attr. fold pst. rewrite Eo.
  cbn [mbind exec_bind].
  replace (match held pst t with Some e => (cpu e, utilization e) | None => (owner, 0) end)
    with (c, share c (held pst t))
    by (unfold c; destruct (held pst t) as [e|]; simpl; [by rewrite decide_True|done]).
  rewrite fits_spec by (done || pose proof (HK c); lia).
  case_bool_decide as Hfit; simpl; [|by eauto 10].
  destruct (apply w) as [[|] w']; simpl; [|by eauto 10].
  destruct (replace_spec pst t c (utilization_of attr) Hp Hu) as (st' & -> & Hinv' & Hr); [lia|].
  simpl. eauto 10.
Qed.

Lemma migrate_spec {W} alive t attr target capacity (apply : W -> result unit Errno * W) st w :
  ledger_inv K st -> 0 <= utilization_of attr -> capacity <= K target ->
  let pst := prune_dead alive st in
  let u := migrating_utilization attr (held pst t) in
  exists r st' w',
    migrate alive t attr target capacity apply st w = Done (r, st', w') /\ ledger_inv K st' /\
    if bool_decide (u = 0 \/ load target (others pst t) + u <= capacity)
    then
      w' = snd (apply w) /\ r = fst (apply w) /\
      match r with
      | Ok _ => reservations st' ≡ₚ reserve t target u ++ others pst t
      | Err _ => st' = pst
      end
    else r = Err EBUSY /\ st' = pst /\ w' = w.
Proof.
  intros Hinv Hu Hcap pst u. destruct (prune_dead_spec alive st Hinv) as [Hp _]. fold pst in Hp.
  destruct (entry_of_spec pst t Hp) as (Eo & Hres & Hh). unfold migrate. fold pst. rewrite Eo.
  cbn [mbind exec_bind]. fold u.
  assert (0 <= u /\ (u = 0 -> held pst t = None)) as [Hu0 Hnone].
  { unfold u, migrating_utilization. destruct (held pst t); [lia|done]. }
  replace (migrating_replaced target (held pst t)) with (share target (held pst t))
    by (unfold migrating_replaced; destruct (held pst t); simpl; [|done]; repeat case_decide;
        case_bool_decide; done).
  rewrite fits_spec by (done || pose proof (HK target); lia).
  destruct (Z.eqb_spec u 0) as [Hz|Hnz]; simpl.
  - rewrite bool_decide_true by auto. destruct (apply w) as [[[]|e] w']; simpl; [|by eauto 10].
    exists (Ok tt), pst, w'. split_and!; try done. unfold reserve. rewrite decide_True by done.
    rewrite Hres at 1. by rewrite Hnone.
  - destruct (decide (load target (others pst t) + u <= capacity)) as [Hfit|Hfit].
    + rewrite !bool_decide_true by auto. simpl. destruct (apply w) as [[[]|e] w']; simpl; [|by eauto 10].
      destruct (replace_spec pst t target u Hp Hu0) as (st' & -> & Hinv' & Hr); [lia|]. simpl.
      eauto 10.
    + rewrite !bool_decide_false by naive_solver. simpl. eauto 10.
Qed.

Lemma release_spec alive t st :
  ledger_inv K st ->
  exists st', release alive t st = Done st' /\ ledger_inv K st' /\
    reservations st' ≡ₚ others (prune_dead alive st) t.
Proof.
  intros Hinv. destruct (prune_dead_spec alive st Hinv) as [Hp _]. unfold release.
  set (pst := prune_dead alive st) in *. pose proof (ledger_find pst t) as Hf.
  destruct (find pst t) as [i|].
  - destruct Hf as (e & Hi & <-). rewrite Hi. eexists. split; [done|].
    split; [by apply ledger_remove|]. by rewrite (others_split _ _ _ (ledger_nodup _ _ Hp) Hi).
  - exists pst. by rewrite others_absent.
Qed.
End ledger.

(** ** Properties *)

(** The attribute's durations are 64-bit words. *)
Definition typed_attr (a : SchedAttr) : Prop := is_u64 (runtime_ns a) /\ is_u64 (period_ns a).

(** The operations under the lock; between two of them any task may die, which
    is the choice of [alive].  [update_attr] is called with a capacity that is
    within the bound of the CPU it charges, [migrate] with one within the bound
    of its target. *)
Inductive ledger_step (K : CpuId -> Z) : AdmissionState -> AdmissionState -> Prop :=
| step_update_attr W alive t owner attr capacity (apply : W -> bool * W) st w r st' w' :
    typed_attr attr -> capacity <= K (charged_cpu owner (held (prune_dead alive st) t)) ->
    update_attr alive t owner attr capacity apply st w = Done (r, st', w') -> ledger_step K st st'
| step_migrate W alive t attr target capacity (apply : W -> result unit Errno * W) st w r st' w' :
    typed_attr attr -> capacity <= K target ->
    migrate alive t attr target capacity apply st w = Done (r, st', w') -> ledger_step K st st'
| step_release alive t st st' : release alive t st = Done st' -> ledger_step K st st'
| step_query alive st : ledger_step K st (prune_dead alive st).

Lemma ledger_step_inv K st st' :
  (forall c, 0 <= K c < U64_MAX) -> ledger_step K st st' -> ledger_inv K st -> ledger_inv K st'.
Proof.
  intros HK Hs Hinv. destruct Hs as
    [W alive t owner attr cap apply st w r st' w' [] Hc E
    |W alive t attr tgt cap apply st w r st' w' [] Hc E|alive t st st' E|alive st].
  - destruct (update_attr_spec K HK alive t owner attr cap apply st w Hinv)
      as (? & ? & ? & E' & Hi & _); [by apply utilization_nonneg|done|].
    rewrite E in E'. by simplify_eq.
  - destruct (migrate_spec K HK alive t attr tgt cap apply st w Hinv)
      as (? & ? & ? & E' & Hi & _); [by apply utilization_nonneg|done|].
    rewrite E in E'. by simplify_eq.
  - destruct (release_spec K HK alive t st Hinv) as (? & E' & Hi & _).
    rewrite E in E'. by simplify_eq.
  - by apply prune_dead_spec.
Qed.

(** C26. Whatever the sequence of admissions, migrations, releases and deaths of
    tasks, the per-CPU totals are exactly the sums of the reservations, each
    task holds at most one, and no CPU is reserved beyond the capacity its
    admissions were checked against: the saturating arithmetic never hides a
    loss. *)
Theorem ledger_never_overcommitted K st :
  (forall c, 0 <= K c < U64_MAX) -> rtc (ledger_step K) Ledger.new st ->
  NoDup (task <$> reservations st) /\
  forall c, totals st !!! c = load c (reservations st) /\ totals st !!! c <= K c.
Proof.
  intros HK Hr. assert (ledger_inv K st) as [Hn _ He Hb].
  { pose proof (ledger_new K HK) as Hinit. revert Hinit.
    induction Hr; eauto using ledger_step_inv. }
  split; [done|]. intros c. split; [done|]. rewrite He. apply Hb.
Qed.

(** A full-capacity CPU, a task with half of it, and the ledger that holds it. *)
Definition ex_K (c : CpuId) : Z := 1024.
Definition ex_attr : SchedAttr := SchedAttr.deadline 5000000 10000000 10000000.
Definition ex_cpu0 : CpuId := Fin.F1.
Definition ex_cpu1 : CpuId := Fin.FS Fin.F1.
Definition ex_ledger : AdmissionState :=
  mk (vinsert ex_cpu0 512 (vreplicate MAX_CPUS 0)) [mk_reservation 7 ex_cpu0 512].

Lemma ex_K_ok c : 0 <= ex_K c < U64_MAX.
Proof. unfold ex_K. split; [discriminate|reflexivity]. Defined.

Lemma ex_typed_attr : typed_attr ex_attr.
Proof. split; split; vm_compute; discriminate. Defined.

Lemma ex_ledger_inv : ledger_inv ex_K ex_ledger.
Proof.
  split.
  - apply NoDup_singleton.
  - apply Forall_singleton. reflexivity.
  - intros c. repeat (inv_fin c; [reflexivity|intros c]). inv_fin c.
  - intros c. unfold ex_K. simpl. case_decide; lia.
Defined.

Lemma ledger_never_overcommitted_witness :
  rtc (ledger_step ex_K) Ledger.new ex_ledger /\ totals ex_ledger !!! ex_cpu0 <= ex_K ex_cpu0.
Proof.
  assert (rtc (ledger_step ex_K) Ledger.new ex_ledger) as Hr.
  { apply rtc_once.
    apply (step_update_attr ex_K unit (fun _ => true) 7 ex_cpu0 ex_attr 1024
             (fun w => (true, w)) Ledger.new tt (Ok tt) ex_ledger tt);
      [exact ex_typed_attr|discriminate|reflexivity]. }
  split; [exact Hr|].
  apply (ledger_never_overcommitted ex_K ex_ledger ex_K_ok Hr).
Defined.

(** [update_attr] admits a request exactly when the live reservations of the
    other tasks on the charged CPU leave room for it; it then runs the caller's
    update once and, if that succeeds, the task holds exactly the new
    reservation.  A refused request does not run the update, and neither a
    refusal nor a failed update changes any reservation of a live task. *)
Theorem ledger_update_attr_exact {W} K alive t owner attr capacity (apply : W -> bool * W) st w :
  (forall c, 0 <= K c < U64_MAX) -> ledger_inv K st -> typed_attr attr ->
  let pst := prune_dead alive st in
  let c := charged_cpu owner (held pst t) in
  capacity <= K c ->
  exists r st' w',
    update_attr alive t owner attr capacity apply st w = Done (r, st', w') /\ ledger_inv K st' /\
    if bool_decide (load c (others pst t) + utilization_of attr <= capacity)
    then
      w' = snd (apply w) /\
      if fst (apply w)
      then r = Ok tt /\ reservations st' ≡ₚ reserve t c (utilization_of attr) ++ others pst t
      else r = Err EBUSY /\ st' = pst
    else r = Err EBUSY /\ st' = pst /\ w' = w.
Proof. intros HK Hinv []. apply update_attr_spec; [done..|by apply utilization_nonneg]. Qed.

(** A second task asks for the whole CPU and is refused. *)
Lemma ledger_update_attr_exact_witness :
  exists r st' w',
    update_attr (fun _ => true) 8 ex_cpu0 (SchedAttr.deadline 9000000 10000000 10000000) 1024
      (fun w : Z => (true, w + 1)) ex_ledger 0 = Done (r, st', w') /\
    r = Err EBUSY /\ w' = 0 /\ ledger_inv ex_K st'.
Proof.
  destruct (ledger_update_attr_exact ex_K (fun _ => true) 8 ex_cpu0
    (SchedAttr.deadline 9000000 10000000 10000000) 1024 (fun w : Z => (true, w + 1)) ex_ledger 0
    ex_K_ok ex_ledger_inv) as (r & st' & w' & E & Hi & _).
  - split; split; vm_compute; discriminate.
  - vm_compute. discriminate.
  - exists r, st', w'. split; [exact E|]. vm_compute in E. injection E as E1 E2 E3. subst r w'.
    split_and!; [reflexivity|reflexivity|exact Hi].
Defined.

(** [migrate] moves the reservation with the task: it is refused exactly
    when the target CPU has no room for it, in which case the placement is not
    touched; when the placement fails the ledger keeps the reservation where it
    was; otherwise exactly the migrated task's reservation moves to the target. *)
Theorem ledger_migrate_exact {W} K alive t attr target capacity
    (apply : W -> result unit Errno * W) st w :
  (forall c, 0 <= K c < U64_MAX) -> ledger_inv K st -> typed_attr attr -> capacity <= K target ->
  let pst := prune_dead alive st in
  let u := migrating_utilization attr (held pst t) in
  exists r st' w',
    migrate alive t attr target capacity apply st w = Done (r, st', w') /\ ledger_inv K st' /\
    if bool_decide (u = 0 \/ load target (others pst t) + u <= capacity)
    then
      w' = snd (apply w) /\ r = fst (apply w) /\
      match r with
      | Ok _ => reservations st' ≡ₚ reserve t target u ++ others pst t
      | Err _ => st' = pst
      end
    else r = Err EBUSY /\ st' = pst /\ w' = w.
Proof. intros HK Hinv [] Hc. apply migrate_spec; [done..|by apply utilization_nonneg|done]. Qed.

Lemma ledger_migrate_exact_witness :
  exists r st' w',
    migrate (fun _ => true) 7 ex_attr ex_cpu1 1024 (fun w : Z => (Ok tt, w + 1)) ex_ledger 0
      = Done (r, st', w') /\
    r = Ok tt /\ totals st' !!! ex_cpu0 = 0 /\ totals st' !!! ex_cpu1 = 512 /\ ledger_inv ex_K st'.
Proof.
  destruct (ledger_migrate_exact ex_K (fun _ => true) 7 ex_attr ex_cpu1 1024
    (fun w : Z => (Ok tt, w + 1)) ex_ledger 0 ex_K_ok ex_ledger_inv ex_typed_attr)
    as (r & st' & w' & E & Hi & _); [discriminate|].
  exists r, st', w'. split; [exact E|]. vm_compute in E. injection E as E1 E2 E3. subst r st'.
  split_and!; [reflexivity|reflexivity|reflexivity|exact Hi].
Defined.

(** The queries see exactly the reservations of live tasks: [reserved] their
    sum on a CPU, [tasks_on_cpu] the tasks that hold one there, and
    [reservation_of] the one of the task; and for a task with a deadline
    [can_migrate] holds exactly when [migrate] would let it through. *)
Theorem ledger_queries_exact K alive c t attr capacity st :
  (forall c, 0 <= K c < U64_MAX) -> ledger_inv K st -> typed_attr attr -> capacity < U64_MAX ->
  let live := filter (fun e => alive (task e) = true) (reservations st) in
  fst (reserved alive c st) = load c live /\
  fst (tasks_on_cpu alive c st) ≡ₚ task <$> filter (fun e => cpu e = c) live /\
  (exists st', reservation_of alive t st =
     Done ((fun e => (cpu e, utilization e)) <$> held (prune_dead alive st) t, st')) /\
  let pst := prune_dead alive st in
  let u := migrating_utilization attr (held pst t) in
  can_migrate alive t attr c capacity st =
    Done (bool_decide (load c (others pst t) + u <= capacity), pst).
Proof.
  intros HK Hinv [] Hc live. destruct (prune_dead_spec K alive st Hinv) as [Hp Hl].
  fold live in Hl. destruct (entry_of_spec K HK (prune_dead alive st) t Hp) as (Eo & _ & Hh).
  split_and!.
  - simpl. by rewrite (ledger_exact _ _ Hp), Hl.
  - simpl. rewrite Hl. unfold live. clear. induction (reservations st) as [|e l IH]; [done|].
    rewrite !filter_cons. destruct (alive (task e)) eqn:E; simpl; [|done].
    rewrite !filter_cons. case_decide; simpl; [|done]. rewrite E. simpl. by rewrite IH.
  - exists (prune_dead alive st). unfold reservation_of. rewrite Eo. simpl.
    by destruct (held _ _).
  - unfold can_migrate. rewrite Eo. cbn [mbind exec_bind].
    replace (migrating_replaced c (held (prune_dead alive st) t))
      with (share c (held (prune_dead alive st) t))
      by (unfold migrating_replaced; destruct (held _ _); simpl; [|done]; repeat case_decide;
          case_bool_decide; done).
    rewrite (fits_spec K HK); [done..| |done].
    unfold migrating_utilization. destruct (held _ _); [lia|by apply utilization_nonneg].
Qed.

Lemma ledger_queries_exact_witness :
  fst (tasks_on_cpu (fun _ => true) ex_cpu0 ex_ledger) = [7] /\
  fst (reserved (fun _ => true) ex_cpu0 ex_ledger) = 512 /\
  can_migrate (fun _ => true) 7 ex_attr ex_cpu1 1024 ex_ledger =
    Done (bool_decide (0 + 512 <= 1024), prune_dead (fun _ => true) ex_ledger).
Proof.
  split; [reflexivity|].
  destruct (ledger_queries_exact ex_K (fun _ => true) ex_cpu1 7 ex_attr 1024 ex_ledger
    ex_K_ok ex_ledger_inv ex_typed_attr ltac:(reflexivity)) as (_ & _ & _ & H).
  split; [reflexivity|exact H].
Defined.
