(* ===== verification/FlowExecution.v ===== *)
(** * The execution lease of a protocol state

    The model of [libs/net/src/flow/execution.rs]: one atomic word holds the
    generation, the busy and pending bits and who executes.  The pure parts are
    functions on the word; the loops around [compare_exchange_weak] are a step
    relation in which any number of threads interleave at every access to the
    word and an exchange may fail spuriously. *)

From S2P Require Import Prelude.

Module FlowExecution.

Definition BUSY : Z := Z.shiftl 1 0.
Definition PENDING : Z := Z.shiftl 1 1.
Definition EXECUTOR_KIND_SHIFT : Z := 8.
Definition EXECUTOR_CPU_SHIFT : Z := 16.
Definition GENERATION_SHIFT : Z := 32.
Definition EXECUTOR_KIND_MASK : Z := Z.shiftl 255 EXECUTOR_KIND_SHIFT.
Definition EXECUTOR_CPU_MASK : Z := Z.shiftl 255 EXECUTOR_CPU_SHIFT.
Definition GENERATION_MASK : Z := Z.shiftl U32_MAX GENERATION_SHIFT.

Inductive FlowExecutorKind : Type := Worker | Syscall | Recovery.

(** [kind as u64]. *)
Definition kind_bits (k : FlowExecutorKind) : Z :=
  match k with Worker => 1 | Syscall => 2 | Recovery => 3 end.

Record FlowExecutionSnapshot : Type := mk_snapshot {
  generation : Z;
  executor_kind : option FlowExecutorKind;
  executor_cpu : option Z;
  busy : bool;
  pending : bool
}.

Definition generation_of (state : Z) : Z :=
  Z.shiftr (Z.land state GENERATION_MASK) GENERATION_SHIFT.

Definition is_busy (state : Z) : bool := negb (Z.land state BUSY =? 0).
Definition is_pending (state : Z) : bool := negb (Z.land state PENDING =? 0).

Definition new : Z := 0.

(** The guard of [install_generation] and the word it installs. *)
Definition install_guard (generation : Z) : option Z :=
  g ← try_u32 generation; if g =? 0 then None else Some g.
Definition install_next (generation : Z) : Z := Z.shiftl generation GENERATION_SHIFT.

(** The guards of [try_acquire], its test of an observed word, and the word it
    installs. *)
Definition acquire_guard (expected_generation executor_cpu : Z) : option (Z * Z) :=
  g ← try_u32 expected_generation; c ← try_u8 executor_cpu;
  if g =? 0 then None else Some (g, c).
Definition acquire_test (g observed : Z) : bool :=
  negb (is_busy observed || negb (generation_of observed =? g)).
Definition acquire_next (observed : Z) (k : FlowExecutorKind) (cpu : Z) : Z :=
  Z.lor (Z.lor (Z.lor (Z.land observed GENERATION_MASK) BUSY)
               (Z.shiftl (kind_bits k) EXECUTOR_KIND_SHIFT))
        (Z.shiftl cpu EXECUTOR_CPU_SHIFT).

Definition mark_pending_next (state : Z) : Z := Z.lor state PENDING.

(** The assertions of [release] and the word it installs. *)
Definition release_test (g observed : Z) : bool :=
  (generation_of observed =? g) && is_busy observed.
Definition release_next (observed : Z) : Z :=
  Z.lor (Z.land observed GENERATION_MASK) (Z.land observed PENDING).

(** [snapshot]; the [unreachable!] is a panic. *)
Definition snapshot (state : Z) : exec FlowExecutionSnapshot :=
  let b := is_busy state in
  let kind := Z.shiftr (Z.land state EXECUTOR_KIND_MASK) EXECUTOR_KIND_SHIFT in
  k ← (if b then
         match kind with
         | 1 => Done (Some Worker)
         | 2 => Done (Some Syscall)
         | 3 => Done (Some Recovery)
         | _ => Panic
         end
       else Done None);
  Done (mk_snapshot (generation_of state) k
          (if b then Some (Z.shiftr (Z.land state EXECUTOR_CPU_MASK) EXECUTOR_CPU_SHIFT)
           else None)
          b (is_pending state)).

(** ** Threads *)

(** Where a thread is: outside, in one of the loops with the word it observed
    last (which passed the test of the loop), holding a lease, past the
    exchange of a release, or panicked in an assertion. *)
Inductive pc : Type :=
| Outside
| Installing (g observed : Z)
| Acquiring (g : Z) (k : FlowExecutorKind) (cpu observed : Z)
| Holding (g : Z)
| Releasing (g observed : Z)
| Rechecking
| Panicked.

(** What a call reported, in the order of the accesses to the word. *)
Inductive event : Type :=
| EvInstall (g : Z)
| EvInstallRefused
| EvAcquire (i : nat) (g : Z) (k : FlowExecutorKind) (cpu : Z)
| EvAcquireRefused (g : Z)
| EvMark
| EvRelease (i : nat)
| EvRecheck (pending : bool).

Record system : Type := mk_system {
  word : Z;
  threads : list pc;
  trace : list event
}.

(** One round of a loop: the word just read either ends the call or is kept as
    the expected value of the exchange. *)
Definition install_round (g observed : Z) : pc * list event :=
  if is_busy observed then (Outside, [EvInstallRefused]) else (Installing g observed, []).
Definition acquire_round (g : Z) (k : FlowExecutorKind) (cpu observed : Z) : pc * list event :=
  if acquire_test g observed then (Acquiring g k cpu observed, [])
  else (Outside, [EvAcquireRefused g]).
Definition release_round (g observed : Z) : pc * list event :=
  if release_test g observed then (Releasing g observed, []) else (Panicked, []).

Definition goto (s : system) (i : nat) (r : pc * list event) : system :=
  mk_system (word s) (<[i := fst r]> (threads s)) (trace s ++ snd r).
Definition exchange (s : system) (i : nat) (w : Z) (p : pc) (ev : event) : system :=
  mk_system w (<[i := p]> (threads s)) (trace s ++ [ev]).

Inductive step : system -> system -> Prop :=
(** [install_generation]: the first load, a successful exchange, a failed one. *)
| install_load s i generation g :
    threads s !! i = Some Outside -> is_u64 generation -> install_guard generation = Some g ->
    step s (goto s i (install_round g (word s)))
| install_cas s i g observed :
    threads s !! i = Some (Installing g observed) -> word s = observed ->
    step s (exchange s i (install_next g) Outside (EvInstall g))
| install_fail s i g observed :
    threads s !! i = Some (Installing g observed) ->
    step s (goto s i (install_round g (word s)))
(** [try_acquire]. *)
| acquire_load s i generation executor_cpu k g cpu :
    threads s !! i = Some Outside -> is_u64 generation -> is_u64 executor_cpu ->
    acquire_guard generation executor_cpu = Some (g, cpu) ->
    step s (goto s i (acquire_round g k cpu (word s)))
| acquire_cas s i g k cpu observed :
    threads s !! i = Some (Acquiring g k cpu observed) -> word s = observed ->
    step s (exchange s i (acquire_next observed k cpu) (Holding g) (EvAcquire i g k cpu))
| acquire_fail s i g k cpu observed :
    threads s !! i = Some (Acquiring g k cpu observed) ->
    step s (goto s i (acquire_round g k cpu (word s)))
(** [mark_pending], by anyone at any moment. *)
| mark s :
    step s (mk_system (mark_pending_next (word s)) (threads s) (trace s ++ [EvMark]))
(** [release], explicit or by the [Drop] of the lease. *)
| release_load s i g :
    threads s !! i = Some (Holding g) ->
    step s (goto s i (release_round g (word s)))
| release_cas s i g observed :
    threads s !! i = Some (Releasing g observed) -> word s = observed ->
    step s (exchange s i (release_next observed) Rechecking (EvRelease i))
| release_fail s i g observed :
    threads s !! i = Some (Releasing g observed) ->
    step s (goto s i (release_round g (word s)))
| recheck s i :
    threads s !! i = Some Rechecking ->
    step s (goto s i (Outside, [EvRecheck (is_pending (word s))])).

Definition init (n : nat) : system := mk_system new (replicate n Outside) [].

End FlowExecution.
Import FlowExecution.

(** ** The contract

    A generation, at most one holder, and a flag for work that arrived since
    the last acquisition. *)

Record lease : Type := mk_lease {
  l_gen : Z;
  l_holder : option (nat * FlowExecutorKind * Z);
  l_pending : bool
}.

Definition lease_event (a : lease) (ev : event) : option lease :=
  match ev with
  | EvInstall g =>
      match l_holder a with None => Some (mk_lease g None false) | Some _ => None end
  | EvInstallRefused =>
      match l_holder a with None => None | Some _ => Some a end
  | EvAcquire i g k cpu =>
      match l_holder a with
      | None => if l_gen a =? g then Some (mk_lease g (Some (i, k, cpu)) false) else None
      | Some _ => None
      end
  | EvAcquireRefused g =>
      match l_holder a with
      | None => if l_gen a =? g then None else Some a
      | Some _ => Some a
      end
  | EvMark => Some (mk_lease (l_gen a) (l_holder a) true)
  | EvRelease i =>
      match l_holder a with
      | Some (j, _, _) => if (i =? j)%nat then Some (mk_lease (l_gen a) None (l_pending a)) else None
      | None => None
      end
  | EvRecheck b => if Bool.eqb b (l_pending a) then Some a else None
  end.

Definition lease_run (tr : list event) : option lease :=
  foldl (fun a ev => x ← a; lease_event x ev) (Some (mk_lease 0 None false)) tr.

(** ** The word *)

(** The low half of the word: executor, pending and busy bits. *)
Definition low_bits (holder : option (nat * FlowExecutorKind * Z)) (p : bool) : Z :=
  match holder with
  | Some (_, k, cpu) => cpu * 65536 + kind_bits k * 256 + 1
  | None => 0
  end + (if p then 2 else 0).

Definition encode (a : lease) : Z := l_gen a * 2 ^ 32 + low_bits (l_holder a) (l_pending a).

Definition lease_ok (a : lease) : Prop :=
  is_u32 (l_gen a) /\ match l_holder a with Some (_, _, cpu) => is_u8 cpu | None => True end.

Lemma low_bits_range h p :
  match h with Some (_, _, cpu) => is_u8 cpu | None => True end -> 0 <= low_bits h p < 2 ^ 32.
Proof.
  unfold low_bits. destruct h as [[[i k] cpu]|]; intros Hc; destruct p; try destruct k; simpl; ulia.
Qed.

(** Any operation on the word is one on its halves. *)
Lemma word_land g x m y :
  0 <= x < 2 ^ 32 -> 0 <= y < 2 ^ 32 ->
  Z.land (g * 2 ^ 32 + x) (m * 2 ^ 32 + y) = Z.land g m * 2 ^ 32 + Z.land x y.
Proof. intros. by apply land_split. Qed.

Lemma word_lor g x m y :
  0 <= x < 2 ^ 32 -> 0 <= y < 2 ^ 32 ->
  Z.lor (g * 2 ^ 32 + x) (m * 2 ^ 32 + y) = Z.lor g m * 2 ^ 32 + Z.lor x y.
Proof. intros. by apply lor_split. Qed.

Lemma word_generation g x :
  is_u32 g -> 0 <= x < 2 ^ 32 -> Z.land (g * 2 ^ 32 + x) GENERATION_MASK = g * 2 ^ 32.
Proof.
  intros Hg Hx. change GENERATION_MASK with (Z.ones 32 * 2 ^ 32 + 0).
  rewrite word_land by lia. rewrite Z.land_0_r, Z.add_0_r, Z.land_ones by lia.
  rewrite Z.mod_small by ulia. done.
Qed.

Lemma encode_generation a : lease_ok a -> generation_of (encode a) = l_gen a.
Proof.
  intros [Hg Hh]. unfold generation_of, encode.
  rewrite word_generation by auto using low_bits_range.
  unfold GENERATION_SHIFT. rewrite Z.shiftr_div_pow2 by lia. by rewrite Z.div_mul.
Qed.

(** The low half, bit by bit: eight bits of flags, eight of the kind, the CPU. *)
Lemma low_land h p m :
  match h with Some (_, _, cpu) => is_u8 cpu | None => True end -> 0 <= m < 256 ->
  Z.land (low_bits h p) m =
  Z.land ((match h with Some _ => 1 | None => 0 end) + (if p then 2 else 0)) m.
Proof.
  intros Hh Hm. unfold low_bits. destruct h as [[[i k] cpu]|]; [|done].
  replace (cpu * 65536 + kind_bits k * 256 + 1 + (if p then 2 else 0))
    with ((cpu * 256 + kind_bits k) * 2 ^ 8 + (1 + (if p then 2 else 0))) by lia.
  replace m with (0 * 2 ^ 8 + m) at 1 by lia.
  rewrite land_split by (destruct p; lia). by rewrite Z.land_0_r.
Qed.

Lemma encode_flag a m :
  lease_ok a -> 0 <= m < 256 ->
  Z.land (encode a) m =
  Z.land ((match l_holder a with Some _ => 1 | None => 0 end) + (if l_pending a then 2 else 0)) m.
Proof.
  intros [Hg Hh] Hm. unfold encode. replace m with (0 * 2 ^ 32 + m) at 1 by lia.
  rewrite word_land by (auto using low_bits_range || lia). rewrite Z.land_0_r.
  by apply low_land.
Qed.

Lemma encode_busy a :
  lease_ok a -> is_busy (encode a) = match l_holder a with Some _ => true | None => false end.
Proof.
  intros Ha. unfold is_busy. rewrite encode_flag by done. by destruct (l_holder a), (l_pending a).
Qed.

Lemma encode_pending a : lease_ok a -> is_pending (encode a) = l_pending a.
Proof.
  intros Ha. unfold is_pending. rewrite encode_flag by done. by destruct (l_holder a), (l_pending a).
Qed.

Lemma encode_install g : is_u32 g -> install_next g = encode (mk_lease g None false).
Proof.
  intros. unfold install_next, encode, GENERATION_SHIFT. rewrite Z.shiftl_mul_pow2 by lia.
  cbn [l_gen l_holder l_pending low_bits]. change (low_bits None false) with 0. lia.
Qed.

Lemma encode_acquire a i k cpu :
  lease_ok a -> is_u8 cpu ->
  acquire_next (encode a) k cpu = encode (mk_lease (l_gen a) (Some (i, k, cpu)) false).
Proof.
  intros [Hg Hh] Hc. unfold acquire_next, encode.
  rewrite word_generation by auto using low_bits_range.
  replace (l_gen a * 2 ^ 32) with (l_gen a * 2 ^ 32 + 0) at 1 by lia.
  change BUSY with (0 * 2 ^ 32 + 1). rewrite word_lor, Z.lor_0_r by lia.
  replace (Z.shiftl (kind_bits k) EXECUTOR_KIND_SHIFT) with (0 * 2 ^ 32 + kind_bits k * 256)
    by (by destruct k).
  rewrite word_lor, Z.lor_0_r by (destruct k; split; vm_compute; congruence).
  replace (Z.shiftl cpu EXECUTOR_CPU_SHIFT) with (0 * 2 ^ 32 + cpu * 2 ^ 16)
    by (unfold EXECUTOR_CPU_SHIFT; rewrite Z.shiftl_mul_pow2; lia).
  rewrite word_lor, Z.lor_0_r by (ulia || destruct k; split; vm_compute; congruence).
  cbn [l_gen l_holder l_pending].
  f_equal. unfold low_bits.
  replace (Z.lor (Z.lor 0 1) (kind_bits k * 256)) with (0 * 2 ^ 16 + (kind_bits k * 256 + 1))
    by (by destruct k).
  replace (cpu * 2 ^ 16) with (cpu * 2 ^ 16 + 0) by lia.
  rewrite lor_split by (lia || destruct k; split; vm_compute; congruence).
  rewrite Z.lor_0_l, Z.lor_0_r. lia.
Qed.

Lemma encode_mark a :
  lease_ok a -> mark_pending_next (encode a) = encode (mk_lease (l_gen a) (l_holder a) true).
Proof.
  intros [Hg Hh]. unfold mark_pending_next, encode.
  change PENDING with (0 * 2 ^ 32 + 2). rewrite word_lor, Z.lor_0_r by (auto using low_bits_range || lia).
  simpl l_gen. f_equal. simpl. unfold low_bits. destruct (l_holder a) as [[[i k] cpu]|]; [|by destruct (l_pending a)].
  replace (cpu * 65536 + kind_bits k * 256 + 1 + (if l_pending a then 2 else 0))
    with ((cpu * 256 + kind_bits k) * 2 ^ 8 + (1 + (if l_pending a then 2 else 0))) by lia.
  change 2 with (0 * 2 ^ 8 + 2) at 3. rewrite lor_split, Z.lor_0_r by (destruct (l_pending a); lia).
  replace (Z.lor _ 2) with 3 by (by destruct (l_pending a)). lia.
Qed.

Lemma encode_release a :
  lease_ok a -> release_next (encode a) = encode (mk_lease (l_gen a) None (l_pending a)).
Proof.
  intros Ha. unfold release_next. rewrite (encode_flag a PENDING) by done. destruct Ha as [Hg Hh].
  unfold encode at 1. rewrite word_generation by auto using low_bits_range.
  replace (l_gen a * 2 ^ 32) with (l_gen a * 2 ^ 32 + 0) at 1 by lia.
  set (x := Z.land _ PENDING). assert (x = if l_pending a then 2 else 0) as ->
    by (unfold x; by destruct (l_holder a), (l_pending a)).
  replace (if l_pending a then 2 else 0) with (0 * 2 ^ 32 + (if l_pending a then 2 else 0)) by lia.
  rewrite word_lor by (destruct (l_pending a); lia). rewrite !Z.lor_0_r, Z.lor_0_l.
  unfold encode. cbn [l_gen l_holder l_pending]. by destruct (l_pending a).
Qed.

(** ** The interleavings implement the contract *)

Definition holder_is (a : lease) (i : nat) : Prop :=
  match l_holder a with Some (j, _, _) => j = i | None => False end.

Definition thread_ok (a : lease) (i : nat) (p : pc) : Prop :=
  match p with
  | Outside | Rechecking => ~ holder_is a i
  | Installing g observed => ~ holder_is a i /\ is_u32 g /\ is_busy observed = false
  | Acquiring g k cpu observed =>
      ~ holder_is a i /\ is_u32 g /\ is_u8 cpu /\ acquire_test g observed = true
  | Holding g | Releasing g _ => holder_is a i /\ l_gen a = g
  | Panicked => False
  end.

Record flow_inv (s : system) (a : lease) : Prop := mk_flow_inv {
  fi_run : lease_run (trace s) = Some a;
  fi_ok : lease_ok a;
  fi_word : word s = encode a;
  fi_threads : forall i p, threads s !! i = Some p -> thread_ok a i p
}.

Lemma lease_run_app tr evs a :
  lease_run tr = Some a ->
  lease_run (tr ++ evs) = foldl (fun a ev => x ← a; lease_event x ev) (Some a) evs.
Proof. intros H. unfold lease_run in *. by rewrite foldl_app, H. Qed.

Lemma threads_insert a a' (ts : list pc) i p' :
  (forall j p, ts !! j = Some p -> thread_ok a j p) -> thread_ok a' i p' ->
  (forall j p, j <> i -> thread_ok a j p -> thread_ok a' j p) ->
  forall j p, <[i := p']> ts !! j = Some p -> thread_ok a' j p.
Proof.
  intros Hts Hp' Hother j p Hj. destruct (decide (j = i)) as [->|Hne].
  - rewrite list_lookup_insert_eq in Hj; [by simplify_eq|].
    apply lookup_lt_Some in Hj. by rewrite length_insert in Hj.
  - rewrite list_lookup_insert_ne in Hj by done. auto.
Qed.

(** A step that only moves a thread and reports. *)
Lemma goto_inv s a i p evs :
  flow_inv s a -> thread_ok a i p -> foldl (fun a ev => x ← a; lease_event x ev) (Some a) evs = Some a ->
  flow_inv (goto s i (p, evs)) a.
Proof.
  intros [Hr Ho Hw Ht] Hp He. split; simpl; [by rewrite (lease_run_app _ _ a)|done|done|].
  eapply threads_insert; eauto.
Qed.

(** A step that exchanges the word. *)
Lemma exchange_inv s a a' i w p ev :
  flow_inv s a -> lease_ok a' -> w = encode a' -> lease_event a ev = Some a' ->
  thread_ok a' i p -> (forall j q, j <> i -> thread_ok a j q -> thread_ok a' j q) ->
  flow_inv (exchange s i w p ev) a'.
Proof.
  intros [Hr Ho Hw Ht] Ho' Hw' He Hp Hj. split; simpl; [|done|done|].
  - by rewrite (lease_run_app _ _ a).
  - eapply threads_insert; eauto.
Qed.

Lemma install_round_inv s a i g :
  flow_inv s a -> ~ holder_is a i -> is_u32 g -> flow_inv (goto s i (install_round g (word s))) a.
Proof.
  intros Hi Hn Hg. unfold install_round. rewrite (fi_word _ _ Hi), encode_busy by apply Hi.
  destruct (l_holder a) eqn:E; apply goto_inv; simpl; auto; [by rewrite E|].
  split_and!; [done|done|]. rewrite encode_busy by apply Hi. by rewrite E.
Qed.

Lemma acquire_test_encode a g :
  lease_ok a ->
  acquire_test g (encode a) = match l_holder a with Some _ => false | None => l_gen a =? g end.
Proof.
  intros Ha. unfold acquire_test. rewrite encode_busy, encode_generation by done.
  destruct (l_holder a); [done|]. by rewrite orb_false_l, negb_involutive.
Qed.

Lemma acquire_round_inv s a i g k cpu :
  flow_inv s a -> ~ holder_is a i -> is_u32 g -> is_u8 cpu ->
  flow_inv (goto s i (acquire_round g k cpu (word s))) a.
Proof.
  intros Hi Hn Hg Hc. unfold acquire_round. rewrite (fi_word _ _ Hi).
  destruct (acquire_test g (encode a)) eqn:E; apply goto_inv; simpl; auto.
  rewrite acquire_test_encode in E by apply Hi. destruct (l_holder a); [done|]. by rewrite E.
Qed.

Lemma release_round_inv s a i g :
  flow_inv s a -> holder_is a i -> l_gen a = g -> flow_inv (goto s i (release_round g (word s))) a.
Proof.
  intros Hi Hh Hg. unfold release_round, release_test. rewrite (fi_word _ _ Hi).
  rewrite encode_busy, encode_generation by apply Hi.
  assert (is_Some (l_holder a)) as [x Ex].
  { unfold holder_is in Hh. destruct (l_holder a); [eauto|done]. }
  rewrite Ex, Hg, Z.eqb_refl. by apply goto_inv.
Qed.

Lemma install_guard_u32 x g : is_u64 x -> install_guard x = Some g -> is_u32 g /\ g <> 0.
Proof.
  unfold install_guard, try_u32. intros Hx. case_match; simpl; [|done]. case_match; [done|].
  intros. simplify_eq. reflect_bools. ulia.
Qed.

Lemma acquire_guard_u32 x y g c :
  is_u64 x -> is_u64 y -> acquire_guard x y = Some (g, c) -> is_u32 g /\ is_u8 c /\ g <> 0.
Proof.
  unfold acquire_guard, try_u32, try_u8. intros Hx Hy.
  destruct (x <=? U32_MAX) eqn:Ex, (y <=? U8_MAX) eqn:Ey; simpl; try done.
  destruct (x =? 0) eqn:E0; [done|]. intros. simplify_eq. reflect_bools. ulia.
Qed.

Lemma install_cas_inv s a i g obs :
  flow_inv s a -> threads s !! i = Some (Installing g obs) -> word s = obs ->
  flow_inv (exchange s i (install_next g) Outside (EvInstall g)) (mk_lease g None false).
Proof.
  intros Hi Hp Hw. destruct (fi_threads _ _ Hi i _ Hp) as (Hn & Hg & Hb).
  rewrite <- Hw, (fi_word _ _ Hi), encode_busy in Hb by apply Hi.
  destruct (l_holder a) eqn:E; [done|]. eapply exchange_inv; [exact Hi|done|by apply encode_install|..].
  - simpl. by rewrite E.
  - by intros [].
  - intros j q _. unfold thread_ok, holder_is. rewrite E. destruct q; simpl; tauto.
Qed.

Lemma acquire_cas_inv s a i g k cpu obs :
  flow_inv s a -> threads s !! i = Some (Acquiring g k cpu obs) -> word s = obs ->
  flow_inv (exchange s i (acquire_next obs k cpu) (Holding g) (EvAcquire i g k cpu))
    (mk_lease g (Some (i, k, cpu)) false).
Proof.
  intros Hi Hp Hw. destruct (fi_threads _ _ Hi i _ Hp) as (Hn & Hg & Hc & Ht).
  rewrite <- Hw, (fi_word _ _ Hi) in *. rewrite acquire_test_encode in Ht by apply Hi.
  destruct (l_holder a) eqn:E; [done|]. apply Z.eqb_eq in Ht. subst g.
  eapply exchange_inv; [exact Hi|by split|by apply encode_acquire; [apply Hi|]|..].
  - simpl. by rewrite E, Z.eqb_refl.
  - done.
  - intros j q Hne. unfold thread_ok, holder_is. rewrite E. destruct q; simpl; naive_solver.
Qed.

Lemma release_cas_inv s a i g obs :
  flow_inv s a -> threads s !! i = Some (Releasing g obs) -> word s = obs ->
  flow_inv (exchange s i (release_next obs) Rechecking (EvRelease i))
    (mk_lease (l_gen a) None (l_pending a)).
Proof.
  intros Hi Hp Hw. destruct (fi_threads _ _ Hi i _ Hp) as [Hh Hg].
  rewrite <- Hw, (fi_word _ _ Hi). unfold holder_is in Hh.
  destruct (l_holder a) as [[[j k] c]|] eqn:E; [subst j|done].
  eapply exchange_inv; [exact Hi|by split; [apply Hi|]|by apply encode_release, Hi|..].
  - simpl. by rewrite E, Nat.eqb_refl.
  - by intros [].
  - intros j q Hne. unfold thread_ok, holder_is. rewrite E. destruct q; simpl; naive_solver.
Qed.

Lemma mark_inv s a :
  flow_inv s a ->
  flow_inv (mk_system (mark_pending_next (word s)) (threads s) (trace s ++ [EvMark]))
    (mk_lease (l_gen a) (l_holder a) true).
Proof.
  intros [Hr Ho Hw Ht]. split; simpl; [by rewrite (lease_run_app _ _ a)|done| |done].
  rewrite Hw. by apply encode_mark.
Qed.

Lemma step_flow_inv s s' a : step s s' -> flow_inv s a -> exists a', flow_inv s' a'.
Proof.
  intros Hs Hi. pose proof (fi_threads _ _ Hi) as Ht. pose proof (fi_ok _ _ Hi) as Ho.
  destruct Hs as
    [s i gen g Hp Hu Hg|s i g obs Hp Hw|s i g obs Hp|s i gen ecpu k g cpu Hp Hu Hu' Hg
    |s i g k cpu obs Hp Hw|s i g k cpu obs Hp|s|s i g Hp|s i g obs Hp Hw|s i g obs Hp|s i Hp];
    try (specialize (Ht i _ Hp); simpl in Ht).
  - exists a. apply install_guard_u32 in Hg as [? _]; [|done]. by apply install_round_inv.
  - eexists. by eapply install_cas_inv.
  - exists a. apply install_round_inv; tauto.
  - exists a. apply acquire_guard_u32 in Hg as (? & ? & _); [|done..]. by apply acquire_round_inv.
  - eexists. by eapply acquire_cas_inv.
  - exists a. apply acquire_round_inv; tauto.
  - eexists. by apply mark_inv.
  - exists a. apply release_round_inv; tauto.
  - eexists. by eapply release_cas_inv.
  - exists a. apply release_round_inv; tauto.
  - exists a. apply goto_inv; simpl; [done|done|].
    rewrite (fi_word _ _ Hi), encode_pending by done. by rewrite Bool.eqb_reflx.
Qed.

Lemma init_flow_inv n : flow_inv (init n) (mk_lease 0 None false).
Proof.
  split; [done|split; done|done|]. intros i p Hi. simpl in Hi.
  apply lookup_replicate in Hi as [-> _]. by intros [].
Qed.

Lemma reachable_flow_inv n s : rtc step (init n) s -> exists a, flow_inv s a.
Proof.
  intros Hr. assert (exists a, flow_inv (init n) a) as Hinit by (eexists; apply init_flow_inv).
  revert Hinit. induction Hr as [|x y z Hs Hr IH]; [done|]. intros [a Ha].
  apply IH. by eapply step_flow_inv.
Qed.

(** ** Snapshots *)

(** A byte field of the low half. *)
Lemma encode_field a m :
  lease_ok a -> 0 <= m < 2 ^ 32 ->
  Z.land (encode a) m = Z.land (low_bits (l_holder a) (l_pending a)) m.
Proof.
  intros [Hg Hh] Hm. unfold encode. replace m with (0 * 2 ^ 32 + m) at 1 by lia.
  rewrite word_land by (auto using low_bits_range || lia). by rewrite Z.land_0_r.
Qed.

Lemma flag_bits_range (p : bool) : 0 <= 1 + (if p then 2 else 0) < 2 ^ 8.
Proof. destruct p; lia. Qed.

Lemma encode_kind a i k cpu :
  lease_ok a -> l_holder a = Some (i, k, cpu) ->
  Z.shiftr (Z.land (encode a) EXECUTOR_KIND_MASK) EXECUTOR_KIND_SHIFT = kind_bits k.
Proof.
  intros Ha E. rewrite encode_field by done. rewrite E. destruct Ha as [_ Hh]. rewrite E in Hh.
  unfold low_bits. pose proof (flag_bits_range (l_pending a)).
  replace (cpu * 65536 + kind_bits k * 256 + 1 + (if l_pending a then 2 else 0))
    with (cpu * 2 ^ 16 + (kind_bits k * 256 + (1 + (if l_pending a then 2 else 0)))) by lia.
  change EXECUTOR_KIND_MASK with (0 * 2 ^ 16 + 255 * 256).
  rewrite land_split by (destruct k; simpl kind_bits; lia). rewrite Z.land_0_r.
  change (255 * 256) with (255 * 2 ^ 8 + 0). change 256 with (2 ^ 8).
  rewrite land_split by lia. rewrite Z.land_0_r. unfold EXECUTOR_KIND_SHIFT.
  rewrite Z.shiftr_div_pow2 by lia. rewrite Z.add_0_l, Z.add_0_r, Z.div_mul by lia.
  by destruct k.
Qed.

Lemma encode_cpu a i k cpu :
  lease_ok a -> l_holder a = Some (i, k, cpu) ->
  Z.shiftr (Z.land (encode a) EXECUTOR_CPU_MASK) EXECUTOR_CPU_SHIFT = cpu.
Proof.
  intros Ha E. rewrite encode_field by done. rewrite E. destruct Ha as [_ Hh]. rewrite E in Hh.
  unfold low_bits. pose proof (flag_bits_range (l_pending a)).
  replace (cpu * 65536 + kind_bits k * 256 + 1 + (if l_pending a then 2 else 0))
    with (cpu * 2 ^ 16 + (kind_bits k * 256 + (1 + (if l_pending a then 2 else 0)))) by lia.
  change EXECUTOR_CPU_MASK with (Z.ones 8 * 2 ^ 16 + 0).
  rewrite land_split by (destruct k; simpl kind_bits; lia). rewrite Z.land_0_r, Z.land_ones by lia.
  rewrite Z.mod_small by ulia. unfold EXECUTOR_CPU_SHIFT.
  by rewrite Z.shiftr_div_pow2, Z.add_0_r, Z.div_mul by lia.
Qed.

Definition lease_snapshot (a : lease) : FlowExecutionSnapshot :=
  mk_snapshot (l_gen a) ((fun h => h.1.2) <$> l_holder a) ((fun h => h.2) <$> l_holder a)
    (match l_holder a with Some _ => true | None => false end) (l_pending a).

Lemma snapshot_encode a : lease_ok a -> snapshot (encode a) = Done (lease_snapshot a).
Proof.
  intros Ha. unfold snapshot, lease_snapshot.
  rewrite encode_busy, encode_generation, encode_pending by done.
  destruct (l_holder a) as [[[i k] cpu]|] eqn:E; [|done].
  rewrite (encode_kind a i k cpu), (encode_cpu a i k cpu) by done. by destruct k.
Qed.

(** ** Pending work *)

(** Work was published and nobody has acquired the lease, or installed a
    generation, since. *)
Definition work_outstanding (tr : list event) : Prop :=
  exists t1 t2, tr = t1 ++ EvMark :: t2 /\
    Forall (fun ev => match ev with EvAcquire _ _ _ _ | EvInstall _ => False | _ => True end) t2.

Lemma lease_event_pending a a' ev :
  lease_event a ev = Some a' ->
  l_pending a' = match ev with
                 | EvMark => true | EvAcquire _ _ _ _ | EvInstall _ => false | _ => l_pending a
                 end.
Proof. destruct ev; simpl; intros; repeat case_match; by simplify_eq. Qed.

Lemma work_outstanding_snoc tr ev :
  work_outstanding (tr ++ [ev]) <->
  match ev with
  | EvMark => True | EvAcquire _ _ _ _ | EvInstall _ => False | _ => work_outstanding tr
  end.
Proof.
  unfold work_outstanding. split.
  - intros (t1 & t2 & E & Hall). destruct t2 as [|x t2 _] using rev_ind.
    + apply app_inj_tail in E as [_ ->]. done.
    + rewrite app_comm_cons, app_assoc in E. apply app_inj_tail in E as [-> ->].
      apply Forall_app in Hall as [Hall Hx]. rewrite Forall_singleton in Hx.
      destruct x; try done; by exists t1, t2.
  - destruct ev; try done; try (intros _; by exists tr, []);
      intros (t1 & t2 & -> & Hall); eexists t1, (t2 ++ [_]);
      (split; [by rewrite <- app_assoc|]); apply Forall_app; (split; [done|]);
      by rewrite Forall_singleton.
Qed.

Lemma lease_run_pending tr a :
  lease_run tr = Some a -> l_pending a = true <-> work_outstanding tr.
Proof.
  revert a. induction tr as [|ev tr IH] using rev_ind; intros a Hr.
  - unfold lease_run in Hr. simpl in Hr. simplify_eq. split; [done|].
    intros (t1 & t2 & E & _). by destruct t1.
  - rewrite work_outstanding_snoc. unfold lease_run in *. rewrite foldl_app in Hr. simpl in Hr.
    apply bind_Some in Hr as (b & Hb & He). specialize (IH b Hb).
    rewrite (lease_event_pending _ _ _ He). destruct ev; try done.
Qed.

(** ** Properties *)


Definition ex_flow : system :=
  mk_system (encode (mk_lease 5 (Some (0%nat, Syscall, 3)) true)) [Holding 5; Outside]
    [EvInstall 5; EvAcquire 0 5 Syscall 3; EvMark].

(** A generation is installed, a thread acquires, work arrives. *)
Lemma ex_flow_reachable : rtc step (init 2) ex_flow.
Proof.
  eapply rtc_l; [apply (install_load _ 0%nat 5 5); [reflexivity|split; discriminate|reflexivity]|].
  eapply rtc_l; [apply (install_cas _ 0%nat 5 0); reflexivity|].
  eapply rtc_l; [apply (acquire_load _ 0%nat 5 3 Syscall 5 3);
    [reflexivity|split; discriminate|split; discriminate|reflexivity]|].
  eapply rtc_l; [apply (acquire_cas _ 0%nat 5 Syscall 3 (5 * 2 ^ 32)); reflexivity|].
  eapply rtc_l; [apply mark|]. apply rtc_refl.
Defined.


(** At most one thread is ever between a successful [try_acquire] and the
    exchange of its release; while it is, the word is busy with the generation
    of its lease; and no assertion of [release] ever fires. *)
Theorem flow_single_writer n s i j p q :
  rtc step (init n) s -> threads s !! i = Some p -> threads s !! j = Some q ->
  let in_lease p := match p with Holding _ | Releasing _ _ => true | _ => false end in
  p <> Panicked /\
  (in_lease p = true -> in_lease q = true -> i = j) /\
  (forall g, p = Holding g -> is_busy (word s) = true /\ generation_of (word s) = g).
Proof.
  intros [a [_ Ho Hw Ht]]%reachable_flow_inv Hi Hj. pose proof (Ht _ _ Hi) as Hp.
  pose proof (Ht _ _ Hj) as Hq. cbv zeta. split_and!.
  - by intros ->.
  - intros Hlp Hlq. unfold thread_ok, holder_is in Hp, Hq.
    destruct p; try done; destruct q; try done;
      destruct (l_holder a) as [[[x ?] ?]|]; destruct Hp, Hq; by subst.
  - intros g ->. destruct Hp as [Hh Hg]. rewrite Hw, encode_busy, encode_generation by done.
    split; [|done]. unfold holder_is in Hh. by destruct (l_holder a).
Qed.

Lemma flow_single_writer_witness :
  rtc step (init 2) ex_flow /\ is_busy (word ex_flow) = true /\ generation_of (word ex_flow) = 5.
Proof.
  split; [exact ex_flow_reachable|].
  destruct (flow_single_writer 2 ex_flow 0%nat 0%nat (Holding 5) (Holding 5) ex_flow_reachable
    ltac:(reflexivity) ltac:(reflexivity)) as (_ & _ & H).
  apply H. reflexivity.
Defined.

(** Published work is never lost: the pending bit is set exactly when work
    was marked after the last acquisition or installation, so the recheck after
    a release sees every mark that its own acquisition did not consume. *)
Theorem flow_pending_exact n s :
  rtc step (init n) s -> is_pending (word s) = true <-> work_outstanding (trace s).
Proof.
  intros [a [Hr Ho Hw _]]%reachable_flow_inv. rewrite Hw, encode_pending by done.
  by apply lease_run_pending.
Qed.

Lemma flow_pending_exact_witness : is_pending (word ex_flow) = true /\ work_outstanding (trace ex_flow).
Proof.
  split; [reflexivity|]. apply (flow_pending_exact 2 ex_flow ex_flow_reachable). reflexivity.
Defined.

(** [snapshot] never reaches its [unreachable!]: in every reachable state
    it reports the generation, the executor and the flags of the contract. *)
Theorem flow_snapshot_total n s :
  rtc step (init n) s ->
  exists a, lease_run (trace s) = Some a /\ snapshot (word s) = Done (lease_snapshot a).
Proof.
  intros [a [Hr Ho Hw _]]%reachable_flow_inv. exists a. split; [done|]. rewrite Hw.
  by apply snapshot_encode.
Qed.

Lemma flow_snapshot_total_witness :
  exists a, lease_run (trace ex_flow) = Some a /\ snapshot (word ex_flow) = Done (lease_snapshot a).
Proof. apply (flow_snapshot_total 2 ex_flow ex_flow_reachable). Defined.
