(* ===== verification/Ring.v ===== *)
(** * The bounded multi-producer queue

    The model of [libs/net/src/ring.rs]: a ring of slots, each with a sequence
    number that says whose turn the slot is.  The sequence numbers and the two
    counters are machine words that wrap around; producers and the consumer
    interleave at every access to shared memory, and a weak exchange may fail
    for no reason.  Memory accesses take effect in the order in which they are
    performed. *)

From S2P Require Import Prelude.

Module Ring.
Section ring.
Context {T : Type}.

(** [value] is [None] where the cell is uninitialised or was moved out of. *)
Record Slot : Type := mk_slot { sequence : Z; value : option T }.

(** [new]: the slots; the mask is the capacity less one, the counters start at
    zero. *)
Definition new (capacity : Z) : exec (list Slot) :=
  if is_power_of_two capacity && (2 <=? capacity) && (capacity <=? I64_MAX)
  then Done (map (fun i => mk_slot (Z.of_nat i) None) (seq 0 (Z.to_nat capacity)))
  else Panic.

(** The slot a position selects. *)
Definition index (capacity position : Z) : nat := Z.to_nat (Z.land position (capacity - 1)).

(** [sequence.wrapping_sub(position) as isize]. *)
Definition distance (sequence position : Z) : Z := as_isize (wrapping_sub sequence position).

(** A producer in [try_push].  [ticket] is auxiliary: how many positions had
    been claimed when [position] was read; it counts without wrapping. *)
Inductive producer : Type :=
| PIdle
| PStart (v : T)
| PLoaded (v : T) (position ticket : Z)
| PChecked (v : T) (position ticket : Z)
| PClaimed (v : T) (position ticket : Z)
| PWritten (position ticket : Z).

(** The consumer in [try_pop]; [CUndefined] is a read of a cell that holds no
    value. *)
Inductive consumer : Type :=
| CIdle
| CLoaded (position : Z)
| CChecked (position : Z)
| CAdvanced (position : Z)
| CRead (position : Z) (v : T)
| CUndefined.

Inductive event : Type :=
| EvClaim (v : T)
| EvComplete (ticket : Z)
| EvRefuse (v : T)
| EvPop (v : T)
| EvEmpty.

Record system : Type := mk_system {
  slots : list Slot;
  enqueue : Z;
  dequeue : Z;
  producers : list producer;
  cons : consumer;
  trace : list event
}.

Definition claims (tr : list event) : Z :=
  Z.of_nat (length (filter (fun ev => match ev with EvClaim _ => true | _ => false end = true) tr)).

Definition set_producer (s : system) (i : nat) (p : producer) (evs : list event) : system :=
  mk_system (slots s) (enqueue s) (dequeue s) (<[i := p]> (producers s)) (cons s) (trace s ++ evs).
Definition set_consumer (s : system) (c : consumer) (evs : list event) : system :=
  mk_system (slots s) (enqueue s) (dequeue s) (producers s) c (trace s ++ evs).
Definition set_slot (s : system) (j : nat) (sl : Slot) : system :=
  mk_system (<[j := sl]> (slots s)) (enqueue s) (dequeue s) (producers s) (cons s) (trace s).
Definition set_enqueue (s : system) (x : Z) : system :=
  mk_system (slots s) x (dequeue s) (producers s) (cons s) (trace s).
Definition set_dequeue (s : system) (x : Z) : system :=
  mk_system (slots s) (enqueue s) x (producers s) (cons s) (trace s).

(** What a producer does with the sequence number it read. *)
Definition push_decide (sl : Slot) (v : T) (position ticket : Z) : producer * list event :=
  let d := distance (sequence sl) position in
  if d =? 0 then (PChecked v position ticket, [])
  else if d <? 0 then (PIdle, [EvRefuse v])
  else (PStart v, []).

(** What the consumer does with the sequence number it read. *)
Definition pop_decide (sl : Slot) (position : Z) : consumer * list event :=
  if negb (distance (sequence sl) (wrapping_add position 1) =? 0)
  then (CIdle, [EvEmpty]) else (CChecked position, []).

(** How far the queue may advance while one producer is between reading the
    counter and its exchange, for the wrapped numbers to be unambiguous. *)
Definition LAG : Z := 2 ^ 62.

Inductive step (capacity : Z) : system -> system -> Prop :=
| push_call s i v :
    producers s !! i = Some PIdle -> step capacity s (set_producer s i (PStart v) [])
| push_load s i v :
    producers s !! i = Some (PStart v) ->
    step capacity s (set_producer s i (PLoaded v (enqueue s) (claims (trace s))) [])
| push_check s i v position ticket sl :
    producers s !! i = Some (PLoaded v position ticket) ->
    slots s !! index capacity position = Some sl ->
    claims (trace s) - ticket < LAG ->
    step capacity s
      (set_producer s i (push_decide sl v position ticket).1 (push_decide sl v position ticket).2)
| push_exchange s i v position ticket :
    producers s !! i = Some (PChecked v position ticket) -> enqueue s = position ->
    claims (trace s) - ticket < LAG ->
    step capacity s
      (set_producer (set_enqueue s (wrapping_add position 1)) i (PClaimed v position ticket)
         [EvClaim v])
| push_retry s i v position ticket :
    producers s !! i = Some (PChecked v position ticket) ->
    step capacity s (set_producer s i (PLoaded v (enqueue s) (claims (trace s))) [])
| push_write s i v position ticket sl :
    producers s !! i = Some (PClaimed v position ticket) ->
    slots s !! index capacity position = Some sl ->
    step capacity s
      (set_producer (set_slot s (index capacity position) (mk_slot (sequence sl) (Some v)))
         i (PWritten position ticket) [])
| push_publish s i position ticket sl :
    producers s !! i = Some (PWritten position ticket) ->
    slots s !! index capacity position = Some sl ->
    step capacity s
      (set_producer
         (set_slot s (index capacity position) (mk_slot (wrapping_add position 1) (value sl)))
         i PIdle [EvComplete ticket])
| pop_load s :
    cons s = CIdle -> step capacity s (set_consumer s (CLoaded (dequeue s)) [])
| pop_check s position sl :
    cons s = CLoaded position -> slots s !! index capacity position = Some sl ->
    step capacity s (set_consumer s (pop_decide sl position).1 (pop_decide sl position).2)
| pop_advance s position :
    cons s = CChecked position ->
    step capacity s
      (set_consumer (set_dequeue s (wrapping_add position 1)) (CAdvanced position) [])
| pop_read s position sl :
    cons s = CAdvanced position -> slots s !! index capacity position = Some sl ->
    step capacity s
      (match value sl with
       | Some v => set_consumer (set_slot s (index capacity position) (mk_slot (sequence sl) None))
                     (CRead position v) []
       | None => set_consumer s CUndefined []
       end)
| pop_release s position v sl :
    cons s = CRead position v -> slots s !! index capacity position = Some sl ->
    step capacity s
      (set_consumer
         (set_slot s (index capacity position)
            (mk_slot (wrapping_add position capacity) (value sl)))
         CIdle [EvPop v]).

(** [len]. *)
Definition len (capacity : Z) (s : system) : Z :=
  Z.min (wrapping_sub (enqueue s) (dequeue s)) capacity.

Definition init (sl : list Slot) (n : nat) : system :=
  mk_system sl 0 0 (replicate n PIdle) CIdle [].

End ring.
Arguments Slot : clear implicits.
Arguments producer : clear implicits.
Arguments consumer : clear implicits.
Arguments event : clear implicits.
Arguments system : clear implicits.
End Ring.
Import Ring.

(** ** The contract

    A queue of at most [capacity] values, each marked once its push has
    completed; [base] counts the values taken out. *)

Section contract.
Context {T : Type} (capacity : Z).

Record queue : Type := mk_queue { base : Z; items : list (T * bool) }.

Inductive queue_step : queue -> event T -> queue -> Prop :=
(** A value is accepted only when there is room, *)
| queue_claim b l v :
    Z.of_nat (length l) < capacity ->
    queue_step (mk_queue b l) (EvClaim v) (mk_queue b (l ++ [(v, false)]))
(** its push completes once, *)
| queue_complete b l ticket v :
    b <= ticket -> l !! Z.to_nat (ticket - b) = Some (v, false) ->
    queue_step (mk_queue b l) (EvComplete ticket)
      (mk_queue b (<[Z.to_nat (ticket - b) := (v, true)]> l))
(** a value is refused only when the queue is full, *)
| queue_refuse b l v :
    Z.of_nat (length l) = capacity -> queue_step (mk_queue b l) (EvRefuse v) (mk_queue b l)
(** the oldest value is the one taken, *)
| queue_pop b l v :
    queue_step (mk_queue b ((v, true) :: l)) (EvPop v) (mk_queue (b + 1) l)
(** and nothing is taken only when the oldest value is not complete. *)
| queue_empty b l :
    (forall v l', l <> (v, true) :: l') -> queue_step (mk_queue b l) EvEmpty (mk_queue b l).

Inductive queue_run : list (event T) -> queue -> Prop :=
| run_start : queue_run [] (mk_queue 0 [])
| run_snoc tr q ev q' : queue_run tr q -> queue_step q ev q' -> queue_run (tr ++ [ev]) q'.

End contract.
Arguments queue : clear implicits.

(** ** Wrapped numbers *)

Definition wrap (x : Z) : Z := x mod U64_MOD.

Lemma wrap_add x y : wrapping_add (wrap x) y = wrap (x + y).
Proof. unfold wrapping_add, wrap. by rewrite Z.add_mod_idemp_l. Qed.

Lemma wrap_sub x y : wrapping_sub (wrap x) (wrap y) = wrap (x - y).
Proof. unfold wrapping_sub, wrap. by rewrite <- Zminus_mod. Qed.

(** Signed distances below half the range are exact. *)
Lemma distance_wrap x y :
  - 2 ^ 63 <= x - y < 2 ^ 63 -> distance (wrap x) (wrap y) = x - y.
Proof.
  intros H. unfold distance. rewrite wrap_sub. unfold as_isize, wrap, U64_MOD, I64_MAX in *.
  destruct (Z.lt_ge_cases (x - y) 0).
  - rewrite <- (Z.mod_add (x - y) 1), Z.mod_small by lia. case_match; reflect_bools; lia.
  - rewrite Z.mod_small by lia. case_match; reflect_bools; lia.
Qed.

Lemma wrap_inj x y : - 2 ^ 63 <= x - y < 2 ^ 63 -> wrap x = wrap y -> x = y.
Proof.
  intros H E. pose proof (distance_wrap x y H) as Hd. rewrite E in Hd. unfold distance in Hd.
  rewrite wrap_sub, Z.sub_diag in Hd. change (as_isize (wrap 0)) with 0 in Hd. lia.
Qed.

Section proofs.
Context {T : Type} (k : Z) (Hk : 1 <= k <= 62).

Definition capacity : Z := 2 ^ k.

Lemma capacity_range : 2 <= capacity <= 2 ^ 62.
Proof.
  unfold capacity. split.
  - change 2 with (2 ^ 1) at 1. apply Z.pow_le_mono_r; lia.
  - apply Z.pow_le_mono_r; lia.
Qed.

(** The slot of a position, counted without wrapping. *)
Definition idx (p : Z) : nat := Z.to_nat (p mod capacity).

Lemma index_wrap x : index capacity (wrap x) = idx x.
Proof.
  unfold index, idx, wrap, capacity. f_equal.
  replace (2 ^ k - 1) with (Z.ones k) by (rewrite Z.ones_equiv; lia).
  rewrite Z.land_ones by lia. apply Z.mod_mod_divide.
  change U64_MOD with (2 ^ 64). exists (2 ^ (64 - k)). rewrite <- Z.pow_add_r by lia. f_equal. lia.
Qed.

Lemma idx_inj b p q : b <= p < b + capacity -> b <= q < b + capacity -> idx p = idx q -> p = q.
Proof.
  pose proof capacity_range as Hc. unfold idx. intros Hp Hq E.
  pose proof (Z.mod_pos_bound p capacity ltac:(lia)). pose proof (Z.mod_pos_bound q capacity ltac:(lia)).
  assert (p mod capacity = q mod capacity) as E' by lia.
  pose proof (Z.div_mod p capacity ltac:(lia)). pose proof (Z.div_mod q capacity ltac:(lia)).
  assert (forall a c, a < c -> capacity * a + capacity <= capacity * c) as Hm by (intros; nia).
  destruct (Z.lt_trichotomy (p / capacity) (q / capacity)) as [Hl|[Hl|Hl]];
    [apply Hm in Hl; lia| |apply Hm in Hl; lia].
  rewrite Hl in *. lia.
Qed.

Lemma idx_shift p : idx (p + capacity) = idx p.
Proof.
  pose proof capacity_range. unfold idx. f_equal.
  rewrite <- (Z.mul_1_l capacity) at 1. apply Z.mod_add. lia.
Qed.

(** The position of the current window that shares the slot of [t]. *)
Lemma window_position b t :
  exists p, b <= p < b + capacity /\ idx p = idx t /\ exists n, t = p + n * capacity.
Proof.
  pose proof capacity_range as Hc. exists (b + (t - b) mod capacity).
  pose proof (Z.mod_pos_bound (t - b) capacity ltac:(lia)). split; [lia|].
  pose proof (Z.div_mod (t - b) capacity ltac:(lia)) as Hdm.
  assert (t = b + (t - b) mod capacity + (t - b) / capacity * capacity) as Ht by lia.
  split; [|by eexists]. unfold idx. f_equal. rewrite Ht at 2. by rewrite Z.mod_add by lia.
Qed.

(** ** The invariant *)

(** How far the push of an accepted value has come, and whose it is. *)
Inductive status : Type := SClaimed (i : nat) | SWritten (i : nat) | SReady.

Definition ready (st : status) : bool := match st with SReady => true | _ => false end.
Definition flags (l : list (T * status)) : list (T * bool) :=
  (fun e => (e.1, ready e.2)) <$> l.

Definition moved (c : consumer T) : bool := match c with CRead _ _ => true | _ => false end.
Definition ahead (c : consumer T) : Z := match c with CAdvanced _ | CRead _ _ => 1 | _ => 0 end.

Definition slot_ok (c : consumer T) (b : Z) (l : list (T * status)) (p : Z) (sl : Slot T) : Prop :=
  match l !! Z.to_nat (p - b) with
  | None | Some (_, SClaimed _) => sl = mk_slot (wrap p) None
  | Some (v, SWritten _) => sl = mk_slot (wrap p) (Some v)
  | Some (v, SReady) =>
      sl = mk_slot (wrap (p + 1)) (if moved c && (p =? b) then None else Some v)
  end.

Definition producer_ok (b : Z) (l : list (T * status)) (i : nat) (p : producer T) : Prop :=
  match p with
  | PIdle | PStart _ => True
  | PLoaded _ pos t => pos = wrap t /\ t <= b + Z.of_nat (length l)
  | PChecked _ pos t => pos = wrap t /\ t <= b + Z.of_nat (length l) /\ t < b + capacity
  | PClaimed v pos t => pos = wrap t /\ b <= t /\ l !! Z.to_nat (t - b) = Some (v, SClaimed i)
  | PWritten pos t =>
      pos = wrap t /\ b <= t /\ exists v, l !! Z.to_nat (t - b) = Some (v, SWritten i)
  end.

Definition consumer_ok (b : Z) (l : list (T * status)) (c : consumer T) : Prop :=
  match c with
  | CIdle => True
  | CLoaded pos => pos = wrap b
  | CChecked pos | CAdvanced pos => pos = wrap b /\ exists v, l !! 0%nat = Some (v, SReady)
  | CRead pos v => pos = wrap b /\ l !! 0%nat = Some (v, SReady)
  | CUndefined => False
  end.

Record ring_inv (s : system T) (b : Z) (l : list (T * status)) : Prop := mk_ring_inv {
  ri_slots_len : Z.of_nat (length (slots s)) = capacity;
  ri_room : Z.of_nat (length l) <= capacity;
  ri_enqueue : enqueue s = wrap (b + Z.of_nat (length l));
  ri_dequeue : dequeue s = wrap (b + ahead (cons s));
  ri_claims : claims (trace s) = b + Z.of_nat (length l);
  ri_slots : forall p, b <= p < b + capacity ->
    exists sl, slots s !! idx p = Some sl /\ slot_ok (cons s) b l p sl;
  ri_producers : forall i p, producers s !! i = Some p -> producer_ok b l i p;
  ri_consumer : consumer_ok b l (cons s);
  ri_run : queue_run capacity (trace s) (mk_queue b (flags l))
}.

Lemma length_flags l : length (flags l) = length l.
Proof. apply length_fmap. Qed.

Lemma claims_app tr evs : claims (tr ++ evs) = claims tr + claims (T := T) evs.
Proof. unfold claims. rewrite filter_app, length_app. lia. Qed.

Lemma producers_insert b l b' l' (ps : list (producer T)) i p' :
  (forall j p, ps !! j = Some p -> producer_ok b l j p) -> producer_ok b' l' i p' ->
  (forall j p, j <> i -> producer_ok b l j p -> producer_ok b' l' j p) ->
  forall j p, <[i := p']> ps !! j = Some p -> producer_ok b' l' j p.
Proof.
  intros Hps Hp' Hother j p Hj. destruct (decide (j = i)) as [->|Hne].
  - rewrite list_lookup_insert_eq in Hj; [by simplify_eq|].
    apply lookup_lt_Some in Hj. by rewrite length_insert in Hj.
  - rewrite list_lookup_insert_ne in Hj by done. auto.
Qed.

(** One slot of the window changes. *)
Lemma slots_insert c b l c' l' (sls : list (Slot T)) q sl' :
  (forall p, b <= p < b + capacity -> exists sl, sls !! idx p = Some sl /\ slot_ok c b l p sl) ->
  b <= q < b + capacity -> slot_ok c' b l' q sl' ->
  (forall p sl, b <= p < b + capacity -> p <> q -> slot_ok c b l p sl -> slot_ok c' b l' p sl) ->
  forall p, b <= p < b + capacity ->
    exists sl, <[idx q := sl']> sls !! idx p = Some sl /\ slot_ok c' b l' p sl.
Proof.
  intros Hs Hq Hsl' Hother p Hp. destruct (decide (p = q)) as [->|Hne].
  - exists sl'. split; [|done]. destruct (Hs q Hq) as (sl & Hl & _).
    apply list_lookup_insert_eq. by eapply lookup_lt_Some.
  - destruct (Hs p Hp) as (sl & Hl & Hok). exists sl. split; [|by apply Hother].
    rewrite list_lookup_insert_ne; [done|]. intros E. apply Hne. by apply (idx_inj b).
Qed.

(** A producer moves without touching shared memory. *)
Lemma producer_moves s b l i p :
  ring_inv s b l -> producer_ok b l i p -> ring_inv (set_producer s i p []) b l.
Proof.
  intros [] Hp. split; simpl; rewrite ?app_nil_r; try done. by eapply producers_insert.
Qed.

Lemma producer_reports s b l i p ev :
  ring_inv s b l -> producer_ok b l i p -> claims [ev] = 0 ->
  queue_step capacity (mk_queue b (flags l)) ev (mk_queue b (flags l)) ->
  ring_inv (set_producer s i p [ev]) b l.
Proof.
  intros [] Hp Hc Hq. split; simpl; try done.
  - rewrite claims_app. lia.
  - by eapply producers_insert.
  - by eapply run_snoc.
Qed.

(** The slot a producer or the consumer looks at, when its position is in the
    window. *)
Lemma slot_in_window s b l t sl :
  ring_inv s b l -> b <= t < b + capacity -> slots s !! index capacity (wrap t) = Some sl ->
  slot_ok (cons s) b l t sl.
Proof.
  intros Hi Ht Hl. rewrite index_wrap in Hl.
  destruct (ri_slots _ _ _ Hi t Ht) as (sl' & Hl' & Hok). by simplify_eq.
Qed.

(** *** Producers *)

Lemma slot_sequence c b l p sl :
  slot_ok c b l p sl -> exists q, sequence sl = wrap q /\ p <= q <= p + 1.
Proof.
  unfold slot_ok. destruct (l !! _) as [[v []]|]; intros ->; simpl.
  1,2,4: exists p. 4: exists (p + 1). all: split; (done || lia).
Qed.

Lemma push_check_inv s b l i v pos t sl :
  ring_inv s b l -> producers s !! i = Some (PLoaded v pos t) ->
  slots s !! index capacity pos = Some sl -> claims (trace s) - t < LAG ->
  ring_inv (set_producer s i (push_decide sl v pos t).1 (push_decide sl v pos t).2) b l.
Proof.
  intros Hi Hp Hsl Hlag. pose proof capacity_range as Hc. unfold LAG in Hlag.
  destruct (ri_producers _ _ _ Hi _ _ Hp) as [-> Ht].
  rewrite (ri_claims _ _ _ Hi) in Hlag. pose proof (ri_room _ _ _ Hi) as Hroom.
  destruct (window_position b t) as (p & Hpw & Hidx & n & Hn).
  destruct (ri_slots _ _ _ Hi p Hpw) as (sl' & Hl' & Hok).
  rewrite index_wrap, <- Hidx in Hsl. simplify_eq.
  destruct (slot_sequence _ _ _ _ _ Hok) as (q & Hq & Hqr).
  unfold push_decide. rewrite Hq, distance_wrap by lia.
  destruct (Z.eqb_spec (q - (p + n * capacity)) 0) as [E|E]; simpl.
  - apply producer_moves; [done|]. assert (n = 0) as -> by nia. simpl. split_and!; [done|lia|lia].
  - destruct (Z.ltb_spec (q - (p + n * capacity)) 0) as [Hlt|Hge]; simpl.
    + assert (1 <= n) by nia. assert (n * capacity >= capacity) by nia.
      apply producer_reports; [done|done|done|]. constructor. rewrite length_flags. lia.
    + by apply producer_moves.
Qed.

Lemma push_exchange_inv s b l i v pos t :
  ring_inv s b l -> producers s !! i = Some (PChecked v pos t) -> enqueue s = pos ->
  claims (trace s) - t < LAG ->
  ring_inv (set_producer (set_enqueue s (wrapping_add pos 1)) i (PClaimed v pos t) [EvClaim v])
    b (l ++ [(v, SClaimed i)]).
Proof.
  intros Hi Hp He Hlag. pose proof capacity_range as Hc. unfold LAG in Hlag.
  destruct (ri_producers _ _ _ Hi _ _ Hp) as (-> & Ht & Htc).
  destruct Hi as [Hsl Hroom Henq Hdeq Hcl Hslots Hprod Hcons Hrun].
  assert (t = b + Z.of_nat (length l)) as ->.
  { rewrite Henq in He. symmetry. apply wrap_inj; [lia|done]. }
  split; simpl; rewrite ?length_app; simpl; try done.
  - lia.
  - rewrite wrap_add. f_equal. lia.
  - rewrite claims_app, Hcl. change (claims [EvClaim v]) with 1. lia.
  - intros p Hpw. destruct (Hslots p Hpw) as (sl & Hl & Hok). exists sl. split; [done|].
    unfold slot_ok in *. destruct (decide (Z.to_nat (p - b) = length l)) as [E|E].
    + rewrite E, list_lookup_middle by done. by rewrite E, lookup_ge_None_2 in Hok by lia.
    + destruct (decide (Z.to_nat (p - b) < length l)%nat).
      * by rewrite lookup_app_l by done.
      * rewrite lookup_ge_None_2 in Hok by lia.
        rewrite lookup_ge_None_2 by (rewrite length_app; simpl; lia). done.
  - eapply producers_insert; [exact Hprod| |].
    + simpl. split_and!; [done|lia|].
      replace (Z.to_nat _) with (length l) by lia. by apply list_lookup_middle.
    + intros j q _. unfold producer_ok. rewrite length_app. simpl.
      destruct q; try done.
      * intros []. split; [done|lia].
      * intros (? & ? & ?). split_and!; [done|lia|done].
      * intros (? & ? & Hl). split_and!; [done..|]. by apply lookup_app_l_Some.
      * intros (? & ? & v' & Hl). split_and!; [done..|]. exists v'. by apply lookup_app_l_Some.
  - unfold consumer_ok in *. destruct (cons s); try done.
    + destruct Hcons as (? & v' & Hl). split; [done|]. exists v'. by apply lookup_app_l_Some.
    + destruct Hcons as (? & v' & Hl). split; [done|]. exists v'. by apply lookup_app_l_Some.
    + destruct Hcons as (? & Hl). split; [done|]. by apply lookup_app_l_Some.
  - eapply run_snoc; [exact Hrun|]. unfold flags. rewrite fmap_app. constructor.
    rewrite length_fmap. lia.
Qed.

Definition owner (st : status) : option nat :=
  match st with SClaimed i | SWritten i => Some i | SReady => None end.

(** An entry of another owner is not affected by a change at [j]. *)
Lemma entry_other (l : list (T * status)) j v st st' n e :
  l !! j = Some (v, st) -> l !! n = Some e -> owner e.2 <> owner st ->
  <[j := (v, st')]> l !! n = Some e.
Proof.
  intros Hj Hn Ho. destruct (decide (n = j)) as [->|]; [simplify_eq; done|].
  by rewrite list_lookup_insert_ne.
Qed.

(** The owner of an accepted value advances it: its slot, its status and its
    own state change, and nothing else does. *)
Lemma advance_inv s b l i t v st st' sl' p' evs :
  ring_inv s b l -> b <= t -> l !! Z.to_nat (t - b) = Some (v, st) -> owner st = Some i ->
  let l' := <[Z.to_nat (t - b) := (v, st')]> l in
  slot_ok (cons s) b l' t sl' -> producer_ok b l' i p' -> claims evs = 0 ->
  queue_run capacity (trace s ++ evs) (mk_queue b (flags l')) ->
  ring_inv (set_producer (set_slot s (idx t) sl') i p' evs) b l'.
Proof.
  intros Hi Hb Hl Ho l' Hsl Hp Hev Hq. destruct Hi as [Hlen Hroom Henq Hdeq Hcl Hslots Hprod Hcons _].
  pose proof (lookup_lt_Some _ _ _ Hl) as Hlt.
  assert (length l' = length l) as Hll by (unfold l'; by rewrite length_insert).
  assert (forall n e, l !! n = Some e -> owner e.2 <> Some i -> l' !! n = Some e) as Hkeep.
  { intros n e Hn Hne. eapply entry_other; [done..|]. by rewrite Ho. }
  split; simpl; rewrite ?length_insert, ?Hll; try done.
  - rewrite claims_app, Hev. lia.
  - eapply slots_insert; [exact Hslots|lia|done|].
    intros q sl Hq' Hne Hok. unfold slot_ok, l' in *.
    rewrite list_lookup_insert_ne; [done|lia].
  - eapply producers_insert; [exact Hprod|done|].
    intros j q Hne. unfold producer_ok. rewrite Hll. destruct q; try done.
    + intros (? & ? & Hn). split_and!; [done..|]. apply Hkeep; [done|]. simpl. congruence.
    + intros (? & ? & v' & Hn). split_and!; [done..|]. exists v'. apply Hkeep; [done|].
      simpl. congruence.
  - unfold consumer_ok in *. destruct (cons s); try done.
    + destruct Hcons as (? & v' & Hn). split; [done|]. exists v'. by apply Hkeep.
    + destruct Hcons as (? & v' & Hn). split; [done|]. exists v'. by apply Hkeep.
    + destruct Hcons as (? & Hn). split; [done|]. by apply Hkeep.
Qed.

Lemma flags_insert l j v st :
  flags (<[j := (v, st)]> l) = <[j := (v, ready st)]> (flags l).
Proof. unfold flags. by rewrite list_fmap_insert. Qed.

Lemma flags_lookup l j v st : l !! j = Some (v, st) -> flags l !! j = Some (v, ready st).
Proof. intros H. unfold flags. by rewrite list_lookup_fmap, H. Qed.

Lemma push_write_inv s b l i v pos t sl :
  ring_inv s b l -> producers s !! i = Some (PClaimed v pos t) ->
  slots s !! index capacity pos = Some sl ->
  ring_inv (set_producer (set_slot s (index capacity pos) (mk_slot (sequence sl) (Some v)))
              i (PWritten pos t) []) b (<[Z.to_nat (t - b) := (v, SWritten i)]> l).
Proof.
  intros Hi Hp Hs. destruct (ri_producers _ _ _ Hi _ _ Hp) as (-> & Hb & Hl).
  pose proof (lookup_lt_Some _ _ _ Hl) as Hlt. pose proof (ri_room _ _ _ Hi) as Hr.
  pose proof (slot_in_window s b l t sl Hi ltac:(lia) Hs) as Hok. unfold slot_ok in Hok.
  rewrite Hl in Hok. rewrite index_wrap.
  eapply advance_inv; [done|done|exact Hl|done|..].
  - unfold slot_ok. rewrite list_lookup_insert_eq by done. by subst sl.
  - simpl. split_and!; [done..|]. exists v. by apply list_lookup_insert_eq.
  - done.
  - rewrite app_nil_r, flags_insert, list_insert_id; [apply Hi|]. by apply flags_lookup in Hl.
Qed.

Lemma push_publish_inv s b l i pos t sl :
  ring_inv s b l -> producers s !! i = Some (PWritten pos t) ->
  slots s !! index capacity pos = Some sl ->
  exists l', ring_inv (set_producer
    (set_slot s (index capacity pos) (mk_slot (wrapping_add pos 1) (value sl))) i PIdle
    [EvComplete t]) b l'.
Proof.
  intros Hi Hp Hs. destruct (ri_producers _ _ _ Hi _ _ Hp) as (-> & Hb & v & Hl).
  pose proof (lookup_lt_Some _ _ _ Hl) as Hlt. pose proof (ri_room _ _ _ Hi) as Hr.
  pose proof (slot_in_window s b l t sl Hi ltac:(lia) Hs) as Hok. unfold slot_ok in Hok.
  rewrite Hl in Hok. rewrite index_wrap. exists (<[Z.to_nat (t - b) := (v, SReady)]> l).
  eapply advance_inv; [done|done|exact Hl|done|..].
  - unfold slot_ok. rewrite list_lookup_insert_eq by done. subst sl. simpl. rewrite wrap_add.
    destruct (moved (cons s)) eqn:Hm; simpl; [|done].
    destruct (Z.eqb_spec t b) as [->|]; [|done]. rewrite Z.sub_diag in Hl.
    pose proof (ri_consumer _ _ _ Hi) as Hc. destruct (cons s); try done.
    destruct Hc as [_ Hc]. change (Z.to_nat 0) with 0%nat in Hl. congruence.
  - done.
  - done.
  - eapply run_snoc; [apply Hi|]. rewrite flags_insert. constructor; [done|].
    by apply flags_lookup in Hl.
Qed.

(** *** The consumer *)

Lemma consumer_moves s b l c evs :
  ring_inv s b l -> consumer_ok b l c -> moved c = moved (cons s) -> ahead c = ahead (cons s) ->
  claims evs = 0 -> queue_run capacity (trace s ++ evs) (mk_queue b (flags l)) ->
  ring_inv (set_consumer s c evs) b l.
Proof.
  intros [Hlen Hroom Henq Hdeq Hcl Hslots Hprod Hcons _] Hc Hm Ha Hev Hq.
  split; simpl; try done.
  - by rewrite Ha.
  - rewrite claims_app, Hev. lia.
  - intros p Hp. destruct (Hslots p Hp) as (sl & Hl & Hok). exists sl. split; [done|].
    unfold slot_ok in *. by rewrite Hm.
Qed.

Lemma pop_check_inv s b l pos sl :
  ring_inv s b l -> cons s = CLoaded pos -> slots s !! index capacity pos = Some sl ->
  ring_inv (set_consumer s (pop_decide sl pos).1 (pop_decide sl pos).2) b l.
Proof.
  intros Hi Hc Hs. pose proof capacity_range as Hcap. pose proof (ri_consumer _ _ _ Hi) as Hco.
  rewrite Hc in Hco. simpl in Hco. subst pos.
  pose proof (slot_in_window s b l b sl Hi ltac:(lia) Hs) as Hok.
  unfold pop_decide. rewrite wrap_add.
  destruct (slot_sequence _ _ _ _ _ Hok) as (q & Eq & Hq). rewrite Eq, distance_wrap by lia.
  unfold slot_ok in Hok. rewrite Z.sub_diag in Hok. change (Z.to_nat 0) with 0%nat in Hok.
  assert (q = b + 1 <-> exists v, l !! 0%nat = Some (v, SReady)) as Hready.
  { destruct (l !! 0%nat) as [[v []]|]; subst sl; simpl in Eq; apply wrap_inj in Eq; try lia;
      split; intros; naive_solver lia. }
  destruct (Z.eqb_spec (q - (b + 1)) 0) as [E|E]; simpl; apply consumer_moves;
    rewrite ?Hc, ?app_nil_r; try done; try apply Hi.
  - split; [done|]. apply Hready. lia.
  - eapply run_snoc; [apply Hi|]. constructor. intros v l' El.
    destruct l as [|[v' st] l]; [done|]. simpl in El. simplify_eq.
    apply E. assert (q = b + 1); [|lia]. apply Hready. exists v. by destruct st.
Qed.

Lemma pop_advance_inv s b l pos :
  ring_inv s b l -> cons s = CChecked pos ->
  ring_inv (set_consumer (set_dequeue s (wrapping_add pos 1)) (CAdvanced pos) []) b l.
Proof.
  intros [Hlen Hroom Henq Hdeq Hcl Hslots Hprod Hcons Hrun] Hc. rewrite Hc in *.
  split; simpl; rewrite ?app_nil_r; try done. destruct Hcons as [-> _]. by rewrite wrap_add.
Qed.

Lemma pop_read_inv s b l pos sl :
  ring_inv s b l -> cons s = CAdvanced pos -> slots s !! index capacity pos = Some sl ->
  ring_inv (match value sl with
            | Some v => set_consumer (set_slot s (index capacity pos) (mk_slot (sequence sl) None))
                          (CRead pos v) []
            | None => set_consumer s CUndefined []
            end) b l.
Proof.
  intros Hi Hc Hs. pose proof capacity_range as Hcap. pose proof (ri_consumer _ _ _ Hi) as Hco.
  rewrite Hc in Hco. destruct Hco as [-> [v Hl]].
  pose proof (slot_in_window s b l b sl Hi ltac:(lia) Hs) as Hok. unfold slot_ok in Hok.
  rewrite Z.sub_diag in Hok. change (Z.to_nat 0) with 0%nat in Hok.
  rewrite Hl, Hc in Hok. simpl in Hok. subst sl. simpl.
  destruct Hi as [Hlen Hroom Henq Hdeq Hcl Hslots Hprod Hcons Hrun]. rewrite Hc in *.
  split; simpl; rewrite ?app_nil_r, ?length_insert; try done.
  rewrite index_wrap. eapply slots_insert; [exact Hslots|lia| |].
  - unfold slot_ok. rewrite Z.sub_diag. change (Z.to_nat 0) with 0%nat. rewrite Hl. simpl.
    by rewrite Z.eqb_refl.
  - intros p sl Hp Hne. unfold slot_ok. simpl. by rewrite (proj2 (Z.eqb_neq p b) Hne).
Qed.

(** Once the oldest entry is gone, the others are one step closer. *)
Lemma lookup_tail {A} (e : A) l b p :
  b < p -> (e :: l) !! Z.to_nat (p - b) = l !! Z.to_nat (p - (b + 1)).
Proof.
  intros. replace (Z.to_nat (p - b)) with (S (Z.to_nat (p - (b + 1)))) by lia. done.
Qed.

Lemma slots_release (sls : list (Slot T)) b v pos l :
  Z.of_nat (length l) < capacity ->
  (forall p, b <= p < b + capacity ->
     exists sl, sls !! idx p = Some sl /\ slot_ok (CRead pos v) b ((v, SReady) :: l) p sl) ->
  forall p, b + 1 <= p < b + 1 + capacity ->
    exists sl, <[idx b := mk_slot (wrap (b + capacity)) None]> sls !! idx p = Some sl /\
      slot_ok CIdle (b + 1) l p sl.
Proof.
  intros Hlen Hs p Hp. pose proof capacity_range as Hc.
  destruct (decide (p = b + capacity)) as [->|Hne].
  - exists (mk_slot (wrap (b + capacity)) None). rewrite idx_shift. split.
    + destruct (Hs b) as (sl & Hl & _); [lia|]. apply list_lookup_insert_eq.
      by eapply lookup_lt_Some.
    + unfold slot_ok. by rewrite lookup_ge_None_2 by lia.
  - destruct (Hs p) as (sl & Hl & Hok); [lia|]. exists sl. split.
    + rewrite list_lookup_insert_ne; [done|]. intros E.
      assert (b = p); [|lia]. apply (idx_inj b); [lia|lia|done].
    + unfold slot_ok in *. rewrite lookup_tail in Hok by lia.
      rewrite (proj2 (Z.eqb_neq p b)), andb_false_r in Hok by lia. done.
Qed.

Lemma producer_release b v l i p :
  producer_ok b ((v, SReady) :: l) i p -> producer_ok (b + 1) l i p.
Proof.
  unfold producer_ok. simpl length. destruct p as [| |w pos t|w pos t|w pos t|pos t]; try done.
  - intros []. split; [done|lia].
  - intros (? & ? & ?). split_and!; [done|lia|lia].
  - intros (-> & Hb & Hl). destruct (decide (t = b)) as [->|].
    + rewrite Z.sub_diag in Hl. change (Z.to_nat 0) with 0%nat in Hl. simpl in Hl. congruence.
    + rewrite lookup_tail in Hl by lia. split_and!; [done|lia|done].
  - intros (-> & Hb & w & Hl). destruct (decide (t = b)) as [->|].
    + rewrite Z.sub_diag in Hl. change (Z.to_nat 0) with 0%nat in Hl. simpl in Hl. congruence.
    + rewrite lookup_tail in Hl by lia. split_and!; [done|lia|by exists w].
Qed.

Lemma pop_release_inv s b l pos v sl :
  ring_inv s b l -> cons s = CRead pos v -> slots s !! index capacity pos = Some sl ->
  ring_inv (set_consumer (set_slot s (index capacity pos)
              (mk_slot (wrapping_add pos capacity) (value sl))) CIdle [EvPop v]) (b + 1) (tail l).
Proof.
  intros Hi Hc Hs. pose proof capacity_range as Hcap. pose proof (ri_consumer _ _ _ Hi) as Hco.
  rewrite Hc in Hco. destruct Hco as [-> Hl].
  pose proof (slot_in_window s b l b sl Hi ltac:(lia) Hs) as Hok. unfold slot_ok in Hok.
  rewrite Z.sub_diag in Hok. change (Z.to_nat 0) with 0%nat in Hok.
  rewrite Hl, Hc in Hok. simpl in Hok. rewrite Z.eqb_refl in Hok. subst sl. simpl.
  destruct l as [|[v' st] l]; [done|]. simpl in Hl. simplify_eq. simpl.
  destruct Hi as [Hlen Hroom Henq Hdeq Hcl Hslots Hprod Hcons Hrun]. rewrite Hc in *. simpl in *.
  split; simpl; rewrite ?length_insert; try done.
  - lia.
  - rewrite Henq. f_equal. lia.
  - rewrite Hdeq. f_equal. lia.
  - rewrite claims_app, Hcl. change (claims [EvPop v]) with 0. lia.
  - rewrite index_wrap, wrap_add. by eapply slots_release; [lia|].
  - intros i p Hp. by eapply producer_release, Hprod.
  - eapply run_snoc; [exact Hrun|]. simpl. constructor.
Qed.

(** *** Every step *)

Lemma ring_step_inv s s' b l :
  step capacity s s' -> ring_inv s b l -> exists b' l', ring_inv s' b' l'.
Proof.
  intros Hs Hi. destruct Hs as
    [s i v Hp|s i v Hp|s i v pos t sl Hp Hl Hlag|s i v pos t Hp He Hlag|s i v pos t Hp
    |s i v pos t sl Hp Hl|s i pos t sl Hp Hl|s Hc|s pos sl Hc Hl|s pos Hc|s pos sl Hc Hl
    |s pos v sl Hc Hl].
  - exists b, l. by apply producer_moves.
  - exists b, l. apply producer_moves; [done|].
    split; [by rewrite (ri_enqueue _ _ _ Hi), (ri_claims _ _ _ Hi)|]. rewrite (ri_claims _ _ _ Hi). lia.
  - exists b, l. by apply push_check_inv.
  - exists b. eexists. by apply push_exchange_inv.
  - exists b, l. apply producer_moves; [done|].
    split; [by rewrite (ri_enqueue _ _ _ Hi), (ri_claims _ _ _ Hi)|]. rewrite (ri_claims _ _ _ Hi). lia.
  - exists b. eexists. by eapply push_write_inv.
  - exists b. by eapply push_publish_inv.
  - exists b, l. apply consumer_moves; rewrite ?Hc, ?app_nil_r; try done; [|apply Hi].
    simpl. rewrite (ri_dequeue _ _ _ Hi), Hc. f_equal. simpl. lia.
  - exists b, l. by apply pop_check_inv.
  - exists b, l. by apply pop_advance_inv.
  - exists b, l. by apply pop_read_inv.
  - exists (b + 1), (tail l). by apply pop_release_inv.
Qed.

Lemma new_slots (sls : list (Slot T)) :
  new capacity = Done sls ->
  Z.of_nat (length sls) = capacity /\
  forall p, 0 <= p < capacity -> sls !! Z.to_nat p = Some (mk_slot p None).
Proof.
  pose proof capacity_range. unfold new. case_match; [|done]. intros [= <-].
  rewrite length_map, length_seq. split; [lia|]. intros p Hp.
  rewrite list_lookup_fmap, lookup_seq_lt by lia. simpl. do 2 f_equal. lia.
Qed.

Lemma init_ring_inv sls n : new capacity = Done sls -> ring_inv (init sls n) 0 [].
Proof.
  intros Hnew. destruct (new_slots _ Hnew) as [Hlen Hsl]. pose proof capacity_range.
  split; simpl; try done; [lia| |intros i p Hi; by apply lookup_replicate in Hi as [-> _]|constructor].
  intros p Hp. exists (mk_slot p None). unfold idx. rewrite Z.mod_small by lia.
  split; [apply Hsl; lia|]. unfold slot_ok. rewrite lookup_nil. f_equal.
  unfold wrap. rewrite Z.mod_small; [done|]. unfold U64_MOD. lia.
Qed.

Lemma ring_reachable_inv sls n s :
  new capacity = Done sls -> rtc (step capacity) (init sls n) s -> exists b l, ring_inv s b l.
Proof.
  intros Hnew Hr. pose proof (init_ring_inv sls n Hnew) as Hinit.
  assert (exists b l, ring_inv (init sls n) b l) as Hex by eauto. clear Hinit. revert Hex.
  induction Hr as [|x y z Hs Hr IH]; [done|]. intros (b & l & Hi). apply IH.
  by eapply ring_step_inv.
Qed.
End proofs.

(** The assertions of [new] leave exactly the powers of two from 2 to [2^62]. *)
Lemma new_capacity {T} c (sls : list (Slot T)) :
  new c = Done sls -> exists k, 1 <= k <= 62 /\ c = capacity k.
Proof.
  unfold new. case_match eqn:E; [|done]. intros _. reflect_bools.
  apply is_power_of_two_spec in H as (k & Hk & ->). exists k. split; [|done].
  unfold I64_MAX in *. split.
  - destruct (Z.eq_dec k 0) as [->|]; [simpl in *; lia|lia].
  - destruct (Z.le_gt_cases k 62); [done|]. pose proof (Z.pow_le_mono_r 2 63 k). lia.
Qed.

(** ** Properties *)

Definition pushes {T} (tr : list (event T)) : list T :=
  omap (fun ev => match ev with EvClaim v => Some v | _ => None end) tr.
Definition pops {T} (tr : list (event T)) : list T :=
  omap (fun ev => match ev with EvPop v => Some v | _ => None end) tr.

Lemma queue_run_fifo {T} c tr (q : queue T) :
  queue_run c tr q -> pushes tr = pops tr ++ (fst <$> items q) /\ base q = Z.of_nat (length (pops tr)).
Proof.
  induction 1 as [|tr q ev q' Hr [IH IHb] Hs]; [done|]. unfold pushes, pops in *.
  rewrite !omap_app, IH. destruct Hs; simpl in *; rewrite ?app_nil_r; try done.
  - by rewrite fmap_app, app_assoc.
  - split; [|done]. f_equal. rewrite list_fmap_insert. simpl. rewrite list_insert_id; [done|].
    by rewrite list_lookup_fmap, H0.
  - rewrite <- app_assoc. simpl. split; [done|]. rewrite length_app. simpl. lia.
Qed.

(** One push and one pop on a queue of two slots. *)
Definition ex_slots : list (Slot Z) := [mk_slot 0 None; mk_slot 1 None].
Definition ex_claimed : system Z :=
  mk_system ex_slots 1 0 [PClaimed 10 0 0] CIdle [EvClaim 10].
Definition ex_popped : system Z :=
  mk_system [mk_slot 2 None; mk_slot 1 None] 1 1 [PIdle] CIdle [EvClaim 10; EvComplete 0; EvPop 10].

Lemma ex_claimed_reachable : rtc (step 2) (init ex_slots 1) ex_claimed.
Proof.
  eapply rtc_l; [apply (push_call 2 _ 0%nat 10); reflexivity|].
  eapply rtc_l; [apply (push_load 2 _ 0%nat 10); reflexivity|].
  eapply rtc_l; [apply (push_check 2 _ 0%nat 10 0 0 (mk_slot 0 None)); reflexivity|].
  eapply rtc_l; [apply (push_exchange 2 _ 0%nat 10 0 0); reflexivity|]. apply rtc_refl.
Defined.

Lemma ex_popped_reachable : rtc (step 2) (init ex_slots 1) ex_popped.
Proof.
  eapply (transitivity ex_claimed_reachable).
  eapply rtc_l; [apply (push_write 2 _ 0%nat 10 0 0 (mk_slot 0 None)); reflexivity|].
  eapply rtc_l; [apply (push_publish 2 _ 0%nat 0 0 (mk_slot 0 (Some 10))); reflexivity|].
  eapply rtc_l; [apply (pop_load 2); reflexivity|].
  eapply rtc_l; [apply (pop_check 2 _ 0 (mk_slot 1 (Some 10))); reflexivity|].
  eapply rtc_l; [apply (pop_advance 2 _ 0); reflexivity|].
  eapply rtc_l; [apply (pop_read 2 _ 0 (mk_slot 1 (Some 10))); reflexivity|].
  eapply rtc_l; [apply (pop_release 2 _ 0 10 (mk_slot 1 None)); reflexivity|]. apply rtc_refl.
Defined.

(** C28. Under every interleaving of any number of producers with the consumer,
    with counters and sequence numbers wrapping around, the calls behave as a
    bounded queue: a value is accepted only when there is room and refused only
    when [capacity] values are in the queue, the oldest value is the one popped,
    a pop returns nothing only when the oldest push has not completed, and a
    cell that holds no value is never read.  The one condition is that the queue
    does not advance by [2^62] while a producer is between reading the counter
    and its exchange. *)
Theorem ring_refines_queue {T} c (sls : list (Slot T)) n s :
  new c = Done sls -> rtc (step c) (init sls n) s ->
  (exists q, queue_run c (trace s) q) /\ cons s <> CUndefined.
Proof.
  intros Hnew Hr. destruct (new_capacity _ _ Hnew) as (k & Hk & ->).
  destruct (ring_reachable_inv k Hk _ _ _ Hnew Hr) as (b & l & Hi).
  split; [eexists; apply Hi|]. intros E. pose proof (ri_consumer _ _ _ _ Hi) as Hc.
  by rewrite E in Hc.
Qed.

Lemma ring_refines_queue_witness :
  new 2 = Done ex_slots /\ rtc (step 2) (init ex_slots 1) ex_popped /\
  exists q, queue_run 2 (trace ex_popped) q.
Proof.
  split; [reflexivity|]. split; [exact ex_popped_reachable|].
  apply (ring_refines_queue 2 ex_slots 1 ex_popped); [reflexivity|exact ex_popped_reachable].
Defined.

(** Nothing is lost, duplicated or reordered: the values accepted are the
    values popped followed by those still in the queue, and [len] is their
    number less the one value the consumer may be in the middle of taking. *)
Theorem ring_fifo {T} c (sls : list (Slot T)) n s :
  new c = Done sls -> rtc (step c) (init sls n) s ->
  exists rest, pushes (trace s) = pops (trace s) ++ rest /\
    Z.of_nat (length rest) <= c /\ len c s = Z.of_nat (length rest) - ahead (cons s).
Proof.
  intros Hnew Hr. destruct (new_capacity _ _ Hnew) as (k & Hk & ->).
  destruct (ring_reachable_inv k Hk _ _ _ Hnew Hr) as (b & l & Hi).
  destruct (queue_run_fifo _ _ _ (ri_run _ _ _ _ Hi)) as [Hp _]. simpl in Hp.
  eexists. split; [exact Hp|]. rewrite length_fmap, length_flags.
  pose proof (ri_room _ _ _ _ Hi). split; [done|]. unfold len.
  rewrite (ri_enqueue _ _ _ _ Hi), (ri_dequeue _ _ _ _ Hi), wrap_sub.
  assert (0 <= ahead (cons s) <= Z.of_nat (length l)) as Ha.
  { pose proof (ri_consumer _ _ _ _ Hi) as Hc. destruct (cons s); simpl; try lia.
    - destruct Hc as (_ & v & Hl%lookup_lt_Some). lia.
    - destruct Hc as (_ & Hl%lookup_lt_Some). lia. }
  pose proof (capacity_range k Hk). unfold wrap. rewrite Z.mod_small; [lia|]. unfold U64_MOD. lia.
Qed.

Lemma ring_fifo_witness :
  exists rest, pushes (trace ex_popped) = pops (trace ex_popped) ++ rest /\
    Z.of_nat (length rest) <= 2 /\ len 2 ex_popped = Z.of_nat (length rest) - 0.
Proof.
  apply (ring_fifo 2 ex_slots 1 ex_popped); [reflexivity|exact ex_popped_reachable].
Defined.

(** A producer that has claimed a position is alone with its slot: the cell
    holds no value when it writes, so no value is overwritten, and the sequence
    number still hides it from the consumer. *)
Theorem ring_write_exclusive {T} c (sls : list (Slot T)) n s i v position ticket sl :
  new c = Done sls -> rtc (step c) (init sls n) s ->
  producers s !! i = Some (PClaimed v position ticket) ->
  slots s !! index c position = Some sl ->
  sl = mk_slot position None.
Proof.
  intros Hnew Hr Hp Hs. destruct (new_capacity _ _ Hnew) as (k & Hk & ->).
  destruct (ring_reachable_inv k Hk _ _ _ Hnew Hr) as (b & l & Hi).
  destruct (ri_producers _ _ _ _ Hi _ _ Hp) as (-> & Hb & Hl).
  pose proof (lookup_lt_Some _ _ _ Hl) as Hlt. pose proof (ri_room _ _ _ _ Hi) as Hroom.
  pose proof (slot_in_window k Hk s b l ticket sl Hi ltac:(lia) Hs) as Hok.
  unfold slot_ok in Hok. by rewrite Hl in Hok.
Qed.

Lemma ring_write_exclusive_witness :
  rtc (step 2) (init ex_slots 1) ex_claimed /\
  exists sl, slots ex_claimed !! 0%nat = Some sl /\ sl = mk_slot 0 None.
Proof.
  split; [exact ex_claimed_reachable|]. eexists. split; [reflexivity|].
  apply (ring_write_exclusive 2 ex_slots 1 ex_claimed 0%nat 10 0 0);
    [reflexivity|exact ex_claimed_reachable|reflexivity|reflexivity].
Defined.
