(* ===== verification/TimerWheel.v ===== *)
(** * The hierarchical timer wheel

    The model of [libs/net/src/flow/timer.rs]: four levels of 256 slots, each
    slot the head of a doubly linked list threaded through the node table by
    owner index, with cached deadlines per slot, per level and overall.  The
    node table is a vector, so a wrong link would be an index out of range and
    a panic; the two-dimensional arrays are indexed by masked values only and
    are functions of level and slot. *)

From S2P Require Import Prelude.

Module TimerWheel.

Definition LEVELS : nat := 4.
Definition SLOTS : nat := 256.

Record TimerExpiry : Type := mk_expiry {
  owner : nat;
  x_generation : Z;
  x_deadline_ms : Z
}.

Record TimerNode : Type := mk_node {
  active : bool;
  level : nat;
  slot : nat;
  previous : option nat;
  next : option nat;
  deadline_ms : Z;
  generation : Z
}.

Definition empty : TimerNode := mk_node false 0 0 None None 0 0.

Record TimerWheel : Type := mk {
  now_ms : Z;
  heads : nat -> nat -> option nat;
  slot_deadlines : nat -> nat -> Z;
  level_deadlines : nat -> Z;
  earliest_deadline_ms : option Z;
  nodes : list TimerNode
}.

(** Array stores. *)
Definition store {A} (f : nat -> A) (i : nat) (x : A) : nat -> A :=
  fun j => if (j =? i)%nat then x else f j.
Definition store2 {A} (f : nat -> nat -> A) (l s : nat) (x : A) : nat -> nat -> A :=
  fun l' => if (l' =? l)%nat then store (f l) s x else f l'.

Definition set_now (w : TimerWheel) (x : Z) : TimerWheel :=
  mk x (heads w) (slot_deadlines w) (level_deadlines w) (earliest_deadline_ms w) (nodes w).
Definition set_head (w : TimerWheel) (l s : nat) (x : option nat) : TimerWheel :=
  mk (now_ms w) (store2 (heads w) l s x) (slot_deadlines w) (level_deadlines w)
     (earliest_deadline_ms w) (nodes w).
Definition set_slot_deadline (w : TimerWheel) (l s : nat) (x : Z) : TimerWheel :=
  mk (now_ms w) (heads w) (store2 (slot_deadlines w) l s x) (level_deadlines w)
     (earliest_deadline_ms w) (nodes w).
Definition set_level_deadline (w : TimerWheel) (l : nat) (x : Z) : TimerWheel :=
  mk (now_ms w) (heads w) (slot_deadlines w) (store (level_deadlines w) l x)
     (earliest_deadline_ms w) (nodes w).
Definition set_earliest (w : TimerWheel) (x : option Z) : TimerWheel :=
  mk (now_ms w) (heads w) (slot_deadlines w) (level_deadlines w) x (nodes w).

(** [nodes[i]], [nodes[i] = n] and the writes to one link; out of range they
    panic. *)
Definition node (w : TimerWheel) (i : nat) : exec TimerNode := unwrap (nodes w !! i).
Definition set_node (w : TimerWheel) (i : nat) (n : TimerNode) : exec TimerWheel :=
  _ ← node w i;
  Done (mk (now_ms w) (heads w) (slot_deadlines w) (level_deadlines w)
           (earliest_deadline_ms w) (<[i := n]> (nodes w))).
Definition set_previous (w : TimerWheel) (i : nat) (p : option nat) : exec TimerWheel :=
  n ← node w i;
  set_node w i
    (mk_node (active n) (level n) (slot n) p (next n) (deadline_ms n) (generation n)).
Definition set_next (w : TimerWheel) (i : nat) (p : option nat) : exec TimerWheel :=
  n ← node w i;
  set_node w i
    (mk_node (active n) (level n) (slot n) (previous n) p (deadline_ms n) (generation n)).

Definition new (owner_capacity : Z) (now : Z) : exec TimerWheel :=
  if owner_capacity <=? U16_MAX
  then Done (mk now (fun _ _ => None) (fun _ _ => U64_MAX) (fun _ => U64_MAX) None
                (replicate (Z.to_nat owner_capacity) empty))
  else Panic.

Definition next_deadline_ns (w : TimerWheel) : option Z :=
  (fun deadline => saturating_mul deadline 1000000) <$> earliest_deadline_ms w.

(** [iter().copied().min().unwrap_or(u64::MAX)]. *)
Definition min_over (n : nat) (f : nat -> Z) : Z :=
  match map f (seq 0 n) with
  | [] => U64_MAX
  | x :: l => foldl Z.min x l
  end.

Definition refresh_level_deadline (w : TimerWheel) (l : nat) : TimerWheel :=
  set_level_deadline w l (min_over SLOTS (slot_deadlines w l)).

Definition refresh_earliest (w : TimerWheel) : TimerWheel :=
  let deadline := min_over LEVELS (level_deadlines w) in
  set_earliest w (if negb (deadline =? U64_MAX) then Some deadline else None).

(** The walk of [refresh_slot_deadline] along a list; [fuel] bounds its length
    and running out of it counts as a failure. *)
Fixpoint walk_deadline (fuel : nat) (w : TimerWheel) (current : option nat) (deadline : Z)
  : exec Z :=
  match current with
  | None => Done deadline
  | Some o =>
      match fuel with
      | O => Panic
      | S fuel =>
          n ← node w o;
          walk_deadline fuel w (next n) (Z.min deadline (deadline_ms n))
      end
  end.

Definition refresh_slot_deadline (w : TimerWheel) (l s : nat) : exec TimerWheel :=
  let previous_deadline := slot_deadlines w l s in
  deadline ← walk_deadline (length (nodes w)) w (heads w l s) U64_MAX;
  let w := set_slot_deadline w l s deadline in
  Done (if level_deadlines w l =? previous_deadline then refresh_level_deadline w l else w).

(** [insert]: the level for a distance, and the slot. *)
Definition level_for (delta : Z) : nat :=
  if delta <? Z.shiftl 1 8 then 0
  else if delta <? Z.shiftl 1 16 then 1
  else if delta <? Z.shiftl 1 24 then 2
  else 3.
Definition slot_for (l : nat) (x : Z) : nat :=
  Z.to_nat (Z.land (Z.shiftr x (Z.of_nat l * 8)) 255).

Definition insert (w : TimerWheel) (o : nat) (gen deadline : Z) : exec TimerWheel :=
  let delta := saturating_sub deadline (now_ms w) in
  let l := level_for delta in
  let s := slot_for l deadline in
  let head := heads w l s in
  w ← set_node w o (mk_node true l s None head deadline gen);
  w ← (match head with Some h => set_previous w h (Some o) | None => Done w end);
  let w := set_head w l s (Some o) in
  let w := set_slot_deadline w l s (Z.min (slot_deadlines w l s) deadline) in
  let w := set_level_deadline w l (Z.min (level_deadlines w l) deadline) in
  Done (set_earliest w
          (Some (match earliest_deadline_ms w with
                 | Some earliest => Z.min earliest deadline
                 | None => deadline
                 end))).

Definition detach (w : TimerWheel) (o : nat) : exec TimerWheel :=
  n ← node w o;
  w ← (match previous n with
       | Some p => set_next w p (next n)
       | None => Done (set_head w (level n) (slot n) (next n))
       end);
  w ← (match next n with
       | Some x => set_previous w x (previous n)
       | None => Done w
       end);
  w ← (if slot_deadlines w (level n) (slot n) =? deadline_ms n
       then refresh_slot_deadline w (level n) (slot n) else Done w);
  Done (if bool_decide (earliest_deadline_ms w = Some (deadline_ms n))
        then refresh_earliest w else w).

Definition cancel (w : TimerWheel) (o : nat) : exec (bool * TimerWheel) :=
  match nodes w !! o with
  | None => Done (false, w)
  | Some n =>
      if negb (active n) then Done (false, w)
      else
        w ← detach w o;
        w ← set_node w o empty;
        Done (true, w)
  end.

Definition schedule (w : TimerWheel) (o : nat) (gen deadline_ns : Z) : exec (bool * TimerWheel) :=
  if (length (nodes w) <=? o)%nat || (gen =? 0) then Done (false, w)
  else
    '(_, w) ← cancel w o;
    let deadline := saturating_add deadline_ns 999999 / 1000000 in
    let deadline :=
      Z.min (Z.max deadline (saturating_add (now_ms w) 1))
            (saturating_add (now_ms w) U32_MAX) in
    w ← insert w o gen deadline;
    Done (true, w).

(** The loop of [cascade] over a detached list. *)
Fixpoint cascade_loop (fuel : nat) (w : TimerWheel) (current : option nat) : exec TimerWheel :=
  match current with
  | None => Done w
  | Some o =>
      match fuel with
      | O => Panic
      | S fuel =>
          n ← node w o;
          w ← set_node w o empty;
          w ← insert w o (generation n) (deadline_ms n);
          cascade_loop fuel w (next n)
      end
  end.

(** The head and the cached deadline of a slot are taken out. *)
Definition take_slot (w : TimerWheel) (l s : nat) : option nat * TimerWheel :=
  let current := heads w l s in
  let w := set_head w l s None in
  let previous_deadline := slot_deadlines w l s in
  let w := set_slot_deadline w l s U64_MAX in
  (current,
   if level_deadlines w l =? previous_deadline then refresh_level_deadline w l else w).

Definition cascade (w : TimerWheel) (l : nat) : exec TimerWheel :=
  let s := slot_for l (now_ms w) in
  let '(current, w) := take_slot w l s in
  w ← cascade_loop (length (nodes w)) w current;
  Done (refresh_earliest w).

(** The inner loop of [advance]: the expired timers, in the order they fire. *)
Fixpoint fire_loop (fuel : nat) (w : TimerWheel) (current : option nat)
  : exec (list TimerExpiry * TimerWheel) :=
  match current with
  | None => Done ([], w)
  | Some o =>
      match fuel with
      | O => Panic
      | S fuel =>
          n ← node w o;
          w ← set_node w o empty;
          if deadline_ms n <=? now_ms w
          then
            '(fired, w) ← fire_loop fuel w (next n);
            Done (mk_expiry o (generation n) (deadline_ms n) :: fired, w)
          else
            w ← insert w o (generation n) (deadline_ms n);
            fire_loop fuel w (next n)
      end
  end.

(** One round of the outer loop. *)
Definition tick (w : TimerWheel) : exec (list TimerExpiry * TimerWheel) :=
  let w := set_now w (now_ms w + 1) in
  w ← (if Z.land (now_ms w) 255 =? 0 then
         w ← cascade w 1;
         if Z.land (now_ms w) 65535 =? 0 then
           w ← cascade w 2;
           if Z.land (now_ms w) 16777215 =? 0 then cascade w 3 else Done w
         else Done w
       else Done w);
  let s := Z.to_nat (Z.land (now_ms w) 255) in
  let '(current, w) := take_slot w 0 s in
  '(fired, w) ← fire_loop (length (nodes w)) w current;
  Done (fired, if bool_decide (is_Some current) then refresh_earliest w else w).

Fixpoint advance_loop (ticks : nat) (w : TimerWheel) (target_ms : Z)
  : exec (list TimerExpiry * TimerWheel) :=
  match ticks with
  | O => Done ([], w)
  | S ticks =>
      if now_ms w <? target_ms then
        '(fired, w) ← tick w;
        '(rest, w) ← advance_loop ticks w target_ms;
        Done (fired ++ rest, w)
      else Done ([], w)
  end.

(** [advance]: what fired, whether the target was not reached, the wheel. *)
Definition advance (w : TimerWheel) (target_ns : Z) (tick_budget : nat)
  : exec (list TimerExpiry * bool * TimerWheel) :=
  let target_ms := target_ns / 1000000 in
  '(fired, w) ← advance_loop tick_budget w target_ms;
  Done (fired, now_ms w <? target_ms, w).

End TimerWheel.
Abbreviation TimerWheel := TimerWheel.TimerWheel.
