(* ===== verification/TimerLinks.v ===== *)
(** * The lists of the timer wheel

    The lists threaded through the node table of a [TimerWheel]: what it means
    that the links of the wheel represent a list of owners per slot, and that
    [insert] and [detach] add and remove one owner and keep every other list. *)

From S2P Require Import Prelude TimerWheel.
Import TimerWheel.

(** ** Stores *)

Lemma store2_eq {A} (f : nat -> nat -> A) l s x : store2 f l s x l s = x.
Proof. unfold store2, store. by rewrite !Nat.eqb_refl. Qed.

Lemma store2_ne {A} (f : nat -> nat -> A) l s x l' s' :
  (l', s') <> (l, s) -> store2 f l s x l' s' = f l' s'.
Proof.
  intros Hne. unfold store2, store. destruct (Nat.eqb_spec l' l) as [->|]; [|done].
  destruct (Nat.eqb_spec s' s) as [->|]; [done|done].
Qed.

Lemma store_eq {A} (f : nat -> A) i x : store f i x i = x.
Proof. unfold store. by rewrite Nat.eqb_refl. Qed.

Lemma store_ne {A} (f : nat -> A) i x j : j <> i -> store f i x j = f j.
Proof. intros. unfold store. destruct (Nat.eqb_spec j i); done. Qed.

(** ** Segments *)

Definition hd_or {A} (c : list A) (d : option A) : option A :=
  match c with [] => d | x :: _ => Some x end.
Definition last_or {A} (d : option A) (c : list A) : option A :=
  match last c with None => d | Some x => Some x end.

(** A node of the slot [(l, s)] with the given links. *)
Definition linked (ns : list TimerNode) (l s o : nat) (prev nxt : option nat) : Prop :=
  exists d g, ns !! o = Some (mk_node true l s prev nxt d g).

(** The owners of [c] are linked to each other, the first to [prev] and the last
    to [nxt]. *)
Fixpoint dseg (ns : list TimerNode) (l s : nat) (prev : option nat) (c : list nat)
    (nxt : option nat) : Prop :=
  match c with
  | [] => True
  | o :: c => linked ns l s o prev (hd_or c nxt) /\ dseg ns l s (Some o) c nxt
  end.

Lemma hd_or_app {A} (c1 c2 : list A) d : hd_or (c1 ++ c2) d = hd_or c1 (hd_or c2 d).
Proof. by destruct c1. Qed.

Lemma last_or_cons {A} (d : option A) x c : last_or d (x :: c) = last_or (Some x) c.
Proof. unfold last_or. rewrite last_cons. by destruct (last c). Qed.

Lemma dseg_app ns l s prev c1 c2 nxt :
  dseg ns l s prev (c1 ++ c2) nxt <->
  dseg ns l s prev c1 (hd_or c2 nxt) /\ dseg ns l s (last_or prev c1) c2 nxt.
Proof.
  revert prev. induction c1 as [|o c1 IH]; intros prev; simpl.
  - unfold last_or. simpl. tauto.
  - rewrite IH, hd_or_app, last_or_cons. tauto.
Qed.

Lemma dseg_frame ns ns' l s prev c nxt :
  (forall o, o ∈ c -> ns' !! o = ns !! o) -> dseg ns l s prev c nxt -> dseg ns' l s prev c nxt.
Proof.
  revert prev. induction c as [|o c IH]; intros prev Hf; simpl; [done|].
  intros [(d & g & Hn) Hs]. split.
  - exists d, g. rewrite Hf by (by left). done.
  - apply IH; [|done]. intros x Hx. apply Hf. by right.
Qed.

Lemma dseg_elem ns l s prev c nxt o :
  dseg ns l s prev c nxt -> o ∈ c ->
  exists n, ns !! o = Some n /\ active n = true /\ level n = l /\ slot n = s.
Proof.
  revert prev. induction c as [|x c IH]; intros prev Hs Ho; [by apply not_elem_of_nil in Ho|].
  destruct Hs as [(d & g & Hn) Hs]. apply elem_of_cons in Ho as [->|Ho]; [|by eapply IH].
  by eexists.
Qed.

(** ** The lists of a wheel *)

Definition chains : Type := nat -> nat -> list nat.

(** [fl] is a list that has been taken out of its slot and is still to be
    walked: its nodes are linked by [next] only. *)
Fixpoint floating (ns : list TimerNode) (fl : list nat) : Prop :=
  match fl with
  | [] => True
  | o :: fl =>
      (exists n, ns !! o = Some n /\ active n = true /\ next n = head fl) /\ floating ns fl
  end.

Record links (w : TimerWheel) (ch : chains) (fl : list nat) : Prop := mk_links {
  lk_head : forall l s, heads w l s = head (ch l s);
  lk_dseg : forall l s, dseg (nodes w) l s None (ch l s) None;
  lk_nodup : forall l s, NoDup (ch l s);
  lk_active : forall o n, nodes w !! o = Some n -> active n = true ->
    o ∈ ch (level n) (slot n) \/ o ∈ fl;
  lk_range : forall l s, ch l s <> [] -> (l < LEVELS)%nat /\ (s < SLOTS)%nat;
  lk_floating : floating (nodes w) fl;
  lk_fl_nodup : NoDup fl;
  lk_fl_disjoint : forall l s o, o ∈ ch l s -> o ∉ fl
}.

Lemma floating_frame ns ns' fl :
  (forall o, o ∈ fl -> ns' !! o = ns !! o) -> floating ns fl -> floating ns' fl.
Proof.
  induction fl as [|o fl IH]; intros Hf; simpl; [done|]. intros [(n & Hn & Ha & Hx) Hs]. split.
  - exists n. rewrite Hf by (by left). done.
  - apply IH; [|done]. intros x Hx'. apply Hf. by right.
Qed.

(** An owner is in one list only. *)
Lemma links_unique w ch fl l s l' s' o :
  links w ch fl -> o ∈ ch l s -> o ∈ ch l' s' -> (l, s) = (l', s').
Proof.
  intros Hl H1 H2. destruct (dseg_elem _ _ _ _ _ _ _ (lk_dseg _ _ _ Hl l s) H1) as (n & E & _ & <- & <-).
  destruct (dseg_elem _ _ _ _ _ _ _ (lk_dseg _ _ _ Hl l' s') H2) as (n' & E' & _ & <- & <-).
  by simplify_eq.
Qed.

(** The deadline of an owner and the least one of a list. *)
Definition dl (ns : list TimerNode) (o : nat) : Z :=
  match ns !! o with Some n => deadline_ms n | None => U64_MAX end.

(** What a client sees: the generation and deadline of an armed timer. *)
Definition timer (ns : list TimerNode) (o : nat) : option (Z * Z) :=
  match ns !! o with
  | Some n => if active n then Some (generation n, deadline_ms n) else None
  | None => None
  end.

(** Replacing the node table. *)
Definition with_nodes (w : TimerWheel) (ns : list TimerNode) : TimerWheel :=
  mk (now_ms w) (heads w) (slot_deadlines w) (level_deadlines w) (earliest_deadline_ms w) ns.

Lemma node_ok w o n : nodes w !! o = Some n -> node w o = Done n.
Proof. intros H. unfold node. by rewrite H. Qed.

Lemma set_node_ok w o n n' :
  nodes w !! o = Some n -> set_node w o n' = Done (with_nodes w (<[o := n']> (nodes w))).
Proof. intros H. unfold set_node. by rewrite (node_ok w o n). Qed.

Definition relink_prev (n : TimerNode) (p : option nat) : TimerNode :=
  mk_node (active n) (level n) (slot n) p (next n) (deadline_ms n) (generation n).
Definition relink_next (n : TimerNode) (p : option nat) : TimerNode :=
  mk_node (active n) (level n) (slot n) (previous n) p (deadline_ms n) (generation n).

Lemma set_previous_ok w o n p :
  nodes w !! o = Some n ->
  set_previous w o p = Done (with_nodes w (<[o := relink_prev n p]> (nodes w))).
Proof. intros H. unfold set_previous. rewrite (node_ok w o n) by done. by eapply set_node_ok. Qed.

Lemma set_next_ok w o n p :
  nodes w !! o = Some n ->
  set_next w o p = Done (with_nodes w (<[o := relink_next n p]> (nodes w))).
Proof. intros H. unfold set_next. rewrite (node_ok w o n) by done. by eapply set_node_ok. Qed.

(** ** Adding an owner to the front of a list *)

Definition push_nodes (ns : list TimerNode) (l s o : nat) (c : list nat) (d g : Z)
  : list TimerNode :=
  let ns := <[o := mk_node true l s None (head c) d g]> ns in
  match head c with
  | Some h => alter (fun n => relink_prev n (Some o)) h ns
  | None => ns
  end.

Lemma floating_elem ns fl o :
  floating ns fl -> o ∈ fl -> exists n, ns !! o = Some n /\ active n = true.
Proof.
  induction fl as [|x fl IH]; intros Hf Ho; [by apply not_elem_of_nil in Ho|].
  destruct Hf as [(n & Hn & Ha & _) Hf]. apply elem_of_cons in Ho as [->|Ho]; [eauto|by apply IH].
Qed.

(** The owner of an unarmed node is in no list. *)
Lemma inactive_nowhere w ch fl o n :
  links w ch fl -> nodes w !! o = Some n -> active n = false ->
  (forall l s, o ∉ ch l s) /\ o ∉ fl.
Proof.
  intros Hl Hn Ha. split.
  - intros l s Ho. destruct (dseg_elem _ _ _ _ _ _ _ (lk_dseg _ _ _ Hl l s) Ho) as (n' & E & Ha' & _).
    congruence.
  - intros Ho. destruct (floating_elem _ _ _ (lk_floating _ _ _ Hl) Ho) as (n' & E & Ha').
    congruence.
Qed.

(** The nodes other than the new one and the old head are untouched; the old
    head only gets a new back link. *)
Lemma push_nodes_other ns l s o c d g x :
  x <> o -> head c <> Some x -> push_nodes ns l s o c d g !! x = ns !! x.
Proof.
  intros Ho Hx. unfold push_nodes. destruct (head c) as [h|].
  - rewrite list_lookup_alter_ne by congruence. by rewrite list_lookup_insert_ne.
  - by rewrite list_lookup_insert_ne.
Qed.

Lemma push_nodes_new ns l s o c d g n0 :
  ns !! o = Some n0 -> o ∉ c ->
  push_nodes ns l s o c d g !! o = Some (mk_node true l s None (head c) d g).
Proof.
  intros Hn Ho. pose proof (lookup_lt_Some _ _ _ Hn) as Hlt. unfold push_nodes.
  destruct c as [|h c]; simpl.
  - by apply list_lookup_insert_eq.
  - rewrite list_lookup_alter_ne; [by apply list_lookup_insert_eq|]. intros ->. apply Ho. by left.
Qed.

Lemma push_nodes_head ns l s o h c d g n :
  ns !! h = Some n -> h <> o ->
  push_nodes ns l s o (h :: c) d g !! h = Some (relink_prev n (Some o)).
Proof.
  intros Hn Hh. unfold push_nodes. simpl. rewrite list_lookup_alter_eq.
  rewrite list_lookup_insert_ne by congruence. by rewrite Hn.
Qed.

(** Nodes that differ in their links only. *)
Definition same_timer (n n' : TimerNode) : Prop :=
  active n' = active n /\ level n' = level n /\ slot n' = slot n /\
  deadline_ms n' = deadline_ms n /\ generation n' = generation n.

(** Node tables that differ in links only, except at [o]. *)
Definition relinked (o : nat) (ns ns' : list TimerNode) : Prop :=
  forall x, x <> o -> option_Forall2 same_timer (ns !! x) (ns' !! x).

Lemma same_timer_refl n : same_timer n n.
Proof. done. Qed.

Lemma relinked_alter f o (ns : list TimerNode) h :
  (forall n, same_timer n (f n)) -> relinked o ns (alter f h ns).
Proof.
  intros Hf x _. destruct (decide (x = h)) as [->|].
  - rewrite list_lookup_alter_eq. destruct (ns !! h); constructor. apply Hf.
  - rewrite list_lookup_alter_ne by done. destruct (ns !! x); constructor. apply same_timer_refl.
Qed.

Lemma relinked_insert o (ns : list TimerNode) n : relinked o ns (<[o := n]> ns).
Proof.
  intros x Hx. rewrite list_lookup_insert_ne by done.
  destruct (ns !! x); constructor. apply same_timer_refl.
Qed.

#[global] Instance same_timer_trans : Transitive same_timer.
Proof. intros n1 n2 n3. unfold same_timer. intuition congruence. Qed.

Lemma relinked_trans o ns1 ns2 ns3 : relinked o ns1 ns2 -> relinked o ns2 ns3 -> relinked o ns1 ns3.
Proof. intros H1 H2 x Hx. etransitivity; [by apply H1|by apply H2]. Qed.

Lemma relinked_push ns l s o c d g : relinked o ns (push_nodes ns l s o c d g).
Proof.
  unfold push_nodes. destruct (head c); [|apply relinked_insert].
  eapply relinked_trans; [apply relinked_insert|]. by apply relinked_alter.
Qed.

Lemma relinked_dl o ns ns' x : relinked o ns ns' -> x <> o -> dl ns' x = dl ns x.
Proof.
  intros H Hx. unfold dl. specialize (H x Hx). inversion H as [n n' (_ & _ & _ & Hd & _)|]; done.
Qed.

Lemma relinked_timer o ns ns' x : relinked o ns ns' -> x <> o -> timer ns' x = timer ns x.
Proof.
  intros H Hx. unfold timer. specialize (H x Hx).
  inversion H as [n n' (Ha & _ & _ & Hd & Hg)|]; [|done]. by rewrite Ha, Hd, Hg.
Qed.

(** An armed node of the new table was armed in the same slot. *)
Lemma relinked_active o ns ns' x n' :
  relinked o ns ns' -> x <> o -> ns' !! x = Some n' -> active n' = true ->
  exists n, ns !! x = Some n /\ active n = true /\ level n = level n' /\ slot n = slot n'.
Proof.
  intros H Hx E Ha. specialize (H x Hx). rewrite E in H.
  inversion H as [n ? (Hact & Hl & Hs & _)|]; subst. exists n. by rewrite <- Hact, Hl, Hs.
Qed.

Lemma push_dseg ns l s o c d g n0 :
  dseg ns l s None c None -> NoDup c -> o ∉ c -> ns !! o = Some n0 ->
  dseg (push_nodes ns l s o c d g) l s None (o :: c) None.
Proof.
  intros Hs Hnd Ho Hn. split.
  - exists d, g. rewrite (push_nodes_new _ _ _ _ _ _ _ n0) by done. by destruct c.
  - destruct c as [|h c]; [done|]. destruct Hs as [(d' & g' & Hh) Hs].
    apply NoDup_cons in Hnd as [Hhc Hnd]. apply not_elem_of_cons in Ho as [Hoh Hoc]. split.
    + exists d', g'. by rewrite (push_nodes_head _ _ _ _ _ _ _ _ _ Hh).
    + eapply dseg_frame; [|exact Hs]. intros x Hx.
      apply push_nodes_other; [by intros ->|]. simpl. intros [= ->]. done.
Qed.

Lemma links_push w w' ch fl l s o d g n0 :
  links w ch fl -> nodes w !! o = Some n0 -> active n0 = false ->
  (l < LEVELS)%nat -> (s < SLOTS)%nat ->
  (forall l' s', heads w' l' s' = store2 (heads w) l s (Some o) l' s') ->
  nodes w' = push_nodes (nodes w) l s o (ch l s) d g ->
  links w' (store2 ch l s (o :: ch l s)) fl.
Proof.
  intros Hl Hn Ha Hll Hss Hh Hns. destruct (inactive_nowhere _ _ _ _ _ Hl Hn Ha) as [Hno Hnofl].
  assert (forall x, x ∈ fl -> nodes w' !! x = nodes w !! x) as Hfl.
  { intros x Hx. rewrite Hns. apply push_nodes_other; [by intros ->|].
    intros E. apply head_Some in E as [c E]. destruct (lk_fl_disjoint _ _ _ Hl l s x); [|done].
    rewrite E. by left. }
  destruct Hl as [Hhead Hdseg Hnd Hact Hrange Hfloat Hflnd Hdisj].
  assert (forall l' s', (l', s') = (l, s) \/ (l', s') <> (l, s)) as Hdec
    by (intros l' s'; destruct (decide ((l', s') = (l, s))); auto).
  split; try done.
  - intros l' s'. rewrite Hh. destruct (Hdec l' s') as [[= -> ->]|Hne].
    + by rewrite !store2_eq.
    + by rewrite !store2_ne.
  - intros l' s'. rewrite Hns. destruct (Hdec l' s') as [[= -> ->]|Hne].
    + rewrite store2_eq. by eapply push_dseg.
    + rewrite store2_ne by done. eapply dseg_frame; [|apply Hdseg]. intros x Hx.
      apply push_nodes_other; [intros ->; by eapply Hno|]. intros E. apply Hne.
      apply head_Some in E as [c E].
      eapply (links_unique w ch fl); [by split|exact Hx|rewrite E; by left].
  - intros l' s'. destruct (Hdec l' s') as [[= -> ->]|Hne].
    + rewrite store2_eq. apply NoDup_cons. by split.
    + by rewrite store2_ne.
  - intros x n' Hx Hax. rewrite Hns in Hx. destruct (decide (x = o)) as [->|Hxo].
    + rewrite (push_nodes_new _ _ _ _ _ _ _ n0) in Hx by done. simplify_eq. simpl.
      rewrite store2_eq. left. apply elem_of_cons. auto.
    + destruct (relinked_active _ _ _ _ _ (relinked_push _ l s o _ d g) Hxo Hx Hax)
        as (n & En & Han & <- & <-).
      destruct (Hact x n En Han) as [Hin|]; [left|by right].
      destruct (Hdec (level n) (slot n)) as [[= El Es]|Hne].
      * rewrite El, Es in Hin |- *. rewrite store2_eq. by right.
      * by rewrite store2_ne.
  - intros l' s'. destruct (Hdec l' s') as [[= -> ->]|Hne]; [done|].
    rewrite store2_ne by done. apply Hrange.
  - by eapply floating_frame.
  - intros l' s' x. destruct (Hdec l' s') as [[= -> ->]|Hne].
    + rewrite store2_eq. intros [->|Hx]%elem_of_cons; [done|by eapply Hdisj].
    + rewrite store2_ne by done. apply Hdisj.
Qed.

(** ** Removing an owner from a list *)

Definition unlink_nodes (ns : list TimerNode) (pre post : list nat) : list TimerNode :=
  let ns := match last pre with
            | Some p => alter (fun n => relink_next n (head post)) p ns
            | None => ns
            end in
  match head post with
  | Some x => alter (fun n => relink_prev n (last pre)) x ns
  | None => ns
  end.

Lemma relinked_unlink o ns pre post : relinked o ns (unlink_nodes ns pre post).
Proof.
  unfold unlink_nodes. assert (relinked o ns ns) as Hr
    by (intros x _; destruct (ns !! x); constructor; apply same_timer_refl).
  destruct (last pre), (head post); try done; try by apply relinked_alter.
  eapply relinked_trans; by apply relinked_alter.
Qed.

Lemma length_unlink ns pre post : length (unlink_nodes ns pre post) = length ns.
Proof. unfold unlink_nodes. destruct (last pre), (head post); by rewrite ?length_alter. Qed.

Lemma unlink_other ns pre post y :
  last pre <> Some y -> head post <> Some y -> unlink_nodes ns pre post !! y = ns !! y.
Proof.
  intros Hp Hx. unfold unlink_nodes.
  destruct (last pre), (head post); rewrite ?list_lookup_alter_ne by congruence; done.
Qed.

Lemma unlink_last ns pre p post n :
  ns !! p = Some n -> head post <> Some p ->
  unlink_nodes ns (pre ++ [p]) post !! p = Some (relink_next n (head post)).
Proof.
  intros Hn Hx. unfold unlink_nodes. rewrite last_snoc.
  destruct (head post) as [x|]; [rewrite list_lookup_alter_ne by congruence|];
    rewrite list_lookup_alter_eq; by rewrite Hn.
Qed.

Lemma unlink_first ns pre x post n :
  ns !! x = Some n -> last pre <> Some x ->
  unlink_nodes ns pre (x :: post) !! x = Some (relink_prev n (last pre)).
Proof.
  intros Hn Hp. unfold unlink_nodes. simpl. rewrite list_lookup_alter_eq.
  destruct (last pre) as [p|]; [rewrite list_lookup_alter_ne by congruence|]; by rewrite Hn.
Qed.

Lemma unlink_dseg ns l s pre o post :
  dseg ns l s None (pre ++ o :: post) None -> NoDup (pre ++ o :: post) ->
  dseg (unlink_nodes ns pre post) l s None (pre ++ post) None.
Proof.
  intros Hs Hnd. apply NoDup_app in Hnd as (Hpre & Hdis & Hpost).
  apply NoDup_cons in Hpost as [Hopost Hpost].
  rewrite dseg_app in Hs |- *. destruct Hs as [Hs1 [_ Hs2]]. split.
  - destruct pre as [|p pre _] using rev_ind; [done|].
    rewrite dseg_app in Hs1 |- *. destruct Hs1 as [Ha [(d & g & Hp) _]].
    apply NoDup_app in Hpre as (_ & Hd2 & _).
    assert (forall x, x ∈ post -> x <> p) as Hpp.
    { intros x Hx ->. apply (Hdis p); [apply elem_of_app; right; by left|by right]. }
    split; [|split; [|done]].
    + eapply dseg_frame; [|exact Ha]. intros y Hy. apply unlink_other.
      * rewrite last_snoc. intros [= ->]. apply (Hd2 y Hy). by left.
      * intros E. apply head_Some in E as [post' ->].
        apply (Hdis y); [apply elem_of_app; by left|right; by left].
    + exists d, g. rewrite (unlink_last _ _ _ _ _ Hp); [by destruct post|].
      intros E. apply head_Some in E as [post' ->]. apply (Hpp p); [by left|done].
  - destruct post as [|x post]; [done|]. destruct Hs2 as [(d & g & Hx) Hs2].
    apply NoDup_cons in Hpost as [Hxp Hpost].
    assert (forall y, y ∈ x :: post -> last pre <> Some y) as Hlast.
    { intros y Hy E. apply last_Some in E as [pre' ->].
      apply (Hdis y); [apply elem_of_app; right; by left|by right]. }
    split.
    + exists d, g. rewrite (unlink_first _ _ _ _ _ Hx) by (apply Hlast; by left).
      unfold last_or. by destruct (last pre).
    + eapply dseg_frame; [|exact Hs2]. intros y Hy. apply unlink_other; [apply Hlast; by right|].
      simpl. by intros [= ->].
Qed.

Lemma links_remove w w' ch fl l s pre o post :
  links w ch fl -> ch l s = pre ++ o :: post ->
  (forall l' s', heads w' l' s' = head (store2 ch l s (pre ++ post) l' s')) ->
  nodes w' = <[o := empty]> (unlink_nodes (nodes w) pre post) ->
  links w' (store2 ch l s (pre ++ post)) fl.
Proof.
  intros Hl Hc Hh Hns. assert (o ∈ ch l s) as Ho by (rewrite Hc; apply elem_of_app; right; by left).
  assert (forall y, last pre = Some y \/ head post = Some y -> y ∈ ch l s) as Htouch.
  { intros y [E|E]; rewrite Hc.
    - apply last_Some in E as [pre' ->]. apply elem_of_app. left. apply elem_of_app. right. by left.
    - apply head_Some in E as [post' ->]. apply elem_of_app. right. right. by left. }
  assert (forall y, y <> o -> (y ∉ ch l s) -> nodes w' !! y = nodes w !! y) as Hframe.
  { intros y Hyo Hy. rewrite Hns, list_lookup_insert_ne by done.
    apply unlink_other; intros E; apply Hy, Htouch; auto. }
  pose proof (lk_nodup _ _ _ Hl l s) as Hnd. rewrite Hc in Hnd.
  pose proof Hnd as (Hpre & Hdis & Hpost)%NoDup_app. apply NoDup_cons in Hpost as [Hopost Hpost].
  assert (o ∉ pre ++ post) as Hgone.
  { rewrite elem_of_app. intros [Hx|Hx]; [apply (Hdis o Hx); by left|done]. }
  pose proof (links_unique w ch fl) as Huniq.
  destruct Hl as [Hhead Hdseg Hnodup Hact Hrange Hfloat Hflnd Hdisj].
  assert (forall l' s', (l', s') = (l, s) \/ (l', s') <> (l, s)) as Hdec
    by (intros l' s'; destruct (decide ((l', s') = (l, s))); auto).
  split; try done.
  - intros l' s'. destruct (Hdec l' s') as [[= -> ->]|Hne].
    + rewrite store2_eq. eapply dseg_frame; [|eapply unlink_dseg; [by rewrite <- Hc|done]].
      intros y Hy. rewrite Hns, list_lookup_insert_ne; [done|]. by intros ->.
    + rewrite store2_ne by done. eapply dseg_frame; [|apply Hdseg]. intros y Hy.
      assert (y ∉ ch l s) as Hnin by (intros Hy2; apply Hne; by eapply Huniq).
      apply Hframe; [by intros ->|done].
  - intros l' s'. destruct (Hdec l' s') as [[= -> ->]|Hne].
    + rewrite store2_eq. apply NoDup_app. split_and!; [done| |done].
      intros y Hy Hy2. apply (Hdis y Hy). by right.
    + by rewrite store2_ne.
  - intros y n' Hy Hay. destruct (decide (y = o)) as [->|Hyo].
    { rewrite Hns, list_lookup_insert_eq in Hy; [by simplify_eq|].
      rewrite length_unlink. destruct (dseg_elem _ _ _ _ _ _ _ (Hdseg l s) Ho) as (n & E & _).
      by eapply lookup_lt_Some. }
    rewrite Hns, list_lookup_insert_ne in Hy by done.
    destruct (relinked_active _ _ _ _ _ (relinked_unlink o _ pre post) Hyo Hy Hay)
      as (n & En & Han & <- & <-).
    destruct (Hact y n En Han) as [Hin|]; [left|by right].
    destruct (Hdec (level n) (slot n)) as [[= El Es]|Hne].
    + rewrite El, Es in Hin |- *. rewrite store2_eq. rewrite Hc in Hin.
      rewrite elem_of_app, elem_of_cons in Hin. rewrite elem_of_app. tauto.
    + by rewrite store2_ne.
  - intros l' s'. destruct (Hdec l' s') as [[= -> ->]|Hne].
    + intros _. apply Hrange. rewrite Hc. by destruct pre.
    + rewrite store2_ne by done. apply Hrange.
  - eapply floating_frame; [|exact Hfloat]. intros y Hy.
    assert (y ∉ ch l s) by (intros Hy2; by eapply Hdisj). apply Hframe; [by intros ->|done].
  - intros l' s' y. destruct (Hdec l' s') as [[= -> ->]|Hne].
    + rewrite store2_eq. intros Hy. apply (Hdisj l s). rewrite Hc.
      rewrite elem_of_app in Hy. rewrite elem_of_app, elem_of_cons. tauto.
    + rewrite store2_ne by done. apply Hdisj.
Qed.
