(* ===== verification/TimerCache.v ===== *)
(** * The cached deadlines of the timer wheel

    The cached minima of a [TimerWheel] per slot and per level, and what
    [insert], [detach], [take_slot] and the refresh functions do to a wheel as
    a whole: they never panic, they keep the lists and the caches, and they
    change the timers that a client sees in one place only. *)

From S2P Require Import Prelude TimerWheel TimerLinks.
Import TimerWheel.

(** ** Minima *)

Lemma glb_eq a b : (forall z, z <= a <-> z <= b) -> a = b.
Proof.
  intros H. pose proof (proj1 (H a)). pose proof (proj2 (H b)). lia.
Qed.

Definition slot_min (ns : list TimerNode) (c : list nat) : Z :=
  foldr (fun o m => Z.min (dl ns o) m) U64_MAX c.

Lemma slot_min_glb ns c z :
  z <= slot_min ns c <-> z <= U64_MAX /\ forall o, o ∈ c -> z <= dl ns o.
Proof.
  induction c as [|o c IH]; simpl.
  - split; [intros; split; [done|by intros ? ?%not_elem_of_nil]|tauto].
  - rewrite Z.min_glb_iff, IH. setoid_rewrite elem_of_cons. naive_solver.
Qed.

Lemma foldl_min_glb l x z : z <= foldl Z.min x l <-> z <= x /\ Forall (fun y => z <= y) l.
Proof.
  revert x. induction l as [|y l IH]; intros x; simpl.
  - split; [done|tauto].
  - rewrite IH, Z.min_glb_iff, Forall_cons. tauto.
Qed.

Lemma min_over_glb n f z :
  (0 < n)%nat -> z <= min_over n f <-> forall i, (i < n)%nat -> z <= f i.
Proof.
  intros Hn. unfold min_over. destruct n as [|n]; [lia|]. simpl map.
  rewrite foldl_min_glb, Forall_forall. split.
  - intros [H0 H] i Hi. destruct i as [|i]; [done|]. apply H.
    apply list_elem_of_fmap. exists (S i). split; [done|]. apply elem_of_seq. lia.
  - intros H. split; [apply H; lia|]. intros y (i & -> & Hi)%list_elem_of_fmap.
    apply elem_of_seq in Hi. apply H. lia.
Qed.

Record caches (w : TimerWheel) (ch : chains) : Prop := mk_caches {
  ca_slot : forall l s, slot_deadlines w l s = slot_min (nodes w) (ch l s);
  ca_level : forall l, (l < LEVELS)%nat ->
    level_deadlines w l = min_over SLOTS (slot_deadlines w l)
}.

Lemma slot_min_frame ns ns' c :
  (forall o, o ∈ c -> dl ns' o = dl ns o) -> slot_min ns' c = slot_min ns c.
Proof.
  intros H. apply glb_eq. intros z. rewrite !slot_min_glb.
  split; intros [Hz Hall]; (split; [done|]); intros o Ho; specialize (Hall o Ho);
    rewrite H in * by done; done.
Qed.

(** A level whose minimum is not the old value of a slot does not change when
    that slot's value grows. *)
Lemma level_unchanged f s x :
  (s < SLOTS)%nat -> min_over SLOTS f <> f s -> f s <= x ->
  min_over SLOTS f = min_over SLOTS (store f s x).
Proof.
  intros Hs Hne Hx. apply glb_eq. intros z. rewrite !min_over_glb by (unfold SLOTS; lia).
  assert (min_over SLOTS f <= f s) as Hle
    by (apply (min_over_glb SLOTS f (min_over SLOTS f)); [unfold SLOTS; lia|lia|done]).
  split.
  - intros H i Hi. destruct (decide (i = s)) as [->|]; [rewrite store_eq|by rewrite store_ne; auto].
    specialize (H s Hs). lia.
  - intros H i Hi. destruct (decide (i = s)) as [->|]; [|specialize (H i Hi); by rewrite store_ne in H].
    assert (z <= min_over SLOTS f); [|lia].
    destruct (Z.le_gt_cases z (min_over SLOTS f)) as [|Hgt]; [done|exfalso].
    assert (min_over SLOTS f + 1 <= min_over SLOTS f); [|lia].
    apply min_over_glb; [unfold SLOTS; lia|]. intros j Hj.
    destruct (decide (j = s)) as [->|]; [lia|]. specialize (H j Hj). rewrite store_ne in H by done. lia.
Qed.

(** ** [insert] *)

Lemma alter_insert {A} (f : A -> A) (l : list A) i x :
  l !! i = Some x -> alter f i l = <[i := f x]> l.
Proof.
  intros H. rewrite list_insert_alter. apply list_alter_ext; [|done]. intros y Hy. congruence.
Qed.

Lemma slot_for_range l x : (slot_for l x < SLOTS)%nat.
Proof.
  unfold slot_for, SLOTS. change 255 with (Z.ones 8). rewrite Z.land_ones by lia.
  pose proof (Z.mod_pos_bound (Z.shiftr x (Z.of_nat l * 8)) (2 ^ 8) ltac:(lia)). lia.
Qed.

Lemma level_for_range delta : (level_for delta < LEVELS)%nat.
Proof. unfold level_for, LEVELS. repeat case_match; lia. Qed.

Lemma caches_push w w' ch l s o d :
  caches w ch -> (forall l s, o ∉ ch l s) -> (l < LEVELS)%nat -> (s < SLOTS)%nat -> d <= U64_MAX ->
  dl (nodes w') o = d -> (forall x, x <> o -> dl (nodes w') x = dl (nodes w) x) ->
  slot_deadlines w' = store2 (slot_deadlines w) l s (Z.min (slot_deadlines w l s) d) ->
  level_deadlines w' = store (level_deadlines w) l (Z.min (level_deadlines w l) d) ->
  caches w' (store2 ch l s (o :: ch l s)).
Proof.
  intros [Hs Hl] Ho Hll Hss Hd Hdo Hdx Es El. split.
  - intros l' s'. rewrite Es.
    assert (forall l s, slot_min (nodes w') (ch l s) = slot_min (nodes w) (ch l s)) as Hf.
    { intros. apply slot_min_frame. intros x Hx. apply Hdx. intros ->. by eapply Ho. }
    destruct (decide ((l', s') = (l, s))) as [[= -> ->]|Hne].
    + rewrite !store2_eq. simpl. rewrite Hdo, Hf, Hs. apply Z.min_comm.
    + rewrite !store2_ne by done. by rewrite Hf.
  - intros l' Hl'. rewrite El, Es. destruct (decide (l' = l)) as [->|Hne].
    + rewrite store_eq, (Hl l Hl'). unfold store2. rewrite Nat.eqb_refl.
      apply glb_eq. intros z. rewrite Z.min_glb_iff, !min_over_glb by (unfold SLOTS; lia). split.
      * intros [H Hz] i Hi. destruct (decide (i = s)) as [->|]; [rewrite store_eq|by rewrite store_ne; auto].
        specialize (H s Hi). lia.
      * intros H. split; [intros i Hi|].
        -- specialize (H i Hi). destruct (decide (i = s)) as [->|];
             [rewrite store_eq in H; lia|by rewrite store_ne in H].
        -- specialize (H s Hss). rewrite store_eq in H. lia.
    + rewrite store_ne by done. rewrite (Hl l' Hl'). unfold store2.
      by rewrite (proj2 (Nat.eqb_neq l' l) Hne).
Qed.

(** The wheel after [insert]. *)
Definition inserted (w : TimerWheel) (ch : chains) (o : nat) (g d : Z) : TimerWheel :=
  let l := level_for (saturating_sub d (now_ms w)) in
  let s := slot_for l d in
  mk (now_ms w) (store2 (heads w) l s (Some o))
     (store2 (slot_deadlines w) l s (Z.min (slot_deadlines w l s) d))
     (store (level_deadlines w) l (Z.min (level_deadlines w l) d))
     (Some (match earliest_deadline_ms w with Some e => Z.min e d | None => d end))
     (push_nodes (nodes w) l s o (ch l s) d g).

Lemma insert_result w ch fl o g d n0 :
  links w ch fl -> nodes w !! o = Some n0 -> active n0 = false ->
  insert w o g d = Done (inserted w ch o g d).
Proof.
  intros Hl Hn Ha. destruct (inactive_nowhere _ _ _ _ _ Hl Hn Ha) as [Hno _].
  unfold insert, inserted. set (l := level_for _). set (s := slot_for l d).
  rewrite (set_node_ok _ _ _ _ Hn). cbn [mbind exec_bind]. unfold push_nodes.
  rewrite (lk_head _ _ _ Hl l s). destruct (ch l s) as [|h c] eqn:Ec; [done|]. simpl head.
  assert (h ∈ ch l s) as Hh by (rewrite Ec; by left).
  destruct (dseg_elem _ _ _ _ _ _ _ (lk_dseg _ _ _ Hl l s) Hh) as (n & En & _).
  assert (h <> o) by (intros ->; by eapply Hno).
  assert (<[o:=mk_node true l s None (Some h) d g]> (nodes w) !! h = Some n) as En'
    by (rewrite list_lookup_insert_ne; [done|congruence]).
  change (head (h :: c)) with (Some h). cbv iota. rewrite (set_previous_ok _ h n) by done. cbn [mbind exec_bind].
  by rewrite (alter_insert _ _ _ _ En').
Qed.

Lemma push_nodes_dl ns l s o c d g n0 :
  ns !! o = Some n0 -> o ∉ c -> dl (push_nodes ns l s o c d g) o = d.
Proof. intros Hn Ho. unfold dl. by rewrite (push_nodes_new _ _ _ _ _ _ _ n0). Qed.

Lemma insert_spec w ch fl o g d n0 :
  links w ch fl -> caches w ch -> nodes w !! o = Some n0 -> active n0 = false -> d <= U64_MAX ->
  let l := level_for (saturating_sub d (now_ms w)) in
  let ch' := store2 ch l (slot_for l d) (o :: ch l (slot_for l d)) in
  let w' := inserted w ch o g d in
  insert w o g d = Done w' /\ links w' ch' fl /\ caches w' ch' /\
  timer (nodes w') o = Some (g, d) /\ relinked o (nodes w) (nodes w') /\
  length (nodes w') = length (nodes w).
Proof.
  intros Hl Hc Hn Ha Hd l ch' w'. destruct (inactive_nowhere _ _ _ _ _ Hl Hn Ha) as [Hno _].
  pose proof (level_for_range (saturating_sub d (now_ms w))). pose proof (slot_for_range l d).
  split_and!.
  - by eapply insert_result.
  - by eapply links_push.
  - apply (caches_push w w' ch l (slot_for l d) o d); try done.
    + by eapply push_nodes_dl.
    + intros x Hx. by apply (relinked_dl o); [apply relinked_push|].
  - unfold timer, w', inserted. simpl. fold l. by rewrite (push_nodes_new _ _ _ _ _ _ _ n0).
  - apply relinked_push.
  - unfold w', inserted, push_nodes. simpl. destruct (head _); by rewrite ?length_alter, length_insert.
Qed.

(** ** The earliest deadline *)

Definition earliest_exact (w : TimerWheel) (ch : chains) : Prop :=
  match earliest_deadline_ms w with
  | None => forall l s, ch l s = []
  | Some m =>
      (exists l s o, o ∈ ch l s /\ dl (nodes w) o = m) /\
      (forall l s o, o ∈ ch l s -> m <= dl (nodes w) o)
  end.

Lemma slot_min_attained ns c :
  slot_min ns c = U64_MAX \/ exists o, o ∈ c /\ dl ns o = slot_min ns c.
Proof.
  induction c as [|o c IH]; simpl; [by left|].
  destruct (Z.min_spec (dl ns o) (slot_min ns c)) as [[_ ->]|[_ ->]].
  - right. exists o. split; [by left|done].
  - destruct IH as [->|(x & Hx & <-)]; [by left|]. right. exists x. split; [by right|done].
Qed.

Lemma foldl_min_attained l x : foldl Z.min x l = x \/ foldl Z.min x l ∈ l.
Proof.
  revert x. induction l as [|y l IH]; intros x; simpl; [by left|].
  destruct (IH (Z.min x y)) as [->|]; [|right; by right].
  destruct (Z.min_spec x y) as [[_ ->]|[_ ->]]; [by left|right; by left].
Qed.

Lemma min_over_attained n f : (0 < n)%nat -> exists i, (i < n)%nat /\ min_over n f = f i.
Proof.
  intros Hn. unfold min_over. destruct n as [|n]; [lia|]. simpl map.
  destruct (foldl_min_attained (map f (seq 1 n)) (f 0%nat)) as [->|Hin]; [exists 0%nat; split; [lia|done]|].
  apply list_elem_of_fmap in Hin as (i & -> & Hi). apply elem_of_seq in Hi. exists i. split; [lia|done].
Qed.

(** Every armed deadline is below the value that stands for "none". *)
Definition bounded (w : TimerWheel) (ch : chains) : Prop :=
  forall l s o, o ∈ ch l s -> dl (nodes w) o < U64_MAX.
Definition in_table (ch : chains) : Prop :=
  forall l s, ch l s <> [] -> (l < LEVELS)%nat /\ (s < SLOTS)%nat.

Lemma overall_min w ch l s o :
  caches w ch -> in_table ch -> o ∈ ch l s ->
  min_over LEVELS (level_deadlines w) <= dl (nodes w) o.
Proof.
  intros [Hs Hl] Hr Ho. destruct (Hr l s) as [Hll Hss]; [intros E; rewrite E in Ho; by apply not_elem_of_nil in Ho|].
  pose proof (proj1 (min_over_glb LEVELS (level_deadlines w) _ ltac:(unfold LEVELS; lia))
    (Z.le_refl _) l Hll) as H1. rewrite (Hl l Hll) in H1.
  pose proof (proj1 (min_over_glb SLOTS (slot_deadlines w l) _ ltac:(unfold SLOTS; lia))
    (Z.le_refl _) s Hss) as H2. rewrite Hs in H2.
  pose proof (proj1 (slot_min_glb (nodes w) (ch l s) _) (Z.le_refl _)) as [_ H3].
  specialize (H3 o Ho). lia.
Qed.

Lemma refresh_earliest_exact w ch :
  caches w ch -> in_table ch -> bounded w ch -> earliest_exact (refresh_earliest w) ch.
Proof.
  intros Hc Hr Hb. unfold earliest_exact, refresh_earliest. simpl.
  pose proof (fun l s o => overall_min w ch l s o Hc Hr) as Hmin.
  set (m := min_over LEVELS (level_deadlines w)) in *.
  destruct (Z.eqb_spec m U64_MAX) as [E|E]; simpl.
  - intros l s. destruct (ch l s) as [|o c] eqn:Ec; [done|exfalso].
    assert (o ∈ ch l s) as Ho by (rewrite Ec; by left).
    pose proof (Hmin _ _ _ Ho). pose proof (Hb _ _ _ Ho). lia.
  - split; [|exact Hmin].
    destruct (min_over_attained LEVELS (level_deadlines w)) as (l & Hl & El); [unfold LEVELS; lia|].
    destruct (min_over_attained SLOTS (slot_deadlines w l)) as (s & Hs & Es); [unfold SLOTS; lia|].
    rewrite (ca_level _ _ Hc l Hl) in El. rewrite Es, (ca_slot _ _ Hc) in El.
    destruct (slot_min_attained (nodes w) (ch l s)) as [Em|(o & Ho & Eo)]; [fold m in El; congruence|].
    exists l, s, o. split; [done|]. unfold m. congruence.
Qed.

(** ** Walks *)

Lemma walk_ok w l s prev c acc fuel :
  dseg (nodes w) l s prev c None -> (length c <= fuel)%nat -> acc <= U64_MAX ->
  walk_deadline fuel w (head c) acc = Done (Z.min acc (slot_min (nodes w) c)).
Proof.
  revert prev acc fuel. induction c as [|o c IH]; intros prev acc fuel Hs Hf Hacc; simpl.
  - destruct fuel; simpl; f_equal; lia.
  - destruct fuel as [|fuel]; [simpl in Hf; lia|]. destruct Hs as [(d & g & Hn) Hs]. simpl.
    rewrite (node_ok _ _ _ Hn). cbn [mbind exec_bind next deadline_ms].
    replace (hd_or c None) with (head c) by (by destruct c).
    rewrite (IH (Some o)); [|done|simpl in Hf; lia|lia].
    f_equal. unfold dl at 1. rewrite Hn. simpl. lia.
Qed.

Lemma chain_length ns l s prev c nxt :
  dseg ns l s prev c nxt -> NoDup c -> (length c <= length ns)%nat.
Proof.
  intros Hs Hnd. rewrite <- (length_seq (length ns) 0).
  apply submseteq_length, NoDup_submseteq; [done|]. intros o Ho. apply elem_of_seq.
  destruct (dseg_elem _ _ _ _ _ _ _ Hs Ho) as (n & Hn & _).
  apply lookup_lt_Some in Hn. lia.
Qed.

Lemma floating_length ns fl : floating ns fl -> NoDup fl -> (length fl <= length ns)%nat.
Proof.
  intros Hs Hnd. rewrite <- (length_seq (length ns) 0).
  apply submseteq_length, NoDup_submseteq; [done|]. intros o Ho. apply elem_of_seq.
  destruct (floating_elem _ _ _ Hs Ho) as (n & Hn & _). apply lookup_lt_Some in Hn. lia.
Qed.

(** After a slot's value has grown to [x] the level is brought up to date. *)
Definition settle_level (w : TimerWheel) (l : nat) (previous_deadline : Z) : TimerWheel :=
  if level_deadlines w l =? previous_deadline then refresh_level_deadline w l else w.

Lemma settle_level_ok w l s x :
  (l < LEVELS)%nat -> (s < SLOTS)%nat ->
  (forall l, (l < LEVELS)%nat -> level_deadlines w l = min_over SLOTS (slot_deadlines w l)) ->
  slot_deadlines w l s <= x ->
  let w' := settle_level (set_slot_deadline w l s x) l (slot_deadlines w l s) in
  now_ms w' = now_ms w /\ heads w' = heads w /\ nodes w' = nodes w /\
  earliest_deadline_ms w' = earliest_deadline_ms w /\
  slot_deadlines w' = store2 (slot_deadlines w) l s x /\
  forall l, (l < LEVELS)%nat -> level_deadlines w' l = min_over SLOTS (slot_deadlines w' l).
Proof.
  intros Hl Hs Hlev Hx. unfold settle_level. simpl.
  destruct (Z.eqb_spec (level_deadlines w l) (slot_deadlines w l s)) as [E|E]; simpl;
    split_and!; try done; intros l' Hl'; unfold store2.
  - destruct (decide (l' = l)) as [->|]; [by rewrite store_eq|].
    rewrite store_ne by done. by rewrite (proj2 (Nat.eqb_neq l' l)), Hlev.
  - destruct (Nat.eqb_spec l' l) as [->|]; [|by apply Hlev].
    rewrite Hlev by done. apply level_unchanged; [done| |done]. rewrite <- Hlev; done.
Qed.

(** ** [detach] and [cancel] *)

Lemma exec_bind_assoc {A B C} (m : exec A) (f : A -> exec B) (h : B -> exec C) :
  (m ≫= fun a => f a ≫= h) = ((m ≫= f) ≫= h).
Proof. by destruct m. Qed.

(** The wheel whose lists no longer contain the owner between [pre] and [post]. *)
Definition unlinked (w : TimerWheel) (l s : nat) (pre post : list nat) : TimerWheel :=
  mk (now_ms w)
     (match last pre with Some _ => heads w | None => store2 (heads w) l s (head post) end)
     (slot_deadlines w) (level_deadlines w) (earliest_deadline_ms w)
     (unlink_nodes (nodes w) pre post).

Lemma unlink_steps w l s pre o post :
  dseg (nodes w) l s None (pre ++ o :: post) None -> NoDup (pre ++ o :: post) ->
  ((match last_or None pre with
    | Some p => set_next w p (hd_or post None)
    | None => Done (set_head w l s (hd_or post None))
    end) ≫= fun w =>
   match hd_or post None with
   | Some x => set_previous w x (last_or None pre)
   | None => Done w
   end) = Done (unlinked w l s pre post).
Proof.
  intros Hs Hnd. unfold unlinked, unlink_nodes, last_or.
  replace (hd_or post None) with (head post) by (by destruct post).
  assert (forall x, x ∈ pre ++ o :: post -> exists n, nodes w !! x = Some n) as Hin.
  { intros x Hx. destruct (dseg_elem _ _ _ _ _ _ _ Hs Hx) as (n & En & _). eauto. }
  assert (forall x, head post = Some x -> x ∈ post) as Hpost
    by (intros x [c ->]%head_Some; by left).
  destruct (last pre) as [p|] eqn:Ep.
  - assert (p ∈ pre) as Hp by (apply last_Some in Ep as [c ->]; apply elem_of_app; right; by left).
    destruct (Hin p) as [n En]; [apply elem_of_app; by left|].
    rewrite (set_next_ok _ _ _ _ En). cbn [mbind exec_bind]. rewrite (alter_insert _ _ _ _ En).
    destruct (head post) as [x|] eqn:Ex; [|done]. specialize (Hpost x eq_refl).
    assert (x <> p) as Hxp.
    { intros ->. apply NoDup_app in Hnd as (_ & Hd & _). apply (Hd p Hp). by right. }
    destruct (Hin x) as [nx Enx]; [apply elem_of_app; right; by right|].
    assert (<[p:=relink_next n (Some x)]> (nodes w) !! x = Some nx) as Enx'
      by (rewrite list_lookup_insert_ne; [done|congruence]).
    rewrite (set_previous_ok _ x nx) by done. by rewrite (alter_insert _ _ _ _ Enx').
  - cbn [mbind exec_bind]. destruct (head post) as [x|] eqn:Ex; [|done].
    specialize (Hpost x eq_refl). destruct (Hin x) as [nx Enx]; [apply elem_of_app; right; by right|].
    rewrite (set_previous_ok _ x nx) by done. by rewrite (alter_insert _ _ _ _ Enx).
Qed.

Lemma unlinked_dl w l s pre post x : dl (nodes (unlinked w l s pre post)) x = dl (nodes w) x.
Proof.
  unfold dl. simpl. destruct (relinked_unlink (S x) (nodes w) pre post x) as [n n' (_ & _ & _ & Hd & _)|];
    [lia|done|done].
Qed.

Lemma unlinked_heads w ch l s pre o post l' s' :
  links w ch [] -> ch l s = pre ++ o :: post ->
  heads (unlinked w l s pre post) l' s' = head (store2 ch l s (pre ++ post) l' s').
Proof.
  intros Hl Hc. simpl. destruct (last pre) as [p|] eqn:E.
  - destruct (decide ((l', s') = (l, s))) as [[= -> ->]|Hne].
    + rewrite store2_eq, (lk_head _ _ _ Hl), Hc. by destruct pre.
    + rewrite store2_ne by done. apply Hl.
  - apply last_None in E as ->. destruct (decide ((l', s') = (l, s))) as [[= -> ->]|Hne].
    + by rewrite !store2_eq.
    + rewrite !store2_ne by done. apply Hl.
Qed.

Lemma slot_min_max ns c : slot_min ns c <= U64_MAX.
Proof. by apply (slot_min_glb ns c). Qed.

Lemma slot_min_elem ns c o : o ∈ c -> slot_min ns c <= dl ns o.
Proof. intros Ho. by apply (slot_min_glb ns c). Qed.

(** Removing an owner raises the minimum, and only when the owner had it. *)
Lemma slot_min_remove ns pre o post :
  slot_min ns (pre ++ o :: post) <= slot_min ns (pre ++ post) /\
  (slot_min ns (pre ++ o :: post) <> dl ns o ->
   slot_min ns (pre ++ post) = slot_min ns (pre ++ o :: post)).
Proof.
  assert (slot_min ns (pre ++ o :: post) <= slot_min ns (pre ++ post)) as Hle.
  { apply slot_min_glb. split; [apply slot_min_max|]. intros x Hx. apply slot_min_elem.
    rewrite elem_of_app, elem_of_cons. apply elem_of_app in Hx. tauto. }
  split; [done|]. intros Hne.
  destruct (slot_min_attained ns (pre ++ o :: post)) as [E|(x & Hx & E)].
  - pose proof (slot_min_max ns (pre ++ post)). lia.
  - assert (x ∈ pre ++ post) as Hx'.
    { rewrite elem_of_app, elem_of_cons in Hx. rewrite elem_of_app.
      destruct Hx as [|[->|]]; auto. congruence. }
    pose proof (slot_min_elem ns _ _ Hx'). lia.
Qed.

Lemma NoDup_remove_mid (pre : list nat) o post : NoDup (pre ++ o :: post) -> NoDup (pre ++ post).
Proof.
  intros (? & Hdis & [? ?]%NoDup_cons)%NoDup_app. apply NoDup_app. split_and!; [done| |done].
  intros x Hx Hx'. apply (Hdis x Hx). by right.
Qed.

(** The caches once a slot holds another list and its minimum. *)
Lemma caches_store w w' ch l s c :
  caches w ch -> (forall x, dl (nodes w') x = dl (nodes w) x) ->
  (forall l' s', slot_deadlines w' l' s' =
     store2 (slot_deadlines w) l s (slot_min (nodes w) c) l' s') ->
  (forall l, (l < LEVELS)%nat -> level_deadlines w' l = min_over SLOTS (slot_deadlines w' l)) ->
  caches w' (store2 ch l s c).
Proof.
  intros [Hs _] Hd Hs' Hl'. split; [|done]. intros l' s'. rewrite Hs'.
  destruct (decide ((l', s') = (l, s))) as [[= -> ->]|Hne].
  - rewrite !store2_eq. by apply slot_min_frame.
  - rewrite !store2_ne, Hs by done. by apply slot_min_frame.
Qed.

(** The slot's minimum is recomputed only when the removed owner had it. *)
Lemma detach_slot_ok w ch l s pre o post :
  links w ch [] -> caches w ch -> ch l s = pre ++ o :: post ->
  let w1 := unlinked w l s pre post in
  exists w2,
    (if slot_deadlines w1 l s =? dl (nodes w) o then refresh_slot_deadline w1 l s else Done w1)
      = Done w2 /\
    now_ms w2 = now_ms w /\ heads w2 = heads w1 /\ nodes w2 = nodes w1 /\
    earliest_deadline_ms w2 = earliest_deadline_ms w /\ caches w2 (store2 ch l s (pre ++ post)).
Proof.
  intros Hl Hca Hc w1. destruct (lk_range _ _ _ Hl l s) as [Hll Hss]; [rewrite Hc; by destruct pre|].
  pose proof (lk_nodup _ _ _ Hl l s) as Hnd. pose proof (lk_dseg _ _ _ Hl l s) as Hd.
  rewrite Hc in Hnd, Hd. pose proof (unlink_dseg _ _ _ _ _ _ Hd Hnd) as Hd'.
  assert (slot_deadlines w l s = slot_min (nodes w) (pre ++ o :: post)) as Hold
    by (rewrite (ca_slot _ _ Hca), Hc; done).
  destruct (slot_min_remove (nodes w) pre o post) as [Hle Hsame].
  assert (slot_min (nodes w1) (pre ++ post) = slot_min (nodes w) (pre ++ post)) as Hsm
    by (apply slot_min_frame; intros; apply unlinked_dl).
  change (slot_deadlines w1 l s) with (slot_deadlines w l s).
  destruct (Z.eqb_spec (slot_deadlines w l s) (dl (nodes w) o)) as [E|E].
  - unfold refresh_slot_deadline. rewrite (unlinked_heads w ch l s pre o post), store2_eq by done.
    rewrite (walk_ok w1 l s None); [|done|by eapply chain_length, NoDup_remove_mid|done].
    cbn [mbind exec_bind]. rewrite Z.min_r, Hsm by apply slot_min_max.
    edestruct (settle_level_ok w1 l s (slot_min (nodes w) (pre ++ post)) Hll Hss)
      as (H1 & H2 & H3 & H4 & H5 & H6); [apply Hca|simpl; lia|].
    eexists. split; [reflexivity|]. split_and!; [done..|].
    eapply caches_store; [exact Hca| |intros l' s'; exact (f_equal (fun f => f l' s') H5)|exact H6].
    intros x. exact (eq_trans (f_equal (fun ns => dl ns x) H3) (unlinked_dl w l s pre post x)).
  - exists w1. split_and!; try done. eapply caches_store; [exact Hca|intros; apply unlinked_dl| |apply Hca].
    intros l' s'. destruct (decide ((l', s') = (l, s))) as [[= -> ->]|Hne].
    + rewrite store2_eq. simpl. rewrite Hsame; congruence.
    + by rewrite store2_ne.
Qed.

(** The caches only depend on the deadlines of the owners in the lists. *)
Lemma caches_frame w w' ch :
  caches w ch -> slot_deadlines w' = slot_deadlines w -> level_deadlines w' = level_deadlines w ->
  (forall l s x, x ∈ ch l s -> dl (nodes w') x = dl (nodes w) x) -> caches w' ch.
Proof.
  intros [Hs Hl] Es El Hd. split; rewrite ?Es, ?El; [|done].
  intros l s. rewrite Hs. symmetry. apply slot_min_frame. apply Hd.
Qed.

Lemma earliest_frame w w' ch :
  earliest_exact w ch -> earliest_deadline_ms w' = earliest_deadline_ms w ->
  (forall l s x, x ∈ ch l s -> dl (nodes w') x = dl (nodes w) x) -> earliest_exact w' ch.
Proof.
  unfold earliest_exact. intros He -> Hd. destruct (earliest_deadline_ms w); [|done].
  destruct He as [(l & s & o & Ho & <-) Hmin]. split; [exists l, s, o; split; [done|by eapply Hd]|].
  intros l' s' x Hx. rewrite (Hd _ _ _ Hx). by eapply Hmin.
Qed.

Lemma bounded_frame w w' ch ch' :
  bounded w ch -> (forall l s x, x ∈ ch' l s -> x ∈ ch l s /\ dl (nodes w') x = dl (nodes w) x) ->
  bounded w' ch'.
Proof. intros Hb Hd l s o Ho. destruct (Hd _ _ _ Ho) as [Hin ->]. by eapply Hb. Qed.

(** Removing an owner that does not have the earliest deadline keeps it. *)
Lemma earliest_remove w w' ch ch' o l s :
  earliest_exact w ch -> o ∈ ch l s -> earliest_deadline_ms w <> Some (dl (nodes w) o) ->
  earliest_deadline_ms w' = earliest_deadline_ms w ->
  (forall x, dl (nodes w') x = dl (nodes w) x) ->
  (forall l s x, x ∈ ch' l s <-> x ∈ ch l s /\ x <> o) -> earliest_exact w' ch'.
Proof.
  unfold earliest_exact. intros He Ho Hne -> Hd Hch. destruct (earliest_deadline_ms w) as [m|].
  - destruct He as [(l' & s' & x & Hx & <-) Hmin]. split.
    + exists l', s', x. rewrite Hch, Hd. split; [|done]. split; [done|]. by intros ->.
    + intros l2 s2 y [Hy _]%Hch. rewrite Hd. by eapply Hmin.
  - rewrite He in Ho. by apply not_elem_of_nil in Ho.
Qed.

Lemma elem_store_remove (ch : chains) l s pre o post l' s' x :
  ch l s = pre ++ o :: post -> NoDup (pre ++ o :: post) ->
  (forall l' s', o ∈ ch l' s' -> (l', s') = (l, s)) ->
  x ∈ store2 ch l s (pre ++ post) l' s' <-> x ∈ ch l' s' /\ x <> o.
Proof.
  intros Hc Hnd Hu. destruct (decide ((l', s') = (l, s))) as [[= -> ->]|Hne].
  - rewrite store2_eq, Hc, !elem_of_app, elem_of_cons.
    apply NoDup_app in Hnd as (_ & Hd & [Hp _]%NoDup_cons).
    assert (o ∉ pre) by (intros Hx; apply (Hd o Hx); by left).
    split; [|tauto]. intros [Hx|Hx]; (split; [tauto|]); by intros ->.
  - rewrite store2_ne by done. split; [|tauto]. intros Hx. split; [done|]. intros ->. by apply Hne, Hu.
Qed.

Lemma detach_spec w ch o n :
  links w ch [] -> caches w ch -> earliest_exact w ch -> bounded w ch ->
  nodes w !! o = Some n -> active n = true ->
  exists l s pre post w1,
    ch l s = pre ++ o :: post /\ detach w o = Done w1 /\
    now_ms w1 = now_ms w /\ heads w1 = heads (unlinked w l s pre post) /\
    nodes w1 = unlink_nodes (nodes w) pre post /\
    caches w1 (store2 ch l s (pre ++ post)) /\ earliest_exact w1 (store2 ch l s (pre ++ post)).
Proof.
  intros Hl Hc He Hb Hn Ha. destruct (lk_active _ _ _ Hl o n Hn Ha) as [Ho|Ho]; [|by apply not_elem_of_nil in Ho].
  apply list_elem_of_split in Ho as (pre & post & Ech).
  set (l := level n) in *. set (s := slot n) in *. exists l, s, pre, post.
  pose proof (lk_nodup _ _ _ Hl l s) as Hnd. pose proof (lk_dseg _ _ _ Hl l s) as Hd.
  rewrite Ech in Hnd, Hd. pose proof Hd as Hd0. rewrite dseg_app in Hd0.
  destruct Hd0 as [_ [(d & g & En) _]]. rewrite Hn in En. injection En as En.
  pose proof (f_equal previous En) as Eprev. pose proof (f_equal next En) as Enext.
  cbn [previous next] in Eprev, Enext. clear En.
  assert (dl (nodes w) o = deadline_ms n) as Hdl by (unfold dl; by rewrite Hn).
  destruct (detach_slot_ok w ch l s pre o post Hl Hc Ech) as (w2 & E2 & Hnow & Hh & Hns & Hea & Hc2).
  assert (forall l' s', o ∈ ch l' s' -> (l', s') = (l, s)) as Huniq.
  { intros l' s' Hx. eapply links_unique; [exact Hl|exact Hx|]. rewrite Ech. apply elem_of_app. right. by left. }
  assert (detach w o = Done (if bool_decide (earliest_deadline_ms w2 = Some (deadline_ms n))
                             then refresh_earliest w2 else w2)) as Edet.
  { unfold detach. rewrite (node_ok _ _ _ Hn). cbn [mbind exec_bind]. fold l s.
    rewrite exec_bind_assoc, Eprev, Enext, (unlink_steps w l s pre o post) by done.
    cbn [mbind exec_bind]. rewrite Hdl in E2. by rewrite E2. }
  rewrite Edet. case_bool_decide as Hear; eexists; (split; [done|]); (split; [reflexivity|]).
  - split_and!; [done|done|done| |].
    + by eapply caches_frame.
    + apply refresh_earliest_exact; [done| |].
      * intros l' s' Hne. destruct (decide ((l', s') = (l, s))) as [[= -> ->]|Hne'].
        -- apply Hl. rewrite Ech. by destruct pre.
        -- rewrite store2_ne in Hne by done. by apply Hl.
      * eapply bounded_frame; [exact Hb|]. intros l' s' x Hx.
        apply (elem_store_remove ch l s pre o post) in Hx as [Hx _]; [|done..]. split; [done|].
        rewrite Hns. apply unlinked_dl.
  - split_and!; [done|done|done|done|].
    eapply (earliest_remove w w2 ch _ o l s); [done| | |done| |].
    + rewrite Ech. apply elem_of_app. right. by left.
    + by rewrite Hdl, <- Hea.
    + intros x. rewrite Hns. apply unlinked_dl.
    + intros. by apply elem_store_remove.
Qed.
