(* ===== verification/TimerProofs.v ===== *)
(** * Time in the timer wheel

    Where a timer may be at a given moment, and that this is kept: an armed
    timer sits in the level and slot that the wheel will look at before or at
    the timer's deadline.  [cancel], [schedule] and the cascades keep the
    placement, and one tick takes out exactly the timers that are due. *)

From S2P Require Import Prelude TimerWheel TimerLinks TimerCache.
Import TimerWheel.

(** ** Windows *)

(** How many milliseconds one slot of a level spans. *)
Definition pw (l : nat) : Z := 2 ^ (8 * Z.of_nat l).

Lemma pw_pos l : 0 < pw l.
Proof. apply Z.pow_pos_nonneg; lia. Qed.

Lemma pw_values : pw 0 = 1 /\ pw 1 = 256 /\ pw 2 = 65536 /\ pw 3 = 16777216.
Proof. done. Qed.

Lemma slot_for_eq l x : slot_for l x = Z.to_nat (x / pw l mod 256).
Proof.
  unfold slot_for, pw. rewrite Z.shiftr_div_pow2 by lia. change 255 with (Z.ones 8).
  rewrite Z.land_ones by lia. by rewrite (Z.mul_comm 8).
Qed.

(** The slots of level [l] that hold the deadline [d] at time [t]: the 256
    slots ahead, or, when the current slot is still to be looked at in this
    tick ([due]), the current one and the 255 ahead of it. *)
Definition in_window (due : bool) (t : Z) (l : nat) (d : Z) : Prop :=
  if due then t / pw l <= d / pw l <= t / pw l + 255
  else t / pw l < d / pw l <= t / pw l + 256.

(** In the window the slot determines the quotient. *)
Lemma window_slot due t l d :
  in_window due t l d -> due = true -> slot_for l d = slot_for l t -> d / pw l = t / pw l.
Proof.
  intros Hw ->. simpl in Hw. rewrite !slot_for_eq. intros E.
  pose proof (Z.mod_pos_bound (d / pw l) 256 ltac:(lia)).
  pose proof (Z.mod_pos_bound (t / pw l) 256 ltac:(lia)).
  pose proof (Z.div_mod (d / pw l) 256 ltac:(lia)). pose proof (Z.div_mod (t / pw l) 256 ltac:(lia)).
  lia.
Qed.

(** The other slots of a level that is due are ahead. *)
Lemma window_other t l d :
  in_window true t l d -> slot_for l d <> slot_for l t -> in_window false t l d.
Proof.
  intros Hw Hne. simpl in *. assert (d / pw l <> t / pw l); [|lia].
  intros E. apply Hne. by rewrite !slot_for_eq, E.
Qed.

(** A level becomes due when its low digits roll over. *)
Lemma window_tick t l d :
  in_window false t l d -> in_window ((t + 1) mod pw l =? 0) (t + 1) l d.
Proof.
  intros Hw. pose proof (pw_pos l) as Hp. simpl in Hw.
  pose proof (Z.div_mod t (pw l) ltac:(lia)) as H1. pose proof (Z.mod_pos_bound t (pw l) Hp) as H2.
  pose proof (Z.div_mod (t + 1) (pw l) ltac:(lia)) as H3.
  pose proof (Z.mod_pos_bound (t + 1) (pw l) Hp) as H4.
  assert (forall a c, a < c -> pw l * a + pw l <= pw l * c) as Hm by (intros; nia).
  destruct (Z.eqb_spec ((t + 1) mod pw l) 0) as [E|E]; simpl.
  - assert ((t + 1) / pw l = t / pw l + 1); [|lia].
    destruct (Z.lt_trichotomy ((t + 1) / pw l) (t / pw l + 1)) as [Hl|[|Hl]]; [|done|];
      apply Hm in Hl; lia.
  - assert ((t + 1) / pw l = t / pw l); [|lia].
    destruct (Z.lt_trichotomy ((t + 1) / pw l) (t / pw l)) as [Hl|[|Hl]]; [|done|];
      apply Hm in Hl; lia.
Qed.

(** A timer ahead in its level is in the future, and not too far. *)
Lemma window_future t l d : in_window false t l d -> t < d.
Proof.
  intros Hw. pose proof (pw_pos l). simpl in Hw.
  destruct (Z.le_gt_cases d t) as [Hle|]; [|done]. pose proof (Z.div_le_mono d t (pw l)). lia.
Qed.

Lemma window_bound due t l d :
  (l < LEVELS)%nat -> 0 <= t -> in_window due t l d -> d < t + 2 ^ 33.
Proof.
  intros Hl Ht Hw. pose proof (pw_pos l) as Hp.
  assert (d / pw l <= t / pw l + 256) as Hd by (destruct due; simpl in Hw; lia).
  pose proof (Z.mul_div_le t (pw l) Hp). pose proof (Z.mul_succ_div_gt d (pw l) Hp).
  assert (pw l <= 2 ^ 24).
  { unfold pw, LEVELS in *. apply Z.pow_le_mono_r; lia. }
  nia.
Qed.

Lemma level_for_window t d :
  t <= d < t + 2 ^ 32 ->
  let l := level_for (saturating_sub d t) in
  if (l =? 0)%nat then t <= d <= t + 255 else in_window false t l d.
Proof.
  intros Hd. unfold level_for, saturating_sub. rewrite Z.max_r by lia.
  change (Z.shiftl 1 8) with 256. change (Z.shiftl 1 16) with 65536. change (Z.shiftl 1 24) with 16777216.
  assert (forall l, 0 < pw l -> pw l <= d - t < 256 * pw l -> in_window false t l d) as Hw.
  { intros l Hp Hr. simpl.
    pose proof (Z.mul_div_le t (pw l) Hp). pose proof (Z.mul_succ_div_gt t (pw l) Hp).
    pose proof (Z.mul_div_le d (pw l) Hp). pose proof (Z.mul_succ_div_gt d (pw l) Hp). nia. }
  repeat case_match; reflect_bools; simpl in *; try lia; try done; apply Hw;
    try (apply pw_pos); unfold pw; simpl; lia.
Qed.

(** ** The invariant *)

(** The clock stays far enough below [u64::MAX] for a deadline to be a number of
    milliseconds; 584 million years are left. *)
Definition NOW_MAX : Z := U64_MAX - 2 ^ 33.

(** [due l] says that the current slot of level [l] is still to be looked at. *)
Record stage (due : nat -> bool) (w : TimerWheel) (ch : chains) (fl : list nat) : Prop := mk_stage {
  st_links : links w ch fl;
  st_caches : caches w ch;
  st_now : 0 <= now_ms w <= NOW_MAX;
  st_time : forall l s o, o ∈ ch l s ->
    s = slot_for l (dl (nodes w) o) /\ in_window (due l) (now_ms w) l (dl (nodes w) o)
}.

Definition settled : nat -> bool := fun _ => false.

Definition wheel_inv (w : TimerWheel) : Prop :=
  exists ch, stage settled w ch [] /\ earliest_exact w ch.

Lemma stage_bounded due w ch fl : stage due w ch fl -> bounded w ch.
Proof.
  intros Hs l s o Ho. destruct (st_time _ _ _ _ Hs _ _ _ Ho) as [_ Hw].
  destruct (lk_range _ _ _ (st_links _ _ _ _ Hs) l s) as [Hl _].
  { intros E. rewrite E in Ho. by apply not_elem_of_nil in Ho. }
  pose proof (st_now _ _ _ _ Hs) as Hn. unfold NOW_MAX in Hn.
  apply window_bound in Hw; [|done|lia]. lia.
Qed.

Lemma stage_in_table due w ch fl : stage due w ch fl -> in_table ch.
Proof. intros Hs. exact (lk_range _ _ _ (st_links _ _ _ _ Hs)). Qed.

Lemma stage_refresh due w ch :
  stage due w ch [] ->
  stage due (refresh_earliest w) ch [] /\ earliest_exact (refresh_earliest w) ch.
Proof.
  intros Hs. split; [by destruct Hs as [[] [] ? ?]|].
  apply refresh_earliest_exact; [apply Hs|by eapply stage_in_table|by eapply stage_bounded].
Qed.

Lemma stage_due due due' w ch fl :
  (forall l s o, o ∈ ch l s -> due l = due' l) -> stage due w ch fl -> stage due' w ch fl.
Proof.
  intros Hd [Hl Hc Hn Ht]. split; try done. intros l s o Ho. rewrite <- (Hd l s o Ho). by apply Ht.
Qed.

(** The owner of a slot, its deadline and what a client sees of it agree. *)
Lemma armed_in_list w ch o g d :
  links w ch [] -> timer (nodes w) o = Some (g, d) ->
  exists l s n, o ∈ ch l s /\ nodes w !! o = Some n /\ active n = true /\
    deadline_ms n = d /\ generation n = g /\ dl (nodes w) o = d.
Proof.
  intros Hl. unfold timer, dl. destruct (nodes w !! o) as [n|] eqn:E; [|done].
  destruct (active n) eqn:Ea; [|done]. intros [= <- <-].
  destruct (lk_active _ _ _ Hl o n E Ea) as [Ho|Ho]; [|by apply not_elem_of_nil in Ho].
  by exists (level n), (slot n), n.
Qed.

Lemma list_armed w ch fl l s o :
  links w ch fl -> o ∈ ch l s ->
  exists n, nodes w !! o = Some n /\ timer (nodes w) o = Some (generation n, dl (nodes w) o).
Proof.
  intros Hl Ho. destruct (dseg_elem _ _ _ _ _ _ _ (lk_dseg _ _ _ Hl l s) Ho) as (n & E & Ha & _).
  exists n. unfold timer, dl. by rewrite E, Ha.
Qed.

(** ** [insert] in a stage *)

Lemma insert_stage due w ch fl o g d n0 :
  stage due w ch fl -> nodes w !! o = Some n0 -> active n0 = false -> d <= U64_MAX ->
  let l := level_for (saturating_sub d (now_ms w)) in
  in_window (due l) (now_ms w) l d ->
  exists w' ch', insert w o g d = Done w' /\ stage due w' ch' fl /\
    now_ms w' = now_ms w /\ length (nodes w') = length (nodes w) /\
    timer (nodes w') o = Some (g, d) /\ relinked o (nodes w) (nodes w') /\
    earliest_deadline_ms w' =
      Some (match earliest_deadline_ms w with Some e => Z.min e d | None => d end) /\
    (forall l' s' x, x ∈ ch' l' s' <->
       x ∈ ch l' s' \/ (x = o /\ l' = l /\ s' = slot_for l d)) /\
    (forall l s, o ∉ ch l s) /\ o ∉ fl.
Proof.
  intros [Hl Hc Hn Ht] Hno Ha Hd l Hw.
  destruct (insert_spec w ch fl o g d n0) as (E & Hl' & Hc' & Htm & Hr & Hlen); try done.
  fold l in Hl', Hc'. destruct (inactive_nowhere _ _ _ _ _ Hl Hno Ha) as [Hnot Hnofl].
  set (s := slot_for l d) in *.
  assert (forall l' s' x, x ∈ store2 ch l s (o :: ch l s) l' s' <->
       x ∈ ch l' s' \/ (x = o /\ l' = l /\ s' = s)) as Helem.
  { intros l' s' x. destruct (decide ((l', s') = (l, s))) as [[= -> ->]|Hne].
    - rewrite store2_eq, elem_of_cons. naive_solver.
    - rewrite store2_ne by done. naive_solver. }
  eexists _, _. split; [exact E|]. split; [|by split_and!].
  split; [done|done|done|]. intros l' s' x Hx. apply Helem in Hx as [Hx|(-> & -> & ->)].
  - rewrite (relinked_dl o (nodes w)); [by apply Ht|done|]. intros ->. by eapply Hnot.
  - assert (dl (nodes (inserted w ch o g d)) o = d) as ->; [|done].
    unfold timer in Htm. unfold dl. destruct (nodes (inserted w ch o g d) !! o) as [n|]; [|done].
    destruct (active n); [|done]. by simplify_eq.
Qed.

(** An inserted timer brings the earliest deadline down to its own if needed. *)
Lemma insert_earliest w w' ch ch' o l s d :
  earliest_exact w ch -> (forall l s, o ∉ ch l s) -> relinked o (nodes w) (nodes w') ->
  dl (nodes w') o = d ->
  earliest_deadline_ms w' =
    Some (match earliest_deadline_ms w with Some e => Z.min e d | None => d end) ->
  (forall l' s' x, x ∈ ch' l' s' <-> x ∈ ch l' s' \/ (x = o /\ l' = l /\ s' = s)) ->
  earliest_exact w' ch'.
Proof.
  intros He Hno Hr Hd Ee Helem. unfold earliest_exact in *. rewrite Ee.
  assert (forall l s x, x ∈ ch l s -> dl (nodes w') x = dl (nodes w) x) as Hdl.
  { intros l' s' x Hx. apply (relinked_dl o); [done|]. intros ->. by eapply Hno. }
  assert (o ∈ ch' l s) as Ho by (apply Helem; auto).
  destruct (earliest_deadline_ms w) as [e|].
  - destruct He as [(l1 & s1 & x & Hx & Hxe) Hmin]. split.
    + destruct (Z.min_spec e d) as [[_ ->]|[_ ->]]; [|by exists l, s, o].
      exists l1, s1, x. rewrite Helem, (Hdl _ _ _ Hx). auto.
    + intros l2 s2 y [Hy|(-> & _ & _)]%Helem; [|lia]. rewrite (Hdl _ _ _ Hy).
      specialize (Hmin _ _ _ Hy). lia.
  - split; [by exists l, s, o|]. intros l2 s2 y [Hy|(-> & _ & _)]%Helem; [|lia].
    rewrite He in Hy. by apply not_elem_of_nil in Hy.
Qed.

(** ** [cancel] *)

Lemma cancel_armed w n o :
  wheel_inv w -> nodes w !! o = Some n -> active n = true ->
  exists w', cancel w o = Done (true, w') /\ wheel_inv w' /\ now_ms w' = now_ms w /\
    length (nodes w') = length (nodes w) /\
    nodes w' !! o = Some empty /\ relinked o (nodes w) (nodes w').
Proof.
  intros (ch & Hs & He) Hn Ha. pose proof (stage_bounded _ _ _ _ Hs) as Hb.
  destruct Hs as [Hl Hc Hnow Ht].
  destruct (detach_spec w ch o n) as (l & s & pre & post & w1 & Ech & Ed & En & Eh & Ens & Hc1 & He1);
    try done.
  pose proof (lk_nodup _ _ _ Hl l s) as Hnd. rewrite Ech in Hnd.
  assert (o ∈ ch l s) as Ho by (rewrite Ech; apply elem_of_app; right; by left).
  assert (forall l' s' x, x ∈ store2 ch l s (pre ++ post) l' s' <-> x ∈ ch l' s' /\ x <> o) as Helem.
  { intros. apply elem_store_remove; [done..|]. intros l2 s2 Hx. by eapply links_unique. }
  assert (exists n1, nodes w1 !! o = Some n1) as [n1 En1].
  { apply lookup_lt_is_Some_2. rewrite Ens, length_unlink. by eapply lookup_lt_Some. }
  set (w2 := with_nodes w1 (<[o := empty]> (nodes w1))).
  assert (forall x, x <> o -> dl (nodes w2) x = dl (nodes w1) x) as Hdl2
    by (intros x Hx; apply (relinked_dl o); [apply relinked_insert|done]).
  assert (forall x, dl (nodes w1) x = dl (nodes w) x) as Hdl1
    by (intros x; rewrite Ens; apply (unlinked_dl w l s pre post)).
  exists w2. split; [|split; [|split; [done|]]].
  - unfold cancel. rewrite Hn, Ha. simpl. rewrite Ed. cbn [mbind exec_bind].
    by rewrite (set_node_ok _ _ _ _ En1).
  - exists (store2 ch l s (pre ++ post)). split; [split|].
    + eapply links_remove; [exact Hl|exact Ech| |by simpl; rewrite Ens].
      intros. simpl. rewrite Eh. by eapply unlinked_heads.
    + eapply caches_frame; [exact Hc1|done|done|]. intros l' s' x [_ Hx]%Helem. by apply Hdl2.
    + simpl. by rewrite En.
    + intros l' s' x [Hx Hxo]%Helem. rewrite Hdl2, Hdl1 by done. simpl. rewrite En. by apply Ht.
    + eapply earliest_frame; [exact He1|done|]. intros l' s' x [_ Hx]%Helem. by apply Hdl2.
  - simpl. rewrite length_insert, Ens, length_unlink. split_and!; [done| |].
    + rewrite <- Ens. apply list_lookup_insert_eq. by eapply lookup_lt_Some.
    + eapply relinked_trans; [apply relinked_unlink|]. apply relinked_insert.
Qed.

(** What a client sees after an operation on the timer of [o] alone. *)
Definition retimed (o : nat) (r : option (Z * Z)) (w w' : TimerWheel) : Prop :=
  forall x, timer (nodes w') x = if decide (x = o) then r else timer (nodes w) x.

Lemma retimed_relinked o r w w' :
  relinked o (nodes w) (nodes w') -> timer (nodes w') o = r -> retimed o r w w'.
Proof.
  intros Hr Ho x. destruct (decide (x = o)) as [->|Hx]; [done|]. by apply (relinked_timer o).
Qed.

Lemma cancel_spec w o :
  wheel_inv w ->
  exists w', cancel w o = Done (bool_decide (is_Some (timer (nodes w) o)), w') /\
    wheel_inv w' /\ now_ms w' = now_ms w /\ length (nodes w') = length (nodes w) /\
    retimed o None w w' /\ (forall n, nodes w' !! o = Some n -> active n = false).
Proof.
  intros Hw. destruct (nodes w !! o) as [n|] eqn:E; [destruct (active n) eqn:Ea|].
  - destruct (cancel_armed w n o Hw E Ea) as (w' & Ec & Hw' & Hn & Hlen & Ee & Hr).
    assert (timer (nodes w) o = Some (generation n, deadline_ms n)) as ->
      by (unfold timer; by rewrite E, Ea).
    exists w'. split_and!; try done.
    + apply retimed_relinked; [done|]. unfold timer. by rewrite Ee.
    + intros m Hm. rewrite Ee in Hm. by simplify_eq.
  - assert (timer (nodes w) o = None) as Et by (unfold timer; by rewrite E, Ea).
    exists w. unfold cancel. rewrite Et, E, Ea. simpl. split_and!; try done; [|congruence].
    intros x. case_decide as Hx; [by subst x|done].
  - assert (timer (nodes w) o = None) as Et by (unfold timer; by rewrite E).
    exists w. unfold cancel. rewrite Et, E. split_and!; try done.
    intros x. case_decide as Hx; [by subst x|done].
Qed.

(** ** [schedule] *)

(** The deadline in milliseconds that [schedule] gives a timer. *)
Definition clamped_deadline (now deadline_ns : Z) : Z :=
  Z.min (Z.max (saturating_add deadline_ns 999999 / 1000000) (now + 1)) (now + U32_MAX).

Lemma insert_settled w o g d n0 :
  wheel_inv w -> nodes w !! o = Some n0 -> active n0 = false ->
  now_ms w < d <= now_ms w + U32_MAX ->
  exists w', insert w o g d = Done w' /\ wheel_inv w' /\ now_ms w' = now_ms w /\
    length (nodes w') = length (nodes w) /\ retimed o (Some (g, d)) w w'.
Proof.
  intros (ch & Hs & He) Hn Ha Hd. pose proof (st_now _ _ _ _ Hs) as Hnow.
  unfold NOW_MAX, U32_MAX in *.
  pose proof (level_for_window (now_ms w) d ltac:(lia)) as Hw. cbv zeta in Hw.
  set (l := level_for _) in *.
  assert (in_window false (now_ms w) l d) as Hwin.
  { destruct (Nat.eqb_spec l 0) as [E0|]; [|done]. rewrite E0. simpl. rewrite !Z.div_1_r. lia. }
  destruct (insert_stage settled w ch [] o g d n0)
    as (w' & ch' & E & Hs' & En & Hlen & Htm & Hr & Ee & Helem & Hno & _); try done.
  { unfold U64_MAX in *. lia. }
  exists w'. split_and!; try done; [|by apply retimed_relinked].
  exists ch'. split; [done|]. eapply insert_earliest; try done.
  unfold timer in Htm. unfold dl. destruct (nodes w' !! o) as [m|]; [|done].
  destruct (active m); [|done]. by simplify_eq.
Qed.

Lemma schedule_spec w o g deadline_ns :
  wheel_inv w -> is_u64 deadline_ns -> (o < length (nodes w))%nat -> g <> 0 ->
  exists w', schedule w o g deadline_ns = Done (true, w') /\ wheel_inv w' /\
    now_ms w' = now_ms w /\ length (nodes w') = length (nodes w) /\
    retimed o (Some (g, clamped_deadline (now_ms w) deadline_ns)) w w'.
Proof.
  intros Hw Hd Ho Hg. unfold schedule. rewrite (proj2 (Nat.leb_gt _ _) Ho), (proj2 (Z.eqb_neq _ _) Hg).
  destruct (cancel_spec w o Hw) as (w1 & Ec & Hw1 & En & Hlen & Hr1 & Hin). simpl. rewrite Ec.
  cbn [mbind exec_bind]. rewrite En.
  assert (0 <= now_ms w <= NOW_MAX) as Hnow by (destruct Hw as (ch & [] & _); done).
  unfold NOW_MAX in Hnow.
  replace (Z.min (Z.max (saturating_add deadline_ns 999999 / 1000000) (saturating_add (now_ms w) 1))
    (saturating_add (now_ms w) U32_MAX)) with (clamped_deadline (now_ms w) deadline_ns)
    by (unfold clamped_deadline; do 2 f_equal; unfold saturating_add, U32_MAX, U64_MAX in *; lia).
  destruct (lookup_lt_is_Some_2 (nodes w1) o) as [n1 En1]; [by rewrite Hlen|].
  destruct (insert_settled w1 o g (clamped_deadline (now_ms w) deadline_ns) n1)
    as (w2 & E2 & Hw2 & En2 & Hlen2 & Hr2); [done|done|by apply Hin| |].
  { rewrite En. unfold clamped_deadline, U32_MAX. lia. }
  rewrite E2. exists w2. split_and!; [done|done|congruence|congruence|].
  intros x. rewrite (Hr2 x). case_decide; [done|]. rewrite (Hr1 x). by rewrite decide_False.
Qed.
