(* ===== verification/TimerTick.v ===== *)
(** * One tick of the timer wheel

    Taking a slot out of the wheel, the cascade of a level, the expiry of the
    current slot, and the tick that combines them: a tick fires exactly the
    timers whose deadline is the new time, once each. *)

From S2P Require Import Prelude TimerWheel TimerLinks TimerCache TimerProofs.
Import TimerWheel.

(** ** Taking a slot *)

Lemma dseg_floating ns l s prev c : dseg ns l s prev c None -> floating ns c.
Proof.
  revert prev. induction c as [|o c IH]; intros prev; simpl; [done|].
  intros [(d & g & Hn) Hs]. split; [|by eapply IH]. eexists. split; [exact Hn|]. by destruct c.
Qed.

Lemma links_take w w' ch l s :
  links w ch [] -> nodes w' = nodes w ->
  (forall l' s', heads w' l' s' = store2 (heads w) l s None l' s') ->
  links w' (store2 ch l s []) (ch l s).
Proof.
  intros Hl Hn Hh. pose proof (links_unique w ch []) as Huniq.
  destruct Hl as [Hhead Hdseg Hnd Hact Hrange Hf Hfn Hdis].
  assert (forall l' s', (l', s') = (l, s) \/ (l', s') <> (l, s)) as Hdec
    by (intros l' s'; destruct (decide ((l', s') = (l, s))); auto).
  split; rewrite ?Hn; try done.
  - intros l' s'. rewrite Hh. destruct (Hdec l' s') as [[= -> ->]|Hne];
      [by rewrite !store2_eq|by rewrite !store2_ne].
  - intros l' s'. destruct (Hdec l' s') as [[= -> ->]|Hne];
      [by rewrite store2_eq|by rewrite store2_ne].
  - intros l' s'. destruct (Hdec l' s') as [[= -> ->]|Hne];
      [rewrite store2_eq; constructor|by rewrite store2_ne].
  - intros o n Ho Ha. destruct (Hact o n Ho Ha) as [Hin|Hin]; [|by apply not_elem_of_nil in Hin].
    destruct (Hdec (level n) (slot n)) as [[= El Es]|Hne]; [right; by rewrite <- El, <- Es|left].
    by rewrite store2_ne.
  - intros l' s'. destruct (Hdec l' s') as [[= -> ->]|Hne];
      [by rewrite store2_eq|rewrite store2_ne by done; apply Hrange].
  - by eapply dseg_floating.
  - intros l' s' o. destruct (Hdec l' s') as [[= -> ->]|Hne].
    + rewrite store2_eq. by intros ?%not_elem_of_nil.
    + rewrite store2_ne by done. intros H1 H2. apply Hne. by eapply Huniq.
Qed.

Lemma take_slot_spec w ch l s :
  links w ch [] -> caches w ch -> (l < LEVELS)%nat -> (s < SLOTS)%nat ->
  exists w', take_slot w l s = (head (ch l s), w') /\
    links w' (store2 ch l s []) (ch l s) /\ caches w' (store2 ch l s []) /\
    nodes w' = nodes w /\ now_ms w' = now_ms w /\
    earliest_deadline_ms w' = earliest_deadline_ms w.
Proof.
  intros Hl Hc Hll Hss. unfold take_slot. rewrite (lk_head _ _ _ Hl l s).
  set (w0 := set_head w l s None). eexists. split; [reflexivity|].
  edestruct (settle_level_ok w0 l s U64_MAX Hll Hss) as (H1 & H2 & H3 & H4 & H5 & H6).
  { apply Hc. }
  { simpl. rewrite (ca_slot _ _ Hc). apply slot_min_max. }
  split_and!; [| |exact H3|exact H1|exact H4].
  - eapply links_take; [exact Hl|exact H3|]. intros l' s'. exact (f_equal (fun f => f l' s') H2).
  - eapply caches_store; [exact Hc|intros x; exact (f_equal (fun ns => dl ns x) H3)
      |intros l' s'; exact (f_equal (fun f => f l' s') H5)|exact H6].
Qed.

Lemma take_stage due w ch l s :
  stage due w ch [] -> (l < LEVELS)%nat -> (s < SLOTS)%nat ->
  exists w', take_slot w l s = (head (ch l s), w') /\
    stage due w' (store2 ch l s []) (ch l s) /\
    nodes w' = nodes w /\ now_ms w' = now_ms w /\ earliest_deadline_ms w' = earliest_deadline_ms w.
Proof.
  intros [Hl Hc Hn Ht] Hll Hss.
  destruct (take_slot_spec w ch l s Hl Hc Hll Hss) as (w' & E & Hl' & Hc' & En & Enow & Ee).
  exists w'. split_and!; try done. split; [done|done|by rewrite Enow|].
  intros l' s' o Ho. rewrite En, Enow. apply Ht.
  destruct (decide ((l', s') = (l, s))) as [[= -> ->]|Hne].
  - rewrite store2_eq in Ho. by apply not_elem_of_nil in Ho.
  - by rewrite store2_ne in Ho.
Qed.

(** ** Walking a floating list *)

(** The first owner of the list is taken off it and its node is cleared. *)
Lemma links_drop w ch o fl :
  links w ch (o :: fl) -> links (with_nodes w (<[o := empty]> (nodes w))) ch fl.
Proof.
  intros [Hhead Hdseg Hnd Hact Hrange [(n & Hn & _) Hf] Hfn Hdis].
  apply NoDup_cons in Hfn as [Hofl Hfn].
  assert (forall l s x, x ∈ ch l s -> x <> o) as Hne.
  { intros l s x Hx ->. apply (Hdis _ _ _ Hx). by left. }
  split; simpl; try done.
  - intros l s. eapply dseg_frame; [|apply Hdseg]. intros x Hx. apply list_lookup_insert_ne.
    intros ->. by eapply Hne.
  - intros x m Hx Ha. destruct (decide (x = o)) as [->|Hxo].
    { rewrite list_lookup_insert_eq in Hx by (by eapply lookup_lt_Some). by simplify_eq. }
    rewrite list_lookup_insert_ne in Hx by done.
    destruct (Hact x m Hx Ha) as [|[->|]%elem_of_cons]; auto. done.
  - eapply floating_frame; [|exact Hf]. intros x Hx. apply list_lookup_insert_ne. by intros ->.
  - intros l s x Hx Hin. apply (Hdis _ _ _ Hx). by right.
Qed.

Lemma drop_stage due w ch o fl :
  stage due w ch (o :: fl) ->
  let w' := with_nodes w (<[o := empty]> (nodes w)) in
  set_node w o empty = Done w' /\ stage due w' ch fl /\ retimed o None w w'.
Proof.
  intros [Hl Hc Hn Ht] w'. destruct (lk_floating _ _ _ Hl) as [(n & En & _) _].
  assert (forall l s x, x ∈ ch l s -> dl (nodes w') x = dl (nodes w) x) as Hdl.
  { intros l s x Hx. apply (relinked_dl o); [apply relinked_insert|]. intros ->.
    apply (lk_fl_disjoint _ _ _ Hl _ _ _ Hx). by left. }
  split_and!.
  - by eapply set_node_ok.
  - split; [by apply links_drop|by eapply caches_frame|done|].
    intros l s x Hx. rewrite (Hdl _ _ _ Hx). by apply Ht.
  - apply retimed_relinked; [apply relinked_insert|]. unfold timer. simpl.
    rewrite list_lookup_insert_eq; [done|by eapply lookup_lt_Some].
Qed.

(** What a client sees determines the deadline of an armed timer. *)
Lemma timer_dl ns ns' x n :
  timer ns' x = timer ns x -> ns !! x = Some n -> active n = true -> dl ns' x = dl ns x.
Proof.
  unfold timer, dl. intros Ht En Ha. rewrite En, Ha in *.
  destruct (ns' !! x) as [m|]; [|done]. destruct (active m); by simplify_eq.
Qed.

(** Where the walk may put the timers of the list. *)
Definition placeable (due : nat -> bool) (w : TimerWheel) (o : nat) : Prop :=
  let d := dl (nodes w) o in
  let l := level_for (saturating_sub d (now_ms w)) in
  d <= U64_MAX /\ in_window (due l) (now_ms w) l d.

Lemma cascade_loop_spec due fl w ch fuel :
  stage due w ch fl -> (length fl <= fuel)%nat -> Forall (placeable due w) fl ->
  exists w' ch', cascade_loop fuel w (head fl) = Done w' /\ stage due w' ch' [] /\
    now_ms w' = now_ms w /\ length (nodes w') = length (nodes w) /\
    forall x, timer (nodes w') x = timer (nodes w) x.
Proof.
  revert w ch fuel. induction fl as [|o fl IH]; intros w ch fuel Hs Hf Hp.
  { exists w, ch. by destruct fuel. }
  destruct fuel as [|fuel]; [simpl in Hf; lia|]. apply Forall_cons in Hp as [[Hd Hw] Hp].
  destruct (lk_floating _ _ _ (st_links _ _ _ _ Hs)) as [(n & En & Ha & Hnext) Hfl].
  pose proof (lk_fl_nodup _ _ _ (st_links _ _ _ _ Hs)) as [Hofl _]%NoDup_cons.
  destruct (drop_stage _ _ _ _ _ Hs) as (E1 & Hs1 & Hr1).
  set (w1 := with_nodes w (<[o := empty]> (nodes w))) in *.
  assert (nodes w1 !! o = Some empty) as En1
    by (simpl; apply list_lookup_insert_eq; by eapply lookup_lt_Some).
  assert (dl (nodes w) o = deadline_ms n) as Hdl by (unfold dl; by rewrite En).
  rewrite Hdl in Hd, Hw.
  destruct (insert_stage due w1 ch fl o (generation n) (deadline_ms n) empty)
    as (w2 & ch2 & E2 & Hs2 & En2 & Hlen2 & Ht2 & Hr2 & _); try done.
  assert (forall x, timer (nodes w2) x = timer (nodes w) x) as Htm.
  { intros x. destruct (decide (x = o)) as [->|Hx].
    - rewrite Ht2. unfold timer. by rewrite En, Ha.
    - rewrite (relinked_timer o _ _ _ Hr2 Hx), (Hr1 x). by rewrite decide_False. }
  destruct (IH w2 ch2 fuel Hs2) as (w3 & ch3 & E3 & Hs3 & En3 & Hlen3 & Ht3).
  - simpl in Hf. lia.
  - apply Forall_forall. intros x Hx. rewrite Forall_forall in Hp. specialize (Hp x Hx).
    destruct (floating_elem _ _ _ Hfl Hx) as (m & Em & Ham).
    unfold placeable in *. by rewrite (timer_dl (nodes w) _ x m), En2.
  - exists w3, ch3. split_and!; [|done|by rewrite En3, En2| |intros x; by rewrite Ht3].
    + simpl. rewrite (node_ok _ _ _ En). cbn [mbind exec_bind]. rewrite E1. cbn [mbind exec_bind].
      rewrite E2. cbn [mbind exec_bind]. by rewrite Hnext.
    + rewrite Hlen3, Hlen2. simpl. by rewrite length_insert.
Qed.

(** ** Cascading *)

Lemma level_for_below delta L :
  (1 <= L < LEVELS)%nat -> delta < pw L -> (level_for delta < L)%nat.
Proof.
  intros HL Hd. unfold level_for, LEVELS in *.
  change (Z.shiftl 1 8) with 256. change (Z.shiftl 1 16) with 65536. change (Z.shiftl 1 24) with 16777216.
  destruct L as [|[|[|[|L]]]]; try lia; change (pw 1) with 256 in *; change (pw 2) with 65536 in *;
    change (pw 3) with 16777216 in *; repeat case_match; reflect_bools; lia.
Qed.

(** The timers of the current slot of a due level belong to lower levels. *)
Lemma cascade_placeable due w ch L o :
  stage due w ch [] -> (1 <= L < LEVELS)%nat -> due L = true -> due 0%nat = true ->
  (forall l, (1 <= l < L)%nat -> due l = false) -> now_ms w mod pw L = 0 ->
  o ∈ ch L (slot_for L (now_ms w)) ->
  placeable due w o /\ (level_for (saturating_sub (dl (nodes w) o) (now_ms w)) < L)%nat.
Proof.
  intros Hs HL HdL Hd0 Hdl Hmod Ho. destruct (st_time _ _ _ _ Hs _ _ _ Ho) as [Eslot Hwin].
  pose proof (stage_bounded _ _ _ _ Hs _ _ _ Ho) as Hb. unfold placeable.
  set (d := dl (nodes w) o) in *. set (t := now_ms w) in *.
  pose proof (window_slot _ _ _ _ Hwin HdL (eq_sym Eslot)) as Eq. pose proof (pw_pos L) as Hp.
  assert (t <= d < t + pw L) as Hrange.
  { pose proof (Z.div_mod t (pw L) ltac:(lia)). pose proof (Z.div_mod d (pw L) ltac:(lia)).
    pose proof (Z.mod_pos_bound d (pw L) Hp). rewrite Eq in *. lia. }
  assert (pw L <= 2 ^ 24) by (unfold pw, LEVELS in *; apply Z.pow_le_mono_r; lia).
  pose proof (level_for_window t d ltac:(lia)) as Hw. cbv zeta in Hw.
  assert (level_for (saturating_sub d t) < L)%nat as Hlt.
  { apply level_for_below; [done|]. unfold saturating_sub. lia. }
  split; [split; [lia|]|done].
  destruct (level_for (saturating_sub d t)) as [|l] eqn:El; simpl Nat.eqb in Hw; cbv iota in Hw.
  - rewrite Hd0. simpl. rewrite !Z.div_1_r. lia.
  - rewrite Hdl by lia. done.
Qed.

Lemma cascade_stage due w ch L :
  stage due w ch [] -> (1 <= L < LEVELS)%nat -> due L = true -> due 0%nat = true ->
  (forall l, (1 <= l < L)%nat -> due l = false) -> now_ms w mod pw L = 0 ->
  exists w' ch', cascade w L = Done w' /\ stage (store due L false) w' ch' [] /\
    earliest_exact w' ch' /\ now_ms w' = now_ms w /\ length (nodes w') = length (nodes w) /\
    forall x, timer (nodes w') x = timer (nodes w) x.
Proof.
  intros Hs HL HdL Hd0 Hdl Hmod. unfold cascade. set (s := slot_for L (now_ms w)).
  assert ((L < LEVELS)%nat /\ (s < SLOTS)%nat) as [HL' Hss] by (split; [lia|apply slot_for_range]).
  destruct (take_stage due w ch L s Hs HL' Hss) as (w1 & -> & Hs1 & En1 & Enow1 & _).
  assert (stage (store due L false) w1 (store2 ch L s []) (ch L s)) as Hs1'.
  { destruct Hs1 as [H1 H2 H3 H4]. split; try done. intros l' s' o Ho.
    destruct (H4 _ _ _ Ho) as [Es Hw]. split; [done|].
    destruct (decide (l' = L)) as [->|Hne]; [|by rewrite store_ne].
    rewrite store_eq. rewrite HdL in Hw. apply window_other; [done|]. rewrite Enow1. fold s.
    intros E. rewrite Es, E, store2_eq in Ho. by apply not_elem_of_nil in Ho. }
  destruct (cascade_loop_spec (store due L false) (ch L s) w1 (store2 ch L s []) (length (nodes w1)))
    as (w2 & ch2 & E2 & Hs2 & Enow2 & Hlen2 & Ht2); [done| | |].
  - apply floating_length; apply (st_links _ _ _ _ Hs1).
  - apply Forall_forall. intros o Ho.
    pose proof (cascade_placeable due w ch L o Hs HL HdL Hd0 Hdl Hmod Ho) as [[Hd Hw] Hlt].
    unfold placeable. rewrite En1, Enow1. split; [done|]. rewrite store_ne; [done|lia].
  - cbv beta iota. rewrite E2. cbn [mbind exec_bind].
    destruct (stage_refresh _ _ _ Hs2) as [Hs3 He3].
    exists (refresh_earliest w2), ch2. split_and!; try done.
    + simpl. congruence.
    + simpl. congruence.
    + intros x. simpl. by rewrite Ht2, En1.
Qed.

(** ** Expiry *)

Lemma fire_loop_spec due fl w ch fuel :
  stage due w ch fl -> (length fl <= fuel)%nat ->
  Forall (fun o => dl (nodes w) o = now_ms w) fl ->
  exists fired w', fire_loop fuel w (head fl) = Done (fired, w') /\ stage due w' ch [] /\
    now_ms w' = now_ms w /\ length (nodes w') = length (nodes w) /\
    earliest_deadline_ms w' = earliest_deadline_ms w /\
    map owner fired = fl /\
    Forall (fun e => timer (nodes w) (owner e) = Some (x_generation e, x_deadline_ms e)) fired /\
    forall x, timer (nodes w') x = if decide (x ∈ fl) then None else timer (nodes w) x.
Proof.
  revert w fuel. induction fl as [|o fl IH]; intros w fuel Hs Hf Hd.
  { exists [], w. destruct fuel; split_and!; try done; intros x; (rewrite decide_False; [done|]);
      by intros ?%not_elem_of_nil. }
  destruct fuel as [|fuel]; [simpl in Hf; lia|]. apply Forall_cons in Hd as [Hdo Hd].
  destruct (lk_floating _ _ _ (st_links _ _ _ _ Hs)) as [(n & En & Ha & Hnext) Hfl].
  pose proof (lk_fl_nodup _ _ _ (st_links _ _ _ _ Hs)) as [Hofl _]%NoDup_cons.
  destruct (drop_stage _ _ _ _ _ Hs) as (E1 & Hs1 & Hr1).
  set (w1 := with_nodes w (<[o := empty]> (nodes w))) in *.
  assert (forall x, x <> o -> timer (nodes w1) x = timer (nodes w) x) as Hne
    by (intros x Hx; rewrite (Hr1 x); by rewrite decide_False).
  destruct (IH w1 fuel Hs1) as (fired & w2 & E2 & Hs2 & En2 & Hlen2 & Ee2 & Ho2 & Hfired & Ht2).
  - simpl in Hf. lia.
  - rewrite Forall_forall in Hd |- *. intros x Hx.
    destruct (floating_elem _ _ _ Hfl Hx) as (m & Em & Ham).
    rewrite (timer_dl (nodes w) _ x m); [by apply Hd|apply Hne; by intros ->|done|done].
  - assert (dl (nodes w) o = deadline_ms n) as Hdl by (unfold dl; by rewrite En).
    exists (mk_expiry o (generation n) (deadline_ms n) :: fired), w2. split_and!; try done.
    + simpl. rewrite (node_ok _ _ _ En). cbn [mbind exec_bind]. rewrite E1. cbn [mbind exec_bind].
      change (now_ms w1) with (now_ms w). rewrite <- Hdo, Hdl, Z.leb_refl, Hnext, E2. done.
    + rewrite Hlen2. simpl. by rewrite length_insert.
    + simpl. by rewrite Ho2.
    + apply Forall_cons. split; [simpl; unfold timer; by rewrite En, Ha|].
      rewrite Forall_forall in Hfired |- *. intros e He. rewrite <- Hne; [by apply Hfired|].
      intros Eo. apply Hofl. rewrite <- Ho2, <- Eo. by apply (list_elem_of_fmap_2 owner).
    + intros x. rewrite Ht2. destruct (decide (x = o)) as [->|Hx].
      * rewrite decide_False, (Hr1 o) by done. rewrite decide_True by done.
        rewrite decide_True; [done|by left].
      * rewrite Hne by done. destruct (decide (x ∈ fl)).
        -- rewrite decide_True; [done|by right].
        -- rewrite decide_False; [done|]. by intros [|]%elem_of_cons.
Qed.

(** ** A tick *)

(** Only the current slot of level 0 is still to be looked at. *)
Definition last_level : nat -> bool := fun l => (l =? 0)%nat.

Lemma land_mod t k : 0 <= k -> Z.land t (2 ^ k - 1) = t mod 2 ^ k.
Proof. intros. rewrite <- Z.land_ones by done. by rewrite Z.ones_equiv. Qed.

Lemma mod_pw_mono t l l' : (l <= l')%nat -> t mod pw l' = 0 -> t mod pw l = 0.
Proof.
  intros Hle Ht. apply Z.mod_divide in Ht; [|pose proof (pw_pos l'); lia].
  apply Z.mod_divide; [pose proof (pw_pos l); lia|]. etransitivity; [|exact Ht].
  exists (2 ^ (8 * Z.of_nat l' - 8 * Z.of_nat l)). unfold pw. rewrite <- Z.pow_add_r by lia.
  f_equal. lia.
Qed.

(** The levels that are due once levels 1 to [k] have been cascaded. *)
Definition due_from (t : Z) (k : nat) : nat -> bool :=
  fun l => (t mod pw l =? 0) && ((l =? 0)%nat || (k <? l)%nat).

Lemma due_stop t k w ch fl :
  stage (due_from t k) w ch fl -> t mod pw (S k) <> 0 -> stage last_level w ch fl.
Proof.
  intros Hs Hm. eapply stage_due; [|exact Hs]. intros l s o Ho. unfold due_from, last_level.
  destruct (Nat.eqb_spec l 0) as [->|Hl]; [by rewrite Z.mod_1_r|]. simpl.
  destruct (Nat.ltb_spec k l); [|by rewrite andb_false_r].
  destruct (Z.eqb_spec (t mod pw l) 0) as [E|]; [|done]. exfalso. apply Hm.
  by apply (mod_pw_mono t (S k) l).
Qed.

Lemma due_cascade t k w ch :
  stage (due_from t k) w ch [] -> now_ms w = t -> (S k < LEVELS)%nat -> t mod pw (S k) = 0 ->
  exists w' ch', cascade w (S k) = Done w' /\ stage (due_from t (S k)) w' ch' [] /\
    earliest_exact w' ch' /\ now_ms w' = t /\ length (nodes w') = length (nodes w) /\
    forall x, timer (nodes w') x = timer (nodes w) x.
Proof.
  intros Hs Hnow Hk Hm.
  destruct (cascade_stage (due_from t k) w ch (S k)) as (w' & ch' & E & Hs' & He & Hn & Hlen & Ht).
  - done.
  - lia.
  - unfold due_from. rewrite Hm, (proj2 (Nat.ltb_lt k (S k))) by lia. by rewrite orb_true_r.
  - unfold due_from. by rewrite Z.mod_1_r.
  - intros l Hl. unfold due_from. rewrite (proj2 (Nat.eqb_neq l 0)), (proj2 (Nat.ltb_ge k l)) by lia.
    by rewrite andb_false_r.
  - by rewrite Hnow.
  - exists w', ch'. split_and!; try done; [|congruence]. eapply stage_due; [|exact Hs'].
    intros l s o _. unfold due_from. destruct (decide (l = S k)) as [->|Hne].
    + rewrite store_eq. rewrite (proj2 (Nat.ltb_ge (S k) (S k))) by lia. simpl. by rewrite andb_false_r.
    + rewrite store_ne by done. f_equal. f_equal. apply Bool.eq_true_iff_eq.
      rewrite !Nat.ltb_lt. lia.
Qed.

Definition cascades (w : TimerWheel) : exec TimerWheel :=
  if Z.land (now_ms w) 255 =? 0 then
    w ← cascade w 1;
    if Z.land (now_ms w) 65535 =? 0 then
      w ← cascade w 2;
      if Z.land (now_ms w) 16777215 =? 0 then cascade w 3 else Done w
    else Done w
  else Done w.

(** What the cascades leave: the same timers, and nothing due above level 0. *)
Definition ready_to_fire (w0 : TimerWheel) (t : Z) (w : TimerWheel) (ch : chains) : Prop :=
  stage last_level w ch [] /\ earliest_exact w ch /\ now_ms w = t /\
  length (nodes w) = length (nodes w0) /\
  forall x, timer (nodes w) x = timer (nodes w0) x.

Lemma cascades_spec w ch t :
  stage (due_from t 0) w ch [] -> earliest_exact w ch -> now_ms w = t ->
  exists w' ch', cascades w = Done w' /\ ready_to_fire w t w' ch'.
Proof.
  intros Hs He Hn. unfold cascades, ready_to_fire.
  change 255 with (2 ^ 8 - 1). change 65535 with (2 ^ 16 - 1). change 16777215 with (2 ^ 24 - 1).
  rewrite Hn, land_mod by lia. change (2 ^ 8) with (pw 1).
  destruct (Z.eqb_spec (t mod pw 1) 0) as [E1|E1].
  2: { exists w, ch. split_and!; try done. by eapply due_stop. }
  destruct (due_cascade t 0 w ch) as (w1 & ch1 & -> & Hs1 & He1 & Hn1 & Hlen1 & Ht1);
    [done|done|unfold LEVELS; lia|done|].
  cbn [mbind exec_bind]. rewrite Hn1, land_mod by lia. change (2 ^ 16) with (pw 2).
  destruct (Z.eqb_spec (t mod pw 2) 0) as [E2|E2].
  2: { exists w1, ch1. split_and!; try done. by eapply due_stop. }
  destruct (due_cascade t 1 w1 ch1) as (w2 & ch2 & -> & Hs2 & He2 & Hn2 & Hlen2 & Ht2);
    [done|done|unfold LEVELS; lia|done|].
  cbn [mbind exec_bind]. rewrite Hn2, land_mod by lia. change (2 ^ 24) with (pw 3).
  destruct (Z.eqb_spec (t mod pw 3) 0) as [E3|E3].
  2: { exists w2, ch2. split_and!; try done; [by eapply due_stop|congruence|].
       intros x. by rewrite Ht2. }
  destruct (due_cascade t 2 w2 ch2) as (w3 & ch3 & -> & Hs3 & He3 & Hn3 & Hlen3 & Ht3);
    [done|done|unfold LEVELS; lia|done|].
  exists w3, ch3. split_and!; try done; [|congruence|intros x; by rewrite Ht3, Ht2].
  eapply stage_due; [|exact Hs3]. intros l s o Ho. unfold due_from, last_level.
  destruct (Nat.eqb_spec l 0) as [->|]; [by rewrite Z.mod_1_r|].
  destruct (stage_in_table _ _ _ _ Hs3 l s) as [Hl _].
  { intros E. rewrite E in Ho. by apply not_elem_of_nil in Ho. }
  unfold LEVELS in Hl. rewrite (proj2 (Nat.ltb_ge 3 l)) by lia. by rewrite andb_false_r.
Qed.

Lemma set_now_stage w ch :
  stage settled w ch [] -> now_ms w < NOW_MAX ->
  stage (due_from (now_ms w + 1) 0) (set_now w (now_ms w + 1)) ch [].
Proof.
  intros [Hl Hc Hn Ht] Hlt. split; [by destruct Hl|by destruct Hc|simpl; lia|].
  intros l s o Ho. simpl. destruct (Ht l s o Ho) as [Es Hw]. split; [done|].
  apply window_tick in Hw. unfold due_from.
  assert ((l =? 0)%nat || (0 <? l)%nat = true) as -> by (by destruct l).
  by rewrite andb_true_r.
Qed.

(** Once its current slot has been taken, nothing is due at level 0 either. *)
Lemma taken_settled w w' ch :
  stage last_level w ch [] -> nodes w' = nodes w -> now_ms w' = now_ms w ->
  stage last_level w' (store2 ch 0 (slot_for 0 (now_ms w)) []) (ch 0%nat (slot_for 0 (now_ms w))) ->
  stage settled w' (store2 ch 0 (slot_for 0 (now_ms w)) []) (ch 0%nat (slot_for 0 (now_ms w))).
Proof.
  intros Hs En Enow [H1 H2 H3 H4]. split; try done. intros l s o Ho.
  destruct (H4 _ _ _ Ho) as [Es Hw]. split; [done|]. destruct l as [|l]; [|done].
  apply window_other; [done|]. rewrite Enow. intros E. rewrite Es, E, store2_eq in Ho.
  by apply not_elem_of_nil in Ho.
Qed.

(** The slot taken at level 0 holds the timers that expire now, and only those. *)
Lemma current_slot_exact w ch x :
  stage last_level w ch [] ->
  x ∈ ch 0%nat (slot_for 0 (now_ms w)) <-> exists g, timer (nodes w) x = Some (g, now_ms w).
Proof.
  intros Hs. split.
  - intros Hx. destruct (list_armed _ _ _ _ _ _ (st_links _ _ _ _ Hs) Hx) as (n & _ & E).
    destruct (st_time _ _ _ _ Hs _ _ _ Hx) as [Es Hw].
    apply window_slot in Hw; [|done|done]. change (pw 0) with 1 in Hw. rewrite !Z.div_1_r in Hw.
    rewrite Hw in E. eauto.
  - intros (g & Hx).
    destruct (armed_in_list _ _ _ _ _ (st_links _ _ _ _ Hs) Hx) as (l & s & n & Ho & _ & _ & _ & _ & Hd).
    destruct (st_time _ _ _ _ Hs _ _ _ Ho) as [Es Hw]. rewrite Hd in Es, Hw. destruct l as [|l].
    + by rewrite Es in Ho.
    + apply window_future in Hw. lia.
Qed.

(** What a run of the wheel from [w] to [w'] fired: the timers [due] selects,
    one expiry each, carrying their generation and deadline. *)
Definition fires_exactly (due : Z -> bool) (w w' : TimerWheel) (fired : list TimerExpiry) : Prop :=
  NoDup (map owner fired) /\
  Forall (fun e => timer (nodes w) (owner e) = Some (x_generation e, x_deadline_ms e)) fired /\
  (forall x, x ∈ map owner fired <->
     exists g d, timer (nodes w) x = Some (g, d) /\ due d = true) /\
  (forall x, timer (nodes w') x =
     match timer (nodes w) x with
     | Some (g, d) => if due d then None else Some (g, d)
     | None => None
     end).

(** The expiries of the current slot, in client terms. *)
Lemma fires_current w w2 (fl : list nat) fired :
  (forall x, x ∈ fl <-> exists g, timer (nodes w) x = Some (g, now_ms w)) ->
  NoDup fl -> map owner fired = fl ->
  Forall (fun e => timer (nodes w) (owner e) = Some (x_generation e, x_deadline_ms e)) fired ->
  (forall x, timer (nodes w2) x = if decide (x ∈ fl) then None else timer (nodes w) x) ->
  fires_exactly (Z.eqb (now_ms w)) w w2 fired.
Proof.
  intros Hex Hnd Hmap Hfired Ht. split_and!; [by rewrite Hmap|done| |].
  - intros x. rewrite Hmap, Hex. split.
    + intros (g & Hx). exists g, (now_ms w). split; [done|apply Z.eqb_refl].
    + intros (g & d & Hx & ->%Z.eqb_eq). eauto.
  - intros x. rewrite Ht. destruct (timer (nodes w) x) as [[g d]|] eqn:Hx; [|by destruct (decide _)].
    destruct (Z.eqb_spec (now_ms w) d) as [<-|Hd].
    + rewrite decide_True; [done|]. apply Hex. eauto.
    + rewrite decide_False; [done|]. intros (g' & Hx')%Hex. congruence.
Qed.

(** Taking an empty slot leaves the cached deadline exact. *)
Lemma take_empty_earliest w w' ch l s :
  earliest_exact w ch -> ch l s = [] -> nodes w' = nodes w ->
  earliest_deadline_ms w' = earliest_deadline_ms w -> earliest_exact w' (store2 ch l s []).
Proof.
  intros He Hc En Ee.
  assert (forall l' s', store2 ch l s [] l' s' = ch l' s') as Hch.
  { intros l' s'. destruct (decide ((l', s') = (l, s))) as [[= -> ->]|Hne];
      [by rewrite store2_eq|by rewrite store2_ne]. }
  revert He. unfold earliest_exact. rewrite Ee, En. destruct (earliest_deadline_ms w).
  - intros [(l' & s' & o & Ho & Hd) Hmin]. split.
    + exists l', s', o. by rewrite Hch.
    + intros l2 s2 x. rewrite Hch. apply Hmin.
  - intros He l' s'. by rewrite Hch.
Qed.

Definition fire_slot (w : TimerWheel) : exec (list TimerExpiry * TimerWheel) :=
  let s := Z.to_nat (Z.land (now_ms w) 255) in
  let '(current, w) := take_slot w 0 s in
  '(fired, w) ← fire_loop (length (nodes w)) w current;
  Done (fired, if bool_decide (is_Some current) then refresh_earliest w else w).

Lemma tick_phases w :
  tick w = (w ← cascades (set_now w (now_ms w + 1)); fire_slot w).
Proof. done. Qed.

Lemma fire_slot_spec w ch :
  stage last_level w ch [] -> earliest_exact w ch ->
  exists fired w', fire_slot w = Done (fired, w') /\ wheel_inv w' /\ now_ms w' = now_ms w /\
    length (nodes w') = length (nodes w) /\ fires_exactly (Z.eqb (now_ms w)) w w' fired.
Proof.
  intros Hs He. pose proof (fun x => current_slot_exact w ch x Hs) as Hex. unfold fire_slot.
  assert (Z.to_nat (Z.land (now_ms w) 255) = slot_for 0 (now_ms w)) as ->.
  { rewrite slot_for_eq. change (pw 0) with 1. rewrite Z.div_1_r. f_equal.
    change 255 with (2 ^ 8 - 1). by rewrite land_mod. }
  set (s := slot_for 0 (now_ms w)) in *. cbv zeta.
  destruct (take_stage _ w ch 0 s Hs) as (w1 & -> & Hs1 & En1 & Enow1 & Ee1);
    [unfold LEVELS; lia|apply slot_for_range|].
  apply taken_settled in Hs1; [|done..]. fold s in Hs1.
  pose proof (lk_fl_nodup _ _ _ (st_links _ _ _ _ Hs1)) as Hnd.
  destruct (fire_loop_spec settled (ch 0%nat s) w1 (store2 ch 0 s []) (length (nodes w1)))
    as (fired & w2 & E2 & Hs2 & Enow2 & Hlen2 & Ee2 & Hmap & Hfired & Ht2); [done| | |].
  { apply floating_length; [apply (lk_floating _ _ _ (st_links _ _ _ _ Hs1))|done]. }
  { apply Forall_forall. intros x Hx. rewrite En1, Enow1. apply Hex in Hx as (g & Hx).
    by destruct (armed_in_list _ _ _ _ _ (st_links _ _ _ _ Hs) Hx) as (?&?&?&?&?&?&?&?&?). }
  rewrite E2. cbn [mbind exec_bind]. eexists fired, _. split; [done|].
  rewrite En1 in Hfired, Ht2, Hlen2. rewrite Enow1 in Enow2.
  pose proof (fires_current w w2 _ fired Hex Hnd Hmap Hfired Ht2) as Hfire.
  case_bool_decide as Hcur.
  - destruct (stage_refresh _ _ _ Hs2) as [Hs3 He3]. split_and!; try done. by exists (store2 ch 0 s []).
  - split_and!; try done. exists (store2 ch 0 s []). split; [done|].
    assert (ch 0%nat s = []) as Hfl by (destruct (ch 0%nat s); [done|by destruct Hcur]).
    rewrite Hfl in E2. assert (w2 = w1) as -> by (destruct (length (nodes w1)); by simplify_eq/=).
    by apply (take_empty_earliest w).
Qed.

Lemma tick_spec w :
  wheel_inv w -> now_ms w < NOW_MAX ->
  exists fired w', tick w = Done (fired, w') /\ wheel_inv w' /\ now_ms w' = now_ms w + 1 /\
    length (nodes w') = length (nodes w) /\ fires_exactly (Z.eqb (now_ms w + 1)) w w' fired.
Proof.
  intros (ch & Hs & He) Hlt. rewrite tick_phases.
  destruct (cascades_spec (set_now w (now_ms w + 1)) ch (now_ms w + 1))
    as (w1 & ch1 & -> & Hs1 & He1 & Hn1 & Hlen1 & Ht1); [by apply set_now_stage|done|done|].
  cbn [mbind exec_bind].
  destruct (fire_slot_spec w1 ch1 Hs1 He1) as (fired & w2 & -> & Hi & Hn2 & Hlen2 & H1 & H2 & H3 & H4).
  simpl in Hlen1, Ht1. exists fired, w2. rewrite Hn1 in H3, H4, Hn2. rewrite <- Hlen1.
  split; [done|]. split; [done|]. split; [done|]. split; [done|]. split_and!; [done| | |].
  - eapply Forall_impl; [exact H2|]. intros e Hx. cbv beta in Hx. by rewrite Ht1 in Hx.
  - intros x. rewrite H3. by setoid_rewrite Ht1.
  - intros x. by rewrite H4, Ht1.
Qed.

(** No armed timer of a settled wheel is overdue. *)
Lemma armed_future w x g d : wheel_inv w -> timer (nodes w) x = Some (g, d) -> now_ms w < d.
Proof.
  intros (ch & Hs & _) Hx.
  destruct (armed_in_list _ _ _ _ _ (st_links _ _ _ _ Hs) Hx) as (l & s & n & Ho & _ & _ & _ & _ & Hd).
  destruct (st_time _ _ _ _ Hs _ _ _ Ho) as [_ Hw]. rewrite Hd in Hw. by apply window_future in Hw.
Qed.

(** ** [advance] *)

Lemma fires_none due w : (forall x g d, timer (nodes w) x = Some (g, d) -> due d = false) ->
  fires_exactly due w w [].
Proof.
  intros Hnone. split_and!; [constructor|done| |].
  - intros x. simpl. split; [by intros ?%not_elem_of_nil|]. intros (g & d & Hx & Hd).
    by rewrite (Hnone _ _ _ Hx) in Hd.
  - intros x. destruct (timer (nodes w) x) as [[g d]|] eqn:Hx; [|done]. by rewrite (Hnone _ _ _ Hx).
Qed.

Lemma fires_app due1 due2 w w1 w2 fired1 fired2 :
  fires_exactly due1 w w1 fired1 -> fires_exactly due2 w1 w2 fired2 ->
  fires_exactly (fun d => due1 d || due2 d) w w2 (fired1 ++ fired2).
Proof.
  intros (Hn1 & Hf1 & He1 & Ht1) (Hn2 & Hf2 & He2 & Ht2).
  assert (forall x p, timer (nodes w1) x = Some p ->
            timer (nodes w) x = Some p /\ due1 (snd p) = false) as Hback.
  { intros x [g d]. rewrite Ht1. destruct (timer (nodes w) x) as [[g' d']|]; [|done].
    destruct (due1 d') eqn:E; [done|]. by intros [= -> ->]. }
  split_and!.
  - rewrite map_app. apply NoDup_app. split_and!; [done| |done]. intros x Hx1 Hx2.
    apply He1 in Hx1 as (g & d & Hx & Hd). apply He2 in Hx2 as (g' & d' & Hx' & _).
    apply Hback in Hx' as [Hx' Hd']. simplify_eq/=. congruence.
  - apply Forall_app. split; [done|]. eapply Forall_impl; [exact Hf2|]. intros e He.
    by apply Hback in He as [He _].
  - intros x. rewrite map_app, elem_of_app, He1, He2. split.
    + intros [(g & d & Hx & Hd)|(g & d & [Hx _]%Hback & Hd)]; exists g, d; rewrite Hd; split; try done.
      by rewrite orb_true_r.
    + intros (g & d & Hx & Hd). destruct (due1 d) eqn:E; [left; by exists g, d|]. right.
      exists g, d. split; [|done]. by rewrite Ht1, Hx, E.
  - intros x. rewrite Ht2, Ht1. destruct (timer (nodes w) x) as [[g d]|]; [|done].
    by destruct (due1 d).
Qed.

Lemma fires_ext due due' w w' fired :
  (forall x g d, timer (nodes w) x = Some (g, d) -> due d = due' d) ->
  fires_exactly due w w' fired -> fires_exactly due' w w' fired.
Proof.
  intros Hd (H1 & H2 & H3 & H4). split_and!; [done|done| |].
  - intros x. rewrite H3. split; intros (g & d & Hx & E); exists g, d; split; try done;
      [rewrite <- (Hd _ _ _ Hx)|rewrite (Hd _ _ _ Hx)]; done.
  - intros x. rewrite H4. destruct (timer (nodes w) x) as [[g d]|] eqn:Hx; [|done].
    by rewrite (Hd _ _ _ Hx).
Qed.

(** Expiries come in the order of their deadlines. *)
Definition in_deadline_order (fired : list TimerExpiry) : Prop :=
  StronglySorted (fun e e' => x_deadline_ms e <= x_deadline_ms e') fired.

Lemma in_order_same t fired :
  Forall (fun e => x_deadline_ms e = t) fired -> in_deadline_order fired.
Proof.
  induction 1 as [|e fired He Hf IH]; constructor; [done|].
  eapply Forall_impl; [exact Hf|]. simpl. lia.
Qed.

Lemma in_order_app t fired1 fired2 :
  Forall (fun e => x_deadline_ms e = t) fired1 -> Forall (fun e => t <= x_deadline_ms e) fired2 ->
  in_deadline_order fired2 -> in_deadline_order (fired1 ++ fired2).
Proof.
  intros H1 H2 Ho. induction H1 as [|e fired He Hf IH]; simpl; [done|]. constructor; [done|].
  apply Forall_app. split; (eapply Forall_impl; [eassumption|]); simpl; lia.
Qed.

Lemma fired_due due w w' fired :
  fires_exactly due w w' fired -> Forall (fun e => due (x_deadline_ms e) = true) fired.
Proof.
  intros (_ & Hf & He & _). rewrite Forall_forall in Hf |- *. intros e Hin.
  destruct (He (owner e)) as [(g & d & Hx & Hd) _]; [by apply list_elem_of_fmap_2|].
  pose proof (Hf e Hin) as Hx'. rewrite Hx in Hx'. by simplify_eq.
Qed.

Lemma advance_loop_spec ticks w target :
  wheel_inv w -> target <= NOW_MAX ->
  exists fired w', advance_loop ticks w target = Done (fired, w') /\ wheel_inv w' /\
    now_ms w' = Z.max (now_ms w) (Z.min target (now_ms w + Z.of_nat ticks)) /\
    length (nodes w') = length (nodes w) /\
    fires_exactly (fun d => d <=? now_ms w') w w' fired /\ in_deadline_order fired.
Proof.
  intros Hi Ht. revert w Hi. induction ticks as [|ticks IH]; intros w Hi.
  { exists [], w. split_and!; try done; [lia| |constructor]. apply fires_none. intros x g d Hx.
    apply Z.leb_gt. by eapply armed_future. }
  simpl. destruct (Z.ltb_spec (now_ms w) target) as [Hlt|Hge].
  2: { exists [], w. split_and!; try done; [lia| |constructor]. apply fires_none. intros x g d Hx.
       apply Z.leb_gt. by eapply armed_future. }
  destruct (tick_spec w Hi) as (fired1 & w1 & -> & Hi1 & Hn1 & Hlen1 & Hf1); [lia|].
  destruct (IH w1 Hi1) as (fired2 & w2 & E2 & Hi2 & Hn2 & Hlen2 & Hf2 & Ho2).
  cbn [mbind exec_bind]. rewrite E2. cbn [mbind exec_bind].
  exists (fired1 ++ fired2), w2. split_and!; try done; [lia|congruence| |].
  - eapply fires_ext; [|by eapply fires_app]. intros x g d Hx. simpl.
    destruct (Z.eqb_spec (now_ms w + 1) d) as [<-|]; simpl; [|done]. symmetry. apply Z.leb_le. lia.
  - apply (in_order_app (now_ms w + 1)); [| |done].
    + eapply Forall_impl; [by eapply fired_due|]. intros e Hd%Z.eqb_eq. done.
    + destruct Hf2 as (_ & Hf2 & _). eapply Forall_impl; [exact Hf2|].
      intros e He. simpl in He. apply armed_future in He; [|done]. lia.
Qed.
