(* ===== verification/TimerProps.v ===== *)
(** * The contract of the timer wheel

    The abstract timers of a wheel are a clock and a map from owners to the
    generation and deadline of their armed timer.  Every sequence of
    [schedule], [cancel] and [advance] on a wheel made by [new] runs without a
    panic and does what the contract says: an [advance] reports the timers
    whose deadline has passed, each once, in the order of the deadlines. *)

From stdpp Require Import gmap.
From S2P Require Import Prelude TimerWheel TimerLinks TimerCache TimerProofs TimerTick.
Import TimerWheel.

#[global] Instance TimerExpiry_eq_dec : EqDecision TimerExpiry.
Proof. solve_decision. Defined.

Inductive timer_op : Type :=
  | OpSchedule (o : nat) (g deadline : Z)
  | OpCancel (o : nat)
  | OpAdvance (target : Z) (budget : nat).

Inductive timer_reply : Type :=
  | Scheduled (ok : bool)
  | Cancelled (ok : bool)
  | Advanced (fired : list TimerExpiry) (behind : bool).

Definition apply_op (w : TimerWheel) (op : timer_op) : exec (timer_reply * TimerWheel) :=
  match op with
  | OpSchedule o g deadline => '(ok, w) ← schedule w o g deadline; Done (Scheduled ok, w)
  | OpCancel o => '(ok, w) ← cancel w o; Done (Cancelled ok, w)
  | OpAdvance target budget =>
      '(fired, behind, w) ← advance w target budget; Done (Advanced fired behind, w)
  end.

Fixpoint run_ops (w : TimerWheel) (ops : list timer_op) : exec (list timer_reply * TimerWheel) :=
  match ops with
  | [] => Done ([], w)
  | op :: ops =>
      '(r, w) ← apply_op w op;
      '(rs, w) ← run_ops w ops;
      Done (r :: rs, w)
  end.

(** The arguments of the operations are of the types the code gives them. *)
Definition wf_op (op : timer_op) : Prop :=
  match op with
  | OpSchedule _ _ deadline => is_u64 deadline
  | OpCancel _ => True
  | OpAdvance target _ => is_u64 target
  end.

(** ** The contract *)

Record timers : Type := mk_timers {
  clock : Z;
  armed : gmap nat (Z * Z)
}.

Definition spec_op (capacity : nat) (s : timers) (op : timer_op) (r : timer_reply) (s' : timers)
  : Prop :=
  match op, r with
  | OpSchedule o g deadline, Scheduled ok =>
      ok = (o <? capacity)%nat && negb (g =? 0) /\
      s' = if ok
           then mk_timers (clock s) (<[o := (g, clamped_deadline (clock s) deadline)]> (armed s))
           else s
  | OpCancel o, Cancelled ok =>
      ok = bool_decide (is_Some (armed s !! o)) /\ s' = mk_timers (clock s) (delete o (armed s))
  | OpAdvance target budget, Advanced fired behind =>
      let now' := Z.max (clock s) (Z.min (target / 1000000) (clock s + Z.of_nat budget)) in
      behind = (now' <? target / 1000000) /\
      s' = mk_timers now' (filter (fun '(_, (_, d)) => now' < d) (armed s)) /\
      NoDup (map owner fired) /\ in_deadline_order fired /\
      (forall e, e ∈ fired <->
         armed s !! owner e = Some (x_generation e, x_deadline_ms e) /\ x_deadline_ms e <= now')
  | _, _ => False
  end.

Inductive spec_run (capacity : nat) : timers -> list timer_op -> list timer_reply -> timers -> Prop :=
  | spec_run_nil s : spec_run capacity s [] [] s
  | spec_run_cons s op r s1 ops rs s2 :
      spec_op capacity s op r s1 -> spec_run capacity s1 ops rs s2 ->
      spec_run capacity s (op :: ops) (r :: rs) s2.

(** A wheel and the timers a client sees in it. *)
Record implements (capacity : nat) (w : TimerWheel) (s : timers) : Prop := mk_implements {
  im_inv : wheel_inv w;
  im_capacity : length (nodes w) = capacity;
  im_clock : now_ms w = clock s;
  im_armed : forall x, timer (nodes w) x = armed s !! x
}.

Lemma new_implements capacity now :
  0 <= capacity <= U16_MAX -> 0 <= now <= NOW_MAX ->
  exists w, new capacity now = Done w /\ implements (Z.to_nat capacity) w (mk_timers now ∅).
Proof.
  intros Hc Hnow. unfold new. rewrite (proj2 (Z.leb_le _ _)) by lia. eexists. split; [done|].
  assert (forall x n, replicate (Z.to_nat capacity) empty !! x = Some n -> n = empty) as Hempty.
  { intros x n [-> _]%lookup_replicate. done. }
  split; simpl; [|by rewrite length_replicate|done|].
  - exists (fun _ _ => []). split; [|by unfold earliest_exact].
    split; [|by split|done|by intros ??? ?%not_elem_of_nil]. split; simpl; try done.
    + intros _ _. constructor.
    + intros o n Hn Ha. apply Hempty in Hn as ->. done.
    + constructor.
    + by intros ??? ?%not_elem_of_nil.
  - intros x. rewrite lookup_empty. unfold timer.
    destruct (replicate (Z.to_nat capacity) empty !! x) as [n|] eqn:E; [|done].
    by apply Hempty in E as ->.
Qed.

Lemma target_small target : is_u64 target -> target / 1000000 <= NOW_MAX.
Proof.
  unfold is_u64, NOW_MAX, U64_MAX. intros Ht.
  assert (target / 1000000 <= (2 ^ 64 - 1) / 1000000) as H by (apply Z.div_le_mono; lia).
  etransitivity; [exact H|]. by vm_compute.
Qed.

Lemma schedule_implements capacity w s o g deadline :
  implements capacity w s -> is_u64 deadline ->
  exists ok w' s', schedule w o g deadline = Done (ok, w') /\ implements capacity w' s' /\
    spec_op capacity s (OpSchedule o g deadline) (Scheduled ok) s'.
Proof.
  intros [Hi Hc Hn Ha] Hd. simpl.
  destruct ((o <? capacity)%nat && negb (g =? 0)) eqn:E.
  - apply andb_prop in E as [Ho%Nat.ltb_lt Hg%negb_true_iff%Z.eqb_neq].
    destruct (schedule_spec w o g deadline) as (w' & Es & Hi' & Hn' & Hlen & Hr); [done|done|lia|done|].
    exists true, w', (mk_timers (clock s) (<[o := (g, clamped_deadline (clock s) deadline)]> (armed s))).
    split_and!; try done. split; simpl; [done|congruence|congruence|].
    intros x. rewrite (Hr x), Hn. destruct (decide (x = o)) as [->|Hx].
    + by rewrite lookup_insert_eq.
    + by rewrite lookup_insert_ne, Ha.
  - exists false, w, s. split_and!; try done. unfold schedule. rewrite Hc.
    destruct (Nat.leb_spec capacity o); [done|]. rewrite (proj2 (Nat.ltb_lt o capacity)) in E by done.
    simpl in E. apply negb_false_iff in E. by rewrite E.
Qed.

Lemma cancel_implements capacity w s o :
  implements capacity w s ->
  exists ok w' s', cancel w o = Done (ok, w') /\ implements capacity w' s' /\
    spec_op capacity s (OpCancel o) (Cancelled ok) s'.
Proof.
  intros [Hi Hc Hn Ha]. destruct (cancel_spec w o Hi) as (w' & E & Hi' & Hn' & Hlen & Hr & _).
  eexists _, w', (mk_timers (clock s) (delete o (armed s))). split; [exact E|].
  split; [|unfold spec_op; by rewrite <- Ha]. split; simpl; [done|congruence|congruence|].
  intros x. rewrite (Hr x). destruct (decide (x = o)) as [->|Hx].
  - by rewrite lookup_delete_eq.
  - by rewrite lookup_delete_ne, Ha.
Qed.

(** The expiries of a run, as elements. *)
Lemma fires_elem due w w' fired e :
  fires_exactly due w w' fired ->
  e ∈ fired <-> timer (nodes w) (owner e) = Some (x_generation e, x_deadline_ms e) /\
                due (x_deadline_ms e) = true.
Proof.
  intros Hf. pose proof (fired_due _ _ _ _ Hf) as Hd. destruct Hf as (_ & Hf & He & _).
  rewrite Forall_forall in Hf, Hd. split; [by auto|]. intros [Ht Hdue].
  assert (owner e ∈ map owner fired) as (e' & Eo & Hin)%list_elem_of_fmap by (apply He; eauto).
  pose proof (Hf e' Hin) as Ht'. simpl in Ht'. rewrite <- Eo, Ht in Ht'.
  destruct e, e'; by simplify_eq/=.
Qed.

Lemma advance_implements capacity w s target budget :
  implements capacity w s -> is_u64 target ->
  exists fired behind w' s', advance w target budget = Done (fired, behind, w') /\
    implements capacity w' s' /\
    spec_op capacity s (OpAdvance target budget) (Advanced fired behind) s'.
Proof.
  intros [Hi Hc Hn Ha] Ht%target_small. unfold advance.
  destruct (advance_loop_spec budget w (target / 1000000) Hi Ht)
    as (fired & w' & -> & Hi' & Hn' & Hlen & Hf & Ho). cbn [mbind exec_bind].
  rewrite Hn in Hn'. eexists fired, _, w', (mk_timers (now_ms w') _). split; [done|].
  simpl. rewrite Hn'. split; [|split_and!; [done|done|by destruct Hf|done|]].
  - split; simpl; [done|congruence|done|]. intros x. rewrite map_lookup_filter, <- Ha, <- Hn'.
    destruct Hf as (_ & _ & _ & ->). destruct (timer (nodes w) x) as [[g d]|]; simpl; [|done].
    destruct (Z.leb_spec d (now_ms w')); case_guard; simpl; first [done|lia].
  - intros e. rewrite (fires_elem _ _ _ _ _ Hf), Ha, <- Hn'. by rewrite Z.leb_le.
Qed.

Lemma apply_implements capacity w s op :
  implements capacity w s -> wf_op op ->
  exists r w' s', apply_op w op = Done (r, w') /\ implements capacity w' s' /\
    spec_op capacity s op r s'.
Proof.
  intros Hi. destruct op as [o g deadline|o|target budget]; intros Hwf; unfold apply_op.
  - destruct (schedule_implements _ _ _ o g deadline Hi Hwf) as (ok & w' & s' & -> & H). by eexists _, _, _.
  - destruct (cancel_implements _ _ _ o Hi) as (ok & w' & s' & -> & H). by eexists _, _, _.
  - destruct (advance_implements _ _ _ target budget Hi Hwf) as (fired & behind & w' & s' & -> & H).
    by eexists _, _, _.
Qed.

Lemma run_implements capacity w s ops :
  implements capacity w s -> Forall wf_op ops ->
  exists rs w' s', run_ops w ops = Done (rs, w') /\ implements capacity w' s' /\
    spec_run capacity s ops rs s'.
Proof.
  intros Hi Hops. revert w s Hi. induction Hops as [|op ops Hop Hops IH]; intros w s Hi.
  { exists [], w, s. split_and!; [done|done|constructor]. }
  destruct (apply_implements _ _ _ op Hi Hop) as (r & w1 & s1 & E1 & Hi1 & H1).
  destruct (IH w1 s1 Hi1) as (rs & w2 & s2 & E2 & Hi2 & H2).
  exists (r :: rs), w2, s2. split_and!; [|done|by econstructor].
  cbn [run_ops]. rewrite E1. cbn [mbind exec_bind]. by rewrite E2.
Qed.

(** ** Properties *)

(** C29. Every sequence of [schedule], [cancel] and [advance] calls on a wheel
    made by [new] returns, with the replies the contract allows: at most one
    timer per owner, replaced by a later [schedule] and removed by [cancel];
    [advance] moves the clock to its target or by its tick budget, reports each
    timer whose deadline is reached exactly once, in the order of the
    deadlines, with its own generation, and leaves the others armed. *)
Theorem timer_refines capacity now ops :
  0 <= capacity <= U16_MAX -> 0 <= now <= NOW_MAX -> Forall wf_op ops ->
  exists w0 rs w s,
    new capacity now = Done w0 /\ run_ops w0 ops = Done (rs, w) /\
    spec_run (Z.to_nat capacity) (mk_timers now ∅) ops rs s /\
    now_ms w = clock s /\ forall x, timer (nodes w) x = armed s !! x.
Proof.
  intros Hc Hn Hops. destruct (new_implements _ _ Hc Hn) as (w0 & E0 & Hi0).
  destruct (run_implements _ _ _ _ Hi0 Hops) as (rs & w & s & E & [] & Hs). by exists w0, rs, w, s.
Qed.

Definition ex_ops : list timer_op :=
  [OpSchedule 3 7 507000000; OpSchedule 1 2 254500000; OpAdvance 258000000 1000;
   OpSchedule 2 9 1; OpCancel 2; OpSchedule 4 1 260000000; OpAdvance 262000000 2;
   OpAdvance 262000000 2].

Lemma ex_ops_wf : Forall wf_op ex_ops.
Proof. repeat (apply Forall_cons; split; [unfold wf_op, is_u64, U64_MAX; lia || done|]). constructor. Qed.

Lemma timer_refines_witness :
  (exists w0 rs w s,
    new 8 250 = Done w0 /\ run_ops w0 ex_ops = Done (rs, w) /\
    spec_run 8 (mk_timers 250 ∅) ex_ops rs s /\
    now_ms w = clock s /\ forall x, timer (nodes w) x = armed s !! x) /\
  match (w ← new 8 250; run_ops w ex_ops) with
  | Done (rs, w) => rs = [Scheduled true; Scheduled true; Advanced [mk_expiry 1 2 255] false;
                          Scheduled true; Cancelled true; Scheduled true;
                          Advanced [mk_expiry 4 1 260] true; Advanced [] false] /\
                   timer (nodes w) 3 = Some (7, 507)
  | Panic => False
  end.
Proof.
  split; [|by vm_compute].
  apply (timer_refines 8 250 ex_ops); [by unfold U16_MAX|by unfold NOW_MAX, U64_MAX|exact ex_ops_wf].
Defined.

(** After any sequence of operations [next_deadline_ns] is exact: it is
    [None] when no timer is armed, and otherwise the deadline of an armed timer
    that no other armed timer precedes. *)
Theorem timer_next_deadline_exact capacity now ops w0 rs w :
  0 <= capacity <= U16_MAX -> 0 <= now <= NOW_MAX -> Forall wf_op ops ->
  new capacity now = Done w0 -> run_ops w0 ops = Done (rs, w) ->
  match next_deadline_ns w with
  | None => forall x, timer (nodes w) x = None
  | Some t =>
      (exists x g d, timer (nodes w) x = Some (g, d) /\ t = saturating_mul d 1000000) /\
      (forall x g d, timer (nodes w) x = Some (g, d) -> t <= saturating_mul d 1000000)
  end.
Proof.
  intros Hc Hn Hops E0 E. destruct (new_implements _ _ Hc Hn) as (w0' & E0' & Hi0).
  rewrite E0 in E0'. simplify_eq.
  destruct (run_implements _ _ _ _ Hi0 Hops) as (rs' & w' & s & E' & [(ch & Hs & He) _ _ _] & _).
  rewrite E in E'. simplify_eq. unfold next_deadline_ns. unfold earliest_exact in He.
  pose proof (armed_in_list w' ch) as Harm. pose proof (st_links _ _ _ _ Hs) as Hl.
  destruct (earliest_deadline_ms w') as [m|]; simpl.
  - destruct He as [(l & s' & o & Ho & <-) Hmin]. split.
    + destruct (list_armed _ _ _ _ _ _ Hl Ho) as (n & _ & Et). by exists o, (generation n), (dl (nodes w') o).
    + intros x g d Hx. destruct (Harm x g d Hl Hx) as (l2 & s2 & n & Hin & _ & _ & _ & _ & <-).
      specialize (Hmin _ _ _ Hin). unfold saturating_mul. lia.
  - intros x. destruct (timer (nodes w') x) as [[g d]|] eqn:Hx; [|done].
    destruct (Harm x g d Hl Hx) as (l2 & s2 & n & Hin & _). rewrite He in Hin.
    by apply not_elem_of_nil in Hin.
Qed.

(** A wheel with the timers of [ex_ops] before they fire. *)
Definition ex_wheel : list timer_reply * TimerWheel :=
  match (w ← new 8 250; run_ops w (take 2 ex_ops)) with
  | Done r => r
  | Panic => ([], mk 0 (fun _ _ => None) (fun _ _ => 0) (fun _ => 0) None [])
  end.

Lemma timer_next_deadline_exact_witness :
  next_deadline_ns (snd ex_wheel) = Some 255000000 /\
  match next_deadline_ns (snd ex_wheel) with
  | None => forall x, timer (nodes (snd ex_wheel)) x = None
  | Some t =>
      (exists x g d, timer (nodes (snd ex_wheel)) x = Some (g, d) /\ t = saturating_mul d 1000000) /\
      (forall x g d, timer (nodes (snd ex_wheel)) x = Some (g, d) -> t <= saturating_mul d 1000000)
  end.
Proof.
  split; [by vm_compute|].
  eapply (timer_next_deadline_exact 8 250 (take 2 ex_ops) _ (fst ex_wheel));
    [by unfold U16_MAX|by unfold NOW_MAX, U64_MAX| |reflexivity|by vm_compute].
  apply Forall_take, ex_ops_wf.
Defined.

(** A timer is armed for the first millisecond tick after the clock that is
    not before its deadline: it never fires early, and less than a millisecond
    late.  A deadline that has passed is due at the next tick.  The exception
    is a deadline more than [u32::MAX] milliseconds ahead, which is due that
    many milliseconds ahead. *)
Theorem timer_rounding capacity now ops w0 rs w o g deadline w' :
  0 <= capacity <= U16_MAX -> 0 <= now <= NOW_MAX -> Forall wf_op ops ->
  new capacity now = Done w0 -> run_ops w0 ops = Done (rs, w) ->
  0 <= deadline <= U64_MAX - 999999 -> schedule w o g deadline = Done (true, w') ->
  exists d, timer (nodes w') o = Some (g, d) /\
    if deadline <=? now_ms w * 1000000 then d = now_ms w + 1
    else if (now_ms w + U32_MAX) * 1000000 <? deadline then d = now_ms w + U32_MAX
    else (d - 1) * 1000000 < deadline <= d * 1000000.
Proof.
  intros Hc Hn Hops E0 E Hd Es. destruct (new_implements _ _ Hc Hn) as (w0' & E0' & Hi0).
  rewrite E0 in E0'. simplify_eq.
  destruct (run_implements _ _ _ _ Hi0 Hops) as (rs' & w1 & s & E' & Hi & _).
  rewrite E in E'. simplify_eq.
  destruct (schedule_implements _ _ _ o g deadline Hi) as (ok & w2 & s' & Es' & Hi' & Hok & Hs');
    [unfold is_u64; lia|]. rewrite Es in Es'. injection Es' as <- <-. subst s'.
  rewrite (im_armed _ _ _ Hi').
  exists (clamped_deadline (clock s) deadline). split; [simpl; by rewrite lookup_insert_eq|].
  rewrite (im_clock _ _ _ Hi). unfold clamped_deadline.
  assert (saturating_add deadline 999999 = deadline + 999999) as -> by (unfold saturating_add; lia).
  pose proof (Z.div_mod (deadline + 999999) 1000000 ltac:(lia)) as Hdiv.
  pose proof (Z.mod_pos_bound (deadline + 999999) 1000000 ltac:(lia)).
  set (q := (deadline + 999999) / 1000000) in *. unfold U32_MAX in *.
  destruct (Z.leb_spec deadline (clock s * 1000000)); [lia|].
  destruct (Z.ltb_spec ((clock s + 4294967295) * 1000000) deadline); lia.
Qed.

Definition ex_scheduled : TimerWheel :=
  match schedule (snd ex_wheel) 5 1 252500001 with Done (_, w) => w | Panic => snd ex_wheel end.

Lemma timer_rounding_witness :
  timer (nodes ex_scheduled) 5 = Some (1, 253) /\
  exists d, timer (nodes ex_scheduled) 5 = Some (1, d) /\
    if 252500001 <=? now_ms (snd ex_wheel) * 1000000 then d = now_ms (snd ex_wheel) + 1
    else if (now_ms (snd ex_wheel) + U32_MAX) * 1000000 <? 252500001
    then d = now_ms (snd ex_wheel) + U32_MAX
    else (d - 1) * 1000000 < 252500001 <= d * 1000000.
Proof.
  split; [by vm_compute|].
  eapply (timer_rounding 8 250 (take 2 ex_ops) _ (fst ex_wheel) (snd ex_wheel) 5 1 252500001);
    [by unfold U16_MAX|by unfold NOW_MAX, U64_MAX| |reflexivity|by vm_compute|unfold U64_MAX; lia|by vm_compute].
  apply Forall_take, ex_ops_wf.
Defined.
