(* ===== verification/NetTypes.v ===== *)
(** * Network addresses, flow keys and receive-side hashing

    The model of [libs/net/src/address.rs], and of the flow key and the hash
    functions of [libs/net/src/flow/table.rs].  An address is the list of its
    bytes in network order.  The Toeplitz routine slides a 32-bit window along the
    key; the theorem compares it, bit by bit, with the definition of the Toeplitz
    hash as a sum over the bits of the input. *)

From S2P Require Import Prelude.

Record Ipv4Addr : Type := mk_v4 { v4_bytes : list Z }.
Record Ipv6Addr : Type := mk_v6 { v6_bytes : list Z }.

#[global] Instance Ipv4Addr_eq_dec : EqDecision Ipv4Addr.
Proof. solve_decision. Defined.
#[global] Instance Ipv6Addr_eq_dec : EqDecision Ipv6Addr.
Proof. solve_decision. Defined.

(** [bytes\[i\]] of an array whose length is at least [i + 1]. *)
Definition byte (bytes : list Z) (i : nat) : Z := default 0 (bytes !! i).

(** [u16::to_be_bytes] and [u32::to_be_bytes]. *)
Definition be16 (x : Z) : list Z := [Z.shiftr x 8; Z.land x 255].
Definition be32 (x : Z) : list Z :=
  [Z.shiftr x 24; Z.land (Z.shiftr x 16) 255; Z.land (Z.shiftr x 8) 255; Z.land x 255].

(** [u32::from_be_bytes]. *)
Definition of_be32 (bytes : list Z) : Z :=
  Z.shiftl (byte bytes 0) 24 + Z.shiftl (byte bytes 1) 16 + Z.shiftl (byte bytes 2) 8 + byte bytes 3.

Module V4.

Definition UNSPECIFIED : Ipv4Addr := mk_v4 (replicate 4 0).
Definition LOCALHOST : Ipv4Addr := mk_v4 [127; 0; 0; 1].
Definition BROADCAST : Ipv4Addr := mk_v4 (replicate 4 255).
Definition new (a b c d : Z) : Ipv4Addr := mk_v4 [a; b; c; d].
Definition is_unspecified (a : Ipv4Addr) : bool := bool_decide (a = UNSPECIFIED).
Definition is_loopback (a : Ipv4Addr) : bool := byte (v4_bytes a) 0 =? 127.
Definition is_multicast (a : Ipv4Addr) : bool :=
  (224 <=? byte (v4_bytes a) 0) && (byte (v4_bytes a) 0 <=? 239).
Definition is_broadcast (a : Ipv4Addr) : bool := bool_decide (a = BROADCAST).
Definition as_u32 (a : Ipv4Addr) : Z := of_be32 (v4_bytes a).

End V4.

Module V6.

Definition UNSPECIFIED : Ipv6Addr := mk_v6 (replicate 16 0).
Definition LOCALHOST : Ipv6Addr := mk_v6 (replicate 15 0 ++ [1]).
Definition new (segments : list Z) : Ipv6Addr := mk_v6 (mjoin (map be16 segments)).
Definition is_unspecified (a : Ipv6Addr) : bool := bool_decide (a = UNSPECIFIED).
Definition is_loopback (a : Ipv6Addr) : bool := bool_decide (a = LOCALHOST).
Definition is_multicast (a : Ipv6Addr) : bool := byte (v6_bytes a) 0 =? 255.
Definition is_link_local (a : Ipv6Addr) : bool :=
  (byte (v6_bytes a) 0 =? 254) && (Z.land (byte (v6_bytes a) 1) 192 =? 128).

End V6.

Inductive IpAddr : Type := IpV4 (a : Ipv4Addr) | IpV6 (a : Ipv6Addr).

#[global] Instance IpAddr_eq_dec : EqDecision IpAddr.
Proof. solve_decision. Defined.

Inductive TransportProtocol : Type := Tcp | Udp.

#[global] Instance TransportProtocol_eq_dec : EqDecision TransportProtocol.
Proof. solve_decision. Defined.

Definition ip_is_unspecified (a : IpAddr) : bool :=
  match a with IpV4 a => V4.is_unspecified a | IpV6 a => V6.is_unspecified a end.
Definition ip_is_multicast (a : IpAddr) : bool :=
  match a with IpV4 a => V4.is_multicast a | IpV6 a => V6.is_multicast a end.
Definition octet_len (a : IpAddr) : Z := match a with IpV4 _ => 4 | IpV6 _ => 16 end.

Record Endpoint : Type := mk_endpoint { addr : IpAddr; port : Z }.

#[global] Instance Endpoint_eq_dec : EqDecision Endpoint.
Proof. solve_decision. Defined.

(** The values of the Rust types: arrays of bytes of the right length, ports
    that fit in 16 bits. *)
Definition is_bytes (n : nat) (l : list Z) : Prop := length l = n /\ Forall is_u8 l.
Definition typed_addr (a : IpAddr) : Prop :=
  match a with IpV4 a => is_bytes 4 (v4_bytes a) | IpV6 a => is_bytes 16 (v6_bytes a) end.
Definition typed_endpoint (e : Endpoint) : Prop := typed_addr (addr e) /\ is_u16 (port e).

Definition FLOW_HASH_MULTIPLIER : Z := 11400714819323198485.

Module FlowKey.

Record FlowKey : Type := mk {
  remote : Endpoint;
  local : Endpoint;
  protocol : TransportProtocol
}.

#[global] Instance FlowKey_eq_dec : EqDecision FlowKey.
Proof. solve_decision. Defined.

Definition new (remote local : Endpoint) (protocol : TransportProtocol) : option FlowKey :=
  if (port local =? 0)
     || negb (match addr remote, addr local with
              | IpV4 _, IpV4 _ | IpV6 _, IpV6 _ => true
              | _, _ => false
              end)
  then None
  else Some (mk remote local protocol).

End FlowKey.
Abbreviation FlowKey := FlowKey.FlowKey.

(** [wrapping_mul]. *)
Definition flow_hash64 (hash : Z) : Z := (hash * FLOW_HASH_MULTIPLIER) mod U64_MOD.

(** One round of the loop of [toeplitz]: the result and the window. *)
Definition toeplitz_step (key input : list Z) (s : Z * Z) (bit_index : nat) : Z * Z :=
  let '(result, window) := s in
  let result :=
    if negb (Z.land (byte input (bit_index / 8))
                    (Z.shiftr 128 (Z.of_nat (bit_index mod 8))) =? 0)
    then Z.lxor result window else result in
  let next_bit := (bit_index + 32)%nat in
  let incoming :=
    if (next_bit <? length key * 8)%nat
    then Z.land (Z.shiftr (byte key (next_bit / 8)) (7 - Z.of_nat (next_bit mod 8))) 1
    else 0 in
  (result, Z.lor (Z.shiftl window 1 mod 2 ^ 32) incoming).

Definition toeplitz (key input : list Z) : Z :=
  fst (foldl (toeplitz_step key input) (0, of_be32 (take 4 key)) (seq 0 (length input * 8))).

Definition rss_hash (key : list Z) (flow : FlowKey) : Z :=
  match addr (FlowKey.remote flow), addr (FlowKey.local flow) with
  | IpV4 r, IpV4 l =>
      toeplitz key (v4_bytes r ++ v4_bytes l ++ be16 (port (FlowKey.remote flow))
                      ++ be16 (port (FlowKey.local flow)))
  | IpV6 r, IpV6 l =>
      toeplitz key (v6_bytes r ++ v6_bytes l ++ be16 (port (FlowKey.remote flow))
                      ++ be16 (port (FlowKey.local flow)))
  | _, _ => 0
  end.

Definition reverse_flow (flow : FlowKey) : FlowKey :=
  FlowKey.mk (FlowKey.local flow) (FlowKey.remote flow) (FlowKey.protocol flow).

Definition local_transport_hash (key : list Z) (flow : FlowKey) : Z :=
  Z.min (rss_hash key flow) (rss_hash key (reverse_flow flow)).

Definition fragment_rss_hash (key : list Z) (interface : Z) (source destination : IpAddr)
  (protocol identification : Z) : Z :=
  match source, destination with
  | IpV4 s, IpV4 d =>
      toeplitz key (be32 interface ++ [4] ++ v4_bytes s ++ v4_bytes d ++ [protocol]
                      ++ be32 identification)
  | IpV6 s, IpV6 d =>
      toeplitz key (be32 interface ++ [6] ++ v6_bytes s ++ v6_bytes d ++ [protocol]
                      ++ be32 identification)
  | _, _ => 0
  end.

(** ** The reference definition *)

(** Bit [i] of a string of bytes, the first bit the most significant; beyond the
    end there are zeros. *)
Definition bit_at (bytes : list Z) (i : nat) : bool :=
  Z.testbit (byte bytes (i / 8)) (7 - Z.of_nat (i mod 8)).

(** Bit [j], from the most significant, of the Toeplitz hash: the sum modulo 2,
    over the bits [i] of the input, of input bit [i] times key bit [i + j]. *)
Definition toeplitz_bit (key input : list Z) (n j : nat) : bool :=
  foldl xorb false (map (fun i => bit_at input i && bit_at key (i + j)) (seq 0 n)).

Lemma bit_test b i :
  is_u8 b -> (i < 8)%nat ->
  negb (Z.land b (Z.shiftr 128 (Z.of_nat i)) =? 0) = Z.testbit b (7 - Z.of_nat i).
Proof.
  intros Hb Hi. assert (Z.shiftr 128 (Z.of_nat i) = 2 ^ (7 - Z.of_nat i)) as ->.
  { do 8 (destruct i as [|i]; [done|]). lia. }
  set (k := 7 - Z.of_nat i). assert (0 <= k) as Hk by lia. clearbody k.
  destruct (Z.testbit b k) eqn:E.
  - apply negb_true_iff, Z.eqb_neq. intros H. apply (f_equal (fun x => Z.testbit x k)) in H.
    rewrite Z.land_spec, Z.pow2_bits_true, E, Z.bits_0 in H by done. done.
  - apply negb_false_iff, Z.eqb_eq, Z.bits_inj'. intros n Hn.
    rewrite Z.land_spec, Z.pow2_bits_eqb, Z.bits_0 by done.
    destruct (Z.eqb_spec k n) as [<-|]; [by rewrite E|by rewrite andb_false_r].
Qed.

Lemma incoming_bit b i :
  (i < 8)%nat ->
  Z.land (Z.shiftr b (7 - Z.of_nat i)) 1 = Z.b2z (Z.testbit b (7 - Z.of_nat i)).
Proof.
  intros Hi. change 1 with (Z.ones 1). rewrite Z.land_ones, Z.testbit_spec' by lia.
  rewrite Z.shiftr_div_pow2 by lia. done.
Qed.

Lemma byte_u8 l i : Forall is_u8 l -> is_u8 (byte l i).
Proof.
  intros Hl. unfold byte. destruct (l !! i) as [x|] eqn:E; [|by unfold is_u8].
  rewrite Forall_lookup in Hl. by apply (Hl i).
Qed.

Lemma bit_beyond l i : (length l * 8 <= i)%nat -> bit_at l i = false.
Proof.
  intros Hi. unfold bit_at, byte. rewrite lookup_ge_None_2; [apply Z.bits_0|].
  apply Nat.div_le_lower_bound; lia.
Qed.

Definition window_at (key : list Z) (i : nat) (w : Z) : Prop :=
  0 <= w < 2 ^ 32 /\ forall j, (j < 32)%nat -> Z.testbit w (31 - Z.of_nat j) = bit_at key (i + j).

Lemma testbit_low a x n : 0 <= x <= 255 -> 0 <= n < 8 -> Z.testbit (a * 2 ^ 8 + x) n = Z.testbit x n.
Proof. intros. rewrite testbit_split by lia. by rewrite (proj2 (Z.ltb_lt _ _)) by lia. Qed.

Lemma testbit_high a x n :
  0 <= x <= 255 -> 8 <= n -> Z.testbit (a * 2 ^ 8 + x) n = Z.testbit a (n - 8).
Proof. intros. rewrite testbit_split by lia. by rewrite (proj2 (Z.ltb_ge _ _)) by lia. Qed.

(** Four bytes in a row, as a number: bit [31 - j] is bit [j] of the string. *)
Lemma of_be32_bits bytes j :
  Forall is_u8 bytes -> (j < 32)%nat ->
  Z.testbit (of_be32 bytes) (31 - Z.of_nat j) = bit_at bytes j.
Proof.
  intros Hb Hj. unfold of_be32, bit_at. rewrite !Z.shiftl_mul_pow2 by lia.
  pose proof (fun i => byte_u8 bytes i Hb) as Hu. unfold is_u8, U8_MAX in Hu.
  replace (byte bytes 0 * 2 ^ 24 + byte bytes 1 * 2 ^ 16 + byte bytes 2 * 2 ^ 8 + byte bytes 3)
    with (((byte bytes 0 * 2 ^ 8 + byte bytes 1) * 2 ^ 8 + byte bytes 2) * 2 ^ 8 + byte bytes 3) by lia.
  assert (exists g r, j = (g * 8 + r)%nat /\ (r < 8)%nat /\ (g < 4)%nat) as (g & r & -> & Hr & Hg).
  { exists (j / 8)%nat, (j mod 8)%nat. pose proof (Nat.div_mod_eq j 8).
    pose proof (Nat.mod_upper_bound j 8). lia. }
  rewrite Nat.div_add_l, Nat.div_small, Nat.add_0_r by lia.
  rewrite (Nat.add_comm (g * 8)), Nat.Div0.mod_add, Nat.mod_small by lia.
  destruct g as [|[|[|[|]]]]; [| | | |lia].
  - rewrite !testbit_high by (done || lia). f_equal. lia.
  - rewrite 2!testbit_high, testbit_low by (done || lia). f_equal. lia.
  - rewrite testbit_high, testbit_low by (done || lia). f_equal. lia.
  - rewrite testbit_low by (done || lia). f_equal. lia.
Qed.

Lemma of_be32_range bytes : Forall is_u8 bytes -> 0 <= of_be32 bytes < 2 ^ 32.
Proof.
  intros Hb. unfold of_be32. rewrite !Z.shiftl_mul_pow2 by lia.
  pose proof (fun i => byte_u8 bytes i Hb) as Hu. unfold is_u8, U8_MAX in Hu.
  pose proof (Hu 0%nat). pose proof (Hu 1%nat). pose proof (Hu 2%nat). pose proof (Hu 3%nat). lia.
Qed.

Lemma window_start key :
  (4 <= length key)%nat -> Forall is_u8 key -> window_at key 0 (of_be32 (take 4 key)).
Proof.
  intros Hlen Hk. assert (Forall is_u8 (take 4 key)) as Ht by (by apply Forall_take).
  split; [by apply of_be32_range|]. intros j Hj. rewrite of_be32_bits by done.
  unfold bit_at, byte. rewrite lookup_take_lt; [done|]. apply Nat.Div0.div_lt_upper_bound. lia.
Qed.

Lemma window_slide key i w :
  window_at key i w ->
  window_at key (S i)
    (Z.lor (Z.shiftl w 1 mod 2 ^ 32)
       (if (i + 32 <? length key * 8)%nat
        then Z.land (Z.shiftr (byte key ((i + 32) / 8)) (7 - Z.of_nat ((i + 32) mod 8))) 1 else 0)).
Proof.
  intros [Hw Hbits].
  assert ((if (i + 32 <? length key * 8)%nat
    then Z.land (Z.shiftr (byte key ((i + 32) / 8)) (7 - Z.of_nat ((i + 32) mod 8))) 1 else 0)
    = Z.b2z (bit_at key (i + 32))) as ->.
  { destruct (Nat.ltb_spec (i + 32) (length key * 8)); [|by rewrite bit_beyond].
    apply incoming_bit, Nat.mod_upper_bound. lia. }
  set (b := bit_at key (i + 32)). pose proof (Z.mod_pos_bound (Z.shiftl w 1) (2 ^ 32) ltac:(lia)) as Hm.
  assert (0 <= Z.b2z b <= 1) as Hb by (destruct b; simpl; lia). split.
  - apply bits_bound; [lia|apply Z.lor_nonneg; lia|]. intros n Hn. rewrite Z.lor_spec.
    rewrite (testbit_above (Z.shiftl w 1 mod 2 ^ 32) 32), (testbit_above (Z.b2z b) 1) by lia. done.
  - intros j Hj. rewrite Z.lor_spec, Z.mod_pow2_bits_low, Z.shiftl_spec by lia.
    destruct (Nat.eq_dec j 31) as [->|Hne].
    + rewrite Z.testbit_neg_r by lia. rewrite Z.sub_diag, Z.b2z_bit0. simpl. f_equal. lia.
    + rewrite (testbit_above (Z.b2z b) 1) by lia. rewrite orb_false_r.
      replace (31 - Z.of_nat j - 1) with (31 - Z.of_nat (S j)) by lia. rewrite Hbits by lia. f_equal. lia.
Qed.

Lemma toeplitz_loop key input n :
  (4 <= length key)%nat -> Forall is_u8 key -> Forall is_u8 input ->
  let '(result, window) := foldl (toeplitz_step key input) (0, of_be32 (take 4 key)) (seq 0 n) in
  window_at key n window /\ 0 <= result < 2 ^ 32 /\
  forall j, (j < 32)%nat -> Z.testbit result (31 - Z.of_nat j) = toeplitz_bit key input n j.
Proof.
  intros Hlen Hk Hi. induction n as [|n IH].
  { simpl. split_and!; [by apply window_start|lia|lia|]. intros j _. apply Z.bits_0. }
  rewrite seq_S, foldl_app. simpl. destruct (foldl _ _ (seq 0 n)) as [result window].
  destruct IH as (Hw & Hr & Hbits). cbn [toeplitz_step]. rewrite bit_test;
    [|by apply byte_u8|apply Nat.mod_upper_bound; lia]. fold (bit_at input n).
  pose proof (window_slide key n window Hw) as Hs. split; [exact Hs|].
  destruct Hw as [Hw Hwb].
  assert (forall j, (j < 32)%nat -> toeplitz_bit key input (S n) j =
            xorb (toeplitz_bit key input n j) (bit_at input n && bit_at key (n + j))) as Hsnoc.
  { intros j _. unfold toeplitz_bit. by rewrite seq_S, map_app, foldl_app. }
  destruct (bit_at input n) eqn:Hb.
  - split.
    + apply bits_bound; [lia|apply Z.lxor_nonneg; lia|]. intros m Hm.
      by rewrite Z.lxor_spec, (testbit_above result 32), (testbit_above window 32) by lia.
    + intros j Hj. rewrite Z.lxor_spec, Hbits, Hwb, Hsnoc by done. done.
  - split; [done|]. intros j Hj. rewrite Hsnoc, Hbits by done. by rewrite xorb_false_r.
Qed.

(** ** Properties *)

(** [toeplitz] is the Toeplitz hash: bit [j] of the result, from the most
    significant, is the parity of the input bits [i] at which key bit [i + j]
    is set.  The hash of the local path does not depend on the direction of the
    flow. *)
Theorem toeplitz_exact key input :
  (4 <= length key)%nat -> Forall is_u8 key -> Forall is_u8 input ->
  0 <= toeplitz key input < 2 ^ 32 /\
  (forall j, (j < 32)%nat ->
    Z.testbit (toeplitz key input) (31 - Z.of_nat j) = toeplitz_bit key input (length input * 8) j) /\
  forall flow, local_transport_hash key (reverse_flow flow) = local_transport_hash key flow.
Proof.
  intros Hlen Hk Hi. pose proof (toeplitz_loop key input (length input * 8) Hlen Hk Hi) as H.
  unfold toeplitz. destruct (foldl _ _ _) as [result window]. destruct H as (_ & ? & ?).
  split; [done|]. split; [done|]. intros []. apply Z.min_comm.
Qed.

(** The key and the IPv4 flow of the published test vectors. *)
Definition ex_key : list Z :=
  [109; 90; 86; 218; 37; 91; 14; 194; 65; 103; 37; 61; 67; 163; 143; 176; 208; 202; 43; 203;
   174; 123; 48; 180; 119; 203; 45; 163; 128; 48; 242; 12; 106; 66; 183; 59; 190; 172; 1; 250].
Definition ex_flow : FlowKey :=
  FlowKey.mk (mk_endpoint (IpV4 (V4.new 66 9 149 187)) 2794)
             (mk_endpoint (IpV4 (V4.new 161 142 100 80)) 1766) Tcp.

Lemma toeplitz_exact_witness :
  rss_hash ex_key ex_flow = 1372373368 /\
  let input := [66; 9; 149; 187; 161; 142; 100; 80] ++ be16 2794 ++ be16 1766 in
  toeplitz ex_key input = 1372373368 /\
  forall j, (j < 32)%nat ->
    Z.testbit (toeplitz ex_key input) (31 - Z.of_nat j) = toeplitz_bit ex_key input 96 j.
Proof.
  split; [by vm_compute|]. intros input. split; [by vm_compute|].
  apply (toeplitz_exact ex_key input); [simpl; lia| |];
    repeat (apply Forall_cons; split; [by vm_compute|]); by apply Forall_nil_2.
Defined.
