(* ===== verification/FlowTable.v ===== *)
(** * The flow table

    The model of [FlowTable] of [libs/net/src/flow/table.rs]: a fixed array of
    cells, a stack of free cells, a hash index from flow keys to cells and an
    intrusive queue of the cells with work to do.  The index is the third-party
    [hashbrown::HashTable]; the class below states what its documentation
    promises and the development is proved against it. *)

From S2P Require Import Prelude NetTypes.

(** ** The hash table

    [find] and [find_entry] look for an entry that was inserted with the hash
    and satisfies the predicate; the predicate may also be asked about entries
    with another hash, and the first entry it accepts is returned.
    [insert_unique] adds an entry without looking for an equal one. *)
Class HashTable (H E : Type) := {
  ht_with_capacity : H;
  ht_find : Z -> (E -> bool) -> H -> option E;
  ht_insert_unique : Z -> E -> H -> H;
  (** [find_entry(..).ok()?.remove()]. *)
  ht_remove_entry : Z -> (E -> bool) -> H -> option (E * H);
}.

Class HashTableLaws (H E : Type) `{!HashTable H E} (elements : H -> list (Z * E)) : Prop := {
  ht_elements_empty : elements ht_with_capacity = [];
  ht_elements_insert h e t : elements (ht_insert_unique h e t) ≡ₚ (h, e) :: elements t;
  ht_find_some h p t e :
    ht_find h p t = Some e -> p e = true /\ exists h', (h', e) ∈ elements t;
  ht_find_none h p t e : ht_find h p t = None -> (h, e) ∈ elements t -> p e = false;
  ht_remove_some h p t e t' :
    ht_remove_entry h p t = Some (e, t') ->
    p e = true /\ exists h', elements t ≡ₚ (h', e) :: elements t';
  ht_remove_none h p t e : ht_remove_entry h p t = None -> (h, e) ∈ elements t -> p e = false;
}.

Definition MAX_FLOWS : nat := 4096.
Definition DIRTY_INGRESS : Z := Z.shiftl 1 0.
Definition DIRTY_TX : Z := Z.shiftl 1 1.
Definition DIRTY_CONTROL : Z := Z.shiftl 1 2.
Definition DIRTY_TIMER : Z := Z.shiftl 1 3.
Definition DIRTY_ROUTE : Z := Z.shiftl 1 4.

Inductive FlowInsertError : Type := Duplicate | Full | IdExhausted.

Module FlowTable.

Record FlowSlot : Type := mk_slot { s_id : Z; s_generation : Z; s_cell_index : nat }.
Record FlowEntry : Type := mk_entry { e_hash : Z; e_key : FlowKey; e_slot : FlowSlot }.

Section table.
Context {T H : Type} `{!HashTable H FlowEntry}.

Record FlowCell : Type := mk_cell {
  c_id : Z;
  c_generation : Z;
  c_key : FlowKey;
  c_hash : Z;
  c_value : T;
  dirty_bits : Z;
  dirty_queued : bool;
  dirty_next : option nat
}.

Record FlowTable : Type := mk {
  index : H;
  cells : list (option FlowCell);
  free : list nat;
  next_generation : Z;
  dirty_head : option nat;
  dirty_tail : option nat
}.

Definition new : FlowTable :=
  mk ht_with_capacity (replicate MAX_FLOWS None) (rev (seq 0 MAX_FLOWS)) 1 None None.

Definition len (t : FlowTable) : Z := Z.of_nat MAX_FLOWS - Z.of_nat (length (free t)).
Definition is_empty (t : FlowTable) : bool := len t =? 0.

(** [cells\[i\]], and [cells\[i\] = x]; out of range they panic. *)
Definition slot (t : FlowTable) (i : nat) : exec (option FlowCell) := unwrap (cells t !! i).
Definition set_slot (t : FlowTable) (i : nat) (x : option FlowCell) : exec FlowTable :=
  _ ← slot t i;
  Done (mk (index t) (<[i := x]> (cells t)) (free t) (next_generation t) (dirty_head t) (dirty_tail t)).

(** [cells\[i\].as_mut().unwrap()] followed by writes to the cell. *)
Definition update_cell (t : FlowTable) (i : nat) (f : FlowCell -> FlowCell) : exec FlowTable :=
  c ← slot t i;
  c ← unwrap c;
  set_slot t i (Some (f c)).

Definition set_index (t : FlowTable) (x : H) : FlowTable :=
  mk x (cells t) (free t) (next_generation t) (dirty_head t) (dirty_tail t).
Definition set_free (t : FlowTable) (x : list nat) : FlowTable :=
  mk (index t) (cells t) x (next_generation t) (dirty_head t) (dirty_tail t).
Definition set_next_generation (t : FlowTable) (x : Z) : FlowTable :=
  mk (index t) (cells t) (free t) x (dirty_head t) (dirty_tail t).
Definition set_dirty_head (t : FlowTable) (x : option nat) : FlowTable :=
  mk (index t) (cells t) (free t) (next_generation t) x (dirty_tail t).
Definition set_dirty_tail (t : FlowTable) (x : option nat) : FlowTable :=
  mk (index t) (cells t) (free t) (next_generation t) (dirty_head t) x.

Definition with_bits (x : Z) (c : FlowCell) : FlowCell :=
  mk_cell (c_id c) (c_generation c) (c_key c) (c_hash c) (c_value c) x (dirty_queued c) (dirty_next c).
Definition with_queued (x : bool) (c : FlowCell) : FlowCell :=
  mk_cell (c_id c) (c_generation c) (c_key c) (c_hash c) (c_value c) (dirty_bits c) x (dirty_next c).
Definition with_next (x : option nat) (c : FlowCell) : FlowCell :=
  mk_cell (c_id c) (c_generation c) (c_key c) (c_hash c) (c_value c) (dirty_bits c) (dirty_queued c) x.
Definition with_value (x : T) (c : FlowCell) : FlowCell :=
  mk_cell (c_id c) (c_generation c) (c_key c) (c_hash c) x (dirty_bits c) (dirty_queued c) (dirty_next c).

(** [Vec::pop]. *)
Definition pop {A} (l : list A) : option (A * list A) :=
  match last l with Some x => Some (x, removelast l) | None => None end.

(** The part [insert_prehashed] and [insert_unindexed] share: a free cell is
    taken and filled.  The cell's number, and its generation. *)
Definition insert_unindexed_cell (t : FlowTable) (key : FlowKey) (hash : Z) (value : T)
  : exec (option (nat * Z) * FlowTable) :=
  match pop (free t) with
  | None => Done (None, t)
  | Some (cell_index, rest) =>
      let t := set_free t rest in
      let id := Z.of_nat cell_index + 1 in
      let generation := next_generation t in
      let t := set_next_generation t (Z.max ((next_generation t + 1) mod 2 ^ 32) 1) in
      t ← set_slot t cell_index (Some (mk_cell id generation key hash value 0 false None));
      Done (Some (cell_index, generation), t)
  end.

Definition insert_unindexed (t : FlowTable) (key : FlowKey) (hash : Z) (value : T)
  : exec (result Z FlowInsertError * FlowTable) :=
  '(cell, t) ← insert_unindexed_cell t key hash value;
  match cell with
  | None => Done (Err Full, t)
  | Some (cell_index, _) => Done (Ok (Z.of_nat cell_index + 1), t)
  end.

Definition insert_prehashed (t : FlowTable) (key : FlowKey) (hash : Z) (value : T)
  : exec (result Z FlowInsertError * FlowTable) :=
  match ht_find hash (fun entry => bool_decide (e_key entry = key)) (index t) with
  | Some _ => Done (Err Duplicate, t)
  | None =>
      '(cell, t) ← insert_unindexed_cell t key hash value;
      match cell with
      | None => Done (Err Full, t)
      | Some (cell_index, generation) =>
          let id := Z.of_nat cell_index + 1 in
          let entry := mk_entry hash key (mk_slot id generation cell_index) in
          Done (Ok id, set_index t (ht_insert_unique hash entry (index t)))
      end
  end.

Definition insert (t : FlowTable) (key : FlowKey) (value : T)
  : exec (result Z FlowInsertError * FlowTable) :=
  insert_prehashed t key (flow_hash64 (rss_hash (replicate 40 0) key)) value.

Definition find (t : FlowTable) (key : FlowKey) (hash : Z) : exec (option Z) :=
  match ht_find hash (fun entry => bool_decide (e_key entry = key)) (index t) with
  | None => Done None
  | Some entry =>
      c ← slot t (s_cell_index (e_slot entry));
      match c with
      | Some c => if c_generation c =? s_generation (e_slot entry)
                  then Done (Some (s_id (e_slot entry))) else Done None
      | None => Done None
      end
  end.

Definition cell_index (t : FlowTable) (id : Z) : option nat :=
  if (id <? 1) || (Z.of_nat (length (cells t)) <? id) then None
  else
    match cells t !! Z.to_nat (id - 1) with
    | Some (Some c) => if c_id c =? id then Some (Z.to_nat ((id - 1) mod 65536)) else None
    | _ => None
    end.

Definition cell (t : FlowTable) (id : Z) : exec (option FlowCell) :=
  match cell_index t id with
  | None => Done None
  | Some i => slot t i
  end.

Definition get (t : FlowTable) (id : Z) : exec (option T) := option_map c_value <$> cell t id.
Definition key (t : FlowTable) (id : Z) : exec (option FlowKey) := option_map c_key <$> cell t id.
Definition generation (t : FlowTable) (id : Z) : exec (option Z) :=
  option_map c_generation <$> cell t id.

(** [get_mut], with the write made through the reference. *)
Definition get_mut (t : FlowTable) (id : Z) (value : T) : exec (bool * FlowTable) :=
  match cell_index t id with
  | None => Done (false, t)
  | Some i => t ← update_cell t i (with_value value); Done (true, t)
  end.

(** The walk of [unlink_dirty]. *)
Fixpoint unlink_loop (fuel : nat) (t : FlowTable) (target : nat) (previous current : option nat)
  : exec FlowTable :=
  match current with
  | None => Done t
  | Some i =>
      match fuel with
      | O => Panic
      | S fuel =>
          c ← slot t i;
          let next := c ≫= dirty_next in
          if (i =? target)%nat then
            t ← (match previous with
                 | Some p => update_cell t p (with_next next)
                 | None => Done (set_dirty_head t next)
                 end);
            Done (if bool_decide (dirty_tail t = Some i) then set_dirty_tail t previous else t)
          else unlink_loop fuel t target current next
      end
  end.

Definition unlink_dirty (t : FlowTable) (target : nat) : exec FlowTable :=
  unlink_loop (length (cells t)) t target None (dirty_head t).

(** [cells\[i\].take()?], [free.push(i)] and the value of the cell. *)
Definition release (t : FlowTable) (i : nat) : exec (option T * FlowTable) :=
  c ← slot t i;
  match c with
  | None => Done (None, t)
  | Some c => t ← set_slot t i None; Done (Some (c_value c), set_free t (free t ++ [i]))
  end.

Definition remove (t : FlowTable) (key : FlowKey) (hash : Z) : exec (option T * FlowTable) :=
  match ht_remove_entry hash (fun entry => bool_decide (e_key entry = key)) (index t) with
  | None => Done (None, t)
  | Some (entry, rest) =>
      let t := set_index t rest in
      t ← unlink_dirty t (s_cell_index (e_slot entry));
      release t (s_cell_index (e_slot entry))
  end.

Definition remove_id (t : FlowTable) (id : Z) : exec (option T * FlowTable) :=
  match cell_index t id with
  | None => Done (None, t)
  | Some i =>
      c ← slot t i;
      match c with
      | None => Done (None, t)
      | Some c =>
          let t :=
            match ht_remove_entry (c_hash c)
                    (fun entry => bool_decide (e_key entry = c_key c) && (s_id (e_slot entry) =? id))
                    (index t) with
            | Some (_, rest) => set_index t rest
            | None => t
            end in
          t ← unlink_dirty t i;
          release t i
      end
  end.

Definition mark_dirty (t : FlowTable) (id bits : Z) : exec (bool * FlowTable) :=
  match cell_index t id with
  | None => Done (false, t)
  | Some i =>
      c ← slot t i;
      c ← unwrap c;
      t ← update_cell t i (fun c => with_bits (Z.lor (dirty_bits c) bits) c);
      if dirty_queued c then Done (false, t)
      else
        t ← update_cell t i (fun c => with_next None (with_queued true c));
        t ← (match dirty_tail t with
             | Some tail => update_cell t tail (with_next (Some i))
             | None => Done (set_dirty_head t (Some i))
             end);
        Done (true, set_dirty_tail t (Some i))
  end.

Definition pop_dirty (t : FlowTable) : exec (option (Z * Z) * FlowTable) :=
  match dirty_head t with
  | None => Done (None, t)
  | Some i =>
      c ← slot t i;
      c ← unwrap c;
      let t := set_dirty_head t (dirty_next c) in
      let t := if bool_decide (dirty_head t = None) then set_dirty_tail t None else t in
      t ← update_cell t i (fun c => with_bits 0 (with_queued false (with_next None c)));
      Done (Some (c_id c, dirty_bits c), t)
  end.

End table.
#[global] Arguments FlowCell : clear implicits.
#[global] Arguments FlowTable : clear implicits.
End FlowTable.
