(* ===== verification/FlowTableProps.v ===== *)
(** * The flow table: properties

    The invariant of the slab, of the index and of the list of pending flows, what
    each operation does to the contract, and that every sequence of operations
    follows it. *)

From stdpp Require Import gmap.
From S2P Require Import Prelude NetTypes FlowTable.
Import FlowTable.

#[global] Instance IpAddr_countable : Countable IpAddr.
Proof.
  refine (inj_countable' (fun a => match a with IpV4 a => inl (v4_bytes a) | IpV6 a => inr (v6_bytes a) end)
    (fun x => match x with inl l => IpV4 (mk_v4 l) | inr l => IpV6 (mk_v6 l) end) _).
  by intros [[]|[]].
Defined.

#[global] Instance FlowKey_countable : Countable FlowKey.
Proof.
  refine (inj_countable' (fun k => (addr (FlowKey.remote k), port (FlowKey.remote k),
      addr (FlowKey.local k), port (FlowKey.local k), bool_decide (FlowKey.protocol k = Tcp)))
    (fun '(ra, rp, la, lp, p) => FlowKey.mk (mk_endpoint ra rp) (mk_endpoint la lp)
                                  (if p : bool then Tcp else Udp)) _).
  by intros [[] [] []].
Defined.

(** ** The contract *)

Record flows (T : Type) : Type := mk_flows {
  live : gmap nat (FlowKey * T);
  exact : gmap FlowKey nat;
  queue : list (nat * Z)
}.
#[global] Arguments mk_flows {T}.
#[global] Arguments live {T}.
#[global] Arguments exact {T}.
#[global] Arguments queue {T}.

(** The cell a flow identifier names. *)
Definition lookup_id {T} (s : flows T) (id : Z) : option (nat * (FlowKey * T)) :=
  if id <? 1 then None else (fun x => (Z.to_nat (id - 1), x)) <$> live s !! Z.to_nat (id - 1).

Inductive flow_op (T : Type) : Type :=
  | OpInsert (k : FlowKey) (v : T)
  | OpInsertUnindexed (k : FlowKey) (v : T)
  | OpFind (k : FlowKey)
  | OpGet (id : Z)
  | OpSet (id : Z) (v : T)
  | OpRemove (k : FlowKey)
  | OpRemoveId (id : Z)
  | OpMark (id bits : Z)
  | OpPop.
#[global] Arguments OpInsert {T}.
#[global] Arguments OpInsertUnindexed {T}.
#[global] Arguments OpFind {T}.
#[global] Arguments OpGet {T}.
#[global] Arguments OpSet {T}.
#[global] Arguments OpRemove {T}.
#[global] Arguments OpRemoveId {T}.
#[global] Arguments OpMark {T}.
#[global] Arguments OpPop {T}.

Inductive flow_reply (T : Type) : Type :=
  | RInsert (r : result Z FlowInsertError)
  | RFind (r : option Z)
  | RGet (r : option (FlowKey * T))
  | RFlag (r : bool)
  | RRemove (r : option T)
  | RPop (r : option (Z * Z)).
#[global] Arguments RInsert {T}.
#[global] Arguments RFind {T}.
#[global] Arguments RGet {T}.
#[global] Arguments RFlag {T}.
#[global] Arguments RRemove {T}.
#[global] Arguments RPop {T}.

Definition id_of (i : nat) : Z := Z.of_nat i + 1.

(** A new flow in a free cell. *)
Definition spec_insert {T} (s : flows T) (k : FlowKey) (v : T) (exact' : nat -> gmap FlowKey nat)
  (r : result Z FlowInsertError) (s' : flows T) : Prop :=
  (r = Err Full /\ s' = s /\ forall i, (i < MAX_FLOWS)%nat -> is_Some (live s !! i)) \/
  (exists i, (i < MAX_FLOWS)%nat /\ live s !! i = None /\ r = Ok (id_of i) /\
     s' = mk_flows (<[i := (k, v)]> (live s)) (exact' i) (queue s)).

(** The flow of cell [i] leaves the maps and the queue. *)
Definition drop_flow {T} (s : flows T) (i : nat) (exact' : gmap FlowKey nat) : flows T :=
  mk_flows (delete i (live s)) exact' (filter (fun x => fst x <> i) (queue s)).

(** Work for cell [i]: the bits are added to those it is queued with. *)
Definition add_work (i : nat) (bits : Z) (q : list (nat * Z)) : list (nat * Z) :=
  if bool_decide (i ∈ q.*1)
  then map (fun x => if bool_decide (fst x = i) then (i, Z.lor (snd x) bits) else x) q
  else q ++ [(i, bits)].

Definition spec_op {T} (s : flows T) (op : flow_op T) (r : flow_reply T) (s' : flows T) : Prop :=
  match op, r with
  | OpInsert k v, RInsert r =>
      match exact s !! k with
      | Some _ => r = Err Duplicate /\ s' = s
      | None => spec_insert s k v (fun i => <[k := i]> (exact s)) r s'
      end
  | OpInsertUnindexed k v, RInsert r => spec_insert s k v (fun _ => exact s) r s'
  | OpFind k, RFind r => r = id_of <$> exact s !! k /\ s' = s
  | OpGet id, RGet r => r = snd <$> lookup_id s id /\ s' = s
  | OpSet id v, RFlag r =>
      match lookup_id s id with
      | Some (i, (k, _)) => r = true /\ s' = mk_flows (<[i := (k, v)]> (live s)) (exact s) (queue s)
      | None => r = false /\ s' = s
      end
  | OpRemove k, RRemove r =>
      match exact s !! k with
      | Some i => r = snd <$> live s !! i /\ is_Some r /\ s' = drop_flow s i (delete k (exact s))
      | None => r = None /\ s' = s
      end
  | OpRemoveId id, RRemove r =>
      match lookup_id s id with
      | Some (i, (k, v)) =>
          r = Some v /\
          s' = drop_flow s i (if decide (exact s !! k = Some i) then delete k (exact s) else exact s)
      | None => r = None /\ s' = s
      end
  | OpMark id bits, RFlag r =>
      match lookup_id s id with
      | Some (i, _) =>
          r = bool_decide (i ∉ (queue s).*1) /\
          s' = mk_flows (live s) (exact s) (add_work i bits (queue s))
      | None => r = false /\ s' = s
      end
  | OpPop, RPop r =>
      match queue s with
      | (i, bits) :: q => r = Some (id_of i, bits) /\ s' = mk_flows (live s) (exact s) q
      | [] => r = None /\ s' = s
      end
  | _, _ => False
  end.

Inductive spec_trace {T} : flows T -> list (flow_op T) -> list (flow_reply T) -> flows T -> Prop :=
  | spec_trace_nil s : spec_trace s [] [] s
  | spec_trace_cons s op r s1 ops rs s2 :
      spec_op s op r s1 -> spec_trace s1 ops rs s2 -> spec_trace s (op :: ops) (r :: rs) s2.

(** ** The representation *)

Section proofs.
Context {T H : Type} `{!HashTable H FlowEntry} (elements : H -> list (Z * FlowEntry)).
Context `{!HashTableLaws H FlowEntry elements}.
(** The hash the callers compute for a key. *)
Context (hf : FlowKey -> Z).

Abbreviation table := (FlowTable T H).

Definition cell_at (t : table) (i : nat) : option (FlowCell T) := mjoin (cells t !! i).

Record base_inv (t : table) : Prop := mk_base_inv {
  b_len : length (cells t) = MAX_FLOWS;
  b_free_nodup : NoDup (free t);
  b_free : forall i, i ∈ free t <-> cells t !! i = Some None;
  b_cell : forall i c, cell_at t i = Some c -> c_id c = id_of i /\ c_hash c = hf (c_key c);
  b_entry_nodup : NoDup (map (fun x => s_cell_index (e_slot (snd x))) (elements (index t)));
  b_entry : forall h e, (h, e) ∈ elements (index t) ->
    exists c, cell_at t (s_cell_index (e_slot e)) = Some c /\ s_id (e_slot e) = c_id c /\
      s_generation (e_slot e) = c_generation c /\ e_key e = c_key c /\ h = c_hash c;
  b_key : forall h e h' e', (h, e) ∈ elements (index t) -> (h', e') ∈ elements (index t) ->
    e_key e = e_key e' -> s_cell_index (e_slot e) = s_cell_index (e_slot e');
  b_bits : forall i c, cell_at t i = Some c -> dirty_queued c = false -> dirty_bits c = 0
}.

(** The queue: the cells [q], linked in this order. *)
Record chain (t : table) (q : list nat) : Prop := mk_chain {
  q_nodup : NoDup q;
  q_head : dirty_head t = head q;
  q_tail : dirty_tail t = last q;
  q_next : forall k i, q !! k = Some i -> exists c, cell_at t i = Some c /\ dirty_next c = q !! S k
}.

Definition flagged (t : table) (q : list nat) : Prop :=
  forall i c, cell_at t i = Some c -> dirty_queued c = true <-> i ∈ q.

Definition flow_of (c : FlowCell T) : FlowKey * T := (c_key c, c_value c).
Definition work_of (t : table) (i : nat) : nat * Z := (i, default 0 (dirty_bits <$> cell_at t i)).

Definition indexed (t : table) (k : FlowKey) (i : nat) : Prop :=
  exists h e, (h, e) ∈ elements (index t) /\ e_key e = k /\ s_cell_index (e_slot e) = i.

Record implements (t : table) (q : list nat) (s : flows T) : Prop := mk_implements {
  im_base : base_inv t;
  im_chain : chain t q;
  im_flag : flagged t q;
  im_live : forall i, live s !! i = flow_of <$> cell_at t i;
  im_exact : forall k i, exact s !! k = Some i <-> indexed t k i;
  im_queue : queue s = map (work_of t) q
}.

(** ** Cells *)

Lemma cell_at_Some t i c : cell_at t i = Some c <-> cells t !! i = Some (Some c).
Proof. unfold cell_at. destruct (cells t !! i) as [[]|]; split; by intros [= ->] || done. Qed.

Lemma cell_lt t i c : base_inv t -> cell_at t i = Some c -> (i < MAX_FLOWS)%nat.
Proof. intros Hb Hc%cell_at_Some%lookup_lt_Some. by rewrite (b_len _ Hb) in Hc. Qed.

Lemma slot_ok t i c : cell_at t i = Some c -> slot t i = Done (Some c).
Proof. intros Hc%cell_at_Some. unfold slot. by rewrite Hc. Qed.

Definition put (t : table) (i : nat) (x : option (FlowCell T)) : table :=
  mk (index t) (<[i := x]> (cells t)) (free t) (next_generation t) (dirty_head t) (dirty_tail t).

Lemma set_slot_ok t i x : (i < length (cells t))%nat -> set_slot t i x = Done (put t i x).
Proof.
  intros Hi. destruct (lookup_lt_is_Some_2 _ _ Hi) as [y Hy]. unfold set_slot, slot. by rewrite Hy.
Qed.

Lemma update_cell_ok t i c f :
  cell_at t i = Some c -> update_cell t i f = Done (put t i (Some (f c))).
Proof.
  intros Hc. unfold update_cell. rewrite (slot_ok t i c Hc). cbn [mbind exec_bind unwrap].
  apply set_slot_ok. by apply cell_at_Some, lookup_lt_Some in Hc.
Qed.

Lemma cell_at_put t i x j :
  (i < length (cells t))%nat -> cell_at (put t i x) j = if decide (j = i) then x else cell_at t j.
Proof.
  intros Hi. unfold cell_at, put. simpl. destruct (decide (j = i)) as [->|Hne].
  - by rewrite list_lookup_insert_eq.
  - by rewrite list_lookup_insert_ne.
Qed.

Lemma cell_at_put_update t i c f j :
  cell_at t i = Some c ->
  cell_at (put t i (Some (f c))) j = if decide (j = i) then Some (f c) else cell_at t j.
Proof. intros Hc. apply cell_at_put. by apply cell_at_Some, lookup_lt_Some in Hc. Qed.

(** [cell_index] finds the live cells. *)
Lemma cell_index_spec t q s id :
  implements t q s ->
  match lookup_id s id with
  | Some (i, x) => cell_index t id = Some i /\ id = id_of i /\
      exists c, cell_at t i = Some c /\ x = flow_of c
  | None => cell_index t id = None
  end.
Proof.
  intros Hi. pose proof (im_base _ _ _ Hi) as Hb. unfold lookup_id, cell_index. rewrite (b_len _ Hb).
  destruct (Z.ltb_spec id 1) as [|Hid]; [done|]. cbn [orb].
  rewrite (im_live _ _ _ Hi). unfold cell_at.
  destruct (Z.ltb_spec (Z.of_nat MAX_FLOWS) id) as [Hbig|Hsmall].
  { rewrite lookup_ge_None_2; [done|]. rewrite (b_len _ Hb). lia. }
  destruct (cells t !! Z.to_nat (id - 1)) as [[c|]|] eqn:E; simpl; [|done..].
  destruct (b_cell _ Hb (Z.to_nat (id - 1)) c) as [Hc _]; [by apply cell_at_Some|].
  unfold id_of in Hc. rewrite Z2Nat.id in Hc by lia. rewrite Hc, (proj2 (Z.eqb_eq _ _)) by lia.
  assert ((id - 1) mod 65536 = id - 1) as -> by (apply Z.mod_small; unfold MAX_FLOWS in Hsmall; lia).
  split_and!; [done|unfold id_of; lia|]. exists c. split; [by rewrite E|done].
Qed.

Lemma pop_spec {A} (l : list A) : match pop l with Some (x, l') => l = l' ++ [x] | None => l = [] end.
Proof.
  unfold pop. destruct l as [|a l _] using rev_ind; [done|]. rewrite last_snoc.
  by rewrite removelast_last.
Qed.

(** The queued cells are live. *)
Lemma chain_live t q i : chain t q -> i ∈ q -> exists c, cell_at t i = Some c.
Proof.
  intros Hq (k & Hk)%list_elem_of_lookup. destruct (q_next _ _ Hq k i Hk) as (c & Hc & _). by exists c.
Qed.

(** What the queue needs of the cells. *)
Lemma chain_frame t t' q :
  chain t q -> dirty_head t' = dirty_head t -> dirty_tail t' = dirty_tail t ->
  (forall i c, i ∈ q -> cell_at t i = Some c ->
     exists c', cell_at t' i = Some c' /\ dirty_next c' = dirty_next c) -> chain t' q.
Proof.
  intros [Hnd Hh Ht Hn] Eh Et Hc. split; [done|congruence|congruence|]. intros k i Hi.
  destruct (Hn k i Hi) as (c & Hci & Hnext).
  destruct (Hc i c) as (c' & Hc' & E); [by eapply list_elem_of_lookup_2|done|].
  exists c'. split; [done|congruence].
Qed.

Lemma work_frame t t' q :
  (forall i, i ∈ q -> dirty_bits <$> cell_at t' i = dirty_bits <$> cell_at t i) ->
  map (work_of t') q = map (work_of t) q.
Proof.
  intros Hc. apply map_ext_in. intros i Hi. unfold work_of. rewrite Hc; [done|].
  by apply list_elem_of_In.
Qed.

(** ** Insertion *)

Definition new_cell (i : nat) (g : Z) (k : FlowKey) (v : T) : FlowCell T :=
  mk_cell (id_of i) g k (hf k) v 0 false None.

(** The table with cell [i] taken off the free list and filled. *)
Definition filled (t : table) (i : nat) (rest : list nat) (k : FlowKey) (v : T) : table :=
  mk (index t) (<[i := Some (new_cell i (next_generation t) k v)]> (cells t)) rest
     (Z.max ((next_generation t + 1) mod 2 ^ 32) 1) (dirty_head t) (dirty_tail t).

Lemma filled_base t i rest k v :
  base_inv t -> free t = rest ++ [i] -> base_inv (filled t i rest k v).
Proof.
  intros Hb Hf. pose proof (b_free_nodup _ Hb) as Hnd. rewrite Hf in Hnd.
  apply NoDup_app in Hnd as (Hnd & Hdis & _).
  assert (cells t !! i = Some None) as Hi by (apply (b_free _ Hb); rewrite Hf; set_solver).
  pose proof (lookup_lt_Some _ _ _ Hi) as Hlt.
  assert (forall j, cell_at (filled t i rest k v) j =
            if decide (j = i) then Some (new_cell i (next_generation t) k v) else cell_at t j) as Hat
    by (intros j; exact (cell_at_put t i (Some (new_cell i (next_generation t) k v)) j Hlt)).
  assert (forall j c, cell_at t j = Some c -> j <> i) as Hne
    by (intros j c Hc%cell_at_Some ->; congruence).
  split; simpl; try apply Hb.
  - by rewrite length_insert, (b_len _ Hb).
  - done.
  - intros j. destruct (decide (j = i)) as [->|Hj].
    + rewrite list_lookup_insert_eq by done. split; [|done]. intros Hj. exfalso. apply (Hdis i Hj). by left.
    + rewrite list_lookup_insert_ne by done. rewrite <- (b_free _ Hb), Hf. set_solver.
  - intros j c. rewrite Hat. destruct (decide (j = i)) as [->|]; [|apply (b_cell _ Hb)]. by intros [= <-].
  - intros h e He. destruct (b_entry _ Hb h e He) as (c & Hc & Hrest). exists c.
    rewrite Hat, decide_False by (by eapply Hne). done.
  - intros j c. rewrite Hat. destruct (decide (j = i)) as [->|]; [|apply (b_bits _ Hb)]. by intros [= <-].
Qed.

Lemma insert_cell_spec t q s k v :
  implements t q s ->
  exists r t', insert_unindexed_cell t k (hf k) v = Done (r, t') /\
    match r with
    | None => t' = t /\ forall i, (i < MAX_FLOWS)%nat -> is_Some (live s !! i)
    | Some (i, g) =>
        (i < MAX_FLOWS)%nat /\ live s !! i = None /\ index t' = index t /\
        cell_at t' i = Some (new_cell i g k v) /\
        implements t' q (mk_flows (<[i := (k, v)]> (live s)) (exact s) (queue s))
    end.
Proof.
  intros Hi. pose proof (im_base _ _ _ Hi) as Hb. unfold insert_unindexed_cell.
  pose proof (pop_spec (free t)) as Hp. destruct (pop (free t)) as [[i rest]|].
  - assert (cells t !! i = Some None) as Hci by (apply (b_free _ Hb); rewrite Hp; set_solver).
    pose proof (lookup_lt_Some _ _ _ Hci) as Hlt. cbv zeta. rewrite set_slot_ok by done.
    cbn [mbind exec_bind]. eexists _, (filled t i rest k v). split; [done|].
    assert (forall j, cell_at (filled t i rest k v) j =
            if decide (j = i) then Some (new_cell i (next_generation t) k v) else cell_at t j) as Hat
      by (intros j; exact (cell_at_put t i (Some (new_cell i (next_generation t) k v)) j Hlt)).
    assert (cell_at t i = None) as Hdead by (unfold cell_at; by rewrite Hci).
    assert (i ∉ q) as Hq.
    { intros Hin. destruct (chain_live t q i (im_chain _ _ _ Hi) Hin) as (c & Hc). congruence. }
    assert (forall j, j ∈ q -> cell_at (filled t i rest k v) j = cell_at t j) as Hsame
      by (intros j Hj; rewrite Hat, decide_False; [done|by intros ->]).
    split_and!; [by rewrite <- (b_len _ Hb)|by rewrite (im_live _ _ _ Hi), Hdead|done| |].
    { by rewrite Hat, decide_True. }
    split; simpl.
    + by apply filled_base.
    + eapply chain_frame; [apply Hi|done|done|]. intros j c Hj Hc. exists c. by rewrite Hsame.
    + intros j c. rewrite Hat. destruct (decide (j = i)) as [->|]; [|apply (im_flag _ _ _ Hi)].
      intros [= <-]. simpl. split; [done|]. by intros ?.
    + intros j. rewrite Hat. destruct (decide (j = i)) as [->|Hj].
      * by rewrite lookup_insert_eq.
      * rewrite lookup_insert_ne by done. apply Hi.
    + apply Hi.
    + rewrite (im_queue _ _ _ Hi). symmetry. apply work_frame. intros j Hj. by rewrite Hsame.
  - exists None, t. split; [done|]. split; [done|]. intros i Hlt. rewrite (im_live _ _ _ Hi).
    assert (i ∉ free t) as Hnf by (rewrite Hp; apply not_elem_of_nil).
    destruct (lookup_lt_is_Some_2 (cells t) i) as [[c|] Hc]; [by rewrite (b_len _ Hb)| |].
    + apply cell_at_Some in Hc. rewrite Hc. by eexists.
    + by apply (b_free _ Hb) in Hc.
Qed.

(** Looking up a key finds its entry. *)
Lemma find_indexed t q s k e :
  implements t q s -> ht_find (hf k) (fun entry => bool_decide (e_key entry = k)) (index t) = Some e ->
  exact s !! k = Some (s_cell_index (e_slot e)) /\ exists h, (h, e) ∈ elements (index t).
Proof.
  intros Hi (Hk%bool_decide_eq_true & h & Hin)%(ht_find_some (elements := elements)).
  split; [|by exists h]. apply (im_exact _ _ _ Hi). by exists h, e.
Qed.

Lemma find_none t q s k :
  implements t q s -> ht_find (hf k) (fun entry => bool_decide (e_key entry = k)) (index t) = None ->
  exact s !! k = None.
Proof.
  intros Hi Hf. destruct (exact s !! k) as [i|] eqn:E; [|done].
  apply (im_exact _ _ _ Hi) in E as (h & e & He & Hk & _).
  destruct (b_entry _ (im_base _ _ _ Hi) h e He) as (c & Hc & _ & _ & Hkey & ->).
  destruct (b_cell _ (im_base _ _ _ Hi) _ _ Hc) as [_ Hh]. rewrite Hh, <- Hkey, Hk in He.
  pose proof (ht_find_none (elements := elements) _ _ _ e Hf He) as Hp.
  apply bool_decide_eq_false in Hp. done.
Qed.

(** Adding the entry of a live cell that is not indexed, under a key that is not
    either. *)
Lemma index_insert t q s i c :
  implements t q s -> cell_at t i = Some c -> exact s !! c_key c = None ->
  (forall k, exact s !! k <> Some i) ->
  implements (set_index t (ht_insert_unique (hf (c_key c))
      (mk_entry (hf (c_key c)) (c_key c) (mk_slot (id_of i) (c_generation c) i)) (index t)))
    q (mk_flows (live s) (<[c_key c := i]> (exact s)) (queue s)).
Proof.
  intros Hi Hc Hk Hni. set (e := mk_entry _ _ _). pose proof (im_base _ _ _ Hi) as Hb.
  pose proof (ht_elements_insert (elements := elements) (hf (c_key c)) e (index t)) as Hp.
  assert (forall h' e', (h', e') ∈ elements (ht_insert_unique (hf (c_key c)) e (index t)) <->
            (h', e') = (hf (c_key c), e) \/ (h', e') ∈ elements (index t)) as Hin
    by (intros; by rewrite Hp, elem_of_cons).
  destruct (b_cell _ Hb i c Hc) as [Hid Hh].
  split; simpl; try apply Hi.
  - split; simpl; try apply Hb.
    + rewrite Hp. simpl. apply NoDup_cons. split; [|apply Hb].
      intros ([h' e'] & Hs & He')%list_elem_of_fmap. simpl in Hs.
      apply (Hni (e_key e')), (im_exact _ _ _ Hi). by exists h', e'.
    + intros h' e' [[= -> ->]|He']%Hin; [|by apply (b_entry _ Hb)].
      exists c. split_and!; [done|by rewrite Hid|done|done|by rewrite Hh].
    + assert (forall h' e', (h', e') ∈ elements (index t) -> e_key e' <> c_key c) as Hnk.
      { intros h' e' He' Ek. assert (exact s !! c_key c = Some (s_cell_index (e_slot e'))) as E; [|congruence].
        apply (im_exact _ _ _ Hi). by exists h', e'. }
      intros h1 e1 h2 e2 [[= -> ->]|H1]%Hin [[= -> ->]|H2]%Hin E; try done.
      * exfalso. by eapply (Hnk h2 e2).
      * exfalso. by eapply (Hnk h1 e1).
      * by eapply (b_key _ Hb).
  - by destruct (im_chain _ _ _ Hi).
  - intros k j. unfold indexed. simpl. setoid_rewrite Hin. destruct (decide (k = c_key c)) as [->|Hne].
    + rewrite lookup_insert_eq. split.
      * intros [= <-]. exists (hf (c_key c)), e. by split_and!; [left| |].
      * intros (h' & e' & [[= -> ->]|He'] & Ek & Es); [by rewrite <- Es|]. exfalso.
        assert (exact s !! c_key c = Some j) as E; [|congruence].
        apply (im_exact _ _ _ Hi). by exists h', e'.
    + rewrite lookup_insert_ne by done. rewrite (im_exact _ _ _ Hi). unfold indexed. split.
      * intros (h' & e' & He' & Hrest). exists h', e'. auto.
      * intros (h' & e' & [[= -> ->]|He'] & Ek & Es); [simpl in Ek; congruence|]. by exists h', e'.
Qed.

Lemma insert_prehashed_spec t q s k v :
  implements t q s ->
  exists r t' s', insert_prehashed t k (hf k) v = Done (r, t') /\ implements t' q s' /\
    spec_op s (OpInsert k v) (RInsert r) s'.
Proof.
  intros Hi. unfold insert_prehashed, spec_op.
  destruct (ht_find (hf k) (fun entry => bool_decide (e_key entry = k)) (index t)) as [e|] eqn:Hf.
  { destruct (find_indexed t q s k e Hi Hf) as [-> _]. by exists (Err Duplicate), t, s. }
  pose proof (find_none t q s k Hi Hf) as Hk. rewrite Hk.
  destruct (insert_cell_spec t q s k v Hi) as (r & t' & -> & Hr). cbn [mbind exec_bind].
  destruct r as [[i g]|].
  - destruct Hr as (Hlt & Hdead & Ei & Hc & Hi'). eexists _, _, _. split; [done|].
    split; [|right; exists i; by split_and!].
    change k with (c_key (new_cell i g k v)) at 1 2 3 4.
    apply (index_insert t' q _ i (new_cell i g k v) Hi' Hc); [done|]. simpl. intros k' E.
    apply (im_exact _ _ _ Hi) in E as (h & e & He & _ & Es).
    destruct (b_entry _ (im_base _ _ _ Hi) h e He) as (c & Hce & _). rewrite Es in Hce.
    pose proof (im_live _ _ _ Hi i) as El. rewrite Hdead, Hce in El. done.
  - destruct Hr as [-> Hfull]. exists (Err Full), t, s. split_and!; [done|done|]. by left.
Qed.

Lemma insert_unindexed_spec t q s k v :
  implements t q s ->
  exists r t' s', insert_unindexed t k (hf k) v = Done (r, t') /\ implements t' q s' /\
    spec_op s (OpInsertUnindexed k v) (RInsert r) s'.
Proof.
  intros Hi. unfold insert_unindexed, spec_op.
  destruct (insert_cell_spec t q s k v Hi) as (r & t' & -> & Hr). cbn [mbind exec_bind].
  destruct r as [[i g]|].
  - destruct Hr as (Hlt & Hdead & Ei & Hc & Hi'). eexists _, _, _. split; [done|].
    split; [exact Hi'|]. right. exists i. by split_and!.
  - destruct Hr as [-> Hfull]. exists (Err Full), t, s. split_and!; [done|done|]. by left.
Qed.

(** ** Queries *)

Lemma find_spec t q s k :
  implements t q s -> find t k (hf k) = Done (id_of <$> exact s !! k).
Proof.
  intros Hi. unfold find.
  destruct (ht_find (hf k) (fun entry => bool_decide (e_key entry = k)) (index t)) as [e|] eqn:Hf.
  - destruct (find_indexed t q s k e Hi Hf) as [-> (h & He)].
    destruct (b_entry _ (im_base _ _ _ Hi) h e He) as (c & Hc & Hid & Hg & _).
    rewrite (slot_ok _ _ _ Hc). cbn [mbind exec_bind]. rewrite Hg, Z.eqb_refl, Hid. simpl.
    by destruct (b_cell _ (im_base _ _ _ Hi) _ _ Hc) as [-> _].
  - by rewrite (find_none t q s k Hi Hf).
Qed.

Lemma cell_spec t q s id :
  implements t q s ->
  exists c, cell t id = Done c /\ flow_of <$> c = snd <$> lookup_id s id.
Proof.
  intros Hi. unfold cell. pose proof (cell_index_spec t q s id Hi) as Hx.
  destruct (lookup_id s id) as [[i x]|].
  - destruct Hx as (-> & _ & c & Hc & ->). exists (Some c). split; [by apply slot_ok|done].
  - rewrite Hx. by exists None.
Qed.

(** ** Writing to a live cell *)

(** The cell keeps its identity. *)
Definition same_flow (c c' : FlowCell T) : Prop :=
  c_id c' = c_id c /\ c_generation c' = c_generation c /\ c_key c' = c_key c /\ c_hash c' = c_hash c /\
  (dirty_queued c' = false -> dirty_bits c' = 0).

Lemma base_update t t' :
  base_inv t -> index t' = index t -> free t' = free t -> length (cells t') = length (cells t) ->
  (forall i, cell_at t i = None -> cells t' !! i = cells t !! i) ->
  (forall i c, cell_at t i = Some c -> exists c', cell_at t' i = Some c' /\ same_flow c c') ->
  base_inv t'.
Proof.
  intros Hb Ei Ef El Hnone Hsome.
  assert (forall i c', cell_at t' i = Some c' -> exists c, cell_at t i = Some c /\ same_flow c c') as Hback.
  { intros i c' Hc'. destruct (cell_at t i) as [c|] eqn:E.
    - destruct (Hsome i c E) as (c2 & Hc2 & Hs). exists c. split; [done|]. congruence.
    - apply cell_at_Some in Hc'. rewrite (Hnone i E) in Hc'. apply cell_at_Some in Hc'. congruence. }
  split; rewrite ?Ei, ?Ef, ?El; try apply Hb.
  - intros i. rewrite (b_free _ Hb). destruct (cell_at t i) as [c|] eqn:E.
    + destruct (Hsome i c E) as (c' & Hc' & _). apply cell_at_Some in E, Hc'. rewrite E, Hc'. done.
    + by rewrite (Hnone i E).
  - intros i c' (c & Hc & -> & _ & -> & -> & _)%Hback. by apply (b_cell _ Hb).
  - intros h e He. destruct (b_entry _ Hb h e He) as (c & Hc & H1 & H2 & H3 & H4).
    destruct (Hsome _ _ Hc) as (c' & Hc' & E1 & E2 & E3 & E4 & _). exists c'. split; [done|].
    rewrite E1, E2, E3, E4. done.
  - intros i c' (c & Hc & _ & _ & _ & _ & Hbits)%Hback. done.
Qed.

Lemma base_put t i c c' :
  base_inv t -> cell_at t i = Some c -> same_flow c c' -> base_inv (put t i (Some c')).
Proof.
  intros Hb Hc Hs. pose proof (cell_at_put_update t i c (fun _ => c')) as Hat.
  eapply base_update; [done|done|done|apply length_insert| |].
  - intros j Hj. simpl. apply list_lookup_insert_ne. intros ->. congruence.
  - intros j d Hd. rewrite (Hat j Hc). destruct (decide (j = i)) as [->|Hne].
    + exists c'. split; [done|]. congruence.
    + exists d. split; [done|]. split_and!; try done. by apply (b_bits _ Hb j).
Qed.

Lemma set_spec t q s id v :
  implements t q s ->
  exists r t' s', get_mut t id v = Done (r, t') /\ implements t' q s' /\
    spec_op s (OpSet id v) (RFlag r) s'.
Proof.
  intros Hi. unfold get_mut, spec_op. pose proof (cell_index_spec t q s id Hi) as Hx.
  destruct (lookup_id s id) as [[i x]|]; [|by rewrite Hx; exists false, t, s].
  destruct Hx as (-> & _ & c & Hc & ->). rewrite (update_cell_ok t i c _ Hc). cbn [mbind exec_bind].
  eexists _, _, _. split; [done|]. split; [|done].
  pose proof (cell_at_put_update t i c (with_value v)) as Hat. specialize (fun j => Hat j Hc).
  pose proof (im_base _ _ _ Hi) as Hb.
  split; simpl.
  - apply (base_put t i c); [done|done|]. split_and!; try done. exact (b_bits _ Hb i c Hc).
  - eapply chain_frame; [apply Hi|done|done|]. intros j d _ Hd. rewrite Hat.
    destruct (decide (j = i)) as [->|]; [|by exists d]. rewrite Hd in Hc. injection Hc as ->. by eexists.
  - intros j d. rewrite Hat. destruct (decide (j = i)) as [->|]; [|apply (im_flag _ _ _ Hi)].
    intros [= <-]. exact (im_flag _ _ _ Hi i c Hc).
  - intros j. rewrite Hat. destruct (decide (j = i)) as [->|Hj].
    + by rewrite lookup_insert_eq.
    + rewrite lookup_insert_ne by done. apply Hi.
  - apply Hi.
  - rewrite (im_queue _ _ _ Hi). symmetry. apply work_frame. intros j _. rewrite Hat.
    destruct (decide (j = i)) as [->|]; [by rewrite Hc|done].
Qed.

(** ** The work queue *)

Lemma work_fst t q : (map (work_of t) q).*1 = q.
Proof. induction q as [|i q IH]; simpl; [done|]. by f_equal. Qed.

(** Work for a cell that is queued. *)
Lemma mark_queued t q s i c bits :
  implements t q s -> cell_at t i = Some c -> dirty_queued c = true ->
  implements (put t i (Some (with_bits (Z.lor (dirty_bits c) bits) c))) q
    (mk_flows (live s) (exact s) (add_work i bits (queue s))).
Proof.
  intros Hi Hc Hd. assert (i ∈ q) as Hin by (by apply (im_flag _ _ _ Hi i c)).
  set (f := with_bits (Z.lor (dirty_bits c) bits)).
  pose proof (fun j => cell_at_put_update t i c f j Hc) as Hat.
  split; simpl.
  - apply (base_put t i c); [apply Hi|done|]. split_and!; try done. simpl. congruence.
  - eapply chain_frame; [apply Hi|done|done|]. intros j d _ Hj. rewrite Hat.
    destruct (decide (j = i)) as [->|]; [|by exists d]. rewrite Hj in Hc. injection Hc as ->. by eexists.
  - intros j d. rewrite Hat. destruct (decide (j = i)) as [->|]; [|apply (im_flag _ _ _ Hi)].
    intros [= <-]. exact (im_flag _ _ _ Hi i c Hc).
  - intros j. rewrite Hat, (im_live _ _ _ Hi). destruct (decide (j = i)) as [->|]; [by rewrite Hc|done].
  - apply Hi.
  - unfold add_work. rewrite (im_queue _ _ _ Hi), work_fst, bool_decide_eq_true_2 by done.
    rewrite map_map. apply map_ext. intros j. unfold work_of. simpl. rewrite Hat.
    destruct (decide (j = i)) as [->|Hne].
    + rewrite bool_decide_eq_true_2, Hc by done. done.
    + by rewrite bool_decide_eq_false_2.
Qed.

(** The table after cell [i] has been put at the end of the queue. *)
Definition enqueued (t : table) (i : nat) (c2 : FlowCell T) (t' : table) : Prop :=
  index t' = index t /\ free t' = free t /\ dirty_tail t' = Some i /\
  dirty_head t' = match dirty_head t with Some h => Some h | None => Some i end /\
  base_inv t' /\
  forall j, cell_at t' j = if decide (j = i) then Some c2
                           else if decide (dirty_tail t = Some j) then with_next (Some i) <$> cell_at t j
                           else cell_at t j.

Lemma enqueue_ok t q i c c2 :
  base_inv t -> chain t q -> cell_at t i = Some c -> i ∉ q -> same_flow c c2 ->
  exists t', (t3 ← (match dirty_tail (put t i (Some c2)) with
                    | Some tail => update_cell (put t i (Some c2)) tail (with_next (Some i))
                    | None => Done (set_dirty_head (put t i (Some c2)) (Some i))
                    end);
              Done (true, set_dirty_tail t3 (Some i))) = Done (true, t') /\ enqueued t i c2 t'.
Proof.
  intros Hb Hq Hc Hni Hs. pose proof (fun j => cell_at_put_update t i c (fun _ => c2) j Hc) as Hat.
  assert (base_inv (put t i (Some c2))) as Hb2 by (by apply (base_put t i c)).
  change (dirty_tail (put t i (Some c2))) with (dirty_tail t).
  pose proof (q_tail _ _ Hq) as Htail. pose proof (q_head _ _ Hq) as Hhead.
  destruct (last q) as [j|] eqn:El; rewrite Htail.
  - assert (j ∈ q) as Hj by (apply last_Some in El as [q' ->]; set_solver).
    destruct (chain_live t q j Hq Hj) as (cj & Hcj). assert (j <> i) as Hji by (by intros ->).
    assert (cell_at (put t i (Some c2)) j = Some cj) as Hcj2 by (by rewrite Hat, decide_False).
    rewrite (update_cell_ok _ j cj _ Hcj2). cbn [mbind exec_bind]. eexists. split; [done|].
    pose proof (fun x => cell_at_put_update _ j cj (with_next (Some i)) x Hcj2) as Hat3.
    split_and!; [done|done|done| | |].
    + simpl. rewrite Hhead. by destruct q.
    + assert (base_inv (put (put t i (Some c2)) j (Some (with_next (Some i) cj)))) as Hb3.
      { apply (base_put _ j cj); [done|done|]. split_and!; try done. exact (b_bits _ Hb j cj Hcj). }
      by destruct Hb3.
    + intros x. change (cell_at (set_dirty_tail _ _) x)
        with (cell_at (put (put t i (Some c2)) j (Some (with_next (Some i) cj))) x).
      rewrite Hat3, Hat. rewrite Htail. destruct (decide (x = j)) as [->|Hxj].
      * rewrite (decide_False (P := j = i)), (decide_True (P := Some j = Some j)) by done. by rewrite Hcj.
      * destruct (decide (x = i)); [done|]. rewrite decide_False; [done|congruence].
  - apply last_None in El as ->. eexists. split; [done|]. simpl in Hhead.
    split_and!; [done|done|done|by rewrite Hhead|by destruct Hb2|].
    intros x. change (cell_at (set_dirty_tail _ _) x) with (cell_at (put t i (Some c2)) x).
    rewrite Hat, Htail. destruct (decide (x = i)); [done|]. by rewrite decide_False.
Qed.

Lemma chain_enqueued t q i c2 t' :
  chain t q -> enqueued t i c2 t' -> i ∉ q -> dirty_next c2 = None -> chain t' (q ++ [i]).
Proof.
  intros Hq (_ & _ & Et & Eh & _ & Hat) Hni Hn. split.
  - apply NoDup_app. split_and!; [apply Hq| |apply NoDup_singleton]. intros x Hx ->%list_elem_of_singleton. done.
  - rewrite Eh, (q_head _ _ Hq). by destruct q.
  - by rewrite Et, last_snoc.
  - intros k x Hk. destruct (decide (x = i)) as [->|Hxi].
    + exists c2. rewrite Hat, decide_True by done. split; [done|]. rewrite Hn. symmetry.
      apply lookup_app_Some in Hk as [Hk|[Hge Hk]]; [by apply list_elem_of_lookup_2 in Hk|].
      apply list_lookup_singleton_Some in Hk as [Hk _]. apply lookup_ge_None. rewrite length_app. simpl. lia.
    + assert (q !! k = Some x) as Hqk.
      { apply lookup_app_Some in Hk as [Hk|[_ Hk]]; [done|].
        apply list_lookup_singleton_Some in Hk as [_ ->]. done. }
      destruct (q_next _ _ Hq k x Hqk) as (c & Hc & Hnext). pose proof (lookup_lt_Some _ _ _ Hqk) as Hlt.
      rewrite Hat, (decide_False (P := x = i)), (q_tail _ _ Hq), Hc by done.
      assert (last q = Some x <-> S k = length q) as Hlast.
      { rewrite last_lookup. split; [|intros <-; by simpl].
        intros Hl. pose proof (NoDup_lookup _ _ _ _ (q_nodup _ _ Hq) Hqk Hl). lia. }
      destruct (decide (last q = Some x)) as [El|El].
      * eexists. split; [done|]. simpl. apply Hlast in El. rewrite El. symmetry.
        by apply list_lookup_middle.
      * exists c. split; [done|]. rewrite Hnext. symmetry. apply lookup_app_l. rewrite Hlast in El. lia.
Qed.

(** Two tables agree on a cell but for its link. *)
Definition alike (t t' : table) (j : nat) : Prop :=
  with_next None <$> cell_at t' j = with_next None <$> cell_at t j.

Lemma alike_fmap {A} (f : FlowCell T -> A) t t' j :
  (forall c, f (with_next None c) = f c) -> alike t t' j -> f <$> cell_at t' j = f <$> cell_at t j.
Proof.
  unfold alike. intros Hf Ha. apply (f_equal (fmap f)) in Ha.
  rewrite <- !option_fmap_compose in Ha.
  by rewrite !(option_fmap_ext _ f _ Hf) in Ha.
Qed.

Lemma alike_queued t t' q j c' :
  alike t t' j -> flagged t q -> cell_at t' j = Some c' -> dirty_queued c' = true <-> j ∈ q.
Proof.
  intros Ha Hf Hc'. pose proof (alike_fmap dirty_queued t t' j ltac:(done) Ha) as E. rewrite Hc' in E.
  destruct (cell_at t j) as [c|] eqn:Hc; [|done]. simpl in E. injection E as ->. by apply Hf.
Qed.

Lemma enqueued_alike t i c2 t' j : enqueued t i c2 t' -> j <> i -> alike t t' j.
Proof.
  intros (_ & _ & _ & _ & _ & Hat) Hj. unfold alike. rewrite Hat, decide_False by done.
  case_decide; [|done]. by destruct (cell_at t j).
Qed.

Lemma mark_idle t q s i c bits t' :
  implements t q s -> cell_at t i = Some c -> i ∉ q ->
  enqueued t i (with_next None (with_queued true (with_bits (Z.lor (dirty_bits c) bits) c))) t' ->
  implements t' (q ++ [i]) (mk_flows (live s) (exact s) (add_work i bits (queue s))).
Proof.
  intros Hi Hc Hni Henq. pose proof Henq as (Ei & Ef & _ & _ & Hb' & Hat).
  assert (dirty_bits c = 0) as Hidle.
  { apply (b_bits _ (im_base _ _ _ Hi) i c Hc). destruct (dirty_queued c) eqn:E; [|done].
    by apply (im_flag _ _ _ Hi i c Hc) in E. }
  assert (cell_at t' i = Some (with_next None (with_queued true (with_bits (Z.lor (dirty_bits c) bits) c))))
    as Hci by (by rewrite Hat, decide_True).
  split; simpl.
  - done.
  - eapply chain_enqueued; [apply Hi|exact Henq|done|done].
  - intros j d Hd. rewrite elem_of_app, list_elem_of_singleton. destruct (decide (j = i)) as [->|Hj].
    + rewrite Hci in Hd. injection Hd as <-. simpl. tauto.
    + rewrite (alike_queued t t' q j d (enqueued_alike _ _ _ _ _ Henq Hj) (im_flag _ _ _ Hi) Hd). tauto.
  - intros j. rewrite (im_live _ _ _ Hi). destruct (decide (j = i)) as [->|Hj].
    + by rewrite Hci, Hc.
    + symmetry. apply alike_fmap; [done|]. by eapply enqueued_alike.
  - intros k j. rewrite (im_exact _ _ _ Hi). unfold indexed. by rewrite Ei.
  - unfold add_work. rewrite (im_queue _ _ _ Hi), work_fst, bool_decide_eq_false_2 by done.
    rewrite map_app. simpl. f_equal.
    + symmetry. apply work_frame. intros j Hj. apply alike_fmap; [done|].
      eapply enqueued_alike; [done|]. by intros ->.
    + unfold work_of. rewrite Hci. simpl. by rewrite Hidle.
Qed.

Lemma mark_spec t q s id bits :
  implements t q s ->
  exists r t' q' s', mark_dirty t id bits = Done (r, t') /\ implements t' q' s' /\
    spec_op s (OpMark id bits) (RFlag r) s'.
Proof.
  intros Hi. unfold mark_dirty, spec_op. pose proof (cell_index_spec t q s id Hi) as Hx.
  destruct (lookup_id s id) as [[i x]|]; [|by rewrite Hx; exists false, t, q, s].
  destruct Hx as (-> & _ & c & Hc & ->). rewrite (slot_ok t i c Hc). cbn [mbind exec_bind unwrap].
  rewrite (update_cell_ok t i c _ Hc). cbn [mbind exec_bind].
  pose proof (im_flag _ _ _ Hi i c Hc) as Hflag.
  destruct (dirty_queued c) eqn:Hd.
  - eexists _, _, q, _. split; [done|]. split; [by apply mark_queued|]. split; [|done].
    rewrite (im_queue _ _ _ Hi), work_fst. symmetry. apply bool_decide_eq_false. intros Hn. by apply Hn, Hflag.
  - assert (i ∉ q) as Hni by (rewrite <- Hflag; done).
    set (c1 := with_bits (Z.lor (dirty_bits c) bits) c).
    assert (cell_at (put t i (Some c1)) i = Some c1) as Hc1
      by (pose proof (cell_at_put_update t i c (fun _ => c1) i Hc) as E; by rewrite decide_True in E).
    rewrite (update_cell_ok _ i c1 _ Hc1). cbn [mbind exec_bind].
    assert (put (put t i (Some c1)) i (Some (with_next None (with_queued true c1))) =
            put t i (Some (with_next None (with_queued true c1)))) as ->
      by (unfold put; simpl; by rewrite list_insert_insert_eq).
    destruct (enqueue_ok t q i c (with_next None (with_queued true c1)) (im_base _ _ _ Hi)
      (im_chain _ _ _ Hi) Hc Hni) as (t' & E & Henq); [by split_and!|].
    cbn [mbind exec_bind] in E. rewrite E.
    eexists _, t', (q ++ [i]), _. split; [done|]. split; [by eapply mark_idle|]. split; [|done].
    rewrite (im_queue _ _ _ Hi), work_fst. symmetry. by apply bool_decide_eq_true.
Qed.

Lemma pop_dirty_spec t q s :
  implements t q s ->
  exists r t' q' s', pop_dirty t = Done (r, t') /\ implements t' q' s' /\ spec_op s OpPop (RPop r) s'.
Proof.
  intros Hi. unfold pop_dirty, spec_op. pose proof (im_chain _ _ _ Hi) as Hq.
  rewrite (im_queue _ _ _ Hi), (q_head _ _ Hq).
  destruct q as [|i q]; simpl; [by exists None, t, [], s|].
  destruct (q_next _ _ Hq 0%nat i eq_refl) as (c & Hc & Hnext). simpl in Hnext.
  pose proof (q_nodup _ _ Hq) as [Hni Hnd]%NoDup_cons.
  rewrite (slot_ok t i c Hc). cbn [mbind exec_bind unwrap].
  set (t1 := if bool_decide _ then _ else _).
  assert (cells t1 = cells t /\ index t1 = index t /\ free t1 = free t /\
          dirty_head t1 = head q /\ dirty_tail t1 = last q) as (Ec & Ei & Ef & Eh & Et).
  { unfold t1. rewrite Hnext. pose proof (q_tail _ _ Hq) as Ht. simpl. case_bool_decide as E.
    - destruct q; [|done]. by split_and!.
    - destruct q as [|j q]; [done|]. by split_and!. }
  clearbody t1. assert (forall j, cell_at t1 j = cell_at t j) as Hsame by (intros; unfold cell_at; by rewrite Ec).
  assert (base_inv t1) as Hb1.
  { eapply (base_update t); [apply Hi|done|done|by rewrite Ec|intros; by rewrite Ec|]. intros j d Hd.
    exists d. rewrite Hsame. split; [done|]. split_and!; try done. by apply (b_bits _ (im_base _ _ _ Hi) j). }
  rewrite <- Hsame in Hc. rewrite (update_cell_ok t1 i c _ Hc). cbn [mbind exec_bind].
  pose proof (fun j => cell_at_put_update t1 i c (fun c => with_bits 0 (with_queued false (with_next None c))) j Hc)
    as Hat. simpl in Hat.
  eexists _, _, q, (mk_flows (live s) (exact s) (map (work_of t) q)). split; [done|]. split.
  - split; simpl.
    + by apply (base_put t1 i c).
    + split; [done|done|done|]. intros k x Hx.
      destruct (q_next _ _ Hq (S k) x Hx) as (d & Hd & Hn). exists d. simpl in Hn.
      rewrite Hat, decide_False by (intros ->; by apply list_elem_of_lookup_2 in Hx). by rewrite Hsame.
    + intros j d. rewrite Hat, Hsame. destruct (decide (j = i)) as [->|Hj].
      * intros [= <-]. done.
      * intros Hd. rewrite (im_flag _ _ _ Hi j d Hd), elem_of_cons. tauto.
    + intros j. rewrite (im_live _ _ _ Hi), Hat, Hsame. rewrite Hsame in Hc.
      destruct (decide (j = i)) as [->|]; [by rewrite Hc|done].
    + intros k j. rewrite (im_exact _ _ _ Hi). unfold indexed. simpl. by rewrite Ei.
    + symmetry. apply work_frame. intros j Hj. rewrite Hat, Hsame, decide_False; [done|by intros ->].
  - unfold work_of. rewrite Hsame in Hc. rewrite Hc. simpl.
    by destruct (b_cell _ (im_base _ _ _ Hi) i c Hc) as [-> _].
Qed.

(** ** Unlinking *)

(** The tables agree but for links, the head and the tail. *)
Definition relinked (t t' : table) : Prop :=
  index t' = index t /\ free t' = free t /\ length (cells t') = length (cells t) /\
  (forall j, alike t t' j) /\ (forall j, cell_at t j = None -> cells t' !! j = cells t !! j).

Lemma relinked_refl t : relinked t t.
Proof. by split_and!. Qed.

(** Taking [target] out between [pre] and [post]. *)
Definition bypass (t : table) (pre post : list nat) (target : nat) : exec table :=
  t ← (match last pre with
       | Some p => update_cell t p (with_next (head post))
       | None => Done (set_dirty_head t (head post))
       end);
  Done (if bool_decide (dirty_tail t = Some target) then set_dirty_tail t (last pre) else t).

Lemma bypass_links t pre target post :
  chain t (pre ++ target :: post) ->
  exists t', bypass t pre post target = Done t' /\ relinked t t' /\
    dirty_head t' = head (pre ++ post) /\ dirty_tail t' = last (pre ++ post) /\
    forall j, cell_at t' j = if decide (last pre = Some j) then with_next (head post) <$> cell_at t j
                             else cell_at t j.
Proof.
  intros Hq. pose proof (q_head _ _ Hq) as Hh. pose proof (q_tail _ _ Hq) as Ht.
  pose proof (q_nodup _ _ Hq) as Hnd. unfold bypass.
  assert (forall t1 : table, dirty_tail t1 = dirty_tail t ->
    dirty_tail (if bool_decide (dirty_tail t1 = Some target) then set_dirty_tail t1 (last pre) else t1)
      = last (pre ++ post)) as Htail.
  { intros t1 E. rewrite E, Ht. destruct post as [|x post].
    - rewrite last_snoc, bool_decide_eq_true_2 by done. simpl. by rewrite app_nil_r.
    - rewrite !last_app_cons, last_cons_cons, bool_decide_eq_false_2.
      + by rewrite E, Ht, last_app_cons, last_cons_cons.
      + intros [l' El]%last_Some. apply NoDup_app in Hnd as (_ & _ & [Hnt _]%NoDup_cons).
        apply Hnt. rewrite El. set_solver. }
  destruct (last pre) as [p|] eqn:Ep.
  - assert (p ∈ pre) as Hp by (apply last_Some in Ep as [l' ->]; set_solver).
    destruct (chain_live t _ p Hq) as (c & Hc); [set_solver|].
    rewrite (update_cell_ok t p c _ Hc). cbn [mbind exec_bind]. eexists. split; [done|].
    set (t1 := put t p _). pose proof (fun j => cell_at_put_update t p c (with_next (head post)) j Hc) as Hat.
    set (t2 := if bool_decide _ then _ else _).
    assert (cells t2 = cells t1 /\ index t2 = index t /\ free t2 = free t /\ dirty_head t2 = dirty_head t)
      as (E1 & E2 & E3 & E4) by (unfold t2; by destruct (bool_decide _)).
    assert (forall j, cell_at t2 j = if decide (Some p = Some j) then with_next (head post) <$> cell_at t j
                                     else cell_at t j) as Hat2.
    { intros j. unfold cell_at at 1. rewrite E1. fold (cell_at t1 j). unfold t1. rewrite Hat.
      destruct (decide (j = p)) as [->|Hj]; [by rewrite decide_True, Hc|]. rewrite decide_False; [done|congruence]. }
    split_and!; [split_and!; try done| |by apply Htail|done].
    + rewrite E1. apply length_insert.
    + intros j. unfold alike. rewrite Hat2. case_decide; [by destruct (cell_at t j)|done].
    + intros j Hj. rewrite E1. simpl. apply list_lookup_insert_ne. intros ->. congruence.
    + rewrite E4, Hh. by destruct pre.
  - apply last_None in Ep as ->. cbn [mbind exec_bind]. eexists. split; [done|].
    set (t2 := if bool_decide _ then _ else _).
    assert (cells t2 = cells t /\ index t2 = index t /\ free t2 = free t /\ dirty_head t2 = head post)
      as (E1 & E2 & E3 & E4) by (unfold t2; by destruct (bool_decide _)).
    split_and!; [split_and!; try done| |by apply Htail|].
    + by rewrite E1.
    + intros j. unfold alike, cell_at. by rewrite E1.
    + intros j _. by rewrite E1.
    + done.
    + intros j. rewrite decide_False by done. unfold cell_at. by rewrite E1.
Qed.

Lemma bypass_spec t pre target post :
  chain t (pre ++ target :: post) ->
  exists t', bypass t pre post target = Done t' /\ relinked t t' /\ chain t' (pre ++ post).
Proof.
  intros Hq. destruct (bypass_links t pre target post Hq) as (t' & E & Hr & Hh & Ht & Hat).
  exists t'. split_and!; [done|done|]. pose proof (q_nodup _ _ Hq) as Hnd.
  assert (NoDup (pre ++ post)) as Hnd'.
  { apply NoDup_app in Hnd as (H1 & H2 & [_ H3]%NoDup_cons). apply NoDup_app.
    split_and!; [done| |done]. intros x Hx Hx'. apply (H2 x Hx). by right. }
  split; [done|done|done|]. intros k i Hk. rewrite Hat.
  destruct (Nat.lt_ge_cases k (length pre)) as [Hlt|Hge].
  - rewrite lookup_app_l in Hk by done.
    destruct (q_next _ _ Hq k i) as (c & Hc & Hn); [by apply lookup_app_l_Some|].
    assert (last pre = Some i <-> S k = length pre) as Hlast.
    { rewrite last_lookup. split; [|intros <-; by simpl]. intros Hl.
      apply NoDup_app in Hnd as (H1 & _). pose proof (NoDup_lookup _ _ _ _ H1 Hk Hl). lia. }
    destruct (decide (last pre = Some i)) as [El|El].
    + rewrite Hc. eexists. split; [done|]. simpl. apply Hlast in El.
      rewrite lookup_app_r by lia. replace (S k - length pre)%nat with 0%nat by lia. by destruct post.
    + exists c. split; [done|]. rewrite Hn. rewrite Hlast in El. by rewrite !lookup_app_l by lia.
  - rewrite lookup_app_r in Hk by done.
    assert (last pre <> Some i) as El.
    { intros [l' El]%last_Some. apply NoDup_app in Hnd' as (_ & H2 & _). apply (H2 i).
      - rewrite El. set_solver.
      - by eapply list_elem_of_lookup_2. }
    rewrite decide_False by done.
    destruct (q_next _ _ Hq (S k) i) as (c & Hc & Hn).
    { rewrite lookup_app_r by lia. by replace (S k - length pre)%nat with (S (k - length pre)) by lia. }
    exists c. split; [done|]. rewrite Hn, !lookup_app_r by lia.
    by replace (S (S k) - length pre)%nat with (S (S k - length pre)) by lia.
Qed.

Lemma unlink_loop_spec fuel t target pre post :
  chain t (pre ++ post) -> target ∉ pre -> (length post <= fuel)%nat ->
  exists t', unlink_loop fuel t target (last pre) (head post) = Done t' /\ relinked t t' /\
    chain t' (filter (fun j => j <> target) (pre ++ post)).
Proof.
  intros Hq. revert fuel pre Hq. induction post as [|i post IH]; intros fuel pre Hq Hpre Hf.
  { exists t. rewrite app_nil_r in *. split; [by destruct fuel|]. split; [apply relinked_refl|].
    rewrite filter_id; [done|]. by intros j Hj ->. }
  destruct fuel as [|fuel]; simpl in Hf; [lia|].
  destruct (q_next _ _ Hq (length pre) i) as (c & Hc & Hn); [by apply list_lookup_middle|].
  assert (dirty_next c = head post) as Hnext.
  { rewrite Hn, lookup_app_r by lia. replace (S (length pre) - length pre)%nat with 1%nat by lia.
    by destruct post. }
  cbn [unlink_loop head]. rewrite (slot_ok t i c Hc). cbn [mbind exec_bind option_bind]. rewrite Hnext.
  destruct (Nat.eqb_spec i target) as [->|Hne].
  - destruct (bypass_spec t pre target post Hq) as (t' & E & Hr & Hq'). exists t'.
    split; [exact E|]. split; [done|].
    rewrite filter_app, filter_cons_False by tauto. rewrite <- filter_app.
    rewrite filter_id; [done|]. intros j Hj ->.
    pose proof (q_nodup _ _ Hq) as Hnd. apply NoDup_app in Hnd as (_ & _ & [Hnt _]%NoDup_cons).
    apply elem_of_app in Hj as [?|?]; done.
  - destruct (IH fuel (pre ++ [i])) as (t' & E & Hr & Hq').
    + by rewrite <- app_assoc.
    + rewrite elem_of_app, list_elem_of_singleton. intros [?| ->]; done.
    + lia.
    + rewrite last_snoc in E. rewrite <- app_assoc in Hq'. by exists t'.
Qed.

Lemma unlink_dirty_spec t q target :
  base_inv t -> chain t q ->
  exists t', unlink_dirty t target = Done t' /\ relinked t t' /\
    chain t' (filter (fun j => j <> target) q).
Proof.
  intros Hb Hq. unfold unlink_dirty. rewrite (q_head _ _ Hq).
  apply (unlink_loop_spec _ t target [] q); [done|apply not_elem_of_nil|].
  rewrite <- (length_seq (length (cells t)) 0). apply submseteq_length, NoDup_submseteq; [apply Hq|].
  intros j Hj. apply elem_of_seq. destruct (chain_live t q j Hq Hj) as (c & Hc).
  apply cell_at_Some, lookup_lt_Some in Hc. lia.
Qed.

(** ** Removal *)

Lemma relinked_base t t' : base_inv t -> relinked t t' -> base_inv t'.
Proof.
  intros Hb (Ei & Ef & El & Ha & Hn). eapply base_update; [done..|]. intros i c Hc.
  pose proof (Ha i) as E. unfold alike in E. rewrite Hc in E.
  destruct (cell_at t' i) as [c'|]; [|done]. exists c'. split; [done|]. simpl in E.
  destruct c, c'. simpl in E. injection E as -> -> -> -> -> -> ->. split_and!; try done.
  by apply (b_bits _ Hb _ _ Hc).
Qed.

(** A live cell without an entry goes back to the free list. *)
Definition freed (t : table) (i : nat) : table := set_free (put t i None) (free t ++ [i]).

Lemma freed_at t i c j :
  cell_at t i = Some c -> cell_at (freed t i) j = if decide (j = i) then None else cell_at t j.
Proof. intros Hc. apply cell_at_put. by apply cell_at_Some, lookup_lt_Some in Hc. Qed.

Lemma freed_base t i c :
  base_inv t -> cell_at t i = Some c ->
  (forall h e, (h, e) ∈ elements (index t) -> s_cell_index (e_slot e) <> i) -> base_inv (freed t i).
Proof.
  intros Hb Hc Hni. pose proof (fun j => freed_at t i c j Hc) as Hat. pose proof Hc as Hcs%cell_at_Some.
  pose proof (lookup_lt_Some _ _ _ Hcs) as Hlt. split; simpl; try apply Hb.
  - by rewrite length_insert, (b_len _ Hb).
  - apply NoDup_app. split_and!; [apply Hb| |apply NoDup_singleton].
    intros j Hj ->%list_elem_of_singleton. apply (b_free _ Hb) in Hj. congruence.
  - intros j. rewrite elem_of_app, list_elem_of_singleton, (b_free _ Hb).
    destruct (decide (j = i)) as [->|Hj].
    + rewrite list_lookup_insert_eq by done. tauto.
    + rewrite list_lookup_insert_ne by done. tauto.
  - intros j d. rewrite Hat. case_decide; [done|]. apply (b_cell _ Hb).
  - intros h e He. destruct (b_entry _ Hb h e He) as (d & Hd & Hrest). exists d.
    rewrite Hat, decide_False by (by eapply Hni). done.
  - intros j d. rewrite Hat. case_decide; [done|]. apply (b_bits _ Hb).
Qed.

(** The index without the entries of cell [i]. *)
Definition without_cell (t : table) (i : nat) (idx : H) : Prop :=
  NoDup (map (fun x => s_cell_index (e_slot (snd x))) (elements idx)) /\
  forall h e, (h, e) ∈ elements idx <->
    (h, e) ∈ elements (index t) /\ s_cell_index (e_slot e) <> i.

Definition exact_without (s : flows T) (k : FlowKey) (i : nat) : gmap FlowKey nat :=
  if decide (exact s !! k = Some i) then delete k (exact s) else exact s.

Lemma exact_without_spec t q s i c k j :
  implements t q s -> cell_at t i = Some c ->
  exact_without s (c_key c) i !! k = Some j <-> exact s !! k = Some j /\ j <> i.
Proof.
  intros Hi Hc. assert (forall k', exact s !! k' = Some i -> k' = c_key c) as Huniq.
  { intros k' (h & e & He & <- & Es)%(im_exact _ _ _ Hi).
    destruct (b_entry _ (im_base _ _ _ Hi) h e He) as (c' & Hc' & _ & _ & -> & _). congruence. }
  unfold exact_without. case_decide as Hk.
  - destruct (decide (k = c_key c)) as [->|Hne].
    + rewrite lookup_delete_eq, Hk. split; [done|]. intros [[= ->] ?]. done.
    + rewrite lookup_delete_ne by done. split; [|tauto]. intros E. split; [done|]. intros ->.
      by apply Hne, Huniq.
  - split; [|tauto]. intros E. split; [done|]. intros ->. apply Hk. by rewrite <- (Huniq k E).
Qed.

Lemma set_index_base t i idx : base_inv t -> without_cell t i idx -> base_inv (set_index t idx).
Proof.
  intros Hb [Hnd Hel]. split; simpl; try apply Hb; [done| |].
  - intros h e [He _]%Hel. by apply (b_entry _ Hb).
  - intros h e h' e' [He _]%Hel [He' _]%Hel. exact (b_key _ Hb h e h' e' He He').
Qed.

Lemma queue_filter t i q :
  filter (fun x => fst x <> i) (map (work_of t) q) = map (work_of t) (filter (fun j => j <> i) q).
Proof.
  induction q as [|j q IH]; [done|]. simpl map. rewrite !filter_cons, IH.
  destruct (decide (fst (work_of t j) <> i)) as [H1|H1], (decide (j <> i)) as [H2|H2]; done.
Qed.

Lemma remove_cell t q s i c idx :
  implements t q s -> cell_at t i = Some c -> without_cell t i idx ->
  exists t' q', (t1 ← unlink_dirty (set_index t idx) i; release t1 i) = Done (Some (c_value c), t') /\
    implements t' q' (drop_flow s i (exact_without s (c_key c) i)).
Proof.
  intros Hi Hc Hidx. pose proof (set_index_base t i idx (im_base _ _ _ Hi) Hidx) as Hb0.
  assert (chain (set_index t idx) q) as Hq0 by (by destruct (im_chain _ _ _ Hi)).
  destruct (unlink_dirty_spec (set_index t idx) q i Hb0 Hq0) as (t1 & -> & Hr & Hq1).
  cbn [mbind exec_bind]. pose proof (relinked_base _ _ Hb0 Hr) as Hb1. destruct Hr as (Ei & Ef & El & Ha & Hn).
  pose proof (Ha i) as Hai. change (alike t t1 i) in Hai.
  pose proof (alike_fmap c_value t t1 i ltac:(done) Hai) as Hv. rewrite Hc in Hv.
  destruct (cell_at t1 i) as [c1|] eqn:Hc1; [|done]. simpl in Hv. injection Hv as Hv.
  exists (freed t1 i), (filter (fun j => j <> i) q).
  pose proof (fun j => freed_at t1 i c1 j Hc1) as Hat. destruct Hidx as [Hnd Hel].
  split.
  - unfold release. rewrite (slot_ok t1 i c1 Hc1). cbn [mbind exec_bind].
    rewrite set_slot_ok by (by apply cell_at_Some, lookup_lt_Some in Hc1). cbn [mbind exec_bind].
    by rewrite Hv.
  - split; simpl.
    + apply (freed_base t1 i c1); [done|done|]. rewrite Ei. by intros h e [_ ?]%Hel.
    + eapply chain_frame; [exact Hq1|done|done|]. intros j d [Hj _]%list_elem_of_filter Hd.
      exists d. by rewrite Hat, decide_False.
    + intros j d. rewrite Hat. case_decide as Hj; [done|]. intros Hd.
      rewrite list_elem_of_filter, (alike_queued t t1 q j d (Ha j) (im_flag _ _ _ Hi) Hd). tauto.
    + intros j. rewrite Hat. case_decide as Hj; [subst j; by rewrite lookup_delete_eq|].
      rewrite lookup_delete_ne, (im_live _ _ _ Hi) by done. symmetry.
      apply (alike_fmap flow_of t t1 j); [done|exact (Ha j)].
    + intros k j. rewrite (exact_without_spec t q s i c k j Hi Hc), (im_exact _ _ _ Hi). unfold indexed. simpl.
      rewrite Ei. setoid_rewrite Hel. split.
      * intros [(h & e & He & Hk & <-) Hji]. by exists h, e.
      * intros (h & e & [He Hne] & Hk & <-). split; [by exists h, e|done].
    + rewrite (im_queue _ _ _ Hi), queue_filter. symmetry. apply work_frame.
      intros j [Hj _]%list_elem_of_filter. rewrite Hat, decide_False by done.
      apply (alike_fmap dirty_bits t t1 j); [done|exact (Ha j)].
Qed.

(** The entry of a cell leaves the index. *)
Lemma removed_entry t idx p h e :
  base_inv t -> ht_remove_entry h p (index t) = Some (e, idx) ->
  without_cell t (s_cell_index (e_slot e)) idx /\ p e = true /\ exists h', (h', e) ∈ elements (index t).
Proof.
  intros Hb (Hp & h' & Hperm)%(ht_remove_some (elements := elements)). pose proof (b_entry_nodup _ Hb) as Hnd.
  rewrite Hperm in Hnd. simpl in Hnd. apply NoDup_cons in Hnd as [Hni Hnd].
  split_and!; [|done|exists h'; rewrite Hperm; by left]. split; [done|]. intros x y.
  rewrite Hperm, elem_of_cons. split.
  - intros Hxy. split; [by right|]. intros E. apply Hni. rewrite <- E.
    apply list_elem_of_fmap. by exists (x, y).
  - intros [[[= -> ->]|?] Hne]; done.
Qed.

Lemma remove_spec t q s k :
  implements t q s ->
  exists r t' q' s', remove t k (hf k) = Done (r, t') /\ implements t' q' s' /\
    spec_op s (OpRemove k) (RRemove r) s'.
Proof.
  intros Hi. unfold remove, spec_op.
  destruct (ht_remove_entry (hf k) (fun entry => bool_decide (e_key entry = k)) (index t))
    as [[e idx]|] eqn:Hr.
  - destruct (removed_entry t idx _ _ e (im_base _ _ _ Hi) Hr) as (Hidx & Hk%bool_decide_eq_true & h & He).
    assert (exact s !! k = Some (s_cell_index (e_slot e))) as Hex by (apply (im_exact _ _ _ Hi); by exists h, e).
    destruct (b_entry _ (im_base _ _ _ Hi) h e He) as (c & Hc & _ & _ & Hkey & _). rewrite Hex.
    destruct (remove_cell t q s _ c idx Hi Hc Hidx) as (t' & q' & E & Hi').
    eexists _, t', q', _. split; [exact E|]. split; [exact Hi'|].
    rewrite (im_live _ _ _ Hi), Hc. split_and!; [done|by eexists|].
    unfold exact_without. rewrite <- Hkey, Hk, decide_True by done. done.
  - assert (exact s !! k = None) as ->; [|by exists None, t, q, s].
    destruct (exact s !! k) as [i|] eqn:E; [|done]. apply (im_exact _ _ _ Hi) in E as (h & e & He & Hk & _).
    destruct (b_entry _ (im_base _ _ _ Hi) h e He) as (c & Hc & _ & _ & Hkey & ->).
    destruct (b_cell _ (im_base _ _ _ Hi) _ _ Hc) as [_ Hh]. rewrite Hh, <- Hkey, Hk in He.
    pose proof (ht_remove_none (elements := elements) _ _ _ e Hr He) as Hp.
    by apply bool_decide_eq_false in Hp.
Qed.

Lemma remove_id_spec t q s id :
  implements t q s ->
  exists r t' q' s', remove_id t id = Done (r, t') /\ implements t' q' s' /\
    spec_op s (OpRemoveId id) (RRemove r) s'.
Proof.
  intros Hi. unfold remove_id, spec_op. pose proof (cell_index_spec t q s id Hi) as Hx.
  destruct (lookup_id s id) as [[i [k v]]|]; [|by rewrite Hx; exists None, t, q, s].
  destruct Hx as (-> & -> & c & Hc & [= -> ->]). rewrite (slot_ok t i c Hc). cbn [mbind exec_bind].
  pose proof (im_base _ _ _ Hi) as Hb. destruct (b_cell _ Hb i c Hc) as [Hid Hh].
  set (p := fun entry : FlowEntry => bool_decide (e_key entry = c_key c) && (s_id (e_slot entry) =? id_of i)).
  set (t1 := match ht_remove_entry (c_hash c) p (index t) with
             | Some (_, rest) => set_index t rest
             | None => t
             end).
  assert (exists idx, t1 = set_index t idx /\ without_cell t i idx) as (idx & -> & Hidx).
  { unfold t1. destruct (ht_remove_entry (c_hash c) p (index t)) as [[e idx]|] eqn:Hr.
    - exists idx. split; [done|]. destruct (removed_entry t idx _ _ e Hb Hr) as (Hidx & Hp & h & He).
      apply andb_prop in Hp as [_ Hp%Z.eqb_eq]. destruct (b_entry _ Hb h e He) as (d & Hd & Hsid & _).
      destruct (b_cell _ Hb _ _ Hd) as [Hdid _]. rewrite Hsid, Hdid in Hp. unfold id_of in Hp.
      by assert (s_cell_index (e_slot e) = i) as <- by lia.
    - exists (index t). split; [by destruct t|]. split; [apply Hb|]. intros h e. split; [|tauto].
      intros He. split; [done|]. intros Es. destruct (b_entry _ Hb h e He) as (d & Hd & Hsid & _ & Hkey & ->).
      rewrite Es, Hc in Hd. injection Hd as <-.
      pose proof (ht_remove_none (elements := elements) _ _ _ e Hr He) as Hp. unfold p in Hp.
      rewrite Hkey, Hsid, Hid, Z.eqb_refl, bool_decide_eq_true_2 in Hp by done. done. }
  destruct (remove_cell t q s i c idx Hi Hc Hidx) as (t' & q' & E & Hi').
  eexists _, t', q', _. split; [exact E|]. split; [exact Hi'|done].
Qed.

End proofs.

#[local] Opaque MAX_FLOWS.

Section runs.
Context {T H : Type} `{!HashTable H FlowEntry} (hf : FlowKey -> Z).

Definition apply_op (t : FlowTable T H) (op : flow_op T) : exec (flow_reply T * FlowTable T H) :=
  match op with
  | OpInsert k v => '(r, t) ← insert_prehashed t k (hf k) v; Done (RInsert r, t)
  | OpInsertUnindexed k v => '(r, t) ← insert_unindexed t k (hf k) v; Done (RInsert r, t)
  | OpFind k => r ← find t k (hf k); Done (RFind r, t)
  | OpGet id =>
      k ← key t id;
      v ← get t id;
      Done (RGet (match k, v with Some k, Some v => Some (k, v) | _, _ => None end), t)
  | OpSet id v => '(r, t) ← get_mut t id v; Done (RFlag r, t)
  | OpRemove k => '(r, t) ← remove t k (hf k); Done (RRemove r, t)
  | OpRemoveId id => '(r, t) ← remove_id t id; Done (RRemove r, t)
  | OpMark id bits => '(r, t) ← mark_dirty t id bits; Done (RFlag r, t)
  | OpPop => '(r, t) ← pop_dirty t; Done (RPop r, t)
  end.

Fixpoint run_ops (t : FlowTable T H) (ops : list (flow_op T)) : exec (list (flow_reply T) * FlowTable T H) :=
  match ops with
  | [] => Done ([], t)
  | op :: ops => '(r, t) ← apply_op t op; '(rs, t) ← run_ops t ops; Done (r :: rs, t)
  end.

Context (elements : H -> list (Z * FlowEntry)) `{!HashTableLaws H FlowEntry elements}.

Lemma flow_new_implements : implements elements hf (new (T := T)) [] (mk_flows ∅ ∅ []).
Proof.
  assert (forall i, cell_at (new (T := T)) i = None) as Hnone.
  { intros i. unfold cell_at, new. cbn [cells]. destruct (replicate MAX_FLOWS None !! i) as [x|] eqn:E; [|done].
    by apply lookup_replicate in E as [-> _]. }
  split.
  - split; unfold new; cbn [cells free index].
    + apply length_replicate.
    + rewrite <- (Permutation_rev (seq 0 MAX_FLOWS)). apply NoDup_seq.
    + intros i. rewrite <- (Permutation_rev (seq 0 MAX_FLOWS)), elem_of_seq, lookup_replicate.
      split; [intros; split; [done|lia]|intros [_ ?]; lia].
    + intros i c. by rewrite Hnone.
    + rewrite (ht_elements_empty (elements := elements)). constructor.
    + intros h e. rewrite (ht_elements_empty (elements := elements)). by intros ?%not_elem_of_nil.
    + intros h e h' e'. rewrite (ht_elements_empty (elements := elements)). by intros ?%not_elem_of_nil.
    + intros i c. by rewrite Hnone.
  - split; [constructor|done|done|]. intros k i Hk. by rewrite lookup_nil in Hk.
  - intros i c. by rewrite Hnone.
  - intros i. cbn [live]. by rewrite Hnone, lookup_empty.
  - intros k i. cbn [exact]. rewrite lookup_empty. split; [done|]. intros (h & e & He & _).
    unfold new in He. cbn [index] in He. rewrite (ht_elements_empty (elements := elements)) in He.
    by apply not_elem_of_nil in He.
  - done.
Qed.

Lemma apply_op_spec t q s op :
  implements elements hf t q s ->
  exists r t' q' s', apply_op t op = Done (r, t') /\ implements elements hf t' q' s' /\ spec_op s op r s'.
Proof.
  intros Hi. destruct op as [k v|k v|k|id|id v|k|id|id bits|]; unfold apply_op.
  - destruct (insert_prehashed_spec elements hf t q s k v Hi) as (r & t' & s' & -> & H1 & H2).
    by eexists _, _, q, _.
  - destruct (insert_unindexed_spec elements hf t q s k v Hi) as (r & t' & s' & -> & H1 & H2).
    by eexists _, _, q, _.
  - rewrite (find_spec elements hf t q s k Hi). by eexists _, t, q, s.
  - unfold key, get. destruct (cell_spec elements hf t q s id Hi) as (c & -> & Hc).
    eexists _, t, q, s. split; [done|]. split; [done|]. split; [|done]. rewrite <- Hc. by destruct c.
  - destruct (set_spec elements hf t q s id v Hi) as (r & t' & s' & -> & H1 & H2). by eexists _, _, q, _.
  - destruct (remove_spec elements hf t q s k Hi) as (r & t' & q' & s' & -> & H1 & H2). by eexists _, _, _, _.
  - destruct (remove_id_spec elements hf t q s id Hi) as (r & t' & q' & s' & -> & H1 & H2). by eexists _, _, _, _.
  - destruct (mark_spec elements hf t q s id bits Hi) as (r & t' & q' & s' & -> & H1 & H2). by eexists _, _, _, _.
  - destruct (pop_dirty_spec elements hf t q s Hi) as (r & t' & q' & s' & -> & H1 & H2). by eexists _, _, _, _.
Qed.

Lemma run_ops_spec t q s ops :
  implements elements hf t q s ->
  exists rs t' q' s', run_ops t ops = Done (rs, t') /\ implements elements hf t' q' s' /\
    spec_trace s ops rs s'.
Proof.
  revert t q s. induction ops as [|op ops IH]; intros t q s Hi.
  { exists [], t, q, s. split_and!; [done|done|constructor]. }
  destruct (apply_op_spec t q s op Hi) as (r & t1 & q1 & s1 & E1 & Hi1 & H1).
  destruct (IH t1 q1 s1 Hi1) as (rs & t2 & q2 & s2 & E2 & Hi2 & H2).
  exists (r :: rs), t2, q2, s2. split_and!; [|done|by econstructor].
  cbn [run_ops]. rewrite E1. cbn [mbind exec_bind]. by rewrite E2.
Qed.

Lemma len_size (t : FlowTable T H) q (s : flows T) : implements elements hf t q s -> len t = Z.of_nat (size (live s)).
Proof.
  intros Hi. pose proof (im_base _ _ _ _ _ Hi) as Hb. unfold len.
  assert (size (live s) + length (free t) = MAX_FLOWS)%nat; [|lia].
  assert (dom (live s) ∪ list_to_set (free t) = list_to_set (C := gset nat) (seq 0 MAX_FLOWS)) as Hset.
  { apply set_eq. intros i. rewrite elem_of_union, elem_of_dom, !elem_of_list_to_set, elem_of_seq.
    rewrite (im_live _ _ _ _ _ Hi), (b_free _ _ _ Hb).
    unfold cell_at. destruct (cells t !! i) as [[c|]|] eqn:E; simpl.
    + apply lookup_lt_Some in E. rewrite (b_len _ _ _ Hb) in E. split; [lia|]. left. by eexists.
    + apply lookup_lt_Some in E. rewrite (b_len _ _ _ Hb) in E. split; [lia|]. by right.
    + apply lookup_ge_None in E. rewrite (b_len _ _ _ Hb) in E. split; [|lia]. intros [[? ?]|?]; done. }
  rewrite <- (length_seq MAX_FLOWS 0), <- (size_list_to_set (C := gset nat) (seq 0 MAX_FLOWS)), <- Hset
    by apply NoDup_seq.
  rewrite size_union.
  - rewrite size_dom, size_list_to_set; [done|apply Hb].
  - intros i. rewrite elem_of_dom, elem_of_list_to_set, (im_live _ _ _ _ _ Hi), (b_free _ _ _ Hb).
    unfold cell_at. intros [x Hx] E. by rewrite E in Hx.
Qed.

End runs.

(** ** A hash table *)

(** An association list, newest entry first. *)
Definition assoc : Type := list (Z * FlowEntry).

Fixpoint assoc_remove (h : Z) (p : FlowEntry -> bool) (t : assoc) : option (FlowEntry * assoc) :=
  match t with
  | [] => None
  | (h', e) :: t =>
      if (h' =? h) && p e then Some (e, t)
      else '(e', t') ← assoc_remove h p t; Some (e', (h', e) :: t')
  end.

#[global] Instance assoc_table : HashTable assoc FlowEntry := {
  ht_with_capacity := [];
  ht_find h p t := fst <$> assoc_remove h p t;
  ht_insert_unique h e t := (h, e) :: t;
  ht_remove_entry := assoc_remove;
}.

Lemma assoc_remove_spec h p t :
  match assoc_remove h p t with
  | Some (e, t') => p e = true /\ exists h', t ≡ₚ (h', e) :: t'
  | None => forall e, (h, e) ∈ t -> p e = false
  end.
Proof.
  induction t as [|[h' e] t IH]; simpl; [by intros e ?%not_elem_of_nil|].
  destruct (Z.eqb_spec h' h) as [->|Hne]; simpl.
  - destruct (p e) eqn:Hp; [split; [done|by exists h]|].
    destruct (assoc_remove h p t) as [[e' t']|]; simpl.
    + destruct IH as [Hp' (h1 & Ht)]. split; [done|]. exists h1. rewrite Ht. apply Permutation_swap.
    + intros e' [[= ->]|He']%elem_of_cons; [done|by apply IH].
  - destruct (assoc_remove h p t) as [[e' t']|]; simpl.
    + destruct IH as [Hp' (h1 & Ht)]. split; [done|]. exists h1. rewrite Ht. apply Permutation_swap.
    + intros e' [[= -> ->]|He']%elem_of_cons; [done|by apply IH].
Qed.

#[global] Instance assoc_laws : HashTableLaws assoc FlowEntry (fun t => t).
Proof.
  split; simpl; [done|done| | | |].
  - intros h p t e. pose proof (assoc_remove_spec h p t) as Hs. destruct (assoc_remove h p t) as [[e' t']|]; [|done].
    simpl. intros [= ->]. destruct Hs as [Hp (h' & Ht)]. split; [done|]. exists h'. rewrite Ht. by left.
  - intros h p t e. pose proof (assoc_remove_spec h p t) as Hs. destruct (assoc_remove h p t) as [[e' t']|]; [done|].
    intros _. apply Hs.
  - intros h p t e t' E. pose proof (assoc_remove_spec h p t) as Hs. by rewrite E in Hs.
  - intros h p t e E. pose proof (assoc_remove_spec h p t) as Hs. rewrite E in Hs. apply Hs.
Qed.

(** ** Properties *)

(** C31. Every sequence of operations on a new table runs without a panic and
    follows the contract, for any hash table that keeps its documented promises
    and any hash function of the callers: a key is indexed for at most one
    flow and found as long as the flow is there; an identifier names its flow
    until it is removed; work is reported in the order the flows were first
    marked, each flow once with all its bits, and never for a removed flow;
    and [len] counts the flows. *)
Theorem flow_table_refines {T H} `{!HashTable H FlowEntry} (elements : H -> list (Z * FlowEntry))
  (hf : FlowKey -> Z) (ops : list (flow_op T)) :
  HashTableLaws H FlowEntry elements ->
  exists rs (t : FlowTable T H) s,
    run_ops hf new ops = Done (rs, t) /\ spec_trace (mk_flows ∅ ∅ []) ops rs s /\
    len t = Z.of_nat (size (live s)) /\
    (forall k, find t k (hf k) = Done (id_of <$> exact s !! k)).
Proof.
  intros Hl. pose proof (flow_new_implements (T := T) hf elements) as H0.
  destruct (run_ops_spec hf elements _ _ _ ops H0) as (rs & t & q & s & E & Hi & Ht).
  exists rs, t, s. split_and!; [done|done|by eapply len_size|]. intros k. by eapply find_spec.
Qed.

Definition ex_flow2 : FlowKey :=
  FlowKey.mk (mk_endpoint (IpV4 (V4.new 10 0 2 2)) 1000) (mk_endpoint (IpV4 (V4.new 10 0 2 15)) 9000) Udp.

Definition ex_ops : list (flow_op Z) :=
  [OpInsert ex_flow 10; OpInsert ex_flow2 20; OpInsert ex_flow 30; OpFind ex_flow2;
   OpMark 2 DIRTY_INGRESS; OpMark 1 DIRTY_TX; OpMark 2 DIRTY_TIMER; OpRemove ex_flow; OpGet 1;
   OpPop; OpPop; OpInsertUnindexed ex_flow2 40; OpGet 1].

Lemma flow_table_refines_witness :
  match run_ops (H := assoc) (fun _ => 7) new ex_ops with
  | Done (rs, _) => rs = [RInsert (Ok 1); RInsert (Ok 2); RInsert (Err Duplicate); RFind (Some 2);
                          RFlag true; RFlag true; RFlag false; RRemove (Some 10); RGet None;
                          RPop (Some (2, 9)); RPop None; RInsert (Ok 1); RGet (Some (ex_flow2, 40))]
  | Panic => False
  end /\
  exists rs (t : FlowTable Z assoc) s,
    run_ops (fun _ => 7) new ex_ops = Done (rs, t) /\ spec_trace (mk_flows ∅ ∅ []) ex_ops rs s /\
    len t = Z.of_nat (size (live s)) /\
    (forall k, find t k 7 = Done (id_of <$> exact s !! k)).
Proof.
  split; [by vm_compute|].
  apply (flow_table_refines (fun t => t) (fun _ => 7) ex_ops). apply assoc_laws.
Defined.
