(* ===== verification/Packet.v ===== *)
(** * Packets and the Internet checksum

    The model of the packet chain of [libs/net/src/buf/packet.rs], of the
    metadata of [libs/net/src/buf/mod.rs] and of the parsed IP header of
    [libs/net/src/pipeline/mod.rs].  A fragment is what its readers observe of
    it: its length and the answer of [as_slice]; where its bytes live (a pool
    lease, a shared chunk or the heap) is not modelled.

    The checksum is [InternetChecksum] and [checksum_bytes] of
    [libs/net/src/pipeline/mod.rs]: a sum of big-endian words that may be fed in
    pieces of any length, eight bytes at a time where it can. *)

From S2P Require Import Prelude NetTypes.

Inductive DropReason : Type :=
| NoReason | NoConsumer | MalformedDescriptor | LoopbackRingFull | DeviceGone | TruncatedFrame
| UnsupportedEthernet | VlanUnsupported | MalformedArp | NotLocal | MalformedIpv4 | Ipv4Checksum
| MalformedIpv6 | Ipv6ExtensionLimit | UnsupportedIpProtocol | MalformedUdp | UdpChecksum
| UdpNoEndpoint | UdpRingFull | FlowTableFull | RouteUnavailable | TxQueueFull | IngressRingFull
| MalformedTcp | TcpChecksum | TcpNoEndpoint | TcpRingFull | FragmentMalformed | FragmentOverlap
| FragmentLimit | FragmentTimeout | RawNoEndpoint | RawRingFull.

Inductive RxPoolPressure : Type := Unmanaged | Normal | Low | Emergency.

Record UdpSegmentation : Type := mk_segmentation {
  segment_count : Z;
  seg_header_len : Z;
  seg_payload_len : Z
}.

Inductive PacketLayout : Type := Plain | UdpSegments (s : UdpSegmentation).

Record PacketMetadata : Type := mk_metadata {
  ingress_device : Z;
  queue_pair : Z;
  rx_timestamp_ns : Z;
  meta_rss_hash : option Z;
  rss_generation : Z;
  frame_len : Z;
  checksums_validated : bool;
  rx_pool_pressure : RxPoolPressure;
  layout : PacketLayout;
  drop_reason : DropReason
}.

Definition metadata_default : PacketMetadata :=
  mk_metadata 0 0 0 None 0 0 false Unmanaged Plain NoReason.

(** The assignments to [frame_len] and [rss_hash]. *)
Definition with_frame_len (x : Z) (m : PacketMetadata) : PacketMetadata :=
  mk_metadata (ingress_device m) (queue_pair m) (rx_timestamp_ns m) (meta_rss_hash m)
    (rss_generation m) x (checksums_validated m) (rx_pool_pressure m) (layout m) (drop_reason m).
Definition with_rss_hash (x : option Z) (m : PacketMetadata) : PacketMetadata :=
  mk_metadata (ingress_device m) (queue_pair m) (rx_timestamp_ns m) x
    (rss_generation m) (frame_len m) (checksums_validated m) (rx_pool_pressure m) (layout m)
    (drop_reason m).

Record IpFragment : Type := mk_fragment { identification : Z; frag_offset : Z; more : bool }.

Record IpPacket : Type := mk_ip {
  source : IpAddr;
  destination : IpAddr;
  next_header : Z;
  header_len : Z;
  payload_offset : Z;
  payload_len : Z;
  hop_limit : Z;
  traffic_class : Z;
  fragment : option IpFragment
}.

Definition PACKET_FRAGMENT_CAPACITY : nat := 18.

(** [as_slice] is [None] where the pool reports an error. *)
Record PacketFragment : Type := mk_packet_fragment { fragment_len : Z; as_slice : option (list Z) }.

(** [PacketFragment::Owned]. *)
Definition Owned (bytes : list Z) : PacketFragment :=
  mk_packet_fragment (Z.of_nat (length bytes)) (Some bytes).

Module PacketChain.

(** The occupied slots and the cached total. *)
Record PacketChain : Type := mk { fragments : list PacketFragment; total_len : Z }.

Definition new : PacketChain := mk [] 0.

(** [push]; a refused fragment goes back to the caller. *)
Definition push (c : PacketChain) (f : PacketFragment) : result PacketChain PacketFragment :=
  if (length (fragments c) =? PACKET_FRAGMENT_CAPACITY)%nat then Err f
  else
    let total := total_len c + fragment_len f mod 2 ^ 32 in
    if U32_MAX <? total then Err f else Ok (mk (fragments c ++ [f]) total).

Definition from_owned (bytes : list Z) : exec PacketChain :=
  match push new (Owned bytes) with Ok c => Done c | Err _ => Panic end.

(** The loop of [copy_out] from [packet_offset] on; [written] is what is in the
    output already. *)
Fixpoint copy_loop (fs : list PacketFragment) (offset end_ packet_offset : Z) (n : nat)
    (written : list Z) : option (list Z) :=
  match fs with
  | [] => None
  | f :: fs =>
      bytes ← as_slice f;
      let fragment_end := packet_offset + Z.of_nat (length bytes) in
      let written :=
        if (offset <? fragment_end) && (packet_offset <? end_) then
          let start := saturating_sub offset packet_offset in
          let stop := Z.min (Z.of_nat (length bytes)) (end_ - packet_offset) in
          written ++ take (Z.to_nat (stop - start)) (drop (Z.to_nat start) bytes)
        else written in
      if (length written =? n)%nat then Some written
      else copy_loop fs offset end_ fragment_end n written
  end.

(** [copy_out] into a buffer of [n] bytes. *)
Definition copy_out (c : PacketChain) (offset : Z) (n : nat) : option (list Z) :=
  end_ ← checked_add offset (Z.of_nat n);
  if total_len c <? end_ then None
  else if (n =? 0)%nat then Some []
  else copy_loop (fragments c) offset end_ 0 n [].

(** A chain whose fragments can be read, and its bytes. *)
Definition holds (c : PacketChain) (bytes : list Z) : Prop :=
  exists parts, fragments c = map Owned parts /\ bytes = concat parts /\
    total_len c = Z.of_nat (length bytes) /\ Z.of_nat (length bytes) <= U32_MAX.

End PacketChain.

Record FrontendPacket : Type := mk_packet {
  chain : PacketChain.PacketChain;
  metadata : PacketMetadata;
  ip : option IpPacket
}.

(** ** Reading a chain *)

Import PacketChain.

(** What lies between two offsets. *)
Definition slice (offset n : nat) (l : list Z) : list Z := take n (drop offset l).

Lemma slice_app offset n l l' :
  slice offset n (l ++ l') = slice offset n l ++ slice (offset - length l) (n - (length l - offset)) l'.
Proof. unfold slice. by rewrite drop_app, take_app, length_drop. Qed.

Lemma length_slice offset n l : length (slice offset n l) = (n `min` (length l - offset))%nat.
Proof. unfold slice. by rewrite length_take, length_drop. Qed.

Lemma copy_loop_spec parts (offset n : nat) (pre : list Z) :
  (0 < n)%nat -> (offset + n <= length pre + length (concat parts))%nat ->
  (length pre < offset + n)%nat ->
  copy_loop (map Owned parts) (Z.of_nat offset) (Z.of_nat (offset + n)) (Z.of_nat (length pre)) n
    (slice offset n pre) = Some (slice offset n (pre ++ concat parts)).
Proof.
  revert pre. induction parts as [|bytes parts IH]; intros pre Hn Hend Hpre.
  { simpl in Hend. lia. }
  cbn [map copy_loop as_slice Owned mbind option_bind].
  match goal with |- context [if ?c then ?a else _] => assert
    ((if c then a else slice offset n pre) = slice offset n (pre ++ bytes)) as -> end.
  { rewrite slice_app. destruct (decide (offset < length pre + length bytes)%nat).
    - rewrite (proj2 (Z.ltb_lt _ _)), (proj2 (Z.ltb_lt _ _)) by lia. cbn [andb]. f_equal.
      unfold slice, saturating_sub.
      replace (Z.to_nat (Z.max 0 (Z.of_nat offset - Z.of_nat (length pre))))
        with (offset - length pre)%nat by lia.
      destruct (decide (length bytes <= n - (length pre - offset) + (offset - length pre))%nat).
      + rewrite !take_ge; [done|rewrite length_drop; lia..].
      + f_equal. lia.
    - rewrite (proj2 (Z.ltb_ge _ _)) by lia. cbn [andb]. unfold slice at 3.
      rewrite (drop_ge bytes) by lia. by rewrite take_nil, app_nil_r. }
  rewrite length_slice, length_app. cbn [concat] in Hend |- *. rewrite length_app in Hend.
  rewrite app_assoc. destruct (Nat.eqb_spec (n `min` (length pre + length bytes - offset)) n).
  - f_equal. rewrite (slice_app _ _ (pre ++ bytes)), length_app.
    replace (n - _)%nat with 0%nat by lia. unfold slice at 3. by rewrite take_0, app_nil_r.
  - replace (Z.of_nat (length pre) + Z.of_nat (length bytes)) with (Z.of_nat (length (pre ++ bytes)))
      by (rewrite length_app; lia).
    apply IH; rewrite ?length_app; lia.
Qed.

(** [copy_out] reads the bytes of a chain, and fails exactly beyond its end. *)
Lemma copy_out_spec c bytes (offset n : nat) :
  holds c bytes ->
  copy_out c (Z.of_nat offset) n
    = if (offset + n <=? length bytes)%nat then Some (slice offset n bytes) else None.
Proof.
  intros (parts & Hp & -> & Ht & Hb). unfold copy_out, checked_add. unfold U32_MAX, U64_MAX in *.
  destruct (Nat.leb_spec (offset + n) (length (concat parts))).
  - rewrite (proj2 (Z.leb_le _ _)) by lia. cbn [mbind option_bind]. rewrite Ht.
    rewrite (proj2 (Z.ltb_ge _ _)) by lia. destruct (Nat.eqb_spec n 0) as [->|]; [done|].
    rewrite Hp. replace (Z.of_nat offset + Z.of_nat n) with (Z.of_nat (offset + n)) by lia.
    pose proof (copy_loop_spec parts offset n [] ltac:(lia) ltac:(simpl; lia) ltac:(simpl; lia)) as E.
    replace (slice offset n []) with (@nil Z) in E; [exact E|]. unfold slice. by rewrite drop_nil, take_nil.
  - destruct (_ <=? _); [|done]. cbn [mbind option_bind]. rewrite Ht.
    by rewrite (proj2 (Z.ltb_lt _ _)) by lia.
Qed.

Lemma from_owned_holds bytes :
  Z.of_nat (length bytes) <= U32_MAX -> exists c, from_owned bytes = Done c /\ holds c bytes.
Proof.
  intros Hb. unfold from_owned, push. cbn [fragments new length Nat.eqb PACKET_FRAGMENT_CAPACITY].
  unfold U32_MAX in *. cbn [total_len new fragment_len Owned app].
  rewrite Z.mod_small by lia. rewrite (proj2 (Z.ltb_ge _ _)) by lia. eexists. split; [done|].
  exists [bytes]. simpl. rewrite app_nil_r. unfold U32_MAX. split_and!; try done; lia.
Qed.

(** [u16::from_be_bytes(\[high, low\])]. *)
Definition word (high low : Z) : Z := high * 256 + low.

Module InternetChecksum.

Record InternetChecksum : Type := mk { sum : Z; odd : option Z }.

Definition new : InternetChecksum := mk 0 None.

(** The loop over [chunks_exact(8)]: the sum and the remainder. *)
Fixpoint add_wide (s : Z) (bytes : list Z) : Z * list Z :=
  match bytes with
  | b0 :: b1 :: b2 :: b3 :: b4 :: b5 :: b6 :: b7 :: rest =>
      add_wide (s + (word b0 b1 + word b2 b3 + word b4 b5 + word b6 b7)) rest
  | _ => (s, bytes)
  end.

(** The loop over [chunks_exact(2)]. *)
Fixpoint add_words (s : Z) (bytes : list Z) : Z * list Z :=
  match bytes with
  | b0 :: b1 :: rest => add_words (s + word b0 b1) rest
  | _ => (s, bytes)
  end.

Definition add (c : InternetChecksum) (bytes : list Z) : InternetChecksum :=
  match odd c, bytes with
  | Some high, [] => c
  | _, _ =>
      let '(s, bytes) :=
        match odd c, bytes with
        | Some high, low :: rest => (sum c + word high low, rest)
        | _, _ => (sum c, bytes)
        end in
      let '(s, bytes) := add_wide s bytes in
      let '(s, bytes) := add_words s bytes in
      mk s (head bytes)
  end.

(** The folding loop of [finish]; a 64-bit sum is folded within five rounds. *)
Fixpoint fold_loop (fuel : nat) (s : Z) : exec Z :=
  if negb (Z.shiftr s 16 =? 0) then
    match fuel with
    | O => Panic
    | S fuel => fold_loop fuel (Z.land s 65535 + Z.shiftr s 16)
    end
  else Done s.

(** [!(self.sum as u16)]. *)
Definition finish (c : InternetChecksum) : exec Z :=
  let s := match odd c with Some high => sum c + word high 0 | None => sum c end in
  s ← fold_loop 5 s;
  Done (65535 - s mod 65536).

End InternetChecksum.
Import InternetChecksum.

Definition checksum_bytes (bytes : list Z) : exec Z := finish (add new bytes).

(** ** The reference *)

(** The sum of the big-endian words of a string, the last byte padded. *)
Fixpoint word_sum (bytes : list Z) : Z :=
  match bytes with
  | b0 :: b1 :: rest => word b0 b1 + word_sum rest
  | [b0] => word b0 0
  | [] => 0
  end.

(** The one's complement sum: the value modulo 65535, with 65535 for the
    non-zero multiples. *)
Definition ones_complement (s : Z) : Z :=
  if s =? 0 then 0 else 1 + (s - 1) mod 65535.

(** ** Proofs *)

(** Induction two bytes at a time. *)
Lemma pair_ind (P : list Z -> Prop) :
  P [] -> (forall b, P [b]) -> (forall b0 b1 l, P l -> P (b0 :: b1 :: l)) -> forall l, P l.
Proof.
  intros H0 H1 H2 l. cut (P l /\ forall b, P (b :: l)); [by intros [? _]|].
  induction l as [|b l [IH IH']]; split; auto.
Qed.

Lemma word_sum_app l l' : Nat.Even (length l) -> word_sum (l ++ l') = word_sum l + word_sum l'.
Proof.
  induction l as [|b|b0 b1 l IH] using pair_ind; intros He; simpl; [done|by destruct He; simpl in *; lia|].
  rewrite IH; [lia|]. destruct He as [k He]. exists (k - 1)%nat. simpl in He. lia.
Qed.

(** A loop leaves a remainder and has added an even number of bytes. *)
Definition added (s : Z) (bytes : list Z) (r : Z * list Z) : Prop :=
  exists l, bytes = l ++ snd r /\ Nat.Even (length l) /\ fst r = s + word_sum l.

Lemma add_wide_spec s bytes : added s bytes (add_wide s bytes).
Proof.
  remember (length bytes) as n eqn:Hn. revert s bytes Hn.
  induction (lt_wf n) as [n _ IH]. intros s bytes ->.
  do 8 (destruct bytes as [|? bytes]; [exists []; simpl; split_and!; [done|by exists 0%nat|lia]|]).
  destruct (IH (length bytes) ltac:(simpl; lia) (s + (word z z0 + word z1 z2 + word z3 z4 + word z5 z6))
    bytes eq_refl) as (l & Hl & He & Hs).
  exists (z :: z0 :: z1 :: z2 :: z3 :: z4 :: z5 :: z6 :: l). split_and!.
  - simpl. by rewrite <- Hl.
  - destruct He as [k Hk]. exists (4 + k)%nat. simpl. lia.
  - simpl. rewrite Hs. lia.
Qed.

Lemma add_words_spec s bytes :
  added s bytes (add_words s bytes) /\ (length (snd (add_words s bytes)) <= 1)%nat.
Proof.
  revert s. induction bytes as [|b|b0 b1 bytes IH] using pair_ind; intros s; simpl.
  - split; [|lia]. exists []. simpl. split_and!; [done|by exists 0%nat|lia].
  - split; [|lia]. exists []. simpl. split_and!; [done|by exists 0%nat|lia].
  - destruct (IH (s + word b0 b1)) as [(l & Hl & He & Hs) Hr]. split; [|done].
    exists (b0 :: b1 :: l). split_and!.
    + simpl. by rewrite <- Hl.
    + destruct He as [k Hk]. exists (S k). simpl. lia.
    + simpl. rewrite Hs. lia.
Qed.

(** What a checksum in progress has seen. *)
Definition represents (c : InternetChecksum) (l : list Z) : Prop :=
  match odd c with
  | None => Nat.Even (length l) /\ sum c = word_sum l
  | Some b => exists l', l = l' ++ [b] /\ Nat.Even (length l') /\ sum c = word_sum l'
  end.

Lemma add_even s l bytes :
  Nat.Even (length l) -> s = word_sum l ->
  represents (let '(s, bytes) := add_wide s bytes in
              let '(s, bytes) := add_words s bytes in mk s (head bytes)) (l ++ bytes).
Proof.
  intros Hl ->. destruct (add_wide_spec (word_sum l) bytes) as (l1 & H1 & He1 & Hs1).
  destruct (add_wide (word_sum l) bytes) as [s1 r1]. simpl in H1, Hs1.
  destruct (add_words_spec s1 r1) as [(l2 & H2 & He2 & Hs2) Hr].
  destruct (add_words s1 r1) as [s2 r2]. simpl in H2, Hs2, Hr.
  assert (Nat.Even (length (l ++ l1 ++ l2))) as He.
  { destruct Hl as [a Ha], He1 as [b Hb], He2 as [c Hc]. exists (a + b + c)%nat. rewrite !length_app. lia. }
  assert (s2 = word_sum (l ++ l1 ++ l2)) as Hs by (rewrite !word_sum_app by done; lia).
  rewrite H1, H2. unfold represents. simpl. destruct r2 as [|b r2]; simpl.
  - by rewrite app_nil_r.
  - destruct r2; [|simpl in Hr; lia]. exists (l ++ l1 ++ l2). by rewrite <- !app_assoc.
Qed.

Lemma add_represents c l bytes : represents c l -> represents (add c bytes) (l ++ bytes).
Proof.
  unfold represents at 1, add. destruct (odd c) as [b|] eqn:Eo.
  - intros (l' & -> & He & Hs). destruct bytes as [|low bytes].
    + rewrite app_nil_r. unfold represents. rewrite Eo. by exists l'.
    + replace ((l' ++ [b]) ++ low :: bytes) with ((l' ++ [b; low]) ++ bytes) by (by rewrite <- !app_assoc).
      apply add_even.
      * destruct He as [k Hk]. exists (S k). rewrite length_app. simpl. lia.
      * rewrite word_sum_app by done. simpl. lia.
  - intros [He Hs]. by apply add_even.
Qed.

(** A sum of words, read as bytes. *)
Definition bytes_ok (l : list Z) : Prop := Forall (fun b => 0 <= b < 256) l.

Lemma word_sum_bound l :
  bytes_ok l -> 0 <= word_sum l /\ 2 * word_sum l <= 65535 * (Z.of_nat (length l) + 1).
Proof.
  unfold bytes_ok. induction l as [|b|b0 b1 l IH] using pair_ind; intros Hb; simpl; [lia| |].
  - apply Forall_cons in Hb as [? _]. unfold word. lia.
  - apply Forall_cons in Hb as [? [? Hb]%Forall_cons]. specialize (IH Hb). unfold word. lia.
Qed.

(** One folding round keeps the one's complement value. *)
Lemma ones_complement_fold s :
  0 <= s -> ones_complement (s mod 65536 + s / 65536) = ones_complement s.
Proof.
  intros Hs. unfold ones_complement.
  pose proof (Z.div_mod s 65536 ltac:(lia)). pose proof (Z.mod_pos_bound s 65536 ltac:(lia)).
  pose proof (Z.div_pos s 65536 ltac:(lia) ltac:(lia)).
  destruct (Z.eqb_spec (s mod 65536 + s / 65536) 0), (Z.eqb_spec s 0); try lia.
  f_equal. replace (s - 1) with (s mod 65536 + s / 65536 - 1 + s / 65536 * 65535) by lia.
  by rewrite Z.mod_add by lia.
Qed.

Lemma ones_complement_small s : 0 <= s < 65536 -> ones_complement s = s.
Proof.
  intros Hs. unfold ones_complement. destruct (Z.eqb_spec s 0); [lia|].
  rewrite Z.mod_small; lia.
Qed.

Lemma fold_loop_done fuel s : 0 <= s < 65536 -> fold_loop fuel s = Done s.
Proof.
  intros Hs. assert (Z.shiftr s 16 = 0) as E.
  { rewrite Z.shiftr_div_pow2 by lia. by apply Z.div_small. }
  destruct fuel; cbn [fold_loop]; by rewrite E.
Qed.

(** A round divides the sum's bound by [2 ^ 16], up to the carry. *)
Lemma fold_loop_round fuel s bound r :
  0 <= s < bound * 65536 ->
  (forall s', 0 <= s' < 65536 + bound -> ones_complement s' = r -> fold_loop fuel s' = Done r) ->
  ones_complement s = r -> fold_loop (S fuel) s = Done r.
Proof.
  intros Hs Hnext Hr. destruct (decide (s < 65536)).
  { rewrite fold_loop_done by lia. f_equal. rewrite <- Hr. symmetry. apply ones_complement_small. lia. }
  cbn [fold_loop]. rewrite Z.shiftr_div_pow2 by lia. change 65535 with (Z.ones 16) at 1. rewrite (Z.land_ones s 16) by lia.
  change (2 ^ 16) with 65536.
  assert (1 <= s / 65536 < bound).
  { split; [apply Z.div_le_lower_bound; lia|apply Z.div_lt_upper_bound; lia]. }
  pose proof (Z.mod_pos_bound s 65536 ltac:(lia)).
  destruct (Z.eqb_spec (s / 65536) 0); [lia|]. cbn [negb].
  apply Hnext; [lia|]. rewrite ones_complement_fold; lia.
Qed.

(** The last round: one carry into a sum that has room for it. *)
Lemma fold_loop_last fuel s r :
  0 <= s < 131071 -> ones_complement s = r -> fold_loop (S fuel) s = Done r.
Proof.
  intros Hs Hr. destruct (decide (s < 65536)).
  { rewrite fold_loop_done by lia. f_equal. rewrite <- Hr. symmetry. apply ones_complement_small. lia. }
  cbn [fold_loop]. rewrite Z.shiftr_div_pow2 by lia. change 65535 with (Z.ones 16) at 1. rewrite (Z.land_ones s 16) by lia.
  change (2 ^ 16) with 65536.
  replace s with (s - 65536 + 1 * 65536) by lia.
  rewrite Z.div_add, Z.mod_add, Z.div_small, Z.mod_small by lia. cbn [Z.add Z.eqb negb].
  rewrite fold_loop_done by lia. f_equal. rewrite <- Hr.
  rewrite <- (ones_complement_fold s) by lia.
  replace s with (s - 65536 + 1 * 65536) at 2 3 by lia.
  rewrite Z.div_add, Z.mod_add, Z.div_small, Z.mod_small by lia.
  rewrite ones_complement_small; lia.
Qed.

(** Five rounds fold a 64-bit sum. *)
Lemma fold_loop_spec s : is_u64 s -> fold_loop 5 s = Done (ones_complement s).
Proof.
  unfold is_u64, U64_MAX. intros Hs.
  eapply (fold_loop_round _ _ (2 ^ 48)); [lia| |done]. intros s1 H1 E1.
  eapply (fold_loop_round _ _ (2 ^ 33)); [lia| |done]. intros s2 H2 E2.
  eapply (fold_loop_round _ _ (2 ^ 18)); [lia| |done]. intros s3 H3 E3.
  eapply (fold_loop_round _ _ 6); [lia| |done]. intros s4 H4 E4.
  apply fold_loop_last; lia.
Qed.

(** A checksum that has seen [l] finishes with the complement of its sum. *)
Lemma finish_spec c l :
  represents c l -> bytes_ok l -> Z.of_nat (length l) <= 2 ^ 48 ->
  is_u64 (sum c) /\ finish c = Done (65535 - ones_complement (word_sum l)).
Proof.
  intros Hc Hb Hl. pose proof (word_sum_bound l Hb) as Hw.
  assert (0 <= sum c <= word_sum l /\
          match odd c with Some high => sum c + word high 0 | None => sum c end = word_sum l) as [Hs E].
  { unfold represents in Hc. destruct (odd c) as [b|].
    - destruct Hc as (l' & -> & He & ->). apply Forall_app in Hb as [Hb' Hb].
      apply Forall_cons in Hb as [Hb _]. rewrite word_sum_app by done. simpl.
      pose proof (word_sum_bound l' Hb'). unfold word. lia.
    - destruct Hc as [_ ->]. lia. }
  split; [unfold is_u64, U64_MAX; lia|].
  unfold finish. rewrite E, fold_loop_spec by (unfold is_u64, U64_MAX; lia).
  cbn [mbind exec_bind]. f_equal. rewrite Z.mod_small; [done|].
  unfold ones_complement. destruct (word_sum l =? 0); [lia|].
  pose proof (Z.mod_pos_bound (word_sum l - 1) 65535 ltac:(lia)). lia.
Qed.

Lemma add_all_represents chunks c l :
  represents c l -> represents (foldl add c chunks) (l ++ concat chunks).
Proof.
  revert c l. induction chunks as [|bytes chunks IH]; intros c l Hc; simpl; [by rewrite app_nil_r|].
  rewrite app_assoc. apply IH. by apply add_represents.
Qed.

Lemma new_represents : represents new [].
Proof. split; [by exists 0%nat|done]. Qed.

Lemma checksum_bytes_spec l :
  bytes_ok l -> Z.of_nat (length l) <= 2 ^ 48 ->
  checksum_bytes l = Done (65535 - ones_complement (word_sum l)).
Proof. intros. apply finish_spec; try done. apply (add_represents new [] l), new_represents. Qed.

(** The complement of a sum brings the sum to the all-ones word. *)
Lemma ones_complement_verify s : 0 <= s -> ones_complement (s + (65535 - ones_complement s)) = 65535.
Proof.
  intros Hs. unfold ones_complement at 2. destruct (Z.eqb_spec s 0) as [->|]; [done|].
  unfold ones_complement. pose proof (Z.div_mod (s - 1) 65535 ltac:(lia)).
  pose proof (Z.div_pos (s - 1) 65535 ltac:(lia) ltac:(lia)).
  pose proof (Z.mod_pos_bound (s - 1) 65535 ltac:(lia)).
  replace (s + (65535 - (1 + (s - 1) mod 65535)) - 1)
    with (65534 + (s - 1) / 65535 * 65535) by lia.
  rewrite Z.mod_add, (Z.mod_small 65534) by lia. destruct (Z.eqb_spec (s + (65535 - (1 + (s - 1) mod 65535))) 0); lia.
Qed.

Lemma word_be16 x : word (Z.shiftr x 8) (Z.land x 255) = x.
Proof.
  unfold word. rewrite Z.shiftr_div_pow2 by lia. change 255 with (Z.ones 8). rewrite (Z.land_ones x 8) by lia.
  change (2 ^ 8) with 256. pose proof (Z.div_mod x 256 ltac:(lia)). lia.
Qed.

(** A string with a zeroed word at an even position: storing the checksum in
    that word makes the whole check out. *)
Lemma checksum_store l r sum :
  bytes_ok (l ++ [0; 0] ++ r) -> Nat.Even (length l) -> Z.of_nat (length (l ++ [0; 0] ++ r)) <= 2 ^ 48 ->
  checksum_bytes (l ++ [0; 0] ++ r) = Done sum ->
  checksum_bytes (l ++ be16 sum ++ r) = Done 0.
Proof.
  intros Hb He Hl Hs. rewrite checksum_bytes_spec in Hs by done.
  assert (sum = 65535 - ones_complement (word_sum (l ++ [0; 0] ++ r))) as -> by congruence.
  pose proof (word_sum_bound _ Hb) as [Hw _].
  assert (word_sum (l ++ [0; 0] ++ r) = word_sum l + word_sum r) as E
    by (rewrite word_sum_app by done; simpl; unfold word; lia).
  rewrite E in Hw |- *. set (s := word_sum l + word_sum r) in *.
  assert (is_u16 (65535 - ones_complement s)) as Hu.
  { unfold is_u16, U16_MAX, ones_complement. pose proof (Z.mod_pos_bound (s - 1) 65535 ltac:(lia)).
    destruct (s =? 0); lia. }
  apply Forall_app in Hb as [Hbl [_ Hbr]%Forall_app].
  rewrite checksum_bytes_spec.
  - rewrite word_sum_app by done. unfold be16. cbn [word_sum app]. rewrite word_be16.
    replace (word_sum l + (65535 - ones_complement s + word_sum r)) with (s + (65535 - ones_complement s)) by lia.
    by rewrite ones_complement_verify by lia.
  - repeat apply Forall_app_2; [done| |done]. unfold be16, is_u16, U16_MAX in *.
    rewrite Z.shiftr_div_pow2 by lia. change 255 with (Z.ones 8). rewrite (Z.land_ones _ 8) by lia.
    pose proof (Z.mod_pos_bound (65535 - ones_complement s) (2 ^ 8) ltac:(lia)).
    repeat constructor; [by apply Z.div_pos; lia|apply Z.div_lt_upper_bound; lia|lia|lia].
  - rewrite !length_app in *. simpl in *. lia.
Qed.

(** The checksum is the complement of the one's complement sum of the
    words of the whole string, however the string is cut into pieces: the
    eight-byte loop and the carried odd byte change nothing, the 64-bit
    accumulator does not overflow and the folding loop ends.  A string whose
    checksum word was zero checks to zero once the checksum is stored there. *)
Theorem checksum_exact (chunks : list (list Z)) :
  bytes_ok (concat chunks) -> Z.of_nat (length (concat chunks)) <= 2 ^ 48 ->
  is_u64 (sum (foldl add new chunks)) /\
  finish (foldl add new chunks) = Done (65535 - ones_complement (word_sum (concat chunks))) /\
  finish (foldl add new chunks) = checksum_bytes (concat chunks) /\
  forall l r sum, concat chunks = l ++ [0; 0] ++ r -> Nat.Even (length l) ->
    checksum_bytes (concat chunks) = Done sum -> checksum_bytes (l ++ be16 sum ++ r) = Done 0.
Proof.
  intros Hb Hl.
  destruct (finish_spec _ _ (add_all_represents chunks new [] new_represents) Hb Hl) as [Hs Hf].
  split_and!; [done|done| |].
  - by rewrite Hf, checksum_bytes_spec.
  - intros l r s E He Hc. rewrite E in *. by apply (checksum_store l r s).
Qed.

Lemma checksum_exact_witness :
  finish (foldl add new [[69; 0; 0]; [115; 0; 0; 64; 0; 64; 17; 0; 0; 192]; []; [168; 0; 1; 192; 168; 0; 199]])
    = Done 47201.
Proof.
  rewrite (proj1 (proj2 (checksum_exact
    [[69; 0; 0]; [115; 0; 0; 64; 0; 64; 17; 0; 0; 192]; []; [168; 0; 1; 192; 168; 0; 199]]
    ltac:(repeat constructor; lia) ltac:(simpl; lia)))).
  vm_compute. reflexivity.
Defined.
