(* ===== verification/Reassembly.v ===== *)
(** * Reassembly of IP fragments

    The model of [libs/net/src/flow/reassembly.rs]: a table of incomplete
    datagrams, bounded per interface and per source, from which a datagram
    leaves when its fragments cover it.  The loops over the table carry fuel;
    each of their rounds removes an entry or moves on to the next one, so the
    size of the table is enough. *)

From S2P Require Import Prelude NetTypes Packet.

Definition MAX_DATAGRAMS_PER_INTERFACE : Z := 64.
Definition MAX_BYTES_PER_INTERFACE : Z := 256 * 1024.
Definition MAX_DATAGRAMS_PER_SOURCE : Z := 8.
Definition REASSEMBLY_TIMEOUT_NS : Z := 30000000000.
Definition MAX_PACKET_BYTES : Z := 65535 + 14.

Record ReassemblyKey : Type := mk_key {
  k_interface : Z;
  k_source : IpAddr;
  k_destination : IpAddr;
  k_protocol : Z;
  k_identification : Z
}.
#[global] Instance ReassemblyKey_eq_dec : EqDecision ReassemblyKey.
Proof. solve_decision. Defined.

Record FragmentBytes : Type := mk_bytes { b_offset : Z; b_bytes : list Z }.

Definition b_len (f : FragmentBytes) : Z := Z.of_nat (length (b_bytes f)).

Record Datagram : Type := mk_datagram {
  d_key : ReassemblyKey;
  created_ns : Z;
  updated_ns : Z;
  d_header : option (list Z);
  d_metadata : option PacketMetadata;
  d_fragments : list FragmentBytes;
  final_len : option Z;
  d_payload_bytes : Z;
  ipv6 : bool
}.

Inductive ReassemblyResult : Type :=
| Pending
| Complete (c : PacketChain.PacketChain) (m : PacketMetadata)
| Drop (reason : DropReason).

Record ReassemblyTable : Type := mk_table { datagrams : list Datagram; payload_bytes : Z }.

(** ** Completion *)

(** The loop of [is_complete]: where the fragments end, if each begins where
    the one before it ends. *)
Fixpoint contiguous (expected : Z) (fs : list FragmentBytes) : option Z :=
  match fs with
  | [] => Some expected
  | f :: fs => if negb (b_offset f =? expected) then None else contiguous (expected + b_len f) fs
  end.

Definition is_complete (entry : Datagram) : bool :=
  match final_len entry, d_header entry with
  | Some final, Some _ =>
      match contiguous 0 (d_fragments entry) with
      | Some expected => expected =? final
      | None => false
      end
  | _, _ => false
  end.

(** [bytes\[i..i + src.len()\].copy_from_slice(src)]. *)
Definition copy_at (i : nat) (src bytes : list Z) : exec (list Z) :=
  if (i + length src <=? length bytes)%nat
  then Done (take i bytes ++ src ++ drop (i + length src) bytes) else Panic.

(** The length and fragment fields of an IPv6 packet, the length field, the
    fragment field and the checksum of an IPv4 one. *)
Definition fix_ipv6 (bytes : list Z) (final : Z) : exec (option (list Z)) :=
  let len := Z.of_nat (length bytes) in
  if (len <? 62) || (U16_MAX <? len - 54) then Done None
  else
    bytes ← copy_at 18 (be16 (len - 54)) bytes;
    match checked_sub len (final + 6) with
    | Some field =>
        if field + 2 <=? len
        then bytes ← copy_at (Z.to_nat field) [0; 0] bytes; Done (Some bytes)
        else Done None
    | None => Done None
    end.

Definition fix_ipv4 (bytes : list Z) : exec (option (list Z)) :=
  let len := Z.of_nat (length bytes) in
  let ip_len := saturating_sub len 14 in
  if (U16_MAX <? ip_len) || (len <? 34) then Done None
  else
    bytes ← copy_at 16 (be16 ip_len) bytes;
    bytes ← copy_at 20 [0; 0] bytes;
    bytes ← copy_at 24 [0; 0] bytes;
    version ← unwrap (bytes !! 14%nat);
    let header_len := Z.land version 15 * 4 in
    if negb ((20 <=? header_len) && (header_len <=? 60)) || (len <? 14 + header_len) then Done None
    else
      checksum ← checksum_bytes (slice 14 (Z.to_nat header_len) bytes);
      bytes ← copy_at 24 (be16 checksum) bytes;
      Done (Some bytes).

Definition build_packet (d : Datagram) : exec ReassemblyResult :=
  match d_header d, final_len d with
  | Some header, Some final =>
      let bytes := header ++ mjoin (map b_bytes (d_fragments d)) in
      fixed ← (if ipv6 d then fix_ipv6 bytes final else fix_ipv4 bytes);
      match fixed with
      | None => Done (Drop FragmentMalformed)
      | Some bytes =>
          let m := default metadata_default (d_metadata d) in
          let m := with_rss_hash None (with_frame_len (Z.of_nat (length bytes) mod 2 ^ 32) m) in
          c ← PacketChain.from_owned bytes;
          Done (Complete c m)
      end
  | _, _ => Done (Drop FragmentMalformed)
  end.

(** ** The table *)

Definition new : ReassemblyTable := mk_table [] 0.

Definition take_entry (t : ReassemblyTable) (index : nat) : exec (Datagram * ReassemblyTable) :=
  entry ← unwrap (datagrams t !! index);
  Done (entry, mk_table (swap_remove index (datagrams t))
                 (saturating_sub (payload_bytes t) (d_payload_bytes entry))).

Definition remove (t : ReassemblyTable) (index : nat) : exec ReassemblyTable :=
  snd <$> take_entry t index.

(** The loop of [expire] and [invalidate_interface], which differ in the entries
    they remove. *)
Fixpoint remove_loop (fuel : nat) (drops : Datagram -> bool) (index : nat) (t : ReassemblyTable)
  : exec ReassemblyTable :=
  match datagrams t !! index with
  | None => Done t
  | Some entry =>
      match fuel with
      | O => Panic
      | S fuel =>
          if drops entry then t ← remove t index; remove_loop fuel drops index t
          else remove_loop fuel drops (S index) t
      end
  end.

Definition count_removed (drops : Datagram -> bool) (t : ReassemblyTable)
  : exec (Z * ReassemblyTable) :=
  t' ← remove_loop (length (datagrams t)) drops 0 t;
  Done (Z.of_nat (length (datagrams t)) - Z.of_nat (length (datagrams t')), t').

Definition expired (now_ns : Z) (entry : Datagram) : bool :=
  REASSEMBLY_TIMEOUT_NS <=? saturating_sub now_ns (updated_ns entry).

Definition expire (t : ReassemblyTable) (now_ns : Z) : exec (Z * ReassemblyTable) :=
  count_removed (expired now_ns) t.

Definition on_interface (interface : Z) (entry : Datagram) : bool :=
  k_interface (d_key entry) =? interface.

Definition invalidate_interface (t : ReassemblyTable) (interface : Z) : exec (Z * ReassemblyTable) :=
  count_removed (on_interface interface) t.

(** The order of [min_by_key], on [(updated_ns, created_ns)]. *)
Definition older (a b : Datagram) : bool :=
  (updated_ns a <? updated_ns b) || ((updated_ns a =? updated_ns b) && (created_ns a <? created_ns b)).

(** [min_by_key]: the first of the least elements, with its index. *)
Fixpoint oldest (predicate : Datagram -> bool) (index : nat) (l : list Datagram)
    (best : option (nat * Datagram)) : option (nat * Datagram) :=
  match l with
  | [] => best
  | entry :: l =>
      let best :=
        if predicate entry then
          match best with
          | Some (i, b) => if older entry b then Some (index, entry) else Some (i, b)
          | None => Some (index, entry)
          end
        else best in
      oldest predicate (S index) l best
  end.

Definition evict_oldest_matching (t : ReassemblyTable) (predicate : Datagram -> bool)
  : exec (bool * ReassemblyTable) :=
  match oldest predicate 0 (datagrams t) None with
  | Some (index, _) => t ← remove t index; Done (true, t)
  | None => Done (false, t)
  end.

Definition from_source (key : ReassemblyKey) (entry : Datagram) : bool :=
  (k_interface (d_key entry) =? k_interface key) && bool_decide (k_source (d_key entry) = k_source key).

Definition count (p : Datagram -> bool) (l : list Datagram) : Z :=
  Z.of_nat (length (filter (fun d => p d = true) l)).

Definition source_full (t : ReassemblyTable) (key : ReassemblyKey) : bool :=
  MAX_DATAGRAMS_PER_SOURCE <=? count (from_source key) (datagrams t).

Definition interface_full (t : ReassemblyTable) (key : ReassemblyKey) : bool :=
  MAX_DATAGRAMS_PER_INTERFACE <=? count (on_interface (k_interface key)) (datagrams t).

(** The loop of [insert_datagram]; [None] is its [return None]. *)
Fixpoint room_loop (fuel : nat) (t : ReassemblyTable) (key : ReassemblyKey)
  : exec (bool * ReassemblyTable) :=
  if interface_full t key || source_full t key then
    match fuel with
    | O => Panic
    | S fuel =>
        let full := source_full t key in
        '((evicted, t) : bool * ReassemblyTable) ← evict_oldest_matching t (fun entry =>
              on_interface (k_interface key) entry
              && (negb full || bool_decide (k_source (d_key entry) = k_source key)));
        if evicted then room_loop fuel t key else Done (false, t)
    end
  else Done (true, t).

Definition insert_datagram (t : ReassemblyTable) (key : ReassemblyKey) (now_ns : Z) (v6 : bool)
  : exec (option nat * ReassemblyTable) :=
  '((room, t) : bool * ReassemblyTable) ← room_loop (length (datagrams t)) t key;
  if room then
    let d := mk_datagram key now_ns now_ns None None [] None 0 v6 in
    Done (Some (length (datagrams t)), mk_table (datagrams t ++ [d]) (payload_bytes t))
  else Done (None, t).

Definition position_of (t : ReassemblyTable) (key : ReassemblyKey) : option nat :=
  position (fun entry => bool_decide (d_key entry = key)) (datagrams t).

Definition remove_key (t : ReassemblyTable) (key : ReassemblyKey) : exec ReassemblyTable :=
  match position_of t key with Some index => remove t index | None => Done t end.

Definition sum_payload (l : list Datagram) : Z := foldr (fun d n => d_payload_bytes d + n) 0 l.

Definition used_bytes (t : ReassemblyTable) (key : ReassemblyKey) : Z :=
  sum_payload (filter (fun d => on_interface (k_interface key) d = true) (datagrams t)).

Fixpoint capacity_loop (fuel : nat) (t : ReassemblyTable) (key : ReassemblyKey) (additional : Z)
  : exec (bool * ReassemblyTable) :=
  if saturating_add (used_bytes t key) additional <=? MAX_BYTES_PER_INTERFACE then Done (true, t)
  else
    '((evicted, t) : bool * ReassemblyTable) ← evict_oldest_matching t (fun entry =>
          on_interface (k_interface key) entry && negb (bool_decide (d_key entry = key)));
    if evicted then match fuel with O => Panic | S fuel => capacity_loop fuel t key additional end
    else t ← remove_key t key; Done (false, t).

Definition ensure_payload_capacity (t : ReassemblyTable) (key : ReassemblyKey) (additional : Z)
  : exec (bool * ReassemblyTable) :=
  capacity_loop (length (datagrams t)) t key additional.

(** [sort_unstable_by_key] on the offset, as an insertion sort: the offsets of
    a datagram are distinct, so that every sort gives this list. *)
Fixpoint insert_sorted (f : FragmentBytes) (fs : list FragmentBytes) : list FragmentBytes :=
  match fs with
  | [] => [f]
  | g :: gs => if b_offset f <? b_offset g then f :: fs else g :: insert_sorted f gs
  end.

Definition sort_by_offset (fs : list FragmentBytes) : list FragmentBytes := foldr insert_sorted [] fs.

(** ** Taking in a fragment *)

(** The assignments to a datagram: its first fragment's header and metadata,
    its length, and a further fragment. *)
Definition with_header (h : list Z) (m : PacketMetadata) (d : Datagram) : Datagram :=
  mk_datagram (d_key d) (created_ns d) (updated_ns d) (Some h) (Some m) (d_fragments d)
    (final_len d) (d_payload_bytes d) (ipv6 d).
Definition with_final (n : Z) (d : Datagram) : Datagram :=
  mk_datagram (d_key d) (created_ns d) (updated_ns d) (d_header d) (d_metadata d) (d_fragments d)
    (Some n) (d_payload_bytes d) (ipv6 d).
Definition with_fragment (f : FragmentBytes) (now_ns : Z) (d : Datagram) : Datagram :=
  mk_datagram (d_key d) (created_ns d) now_ns (d_header d) (d_metadata d)
    (sort_by_offset (d_fragments d ++ [f])) (final_len d) (d_payload_bytes d + b_len f) (ipv6 d).

(** What the bytes of a packet do to its datagram, [None] where [ingest] gives
    the datagram up as malformed. *)
Definition extend (entry : Datagram) (now_ns : Z) (pk : FrontendPacket) (p : IpPacket)
    (fr : IpFragment) (offset : Z) : option Datagram :=
  bytes ← PacketChain.copy_out (chain pk) (payload_offset p) (Z.to_nat (payload_len p));
  entry ← (if offset =? 0 then
             header ← PacketChain.copy_out (chain pk) 0 (Z.to_nat (payload_offset p));
             Some (with_header header (metadata pk) entry)
           else Some entry);
  let end_ := offset + payload_len p in
  entry ← (if more fr then Some entry
           else if match final_len entry with Some n => negb (n =? end_) | None => false end then None
           else Some (with_final end_ entry));
  Some (with_fragment (mk_bytes offset bytes) now_ns entry).

(** The end of [ingest], on the datagram at [index]. *)
Definition store (t : ReassemblyTable) (index : nat) (now_ns : Z) (pk : FrontendPacket)
    (p : IpPacket) (fr : IpFragment) (offset : Z) : exec (ReassemblyResult * ReassemblyTable) :=
  entry ← unwrap (datagrams t !! index);
  match extend entry now_ns pk p fr offset with
  | None => t ← remove t index; Done (Drop FragmentMalformed, t)
  | Some entry =>
      let t := mk_table (<[index := entry]> (datagrams t)) (payload_bytes t + payload_len p) in
      if negb (is_complete entry) then Done (Pending, t)
      else
        '((d, t) : Datagram * ReassemblyTable) ← take_entry t index;
        r ← build_packet d;
        Done (r, t)
  end.

Definition overlaps (offset end_ : Z) (part : FragmentBytes) : bool :=
  (offset <? b_offset part + b_len part) && (b_offset part <? end_).

Definition malformed (p : IpPacket) (fr : IpFragment) : bool :=
  (payload_len p =? 0)
  || (more fr && negb (payload_len p mod 8 =? 0))
  || match checked_add (saturating_mul (frag_offset fr) 8) (payload_len p) with
     | None => true
     | Some end_ => MAX_PACKET_BYTES <? end_
     end.

Definition key_of (interface : Z) (p : IpPacket) (fr : IpFragment) : ReassemblyKey :=
  mk_key interface (source p) (destination p) (next_header p) (identification fr).

Definition is_v6 (a : IpAddr) : bool := match a with IpV6 _ => true | IpV4 _ => false end.

(** [ingest] from the search for the datagram on. *)
Definition accept (t : ReassemblyTable) (interface now_ns : Z) (pk : FrontendPacket)
    (p : IpPacket) (fr : IpFragment) : exec (ReassemblyResult * ReassemblyTable) :=
  let offset := saturating_mul (frag_offset fr) 8 in
  let key := key_of interface p fr in
  '((found, t) : option nat * ReassemblyTable) ←
    match position_of t key with
    | Some index => Done (Some index, t)
    | None => insert_datagram t key now_ns (is_v6 (source p))
    end;
  match found with
  | None => Done (Drop FragmentLimit, t)
  | Some index =>
      entry ← unwrap (datagrams t !! index);
      if existsb (overlaps offset (offset + payload_len p)) (d_fragments entry)
      then t ← remove t index; Done (Drop FragmentOverlap, t)
      else
        '((fits, t) : bool * ReassemblyTable) ← ensure_payload_capacity t key (payload_len p);
        if negb fits then Done (Drop FragmentLimit, t)
        else
          match position_of t key with
          | None => Done (Drop FragmentLimit, t)
          | Some index => store t index now_ns pk p fr offset
          end
  end.

Definition ingest (t : ReassemblyTable) (interface now_ns : Z) (pk : FrontendPacket)
  : exec (ReassemblyResult * ReassemblyTable) :=
  '((_, t) : Z * ReassemblyTable) ← expire t now_ns;
  match ip pk with
  | None => Done (Drop FragmentMalformed, t)
  | Some p =>
      match fragment p with
      | None => Done (Drop FragmentMalformed, t)
      | Some fr =>
          if malformed p fr then Done (Drop FragmentMalformed, t)
          else accept t interface now_ns pk p fr
      end
  end.

(** ** Tests of the source *)

(** The fragment of the tests of [reassembly.rs]. *)
Definition test_fragment (offset : Z) (more : bool) (payload : list Z) : FrontendPacket :=
  let total := 20 + Z.of_nat (length payload) in
  let field := Z.lor offset (if more then 8192 else 0) in
  let header sum := [69; 0] ++ be16 total ++ be16 7 ++ be16 field ++ [64; 17] ++ be16 sum
                      ++ [10; 0; 0; 1] ++ [10; 0; 0; 2] in
  let sum := match checksum_bytes (header 0) with Done x => x | Panic => 0 end in
  let bytes := replicate 12 0 ++ be16 2048 ++ header sum ++ payload in
  mk_packet (PacketChain.mk [Owned bytes] (Z.of_nat (length bytes)))
    (mk_metadata 3 1 99 None 0 (34 + Z.of_nat (length payload)) false Unmanaged Plain NoReason)
    (Some (mk_ip (IpV4 (V4.new 10 0 0 1)) (IpV4 (V4.new 10 0 0 2)) 17 20 34
             (Z.of_nat (length payload)) 64 0 (Some (mk_fragment 7 offset more)))).
