(* ===== verification/ReassemblyTable.v ===== *)
(** * The reassembly table: fragments, eviction and limits

    The lemmas on the fragments of one datagram, and the specifications of the
    operations that shrink the table. *)

From S2P Require Import Prelude NetTypes Packet Reassembly.

(** ** The fragments of a datagram *)

Definition b_end (f : FragmentBytes) : Z := b_offset f + b_len f.

Definition before (f g : FragmentBytes) : Prop := b_end f <= b_offset g.

(** Fragments in order, none empty and none over another. *)
Definition laid_out (fs : list FragmentBytes) : Prop :=
  StronglySorted before fs /\ Forall (fun f => 0 <= b_offset f /\ 0 < b_len f) fs.

Definition sum_len (fs : list FragmentBytes) : Z := foldr (fun f n => b_len f + n) 0 fs.

Lemma sum_len_perm fs gs : fs ≡ₚ gs -> sum_len fs = sum_len gs.
Proof. induction 1; simpl; lia. Qed.

Lemma sum_len_app fs gs : sum_len (fs ++ gs) = sum_len fs + sum_len gs.
Proof. induction fs; simpl; lia. Qed.

Lemma sum_len_nonneg fs : 0 <= sum_len fs.
Proof. induction fs as [|f fs IH]; simpl; [lia|]. unfold b_len. lia. Qed.

Lemma sum_len_pos fs f : f ∈ fs -> 0 < b_len f -> 0 < sum_len fs.
Proof.
  intros Hf Hp. destruct (list_elem_of_split _ _ Hf) as (l & r & ->).
  rewrite sum_len_app. simpl. pose proof (sum_len_nonneg l). pose proof (sum_len_nonneg r). lia.
Qed.

Lemma length_join_bytes fs : Z.of_nat (length (mjoin (map b_bytes fs))) = sum_len fs.
Proof. induction fs as [|f fs IH]; [done|]. simpl. rewrite length_app. unfold b_len. lia. Qed.

(** Laid out fragments fit below the end of any bound. *)
Lemma laid_out_sum fs lo hi :
  laid_out fs -> Forall (fun f => lo <= b_offset f /\ b_end f <= hi) fs -> lo <= hi ->
  sum_len fs <= hi - lo.
Proof.
  intros [Hs Hp]. revert lo. induction Hs as [|f fs Hs IH Hf]; intros lo Hb Hl; simpl; [lia|].
  apply Forall_cons in Hp as [Hf0 Hp]. apply Forall_cons in Hb as [[? ?] Hb].
  assert (sum_len fs <= hi - b_end f); [|unfold b_end in *; lia].
  apply IH; [done| |lia]. rewrite Forall_forall in *. intros g Hg.
  specialize (Hf g Hg). specialize (Hb g Hg). unfold before in Hf. simpl in Hb. lia.
Qed.

Lemma insert_sorted_perm f fs : insert_sorted f fs ≡ₚ f :: fs.
Proof.
  induction fs as [|g fs IH]; simpl; [done|]. destruct (b_offset f <? b_offset g); [done|].
  rewrite IH. constructor.
Qed.

Lemma sort_by_offset_perm fs : sort_by_offset fs ≡ₚ fs.
Proof. induction fs as [|f fs IH]; simpl; [done|]. by rewrite insert_sorted_perm, IH. Qed.

(** A fragment that overlaps none of them takes its place among laid out ones. *)
Lemma insert_sorted_laid_out f fs :
  laid_out fs -> 0 <= b_offset f -> 0 < b_len f ->
  Forall (fun g => overlaps (b_offset f) (b_end f) g = false) fs -> laid_out (insert_sorted f fs).
Proof.
  intros [Hs Hp] Ho Hl Hn. split; [|rewrite insert_sorted_perm; by constructor].
  induction Hs as [|g gs Hs IH Hg]; simpl; [repeat constructor|].
  apply Forall_cons in Hp as [Hg0 Hp]. apply Forall_cons in Hn as [Hfg Hn].
  unfold overlaps in Hfg. unfold b_end in Hfg. reflect_bools.
  destruct (Z.ltb_spec (b_offset f) (b_offset g)).
  - assert (before f g) by (unfold before, b_end; lia).
    constructor; [by constructor|]. constructor; [done|].
    eapply Forall_impl; [exact Hg|]. unfold before, b_end in *. intros. lia.
  - constructor; [by apply IH|]. rewrite insert_sorted_perm. constructor; [|done].
    unfold before, b_end. lia.
Qed.

Definition clear (f g : FragmentBytes) : Prop := overlaps (b_offset f) (b_end f) g = false.

Lemma clear_sym f g : clear f g -> clear g f.
Proof. unfold clear, overlaps, b_end. intros. reflect_bools. lia. Qed.

Lemma before_clear f g : before f g -> clear f g.
Proof. unfold before, clear, overlaps, b_end. intros. reflect_bools. lia. Qed.

Lemma sort_laid_out fs :
  ForallOrdPairs clear fs -> Forall (fun f => 0 <= b_offset f /\ 0 < b_len f) fs ->
  laid_out (sort_by_offset fs).
Proof.
  induction 1 as [|f fs Hf Hfs IH]; intros Hp; [split; constructor|].
  apply Forall_cons in Hp as [[? ?] Hp]. simpl. apply insert_sorted_laid_out; try done; [by apply IH|].
  by rewrite sort_by_offset_perm.
Qed.

(** Adding a fragment that overlaps none. *)
Lemma extend_laid_out fs f :
  laid_out fs -> 0 <= b_offset f -> 0 < b_len f -> Forall (clear f) fs ->
  laid_out (sort_by_offset (fs ++ [f])).
Proof.
  intros [Hs Hp] Ho Hl Hc. apply sort_laid_out; [|by apply Forall_app_2; [|repeat constructor]].
  induction Hs as [|g gs Hs IH Hg]; simpl; [repeat constructor|].
  apply Forall_cons in Hp as [_ Hp]. apply Forall_cons in Hc as [Hgf Hc]. constructor; [|by apply IH].
  apply Forall_app_2; [|repeat constructor; by apply clear_sym].
  eapply Forall_impl; [exact Hg|apply before_clear].
Qed.

(** There is one way to lay fragments out. *)
Lemma laid_out_unique fs gs : laid_out fs -> laid_out gs -> fs ≡ₚ gs -> fs = gs.
Proof.
  intros [Hs Hp] [Ht Hq]. revert gs Ht Hq.
  induction Hs as [|f fs Hs IH Hf]; intros gs Ht Hq Hperm.
  { by apply Permutation_nil_l in Hperm. }
  destruct Ht as [|g gs Ht Hg]; [by apply Permutation_nil_r in Hperm|].
  apply Forall_cons in Hp as [Hf0 Hp]. apply Forall_cons in Hq as [Hg0 Hq].
  assert (f = g) as ->.
  { assert (f ∈ g :: gs) as [->|Hfg]%elem_of_cons by (rewrite <- Hperm; by left); [done|].
    assert (g ∈ f :: fs) as [->|Hgf]%elem_of_cons by (rewrite Hperm; by left); [done|].
    rewrite Forall_forall in Hf, Hg. specialize (Hf _ Hgf). specialize (Hg _ Hfg).
    unfold before, b_end in *. lia. }
  f_equal. apply IH; try done. by apply Permutation_cons_inv in Hperm.
Qed.

(** Where contiguous fragments end. *)
Lemma contiguous_sum fs expected final :
  contiguous expected fs = Some final -> final = expected + sum_len fs.
Proof.
  revert expected. induction fs as [|f fs IH]; intros e; simpl; [intros [= ->]; lia|].
  destruct (negb _); [done|]. intros H. apply IH in H. lia.
Qed.

(** ** What removals do to the table *)

Lemma sum_payload_perm l l' : l ≡ₚ l' -> sum_payload l = sum_payload l'.
Proof. induction 1; simpl; lia. Qed.

Lemma filter_perm_not {A} (P : A -> Prop) `{!forall x, Decision (P x)} (l : list A) :
  l ≡ₚ filter P l ++ filter (fun x => ~ P x) l.
Proof.
  induction l as [|x l IH]; [done|]. rewrite !filter_cons.
  destruct (decide (P x)); [rewrite decide_False by tauto|rewrite decide_True by done].
  - simpl. by rewrite <- IH.
  - rewrite <- Permutation_middle. by rewrite <- IH.
Qed.

(** The cached total is the sum over the entries, none of them negative. *)
Record counted (t : ReassemblyTable) : Prop := {
  counted_total : payload_bytes t = sum_payload (datagrams t);
  counted_nonneg : Forall (fun d => 0 <= d_payload_bytes d) (datagrams t)
}.

(** [t'] is [t] without some entries. *)
Record shrinks (t t' : ReassemblyTable) : Prop := {
  shrinks_entries : datagrams t' ⊆+ datagrams t;
  shrinks_counted : counted t'
}.

Lemma shrinks_refl t : counted t -> shrinks t t.
Proof. by split. Qed.

Lemma shrinks_trans t1 t2 t3 : shrinks t1 t2 -> shrinks t2 t3 -> shrinks t1 t3.
Proof. intros [? _] [? ?]. split; [by etrans|done]. Qed.

Lemma sum_payload_nonneg l : Forall (fun d => 0 <= d_payload_bytes d) l -> 0 <= sum_payload l.
Proof. induction 1; simpl; lia. Qed.

Lemma take_entry_spec t i d :
  counted t -> datagrams t !! i = Some d ->
  exists t', take_entry t i = Done (d, t') /\ d :: datagrams t' ≡ₚ datagrams t /\
    datagrams t' = swap_remove i (datagrams t) /\ shrinks t t'.
Proof.
  intros [Ht Hn] Hd. unfold take_entry. rewrite Hd. cbn [unwrap mbind exec_bind].
  eexists. split; [done|]. cbn [datagrams]. pose proof (swap_remove_perm _ _ _ Hd) as Hp.
  split_and!; [done|done|]. rewrite <- Hp in Hn. apply Forall_cons in Hn as [Hd0 Hn].
  split; [|split; [|done]]; cbn [datagrams payload_bytes].
  - etrans; [|by apply Permutation_submseteq, Hp]. by apply submseteq_cons.
  - rewrite Ht, <- (sum_payload_perm _ _ Hp). simpl. unfold saturating_sub.
    pose proof (sum_payload_nonneg _ Hn). lia.
Qed.

Lemma drop_entry_spec t i d :
  counted t -> datagrams t !! i = Some d ->
  exists t', remove t i = Done t' /\ d :: datagrams t' ≡ₚ datagrams t /\
    datagrams t' = swap_remove i (datagrams t) /\ shrinks t t'.
Proof.
  intros Hc Hd. destruct (take_entry_spec t i d Hc Hd) as (t' & E & H).
  exists t'. split; [|done]. unfold remove. by rewrite E.
Qed.

#[local] Arguments remove : simpl never.

(** The removal loop keeps exactly the entries that stay. *)
Lemma remove_loop_spec fuel drops index t :
  counted t -> (length (datagrams t) - index <= fuel)%nat ->
  Forall (fun d => drops d = false) (take index (datagrams t)) ->
  exists t', remove_loop fuel drops index t = Done t' /\ shrinks t t' /\
    datagrams t' ≡ₚ filter (fun d => drops d = false) (datagrams t).
Proof.
  revert index t. induction fuel as [|fuel IH]; intros index t Hc Hf Hk; simpl.
  - rewrite lookup_ge_None_2 by lia. exists t. split_and!; [done|by apply shrinks_refl|].
    rewrite take_ge in Hk by lia. rewrite filter_id; [done|by apply Forall_forall].
  - destruct (datagrams t !! index) as [d|] eqn:Hd.
    2: { apply lookup_ge_None in Hd. exists t. split_and!; [done|by apply shrinks_refl|].
         rewrite take_ge in Hk by lia. rewrite filter_id; [done|by apply Forall_forall]. }
    pose proof (lookup_lt_Some _ _ _ Hd). destruct (drops d) eqn:Ed.
    + destruct (drop_entry_spec t index d Hc Hd) as (t1 & -> & Hp & Hs & Hsh). cbn [mbind exec_bind].
      destruct (IH index t1) as (t2 & -> & Hsh2 & Hp2).
      * apply Hsh.
      * rewrite Hs, length_swap_remove by done. lia.
      * rewrite Hs, take_swap_remove by done. done.
      * exists t2. split_and!; [done|by eapply shrinks_trans|]. rewrite Hp2, <- Hp.
        rewrite filter_cons_False; [done|]. by rewrite Ed.
    + destruct (IH (S index) t Hc ltac:(lia)) as (t2 & -> & Hsh2 & Hp2); [|by exists t2].
      rewrite (take_S_r _ _ _ Hd). apply Forall_app_2; [done|]. by repeat constructor.
Qed.

(** ** Eviction *)

(** [best] is the first of the oldest entries of [l] that match. *)
Definition best_of (p : Datagram -> bool) (l : list Datagram) (best : option (nat * Datagram)) : Prop :=
  match best with
  | Some (i, d) => l !! i = Some d /\ p d = true /\ Forall (fun d' => p d' = true -> older d' d = false) l
  | None => Forall (fun d => p d = false) l
  end.

Lemma older_irrefl d : older d d = false.
Proof. unfold older. reflect_bools. lia. Qed.

Lemma older_replace d1 d2 d3 : older d1 d2 = true -> older d3 d2 = false -> older d3 d1 = false.
Proof. unfold older. intros. reflect_bools. lia. Qed.

Lemma oldest_spec p l pre best :
  best_of p pre best -> best_of p (pre ++ l) (oldest p (length pre) l best).
Proof.
  revert pre best. induction l as [|d l IH]; intros pre best Hb; simpl; [by rewrite app_nil_r|].
  replace (S (length pre)) with (length (pre ++ [d])) by (rewrite length_app; simpl; lia).
  replace (pre ++ d :: l) with ((pre ++ [d]) ++ l) by (by rewrite <- app_assoc).
  apply IH. destruct (p d) eqn:Ed.
  - assert ((pre ++ [d]) !! length pre = Some d) as Hd by (by rewrite lookup_app_r, Nat.sub_diag by lia).
    destruct best as [[i b]|]; simpl in Hb.
    + destruct Hb as (Hi & Hp & Hf). destruct (older d b) eqn:Eo; simpl; split_and!; try done.
      * apply Forall_app_2; [|repeat constructor; by rewrite older_irrefl].
        eapply Forall_impl; [exact Hf|]. intros d' Hd' Hp'. eapply older_replace; eauto.
      * by apply lookup_app_l_Some.
      * apply Forall_app_2; [done|]. by repeat constructor.
    + simpl. split_and!; try done. apply Forall_app_2; [|repeat constructor; by rewrite older_irrefl].
      eapply Forall_impl; [exact Hb|]. simpl. congruence.
  - destruct best as [[i b]|]; simpl in Hb |- *.
    + destruct Hb as (Hi & Hp & Hf). split_and!; try done; [by apply lookup_app_l_Some|].
      apply Forall_app_2; [done|]. repeat constructor. congruence.
    + apply Forall_app_2; [done|]. by repeat constructor.
Qed.

(** The oldest matching entry goes, if there is one. *)
Lemma evict_spec t p :
  counted t ->
  (exists d t', evict_oldest_matching t p = Done (true, t') /\ shrinks t t' /\ p d = true /\
     d :: datagrams t' ≡ₚ datagrams t /\
     Forall (fun d' => p d' = true -> older d' d = false) (datagrams t)) \/
  (evict_oldest_matching t p = Done (false, t) /\ Forall (fun d => p d = false) (datagrams t)).
Proof.
  intros Hc. unfold evict_oldest_matching.
  pose proof (oldest_spec p (datagrams t) [] None (Forall_nil_2 _)) as Hb. simpl in Hb.
  destruct (oldest p 0 (datagrams t) None) as [[i d]|]; simpl in Hb; [left|by right].
  destruct Hb as (Hi & Hp & Hf). destruct (drop_entry_spec t i d Hc Hi) as (t' & -> & Hperm & _ & Hs).
  exists d, t'. by split_and!.
Qed.

Lemma evict_match t p d :
  counted t -> d ∈ datagrams t -> p d = true ->
  exists e t', evict_oldest_matching t p = Done (true, t') /\ shrinks t t' /\ p e = true /\
    e :: datagrams t' ≡ₚ datagrams t.
Proof.
  intros Hc Hd Hp. destruct (evict_spec t p Hc) as [(e & t' & ? & ? & ? & ? & _)|[_ Hf]].
  - exists e, t'. by split_and!.
  - rewrite Forall_forall in Hf. specialize (Hf d Hd). simpl in Hf. congruence.
Qed.

Lemma count_witness p l : 0 < count p l -> exists d, d ∈ l /\ p d = true.
Proof.
  unfold count. intros Hc. destruct (filter _ l) as [|d r] eqn:E; [simpl in Hc; lia|].
  assert (d ∈ filter (fun d => p d = true) l) as [? ?]%list_elem_of_filter by (rewrite E; by left).
  by exists d.
Qed.

Lemma count_le p l : count p l <= Z.of_nat (length l).
Proof. unfold count. pose proof (length_filter (fun d => p d = true) l). lia. Qed.

Lemma count_submseteq p l l' : l' ⊆+ l -> count p l' <= count p l.
Proof.
  intros [k Hk]%submseteq_Permutation. unfold count. rewrite Hk, filter_app, length_app. lia.
Qed.

(** Room is made without fail. *)
Lemma room_loop_spec fuel t key :
  counted t -> (length (datagrams t) <= fuel)%nat ->
  exists t', room_loop fuel t key = Done (true, t') /\ shrinks t t' /\
    interface_full t' key = false /\ source_full t' key = false.
Proof.
  revert t. induction fuel as [|fuel IH]; intros t Hc Hf; cbn [room_loop].
  - unfold interface_full, source_full, count. destruct (datagrams t) eqn:E; [|simpl in Hf; lia].
    exists t. split_and!; [done|by apply shrinks_refl|by rewrite E..].
  - destruct (interface_full t key || source_full t key) eqn:E.
    2: { apply orb_false_elim in E as [? ?]. by exists t. }
    match goal with |- context [evict_oldest_matching t ?f] => set (p := f) end.
    assert (exists d, d ∈ datagrams t /\ p d = true) as (d & Hd & Hp).
    { subst p. unfold interface_full, source_full in *. unfold MAX_DATAGRAMS_PER_SOURCE in *.
      destruct (Z.leb_spec 8 (count (from_source key) (datagrams t))).
      - destruct (count_witness (from_source key) (datagrams t)) as (d & ? & Hd); [lia|].
        exists d. by split.
      - rewrite orb_false_r in E. unfold MAX_DATAGRAMS_PER_INTERFACE in E. apply Z.leb_le in E.
        destruct (count_witness (on_interface (k_interface key)) (datagrams t)) as (d & ? & Hd); [lia|].
        exists d. split; [done|]. simpl. by rewrite Hd. }
    destruct (evict_match t p d Hc Hd Hp) as (e & t1 & -> & Hs & _ & Hperm). cbn [mbind exec_bind].
    apply Permutation_length in Hperm. simpl in Hperm.
    destruct (IH t1) as (t2 & E2 & Hs2 & ?); [apply Hs|lia|].
    exists t2. split; [done|]. split; [by eapply shrinks_trans|done].
Qed.

(** ** Payload capacity *)

Definition own (key : ReassemblyKey) (d : Datagram) : Prop := d_key d = key.
#[global] Instance own_dec key d : Decision (own key d) := decide (d_key d = key).
#[global] Typeclasses Opaque own.

Lemma sum_payload_app l l' : sum_payload (l ++ l') = sum_payload l + sum_payload l'.
Proof. induction l; simpl; lia. Qed.

Lemma own_key_interface key l :
  Forall (fun d => on_interface (k_interface key) d && negb (bool_decide (d_key d = key)) = false) l ->
  filter (fun d => on_interface (k_interface key) d = true) l = filter (own key) l.
Proof.
  intros Hf. apply filter_ext_elem. rewrite Forall_forall in Hf. intros d Hd. specialize (Hf d Hd).
  simpl in Hf. unfold own, on_interface in *. split.
  - intros E. rewrite E in Hf. simpl in Hf. by apply negb_false_iff, bool_decide_eq_true in Hf.
  - intros ->. by apply Z.eqb_refl.
Qed.

(** While the fragment does not fit there is another datagram to evict, since
    what the datagram itself may hold fits. *)
Lemma capacity_evict t key additional :
  counted t -> sum_payload (filter (own key) (datagrams t)) + additional <= MAX_BYTES_PER_INTERFACE ->
  MAX_BYTES_PER_INTERFACE < saturating_add (used_bytes t key) additional ->
  exists e t', evict_oldest_matching t (fun entry =>
      on_interface (k_interface key) entry && negb (bool_decide (d_key entry = key))) = Done (true, t') /\
    shrinks t t' /\ d_key e <> key /\ e :: datagrams t' ≡ₚ datagrams t.
Proof.
  intros Hc Hown Hu. match goal with |- context [evict_oldest_matching t ?f] => set (p := f) end.
  destruct (evict_spec t p Hc) as [(e & t1 & E & Hs & Hp & Hperm & _)|[_ Hn]].
  - exists e, t1. split_and!; try done. intros He. subst p. simpl in Hp.
    by rewrite bool_decide_true, andb_false_r in Hp.
  - exfalso. unfold saturating_add, used_bytes in Hu. rewrite own_key_interface in Hu by done. lia.
Qed.

Lemma capacity_loop_spec fuel t key additional :
  counted t -> (length (datagrams t) <= fuel)%nat ->
  sum_payload (filter (own key) (datagrams t)) + additional <= MAX_BYTES_PER_INTERFACE ->
  exists t', capacity_loop fuel t key additional = Done (true, t') /\ shrinks t t' /\
    filter (own key) (datagrams t') ≡ₚ filter (own key) (datagrams t) /\
    used_bytes t' key + additional <= MAX_BYTES_PER_INTERFACE.
Proof.
  revert t. induction fuel as [|fuel IH]; intros t Hc Hf Hown; cbn [capacity_loop];
    (destruct (Z.leb_spec (saturating_add (used_bytes t key) additional) MAX_BYTES_PER_INTERFACE) as [Hu|Hu];
      [exists t; split_and!; [done|by apply shrinks_refl|done|];
       unfold saturating_add, MAX_BYTES_PER_INTERFACE, U64_MAX in *; lia|]);
    destruct (capacity_evict t key additional Hc Hown Hu) as (e & t1 & -> & Hs & He & Hperm);
    pose proof (Permutation_length Hperm) as Hlen; simpl in Hlen; [lia|].
  cbn [mbind exec_bind].
  assert (filter (own key) (datagrams t1) ≡ₚ filter (own key) (datagrams t)) as Hsame.
  { rewrite <- Hperm. by rewrite filter_cons_False. }
  destruct (IH t1) as (t2 & E2 & Hs2 & Hk & Hb).
  - apply Hs.
  - lia.
  - by rewrite (sum_payload_perm _ _ Hsame).
  - exists t2. split_and!; [done|by eapply shrinks_trans|by rewrite Hk|done].
Qed.

(** ** Looking a datagram up *)

Lemma position_of_Some t key i :
  position_of t key = Some i -> exists d, datagrams t !! i = Some d /\ d_key d = key.
Proof.
  intros (d & Hd & Hk & _)%position_Some. exists d. by apply bool_decide_eq_true in Hk.
Qed.

Lemma position_of_None t key : position_of t key = None -> key ∉ map d_key (datagrams t).
Proof.
  intros H%position_None. intros (d & -> & Hd)%list_elem_of_fmap.
  rewrite Forall_forall in H. specialize (H d Hd). simpl in H. by rewrite bool_decide_true in H.
Qed.

Lemma filter_own t i d :
  NoDup (map d_key (datagrams t)) -> datagrams t !! i = Some d -> filter (own (d_key d)) (datagrams t) = [d].
Proof.
  revert i. induction (datagrams t) as [|e l IH]; intros i Hn Hi; [done|].
  simpl in Hn. apply NoDup_cons in Hn as [He Hn]. destruct i as [|i]; simpl in Hi.
  - injection Hi as ->. rewrite filter_cons_True by done. f_equal. apply elem_of_nil_inv.
    intros x [Hx Hxl]%list_elem_of_filter. apply He. apply list_elem_of_fmap. by exists x.
  - rewrite filter_cons_False; [by eapply IH|]. intros E. apply He. apply list_elem_of_fmap.
    exists d. split; [by symmetry|]. by eapply list_elem_of_lookup_2.
Qed.
