(* ===== verification/ReassemblyBuild.v ===== *)
(** * The packet of a complete datagram

    What [build_packet] returns: the header of the first fragment with its
    length, fragment and checksum fields rewritten, and the payload after it. *)

From S2P Require Import Prelude NetTypes Packet Reassembly ReassemblyTable.

(** ** Writing into a buffer *)

Definition patch (i : nat) (src l : list Z) : list Z := take i l ++ src ++ drop (i + length src) l.

Lemma copy_at_patch i src l : (i + length src <= length l)%nat -> copy_at i src l = Done (patch i src l).
Proof. intros Hi. unfold copy_at. by rewrite (proj2 (Nat.leb_le _ _)). Qed.

Lemma length_patch i src l : (i + length src <= length l)%nat -> length (patch i src l) = length l.
Proof. intros Hi. unfold patch. rewrite !length_app, length_take, length_drop. lia. Qed.

(** Bounds on the length of a buffer that has been written to. *)
Ltac patch_len := rewrite ?length_patch by patch_len; cbn [length be16]; lia.

Lemma lookup_patch i src l k :
  (i + length src <= length l)%nat ->
  patch i src l !! k
    = if decide (i <= k < i + length src)%nat then src !! (k - i)%nat else l !! k.
Proof.
  intros Hi. unfold patch. destruct (decide (k < i)%nat).
  - rewrite lookup_app_l by (rewrite length_take; lia). rewrite lookup_take_lt by lia.
    by rewrite decide_False by lia.
  - rewrite lookup_app_r by (rewrite length_take; lia). rewrite length_take, Nat.min_l by lia.
    destruct (decide (k < i + length src)%nat).
    + rewrite lookup_app_l by lia. by rewrite decide_True by lia.
    + rewrite lookup_app_r by lia. rewrite lookup_drop, decide_False by lia. f_equal. lia.
Qed.

Lemma patch_app i src l l' :
  (i + length src <= length l)%nat -> patch i src (l ++ l') = patch i src l ++ l'.
Proof.
  intros Hi. unfold patch. rewrite take_app_le, drop_app_le by lia. by rewrite !app_assoc.
Qed.

Lemma lookup_slice i n l k : slice i n l !! k = if decide (k < n)%nat then l !! (i + k)%nat else None.
Proof.
  unfold slice. case_decide; [by rewrite lookup_take_lt, lookup_drop by lia|].
  by apply lookup_take_ge; lia.
Qed.

Lemma slice_patch_same i src l :
  (i + length src <= length l)%nat -> slice i (length src) (patch i src l) = src.
Proof.
  intros Hi. apply list_eq. intros k. rewrite lookup_slice. case_decide.
  - rewrite lookup_patch by done. rewrite decide_True by lia. f_equal. lia.
  - symmetry. apply lookup_ge_None_2. lia.
Qed.

Lemma slice_patch_other i src l j n :
  (i + length src <= length l)%nat -> (j + n <= i \/ i + length src <= j)%nat ->
  slice j n (patch i src l) = slice j n l.
Proof.
  intros Hi Hj. apply list_eq. intros k. rewrite !lookup_slice. case_decide; [|done].
  rewrite lookup_patch by done. by rewrite decide_False by lia.
Qed.

(** A range around a write is what is before it, the write and what follows. *)
Lemma slice_patch_around i src l j n :
  (i + length src <= length l)%nat -> (j <= i)%nat -> (i + length src <= j + n)%nat ->
  slice j n (patch i src l)
    = slice j (i - j) l ++ src ++ slice (i + length src) (n - (i - j) - length src) l.
Proof.
  intros Hi Hj Hn. apply list_eq. intros k. rewrite lookup_slice, lookup_patch by done.
  assert (length (slice j (i - j) l) = (i - j)%nat) as Hlen by (rewrite length_slice; lia).
  destruct (decide (k < i - j)%nat); [|destruct (decide (k - (i - j) < length src)%nat)].
  - rewrite lookup_app_l by lia. rewrite lookup_slice. repeat case_decide; lia || done.
  - rewrite lookup_app_r, lookup_app_l by lia. rewrite Hlen.
    repeat case_decide; try lia. f_equal. lia.
  - rewrite !lookup_app_r by lia. rewrite Hlen, lookup_slice.
    repeat case_decide; try lia; [|done]. f_equal. lia.
Qed.

Lemma patch_patch i src src' l :
  length src = length src' -> (i + length src <= length l)%nat ->
  patch i src (patch i src' l) = patch i src l.
Proof.
  intros E Hi. apply list_eq. intros k. rewrite !lookup_patch by patch_len.
  case_decide; [done|]. by rewrite decide_False by lia.
Qed.

Lemma patch_ok i src l :
  bytes_ok src -> bytes_ok l -> bytes_ok (patch i src l).
Proof.
  intros Hs Hl. unfold patch. repeat apply Forall_app_2; [by apply Forall_take|done|by apply Forall_drop].
Qed.

Lemma be16_ok x : is_u16 x -> bytes_ok (be16 x).
Proof.
  unfold is_u16, U16_MAX, be16. intros Hx. change 255 with (Z.ones 8).
  rewrite Z.land_ones, Z.shiftr_div_pow2 by lia.
  pose proof (Z.mod_pos_bound x (2 ^ 8) ltac:(lia)).
  repeat constructor; [by apply Z.div_pos; lia|apply Z.div_lt_upper_bound; lia|lia|lia].
Qed.

Lemma slice_ok i n l : bytes_ok l -> bytes_ok (slice i n l).
Proof. intros Hl. by apply Forall_take, Forall_drop. Qed.

(** ** The header fields *)

(** The length of the IPv4 header, from its first byte. *)
Definition ip_header_len (bytes : list Z) : Z := Z.land (byte bytes 14) 15 * 4.

(** When the packet can be rebuilt. *)
Definition fixable (v6 : bool) (bytes : list Z) : bool :=
  let len := Z.of_nat (length bytes) in
  if v6 then (62 <=? len) && (len - 54 <=? U16_MAX)
  else (34 <=? len) && (len - 14 <=? U16_MAX) && (20 <=? ip_header_len bytes)
       && (14 + ip_header_len bytes <=? len).

(** The rebuilt header [h'] of [h], in a packet [bytes]. *)
Definition fixed_header (v6 : bool) (h h' bytes : list Z) : Prop :=
  let len := Z.of_nat (length bytes) in
  if v6 then
    slice 18 2 h' = be16 (len - 54) /\ slice (length h - 6) 2 h' = [0; 0] /\
    forall i, i ∉ [18; 19; length h - 6; length h - 5]%nat -> h' !! i = h !! i
  else
    slice 16 2 h' = be16 (len - 14) /\ slice 20 2 h' = [0; 0] /\
    checksum_bytes (slice 14 (Z.to_nat (ip_header_len h)) bytes) = Done 0 /\
    forall i, i ∉ [16; 17; 20; 21; 24; 25]%nat -> h' !! i = h !! i.

Definition rebuilt (v6 : bool) (h payload bytes : list Z) : Prop :=
  exists h', length h' = length h /\ bytes = h' ++ payload /\ fixed_header v6 h h' bytes.

Lemma byte_app l l' i : (i < length l)%nat -> byte (l ++ l') i = byte l i.
Proof. intros Hi. unfold byte. by rewrite lookup_app_l. Qed.

Lemma land_15 x : 0 <= Z.land x 15 <= 15.
Proof. change 15 with (Z.ones 4) at 1 2. rewrite Z.land_ones by lia. pose proof (Z.mod_pos_bound x (2 ^ 4)). lia. Qed.

(** Zeroing the checksum field and storing the checksum of the header there. *)
Lemma checksum_header bytes n :
  bytes_ok bytes -> (26 <= 14 + n <= length bytes)%nat -> Z.of_nat n <= 2 ^ 32 ->
  exists sum, is_u16 sum /\ checksum_bytes (slice 14 n (patch 24 [0; 0] bytes)) = Done sum /\
    checksum_bytes (slice 14 n (patch 24 (be16 sum) bytes)) = Done 0.
Proof.
  intros Hb Hn Hl. assert (bytes_ok (patch 24 [0; 0] bytes)) as Hp.
  { apply patch_ok; [|done]. repeat constructor; lia. }
  assert (exists sum, is_u16 sum /\ checksum_bytes (slice 14 n (patch 24 [0; 0] bytes)) = Done sum)
    as (sum & Hu & Hs).
  { pose proof (checksum_bytes_spec (slice 14 n (patch 24 [0; 0] bytes)) (slice_ok _ _ _ Hp)) as Hs.
    rewrite length_slice in Hs. specialize (Hs ltac:(lia)). eexists. split; [|exact Hs].
    unfold is_u16, U16_MAX, ones_complement. destruct (_ =? 0); [lia|].
    pose proof (Z.mod_pos_bound (word_sum (slice 14 n (patch 24 [0; 0] bytes)) - 1) 65535 ltac:(lia)). lia. }
  exists sum. split_and!; [apply Hu..|done|].
  pose proof (slice_patch_around 24 [0; 0] bytes 14 n ltac:(simpl; lia) ltac:(lia) ltac:(simpl; lia)) as E.
  rewrite E in Hs. rewrite (slice_patch_around 24 (be16 sum)) by (simpl; lia).
  eapply checksum_store; [| | |exact Hs].
  - change (bytes_ok (slice 14 (24 - 14) bytes ++ [0; 0]
      ++ slice (24 + length [0; 0]) (n - (24 - 14) - length [0; 0]) bytes)).
    rewrite <- E. by apply slice_ok.
  - rewrite length_slice. exists 5%nat. lia.
  - rewrite !length_app, !length_slice. cbn [length]. lia.
Qed.

(** ** Rebuilding the packet *)

Lemma copy_at_app i src h payload :
  (i + length src <= length h)%nat -> copy_at i src (h ++ payload) = Done (patch i src h ++ payload).
Proof. intros Hi. rewrite copy_at_patch by (rewrite length_app; lia). by rewrite patch_app. Qed.

(** The header after the three fields of an IPv4 packet have been written. *)
Definition patch_ipv4 (len sum : Z) (h : list Z) : list Z :=
  patch 24 (be16 sum) (patch 20 [0; 0] (patch 16 (be16 (len - 14)) h)).

Lemma length_patch_ipv4 len sum h : (34 <= length h)%nat -> length (patch_ipv4 len sum h) = length h.
Proof. intros Hh. unfold patch_ipv4. by rewrite !length_patch by patch_len. Qed.

Lemma lookup_patch_ipv4 len sum h i :
  (34 <= length h)%nat -> i ∉ [16; 17; 20; 21; 24; 25]%nat -> patch_ipv4 len sum h !! i = h !! i.
Proof.
  intros Hh Hi. unfold patch_ipv4. rewrite !lookup_patch by patch_len.
  rewrite !elem_of_cons in Hi. cbn [length be16]. repeat case_decide; lia || done.
Qed.

Lemma patch_ipv4_fields len sum h :
  (34 <= length h)%nat ->
  slice 16 2 (patch_ipv4 len sum h) = be16 (len - 14) /\ slice 20 2 (patch_ipv4 len sum h) = [0; 0].
Proof.
  intros Hh. unfold patch_ipv4.
  split; [rewrite 2!(slice_patch_other _ _ _ 16)|rewrite (slice_patch_other _ _ _ 20)];
    try patch_len.
  - apply (slice_patch_same 16 (be16 (len - 14))). patch_len.
  - apply (slice_patch_same 20 [0; 0]). patch_len.
Qed.

Lemma fix_ipv4_spec h payload :
  (34 <= length h)%nat -> bytes_ok h -> bytes_ok payload ->
  if fixable false (h ++ payload)
  then exists bytes, fix_ipv4 (h ++ payload) = Done (Some bytes) /\ rebuilt false h payload bytes
  else fix_ipv4 (h ++ payload) = Done None.
Proof.
  intros Hh Hbh Hbp. unfold fix_ipv4, fixable, rebuilt, fixed_header. cbn zeta. unfold U16_MAX, saturating_sub.
  set (len := Z.of_nat (length (h ++ payload))).
  assert (Z.of_nat (length h) <= len) as Hle by (subst len; rewrite length_app; lia).
  rewrite Z.max_r by lia. rewrite (proj2 (Z.ltb_ge _ 34)), (proj2 (Z.leb_le 34 _)) by lia.
  rewrite orb_false_r. cbn [andb].
  destruct (Z.leb_spec (len - 14) 65535);
    [rewrite (proj2 (Z.ltb_ge _ _)) by lia|by rewrite (proj2 (Z.ltb_lt _ _)) by lia].
  rewrite copy_at_app by (simpl; lia). cbn [mbind exec_bind].
  rewrite copy_at_app by patch_len. cbn [mbind exec_bind].
  set (h2 := patch 20 _ _). assert (length h2 = length h) as L2.
  { subst h2. by rewrite !length_patch by patch_len. }
  rewrite copy_at_app by (simpl; lia). cbn [mbind exec_bind].
  assert ((patch 24 [0; 0] h2 ++ payload) !! 14%nat = Some (byte (h ++ payload) 14)) as ->.
  { rewrite lookup_app_l by patch_len.
    subst h2. rewrite !lookup_patch by patch_len.
    rewrite !decide_False by lia. rewrite byte_app by lia. unfold byte.
    destruct (lookup_lt_is_Some_2 h 14) as [x ->]; [lia|done]. }
  cbn [unwrap mbind exec_bind]. fold (ip_header_len (h ++ payload)).
  set (hl := ip_header_len (h ++ payload)).
  assert (0 <= hl <= 60) as Hhl by (subst hl; unfold ip_header_len; pose proof (land_15 (byte (h ++ payload) 14)); lia).
  rewrite (proj2 (Z.leb_le hl 60)), andb_true_r by lia.
  destruct (Z.leb_spec 20 hl); [|done]. cbn [negb orb andb].
  destruct (Z.leb_spec (14 + hl) len);
    [rewrite (proj2 (Z.ltb_ge _ _)) by lia|by rewrite (proj2 (Z.ltb_lt _ _)) by lia].
  assert (bytes_ok (h2 ++ payload)) as Hb2.
  { apply Forall_app_2; [|done]. repeat apply patch_ok; [repeat constructor; lia|apply be16_ok|done].
    unfold is_u16, U16_MAX. lia. }
  destruct (checksum_header (h2 ++ payload) (Z.to_nat hl) Hb2) as (sum & Hsu & Hs & Hv);
    [rewrite length_app, L2; subst len; rewrite length_app in *; lia|lia|].
  rewrite <- patch_app by (simpl; lia). rewrite Hs. cbn [mbind exec_bind].
  rewrite patch_app by (simpl; lia). rewrite copy_at_app by patch_len.
  cbn [mbind exec_bind]. rewrite patch_patch by (simpl; lia). rewrite patch_app in Hv by (simpl; lia).
  exists (patch_ipv4 len sum h ++ payload). split; [done|]. exists (patch_ipv4 len sum h).
  assert (length (patch_ipv4 len sum h ++ payload) = length (h ++ payload)) as ->
    by (rewrite !length_app, length_patch_ipv4; done).
  pose proof (patch_ipv4_fields len sum h Hh) as [? ?].
  split_and!; try done; [by apply length_patch_ipv4| |intros; by apply lookup_patch_ipv4].
  subst hl. unfold ip_header_len in *. by rewrite byte_app in Hv by lia.
Qed.

Lemma fix_ipv6_spec h payload :
  (34 <= length h)%nat ->
  if fixable true (h ++ payload)
  then exists bytes, fix_ipv6 (h ++ payload) (Z.of_nat (length payload)) = Done (Some bytes) /\
    rebuilt true h payload bytes
  else fix_ipv6 (h ++ payload) (Z.of_nat (length payload)) = Done None.
Proof.
  intros Hh. unfold fix_ipv6, fixable, rebuilt, fixed_header. cbn zeta.
  set (len := Z.of_nat (length (h ++ payload))).
  assert (len = Z.of_nat (length h) + Z.of_nat (length payload)) as Hle by (subst len; rewrite length_app; lia).
  rewrite (Z.ltb_antisym 62), (Z.ltb_antisym (len - 54)), <- negb_andb.
  destruct ((62 <=? len) && (len - 54 <=? U16_MAX)); [|done]. cbn [negb].
  rewrite copy_at_app by patch_len. cbn [mbind exec_bind]. unfold checked_sub.
  rewrite (proj2 (Z.leb_le (_ + 6) len)) by lia. rewrite (proj2 (Z.leb_le (_ + 2) len)) by lia.
  replace (Z.to_nat _) with (length h - 6)%nat by lia.
  rewrite copy_at_app by patch_len. cbn [mbind exec_bind].
  set (h' := patch (length h - 6) _ _). assert (length h' = length h) as L by (subst h'; patch_len).
  exists (h' ++ payload). split; [done|]. exists h'.
  assert (length (h' ++ payload) = length (h ++ payload)) as -> by (by rewrite !length_app, L).
  split_and!; try done.
  - subst h'. rewrite slice_patch_other by patch_len.
    apply (slice_patch_same 18 (be16 (len - 54))). patch_len.
  - apply (slice_patch_same (length h - 6) [0; 0]). patch_len.
  - intros i Hi. subst h'. rewrite !lookup_patch by patch_len. rewrite !elem_of_cons in Hi.
    cbn [length be16]. repeat case_decide; lia || done.
Qed.

(** What is known of a datagram when it leaves the table. *)
Record finished (d : Datagram) (h : list Z) (m : PacketMetadata) : Prop := {
  finished_header : d_header d = Some h;
  finished_metadata : d_metadata d = Some m;
  finished_length : 34 <= Z.of_nat (length h) <= U16_MAX;
  finished_header_ok : bytes_ok h;
  finished_payload_ok : Forall (fun f => bytes_ok (b_bytes f)) (d_fragments d);
  finished_final : final_len d = Some (sum_len (d_fragments d));
  finished_bound : sum_len (d_fragments d) <= MAX_PACKET_BYTES
}.

Lemma length_rebuilt v6 h payload bytes : rebuilt v6 h payload bytes -> length bytes = length (h ++ payload).
Proof. intros (h' & L & -> & _). by rewrite !length_app, L. Qed.

Lemma bytes_ok_join fs :
  Forall (fun f => bytes_ok (b_bytes f)) fs -> bytes_ok (mjoin (map b_bytes fs)).
Proof. induction 1; [constructor|]. by apply Forall_app_2. Qed.

(** [build_packet] returns the rebuilt packet with the metadata of the first
    fragment, or drops a datagram that has no valid form. *)
Lemma build_packet_spec d h m :
  finished d h m ->
  let payload := mjoin (map b_bytes (d_fragments d)) in
  if fixable (ipv6 d) (h ++ payload)
  then exists c bytes, build_packet d
      = Done (Complete c (with_rss_hash None (with_frame_len (Z.of_nat (length bytes)) m))) /\
    PacketChain.holds c bytes /\ rebuilt (ipv6 d) h payload bytes
  else build_packet d = Done (Drop FragmentMalformed).
Proof.
  intros [Hh Hm Hl Hbh Hbp Hf Hb] payload. unfold build_packet. rewrite Hh, Hf. fold payload.
  assert (Z.of_nat (length payload) = sum_len (d_fragments d)) as Hpl by apply length_join_bytes.
  pose proof (bytes_ok_join _ Hbp) as Hop. fold payload in Hop.
  unfold U16_MAX, MAX_PACKET_BYTES in *.
  assert (if fixable (ipv6 d) (h ++ payload)
      then exists bytes, (if ipv6 d then fix_ipv6 (h ++ payload) (sum_len (d_fragments d))
                          else fix_ipv4 (h ++ payload)) = Done (Some bytes) /\
             rebuilt (ipv6 d) h payload bytes
      else (if ipv6 d then fix_ipv6 (h ++ payload) (sum_len (d_fragments d))
            else fix_ipv4 (h ++ payload)) = Done None) as Hfix.
  { destruct (ipv6 d); [rewrite <- Hpl; apply fix_ipv6_spec; lia|apply fix_ipv4_spec; [lia|done..]]. }
  destruct (fixable (ipv6 d) (h ++ payload)); [|by rewrite Hfix].
  destruct Hfix as (bytes & -> & Hr). cbn [mbind exec_bind]. rewrite Hm. cbn [default].
  pose proof (length_rebuilt _ _ _ _ Hr) as Hlen. rewrite length_app in Hlen.
  destruct (from_owned_holds bytes) as (c & -> & Hc); [unfold U32_MAX; lia|].
  cbn [mbind exec_bind]. exists c, bytes. split_and!; try done. by rewrite Z.mod_small by lia.
Qed.
