(* ===== verification/ReassemblyProofs.v ===== *)
(** * The reassembly table: invariant and deliveries

    The invariant of the table against the packets that have arrived, and the
    specification of [ingest]: nothing panics, the limits hold, and what is
    delivered is made of fragments that arrived for that datagram. *)

From S2P Require Import Prelude NetTypes Packet Reassembly ReassemblyTable ReassemblyBuild.

(** ** Packets *)

(** A packet whose bytes are bytes and whose payload follows an Ethernet and an
    IP header. *)
Record typed_packet (pk : FrontendPacket) : Prop := {
  typed_bytes : Forall (fun f => forall bytes, as_slice f = Some bytes -> bytes_ok bytes)
    (PacketChain.fragments (chain pk));
  typed_ip : forall p, ip pk = Some p ->
    34 <= payload_offset p <= U16_MAX /\ is_u32 (payload_len p) /\
    forall fr, fragment p = Some fr -> is_u16 (frag_offset fr)
}.

Lemma copy_loop_result fs offset end_ o n written bytes :
  PacketChain.copy_loop fs offset end_ o n written = Some bytes ->
  length bytes = n /\
  (Forall (fun f => forall l, as_slice f = Some l -> bytes_ok l) fs -> bytes_ok written -> bytes_ok bytes).
Proof.
  revert o written. induction fs as [|f fs IH]; intros o written; [done|].
  cbn [PacketChain.copy_loop]. destruct (as_slice f) as [l|] eqn:El; [|done]. cbn [mbind option_bind].
  match goal with |- context [length ?w] => set (w' := w) end.
  assert (bytes_ok l -> bytes_ok written -> bytes_ok w') as Hw.
  { intros Hl Hwr. subst w'. destruct (_ && _); [|done].
    apply Forall_app_2; [done|]. by apply Forall_take, Forall_drop. }
  clearbody w'. destruct (Nat.eqb_spec (length w') n) as [E|_].
  - intros [= <-]. split; [done|]. intros [Hf _]%Forall_cons Hwr. by apply Hw; [apply Hf|].
  - intros [? Hok]%IH. split; [done|]. intros [Hf Hfs]%Forall_cons Hwr. apply Hok; [done|].
    by apply Hw; [apply Hf|].
Qed.

Lemma copy_out_result pk offset n bytes :
  typed_packet pk -> PacketChain.copy_out (chain pk) offset n = Some bytes ->
  length bytes = n /\ bytes_ok bytes.
Proof.
  intros [Ht _]. unfold PacketChain.copy_out. destruct (checked_add _ _); [|done]. cbn [mbind option_bind].
  destruct (_ <? _); [done|]. destruct (Nat.eqb_spec n 0) as [->|].
  - intros [= <-]. by split; [|constructor].
  - intros [? Hok]%copy_loop_result. split; [done|]. by apply Hok; [|constructor].
Qed.

(** ** What has arrived *)

Section history.
Variable hist : list (Z * FrontendPacket).

(** A packet of the history is a fragment of the datagram [key]. *)
Definition arrived (key : ReassemblyKey) (pk : FrontendPacket) (p : IpPacket) (fr : IpFragment) : Prop :=
  (k_interface key, pk) ∈ hist /\ ip pk = Some p /\ fragment p = Some fr /\
  key_of (k_interface key) p fr = key.

Definition piece_of (key : ReassemblyKey) (f : FragmentBytes) : Prop :=
  exists pk p fr, arrived key pk p fr /\ b_offset f = frag_offset fr * 8 /\
    PacketChain.copy_out (chain pk) (payload_offset p) (Z.to_nat (payload_len p)) = Some (b_bytes f).

Definition header_of (key : ReassemblyKey) (h : list Z) (m : PacketMetadata) : Prop :=
  exists pk p fr, arrived key pk p fr /\ frag_offset fr = 0 /\ metadata pk = m /\
    PacketChain.copy_out (chain pk) 0 (Z.to_nat (payload_offset p)) = Some h.

Definition final_of (key : ReassemblyKey) (n : Z) : Prop :=
  exists pk p fr, arrived key pk p fr /\ more fr = false /\ n = frag_offset fr * 8 + payload_len p.

(** ** The invariant *)

Record wf_datagram (d : Datagram) : Prop := {
  wf_laid_out : laid_out (d_fragments d);
  wf_bound : Forall (fun f => b_end f <= MAX_PACKET_BYTES) (d_fragments d);
  wf_payload : d_payload_bytes d = sum_len (d_fragments d);
  wf_pieces : Forall (piece_of (d_key d)) (d_fragments d);
  wf_ok : Forall (fun f => bytes_ok (b_bytes f)) (d_fragments d);
  wf_header : match d_header d, d_metadata d with
              | Some h, Some m => header_of (d_key d) h m /\ bytes_ok h /\ 34 <= Z.of_nat (length h) <= U16_MAX
              | None, None => True
              | _, _ => False
              end;
  wf_final : forall n, final_len d = Some n -> final_of (d_key d) n;
  wf_v6 : ipv6 d = is_v6 (k_source (d_key d))
}.

Definition used (i : Z) (l : list Datagram) : Z :=
  sum_payload (filter (fun d => on_interface i d = true) l).

(** The limits per interface and per source, and the accounting. *)
Record limits (l : list Datagram) : Prop := {
  limit_keys : NoDup (map d_key l);
  limit_interface : forall i, count (on_interface i) l <= MAX_DATAGRAMS_PER_INTERFACE;
  limit_source : forall key, count (from_source key) l <= MAX_DATAGRAMS_PER_SOURCE;
  limit_bytes : forall i, used i l <= MAX_BYTES_PER_INTERFACE
}.

Record inv (t : ReassemblyTable) : Prop := {
  inv_entries : Forall wf_datagram (datagrams t);
  inv_total : payload_bytes t = sum_payload (datagrams t);
  inv_limits : limits (datagrams t)
}.

Lemma wf_nonneg d : wf_datagram d -> 0 <= d_payload_bytes d.
Proof. intros Hd. rewrite (wf_payload d Hd). apply sum_len_nonneg. Qed.

Lemma wf_all_nonneg l : Forall wf_datagram l -> Forall (fun d => 0 <= d_payload_bytes d) l.
Proof. intros Hl. eapply Forall_impl; [exact Hl|apply wf_nonneg]. Qed.

Lemma inv_counted t : inv t -> counted t.
Proof. intros [He Ht _]. split; [done|by apply wf_all_nonneg]. Qed.

Lemma limits_perm l l' : l ≡ₚ l' -> limits l -> limits l'.
Proof.
  intros Hp [H1 H2 H3 H4]. split.
  - by rewrite <- Hp.
  - intros i. unfold count. rewrite <- Hp. apply H2.
  - intros k. unfold count. rewrite <- Hp. apply H3.
  - intros i. unfold used. etrans; [|apply (H4 i)]. apply Z.eq_le_incl, sum_payload_perm. by rewrite Hp.
Qed.

(** Dropping entries keeps everything. *)
Lemma shrinks_inv t t' : inv t -> shrinks t t' -> inv t'.
Proof.
  intros [He Ht Hl] [[k Hk]%submseteq_Permutation [Ht' Hn]]. rewrite Hk in He.
  apply Forall_app in He as [He Hek]. pose proof (limits_perm _ _ Hk Hl) as [H1 H2 H3 H4].
  split; [done|done|]. split.
  - rewrite map_app in H1. by apply NoDup_app in H1 as [? _].
  - intros i. etrans; [|apply (H2 i)]. apply count_submseteq. by apply submseteq_inserts_r.
  - intros key. etrans; [|apply (H3 key)]. apply count_submseteq. by apply submseteq_inserts_r.
  - intros i. specialize (H4 i). unfold used in *. rewrite filter_app, sum_payload_app in H4.
    assert (0 <= sum_payload (filter (fun d => on_interface i d = true) k)); [|lia].
    by apply sum_payload_nonneg, Forall_filter_keep, wf_all_nonneg.
Qed.

Lemma count_cons p d l : count p (d :: l) = (if p d then 1 else 0) + count p l.
Proof.
  unfold count. destruct (p d) eqn:E; [rewrite filter_cons_True by done|rewrite filter_cons_False by (by rewrite E)];
    cbn [length]; lia.
Qed.

Lemma used_cons i d l : used i (d :: l) = (if on_interface i d then d_payload_bytes d else 0) + used i l.
Proof.
  unfold used. destruct (on_interface i d) eqn:E;
    [rewrite filter_cons_True by done|rewrite filter_cons_False by (by rewrite E)]; simpl; lia.
Qed.

Lemma limits_new d l :
  limits l -> d_key d ∉ map d_key l -> d_payload_bytes d = 0 ->
  count (on_interface (k_interface (d_key d))) l < MAX_DATAGRAMS_PER_INTERFACE ->
  count (from_source (d_key d)) l < MAX_DATAGRAMS_PER_SOURCE -> limits (d :: l).
Proof.
  intros [H1 H2 H3 H4] Hk Hp Hi Hs. split.
  - cbn [map]. by apply NoDup_cons.
  - intros i. rewrite count_cons. specialize (H2 i). unfold on_interface at 1.
    destruct (Z.eqb_spec (k_interface (d_key d)) i) as [<-|]; lia.
  - intros key. rewrite count_cons. specialize (H3 key). unfold from_source at 1.
    destruct (Z.eqb_spec (k_interface (d_key d)) (k_interface key)) as [E|]; [|simpl; lia].
    case_bool_decide as Es; [|simpl; lia].
    assert (count (from_source key) l = count (from_source (d_key d)) l) as ->; [|simpl; lia].
    unfold count. do 2 f_equal. apply filter_ext_elem. intros x _. unfold from_source. by rewrite E, Es.
  - intros i. rewrite used_cons, Hp. specialize (H4 i). destruct (on_interface i d); lia.
Qed.

Lemma limits_replace d d' l :
  limits (d :: l) -> d_key d' = d_key d ->
  used (k_interface (d_key d)) (d :: l) + (d_payload_bytes d' - d_payload_bytes d) <= MAX_BYTES_PER_INTERFACE ->
  limits (d' :: l).
Proof.
  intros [H1 H2 H3 H4] Hk Hu. split.
  - cbn [map] in *. by rewrite Hk.
  - intros i. specialize (H2 i). rewrite count_cons in *. unfold on_interface at 1. by rewrite Hk.
  - intros key. specialize (H3 key). rewrite count_cons in *. unfold from_source at 1. by rewrite Hk.
  - intros i. specialize (H4 i). rewrite used_cons in *. unfold on_interface at 1 in H4.
    unfold on_interface at 1 in Hu. unfold on_interface at 1. rewrite Hk.
    rewrite Z.eqb_refl in Hu. destruct (Z.eqb_spec (k_interface (d_key d)) i) as [E|]; [rewrite E in Hu|]; lia.
Qed.

Lemma wf_fresh key now v6 :
  v6 = is_v6 (k_source key) -> wf_datagram (mk_datagram key now now None None [] None 0 v6).
Proof. intros ->. split; try done. by repeat constructor. Qed.

Lemma shrinks_keys t t' key :
  shrinks t t' -> key ∉ map d_key (datagrams t) -> key ∉ map d_key (datagrams t').
Proof.
  intros [[k Hk]%submseteq_Permutation _] Hn Hin. apply Hn. rewrite Hk, map_app. apply elem_of_app. by left.
Qed.

(** The datagram is found, or added at the end of a table that has room. *)
Lemma insert_datagram_spec t key now v6 :
  inv t -> key ∉ map d_key (datagrams t) -> v6 = is_v6 (k_source key) ->
  exists t', insert_datagram t key now v6 = Done (Some (length (datagrams t')), 
      mk_table (datagrams t' ++ [mk_datagram key now now None None [] None 0 v6]) (payload_bytes t')) /\
    shrinks t t' /\
    inv (mk_table (datagrams t' ++ [mk_datagram key now now None None [] None 0 v6]) (payload_bytes t')).
Proof.
  intros Hi Hk Hv. unfold insert_datagram.
  destruct (room_loop_spec (length (datagrams t)) t key (inv_counted t Hi) (Nat.le_refl _))
    as (t' & -> & Hs & Hf1 & Hf2). cbn [mbind exec_bind]. exists t'. split_and!; [done|done|].
  pose proof (shrinks_inv t t' Hi Hs) as [He Ht Hl]. set (d := mk_datagram _ _ _ _ _ _ _ _ _).
  split; cbn [datagrams payload_bytes].
  - apply Forall_app_2; [done|]. apply Forall_singleton. by apply wf_fresh.
  - rewrite sum_payload_app, Ht. simpl. lia.
  - eapply limits_perm; [apply Permutation_cons_append|]. apply limits_new; try done.
    + by eapply shrinks_keys.
    + unfold interface_full in Hf1. by apply Z.leb_gt in Hf1.
    + unfold source_full in Hf2. by apply Z.leb_gt in Hf2.
Qed.

(** ** Extending a datagram *)

Lemma not_malformed p fr :
  is_u16 (frag_offset fr) -> is_u32 (payload_len p) -> malformed p fr = false ->
  saturating_mul (frag_offset fr) 8 = frag_offset fr * 8 /\ 0 < payload_len p /\
  frag_offset fr * 8 + payload_len p <= MAX_PACKET_BYTES.
Proof.
  intros Ho Hl Hm. unfold is_u16, U16_MAX, is_u32, U32_MAX in Ho, Hl.
  assert (saturating_mul (frag_offset fr) 8 = frag_offset fr * 8) as E
    by (unfold saturating_mul, U64_MAX; lia).
  assert (checked_add (frag_offset fr * 8) (payload_len p) = Some (frag_offset fr * 8 + payload_len p)) as Ea.
  { unfold checked_add. rewrite (proj2 (Z.leb_le _ _)); [done|unfold U64_MAX; lia]. }
  unfold malformed in Hm. rewrite E, Ea in Hm. split; [exact E|].
  apply orb_false_elim in Hm as [[Hz _]%orb_false_elim Hm].
  apply Z.eqb_neq in Hz. apply Z.ltb_ge in Hm. split; [lia|exact Hm].
Qed.

(** The parts of a datagram that [extend] keeps. *)
Lemma extend_keeps d now pk p fr offset d' :
  extend d now pk p fr offset = Some d' ->
  d_key d' = d_key d /\ ipv6 d' = ipv6 d /\ updated_ns d' = now /\
  exists bytes, PacketChain.copy_out (chain pk) (payload_offset p) (Z.to_nat (payload_len p)) = Some bytes /\
    d_fragments d' = sort_by_offset (d_fragments d ++ [mk_bytes offset bytes]) /\
    d_payload_bytes d' = d_payload_bytes d + Z.of_nat (length bytes) /\
    (if offset =? 0
     then exists h, PacketChain.copy_out (chain pk) 0 (Z.to_nat (payload_offset p)) = Some h /\
            d_header d' = Some h /\ d_metadata d' = Some (metadata pk)
     else d_header d' = d_header d /\ d_metadata d' = d_metadata d) /\
    (if more fr then final_len d' = final_len d
     else final_len d' = Some (offset + payload_len p) /\
       forall n, final_len d = Some n -> n = offset + payload_len p).
Proof.
  unfold extend. destruct (PacketChain.copy_out (chain pk) (payload_offset p) _) as [bytes|]; [|done].
  cbn [mbind option_bind].
  destruct (offset =? 0); [destruct (PacketChain.copy_out (chain pk) 0 _) as [h|]; [|done]|];
    cbn [mbind option_bind final_len with_header];
    (destruct (more fr); [|destruct (final_len d) as [n|] eqn:En;
      [destruct (Z.eqb_spec n (offset + payload_len p)) as [->|]; [|done]|]]);
    cbn [negb mbind option_bind]; intros [= <-];
    (split_and!; [done..|]); exists bytes; split_and!; try done; try (by exists h); by intros ? [= ->].
Qed.

Lemma extend_wf d now pk p fr offset d' :
  wf_datagram d -> typed_packet pk -> arrived (d_key d) pk p fr -> malformed p fr = false ->
  offset = saturating_mul (frag_offset fr) 8 ->
  existsb (overlaps offset (offset + payload_len p)) (d_fragments d) = false ->
  extend d now pk p fr offset = Some d' ->
  wf_datagram d' /\ d_key d' = d_key d /\ d_payload_bytes d' = d_payload_bytes d + payload_len p.
Proof.
  intros Hw Ht Ha Hm -> Hov (Hk & Hv & _ & bytes & Hb & Hf & Hp & Hh & Hn)%extend_keeps.
  pose proof Ha as (_ & Hip & Hfr & _). destruct (typed_ip pk Ht p Hip) as (Hpo & Hpl & Hof).
  destruct (not_malformed p fr (Hof fr Hfr) Hpl Hm) as (E & Hpos & Hend). rewrite E in *.
  destruct (copy_out_result pk _ _ _ Ht Hb) as [Hlen Hbok].
  unfold is_u32, is_u16, U32_MAX in *. specialize (Hof fr Hfr).
  set (f := mk_bytes (frag_offset fr * 8) bytes) in *.
  assert (b_len f = payload_len p) as Hbl by (unfold b_len; simpl; lia).
  split; [|split; [done|lia]]. destruct Hw as [W1 W2 W3 W4 W5 W6 W7 W8].
  assert (forall P, Forall P (d_fragments d) -> P f -> Forall P (d_fragments d')) as Hall.
  { intros P ? ?. rewrite Hf, sort_by_offset_perm. apply Forall_app_2; [done|by apply Forall_singleton]. }
  split; rewrite ?Hk; try (apply Hall; [done|]).
  - rewrite Hf. apply extend_laid_out; [done|simpl; lia|lia|].
    apply Forall_forall. intros g Hg. unfold clear, b_end. rewrite Hbl. simpl.
    destruct (overlaps _ _ g) eqn:Eo; [|done]. assert (existsb (overlaps (frag_offset fr * 8)
      (frag_offset fr * 8 + payload_len p)) (d_fragments d) = true); [|congruence].
    apply existsb_exists. exists g. by rewrite <- list_elem_of_In.
  - unfold b_end. rewrite Hbl. simpl. lia.
  - rewrite Hp, Hf, (sum_len_perm _ _ (sort_by_offset_perm _)), sum_len_app, W3. simpl. unfold b_len. simpl. lia.
  - by exists pk, p, fr.
  - done.
  - destruct (Z.eqb_spec (frag_offset fr * 8) 0) as [E0|].
    + destruct Hh as (h & Hc & -> & ->). destruct (copy_out_result pk _ _ _ Ht Hc) as [Hlh Hokh].
      unfold U16_MAX in *. split_and!; [|done|lia|lia]. exists pk, p, fr. split_and!; try done. lia.
    + by destruct Hh as [-> ->].
  - destruct (more fr) eqn:Em; [rewrite Hn; apply W7|]. destruct Hn as [-> _].
    intros n [= <-]. by exists pk, p, fr.
  - by rewrite Hv.
Qed.

(** ** Deliveries *)

(** A packet handed on is made of fragments that arrived for its datagram: they
    follow one another from offset zero to the end the last one gave, and the
    header is that of a first fragment. *)
Definition genuine (key : ReassemblyKey) (r : ReassemblyResult) : Prop :=
  match r with
  | Complete c m =>
      exists h m0 fs n bytes,
        contiguous 0 fs = Some n /\ Forall (piece_of key) fs /\ final_of key n /\ header_of key h m0 /\
        PacketChain.holds c bytes /\
        rebuilt (is_v6 (k_source key)) h (mjoin (map b_bytes fs)) bytes /\
        m = with_rss_hash None (with_frame_len (Z.of_nat (length bytes)) m0)
  | Pending => True
  | Drop reason => reason <> FragmentLimit
  end.

Lemma is_complete_inv d :
  is_complete d = true ->
  exists h, d_header d = Some h /\ contiguous 0 (d_fragments d) = Some (sum_len (d_fragments d)) /\
    final_len d = Some (sum_len (d_fragments d)).
Proof.
  unfold is_complete. destruct (final_len d) as [n|]; [|done]. destruct (d_header d) as [h|]; [|done].
  destruct (contiguous 0 (d_fragments d)) as [e|] eqn:E; [|done]. intros ->%Z.eqb_eq.
  exists h. apply contiguous_sum in E as ->. by rewrite Z.add_0_l.
Qed.

Lemma wf_sum d : wf_datagram d -> sum_len (d_fragments d) <= MAX_PACKET_BYTES.
Proof.
  intros Hw. rewrite <- (Z.sub_0_r MAX_PACKET_BYTES). apply laid_out_sum; [apply Hw| |done].
  pose proof (proj2 (wf_laid_out d Hw)) as Hp. pose proof (wf_bound d Hw) as Hb.
  rewrite Forall_forall in *. intros f Hf. specialize (Hp f Hf). specialize (Hb f Hf). simpl in *. lia.
Qed.

Lemma wf_finished d h :
  wf_datagram d -> is_complete d = true -> d_header d = Some h ->
  exists m, header_of (d_key d) h m /\ finished d h m.
Proof.
  intros Hw Hc Hh. destruct (is_complete_inv d Hc) as (h' & Eh & _ & Hf).
  pose proof (wf_header d Hw) as H. rewrite Hh in H. destruct (d_metadata d) as [m|] eqn:Em; [|done].
  destruct H as (Hho & Hok & Hl). exists m. split; [done|]. split; try done; [apply Hw|by apply wf_sum].
Qed.

Lemma build_genuine d :
  wf_datagram d -> is_complete d = true ->
  exists r, build_packet d = Done r /\ genuine (d_key d) r.
Proof.
  intros Hw Hc. destruct (is_complete_inv d Hc) as (h & Hh & Hco & Hf).
  destruct (wf_finished d h Hw Hc Hh) as (m & Hho & Hfin).
  pose proof (build_packet_spec d h m Hfin) as Hb. cbn zeta in Hb.
  destruct (fixable _ _).
  - destruct Hb as (c & bytes & -> & Hc' & Hr). eexists. split; [done|].
    exists h, m, (d_fragments d), (sum_len (d_fragments d)), bytes.
    rewrite <- (wf_v6 d Hw). split_and!; try done; [apply Hw|by apply Hw].
  - rewrite Hb. eexists. split; [done|]. by simpl.
Qed.

(** ** Storing a fragment *)

Lemma store_spec t i d now pk p fr :
  inv t -> datagrams t !! i = Some d -> typed_packet pk -> arrived (d_key d) pk p fr ->
  malformed p fr = false ->
  let offset := saturating_mul (frag_offset fr) 8 in
  existsb (overlaps offset (offset + payload_len p)) (d_fragments d) = false ->
  used_bytes t (d_key d) + payload_len p <= MAX_BYTES_PER_INTERFACE ->
  exists r t', store t i now pk p fr offset = Done (r, t') /\ inv t' /\ genuine (d_key d) r /\
    match extend d now pk p fr offset with
    | None => r = Drop FragmentMalformed
    | Some d' =>
        if is_complete d' then build_packet d' = Done r /\ d_key d ∉ map d_key (datagrams t')
        else r = Pending /\ d' ∈ datagrams t'
    end.
Proof.
  intros Hi Hd Ht Ha Hm offset Hov Hu. unfold store. rewrite Hd. cbn [unwrap mbind exec_bind].
  pose proof Hi as [He Htot Hl]. assert (wf_datagram d) as Hw by (eapply Forall_lookup_1; eauto).
  destruct (extend d now pk p fr offset) as [d'|] eqn:Ex.
  2: { destruct (drop_entry_spec t i d (inv_counted t Hi) Hd) as (t' & -> & _ & _ & Hs).
       exists (Drop FragmentMalformed), t'. split_and!; [done|by eapply shrinks_inv|done|done]. }
  destruct (extend_wf d now pk p fr offset d' Hw Ht Ha Hm eq_refl Hov Ex) as (Hw' & Hk & Hp).
  pose proof (swap_remove_perm _ _ _ Hd) as Hperm.
  pose proof (insert_swap_perm (datagrams t) i d d' Hd) as Hins.
  set (t1 := mk_table (<[i := d']> (datagrams t)) (payload_bytes t + payload_len p)).
  assert (inv t1) as Hi1.
  { split; cbn [datagrams payload_bytes t1].
    - by apply Forall_insert.
    - rewrite Htot, (sum_payload_perm _ _ Hins), <- (sum_payload_perm _ _ Hperm). simpl. lia.
    - eapply limits_perm; [symmetry; exact Hins|]. apply (limits_replace d); [|done|].
      + by eapply limits_perm; [symmetry; exact Hperm|].
      + unfold used, used_bytes in *.
        rewrite (sum_payload_perm _ (filter (fun d0 => on_interface (k_interface (d_key d)) d0 = true)
          (datagrams t))); [lia|by rewrite Hperm]. }
  assert (datagrams t1 !! i = Some d') as Hd1.
  { cbn [datagrams t1]. apply list_lookup_insert_eq. by eapply lookup_lt_Some. }
  destruct (is_complete d') eqn:Ec; cbn [negb].
  2: { exists Pending, t1. split_and!; try done. by eapply list_elem_of_lookup_2. }
  destruct (take_entry_spec t1 i d' (inv_counted t1 Hi1) Hd1) as (t2 & -> & Hp2 & _ & Hs).
  destruct (build_genuine d' Hw' Ec) as (r & Hb & Hg). cbn [mbind exec_bind]. rewrite Hb. cbn [mbind exec_bind].
  exists r, t2. split_and!; [done|by eapply shrinks_inv|by rewrite <- Hk|done|].
  pose proof (limit_keys _ (inv_limits t1 Hi1)) as Hn. rewrite <- Hp2 in Hn. cbn [map] in Hn.
  apply NoDup_cons in Hn as [Hn _]. by rewrite <- Hk.
Qed.

(** ** Accepting a fragment *)

Lemma locate_spec t key now v6 :
  inv t -> v6 = is_v6 (k_source key) ->
  exists i t1 d,
    match position_of t key with
    | Some index => Done (Some index, t)
    | None => insert_datagram t key now v6
    end = Done (Some i, t1) /\ inv t1 /\ datagrams t1 !! i = Some d /\ d_key d = key /\
    (d ∈ datagrams t \/ (key ∉ map d_key (datagrams t)) /\ d = mk_datagram key now now None None [] None 0 v6).
Proof.
  intros Hi Hv. destruct (position_of t key) as [i|] eqn:E.
  - apply position_of_Some in E as (d & ? & ?). exists i, t, d. split_and!; try done.
    left. by eapply list_elem_of_lookup_2.
  - apply position_of_None in E. destruct (insert_datagram_spec t key now v6 Hi E Hv) as (t' & -> & _ & Hi').
    eexists _, _, _. split_and!; [done|done| | |by right];
      [cbn [datagrams]; by rewrite lookup_app_r, Nat.sub_diag|done].
Qed.

(** What a datagram may hold fits with the new fragment. *)
Lemma own_fits d p fr :
  wf_datagram d -> is_u16 (frag_offset fr) -> is_u32 (payload_len p) -> malformed p fr = false ->
  d_payload_bytes d + payload_len p <= MAX_BYTES_PER_INTERFACE.
Proof.
  intros Hw Ho Hl Hm. destruct (not_malformed p fr Ho Hl Hm) as (_ & _ & Hend).
  pose proof (wf_sum d Hw). rewrite (wf_payload d Hw).
  unfold is_u16, MAX_PACKET_BYTES, MAX_BYTES_PER_INTERFACE in *. lia.
Qed.

Lemma same_entry t t' d i :
  inv t -> inv t' -> datagrams t !! i = Some d ->
  filter (own (d_key d)) (datagrams t') ≡ₚ filter (own (d_key d)) (datagrams t) ->
  exists j, position_of t' (d_key d) = Some j /\ datagrams t' !! j = Some d.
Proof.
  intros Hi Hi' Hd Hf. rewrite (filter_own t i d) in Hf by (done || apply Hi).
  assert (d ∈ datagrams t') as Hin.
  { assert (d ∈ filter (own (d_key d)) (datagrams t')) as [_ ?]%list_elem_of_filter; [|done].
    rewrite Hf. by left. }
  destruct (position_of t' (d_key d)) as [j|] eqn:E.
  - apply position_of_Some in E as (d' & Hj & Hk). exists j. split; [done|].
    rewrite <- Hk in Hf. rewrite (filter_own t' j d') in Hf by (done || apply Hi').
    apply Permutation_singleton_inj in Hf as ->. done.
  - exfalso. apply position_of_None in E. apply E. apply list_elem_of_fmap. by exists d.
Qed.

(** [accept] gives up on an overlap and stores the fragment otherwise, in the
    datagram it found or added. *)
Lemma accept_cases t interface now pk p fr :
  inv t -> is_u16 (frag_offset fr) -> is_u32 (payload_len p) -> malformed p fr = false ->
  let key := key_of interface p fr in
  let offset := saturating_mul (frag_offset fr) 8 in
  exists d, d_key d = key /\
    (d ∈ datagrams t \/ (key ∉ map d_key (datagrams t)) /\
       d = mk_datagram key now now None None [] None 0 (is_v6 (source p))) /\
    if existsb (overlaps offset (offset + payload_len p)) (d_fragments d)
    then exists t', accept t interface now pk p fr = Done (Drop FragmentOverlap, t') /\ inv t'
    else exists t' i, accept t interface now pk p fr = store t' i now pk p fr offset /\ inv t' /\
      datagrams t' !! i = Some d /\ used_bytes t' key + payload_len p <= MAX_BYTES_PER_INTERFACE.
Proof.
  intros Hi Hof Hpl Hm key offset. unfold accept. cbn zeta. fold key offset.
  destruct (locate_spec t key now (is_v6 (source p)) Hi eq_refl) as (i & t1 & d & -> & Hi1 & Hd & Hk & Hfrom).
  exists d. split_and!; [done|done|]. cbn [mbind exec_bind]. rewrite Hd. cbn [unwrap mbind exec_bind].
  pose proof Hi1 as [He1 _ _]. assert (wf_datagram d) as Hw by (eapply Forall_lookup_1; eauto).
  destruct (existsb _ (d_fragments d)) eqn:Eo.
  { destruct (drop_entry_spec t1 i d (inv_counted t1 Hi1) Hd) as (t2 & -> & _ & _ & Hs).
    exists t2. split; [done|by eapply shrinks_inv]. }
  unfold ensure_payload_capacity.
  destruct (capacity_loop_spec (length (datagrams t1)) t1 key (payload_len p) (inv_counted t1 Hi1) (Nat.le_refl _))
    as (t2 & -> & Hs2 & Hf2 & Hu2).
  { rewrite <- Hk, (filter_own t1 i d) by (done || apply Hi1). simpl.
    pose proof (own_fits d p fr Hw Hof Hpl Hm). lia. }
  cbn [mbind exec_bind negb]. pose proof (shrinks_inv t1 t2 Hi1 Hs2) as Hi2. rewrite <- Hk in Hf2.
  destruct (same_entry t1 t2 d i Hi1 Hi2 Hd Hf2) as (j & Hj & Hdj). rewrite Hk in Hj. rewrite Hj.
  by exists t2, j.
Qed.

Lemma accept_spec t interface now pk p fr :
  inv t -> typed_packet pk -> (interface, pk) ∈ hist -> ip pk = Some p -> fragment p = Some fr ->
  malformed p fr = false ->
  exists r t', accept t interface now pk p fr = Done (r, t') /\ inv t' /\
    genuine (key_of interface p fr) r.
Proof.
  intros Hi Ht Hin Hip Hfr Hm. destruct (typed_ip pk Ht p Hip) as (_ & Hpl & Hof). specialize (Hof fr Hfr).
  destruct (accept_cases t interface now pk p fr Hi Hof Hpl Hm) as (d & Hk & _ & Hcase).
  destruct (existsb _ _) eqn:Eo.
  - destruct Hcase as (t' & -> & Hi'). by exists (Drop FragmentOverlap), t'.
  - destruct Hcase as (t' & i & -> & Hi' & Hd & Hu). pose proof (store_spec t' i d now pk p fr Hi' Hd Ht) as Hs.
    rewrite Hk in Hs. destruct Hs as (r & t2 & ? & ? & ? & _); try done. by exists r, t2.
Qed.

(** [ingest] is [accept] on what has not expired. *)
Lemma ingest_accept t interface now pk p fr :
  inv t -> ip pk = Some p -> fragment p = Some fr -> malformed p fr = false ->
  exists t1, ingest t interface now pk = accept t1 interface now pk p fr /\ inv t1 /\
    datagrams t1 ≡ₚ filter (fun d => expired now d = false) (datagrams t).
Proof.
  intros Hi Hip Hfr Hm. unfold ingest, expire, count_removed.
  destruct (remove_loop_spec (length (datagrams t)) (expired now) 0 t (inv_counted t Hi)) as (t1 & -> & Hs & Hp);
    [lia|constructor|]. cbn [mbind exec_bind]. rewrite Hip, Hfr, Hm. exists t1.
  split_and!; [done|by eapply shrinks_inv|done].
Qed.

Lemma ingest_spec t interface now pk :
  inv t -> typed_packet pk -> (interface, pk) ∈ hist ->
  exists r t', ingest t interface now pk = Done (r, t') /\ inv t' /\
    match r with Complete _ _ => exists p fr, ip pk = Some p /\ fragment p = Some fr /\
                                   genuine (key_of interface p fr) r
                 | _ => r <> Drop FragmentLimit end.
Proof.
  intros Hi Ht Hin. unfold ingest, expire, count_removed.
  destruct (remove_loop_spec (length (datagrams t)) (expired now) 0 t (inv_counted t Hi)) as (t1 & -> & Hs & _);
    [lia|constructor|]. cbn [mbind exec_bind]. pose proof (shrinks_inv t t1 Hi Hs) as Hi1.
  destruct (ip pk) as [p|] eqn:Hip; [|by exists (Drop FragmentMalformed), t1].
  destruct (fragment p) as [fr|] eqn:Hfr; [|by exists (Drop FragmentMalformed), t1].
  destruct (malformed p fr) eqn:Hm; [by exists (Drop FragmentMalformed), t1|].
  destruct (accept_spec t1 interface now pk p fr Hi1 Ht Hin Hip Hfr Hm) as (r & t2 & -> & Hi2 & Hg).
  exists r, t2. split_and!; try done. destruct r; [done|by exists p, fr|]. simpl in Hg. congruence.
Qed.

Lemma new_inv : inv new.
Proof. split; [constructor|done|]. split; [constructor|done..]. Qed.

End history.

(** A longer history keeps what an earlier one showed. *)
Lemma inv_mono hist hist' t : hist ⊆ hist' -> inv hist t -> inv hist' t.
Proof.
  intros Hsub [He Ht Hl]. split; [|done|done]. eapply Forall_impl; [exact He|].
  assert (forall key pk p fr, arrived hist key pk p fr -> arrived hist' key pk p fr) as Ha.
  { intros key pk p fr (? & ? & ? & ?). split_and!; try done. by apply Hsub. }
  intros d [W1 W2 W3 W4 W5 W6 W7 W8]. split; try done.
  - eapply Forall_impl; [exact W4|]. intros f (pk & p & fr & ? & ?). exists pk, p, fr. auto.
  - destruct (d_header d) as [h|], (d_metadata d) as [m|]; try done. destruct W6 as [(pk & p & fr & ? & ?) ?].
    split; [|done]. exists pk, p, fr. auto.
  - intros n Hn. destruct (W7 n Hn) as (pk & p & fr & ? & ?). exists pk, p, fr. auto.
Qed.
