(* ===== verification/ReassemblyProps.v ===== *)
(** * Reassembly: properties

    Any sequence of operations keeps the table within its limits and hands on
    only what arrived; and the fragments of a datagram, in whatever order they
    arrive, reassemble into it. *)

From S2P Require Import Prelude NetTypes Packet Reassembly ReassemblyTable.
From S2P Require Import ReassemblyBuild ReassemblyProofs.

(** ** Sequences of operations *)

Inductive reassembly_op : Type :=
| OpIngest (interface now_ns : Z) (pk : FrontendPacket)
| OpExpire (now_ns : Z)
| OpInvalidate (interface : Z).

Inductive reassembly_out : Type := OutResult (r : ReassemblyResult) | OutCount (n : Z).

Definition apply_op (t : ReassemblyTable) (op : reassembly_op) : exec (reassembly_out * ReassemblyTable) :=
  match op with
  | OpIngest i now pk => '((r, t) : ReassemblyResult * ReassemblyTable) ← ingest t i now pk; Done (OutResult r, t)
  | OpExpire now => '((n, t) : Z * ReassemblyTable) ← expire t now; Done (OutCount n, t)
  | OpInvalidate i => '((n, t) : Z * ReassemblyTable) ← invalidate_interface t i; Done (OutCount n, t)
  end.

Fixpoint run_ops (t : ReassemblyTable) (ops : list reassembly_op)
  : exec (list reassembly_out * ReassemblyTable) :=
  match ops with
  | [] => Done ([], t)
  | op :: ops =>
      '((o, t) : reassembly_out * ReassemblyTable) ← apply_op t op;
      '((os, t) : list reassembly_out * ReassemblyTable) ← run_ops t ops;
      Done (o :: os, t)
  end.

(** The packets of a sequence, with their interfaces. *)
Definition packets (ops : list reassembly_op) : list (Z * FrontendPacket) :=
  omap (fun op => match op with OpIngest i _ pk => Some (i, pk) | _ => None end) ops.

Definition typed_op (op : reassembly_op) : Prop :=
  match op with OpIngest _ _ pk => typed_packet pk | _ => True end.

(** What an answer may be. *)
Definition sound_out (hist : list (Z * FrontendPacket)) (o : reassembly_out) : Prop :=
  match o with
  | OutResult (Complete c m) => exists key, genuine hist key (Complete c m)
  | OutResult r => r <> Drop FragmentLimit
  | OutCount n => 0 <= n
  end.

Lemma count_removed_spec hist t drops :
  inv hist t ->
  exists n t', count_removed drops t = Done (n, t') /\ inv hist t' /\ 0 <= n.
Proof.
  intros Hi. unfold count_removed.
  destruct (remove_loop_spec (length (datagrams t)) drops 0 t (inv_counted hist t Hi)) as (t' & -> & Hs & Hp);
    [lia|constructor|]. cbn [mbind exec_bind]. eexists _, t'. split_and!; [done|by eapply shrinks_inv|].
  pose proof (submseteq_length _ _ (shrinks_entries _ _ Hs)). lia.
Qed.

Lemma reassembly_op_spec hist t op :
  inv hist t -> typed_op op -> packets [op] ⊆ hist ->
  exists o t', apply_op t op = Done (o, t') /\ inv hist t' /\ sound_out hist o.
Proof.
  intros Hi Ht Hin. destruct op as [i now pk|now|i]; cbn [apply_op].
  - destruct (ingest_spec hist t i now pk Hi Ht) as (r & t' & -> & Hi' & Hr).
    { apply Hin. by left. }
    exists (OutResult r), t'. split_and!; try done. destruct r; simpl; try done.
    destruct Hr as (p & fr & _ & _ & Hg). by exists (key_of i p fr).
  - destruct (count_removed_spec hist t (expired now) Hi) as (n & t' & E & Hi' & Hn).
    unfold expire. rewrite E. by exists (OutCount n), t'.
  - destruct (count_removed_spec hist t (on_interface i) Hi) as (n & t' & E & Hi' & Hn).
    unfold invalidate_interface. rewrite E. by exists (OutCount n), t'.
Qed.

Lemma packets_cons op ops : packets (op :: ops) = packets [op] ++ packets ops.
Proof. by destruct op. Qed.

Lemma reassembly_run_spec hist t ops :
  inv hist t -> Forall typed_op ops -> packets ops ⊆ hist ->
  exists os t', run_ops t ops = Done (os, t') /\ inv hist t' /\ Forall (sound_out hist) os.
Proof.
  revert t. induction ops as [|op ops IH]; intros t Hi Ht Hin; [by exists [], t|].
  apply Forall_cons in Ht as [Ht Hts]. rewrite packets_cons in Hin.
  destruct (reassembly_op_spec hist t op Hi Ht) as (o & t1 & E & Hi1 & Ho).
  { intros x Hx. apply Hin. apply elem_of_app. by left. }
  destruct (IH t1 Hi1 Hts) as (os & t2 & E2 & Hi2 & Hos).
  { intros x Hx. apply Hin. apply elem_of_app. by right. }
  exists (o :: os), t2. cbn [run_ops]. rewrite E. cbn [mbind exec_bind]. rewrite E2.
  split_and!; [done|done|by constructor].
Qed.

(** ** The fragments of a datagram *)

(** [pk] carries the fragment [f] of the datagram [key], whose payload has [n]
    bytes and whose first fragment has the header [h] and the metadata [m]. *)
Definition carries (interface : Z) (key : ReassemblyKey) (h : list Z) (m : PacketMetadata) (n : Z)
    (pk : FrontendPacket) (f : FragmentBytes) : Prop :=
  typed_packet pk /\
  exists p fr, ip pk = Some p /\ fragment p = Some fr /\ key_of interface p fr = key /\
    malformed p fr = false /\ b_offset f = frag_offset fr * 8 /\
    PacketChain.copy_out (chain pk) (payload_offset p) (Z.to_nat (payload_len p)) = Some (b_bytes f) /\
    (frag_offset fr = 0 ->
       PacketChain.copy_out (chain pk) 0 (Z.to_nat (payload_offset p)) = Some h /\ metadata pk = m) /\
    more fr = negb (b_end f =? n).

(** The datagram after the fragments [received]. *)
Record partial (key : ReassemblyKey) (h : list Z) (m : PacketMetadata) (n : Z)
    (received : list FragmentBytes) (now : Z) (d : Datagram) : Prop := {
  partial_key : d_key d = key;
  partial_fragments : d_fragments d ≡ₚ received;
  partial_header : d_header d = if existsb (fun f => b_offset f =? 0) received then Some h else None;
  partial_metadata : d_metadata d = if existsb (fun f => b_offset f =? 0) received then Some m else None;
  partial_final : final_len d = if existsb (fun f => b_end f =? n) received then Some n else None;
  partial_time : received <> [] -> updated_ns d = now
}.

Lemma partial_fresh key h m n now v6 :
  partial key h m n [] now (mk_datagram key now now None None [] None 0 v6).
Proof. by split. Qed.

Lemma existsb_last {A} (p : A -> bool) l x : existsb p (l ++ [x]) = existsb p l || p x.
Proof. rewrite existsb_app. simpl. by rewrite orb_false_r. Qed.

Lemma extend_succeeds d now pk p fr offset bytes h :
  PacketChain.copy_out (chain pk) (payload_offset p) (Z.to_nat (payload_len p)) = Some bytes ->
  (offset = 0 -> PacketChain.copy_out (chain pk) 0 (Z.to_nat (payload_offset p)) = Some h) ->
  (more fr = false -> forall n, final_len d = Some n -> n = offset + payload_len p) ->
  is_Some (extend d now pk p fr offset).
Proof.
  intros Hb Hh Hn. unfold extend. rewrite Hb. cbn [mbind option_bind].
  assert (forall e, final_len e = final_len d -> is_Some
    (if more fr then Some e
     else if match final_len e with Some n => negb (n =? offset + payload_len p) | None => false end
          then None else Some (with_final (offset + payload_len p) e))) as Hfin.
  { intros e ->. destruct (more fr); [done|]. destruct (final_len d) as [n|]; [|done].
    rewrite (Hn eq_refl n eq_refl). by rewrite Z.eqb_refl. }
  destruct (Z.eqb_spec offset 0) as [E|]; [rewrite (Hh E)|]; cbn [mbind option_bind];
    [destruct (Hfin (with_header h (metadata pk) d) eq_refl) as [e He]|destruct (Hfin d eq_refl) as [e He]];
    rewrite He; by eexists.
Qed.

(** The next fragment always extends the datagram. *)
Lemma extend_partial interface key h m n received f now0 now d pk p fr :
  partial key h m n received now0 d -> carries interface key h m n pk f ->
  ip pk = Some p -> fragment p = Some fr ->
  let offset := saturating_mul (frag_offset fr) 8 in
  offset = b_offset f /\ payload_len p = b_len f /\
  exists d', extend d now pk p fr offset = Some d' /\ partial key h m n (received ++ [f]) now d'.
Proof.
  intros [Hk Hf Hh Hm Hn Ht] (Hty & p' & fr' & Hip' & Hfr' & _ & Hmal & Ho & Hb & Hhead & Hmore) Hip Hfr offset.
  rewrite Hip' in Hip. injection Hip as ->. rewrite Hfr' in Hfr. injection Hfr as ->.
  destruct (typed_ip pk Hty p Hip') as (_ & Hpl & Hof). specialize (Hof fr Hfr').
  destruct (not_malformed p fr Hof Hpl Hmal) as (E & Hpos & _).
  destruct (copy_out_result pk _ _ _ Hty Hb) as [Hlen _].
  assert (payload_len p = b_len f) as Hbl by (unfold b_len; lia).
  assert (offset = b_offset f) as Eo by (subst offset; lia). split_and!; [done|done|].
  assert (offset + payload_len p = b_end f) as He by (unfold b_end; lia).
  destruct (extend_succeeds d now pk p fr offset (b_bytes f) h) as [d' Hd']; [exact Hb| | |].
  { intros E0. apply Hhead. lia. }
  { intros Emore n' Hn'. rewrite Hn in Hn'. rewrite Emore in Hmore. symmetry in Hmore.
    apply negb_false_iff, Z.eqb_eq in Hmore. destruct (existsb (fun f => b_end f =? n) received); [|done]. injection Hn' as <-. lia. }
  exists d'. split; [done|].
  apply extend_keeps in Hd' as (Hk' & _ & Hu & bytes & Hb' & Hf' & _ & Hh' & Hn'). rewrite Eo in Hh', Hf'.
  rewrite Hb in Hb'. injection Hb' as <-. split.
  - by rewrite Hk'.
  - rewrite Hf', sort_by_offset_perm, Hf. by destruct f.
  - rewrite existsb_last. destruct (Z.eqb_spec (b_offset f) 0).
    + destruct Hh' as (h' & Hc & -> & _). rewrite orb_true_r. rewrite <- Hc. apply Hhead. lia.
    + destruct Hh' as [-> _]. by rewrite orb_false_r.
  - rewrite existsb_last. destruct (Z.eqb_spec (b_offset f) 0).
    + destruct Hh' as (h' & _ & _ & ->). rewrite orb_true_r. f_equal. apply Hhead. lia.
    + destruct Hh' as [_ ->]. by rewrite orb_false_r.
  - rewrite existsb_last, Hmore in *. destruct (Z.eqb_spec (b_end f) n) as [<-|].
    + destruct Hn' as [-> _]. rewrite orb_true_r. by rewrite He.
    + rewrite Hn'. by rewrite orb_false_r.
  - done.
Qed.

(** Fragments that follow one another are laid out. *)
Lemma contiguous_laid_out ps lo n :
  0 <= lo -> Forall (fun f => 0 < b_len f) ps -> contiguous lo ps = Some n ->
  laid_out ps /\ Forall (fun f => lo <= b_offset f) ps.
Proof.
  revert lo. induction ps as [|f ps IH]; intros lo Hlo Hp Hc; [by repeat constructor|].
  apply Forall_cons in Hp as [Hf Hp]. simpl in Hc.
  destruct (Z.eqb_spec (b_offset f) lo) as [E|]; [|done]. cbn [negb] in Hc.
  destruct (IH (lo + b_len f) ltac:(lia) Hp Hc) as [[Hs Hpos] Hge]. split; [split|].
  - constructor; [done|]. eapply Forall_impl; [exact Hge|]. unfold before, b_end. simpl. intros. lia.
  - constructor; [lia|done].
  - constructor; [lia|]. eapply Forall_impl; [exact Hge|]. simpl. intros. lia.
Qed.

Lemma laid_out_clear ps f l : laid_out ps -> f :: l ≡ₚ ps -> Forall (clear f) l.
Proof.
  intros [Hs _] Hp. assert (f ∈ ps) as (l1 & l2 & ->)%list_elem_of_split by (rewrite <- Hp; by left).
  rewrite <- Permutation_middle in Hp. apply Permutation_cons_inv in Hp. rewrite Hp.
  apply Forall_app_2; apply Forall_forall; intros g Hg.
  - apply clear_sym, before_clear. eapply StronglySorted_app_1_elem_of; [exact Hs|done|by left].
  - apply before_clear. change (f :: l2) with ([f] ++ l2) in Hs. rewrite app_assoc in Hs.
    eapply StronglySorted_app_1_elem_of; [exact Hs| |done]. apply elem_of_app. right. by left.
Qed.

(** The first and the last fragment of a datagram. *)
Lemma contiguous_ends ps n :
  ps <> [] -> contiguous 0 ps = Some n ->
  existsb (fun f => b_offset f =? 0) ps = true /\ existsb (fun f => b_end f =? n) ps = true.
Proof.
  intros Hne Hc. split.
  - destruct ps as [|f ps]; [done|]. simpl in *. by destruct (b_offset f =? 0).
  - revert Hc. generalize 0. induction ps as [|f ps IH]; intros lo Hc; [done|]. simpl in *.
    destruct (Z.eqb_spec (b_offset f) lo) as [E|]; [|done]. cbn [negb] in Hc.
    destruct ps as [|g ps].
    + simpl in Hc. injection Hc as <-. unfold b_end. by rewrite E, Z.eqb_refl.
    + rewrite (IH ltac:(done) _ Hc). by rewrite orb_true_r.
Qed.

Lemma existsb_perm {A} (p : A -> bool) l l' : l ≡ₚ l' -> existsb p l = existsb p l'.
Proof.
  intros Hp. apply eq_true_iff_eq. rewrite !existsb_exists.
  split; intros (x & Hx & ?); exists x; (split; [|done]);
    apply list_elem_of_In; apply list_elem_of_In in Hx; [by rewrite <- Hp|by rewrite Hp].
Qed.

(** A datagram is complete when nothing is missing, and not before. *)
Lemma partial_complete key h m n received rest ps now d :
  partial key h m n received now d -> laid_out (d_fragments d) ->
  laid_out ps -> contiguous 0 ps = Some n -> ps <> [] -> received ++ rest ≡ₚ ps ->
  is_complete d = match rest with [] => true | _ => false end.
Proof.
  intros [_ Hf Hh _ Hn _] Hd Hps Hc Hne Hp. pose proof (contiguous_sum _ _ _ Hc) as Hsum.
  destruct rest as [|f rest].
  - rewrite app_nil_r in Hp. destruct (contiguous_ends ps n Hne Hc) as [E1 E2].
    rewrite (existsb_perm _ _ _ Hp), E1 in Hh. rewrite (existsb_perm _ _ _ Hp), E2 in Hn.
    unfold is_complete. rewrite Hn, Hh.
    rewrite (laid_out_unique (d_fragments d) ps) by (done || by rewrite Hf). by rewrite Hc, Z.eqb_refl.
  - destruct (is_complete d) eqn:E; [|done]. exfalso.
    destruct (is_complete_inv d E) as (_ & _ & _ & Hfin). rewrite Hn in Hfin.
    destruct (existsb (fun f => b_end f =? n) received); [|done]. injection Hfin as Hfin.
    rewrite (sum_len_perm _ _ Hf) in Hfin. rewrite <- (sum_len_perm _ _ Hp), sum_len_app in Hsum.
    assert (f ∈ ps) as Hin by (rewrite <- Hp; apply elem_of_app; right; by left).
    pose proof (proj1 (Forall_forall _ _) (proj2 Hps) f Hin) as [_ Hpos].
    pose proof (sum_len_pos (f :: rest) f ltac:(by left) Hpos). lia.
Qed.

(** ** One fragment of a datagram *)

(** The table before the next fragment: without the datagram when nothing has
    arrived, with its part otherwise, touched last at [now0]. *)
Definition waiting (t : ReassemblyTable) (key : ReassemblyKey) (h : list Z) (m : PacketMetadata) (n : Z)
    (received : list FragmentBytes) (now0 now : Z) : Prop :=
  match received with
  | [] => key ∉ map d_key (datagrams t)
  | _ => exists d, partial key h m n received now0 d /\ d ∈ datagrams t /\ now - now0 < REASSEMBLY_TIMEOUT_NS
  end.

Lemma same_key hist t d d' :
  inv hist t -> d ∈ datagrams t -> d' ∈ datagrams t -> d_key d = d_key d' -> d = d'.
Proof.
  intros Hi [i Hd]%list_elem_of_lookup [j Hd']%list_elem_of_lookup Hk.
  pose proof (filter_own t i d (limit_keys _ (inv_limits _ _ Hi)) Hd) as E1.
  pose proof (filter_own t j d' (limit_keys _ (inv_limits _ _ Hi)) Hd') as E2.
  rewrite Hk in E1. rewrite E1 in E2. by injection E2.
Qed.

(** The entry [accept] works on is the part that is there, or a fresh one. *)
Lemma waiting_entry hist t t1 key h m n received now0 now d v6 :
  inv hist t1 -> waiting t key h m n received now0 now ->
  datagrams t1 ≡ₚ filter (fun d => expired now d = false) (datagrams t) -> d_key d = key ->
  (d ∈ datagrams t1 \/ (key ∉ map d_key (datagrams t1)) /\ d = mk_datagram key now now None None [] None 0 v6) ->
  exists now', partial key h m n received now' d.
Proof.
  intros Hi Hw Hp Hk Hd. destruct received as [|f received].
  - destruct Hd as [Hd|[_ ->]]; [|exists now; apply partial_fresh]. exfalso. apply Hw.
    rewrite Hp in Hd. apply list_elem_of_filter in Hd as [_ Hd]. apply list_elem_of_fmap. by exists d.
  - destruct Hw as (d0 & Hpart & Hd0 & Ht). exists now0.
    assert (d0 ∈ datagrams t1) as Hd1.
    { rewrite Hp. apply list_elem_of_filter. split; [|done]. unfold expired, saturating_sub.
      rewrite (partial_time _ _ _ _ _ _ _ Hpart) by done. apply Z.leb_gt.
      unfold REASSEMBLY_TIMEOUT_NS in *. lia. }
    assert (d_key d0 = key) as Hk0 by apply Hpart.
    destruct Hd as [Hd|[Hn _]].
    + by rewrite (same_key hist t1 d d0 Hi Hd Hd1) by congruence.
    + exfalso. apply Hn. apply list_elem_of_fmap. by exists d0.
Qed.

Lemma ingest_waiting hist t interface key h m n received f rest ps now0 now pk :
  inv hist t -> waiting t key h m n received now0 now ->
  laid_out ps -> contiguous 0 ps = Some n -> received ++ f :: rest ≡ₚ ps ->
  carries interface key h m n pk f -> (interface, pk) ∈ hist ->
  exists r t' d, ingest t interface now pk = Done (r, t') /\ inv hist t' /\
    partial key h m n (received ++ [f]) now d /\ laid_out (d_fragments d) /\ wf_datagram hist d /\
    match rest with
    | [] => build_packet d = Done r /\ key ∉ map d_key (datagrams t')
    | _ => r = Pending /\ d ∈ datagrams t'
    end.
Proof.
  intros Hi Hw Hps Hc Hperm Hcar Hin. pose proof Hcar as (Hty & p & fr & Hip & Hfr & Hkey & Hmal & _).
  destruct (typed_ip pk Hty p Hip) as (_ & Hpl & Hof). specialize (Hof fr Hfr).
  destruct (ingest_accept hist t interface now pk p fr Hi Hip Hfr Hmal) as (t1 & -> & Hi1 & Hp1).
  destruct (accept_cases hist t1 interface now pk p fr Hi1 Hof Hpl Hmal) as (d & Hk & Hfrom & Hcase).
  rewrite Hkey in *.
  destruct (waiting_entry hist t t1 key h m n received now0 now d _ Hi1 Hw Hp1 Hk Hfrom) as (now' & Hpart).
  destruct (extend_partial interface key h m n received f now' now d pk p fr Hpart Hcar Hip Hfr)
    as (Eo & El & d' & Hext & Hpart').
  assert (existsb (overlaps (saturating_mul (frag_offset fr) 8)
    (saturating_mul (frag_offset fr) 8 + payload_len p)) (d_fragments d) = false) as Hov.
  { rewrite Eo, El. rewrite (existsb_perm _ _ _ (partial_fragments _ _ _ _ _ _ _ Hpart)).
    rewrite <- Permutation_middle in Hperm. apply (laid_out_clear _ _ _ Hps), Forall_app in Hperm as [Hclear _].
    clear -Hclear. induction Hclear as [|g gs Hg _ IH]; [done|]. simpl. rewrite IH, orb_false_r. exact Hg. }
  rewrite Hov in Hcase. destruct Hcase as (t2 & i & -> & Hi2 & Hd & Hu).
  assert (arrived hist (d_key d) pk p fr) as Harr.
  { rewrite Hk, <- Hkey. by split_and!. }
  assert (wf_datagram hist d) as Hwd by (eapply Forall_lookup_1; [apply Hi2|done]).
  destruct (extend_wf hist d now pk p fr _ d' Hwd Hty Harr Hmal eq_refl Hov Hext) as (Hwd' & _ & _).
  pose proof (store_spec hist t2 i d now pk p fr Hi2 Hd Hty Harr Hmal Hov) as Hst.
  rewrite Hk in Hst. destruct (Hst Hu) as (r & t3 & -> & Hi3 & _ & Hres). rewrite Hext in Hres.
  exists r, t3, d'. split_and!; try done; [apply Hwd'|].
  rewrite (partial_complete key h m n (received ++ [f]) rest ps now d') in Hres; try done.
  - by destruct rest.
  - apply Hwd'.
  - intros ->. by apply Permutation_nil_r, app_eq_nil in Hperm as [_ ?].
  - by rewrite <- app_assoc.
Qed.

(** ** All the fragments of a datagram *)

Definition delivered (v6 : bool) (h : list Z) (m : PacketMetadata) (payload : list Z) (r : ReassemblyResult)
  : Prop :=
  if fixable v6 (h ++ payload)
  then exists c bytes, r = Complete c (with_rss_hash None (with_frame_len (Z.of_nat (length bytes)) m)) /\
    PacketChain.holds c bytes /\ rebuilt v6 h payload bytes
  else r = Drop FragmentMalformed.

Lemma partial_delivered hist key h m n ps now d r :
  partial key h m n ps now d -> wf_datagram hist d -> laid_out ps -> contiguous 0 ps = Some n -> ps <> [] ->
  build_packet d = Done r ->
  delivered (is_v6 (k_source key)) h m (mjoin (map b_bytes ps)) r.
Proof.
  intros Hpart Hw Hps Hc Hne Hb. pose proof (wf_laid_out hist d Hw) as Hl.
  assert (is_complete d = true) as Hcomp.
  { rewrite (partial_complete key h m n ps [] ps now d); try done. by rewrite app_nil_r. }
  destruct Hpart as [Hk Hf Hh Hm Hn _]. rewrite (proj1 (contiguous_ends ps n Hne Hc)) in Hh, Hm.
  destruct (wf_finished hist d h Hw Hcomp Hh) as (m' & _ & Hfin).
  assert (m' = m) as -> by (pose proof (finished_metadata d h m' Hfin); congruence).
  pose proof (build_packet_spec d h m Hfin) as Hspec. cbn zeta in Hspec.
  rewrite (wf_v6 hist d Hw), Hk, (laid_out_unique _ _ Hl Hps Hf) in Hspec. unfold delivered.
  destruct (fixable _ _); [|congruence]. destruct Hspec as (c & bytes & E & ? & ?). exists c, bytes.
  split_and!; [congruence|done|done].
Qed.

(** Each fragment comes within the timeout of the one before it. *)
Fixpoint timely (now0 : Z) (arrivals : list (Z * FrontendPacket)) : Prop :=
  match arrivals with
  | [] => True
  | (now, _) :: arrivals => now - now0 < REASSEMBLY_TIMEOUT_NS /\ timely now arrivals
  end.

Definition ingest_ops (interface : Z) (arrivals : list (Z * FrontendPacket)) : list reassembly_op :=
  map (fun a => OpIngest interface (fst a) (snd a)) arrivals.

(** The answers to a datagram's fragments. *)
Definition answers (k : nat) (r : ReassemblyResult) : list reassembly_out :=
  replicate (k - 1) (OutResult Pending) ++ [OutResult r].

Lemma run_fragments hist interface key h m n ps now pk arrivals f fs received now0 t :
  inv hist t -> waiting t key h m n received now0 now -> timely now arrivals ->
  Forall2 (fun a f => carries interface key h m n (snd a) f) ((now, pk) :: arrivals) (f :: fs) ->
  map (fun a => (interface, snd a)) ((now, pk) :: arrivals) ⊆ hist ->
  laid_out ps -> contiguous 0 ps = Some n -> received ++ f :: fs ≡ₚ ps ->
  exists r t', run_ops t (ingest_ops interface ((now, pk) :: arrivals))
      = Done (answers (S (length arrivals)) r, t') /\
    delivered (is_v6 (k_source key)) h m (mjoin (map b_bytes ps)) r /\ key ∉ map d_key (datagrams t').
Proof.
  revert t now pk f fs received now0. induction arrivals as [|[now1 pk1] arrivals IH];
    intros t now pk f fs received now0 Hi Hw Ht Hcar Hin Hps Hc Hp;
    apply Forall2_cons in Hcar as [Hcar Hcars].
  - apply Forall2_nil_inv_l in Hcars as ->.
    destruct (ingest_waiting hist t interface key h m n received f [] ps now0 now pk)
      as (r & t' & d & E & _ & Hpart & _ & Hwf & Hb & Hk); try done; [apply Hin; by left|].
    exists r, t'. cbn. rewrite E. split_and!; [done| |done].
    assert (received ++ [f] <> []) as Hne by (by destruct received).
    apply (partial_delivered hist key h m n ps now d); try done.
    + destruct Hpart as [P1 P2 P3 P4 P5 P6].
      split; rewrite <- ?(existsb_perm _ _ _ Hp); try done; [by rewrite <- Hp|by intros _; apply P6].
    + intros ->. by apply Permutation_nil_r in Hp.
  - destruct fs as [|f1 fs]; [by apply Forall2_nil_inv_r in Hcars|].
    destruct (ingest_waiting hist t interface key h m n received f (f1 :: fs) ps now0 now pk)
      as (r & t' & d & E & Hi' & Hpart & _ & _ & -> & Hd); try done; [apply Hin; by left|].
    destruct Ht as [Htime Ht].
    destruct (IH t' now1 pk1 f1 fs (received ++ [f]) now) as (r & t2 & E2 & Hdel & Hk); try done.
    + destruct received as [|g received]; by exists d.
    + intros x Hx. apply Hin. by right.
    + by rewrite <- app_assoc.
    + exists r, t2. split_and!; [|done|done]. change (run_ops t _) with
        ('((o, t) : reassembly_out * ReassemblyTable) ← apply_op t (OpIngest interface now pk);
         '((os, t) : list reassembly_out * ReassemblyTable) ←
            run_ops t (ingest_ops interface ((now1, pk1) :: arrivals)); Done (o :: os, t)).
      cbn [apply_op]. rewrite E. cbn [mbind exec_bind]. rewrite E2. cbn [mbind exec_bind].
      do 2 f_equal. unfold answers. simpl. by rewrite Nat.sub_0_r.
Qed.

(** Nothing the table is given makes it panic, exceed its limits or lose
    count: whatever packets arrive and whatever expires, there are at most 64
    datagrams and 256 KiB of fragments per interface and 8 datagrams per source,
    the byte count is the sum over the datagrams, no fragment is refused for
    lack of room, and every packet handed on is made of fragments that arrived
    for that very datagram, one after the other from its start to its end. *)
Theorem reassembly_sound ops :
  Forall typed_op ops ->
  exists os t, run_ops new ops = Done (os, t) /\
    payload_bytes t = sum_payload (datagrams t) /\ limits (datagrams t) /\
    Forall (sound_out (packets ops)) os.
Proof.
  intros Ht. destruct (reassembly_run_spec (packets ops) new ops (new_inv _) Ht) as (os & t & E & Hi & Hos); [done|].
  exists os, t. split_and!; try done; apply Hi.
Qed.

(** C32. The fragments of a datagram reassemble into it whatever the order in
    which they arrive: in any table that has no part of it, with each fragment
    within the timeout of the one before, every fragment but the last to arrive
    is kept, and the last one completes the datagram; its payload is the
    fragments' bytes in the order of their offsets, its header that of the first
    fragment with the length and fragment fields rewritten and, for IPv4, a
    checksum that verifies. *)
Theorem reassembly_roundtrip ops os t interface key h m n ps now pk arrivals fs :
  Forall typed_op ops -> run_ops new ops = Done (os, t) -> key ∉ map d_key (datagrams t) ->
  contiguous 0 ps = Some n -> fs ≡ₚ ps ->
  Forall2 (fun a f => carries interface key h m n (snd a) f) ((now, pk) :: arrivals) fs ->
  timely now arrivals ->
  exists r t', run_ops t (ingest_ops interface ((now, pk) :: arrivals))
      = Done (answers (S (length arrivals)) r, t') /\
    delivered (is_v6 (k_source key)) h m (mjoin (map b_bytes ps)) r /\ key ∉ map d_key (datagrams t').
Proof.
  intros Ht E Hk Hc Hp Hcar Htime.
  set (hist := packets ops ++ map (fun a => (interface, snd a)) ((now, pk) :: arrivals)).
  destruct (reassembly_run_spec (packets ops) new ops (new_inv _) Ht) as (os' & t' & E' & Hi & _); [done|].
  rewrite E in E'. injection E' as <- <-.
  assert (Forall (fun f => 0 < b_len f) fs) as Hpos.
  { clear -Hcar. induction Hcar as [|a f ? ? (Hty & p & fr & Hip & Hfr & _ & Hm & _ & Hb & _) _ IH]; [constructor|].
    constructor; [|done]. destruct (typed_ip _ Hty p Hip) as (_ & Hpl & Hof).
    destruct (not_malformed p fr (Hof fr Hfr) Hpl Hm) as (_ & ? & _).
    destruct (copy_out_result _ _ _ _ Hty Hb) as [Hlen _]. unfold b_len. lia. }
  rewrite Hp in Hpos. destruct (contiguous_laid_out ps 0 n ltac:(lia) Hpos Hc) as [Hps _].
  destruct fs as [|f fs]; [by apply Forall2_nil_inv_r in Hcar|].
  eapply (run_fragments hist interface key h m n ps now pk arrivals f fs [] 0); try done.
  - eapply inv_mono; [|exact Hi]. intros x Hx. apply elem_of_app. by left.
  - intros x Hx. apply elem_of_app. by right.
Qed.

(** ** The test of the source *)

(** The two fragments of the test, the last one first. *)
Definition ex_last : FrontendPacket := test_fragment 1 false [105; 106; 107; 108].
Definition ex_first : FrontendPacket := test_fragment 0 true [97; 98; 99; 100; 101; 102; 103; 104].
Definition ex_header : list Z := slice 0 34 (concat (omap as_slice (PacketChain.fragments (chain ex_first)))).
Definition ex_pieces : list FragmentBytes :=
  [mk_bytes 0 [97; 98; 99; 100; 101; 102; 103; 104]; mk_bytes 8 [105; 106; 107; 108]].
Definition ex_frag_key : ReassemblyKey :=
  mk_key 1 (IpV4 (V4.new 10 0 0 1)) (IpV4 (V4.new 10 0 0 2)) 17 7.

Lemma bytes_ok_check l : forallb (fun b => (0 <=? b) && (b <? 256)) l = true -> bytes_ok l.
Proof.
  rewrite forallb_forall. intros H. apply Forall_forall. intros b Hb. apply list_elem_of_In, H in Hb.
  reflect_bools. lia.
Qed.

Lemma ex_typed : typed_packet ex_last /\ typed_packet ex_first.
Proof.
  split; (split; [apply Forall_singleton; intros bytes [= <-]; apply bytes_ok_check; by vm_compute|]);
    intros p [= <-]; unfold is_u32, is_u16, U32_MAX, U16_MAX; simpl; split_and!; try lia;
    intros fr [= <-]; simpl; lia.
Qed.

Lemma ex_carries :
  Forall2 (fun a f => carries 1 ex_frag_key ex_header (metadata ex_first) 12 (snd a) f)
    [(1, ex_last); (2, ex_first)] (reverse ex_pieces).
Proof.
  destruct ex_typed as [H1 H2].
  apply Forall2_cons; split; [|apply Forall2_cons; split; [|constructor]];
    (split; [done|]; eexists _, _; split_and!; [reflexivity..| |vm_compute; reflexivity]).
  - done.
  - intros _. split; vm_compute; reflexivity.
Qed.

Lemma reassembly_sound_witness :
  exists os t, run_ops new [OpIngest 1 1 ex_last; OpExpire 2; OpIngest 1 2 ex_first; OpInvalidate 1] = Done (os, t) /\
    payload_bytes t = sum_payload (datagrams t) /\ limits (datagrams t) /\
    Forall (sound_out [(1, ex_last); (1, ex_first)]) os.
Proof.
  apply (reassembly_sound [OpIngest 1 1 ex_last; OpExpire 2; OpIngest 1 2 ex_first; OpInvalidate 1]).
  destruct ex_typed as [H1 H2].
  repeat (apply Forall_cons; split); [exact H1|exact I|exact H2|exact I|constructor].
Defined.

Lemma reassembly_roundtrip_witness :
  exists r t', run_ops new (ingest_ops 1 [(1, ex_last); (2, ex_first)])
      = Done ([OutResult Pending; OutResult r], t') /\
    delivered false ex_header (metadata ex_first) [97; 98; 99; 100; 101; 102; 103; 104; 105; 106; 107; 108] r /\
    ex_frag_key ∉ map d_key (datagrams t').
Proof.
  apply (reassembly_roundtrip [] [] new 1 ex_frag_key ex_header (metadata ex_first) 12 ex_pieces 1 ex_last
    [(2, ex_first)] (reverse ex_pieces)).
  - constructor.
  - reflexivity.
  - apply not_elem_of_nil.
  - reflexivity.
  - apply perm_swap.
  - exact ex_carries.
  - vm_compute. split; [reflexivity|exact I].
Defined.
