(* ===== verification/BpfSpec.v ===== *)
(** * Classic BPF: the documented instruction set

    The instructions of the classic packet filter machine with their published
    opcode numbers, and their meaning.  The two interpreters of the kernel, for
    socket filters ([libs/net/src/bpf.rs]) and for system call filters
    ([general/src/seccomp.rs]), read the same machine code against different
    data; what differs is a [Host]. *)

From S2P Require Import Prelude.

(** One instruction word, the [CbpfInsn] and [SockFilter] of the two files. *)
Record Insn : Type := mk_insn { code : Z; jt : Z; jf : Z; k : Z }.

Definition typed_insn (i : Insn) : Prop :=
  is_u16 (code i) /\ is_u8 (jt i) /\ is_u8 (jf i) /\ is_u32 (k i).

(** The fields of an opcode. *)
Definition class_of (i : Insn) : Z := Z.land (code i) 0x07.
Definition mode_of (i : Insn) : Z := Z.land (code i) 0xe0.
Definition size_of (i : Insn) : Z := Z.land (code i) 0x18.
Definition alu_of (i : Insn) : Z := Z.land (code i) 0xf0.
Definition src_of (i : Insn) : Z := Z.land (code i) 0x08.
Definition misc_of (i : Insn) : Z := Z.land (code i) 0xf8.

(** ** Programs as bytes *)

(** The loop over [chunks_exact(8)] of a slice whose length is a multiple of 8. *)
Fixpoint parse_chunks (bytes : list Z) : list Insn :=
  match bytes with
  | b0 :: b1 :: b2 :: b3 :: b4 :: b5 :: b6 :: b7 :: rest =>
      mk_insn (of_le_bytes [b0; b1]) b2 b3 (of_le_bytes [b4; b5; b6; b7]) :: parse_chunks rest
  | _ => []
  end.

(** ** Instructions *)

Inductive width : Type := Word | Half | Byte.
Inductive alu_op : Type := Add | Sub | Mul | Div | Or | And | Lsh | Rsh | Neg | Mod | Xor.
Inductive cond : Type := Jeq | Jgt | Jge | Jset.

(** The operand of an arithmetic instruction or a comparison. *)
Inductive operand : Type := OpK | OpX.

Inductive op : Type :=
| LdImm | LdAbs (w : width) | LdInd (w : width) | LdMem | LdLen
| LdxImm | LdxMem | LdxLen | LdxMsh
| St | Stx
| Alu (o : alu_op) (src : operand)
| Ja
| Jmp (c : cond) (src : operand)
| RetK | RetA
| Tax | Txa.

(** The published opcode numbers. *)
Definition opcodes : list (Z * op) :=
  [(0x00, LdImm); (0x20, LdAbs Word); (0x28, LdAbs Half); (0x30, LdAbs Byte);
   (0x40, LdInd Word); (0x48, LdInd Half); (0x50, LdInd Byte); (0x60, LdMem); (0x80, LdLen);
   (0x01, LdxImm); (0x61, LdxMem); (0x81, LdxLen); (0xb1, LdxMsh);
   (0x02, St); (0x03, Stx);
   (0x04, Alu Add OpK); (0x0c, Alu Add OpX); (0x14, Alu Sub OpK); (0x1c, Alu Sub OpX);
   (0x24, Alu Mul OpK); (0x2c, Alu Mul OpX); (0x34, Alu Div OpK); (0x3c, Alu Div OpX);
   (0x44, Alu Or OpK); (0x4c, Alu Or OpX); (0x54, Alu And OpK); (0x5c, Alu And OpX);
   (0x64, Alu Lsh OpK); (0x6c, Alu Lsh OpX); (0x74, Alu Rsh OpK); (0x7c, Alu Rsh OpX);
   (0x84, Alu Neg OpK); (0x94, Alu Mod OpK); (0x9c, Alu Mod OpX);
   (0xa4, Alu Xor OpK); (0xac, Alu Xor OpX);
   (0x05, Ja); (0x15, Jmp Jeq OpK); (0x1d, Jmp Jeq OpX); (0x25, Jmp Jgt OpK); (0x2d, Jmp Jgt OpX);
   (0x35, Jmp Jge OpK); (0x3d, Jmp Jge OpX); (0x45, Jmp Jset OpK); (0x4d, Jmp Jset OpX);
   (0x06, RetK); (0x16, RetA); (0x07, Tax); (0x87, Txa)].

Definition documented (i : Insn) (o : op) : Prop := (code i, o) ∈ opcodes.

(** ** The machine *)

(** The accumulator, the index register and the sixteen words of memory. *)
Record regs : Type := mk_regs { acc : Z; idx : Z; mem : list Z }.

Definition regs0 : regs := mk_regs 0 0 (replicate 16 0).

Definition set_acc (v : Z) (r : regs) : regs := mk_regs v (idx r) (mem r).
Definition set_idx (v : Z) (r : regs) : regs := mk_regs (acc r) v (mem r).
Definition set_mem (i : nat) (v : Z) (r : regs) : regs := mk_regs (acc r) (idx r) (<[i := v]> (mem r)).

Definition typed_regs (r : regs) : Prop :=
  is_u32 (acc r) /\ is_u32 (idx r) /\ length (mem r) = 16%nat /\ Forall is_u32 (mem r).

(** A 32-bit result. *)
Definition low32 (v : Z) : Z := v mod 2 ^ 32.

(** What a program finds around it: the data it reads, the length it is told,
    what a division by zero does (a quotient, or the end of the program with an
    answer), and the answer of a program that falls off its end. *)
Class Host := {
  host_load : width -> Z -> Z;
  host_len : Z;
  host_msh : Z -> Z;
  host_div_zero : Z + Z;
  host_end : Z
}.

(** What an instruction does: go on with the next one, skip some, or answer. *)
Inductive outcome : Type := Next (r : regs) | Skip (n : Z) | Answer (v : Z).

Section meaning.
Context {host : Host}.

Definition value (i : Insn) (r : regs) (s : operand) : Z := match s with OpK => k i | OpX => idx r end.

Definition divide (f : Z -> Z -> Z) (r : regs) (v : Z) : outcome :=
  if v =? 0 then match host_div_zero with inl q => Next (set_acc q r) | inr e => Answer e end
  else Next (set_acc (f (acc r) v) r).

Definition arithmetic (o : alu_op) (r : regs) (v : Z) : outcome :=
  let set z := Next (set_acc (low32 z) r) in
  match o with
  | Add => set (acc r + v)
  | Sub => set (acc r - v)
  | Mul => set (acc r * v)
  | Div => divide Z.div r v
  | Mod => divide Z.modulo r v
  | Or => set (Z.lor (acc r) v)
  | And => set (Z.land (acc r) v)
  | Xor => set (Z.lxor (acc r) v)
  | Lsh => set (Z.shiftl (acc r) (v mod 32))
  | Rsh => set (Z.shiftr (acc r) (v mod 32))
  | Neg => set (- acc r)
  end.

Definition compare (c : cond) (u v : Z) : bool :=
  match c with
  | Jeq => u =? v
  | Jgt => v <? u
  | Jge => v <=? u
  | Jset => negb (Z.land u v =? 0)
  end.

Definition mem_word (i : Insn) (r : regs) : Z := default 0 (mem r !! Z.to_nat (k i)).

Definition meaning (o : op) (i : Insn) (r : regs) : outcome :=
  match o with
  | LdImm => Next (set_acc (k i) r)
  | LdAbs w => Next (set_acc (host_load w (k i)) r)
  | LdInd w => Next (set_acc (host_load w (low32 (idx r + k i))) r)
  | LdMem => Next (set_acc (mem_word i r) r)
  | LdLen => Next (set_acc host_len r)
  | LdxImm => Next (set_idx (k i) r)
  | LdxMem => Next (set_idx (mem_word i r) r)
  | LdxLen => Next (set_idx host_len r)
  | LdxMsh => Next (set_idx (host_msh (k i)) r)
  | St => Next (set_mem (Z.to_nat (k i)) (acc r) r)
  | Stx => Next (set_mem (Z.to_nat (k i)) (idx r) r)
  | Alu o s => arithmetic o r (value i r s)
  | Ja => Skip (k i)
  | Jmp c s => Skip (if compare c (acc r) (value i r s) then jt i else jf i)
  | RetK => Answer (k i)
  | RetA => Answer (acc r)
  | Tax => Next (set_idx (acc r) r)
  | Txa => Next (set_acc (idx r) r)
  end.

(** The answer of a program: it only ever moves forward. *)
Inductive answers : list Insn -> regs -> Z -> Prop :=
| answers_end r : answers [] r host_end
| answers_next i o p r r' v :
    documented i o -> meaning o i r = Next r' -> answers p r' v -> answers (i :: p) r v
| answers_skip i o p r n v :
    documented i o -> meaning o i r = Skip n -> answers (drop (Z.to_nat n) p) r v -> answers (i :: p) r v
| answers_answer i o p r v :
    documented i o -> meaning o i r = Answer v -> answers (i :: p) r v.

End meaning.

(** The opcodes name one instruction each. *)
Lemma opcodes_NoDup : NoDup (map fst opcodes).
Proof. by apply (bool_decide_unpack _); vm_compute. Qed.

Lemma documented_unique i o o' : documented i o -> documented i o' -> o = o'.
Proof.
  unfold documented. intros [j Hj]%list_elem_of_lookup [j' Hj']%list_elem_of_lookup.
  assert (j = j') as ->.
  { eapply (NoDup_lookup _ _ _ (code i) opcodes_NoDup);
      by rewrite list_lookup_fmap, ?Hj, ?Hj'. }
  congruence.
Qed.

(** A program has at most one answer. *)
Lemma answers_unique {host : Host} p r v v' : answers p r v -> answers p r v' -> v = v'.
Proof.
  intros Ha. revert v'. induction Ha as [|i o p r r' v Hd Hm _ IH|i o p r n v Hd Hm _ IH|i o p r v Hd Hm];
    intros v' Ha'; inversion Ha'; subst; try done;
    match goal with H1 : documented i ?o1, H2 : documented i ?o2 |- _ =>
      tryif constr_eq o1 o2 then fail else (pose proof (documented_unique i o1 o2 H1 H2); subst) end;
    match goal with H1 : meaning _ _ _ = _, H2 : meaning _ _ _ = _ |- _ => rewrite H1 in H2; simplify_eq end;
    auto.
Qed.

(** ** Interpreters *)

(** One round of an interpreter up to its program counter: go on, jump by an
    offset from the next instruction, or return. *)
Inductive step : Type := Continue (r : regs) | Goto (offset : Z) | Return (v : Z).

Definition step_outcome (s : step) : outcome :=
  match s with Continue r => Next r | Goto n => Skip n | Return v => Answer v end.

(** A round at [index] of a program of [len] instructions keeps the registers in
    range, jumps forward inside the program, or returns a 32-bit value. *)
Definition step_ok (len index : Z) (s : step) : Prop :=
  match s with
  | Continue r => typed_regs r
  | Goto offset => 0 <= offset /\ index + 1 + offset < len
  | Return v => is_u32 v
  end.

(** A program of published instructions. *)
Definition documented_program (p : list Insn) : Prop := Forall (fun i => exists o, documented i o) p.

Definition width_bytes (w : width) : Z := match w with Word => 4 | Half => 2 | Byte => 1 end.

(** Decide the tests on the fields of a known opcode. *)
Ltac decode :=
  unfold class_of, mode_of, size_of, alu_of, src_of, misc_of; cbn [code jt jf k];
  repeat match goal with
  | |- context [Z.land ?u ?v =? ?w] =>
      let b := eval vm_compute in (Z.land u v =? w) in
      match b with
      | true => change (Z.land u v =? w) with true
      | false => change (Z.land u v =? w) with false
      end
  end; cbn [negb andb orb].

(** One goal per instruction of the table. *)
Ltac each_opcode Hd :=
  unfold documented, opcodes in Hd; cbn [code] in Hd;
  repeat (apply elem_of_cons in Hd as [Hd|Hd]; [simplify_eq|]); [..|by apply elem_of_nil in Hd].

(** Find an instruction in the table. *)
Ltac in_table :=
  eexists; unfold documented, opcodes; cbn [code];
  repeat first [apply list_elem_of_here|apply list_elem_of_further].

(** ** 32-bit values *)

Create HintDb word32.

Lemma low32_u32 v : is_u32 (low32 v).
Proof. unfold low32, is_u32, U32_MAX. pose proof (Z.mod_pos_bound v (2 ^ 32) ltac:(lia)). lia. Qed.

Lemma low32_id v : is_u32 v -> low32 v = v.
Proof. unfold low32, is_u32, U32_MAX. intros. apply Z.mod_small. lia. Qed.

Lemma u32_bits (f : Z -> Z -> Z) (g : bool -> bool -> bool) u v :
  (forall x y n, Z.testbit (f x y) n = g (Z.testbit x n) (Z.testbit y n)) -> g false false = false ->
  (0 <= u -> 0 <= v -> 0 <= f u v) -> is_u32 u -> is_u32 v -> is_u32 (f u v).
Proof.
  unfold is_u32, U32_MAX. intros Hf Hg Hn Hu Hv.
  assert (0 <= f u v < 2 ^ 32); [|lia]. apply bits_bound; [lia|apply Hn; lia|]. intros n Hle.
  by rewrite Hf, (testbit_above u 32), (testbit_above v 32) by lia.
Qed.

Lemma u32_lor u v : is_u32 u -> is_u32 v -> is_u32 (Z.lor u v).
Proof. apply (u32_bits Z.lor orb); [apply Z.lor_spec|done|]. intros. by apply Z.lor_nonneg. Qed.
Lemma u32_land u v : is_u32 u -> is_u32 v -> is_u32 (Z.land u v).
Proof. apply (u32_bits Z.land andb); [apply Z.land_spec|done|]. intros. apply Z.land_nonneg. by left. Qed.
Lemma u32_lxor u v : is_u32 u -> is_u32 v -> is_u32 (Z.lxor u v).
Proof. apply (u32_bits Z.lxor xorb); [apply Z.lxor_spec|done|]. intros. apply Z.lxor_nonneg. lia. Qed.

Lemma u32_div u v : is_u32 u -> 0 < v -> is_u32 (u / v).
Proof.
  unfold is_u32, U32_MAX. intros Hu Hv. split; [apply Z.div_pos; lia|].
  apply Z.div_le_upper_bound; [lia|]. nia.
Qed.
Lemma u32_mod u v : is_u32 v -> 0 < v -> is_u32 (u mod v).
Proof. unfold is_u32, U32_MAX. intros Hv Hp. pose proof (Z.mod_pos_bound u v Hp). lia. Qed.
Lemma u32_shiftr u n : is_u32 u -> 0 <= n -> is_u32 (Z.shiftr u n).
Proof. intros Hu Hn. rewrite Z.shiftr_div_pow2 by done. apply u32_div; [done|]. by apply Z.pow_pos_nonneg. Qed.

#[export] Hint Resolve low32_u32 u32_lor u32_land u32_lxor u32_div u32_mod u32_shiftr : word32.

Lemma typed_regs0 : typed_regs regs0.
Proof. split_and!; try done. simpl. repeat constructor; done. Qed.

Lemma typed_set_acc v r : is_u32 v -> typed_regs r -> typed_regs (set_acc v r).
Proof. intros Hv (_ & ? & ? & ?). by split_and!. Qed.
Lemma typed_set_idx v r : is_u32 v -> typed_regs r -> typed_regs (set_idx v r).
Proof. intros Hv (? & _ & ? & ?). by split_and!. Qed.
Lemma typed_set_mem i v r : is_u32 v -> typed_regs r -> typed_regs (set_mem i v r).
Proof.
  intros Hv (? & ? & Hl & Hm). split_and!; try done; cbn [mem set_mem]; [by rewrite length_insert|].
  by apply Forall_insert.
Qed.

#[export] Hint Resolve typed_regs0 typed_set_acc typed_set_idx typed_set_mem : word32.

Lemma typed_mem r j : typed_regs r -> 0 <= j < 16 -> exists v, mem r !! Z.to_nat j = Some v /\ is_u32 v.
Proof.
  intros (_ & _ & Hl & Hm) Hj. destruct (lookup_lt_is_Some_2 (mem r) (Z.to_nat j)) as [v Hv]; [lia|].
  exists v. split; [done|]. by eapply Forall_lookup_1.
Qed.

(** ** Instructions as bytes *)

(** The bytes of an instruction. *)
Definition insn_bytes (i : Insn) : list Z := le_bytes 2 (code i) ++ [jt i] ++ [jf i] ++ le_bytes 4 (k i).

Lemma parse_insn_bytes i rest :
  typed_insn i -> parse_chunks (insn_bytes i ++ rest) = i :: parse_chunks rest.
Proof.
  intros (Hc & _ & _ & Hk). destruct i as [c t f kk]. simpl in Hc, Hk.
  pose proof (of_le_bytes_le 2 c) as E2. pose proof (of_le_bytes_le 4 kk) as E4.
  rewrite Z.mod_small in E2 by ulia. rewrite Z.mod_small in E4 by ulia.
  unfold insn_bytes. cbn [code jt jf k]. unfold le_bytes in *. cbn [map seq app] in *.
  cbn [parse_chunks]. by rewrite E2, E4.
Qed.

Lemma parse_chunks_bytes l :
  Forall typed_insn l -> parse_chunks (mjoin (map insn_bytes l)) = l.
Proof.
  induction 1 as [|i l Hi Hl IH]; [done|].
  change (mjoin (map insn_bytes (i :: l))) with (insn_bytes i ++ mjoin (map insn_bytes l)).
  by rewrite parse_insn_bytes, IH.
Qed.

Lemma length_insns_bytes l : length (mjoin (map insn_bytes l)) = (8 * length l)%nat.
Proof.
  induction l as [|i l IH]; [done|].
  change (mjoin (map insn_bytes (i :: l))) with (insn_bytes i ++ mjoin (map insn_bytes l)).
  rewrite length_app, IH. cbn. lia.
Qed.

Lemma of_le_bytes_bound l : Forall is_u8 l -> 0 <= of_le_bytes l < 256 ^ Z.of_nat (length l).
Proof.
  induction 1 as [|b l Hb _ IH]; [done|]. cbn [of_le_bytes length].
  rewrite Nat2Z.inj_succ, Z.pow_succ_r by lia. ulia.
Qed.

(** Lists of bytes of one length are told apart by their value. *)
Lemma of_le_bytes_inj l l' :
  Forall is_u8 l -> Forall is_u8 l' -> length l = length l' -> of_le_bytes l = of_le_bytes l' -> l = l'.
Proof.
  intros Hl. revert l'. induction Hl as [|b l Hb _ IH]; intros [|b' l'] Hl' Hlen He; try done.
  apply Forall_cons_1 in Hl' as [Hb' Hl']. cbn [of_le_bytes] in He. unfold is_u8, U8_MAX in *.
  assert (b = b') by lia. subst. f_equal. apply IH; [done|by simplify_eq/=|lia].
Qed.

Lemma le_of_le_bytes l : Forall is_u8 l -> le_bytes (length l) (of_le_bytes l) = l.
Proof.
  intros Hl. apply of_le_bytes_inj; [apply le_bytes_u8|done|apply length_le_bytes|].
  rewrite of_le_bytes_le. by apply Z.mod_small, of_le_bytes_bound.
Qed.

(** Eight bytes at a time. *)
Lemma parse_chunks_inv n bytes :
  length bytes = (8 * n)%nat -> Forall is_u8 bytes ->
  Forall typed_insn (parse_chunks bytes) /\ mjoin (map insn_bytes (parse_chunks bytes)) = bytes
  /\ length (parse_chunks bytes) = n.
Proof.
  revert bytes. induction n as [|n IH]; intros bytes Hlen Hb; [by destruct bytes|].
  do 8 (destruct bytes as [|? bytes]; [simpl in Hlen; lia|]).
  change (?a :: ?b :: ?c :: ?d :: ?e :: ?f :: ?g :: ?h :: bytes)
    with ([a; b] ++ [c] ++ [d] ++ [e; f; g; h] ++ bytes) in Hb |- *.
  rewrite !Forall_app in Hb. destruct Hb as (Hc & Ht & Hf & Hk & Hb).
  destruct (IH bytes) as (Hty & Hj & Hn); [simpl in Hlen; lia|done|].
  pose proof (of_le_bytes_bound _ Hc) as Bc. pose proof (of_le_bytes_bound _ Hk) as Bk.
  cbn [parse_chunks app]. split_and!.
  - apply Forall_cons. split; [|done]. rewrite Forall_singleton in Ht, Hf.
    split_and!; cbn [code jt jf k]; try done; clear - Bc Bk; cbn [length] in *; ulia.
  - change (mjoin (map insn_bytes (?i :: ?l))) with (insn_bytes i ++ mjoin (map insn_bytes l)).
    rewrite Hj. unfold insn_bytes. cbn [code jt jf k].
    by rewrite (le_of_le_bytes _ Hc : le_bytes 2 _ = _), (le_of_le_bytes _ Hk : le_bytes 4 _ = _).
  - cbn [length]. by rewrite Hn.
Qed.
