(* ===== verification/Cbpf.v ===== *)
(** * Socket filters

    The model of [libs/net/src/bpf.rs]: the check of a program, the interpreter
    with its program counter and its budget of steps, and the encoding of
    programs as bytes. *)

From S2P Require Import Prelude BpfSpec.

Inductive CbpfError : Type := TooManyInstructions | InvalidCode | JumpOutOfRange | MemoryOutOfRange.

Definition BPF_MAXINSNS : Z := 4096.
Definition BPF_MEMWORDS : Z := 16.
Definition BPF_MAX_STEPS : Z := 100000.

Definition BPF_LD : Z := 0x00.
Definition BPF_LDX : Z := 0x01.
Definition BPF_ST : Z := 0x02.
Definition BPF_STX : Z := 0x03.
Definition BPF_ALU : Z := 0x04.
Definition BPF_JMP : Z := 0x05.
Definition BPF_RET : Z := 0x06.
Definition BPF_MISC : Z := 0x07.

Definition BPF_W : Z := 0x00.
Definition BPF_H : Z := 0x08.
Definition BPF_B : Z := 0x10.

Definition BPF_IMM : Z := 0x00.
Definition BPF_ABS : Z := 0x20.
Definition BPF_IND : Z := 0x40.
Definition BPF_MEM : Z := 0x60.
Definition BPF_LEN : Z := 0x80.
Definition BPF_MSH : Z := 0xa0.

Definition BPF_ADD : Z := 0x00.
Definition BPF_SUB : Z := 0x10.
Definition BPF_MUL : Z := 0x20.
Definition BPF_DIV : Z := 0x30.
Definition BPF_OR : Z := 0x40.
Definition BPF_AND : Z := 0x50.
Definition BPF_LSH : Z := 0x60.
Definition BPF_RSH : Z := 0x70.
Definition BPF_NEG : Z := 0x80.
Definition BPF_MOD : Z := 0x90.
Definition BPF_XOR : Z := 0xa0.

Definition BPF_JA : Z := 0x00.
Definition BPF_JEQ : Z := 0x10.
Definition BPF_JGT : Z := 0x20.
Definition BPF_JGE : Z := 0x30.
Definition BPF_JSET : Z := 0x40.

Definition BPF_K : Z := 0x00.
Definition BPF_X : Z := 0x08.
Definition BPF_A : Z := 0x10.

Definition BPF_TAX : Z := 0x00.
Definition BPF_TXA : Z := 0x80.

(** ** The check *)

(** [(index as u32).checked_add(1).and_then(|next| next.checked_add(offset))] is
    beyond the program. *)
Definition jump_outside (len index offset : Z) : bool :=
  let target := index + 1 + offset in (U32_MAX <? target) || (len <=? target).

(** One round of the loop of [compile], the error it returns. *)
Definition check_insn (len index : Z) (i : Insn) : option CbpfError :=
  let class := class_of i in
  if (class =? BPF_LD) || (class =? BPF_LDX) then
    let mode := mode_of i in
    let size := size_of i in
    let valid :=
      if mode =? BPF_IMM then size =? BPF_W
      else if (mode =? BPF_ABS) || (mode =? BPF_IND) then
        (size =? BPF_W) || (size =? BPF_H) || (size =? BPF_B)
      else if mode =? BPF_MEM then (size =? BPF_W) && (k i <? BPF_MEMWORDS)
      else if mode =? BPF_LEN then size =? BPF_W
      else if mode =? BPF_MSH then (size =? BPF_B) && (class =? BPF_LDX)
      else false in
    if negb valid then Some InvalidCode else None
  else if (class =? BPF_ST) || (class =? BPF_STX) then
    if negb (mode_of i =? BPF_MEM) || (BPF_MEMWORDS <=? k i) then Some MemoryOutOfRange else None
  else if class =? BPF_ALU then
    let op := alu_of i in
    let src := src_of i in
    if negb ((src =? BPF_K) || (src =? BPF_X))
       || negb ((op =? BPF_ADD) || (op =? BPF_SUB) || (op =? BPF_MUL) || (op =? BPF_DIV)
                || (op =? BPF_OR) || (op =? BPF_AND) || (op =? BPF_LSH) || (op =? BPF_RSH)
                || (op =? BPF_NEG) || (op =? BPF_MOD) || (op =? BPF_XOR))
    then Some InvalidCode else None
  else if class =? BPF_JMP then
    let op := alu_of i in
    let src := src_of i in
    if op =? BPF_JA then
      if negb (src =? 0) then Some InvalidCode
      else if jump_outside len index (k i) then Some JumpOutOfRange else None
    else if negb ((src =? BPF_K) || (src =? BPF_X)) then Some InvalidCode
    else if jump_outside len index (jt i) || jump_outside len index (jf i)
    then Some JumpOutOfRange else None
  else if class =? BPF_RET then
    if negb ((size_of i =? BPF_K) || (size_of i =? BPF_A)) then Some InvalidCode else None
  else if class =? BPF_MISC then
    if negb (misc_of i =? BPF_TAX) && negb (misc_of i =? BPF_TXA) then Some InvalidCode else None
  else Some InvalidCode.

Fixpoint compile_loop (len index : Z) (l : list Insn) : option CbpfError :=
  match l with
  | [] => None
  | i :: l =>
      match check_insn len index i with
      | Some e => Some e
      | None => compile_loop len (index + 1) l
      end
  end.

Definition compile (instructions : list Insn) : result (list Insn) CbpfError :=
  let len := Z.of_nat (length instructions) in
  if BPF_MAXINSNS <? len then Err TooManyInstructions
  else match compile_loop len 0 instructions with
       | Some e => Err e
       | None => Ok instructions
       end.

(** ** The interpreter *)

Definition load_bytes (data : list Z) (offset width : Z) : Z :=
  let len := Z.of_nat (length data) in
  if (len <? offset) || (4 <? width) || (len - offset <? width) then 0
  else foldl (fun value byte => Z.lor (low32 (Z.shiftl value 8)) byte) 0
         (take (Z.to_nat width) (drop (Z.to_nat offset) data)).

(** [a <<= operand] and [a >>= operand] overflow from 32 on. *)
Definition shift (f : Z -> Z -> Z) (u v : Z) : exec Z := if v <? 32 then Done (low32 (f u v)) else Panic.

(** The body of the loop of [run], up to the program counter. *)

Definition run_load (data : list Z) (i : Insn) (r : regs) : exec step :=
  let class := class_of i in
  let mode := mode_of i in
  let size := size_of i in
  let width := if size =? BPF_W then 4 else if size =? BPF_H then 2 else 1 in
  let put v := Done (Continue (if class =? BPF_LD then set_acc v r else set_idx v r)) in
  if mode =? BPF_IMM then put (k i)
  else if mode =? BPF_ABS then put (load_bytes data (k i) width)
  else if mode =? BPF_IND then put (load_bytes data (low32 (idx r + k i)) width)
  else if mode =? BPF_MEM then v ← unwrap (mem r !! Z.to_nat (k i)); put v
  else if mode =? BPF_LEN then put (low32 (Z.of_nat (length data)))
  else if mode =? BPF_MSH then
    let byte := if k i <? Z.of_nat (length data) then default 0 (data !! Z.to_nat (k i)) else 0 in
    Done (Continue (set_idx (4 * Z.land byte 0x0f) r))
  else Done (Return 0).

Definition run_alu (i : Insn) (r : regs) : exec step :=
  let op := alu_of i in
  let operand := if src_of i =? BPF_X then idx r else k i in
  let put v := Done (Continue (set_acc v r)) in
  if op =? BPF_ADD then put (low32 (acc r + operand))
  else if op =? BPF_SUB then put (low32 (acc r - operand))
  else if op =? BPF_MUL then put (low32 (acc r * operand))
  else if op =? BPF_DIV then put (if operand =? 0 then 0 else acc r / operand)
  else if op =? BPF_OR then put (Z.lor (acc r) operand)
  else if op =? BPF_AND then put (Z.land (acc r) operand)
  else if op =? BPF_LSH then v ← shift Z.shiftl (acc r) operand; put v
  else if op =? BPF_RSH then v ← shift Z.shiftr (acc r) operand; put v
  else if op =? BPF_NEG then put (low32 (- acc r))
  else if op =? BPF_MOD then put (if operand =? 0 then 0 else acc r mod operand)
  else if op =? BPF_XOR then put (Z.lxor (acc r) operand)
  else Done (Return 0).

Definition run_jmp (i : Insn) (r : regs) : exec step :=
  let op := alu_of i in
  if op =? BPF_JA then Done (Goto (k i))
  else
    let operand := if src_of i =? BPF_X then idx r else k i in
    let go (taken : bool) := Done (Goto (if taken then jt i else jf i)) in
    if op =? BPF_JEQ then go (acc r =? operand)
    else if op =? BPF_JGT then go (operand <? acc r)
    else if op =? BPF_JGE then go (operand <=? acc r)
    else if op =? BPF_JSET then go (negb (Z.land (acc r) operand =? 0))
    else Done (Return 0).

(** [mem\[insn.k as usize\] = v]. *)
Definition store (i : Insn) (v : Z) (r : regs) : exec step :=
  if k i <? Z.of_nat (length (mem r)) then Done (Continue (set_mem (Z.to_nat (k i)) v r)) else Panic.

Definition run_insn (data : list Z) (i : Insn) (r : regs) : exec step :=
  let class := class_of i in
  if (class =? BPF_LD) || (class =? BPF_LDX) then run_load data i r
  else if class =? BPF_ST then store i (acc r) r
  else if class =? BPF_STX then store i (idx r) r
  else if class =? BPF_ALU then run_alu i r
  else if class =? BPF_JMP then run_jmp i r
  else if class =? BPF_RET then Done (Return (if size_of i =? BPF_A then acc r else k i))
  else if class =? BPF_MISC then
    Done (Continue (if misc_of i =? BPF_TAX then set_idx (acc r) r else set_acc (idx r) r))
  else Done (Return 0).

(** The loop of [run].  The additions of a jump stay far below the end of
    [usize]: the program has at most 4096 instructions and an offset 32 bits. *)
Fixpoint run_loop (fuel : nat) (program : list Insn) (data : list Z) (steps pc : Z) (r : regs)
  : exec Z :=
  match fuel with
  | O => Panic
  | S fuel =>
      if negb (pc <? Z.of_nat (length program)) then Done 0
      else
        let steps := steps + 1 in
        if BPF_MAX_STEPS <? steps then Done 0
        else
          i ← unwrap (program !! Z.to_nat pc);
          s ← run_insn data i r;
          match s with
          | Return v => Done v
          | Continue r => run_loop fuel program data steps (pc + 1) r
          | Goto offset => run_loop fuel program data steps (pc + 1 + offset) r
          end
  end.

Definition run (program : list Insn) (data : list Z) : exec Z :=
  run_loop (S (Z.to_nat BPF_MAX_STEPS)) program data 0 0 regs0.

(** ** Programs as bytes *)

Definition parse_sock_filters (bytes : list Z) : result (list Insn) unit :=
  if negb (Z.of_nat (length bytes) mod 8 =? 0) then Err tt else Ok (parse_chunks bytes).

Definition serialize_sock_filters (instructions : list Insn) : list Z :=
  mjoin (map (fun i => le_bytes 2 (code i) ++ [jt i] ++ [jf i] ++ le_bytes 4 (k i)) instructions).
