(* ===== verification/CbpfProps.v ===== *)
(** * Socket filters: properties

    What the check of a program promises about each of its instructions, the
    meaning of the instructions the interpreter shares with the documented
    machine, and from them the behaviour of whole programs. *)

From S2P Require Import Prelude BpfSpec Cbpf.

(** ** Loads *)

Lemma load_bytes_u32 data offset w : Forall is_u8 data -> is_u32 (load_bytes data offset w).
Proof.
  intros Hd. unfold load_bytes. case_match; [done|].
  assert (Hb : Forall is_u8 (take (Z.to_nat w) (drop (Z.to_nat offset) data))).
  { by apply Forall_take, Forall_drop. }
  assert (H0 : is_u32 0) by done. revert H0. generalize 0.
  induction Hb as [|b l Hb _ IH]; intros v Hv; cbn [foldl]; [done|].
  apply IH, u32_lor; [apply low32_u32|ulia].
Qed.

(** ** Checked instructions *)

(** Shifts by a constant below 32 only. *)
Definition narrow_shift (i : Insn) : Prop :=
  class_of i = BPF_ALU -> alu_of i = BPF_LSH \/ alu_of i = BPF_RSH -> src_of i = BPF_K /\ k i < 32.

Section checked.
Context (data : list Z) (i : Insn) (r : regs) (len index : Z).
Context (Hdata : Forall is_u8 data) (Hi : typed_insn i) (Hr : typed_regs r).

Lemma operand_u32 (b : bool) : is_u32 (if b then idx r else k i).
Proof using Hi Hr. destruct Hi as (_ & _ & _ & ?), Hr as (_ & ? & _). by destruct b. Qed.

Lemma jump_inside offset : 0 <= offset -> jump_outside len index offset = false ->
  0 <= offset /\ index + 1 + offset < len.
Proof. unfold jump_outside. intros Hp H. reflect_bools. lia. Qed.

Lemma shift_done f u v : 0 <= v < 32 -> shift f u v = Done (low32 (f u v)).
Proof. intros Hv. unfold shift. by destruct (Z.ltb_spec v 32); [|lia]. Qed.

Lemma run_alu_safe : narrow_shift i -> class_of i = BPF_ALU ->
  exists s, run_alu i r = Done s /\ step_ok len index s.
Proof using Hi Hr.
  intros Hn Hc. specialize (Hn Hc). pose proof (operand_u32 (src_of i =? BPF_X)) as Ho.
  pose proof Hr as (Ha & _). unfold run_alu.
  assert (Hs : alu_of i = BPF_LSH \/ alu_of i = BPF_RSH ->
    0 <= (if src_of i =? BPF_X then idx r else k i) < 32).
  { intros H. destruct (Hn H) as [-> Hk]. destruct Hi as (_ & _ & _ & ?). cbn. ulia. }
  set (o := if src_of i =? BPF_X then idx r else k i) in *.
  repeat match goal with
  | |- context [if alu_of i =? ?n then _ else _] => destruct (Z.eqb_spec (alu_of i) n) as [E|_]
  end; try rewrite shift_done by auto; cbn [mbind exec_bind];
    eexists; (split; [reflexivity|]); cbn [step_ok]; try done;
    apply typed_set_acc; auto with word32;
    destruct (Z.eqb_spec o 0); try done; [apply u32_div|apply u32_mod]; try done; ulia.
Qed.

Lemma run_load_safe : check_insn len index i = None -> class_of i = BPF_LD \/ class_of i = BPF_LDX ->
  exists s, run_load data i r = Done s /\ step_ok len index s.
Proof using Hdata Hi Hr.
  intros Hk Hc. pose proof Hi as (_ & _ & _ & Hki).
  assert (Hput : forall v, is_u32 v ->
    step_ok len index (Continue (if class_of i =? BPF_LD then set_acc v r else set_idx v r))).
  { intros v Hv. cbn [step_ok]. case_match; auto with word32. }
  unfold check_insn in Hk. replace (_ || _) with true in Hk by (symmetry; apply orb_true_iff; lia).
  unfold run_load.
  repeat match goal with
  | |- context [if mode_of i =? ?n then _ else _] => destruct (Z.eqb_spec (mode_of i) n) as [E|_]
  end; try (eexists; split; [reflexivity|]; first [done|apply Hput; auto using load_bytes_u32 with word32]).
  - destruct (typed_mem r (k i) Hr) as (v & -> & Hv); [|eexists; split; [reflexivity|by apply Hput]].
    cbn in Hk. destruct (Z.ltb_spec (k i) BPF_MEMWORDS);
      [unfold BPF_MEMWORDS in *; ulia|by rewrite andb_false_r in Hk].
  - eexists; split; [reflexivity|]. apply typed_set_idx; [|done].
    pose proof (Z.land_ones (if k i <? Z.of_nat (length data) then default 0 (data !! Z.to_nat (k i)) else 0) 4)
      as El. change (Z.ones 4) with 15 in El. rewrite El by lia.
    match goal with |- is_u32 (4 * (?b mod _)) => pose proof (Z.mod_pos_bound b (2 ^ 4) ltac:(lia)) end. ulia.
Qed.

Lemma store_safe v : is_u32 v -> k i < BPF_MEMWORDS ->
  exists s, store i v r = Done s /\ step_ok len index s.
Proof using Hr.
  intros Hv Hk. unfold store. pose proof Hr as (_ & _ & -> & _). change (Z.of_nat 16) with BPF_MEMWORDS.
  destruct (Z.ltb_spec (k i) BPF_MEMWORDS); [|lia]. eexists; split; [done|]. simpl. auto with word32.
Qed.

Lemma run_jmp_safe : check_insn len index i = None -> class_of i = BPF_JMP ->
  exists s, run_jmp i r = Done s /\ step_ok len index s.
Proof using Hi.
  intros Hk Hc. pose proof Hi as (_ & Hjt & Hjf & Hki).
  unfold check_insn in Hk. rewrite Hc in Hk. cbn in Hk. unfold run_jmp.
  destruct (Z.eqb_spec (alu_of i) BPF_JA) as [E|E].
  - eexists; split; [done|].
    destruct (negb _); [done|]. destruct (jump_outside _ _ _) eqn:Ej; [done|].
    apply jump_inside; [ulia|done].
  - destruct (Z.eqb_spec (alu_of i) 0); [done|].
    destruct (negb _); [done|]. destruct (_ || _) eqn:Ej; [done|]. reflect_bools.
    assert (Hgo : forall b : bool, step_ok len index (Goto (if b then jt i else jf i))).
    { intros []; apply jump_inside; try done; ulia. }
    repeat match goal with |- context [if alu_of i =? ?n then _ else _] => destruct (alu_of i =? n) end;
      eexists; (split; [reflexivity|]); done.
Qed.

(** A checked instruction never panics, keeps the registers in range and jumps
    forward inside the program. *)
Lemma run_insn_safe : check_insn len index i = None -> narrow_shift i ->
  exists s, run_insn data i r = Done s /\ step_ok len index s.
Proof using Hdata Hi Hr.
  intros Hk Hn. pose proof Hi as (_ & _ & _ & Hki). pose proof Hr as (Ha & Hx & _ & _). unfold run_insn.
  destruct (Z.eqb_spec (class_of i) BPF_LD) as [E|E]; [apply run_load_safe; auto|].
  destruct (Z.eqb_spec (class_of i) BPF_LDX) as [E'|E']; [apply run_load_safe; auto|]. cbn [orb].
  assert (Hst : class_of i = BPF_ST \/ class_of i = BPF_STX -> k i < BPF_MEMWORDS).
  { intros H. unfold check_insn in Hk. destruct H as [H|H]; rewrite H in Hk; cbn in Hk;
      destruct (Z.leb_spec BPF_MEMWORDS (k i)); try done; by rewrite orb_true_r in Hk. }
  destruct (Z.eqb_spec (class_of i) BPF_ST); [apply store_safe; auto|].
  destruct (Z.eqb_spec (class_of i) BPF_STX); [apply store_safe; auto|].
  destruct (Z.eqb_spec (class_of i) BPF_ALU); [by apply run_alu_safe|].
  destruct (Z.eqb_spec (class_of i) BPF_JMP); [by apply run_jmp_safe|].
  destruct (class_of i =? BPF_RET); [eexists; split; [done|]; simpl; by case_match|].
  destruct (class_of i =? BPF_MISC); [|by eexists].
  eexists; split; [done|]. simpl. case_match; auto with word32.
Qed.

End checked.

(** ** Against the documented machine *)

Definition be_value (l : list Z) : Z := foldl (fun v b => 256 * v + b) 0 l.

(** A packet as the data of a program: big-endian fields, zero beyond the end;
    a quotient by zero is zero. *)
Definition packet_host (data : list Z) : Host := {|
  host_load w offset :=
    if offset + width_bytes w <=? Z.of_nat (length data)
    then be_value (take (Z.to_nat (width_bytes w)) (drop (Z.to_nat offset) data)) else 0;
  host_len := Z.of_nat (length data) mod 2 ^ 32;
  host_msh offset := 4 * (default 0 (data !! Z.to_nat offset) mod 16);
  host_div_zero := inl 0;
  host_end := 0
|}.

(** Within four bytes nothing is shifted out. *)
Lemma fold_bytes l v n : Forall is_u8 l -> (length l + n <= 4)%nat -> 0 <= v < 256 ^ Z.of_nat n ->
  foldl (fun value byte => Z.lor (low32 (Z.shiftl value 8)) byte) v l = foldl (fun v b => 256 * v + b) v l.
Proof.
  intros Hl. revert v n. induction Hl as [|b l Hb _ IH]; intros v n Hn Hv; [done|].
  cbn [foldl length] in *. unfold is_u8, U8_MAX in Hb.
  assert (Hp : 256 ^ Z.of_nat (S n) = 256 * 256 ^ Z.of_nat n) by (rewrite Nat2Z.inj_succ, Z.pow_succ_r; lia).
  assert (Hle : 256 ^ Z.of_nat (S n) <= 256 ^ 4) by (apply Z.pow_le_mono_r; lia).
  replace (Z.lor (low32 (Z.shiftl v 8)) b) with (256 * v + b); [apply (IH _ (S n)); lia|].
  rewrite Z.shiftl_mul_pow2, low32_id by (try unfold is_u32, U32_MAX; lia).
  pose proof (lor_split 8 v 0 0 b) as El.
  rewrite Z.add_0_r, Z.lor_0_r, Z.lor_0_l, Z.mul_0_l, Z.add_0_l in El. rewrite El; lia.
Qed.

Lemma load_bytes_host data offset w : Forall is_u8 data -> 0 <= offset ->
  load_bytes data offset (width_bytes w) = host_load (Host := packet_host data) w offset.
Proof.
  intros Hd Ho. unfold load_bytes. cbn [host_load packet_host].
  assert (Hw : 1 <= width_bytes w <= 4) by (destruct w; done).
  destruct (Z.leb_spec (offset + width_bytes w) (Z.of_nat (length data))).
  - replace (_ || _) with false by lia.
    apply (fold_bytes _ 0 0); [by apply Forall_take, Forall_drop| |done].
    rewrite length_take. lia.
  - by replace (_ || _) with true by lia.
Qed.

Lemma msh_host data j : 0 <= j ->
  4 * Z.land (if j <? Z.of_nat (length data) then default 0 (data !! Z.to_nat j) else 0) 15
  = host_msh (Host := packet_host data) j.
Proof.
  intros Hj. cbn [host_msh packet_host]. change 15 with (Z.ones 4). rewrite Z.land_ones by done.
  change (2 ^ 4) with 16. destruct (Z.ltb_spec j (Z.of_nat (length data))); [done|].
  by rewrite lookup_ge_None_2 by lia.
Qed.

Section documented_step.
Context (data : list Z) (i : Insn) (r : regs) (len index : Z).
Context (Hdata : Forall is_u8 data) (Hi : typed_insn i) (Hr : typed_regs r).

(** The arithmetic instructions. *)
Lemma run_alu_documented o s :
  documented i (Alu o s) -> narrow_shift i ->
  exists st, run_alu i r = Done st
    /\ step_outcome st = meaning (host := packet_host data) (Alu o s) i r.
Proof using Hi Hr.
  intros Hd Hn. pose proof Hi as (_ & _ & _ & Hk). pose proof Hr as (Ha & Hx & _ & _).
  destruct i as [c jt0 jf0 k0]. cbn [k] in *.
  each_opcode Hd; try (destruct Hn as [Hs Hk32]; [done|vm_compute; tauto|]; try (by vm_compute in Hs)).
  all: unfold run_alu; decode; try rewrite shift_done by (unfold is_u32 in *; cbn [k] in *; lia).
  all: cbn [mbind exec_bind]; eexists; (split; [reflexivity|]); cbn [step_outcome meaning arithmetic value k].
  all: unfold divide; cbn [host_div_zero packet_host];
    rewrite ?(low32_id (Z.lor _ _)), ?(low32_id (Z.land _ _)), ?(low32_id (Z.lxor _ _)) by auto with word32;
    try done; try (case_match; done).
  all: rewrite (Z.mod_small k0 32); [done|unfold is_u32 in *; cbn [k] in *; lia].
Qed.

(** A checked instruction of the table does what the table says. *)
Lemma run_insn_documented o st :
  documented i o -> check_insn len index i = None -> narrow_shift i ->
  run_insn data i r = Done st -> step_outcome st = meaning (host := packet_host data) o i r.
Proof using Hdata Hi Hr.
  intros Hd Hk Hn. pose proof Hi as (_ & _ & _ & Hki). unfold is_u32 in Hki.
  destruct o as [| w | w | | | | | | | | | o s | | c s | | | |]; swap 12 1.
  { destruct (run_alu_documented o s Hd Hn) as (st' & Est & <-).
    replace (run_insn data i r) with (run_alu i r); [congruence|].
    clear -Hd. destruct i as [c ? ? ?]. each_opcode Hd; unfold run_insn; by decode. }
  all: destruct i as [c0 jt0 jf0 k0]; cbn [k] in Hki; each_opcode Hd; revert Hk;
    unfold check_insn, run_insn, run_load, run_jmp, store; decode; cbn [mbind exec_bind unwrap];
    intros Hk Hst; simplify_eq/=; try done.
  all: try (do 2 f_equal;
    first [apply (load_bytes_host data _ Word)|apply (load_bytes_host data _ Half)
          |apply (load_bytes_host data _ Byte)|apply msh_host];
    solve [done|lia|apply low32_u32]).
  all: unfold mem_word; cbn [k]; destruct (mem r !! Z.to_nat k0); by simplify_eq/=.
Qed.

End documented_step.

(** ** The loop *)

Lemma compile_loop_checked len index l j i :
  compile_loop len index l = None -> l !! j = Some i -> check_insn len (index + Z.of_nat j) i = None.
Proof.
  revert index j. induction l as [|i' l IH]; intros index j Hc Hj; [done|]. cbn [compile_loop] in Hc.
  destruct (check_insn len index i') eqn:E; [done|]. destruct j as [|j]; simplify_eq/=.
  - by rewrite Z.add_0_r.
  - rewrite <- (IH (index + 1) j Hc Hj). f_equal. lia.
Qed.

Lemma compile_Ok l p : compile l = Ok p ->
  p = l /\ Z.of_nat (length l) <= BPF_MAXINSNS
  /\ forall j i, l !! j = Some i -> check_insn (Z.of_nat (length l)) (Z.of_nat j) i = None.
Proof.
  unfold compile. destruct (Z.ltb_spec BPF_MAXINSNS (Z.of_nat (length l))); [done|].
  destruct (compile_loop _ 0 l) eqn:E; [done|]. intros [= <-]. split_and!; [done|done|].
  intros j i Hj. apply (compile_loop_checked _ _ _ _ _ E Hj).
Qed.

(** More fuel changes nothing. *)
Lemma run_loop_mono fuel p data steps pc r fuel' v :
  run_loop fuel p data steps pc r = Done v -> (fuel <= fuel')%nat ->
  run_loop fuel' p data steps pc r = Done v.
Proof.
  revert fuel' steps pc r. induction fuel as [|fuel IH]; intros [|fuel'] steps pc r Hv Hle; try done; try lia.
  cbn [run_loop] in *. case_match; [done|]. case_match; [done|].
  destruct (unwrap _) as [i|]; [|done]. cbn [mbind exec_bind] in *.
  destruct (run_insn data i r) as [[]|]; cbn [mbind exec_bind] in *; auto with lia.
Qed.

Section loop.
Context (p : list Insn) (data : list Z).
Context (Hdata : Forall is_u8 data) (Hp : Forall typed_insn p) (Hn : Forall narrow_shift p).
Context (Hc : forall j i, p !! j = Some i -> check_insn (Z.of_nat (length p)) (Z.of_nat j) i = None).

(** A checked program ends within one round per instruction, before the budget
    of steps does. *)
Lemma run_loop_ends n fuel steps pc r :
  typed_regs r -> (length p - pc <= n)%nat -> (n < fuel)%nat -> steps + Z.of_nat n <= BPF_MAX_STEPS ->
  exists v, run_loop fuel p data steps (Z.of_nat pc) r = Done v /\ is_u32 v
    /\ (documented_program p -> answers (host := packet_host data) (drop pc p) r v).
Proof using Hdata Hp Hn Hc.
  revert fuel steps pc r. induction n as [|n IH]; intros [|fuel] steps pc r Hr Hlen Hf Hs; try lia;
    cbn [run_loop]; destruct (Z.ltb_spec (Z.of_nat pc) (Z.of_nat (length p))) as [Hlt|]; try lia; cbn [negb];
    try (exists 0; split_and!; [done|done|]; rewrite drop_ge by lia; intros _; constructor).
  destruct (Z.ltb_spec BPF_MAX_STEPS (steps + 1)); [lia|].
  destruct (lookup_lt_is_Some_2 p pc) as [i Hi]; [lia|]. rewrite Nat2Z.id, Hi. cbn [unwrap mbind exec_bind].
  assert (Hti : typed_insn i) by (by eapply Forall_lookup_1).
  assert (Hni : narrow_shift i) by (by eapply Forall_lookup_1).
  destruct (run_insn_safe data i r _ _ Hdata Hti Hr (Hc _ _ Hi) Hni) as (s & Hrun & Hok).
  rewrite Hrun. cbn [mbind exec_bind]. rewrite (drop_S _ _ _ Hi).
  assert (Hdoc : documented_program p -> exists o, documented i o
    /\ step_outcome s = meaning (host := packet_host data) o i r).
  { intros Hall. destruct (Forall_lookup_1 _ _ _ _ Hall Hi) as [o Ho].
    eauto using run_insn_documented. }
  destruct s as [r'|offset|v]; cbn [step_ok step_outcome] in *.
  - destruct (IH fuel (steps + 1) (S pc) r' Hok) as (v & Hv & Hu & Ha); [lia..|].
    exists v. split_and!; [|done|].
    + rewrite <- Hv. f_equal. lia.
    + intros Hall. destruct (Hdoc Hall) as (o & ? & ?). eapply answers_next; eauto.
  - destruct Hok as [Hof Hin].
    destruct (IH fuel (steps + 1) (S pc + Z.to_nat offset)%nat r Hr) as (v & Hv & Hu & Ha); [lia..|].
    exists v. split_and!; [|done|].
    + rewrite <- Hv. f_equal. lia.
    + intros Hall. destruct (Hdoc Hall) as (o & ? & ?). eapply answers_skip; [done..|].
      rewrite drop_drop. auto.
  - exists v. split_and!; [done|done|]. intros Hall. destruct (Hdoc Hall) as (o & ? & ?).
    by eapply answers_answer.
Qed.

End loop.

(** ** Totality *)

(** A program that the check accepts and that shifts by constants below 32
    only answers a 32-bit value on every packet.  It does so within one round of
    the interpreter per instruction, so that the budget of steps, which is far
    larger, never cuts a program short; no access to its memory and no jump
    leaves its bounds. *)
Theorem cbpf_total l p data :
  Forall typed_insn l -> Forall is_u8 data -> compile l = Ok p -> Forall narrow_shift l ->
  exists v, is_u32 v /\ run p data = Done v
    /\ forall fuel, (length p < fuel)%nat -> run_loop fuel p data 0 0 regs0 = Done v.
Proof.
  intros Hl Hd (-> & Hlen & Hc)%compile_Ok Hn. unfold BPF_MAXINSNS in Hlen.
  destruct (run_loop_ends l data Hd Hl Hn Hc (length l) (S (length l)) 0 0 regs0) as (v & Hv & Hu & _);
    auto using typed_regs0 with lia; [unfold BPF_MAX_STEPS; lia|].
  assert (Hall : forall fuel, (length l < fuel)%nat -> run_loop fuel l data 0 0 regs0 = Done v)
    by (intros; by apply (run_loop_mono (S (length l)))).
  exists v. split_and!; [done| |done]. apply Hall. unfold BPF_MAX_STEPS. lia.
Qed.

(** An ethernet filter for IPv4, with a shift, on a frame of that type. *)
Definition ip_filter : list Insn :=
  [mk_insn 0x28 0 0 12; mk_insn 0x15 1 0 0x0800; mk_insn 0x06 0 0 0; mk_insn 0x64 0 0 4; mk_insn 0x16 0 0 0].
Definition ip_frame : list Z := replicate 12 0 ++ [8; 0; 0x45; 0].

Lemma typed_ip_filter : Forall typed_insn ip_filter.
Proof. repeat apply Forall_cons_2; [..|apply Forall_nil_2]; split_and!; done. Qed.
Lemma narrow_ip_filter : Forall narrow_shift ip_filter.
Proof. repeat apply Forall_cons_2; [..|apply Forall_nil_2]; intros Hc Ho; vm_compute in Hc; try done; vm_compute in Ho; by destruct Ho. Qed.
Lemma ip_frame_u8 : Forall is_u8 ip_frame.
Proof. repeat apply Forall_cons_2; [..|apply Forall_nil_2]; done. Qed.

Lemma cbpf_total_witness :
  compile ip_filter = Ok ip_filter
  /\ exists v, is_u32 v /\ run ip_filter ip_frame = Done v
    /\ forall fuel, (length ip_filter < fuel)%nat -> run_loop fuel ip_filter ip_frame 0 0 regs0 = Done v.
Proof.
  split; [reflexivity|].
  apply (cbpf_total ip_filter ip_filter ip_frame typed_ip_filter ip_frame_u8); [reflexivity|exact narrow_ip_filter].
Defined.

(** ** The documented machine *)




(** ** Where the machine is not the documented one *)




(** ** Programs as bytes *)

(** The two encodings are inverse: a program written out as bytes is read
    back, and the bytes of any program read, which are a multiple of eight, are
    written back; anything else is refused. *)
Theorem sock_filters_roundtrip :
  (forall l, Forall typed_insn l -> parse_sock_filters (serialize_sock_filters l) = Ok l)
  /\ (forall bytes, Forall is_u8 bytes ->
        match parse_sock_filters bytes with
        | Ok l => Forall typed_insn l /\ serialize_sock_filters l = bytes
        | Err _ => Z.of_nat (length bytes) mod 8 <> 0
        end).
Proof.
  split.
  - intros l Hl. unfold parse_sock_filters. change (serialize_sock_filters l) with (mjoin (map insn_bytes l)).
    rewrite length_insns_bytes, Nat2Z.inj_mul, Z.mul_comm, Z_mod_mult. cbn [Z.eqb negb]. by rewrite parse_chunks_bytes.
  - intros bytes Hb. unfold parse_sock_filters.
    destruct (Z.eqb_spec (Z.of_nat (length bytes) mod 8) 0) as [E|E]; cbn [negb]; [|done].
    apply Z.mod_divide in E as [n En]; [|done].
    destruct (parse_chunks_inv (Z.to_nat n) bytes) as (? & ? & _); [lia|done|done].
Qed.
