(* ===== verification/Seccomp.v ===== *)
(** * System call filters

    The model of [general/src/seccomp.rs]: the check of a filter, its
    interpreter, the chain of the filters of a process and the encoding of the
    data a filter reads. *)

From S2P Require Import Prelude BpfSpec.

Module Seccomp.

Definition SECCOMP_DATA_NR : nat := 0.
Definition SECCOMP_DATA_ARCH : nat := 4.
Definition SECCOMP_DATA_IP : nat := 8.
Definition SECCOMP_DATA_ARGS : nat := 16.
Definition SECCOMP_DATA_SIZE : Z := 64.

Definition SECCOMP_RET_KILL_PROCESS : Z := 0x80000000.
Definition SECCOMP_RET_KILL_THREAD : Z := 0x00000000.
Definition SECCOMP_RET_TRAP : Z := 0x00030000.
Definition SECCOMP_RET_ERRNO : Z := 0x00050000.
Definition SECCOMP_RET_USER_NOTIF : Z := 0x7fc00000.
Definition SECCOMP_RET_TRACE : Z := 0x7ff00000.
Definition SECCOMP_RET_LOG : Z := 0x7ffc0000.
Definition SECCOMP_RET_ALLOW : Z := 0x7fff0000.
Definition SECCOMP_RET_ACTION_FULL : Z := 0xffff0000.
Definition SECCOMP_RET_DATA : Z := 0x0000ffff.

Definition BPF_MAXINSNS : Z := 4096.

Definition SECCOMP_MODE_DISABLED : Z := 0.
Definition SECCOMP_MODE_STRICT : Z := 1.
Definition SECCOMP_MODE_FILTER : Z := 2.

(** [data\[offset..offset + n\].copy_from_slice(v)]. *)
Definition put (offset : nat) (v data : list Z) : list Z :=
  take offset data ++ v ++ drop (offset + length v) data.

(** The loop over the arguments. *)
Fixpoint put_args (index : nat) (args : list Z) (data : list Z) : list Z :=
  match args with
  | [] => data
  | arg :: args => put_args (S index) args (put (SECCOMP_DATA_ARGS + index * 8) (le_bytes 8 arg) data)
  end.

(** The system call number is signed; its bytes are those of its residue. *)
Definition encode_data (nr arch instruction_pointer : Z) (args : list Z) : list Z :=
  let data := replicate 64 0 in
  let data := put SECCOMP_DATA_NR (le_bytes 4 (nr mod 2 ^ 32)) data in
  let data := put SECCOMP_DATA_ARCH (le_bytes 4 arch) data in
  let data := put SECCOMP_DATA_IP (le_bytes 8 instruction_pointer) data in
  put_args 0 args data.

Definition BPF_LD : Z := 0x00.
Definition BPF_LDX : Z := 0x01.
Definition BPF_ST : Z := 0x02.
Definition BPF_STX : Z := 0x03.
Definition BPF_ALU : Z := 0x04.
Definition BPF_JMP : Z := 0x05.
Definition BPF_RET : Z := 0x06.
Definition BPF_MISC : Z := 0x07.
Definition BPF_W : Z := 0x00.
Definition BPF_H : Z := 0x08.
Definition BPF_B : Z := 0x10.
Definition BPF_IMM : Z := 0x00.
Definition BPF_ABS : Z := 0x20.
Definition BPF_IND : Z := 0x40.
Definition BPF_MEM : Z := 0x60.
Definition BPF_LEN : Z := 0x80.
Definition BPF_MSH : Z := 0xa0.
Definition BPF_ADD : Z := 0x00.
Definition BPF_SUB : Z := 0x10.
Definition BPF_MUL : Z := 0x20.
Definition BPF_DIV : Z := 0x30.
Definition BPF_OR : Z := 0x40.
Definition BPF_AND : Z := 0x50.
Definition BPF_LSH : Z := 0x60.
Definition BPF_RSH : Z := 0x70.
Definition BPF_NEG : Z := 0x80.
Definition BPF_MOD : Z := 0x90.
Definition BPF_XOR : Z := 0xa0.
Definition BPF_JA : Z := 0x00.
Definition BPF_JEQ : Z := 0x10.
Definition BPF_JGT : Z := 0x20.
Definition BPF_JGE : Z := 0x30.
Definition BPF_JSET : Z := 0x40.
Definition BPF_TAX : Z := 0x00.
Definition BPF_TXA : Z := 0x80.

(** ** The check *)

(** [index as i64 + 1 + offset as i64] is outside the program; the offset is
    unsigned. *)
Definition jump_outside (len index offset : Z) : bool :=
  let target := index + 1 + offset in (target <? 0) || (len <=? target).

(** One round of [validate_program]: whether it goes on. *)
Definition validate_insn (len index : Z) (i : Insn) : bool :=
  let class := class_of i in
  if (class =? BPF_LD) || (class =? BPF_LDX) then
    let mode := mode_of i in
    let size := size_of i in
    if mode =? BPF_IMM then true
    else if mode =? BPF_MEM then negb (16 <=? k i)
    else if (mode =? BPF_ABS) || (mode =? BPF_IND) then
      let max := if size =? BPF_W then 4 else if size =? BPF_H then 2 else 1 in
      negb (SECCOMP_DATA_SIZE - max <? k i)
    else if mode =? BPF_LEN then true
    else false
  else if (class =? BPF_ST) || (class =? BPF_STX) then negb (16 <=? k i)
  else if class =? BPF_ALU then
    negb ((alu_of i =? BPF_NEG) && negb (src_of i =? 0))
  else if class =? BPF_JMP then
    if alu_of i =? BPF_JA then negb (jump_outside len index (k i))
    else negb (jump_outside len index (jt i) || jump_outside len index (jf i))
  else if class =? BPF_RET then negb (negb (size_of i =? 0))
  else if class =? BPF_MISC then (misc_of i =? BPF_TAX) || (misc_of i =? BPF_TXA)
  else false.

Fixpoint validate_loop (len index : Z) (l : list Insn) : bool :=
  match l with
  | [] => true
  | i :: l => if validate_insn len index i then validate_loop len (index + 1) l else false
  end.

Definition validate_program (insns : list Insn) : result unit Errno :=
  if validate_loop (Z.of_nat (length insns)) 0 insns then Ok tt else Err EINVAL.

(** ** The interpreter *)

(** [u32::from_le_bytes(data\[offset..offset + n\])]. *)
Definition load_word (data : list Z) (offset size : Z) : Z :=
  let get n := if SECCOMP_DATA_SIZE <? offset + n then 0
               else of_le_bytes (take (Z.to_nat n) (drop (Z.to_nat offset) data)) in
  if size =? BPF_W then get 4
  else if size =? BPF_H then get 2
  else if size =? BPF_B then
    if SECCOMP_DATA_SIZE <? offset + 1 then 0 else default 0 (data !! Z.to_nat offset)
  else 0.

(** [x as i32] of a [u32]. *)
Definition as_i32 (v : Z) : Z := if v <? 2 ^ 31 then v else v - 2 ^ 32.

Definition mem_get (i : Insn) (r : regs) : exec Z :=
  if k i <? Z.of_nat (length (mem r)) then unwrap (mem r !! Z.to_nat (k i)) else Panic.
Definition mem_put (i : Insn) (v : Z) (r : regs) : exec step :=
  if k i <? Z.of_nat (length (mem r)) then Done (Continue (set_mem (Z.to_nat (k i)) v r)) else Panic.

Definition run_ld (data : list Z) (i : Insn) (r : regs) : exec step :=
  let mode := mode_of i in
  let size := size_of i in
  let put v := Done (Continue (set_acc v r)) in
  if mode =? BPF_IMM then put (k i)
  else if mode =? BPF_MEM then v ← mem_get i r; put v
  else if mode =? BPF_ABS then put (load_word data (k i) size)
  else if mode =? BPF_IND then put (load_word data (low32 (idx r + k i)) size)
  else if mode =? BPF_LEN then put SECCOMP_DATA_SIZE
  else Done (Return SECCOMP_RET_KILL_THREAD).

Definition run_ldx (data : list Z) (i : Insn) (r : regs) : exec step :=
  let mode := mode_of i in
  let put v := Done (Continue (set_idx v r)) in
  if mode =? BPF_IMM then put (k i)
  else if mode =? BPF_MEM then v ← mem_get i r; put v
  else if mode =? BPF_LEN then put SECCOMP_DATA_SIZE
  else if mode =? BPF_MSH then put (Z.land (low32 (load_word data (k i) BPF_B * 4)) 0xfffffff0)
  else Done (Return SECCOMP_RET_KILL_THREAD).

Definition run_alu (i : Insn) (r : regs) : exec step :=
  let op := alu_of i in
  let src := if negb (src_of i =? 0) then idx r else k i in
  let put v := Done (Continue (set_acc v r)) in
  if op =? BPF_ADD then put (low32 (acc r + src))
  else if op =? BPF_SUB then put (low32 (acc r - src))
  else if op =? BPF_MUL then put (low32 (acc r * src))
  else if op =? BPF_DIV then
    if src =? 0 then Done (Return SECCOMP_RET_KILL_THREAD) else put (acc r / src)
  else if op =? BPF_OR then put (Z.lor (acc r) src)
  else if op =? BPF_AND then put (Z.land (acc r) src)
  else if op =? BPF_LSH then put (low32 (Z.shiftl (acc r) (Z.land src 31)))
  else if op =? BPF_RSH then put (Z.shiftr (acc r) (Z.land src 31))
  else if op =? BPF_NEG then put (low32 (- acc r))
  else if op =? BPF_MOD then
    if src =? 0 then Done (Return SECCOMP_RET_KILL_THREAD) else put (acc r mod src)
  else if op =? BPF_XOR then put (Z.lxor (acc r) src)
  else Done (Return SECCOMP_RET_KILL_THREAD).

Definition run_jmp (i : Insn) (r : regs) : exec step :=
  let op := alu_of i in
  let src := if negb (src_of i =? 0) then idx r else k i in
  let go (condition : bool) :=
    Done (Goto (if op =? BPF_JA then as_i32 (k i) else if condition then jt i else jf i)) in
  if op =? BPF_JA then go true
  else if op =? BPF_JEQ then go (acc r =? src)
  else if op =? BPF_JGT then go (src <? acc r)
  else if op =? BPF_JGE then go (src <=? acc r)
  else if op =? BPF_JSET then go (negb (Z.land (acc r) src =? 0))
  else Done (Return SECCOMP_RET_KILL_THREAD).

Definition run_insn (data : list Z) (i : Insn) (r : regs) : exec step :=
  let class := class_of i in
  if class =? BPF_LD then run_ld data i r
  else if class =? BPF_LDX then run_ldx data i r
  else if class =? BPF_ST then mem_put i (acc r) r
  else if class =? BPF_STX then mem_put i (idx r) r
  else if class =? BPF_ALU then run_alu i r
  else if class =? BPF_JMP then run_jmp i r
  else if class =? BPF_RET then Done (Return (k i))
  else if class =? BPF_MISC then
    if misc_of i =? BPF_TAX then Done (Continue (set_idx (acc r) r))
    else if misc_of i =? BPF_TXA then Done (Continue (set_acc (idx r) r))
    else Done (Return SECCOMP_RET_KILL_THREAD)
  else Done (Return SECCOMP_RET_KILL_THREAD).

(** The loop of [run_bpf]; [fuel] bounds the rounds, and a program that needs
    more does not return. *)
Fixpoint run_loop (fuel : nat) (insns : list Insn) (data : list Z) (pc : Z) (r : regs) : exec Z :=
  let len := Z.of_nat (length insns) in
  if negb (pc <? len) then Done SECCOMP_RET_KILL_THREAD
  else
    match fuel with
    | O => Panic
    | S fuel =>
        i ← unwrap (insns !! Z.to_nat pc);
        s ← run_insn data i r;
        match s with
        | Return v => Done v
        | Continue r => run_loop fuel insns data (pc + 1) r
        | Goto offset =>
            let next := pc + 1 + offset in
            if (next <? 0) || (len <=? next) then Done SECCOMP_RET_KILL_THREAD
            else run_loop fuel insns data next r
        end
    end.

(** A program that only moves forward needs one round per instruction. *)
Definition run_bpf (insns : list Insn) (data : list Z) : exec Z :=
  run_loop (length insns) insns data 0 regs0.

(** ** Filters *)

Record SeccompFilter : Type := mk_filter { id : Z; insns : list Insn; flags : Z }.

(** [new], with the counter [NEXT_FILTER_ID]. *)
Definition new_filter (next_id : Z) (insns : list Insn) (flags : Z) : result SeccompFilter Errno * Z :=
  let len := Z.of_nat (length insns) in
  if (len =? 0) || (BPF_MAXINSNS <? len) then (Err EINVAL, next_id)
  else match validate_program insns with
       | Err e => (Err e, next_id)
       | Ok _ => (Ok (mk_filter next_id insns flags), wrapping_add next_id 1)
       end.

Definition run_filter (f : SeccompFilter) (data : list Z) : exec Z := run_bpf (insns f) data.

(** The state of a process; the callback for listeners is an opaque value. *)
Record SeccompState : Type := mk_state {
  mode : Z;
  filters : list SeccompFilter;
  log : Z;
  listener_factory : option Z
}.

Definition new_state : SeccompState := mk_state SECCOMP_MODE_DISABLED [] 0 None.

Definition filter_count (s : SeccompState) : Z := Z.of_nat (length (filters s)).

Definition push_filter (s : SeccompState) (f : SeccompFilter) : SeccompState :=
  mk_state SECCOMP_MODE_FILTER (filters s ++ [f]) (log s) (listener_factory s).

Definition set_strict (s : SeccompState) : SeccompState :=
  mk_state SECCOMP_MODE_STRICT [] (log s) (listener_factory s).

Definition fork_clone (s : SeccompState) : SeccompState :=
  mk_state (mode s) (filters s) (log s) (listener_factory s).

Definition action_of (v : Z) : Z := Z.land v SECCOMP_RET_ACTION_FULL.

(** The loop of [SeccompState::run]. *)
Fixpoint chain_loop (fs : list SeccompFilter) (data : list Z) (action : Z) : exec Z :=
  match fs with
  | [] => Done action
  | f :: fs =>
      v ← run_filter f data;
      if negb (action_of v =? SECCOMP_RET_ALLOW) then
        if negb (action_of v =? SECCOMP_RET_LOG) then Done v else chain_loop fs data v
      else chain_loop fs data action
  end.

Definition run (s : SeccompState) (data : list Z) : exec Z :=
  chain_loop (filters s) data SECCOMP_RET_ALLOW.

(** ** Programs as bytes *)

Definition parse_program (bytes : list Z) : result (list Insn) Errno :=
  let len := Z.of_nat (length bytes) in
  if negb (len mod 8 =? 0) then Err EINVAL
  else if BPF_MAXINSNS <? len / 8 then Err EINVAL
  else Ok (parse_chunks bytes).

Definition filter_install_allowed (no_new_privs has_sys_admin : bool) : bool :=
  no_new_privs || has_sys_admin.

End Seccomp.
