(* ===== verification/SeccompProps.v ===== *)
(** * System call filters: properties

    What the check of a filter promises about each of its instructions, and
    their meaning on the documented machine.  Accepted filters compute the
    documented answer, the filters of a process combine in the order of their
    installation, and the data they read holds the fields of the call. *)

From S2P Require Import Prelude BpfSpec Seccomp.
Import Seccomp.

(** The sixty-four bytes a filter reads. *)
Definition typed_data (data : list Z) : Prop := length data = 64%nat /\ Forall is_u8 data.

(** They are little-endian fields and zero beyond the end; a division by zero
    ends the program with the strictest answer.  The instruction for headers of
    packets has no meaning here. *)
Definition seccomp_host (data : list Z) : Host := {|
  host_load w offset :=
    if offset + width_bytes w <=? 64
    then of_le_bytes (take (Z.to_nat (width_bytes w)) (drop (Z.to_nat offset) data)) else 0;
  host_len := 64;
  host_msh _ := 0;
  host_div_zero := inr SECCOMP_RET_KILL_THREAD;
  host_end := SECCOMP_RET_KILL_THREAD
|}.

(** ** Loads *)

Definition size_code (w : width) : Z := match w with Word => BPF_W | Half => BPF_H | Byte => BPF_B end.

Lemma load_word_host data offset w : typed_data data -> 0 <= offset ->
  load_word data offset (size_code w) = host_load (Host := seccomp_host data) w offset.
Proof.
  intros [Hl _] Ho. unfold load_word, SECCOMP_DATA_SIZE. cbn [host_load seccomp_host].
  destruct w; cbn [size_code width_bytes]; unfold BPF_W, BPF_H, BPF_B; cbn [Z.eqb Pos.eqb];
    match goal with |- context [64 <? ?o] => destruct (Z.ltb_spec 64 o), (Z.leb_spec o 64) end; try lia; try done.
  destruct (lookup_lt_is_Some_2 data (Z.to_nat offset)) as [b Hb]; [lia|].
  rewrite Hb, (drop_S _ _ _ Hb). change (Z.to_nat 1) with 1%nat.
  change (default 0 (Some b)) with b. cbn [take of_le_bytes].
  rewrite take_0. cbn [of_le_bytes]. lia.
Qed.

Lemma load_word_u32 data offset size : typed_data data -> 0 <= offset -> is_u32 (load_word data offset size).
Proof.
  intros [Hl Hd] Ho. unfold load_word.
  assert (Hget : forall n, 0 <= n <= 4 ->
    is_u32 (of_le_bytes (take (Z.to_nat n) (drop (Z.to_nat offset) data)))).
  { intros n Hn. pose proof (of_le_bytes_bound (take (Z.to_nat n) (drop (Z.to_nat offset) data))) as Hb.
    specialize (Hb ltac:(by apply Forall_take, Forall_drop)).
    pose proof (Z.pow_le_mono_r 256 (Z.of_nat (length (take (Z.to_nat n) (drop (Z.to_nat offset) data)))) 4) as Hp.
    rewrite length_take in *. ulia. }
  repeat case_match; try done; try (apply Hget; lia).
  destruct (data !! Z.to_nat offset) eqn:E; [|done]. pose proof (Forall_lookup_1 _ _ _ _ Hd E). cbn. ulia.
Qed.

(** ** Checked instructions *)

Section checked.
Context (data : list Z) (i : Insn) (r : regs) (len index : Z).
Context (Hdata : typed_data data) (Hi : typed_insn i) (Hr : typed_regs r) (Hlen : len <= BPF_MAXINSNS) (Hidx : 0 <= index).

Lemma source_u32 (b : bool) : is_u32 (if b then idx r else k i).
Proof using Hi Hr. destruct Hi as (_ & _ & _ & ?), Hr as (_ & ? & _). by destruct b. Qed.

Lemma inside offset : 0 <= offset -> negb (jump_outside len index offset) = true ->
  0 <= offset /\ index + 1 + offset < len.
Proof. unfold jump_outside. lia. Qed.

Lemma low5 v : Z.land v 31 = v mod 32.
Proof. apply (Z.land_ones v 5). done. Qed.

Lemma run_alu_done : exists s, run_alu i r = Done s /\ step_ok len index s.
Proof using Hi Hr.
  pose proof (source_u32 (negb (src_of i =? 0))) as Ho. pose proof Hr as (Ha & _). unfold run_alu.
  set (o := if negb (src_of i =? 0) then idx r else k i) in *. rewrite low5.
  pose proof (Z.mod_pos_bound o 32 ltac:(done)) as Hm.
  repeat match goal with
  | |- context [if alu_of i =? ?n then _ else _] => destruct (alu_of i =? n)
  | |- context [if o =? 0 then _ else _] => destruct (Z.eqb_spec o 0)
  end; eexists; (split; [reflexivity|]); cbn [step_ok]; try done;
    apply typed_set_acc; auto with word32; [apply u32_div|apply u32_shiftr|apply u32_mod]; try done; ulia.
Qed.

Lemma mem_get_done : k i < 16 -> exists v, mem_get i r = Done v /\ is_u32 v.
Proof using Hi Hr.
  intros Hk. pose proof Hi as (_ & _ & _ & Hki). pose proof Hr as (_ & _ & Hl & _).
  destruct (typed_mem r (k i) Hr) as (v & Hv & Hu); [ulia|]. exists v. unfold mem_get.
  rewrite Hl, Hv. destruct (Z.ltb_spec (k i) (Z.of_nat 16)); [done|lia].
Qed.

Lemma mem_put_done v : is_u32 v -> k i < 16 -> exists s, mem_put i v r = Done s /\ step_ok len index s.
Proof using Hr.
  intros Hv Hk. unfold mem_put. pose proof Hr as (_ & _ & -> & _).
  destruct (Z.ltb_spec (k i) (Z.of_nat 16)); [|lia]. eexists; split; [done|]. simpl. auto with word32.
Qed.

Lemma run_jmp_done : validate_insn len index i = true -> class_of i = BPF_JMP ->
  exists s, run_jmp i r = Done s /\ step_ok len index s.
Proof using Hi Hlen Hidx.
  intros Hk Hc. pose proof Hi as (_ & Hjt & Hjf & Hki).
  unfold validate_insn in Hk. rewrite Hc in Hk. cbn -[jump_outside] in Hk. unfold run_jmp.
  destruct (Z.eqb_spec (alu_of i) BPF_JA) as [E|E].
  - eexists; split; [reflexivity|]. apply inside in Hk; [|ulia]. cbn [step_ok]. unfold as_i32.
    unfold BPF_MAXINSNS in Hlen. case_match; lia.
  - rewrite negb_orb in Hk. apply andb_true_iff in Hk as [Ht Hf].
    assert (Hgo : forall b : bool, step_ok len index (Goto (if b then jt i else jf i))).
    { intros []; apply inside; try done; ulia. }
    repeat match goal with |- context [if alu_of i =? ?n then _ else _] => destruct (alu_of i =? n) end;
      eexists; (split; [reflexivity|]); done.
Qed.

Lemma run_ld_done : validate_insn len index i = true -> class_of i = BPF_LD \/ class_of i = BPF_LDX ->
  exists s, (if class_of i =? BPF_LD then run_ld data i r else run_ldx data i r) = Done s
    /\ step_ok len index s.
Proof using Hdata Hi Hr.
  intros Hk Hc. pose proof Hi as (_ & _ & _ & Hki). pose proof (low32_u32 (idx r + k i)) as Hlo.
  assert (Hm : mode_of i = BPF_MEM -> k i < 16).
  { intros E. unfold validate_insn in Hk. rewrite E in Hk. destruct Hc as [Hc|Hc]; rewrite Hc in Hk; cbn in Hk;
      destruct (Z.leb_spec 16 (k i)); done || lia. }
  unfold run_ld, run_ldx. destruct (class_of i =? BPF_LD);
  repeat match goal with
  | |- context [if mode_of i =? ?n then _ else _] => destruct (Z.eqb_spec (mode_of i) n) as [E|_]
  end; try (destruct (mem_get_done (Hm E)) as (v & -> & Hv); cbn [mbind exec_bind]);
    eexists; (split; [reflexivity|]); cbn [step_ok]; try done;
    match goal with |- typed_regs (set_acc _ _) => apply typed_set_acc | _ => apply typed_set_idx end; try done;
    try (apply load_word_u32; [done|unfold is_u32 in *; lia]).
  apply u32_land; [apply low32_u32|done].
Qed.

(** A checked instruction never panics, keeps the registers in range and jumps
    forward inside the program. *)
Lemma run_insn_done : validate_insn len index i = true ->
  exists s, run_insn data i r = Done s /\ step_ok len index s.
Proof using Hdata Hi Hr Hlen Hidx.
  intros Hk. pose proof Hi as (_ & _ & _ & Hki). pose proof Hr as (Ha & Hx & _ & _).
  pose proof (run_ld_done Hk) as Hld. unfold run_insn.
  assert (Hst : class_of i = BPF_ST \/ class_of i = BPF_STX -> k i < 16).
  { intros H. unfold validate_insn in Hk. destruct H as [H|H]; rewrite H in Hk; cbn in Hk;
      destruct (Z.leb_spec 16 (k i)); done || lia. }
  destruct (Z.eqb_spec (class_of i) BPF_LD) as [E|E]; [by apply Hld; left|].
  destruct (Z.eqb_spec (class_of i) BPF_LDX) as [E'|E']; [by apply Hld; right|].
  destruct (Z.eqb_spec (class_of i) BPF_ST); [apply mem_put_done; auto|].
  destruct (Z.eqb_spec (class_of i) BPF_STX); [apply mem_put_done; auto|].
  destruct (Z.eqb_spec (class_of i) BPF_ALU); [by apply run_alu_done|].
  destruct (Z.eqb_spec (class_of i) BPF_JMP); [by apply run_jmp_done|].
  destruct (class_of i =? BPF_RET); [by eexists|].
  destruct (class_of i =? BPF_MISC); [|by eexists].
  destruct (misc_of i =? BPF_TAX), (misc_of i =? BPF_TXA);
    (eexists; split; [reflexivity|]); simpl; auto with word32; done.
Qed.

End checked.

(** ** Against the documented machine *)

(** A checked instruction of the table does what the table says. *)
Lemma run_insn_meaning data i r len index o st :
  typed_data data -> typed_insn i -> typed_regs r -> len <= BPF_MAXINSNS -> 0 <= index ->
  documented i o -> validate_insn len index i = true -> run_insn data i r = Done st ->
  step_outcome st = meaning (host := seccomp_host data) o i r.
Proof.
  intros Hdata Hi Hr Hlen Hidx Hd Hv Hst.
  destruct (run_insn_done data i r len index Hdata Hi Hr Hlen Hidx Hv) as (st' & Hst' & Hok).
  rewrite Hst in Hst'. simplify_eq.
  pose proof Hi as (_ & _ & _ & Hk). pose proof Hr as (Ha & Hx & _). unfold is_u32 in Hk.
  destruct i as [c jt0 jf0 k0]. cbn [k] in Hk. revert Hv Hst Hok.
  each_opcode Hd; unfold validate_insn, run_insn, run_ld, run_ldx, run_alu, run_jmp, mem_get, mem_put; decode;
    rewrite ?low5; intros Hv Hst Hok; cbn [k jt jf] in *; try done;
    try (injection Hst as <-; cbn [step_outcome meaning arithmetic value k jt jf host_len seccomp_host];
      rewrite ?(low32_id (Z.lor _ _)), ?(low32_id (Z.land _ _)), ?(low32_id (Z.lxor _ _)) by auto with word32;
      done).
  all: try (injection Hst as <-; cbn [step_outcome meaning]; do 2 f_equal;
    first [apply (load_word_host data _ Word)|apply (load_word_host data _ Half)|apply (load_word_host data _ Byte)];
    solve [done|lia|apply low32_u32]).
  all: try (injection Hst as <-; cbn [step_outcome meaning arithmetic value k]; rewrite low32_id; [done|];
    apply u32_shiftr; [done|apply Z.mod_pos_bound; lia]).
  all: cbn [meaning arithmetic value k]; unfold divide, mem_word; cbn [host_div_zero seccomp_host k];
    unfold as_i32 in *; repeat case_match; simplify_eq/=; try done.
  1, 2: destruct (mem r !! Z.to_nat k0); by simplify_eq/=.
  unfold U32_MAX in Hk. lia.
Qed.

(** ** Programs *)

Lemma validate_loop_valid len index l j i :
  validate_loop len index l = true -> l !! j = Some i -> validate_insn len (index + Z.of_nat j) i = true.
Proof.
  revert index j. induction l as [|i' l IH]; intros index j Hc Hj; [done|]. cbn [validate_loop] in Hc.
  destruct (validate_insn len index i') eqn:E; [|done]. destruct j as [|j]; simplify_eq/=.
  - by rewrite Z.add_0_r.
  - rewrite <- (IH (index + 1) j Hc Hj). f_equal. lia.
Qed.

Lemma new_filter_Ok id l flags f id' : new_filter id l flags = (Ok f, id') ->
  f = mk_filter id l flags /\ Z.of_nat (length l) <= BPF_MAXINSNS
  /\ forall j i, l !! j = Some i -> validate_insn (Z.of_nat (length l)) (Z.of_nat j) i = true.
Proof.
  unfold new_filter, validate_program. destruct (_ || _) eqn:E; [done|]. reflect_bools.
  destruct (validate_loop _ 0 l) eqn:Ev; [|done]. intros [= <- _]. split_and!; [done|done|].
  intros j i Hj. apply (validate_loop_valid _ _ _ _ _ Ev Hj).
Qed.

Section loop.
Context (p : list Insn) (data : list Z).
Context (Hdata : typed_data data) (Hp : Forall typed_insn p) (Hlen : Z.of_nat (length p) <= BPF_MAXINSNS).
Context (Hv : forall j i, p !! j = Some i -> validate_insn (Z.of_nat (length p)) (Z.of_nat j) i = true).

(** A checked program ends within one round per instruction. *)
Lemma run_loop_done n fuel pc r :
  typed_regs r -> (length p - pc <= n)%nat -> (n <= fuel)%nat ->
  exists v, run_loop fuel p data (Z.of_nat pc) r = Done v /\ is_u32 v
    /\ (documented_program p -> answers (host := seccomp_host data) (drop pc p) r v).
Proof using Hdata Hp Hlen Hv.
  revert fuel pc r. induction n as [|n IH]; intros [|fuel] pc r Hr Hn Hf; try lia;
    cbn [run_loop]; destruct (Z.ltb_spec (Z.of_nat pc) (Z.of_nat (length p))) as [Hlt|]; try lia; cbn [negb];
    try (exists 0; split_and!; [done|done|]; rewrite drop_ge by lia; intros _;
      apply (answers_end (host := seccomp_host data))).
  destruct (lookup_lt_is_Some_2 p pc) as [i Hi]; [lia|]. rewrite Nat2Z.id, Hi. cbn [unwrap mbind exec_bind].
  assert (Hti : typed_insn i) by (by eapply Forall_lookup_1).
  destruct (run_insn_done data i r _ (Z.of_nat pc) Hdata Hti Hr Hlen ltac:(lia) (Hv _ _ Hi)) as (s & Hrun & Hok).
  rewrite Hrun. cbn [mbind exec_bind]. rewrite (drop_S _ _ _ Hi).
  assert (Hdoc : documented_program p -> exists o, documented i o
    /\ step_outcome s = meaning (host := seccomp_host data) o i r).
  { intros Hall. destruct (Forall_lookup_1 _ _ _ _ Hall Hi) as [o Ho]. exists o. split; [done|].
    apply (run_insn_meaning data i r (Z.of_nat (length p)) (Z.of_nat pc)); auto with lia. }
  destruct s as [r'|offset|v]; cbn [step_ok step_outcome] in *.
  - destruct (IH fuel (S pc) r' Hok) as (v & Hrv & Hu & Ha); [lia..|].
    exists v. split_and!; [|done|].
    + rewrite <- Hrv. f_equal. lia.
    + intros Hall. destruct (Hdoc Hall) as (o & ? & ?). eapply answers_next; eauto.
  - destruct Hok as [Hof Hin].
    destruct (IH fuel (S pc + Z.to_nat offset)%nat r Hr) as (v & Hrv & Hu & Ha); [lia..|].
    exists v. split_and!; [|done|].
    + replace (_ || _) with false by lia. rewrite <- Hrv. f_equal. lia.
    + intros Hall. destruct (Hdoc Hall) as (o & ? & ?). eapply answers_skip; [done..|].
      rewrite drop_drop. auto.
  - exists v. split_and!; [done|done|]. intros Hall. destruct (Hdoc Hall) as (o & ? & ?).
    by eapply answers_answer.
Qed.

End loop.

(** ** One filter *)

(** C35. Every filter that is accepted answers a 32-bit action on every call,
    within one round per instruction: it never loops, never leaves its memory and
    never overflows.  If it is made of the published instructions the action is
    the one answer of the documented machine on the data of the call. *)
Theorem seccomp_filter_correct id l flags f id' data :
  Forall typed_insn l -> typed_data data -> new_filter id l flags = (Ok f, id') ->
  exists v, run_filter f data = Done v /\ is_u32 v
    /\ (documented_program l -> forall v', answers (host := seccomp_host data) l regs0 v' <-> v' = v).
Proof.
  intros Hl Hd (-> & Hlen & Hv)%new_filter_Ok. unfold run_filter, run_bpf. cbn [insns].
  destruct (run_loop_done l data Hd Hl Hlen Hv (length l) (length l) 0 regs0) as (v & Hr & Hu & Ha);
    auto using typed_regs0 with lia.
  exists v. split_and!; [done|done|]. intros Hdoc v'. split; [|intros ->; by apply Ha].
  intros Ha'. by apply (answers_unique _ _ _ _ Ha' (Ha Hdoc)).
Qed.

(** A filter that refuses one call with an error number and stores the number
    of the call on its way. *)
Definition deny_filter : list Insn :=
  [mk_insn 0x20 0 0 0; mk_insn 0x02 0 0 3; mk_insn 0x15 0 1 59; mk_insn 0x06 0 0 0x0005000d;
   mk_insn 0x06 0 0 0x7fff0000].
Definition execve_data : list Z := encode_data 59 0xc00000b7 0x400000 [1; 2; 3; 4; 5; 6].

Lemma typed_deny_filter : Forall typed_insn deny_filter.
Proof. repeat apply Forall_cons_2; [..|apply Forall_nil_2]; split_and!; done. Qed.
Lemma documented_deny_filter : documented_program deny_filter.
Proof. repeat apply Forall_cons_2; [..|apply Forall_nil_2]; in_table. Qed.
Lemma typed_execve_data : typed_data execve_data.
Proof. split; [done|]. apply Forall_forall. intros b Hb. vm_compute in Hb. unfold is_u8, U8_MAX. set_solver by lia. Qed.

Lemma seccomp_filter_correct_witness :
  run_filter (mk_filter 1 deny_filter 0) execve_data = Done 0x0005000d
  /\ exists v, run_filter (mk_filter 1 deny_filter 0) execve_data = Done v /\ is_u32 v
    /\ (documented_program deny_filter ->
        forall v', answers (host := seccomp_host execve_data) deny_filter regs0 v' <-> v' = v).
Proof.
  split; [vm_compute; reflexivity|].
  apply (seccomp_filter_correct 1 deny_filter 0 _ 2 _ typed_deny_filter typed_execve_data). reflexivity.
Defined.

(** ** The filters of a process *)

(** What happens to the state of a process. *)
Inductive event : Type :=
| Install (l : list Insn) (flags : Z)
| Strict
| Fork.

(** An installation that is refused leaves the state alone; a child starts from a
    copy. *)
Definition apply_event (st : SeccompState * Z) (e : event) : SeccompState * Z :=
  let '(s, id) := st in
  match e with
  | Install l flags =>
      match new_filter id l flags with
      | (Ok f, id) => (push_filter s f, id)
      | (Err _, id) => (s, id)
      end
  | Strict => (set_strict s, id)
  | Fork => (fork_clone s, id)
  end.

Definition typed_event (e : event) : Prop := match e with Install l _ => Forall typed_insn l | _ => True end.

Definition accepted (f : SeccompFilter) : Prop :=
  Forall typed_insn (insns f) /\ exists id id', new_filter id (insns f) (flags f) = (Ok f, id').

Lemma apply_event_accepted st e :
  typed_event e -> Forall accepted (filters st.1) -> Forall accepted (filters (apply_event st e).1).
Proof.
  destruct st as [s id]. intros He Hs. destruct e as [l fl| |]; cbn [apply_event fst filters]; [|done..].
  destruct (new_filter id l fl) as [[f|e] id'] eqn:E; [|done]. cbn [fst filters push_filter].
  apply Forall_app. split; [done|]. apply Forall_singleton.
  destruct (new_filter_Ok _ _ _ _ _ E) as (-> & _). split; [done|]. eauto.
Qed.

(** An action that decides, against one that lets the call through or logs it. *)
Definition decisive (v : Z) : bool := negb (action_of v =? SECCOMP_RET_ALLOW) && negb (action_of v =? SECCOMP_RET_LOG).
Definition logged (v : Z) : bool := action_of v =? SECCOMP_RET_LOG.

(** The first action that decides, or else the last one that logs, or else to
    allow the call. *)
Definition combined (vs : list Z) : Z :=
  default (default SECCOMP_RET_ALLOW (last (filter (fun v => logged v = true) vs)))
    (head (filter (fun v => decisive v = true) vs)).

Lemma chain_loop_combined fs data vs action :
  Forall2 (fun f v => run_filter f data = Done v) fs vs ->
  chain_loop fs data action
  = Done (default (default action (last (filter (fun v => logged v = true) vs)))
            (head (filter (fun v => decisive v = true) vs))).
Proof.
  intros H. revert action. induction H as [|f v fs vs Hf _ IH]; intros action; [done|].
  cbn [chain_loop]. rewrite Hf. cbn [mbind exec_bind]. rewrite !filter_cons, !IH.
  unfold decisive, logged. destruct (Z.eqb_spec (action_of v) SECCOMP_RET_ALLOW) as [->|Ha]; [done|].
  destruct (Z.eqb_spec (action_of v) SECCOMP_RET_LOG); [|done]. cbn [negb andb].
  rewrite decide_True, decide_False by done. rewrite last_cons. by destruct (last _).
Qed.

Lemma decisive_combined vs :
  decisive (combined vs) = bool_decide (filter (fun v => decisive v = true) vs <> []).
Proof.
  unfold combined. destruct (filter (fun v => decisive v = true) vs) as [|v l] eqn:E; cbn [head default].
  - rewrite bool_decide_false by tauto. destruct (last _) as [v|] eqn:El; [|done].
    apply last_Some_elem_of, list_elem_of_filter in El as [Hl _].
    cbn. unfold logged, decisive in *. by rewrite Hl, andb_false_r.
  - rewrite bool_decide_true by done. cbn.
    assert (v ∈ filter (fun v => decisive v = true) vs) as [? _]%list_elem_of_filter by (rewrite E; apply list_elem_of_here).
    done.
Qed.

Lemma combined_snoc vs w :
  combined (vs ++ [w])
  = if decisive (combined vs) then combined vs
    else if action_of w =? SECCOMP_RET_ALLOW then combined vs else w.
Proof.
  rewrite decisive_combined. unfold combined. rewrite !filter_app, !filter_cons, !filter_nil.
  destruct (filter (fun v => decisive v = true) vs) as [|v l]; [|done].
  rewrite bool_decide_false by tauto. unfold decisive, logged.
  destruct (Z.eqb_spec (action_of w) SECCOMP_RET_ALLOW) as [->|Ha].
  - by rewrite !decide_False, app_nil_r by done.
  - destruct (Z.eqb_spec (action_of w) SECCOMP_RET_LOG); cbn [negb andb].
    + rewrite (decide_True (P := true = true)), (decide_False (P := false = true)) by done. by rewrite last_snoc.
    + by rewrite (decide_True (P := true = true)) by done.
Qed.

(** The states a process can be in, with the number of the next filter. *)
Definition reachable (st : SeccompState * Z) : Prop :=
  exists events, Forall typed_event events /\ st = foldl apply_event (new_state, 1) events.

Lemma reachable_accepted st : reachable st -> Forall accepted (filters st.1).
Proof.
  intros (events & He & ->).
  assert (H0 : Forall accepted (filters (new_state, 1).1)) by constructor.
  revert H0. generalize (new_state, 1). induction He as [|e events He _ IH]; intros st Hst; [done|].
  cbn [foldl]. by apply IH, apply_event_accepted.
Qed.

Lemma accepted_run f data : accepted f -> typed_data data -> exists v, run_filter f data = Done v /\ is_u32 v.
Proof.
  intros [Hl (id & id' & Hf)] Hd. destruct (new_filter_Ok _ _ _ _ _ Hf) as (_ & Hlen & Hv).
  destruct (run_loop_done (insns f) data Hd Hl Hlen Hv (length (insns f)) (length (insns f)) 0 regs0)
    as (v & ? & ? & _); eauto using typed_regs0 with lia.
Qed.

Lemma accepted_runs fs data : Forall accepted fs -> typed_data data ->
  exists vs, Forall2 (fun f v => run_filter f data = Done v) fs vs /\ Forall is_u32 vs.
Proof.
  intros Hfs Hd. induction Hfs as [|f fs Hf _ (vs & Hvs & Hu)]; [by exists []; split; constructor|].
  destruct (accepted_run f data Hf Hd) as (v & ? & ?). exists (v :: vs). split; by constructor.
Qed.

(** In every state that installations, strict mode and forks produce, each
    filter answers and the outcome of a call is the first decisive answer in the
    order of installation, or else the last answer that logs, or else to allow. *)
Theorem seccomp_chain st data :
  reachable st -> typed_data data ->
  exists vs, Forall2 (fun f v => run_filter f data = Done v) (filters st.1) vs
    /\ Forall is_u32 vs /\ run st.1 data = Done (combined vs).
Proof.
  intros Hst Hd. destruct (accepted_runs _ data (reachable_accepted _ Hst) Hd) as (vs & Hvs & Hu).
  exists vs. split_and!; [done|done|]. by apply chain_loop_combined.
Qed.

(** The filter twice, with one in between that the check refuses. *)
Definition install_events : list event :=
  [Install deny_filter 0; Install [mk_insn 0x16 0 0 0] 0; Fork; Install [mk_insn 0x06 0 0 0x7ffc0000] 0].

Lemma reachable_install : reachable (foldl apply_event (new_state, 1) install_events).
Proof.
  exists install_events. split; [|done]. repeat apply Forall_cons_2; [..|apply Forall_nil_2];
    cbn [typed_event]; try done; repeat apply Forall_cons_2; try apply Forall_nil_2; split_and!; done.
Qed.

Lemma seccomp_chain_witness :
  let st := foldl apply_event (new_state, 1) install_events in
  filter_count st.1 = 2 /\ run st.1 execve_data = Done 0x0005000d
  /\ exists vs, Forall2 (fun f v => run_filter f execve_data = Done v) (filters st.1) vs
    /\ Forall is_u32 vs /\ run st.1 execve_data = Done (combined vs).
Proof.
  split_and!; [vm_compute; reflexivity..|]. apply (seccomp_chain _ _ reachable_install typed_execve_data).
Defined.

(** Installing a filter only restricts: a call that was decided stays decided
    the same way, and a call that is allowed afterwards was allowed before.  A
    program that the check refuses changes nothing. *)
Theorem seccomp_install_restricts st l fl data :
  reachable st -> Forall typed_insn l -> typed_data data ->
  exists v v', run st.1 data = Done v /\ run (apply_event st (Install l fl)).1 data = Done v'
    /\ (decisive v = true -> v' = v)
    /\ (action_of v' = SECCOMP_RET_ALLOW -> action_of v = SECCOMP_RET_ALLOW).
Proof.
  intros Hst Hl Hd. pose proof (reachable_accepted _ Hst) as Hacc.
  destruct (accepted_runs _ data Hacc Hd) as (vs & Hvs & _). pose proof (chain_loop_combined _ _ _ SECCOMP_RET_ALLOW Hvs) as Hrun.
  exists (combined vs). unfold run. rewrite Hrun.
  pose proof (apply_event_accepted st (Install l fl) Hl Hacc) as Hacc'. destruct st as [s id].
  cbn [apply_event fst] in *. destruct (new_filter id l fl) as [[f|e] id']; cbn [fst] in *; [|by exists (combined vs)].
  cbn [filters push_filter] in *. apply Forall_app in Hacc' as [_ Hf]. rewrite Forall_singleton in Hf.
  destruct (accepted_run f data Hf Hd) as (w & Hw & _). exists (combined (vs ++ [w])).
  rewrite (chain_loop_combined _ _ (vs ++ [w])) by (apply Forall2_app; [done|by apply Forall2_cons]).
  split_and!; [done|done| |]; rewrite combined_snoc; destruct (decisive (combined vs)) eqn:E; try done.
  destruct (Z.eqb_spec (action_of w) SECCOMP_RET_ALLOW); done.
Qed.

Lemma seccomp_install_restricts_witness :
  let st := foldl apply_event (new_state, 1) install_events in
  exists v v', run st.1 execve_data = Done v
    /\ run (apply_event st (Install deny_filter 0)).1 execve_data = Done v'
    /\ (decisive v = true -> v' = v)
    /\ (action_of v' = SECCOMP_RET_ALLOW -> action_of v = SECCOMP_RET_ALLOW).
Proof. apply (seccomp_install_restricts _ _ _ _ reachable_install typed_deny_filter typed_execve_data). Defined.

(** No filter that returns its accumulator, the published instruction 0x16,
    is accepted: the check answers [EINVAL]. *)
Lemma seccomp_refuses_ret_a id l flags i :
  i ∈ l -> documented i RetA -> new_filter id l flags = (Err EINVAL, id).
Proof.
  intros [j Hj]%list_elem_of_lookup Hd. destruct (new_filter id l flags) as [[f|e] id'] eqn:E.
  - apply new_filter_Ok in E as (_ & _ & Hv). specialize (Hv j i Hj). revert Hv.
    destruct i as [c ? ? ?]. each_opcode Hd. unfold validate_insn. by decode.
  - revert E. unfold new_filter, validate_program. destruct (_ || _); [|destruct (validate_loop _ _ _)]; intros; by simplify_eq.
Qed.

(** ** The data of a call *)

(** The four bytes at an offset, read by an instruction. *)
Lemma load_le_bytes data offset v :
  0 <= offset <= 60 -> take 4 (drop (Z.to_nat offset) data) = le_bytes 4 v ->
  load_word data offset BPF_W = v mod 2 ^ 32.
Proof.
  intros Ho Ht. unfold load_word, SECCOMP_DATA_SIZE. cbn [Z.eqb BPF_W].
  destruct (Z.ltb_spec 64 (offset + 4)); [lia|]. change (Z.to_nat 4) with 4%nat. rewrite Ht.
  apply (of_le_bytes_le 4).
Qed.

(** The halves of a 64-bit field. *)
Lemma le_bytes_high v : drop 4 (le_bytes 8 v) = le_bytes 4 (Z.shiftr v 32).
Proof. cbn -[Z.shiftr Z.land]. by rewrite !Z.shiftr_shiftr by lia. Qed.

Lemma encode_data_app nr arch ip args :
  length args = 6%nat ->
  encode_data nr arch ip args
  = le_bytes 4 (nr mod 2 ^ 32) ++ le_bytes 4 arch ++ le_bytes 8 ip ++ mjoin (map (le_bytes 8) args).
Proof. intros Hl. by do 7 (destruct args as [|? args]; try done). Qed.

Lemma length_args args : length (mjoin (map (le_bytes 8) args)) = (8 * length args)%nat.
Proof.
  induction args as [|v args IH]; [done|].
  change (mjoin (map (le_bytes 8) (v :: args))) with (le_bytes 8 v ++ mjoin (map (le_bytes 8) args)).
  rewrite length_app, IH, length_le_bytes. cbn [length]. lia.
Qed.

Lemma args_u8 args : Forall is_u8 (mjoin (map (le_bytes 8) args)).
Proof.
  induction args as [|v args IH]; [constructor|].
  change (mjoin (map (le_bytes 8) (v :: args))) with (le_bytes 8 v ++ mjoin (map (le_bytes 8) args)).
  apply Forall_app. split; [apply le_bytes_u8|done].
Qed.

Lemma drop_args args j v : args !! j = Some v ->
  exists rest, drop (8 * j) (mjoin (map (le_bytes 8) args)) = le_bytes 8 v ++ rest.
Proof.
  revert j. induction args as [|w args IH]; intros [|j] Hj; try done.
  - injection Hj as ->. by eexists.
  - destruct (IH j Hj) as [rest Hr]. exists rest. rewrite <- Hr.
    replace (8 * S j)%nat with (8 + 8 * j)%nat by lia. by rewrite <- drop_drop.
Qed.

(** A 64-bit field at an offset is read as its two halves. *)
Lemma load_halves data offset v rest :
  0 <= offset <= 56 -> is_u64 v -> drop (Z.to_nat offset) data = le_bytes 8 v ++ rest ->
  load_word data offset BPF_W + 2 ^ 32 * load_word data (offset + 4) BPF_W = v.
Proof.
  intros Ho Hv Hd.
  rewrite (load_le_bytes data offset v), (load_le_bytes data (offset + 4) (Z.shiftr v 32)); try lia.
  - assert (0 <= v / 2 ^ 32 < 2 ^ 32)
      by (split; [apply Z.div_pos; ulia|apply Z.div_lt_upper_bound; ulia]).
    rewrite Z.shiftr_div_pow2, (Z.mod_small (v / 2 ^ 32)) by lia.
    pose proof (Z.div_mod v (2 ^ 32)). lia.
  - rewrite Z2Nat.inj_add by lia. rewrite <- drop_drop, Hd. by rewrite <- le_bytes_high.
  - by rewrite Hd.
Qed.

(** The block of data of a call has sixty-four bytes, and the instructions
    of a filter read from it the number of the call, the architecture, the
    instruction pointer and the six arguments, at the published offsets. *)
Theorem seccomp_data_fields nr arch ip args :
  - 2 ^ 31 <= nr < 2 ^ 31 -> is_u32 arch -> is_u64 ip -> Forall is_u64 args -> length args = 6%nat ->
  let data := encode_data nr arch ip args in
  typed_data data
  /\ as_i32 (load_word data 0 BPF_W) = nr /\ load_word data 4 BPF_W = arch
  /\ load_word data 8 BPF_W + 2 ^ 32 * load_word data 12 BPF_W = ip
  /\ forall j v, args !! j = Some v ->
       let offset := 16 + 8 * Z.of_nat j in
       load_word data offset BPF_W + 2 ^ 32 * load_word data (offset + 4) BPF_W = v.
Proof.
  intros Hnr Harch Hip Hargs Hlen data. subst data. rewrite encode_data_app by done. split_and!.
  - split; [rewrite !length_app, length_args, !length_le_bytes; lia|].
    rewrite !Forall_app. auto using le_bytes_u8, args_u8.
  - rewrite (load_le_bytes _ 0 (nr mod 2 ^ 32)) by (lia || done). rewrite Z.mod_mod by lia.
    unfold as_i32. destruct (Z.leb_spec 0 nr).
    + rewrite Z.mod_small by lia. case_match; lia.
    + rewrite <- (Z_mod_plus_full nr 1), Z.mod_small by lia. case_match; lia.
  - rewrite (load_le_bytes _ 4 arch) by (lia || done). apply Z.mod_small. ulia.
  - by apply (load_halves _ 8 ip (mjoin (map (le_bytes 8) args))).
  - intros j v Hj offset. pose proof (lookup_lt_Some _ _ _ Hj). destruct (drop_args args j v Hj) as [rest Hr].
    apply (load_halves _ _ _ rest); [lia|by eapply Forall_lookup_1|]. subst offset.
    replace (Z.to_nat (16 + 8 * Z.of_nat j)) with (16 + 8 * j)%nat by lia. rewrite <- drop_drop. done.
Qed.

Lemma seccomp_data_fields_witness :
  let data := encode_data (-1) 0xc00000b7 0x400000 [1; 2; 3; 4; 5; U64_MAX] in
  typed_data data
  /\ as_i32 (load_word data 0 BPF_W) = -1 /\ load_word data 4 BPF_W = 0xc00000b7
  /\ load_word data 8 BPF_W + 2 ^ 32 * load_word data 12 BPF_W = 0x400000
  /\ forall j v, [1; 2; 3; 4; 5; U64_MAX] !! j = Some v ->
       let offset := 16 + 8 * Z.of_nat j in
       load_word data offset BPF_W + 2 ^ 32 * load_word data (offset + 4) BPF_W = v.
Proof.
  apply (seccomp_data_fields (-1) 0xc00000b7 0x400000 [1; 2; 3; 4; 5; U64_MAX]);
    [lia|done|done|repeat apply Forall_cons_2; [..|apply Forall_nil_2]; done|reflexivity].
Defined.

