(* ===== verification/RecordLock.v ===== *)
(** * Record locks

    The model of [libs/vfs/src/record_lock.rs]: byte-range locks of processes
    and of open file descriptions, their conflicts, the replacement of ranges,
    the table of the locked files and the search for deadlocks. *)

From stdpp Require Import gmap.
From S2P Require Import Prelude.

(** ** Sorting

    [sort_by_key] is stable: an element goes before the first one that is not
    smaller, starting from the last. *)
Fixpoint insert_by {A} (le : A -> A -> bool) (x : A) (l : list A) : list A :=
  match l with
  | [] => [x]
  | y :: l => if le x y then x :: y :: l else y :: insert_by le x l
  end.

Definition sort_by {A} (le : A -> A -> bool) (l : list A) : list A := foldr (insert_by le) [] l.

(** ** Files, requests and owners *)

Record LockKey : Type := mk_key { fs_id : Z; ino : Z }.

#[export] Instance LockKey_eq_dec : EqDecision LockKey.
Proof. solve_decision. Defined.
#[export] Instance LockKey_countable : Countable LockKey.
Proof.
  refine (inj_countable' (fun x => (fs_id x, ino x)) (fun '(f, i) => mk_key f i) _). by intros [].
Defined.

Inductive RecordLockType : Type := Read | Write | Unlock.

#[export] Instance RecordLockType_eq_dec : EqDecision RecordLockType.
Proof. solve_decision. Defined.

(** A half-open range; no end is the end of the file. *)
Record RecordLockRequest : Type := mk_req { req_type : RecordLockType; req_start : Z; req_end : option Z }.

(** [RecordLockRequest::new]. *)
Definition new_request (lock_type : RecordLockType) (start len : Z) : RecordLockRequest :=
  let end_ := if len =? 0 then None else Some (saturating_add start len) in
  mk_req lock_type start end_.

Record RecordLockConflict : Type := mk_conflict {
  conflict_type : RecordLockType; conflict_start : Z; conflict_end : option Z; owner_pid : Z
}.

Inductive OwnerKind : Type := Process | Ofd.

Record RecordOwner : Type := mk_owner { kind : OwnerKind; owner_id : Z }.

#[export] Instance OwnerKind_eq_dec : EqDecision OwnerKind.
Proof. solve_decision. Defined.
#[export] Instance RecordOwner_eq_dec : EqDecision RecordOwner.
Proof. solve_decision. Defined.
#[export] Instance RecordOwner_countable : Countable RecordOwner.
Proof.
  refine (inj_countable' (fun x => (bool_decide (kind x = Ofd), owner_id x))
    (fun '(b, i) => mk_owner (if b : bool then Ofd else Process) i) _).
  by intros [[] i].
Defined.

(** [pid as u32 as u64]. *)
Definition process (pid : Z) : RecordOwner := mk_owner Process (pid mod 2 ^ 32).
Definition ofd (ptr : Z) : RecordOwner := mk_owner Ofd ptr.

(** [id as u32 as i32]. *)
Definition pid_or_neg_one (o : RecordOwner) : Z :=
  match kind o with
  | Process => let v := owner_id o mod 2 ^ 32 in if v <? 2 ^ 31 then v else v - 2 ^ 32
  | Ofd => -1
  end.

(** The derived orders compare field by field. *)
Definition kind_order (k : OwnerKind) : Z := match k with Process => 0 | Ofd => 1 end.

Fixpoint lex_le (a b : list Z) : bool :=
  match a, b with
  | [], _ => true
  | _ :: _, [] => false
  | x :: a, y :: b => (x <? y) || ((x =? y) && lex_le a b)
  end.

(** ** Ranges *)

Definition ranges_overlap (a_start : Z) (a_end : option Z) (b_start : Z) (b_end : option Z) : bool :=
  match a_end, b_end with
  | Some ae, Some be => (a_start <? be) && (b_start <? ae)
  | Some ae, None => b_start <? ae
  | None, Some be => a_start <? be
  | None, None => true
  end.

Definition touches_or_overlaps (end_ : option Z) (next_start : Z) : bool :=
  match end_ with None => true | Some e => next_start <=? e end.

Definition max_end (a b : option Z) : option Z :=
  match a, b with
  | Some a, Some b => Some (Z.max a b)
  | _, _ => None
  end.

Definition end_le (a b : option Z) : bool :=
  match a, b with
  | _, None => true
  | None, Some _ => false
  | Some a, Some b => a <=? b
  end.

(** ** Locks *)

Record RecordLock : Type := mk_lock {
  start : Z; end_of : option Z; lock_type : RecordLockType; owner : RecordOwner
}.

#[export] Instance RecordLock_eq_dec : EqDecision RecordLock.
Proof. solve_decision. Defined.

Definition overlaps (l : RecordLock) (req : RecordLockRequest) : bool :=
  ranges_overlap (start l) (end_of l) (req_start req) (req_end req).

Definition conflicts (l : RecordLock) (o : RecordOwner) (req : RecordLockRequest) : bool :=
  bool_decide (owner l <> o)
  && bool_decide (lock_type l <> Unlock)
  && bool_decide (req_type req <> Unlock)
  && (bool_decide (lock_type l = Write) || bool_decide (req_type req = Write))
  && overlaps l req.

Definition conflict_view (l : RecordLock) : RecordLockConflict :=
  mk_conflict (lock_type l) (start l) (end_of l) (pid_or_neg_one (owner l)).

Definition lock_type_order (l : RecordLock) : Z :=
  match lock_type l with Read => 0 | Write => 1 | Unlock => 2 end.

Definition left_piece (l : RecordLock) (req : RecordLockRequest) : option RecordLock :=
  if req_start req <=? start l then None
  else Some (mk_lock (start l) (Some (req_start req)) (lock_type l) (owner l)).

Definition right_piece (l : RecordLock) (req : RecordLockRequest) : option RecordLock :=
  match req_end req with
  | None => None
  | Some right_start =>
      if end_le (end_of l) (Some right_start) then None
      else Some (mk_lock right_start (end_of l) (lock_type l) (owner l))
  end.

(** ** Normal form *)

Definition nonempty (l : RecordLock) : bool :=
  match end_of l with None => true | Some e => start l <? e end.

(** The key [(owner, lock_type_order, start)] and the key [start]. *)
Definition group_key (l : RecordLock) : list Z :=
  [kind_order (kind (owner l)); owner_id (owner l); lock_type_order l; start l].
Definition group_le (a b : RecordLock) : bool := lex_le (group_key a) (group_key b).
Definition start_le (a b : RecordLock) : bool := start a <=? start b.

(** The loop of [normalize]; [out] has its last element first. *)
Fixpoint merge_loop (out locks : list RecordLock) : list RecordLock :=
  match locks with
  | [] => out
  | lock :: locks =>
      match out with
      | last :: rest =>
          if bool_decide (owner last = owner lock) && bool_decide (lock_type last = lock_type lock)
             && touches_or_overlaps (end_of last) (start lock)
          then merge_loop (mk_lock (start last) (max_end (end_of last) (end_of lock))
                             (lock_type last) (owner last) :: rest) locks
          else merge_loop (lock :: out) locks
      | [] => merge_loop [lock] locks
      end
  end.

Definition normalize (locks : list RecordLock) : list RecordLock :=
  let locks := filter (fun l => nonempty l = true) locks in
  let locks := sort_by group_le locks in
  let out := rev (merge_loop [] locks) in
  sort_by start_le out.

(** ** The locks of a file *)

(** [min_by_key] keeps the first of equal elements. *)
Definition min_by_start (l : list RecordLock) : option RecordLock :=
  match l with
  | [] => None
  | x :: l => Some (foldl (fun m y => if start y <? start m then y else m) x l)
  end.

Definition first_conflict_lock (locks : list RecordLock) (o : RecordOwner) (req : RecordLockRequest)
  : option RecordLock :=
  min_by_start (filter (fun l => conflicts l o req = true) locks).

Definition first_conflict_owner (locks : list RecordLock) (o : RecordOwner) (req : RecordLockRequest)
  : option RecordOwner :=
  owner <$> first_conflict_lock locks o req.

Definition first_conflict (locks : list RecordLock) (o : RecordOwner) (req : RecordLockRequest)
  : option RecordLockConflict :=
  conflict_view <$> first_conflict_lock locks o req.

(** One round of the loop of [apply]: what it pushes. *)
Definition cut (o : RecordOwner) (req : RecordLockRequest) (l : RecordLock) : list RecordLock :=
  if bool_decide (owner l <> o) || negb (overlaps l req) then [l]
  else option_list (left_piece l req) ++ option_list (right_piece l req).

Definition apply (locks : list RecordLock) (o : RecordOwner) (req : RecordLockRequest) : list RecordLock :=
  let out := mjoin (map (cut o req) locks) in
  let out := out ++ if bool_decide (req_type req <> Unlock)
                    then [mk_lock (req_start req) (req_end req) (req_type req) o] else [] in
  normalize out.

Definition release_owner (locks : list RecordLock) (o : RecordOwner) : list RecordLock * bool :=
  let kept := filter (fun l => owner l <> o) locks in
  (kept, negb (length locks =? length kept)%nat).

(** ** The tables *)

(** The locks of a file and its shared queue, by a number. *)
Record RecordLockState : Type := mk_state { locks : list RecordLock; waiters : nat }.

(** [new], with the number of the new queue. *)
Definition new_state (queue : nat) : RecordLockState := mk_state [] queue.

Record PendingLock : Type := mk_pending { pending_key : LockKey; pending_req : RecordLockRequest }.

(** [RECORD_LOCKS] and [PENDING_LOCKS]. *)
Abbreviation lock_table := (gmap LockKey RecordLockState).
Abbreviation pending_table := (gmap RecordOwner PendingLock).

Definition getlk_inner (table : lock_table) (key : LockKey) (o : RecordOwner) (req : RecordLockRequest)
  : option RecordLockConflict :=
  if bool_decide (req_type req = Unlock) then None
  else st ← table !! key; first_conflict (locks st) o req.

Definition getlk (table : lock_table) (key : LockKey) (pid : Z) (req : RecordLockRequest) :=
  getlk_inner table key (process pid) req.
Definition getlk_ofd (table : lock_table) (key : LockKey) (ptr : Z) (req : RecordLockRequest) :=
  getlk_inner table key (ofd ptr) req.

(** [len_hint] is the length of each queue. *)
Definition cleanup_empty_state (len_hint : nat -> nat) (table : lock_table) (key : LockKey) : lock_table :=
  match table !! key with
  | Some st => if bool_decide (locks st = []) && (len_hint (waiters st) =? 0)%nat then delete key table else table
  | None => table
  end.

(** The queue to wake, if somebody is in it. *)
Definition wake_of (len_hint : nat -> nat) (queue : nat) : option nat :=
  if negb (len_hint queue =? 0)%nat then Some queue else None.

(** What the first critical section of [setlk_inner] decides: the lock is taken
    and a queue may have to be woken, the call fails, or the task has to register
    in a queue, which it does in the same section. *)
Inductive attempt : Type := Granted (wake : option nat) | Again | Queued (queue : nat).

(** [fresh] is the number of a queue that is made if the file has none. *)
Definition setlk_attempt (len_hint : nat -> nat) (fresh : nat) (table : lock_table) (pending : pending_table)
    (key : LockKey) (o : RecordOwner) (req : RecordLockRequest) (wait : bool)
  : lock_table * pending_table * attempt :=
  let st := default (new_state fresh) (table !! key) in
  match first_conflict (locks st) o req with
  | None =>
      let st := mk_state (apply (locks st) o req) (waiters st) in
      let wake := wake_of len_hint (waiters st) in
      (cleanup_empty_state len_hint (<[key := st]> table) key, pending, Granted wake)
  | Some _ =>
      if negb wait then (<[key := st]> table, pending, Again)
      else (<[key := st]> table, <[o := mk_pending key req]> pending, Queued (waiters st))
  end.

(** ** Deadlocks *)

(** The owner that stands in the way of a waiting one. *)
Definition next_owner (table : lock_table) (pending : pending_table) (o : RecordOwner) : option RecordOwner :=
  waiting ← pending !! o;
  st ← table !! pending_key waiting;
  first_conflict_owner (locks st) o (pending_req waiting).

(** The loop of [would_deadlock]; its result is [None] when the fuel runs out. *)
Fixpoint deadlock_loop (fuel : nat) (table : lock_table) (pending : pending_table) (waiter : RecordOwner)
    (stack seen : list RecordOwner) : option bool :=
  match fuel with
  | O => None
  | S fuel =>
      match stack with
      | [] => Some false
      | o :: stack =>
          if bool_decide (o = waiter) then Some true
          else if bool_decide (o ∈ seen) then deadlock_loop fuel table pending waiter stack seen
          else
            let seen := o :: seen in
            match next_owner table pending o with
            | None => deadlock_loop fuel table pending waiter stack seen
            | Some o' => deadlock_loop fuel table pending waiter (o' :: stack) seen
            end
      end
  end.

(** Every round but the last two sees a new owner that is waiting. *)
Definition would_deadlock (table : lock_table) (pending : pending_table) (waiter : RecordOwner)
    (key : LockKey) (req : RecordLockRequest) : option bool :=
  match (st ← table !! key; first_conflict_owner (locks st) waiter req) with
  | None => Some false
  | Some first => deadlock_loop (size pending + 3) table pending waiter [first] []
  end.

(** The second critical section of [setlk_inner]: [retry_without_sleep] and
    [deadlock]. *)
Definition setlk_recheck (table : lock_table) (pending : pending_table) (key : LockKey)
    (o : RecordOwner) (req : RecordLockRequest) : option (bool * bool) :=
  let retry := match table !! key with
               | Some st => bool_decide (first_conflict (locks st) o req = None)
               | None => true
               end in
  if retry then Some (true, false)
  else d ← would_deadlock table pending o key req; Some (false, d).

(** [release_process_locks_for_file], with the answer of [strong_count]; the
    queue to wake. *)
Definition release_process_locks_for_file (len_hint : nat -> nat) (table : lock_table) (key : LockKey)
    (pid ptr : Z) (last_reference : bool) : lock_table * option nat :=
  match table !! key with
  | None => (table, None)
  | Some st =>
      let '(kept, released) := release_owner (locks st) (process pid) in
      let '(kept, released) :=
        if last_reference
        then let '(kept', released') := release_owner kept (ofd ptr) in (kept', released || released')
        else (kept, released) in
      let st := mk_state kept (waiters st) in
      if negb released then (<[key := st]> table, None)
      else (cleanup_empty_state len_hint (<[key := st]> table) key, wake_of len_hint (waiters st))
  end.

(** ** Requests *)

Definition len_from_range (start : Z) (end_ : option Z) : Z :=
  match end_ with Some e => saturating_sub e start | None => 0 end.

Definition I128_MAX : Z := 2 ^ 127 - 1.
Definition I128_MIN : Z := - 2 ^ 127.
Definition checked_add_i128 (a b : Z) : option Z :=
  let v := a + b in if (I128_MIN <=? v) && (v <=? I128_MAX) then Some v else None.

(** [pos] and [size] are the position of the file and the size of its inode. *)
Definition request_from_parts (pos size : Z) (lock_type : RecordLockType) (whence start len : Z)
  : result RecordLockRequest Errno :=
  let base :=
    if whence =? 0 then Some 0 else if whence =? 1 then Some pos
    else if whence =? 2 then Some size else None in
  match base with
  | None => Err EINVAL
  | Some base =>
      match checked_add_i128 base start with
      | None => Err EINVAL
      | Some raw_start =>
          if raw_start <? 0 then Err EINVAL
          else
            let u v := v mod 2 ^ 64 in
            let finish s e := Ok (mk_req lock_type s ((fun e => Z.max e s) <$> e)) in
            if len =? 0 then finish (u raw_start) None
            else
              match checked_add_i128 raw_start len with
              | None => Err EINVAL
              | Some raw_end =>
                  if raw_end <? 0 then Err EINVAL
                  else if raw_end <? raw_start then finish (u raw_end) (Some (u raw_start))
                  else finish (u raw_start) (Some (u raw_end))
              end
      end
  end.

Definition clipped_conflict (conflict : RecordLockConflict) (req : RecordLockRequest) : RecordLockConflict :=
  let end_ :=
    match conflict_end conflict, req_end req with
    | None, None => None
    | Some a, None => Some a
    | None, Some b => Some b
    | Some a, Some b => Some (Z.min a b)
    end in
  mk_conflict (conflict_type conflict) (Z.max (conflict_start conflict) (req_start req)) end_ (owner_pid conflict).
