(* ===== verification/RecordLockProofs.v ===== *)
(** * Record locks: bytes

    A list of locks as the bytes it holds for each owner.  Sorting and merging
    keep them, and taking or dropping a range changes those of one owner. *)

From stdpp Require Import gmap sorting.
From S2P Require Import Prelude RecordLock.

(** ** Sorting *)

Lemma insert_by_perm {A} le (x : A) l : insert_by le x l ≡ₚ x :: l.
Proof.
  induction l as [|y l IH]; [done|]. cbn [insert_by]. case_match; [done|].
  rewrite IH. constructor.
Qed.

Lemma sort_by_perm {A} le (l : list A) : sort_by le l ≡ₚ l.
Proof.
  induction l as [|x l IH]; [done|]. change (sort_by le (x :: l)) with (insert_by le x (sort_by le l)).
  by rewrite insert_by_perm, IH.
Qed.

Section sorted.
Context {A : Type} (le : A -> A -> bool).
Context (Htotal : forall x y, le x y = false -> le y x = true).
Context (Htrans : forall x y z, le x y = true -> le y z = true -> le x z = true).

Lemma insert_by_sorted x l :
  StronglySorted (fun a b => le a b = true) l -> StronglySorted (fun a b => le a b = true) (insert_by le x l).
Proof using Htotal Htrans.
  induction 1 as [|y l Hl IH Hy]; [by repeat constructor|]. cbn [insert_by].
  destruct (le x y) eqn:E.
  - constructor; [by constructor|]. constructor; [done|].
    eapply Forall_impl; [exact Hy|]. intros z Hz. by eapply Htrans.
  - constructor; [done|]. rewrite insert_by_perm. constructor; [by apply Htotal|done].
Qed.

Lemma sort_by_sorted l : StronglySorted (fun a b => le a b = true) (sort_by le l).
Proof using Htotal Htrans. induction l; [constructor|]. by apply insert_by_sorted. Qed.

End sorted.

Lemma lex_le_total a b : length a = length b -> lex_le a b = false -> lex_le b a = true.
Proof.
  revert b. induction a as [|x a IH]; intros [|y b] Hl H; try done.
  cbn [lex_le] in *. injection Hl as Hl. destruct (Z.ltb_spec x y), (Z.eqb_spec x y); try done; try lia.
  subst. rewrite Z.ltb_irrefl, Z.eqb_refl. by apply IH.
Qed.

Lemma lex_le_trans a b c : lex_le a b = true -> lex_le b c = true -> lex_le a c = true.
Proof.
  revert b c. induction a as [|x a IH]; intros [|y b] [|z c] H1 H2; try done. cbn [lex_le] in *.
  destruct (Z.ltb_spec x y), (Z.ltb_spec y z), (Z.ltb_spec x z), (Z.eqb_spec x z); try done; try lia;
    destruct (Z.eqb_spec x y), (Z.eqb_spec y z); try done; try lia. cbn in *. by eapply IH.
Qed.

Lemma group_sorted l : StronglySorted (fun a b => group_le a b = true) (sort_by group_le l).
Proof.
  apply sort_by_sorted; unfold group_le; [intros; by apply lex_le_total|intros; by eapply lex_le_trans].
Qed.

Lemma start_sorted l : StronglySorted (fun a b => start_le a b = true) (sort_by start_le l).
Proof. apply sort_by_sorted; unfold start_le; lia. Qed.

(** ** Bytes *)

Definition in_range (s : Z) (e : option Z) (x : Z) : Prop :=
  s <= x /\ match e with Some e => x < e | None => True end.

Definition covers (l : RecordLock) (x : Z) : Prop := in_range (start l) (end_of l) x.

Definition in_request (req : RecordLockRequest) (x : Z) : Prop := in_range (req_start req) (req_end req) x.

#[export] Instance in_range_dec s e x : Decision (in_range s e x).
Proof. unfold in_range. destruct e; apply _. Defined.
#[export] Instance in_request_dec req x : Decision (in_request req x).
Proof. unfold in_request. apply _. Defined.

(** Owner [o] holds byte [x] with a lock of type [t]. *)
Definition held (ls : list RecordLock) (o : RecordOwner) (t : RecordLockType) (x : Z) : Prop :=
  exists l, l ∈ ls /\ owner l = o /\ lock_type l = t /\ covers l x.

#[export] Instance held_proper : Proper ((≡ₚ) ==> eq ==> eq ==> eq ==> iff) held.
Proof.
  intros l l' Hl ? o -> ? t -> ? x ->. unfold held.
  split; intros (k & Hk & ?); exists k; (split; [|done]); [by rewrite <- Hl|by rewrite Hl].
Qed.

Lemma held_nil o t x : held [] o t x <-> False.
Proof. split; [|done]. intros (l & H & _). by apply elem_of_nil in H. Qed.

Lemma held_cons l ls o t x :
  held (l :: ls) o t x <-> (owner l = o /\ lock_type l = t /\ covers l x) \/ held ls o t x.
Proof. unfold held. set_solver. Qed.

Lemma held_app ls ls' o t x : held (ls ++ ls') o t x <-> held ls o t x \/ held ls' o t x.
Proof. unfold held. set_solver. Qed.

Lemma nonempty_covers l x : covers l x -> nonempty l = true.
Proof. unfold covers, in_range, nonempty. destruct (end_of l); [lia|done]. Qed.

Lemma held_filter ls o t x : held (filter (fun l => nonempty l = true) ls) o t x <-> held ls o t x.
Proof.
  unfold held. split; intros (l & Hl & ? & ? & Hc); exists l; split_and!; try done.
  - by apply list_elem_of_filter in Hl as [_ ?].
  - apply list_elem_of_filter. eauto using nonempty_covers.
Qed.

(** ** Merging *)

Definition same_group (a b : RecordLock) : Prop := owner a = owner b /\ lock_type a = lock_type b.

Lemma group_le_start a b : same_group a b -> group_le a b = true -> start a <= start b.
Proof.
  intros [Ho Ht]. unfold group_le, group_key, lock_type_order. rewrite Ho, Ht. cbn [lex_le].
  rewrite !Z.ltb_irrefl, !Z.eqb_refl. lia.
Qed.

(** Between two locks of a group there is nothing else. *)
Lemma group_between a b c :
  group_le a b = true -> group_le b c = true -> same_group a c -> same_group a b.
Proof.
  destruct a as [sa ea ta [ka ia]], b as [sb eb tb [kb ib]], c as [sc ec tc [kc ic]].
  unfold group_le, group_key, lock_type_order, same_group. cbn. intros H1 H2 [[= -> ->] ->].
  assert (kind_order kb = kind_order kc /\ ib = ic) as [Hk ->] by lia.
  assert (kb = kc) as -> by (by destruct kb, kc). split; [done|].
  rewrite !Z.ltb_irrefl, !Z.eqb_refl in *. cbn in *. destruct tb, tc; done || lia.
Qed.

Lemma merged_covers a b x :
  start a <= start b -> touches_or_overlaps (end_of a) (start b) = true ->
  in_range (start a) (max_end (end_of a) (end_of b)) x <-> covers a x \/ covers b x.
Proof.
  unfold touches_or_overlaps, max_end, covers, in_range. intros Hs Ht. destruct (end_of a), (end_of b); lia.
Qed.

(** The first elements of what is left are not smaller than the last one put out. *)
Definition follows (out ls : list RecordLock) : Prop :=
  match out with [] => True | a :: _ => Forall (fun b => group_le a b = true) ls end.

Lemma merge_loop_held ls out o t x :
  StronglySorted (fun a b => group_le a b = true) ls -> follows out ls ->
  held (merge_loop out ls) o t x <-> held out o t x \/ held ls o t x.
Proof.
  intros Hs. revert out. induction Hs as [|b ls Hs IH Hb]; intros out Hf; cbn [merge_loop].
  { rewrite held_nil. tauto. }
  destruct out as [|a out].
  - rewrite IH by done. rewrite held_cons, !held_nil, held_cons. tauto.
  - apply Forall_cons in Hf as [Hab Hf]. destruct (_ && _) eqn:E.
    + apply andb_true_iff in E as [[Ho%bool_decide_eq_true Ht%bool_decide_eq_true]%andb_true_iff Hto].
      assert (Hst : start a <= start b) by (by apply group_le_start).
      rewrite IH by (cbn; eapply Forall_impl; [exact Hf|]; done).
      rewrite !held_cons. unfold covers at 1. cbn [owner lock_type start end_of].
      rewrite merged_covers by done. rewrite Ho, Ht. tauto.
    + rewrite IH by done. rewrite !held_cons. tauto.
Qed.

Lemma normalize_held ls o t x : held (normalize ls) o t x <-> held ls o t x.
Proof.
  unfold normalize. rewrite sort_by_perm, <- Permutation_rev, merge_loop_held by (apply group_sorted || done).
  rewrite held_nil, sort_by_perm, held_filter. tauto.
Qed.

(** ** Taking and dropping a range *)

Lemma left_piece_held l req o t x :
  held (option_list (left_piece l req)) o t x
  <-> owner l = o /\ lock_type l = t /\ start l <= x < req_start req.
Proof.
  unfold left_piece. destruct (Z.leb_spec (req_start req) (start l)).
  - change (option_list (@None RecordLock)) with (@nil RecordLock). rewrite held_nil. lia.
  - change (option_list (Some ?a)) with [a]. rewrite held_cons, held_nil. unfold covers, in_range. cbn. tauto.
Qed.

Lemma right_piece_held l req o t x :
  held (option_list (right_piece l req)) o t x
  <-> owner l = o /\ lock_type l = t
      /\ match req_end req with Some e => in_range e (end_of l) x | None => False end.
Proof.
  unfold right_piece. destruct (req_end req) as [e|]; [|unfold held; set_solver].
  unfold in_range. destruct (end_le _ _) eqn:E.
  - change (option_list (@None RecordLock)) with (@nil RecordLock). rewrite held_nil. destruct (end_of l); cbn in E; [lia|done].
  - change (option_list (Some ?a)) with [a]. rewrite held_cons, held_nil. unfold covers, in_range. cbn. tauto.
Qed.

Lemma pieces_cover l req x : overlaps l req = true ->
  start l <= x < req_start req \/ match req_end req with Some e => in_range e (end_of l) x | None => False end
  <-> covers l x /\ ~ in_request req x.
Proof.
  unfold overlaps, ranges_overlap, in_request, covers, in_range. destruct (end_of l), (req_end req); lia.
Qed.

Lemma apart l req x : overlaps l req = false -> covers l x -> ~ in_request req x.
Proof.
  unfold overlaps, ranges_overlap, in_request, covers, in_range. destruct (end_of l), (req_end req); lia.
Qed.

Lemma cut_held o req l o' t x :
  held (cut o req l) o' t x
  <-> owner l = o' /\ lock_type l = t /\ covers l x /\ ~ (o' = o /\ in_request req x).
Proof.
  unfold cut. case_bool_decide as Ho; cbn [orb].
  { rewrite held_cons, held_nil. split; [|tauto]. intros [(<- & <- & ?)|[]]. split_and!; try done. tauto. }
  subst o. destruct (overlaps l req) eqn:E; cbn [negb].
  - rewrite held_app, left_piece_held, right_piece_held. pose proof (pieces_cover l req x E).
    destruct (decide (owner l = o')) as [<-|]; tauto.
  - rewrite held_cons, held_nil. pose proof (apart l req x E).
    destruct (decide (owner l = o')) as [<-|]; tauto.
Qed.

(** What a list of locks holds after an owner took or dropped a range. *)
Lemma apply_held ls o req o' t x :
  held (apply ls o req) o' t x
  <-> if decide (o' = o /\ in_request req x) then t = req_type req /\ t <> Unlock else held ls o' t x.
Proof.
  unfold apply. rewrite normalize_held, held_app.
  assert (Hcut : held (mjoin (map (cut o req) ls)) o' t x
    <-> held ls o' t x /\ ~ (o' = o /\ in_request req x)).
  { induction ls as [|l ls IH]; [cbn; rewrite held_nil; tauto|].
    change (mjoin (map (cut o req) (l :: ls))) with (cut o req l ++ mjoin (map (cut o req) ls)).
    rewrite held_app, IH, cut_held, held_cons. tauto. }
  rewrite Hcut. case_bool_decide as Ht; rewrite ?held_cons, ?held_nil; cbn [owner lock_type];
    unfold covers; cbn [start end_of]; case_decide as Hd; fold (in_request req x).
  - destruct Hd as [-> Hx]. split; [|intros [-> ?]; tauto]. intros [[_ []]|[(_ & <- & _)|[]]]; done.
  - split; [|tauto]. intros [[? _]|[(-> & _ & ?)|[]]]; [done|]. by destruct Hd.
  - split; [tauto|]. intros [-> ?]. done.
  - tauto.
Qed.

(** ** Normal form *)

Definition ends_before (a b : RecordLock) : Prop :=
  match end_of a with Some e => e < start b | None => False end.

(** Two locks of an owner with the same type do not even touch. *)
Definition separate (a b : RecordLock) : Prop := same_group a b -> ends_before a b \/ ends_before b a.

Definition proper_lock (l : RecordLock) : Prop := nonempty l = true /\ lock_type l <> Unlock.

Record canonical (ls : list RecordLock) : Prop := {
  canonical_sorted : StronglySorted (fun a b => start_le a b = true) ls;
  canonical_proper : Forall proper_lock ls;
  canonical_separate : ForallOrdPairs separate ls
}.

Lemma separate_sym a b : separate a b -> separate b a.
Proof. unfold separate, same_group. intros H [Ho Ht]. destruct H as [|]; auto. Qed.

Lemma ForallOrdPairs_perm {A} (R : A -> A -> Prop) l l' :
  (forall a b, R a b -> R b a) -> l ≡ₚ l' -> ForallOrdPairs R l -> ForallOrdPairs R l'.
Proof.
  intros Hsym. induction 1 as [|x l l' Hp IH|x y l|]; intros Hall; [done|..|auto].
  - inversion Hall; subst. constructor; [by rewrite <- Hp|auto].
  - inversion Hall as [|? ? Hy Hall']; subst. inversion Hall' as [|? ? Hx Hall'']; subst.
    inversion Hy; subst. constructor; [constructor; auto|by constructor].
Qed.

(** The locks put out so far, the last one first, with those left to do. *)
Record merging (out ls : list RecordLock) : Prop := {
  merging_left : StronglySorted (fun a b => group_le a b = true) ls;
  merging_follows : follows out ls;
  merging_out : StronglySorted (fun a b => group_le b a = true) out;
  merging_apart : StronglySorted (fun a b => same_group b a -> ends_before b a) out
}.

Lemma merging_push a out b ls :
  merging (a :: out) (b :: ls) ->
  (same_group a b -> ends_before a b) ->
  merging (b :: a :: out) ls.
Proof.
  intros [Hl Hf Ho Ha] Hab. inversion Hl as [|? ? Hl' Hb]; subst. cbn in Hf. apply Forall_cons in Hf as [Hgab Hf].
  assert (Hout : Forall (fun c => group_le c b = true) (a :: out)).
  { constructor; [done|]. inversion Ho; subst. eapply Forall_impl; [done|]. intros c Hc.
    unfold group_le in *. by eapply lex_le_trans. }
  constructor; [done|done|by constructor|]. constructor; [done|]. constructor; [done|].
  inversion Ha as [|? ? _ Hac]; inversion Ho as [|? ? _ Hoc]; subst.
  apply Forall_forall. intros c Hc Hg. rewrite Forall_forall in Hac, Hoc.
  pose proof (group_between c a b (Hoc c Hc) Hgab Hg) as Hca.
  assert (Hs : start a <= start b).
  { apply group_le_start; [|done]. unfold same_group in *. split; etransitivity; [symmetry; apply Hca|apply Hg|symmetry; apply Hca|apply Hg]. }
  specialize (Hac c Hc Hca). unfold ends_before in *. destruct (end_of c); [lia|done].
Qed.

Lemma merging_join a out b ls e :
  merging (a :: out) (b :: ls) ->
  merging (mk_lock (start a) e (lock_type a) (owner a) :: out) ls.
Proof.
  intros [Hl Hf Ho Ha]. inversion Hl; subst. cbn in Hf. apply Forall_cons in Hf as [_ Hf].
  inversion Ho; inversion Ha; subst. by repeat constructor.
Qed.

Lemma merge_loop_apart ls out :
  merging out ls -> StronglySorted (fun a b => same_group b a -> ends_before b a) (merge_loop out ls).
Proof.
  revert out. induction ls as [|b ls IH]; intros out Hm; cbn [merge_loop]; [apply Hm|].
  destruct out as [|a out].
  - destruct Hm as [Hl _ _ _]. inversion Hl; subst. apply IH. by repeat constructor.
  - destruct (_ && _) eqn:E; apply IH; [by eapply merging_join|]. apply merging_push; [done|].
    intros [Ho Ht]. rewrite (bool_decide_true _ Ho), (bool_decide_true _ Ht) in E. cbn in E.
    unfold touches_or_overlaps, ends_before in *. destruct (end_of a); [lia|done].
Qed.

Lemma merge_loop_proper ls out :
  Forall proper_lock out -> Forall proper_lock ls -> Forall proper_lock (merge_loop out ls).
Proof.
  revert out. induction ls as [|b ls IH]; intros out Ho Hl; cbn [merge_loop]; [done|].
  apply Forall_cons in Hl as [Hb Hl]. destruct out as [|a out]; [apply IH; [by constructor|done]|].
  case_match; apply IH; try done; [|by constructor]. apply Forall_cons in Ho as [Ha Ho]. constructor; [|done].
  destruct Ha as [Hn Ht]. split; [|done]. revert Hn. unfold nonempty. cbn [end_of start].
  destruct (end_of a), (end_of b); cbn; lia.
Qed.

Lemma normalize_canonical ls : Forall (fun l => lock_type l <> Unlock) ls -> canonical (normalize ls).
Proof.
  intros Ht. unfold normalize. set (f := filter _ ls).
  assert (Hf : Forall proper_lock (sort_by group_le f)).
  { rewrite sort_by_perm. apply Forall_forall. intros l [Hn Hl]%list_elem_of_filter. rewrite Forall_forall in Ht.
    by split; [|apply Ht]. }
  assert (Hm : merging [] (sort_by group_le f)) by (constructor; [apply group_sorted|done|constructor..]).
  constructor; [apply start_sorted|rewrite sort_by_perm, <- Permutation_rev; by apply merge_loop_proper|].
  eapply (ForallOrdPairs_perm _ (merge_loop [] (sort_by group_le f)));
    [apply separate_sym|by rewrite (sort_by_perm start_le), <- Permutation_rev|].
  pose proof (merge_loop_apart _ _ Hm) as Ha. clear Hm Hf.
  induction Ha as [|a l _ IH Ha]; constructor; [|done]. eapply Forall_impl; [exact Ha|].
  intros b Hb [Ho Hty]. right. by apply Hb.
Qed.

Lemma apply_canonical ls o req : canonical ls -> canonical (apply ls o req).
Proof.
  intros [_ Hp _]. apply normalize_canonical, Forall_app. split.
  - induction Hp as [|l ls [_ Ht] _ IH]; [constructor|].
    change (mjoin (map (cut o req) (l :: ls))) with (cut o req l ++ mjoin (map (cut o req) ls)).
    apply Forall_app. split; [|done]. unfold cut, left_piece, right_piece.
    repeat case_match; repeat constructor; done.
  - case_bool_decide; by repeat constructor.
Qed.

Lemma ForallOrdPairs_filter {A} (R : A -> A -> Prop) P `{!forall x, Decision (P x)} l :
  ForallOrdPairs R l -> ForallOrdPairs R (filter P l).
Proof.
  induction 1 as [|a l Ha Hl IH]; [constructor|]. rewrite filter_cons. case_decide; [|done].
  constructor; [|done]. by apply Forall_filter_keep.
Qed.

Lemma sorted_filter_keep {A} (R : A -> A -> Prop) P `{!forall x, Decision (P x)} l :
  StronglySorted R l -> StronglySorted R (filter P l).
Proof.
  induction 1 as [|a l Hl IH Ha]; [constructor|]. rewrite filter_cons. case_decide; [|done].
  constructor; [done|]. by apply Forall_filter_keep.
Qed.

Lemma release_canonical ls o : canonical ls -> canonical (release_owner ls o).1.
Proof.
  intros [Hs Hp Ha]. constructor; cbn [fst release_owner].
  - by apply sorted_filter_keep.
  - by apply Forall_filter_keep.
  - by apply ForallOrdPairs_filter.
Qed.

Lemma release_held ls o o' t x : held (release_owner ls o).1 o' t x <-> held ls o' t x /\ o' <> o.
Proof.
  unfold held, release_owner. cbn [fst]. split.
  - intros (l & [Ho Hl]%list_elem_of_filter & <- & ? & ?). split; [by exists l|done].
  - intros [(l & Hl & <- & ? & ?) Ho]. exists l. split_and!; try done. by apply list_elem_of_filter.
Qed.

Lemma release_unchanged ls o kept : release_owner ls o = (kept, false) -> kept = ls.
Proof.
  unfold release_owner. intros [= <- Hl%negb_false_iff%Nat.eqb_eq]. revert Hl.
  induction ls as [|l ls IH]; [done|]. rewrite filter_cons. case_decide; cbn [length]; intros Hl.
  - f_equal. apply IH. lia.
  - pose proof (length_filter (fun l => owner l <> o) ls). lia.
Qed.

(** ** Conflicts *)

(** A byte of the request that another owner holds in a way that excludes it. *)
Definition blocked (ls : list RecordLock) (o : RecordOwner) (req : RecordLockRequest) : Prop :=
  req_type req <> Unlock /\
  exists o' t x, held ls o' t x /\ in_request req x /\ o' <> o /\ (t = Write \/ req_type req = Write).

Definition proper_request (req : RecordLockRequest) : Prop :=
  0 <= req_start req /\ match req_end req with Some e => req_start req < e | None => True end.

Lemma conflicts_spec l o req :
  conflicts l o req = true
  <-> owner l <> o /\ lock_type l <> Unlock /\ req_type req <> Unlock
      /\ (lock_type l = Write \/ req_type req = Write) /\ overlaps l req = true.
Proof. unfold conflicts. rewrite !andb_true_iff, orb_true_iff, !bool_decide_eq_true. tauto. Qed.

Lemma overlaps_byte l req : nonempty l = true -> proper_request req ->
  overlaps l req = true <-> exists x, covers l x /\ in_request req x.
Proof.
  unfold nonempty, proper_request, overlaps, ranges_overlap, covers, in_request, in_range. intros Hl [_ Hr].
  split.
  - intros E. exists (Z.max (start l) (req_start req)). destruct (end_of l), (req_end req); lia.
  - intros [x Hx]. destruct (end_of l), (req_end req); lia.
Qed.

Lemma first_conflict_None ls o req :
  first_conflict_lock ls o req = None <-> forall l, l ∈ ls -> conflicts l o req = false.
Proof.
  unfold first_conflict_lock. destruct (filter _ ls) as [|a fl] eqn:E; cbn [min_by_start].
  - split; [|done]. intros _ l Hl. destruct (conflicts l o req) eqn:Ec; [|done].
    assert (l ∈ filter (fun l => conflicts l o req = true) ls) as Hin by (by apply list_elem_of_filter).
    rewrite E in Hin. by apply elem_of_nil in Hin.
  - split; [done|]. intros H. assert (a ∈ filter (fun l => conflicts l o req = true) ls) as [Ha Hin]%list_elem_of_filter.
    { rewrite E. apply list_elem_of_here. }
    by rewrite (H a Hin) in Ha.
Qed.

Lemma min_by_start_spec l m : min_by_start l = Some m -> m ∈ l /\ Forall (fun y => start m <= start y) l.
Proof.
  destruct l as [|x l]; [done|]. cbn [min_by_start]. intros [= <-].
  revert x. induction l as [|y l IH]; intros x; cbn [foldl].
  - split; [apply list_elem_of_here|]. by repeat constructor.
  - destruct (IH (if start y <? start x then y else x)) as [Hin Hall]. set (m := foldl _ _ l) in *.
    apply Forall_cons in Hall as [Hx Hl]. destruct (Z.ltb_spec (start y) (start x)).
    + split; [set_solver|]. repeat apply Forall_cons_2; [lia|done|done].
    + split; [set_solver|]. repeat apply Forall_cons_2; [done|lia|done].
Qed.

Lemma first_conflict_Some ls o req m :
  first_conflict_lock ls o req = Some m ->
  m ∈ ls /\ conflicts m o req = true /\ forall l, l ∈ ls -> conflicts l o req = true -> start m <= start l.
Proof.
  intros [[Hc Hin]%list_elem_of_filter Hall]%min_by_start_spec. split_and!; [done|done|].
  intros l Hl Hlc. rewrite Forall_forall in Hall. apply Hall. by apply list_elem_of_filter.
Qed.

(** The locks are searched through to the byte. *)
Lemma conflict_blocked ls o req : canonical ls -> proper_request req ->
  first_conflict_lock ls o req <> None <-> blocked ls o req.
Proof.
  intros [_ Hp _] Hr. rewrite first_conflict_None. rewrite Forall_forall in Hp. split.
  - intros Hn. destruct (first_conflict_lock ls o req) as [m|] eqn:E.
    + apply first_conflict_Some in E as (Hm & Hc & _). apply conflicts_spec in Hc as (Ho & _ & Hu & Hw & Hov).
      apply overlaps_byte in Hov as (x & Hx & Hq); [|apply Hp, Hm|done].
      split; [done|]. exists (owner m), (lock_type m), x. split_and!; try done. by exists m.
    + by rewrite first_conflict_None in E.
  - intros (Hu & o' & t & x & (l & Hl & <- & <- & Hx) & Hq & Ho & Hw) Hn. specialize (Hn l Hl).
    assert (conflicts l o req = true); [|congruence]. apply conflicts_spec. destruct (Hp l Hl) as [Hne Hty].
    split_and!; try done. apply overlaps_byte; eauto.
Qed.
