(* ===== verification/RecordLockProps.v ===== *)
(** * Record locks: properties

    The tables as a map from bytes to owners: exclusion of readers and writers,
    the effect of the operations byte by byte, the answer of a query, the search
    for deadlocks and the arithmetic of requests. *)

From stdpp Require Import gmap sorting.
From S2P Require Import Prelude RecordLock RecordLockProofs.

(** ** The tables *)

Definition locks_of (table : lock_table) (key : LockKey) : list RecordLock :=
  match table !! key with Some st => locks st | None => [] end.

Lemma locks_of_insert table key st key' :
  locks_of (<[key := st]> table) key' = if decide (key' = key) then locks st else locks_of table key'.
Proof.
  unfold locks_of. case_decide as E; [subst; by rewrite lookup_insert_eq|by rewrite lookup_insert_ne].
Qed.

Lemma locks_of_cleanup hint table key key' :
  locks_of (cleanup_empty_state hint table key) key' = locks_of table key'.
Proof.
  unfold cleanup_empty_state, locks_of. destruct (table !! key) as [st|] eqn:E; [|done].
  destruct (_ && _) eqn:B; [|done]. apply andb_true_iff in B as [Hl%bool_decide_eq_true _].
  destruct (decide (key' = key)) as [->|]; [by rewrite lookup_delete_eq, E, Hl|by rewrite lookup_delete_ne].
Qed.

(** What the tasks of the system do to the tables: the first critical section of
    a request, the end of a wait, and the closing of a descriptor, with the
    lengths of the queues and the number of a new one at that time. *)
Inductive event : Type :=
| Setlk (hint : nat -> nat) (fresh : nat) (key : LockKey) (o : RecordOwner) (req : RecordLockRequest) (wait : bool)
| Finish (o : RecordOwner)
| Close (hint : nat -> nat) (key : LockKey) (pid ptr : Z) (last_reference : bool).

Definition tables : Type := lock_table * pending_table.

Definition step (ts : tables) (e : event) : tables :=
  let '(table, pending) := ts in
  match e with
  | Setlk hint fresh key o req wait => (setlk_attempt hint fresh table pending key o req wait).1
  | Finish o => (table, delete o pending)
  | Close hint key pid ptr last => ((release_process_locks_for_file hint table key pid ptr last).1, pending)
  end.

Definition reachable (ts : tables) : Prop := exists events, ts = foldl step (∅, ∅) events.

(** ** Exclusion *)

(** The locks of a file are in normal form, an owner holds a byte in one way, and
    a byte that is locked for writing has one owner. *)
Record file_ok (ls : list RecordLock) : Prop := {
  file_canonical : canonical ls;
  file_unique : forall o t t' x, held ls o t x -> held ls o t' x -> t = t';
  file_exclusive : forall o o' t x, held ls o Write x -> held ls o' t x -> o' = o
}.

Lemma file_ok_nil : file_ok [].
Proof.
  constructor; [constructor; constructor|..]; intros *; rewrite ?held_nil; done.
Qed.

Lemma held_type ls o t x : canonical ls -> held ls o t x -> t <> Unlock.
Proof. intros [_ Hp _] (l & Hl & _ & <- & _). rewrite Forall_forall in Hp. by apply Hp. Qed.

(** Without a conflict the bytes of the request are free for it. *)
Lemma unblocked ls o req o' t x :
  canonical ls -> first_conflict_lock ls o req = None -> held ls o' t x -> in_request req x -> o' <> o ->
  req_type req <> Unlock -> t = Read /\ req_type req = Read.
Proof.
  intros Hc Hn Hh Hx Ho Hu. pose proof (held_type _ _ _ _ Hc Hh) as Ht.
  destruct Hh as (l & Hl & <- & <- & Hcv). rewrite first_conflict_None in Hn. specialize (Hn l Hl).
  assert (Hov : overlaps l req = true).
  { destruct (overlaps l req) eqn:E; [done|]. by destruct (apart l req x E Hcv). }
  assert (~ (lock_type l = Write \/ req_type req = Write)).
  { intros Hw. assert (conflicts l o req = true); [by apply conflicts_spec|congruence]. }
  destruct (lock_type l), (req_type req); tauto.
Qed.

Lemma apply_file_ok ls o req :
  file_ok ls -> first_conflict_lock ls o req = None -> file_ok (apply ls o req).
Proof.
  intros [Hc Hu He] Hn. constructor; [by apply apply_canonical|..].
  - intros o' t t' x. rewrite !apply_held. case_decide; [|by apply Hu]. intros [-> _] [-> _]. done.
  - intros a b t x. rewrite !apply_held. case_decide as Ha; case_decide as Hb.
    + intros _ _. by destruct Ha as [-> _], Hb as [-> _].
    + intros [Hw Hnu] Hh. destruct Ha as [-> Hx]. destruct (decide (b = o)) as [|Hbo]; [done|].
      destruct (unblocked ls o req b t x) as [_ Hr]; try done; congruence.
    + intros Hh [-> Hnu]. destruct Hb as [-> Hx]. destruct (decide (a = o)) as [|Hao]; [done|].
      destruct (unblocked ls o req a Write x) as [Hr _]; try done; congruence.
    + apply He.
Qed.

Lemma release_file_ok ls o : file_ok ls -> file_ok (release_owner ls o).1.
Proof.
  intros [Hc Hu He]. constructor; [by apply release_canonical|..]; intros *; rewrite !release_held.
  - intros [? _] [? _]. by eapply Hu.
  - intros [? _] [? _]. by eapply He.
Qed.

Lemma locks_of_attempt hint fresh table pending key o req wait key' :
  locks_of (setlk_attempt hint fresh table pending key o req wait).1.1 key'
  = if decide (key' = key) then
      match first_conflict_lock (locks_of table key) o req with
      | None => apply (locks_of table key) o req
      | Some _ => locks_of table key
      end
    else locks_of table key'.
Proof.
  unfold setlk_attempt, first_conflict.
  replace (locks (default (new_state fresh) (table !! key))) with (locks_of table key)
    by (unfold locks_of; by destruct (table !! key)).
  destruct (first_conflict_lock _ o req); cbn [fmap option_fmap option_map].
  - destruct wait; cbn [negb fst]; rewrite locks_of_insert; case_decide; try done;
      unfold locks_of; by destruct (table !! key).
  - cbn [fst]. rewrite locks_of_cleanup, locks_of_insert. by case_decide.
Qed.

Lemma locks_of_release hint table key pid ptr last key' :
  locks_of (release_process_locks_for_file hint table key pid ptr last).1 key'
  = if decide (key' = key) then
      let ls := (release_owner (locks_of table key) (process pid)).1 in
      if last then (release_owner ls (ofd ptr)).1 else ls
    else locks_of table key'.
Proof.
  unfold release_process_locks_for_file. destruct (table !! key) as [st|] eqn:E.
  - replace (locks_of table key) with (locks st) by (unfold locks_of; by rewrite E).
    cbn. destruct last; case_match; cbn [fst]; rewrite ?locks_of_cleanup, locks_of_insert; by case_decide.
  - cbn [fst]. case_decide; [|done]. subst. unfold locks_of. rewrite E. by destruct last.
Qed.

Definition tables_ok (ts : tables) : Prop := forall key, file_ok (locks_of ts.1 key).

Lemma step_ok ts e : tables_ok ts -> tables_ok (step ts e).
Proof.
  destruct ts as [table pending]. intros Hok key'. specialize (Hok key') as Hk. cbn [fst] in *.
  destruct e as [hint fresh key o req wait|o|hint key pid ptr last]; cbn [step]; [|done|].
  - rewrite locks_of_attempt. case_decide; [subst|done].
    destruct (first_conflict_lock _ o req) eqn:E; [done|]. by apply apply_file_ok.
  - cbn [fst]. rewrite locks_of_release. case_decide; [subst|done]. cbn zeta.
    destruct last; eauto using release_file_ok.
Qed.

Lemma reachable_ok ts : reachable ts -> tables_ok ts.
Proof.
  intros [events ->]. assert (H0 : tables_ok (∅, ∅)) by (intros key; apply file_ok_nil).
  revert H0. generalize ((∅, ∅) : tables). induction events as [|e events IH]; intros ts Hts; [done|].
  cbn [foldl]. by apply IH, step_ok.
Qed.

(** C36. Whatever requests, waits and closings happen in whatever order, on every
    file a byte that one owner has locked for writing is locked by no other
    owner, an owner holds a byte in one way only, and the vector is in normal
    form: sorted, without empty ranges, and with the ranges of an owner and type
    joined where they touch. *)
Theorem record_lock_exclusion ts key :
  reachable ts ->
  (forall o o' t x, held (locks_of ts.1 key) o Write x -> held (locks_of ts.1 key) o' t x -> o' = o)
  /\ (forall o t t' x, held (locks_of ts.1 key) o t x -> held (locks_of ts.1 key) o t' x -> t = t')
  /\ canonical (locks_of ts.1 key).
Proof. intros H. destruct (reachable_ok ts H key) as [Hc Hu He]. eauto. Qed.

(** A file that two owners read, the second of which takes a part for writing
    once the first has closed it. *)
Definition file_a : LockKey := mk_key 1 7.
Definition one_waits (queue : nat) : nat := 1.
Definition events_a : list event :=
  [Setlk one_waits 0 file_a (process 10) (new_request Read 0 100) false;
   Setlk one_waits 0 file_a (process 11) (new_request Read 50 100) false;
   Setlk one_waits 0 file_a (process 11) (new_request Write 60 10) true;
   Close one_waits file_a 10 0 false;
   Finish (process 11);
   Setlk one_waits 0 file_a (process 11) (new_request Write 60 10) true].

Lemma record_lock_exclusion_witness :
  let ts := foldl step (∅, ∅) events_a in
  held (locks_of ts.1 file_a) (process 11) Write 65 /\ held (locks_of ts.1 file_a) (process 11) Read 80
  /\ (forall o o' t x, held (locks_of ts.1 file_a) o Write x -> held (locks_of ts.1 file_a) o' t x -> o' = o)
  /\ (forall o t t' x, held (locks_of ts.1 file_a) o t x -> held (locks_of ts.1 file_a) o t' x -> t = t')
  /\ canonical (locks_of ts.1 file_a).
Proof.
  assert (E : locks_of (foldl step (∅, ∅) events_a).1 file_a
    = [mk_lock 50 (Some 60) Read (process 11); mk_lock 60 (Some 70) Write (process 11);
       mk_lock 70 (Some 150) Read (process 11)]) by (vm_compute; reflexivity).
  split; [|split]; cbn zeta.
  - rewrite E, !held_cons. right. left. split_and!; [done|done|]. by vm_compute.
  - rewrite E, !held_cons. right. right. left. split_and!; [done|done|]. by vm_compute.
  - apply (record_lock_exclusion (foldl step (∅, ∅) events_a) file_a). by exists events_a.
Defined.

(** ** Requests for a lock *)

(** The queue of a file. *)
Definition queue_of (fresh : nat) (table : lock_table) (key : LockKey) : nat :=
  match table !! key with Some st => waiters st | None => fresh end.

(** C37. A request for a lock or an unlock of a non-empty range is decided by the
    bytes.  If one of them is held by another owner in a way that excludes it,
    the call fails or registers the task in the queue of the file and no lock
    changes; otherwise it is granted, exactly the bytes of the range change, for
    that owner on that file, and the queue of the file is woken if somebody waits
    there. *)
Theorem record_lock_setlk_refines ts hint fresh key o req wait :
  reachable ts -> proper_request req ->
  let '(ts', a) := setlk_attempt hint fresh ts.1 ts.2 key o req wait in
  (blocked (locks_of ts.1 key) o req /\ a = (if wait then Queued (queue_of fresh ts.1 key) else Again)
   /\ forall key', locks_of ts'.1 key' = locks_of ts.1 key')
  \/ (~ blocked (locks_of ts.1 key) o req /\ a = Granted (wake_of hint (queue_of fresh ts.1 key))
      /\ forall key' o' t x,
           held (locks_of ts'.1 key') o' t x
           <-> if decide (key' = key /\ o' = o /\ in_request req x) then t = req_type req /\ t <> Unlock
               else held (locks_of ts.1 key') o' t x).
Proof.
  intros Hts Hr. destruct (setlk_attempt _ _ _ _ _ _ _ _) as [ts' a] eqn:E.
  assert (Hls : forall key', locks_of ts'.1 key' = locks_of (setlk_attempt hint fresh ts.1 ts.2 key o req wait).1.1 key')
    by (by rewrite E).
  setoid_rewrite Hls. setoid_rewrite locks_of_attempt. clear Hls.
  pose proof (conflict_blocked _ o req (file_canonical _ (reachable_ok ts Hts key)) Hr) as Hb.
  unfold setlk_attempt, first_conflict in E.
  replace (locks (default (new_state fresh) (ts.1 !! key))) with (locks_of ts.1 key) in E
    by (unfold locks_of; by destruct (ts.1 !! key)).
  replace (waiters (default (new_state fresh) (ts.1 !! key))) with (queue_of fresh ts.1 key) in E
    by (unfold queue_of; by destruct (ts.1 !! key)).
  destruct (first_conflict_lock _ o req) as [m|] eqn:Ec; cbn [fmap option_fmap option_map] in E.
  - left. split_and!; [by apply Hb|by destruct wait; simplify_eq/=|]. intros key'. by case_decide; subst.
  - right. split_and!; [by intros Hbl%Hb|by simplify_eq/=|]. intros key' o' t x.
    destruct (decide (key' = key)) as [->|Hne].
    + rewrite apply_held. repeat case_decide; tauto.
    + case_decide; [tauto|done].
Qed.

Lemma record_lock_setlk_refines_witness :
  let ts := foldl step (∅, ∅) (take 2 events_a) in
  let '(ts', a) := setlk_attempt one_waits 1 ts.1 ts.2 file_a (process 11) (new_request Write 60 10) true in
  (blocked (locks_of ts.1 file_a) (process 11) (new_request Write 60 10) /\ a = Queued (queue_of 1 ts.1 file_a)
   /\ forall key', locks_of ts'.1 key' = locks_of ts.1 key')
  \/ (~ blocked (locks_of ts.1 file_a) (process 11) (new_request Write 60 10)
      /\ a = Granted (wake_of one_waits (queue_of 1 ts.1 file_a))
      /\ forall key' o' t x,
           held (locks_of ts'.1 key') o' t x
           <-> if decide (key' = file_a /\ o' = process 11 /\ in_request (new_request Write 60 10) x)
               then t = Write /\ t <> Unlock
               else held (locks_of ts.1 key') o' t x).
Proof.
  apply (record_lock_setlk_refines (foldl step (∅, ∅) (take 2 events_a)) one_waits 1 file_a (process 11)
    (new_request Write 60 10) true); [by exists (take 2 events_a)|vm_compute; split; congruence].
Defined.

(** ** Queries *)

Lemma clipped_range c req x :
  in_range (conflict_start (clipped_conflict c req)) (conflict_end (clipped_conflict c req)) x
  <-> in_range (conflict_start c) (conflict_end c) x /\ in_request req x.
Proof.
  unfold clipped_conflict, in_request, in_range. cbn.
  destruct (conflict_end c), (req_end req); lia.
Qed.

(** A query answers nothing exactly when the request would be granted.
    Otherwise it answers a lock of another owner that excludes the request, the
    one with the lowest start; cut to the range of the request it is a non-empty
    range of bytes, all of which that owner holds in the way reported. *)
Theorem record_lock_getlk_exact ts key o req :
  reachable ts -> proper_request req ->
  match getlk_inner ts.1 key o req with
  | None => ~ blocked (locks_of ts.1 key) o req
  | Some c =>
      exists o', o' <> o /\ owner_pid c = pid_or_neg_one o'
        /\ (conflict_type c = Write \/ req_type req = Write)
        /\ (exists x, in_range (conflict_start (clipped_conflict c req)) (conflict_end (clipped_conflict c req)) x)
        /\ (forall x, in_range (conflict_start (clipped_conflict c req)) (conflict_end (clipped_conflict c req)) x ->
              in_request req x /\ held (locks_of ts.1 key) o' (conflict_type c) x)
        /\ (forall l, l ∈ locks_of ts.1 key -> conflicts l o req = true -> conflict_start c <= start l)
  end.
Proof.
  intros Hts Hr. pose proof (file_canonical _ (reachable_ok ts Hts key)) as Hc.
  pose proof (conflict_blocked _ o req Hc Hr) as Hb.
  assert (Hg : getlk_inner ts.1 key o req
    = if bool_decide (req_type req = Unlock) then None else first_conflict (locks_of ts.1 key) o req).
  { unfold getlk_inner, locks_of. case_bool_decide; [done|]. by destruct (ts.1 !! key). }
  rewrite Hg. case_bool_decide as Hu; [by intros [? _]|]. unfold first_conflict.
  destruct (first_conflict_lock _ o req) as [m|] eqn:E; cbn [fmap option_fmap option_map]; [|by intros Hbl%Hb].
  apply first_conflict_Some in E as (Hm & Hmc & Hfirst). pose proof Hmc as (Ho & Ht & _ & Hw & Hov)%conflicts_spec.
  destruct Hc as [_ Hp _]. rewrite Forall_forall in Hp. destruct (Hp m Hm) as [Hne _].
  exists (owner m). split_and!; try done; cbn [conflict_view conflict_start].
  - apply overlaps_byte in Hov as (x & Hx & Hq); [|done..]. exists x. by apply clipped_range.
  - intros x [Hx Hq]%clipped_range. split; [done|]. by exists m.
Qed.

Lemma record_lock_getlk_exact_witness :
  let ts := foldl step (∅, ∅) (take 2 events_a) in
  let req := new_request Write 60 1000 in
  getlk_inner ts.1 file_a (process 12) req = Some (mk_conflict Read 0 (Some 100) 10)
  /\ exists o', o' <> process 12 /\ 10 = pid_or_neg_one o'
        /\ (Read = Write \/ req_type req = Write)
        /\ (exists x, in_range 60 (Some 100) x)
        /\ (forall x, in_range 60 (Some 100) x -> in_request req x /\ held (locks_of ts.1 file_a) o' Read x)
        /\ (forall l, l ∈ locks_of ts.1 file_a -> conflicts l (process 12) req = true -> 0 <= start l).
Proof.
  assert (E : getlk_inner (foldl step (∅, ∅) (take 2 events_a)).1 file_a (process 12) (new_request Write 60 1000)
    = Some (mk_conflict Read 0 (Some 100) 10)) by (vm_compute; reflexivity).
  split; [exact E|].
  pose proof (record_lock_getlk_exact (foldl step (∅, ∅) (take 2 events_a)) file_a (process 12)
    (new_request Write 60 1000) (ex_intro _ _ eq_refl)) as H.
  rewrite E in H. apply H. vm_compute. split; congruence.
Defined.

(** ** Deadlocks *)

Section deadlock.
Context (table : lock_table) (pending : pending_table) (waiter : RecordOwner).

(** [a] waits for a lock that [b] stands in the way of. *)
Definition waits_for (a b : RecordOwner) : Prop := next_owner table pending a = Some b.

(** The owners already seen are waiting, are not the waiter, and lead to each
    other or to the current one. *)
Record chain (seen : list RecordOwner) (current : RecordOwner) : Prop := {
  chain_NoDup : NoDup seen;
  chain_not_waiter : waiter ∉ seen;
  chain_closed : forall o, o ∈ seen -> exists o', waits_for o o' /\ (o' ∈ seen \/ o' = current)
}.

Lemma waits_for_pending a b : waits_for a b -> a ∈ dom pending.
Proof. unfold waits_for, next_owner. intros H. apply elem_of_dom. by destruct (pending !! a). Qed.

Lemma wait_chain_length seen current : chain seen current -> (length seen <= size pending)%nat.
Proof.
  intros [Hnd _ Hcl]. rewrite <- size_dom, <- (size_list_to_set (C := gset RecordOwner)) by done.
  apply subseteq_size. intros o Ho%elem_of_list_to_set. destruct (Hcl o Ho) as (o' & ? & _).
  by eapply waits_for_pending.
Qed.

(** A chain that comes back to itself never meets the waiter. *)
Lemma chain_cycle seen current : chain seen current -> current ∈ seen -> ~ rtc waits_for current waiter.
Proof.
  intros [_ Hw Hcl] Hin Hr. assert (Hc : forall a b, rtc waits_for a b -> a ∈ seen -> b ∈ seen).
  { induction 1 as [|a b c Hab _ IH]; intros Ha; [done|]. apply IH.
    destruct (Hcl a Ha) as (b' & Hb' & Hor). unfold waits_for in *. rewrite Hab in Hb'. simplify_eq.
    destruct Hor as [| ->]; done. }
  by apply Hw, (Hc current).
Qed.

Lemma chain_next seen current o :
  chain seen current -> current <> waiter -> current ∉ seen -> waits_for current o -> chain (current :: seen) o.
Proof.
  intros [Hnd Hw Hcl] Hne Hni Hcur. constructor; [by constructor|set_solver|].
  intros a [-> |Ha]%elem_of_cons; [by exists o; split; [|right]|].
  destruct (Hcl a Ha) as (b & Hb & Hor). exists b. split; [done|]. left. set_solver.
Qed.

Lemma deadlock_loop_exact fuel seen current :
  chain seen current -> (size pending + 3 <= fuel + length seen)%nat ->
  exists b, deadlock_loop fuel table pending waiter [current] seen = Some b
    /\ (b = true <-> rtc waits_for current waiter).
Proof.
  revert seen current. induction fuel as [|fuel IH]; intros seen current Hch Hf;
    pose proof (wait_chain_length _ _ Hch) as Hlen; [lia|]. cbn [deadlock_loop].
  destruct fuel as [|fuel']; [lia|].
  case_bool_decide as Hw; [subst; exists true; split; [done|split; [constructor|done]]|].
  case_bool_decide as Hs.
  { exists false. split; [done|]. split; [done|]. intros Hr. by destruct (chain_cycle _ _ Hch Hs). }
  destruct (next_owner table pending current) as [o|] eqn:En.
  - destruct (IH (current :: seen) o) as (b & Hb & Hiff); [by apply chain_next|cbn [length]; lia|].
    exists b. split; [done|]. rewrite Hiff. split; [by apply rtc_l|].
    intros Hr. inversion Hr as [|? o' ? Ho']; subst; [done|]. unfold waits_for in Ho'. congruence.
  - exists false. split; [done|]. split; [done|]. intros Hr. inversion Hr as [|? o' ? Ho']; subst; [done|].
    unfold waits_for in Ho'. congruence.
Qed.


End deadlock.

Lemma chain_nil waiter table pending o : chain table pending waiter [] o.
Proof. constructor; [constructor|apply not_elem_of_nil|]. intros a Ha. by apply elem_of_nil in Ha. Qed.

Lemma would_deadlock_total table pending waiter key req :
  exists b, would_deadlock table pending waiter key req = Some b.
Proof.
  unfold would_deadlock. destruct (st ← table !! key; _) as [first|]; [|by eexists].
  destruct (deadlock_loop_exact table pending waiter (size pending + 3) [] first) as (b & ? & _);
    [apply chain_nil|cbn [length]; lia|eauto].
Qed.


(** ** The arithmetic of requests *)




(** ** Types *)

Definition typed_end (e : option Z) : Prop := match e with Some e => is_u64 e | None => True end.
Definition typed_lock (l : RecordLock) : Prop := is_u64 (start l) /\ typed_end (end_of l) /\ is_u64 (owner_id (owner l)).
Definition typed_request (req : RecordLockRequest) : Prop := is_u64 (req_start req) /\ typed_end (req_end req).

Definition typed_event (e : event) : Prop :=
  match e with
  | Setlk _ _ _ o req _ => is_u64 (owner_id o) /\ typed_request req
  | _ => True
  end.

Lemma typed_merge_loop ls out : Forall typed_lock out -> Forall typed_lock ls -> Forall typed_lock (merge_loop out ls).
Proof.
  revert out. induction ls as [|b ls IH]; intros out Ho Hl; cbn [merge_loop]; [done|].
  apply Forall_cons in Hl as [Hb Hl]. destruct out as [|a out]; [apply IH; [by constructor|done]|].
  case_match; apply IH; try done; [|by constructor]. apply Forall_cons in Ho as [(Hs & He & Hi) Ho]. constructor; [|done].
  destruct Hb as (_ & Hbe & _). split_and!; try done. cbn [end_of]. unfold max_end, typed_end in *.
  destruct (end_of a), (end_of b); [unfold is_u64 in *; lia|done..].
Qed.

Lemma typed_normalize ls : Forall typed_lock ls -> Forall typed_lock (normalize ls).
Proof.
  intros H. unfold normalize. rewrite sort_by_perm, <- Permutation_rev. apply typed_merge_loop; [constructor|].
  rewrite sort_by_perm. by apply Forall_filter_keep.
Qed.

Lemma typed_apply ls o req :
  Forall typed_lock ls -> is_u64 (owner_id o) -> typed_request req -> Forall typed_lock (apply ls o req).
Proof.
  intros Hl Ho [Hs He]. apply typed_normalize, Forall_app. split.
  - induction Hl as [|l ls Hl _ IH]; [constructor|].
    change (mjoin (map (cut o req) (l :: ls))) with (cut o req l ++ mjoin (map (cut o req) ls)).
    apply Forall_app. split; [|done]. destruct Hl as (H1 & H2 & H3). unfold cut, left_piece, right_piece.
    destruct (req_end req); repeat case_match; repeat apply Forall_cons_2; try apply Forall_nil_2; split_and!; done.
  - case_bool_decide; [apply Forall_singleton|constructor]. by split_and!.
Qed.

(** The bounds and the owners of all locks stay 64-bit values: no piece cut
    out of a range, no join of two ranges and no end of one leaves the type. *)
Theorem record_lock_typed events key :
  Forall typed_event events -> Forall typed_lock (locks_of (foldl step (∅, ∅) events).1 key).
Proof.
  assert (H0 : forall key, Forall typed_lock (locks_of ((∅, ∅) : tables).1 key)) by constructor.
  revert H0. generalize ((∅, ∅) : tables). intros ts Hts He. revert ts Hts key.
  induction He as [|e events He _ IH]; intros ts Hts key; [apply Hts|]. cbn [foldl]. apply IH. clear IH key.
  intros key. destruct ts as [table pending]. cbn [fst] in Hts.
  destruct e as [hint fresh key' o req wait|o|hint key' pid ptr last]; cbn [step fst]; [|done|].
  - rewrite locks_of_attempt. case_decide; [|done]. destruct He as [Ho Hr]. case_match; [done|]. by apply typed_apply.
  - rewrite locks_of_release. case_decide; [|done]. cbn [release_owner fst].
    destruct last; [apply Forall_filter_keep|]; by apply Forall_filter_keep.
Qed.

Lemma record_lock_typed_witness : Forall typed_lock (locks_of (foldl step (∅, ∅) events_a).1 file_a).
Proof.
  apply (record_lock_typed events_a file_a).
  repeat apply Forall_cons_2; [..|apply Forall_nil_2]; cbn [typed_event]; try exact I; repeat split; done.
Defined.
