(* ===== verification/WaitQueue.v ===== *)
(** * Wait queues

    The model of [libs/sched/src/wait.rs] with the task states of [task.rs] that
    it moves: a queue of shared entries, each of which names a task weakly and is
    waiting, woken or finished.  Each definition is one critical section of the
    queue, or one transition of a task outside of it. *)

From stdpp Require Import gmap.
From S2P Require Import Prelude.

(** ** Tasks *)

Inductive TaskState : Type :=
| New | Runnable | Running | Sleeping | Uninterruptible | Stopped | Continued | Zombie | Dead.

#[export] Instance TaskState_eq_dec : EqDecision TaskState.
Proof. solve_decision. Defined.

(** A task, as far as waiting goes: its state, and whether an exit is forced on
    it. *)
Record Task : Type := mk_task { state : TaskState; forced_exit_wakeup_pending : bool }.

Definition is_wait (s : TaskState) : bool := bool_decide (s = Sleeping) || bool_decide (s = Uninterruptible).

Definition cas_state (t : Task) (expect new : TaskState) : Task * bool :=
  if is_wait new && forced_exit_wakeup_pending t then (t, false)
  else if bool_decide (state t = expect) then (mk_task new (forced_exit_wakeup_pending t), true)
  else (t, false).

(** The loop runs once: an exchange with the state just read fails under a forced
    exit only. *)
Definition prepare_wait_state (t : Task) (s : TaskState) : Task * bool :=
  if bool_decide (state t = s) then
    if negb (forced_exit_wakeup_pending t) then (t, true)
    else (mk_task Running true, false)
  else match state t with
       | Stopped | Continued | Zombie | Dead => (t, false)
       | current => cas_state t current s
       end.

Definition transition_to_runnable (t : Task) : Task * bool :=
  let '(t, ok) := cas_state t Sleeping Runnable in
  if ok then (t, true) else cas_state t Uninterruptible Runnable.

(** [current] is whether the task is the one that runs. *)
Definition transition_from_wait (current : bool) (t : Task) : Task :=
  if current then
    let '(t, ok) := cas_state t Sleeping Running in
    if ok then t
    else let '(t, ok) := cas_state t Uninterruptible Running in
         if ok then t else (cas_state t Runnable Running).1
  else
    let '(t, ok) := cas_state t Sleeping Runnable in
    if ok then t else (cas_state t Uninterruptible Runnable).1.

(** ** The queue *)

Inductive EntryState : Type := ENTRY_WAITING | ENTRY_WOKEN | ENTRY_FINISHED.

#[export] Instance EntryState_eq_dec : EqDecision EntryState.
Proof. solve_decision. Defined.

Record WaitQueueEntry : Type := mk_entry { entry_task : nat; entry_state : EntryState }.

(** The queue with the entries that were ever made and the tasks that are alive:
    a weak reference to a task that is gone does not upgrade. *)
Record world : Type := mk_world {
  waiters : list nat;
  entries : list WaitQueueEntry;
  tasks : gmap nat Task
}.

Definition set_queue (q : list nat) (w : world) : world := mk_world q (entries w) (tasks w).
Definition set_task (t : nat) (k : Task) (w : world) : world :=
  mk_world (waiters w) (entries w) (<[t := k]> (tasks w)).
Definition set_entry (e : nat) (s : EntryState) (w : world) : world :=
  mk_world (waiters w) (alter (fun x => mk_entry (entry_task x) s) e (entries w)) (tasks w).

(** [WaitQueueEntry::task], the upgrade, and [is_waiting]. *)
Definition task_of (w : world) (e : nat) : option nat :=
  x ← entries w !! e; if bool_decide (is_Some (tasks w !! entry_task x)) then Some (entry_task x) else None.
Definition is_waiting (w : world) (e : nat) : bool :=
  match entries w !! e with Some x => bool_decide (entry_state x = ENTRY_WAITING) | None => false end.

Definition mark_woken (w : world) (e : nat) : world * bool :=
  if is_waiting w e then (set_entry e ENTRY_WOKEN w, true) else (w, false).

(** The entry of a task in a queue. *)
Definition queued_entry (w : world) (t : nat) (q : list nat) : option nat :=
  head (filter (fun e => task_of w e = Some t) q).

Definition enqueue (w : world) (t : nat) : world * nat :=
  let q := filter (fun e => is_waiting w e = true /\ is_Some (task_of w e)) (waiters w) in
  match queued_entry w t q with
  | Some e => (set_queue q w, e)
  | None =>
      let e := length (entries w) in
      (mk_world (q ++ [e]) (entries w ++ [mk_entry t ENTRY_WAITING]) (tasks w), e)
  end.

Definition prepare_to_wait (w : world) (t : nat) (s : TaskState) : world * nat :=
  let '(w, e) := enqueue w t in
  match tasks w !! t with
  | Some k => (set_task t (prepare_wait_state k s).1 w, e)
  | None => (w, e)
  end.

(** The two halves of [finish_wait]. *)
Definition finish_entry (w : world) (e : nat) : world :=
  set_entry e ENTRY_FINISHED (set_queue (filter (fun e' => e' <> e) (waiters w)) w).
Definition finish_transition (current : bool) (w : world) (e : nat) : world :=
  match task_of w e with
  | Some t => match tasks w !! t with
              | Some k => set_task t (transition_from_wait current k) w
              | None => w
              end
  | None => w
  end.

(** One round of [remove]: whether the entry stays, and its new state. *)
Fixpoint remove_loop (q : list nat) (t : nat) (w : world) : list nat * world :=
  match q with
  | [] => ([], w)
  | e :: q =>
      match task_of w e with
      | Some t' =>
          if bool_decide (t' = t) then remove_loop q t (set_entry e ENTRY_FINISHED w)
          else if is_waiting w e then let '(q, w) := remove_loop q t w in (e :: q, w)
          else remove_loop q t w
      | None => remove_loop q t w
      end
  end.
Definition remove (w : world) (t : nat) : world :=
  let '(q, w) := remove_loop (waiters w) t w in set_queue q w.

(** ** Waking *)

Definition wake_task (w : world) (t : nat) : world :=
  match tasks w !! t with
  | Some k => set_task t (transition_to_runnable k).1 w
  | None => w
  end.

(** The loop of [wake_one]: pop an entry, drop it if its task is gone or it is no
    longer waiting, put it back if its task is awake. *)
Fixpoint wake_one_loop (n : nat) (w : world) : world * option nat :=
  match n with
  | O => (w, None)
  | S n =>
      match waiters w with
      | [] => (w, None)
      | e :: q =>
          let w := set_queue q w in
          match task_of w e with
          | None => wake_one_loop n w
          | Some t =>
              match tasks w !! t with
              | Some k =>
                  if negb (is_wait (state k)) then wake_one_loop n (set_queue (q ++ [e]) w)
                  else
                    let '(w, ok) := mark_woken w e in
                    if ok then (w, Some t) else wake_one_loop n w
              | None => wake_one_loop n w
              end
          end
      end
  end.

Definition wake_one (w : world) : world * option nat :=
  let '(w, picked) := wake_one_loop (length (waiters w)) w in
  match picked with
  | Some t => (wake_task w t, Some t)
  | None => (w, None)
  end.

(** The critical section of [wake_all_with]: the tasks to wake. *)
Fixpoint drain_loop (q : list nat) (w : world) : world * list nat :=
  match q with
  | [] => (w, [])
  | e :: q =>
      match task_of w e with
      | None => drain_loop q w
      | Some t =>
          let '(w, ok) := mark_woken w e in
          let '(w, ts) := drain_loop q w in
          (w, if ok then t :: ts else ts)
      end
  end.
Definition drain (w : world) : world * list nat :=
  drain_loop (waiters w) (set_queue [] w).

Definition wake_all (w : world) : world :=
  let '(w, ts) := drain w in foldl wake_task w ts.

(** The loop of [wake_n]. *)
Fixpoint wake_n_loop (n : nat) (q : list nat) (w : world) : world * list nat :=
  match q, n with
  | [], _ | _, O => (set_queue q w, [])
  | e :: q, S n' =>
      match task_of w e with
      | None => wake_n_loop n q w
      | Some t =>
          let '(w, ok) := mark_woken w e in
          if ok then let '(w, ts) := wake_n_loop n' q w in (w, t :: ts)
          else wake_n_loop n q w
      end
  end.
Definition wake_n (w : world) (n : nat) : world * nat :=
  match n with
  | O => (w, O)
  | _ => let '(w, ts) := wake_n_loop n (waiters w) w in (foldl wake_task w ts, length ts)
  end.

(** The loop of [wake_one_with]: the entry is marked before its task is looked
    up. *)
Fixpoint wake_one_with_loop (q : list nat) (w : world) : world * option nat :=
  match q with
  | [] => (set_queue [] w, None)
  | e :: q =>
      let '(w, ok) := mark_woken w e in
      if ok then match task_of w e with
                 | Some t => (set_queue q w, Some t)
                 | None => wake_one_with_loop q w
                 end
      else wake_one_with_loop q w
  end.
Definition wake_one_with (w : world) : world * option nat :=
  let '(w, picked) := wake_one_with_loop (waiters w) w in
  match picked with
  | Some t => (wake_task w t, Some t)
  | None => (w, None)
  end.

Definition len_hint (w : world) : nat := length (waiters w).
