(* ===== verification/WaitQueueProofs.v ===== *)
(** * Wait queues: waiting and waking together

    What the operations of a queue do, and the protocol that all their users
    follow: tasks that register, test their condition again and sleep, and tasks
    that change conditions and then owe the queues a wake-up, as steps that
    interleave.  The invariant says where the wake-up of a sleeping task is at any
    time.  A subsystem that waits is an instance of [Waiting]: its steps are steps
    of the protocol, and no wake-up of it is lost. *)

From stdpp Require Import gmap functions.
From S2P Require Import Prelude WaitQueue.

(** ** Task states *)

Definition asleep (w : world) (t : nat) : Prop :=
  exists k, tasks w !! t = Some k /\ is_wait (state k) = true.

#[export] Instance asleep_dec w t : Decision (asleep w t).
Proof.
  unfold asleep. destruct (tasks w !! t) as [k|]; [destruct (decide (is_wait (state k) = true))|].
  - left. by exists k.
  - right. by intros (? & [= <-] & ?).
  - right. by intros (? & ? & _).
Defined.

Lemma wake_task_awake w t : ~ asleep (wake_task w t) t.
Proof.
  unfold wake_task, asleep. destruct (tasks w !! t) as [k|] eqn:E; [|rewrite E; by intros (? & ? & _)].
  cbn [tasks set_task]. rewrite lookup_insert_eq. intros (k' & [= <-] & Hw).
  by destruct k as [[] []]; vm_compute in Hw.
Qed.

Lemma wake_task_other w t t' : t' <> t -> asleep (wake_task w t) t' -> asleep w t'.
Proof.
  unfold wake_task, asleep. intros Hne. destruct (tasks w !! t); [|done]. cbn [tasks set_task].
  by rewrite lookup_insert_ne.
Qed.

Lemma wake_task_queue w t :
  waiters (wake_task w t) = waiters w /\ entries (wake_task w t) = entries w.
Proof. unfold wake_task. by destruct (tasks w !! t). Qed.

Lemma wake_task_alive w t t' : is_Some (tasks w !! t') -> is_Some (tasks (wake_task w t) !! t').
Proof.
  unfold wake_task. destruct (tasks w !! t) eqn:E; [|done]. cbn [tasks set_task]. intros ?.
  destruct (decide (t' = t)) as [->|]; [by rewrite lookup_insert_eq|by rewrite lookup_insert_ne].
Qed.

(** ** Draining *)

Lemma task_of_spec w e t :
  task_of w e = Some t <-> exists s, entries w !! e = Some (mk_entry t s) /\ is_Some (tasks w !! t).
Proof.
  unfold task_of. destruct (entries w !! e) as [[t' s]|]; cbn [mbind option_bind entry_task].
  - case_bool_decide as H; split; [intros [= <-]; eauto|by intros (? & [= -> ->] & _)|done|].
    by intros (? & [= -> ->] & ?).
  - split; [done|]. by intros (? & ? & _).
Qed.

Lemma mark_woken_entries w e e' :
  entries (mark_woken w e).1 !! e'
  = if decide (e' = e) then
      (fun x => if bool_decide (entry_state x = ENTRY_WAITING) then mk_entry (entry_task x) ENTRY_WOKEN else x)
        <$> entries w !! e'
    else entries w !! e'.
Proof.
  unfold mark_woken, is_waiting. case_decide as E; [subst|].
  - destruct (entries w !! e) as [x|] eqn:Ex; [|done]. cbn [fmap option_fmap option_map].
    case_bool_decide; cbn [fst]; [|by rewrite Ex]. cbn [entries set_entry]. by rewrite list_lookup_alter_eq, Ex.
  - destruct (entries w !! e); [|done]. case_bool_decide; [|done]. cbn [fst entries set_entry].
    by rewrite list_lookup_alter_ne.
Qed.

Lemma mark_woken_rest w e :
  waiters (mark_woken w e).1 = waiters w /\ tasks (mark_woken w e).1 = tasks w.
Proof. unfold mark_woken. by case_match. Qed.

(** An entry that waits for a live task and is in the queue gets woken, and its
    task is among those to wake; other entries stay. *)
Lemma drain_loop_spec q w e t s :
  entries w !! e = Some (mk_entry t s) -> is_Some (tasks w !! t) ->
  let r := drain_loop q w in
  waiters r.1 = waiters w /\ tasks r.1 = tasks w
  /\ (s = ENTRY_WAITING -> e ∈ q -> entries r.1 !! e = Some (mk_entry t ENTRY_WOKEN) /\ t ∈ r.2)
  /\ (e ∉ q \/ s <> ENTRY_WAITING -> entries r.1 !! e = Some (mk_entry t s)).
Proof.
  revert w s. induction q as [|e' q IH]; intros w s He Ht; cbn [drain_loop]; [set_solver|].
  destruct (task_of w e') as [t'|] eqn:Et.
  - destruct (mark_woken w e') as [w' ok] eqn:Em. pose proof (mark_woken_entries w e' e) as Hme.
    destruct (mark_woken_rest w e') as [Hq Hts]. rewrite Em in Hme, Hq, Hts. cbn [fst] in *.
    rewrite He in Hme. cbn [fmap option_fmap option_map entry_state entry_task] in Hme.
    rewrite <- Hts in Ht. destruct (decide (e = e')) as [->|Hne].
    + assert (Htt : t' = t) by (apply task_of_spec in Et as (? & ? & _); congruence).
      subst t'. unfold mark_woken, is_waiting in Em. rewrite He in Em. cbn in Em.
      case_bool_decide as Hs; simplify_eq.
      * destruct (IH _ _ Hme Ht) as (H1 & H2 & _ & H4). destruct (drain_loop q _) as [w'' ts]; cbn [fst snd] in *.
        split_and!; try done; [|set_solver]. intros _ _. split; [by apply H4; right|apply list_elem_of_here].
      * destruct (IH _ _ He Ht) as (H1 & H2 & _ & H4). destruct (drain_loop q _) as [w'' ts]; cbn [fst snd] in *.
        split_and!; try done. intros _. apply H4. by right.
    + destruct (IH _ _ Hme Ht) as (H1 & H2 & H3 & H4). destruct (drain_loop q w') as [w'' ts]. cbn [fst snd] in *.
      split_and!; [congruence|congruence| |set_solver]. intros Hs Hin. destruct H3 as [??]; [done|set_solver|].
      split; [done|]. destruct ok; set_solver.
  - destruct (IH _ _ He Ht) as (H1 & H2 & H3 & H4). split_and!; try done; [|set_solver].
    intros Hs [->|Hin]%elem_of_cons; [|auto]. exfalso.
    assert (task_of w e' = Some t) by (apply task_of_spec; eauto). congruence.
Qed.

Lemma drain_loop_queue q w : waiters (drain_loop q w).1 = waiters w.
Proof.
  revert w. induction q as [|e q IH]; intros w; cbn [drain_loop]; [done|].
  destruct (task_of w e); [|done]. pose proof (mark_woken_rest w e) as [Hm _].
  destruct (mark_woken w e) as [w1 ok]. specialize (IH w1). destruct (drain_loop q w1); cbn [fst] in *; congruence.
Qed.

(** ** Registering *)

(** The world after a task that is not in the queue prepares to wait. *)
Lemma prepare_fresh w t s k :
  tasks w !! t = Some k ->
  (forall e, e ∈ waiters w -> exists t', t' <> t /\ entries w !! e = Some (mk_entry t' ENTRY_WAITING)
                                      /\ is_Some (tasks w !! t')) ->
  prepare_to_wait w t s
  = (mk_world (waiters w ++ [length (entries w)]) (entries w ++ [mk_entry t ENTRY_WAITING])
       (<[t := (prepare_wait_state k s).1]> (tasks w)), length (entries w)).
Proof.
  intros Hk Hq. unfold prepare_to_wait, enqueue.
  assert (Hkeep : filter (fun e => is_waiting w e = true /\ is_Some (task_of w e)) (waiters w) = waiters w).
  { apply filter_id. intros e He. destruct (Hq e He) as (t' & _ & Hen & Hal).
    split; [unfold is_waiting; by rewrite Hen|]. exists t'. apply task_of_spec. eauto. }
  rewrite Hkeep. assert (queued_entry w t (waiters w) = None) as ->.
  { unfold queued_entry. destruct (filter (fun e => task_of w e = Some t) (waiters w)) as [|e l] eqn:E; [done|]. exfalso.
    assert (e ∈ filter (fun e => task_of w e = Some t) (waiters w)) as [Ht Hin]%list_elem_of_filter
      by (rewrite E; apply list_elem_of_here).
    destruct (Hq e Hin) as (t' & Hne & Hen & _). apply task_of_spec in Ht as (? & ? & _). congruence. }
  cbn [tasks]. by rewrite Hk.
Qed.

(** ** The protocol *)

(** What a task is registered for, where, and whether it has seen since that it
    must wait. *)
Record registration (C : Type) : Type := mk_reg { r_for : C; r_queue : nat; r_entry : nat; r_committed : bool }.
Arguments mk_reg {_}.
Arguments r_for {_}.
Arguments r_queue {_}.
Arguments r_entry {_}.
Arguments r_committed {_}.

(** What a task has left to do for others: drain a queue, or make the tasks that
    it took out of one runnable. *)
Inductive duty : Type := Nothing | Drains (q : nat) | Wakes (ts : list nat).

(** A system of tasks, as far as waiting goes.  A condition [c] is attached to
    the queue that is drained when it changes, and blocked as long as the tasks
    registered for it must wait. *)
Record view (C : Type) : Type := mk_view {
  v_queue : nat -> list nat;
  v_entries : list WaitQueueEntry;
  v_tasks : gmap nat Task;
  v_reg : nat -> option (registration C);
  v_duty : nat -> duty;
  v_attached : C -> nat -> Prop;
  v_blocked : C -> nat -> Prop
}.
Arguments mk_view {_}.
Arguments v_queue {_}.
Arguments v_entries {_}.
Arguments v_tasks {_}.
Arguments v_reg {_}.
Arguments v_duty {_}.
Arguments v_attached {_}.
Arguments v_blocked {_}.

Section protocol.
Context {C : Type}.
Implicit Types (v : view C) (r : registration C) (c : C) (d : duty).

Definition v_world v (q : nat) : world := mk_world (v_queue v q) (v_entries v) (v_tasks v).
Definition v_put (q : nat) (w : world) v : view C :=
  mk_view (<[q := waiters w]> (v_queue v)) (entries w) (tasks w) (v_reg v) (v_duty v) (v_attached v) (v_blocked v).
Definition v_register (t : nat) (r : option (registration C)) v : view C :=
  mk_view (v_queue v) (v_entries v) (v_tasks v) (<[t := r]> (v_reg v)) (v_duty v) (v_attached v) (v_blocked v).
Definition v_owe (t : nat) d v : view C :=
  mk_view (v_queue v) (v_entries v) (v_tasks v) (v_reg v) (<[t := d]> (v_duty v)) (v_attached v) (v_blocked v).
Definition v_states (ts : gmap nat Task) v : view C :=
  mk_view (v_queue v) (v_entries v) ts (v_reg v) (v_duty v) (v_attached v) (v_blocked v).
Definition v_conditions (att blk : C -> nat -> Prop) v : view C :=
  mk_view (v_queue v) (v_entries v) (v_tasks v) (v_reg v) (v_duty v) att blk.

Definition commit (b : bool) r : registration C := mk_reg (r_for r) (r_queue r) (r_entry r) b.

(** States of tasks change, none into sleep. *)
Definition no_sleep (ts ts' : gmap nat Task) : Prop :=
  (forall t, is_Some (ts !! t) -> is_Some (ts' !! t))
  /\ forall t k, ts' !! t = Some k -> is_wait (state k) = true -> ts !! t = Some k.

Inductive vstep v : view C -> Prop :=
| vs_commit t r b :
    (* a registered task tests its condition, or gives up waiting for it *)
    v_reg v t = Some r ->
    (b = true -> r_committed r = false -> v_attached v (r_for r) (r_queue r) -> v_blocked v (r_for r) (r_queue r)) ->
    vstep v (v_register t (Some (commit b r)) v)
| vs_enter t c q s w e :
    v_reg v t = None -> is_Some (v_tasks v !! t) -> v_attached v c q ->
    prepare_to_wait (v_world v q) t s = (w, e) ->
    vstep v (v_register t (Some (mk_reg c q e false)) (v_put q w v))
| vs_leave t r :
    v_reg v t = Some r ->
    vstep v (v_register t None (v_put (r_queue r) (finish_entry (v_world v (r_queue r)) (r_entry r)) v))
| vs_change t att blk d :
    (* a condition that tasks are queued for stops being blocked only if the
       queue is to be drained *)
    v_duty v t = Nothing \/ v_duty v t = d ->
    (forall c q, v_queue v q <> [] -> v_attached v c q ->
       att c q /\ (v_blocked v c q -> blk c q \/ d = Drains q)) ->
    vstep v (v_owe t d (v_conditions att blk v))
| vs_drain t q w ts :
    v_duty v t = Drains q -> drain (v_world v q) = (w, ts) -> vstep v (v_owe t (Wakes ts) (v_put q w v))
| vs_wake t t' ts :
    v_duty v t = Wakes (t' :: ts) ->
    vstep v (v_owe t (Wakes ts) (v_states (tasks (wake_task (v_world v 0) t')) v))
| vs_done t : v_duty v t = Wakes [] -> vstep v (v_owe t Nothing v)
| vs_states ts : no_sleep (v_tasks v) ts -> vstep v (v_states ts v).

(** ** The invariant *)

Definition drain_due v (q : nat) : Prop := exists k, v_duty v k = Drains q.
Definition wake_due v (t : nat) : Prop := exists k ts, v_duty v k = Wakes ts /\ t ∈ ts.

(** A registered task waits in its queue, which is about to be drained if the
    task is committed and need not wait any more; or it has been taken out, and is
    awake or about to be. *)
Definition reg_ok v (t : nat) r : Prop :=
  is_Some (v_tasks v !! t) /\
  ((v_entries v !! r_entry r = Some (mk_entry t ENTRY_WAITING) /\ r_entry r ∈ v_queue v (r_queue r)
    /\ v_attached v (r_for r) (r_queue r)
    /\ (r_committed r = true -> v_blocked v (r_for r) (r_queue r) \/ drain_due v (r_queue r)))
   \/ (v_entries v !! r_entry r = Some (mk_entry t ENTRY_WOKEN)
       /\ (asleep (v_world v 0) t -> wake_due v t))).

Record vinv v : Prop := {
  vinv_reg : forall t r, v_reg v t = Some r -> reg_ok v t r;
  vinv_queue : forall q e, e ∈ v_queue v q -> exists t r,
    v_reg v t = Some r /\ r_queue r = q /\ r_entry r = e /\ v_entries v !! e = Some (mk_entry t ENTRY_WAITING)
}.

(** Systems that the protocol cannot tell apart. *)
#[export] Instance view_equiv : Equiv (view C) := fun v v' =>
  (forall q, v_queue v q = v_queue v' q) /\ v_entries v = v_entries v' /\ v_tasks v = v_tasks v'
  /\ (forall t, v_reg v t = v_reg v' t) /\ (forall t, v_duty v t = v_duty v' t)
  /\ (forall c q, v_attached v c q <-> v_attached v' c q) /\ (forall c q, v_blocked v c q <-> v_blocked v' c q).

#[export] Instance view_equivalence : Equivalence (≡@{view C}).
Proof.
  split.
  - by intros v.
  - intros v v' (?&?&?&?&?&?&?). by split_and!; intros; symmetry.
  - intros v1 v2 v3 (H1&H2&H3&H4&H5&H6&H7) (G1&G2&G3&G4&G5&G6&G7). split_and!; intros; try congruence;
      [by rewrite H6|by rewrite H7].
Qed.

Lemma reg_ok_equiv v v' t r : v ≡ v' -> reg_ok v t r -> reg_ok v' t r.
Proof.
  intros (H1&H2&H3&H4&H5&H6&H7) [Hal Hor]. unfold reg_ok, asleep in *. cbn [tasks v_world] in *.
  rewrite <- H2, <- H3, <- H1. setoid_rewrite <- H6. setoid_rewrite <- H7. split; [done|].
  destruct Hor as [(? & ? & ? & Hd)|(? & Hw)]; [left|right].
  - split_and!; try done. intros Hc. destruct (Hd Hc) as [|(k & Hk)]; [by left|right]. exists k. by rewrite <- H5.
  - split; [done|]. intros Ha. destruct (Hw Ha) as (k & ts & Hk & ?). exists k, ts. by rewrite <- H5.
Qed.

#[export] Instance vinv_proper : Proper ((≡) ==> iff) vinv.
Proof.
  assert (Hgo : forall v v', v ≡ v' -> vinv v -> vinv v').
  { intros v v' Heq [Hreg Hq]. pose proof Heq as (H1&H2&_&H4&_). split.
    - intros t r Hr. rewrite <- H4 in Hr. by eapply reg_ok_equiv; [exact Heq|auto].
    - intros q e He. rewrite <- H1 in He. destruct (Hq q e He) as (t & r & ?). exists t, r. by rewrite <- H4, <- H2. }
  intros v v' Heq. split; [by apply Hgo|]. apply Hgo. by symmetry.
Qed.

Lemma reg_inj v t t' r r' :
  vinv v -> v_reg v t = Some r -> v_reg v t' = Some r' -> r_entry r' = r_entry r -> t' = t.
Proof.
  intros [Hreg _] H1 H2 He. destruct (Hreg _ _ H1) as [_ [(E1 & _)|(E1 & _)]],
    (Hreg _ _ H2) as [_ [(E2 & _)|(E2 & _)]]; congruence.
Qed.

(** ** Frames *)

(** A registered task is not disturbed by what others do. *)
Lemma reg_frame v v' t r :
  reg_ok v t r ->
  (is_Some (v_tasks v !! t) -> is_Some (v_tasks v' !! t)) ->
  (forall x, v_entries v !! r_entry r = Some x -> v_entries v' !! r_entry r = Some x) ->
  (r_entry r ∈ v_queue v (r_queue r) -> v_attached v (r_for r) (r_queue r) ->
   r_entry r ∈ v_queue v' (r_queue r) /\ v_attached v' (r_for r) (r_queue r)
   /\ (v_blocked v (r_for r) (r_queue r) -> v_blocked v' (r_for r) (r_queue r) \/ drain_due v' (r_queue r))) ->
  (asleep (v_world v' 0) t -> asleep (v_world v 0) t) ->
  (drain_due v (r_queue r) -> drain_due v' (r_queue r)) -> (wake_due v t -> wake_due v' t) ->
  reg_ok v' t r.
Proof.
  intros [Hal Hor] Ht He Hq Has Hd Hw. split; [auto|]. destruct Hor as [(Hen & Hin & Hat & Hdue)|(Hen & Hwk)].
  - left. destruct (Hq Hin Hat) as (Hin' & Hat' & Hb). split_and!; [auto|done|done|]. intros Hc.
    destruct (Hdue Hc); auto.
  - right. auto.
Qed.

Lemma drain_due_owe v t d q :
  v_duty v t = Nothing \/ v_duty v t = d -> drain_due v q -> drain_due (v_owe t d v) q.
Proof.
  intros Ht (k & Hk). exists k. cbn. destruct (decide (k = t)) as [->|]; [|by rewrite fn_lookup_insert_ne].
  rewrite fn_lookup_insert. destruct Ht; congruence.
Qed.
Lemma wake_due_owe v t d t' :
  v_duty v t = Nothing \/ v_duty v t = d -> wake_due v t' -> wake_due (v_owe t d v) t'.
Proof.
  intros Ht (k & ts & Hk & Hin). exists k, ts. cbn. destruct (decide (k = t)) as [->|]; [|by rewrite fn_lookup_insert_ne].
  rewrite fn_lookup_insert. destruct Ht; split; congruence.
Qed.

Lemma reg_lookup v t x t' r :
  v_reg (v_register t x v) t' = Some r -> t' = t /\ x = Some r \/ t' <> t /\ v_reg v t' = Some r.
Proof.
  cbn. destruct (decide (t' = t)) as [->|]; [rewrite fn_lookup_insert|rewrite fn_lookup_insert_ne by done]; auto.
Qed.

(** ** Every step keeps the invariant *)

Lemma commit_ok v t r b :
  vinv v -> v_reg v t = Some r ->
  (b = true -> r_committed r = false -> v_attached v (r_for r) (r_queue r) -> v_blocked v (r_for r) (r_queue r)) ->
  vinv (v_register t (Some (commit b r)) v).
Proof.
  intros [Hreg Hq] Hr Hb. split.
  - intros t' r' [[-> [= <-]]|[_ Hr']]%reg_lookup; [|exact (Hreg _ _ Hr')].
    destruct (Hreg _ _ Hr) as [Hal [(?&?&?&Hd)|?]]; (split; [exact Hal|]); [left|by right]. split_and!; try done.
    cbn. intros ->. destruct (r_committed r) eqn:E; [exact (Hd eq_refl)|left; auto].
  - intros q e He. destruct (Hq q e He) as (t' & r' & Hr' & ? & ? & ?). destruct (decide (t' = t)) as [->|].
    + exists t, (commit b r). cbn. rewrite fn_lookup_insert. by simplify_eq.
    + exists t', r'. cbn. by rewrite fn_lookup_insert_ne.
Qed.

Lemma enter_ok v t c q s w e :
  vinv v -> v_reg v t = None -> is_Some (v_tasks v !! t) -> v_attached v c q ->
  prepare_to_wait (v_world v q) t s = (w, e) ->
  vinv (v_register t (Some (mk_reg c q e false)) (v_put q w v)).
Proof.
  intros [Hreg Hq] Hnone [k Hk] Hatt Hp.
  rewrite (prepare_fresh (v_world v q) _ _ k Hk) in Hp; cycle 1.
  { intros e' (t' & r & Hr & _ & _ & Hen)%Hq. exists t'. destruct (Hreg t' r Hr) as [? _].
    split_and!; try done. congruence. }
  simplify_eq. set (e := length (v_entries v)). set (v' := v_register _ _ _).
  assert (Hnew : v_entries v' !! e = Some (mk_entry t ENTRY_WAITING)).
  { cbn. by rewrite lookup_app_r, Nat.sub_diag by (unfold e; lia). }
  assert (Hqs : forall q' e', e' ∈ v_queue v' q' <-> e' ∈ v_queue v q' \/ q' = q /\ e' = e).
  { intros q' e'. cbn. destruct (decide (q' = q)) as [->|]; [rewrite fn_lookup_insert|rewrite fn_lookup_insert_ne by done];
      rewrite ?elem_of_app, ?list_elem_of_singleton; naive_solver. }
  split.
  - intros t' r [[-> [= <-]]|[Hne Hr]]%reg_lookup.
    + split; [cbn; by rewrite lookup_insert_eq|]. left. split_and!; try done. apply Hqs. by right.
    + apply (reg_frame v); [by apply Hreg|..]; try done.
      * intros Hal. cbn. by rewrite lookup_insert_ne.
      * intros x Hx. cbn. by apply lookup_app_l_Some.
      * intros Hin Hat. split_and!; [apply Hqs; by left|done|by left].
      * unfold asleep. cbn. by rewrite lookup_insert_ne.
  - intros q' e' [Hin|[-> ->]]%Hqs.
    + destruct (Hq _ _ Hin) as (t' & r & Hr & ? & ? & Hen). exists t', r. split_and!; try done.
      * cbn. rewrite fn_lookup_insert_ne; [done|congruence].
      * cbn. by apply lookup_app_l_Some.
    + exists t, (mk_reg c q e false). split_and!; try done. cbn. by rewrite fn_lookup_insert.
Qed.

Lemma leave_ok v t r :
  vinv v -> v_reg v t = Some r ->
  vinv (v_register t None (v_put (r_queue r) (finish_entry (v_world v (r_queue r)) (r_entry r)) v)).
Proof.
  intros Hinv Hr. pose proof Hinv as [Hreg Hq]. set (v' := v_register _ _ _).
  assert (Hqs : forall q' e', e' <> r_entry r -> e' ∈ v_queue v' q' <-> e' ∈ v_queue v q').
  { intros q' e' Hne. cbn. destruct (decide (q' = r_queue r)) as [->|];
      [rewrite fn_lookup_insert, list_elem_of_filter; naive_solver|by rewrite fn_lookup_insert_ne]. }
  assert (Hent : forall e', e' <> r_entry r -> v_entries v' !! e' = v_entries v !! e')
    by (intros e' Hne; cbn; by rewrite list_lookup_alter_ne).
  assert (Hgone : forall q', r_entry r ∉ v_queue v' q').
  { intros q' Hin. cbn in Hin. destruct (decide (q' = r_queue r)) as [->|].
    - rewrite fn_lookup_insert in Hin. by apply list_elem_of_filter in Hin as [? _].
    - rewrite fn_lookup_insert_ne in Hin by done. destruct (Hq _ _ Hin) as (t' & r' & Hr' & ? & ? & _).
      assert (t' = t) as -> by (by eapply reg_inj). congruence. }
  split.
  - intros t' r' [[-> ?]|[Hne Hr']]%reg_lookup; [done|].
    assert (r_entry r' <> r_entry r) by (intros E; apply Hne; by eapply reg_inj).
    apply (reg_frame v); [by apply Hreg|..]; try done; [by intros x; rewrite Hent|].
    intros Hin Hat. split_and!; [by apply Hqs|done|by left].
  - intros q' e' Hin. assert (Hne : e' <> r_entry r) by (intros ->; by apply Hgone in Hin). apply Hqs in Hin; [|done].
    destruct (Hq _ _ Hin) as (t' & r' & Hr' & ? & ? & Hen). exists t', r'. rewrite Hent by done. split_and!; try done.
    cbn. rewrite fn_lookup_insert_ne; [done|congruence].
Qed.

Lemma change_ok v t att blk d :
  vinv v -> v_duty v t = Nothing \/ v_duty v t = d ->
  (forall c q, v_queue v q <> [] -> v_attached v c q -> att c q /\ (v_blocked v c q -> blk c q \/ d = Drains q)) ->
  vinv (v_owe t d (v_conditions att blk v)).
Proof.
  intros [Hreg Hq] Ht Hch. split; [|exact Hq]. intros t' r Hr. apply (reg_frame v); [by apply Hreg|..]; try done.
  - intros Hin Hat. destruct (Hch _ (r_queue r) ltac:(by intros E; rewrite E in Hin; apply elem_of_nil in Hin) Hat)
      as [Hat' Hb]. split_and!; try done. intros Hblk. destruct (Hb Hblk) as [?| ->]; [by left|right].
    exists t. cbn. by rewrite fn_lookup_insert.
  - intros Hd. by apply (drain_due_owe (v_conditions att blk v)).
  - intros Hw. by apply (wake_due_owe (v_conditions att blk v)).
Qed.

Lemma states_ok v ts : vinv v -> no_sleep (v_tasks v) ts -> vinv (v_states ts v).
Proof.
  intros [Hreg Hq] [Hal Hst]. split; [|exact Hq]. intros t r Hr. apply (reg_frame v); [by apply Hreg|..]; try done.
  - apply Hal.
  - intros Hin Hat. split_and!; try done. by left.
  - intros (k & Hk & Hw). exists k. split; [by apply Hst|done].
Qed.

Lemma done_ok v t : vinv v -> v_duty v t = Wakes [] -> vinv (v_owe t Nothing v).
Proof.
  intros [Hreg Hq] Ht. split; [|exact Hq]. intros t' r Hr. apply (reg_frame v); [by apply Hreg|..]; try done.
  - intros Hin Hat. split_and!; try done. by left.
  - intros (k & Hk). exists k. cbn. rewrite fn_lookup_insert_ne; [done|congruence].
  - intros (k & ts & Hk & Hin). exists k, ts. cbn. rewrite fn_lookup_insert_ne; [done|]. intros ->.
    rewrite Ht in Hk. simplify_eq. by apply elem_of_nil in Hin.
Qed.

Lemma wake_task_no_sleep w t : no_sleep (tasks w) (tasks (wake_task w t)).
Proof.
  split; [intros t'; apply wake_task_alive|]. intros t' k Hk Hw.
  assert (t' <> t). { intros ->. apply (wake_task_awake w t). by exists k. }
  unfold wake_task in Hk. destruct (tasks w !! t); [|done]. cbn in Hk. by rewrite lookup_insert_ne in Hk.
Qed.

Lemma wake_next_ok v t t' ts :
  vinv v -> v_duty v t = Wakes (t' :: ts) ->
  vinv (v_owe t (Wakes ts) (v_states (tasks (wake_task (v_world v 0) t')) v)).
Proof.
  intros Hinv Ht. pose proof (states_ok _ _ Hinv (wake_task_no_sleep (v_world v 0) t')) as [Hreg Hq].
  split; [|exact Hq]. intros t0 r Hr. destruct (Hreg _ _ Hr) as [Hal Hor]. split; [exact Hal|].
  destruct Hor as [(?&?&?&Hd)|(?&Hw)]; [left|right].
  - split_and!; try done. intros Hc. destruct (Hd Hc) as [|(k & Hk)]; [by left|right]. exists k. cbn in *.
    rewrite fn_lookup_insert_ne; [done|congruence].
  - split; [done|]. intros Ha. destruct (decide (t0 = t')) as [->|Hne]; [by apply (wake_task_awake (v_world v 0)) in Ha|].
    destruct (Hw Ha) as (k & l & Hk & Hin). cbn in Hk. destruct (decide (k = t)) as [->|].
    + exists t, ts. cbn. rewrite fn_lookup_insert. rewrite Ht in Hk. simplify_eq. set_solver.
    + exists k, l. cbn. by rewrite fn_lookup_insert_ne.
Qed.

(** What draining a queue does to a task that is registered. *)
Lemma drain_reg v t q w ts t' r :
  vinv v -> v_duty v t = Drains q -> drain (v_world v q) = (w, ts) -> v_reg v t' = Some r ->
  reg_ok (v_owe t (Wakes ts) (v_put q w v)) t' r
  /\ (r_queue r <> q -> entries w !! r_entry r = v_entries v !! r_entry r)
  /\ (r_queue r = q -> v_entries v !! r_entry r = Some (mk_entry t' ENTRY_WAITING) -> t' ∈ ts).
Proof.
  intros Hinv Ht Hd Hr. pose proof Hinv as [Hreg Hq]. unfold drain in Hd. set (v' := v_owe _ _ _).
  assert (Hwd : forall t0, wake_due v t0 -> wake_due v' t0).
  { intros t0 (k & l & Hk & Hin). exists k, l. cbn. rewrite fn_lookup_insert_ne; [done|congruence]. }
  assert (Hts : tasks w = v_tasks v /\ forall st, v_entries v !! r_entry r = Some (mk_entry t' st) -> is_Some (v_tasks v !! t') ->
    (st = ENTRY_WAITING -> r_entry r ∈ v_queue v q -> entries w !! r_entry r = Some (mk_entry t' ENTRY_WOKEN) /\ t' ∈ ts)
    /\ (r_entry r ∉ v_queue v q \/ st <> ENTRY_WAITING -> entries w !! r_entry r = Some (mk_entry t' st))).
  { pose proof (fun st => drain_loop_spec (v_queue v q) (set_queue [] (v_world v q)) (r_entry r) t' st) as Hspec.
    change (waiters (v_world v q)) with (v_queue v q) in Hd. rewrite Hd in Hspec. cbn [fst snd] in Hspec.
    destruct (Hreg _ _ Hr) as [Hal Hor]. split; [|by intros st He Ha; destruct (Hspec st He Ha) as (_ & _ & ? & ?)].
    destruct Hor as [(He & _)|(He & _)]; by destruct (Hspec _ He Hal) as (_ & ? & _). }
  destruct Hts as [Hts Hspec]. assert (Has : asleep (v_world v' 0) t' -> asleep (v_world v 0) t') by (unfold asleep; cbn; by rewrite Hts).
  pose proof (Hreg _ _ Hr) as Hok. pose proof Hok as [Hal [(Hen & Hin & Hat & Hb)|(Hen & Hw)]]; destruct (Hspec _ Hen Hal) as [H3 H4].
  - destruct (decide (r_queue r = q)) as [<-|Hne].
    + destruct (H3 eq_refl Hin) as [He Hi]. split_and!; [|done|done]. split; [cbn; by rewrite Hts|]. right. split; [done|].
      intros _. exists t, ts. cbn. by rewrite fn_lookup_insert.
    + assert (Hni : r_entry r ∉ v_queue v q).
      { intros (t1 & r1 & Hr1 & ? & ? & _)%Hq. assert (t1 = t') as -> by (by eapply reg_inj). congruence. }
      specialize (H4 (or_introl Hni)). split_and!; [|congruence|done]. apply (reg_frame v); [done|..]; try done.
      * intros _. cbn. by rewrite Hts.
      * intros x Hx. cbn. congruence.
      * intros _ _. cbn. rewrite fn_lookup_insert_ne by done. split_and!; try done. by left.
      * intros (k & Hk). exists k. cbn. rewrite fn_lookup_insert_ne; [done|congruence].
      * apply Hwd.
  - assert (Hx : ENTRY_WOKEN <> ENTRY_WAITING) by done. specialize (H4 (or_intror Hx)).
    split_and!; [|congruence|congruence]. split; [cbn; by rewrite Hts|]. right. split; [done|]. auto.
Qed.

Lemma drain_ok v t q w ts :
  vinv v -> v_duty v t = Drains q -> drain (v_world v q) = (w, ts) -> vinv (v_owe t (Wakes ts) (v_put q w v)).
Proof.
  intros Hinv Ht Hd. pose proof Hinv as [_ Hq]. split; [intros t' r Hr; by eapply (drain_reg v t q w ts t' r)|].
  intros q' e Hin. cbn in Hin. destruct (decide (q' = q)) as [->|Hne].
  - rewrite fn_lookup_insert in Hin. pose proof (drain_loop_queue (v_queue v q) (set_queue [] (v_world v q))) as Hw.
    unfold drain in Hd. change (waiters (v_world v q)) with (v_queue v q) in Hd. rewrite Hd in Hw. cbn in Hw.
    rewrite Hw in Hin. by apply elem_of_nil in Hin.
  - rewrite fn_lookup_insert_ne in Hin by done. destruct (Hq _ _ Hin) as (t' & r & Hr & Hrq & Hre & Hen). exists t', r.
    destruct (drain_reg v t q w ts t' r Hinv Ht Hd Hr) as (_ & He & _). cbn. rewrite <- Hre, He; by subst.
Qed.

Lemma vstep_inv v v' : vinv v -> vstep v v' -> vinv v'.
Proof.
  intros Hinv []; eauto using commit_ok, enter_ok, leave_ok, change_ok, drain_ok, wake_next_ok, done_ok, states_ok.
Qed.

(** ** Steps up to equivalence *)

Ltac pointwise :=
  split_and!; try done; intros i; cbn;
  match goal with
  | |- <[?t := _]> _ ?i = _ =>
      destruct (decide (i = t)) as [->|]; [by rewrite ?fn_lookup_insert|by rewrite ?fn_lookup_insert_ne]
  end.

#[export] Instance v_put_proper q : Proper ((=) ==> (≡) ==> (≡@{view C})) (v_put q).
Proof. intros w ? <- v v' (?&?&?&?&?&?&?). pointwise. Qed.
#[export] Instance v_register_proper t o : Proper ((≡) ==> (≡@{view C})) (v_register t o).
Proof. intros v v' (?&?&?&?&?&?&?). pointwise. Qed.
#[export] Instance v_owe_proper t d : Proper ((≡) ==> (≡@{view C})) (v_owe t d).
Proof. intros v v' (?&?&?&?&?&?&?). pointwise. Qed.
#[export] Instance v_states_proper : Proper ((=) ==> (≡) ==> (≡@{view C})) v_states.
Proof. by intros ts ? <- v v' (?&?&?&?&?&?&?). Qed.
#[export] Instance v_conditions_proper att blk : Proper ((≡) ==> (≡@{view C})) (v_conditions att blk).
Proof. by intros v v' (?&?&?&?&?&?&?). Qed.

#[export] Instance v_world_proper : Proper ((≡) ==> (=) ==> (=)) v_world.
Proof. intros v v' (Hq & He & Ht & _) q ? <-. unfold v_world. by rewrite Hq, He, Ht. Qed.

Lemma vstep_equiv v v' u : v ≡ v' -> vstep v u -> exists u', vstep v' u' /\ u ≡ u'.
Proof.
  intros Heq Hs. pose proof Heq as (Hq&He&Ht&Hr&Hd&Ha&Hb).
  destruct Hs as [t r b Hr1 Hb1|t c q s w e Hr1 Hal Ha1 Hp|t r Hr1|t att blk d Hd1 Hc|t q w ts Hd1 Hdr|t t' ts Hd1|t Hd1|ts Hn];
    eexists; (split; [|by rewrite Heq]).
  - apply vs_commit; [by rewrite <- Hr|]. by rewrite <- Ha, <- Hb.
  - apply (vs_enter _ t c q s); [by rewrite <- Hr|by rewrite <- Ht|by rewrite <- Ha|by rewrite <- Heq].
  - apply vs_leave. by rewrite <- Hr.
  - apply vs_change; [by rewrite <- Hd|]. intros c q. rewrite <- Hq, <- Ha, <- Hb. apply Hc.
  - apply vs_drain; [by rewrite <- Hd|by rewrite <- Heq].
  - apply vs_wake. by rewrite <- Hd.
  - apply vs_done. by rewrite <- Hd.
  - apply vs_states. by rewrite <- Ht.
Qed.

Lemma register_same v t o : v_reg v t = o -> v_register t o v ≡ v.
Proof. intros <-. pointwise. Qed.
Lemma owe_same v t d : v_duty v t = d -> v_owe t d v ≡ v.
Proof. intros <-. pointwise. Qed.

(** Any number of steps. *)
Definition vsteps v v' : Prop := exists u, rtc vstep v u /\ u ≡ v'.

Lemma vsteps_inv v v' : vinv v -> vsteps v v' -> vinv v'.
Proof. intros Hinv (u & Hr & <-). induction Hr; eauto using vstep_inv. Qed.

Lemma vsteps_refl v v' : v ≡ v' -> vsteps v v'.
Proof. intros Heq. exists v. by split; [constructor|]. Qed.

Lemma vsteps_l v u v' : vstep v u -> vsteps u v' -> vsteps v v'.
Proof. intros Hs (x & Hr & Heq). exists x. split; [by eapply rtc_l|done]. Qed.

Lemma vsteps_once v u v' : vstep v u -> u ≡ v' -> vsteps v v'.
Proof. intros Hs Heq. eapply vsteps_l; [exact Hs|by apply vsteps_refl]. Qed.

Lemma vsteps_equiv v v' u : v ≡ v' -> vsteps v u -> vsteps v' u.
Proof.
  intros Heq (x & Hr & Hx). revert v' Heq. induction Hr as [v|v v1 x Hs _ IH]; intros v' Heq.
  - apply vsteps_refl. by rewrite <- Heq.
  - destruct (vstep_equiv v v' v1 Heq Hs) as (v1' & Hs' & Heq'). by eapply vsteps_l; [exact Hs'|apply IH].
Qed.

#[export] Instance vsteps_proper : Proper ((≡) ==> (≡) ==> iff) vsteps.
Proof.
  assert (Hgo : forall v v' u u', v ≡ v' -> u ≡ u' -> vsteps v u -> vsteps v' u').
  { intros v v' u u' Hv Hu Hs. apply (vsteps_equiv v v' u' Hv). destruct Hs as (x & ? & Hx). exists x. by rewrite <- Hu. }
  intros v v' Hv u u' Hu. split; [by apply Hgo|by apply Hgo; symmetry].
Qed.

End protocol.

(** ** States of tasks *)

(** The state of one task changes, not into sleep. *)
Lemma set_task_no_sleep ts (t : nat) (k : Task) : is_wait (state k) = false -> no_sleep ts (<[t := k]> ts).
Proof.
  intros Hn. split.
  - intros t' Ht'. destruct (decide (t' = t)) as [->|]; [by rewrite lookup_insert_eq|by rewrite lookup_insert_ne].
  - intros t' k0 Hk0 Hw. destruct (decide (t' = t)) as [->|]; [|by rewrite lookup_insert_ne in Hk0].
    rewrite lookup_insert_eq in Hk0. simplify_eq. congruence.
Qed.

Lemma finish_no_sleep w e : no_sleep (tasks w) (tasks (finish_transition true w e)).
Proof.
  unfold finish_transition. destruct (task_of w e) as [t|]; [|done]. destruct (tasks w !! t) as [k|] eqn:Ek; [|done].
  apply set_task_no_sleep. by destruct k as [[] []].
Qed.

(** Only the states of tasks change. *)
Lemma finish_world w e :
  finish_transition true w e = mk_world (waiters w) (entries w) (tasks (finish_transition true w e)).
Proof. unfold finish_transition. repeat case_match; try done; by destruct w. Qed.

Lemma wake_world w t : wake_task w t = mk_world (waiters w) (entries w) (tasks (wake_task w t)).
Proof. unfold wake_task. repeat case_match; try done; by destruct w. Qed.

(** Queues kept in a list, one of which is replaced. *)
Lemma queues_put (qs : list (list nat)) q l q' :
  (q < length qs)%nat \/ l = [] ->
  default [] (<[q := l]> qs !! q') = (<[q := l]> (fun q => default [] (qs !! q))) q'.
Proof.
  intros H. destruct (decide (q' = q)) as [->|]; [rewrite fn_lookup_insert|by rewrite fn_lookup_insert_ne, list_lookup_insert_ne].
  destruct (decide (q < length qs)%nat); [by rewrite list_lookup_insert_eq|].
  destruct H as [?| ->]; [lia|]. rewrite lookup_ge_None_2; [done|]. rewrite length_insert. lia.
Qed.

Lemma new_queues (qs : list (list nat)) n q : default [] ((qs ++ replicate n []) !! q) = default [] (qs !! q).
Proof.
  destruct (decide (q < length qs)%nat); [by rewrite lookup_app_l|].
  rewrite lookup_app_r, (lookup_ge_None_2 qs) by lia. destruct (replicate n [] !! _) eqn:E; [|done].
  by apply lookup_replicate in E as [-> _].
Qed.

Lemma drain_queue w : waiters (drain w).1 = [].
Proof. unfold drain. by rewrite drain_loop_queue. Qed.

(** ** Systems made of a list of queues and points of tasks *)

(** The view of a system whose tasks are at points, each of which tells what the
    task is registered for and what it owes. *)
Section shell.
Context {P C : Type} (reg_of : P -> option (registration C)) (duty_of : P -> duty).
Implicit Types (qs : list (list nat)) (es : list WaitQueueEntry) (ts : gmap nat Task) (pcs : nat -> P) (p : P).
Implicit Types (att blk : C -> nat -> Prop).

Definition shell qs es ts pcs att blk : view C :=
  mk_view (fun q => default [] (qs !! q)) es ts (fun t => reg_of (pcs t)) (fun t => duty_of (pcs t)) att blk.
Definition shell_world qs es ts (q : nat) : world := mk_world (default [] (qs !! q)) es ts.

Lemma shell_goto qs es ts pcs att blk t p :
  shell qs es ts (<[t := p]> pcs) att blk ≡ v_register t (reg_of p) (v_owe t (duty_of p) (shell qs es ts pcs att blk)).
Proof.
  split_and!; try done; intros t'; cbn; (destruct (decide (t' = t)) as [->|];
    [by rewrite !fn_lookup_insert|by rewrite !fn_lookup_insert_ne]).
Qed.

Lemma shell_put qs es ts pcs att blk q w :
  (q < length qs)%nat \/ waiters w = [] ->
  shell (<[q := waiters w]> qs) (entries w) (tasks w) pcs att blk ≡ v_put q w (shell qs es ts pcs att blk).
Proof. intros H. split_and!; try done. intros q'. by apply queues_put. Qed.

(** A task moves on, and its condition may be settled by the way. *)
Lemma shell_moves qs es ts pcs att blk t p :
  duty_of p = duty_of (pcs t) ->
  (reg_of p = reg_of (pcs t) \/ exists r b, reg_of (pcs t) = Some r /\ reg_of p = Some (commit b r)
     /\ (b = true -> r_committed r = false -> att (r_for r) (r_queue r) -> blk (r_for r) (r_queue r))) ->
  vsteps (shell qs es ts pcs att blk) (shell qs es ts (<[t := p]> pcs) att blk).
Proof.
  intros Hd Hr. rewrite shell_goto, (owe_same _ t) by (by rewrite Hd). destruct Hr as [Hr|(r & b & Hr & -> & Hb)].
  - apply vsteps_refl. by rewrite (register_same _ t) by (by rewrite Hr).
  - eapply vsteps_once; [|reflexivity]. by apply vs_commit.
Qed.

(** A task changes conditions; the queues may grow. *)
Lemma shell_change qs qs' es ts pcs att blk att' blk' t p :
  duty_of (pcs t) = Nothing \/ duty_of (pcs t) = duty_of p -> reg_of p = reg_of (pcs t) ->
  (forall q, default [] (qs' !! q) = default [] (qs !! q)) ->
  (forall c q, default [] (qs !! q) <> [] -> att c q -> att' c q /\ (blk c q -> blk' c q \/ duty_of p = Drains q)) ->
  vsteps (shell qs es ts pcs att blk) (shell qs' es ts (<[t := p]> pcs) att' blk').
Proof.
  intros Hd Hr Hq Hc. eapply vsteps_once; [by apply (vs_change _ t att' blk' (duty_of p))|].
  rewrite shell_goto, (register_same _ t) by (cbn; by rewrite Hr). split_and!; try done. intros q. cbn. by rewrite Hq.
Qed.

Lemma shell_grow qs qs' es ts pcs att blk att' blk' :
  (forall q, default [] (qs' !! q) = default [] (qs !! q)) ->
  (forall c q, att c q -> att' c q /\ (blk c q -> blk' c q)) ->
  vsteps (shell qs es ts pcs att blk) (shell qs' es ts pcs att' blk').
Proof.
  intros Hq Hc. eapply vsteps_once; [apply (vs_change _ 0 att' blk' (duty_of (pcs 0%nat)))|].
  - by right.
  - intros c q _ Ha. destruct (Hc c q Ha). auto.
  - rewrite (owe_same _ 0) by done. split_and!; try done. intros q. cbn. by rewrite Hq.
Qed.

Lemma shell_enter qs es ts pcs att blk t p c q st w e :
  prepare_to_wait (shell_world qs es ts q) t st = (w, e) ->
  (q < length qs)%nat -> is_Some (ts !! t) -> att c q -> reg_of (pcs t) = None -> duty_of p = duty_of (pcs t) ->
  reg_of p = Some (mk_reg c q e false) ->
  vsteps (shell qs es ts pcs att blk) (shell (<[q := waiters w]> qs) (entries w) (tasks w) (<[t := p]> pcs) att blk).
Proof.
  intros Hp Hq Hal Hat Hr Hd Hrp. rewrite shell_goto, shell_put by (by left).
  rewrite (owe_same _ t) by (cbn; by rewrite Hd). rewrite Hrp.
  eapply vsteps_once; [by apply (vs_enter _ t c q st w e)|done].
Qed.

Lemma shell_leave qs es ts pcs att blk t p r :
  reg_of (pcs t) = Some r -> (r_queue r < length qs)%nat \/ default [] (qs !! r_queue r) = [] ->
  reg_of p = None -> duty_of p = duty_of (pcs t) ->
  let w := finish_entry (shell_world qs es ts (r_queue r)) (r_entry r) in
  vsteps (shell qs es ts pcs att blk) (shell (<[r_queue r := waiters w]> qs) (entries w) (tasks w) (<[t := p]> pcs) att blk).
Proof.
  intros Hr Hq Hrp Hd w. rewrite shell_goto, shell_put; [|destruct Hq as [?|E]; [by left|right; cbn; by rewrite E]].
  rewrite (owe_same _ t) by (cbn; by rewrite Hd). rewrite Hrp.
  eapply vsteps_once; [by apply (vs_leave _ t r)|done].
Qed.

Lemma shell_tasks qs es ts ts' pcs att blk t p :
  no_sleep ts ts' -> reg_of p = reg_of (pcs t) -> duty_of p = duty_of (pcs t) ->
  vsteps (shell qs es ts pcs att blk) (shell qs es ts' (<[t := p]> pcs) att blk).
Proof.
  intros Hts Hr Hd. rewrite shell_goto, (register_same _ t), (owe_same _ t) by (cbn; congruence).
  eapply vsteps_once; [by apply (vs_states (shell qs es ts pcs att blk) ts')|done].
Qed.

Lemma shell_drain_view qs es ts pcs att blk t p q w tl :
  drain (shell_world qs es ts q) = (w, tl) -> reg_of p = reg_of (pcs t) -> duty_of p = Wakes tl ->
  shell (<[q := waiters w]> qs) (entries w) (tasks w) (<[t := p]> pcs) att blk
  ≡ v_owe t (Wakes tl) (v_put q w (shell qs es ts pcs att blk)).
Proof.
  intros Hd Hr Hp. pose proof (drain_queue (shell_world qs es ts q)) as Hw. rewrite Hd in Hw.
  rewrite shell_goto, shell_put by (by right). rewrite Hp, Hr. by rewrite (register_same _ t).
Qed.

Lemma shell_drain qs es ts pcs att blk t p q w tl :
  drain (shell_world qs es ts q) = (w, tl) -> duty_of (pcs t) = Drains q -> reg_of p = reg_of (pcs t) ->
  duty_of p = Wakes tl ->
  vsteps (shell qs es ts pcs att blk) (shell (<[q := waiters w]> qs) (entries w) (tasks w) (<[t := p]> pcs) att blk).
Proof.
  intros Hd Ht Hr Hp. eapply vsteps_once; [by apply (vs_drain _ t q w tl)|]. symmetry. by apply shell_drain_view.
Qed.

Lemma shell_wake_view qs es ts pcs att blk t p t' tl :
  reg_of p = reg_of (pcs t) -> duty_of p = Wakes tl ->
  let ts' := tasks (wake_task (shell_world qs es ts 0) t') in
  shell qs es ts' (<[t := p]> pcs) att blk ≡ v_owe t (Wakes tl) (v_states ts' (shell qs es ts pcs att blk)).
Proof. intros Hr Hp ts'. rewrite shell_goto, Hr, Hp. by rewrite (register_same _ t). Qed.

Lemma shell_wake qs es ts pcs att blk t p t' tl :
  duty_of (pcs t) = Wakes (t' :: tl) -> reg_of p = reg_of (pcs t) -> duty_of p = Wakes tl ->
  vsteps (shell qs es ts pcs att blk)
    (shell qs es (tasks (wake_task (shell_world qs es ts 0) t')) (<[t := p]> pcs) att blk).
Proof.
  intros Hd Hr Hp. eapply vsteps_once; [by apply (vs_wake _ t t' tl)|]. symmetry. by apply shell_wake_view.
Qed.

(** A task that has woken everybody may go on to drain another queue. *)
Lemma shell_done qs es ts pcs att blk t p :
  duty_of (pcs t) = Wakes [] -> reg_of p = reg_of (pcs t) ->
  vsteps (shell qs es ts pcs att blk) (shell qs es ts (<[t := p]> pcs) att blk).
Proof.
  intros Hd Hr. eapply vsteps_l; [by apply (vs_done _ t)|].
  eapply vsteps_once; [apply (vs_change _ t att blk (duty_of p))|].
  - left. cbn. by rewrite fn_lookup_insert.
  - auto.
  - rewrite shell_goto, (register_same _ t) by (cbn; by rewrite Hr). split_and!; try done. intros t'. cbn.
    destruct (decide (t' = t)) as [->|]; [by rewrite !fn_lookup_insert|by rewrite !fn_lookup_insert_ne].
Qed.
End shell.

(** ** Subsystems that wait *)

(** A system of tasks that follows the protocol: the points its tasks are at, its
    view, its steps and those among them that carry out a wake-up that is owed.
    The steps are steps of the protocol; a wake-up that is owed can be carried out,
    perhaps after other steps of the task that owes it, and does not move the tasks
    that sleep. *)
Class Waiting (Sys P C : Type) : Type := {
  w_at : Sys -> nat -> P;
  w_view : Sys -> view C;
  w_boot : Sys -> Prop;
  w_move : Sys -> Sys -> Prop;
  w_waker : Sys -> Sys -> Prop;
  w_good : Sys -> Prop;
  w_boot_good s : w_boot s -> w_good s /\ vinv (w_view s);
  w_sim s s' : w_good s -> vinv (w_view s) -> w_move s s' ->
    w_good s' /\ vsteps (w_view s) (w_view s');
  w_waker_move s s' : w_waker s s' -> w_move s s';
  w_waker_at s s' t r :
    w_waker s s' -> v_reg (w_view s) t = Some r -> r_committed r = true ->
    w_at s' t = w_at s t /\ v_reg (w_view s') t = Some r;
  w_drain s k q :
    w_good s -> v_duty (w_view s) k = Drains q ->
    exists s1 s', rtc w_waker s s1 /\ w_waker s1 s' /\ v_duty (w_view s1) k = Drains q
      /\ let '(w, ts) := drain (v_world (w_view s1) q) in w_view s' ≡ v_owe k (Wakes ts) (v_put q w (w_view s1));
  w_wake s k t' ts :
    v_duty (w_view s) k = Wakes (t' :: ts) ->
    exists s', w_waker s s'
      /\ w_view s' ≡ v_owe k (Wakes ts) (v_states (tasks (wake_task (v_world (w_view s) 0) t')) (w_view s))
}.

Section waiting.
Context {Sys P C : Type} {W : Waiting Sys P C}.
Implicit Types s : Sys.

Definition sleeps s (t : nat) : Prop := asleep (v_world (w_view s) 0) t.
Definition at_rest s : Prop := forall k, v_duty (w_view s) k = Nothing \/ v_duty (w_view s) k = Wakes [].

Definition sound s : Prop := w_good s /\ vinv (w_view s).

Lemma moves_sound s s' : sound s -> rtc w_move s s' -> sound s'.
Proof.
  intros Hs. induction 1 as [|a b c Hab _ IH]; [done|]. apply IH. destruct Hs as [Hg Hv].
  destruct (w_sim a b Hg Hv Hab) as [? Hvs]. split; [done|]. by eapply vsteps_inv.
Qed.

Lemma wakers_moves s s' : rtc w_waker s s' -> rtc w_move s s'.
Proof. induction 1; [done|]. eapply rtc_l; [by apply w_waker_move|done]. Qed.

Lemma wakers_at s s' t r :
  rtc w_waker s s' -> v_reg (w_view s) t = Some r -> r_committed r = true ->
  w_at s' t = w_at s t /\ v_reg (w_view s') t = Some r.
Proof.
  intros Hr Ht Hc. induction Hr as [|a b c Hab _ IH]; [done|]. destruct (w_waker_at a b t r Hab Ht Hc) as [E Hb].
  destruct (IH Hb) as [E' ?]. split; [congruence|done].
Qed.

Lemma asleep_view (v v' : view C) t : v ≡ v' -> asleep (v_world v 0) t <-> asleep (v_world v' 0) t.
Proof. intros (_ & _ & Ht & _). unfold asleep. cbn. by rewrite Ht. Qed.

(** A task in the list of one that wakes is woken. *)
Lemma wakes_until s k ts t :
  v_duty (w_view s) k = Wakes ts -> t ∈ ts -> exists s', rtc w_waker s s' /\ ~ sleeps s' t.
Proof.
  revert s. induction ts as [|t' ts IH]; intros s Hk Hin; [by apply elem_of_nil in Hin|].
  destruct (w_wake s k t' ts Hk) as (s' & Hs & Heq). destruct (decide (t = t')) as [->|Hne].
  - exists s'. split; [by apply rtc_once|]. unfold sleeps. rewrite (asleep_view _ _ _ Heq).
    apply (wake_task_awake (v_world (w_view s) 0)).
  - pose proof Heq as (_ & _ & _ & _ & Hd & _). destruct (IH s') as (s'' & ? & ?).
    + rewrite Hd. cbn. apply fn_lookup_insert.
    + set_solver.
    + exists s''. split; [by eapply rtc_l|done].
Qed.

(** A registered task has been taken out of the queue, or is once the queue is
    drained. *)
Lemma woken_until s t r :
  sound s -> v_reg (w_view s) t = Some r -> r_committed r = true ->
  drain_due (w_view s) (r_queue r) \/ wake_due (w_view s) t ->
  exists s', rtc w_waker s s' /\ ~ sleeps s' t.
Proof.
  intros Hs Hr Hc [(k & Hk)|(k & ts & Hk & Hin)]; [|by eapply wakes_until].
  destruct (w_drain s k (r_queue r)) as (s1 & s' & Hr1 & Hs1 & Hk1 & Hd); [apply Hs|done|].
  destruct (moves_sound s s1 Hs (wakers_moves _ _ Hr1)) as [_ Hinv].
  destruct (wakers_at s s1 t r Hr1 Hr Hc) as [_ Ht1].
  destruct (drain (v_world (w_view s1) (r_queue r))) as [w ts] eqn:Ed. pose proof Hd as (_ & _ & _ & _ & Hduty & _).
  destruct (drain_reg _ k _ w ts t r Hinv Hk1 Ed Ht1) as (_ & _ & Hts).
  destruct (decide (sleeps s1 t)) as [Has|]; [|by exists s1].
  destruct (vinv_reg _ Hinv t r Ht1) as [_ [(Hen & _)|(_ & Hwd)]].
  - destruct (wakes_until s' k ts t) as (s'' & ? & ?); [rewrite Hduty; cbn; apply fn_lookup_insert|by apply Hts|].
    exists s''. split; [|done]. etrans; [exact Hr1|by eapply rtc_l].
  - destruct (Hwd Has) as (k' & ts' & Hk' & Hin). destruct (wakes_until s1 k' ts' t Hk' Hin) as (s'' & ? & ?).
    exists s''. split; [by etrans|done].
Qed.

(** No wake-up is lost: a task that has decided to wait for something it need
    not wait for any more is made runnable by what is left of the wake-ups that
    are owed, without any other step; it is runnable when none is owed. *)
Lemma no_lost_wakeup s0 s t r :
  w_boot s0 -> rtc w_move s0 s -> v_reg (w_view s) t = Some r -> r_committed r = true ->
  ~ v_blocked (w_view s) (r_for r) (r_queue r) ->
  (exists s', rtc w_waker s s' /\ ~ sleeps s' t /\ w_at s' t = w_at s t) /\ (at_rest s -> ~ sleeps s t).
Proof.
  intros Hb Hm Hr Hc Hn. assert (Hs : sound s) by (eapply moves_sound; [by apply w_boot_good|done]).
  destruct (decide (sleeps s t)) as [Has|Hna]; [|by split; [exists s; split_and!; [constructor|..]|]].
  assert (Hdue : drain_due (w_view s) (r_queue r) \/ wake_due (w_view s) t).
  { destruct (vinv_reg _ (proj2 Hs) t r Hr) as [_ [(_ & _ & _ & Hd)|(_ & Hw)]]; [left; by destruct (Hd Hc)|right; auto]. }
  split.
  - destruct (woken_until s t r) as (s' & Hw & Ha); auto. exists s'. split_and!; try done. by eapply wakers_at.
  - intros Hrest. destruct Hdue as [(k & Hk)|(k & ts & Hk & Hin)]; destruct (Hrest k) as [E|E]; rewrite Hk in E; simplify_eq.
    by apply elem_of_nil in Hin.
Qed.
End waiting.
