(* ===== verification/WaitQueueProps.v ===== *)
(** * Wait queues: properties

    [wait_event] and the tasks that wake its callers, for one queue, as an
    instance of the protocol of waiting; and what [wake_one] wakes. *)

From stdpp Require Import gmap functions.
From S2P Require Import Prelude WaitQueue WaitQueueProofs.

(** ** Waiting for an event *)

(** A task in [wait_event]: it tests its condition, registers, tests again,
    sleeps, and leaves the queue to start over or to return. *)
Inductive waiter_pc : Type :=
| Check | Prepare | Recheck (e : nat) | Sleep (e : nat) | Finish (e : nat) (again : bool)
| Transition (e : nat) (again : bool) | Return.

(** A task that changes conditions: it owes the queue a [wake_all], then a
    transition to each of the tasks it took out. *)
Inductive waker_pc : Type := Idle | Drain | Wake (ts : list nat).

(** The condition of each waiting task, as the other tasks have left it. *)
Record sys : Type := mk_sys {
  shared : world;
  cond : nat -> bool;
  waiter : nat -> waiter_pc;
  waker : nat -> waker_pc
}.

Definition at_waiter (s : sys) (t : nat) (pc : waiter_pc) (w : world) : sys :=
  mk_sys w (cond s) (<[t := pc]> (waiter s)) (waker s).
Definition at_waker (s : sys) (k : nat) (pc : waker_pc) (w : world) : sys :=
  mk_sys w (cond s) (waiter s) (<[k := pc]> (waker s)).

Inductive step : sys -> sys -> Prop :=
| step_check_true s t : waiter s t = Check -> cond s t = true -> step s (at_waiter s t Return (shared s))
| step_check_false s t : waiter s t = Check -> cond s t = false -> step s (at_waiter s t Prepare (shared s))
| step_prepare s t w e :
    waiter s t = Prepare -> is_Some (tasks (shared s) !! t) ->
    prepare_to_wait (shared s) t Sleeping = (w, e) -> step s (at_waiter s t (Recheck e) w)
| step_check_prepare s t w e :
    (* the callers that test and register under a lock of their own *)
    waiter s t = Check -> cond s t = false -> is_Some (tasks (shared s) !! t) ->
    prepare_to_wait (shared s) t Sleeping = (w, e) -> step s (at_waiter s t (Recheck e) w)
| step_recheck_true s t e :
    waiter s t = Recheck e -> cond s t = true -> step s (at_waiter s t (Finish e false) (shared s))
| step_recheck_false s t e :
    waiter s t = Recheck e -> cond s t = false -> step s (at_waiter s t (Sleep e) (shared s))
| step_resume s t e :
    (* the scheduler runs a task again only when it does not sleep *)
    waiter s t = Sleep e -> ~ asleep (shared s) t -> step s (at_waiter s t (Finish e true) (shared s))
| step_finish s t e again :
    waiter s t = Finish e again -> step s (at_waiter s t (Transition e again) (finish_entry (shared s) e))
| step_transition s t e again :
    waiter s t = Transition e again ->
    step s (at_waiter s t (if again then Check else Return) (finish_transition true (shared s) e))
| step_again s t : waiter s t = Return -> step s (at_waiter s t Check (shared s))
| step_update s k c :
    (* any change of the conditions, followed by a wake-up *)
    waker s k = Idle -> step s (mk_sys (shared s) c (waiter s) (<[k := Drain]> (waker s)))
| step_weaken s c :
    (* a change that makes no condition true *)
    (forall t, c t = true -> cond s t = true) -> step s (mk_sys (shared s) c (waiter s) (waker s))
| step_drain s k w ts :
    waker s k = Drain -> drain (shared s) = (w, ts) -> step s (at_waker s k (Wake ts) w)
| step_wake s k t ts :
    waker s k = Wake (t :: ts) -> step s (at_waker s k (Wake ts) (wake_task (shared s) t))
| step_wake_done s k : waker s k = Wake [] -> step s (at_waker s k Idle (shared s))
| step_environment s t k k' :
    (* signals and the scheduler: a task changes state, but not into sleep *)
    tasks (shared s) !! t = Some k -> is_wait (state k') = false ->
    step s (mk_sys (set_task t k' (shared s)) (cond s) (waiter s) (waker s)).

Definition initial (s : sys) : Prop :=
  waiters (shared s) = [] /\ entries (shared s) = []
  /\ (forall t, waiter s t = Check) /\ (forall k, waker s k = Idle).

(** ** No lost wake-ups *)

(** What is left of [wake_all] once a condition has changed. *)
Inductive waker_step : sys -> sys -> Prop :=
| waker_drain s k w ts : waker s k = Drain -> drain (shared s) = (w, ts) -> waker_step s (at_waker s k (Wake ts) w)
| waker_wake s k t ts :
    waker s k = Wake (t :: ts) -> waker_step s (at_waker s k (Wake ts) (wake_task (shared s) t)).

(** ** The protocol *)

Definition reg_at (t : nat) (pc : waiter_pc) : option (registration nat) :=
  match pc with
  | Recheck e | Finish e _ => Some (mk_reg t 0 e false)
  | Sleep e => Some (mk_reg t 0 e true)
  | _ => None
  end.
Definition duty_at (pc : waker_pc) : duty :=
  match pc with Idle => Nothing | Drain => Drains 0 | Wake ts => Wakes ts end.

(** The one queue is number 0; a task waits for its own condition. *)
Definition sys_view (s : sys) : view nat :=
  mk_view (<[0%nat := waiters (shared s)]> (fun _ => [])) (entries (shared s)) (tasks (shared s))
    (fun t => reg_at t (waiter s t)) (fun k => duty_at (waker s k)) (fun _ q => q = 0%nat) (fun t _ => cond s t = false).

(** Equalities of views, a function at a time. *)
Ltac view_eq :=
  split_and!; try done; intros x; cbn;
  try (destruct x as [|x]; [rewrite ?fn_lookup_insert|rewrite ?fn_lookup_insert_ne by done]; done);
  match goal with
  | |- context [<[?t := _]> _ ?x] =>
      destruct (decide (x = t)) as [->|]; [rewrite ?fn_lookup_insert|rewrite ?fn_lookup_insert_ne by done]; cbn; try done; try congruence
  end.

Lemma waiter_view s t pc w : sys_view (at_waiter s t pc w) ≡ v_register t (reg_at t pc) (v_put 0 w (sys_view s)).
Proof. view_eq. Qed.

Lemma waker_view s k pc w : sys_view (at_waker s k pc w) ≡ v_owe k (duty_at pc) (v_put 0 w (sys_view s)).
Proof. view_eq. Qed.

Lemma same_view s : v_put 0 (shared s) (sys_view s) ≡ sys_view s.
Proof. view_eq. Qed.

Lemma sys_world s : v_world (sys_view s) 0 = shared s.
Proof. unfold v_world. cbn. rewrite fn_lookup_insert. by destruct (shared s). Qed.

(** A waiting task that moves on and leaves the queue as it is. *)
Lemma waiter_moves s t pc :
  (reg_at t pc = reg_at t (waiter s t))
  \/ (exists r b, reg_at t (waiter s t) = Some r /\ reg_at t pc = Some (commit b r) /\ (b = true -> cond s t = false)) ->
  vsteps (sys_view s) (sys_view (at_waiter s t pc (shared s))).
Proof.
  intros Hor. rewrite waiter_view, same_view. destruct Hor as [->|(r & b & Hr & -> & Hb)].
  - apply vsteps_refl. view_eq.
  - eapply vsteps_once; [|reflexivity]. apply vs_commit; [exact Hr|]. intros Hc _ _. cbn.
    destruct (waiter s t); simplify_eq/=; auto.
Qed.

Lemma step_vsteps s s' : step s s' -> vsteps (sys_view s) (sys_view s').
Proof.
  destruct 1 as
    [s t Hpc Hc|s t Hpc Hc|s t w e Hpc Hal Hp|s t w e Hpc Hc Hal Hp|s t e Hpc Hc|s t e Hpc Hc|s t e Hpc Ha
    |s t e again Hpc|s t e again Hpc|s t Hpc|s k c Hk|s c Hc|s k w ts Hk Hd|s k t ts Hk|s k Hk|s t k k' Hk Hn].
  - apply waiter_moves. left. by rewrite Hpc.
  - apply waiter_moves. left. by rewrite Hpc.
  - rewrite waiter_view. eapply vsteps_once; [|reflexivity].
    by apply (vs_enter _ t t 0 Sleeping w e); [cbn; by rewrite Hpc|..|rewrite sys_world].
  - rewrite waiter_view. eapply vsteps_once; [|reflexivity].
    by apply (vs_enter _ t t 0 Sleeping w e); [cbn; by rewrite Hpc|..|rewrite sys_world].
  - apply waiter_moves. left. by rewrite Hpc.
  - apply waiter_moves. right. rewrite Hpc. by exists (mk_reg t 0 e false), true.
  - apply waiter_moves. right. rewrite Hpc. by exists (mk_reg t 0 e true), false.
  - rewrite waiter_view, <- sys_world. eapply vsteps_once; [|reflexivity].
    apply (vs_leave _ t (mk_reg t 0 e false)). cbn. by rewrite Hpc.
  - eapply vsteps_once; [apply (vs_states _ (tasks (finish_transition true (shared s) e)))|]; [apply finish_no_sleep|].
    rewrite waiter_view, finish_world. cbn [tasks]. view_eq; by rewrite Hpc; destruct again.
  - apply waiter_moves. left. by rewrite Hpc.
  - eapply vsteps_once; [apply (vs_change _ k (fun _ q => q = 0%nat) (fun t _ => c t = false) (Drains 0))|];
      [left; cbn; by rewrite Hk| |view_eq]. intros t q _ ->. auto.
  - eapply vsteps_once; [apply (vs_change _ 0 (fun _ q => q = 0%nat) (fun t _ => c t = false) (duty_at (waker s 0%nat)))|];
      [by right| |view_eq]. intros t q _ ->. split; [done|]. intros Ht. left. specialize (Hc t). cbn in Ht.
    destruct (c t); [|done]. rewrite Hc in Ht; done.
  - rewrite waker_view. eapply vsteps_once; [|reflexivity]. apply vs_drain; [cbn; by rewrite Hk|by rewrite sys_world].
  - rewrite waker_view. eapply vsteps_once; [apply (vs_wake _ k t ts); cbn; by rewrite Hk|]. rewrite sys_world.
    rewrite (wake_world (shared s)). cbn [tasks]. view_eq.
  - rewrite waker_view, same_view. eapply vsteps_once; [|reflexivity]. apply vs_done. cbn. by rewrite Hk.
  - eapply vsteps_once; [apply (vs_states _ (<[t := k']> (tasks (shared s)))); by apply set_task_no_sleep|]. view_eq.
Qed.

#[export] Program Instance sys_waiting : Waiting sys waiter_pc nat := {
  w_at := waiter; w_view := sys_view; w_boot := initial; w_move := step; w_waker := waker_step;
  w_good := fun _ => True
}.
Next Obligation.
  intros s (Hw & _ & Hc & _). split; [done|]. split; cbn; [intros t r; by rewrite Hc|].
  intros q e. rewrite Hw. destruct q as [|q]; [rewrite fn_lookup_insert|rewrite fn_lookup_insert_ne by done];
    by intros ?%elem_of_nil.
Qed.
Next Obligation. intros s s' _ _ Hs. split; [done|by apply step_vsteps]. Qed.
Next Obligation. destruct 1; [by eapply step_drain|by eapply step_wake]. Qed.
Next Obligation. by intros s s' t r []. Qed.
Next Obligation.
  intros s k q _ Hk. cbn in Hk. destruct (waker s k) eqn:E; simplify_eq/=. destruct (drain (shared s)) as [w ts] eqn:Ed.
  exists s, (at_waker s k (Wake ts) w). split_and!; [done|by constructor|by rewrite E|].
  rewrite sys_world, Ed. apply waker_view.
Qed.
Next Obligation.
  intros s k t ts Hk. cbn in Hk. destruct (waker s k) eqn:E; simplify_eq/=. rewrite sys_world.
  exists (at_waker s k (Wake ts) (wake_task (shared s) t)). split; [by constructor|].
  rewrite waker_view, (wake_world (shared s)). cbn [tasks]. view_eq.
Qed.

Lemma waker_steps_waiter s s' : rtc waker_step s s' -> waiter s' = waiter s.
Proof. induction 1 as [|a b c Hab _ IH]; [done|]. rewrite IH. by destruct Hab. Qed.

(** However the steps of waiting and waking tasks interleave, with signals
    and changes of state in between, a task that sleeps in the queue while its
    condition holds is on its way to be woken: the rest of the [wake_all] of the
    tasks that changed the condition, without any other step, makes it runnable.
    In particular it is runnable when none of them has anything left to do. *)
Theorem wait_no_lost_wakeup s0 s t e :
  initial s0 -> rtc step s0 s -> waiter s t = Sleep e -> cond s t = true ->
  (exists s', rtc waker_step s s' /\ ~ asleep (shared s') t /\ waiter s' = waiter s)
  /\ ((forall k, waker s k = Idle) -> ~ asleep (shared s) t).
Proof.
  intros H0 Hr Ht Hc.
  destruct (no_lost_wakeup (W := sys_waiting) s0 s t (mk_reg t 0 e true) H0 Hr) as [(s' & Hw & Ha & _) Hidle];
    [cbn; by rewrite Ht|done|cbn; congruence|]. unfold sleeps in *. cbn [w_view sys_waiting] in *.
  rewrite sys_world in *. split; [exists s'; auto using waker_steps_waiter|].
  intros Hk. apply Hidle. intros k. left. cbn. by rewrite Hk.
Qed.

(** Task 7 goes to sleep; task 8 changes the condition and has not woken it yet. *)
Definition sys0 : sys :=
  mk_sys (mk_world [] [] {[7%nat := mk_task Running false]}) (fun _ => false) (fun _ => Check) (fun _ => Idle).
Definition slept : world := (prepare_to_wait (shared sys0) 7 Sleeping).1.
Definition sys1 : sys := at_waiter (at_waiter sys0 7 (Recheck 0) slept) 7 (Sleep 0) slept.
Definition sys2 : sys := mk_sys slept (fun _ => true) (waiter sys1) (<[8%nat := Drain]> (waker sys1)).

Lemma sys2_reachable : rtc step sys0 sys2.
Proof.
  eapply rtc_l; [apply (step_check_prepare sys0 7 slept 0); try done; by vm_compute|].
  eapply rtc_l; [apply (step_recheck_false (at_waiter sys0 7 (Recheck 0) slept) 7 0); done|].
  apply rtc_once, (step_update sys1 8). done.
Qed.

Lemma wait_no_lost_wakeup_witness :
  asleep (shared sys2) 7
  /\ (exists s', rtc waker_step sys2 s' /\ ~ asleep (shared s') 7 /\ waiter s' = waiter sys2)
  /\ ((forall k, waker sys2 k = Idle) -> ~ asleep (shared sys2) 7).
Proof.
  split; [by exists (mk_task Sleeping false); vm_compute|].
  apply (wait_no_lost_wakeup sys0 sys2 7 0); [|exact sys2_reachable|reflexivity|reflexivity].
  split_and!; done.
Defined.

(** ** Waking one task *)

(** An entry that still waits and whose task is alive and asleep. *)
Definition ready (w : world) (e : nat) : Prop :=
  is_waiting w e = true /\ exists t, task_of w e = Some t /\ asleep w t.

Lemma ready_queue w q e : ready (set_queue q w) e <-> ready w e.
Proof. done. Qed.

Lemma wake_one_loop_spec n w q1 q2 :
  waiters w = q1 ++ q2 -> length q1 = n ->
  match wake_one_loop n w with
  | (w', Some t) =>
      exists l e l', q1 = l ++ e :: l' /\ Forall (fun e => ~ ready w e) l /\ ready w e
        /\ task_of w e = Some t /\ tasks w' = tasks w /\ entries w' = entries (set_entry e ENTRY_WOKEN w)
  | (w', None) => Forall (fun e => ~ ready w e) q1 /\ tasks w' = tasks w /\ entries w' = entries w
  end.
Proof.
  revert n w q2. induction q1 as [|e q1 IH]; intros n w q2 Hq <-; [done|].
  cbn [length wake_one_loop]. rewrite Hq. cbn [app].
  assert (Hskip : forall q2', ~ ready w e ->
    match wake_one_loop (length q1) (set_queue (q1 ++ q2') w) with
    | (w', Some t) =>
        exists l e0 l', e :: q1 = l ++ e0 :: l' /\ Forall (fun e => ~ ready w e) l /\ ready w e0
          /\ task_of w e0 = Some t /\ tasks w' = tasks w /\ entries w' = entries (set_entry e0 ENTRY_WOKEN w)
    | (w', None) => Forall (fun e => ~ ready w e) (e :: q1) /\ tasks w' = tasks w /\ entries w' = entries w
    end).
  { intros q2' Hn. pose proof (IH (length q1) (set_queue (q1 ++ q2') w) q2' eq_refl eq_refl) as H.
    destruct (wake_one_loop _ _) as [w' [t|]].
    - destruct H as (l & e0 & l' & -> & Hl & Hr). exists (e :: l), e0, l'.
      split; [done|]. split; [by constructor|]. exact Hr.
    - destruct H as (Hl & Hr). split; [by constructor|exact Hr]. }
  change (task_of (set_queue (q1 ++ q2) w) e) with (task_of w e).
  change (tasks (set_queue (q1 ++ q2) w)) with (tasks w).
  destruct (task_of w e) as [t|] eqn:Et; [|apply Hskip; intros (_ & ? & ? & _); congruence].
  destruct (tasks w !! t) as [k|] eqn:Ek; [|apply Hskip; intros (_ & t' & ? & k & ? & _); congruence].
  destruct (is_wait (state k)) eqn:Ew; cbn [negb].
  2: { change (set_queue ((q1 ++ q2) ++ [e]) (set_queue (q1 ++ q2) w)) with (set_queue ((q1 ++ q2) ++ [e]) w).
       rewrite <- (assoc_L (++)). apply Hskip. intros (_ & t' & ? & k' & ? & ?). congruence. }
  unfold mark_woken. change (is_waiting (set_queue (q1 ++ q2) w) e) with (is_waiting w e).
  destruct (is_waiting w e) eqn:Ei; [|apply Hskip; intros [? _]; congruence].
  exists [], e, q1. split_and!; try done. split; [done|]. exists t. split; [done|]. by exists k.
Qed.

(** [wake_one] wakes a task exactly when an entry of the queue still waits for
    a live task that sleeps.  It is the first such entry; its task is made
    runnable, the entry is marked, and no other task is touched. *)
Theorem wake_one_exact w :
  match wake_one w with
  | (w', Some t) =>
      exists l e l', waiters w = l ++ e :: l' /\ Forall (fun e => ~ ready w e) l /\ ready w e
        /\ task_of w e = Some t /\ ~ asleep w' t /\ is_waiting w' e = false
        /\ forall t', t' <> t -> tasks w' !! t' = tasks w !! t'
  | (w', None) => Forall (fun e => ~ ready w e) (waiters w) /\ tasks w' = tasks w /\ entries w' = entries w
  end.
Proof.
  unfold wake_one. pose proof (wake_one_loop_spec (length (waiters w)) w (waiters w) []) as H.
  destruct (wake_one_loop _ w) as [w1 [t|]]; [|by apply H; [rewrite app_nil_r|]].
  destruct H as (l & e & l' & Hq & Hl & Hr & Ht & Hts & Hen); [by rewrite app_nil_r|done|].
  exists l, e, l'. split_and!; try done; [apply wake_task_awake| |].
  - unfold is_waiting. destruct (wake_task_queue w1 t) as [_ ->]. rewrite Hen. cbn [entries set_entry].
    rewrite list_lookup_alter_eq. by destruct (entries w !! e).
  - intros t' Hne. unfold wake_task. destruct (tasks w1 !! t) eqn:E; [|by rewrite Hts].
    cbn [tasks set_task]. by rewrite lookup_insert_ne, Hts by done.
Qed.
