(* ===== verification/SetlkWait.v ===== *)
(** * Record locks: waiting for a lock

    The whole of [setlk_inner] of [libs/vfs/src/record_lock.rs], with the loop
    around its critical sections, and of the closing path, over the wait queues
    of [libs/sched/src/wait.rs]: many tasks take, wait for and drop locks, cut at
    the points where a lock is let go. *)

From stdpp Require Import gmap functions.
From S2P Require Import Prelude RecordLock RecordLockProofs RecordLockProps.
From S2P Require Import WaitQueue WaitQueueProofs.

(** A call of [setlk_inner], and how it goes on after a wait. *)
Record call : Type := mk_call { c_key : LockKey; c_owner : RecordOwner; c_req : RecordLockRequest; c_wait : bool }.

Inductive error : Type := EDEADLK | EINTR.
Inductive after : Type := Retry | Fail (e : error).

(** Where a task is: outside, before its first critical section, owing a queue a
    [wake_all], making tasks runnable, registered and before its second critical
    section, before the test for signals, in [schedule_once], and leaving the
    queue in three parts: the entry, the state of the task, the pending table. *)
Inductive pc : Type :=
| Out
| Attempt (c : call)
| WakeUp (q : nat)
| Waking (ts : list nat)
| Recheck (c : call) (q e : nat)
| Signals (c : call) (q e : nat)
| Asleep (c : call) (q e : nat)
| Leave (c : call) (q e : nat) (a : after)
| LeaveTask (c : call) (e : nat) (a : after)
| Forget (c : call) (a : after).

(** The tables, the queues that were ever made, their entries, the tasks and
    where each of them is. *)
Record system : Type := mk_system {
  table : lock_table;
  pending : pending_table;
  queues : list (list nat);
  all_entries : list WaitQueueEntry;
  all_tasks : gmap nat Task;
  at_pc : nat -> pc
}.

Definition queue (s : system) (q : nat) : list nat := default [] (queues s !! q).
Definition len_of (s : system) (q : nat) : nat := length (queue s q).

(** The world of one queue, and its operations on the system. *)
Definition world_of (s : system) (q : nat) : world := mk_world (queue s q) (all_entries s) (all_tasks s).
Definition put_world (s : system) (q : nat) (w : world) : system :=
  mk_system (table s) (pending s) (<[q := waiters w]> (queues s)) (entries w) (tasks w) (at_pc s).
Definition goto (t : nat) (p : pc) (s : system) : system :=
  mk_system (table s) (pending s) (queues s) (all_entries s) (all_tasks s) (<[t := p]> (at_pc s)).

(** A file that has no queue gets a new one. *)
Definition with_queue (s : system) (key : LockKey) : list (list nat) :=
  match table s !! key with Some _ => queues s | None => queues s ++ [[]] end.

(** The first critical section, with what follows it in the same one. *)
Definition do_attempt (s : system) (t : nat) (c : call) : system :=
  let '(tb, pd, a) := setlk_attempt (len_of s) (length (queues s)) (table s) (pending s)
                        (c_key c) (c_owner c) (c_req c) (c_wait c) in
  let s := mk_system tb pd (with_queue s (c_key c)) (all_entries s) (all_tasks s) (at_pc s) in
  match a with
  | Granted (Some q) => goto t (WakeUp q) s
  | Granted None | Again => goto t Out s
  | Queued q =>
      let '(w, e) := prepare_to_wait (world_of s q) t Sleeping in
      goto t (Recheck c q e) (put_world s q w)
  end.

(** The second one. *)
Definition do_recheck (s : system) (t : nat) (c : call) (q e : nat) : option system :=
  '((retry, deadlock) : bool * bool) ← setlk_recheck (table s) (pending s) (c_key c) (c_owner c) (c_req c);
  Some (goto t (if retry : bool then Leave c q e Retry
                else if deadlock : bool then Leave c q e (Fail EDEADLK)
                else Signals c q e) s).

Definition do_leave (s : system) (t : nat) (c : call) (q e : nat) (a : after) : system :=
  goto t (LeaveTask c e a) (put_world s q (finish_entry (world_of s q) e)).

Definition do_leave_task (s : system) (t : nat) (c : call) (e : nat) (a : after) : system :=
  let w := finish_transition true (world_of s 0) e in
  goto t (Forget c a) (mk_system (table s) (pending s) (queues s) (all_entries s) (tasks w) (at_pc s)).

Definition do_forget (s : system) (t : nat) (c : call) (a : after) : system :=
  goto t (match a with Retry => Attempt c | Fail _ => Out end)
    (mk_system (table s) (delete (c_owner c) (pending s)) (queues s) (all_entries s) (all_tasks s) (at_pc s)).

Definition do_drain (s : system) (t : nat) (q : nat) : system :=
  let '(w, ts) := drain (world_of s q) in goto t (Waking ts) (put_world s q w).

Definition do_wake (s : system) (t : nat) (t' : nat) (ts : list nat) : system :=
  let w := wake_task (world_of s 0) t' in
  goto t (Waking ts) (mk_system (table s) (pending s) (queues s) (all_entries s) (tasks w) (at_pc s)).

Definition do_close (s : system) (t : nat) (key : LockKey) (pid ptr : Z) (last : bool) : system :=
  let '(tb, wake) := release_process_locks_for_file (len_of s) (table s) key pid ptr last in
  goto t (match wake with Some q => WakeUp q | None => Out end)
    (mk_system tb (pending s) (queues s) (all_entries s) (all_tasks s) (at_pc s)).

Definition set_state (s : system) (t : nat) (k : Task) : system :=
  mk_system (table s) (pending s) (queues s) (all_entries s) (<[t := k]> (all_tasks s)) (at_pc s).

(** The steps of the system. *)
Inductive move : system -> system -> Prop :=
| move_call s t c : at_pc s t = Out -> move s (goto t (Attempt c) s)
| move_attempt s t c : at_pc s t = Attempt c -> is_Some (all_tasks s !! t) -> move s (do_attempt s t c)
| move_recheck s t c q e s' : at_pc s t = Recheck c q e -> do_recheck s t c q e = Some s' -> move s s'
| move_signal s t c q e (pending_signal : bool) :
    at_pc s t = Signals c q e ->
    move s (goto t (if pending_signal then Leave c q e (Fail EINTR) else Asleep c q e) s)
| move_resume s t c q e :
    (* the scheduler runs a task again only when it does not sleep *)
    at_pc s t = Asleep c q e -> ~ asleep (world_of s q) t -> move s (goto t (Leave c q e Retry) s)
| move_leave s t c q e a : at_pc s t = Leave c q e a -> move s (do_leave s t c q e a)
| move_leave_task s t c e a : at_pc s t = LeaveTask c e a -> move s (do_leave_task s t c e a)
| move_forget s t c a : at_pc s t = Forget c a -> move s (do_forget s t c a)
| move_drain s t q : at_pc s t = WakeUp q -> move s (do_drain s t q)
| move_wake s t t' ts : at_pc s t = Waking (t' :: ts) -> move s (do_wake s t t' ts)
| move_woken s t : at_pc s t = Waking [] -> move s (goto t Out s)
| move_close s t key pid ptr last : at_pc s t = Out -> move s (do_close s t key pid ptr last)
| move_environment s t k k' :
    (* signals and the scheduler: a task changes state, but not into sleep *)
    all_tasks s !! t = Some k -> is_wait (state k') = false -> move s (set_state s t k').

Definition boot (s : system) : Prop :=
  table s = ∅ /\ pending s = ∅ /\ queues s = [] /\ all_entries s = [] /\ forall t, at_pc s t = Out.
