(* ===== verification/SetlkWaitProps.v ===== *)
(** * Record locks: waiting, properties

    Waiting for a lock is an instance of the protocol of waiting: where the
    wake-up of a task that waits for a lock is at any time. *)

From stdpp Require Import gmap functions.
From S2P Require Import Prelude RecordLock RecordLockProofs RecordLockProps.
From S2P Require Import WaitQueue WaitQueueProofs SetlkWait.

(** ** The tables of the system *)

Lemma snoc_reachable ts e : reachable ts -> reachable (RecordLockProps.step ts e).
Proof. intros [events ->]. exists (events ++ [e]). by rewrite foldl_app. Qed.

(** The system only does to the tables what the critical sections do. *)
Lemma move_reachable s s' :
  move s s' -> reachable (table s, pending s) -> reachable (table s', pending s').
Proof.
  intros Hm Hr. destruct Hm as
    [s t c Hpc|s t c Hpc Hal|s t c q e s' Hpc Hs|s t c q e sig Hpc|s t c q e Hpc Ha|s t c q e a Hpc|s t c e a Hpc
    |s t c a Hpc|s t q Hpc|s t t' ts Hpc|s t Hpc|s t key pid ptr last Hpc|s t k k' Hk Hn]; try exact Hr.
  - pose proof (snoc_reachable _ (Setlk (len_of s) (length (queues s)) (c_key c) (c_owner c) (c_req c) (c_wait c)) Hr) as H.
    cbn [RecordLockProps.step] in H. unfold do_attempt.
    destruct (setlk_attempt _ _ _ _ _ _ _ _) as [[tb pd] a]. cbn [fst] in H.
    destruct a as [[]| |]; [exact H..|]. by destruct (prepare_to_wait _ _ _).
  - unfold do_recheck in Hs. destruct (setlk_recheck _ _ _ _ _) as [[[] []]|]; cbn in Hs; by simplify_eq.
  - apply (snoc_reachable _ (RecordLockProps.Finish (c_owner c)) Hr).
  - unfold do_drain. by destruct (drain _).
  - pose proof (snoc_reachable _ (Close (len_of s) key pid ptr last) Hr) as H. cbn [RecordLockProps.step] in H.
    unfold do_close. by destruct (release_process_locks_for_file _ _ _ _ _ _).
Qed.

(** ** What the table operations do to a file somebody waits for *)

(** The file keeps its queue, and if its locks change the queue is to be woken. *)
Definition keeps (tb tb' : lock_table) (q : nat) (key : LockKey) (wake : option nat) : Prop :=
  forall ls, tb !! key = Some (mk_state ls q) ->
  exists ls', tb' !! key = Some (mk_state ls' q) /\ (ls' = ls \/ wake = Some q).

Lemma cleanup_lookup hint tb key key' st :
  (key' = key -> (hint (RecordLock.waiters st) <> 0)%nat) ->
  tb !! key' = Some st -> cleanup_empty_state hint tb key !! key' = Some st.
Proof.
  intros Hh Hst. unfold cleanup_empty_state. destruct (tb !! key) as [st'|] eqn:E; [|done].
  destruct (_ && _) eqn:B; [|done]. apply andb_true_iff in B as [_ B%Nat.eqb_eq].
  rewrite lookup_delete_ne; [done|]. intros ->. rewrite Hst in E. simplify_eq. by apply Hh.
Qed.

Lemma cleanup_subset hint tb key key' st : cleanup_empty_state hint tb key !! key' = Some st -> tb !! key' = Some st.
Proof.
  unfold cleanup_empty_state. destruct (tb !! key); [|done]. destruct (_ && _); [|done].
  by intros [_ ?]%lookup_delete_Some.
Qed.

Lemma wake_of_Some hint q : (hint q <> 0)%nat -> wake_of hint q = Some q.
Proof. intros H. unfold wake_of. by destruct (Nat.eqb_spec (hint q) 0). Qed.

Lemma attempt_keeps hint fresh tb pd key0 o req wait tb' pd' a q key :
  setlk_attempt hint fresh tb pd key0 o req wait = (tb', pd', a) -> (hint q <> 0)%nat ->
  keeps tb tb' q key (match a with Granted w => w | _ => None end).
Proof.
  intros Ha Hq ls Hls. unfold setlk_attempt in Ha.
  destruct (decide (key = key0)) as [->|Hne].
  - rewrite Hls in Ha. cbn [default from_option] in Ha. unfold id in Ha. cbn [locks RecordLock.waiters] in Ha.
    destruct (first_conflict ls o req).
    + destruct wait; simplify_eq/=; exists ls; rewrite lookup_insert_eq; auto.
    + simplify_eq/=. exists (apply ls o req). split; [|right; by apply wake_of_Some].
      apply cleanup_lookup; [done|]. apply lookup_insert_eq.
  - exists ls. split; [|by left]. destruct (first_conflict _ o req); [destruct wait|]; simplify_eq/=;
      [by rewrite lookup_insert_ne..|]. apply cleanup_lookup; [done|]. by rewrite lookup_insert_ne.
Qed.

Lemma release_keeps hint tb key0 pid ptr last tb' w q key :
  release_process_locks_for_file hint tb key0 pid ptr last = (tb', w) -> (hint q <> 0)%nat ->
  keeps tb tb' q key w.
Proof.
  intros Hr Hq ls Hls. unfold release_process_locks_for_file in Hr.
  destruct (tb !! key0) as [st|] eqn:E0; [|simplify_eq; eauto].
  destruct (release_owner (locks st) (process pid)) as [kept r] eqn:E1.
  destruct (if last then _ else _) as [kept' r'] eqn:E2.
  assert (Hsame : r' = false -> kept' = locks st).
  { intros ->. destruct last; [|by simplify_eq; apply release_unchanged in E1].
    destruct (release_owner kept (ofd ptr)) as [k2 r2] eqn:E3. destruct r, r2; simplify_eq/=.
    by apply release_unchanged in E1, E3; subst. }
  destruct (decide (key = key0)) as [->|Hne].
  - rewrite Hls in E0. simplify_eq/=. exists kept'. destruct r'; simplify_eq/=.
    + split; [|right; by apply wake_of_Some]. apply cleanup_lookup; [done|]. apply lookup_insert_eq.
    + split; [apply lookup_insert_eq|left; auto].
  - exists ls. split; [|by left]. destruct r'; simplify_eq/=; [|by rewrite lookup_insert_ne].
    apply cleanup_lookup; [done|]. by rewrite lookup_insert_ne.
Qed.

(** ** The protocol *)

(** The call, queue and entry of a task that is registered, and whether it has
    seen since that it must wait. *)
Definition reg_of (p : pc) : option (registration call) :=
  match p with
  | Recheck c q e | Leave c q e _ => Some (mk_reg c q e false)
  | Signals c q e | Asleep c q e => Some (mk_reg c q e true)
  | _ => None
  end.

Definition duty_of (p : pc) : duty :=
  match p with WakeUp q => Drains q | Waking ts => Wakes ts | _ => Nothing end.

(** A file that a task waits for has the queue that the task is in; the task must
    wait as long as a lock of the file is in the way. *)
Definition attached (tb : lock_table) (c : call) (q : nat) : Prop :=
  exists ls, tb !! c_key c = Some (mk_state ls q).
Definition in_the_way (tb : lock_table) (c : call) (q : nat) : Prop :=
  exists ls, tb !! c_key c = Some (mk_state ls q) /\ first_conflict ls (c_owner c) (c_req c) <> None.

Definition view_of (s : system) : view call :=
  shell reg_of duty_of (queues s) (all_entries s) (all_tasks s) (at_pc s) (attached (table s)) (in_the_way (table s)).

(** A point at which a task owes nobody anything. *)
Definition passive (p : pc) : Prop := match p with WakeUp _ | Waking (_ :: _) => False | _ => True end.

(** The queues that files name exist. *)
Definition good (s : system) : Prop :=
  forall key st, table s !! key = Some st -> (RecordLock.waiters st < length (queues s))%nat.

(** A task that moves on without a change to the rest. *)
Lemma goto_moves s t p :
  duty_of p = duty_of (at_pc s t) ->
  (reg_of p = reg_of (at_pc s t) \/ exists r b, reg_of (at_pc s t) = Some r /\ reg_of p = Some (commit b r)
     /\ (b = true -> r_committed r = false -> attached (table s) (r_for r) (r_queue r) ->
         in_the_way (table s) (r_for r) (r_queue r))) ->
  vsteps (view_of s) (view_of (goto t p s)).
Proof. apply shell_moves. Qed.

Lemma recheck_vsteps s t c q e s' :
  at_pc s t = Recheck c q e -> do_recheck s t c q e = Some s' -> vsteps (view_of s) (view_of s').
Proof.
  intros Hpc Hs. unfold do_recheck, setlk_recheck in Hs.
  destruct (match table s !! c_key c with Some _ => _ | None => true end) eqn:Er.
  { cbn in Hs. simplify_eq. apply goto_moves; rewrite Hpc; auto. }
  destruct (would_deadlock _ _ _ _ _) as [[]|]; cbn in Hs; simplify_eq; apply goto_moves; rewrite Hpc; auto.
  right. exists (mk_reg c q e false), true. split_and!; try done. intros _ _ (ls & Hls). exists ls. split; [done|].
  cbn in *. rewrite Hls in Er. by apply bool_decide_eq_false in Er.
Qed.

Lemma leave_vsteps s t c q e a :
  at_pc s t = Leave c q e a -> vsteps (view_of s) (view_of (do_leave s t c q e a)).
Proof.
  intros Hpc. apply (shell_leave reg_of duty_of _ _ _ _ _ _ t _ (mk_reg c q e false)); rewrite ?Hpc; try done. cbn.
  destruct (decide (q < length (queues s))%nat); [by left|right]. by rewrite lookup_ge_None_2 by lia.
Qed.

(** ** The table changes *)

(** A task that was not registered changes the table, and owes what is due. *)
Lemma table_vsteps s t tb pd qs p :
  reg_of (at_pc s t) = None -> reg_of p = None -> duty_of (at_pc s t) = Nothing ->
  (forall q, default [] (qs !! q) = queue s q) ->
  (forall q key, queue s q <> [] -> keeps (table s) tb q key (match p with WakeUp q => Some q | _ => None end)) ->
  vsteps (view_of s) (view_of (goto t p (mk_system tb pd qs (all_entries s) (all_tasks s) (at_pc s)))).
Proof.
  intros Hrt Hrp Hd Hqs Hk. apply (shell_change reg_of duty_of (queues s) qs); cbn; [by left|congruence|done|].
  intros c q Hne (ls & Hls). destruct (Hk q (c_key c) Hne ls Hls) as (ls' & Hls' & Hor). split; [by exists ls'|].
  intros (ls0 & Hls0 & Hc). destruct Hor as [->|Hp]; [left|right; destruct p; simplify_eq; done].
  exists ls. split; [done|]. rewrite Hls0 in Hls. by simplify_eq.
Qed.

Lemma close_vsteps s t key pid ptr last :
  at_pc s t = Out -> vsteps (view_of s) (view_of (do_close s t key pid ptr last)).
Proof.
  intros Hpc. unfold do_close. destruct (release_process_locks_for_file _ _ _ _ _ _) as [tb w] eqn:Er.
  apply table_vsteps; [by rewrite Hpc|by destruct w|by rewrite Hpc|done|].
  intros q key' Hne. pose proof (release_keeps _ _ _ _ _ _ _ _ q key' Er) as Hk.
  replace (match match w with Some q => WakeUp q | None => Out end with WakeUp q => Some q | _ => None end)
    with w by (by destruct w).
  apply Hk. unfold len_of. by destruct (queue s q).
Qed.

Lemma close_good s t key pid ptr last : good s -> good (do_close s t key pid ptr last).
Proof.
  intros Hid key' st Hst. unfold do_close, release_process_locks_for_file in *.
  destruct (table s !! key) as [st0|] eqn:E0; [|by eapply Hid].
  repeat case_match; simplify_eq/=;
    repeat match goal with
    | H : cleanup_empty_state _ _ _ !! _ = Some _ |- _ => apply cleanup_subset in H
    | H : <[_ := _]> _ !! _ = Some _ |- _ => apply lookup_insert_Some in H as [[<- <-]|[_ H]]
    end; first [exact (Hid _ _ E0)|by eapply Hid].
Qed.

(** ** Taking a lock *)

Lemma with_queue_queue s key q : default [] (with_queue s key !! q) = queue s q.
Proof.
  unfold with_queue, queue. destruct (table s !! key); [done|].
  destruct (decide (q < length (queues s))%nat); [by rewrite lookup_app_l|].
  rewrite (lookup_ge_None_2 (queues s)) by lia. rewrite lookup_app_r by lia.
  by destruct (q - length (queues s))%nat.
Qed.

Lemma attempt_ids s c tb pd a key st :
  good s ->
  setlk_attempt (len_of s) (length (queues s)) (table s) (pending s) (c_key c) (c_owner c) (c_req c) (c_wait c) = (tb, pd, a) ->
  tb !! key = Some st -> (RecordLock.waiters st < length (with_queue s (c_key c)))%nat.
Proof.
  intros Hid Ha Hst. unfold with_queue.
  assert (Hq : (RecordLock.waiters (default (new_state (length (queues s))) (table s !! c_key c))
    < length (match table s !! c_key c with Some _ => queues s | None => queues s ++ [[]] end))%nat).
  { destruct (table s !! c_key c) as [st0|] eqn:E; [by eapply Hid|]. rewrite length_app. cbn. lia. }
  assert (Hold : forall key' st', table s !! key' = Some st' -> (RecordLock.waiters st'
    < length (match table s !! c_key c with Some _ => queues s | None => queues s ++ [[]] end))%nat).
  { intros key' st' Hs'. apply Hid in Hs'. destruct (table s !! c_key c); [done|]. rewrite length_app. cbn. lia. }
  revert Ha. unfold setlk_attempt. intros Ha. repeat case_match; simplify_eq;
    try apply cleanup_subset in Hst; apply lookup_insert_Some in Hst as [[<- <-]|[_ Hst]]; eauto.
Qed.

(** A task is queued for a file that exists. *)
Lemma attempt_queued s c tb pd q :
  setlk_attempt (len_of s) (length (queues s)) (table s) (pending s) (c_key c) (c_owner c) (c_req c) (c_wait c)
  = (tb, pd, Queued q) -> attached (table s) c q /\ tb = table s.
Proof.
  unfold setlk_attempt, attached. destruct (table s !! c_key c) as [[ls q']|] eqn:Et; cbn; [|done].
  destruct (first_conflict _ _ _); [|done]. destruct (c_wait c); intros; simplify_eq/=.
  split; [by exists ls|by apply insert_id].
Qed.

Lemma attempt_sim s t c :
  good s -> at_pc s t = Attempt c -> is_Some (all_tasks s !! t) ->
  good (do_attempt s t c) /\ vsteps (view_of s) (view_of (do_attempt s t c)).
Proof.
  intros Hg Hpc Hal. unfold do_attempt. destruct (setlk_attempt _ _ _ _ _ _ _ _) as [[tb pd] a] eqn:Ea.
  pose proof (fun key st => attempt_ids s c tb pd a key st Hg Ea) as Hids.
  assert (Hout : forall p, reg_of p = None -> (match p with WakeUp q => Some q | _ => None end)
    = (match a with Granted w => w | _ => None end) ->
    vsteps (view_of s) (view_of (goto t p (mk_system tb pd (with_queue s (c_key c)) (all_entries s) (all_tasks s) (at_pc s))))).
  { intros p Hp Hw. apply table_vsteps; [by rewrite Hpc|done|by rewrite Hpc|apply with_queue_queue|].
    intros q key Hne. rewrite Hw. eapply attempt_keeps; [exact Ea|]. unfold len_of. by destruct (queue s q). }
  destruct a as [[q|]| |q]; try (by split; [exact Hids|apply Hout]).
  destruct (attempt_queued s c tb pd q Ea) as [Hat ->].
  assert (Hwq : with_queue s (c_key c) = queues s) by (unfold with_queue; destruct Hat as (ls & Hls); by rewrite Hls).
  rewrite Hwq in *. set (s0 := mk_system _ _ _ _ _ _). destruct (prepare_to_wait (world_of s0 q) t Sleeping) as [w e] eqn:Ep.
  assert (Hq : (q < length (queues s))%nat) by (destruct Hat as (ls & Hls); exact (Hg _ _ Hls)).
  split; [intros key st Hst; cbn; rewrite length_insert; by eapply Hids|].
  apply (shell_enter reg_of duty_of _ _ _ _ _ _ t _ c q Sleeping w e); rewrite ?Hpc; try done; exact Ep.
Qed.

Lemma move_sim s s' : good s -> move s s' -> good s' /\ vsteps (view_of s) (view_of s').
Proof.
  intros Hg Hm. destruct Hm as
    [s t c Hpc|s t c Hpc Hal|s t c q e s' Hpc Hs|s t c q e sig Hpc|s t c q e Hpc Ha|s t c q e a Hpc|s t c e a Hpc
    |s t c a Hpc|s t q Hpc|s t t' ts Hpc|s t Hpc|s t key pid ptr last Hpc|s t k k' Hk Hn].
  - split; [done|]. apply goto_moves; rewrite Hpc; auto.
  - by apply attempt_sim.
  - split; [|by eapply recheck_vsteps]. unfold do_recheck in Hs.
    destruct (setlk_recheck _ _ _ _ _) as [[[] []]|]; cbn in Hs; by simplify_eq.
  - split; [done|]. apply goto_moves; rewrite Hpc; destruct sig; auto. right. by exists (mk_reg c q e true), false.
  - split; [done|]. apply goto_moves; rewrite Hpc; auto. right. by exists (mk_reg c q e true), false.
  - split; [|by apply leave_vsteps]. intros key st Hst. cbn. rewrite length_insert. by eapply Hg.
  - split; [done|]. apply shell_tasks; cbn; rewrite ?Hpc; try done. apply (finish_no_sleep (world_of s 0)).
  - split; [done|]. apply shell_moves; cbn; rewrite ?Hpc; destruct a; auto.
  - unfold do_drain. destruct (drain (world_of s q)) as [w ts] eqn:Ed.
    split; [intros key st Hst; cbn; rewrite length_insert; by eapply Hg|].
    apply (shell_drain reg_of duty_of _ _ _ _ _ _ t _ q w ts); cbn; rewrite ?Hpc; try done; exact Ed.
  - split; [done|]. apply (shell_wake reg_of duty_of _ _ _ _ _ _ t _ t' ts); cbn; by rewrite ?Hpc.
  - split; [done|]. apply shell_done; cbn; by rewrite ?Hpc.
  - split; [by apply close_good|by apply close_vsteps].
  - split; [done|]. eapply vsteps_once; [apply vs_states; by apply set_task_no_sleep|done].
Qed.

(** ** No lost wake-ups *)

(** What is left of the wake-ups that tasks owe after a critical section. *)
Inductive waker_move : system -> system -> Prop :=
| waker_move_drain s t q : at_pc s t = WakeUp q -> waker_move s (do_drain s t q)
| waker_move_wake s t t' ts : at_pc s t = Waking (t' :: ts) -> waker_move s (do_wake s t t' ts).

Lemma duty_pc s t :
  (forall q, duty_of (at_pc s t) = Drains q -> at_pc s t = WakeUp q)
  /\ forall ts, duty_of (at_pc s t) = Wakes ts -> at_pc s t = Waking ts.
Proof. destruct (at_pc s t); split; intros ? [= ->]; done. Qed.

#[export] Program Instance setlk_waiting : Waiting system pc call := {
  w_at := at_pc; w_view := view_of; w_boot := boot; w_move := move; w_waker := waker_move; w_good := good
}.
Next Obligation.
  intros s (Ht & _ & Hq & _ & Hpc). split; [intros key st; by rewrite Ht, lookup_empty|].
  split; cbn; [intros t r; by rewrite Hpc|]. intros q e. unfold queue. rewrite Hq. by intros ?%elem_of_nil.
Qed.
Next Obligation. intros s s' Hg _ Hm. by apply move_sim. Qed.
Next Obligation. destruct 1; by constructor. Qed.
Next Obligation.
  intros s s' t r Hs Hr _. cbn in *. destruct Hs as [s k q Hk|s k t' ts Hk]; unfold do_drain; try destruct (drain _);
    cbn; (rewrite fn_lookup_insert_ne; [done|]); intros ->; by rewrite Hk in Hr.
Qed.
Next Obligation.
  intros s k q _ Hk. pose proof Hk as Hpc%duty_pc. destruct (drain (v_world (view_of s) q)) as [w ts] eqn:Ed.
  exists s, (do_drain s k q). rewrite Ed. split_and!; [done|by constructor|done|].
  unfold do_drain. change (world_of s q) with (v_world (view_of s) q). rewrite Ed.
  apply (shell_drain_view reg_of duty_of); cbn; rewrite ?Hpc; try done; exact Ed.
Qed.
Next Obligation.
  intros s k t' ts Hk. apply duty_pc in Hk. exists (do_wake s k t' ts). split; [by constructor|].
  apply (shell_wake_view reg_of duty_of); cbn; by rewrite ?Hk.
Qed.

Lemma moves_reachable s s' :
  rtc move s s' -> reachable (table s, pending s) -> reachable (table s', pending s').
Proof. induction 1; eauto using move_reachable. Qed.

(** C40. The whole of waiting for a lock, for any number of tasks, files and
    interleavings: a task that sleeps in [setlk_inner] while nothing stands in the
    way of its request any more is on its way to be woken.  The rest of the
    wake-ups owed by the tasks that dropped or changed locks, without any other
    step, makes it runnable, and it is runnable when none is owed.  Throughout,
    the tables are ones that the critical sections produce, so that what is
    proved of those holds of the system. *)
Theorem setlk_no_lost_wakeup s0 s t c q e :
  boot s0 -> rtc move s0 s -> at_pc s t = Asleep c q e ->
  first_conflict (locks_of (table s) (c_key c)) (c_owner c) (c_req c) = None ->
  (exists s', rtc waker_move s s' /\ ~ asleep (world_of s' 0) t /\ at_pc s' t = Asleep c q e)
  /\ ((forall t', passive (at_pc s t')) -> ~ asleep (world_of s q) t)
  /\ reachable (table s, pending s).
Proof.
  intros Hb Hr Hpc Hn.
  destruct (no_lost_wakeup (W := setlk_waiting) s0 s t (mk_reg c q e true) Hb Hr) as [(s' & Hw & Ha & Hat) Hrest];
    [cbn; by rewrite Hpc|done| |].
  { intros (ls & Hls & Hc). cbn in *. apply Hc. unfold locks_of in Hn. by rewrite Hls in Hn. }
  split_and!; [exists s'; cbn in Hat; by rewrite <- Hpc|..].
  - intros Hp. apply Hrest. intros k. specialize (Hp k). cbn. destruct (at_pc s k) as [| | |[]| | | | | |]; auto; done.
  - eapply moves_reachable; [exact Hr|]. destruct Hb as (-> & -> & _). by exists [].
Qed.

(** Task 1 holds a file for writing, task 2 waits for it, task 1 closes it and
    has not woken anybody yet. *)
Definition writer : call := mk_call file_a (process 10) (new_request Write 0 0) false.
Definition reader : call := mk_call file_a (process 11) (new_request Read 5 1) true.
Definition run0 : system :=
  mk_system ∅ ∅ [] [] {[1%nat := mk_task Running false; 2%nat := mk_task Running false]} (fun _ => Out).
Definition run1 : system := do_attempt (goto 1 (Attempt writer) run0) 1 writer.
Definition run2 : system := do_attempt (goto 2 (Attempt reader) run1) 2 reader.
Definition run3 : system := goto 2 (Asleep reader 0 0) (goto 2 (Signals reader 0 0) run2).
Definition run4 : system := do_close run3 1 file_a 10 0 false.

Lemma run4_reachable : rtc move run0 run4.
Proof.
  eapply rtc_l; [by apply (move_call run0 1 writer)|].
  eapply rtc_l; [apply (move_attempt _ 1 writer); done|].
  eapply rtc_l; [by apply (move_call run1 2 reader)|].
  eapply rtc_l; [apply (move_attempt _ 2 reader); done|].
  eapply rtc_l; [apply (move_recheck run2 2 reader 0 0 (goto 2 (Signals reader 0 0) run2)); done|].
  eapply rtc_l; [by apply (move_signal _ 2 reader 0 0 false)|].
  apply rtc_once, (move_close run3 1 file_a 10 0 false). done.
Qed.

Lemma setlk_no_lost_wakeup_witness :
  asleep (world_of run4 0) 2
  /\ (exists s', rtc waker_move run4 s' /\ ~ asleep (world_of s' 0) 2 /\ at_pc s' 2%nat = Asleep reader 0 0)
  /\ ((forall t', passive (at_pc run4 t')) -> ~ asleep (world_of run4 0) 2)
  /\ reachable (table run4, pending run4).
Proof.
  split; [exists (mk_task Sleeping false); split; vm_compute; reflexivity|].
  apply (setlk_no_lost_wakeup run0 run4 2 reader 0 0); [|exact run4_reachable|vm_compute; reflexivity..].
  by split_and!.
Defined.

(** The second critical section always comes to a decision. *)
Lemma recheck_total s t c q e : exists s', do_recheck s t c q e = Some s'.
Proof.
  unfold do_recheck, setlk_recheck. destruct (match table s !! c_key c with Some _ => _ | None => true end); [by eexists|].
  destruct (would_deadlock_total (table s) (pending s) (c_owner c) (c_key c) (c_req c)) as [b ->]. by eexists.
Qed.
