(* ===== verification/Cred.v ===== *)
(** * Credentials

    The model of [libs/vfs/src/cred.rs] and of the permission bits of
    [libs/vfs/src/stat.rs]: capabilities as bits of a word, and the check of the
    owner, the group and the others against a mode. *)

From S2P Require Import Prelude.

(** ** Permission bits *)

(** [FileMode], a [u16]; the constants are octal in the source. *)
Abbreviation FileMode := Z (only parsing).

Definition IRUSR : FileMode := 0x100.
Definition IWUSR : FileMode := 0x80.
Definition IXUSR : FileMode := 0x40.
Definition IRGRP : FileMode := 0x20.
Definition IWGRP : FileMode := 0x10.
Definition IXGRP : FileMode := 0x8.
Definition IROTH : FileMode := 0x4.
Definition IWOTH : FileMode := 0x2.
Definition IXOTH : FileMode := 0x1.
Definition PERM_MASK : FileMode := 0x1ff.
Definition ANY_EXEC : FileMode := 0x49.

Definition has (m flag : FileMode) : bool := Z.land m flag =? flag.
Definition has_any (m flag : FileMode) : bool := negb (Z.land m flag =? 0).
Definition mask (m n : FileMode) : FileMode := Z.land m n.

(** ** Capabilities *)

Inductive Capability : Type :=
| Chown | DacOverride | DacReadSearch | FOwner | FSetId | SysAdmin | SysResource | MkNod | NetBindService
| IpcOwner | IpcLock | SysPtrace | CheckpointRestore | NetRaw | NetAdmin.

#[export] Instance Capability_eq_dec : EqDecision Capability.
Proof. solve_decision. Defined.

(** The number of the bit; [Capability::bit] is the word with that bit. *)
Definition bit_index (c : Capability) : Z :=
  match c with
  | Chown => 0 | DacOverride => 1 | DacReadSearch => 2 | FOwner => 3 | FSetId => 4 | SysAdmin => 5
  | SysResource => 6 | MkNod => 7 | NetBindService => 8 | IpcOwner => 9 | IpcLock => 10 | SysPtrace => 11
  | CheckpointRestore => 12 | NetRaw => 13 | NetAdmin => 14
  end.
Definition bit (c : Capability) : Z := Z.shiftl 1 (bit_index c).

(** [CapSet], a [u64]. *)
Definition cap_has (s : Z) (c : Capability) : bool := negb (Z.land s (bit c) =? 0).
Definition cap_with (s : Z) (c : Capability) : Z := Z.lor s (bit c).
Definition cap_without (s : Z) (c : Capability) : Z := Z.land s (Z.lxor U64_MAX (bit c)).

(** ** Credentials *)

Record Credentials : Type := mk_cred {
  uid : Z; euid : Z; suid : Z; fsuid : Z;
  gid : Z; egid : Z; sgid : Z; fsgid : Z;
  groups : list Z;
  caps : Z
}.

Inductive PermissionKind : Type := Read | Write | Exec (is_dir : bool).

Definition unprivileged (u g : Z) : Credentials := mk_cred u u u u g g g g [] 0.
Definition nobody : Credentials := unprivileged 65534 65534.
Definition root : Credentials := mk_cred 0 0 0 0 0 0 0 0 [] U64_MAX.

Definition has_cap (c : Credentials) (k : Capability) : bool := cap_has (caps c) k.

Definition check_permission (c : Credentials) (file_uid file_gid : Z) (mode : FileMode) (kind : PermissionKind) : bool :=
  let bypass :=
    match kind with
    | Read => has_cap c DacReadSearch || has_cap c DacOverride
    | Write => has_cap c DacOverride
    | Exec is_dir => has_cap c DacOverride && (is_dir || has_any mode ANY_EXEC)
    end in
  if bypass then true
  else
    let '(owner_bit, group_bit, other_bit) :=
      match kind with
      | Read => (IRUSR, IRGRP, IROTH)
      | Write => (IWUSR, IWGRP, IWOTH)
      | Exec _ => (IXUSR, IXGRP, IXOTH)
      end in
    if fsuid c =? file_uid then has mode owner_bit
    else if (fsgid c =? file_gid) || bool_decide (file_gid ∈ groups c) then has mode group_bit
    else has mode other_bit.

Definition can_read (c : Credentials) (u g : Z) (mode : FileMode) : bool := check_permission c u g mode Read.
Definition can_write (c : Credentials) (u g : Z) (mode : FileMode) : bool := check_permission c u g mode Write.
Definition can_exec (c : Credentials) (u g : Z) (mode : FileMode) (is_dir : bool) : bool :=
  check_permission c u g mode (Exec is_dir).
Definition is_owner (c : Credentials) (u : Z) : bool := (fsuid c =? u) || has_cap c FOwner.

(** ** Facts *)

(** Each capability has a bit of its own. *)
Lemma cap_has_testbit s c : cap_has s c = Z.testbit s (bit_index c).
Proof.
  unfold cap_has, bit. assert (0 <= bit_index c) by (by destruct c).
  assert (Hl : Z.land s (Z.shiftl 1 (bit_index c)) = if Z.testbit s (bit_index c) then Z.shiftl 1 (bit_index c) else 0).
  { apply Z.bits_inj'. intros n Hn. rewrite Z.land_spec, Z.shiftl_1_l, Z.pow2_bits_eqb by done.
    destruct (Z.eqb_spec (bit_index c) n) as [<-|Hne].
    - destruct (Z.testbit s _); [|by rewrite Z.bits_0]. by rewrite Z.pow2_bits_true.
    - rewrite andb_false_r. destruct (Z.testbit s _); [|by rewrite Z.bits_0]. by rewrite Z.pow2_bits_false. }
  rewrite Hl. destruct (Z.testbit s _); [|done]. rewrite Z.shiftl_1_l.
  destruct (Z.eqb_spec (2 ^ bit_index c) 0) as [E|]; [|done].
  pose proof (Z.pow_pos_nonneg 2 (bit_index c)). lia.
Qed.

Lemma bit_index_inj c c' : bit_index c = bit_index c' -> c = c'.
Proof. by destruct c, c'. Qed.

(** Adding or removing a capability changes that one only. *)
Lemma cap_with_exact s c c' : cap_has (cap_with s c) c' = bool_decide (c' = c) || cap_has s c'.
Proof.
  rewrite !cap_has_testbit. unfold cap_with, bit. rewrite Z.lor_spec, Z.shiftl_1_l, Z.pow2_bits_eqb by (by destruct c).
  case_bool_decide as E; [subst; by rewrite Z.eqb_refl, orb_true_r|].
  destruct (Z.eqb_spec (bit_index c) (bit_index c')) as [Hi|]; [by apply bit_index_inj in Hi|by rewrite orb_false_r].
Qed.

Lemma cap_without_exact s c c' : cap_has (cap_without s c) c' = negb (bool_decide (c' = c)) && cap_has s c'.
Proof.
  rewrite !cap_has_testbit. unfold cap_without, bit. rewrite Z.land_spec, Z.lxor_spec, Z.shiftl_1_l.
  rewrite Z.pow2_bits_eqb by (by destruct c).
  assert (Z.testbit U64_MAX (bit_index c') = true) as -> by (by destruct c').
  case_bool_decide as E; [subst; by rewrite Z.eqb_refl, andb_false_r|].
  destruct (Z.eqb_spec (bit_index c) (bit_index c')) as [Hi|]; [by apply bit_index_inj in Hi|by rewrite andb_true_r].
Qed.

(** Root passes every check but running a file that nobody may run. *)
Lemma root_may u g m : can_read root u g m = true /\ can_write root u g m = true /\ can_exec root u g m true = true.
Proof. done. Qed.
