(* ===== verification/Ipc.v ===== *)
(** * System V objects

    What [general/src/ipc/sem.rs] and [general/src/ipc/msg.rs] have in common, each
    with its own copy: the record of permissions and its checks, and the manager
    that hands out numbers and keys.  The two are instances of [IpcObject]; an
    object is named by its place among those that were ever made, as the [Arc] that
    the source holds. *)

From stdpp Require Import gmap sorting.
From S2P Require Import Prelude Cred.

(** The operator [?]. *)
Notation "'let?' x ':=' m 'in' k" := (match m with Ok x => k | Err e => Err e end)
  (at level 10, x name, m at level 100, k at level 200).

(** [if c { return Err(e) }]. *)
Definition refuse (c : bool) (e : Errno) : result unit Errno := if c then Err e else Ok ().
Definition ok_or {A} (o : option A) (e : Errno) : result A Errno :=
  match o with Some a => Ok a | None => Err e end.

(** ** Constants, octal in the source *)

Definition IPC_PRIVATE : Z := 0.
Definition IPC_CREAT : Z := 0x200.
Definition IPC_EXCL : Z := 0x400.
Definition IPC_NOWAIT : Z := 0x800.
Definition FIRST_ID : Z := 1.
Definition I32_MAX : Z := 2147483647.
Definition I64_MIN : Z := - 9223372036854775808.

(** ** Permissions *)

(** [SemPerm] and [MsgPerm]. *)
Record IpcPerm : Type := mk_perm {
  perm_key : Z; perm_uid : Z; perm_gid : Z; perm_cuid : Z; perm_cgid : Z; perm_mode : FileMode
}.

(** [(flags as u16) & PERM_MASK]. *)
Definition mode_from_flags (flags : Z) : FileMode := Z.land (Z.land flags U16_MAX) PERM_MASK.

Definition new_perm (key flags : Z) (cred : Credentials) : IpcPerm :=
  mk_perm key (euid cred) (egid cred) (euid cred) (egid cred) (mode_from_flags flags).

Definition may_read (cred : Credentials) (p : IpcPerm) : bool := can_read cred (perm_uid p) (perm_gid p) (perm_mode p).
Definition may_write (cred : Credentials) (p : IpcPerm) : bool := can_write cred (perm_uid p) (perm_gid p) (perm_mode p).

Definition check_mode_request (cred : Credentials) (p : IpcPerm) (flags : Z) : result unit Errno :=
  let requested := mode_from_flags flags in
  let? _ := refuse (has_any requested (Z.lor (Z.lor IRUSR IRGRP) IROTH) && negb (may_read cred p)) EACCES in
  refuse (has_any requested (Z.lor (Z.lor IWUSR IWGRP) IWOTH) && negb (may_write cred p)) EACCES.

Definition check_control_owner (cred : Credentials) (p : IpcPerm) : result unit Errno :=
  if is_owner cred (perm_uid p) || is_owner cred (perm_cuid p) || has_cap cred SysAdmin then Ok () else Err EPERM.

(** The new owner, group and mode of [IPC_SET]. *)
Definition change_perm (u g : option Z) (mode : option FileMode) (p : IpcPerm) : IpcPerm :=
  mk_perm (perm_key p) (default (perm_uid p) u) (default (perm_gid p) g) (perm_cuid p) (perm_cgid p)
    (match mode with Some m => mask m PERM_MASK | None => perm_mode p end).

(** ** Objects *)

(** What the manager needs of an object: its permissions, whether it is removed,
    and to mark it so; and how many there may be. *)
Class IpcObject (A : Type) : Type := {
  obj_perm : A -> IpcPerm;
  obj_removed : A -> bool;
  obj_mark : A -> A;
  obj_max : Z
}.

Definition check_requested_mode `{IpcObject A} (flags : Z) (cred : Credentials) (a : A) : result unit Errno :=
  if obj_removed a then Err EIDRM else check_mode_request cred (obj_perm a) flags.

(** ** The manager *)

(** Maps in the order of their keys, as a [BTreeMap] is walked. *)
Definition key_le {A} (x y : Z * A) : Prop := x.1 <= y.1.
#[export] Instance key_le_dec {A} : RelDecision (@key_le A).
Proof. intros x y. unfold key_le. solve_decision. Defined.
Definition btree_iter {A} (m : gmap Z A) : list (Z * A) := merge_sort key_le (map_to_list m).

(** [SemManagerState] and [MsgManagerState]. *)
Record Manager : Type := mk_manager { by_id : gmap Z nat; by_key : gmap Z Z; next_id : Z }.
Definition new_manager : Manager := mk_manager ∅ ∅ FIRST_ID.

(** The manager and the objects it hands out. *)
Definition registry (A : Type) : Type := Manager * list A.

Fixpoint allocate_loop (tries : nat) (m : gmap Z nat) (next : Z) : option Z * Z :=
  match tries with
  | O => (None, next)
  | S tries =>
      let raw := next in
      let next := if raw =? I32_MAX then FIRST_ID else raw + 1 in
      if bool_decide (is_Some (m !! raw)) then allocate_loop tries m next else (Some raw, next)
  end.
Definition allocate_id (tries : Z) (m : Manager) : result Z Errno * Manager :=
  let '(found, next) := allocate_loop (Z.to_nat tries) (by_id m) (next_id m) in
  (ok_or found ENOSPC, mk_manager (by_id m) (by_key m) next).

Definition object_for_operation (m : Manager) (id : Z) : result nat Errno := ok_or (by_id m !! id) EINVAL.

Definition object_by_index (index : Z) (m : Manager) : result (Z * nat) Errno :=
  if index <? 0 then Err EINVAL else ok_or (btree_iter (by_id m) !! Z.to_nat index) EINVAL.

(** The end of [semget] and [msgget]: a new object under a new number. *)
Definition create_object `{IpcObject A} (key : Z) (a : A) (w : registry A) : result Z Errno * registry A :=
  let '(m, objects) := w in
  if obj_max (A := A) <=? Z.of_nat (size (by_id m)) then (Err ENOSPC, w)
  else
    match allocate_id (obj_max (A := A)) m with
    | (Err e, m) => (Err e, (m, objects))
    | (Ok id, m) =>
        (Ok id, (mk_manager (<[id := length objects]> (by_id m))
                   (if key =? IPC_PRIVATE then by_key m else <[key := id]> (by_key m)) (next_id m),
                 objects ++ [a]))
    end.

(** [remove]: the object that is gone. *)
Definition remove_object `{IpcObject A} (id : Z) (cred : Credentials) (w : registry A) : result nat Errno * registry A :=
  let '(m, objects) := w in
  match by_id m !! id with
  | None => (Err EINVAL, w)
  | Some q =>
      match objects !! q with
      | None => (Err EINVAL, w)
      | Some a =>
          match check_control_owner cred (obj_perm a) with
          | Err e => (Err e, w)
          | Ok _ =>
              let key := perm_key (obj_perm a) in
              (Ok q, (mk_manager (delete id (by_id m))
                        (if key =? IPC_PRIVATE then by_key m else delete key (by_key m)) (next_id m),
                      <[q := obj_mark a]> objects))
          end
      end
  end.

(** ** Modes *)

Lemma land_mask_range a m : 0 <= m -> 0 <= Z.land a m <= m.
Proof.
  intros Hm. split; [apply Z.land_nonneg; by right|]. apply Z.ldiff_le; [done|].
  apply Z.bits_inj'. intros n Hn. rewrite Z.ldiff_spec, Z.land_spec, Z.bits_0. by destruct (Z.testbit a n), (Z.testbit m n).
Qed.

(** ** Numbers *)

Definition in_ids (x : Z) : Prop := FIRST_ID <= x <= I32_MAX.

Definition next_of (x : Z) : Z := if x =? I32_MAX then FIRST_ID else x + 1.

Lemma next_in_ids x : in_ids x -> in_ids (next_of x).
Proof. unfold in_ids, next_of, FIRST_ID, I32_MAX. destruct (Z.eqb_spec x 2147483647); lia. Qed.

(** The number that is tried after [k] others. *)
Definition tried (next : Z) (k : nat) : Z := 1 + (next - 1 + Z.of_nat k) mod I32_MAX.

Lemma tried_0 next : in_ids next -> tried next 0 = next.
Proof. unfold in_ids, tried, FIRST_ID, I32_MAX. intros H. rewrite Z.mod_small; lia. Qed.

Lemma tried_S next k : in_ids next -> tried (next_of next) k = tried next (S k).
Proof.
  unfold in_ids, tried, next_of, FIRST_ID, I32_MAX. intros H. destruct (Z.eqb_spec next 2147483647) as [->|].
  - replace (2147483647 - 1 + Z.of_nat (S k)) with (Z.of_nat k + 1 * 2147483647) by lia. rewrite Z.mod_add by lia. f_equal.
  - f_equal. f_equal. lia.
Qed.

Lemma tried_inj next j k :
  Z.of_nat j < I32_MAX -> Z.of_nat k < I32_MAX -> tried next j = tried next k -> j = k.
Proof.
  unfold tried, I32_MAX. intros Hj Hk E. assert (Hm : (next - 1 + Z.of_nat j) mod 2147483647 = (next - 1 + Z.of_nat k) mod 2147483647) by lia.
  pose proof (Z.div_mod (next - 1 + Z.of_nat j) 2147483647). pose proof (Z.div_mod (next - 1 + Z.of_nat k) 2147483647).
  assert ((next - 1 + Z.of_nat j) / 2147483647 = (next - 1 + Z.of_nat k) / 2147483647) by nia. lia.
Qed.

Lemma allocate_loop_spec n m next :
  in_ids next ->
  match allocate_loop n m next with
  | (Some id, next') => in_ids id /\ m !! id = None /\ in_ids next'
  | (None, next') => in_ids next' /\ forall k, (k < n)%nat -> is_Some (m !! tried next k)
  end.
Proof.
  revert next. induction n as [|n IH]; intros next Hn; cbn [allocate_loop]; [split; [done|lia]|].
  fold (next_of next). pose proof (next_in_ids next Hn) as Hn'. case_bool_decide as Hm.
  - specialize (IH (next_of next) Hn'). destruct (allocate_loop n m (next_of next)) as [[id|] next']; [done|].
    destruct IH as [? IH]. split; [done|]. intros [|k] Hk; [by rewrite tried_0|]. rewrite <- tried_S by done. apply IH. lia.
  - split_and!; [done| |done]. by apply eq_None_not_Some.
Qed.

(** Fewer sets than tries: one of the numbers is free. *)
Lemma pigeonhole (m : gmap Z nat) next n :
  Z.of_nat n < I32_MAX -> (forall k, (k < n)%nat -> is_Some (m !! tried next k)) -> (n <= size m)%nat.
Proof.
  intros Hn Hall. set (l := tried next <$> seq 0 n).
  assert (Hd : NoDup l).
  { apply NoDup_fmap_2_strong; [|apply NoDup_seq]. intros j k Hj%elem_of_seq Hk%elem_of_seq. apply tried_inj; lia. }
  assert (Hs : list_to_set l ⊆ dom m).
  { intros x Hx%elem_of_list_to_set. apply list_elem_of_fmap in Hx as (k & -> & Hk%elem_of_seq). apply elem_of_dom, Hall. lia. }
  apply subseteq_size in Hs. rewrite size_list_to_set, size_dom in Hs by done. unfold l in Hs. by rewrite length_fmap, length_seq in Hs.
Qed.

Lemma allocate_id_spec tries m :
  in_ids (next_id m) -> 0 <= tries < I32_MAX -> Z.of_nat (size (by_id m)) < tries ->
  exists id next, allocate_id tries m = (Ok id, mk_manager (by_id m) (by_key m) next)
    /\ in_ids id /\ by_id m !! id = None /\ in_ids next.
Proof.
  intros Hn Ht Hs. unfold allocate_id. pose proof (allocate_loop_spec (Z.to_nat tries) (by_id m) (next_id m) Hn) as H.
  destruct (allocate_loop _ _ _) as [[id|] next]; [destruct H as (? & ? & ?); eauto 10|].
  destruct H as [_ H]. apply pigeonhole in H; lia.
Qed.

(** ** Consistency *)

(** What the objects of a kind promise to the manager. *)
Class IpcObjectLaws (A : Type) `{IpcObject A} : Type := {
  obj_wf : A -> Prop;
  obj_mark_perm a : obj_perm (obj_mark a) = obj_perm a;
  obj_mark_removed a : obj_removed (obj_mark a) = true;
  obj_mark_wf a : obj_wf a -> obj_wf (obj_mark a);
  obj_max_range : 0 <= obj_max (A := A) < I32_MAX
}.

Section consistency.
Context `{IpcObjectLaws A}.
Implicit Types (w : registry A) (a b : A) (objects : list A) (m : Manager).

(** Whether a number stands for an object with key [k]. *)
Definition named (ids : gmap Z nat) objects (k id : Z) : Prop :=
  exists q a, ids !! id = Some q /\ objects !! q = Some a /\ perm_key (obj_perm a) = k.

(** The numbers stand for the objects that are not removed, one each, and the keys
    for those of them that have one. *)
Record consistent w : Prop := {
  con_ids : forall id q, by_id w.1 !! id = Some q -> in_ids id /\ exists a, w.2 !! q = Some a /\ obj_removed a = false;
  con_inj : forall id id' q, by_id w.1 !! id = Some q -> by_id w.1 !! id' = Some q -> id = id';
  con_live : forall q a, w.2 !! q = Some a -> obj_removed a = false -> exists id, by_id w.1 !! id = Some q;
  con_keys : forall k id, by_key w.1 !! k = Some id <->
    k <> IPC_PRIVATE /\ named (by_id w.1) w.2 k id;
  con_next : in_ids (next_id w.1);
  con_size : Z.of_nat (size (by_id w.1)) <= obj_max (A := A);
  con_objects : Forall obj_wf w.2
}.

Lemma new_consistent : consistent (new_manager, []).
Proof.
  split; cbn; try done.
  - intros k id. split; [done|]. by intros (_ & q & s & ? & _).
  - apply obj_max_range.
Qed.

(** What an operation on an object leaves alone. *)
Definition same_name a b : Prop := perm_key (obj_perm b) = perm_key (obj_perm a) /\ obj_removed b = obj_removed a.

(** Every operation of an object keeps it well-formed and its name. *)
Definition keeps_object a b : Prop := obj_wf a -> obj_wf b /\ same_name a b.

Lemma update_consistent m objects q s s' :
  consistent (m, objects) -> objects !! q = Some s -> same_name s s' -> obj_wf s' -> consistent (m, <[q := s']> objects).
Proof.
  intros [H1 H2 H3 H4 H5 H6 H7] Hs [Hk Hr] Hwf. pose proof (lookup_lt_Some _ _ _ Hs) as Hq.
  assert (Hlk : forall q' x', <[q := s']> objects !! q' = Some x' -> exists x, objects !! q' = Some x /\ same_name x x').
  { intros q' x' Hx. apply list_lookup_insert_Some in Hx as [(<- & <- & _)|[_ Hx]]; [by exists s|by exists x']. }
  assert (Hlk' : forall q' x, objects !! q' = Some x -> exists x', <[q := s']> objects !! q' = Some x' /\ same_name x x').
  { intros q' x Hx. destruct (decide (q' = q)) as [->|]; [|exists x; by rewrite list_lookup_insert_ne].
    exists s'. rewrite list_lookup_insert_eq by done. by simplify_eq. }
  split; cbn in *; try done.
  - intros id q' Hi. destruct (H1 id q' Hi) as [? (x & Hx & ?)]. split; [done|]. destruct (Hlk' q' x Hx) as (x' & ? & [_ E]).
    exists x'. split; congruence.
  - intros q' x' Hx Hrm. destruct (Hlk q' x' Hx) as (x & Hx' & [_ E]). apply (H3 q' x Hx'). congruence.
  - intros k id. rewrite H4. split; intros (? & q' & x & ? & Hx & ?); (split; [done|]).
    + destruct (Hlk' q' x Hx) as (x' & ? & [E _]). exists q', x'. split_and!; congruence.
    + destruct (Hlk q' x Hx) as (x' & ? & [E _]). exists q', x'. split_and!; congruence.
  - by apply Forall_insert.
Qed.

Lemma named_insert ids objects id a k id' :
  (forall id q, ids !! id = Some q -> (q < length objects)%nat) ->
  named (<[id := length objects]> ids) (objects ++ [a]) k id'
  <-> id' = id /\ k = perm_key (obj_perm a) \/ id' <> id /\ named ids objects k id'.
Proof.
  intros Hold. unfold named. destruct (decide (id' = id)) as [->|Hne].
  - rewrite lookup_insert_eq. split; [intros (q & b & [= <-] & Hs & <-)|intros [[_ ->]|[? _]]; [|done]].
    + rewrite lookup_app_r, Nat.sub_diag in Hs by lia. injection Hs as <-. auto.
    + exists (length objects), a. by rewrite lookup_app_r, Nat.sub_diag by lia.
  - rewrite lookup_insert_ne by done. split; [intros (q & b & Hq & Hs & Hk)|intros [[? _]|(_ & q & b & Hq & Hs & Hk)]; [done|]].
    + right. split; [done|]. exists q, b. rewrite lookup_app_l in Hs by (by eapply Hold). done.
    + exists q, b. by rewrite lookup_app_l by (by eapply Hold).
Qed.

Lemma named_delete ids objects id q a k id' :
  (forall id id' q, ids !! id = Some q -> ids !! id' = Some q -> id = id') -> ids !! id = Some q ->
  named (delete id ids) (<[q := a]> objects) k id' <-> id' <> id /\ named ids objects k id'.
Proof.
  intros Hinj Hid. unfold named. split.
  - intros (q' & b & [Hn Hq']%lookup_delete_Some & Hb & Hk). split; [done|]. exists q', b.
    rewrite list_lookup_insert_ne in Hb; [done|]. intros ->. apply Hn. by eapply Hinj.
  - intros (Hd & q' & b & Hq' & Hb & Hk). exists q', b. rewrite lookup_delete_ne, list_lookup_insert_ne; [done| |done].
    intros <-. apply Hd. by eapply Hinj.
Qed.

Lemma insert_consistent m objects id key s0 next :
  consistent (m, objects) -> by_id m !! id = None -> in_ids id -> in_ids next -> Z.of_nat (size (by_id m)) < obj_max (A := A) ->
  obj_wf s0 -> obj_removed s0 = false -> perm_key (obj_perm s0) = key -> (key <> IPC_PRIVATE -> by_key m !! key = None) ->
  consistent (mk_manager (<[id := length objects]> (by_id m))
                (if key =? IPC_PRIVATE then by_key m else <[key := id]> (by_key m)) next,
              objects ++ [s0]).
Proof.
  intros [H1 H2 H3 H4 H5 H6 H7] Hid Hin Hnx Hsz Hwf Hrm Hk0 Hkey.
  assert (Hold : forall id' q, by_id m !! id' = Some q -> (q < length objects)%nat).
  { intros id' q Hq. destruct (H1 id' q Hq) as [_ (s & Hs & _)]. by apply lookup_lt_Some in Hs. }
  assert (Hlast : (objects ++ [s0]) !! length objects = Some s0) by (by rewrite lookup_app_r, Nat.sub_diag by lia).
  assert (Hfirst : forall q, (q < length objects)%nat -> (objects ++ [s0]) !! q = objects !! q) by (intros q Hq; by apply lookup_app_l).
  split; cbn [fst snd by_id by_key next_id] in *; try done.
  - intros id' q. destruct (decide (id' = id)) as [->|]; [rewrite lookup_insert_eq|rewrite lookup_insert_ne by done].
    + intros [= <-]. split; [done|]. by exists s0.
    + intros Hq. destruct (H1 id' q Hq) as [? (s & Hs & ?)]. split; [done|]. exists s.
      by rewrite Hfirst by (by eapply Hold).
  - intros id1 id2 q. destruct (decide (id1 = id)) as [->|], (decide (id2 = id)) as [->|]; try done;
      rewrite ?lookup_insert_eq, ?lookup_insert_ne by done; [intros [= <-] Hq%Hold|intros Hq%Hold [= <-]|apply H2]; lia.
  - intros q s Hs Hr. destruct (decide (q < length objects)%nat) as [Hq|Hq].
    + rewrite Hfirst in Hs by done. destruct (H3 q s Hs Hr) as [id' Hid']. exists id'. rewrite lookup_insert_ne; [done|congruence].
    + assert (q = length objects) as ->; [|exists id; apply lookup_insert_eq]. apply lookup_lt_Some in Hs. rewrite length_app in Hs. cbn in Hs. lia.
  - intros k id'. rewrite named_insert, Hk0 by done. destruct (Z.eqb_spec key IPC_PRIVATE) as [->|Hk].
    + rewrite H4. split; [intros (? & Hn)|intros (? & [[_ ?]|[_ ?]])]; [|done|done]. split; [done|]. right.
      split; [|done]. intros ->. destruct Hn as (q & a & ? & _). congruence.
    + destruct (decide (k = key)) as [->|Hne]; [rewrite lookup_insert_eq|rewrite lookup_insert_ne, H4 by done].
      * split; [intros [= ->]; auto|]. intros (_ & [[-> _]|(_ & Hq)]); [done|].
        pose proof (proj2 (H4 key id') (conj Hk Hq)) as Hc. rewrite (Hkey Hk) in Hc. done.
      * split; [intros (? & Hn)|intros (? & [[_ ?]|[_ ?]])]; [|done|done]. split; [done|]. right.
        split; [|done]. intros ->. destruct Hn as (q & a & ? & _). congruence.
  - rewrite map_size_insert_None by done. lia.
  - apply Forall_app. split; [done|]. by constructor.
Qed.

Lemma remove_consistent id cred w : consistent w -> consistent (remove_object id cred w).2.
Proof.
  destruct w as [m objects]. unfold remove_object. intros Hcon. pose proof Hcon as [H1 H2 H3 H4 H5 H6 H7].
  destruct (by_id m !! id) as [q|] eqn:Eq; [|done]. destruct (objects !! q) as [s|] eqn:Es; [|done].
  destruct (check_control_owner cred (obj_perm s)); [|done]. cbn [snd]. pose proof (lookup_lt_Some _ _ _ Es) as Hlt.
  destruct (H1 id q Eq) as [Hin (s0 & Hs0 & Hr)]. cbn in *. rewrite Es in Hs0. simplify_eq.
  assert (Hne : forall id' q', delete id (by_id m) !! id' = Some q' -> by_id m !! id' = Some q' /\ id' <> id /\ q' <> q).
  { intros id' q' [Hn Hq']%lookup_delete_Some. split_and!; try done. intros ->. apply Hn. by eapply H2. }
  split; cbn [fst snd by_id by_key next_id] in *; try done.
  - intros id' q' (Hq' & _ & Hd)%Hne. rewrite list_lookup_insert_ne by done. by apply H1.
  - intros id1 id2 q' (Ha & _ & _)%Hne (Hb & _ & _)%Hne. by eapply H2.
  - intros q' s' Hs' Hr'. destruct (decide (q' = q)) as [->|Hd]; [rewrite list_lookup_insert_eq in Hs' by done; injection Hs' as <-; by rewrite obj_mark_removed in Hr'|].
    rewrite list_lookup_insert_ne in Hs' by done. destruct (H3 q' s' Hs' Hr') as [id' Hid']. exists id'.
    rewrite lookup_delete_ne; [done|]. intros ->. congruence.
  - intros k id'. rewrite named_delete by done. destruct (Z.eqb_spec (perm_key (obj_perm s0)) IPC_PRIVATE) as [Hp|Hp].
    + rewrite H4. split; [intros (? & Hn)|by intros (? & _ & ?)]. split; [done|]. split; [|done].
      intros ->. destruct Hn as (q' & s' & ? & ? & ?). congruence.
    + rewrite lookup_delete_Some, H4. split.
      * intros (Hk & ? & Hn). split; [done|]. split; [|done]. intros ->. destruct Hn as (q' & s' & ? & ? & ?). congruence.
      * intros (? & Hd & Hex). split; [|done]. intros <-. apply Hd.
        assert (Ha : by_key m !! perm_key (obj_perm s0) = Some id') by (by apply H4).
        assert (Hb : by_key m !! perm_key (obj_perm s0) = Some id) by (apply H4; split; [done|]; by exists q, s0). congruence.
  - pose proof (map_size_delete id (by_id m)) as Hz. rewrite Eq in Hz. cbn in Hz. lia.
  - apply Forall_insert; [done|]. exact (obj_mark_wf _ (Forall_lookup_1 _ _ _ _ H7 Es)).
Qed.

(** A new object is refused only for want of room: the search for a number, of
    [obj_max] tries, always finds one. *)
Lemma create_object_spec key a m objects :
  consistent (m, objects) -> obj_wf a -> obj_removed a = false -> perm_key (obj_perm a) = key ->
  (key <> IPC_PRIVATE -> by_key m !! key = None) ->
  match create_object key a (m, objects) with
  | (Ok id, w') => in_ids id /\ by_id m !! id = None /\ by_id w'.1 !! id = Some (length objects)
      /\ w'.2 = objects ++ [a] /\ (key <> IPC_PRIVATE -> by_key w'.1 !! key = Some id)
      /\ Z.of_nat (size (by_id m)) < obj_max (A := A) /\ consistent w'
  | (Err e, w') => w' = (m, objects) /\ e = ENOSPC /\ Z.of_nat (size (by_id m)) = obj_max (A := A)
  end.
Proof.
  intros Hcon Hwf Hrm Hk Hkey. unfold create_object. pose proof (con_size _ Hcon) as Hsz. cbn in Hsz.
  destruct (Z.leb_spec (obj_max (A := A)) (Z.of_nat (size (by_id m)))); [split_and!; (done || lia)|].
  destruct (allocate_id_spec (obj_max (A := A)) m) as (id & next & -> & Hid & Hfree & Hnext);
    [apply (con_next _ Hcon)|apply obj_max_range|done|].
  split_and!; cbn [fst snd by_id by_key next_id]; try done.
  - apply lookup_insert_eq.
  - intros Hp. rewrite (proj2 (Z.eqb_neq key IPC_PRIVATE)) by done. apply lookup_insert_eq.
  - by apply insert_consistent.
Qed.

(** ** The objects *)

Lemma object_lookup w id q : consistent w -> object_for_operation w.1 id = Ok q -> (q < length w.2)%nat.
Proof.
  intros Hcon. unfold object_for_operation, ok_or. destruct (by_id w.1 !! id) as [q'|] eqn:E; [|done]. intros [= <-].
  destruct (con_ids _ Hcon id q' E) as [_ (a & Ha & _)]. by eapply lookup_lt_Some.
Qed.

Lemma remove_objects id cred w :
  match remove_object id cred w with
  | (Ok q, w') => exists a, w.2 !! q = Some a /\ w'.2 = <[q := obj_mark a]> w.2
  | (Err _, w') => w' = w
  end.
Proof.
  destruct w as [m l]. unfold remove_object. destruct (by_id m !! id) as [q|]; [|done].
  destruct (l !! q) as [a|] eqn:Ea; [|done]. destruct (check_control_owner cred (obj_perm a)); [|done]. by exists a.
Qed.

Lemma create_objects key a w : (create_object key a w).2.2 = w.2 \/ (create_object key a w).2.2 = w.2 ++ [a].
Proof.
  destruct w as [m l]. unfold create_object. destruct (_ <=? _); [by left|].
  destruct (allocate_id _ m) as [[id|e] m']; [by right|by left].
Qed.

End consistency.
