(* ===== verification/Sem.v ===== *)
(** * System V semaphores

    The model of [general/src/ipc/sem.rs], of the undo tables of
    [general/src/ipc/sem_undo.rs] and of the decoding in
    [kernel/src/syscalls/ipc.rs].  Each operation of a semaphore set is one
    critical section of its lock. *)

From stdpp Require Import gmap sorting.
From S2P Require Import Prelude Cred Ipc.

(** ** Constants, octal in the source *)

Definition SEM_UNDO : Z := 0x1000.
Definition SEMVMX : Z := 32767.
Definition SEMOPM : Z := 500.
Definition SEMMSL : Z := 32000.
Definition SEMMNI : Z := 32000.

(** ** Semaphore sets *)

Record SemOperation : Type := mk_op { sem_num : Z; sem_op : Z; sem_flg : Z }.

Inductive SemBlockKind : Type := Increment | Zero.
Inductive SemOpAttempt : Type := Applied | WouldBlock (n : nat) (k : SemBlockKind).

#[export] Instance SemOperation_eq_dec : EqDecision SemOperation.
Proof. solve_decision. Defined.
#[export] Instance SemBlockKind_eq_dec : EqDecision SemBlockKind.
Proof. solve_decision. Defined.
#[export] Instance SemOpAttempt_eq_dec : EqDecision SemOpAttempt.
Proof. solve_decision. Defined.

Record SemValue : Type := mk_value { val : Z; sempid : Z; semncnt : Z; semzcnt : Z }.

Record SemSet : Type := mk_set {
  perm : IpcPerm; values : list SemValue; otime : Z; ctime : Z; removed : bool
}.

Definition set_val (x : Z) (v : SemValue) : SemValue := mk_value x (sempid v) (semncnt v) (semzcnt v).
Definition set_pid (p : Z) (v : SemValue) : SemValue := mk_value (val v) p (semncnt v) (semzcnt v).
Definition with_values (vs : list SemValue) (s : SemSet) : SemSet :=
  mk_set (perm s) vs (otime s) (ctime s) (removed s).

Definition new_set (key nsems flags : Z) (cred : Credentials) (now_sec : Z) : SemSet :=
  mk_set (new_perm key flags cred) (replicate (Z.to_nat nsems) (mk_value 0 0 0 0)) 0 now_sec false.
Definition nsems_of (s : SemSet) : Z := Z.of_nat (length (values s)).

(** ** Permissions *)

Definition check_operation_permissions (cred : Credentials) (p : IpcPerm) (ops : list SemOperation) : result unit Errno :=
  if has_cap cred IpcOwner then Ok ()
  else
    let? _ := refuse (existsb (fun o => sem_op o =? 0) ops && negb (may_read cred p)) EACCES in
    refuse (existsb (fun o => negb (sem_op o =? 0)) ops && negb (may_write cred p)) EACCES.

(** ** A batch of operations *)

Definition flag_set (o : SemOperation) (f : Z) : bool := negb (Z.land (sem_flg o) f =? 0).

(** One round of the loop of [try_apply] on the values it works on: an error, the
    place that blocks, or the values so far. *)
Inductive round : Type := Fails (e : Errno) | Blocks (n : nat) (k : SemBlockKind) | Goes (vs : list SemValue).

Definition try_operation (o : SemOperation) (vs : list SemValue) : round :=
  if negb (Z.ldiff (sem_flg o) (Z.lor IPC_NOWAIT SEM_UNDO) =? 0) then Fails EINVAL
  else
    let n := Z.to_nat (sem_num o) in
    match vs !! n with
    | None => Fails EFBIG
    | Some v =>
        let delta := sem_op o in
        if 0 <? delta then
          let updated := val v + delta in
          if I32_MAX <? updated then Fails ERANGE
          else if SEMVMX <? updated then Fails ERANGE
          else Goes (<[n := set_val updated v]> vs)
        else if delta <? 0 then
          let needed := - delta in
          if val v <? needed then
            if flag_set o IPC_NOWAIT then Fails EAGAIN else Blocks n Increment
          else Goes (<[n := set_val (val v - needed) v]> vs)
        else if negb (val v =? 0) then
          if flag_set o IPC_NOWAIT then Fails EAGAIN else Blocks n Zero
        else Goes vs
    end.

Fixpoint try_operations (ops : list SemOperation) (vs : list SemValue) : round :=
  match ops with
  | [] => Goes vs
  | o :: ops =>
      match try_operation o vs with
      | Goes vs => try_operations ops vs
      | r => r
      end
  end.

(** The second loop: the process that operated last. *)
Definition stamp (pid : Z) (ops : list SemOperation) (vs : list SemValue) : list SemValue :=
  foldl (fun vs o => alter (set_pid pid) (Z.to_nat (sem_num o)) vs) vs ops.

Definition try_apply (ops : list SemOperation) (cred : Credentials) (pid now_sec : Z) (s : SemSet)
  : result SemOpAttempt Errno * SemSet :=
  match ops with
  | [] => (Err EINVAL, s)
  | _ =>
      if SEMOPM <? Z.of_nat (length ops) then (Err E2BIG, s)
      else if removed s then (Err EIDRM, s)
      else
        match check_operation_permissions cred (perm s) ops with
        | Err e => (Err e, s)
        | Ok _ =>
            match try_operations ops (values s) with
            | Fails e => (Err e, s)
            | Blocks n k => (Ok (WouldBlock n k), s)
            | Goes vs => (Ok Applied, mk_set (perm s) (stamp pid ops vs) now_sec (ctime s) (removed s))
            end
        end
  end.

(** ** Counting those that wait *)

(** [u32::saturating_add(1)] and [saturating_sub(1)]. *)
Definition count_up (k : SemBlockKind) (v : SemValue) : SemValue :=
  match k with
  | Increment => mk_value (val v) (sempid v) (Z.min U32_MAX (semncnt v + 1)) (semzcnt v)
  | Zero => mk_value (val v) (sempid v) (semncnt v) (Z.min U32_MAX (semzcnt v + 1))
  end.
Definition count_down (k : SemBlockKind) (v : SemValue) : SemValue :=
  match k with
  | Increment => mk_value (val v) (sempid v) (Z.max 0 (semncnt v - 1)) (semzcnt v)
  | Zero => mk_value (val v) (sempid v) (semncnt v) (Z.max 0 (semzcnt v - 1))
  end.

Definition register_blocked (n : nat) (k : SemBlockKind) (s : SemSet) : result unit Errno * SemSet :=
  if removed s then (Err EIDRM, s)
  else match values s !! n with
       | None => (Err EFBIG, s)
       | Some v => (Ok (), with_values (<[n := count_up k v]> (values s)) s)
       end.

Definition unregister_blocked (n : nat) (k : SemBlockKind) (s : SemSet) : SemSet :=
  match values s !! n with
  | None => s
  | Some v => with_values (<[n := count_down k v]> (values s)) s
  end.

(** ** Control *)

(** What [get_value], [get_pid], [get_ncnt] and [get_zcnt] have in common: the
    field of a semaphore that they read. *)
Definition get_field (f : SemValue -> Z) (sem_num : Z) (cred : Credentials) (s : SemSet) : result Z Errno :=
  let? _ := refuse (removed s) EIDRM in
  let? _ := refuse (negb (may_read cred (perm s))) EACCES in
  ok_or (f <$> values s !! Z.to_nat sem_num) EINVAL.
Definition get_value : Z -> Credentials -> SemSet -> result Z Errno := get_field val.
Definition get_pid : Z -> Credentials -> SemSet -> result Z Errno := get_field sempid.
Definition get_ncnt : Z -> Credentials -> SemSet -> result Z Errno := get_field semncnt.
Definition get_zcnt : Z -> Credentials -> SemSet -> result Z Errno := get_field semzcnt.

Definition get_all (cred : Credentials) (s : SemSet) : result (list Z) Errno :=
  let? _ := refuse (removed s) EIDRM in
  let? _ := refuse (negb (may_read cred (perm s))) EACCES in
  Ok (val <$> values s).

Definition in_range (x : Z) : bool := (0 <=? x) && (x <=? SEMVMX).

Definition set_value (sem_num value : Z) (cred : Credentials) (pid now_sec : Z) (s : SemSet)
  : result SemSet Errno :=
  let? _ := refuse (negb (in_range value)) ERANGE in
  let? _ := refuse (removed s) EIDRM in
  let? _ := refuse (negb (may_write cred (perm s))) EACCES in
  let? slot := ok_or (values s !! Z.to_nat sem_num) EINVAL in
  Ok (mk_set (perm s) (<[Z.to_nat sem_num := set_pid pid (set_val value slot)]> (values s)) (otime s) now_sec (removed s)).

(** The number of semaphores of a set does not change, so that its separate look
    at the length is part of the critical section. *)
Definition set_all (vals : list Z) (cred : Credentials) (pid now_sec : Z) (s : SemSet) : result SemSet Errno :=
  let? _ := refuse (negb (Z.of_nat (length vals) =? nsems_of s)) EINVAL in
  let? _ := refuse (existsb (fun x => negb (in_range x)) vals) ERANGE in
  let? _ := refuse (removed s) EIDRM in
  let? _ := refuse (negb (may_write cred (perm s))) EACCES in
  Ok (mk_set (perm s) (zip_with (fun slot x => set_pid pid (set_val x slot)) (values s) vals) (otime s) now_sec (removed s)).

Record SemMetadata : Type := mk_meta { meta_perm : IpcPerm; meta_otime : Z; meta_ctime : Z; meta_nsems : Z }.

Definition stat_inner (cred : Credentials) (check_perms : bool) (s : SemSet) : result SemMetadata Errno :=
  let? _ := refuse (removed s) EIDRM in
  let? _ := refuse (check_perms && negb (may_read cred (perm s))) EACCES in
  Ok (mk_meta (perm s) (otime s) (ctime s) (nsems_of s)).
Definition stat (cred : Credentials) (s : SemSet) : result SemMetadata Errno := stat_inner cred true s.
Definition stat_any (s : SemSet) : result SemMetadata Errno := stat_inner root false s.

Definition set_perm (u g : option Z) (mode : option FileMode) (cred : Credentials) (now_sec : Z) (s : SemSet)
  : result SemSet Errno :=
  let? _ := refuse (removed s) EIDRM in
  let? _ := check_control_owner cred (perm s) in
  Ok (mk_set (change_perm u g mode (perm s)) (values s) (otime s) now_sec (removed s)).

(** ** The manager *)

Definition mark_removed (s : SemSet) : SemSet := mk_set (perm s) (values s) (otime s) (ctime s) true.
#[export] Instance set_object : IpcObject SemSet :=
  { obj_perm := perm; obj_removed := removed; obj_mark := mark_removed; obj_max := SEMMNI }.

(** The manager and the sets it hands out. *)
Definition ipc : Type := registry SemSet.

Definition set_for_operation : Manager -> Z -> result nat Errno := object_for_operation.

(** A key that exists, in [semget]. *)
Definition semget_existing (id nsems flags : Z) (cred : Credentials) (w : ipc) : result Z Errno :=
  let? q := ok_or (by_id w.1 !! id) EINVAL in
  let? s := ok_or (w.2 !! q) EINVAL in
  let? _ := refuse (negb (Z.land flags IPC_CREAT =? 0) && negb (Z.land flags IPC_EXCL =? 0)) EEXIST in
  let? _ := refuse (nsems_of s <? nsems) EINVAL in
  let? _ := check_requested_mode flags cred s in
  Ok id.

Definition semget_create (key nsems flags : Z) (cred : Credentials) (now_sec : Z) (w : ipc) : result Z Errno * ipc :=
  if (nsems =? 0) || (SEMMSL <? nsems) then (Err EINVAL, w)
  else create_object key (new_set key nsems flags cred now_sec) w.

Definition semget (key nsems flags : Z) (cred : Credentials) (now_sec : Z) (w : ipc) : result Z Errno * ipc :=
  if key =? IPC_PRIVATE then semget_create key nsems flags cred now_sec w
  else
    match by_key w.1 !! key with
    | Some id => (semget_existing id nsems flags cred w, w)
    | None =>
        if Z.land flags IPC_CREAT =? 0 then (Err ENOENT, w)
        else semget_create key nsems flags cred now_sec w
    end.

Definition remove : Z -> Credentials -> ipc -> result nat Errno * ipc := remove_object.

Definition set_by_index : Z -> Manager -> result (Z * nat) Errno := object_by_index.

Record SemSystemInfo : Type := mk_info { info_sets : Z; info_sems : Z; max_index : Z }.
Definition info (w : ipc) : SemSystemInfo :=
  let ids := btree_iter (by_id w.1) in
  mk_info (Z.of_nat (length ids))
    (foldr Z.add 0 (map (fun x => from_option nsems_of 0 (w.2 !! x.2)) ids))
    (from_option fst 0 (last ids)).

(** ** Undo tables *)

(** For each set, by its number, what to add to its semaphores. *)
Abbreviation SemUndoTable := (gmap Z (list Z)).

(** [i64::saturating_add]. *)
Definition i64_saturating_add (a b : Z) : Z := Z.max I64_MIN (Z.min I64_MAX (a + b)).

(** One round of the loop of [record]. *)
Definition record_operation (entry : list Z) (o : SemOperation) : list Z :=
  if negb (flag_set o SEM_UNDO) then entry
  else
    let index := Z.to_nat (sem_num o) in
    let entry := entry ++ replicate (S index - length entry) 0 in
    alter (fun x => i64_saturating_add x (- sem_op o)) index entry.
Definition record (id : Z) (ops : list SemOperation) (t : SemUndoTable) : SemUndoTable :=
  <[id := foldl record_operation (default [] (t !! id)) ops]> t.

(** [record_sem_undo] of the system call. *)
Definition record_sem_undo (id : Z) (ops : list SemOperation) (t : SemUndoTable) : SemUndoTable :=
  if existsb (fun o => flag_set o SEM_UNDO) ops then record id ops t else t.

Definition clear (id : Z) (t : SemUndoTable) : SemUndoTable := delete id t.

(** [i16::try_from]. *)
Definition try_i16 (x : Z) : option Z := if (-32768 <=? x) && (x <=? 32767) then Some x else None.

(** The batch that undoes the adjustments of one set, from number [n] on; nothing
    if one of them does not fit. *)
Fixpoint undo_operations (n : nat) (adjustments : list Z) : option (list SemOperation) :=
  match adjustments with
  | [] => Some []
  | delta :: adjustments =>
      if delta =? 0 then undo_operations (S n) adjustments
      else
        sem_op ← try_i16 delta;
        ops ← undo_operations (S n) adjustments;
        Some (mk_op (Z.of_nat n mod 65536) sem_op 0 :: ops)
  end.

(** ** Decoding *)

(** [i16::from_le_bytes] and [i64::from_le_bytes]. *)
Definition as_i16 (x : Z) : Z := if x <=? 32767 then x else x - 65536.
Definition i64_from_le (l : list Z) : Z := as_isize (of_le_bytes l).

Definition SEMBUF_SIZE : Z := 6.

(** The loop over [chunks_exact]. *)
Fixpoint parse_operations (raw : list Z) : list SemOperation :=
  match raw with
  | b0 :: b1 :: b2 :: b3 :: b4 :: b5 :: rest =>
      mk_op (of_le_bytes [b0; b1]) (as_i16 (of_le_bytes [b2; b3])) (of_le_bytes [b4; b5]) :: parse_operations rest
  | _ => []
  end.

(** [user n] is what [copy_from_user] gives for [n] bytes at the address. *)
Definition read_sem_operations (user : Z -> result (list Z) Errno) (count : Z) : result (list SemOperation) Errno :=
  let? _ := refuse (count =? 0) EINVAL in
  let? _ := refuse (SEMOPM <? count) E2BIG in
  let? _ := refuse (USIZE_MAX <? count * SEMBUF_SIZE) E2BIG in
  let? raw := user (count * SEMBUF_SIZE) in
  Ok (parse_operations raw).

(** The time at which [semtimedop] gives up, from the [timespec] of the caller, the
    time of day and the monotonic clock. *)
Definition read_sem_deadline (address : Z) (user : Z -> result (list Z) Errno) (now_realtime now_ns : Z)
  : result (option Z) Errno :=
  if address =? 0 then Ok None
  else
    let? raw := user 16 in
    let seconds := i64_from_le (take 8 raw) in
    let nanoseconds := i64_from_le (take 8 (drop 8 raw)) in
    let? _ := refuse ((seconds <? 0) || negb ((0 <=? nanoseconds) && (nanoseconds <? 1000000000))) EINVAL in
    let product := seconds * 1000000000 in
    let? _ := refuse (U64_MAX <? product) EINVAL in
    let? abs_realtime := ok_or (checked_add product nanoseconds) EINVAL in
    let delta := saturating_sub abs_realtime now_realtime in
    Ok (Some (saturating_add now_ns delta)).
