(* ===== verification/SemProofs.v ===== *)
(** * System V semaphores: operations

    What a batch of operations does, in terms of the level that each semaphore
    has after the first operations of the batch; the undo tables; numbers of
    sets. *)

From stdpp Require Import gmap sorting.
From S2P Require Import Prelude Cred Ipc Sem.

(** ** Levels *)

Definition vals_of (s : SemSet) : list Z := val <$> values s.

(** What operations add to a semaphore. *)
Definition added (ops : list SemOperation) (i : nat) : Z :=
  foldr Z.add 0 (map (fun o => if bool_decide (Z.to_nat (sem_num o) = i) then sem_op o else 0) ops).
Definition level (vals : list Z) (ops : list SemOperation) (i : nat) : Z := default 0 (vals !! i) + added ops i.

Lemma added_app ops ops' i : added (ops ++ ops') i = added ops i + added ops' i.
Proof.
  unfold added. rewrite map_app, foldr_app. induction (map _ ops) as [|x l IH]; cbn; [done|]. rewrite IH. lia.
Qed.

Lemma added_cons o ops i :
  added (o :: ops) i = (if bool_decide (Z.to_nat (sem_num o) = i) then sem_op o else 0) + added ops i.
Proof. done. Qed.

(** Why an operation does not go through, when its semaphore is at [x] and the
    set has [n] of them. *)
Definition verdict (n : nat) (x : Z) (o : SemOperation) : option (result SemOpAttempt Errno) :=
  let wait k := Some (if flag_set o IPC_NOWAIT then Err EAGAIN else Ok (WouldBlock (Z.to_nat (sem_num o)) k)) in
  if negb (Z.ldiff (sem_flg o) (Z.lor IPC_NOWAIT SEM_UNDO) =? 0) then Some (Err EINVAL)
  else if bool_decide (n <= Z.to_nat (sem_num o))%nat then Some (Err EFBIG)
  else if (0 <? sem_op o) && (SEMVMX <? x + sem_op o) then Some (Err ERANGE)
  else if (sem_op o <? 0) && (x + sem_op o <? 0) then wait Increment
  else if (sem_op o =? 0) && negb (x =? 0) then wait Zero
  else None.

(** The operations go through one after the other. *)
Definition goes_through (vals : list Z) (ops : list SemOperation) : Prop :=
  forall done o rest, ops = done ++ o :: rest ->
    verdict (length vals) (level vals done (Z.to_nat (sem_num o))) o = None.

(** The first one that does not. *)
Definition stops_at (vals : list Z) (ops : list SemOperation) (r : result SemOpAttempt Errno) : Prop :=
  exists done o rest, ops = done ++ o :: rest /\ goes_through vals done
    /\ verdict (length vals) (level vals done (Z.to_nat (sem_num o))) o = Some r.

Definition round_result (r : round) : option (result SemOpAttempt Errno) :=
  match r with Fails e => Some (Err e) | Blocks n k => Some (Ok (WouldBlock n k)) | Goes _ => None end.

(** The values with new levels. *)
Definition relevel (vs : list SemValue) (ops : list SemOperation) : list SemValue :=
  imap (fun i v => set_val (val v + added ops i) v) vs.

Lemma relevel_lookup vs ops i : relevel vs ops !! i = (fun v => set_val (val v + added ops i) v) <$> vs !! i.
Proof. unfold relevel. by rewrite list_lookup_imap. Qed.

Lemma relevel_one vs o v x :
  vs !! Z.to_nat (sem_num o) = Some v -> x = val v + sem_op o ->
  <[Z.to_nat (sem_num o) := set_val x v]> vs = relevel vs [o].
Proof.
  intros Hv ->. apply list_eq. intros i. rewrite relevel_lookup, added_cons. cbn [added map foldr].
  case_bool_decide as E; [subst i|].
  - rewrite list_lookup_insert_eq by (by eapply lookup_lt_Some). rewrite Hv. cbn. by rewrite Z.add_0_r.
  - rewrite list_lookup_insert_ne by done. destruct (vs !! i) as [[]|]; [|done]. cbn. unfold set_val. cbn. by rewrite Z.add_0_r.
Qed.

Lemma relevel_nil vs : relevel vs [] = vs.
Proof.
  apply list_eq. intros i. rewrite relevel_lookup. destruct (vs !! i) as [[]|]; [|done]. cbn. unfold set_val. cbn.
  by rewrite Z.add_0_r.
Qed.

Lemma relevel_app vs ops ops' : relevel (relevel vs ops) ops' = relevel vs (ops ++ ops').
Proof.
  apply list_eq. intros i. rewrite !relevel_lookup, added_app. destruct (vs !! i); [|done]. cbn. unfold set_val. cbn.
  by rewrite Z.add_assoc.
Qed.

Lemma relevel_vals vs ops : val <$> relevel vs ops = imap (fun i x => x + added ops i) (val <$> vs).
Proof.
  apply list_eq. intros i. rewrite list_lookup_fmap, relevel_lookup, list_lookup_imap, list_lookup_fmap.
  by destruct (vs !! i).
Qed.

Lemma length_relevel vs ops : length (relevel vs ops) = length vs.
Proof. unfold relevel. by rewrite length_imap. Qed.

(** One round, at the level of its semaphore. *)
Lemma try_operation_spec o vs :
  let r := try_operation o vs in
  round_result r = verdict (length vs) (default 0 ((val <$> vs) !! Z.to_nat (sem_num o))) o
  /\ forall vs', r = Goes vs' -> vs' = relevel vs [o].
Proof.
  cbn zeta. unfold try_operation, verdict. destruct (negb _); [done|]. rewrite list_lookup_fmap.
  case_bool_decide as Hlen; [by rewrite (lookup_ge_None_2 vs)|].
  destruct (lookup_lt_is_Some_2 vs (Z.to_nat (sem_num o))) as [v Hv]; [lia|]. rewrite Hv. cbn [fmap option_fmap option_map default from_option id].
  assert (Hgo : forall x, x = val v + sem_op o -> forall vs', Goes (<[Z.to_nat (sem_num o) := set_val x v]> vs) = Goes vs' ->
    vs' = relevel vs [o]) by (intros x -> vs' [= <-]; by eapply relevel_one).
  unfold I32_MAX, SEMVMX in *. destruct (Z.ltb_spec 0 (sem_op o)); cbn [andb].
  - destruct (Z.ltb_spec 2147483647 (val v + sem_op o)); [by rewrite (proj2 (Z.ltb_lt 32767 _)) by lia|].
    destruct (Z.ltb_spec 32767 (val v + sem_op o)); [done|].
    rewrite (proj2 (Z.ltb_ge (sem_op o) 0)), (proj2 (Z.eqb_neq (sem_op o) 0)) by lia. split; [done|by apply Hgo].
  - destruct (Z.ltb_spec (sem_op o) 0); cbn [andb].
    + destruct (Z.ltb_spec (val v) (- sem_op o)).
      * rewrite (proj2 (Z.ltb_lt _ _)) by lia. by destruct (flag_set _ _).
      * rewrite (proj2 (Z.ltb_ge _ _)), (proj2 (Z.eqb_neq _ _)) by lia. split; [done|]. apply Hgo. lia.
    + assert (Hz : sem_op o = 0) by lia. rewrite Hz. cbn [Z.eqb andb]. destruct (Z.eqb_spec (val v) 0); cbn [negb].
      * split; [done|]. intros vs' [= <-]. rewrite <- (relevel_one vs o v (val v)); [|done|lia].
        symmetry. apply list_insert_id. by destruct v.
      * by destruct (flag_set _ _).
Qed.

Lemma goes_through_snoc vals ops o :
  goes_through vals ops -> verdict (length vals) (level vals ops (Z.to_nat (sem_num o))) o = None ->
  goes_through vals (ops ++ [o]).
Proof.
  intros Hg Ho done o' rest E. destruct rest as [|x l _] using rev_ind.
  - apply app_inj_tail in E as [-> ->]. done.
  - rewrite app_comm_cons, app_assoc in E. apply app_inj_tail in E as [E _]. by eapply Hg.
Qed.

Lemma relevel_level vs ops i :
  (i < length vs)%nat -> default 0 ((val <$> relevel vs ops) !! i) = level (val <$> vs) ops i.
Proof.
  intros Hi. unfold level. rewrite relevel_vals, list_lookup_imap, list_lookup_fmap.
  by destruct (lookup_lt_is_Some_2 vs i Hi) as [v ->].
Qed.

(** The verdict does not look at the level of a semaphore that does not exist. *)
Lemma verdict_out n x y o : (n <= Z.to_nat (sem_num o))%nat -> verdict n x o = verdict n y o.
Proof. intros H. unfold verdict. rewrite (bool_decide_eq_true_2 (n <= _)%nat) by done. by destruct (negb _). Qed.

Lemma try_operations_loop ops vs done :
  goes_through (val <$> vs) done ->
  match try_operations ops (relevel vs done) with
  | Goes vs' => goes_through (val <$> vs) (done ++ ops) /\ vs' = relevel vs (done ++ ops)
  | r => exists x, round_result r = Some x /\ stops_at (val <$> vs) (done ++ ops) x
  end.
Proof.
  revert done. induction ops as [|o ops IH]; intros done Hg; cbn [try_operations]; [by rewrite app_nil_r|].
  destruct (try_operation_spec o (relevel vs done)) as [Hv Hgo]. rewrite length_relevel in Hv.
  assert (Hv' : round_result (try_operation o (relevel vs done))
    = verdict (length (val <$> vs)) (level (val <$> vs) done (Z.to_nat (sem_num o))) o).
  { rewrite Hv, length_fmap. destruct (decide (Z.to_nat (sem_num o) < length vs)%nat) as [Hi|]; [by rewrite relevel_level|].
    apply verdict_out. lia. }
  destruct (try_operation o _) as [e|n k|vs'].
  - exists (Err e). split; [done|]. by exists done, o, ops.
  - exists (Ok (WouldBlock n k)). split; [done|]. by exists done, o, ops.
  - rewrite (Hgo vs' eq_refl), relevel_app. specialize (IH (done ++ [o])).
    rewrite <- app_assoc in IH. cbn [app] in IH. apply IH. by apply goes_through_snoc.
Qed.

Lemma try_operations_spec ops vs :
  match try_operations ops vs with
  | Goes vs' => goes_through (val <$> vs) ops /\ vs' = relevel vs ops
  | r => exists x, round_result r = Some x /\ stops_at (val <$> vs) ops x
  end.
Proof.
  pose proof (try_operations_loop ops vs []) as H. rewrite relevel_nil in H. apply H.
  intros done o rest E. by destruct done.
Qed.

(** The process that operated last on each of the semaphores named. *)
Definition named (ops : list SemOperation) (i : nat) : bool := existsb (fun o => bool_decide (Z.to_nat (sem_num o) = i)) ops.

Lemma stamp_lookup pid ops vs i :
  stamp pid ops vs !! i = (fun v => if named ops i then set_pid pid v else v) <$> vs !! i.
Proof.
  unfold stamp. revert vs. induction ops as [|o ops IH]; intros vs; cbn [foldl]; [by destruct (vs !! i)|].
  rewrite IH. unfold named. cbn [existsb]. destruct (bool_decide _) eqn:E; cbn [orb].
  - apply bool_decide_eq_true in E as <-. rewrite list_lookup_alter_eq. destruct (vs !! _); [|done]. cbn. by destruct (existsb _ _).
  - apply bool_decide_eq_false in E. by rewrite list_lookup_alter_ne.
Qed.

(** ** A batch as a whole *)

(** What is refused before the semaphores are looked at. *)
Definition guard (ops : list SemOperation) (cred : Credentials) (s : SemSet) : option Errno :=
  if bool_decide (ops = []) then Some EINVAL
  else if SEMOPM <? Z.of_nat (length ops) then Some E2BIG
  else if removed s then Some EIDRM
  else if negb (has_cap cred IpcOwner)
          && ((existsb (fun o => sem_op o =? 0) ops && negb (may_read cred (perm s)))
              || (existsb (fun o => negb (sem_op o =? 0)) ops && negb (may_write cred (perm s))))
  then Some EACCES
  else None.

Lemma check_operation_guard cred p ops :
  check_operation_permissions cred p ops
  = if negb (has_cap cred IpcOwner)
       && ((existsb (fun o => sem_op o =? 0) ops && negb (may_read cred p))
           || (existsb (fun o => negb (sem_op o =? 0)) ops && negb (may_write cred p)))
    then Err EACCES else Ok ().
Proof.
  unfold check_operation_permissions, refuse. destruct (has_cap _ _); [done|]. cbn [negb andb].
  destruct (existsb (fun o => sem_op o =? 0) ops && _); [done|]. by destruct (_ && _).
Qed.

Lemma try_apply_eq ops cred pid now s :
  try_apply ops cred pid now s
  = match guard ops cred s with
    | Some e => (Err e, s)
    | None =>
        match try_operations ops (values s) with
        | Goes vs => (Ok Applied, mk_set (perm s) (stamp pid ops vs) now (ctime s) (removed s))
        | Fails e => (Err e, s)
        | Blocks n k => (Ok (WouldBlock n k), s)
        end
    end.
Proof.
  unfold try_apply, guard. destruct ops as [|o ops]; [done|]. cbn [bool_decide decide_rel]. rewrite bool_decide_eq_false_2 by done.
  destruct (SEMOPM <? _); [done|]. destruct (removed s); [done|]. rewrite check_operation_guard.
  destruct (negb _ && _); [done|]. by destruct (try_operations _ _).
Qed.

(** A set after a batch that was applied. *)
Definition applied (ops : list SemOperation) (pid now : Z) (s s' : SemSet) : Prop :=
  (forall i, values s' !! i = (fun v => mk_value (level (vals_of s) ops i) (if named ops i then pid else sempid v)
                                           (semncnt v) (semzcnt v)) <$> values s !! i)
  /\ perm s' = perm s /\ otime s' = now /\ ctime s' = ctime s /\ removed s' = removed s.

Lemma try_apply_applied ops cred pid now s s' :
  try_apply ops cred pid now s = (Ok Applied, s') ->
  guard ops cred s = None /\ goes_through (vals_of s) ops /\ applied ops pid now s s'.
Proof.
  rewrite try_apply_eq. destruct (guard ops cred s) as [e|] eqn:Eg; [done|].
  pose proof (try_operations_spec ops (values s)) as H. destruct (try_operations ops (values s)) as [e|n k|vs]; try done.
  intros [= <-]. destruct H as [Hg ->]. split_and!; [done|done|]. split; [|done]. intros i. cbn [values].
  rewrite stamp_lookup, relevel_lookup. unfold level, vals_of. rewrite list_lookup_fmap.
  destruct (values s !! i) as [v|]; [|done]. cbn. by destruct (named _ _).
Qed.

Lemma try_apply_rest ops cred pid now s r s' :
  try_apply ops cred pid now s = (r, s') -> r <> Ok Applied ->
  s' = s /\ ((exists e, guard ops cred s = Some e /\ r = Err e) \/ guard ops cred s = None /\ stops_at (vals_of s) ops r).
Proof.
  rewrite try_apply_eq. destruct (guard ops cred s) as [e|] eqn:Eg; [intros [= <- <-]; eauto|].
  pose proof (try_operations_spec ops (values s)) as H.
  destruct (try_operations ops (values s)) as [e|n k|vs]; intros [= <- <-] Hne; try done;
    destruct H as (x & [= <-] & H); auto.
Qed.

(** ** Ranges *)

Definition typed_op (o : SemOperation) : Prop :=
  is_u16 (sem_num o) /\ -32768 <= sem_op o <= 32767 /\ is_u16 (sem_flg o).

Definition wf_value (v : SemValue) : Prop := 0 <= val v <= SEMVMX /\ is_u32 (semncnt v) /\ is_u32 (semzcnt v).
Definition wf_set (s : SemSet) : Prop :=
  Forall wf_value (values s) /\ 0 < nsems_of s <= SEMMSL /\ 0 <= perm_mode (perm s) <= PERM_MASK.

Definition in_bounds (x : Z) : Prop := 0 <= x <= SEMVMX.

Lemma verdict_None n x o :
  verdict n x o = None <->
  Z.ldiff (sem_flg o) (Z.lor IPC_NOWAIT SEM_UNDO) = 0 /\ (Z.to_nat (sem_num o) < n)%nat
  /\ (0 < sem_op o -> x + sem_op o <= SEMVMX) /\ (sem_op o < 0 -> 0 <= x + sem_op o) /\ (sem_op o = 0 -> x = 0).
Proof.
  unfold verdict. destruct (Z.eqb_spec (Z.ldiff (sem_flg o) (Z.lor IPC_NOWAIT SEM_UNDO)) 0); cbn [negb]; [|naive_solver].
  case_bool_decide; [split; [done|naive_solver lia]|].
  destruct (Z.ltb_spec 0 (sem_op o)), (Z.ltb_spec SEMVMX (x + sem_op o)), (Z.ltb_spec (sem_op o) 0),
    (Z.ltb_spec (x + sem_op o) 0), (Z.eqb_spec (sem_op o) 0), (Z.eqb_spec x 0); cbn [andb negb];
    (split; [intros E; try discriminate E; split_and!; lia|intros (_ & _ & Hup & Hdown & Hzero); (done || lia)]).
Qed.

(** Levels stay in range all along a batch that goes through. *)
Lemma level_snoc vals ops o i :
  level vals (ops ++ [o]) i = level vals ops i + (if bool_decide (Z.to_nat (sem_num o) = i) then sem_op o else 0).
Proof. unfold level. rewrite added_app, added_cons. cbn. lia. Qed.

Lemma goes_in_bounds vals ops i :
  Forall in_bounds vals -> goes_through vals ops -> in_bounds (level vals ops i).
Proof.
  intros Hv. induction ops as [|o ops IH] using rev_ind; intros Hg.
  - unfold level, added. cbn. rewrite Z.add_0_r. destruct (vals !! i) as [x|] eqn:E; [|by split].
    by apply (Forall_lookup_1 _ _ _ _ Hv E).
  - assert (Hb : in_bounds (level vals ops i)).
    { apply IH. intros done o' rest ->. apply (Hg done o' (rest ++ [o])). by rewrite <- app_assoc. }
    rewrite level_snoc. case_bool_decide as E; [|by rewrite Z.add_0_r].
    pose proof (Hg ops o [] eq_refl) as (_ & _ & H1 & H2 & H3)%verdict_None. rewrite E in *.
    unfold in_bounds in *. destruct (Z.lt_trichotomy (sem_op o) 0) as [?|[?|?]]; lia.
Qed.

(** ** Undo tables *)

(** The operations of a batch that are to be undone. *)
Definition to_undo (ops : list SemOperation) : list SemOperation := filter (fun o => flag_set o SEM_UNDO = true) ops.

Definition adjustment (entry : list Z) (i : nat) : Z := default 0 (entry !! i).

Lemma record_operation_adjustment entry o i :
  typed_op o -> Z.abs (adjustment entry i) <= 2 ^ 62 ->
  adjustment (record_operation entry o) i = adjustment entry i - added (to_undo [o]) i
  /\ length (record_operation entry o)
     = (if flag_set o SEM_UNDO then length entry `max` S (Z.to_nat (sem_num o)) else length entry)%nat.
Proof.
  intros (_ & Hop & _) Hb. unfold record_operation, to_undo. rewrite filter_cons. destruct (flag_set o SEM_UNDO); cbn [negb].
  2: { rewrite decide_False by done. cbn. split; [lia|done]. }
  rewrite decide_True by done. rewrite added_cons. unfold added. cbn [map foldr filter list_filter]. split.
  - set (n := Z.to_nat (sem_num o)) in *. unfold adjustment in *.
    assert (Hext : forall j, default 0 ((entry ++ replicate (S n - length entry) 0) !! j) = default 0 (entry !! j)).
    { intros j. destruct (decide (j < length entry)%nat); [by rewrite lookup_app_l|].
      rewrite lookup_app_r, (lookup_ge_None_2 entry) by lia. destruct (replicate _ 0 !! _) as [x|] eqn:E; [|done].
      by apply lookup_replicate in E as [-> _]. }
    case_bool_decide as E.
    + subst i. rewrite list_lookup_alter_eq. specialize (Hext n).
      destruct (lookup_lt_is_Some_2 (entry ++ replicate (S n - length entry) 0) n) as [x Hx];
        [rewrite length_app, length_replicate; lia|]. rewrite Hx in *. cbn in *. subst x.
      unfold i64_saturating_add, I64_MIN, I64_MAX. lia.
    + rewrite list_lookup_alter_ne, Hext by done. lia.
  - rewrite length_alter, length_app, length_replicate. lia.
Qed.

Lemma added_bound ops i : Forall typed_op ops -> Z.abs (added ops i) <= 32768 * Z.of_nat (length ops).
Proof.
  induction 1 as [|o ops (_ & Ho & _) _ IH]; [done|]. rewrite added_cons. cbn [length]. case_bool_decide; lia.
Qed.

Lemma to_undo_typed ops : Forall typed_op ops -> Forall typed_op (to_undo ops) /\ (length (to_undo ops) <= length ops)%nat.
Proof. intros H. split; [|apply length_filter]. apply Forall_forall. intros o [_ Ho]%list_elem_of_filter. by eapply Forall_forall. Qed.

(** What a history of operations leaves in the table. *)
Lemma record_adjustment entry ops i :
  Forall typed_op ops -> Z.abs (adjustment entry i) + 32768 * Z.of_nat (length ops) <= 2 ^ 62 ->
  adjustment (foldl record_operation entry ops) i = adjustment entry i - added (to_undo ops) i.
Proof.
  intros Ht. revert entry. induction Ht as [|o ops Ho Ht IH]; intros entry Hb; cbn [foldl]; [unfold to_undo, added; cbn; lia|].
  cbn [length] in Hb. destruct (record_operation_adjustment entry o i Ho) as [E _]; [lia|].
  assert (Hs : to_undo (o :: ops) = to_undo [o] ++ to_undo ops) by (unfold to_undo; rewrite <- filter_app; done).
  rewrite IH, E, Hs, added_app; [lia|]. pose proof (added_bound (to_undo [o]) i) as Hab.
  destruct (to_undo_typed [o]) as [H1 H2]; [by constructor|]. specialize (Hab H1). rewrite E. cbn [length] in H2. lia.
Qed.

Lemma record_length entry ops (n : nat) :
  (length entry <= n)%nat -> Forall (fun o => Z.to_nat (sem_num o) < n)%nat ops ->
  (length (foldl record_operation entry ops) <= n)%nat.
Proof.
  intros Hl Hf. revert entry Hl. induction Hf as [|o ops Ho _ IH]; intros entry Hl; cbn [foldl]; [done|]. apply IH.
  unfold record_operation. destruct (negb _); [done|]. rewrite length_alter, length_app, length_replicate. lia.
Qed.

(** The batch that undoes: at most one operation for each semaphore, in order. *)
Lemma undo_operations_split n adj uops done o rest :
  undo_operations n adj = Some uops -> uops = done ++ o :: rest -> Z.of_nat (n + length adj) <= 65536 ->
  exists j, (j < length adj)%nat /\ sem_num o = Z.of_nat (n + j) /\ sem_flg o = 0
    /\ sem_op o = adjustment adj j /\ sem_op o <> 0 /\ added done (n + j) = 0.
Proof.
  revert n uops done. induction adj as [|d adj IH]; intros n uops done Hu Hs Hn; cbn [undo_operations] in Hu.
  { injection Hu as <-. by destruct done. }
  cbn [length] in Hn. destruct (Z.eqb_spec d 0) as [->|Hd].
  - destruct (IH (S n) uops done Hu Hs) as (j & ? & ? & ? & ? & ? & ?); [lia|]. exists (S j). cbn [length].
    rewrite <- Nat.add_succ_comm. split_and!; try done. lia.
  - unfold try_i16 in Hu. destruct (_ && _) eqn:Er; [|done]. cbn in Hu.
    destruct (undo_operations (S n) adj) as [ops|] eqn:Eu; [|done]. cbn in Hu. injection Hu as Hu.
    rewrite <- Hu in Hs. clear Hu. destruct done as [|o' done]; cbn in Hs; simplify_eq.
    + exists 0%nat. cbn. rewrite Nat.add_0_r. split_and!; try done; [lia|]. rewrite Z.mod_small by lia. done.
    + destruct (IH (S n) _ done Eu eq_refl) as (j & ? & ? & ? & ? & ? & Hz); [lia|]. exists (S j). cbn [length].
      rewrite <- Nat.add_succ_comm. split_and!; try done; [lia|]. rewrite added_cons. cbn [sem_num].
      rewrite bool_decide_eq_false_2; [lia|]. rewrite Z.mod_small by lia. rewrite Nat2Z.id. lia.
Qed.

Lemma undo_operations_added n adj uops i :
  undo_operations n adj = Some uops -> Z.of_nat (n + length adj) <= 65536 ->
  added uops i = if bool_decide (n <= i)%nat then adjustment adj (i - n) else 0.
Proof.
  revert n uops. induction adj as [|d adj IH]; intros n uops Hu Hn; cbn [undo_operations] in Hu.
  { simplify_eq. unfold adjustment. rewrite lookup_nil. by case_bool_decide. }
  cbn [length] in Hn. assert (Hrest : forall ops, undo_operations (S n) adj = Some ops ->
    added ops i + (if bool_decide (n = i) then d else 0)
    = if bool_decide (n <= i)%nat then adjustment (d :: adj) (i - n) else 0).
  { intros ops Hops. rewrite (IH (S n) ops Hops) by lia. unfold adjustment. repeat case_bool_decide; try lia.
    - destruct (i - n)%nat as [|m] eqn:E; [lia|]. replace (i - S n)%nat with m by lia. change ((d :: adj) !! S m) with (adj !! m). lia.
    - assert (i = n) as -> by lia. rewrite Nat.sub_diag. cbn. lia. }
  destruct (Z.eqb_spec d 0) as [->|Hd].
  - specialize (Hrest uops Hu). case_bool_decide; lia.
  - unfold try_i16 in Hu. destruct (_ && _) eqn:Er; [|done]. cbn in Hu.
    destruct (undo_operations (S n) adj) as [ops|] eqn:Eu; [|done]. cbn in Hu. simplify_eq.
    rewrite <- (Hrest ops eq_refl), added_cons. cbn [sem_num sem_op]. rewrite Z.mod_small, Nat2Z.id by lia. lia.
Qed.

(** ** A process and its undo table *)

(** Batches of one process on one set, each of which is applied, and the table
    that they leave. *)
Fixpoint run_batches (cred : Credentials) (pid id : Z) (bs : list (list SemOperation * Z)) (s : SemSet) (t : SemUndoTable)
  : option (SemSet * SemUndoTable) :=
  match bs with
  | [] => Some (s, t)
  | (ops, now) :: bs =>
      match try_apply ops cred pid now s with
      | (Ok Applied, s) => run_batches cred pid id bs s (record_sem_undo id ops t)
      | _ => None
      end
  end.

Definition history (bs : list (list SemOperation * Z)) : list SemOperation := mjoin bs.*1.

Lemma history_cons ops now bs : history ((ops, now) :: bs) = ops ++ history bs.
Proof. done. Qed.

Definition shifted (ops : list SemOperation) (vals : list Z) : list Z := imap (fun i x => x + added ops i) vals.

Lemma shifted_lookup ops vals i : shifted ops vals !! i = (fun x => x + added ops i) <$> vals !! i.
Proof. unfold shifted. by rewrite list_lookup_imap. Qed.

Lemma applied_vals ops pid now s s' : applied ops pid now s s' -> vals_of s' = shifted ops (vals_of s).
Proof.
  intros [H _]. apply list_eq. intros i. rewrite shifted_lookup. unfold vals_of. rewrite !list_lookup_fmap, H.
  unfold level, vals_of. rewrite list_lookup_fmap. by destruct (values s !! i).
Qed.

Lemma shifted_app ops ops' vals : shifted ops' (shifted ops vals) = shifted (ops ++ ops') vals.
Proof.
  apply list_eq. intros i. rewrite !shifted_lookup, added_app. destruct (vals !! i); [|done]. cbn. by rewrite Z.add_assoc.
Qed.

Lemma shifted_bounds ops vals :
  Forall in_bounds vals -> goes_through vals ops -> Forall in_bounds (shifted ops vals).
Proof.
  intros Hv Hg. apply Forall_lookup. intros i x. rewrite shifted_lookup. intros Hx. pose proof (goes_in_bounds vals ops i Hv Hg) as Hb.
  unfold level in Hb. destruct (vals !! i); [|done]. by simplify_eq/=.
Qed.

Lemma goes_through_nums vals ops : goes_through vals ops -> Forall (fun o => Z.to_nat (sem_num o) < length vals)%nat ops.
Proof.
  intros Hg. apply Forall_forall. intros o (done & rest & E)%list_elem_of_split. by apply Hg, verdict_None in E as (_ & ? & _).
Qed.

Lemma record_sem_undo_entry id ops t :
  default [] (record_sem_undo id ops t !! id) = foldl record_operation (default [] (t !! id)) ops.
Proof.
  unfold record_sem_undo, record. destruct (existsb _ ops) eqn:E; [by rewrite lookup_insert_eq|].
  induction ops as [|o ops IH] in E |- *; cbn [foldl]; [done|]. cbn [existsb] in E. apply orb_false_iff in E as [E1 E2].
  assert (record_operation (default [] (t !! id)) o = default [] (t !! id)) as -> by (unfold record_operation; by rewrite E1).
  by apply IH.
Qed.

(** Writing was allowed, if a batch that was applied writes. *)
Definition wrote (ops : list SemOperation) : Prop := exists o, o ∈ ops /\ sem_op o <> 0.

Lemma guard_wrote ops cred s :
  guard ops cred s = None -> removed s = false /\ (wrote ops -> has_cap cred IpcOwner || may_write cred (perm s) = true).
Proof.
  unfold guard. case_bool_decide; [done|]. destruct (SEMOPM <? _); [done|]. destruct (removed s); [done|].
  destruct (has_cap cred IpcOwner); [done|]. cbn [negb andb orb]. destruct (existsb (fun o => sem_op o =? 0) ops && _); [done|].
  cbn [orb]. destruct (existsb (fun o => negb (sem_op o =? 0)) ops) eqn:E; cbn [andb].
  - by destruct (may_write cred (perm s)).
  - intros _. split; [done|]. intros (o & Ho & Hne). assert (existsb (fun o => negb (sem_op o =? 0)) ops = true); [|congruence].
    apply existsb_exists. exists o. split; [by apply list_elem_of_In|]. by apply negb_true_iff, Z.eqb_neq.
Qed.

Record ran (cred : Credentials) (id : Z) (ops : list SemOperation) (s s' : SemSet) (t t' : SemUndoTable) : Prop := {
  ran_vals : vals_of s' = shifted ops (vals_of s);
  ran_bounds : Forall in_bounds (vals_of s');
  ran_nums : Forall (fun o => Z.to_nat (sem_num o) < length (vals_of s))%nat ops;
  ran_table : default [] (t' !! id) = foldl record_operation (default [] (t !! id)) ops;
  ran_perm : perm s' = perm s;
  ran_removed : removed s' = removed s;
  ran_wrote : wrote ops -> removed s = false /\ has_cap cred IpcOwner || may_write cred (perm s) = true
}.

Lemma run_batches_ran cred pid id bs s t s' t' :
  Forall in_bounds (vals_of s) -> run_batches cred pid id bs s t = Some (s', t') -> ran cred id (history bs) s s' t t'.
Proof.
  revert s t. induction bs as [|[ops now] bs IH]; intros s t Hb Hr; cbn [run_batches] in Hr.
  { simplify_eq. change (history []) with (@nil SemOperation). split; try done; [|by intros (o & ?%elem_of_nil & _)].
    apply list_eq. intros i. rewrite shifted_lookup. destruct (vals_of s' !! i); [|done]. cbn. by rewrite Z.add_0_r. }
  destruct (try_apply ops cred pid now s) as [[[]|] s1] eqn:Ea; try done. apply try_apply_applied in Ea as (Hg & Hgo & Hap).
  pose proof (applied_vals _ _ _ _ _ Hap) as Hv. pose proof Hap as (_ & Hp & _ & _ & Hrm).
  assert (Hb1 : Forall in_bounds (vals_of s1)) by (rewrite Hv; by apply shifted_bounds).
  destruct (IH s1 _ Hb1 Hr) as [Hv' Hb' Hn' Ht' Hp' Hrm' Hw']. apply guard_wrote in Hg as [Hrem Hw].
  rewrite history_cons. split; try done; try congruence.
  - by rewrite Hv', Hv, shifted_app.
  - apply Forall_app. split; [by apply goes_through_nums|]. rewrite Hv in Hn'. unfold shifted in Hn'. by rewrite length_imap in Hn'.
  - by rewrite Ht', record_sem_undo_entry, foldl_app.
  - intros (o & [Ho|Ho]%elem_of_app & Hne); (split; [done|]); [apply Hw; by exists o|].
    rewrite <- Hp. apply Hw'. by exists o.
Qed.

(** ** Undoing *)

Lemma undo_operations_some n adj :
  (forall j, -32768 <= adjustment adj j <= 32767) ->
  exists uops, undo_operations n adj = Some uops /\ (length uops <= length adj)%nat.
Proof.
  revert n. induction adj as [|d adj IH]; intros n Hb; cbn [undo_operations]; [by exists []|].
  destruct (IH (S n)) as (uops & -> & Hl); [intros j; apply (Hb (S j))|]. cbn [length].
  destruct (d =? 0); [exists uops; split; [done|lia]|]. specialize (Hb 0%nat). cbn in Hb. unfold try_i16.
  rewrite (proj2 (Z.leb_le (-32768) d)), (proj2 (Z.leb_le d 32767)) by lia. cbn. eexists. split; [done|]. cbn. lia.
Qed.

(** A batch that goes through and is allowed is applied. *)
Lemma try_apply_goes ops cred pid now s :
  guard ops cred s = None -> goes_through (vals_of s) ops ->
  exists s', try_apply ops cred pid now s = (Ok Applied, s') /\ vals_of s' = shifted ops (vals_of s).
Proof.
  intros Hg Hgo. destruct (try_apply ops cred pid now s) as [r s'] eqn:E.
  destruct (decide (r = Ok Applied)) as [->|Hne].
  - exists s'. split; [done|]. apply try_apply_applied in E as (_ & _ & H). by eapply applied_vals.
  - apply try_apply_rest in E as [_ [(e & ? & _)|(_ & pre & o & rest & -> & _ & Hv)]]; [congruence| |done].
    by rewrite (Hgo pre o rest eq_refl) in Hv.
Qed.

(** The batch that undoes a history of one process goes through. *)
Lemma undo_goes vals hist adj uops :
  Forall in_bounds vals -> Forall in_bounds (shifted hist vals) ->
  (forall i, adjustment adj i = - added hist i) -> (length adj <= length vals)%nat -> Z.of_nat (length vals) <= 65536 ->
  undo_operations 0 adj = Some uops ->
  goes_through (shifted hist vals) uops /\ shifted uops (shifted hist vals) = vals.
Proof.
  intros Hv Hs Hadj Hl Hn Hu. split.
  - intros pre o rest E. destruct (undo_operations_split 0 adj uops pre o rest Hu E) as (j & Hj & Hnum & Hflg & Hop & Hne & Hz); [lia|].
    cbn [Nat.add] in *. apply verdict_None. rewrite Hflg, Hnum, Nat2Z.id. unfold shifted. rewrite length_imap.
    fold (shifted hist vals). split_and!; [done|lia|..].
    all: unfold level; rewrite shifted_lookup, Hz; destruct (lookup_lt_is_Some_2 vals j) as [x Hx]; [lia|]; rewrite Hx; cbn;
      rewrite Hop, Hadj; pose proof (Forall_lookup_1 _ _ _ _ Hv Hx) as [? ?]; rewrite Hop, Hadj in Hne; lia.
  - apply list_eq. intros i. rewrite !shifted_lookup, (undo_operations_added 0 adj uops i Hu) by lia.
    rewrite bool_decide_eq_true_2, Nat.sub_0_r, Hadj by lia. destruct (vals !! i); [|done]. cbn. f_equal. lia.
Qed.

Lemma undo_guard adj uops cred s :
  undo_operations 0 adj = Some uops -> uops <> [] -> Z.of_nat (length uops) <= SEMOPM -> Z.of_nat (length adj) <= 65536 ->
  removed s = false -> has_cap cred IpcOwner || may_write cred (perm s) = true -> guard uops cred s = None.
Proof.
  intros Hu Hne Hl Hn Hrm Hw. unfold guard. rewrite bool_decide_eq_false_2, (proj2 (Z.ltb_ge _ _)), Hrm by done.
  assert (Hz : existsb (fun o => sem_op o =? 0) uops = false).
  { apply not_true_iff_false. intros (o & Ho & Hz)%existsb_exists. apply list_elem_of_In, list_elem_of_split in Ho as (l & l' & E).
    destruct (undo_operations_split 0 adj uops l o l' Hu E Hn) as (_ & _ & _ & _ & _ & H & _). lia. }
  rewrite Hz. cbn [andb orb]. destruct (has_cap cred IpcOwner); [done|]. cbn in Hw. rewrite Hw.
  cbn [negb]. by rewrite andb_false_r.
Qed.

Lemma undo_none_zero adj i :
  undo_operations 0 adj = Some [] -> Z.of_nat (length adj) <= 65536 -> adjustment adj i = 0.
Proof.
  intros Hu Hn. pose proof (undo_operations_added 0 adj [] i Hu Hn) as H.
  rewrite bool_decide_eq_true_2, Nat.sub_0_r in H by lia. by rewrite <- H.
Qed.

Lemma shifted_zero ops vals : (forall i, added ops i = 0) -> shifted ops vals = vals.
Proof.
  intros H. apply list_eq. intros i. rewrite shifted_lookup, H. destruct (vals !! i); [|done]. cbn. by rewrite Z.add_0_r.
Qed.

Lemma wrote_added ops i : added ops i <> 0 -> wrote ops.
Proof.
  induction ops as [|o ops IH]; [done|]. rewrite added_cons. intros H. destruct (decide (sem_op o = 0)) as [E|E].
  - destruct IH as (o' & ? & ?); [case_bool_decide; lia|]. exists o'. split; [by apply list_elem_of_further|done].
  - exists o. split; [apply list_elem_of_here|done].
Qed.

Definition all_undo (ops : list SemOperation) : Prop := Forall (fun o => flag_set o SEM_UNDO = true) ops.

Lemma to_undo_all ops : all_undo ops -> to_undo ops = ops.
Proof. intros H. unfold to_undo. apply filter_id. by apply Forall_forall. Qed.

(** ** The manager *)

#[export] Program Instance set_laws : IpcObjectLaws SemSet := {| obj_wf := wf_set |}.
Solve Obligations with done.

Lemma same_domain_length {A B} (l : list A) (l' : list B) :
  (forall i, is_Some (l !! i) <-> is_Some (l' !! i)) -> length l = length l'.
Proof.
  intros H. apply Nat.le_antisymm; apply Nat.nlt_ge; intros Hlt.
  - destruct (H (length l')) as [H1 _]. by apply lookup_lt_is_Some, Nat.lt_irrefl in H1; [|by apply lookup_lt_is_Some].
  - destruct (H (length l)) as [_ H1]. by apply lookup_lt_is_Some, Nat.lt_irrefl in H1; [|by apply lookup_lt_is_Some].
Qed.

Lemma keeps_values s s' :
  length (values s') = length (values s) -> perm_mode (perm s') = perm_mode (perm s) -> same_name s s' ->
  (forall i v', values s' !! i = Some v' -> Forall wf_value (values s) -> wf_value v') -> keeps_object s s'.
Proof.
  intros Hl Hm Hn Hv (Hf & ? & ?). split; [|done]. cbn. unfold wf_set, nsems_of in *. rewrite Hl, Hm. split; [|done].
  apply Forall_lookup. intros i v' Hi. by eapply Hv.
Qed.

Lemma bounds_of_values vs : Forall wf_value vs -> Forall in_bounds (val <$> vs).
Proof. intros H. apply Forall_fmap. eapply Forall_impl; [exact H|by intros v [? _]]. Qed.

Lemma try_apply_keeps ops cred pid now s r s' : try_apply ops cred pid now s = (r, s') -> keeps_object s s'.
Proof.
  intros E. destruct (decide (r = Ok Applied)) as [->|Hne]; [|by apply try_apply_rest in E as [-> _]; [|done]].
  apply try_apply_applied in E as (_ & Hg & (Hv & Hp & _ & _ & Hr)).
  apply keeps_values; [|by rewrite Hp|unfold same_name; cbn; by rewrite Hp|].
  - apply same_domain_length. intros i. rewrite Hv. by rewrite fmap_is_Some.
  - intros i v' Hi Hf. rewrite Hv in Hi. destruct (values s !! i) as [v|] eqn:Ei; [|done]. injection Hi as <-.
    destruct (Forall_lookup_1 _ _ _ _ Hf Ei) as (_ & ? & ?). split_and!; try done; cbn;
      apply (goes_in_bounds (vals_of s) ops i); (done || by apply bounds_of_values).
Qed.

Lemma one_value_keeps s n (f : SemValue -> SemValue) :
  (forall v, wf_value v -> wf_value (f v)) -> keeps_object s (with_values (alter f n (values s)) s).
Proof.
  intros Hf. apply keeps_values; [apply length_alter|done|done|]. intros i v' Hi Hwf. cbn in Hi.
  destruct (decide (i = n)) as [->|]; [rewrite list_lookup_alter_eq in Hi|rewrite list_lookup_alter_ne in Hi by done; by eapply Forall_lookup_1].
  destruct (values s !! n) as [v|] eqn:E; [|done]. injection Hi as <-. by eapply Hf, Forall_lookup_1.
Qed.

Lemma count_wf k v : wf_value v -> wf_value (count_up k v) /\ wf_value (count_down k v).
Proof. unfold wf_value, is_u32, U32_MAX. destruct k; cbn; unfold U32_MAX; lia. Qed.

Lemma insert_alter {A} (f : A -> A) n (l : list A) v : l !! n = Some v -> <[n := f v]> l = alter f n l.
Proof.
  intros Hv. apply list_eq. intros i. destruct (decide (i = n)) as [->|].
  - by rewrite list_lookup_alter_eq, list_lookup_insert_eq, Hv by (by eapply lookup_lt_Some).
  - by rewrite list_lookup_alter_ne, list_lookup_insert_ne.
Qed.

Lemma register_keeps n k s : keeps_object s (register_blocked n k s).2.
Proof.
  unfold register_blocked. destruct (removed s); [done|]. destruct (values s !! n) as [v|] eqn:E; [|done].
  cbn [snd]. rewrite (insert_alter _ _ _ _ E). apply one_value_keeps. intros v'. apply count_wf.
Qed.

Lemma unregister_keeps n k s : keeps_object s (unregister_blocked n k s).
Proof.
  unfold unregister_blocked. destruct (values s !! n) as [v|] eqn:E; [|done].
  rewrite (insert_alter _ _ _ _ E). apply one_value_keeps. intros v'. apply count_wf.
Qed.

Lemma in_range_spec x : in_range x = true <-> in_bounds x.
Proof. unfold in_range, in_bounds. lia. Qed.

Lemma set_value_keeps n x cred pid now s s' : set_value n x cred pid now s = Ok s' -> keeps_object s s'.
Proof.
  unfold set_value, refuse, ok_or. destruct (in_range x) eqn:Ex; cbn [negb]; [|done]. apply in_range_spec in Ex.
  destruct (removed s) eqn:Er; [done|]. destruct (negb (may_write cred (perm s))); [done|].
  destruct (values s !! Z.to_nat n) as [v|] eqn:E; [|done]. intros [= <-].
  pose proof (one_value_keeps s (Z.to_nat n) (fun v => set_pid pid (set_val x v))) as Hk.
  rewrite <- (insert_alter _ _ _ _ E) in Hk. intros Hwf. destruct Hk as [Hw Hn]; [by intros ? (_ & ? & ?)|done|].
  split; [exact Hw|]. split; [done|]. cbn. by rewrite Er.
Qed.

Lemma set_all_keeps xs cred pid now s s' : set_all xs cred pid now s = Ok s' -> keeps_object s s'.
Proof.
  unfold set_all, refuse. destruct (Z.eqb_spec (Z.of_nat (length xs)) (nsems_of s)) as [Hl|]; cbn [negb]; [|done].
  destruct (existsb _ xs) eqn:Ex; [done|]. destruct (removed s) eqn:Er; [done|].
  destruct (negb (may_write cred (perm s))); [done|]. intros [= <-]. apply keeps_values; cbn [values perm].
  - rewrite length_zip_with. unfold nsems_of in Hl. lia.
  - done.
  - split; [done|]. cbn. by rewrite Er.
  - intros i v' Hi Hf. apply lookup_zip_with_Some in Hi as (v & x & -> & Hv & Hx).
    destruct (Forall_lookup_1 _ _ _ _ Hf Hv) as (_ & ? & ?). split_and!; try done; cbn; apply in_range_spec.
    all: destruct (in_range x) eqn:E; [done|]; assert (existsb (fun x => negb (in_range x)) xs = true); [|congruence];
      apply existsb_exists; exists x; rewrite E; split; [by eapply list_elem_of_In, list_elem_of_lookup_2|done].
Qed.

Lemma set_perm_keeps u g mode cred now s s' : set_perm u g mode cred now s = Ok s' -> keeps_object s s'.
Proof.
  unfold set_perm, refuse. destruct (removed s) eqn:Er; [done|]. destruct (check_control_owner cred (perm s)); [|done].
  intros [= <-] (Hf & Hn & Hm). split; [|split; [done|cbn; by rewrite Er]]. split; [done|]. split; [done|]. cbn.
  destruct mode as [m|]; [|done]. by apply land_mask_range.
Qed.

Lemma new_set_wf key nsems flags cred now : 0 < nsems <= SEMMSL -> wf_set (new_set key nsems flags cred now).
Proof.
  intros Hn. split; [|split].
  - apply Forall_replicate. split_and!; done.
  - unfold nsems_of. cbn. rewrite length_replicate. lia.
  - by apply land_mask_range.
Qed.

(** What [semget] answers for a key that exists, after the checks in the order of
    the code. *)
Lemma semget_existing_spec id nsems flags cred w :
  match semget_existing id nsems flags cred w with
  | Ok id' => id' = id /\ exists q s, by_id w.1 !! id = Some q /\ w.2 !! q = Some s /\ removed s = false
      /\ nsems <= nsems_of s /\ (Z.land flags IPC_CREAT = 0 \/ Z.land flags IPC_EXCL = 0)
      /\ check_mode_request cred (perm s) flags = Ok ()
  | Err _ => True
  end.
Proof.
  unfold semget_existing, ok_or, refuse, check_requested_mode. destruct (by_id w.1 !! id) as [q|] eqn:Eq; [|done].
  destruct (w.2 !! q) as [s|] eqn:Es; [|done].
  destruct (Z.eqb_spec (Z.land flags IPC_CREAT) 0), (Z.eqb_spec (Z.land flags IPC_EXCL) 0); cbn [negb andb obj_removed obj_perm set_object]; try done.
  all: destruct (Z.ltb_spec (nsems_of s) nsems); [done|]; destruct (removed s) eqn:Er; [done|];
    destruct (check_mode_request cred (perm s) flags) as [[]|] eqn:Em; [|done]; split; [done|]; exists q, s; split_and!; auto.
Qed.

Lemma semget_create_spec key nsems flags cred now m sets :
  consistent (m, sets) -> 0 <= nsems -> (key <> IPC_PRIVATE -> by_key m !! key = None) ->
  match semget_create key nsems flags cred now (m, sets) with
  | (Ok id, w') => in_ids id /\ by_id m !! id = None /\ by_id w'.1 !! id = Some (length sets)
      /\ w'.2 = sets ++ [new_set key nsems flags cred now] /\ (key <> IPC_PRIVATE -> by_key w'.1 !! key = Some id)
      /\ 0 < nsems <= SEMMSL /\ Z.of_nat (size (by_id m)) < SEMMNI /\ consistent w'
  | (Err e, w') => w' = (m, sets)
      /\ (e = EINVAL /\ ~ (0 < nsems <= SEMMSL) \/ e = ENOSPC /\ Z.of_nat (size (by_id m)) = SEMMNI)
  end.
Proof.
  intros Hcon Hn Hkey. unfold semget_create.
  destruct ((nsems =? 0) || (SEMMSL <? nsems)) eqn:Eb; [split; [done|left; split; [done|lia]]|].
  assert (Hr : 0 < nsems <= SEMMSL) by lia.
  pose proof (create_object_spec key (new_set key nsems flags cred now) m sets Hcon
    (new_set_wf _ _ _ _ _ Hr) eq_refl eq_refl Hkey) as H.
  destruct (create_object _ _ _) as [[id|e] w']; [|destruct H as (-> & -> & ?); split; [done|by right]].
  destruct H as (? & ? & ? & ? & ? & ? & ?). split_and!; try done; lia.
Qed.

Lemma semget_consistent key nsems flags cred now w :
  consistent w -> 0 <= nsems -> consistent (semget key nsems flags cred now w).2.
Proof.
  destruct w as [m sets]. intros Hcon Hn. unfold semget.
  assert (Hc : (key <> IPC_PRIVATE -> by_key m !! key = None) -> consistent (semget_create key nsems flags cred now (m, sets)).2).
  { intros Hk. pose proof (semget_create_spec key nsems flags cred now m sets Hcon Hn Hk) as H.
    destruct (semget_create _ _ _ _ _ _) as [[id|e] w']; [apply H|by destruct H as [-> _]]. }
  destruct (Z.eqb_spec key IPC_PRIVATE) as [->|Hk]; [by apply Hc|]. cbn [fst].
  destruct (by_key m !! key); [done|]. by destruct (Z.land flags IPC_CREAT =? 0); [|apply Hc].
Qed.

(** ** What blocks *)

(** Only the values count. *)
Lemma try_operations_val ops vs vs' :
  val <$> vs = val <$> vs' -> round_result (try_operations ops vs) = round_result (try_operations ops vs').
Proof.
  revert vs vs'. induction ops as [|o ops IH]; intros vs vs' Hv; cbn [try_operations]; [done|].
  destruct (try_operation_spec o vs) as [H1 G1], (try_operation_spec o vs') as [H2 G2].
  assert (Hl : length vs = length vs') by (rewrite <- (length_fmap val vs), <- (length_fmap val vs'); by rewrite Hv).
  rewrite Hv, Hl, <- H2 in H1.
  destruct (try_operation o vs) as [e|n k|vs1], (try_operation o vs') as [e'|n' k'|vs1']; cbn in H1; simplify_eq; try done.
  apply IH. by rewrite (G1 vs1 eq_refl), (G2 vs1' eq_refl), !relevel_vals, Hv.
Qed.

(** A batch must wait: the set is there, and an operation of the batch blocks. *)
Definition must_wait (ops : list SemOperation) (s : SemSet) : Prop :=
  removed s = false /\ exists n k, round_result (try_operations ops (values s)) = Some (Ok (WouldBlock n k)).

Lemma must_wait_vals ops s s' :
  vals_of s' = vals_of s -> removed s' = removed s -> must_wait ops s -> must_wait ops s'.
Proof.
  intros Hv Hr [Hrm (n & k & Hb)]. split; [congruence|]. exists n, k. rewrite <- Hb. by apply try_operations_val.
Qed.

Lemma try_apply_blocks ops cred pid now s n k s' :
  try_apply ops cred pid now s = (Ok (WouldBlock n k), s') -> s' = s /\ must_wait ops s.
Proof.
  rewrite try_apply_eq. destruct (guard ops cred s) eqn:Eg; [done|]. apply guard_wrote in Eg as [Hr _].
  destruct (try_operations ops (values s)) as [e|n' k'|vs] eqn:E; intros [= <- <- <-]. split; [done|]. split; [done|].
  exists n', k'. by rewrite E.
Qed.
