(* ===== verification/SemWait.v ===== *)
(** * System V semaphores: waiting

    The whole of [sys_semop_common], of the commands of [sys_semctl] that change
    something, of [sys_semget] and of the way out of a process
    ([apply_sem_undo_on_exit], [SemUndoTable::apply_on_exit]), over the wait queues
    of [libs/sched/src/wait.rs]: many tasks operate on many sets, cut at the points
    where a lock is let go. *)

From stdpp Require Import gmap functions.
From S2P Require Import Prelude Cred Ipc Sem WaitQueue WaitQueueProofs.

(** ** Where a task is *)

(** A call of [semop] or [semtimedop] that has found its set. *)
Record call : Type := mk_call {
  c_set : nat; c_id : Z; c_ops : list SemOperation; c_cred : Credentials; c_pid : Z; c_deadline : bool
}.

(** How a call goes on after a wait. *)
Inductive after : Type := Retry | Fail (e : Errno) | Success.

(** The commands of [semctl] that change a set that was looked up. *)
Inductive command : Type := SetValue (sem_num value : Z) | SetAll (vals : list Z) | SetPerm (u g : Z) (mode : FileMode).

(** A process on its way out: who it is, its table and what is left of the
    adjustments taken out of it. *)
Record leaving : Type := mk_leaving { x_cred : Credentials; x_pid : Z; x_table : nat; x_rest : list (Z * list Z) }.

(** What a task that wakes others does next. *)
Inductive cont : Type := Return | ExitOn (x : leaving).

(** The points of [sys_semop_common]: the first attempt, the count of those that
    wait, the tests before and after the second attempt, [schedule_once], and
    leaving in four parts: the entry of the queue, the state of the task, the count,
    the last tests.  The points of [semctl]: the lookup, the critical section, and
    the table of the caller.  Both end in [wake_all].  The points of the way out: the count of
    holders, the test for an empty table, taking the adjustments out, and for each
    set the attempts and the wait; then the reference is dropped. *)
Inductive pc : Type :=
| Out
| Try (c : call)
| Register (c : call) (n : nat) (k : SemBlockKind)
| Check1 (c : call) (n : nat) (k : SemBlockKind)
| Prepare (c : call) (n : nat) (k : SemBlockKind)
| Arm (c : call) (n : nat) (k : SemBlockKind) (e : nat)
| Recheck (c : call) (n : nat) (k : SemBlockKind) (e : nat)
| Check2 (c : call) (n : nat) (k : SemBlockKind) (e : nat)
| Asleep (c : call) (n : nat) (k : SemBlockKind) (e : nat)
| Leave (c : call) (n : nat) (k : SemBlockKind) (e : nat) (a : after)
| LeaveTask (c : call) (n : nat) (k : SemBlockKind) (e : nat) (a : after)
| Unregister (c : call) (n : nat) (k : SemBlockKind) (a : after)
| Check3 (c : call)
| Recording (c : call)
| Lookup (id : Z) (cmd : command) (cred : Credentials) (pid : Z)
| Control (q : nat) (id : Z) (cmd : command) (cred : Credentials) (pid : Z)
| Clearing (q : nat) (id : Z)
| WakeUp (q : nat) (k : cont)
| Waking (ts : list nat) (k : cont)
| ExitCount (x : leaving)
| ExitEmpty (x : leaving)
| ExitTake (x : leaving)
| ExitNext (x : leaving)
| ExitTry (x : leaving) (q : nat) (ops : list SemOperation)
| ExitPrepare (x : leaving) (q : nat) (ops : list SemOperation)
| ExitRecheck (x : leaving) (q : nat) (ops : list SemOperation) (e : nat)
| ExitAsleep (x : leaving) (q : nat) (ops : list SemOperation) (e : nat) (blocked : bool)
| ExitLeave (x : leaving) (q : nat) (ops : list SemOperation) (e : nat) (over : bool)
| ExitLeaveTask (x : leaving) (q : nat) (ops : list SemOperation) (e : nat) (over : bool)
| ExitDrop (x : leaving)
| Gone.

(** ** The system *)

(** The manager and the sets that were ever made, each with the queue of the same
    number; the undo tables that were ever made, the one installed in each task,
    and the ones held by tasks on their way out; the entries of the queues, the
    tasks, and where each of them is. *)
Record system : Type := mk_system {
  sems : ipc;
  queues : list (list nat);
  tables : list SemUndoTable;
  installed : gmap nat nat;
  held : gmap nat nat;
  all_entries : list WaitQueueEntry;
  all_tasks : gmap nat Task;
  at_pc : nat -> pc
}.

Definition manager (s : system) : Manager := (sems s).1.
Definition sets (s : system) : list SemSet := (sems s).2.

Definition goto (t : nat) (p : pc) (s : system) : system :=
  mk_system (sems s) (queues s) (tables s) (installed s) (held s) (all_entries s) (all_tasks s) (<[t := p]> (at_pc s)).
Definition with_sems (w : ipc) (s : system) : system :=
  mk_system w (queues s) (tables s) (installed s) (held s) (all_entries s) (all_tasks s) (at_pc s).
Definition with_set (q : nat) (x : SemSet) (s : system) : system := with_sems (manager s, <[q := x]> (sets s)) s.
Definition with_tables (tb : list SemUndoTable) (i h : gmap nat nat) (s : system) : system :=
  mk_system (sems s) (queues s) tb i h (all_entries s) (all_tasks s) (at_pc s).
Definition with_tasks (ts : gmap nat Task) (s : system) : system :=
  mk_system (sems s) (queues s) (tables s) (installed s) (held s) (all_entries s) ts (at_pc s).

Definition queue (s : system) (q : nat) : list nat := default [] (queues s !! q).
Definition world_of (s : system) (q : nat) : world := mk_world (queue s q) (all_entries s) (all_tasks s).
Definition put_world (q : nat) (w : world) (s : system) : system :=
  mk_system (sems s) (<[q := waiters w]> (queues s)) (tables s) (installed s) (held s) (entries w) (tasks w) (at_pc s).

(** The [Arc]s of a table.  A task that works on its own table holds another one
    for a moment, but has the table installed at that time. *)
Definition strong_count (s : system) (tb : nat) : nat :=
  (size (filter (fun x => x.2 = tb) (installed s)) + size (filter (fun x => x.2 = tb) (held s)))%nat.

(** ** Operations *)

Definition do_try (now : Z) (s : system) (t : nat) (c : call) : option system :=
  x ← sets s !! c_set c;
  let '(r, x) := try_apply (c_ops c) (c_cred c) (c_pid c) now x in
  Some (goto t (match r with
                | Ok Applied => Recording c
                | Ok (WouldBlock n k) => Register c n k
                | Err _ => Out
                end) (with_set (c_set c) x s)).

Definition do_register (s : system) (t : nat) (c : call) (n : nat) (k : SemBlockKind) : option system :=
  x ← sets s !! c_set c;
  let '(r, x) := register_blocked n k x in
  Some (goto t (match r with Ok _ => Check1 c n k | Err _ => Out end) (with_set (c_set c) x s)).

Definition do_prepare (s : system) (t : nat) (c : call) (n : nat) (k : SemBlockKind) : system :=
  let '(w, e) := prepare_to_wait (world_of s (c_set c)) t Sleeping in
  goto t (Arm c n k e) (put_world (c_set c) w s).

Definition do_recheck (now : Z) (s : system) (t : nat) (c : call) (n : nat) (k : SemBlockKind) (e : nat) : option system :=
  x ← sets s !! c_set c;
  let '(r, x) := try_apply (c_ops c) (c_cred c) (c_pid c) now x in
  Some (goto t (match r with
                | Ok Applied => Leave c n k e Success
                | Ok (WouldBlock _ _) => Check2 c n k e
                | Err err => Leave c n k e (Fail err)
                end) (with_set (c_set c) x s)).

(** The two tests for a signal and for the deadline, each of which may have come. *)
Definition interrupted (c : call) (signal expired : bool) : option Errno :=
  if signal then Some EINTR else if c_deadline c && expired then Some EAGAIN else None.

Definition do_leave (s : system) (t : nat) (c : call) (n : nat) (k : SemBlockKind) (e : nat) (a : after) : system :=
  goto t (LeaveTask c n k e a) (put_world (c_set c) (finish_entry (world_of s (c_set c)) e) s).

Definition do_leave_task (s : system) (t : nat) (c : call) (n : nat) (k : SemBlockKind) (e : nat) (a : after) : system :=
  goto t (Unregister c n k a) (with_tasks (tasks (finish_transition true (world_of s 0) e)) s).

Definition do_unregister (s : system) (t : nat) (c : call) (n : nat) (k : SemBlockKind) (a : after) : option system :=
  x ← sets s !! c_set c;
  Some (goto t (match a with Retry => Check3 c | Fail _ => Out | Success => Recording c end)
          (with_set (c_set c) (unregister_blocked n k x) s)).

(** [sem_undo_table]: the table of a task, made if there is none. *)
Definition own_table (s : system) (t : nat) : nat * system :=
  match installed s !! t with
  | Some tb => (tb, s)
  | None => (length (tables s), with_tables (tables s ++ [∅]) (<[t := length (tables s)]> (installed s)) (held s) s)
  end.
Definition change_table (f : SemUndoTable -> SemUndoTable) (tb : nat) (s : system) : system :=
  with_tables (alter f tb (tables s)) (installed s) (held s) s.

Definition do_record (s : system) (t : nat) (c : call) : system :=
  goto t (WakeUp (c_set c) Return)
    (if existsb (fun o => flag_set o SEM_UNDO) (c_ops c) then
       let '(tb, s) := own_table s t in change_table (record (c_id c) (c_ops c)) tb s
     else s).

Definition do_clear (s : system) (t : nat) (q : nat) (id : Z) : system :=
  let '(tb, s) := own_table s t in goto t (WakeUp q Return) (change_table (clear id) tb s).

(** The critical section of [SETVAL], [SETALL] and [IPC_SET]. *)
Definition do_control (now : Z) (s : system) (t : nat) (q : nat) (id : Z) (cmd : command) (cred : Credentials) (pid : Z)
  : option system :=
  x ← sets s !! q;
  Some (match cmd with
        | SetValue n v =>
            match set_value n v cred pid now x with
            | Ok x => goto t (Clearing q id) (with_set q x s)
            | Err _ => goto t Out s
            end
        | SetAll vals =>
            match set_all vals cred pid now x with
            | Ok x => goto t (Clearing q id) (with_set q x s)
            | Err _ => goto t Out s
            end
        | SetPerm u g mode =>
            match set_perm (Some u) (Some g) (Some mode) cred now x with
            | Ok x => goto t Out (with_set q x s)
            | Err _ => goto t Out s
            end
        end).

Definition do_lookup (s : system) (t : nat) (id : Z) (cmd : command) (cred : Credentials) (pid : Z) : system :=
  goto t (match set_for_operation (manager s) id with Ok q => Control q id cmd cred pid | Err _ => Out end) s.

(** [SETALL] first asks for the number of semaphores, as [stat] does. *)
Definition setall_ready (s : system) (id : Z) (vals : list Z) (cred : Credentials) : bool :=
  match set_for_operation (manager s) id with
  | Ok q => match sets s !! q with
            | Some x => match stat cred x with Ok m => meta_nsems m =? Z.of_nat (length vals) | Err _ => false end
            | None => false
            end
  | Err _ => false
  end.
Definition command_ready (s : system) (id : Z) (cmd : command) (cred : Credentials) : bool :=
  match cmd with SetAll vals => setall_ready s id vals cred | _ => true end.

Definition do_remove (s : system) (t : nat) (id : Z) (cred : Credentials) : system :=
  let '(r, w) := Sem.remove id cred (sems s) in
  goto t (match r with Ok q => Clearing q id | Err _ => Out end) (with_sems w s).

(** A new set comes with a new queue. *)
Definition do_semget (now : Z) (s : system) (key nsems flags : Z) (cred : Credentials) : system :=
  let '(_, w) := semget key nsems flags cred now (sems s) in
  mk_system w (queues s ++ replicate (length w.2 - length (sets s)) []) (tables s) (installed s) (held s)
    (all_entries s) (all_tasks s) (at_pc s).

Definition do_drain (s : system) (t : nat) (q : nat) (k : cont) : system :=
  let '(w, ts) := drain (world_of s q) in goto t (Waking ts k) (put_world q w s).

Definition do_wake (s : system) (t : nat) (t' : nat) (ts : list nat) (k : cont) : system :=
  goto t (Waking ts k) (with_tasks (tasks (wake_task (world_of s 0) t')) s).

Definition do_woken (s : system) (t : nat) (k : cont) : system :=
  goto t (match k with Return => Out | ExitOn x => ExitNext x end) s.

(** [clone]: the table is shared, or the child gets an empty one; a task without a
    table passes none on. *)
Definition do_clone (s : system) (t child : nat) (share : bool) : system :=
  let s := with_tasks (<[child := mk_task New false]> (all_tasks s)) s in
  match installed s !! t with
  | None => s
  | Some tb =>
      if share then with_tables (tables s) (<[child := tb]> (installed s)) (held s) s
      else with_tables (tables s ++ [∅]) (<[child := length (tables s)]> (installed s)) (held s) s
  end.

(** ** The way out *)

Definition do_exit (s : system) (t : nat) (cred : Credentials) (pid : Z) : system :=
  match installed s !! t with
  | None => goto t Gone s
  | Some tb =>
      goto t (ExitCount (mk_leaving cred pid tb []))
        (with_tables (tables s) (delete t (installed s)) (<[t := tb]> (held s)) s)
  end.

Definition do_exit_count (s : system) (t : nat) (x : leaving) : system :=
  goto t (if (1 <? strong_count s (x_table x))%nat then ExitDrop x else ExitEmpty x) s.

Definition table_of (s : system) (tb : nat) : SemUndoTable := default ∅ (tables s !! tb).

Definition do_exit_empty (s : system) (t : nat) (x : leaving) : system :=
  goto t (if bool_decide (table_of s (x_table x) = ∅) then ExitDrop x else ExitTake x) s.

Definition do_exit_take (s : system) (t : nat) (x : leaving) : system :=
  goto t (ExitNext (mk_leaving (x_cred x) (x_pid x) (x_table x) (btree_iter (table_of s (x_table x)))))
    (change_table (fun _ => ∅) (x_table x) s).

(** The next set whose adjustments make up a batch. *)
Definition do_exit_next (s : system) (t : nat) (x : leaving) : system :=
  match x_rest x with
  | [] => goto t (ExitDrop x) s
  | (id, adjustments) :: rest =>
      let x := mk_leaving (x_cred x) (x_pid x) (x_table x) rest in
      match undo_operations 0 adjustments with
      | None | Some [] => goto t (ExitNext x) s
      | Some ops =>
          match set_for_operation (manager s) id with
          | Err _ => goto t (ExitNext x) s
          | Ok q => goto t (ExitTry x q ops) s
          end
      end
  end.

Definition do_exit_try (now : Z) (s : system) (t : nat) (x : leaving) (q : nat) (ops : list SemOperation) : option system :=
  y ← sets s !! q;
  let '(r, y) := try_apply ops (x_cred x) (x_pid x) now y in
  Some (goto t (match r with
                | Ok Applied => WakeUp q (ExitOn x)
                | Ok (WouldBlock _ _) => ExitPrepare x q ops
                | Err _ => WakeUp q (ExitOn x)
                end) (with_set q y s)).

Definition do_exit_prepare (s : system) (t : nat) (x : leaving) (q : nat) (ops : list SemOperation) : system :=
  let '(w, e) := prepare_to_wait (world_of s q) t Sleeping in
  goto t (ExitRecheck x q ops e) (put_world q w s).

(** Whatever the second attempt answers but success, the task goes to sleep. *)
Definition do_exit_recheck (now : Z) (s : system) (t : nat) (x : leaving) (q : nat) (ops : list SemOperation) (e : nat)
  : option system :=
  y ← sets s !! q;
  let '(r, y) := try_apply ops (x_cred x) (x_pid x) now y in
  Some (goto t (match r with
                | Ok Applied => ExitLeave x q ops e true
                | Ok (WouldBlock _ _) => ExitAsleep x q ops e true
                | Err _ => ExitAsleep x q ops e false
                end) (with_set q y s)).

Definition do_exit_leave (s : system) (t : nat) (x : leaving) (q : nat) (ops : list SemOperation) (e : nat) (over : bool) : system :=
  goto t (ExitLeaveTask x q ops e over) (put_world q (finish_entry (world_of s q) e) s).

Definition do_exit_leave_task (s : system) (t : nat) (x : leaving) (q : nat) (ops : list SemOperation) (e : nat) (over : bool)
  : system :=
  goto t (if over then WakeUp q (ExitOn x) else ExitTry x q ops)
    (with_tasks (tasks (finish_transition true (world_of s 0) e)) s).

Definition do_exit_drop (s : system) (t : nat) (x : leaving) : system :=
  goto t Gone (with_tables (tables s) (installed s) (delete t (held s)) s).

(** ** Steps *)

(** A task starts a call or goes on with one.  Times, signals and whether a timer
    could be set or has run out are left open. *)
Inductive move : system -> system -> Prop :=
| move_semop s t q id ops cred pid timed :
    at_pc s t = Out -> is_Some (all_tasks s !! t) -> set_for_operation (manager s) id = Ok q ->
    move s (goto t (Try (mk_call q id ops cred pid timed)) s)
| move_try now s t c s' : at_pc s t = Try c -> do_try now s t c = Some s' -> move s s'
| move_register s t c n k s' : at_pc s t = Register c n k -> do_register s t c n k = Some s' -> move s s'
| move_check1 s t c n k signal expired :
    at_pc s t = Check1 c n k ->
    move s (goto t (match interrupted c signal expired with
                    | Some e => Unregister c n k (Fail e) | None => Prepare c n k end) s)
| move_prepare s t c n k :
    at_pc s t = Prepare c n k -> is_Some (all_tasks s !! t) -> move s (do_prepare s t c n k)
| move_arm s t c n k e (armed : bool) :
    at_pc s t = Arm c n k e ->
    move s (goto t (if c_deadline c && negb armed then Leave c n k e (Fail EAGAIN) else Recheck c n k e) s)
| move_recheck now s t c n k e s' :
    at_pc s t = Recheck c n k e -> do_recheck now s t c n k e = Some s' -> move s s'
| move_check2 s t c n k e signal expired :
    at_pc s t = Check2 c n k e ->
    move s (goto t (match interrupted c signal expired with
                    | Some err => Leave c n k e (Fail err) | None => Asleep c n k e end) s)
| move_resume s t c n k e :
    (* the scheduler runs a task again only when it does not sleep *)
    at_pc s t = Asleep c n k e -> ~ asleep (world_of s 0) t -> move s (goto t (Leave c n k e Retry) s)
| move_leave s t c n k e a : at_pc s t = Leave c n k e a -> move s (do_leave s t c n k e a)
| move_leave_task s t c n k e a : at_pc s t = LeaveTask c n k e a -> move s (do_leave_task s t c n k e a)
| move_unregister s t c n k a s' :
    at_pc s t = Unregister c n k a -> do_unregister s t c n k a = Some s' -> move s s'
| move_check3 s t c signal expired :
    at_pc s t = Check3 c ->
    move s (goto t (match interrupted c signal expired with Some _ => Out | None => Try c end) s)
| move_record s t c : at_pc s t = Recording c -> move s (do_record s t c)
| move_semctl s t id cmd cred pid :
    at_pc s t = Out -> is_Some (all_tasks s !! t) -> command_ready s id cmd cred = true ->
    move s (goto t (Lookup id cmd cred pid) s)
| move_lookup s t id cmd cred pid : at_pc s t = Lookup id cmd cred pid -> move s (do_lookup s t id cmd cred pid)
| move_control now s t q id cmd cred pid s' :
    at_pc s t = Control q id cmd cred pid -> do_control now s t q id cmd cred pid = Some s' -> move s s'
| move_clear s t q id : at_pc s t = Clearing q id -> move s (do_clear s t q id)
| move_remove s t id cred : at_pc s t = Out -> is_Some (all_tasks s !! t) -> move s (do_remove s t id cred)
| move_semget now s t key nsems flags cred :
    at_pc s t = Out -> is_Some (all_tasks s !! t) -> 0 <= nsems -> move s (do_semget now s key nsems flags cred)
| move_drain s t q k : at_pc s t = WakeUp q k -> move s (do_drain s t q k)
| move_wake s t t' ts k : at_pc s t = Waking (t' :: ts) k -> move s (do_wake s t t' ts k)
| move_woken s t k : at_pc s t = Waking [] k -> move s (do_woken s t k)
| move_clone s t child share :
    at_pc s t = Out -> is_Some (all_tasks s !! t) -> all_tasks s !! child = None -> at_pc s child = Out ->
    move s (do_clone s t child share)
| move_exit s t cred pid : at_pc s t = Out -> is_Some (all_tasks s !! t) -> move s (do_exit s t cred pid)
| move_exit_count s t x : at_pc s t = ExitCount x -> move s (do_exit_count s t x)
| move_exit_empty s t x : at_pc s t = ExitEmpty x -> move s (do_exit_empty s t x)
| move_exit_take s t x : at_pc s t = ExitTake x -> move s (do_exit_take s t x)
| move_exit_next s t x : at_pc s t = ExitNext x -> move s (do_exit_next s t x)
| move_exit_try now s t x q ops s' :
    at_pc s t = ExitTry x q ops -> do_exit_try now s t x q ops = Some s' -> move s s'
| move_exit_prepare s t x q ops :
    at_pc s t = ExitPrepare x q ops -> is_Some (all_tasks s !! t) -> move s (do_exit_prepare s t x q ops)
| move_exit_recheck now s t x q ops e s' :
    at_pc s t = ExitRecheck x q ops e -> do_exit_recheck now s t x q ops e = Some s' -> move s s'
| move_exit_resume s t x q ops e b :
    at_pc s t = ExitAsleep x q ops e b -> ~ asleep (world_of s 0) t -> move s (goto t (ExitLeave x q ops e false) s)
| move_exit_leave s t x q ops e over :
    at_pc s t = ExitLeave x q ops e over -> move s (do_exit_leave s t x q ops e over)
| move_exit_leave_task s t x q ops e over :
    at_pc s t = ExitLeaveTask x q ops e over -> move s (do_exit_leave_task s t x q ops e over)
| move_exit_drop s t x : at_pc s t = ExitDrop x -> move s (do_exit_drop s t x)
| move_environment s t k k' :
    (* signals, timers and the scheduler: a task changes state, but not into sleep *)
    all_tasks s !! t = Some k -> is_wait (state k') = false -> move s (with_tasks (<[t := k']> (all_tasks s)) s).

Definition boot (s : system) : Prop :=
  sems s = (new_manager, []) /\ queues s = [] /\ tables s = [] /\ installed s = ∅ /\ held s = ∅
  /\ all_entries s = [] /\ forall t, at_pc s t = Out.
