(* ===== verification/SemWaitProofs.v ===== *)
(** * System V semaphores: the invariants of waiting

    Waiting for semaphores is an instance of the protocol of waiting; the counts of
    those that wait are exact. *)

From stdpp Require Import gmap functions.
From S2P Require Import Prelude Cred Ipc Sem SemProofs WaitQueue WaitQueueProofs SemWait.

(** ** The protocol *)

(** The batch, queue and entry of a task that is registered, and whether it has
    seen since that it must wait. *)
Definition reg_of (p : pc) : option (registration (list SemOperation)) :=
  match p with
  | Arm c _ _ e | Recheck c _ _ e | Leave c _ _ e _ => Some (mk_reg (c_ops c) (c_set c) e false)
  | Check2 c _ _ e | Asleep c _ _ e => Some (mk_reg (c_ops c) (c_set c) e true)
  | ExitRecheck _ q ops e | ExitLeave _ q ops e _ => Some (mk_reg ops q e false)
  | ExitAsleep _ q ops e b => Some (mk_reg ops q e b)
  | _ => None
  end.

(** A task that changed a set owes its queue a [wake_all] from then on. *)
Definition duty_of (p : pc) : duty :=
  match p with
  | Leave c _ _ _ Success | LeaveTask c _ _ _ Success | Unregister c _ _ Success | Recording c => Drains (c_set c)
  | Clearing q _ | WakeUp q _ | ExitLeave _ q _ _ true | ExitLeaveTask _ q _ _ true => Drains q
  | Waking ts _ => Wakes ts
  | _ => Nothing
  end.

Definition blocked_in (sets : list SemSet) (ops : list SemOperation) (q : nat) : Prop :=
  exists x, sets !! q = Some x /\ must_wait ops x.

Definition view_of (s : system) : view (list SemOperation) :=
  shell reg_of duty_of (queues s) (all_entries s) (all_tasks s) (at_pc s) (fun _ _ => True) (blocked_in (sets s)).

(** The set that a task works on. *)
Definition set_of (p : pc) : option nat :=
  match p with
  | Try c | Register c _ _ | Check1 c _ _ | Prepare c _ _ | Arm c _ _ _ | Recheck c _ _ _ | Check2 c _ _ _
  | Asleep c _ _ _ | Leave c _ _ _ _ | LeaveTask c _ _ _ _ | Unregister c _ _ _ | Check3 c | Recording c => Some (c_set c)
  | Control q _ _ _ _ | Clearing q _ | WakeUp q _ => Some q
  | ExitTry _ q _ | ExitPrepare _ q _ | ExitRecheck _ q _ _ | ExitAsleep _ q _ _ _ | ExitLeave _ q _ _ _
  | ExitLeaveTask _ q _ _ _ => Some q
  | _ => None
  end.

Record good (s : system) : Prop := {
  good_queues : length (queues s) = length (sets s);
  good_sems : consistent (sems s);
  good_pcs : forall t q, set_of (at_pc s t) = Some q -> (q < length (sets s))%nat
}.

(** ** Moving on *)

(** A task that moves on without a change to the rest. *)
Lemma sem_goto_moves s t p :
  duty_of p = duty_of (at_pc s t) ->
  (reg_of p = reg_of (at_pc s t) \/ exists r b, reg_of (at_pc s t) = Some r /\ reg_of p = Some (commit b r)
     /\ (b = true -> r_committed r = false -> blocked_in (sets s) (r_for r) (r_queue r))) ->
  vsteps (view_of s) (view_of (goto t p s)).
Proof.
  intros Hd Hr. apply shell_moves; [done|]. destruct Hr as [?|(r & b & ? & ? & Hb)]; [by left|right]. exists r, b. auto.
Qed.

(** A task that changes a set, and owes a wake-up unless the change is one that
    those who wait need not see. *)
Lemma set_moves s t q x x' p :
  sets s !! q = Some x -> duty_of (at_pc s t) = Nothing \/ duty_of (at_pc s t) = duty_of p ->
  reg_of p = reg_of (at_pc s t) ->
  (vals_of x' = vals_of x /\ removed x' = removed x) \/ duty_of p = Drains q ->
  vsteps (view_of s) (view_of (goto t p (with_set q x' s))).
Proof.
  intros Hx Hd Hr Hch. apply shell_change; [done..|]. intros ops q' _ _. split; [done|].
  intros (y & Hy & Hb). destruct (decide (q' = q)) as [->|Hne].
  - destruct Hch as [[Hv Hrm]|Hch]; [left|by right]. cbn in Hy. rewrite Hx in Hy. simplify_eq. exists x'. unfold sets at 1. cbn.
    rewrite list_lookup_insert_eq by (by eapply lookup_lt_Some). split; [done|]. by eapply must_wait_vals.
  - left. exists y. unfold sets at 1. cbn. by rewrite list_lookup_insert_ne.
Qed.

Lemma with_same_set s q x : sets s !! q = Some x -> with_set q x s = s.
Proof. intros Hx. unfold with_set, with_sems. rewrite list_insert_id by done. by destruct s as [[]]. Qed.

(** ** Staying consistent *)

Lemma good_goto s t p :
  good s -> (forall q, set_of p = Some q -> (q < length (sets s))%nat) -> good (goto t p s).
Proof.
  intros [H1 H2 H3] Hp. split; [done|done|]. intros t' q. cbn [at_pc goto].
  destruct (decide (t' = t)) as [->|]; [rewrite fn_lookup_insert|rewrite fn_lookup_insert_ne by done]; [apply Hp|apply H3].
Qed.

Lemma good_set s q x x' : good s -> sets s !! q = Some x -> keeps_object x x' -> good (with_set q x' s).
Proof.
  intros [H1 H2 H3] Hx Hk. destruct (Hk (Forall_lookup_1 _ _ _ _ (con_objects _ H2) Hx)) as [Hwf Hn].
  unfold sets, manager in *. split; unfold with_set, with_sems, sets, manager in *; cbn in *.
  - by rewrite length_insert.
  - destruct (sems s) as [m l]. by eapply update_consistent.
  - rewrite length_insert. apply H3.
Qed.

Lemma good_put s q w : good s -> good (put_world q w s).
Proof. intros [H1 H2 H3]. split; [cbn; by rewrite length_insert|done|done]. Qed.

Lemma good_tables s tb i h : good s -> good (with_tables tb i h s).
Proof. by intros [H1 H2 H3]. Qed.

Lemma good_tasks s ts : good s -> good (with_tasks ts s).
Proof. by intros [H1 H2 H3]. Qed.

(** The set that a task works on exists. *)
Lemma good_here s t q : good s -> set_of (at_pc s t) = Some q -> (q < length (sets s))%nat /\ (q < length (queues s))%nat.
Proof. intros [H1 H2 H3] H. apply H3 in H. by rewrite H1. Qed.

Lemma good_lookup s id q : good s -> set_for_operation (manager s) id = Ok q -> (q < length (sets s))%nat.
Proof. intros [_ H2 _]. by apply object_lookup. Qed.

#[local] Hint Resolve good_goto good_put good_tables good_tasks : core.

(** ** Critical sections of a set *)

(** What a task does to a set, and where it goes. *)
Lemma section_sim s t q x x' p :
  good s -> sets s !! q = Some x -> keeps_object x x' -> (forall q', set_of p = Some q' -> q' = q) ->
  duty_of (at_pc s t) = Nothing \/ duty_of (at_pc s t) = duty_of p -> reg_of p = reg_of (at_pc s t) ->
  (vals_of x' = vals_of x /\ removed x' = removed x) \/ duty_of p = Drains q ->
  good (goto t p (with_set q x' s)) /\ vsteps (view_of s) (view_of (goto t p (with_set q x' s))).
Proof.
  intros Hg Hx Hk Hp Hd Hr Hch. split; [|by eapply set_moves]. apply good_goto; [by eapply good_set|].
  intros q' ->%Hp. cbn. unfold sets. cbn. rewrite length_insert. by eapply lookup_lt_Some.
Qed.

(** A batch that was tried: where the task goes in each case. *)
Lemma batch_sim ops cred pid now s t q x r x' p :
  good s -> sets s !! q = Some x -> try_apply ops cred pid now x = (r, x') ->
  (forall q', set_of p = Some q' -> q' = q) -> duty_of (at_pc s t) = Nothing ->
  (r = Ok Applied -> duty_of p = Drains q /\ reg_of p = reg_of (at_pc s t)) ->
  (r <> Ok Applied -> (duty_of p = Nothing /\
     (reg_of p = reg_of (at_pc s t) \/ exists rg b, reg_of (at_pc s t) = Some rg /\ reg_of p = Some (commit b rg)
        /\ (b = true -> r_for rg = ops /\ r_queue rg = q /\ exists n k, r = Ok (WouldBlock n k))))
     \/ duty_of p = Drains q /\ reg_of p = reg_of (at_pc s t)) ->
  good (goto t p (with_set q x' s)) /\ vsteps (view_of s) (view_of (goto t p (with_set q x' s))).
Proof.
  intros Hg Hx Ht Hp Hd Ha Hn. pose proof (try_apply_keeps _ _ _ _ _ _ _ Ht) as Hk.
  destruct (decide (r = Ok Applied)) as [Hr|Hr].
  - destruct (Ha Hr) as [Hdp Hrp]. eapply section_sim; eauto.
  - assert (x' = x) as -> by (by apply try_apply_rest in Ht as [? _]).
    destruct (Hn Hr) as [[Hdp Hrp]|[Hdp Hrp]]; [|eapply section_sim; eauto].
    split; [apply good_goto; [by eapply good_set|]; intros q' ->%Hp; cbn; unfold sets; cbn; rewrite length_insert; by eapply lookup_lt_Some|].
    rewrite (with_same_set s q x Hx). apply sem_goto_moves; [congruence|].
    destruct Hrp as [?|(rg & b & Hrg & Hc & Hb)]; [by left|right]. exists rg, b. split_and!; try done. intros Hbt _.
    destruct (Hb Hbt) as (-> & -> & n & k & ->). exists x. split; [done|]. by apply try_apply_blocks in Ht as [_ ?].
Qed.

(** ** Entering and leaving a queue *)

Lemma enter_sim s t q ops p (e : nat) w :
  good s -> (q < length (queues s))%nat -> is_Some (all_tasks s !! t) ->
  prepare_to_wait (world_of s q) t Sleeping = (w, e) ->
  reg_of (at_pc s t) = None -> duty_of (at_pc s t) = Nothing ->
  reg_of p = Some (mk_reg ops q e false) -> duty_of p = Nothing -> set_of p = Some q ->
  good (goto t p (put_world q w s)) /\ vsteps (view_of s) (view_of (goto t p (put_world q w s))).
Proof.
  intros Hg Hq Hal Hp Hr Hd Hrp Hdp Hsp. split.
  - apply good_goto; [auto|]. intros q' E. rewrite Hsp in E. simplify_eq.
    change (q' < length (sets s))%nat. by rewrite <- (good_queues _ Hg).
  - apply (shell_enter reg_of duty_of _ _ _ _ _ _ t p ops q Sleeping w e); cbn; (done || congruence).
Qed.

Lemma out_sim s t q ops e p :
  good s -> reg_of (at_pc s t) = Some (mk_reg ops q e false) -> set_of (at_pc s t) = Some q ->
  reg_of p = None -> duty_of p = duty_of (at_pc s t) -> set_of p = Some q ->
  let s' := goto t p (put_world q (finish_entry (world_of s q) e) s) in
  good s' /\ vsteps (view_of s) (view_of s').
Proof.
  intros Hg Hr Hs Hrp Hdp Hsp s'. destruct (good_here s t q Hg Hs) as [Hl Hq]. split.
  - apply good_goto; [auto|]. intros q' E. rewrite Hsp in E. by simplify_eq.
  - apply (shell_leave reg_of duty_of _ _ _ _ _ _ t p (mk_reg ops q e false)); cbn; auto.
Qed.

Lemma tasks_sim s t ts p :
  good s -> no_sleep (all_tasks s) ts -> reg_of p = reg_of (at_pc s t) -> duty_of p = duty_of (at_pc s t) ->
  (forall q, set_of p = Some q -> set_of (at_pc s t) = Some q) ->
  good (goto t p (with_tasks ts s)) /\ vsteps (view_of s) (view_of (goto t p (with_tasks ts s))).
Proof.
  intros Hg Hts Hr Hd Hs. split.
  - apply good_goto; [auto|]. intros q E%Hs. by apply (good_pcs _ Hg t).
  - by apply shell_tasks.
Qed.

(** ** Waking *)

Lemma sem_drain_sim s t q k :
  good s -> at_pc s t = WakeUp q k -> good (do_drain s t q k) /\ vsteps (view_of s) (view_of (do_drain s t q k)).
Proof.
  intros Hg Hpc. unfold do_drain. destruct (drain (world_of s q)) as [w ts] eqn:Ed. split; [by apply good_goto; auto|].
  apply (shell_drain reg_of duty_of _ _ _ _ _ _ t _ q w ts); cbn; rewrite ?Hpc; try done; exact Ed.
Qed.

Lemma sem_wake_sim s t t' ts k :
  good s -> at_pc s t = Waking (t' :: ts) k ->
  good (do_wake s t t' ts k) /\ vsteps (view_of s) (view_of (do_wake s t t' ts k)).
Proof.
  intros Hg Hpc. split; [by apply good_goto; auto|].
  apply (shell_wake reg_of duty_of _ _ _ _ _ _ t _ t' ts); cbn; by rewrite ?Hpc.
Qed.

(** ** Moving on, with what follows for the tables of the processes *)

Lemma plain_sim s t p :
  good s -> reg_of p = reg_of (at_pc s t) -> duty_of p = duty_of (at_pc s t) ->
  (forall q, set_of p = Some q -> (q < length (sets s))%nat) ->
  good (goto t p s) /\ vsteps (view_of s) (view_of (goto t p s)).
Proof. intros Hg Hr Hd Hs. split; [auto|]. apply sem_goto_moves; auto. Qed.

Lemma own_table_eq s t : exists tb i, (own_table s t).2 = with_tables tb i (held s) s.
Proof. unfold own_table. destruct (installed s !! t); [exists (tables s), (installed s); by destruct s|by eexists _, _]. Qed.

Lemma table_sim s t p tb i h :
  good s -> reg_of p = reg_of (at_pc s t) -> duty_of p = duty_of (at_pc s t) ->
  (forall q, set_of p = Some q -> (q < length (sets s))%nat) ->
  good (goto t p (with_tables tb i h s)) /\ vsteps (view_of s) (view_of (goto t p (with_tables tb i h s))).
Proof. intros Hg Hr Hd Hs. apply (plain_sim (with_tables tb i h s)); auto. Qed.

Lemma with_tables_twice a b c a' b' c' s : with_tables a b c (with_tables a' b' c' s) = with_tables a b c s.
Proof. done. Qed.

Lemma record_sim s t c :
  good s -> at_pc s t = Recording c -> good (do_record s t c) /\ vsteps (view_of s) (view_of (do_record s t c)).
Proof.
  intros Hg Hpc. assert (Hl : forall q, Some (c_set c) = Some q -> (q < length (sets s))%nat).
  { intros q [= <-]. apply (good_pcs _ Hg t). by rewrite Hpc. }
  unfold do_record. destruct (existsb _ _); [|apply plain_sim; rewrite ?Hpc; auto].
  destruct (own_table_eq s t) as (tb & i & E). destruct (own_table s t) as [n s1]. cbn in E. subst s1.
  unfold change_table. rewrite with_tables_twice. apply table_sim; rewrite ?Hpc; auto.
Qed.

Lemma clear_sim s t q id :
  good s -> at_pc s t = Clearing q id -> good (do_clear s t q id) /\ vsteps (view_of s) (view_of (do_clear s t q id)).
Proof.
  intros Hg Hpc. assert (Hl : forall q', Some q = Some q' -> (q' < length (sets s))%nat).
  { intros q' [= <-]. apply (good_pcs _ Hg t). by rewrite Hpc. }
  unfold do_clear. destruct (own_table_eq s t) as (tb & i & E). destruct (own_table s t) as [n s1]. cbn in E. subst s1.
  unfold change_table. rewrite with_tables_twice. apply table_sim; rewrite ?Hpc; auto.
Qed.

(** ** Control *)

Lemma set_value_sim s t q id cmd cred pid now s' :
  good s -> at_pc s t = Control q id cmd cred pid -> do_control now s t q id cmd cred pid = Some s' ->
  good s' /\ vsteps (view_of s) (view_of s').
Proof.
  intros Hg Hpc Hs. unfold do_control in Hs. destruct (sets s !! q) as [x|] eqn:Hx; [|done]. cbn in Hs. injection Hs as <-.
  assert (Hout : good (goto t Out s) /\ vsteps (view_of s) (view_of (goto t Out s))) by (apply plain_sim; rewrite ?Hpc; auto; done).
  assert (Hset : forall x', keeps_object x x' ->
    good (goto t (Clearing q id) (with_set q x' s)) /\ vsteps (view_of s) (view_of (goto t (Clearing q id) (with_set q x' s)))).
  { intros x' Hk. eapply section_sim; rewrite ?Hpc; eauto. by intros q' [= <-]. }
  destruct cmd as [n v|vals|u g m].
  - destruct (set_value n v cred pid now x) eqn:E; [|done]. eapply Hset, set_value_keeps; eauto.
  - destruct (set_all vals cred pid now x) eqn:E; [|done]. eapply Hset, set_all_keeps; eauto.
  - destruct (set_perm _ _ _ _ _ x) as [x'|] eqn:E; [|done]. pose proof (set_perm_keeps _ _ _ _ _ _ _ E) as Hk.
    eapply section_sim; rewrite ?Hpc; eauto; [done|]. left. unfold set_perm, refuse in E.
    destruct (removed x) eqn:Er; [done|]. destruct (check_control_owner _ _); [|done]. by simplify_eq.
Qed.

Lemma remove_sim s t id cred :
  good s -> at_pc s t = Out -> good (do_remove s t id cred) /\ vsteps (view_of s) (view_of (do_remove s t id cred)).
Proof.
  intros [H1 H2 H3] Hpc. unfold do_remove, Sem.remove. pose proof (remove_objects id cred (sems s)) as Hs.
  pose proof (remove_consistent id cred (sems s) H2) as Hc. destruct (remove_object id cred (sems s)) as [[q|e] w]; cbn [snd] in *.
  2: { subst w. assert (with_sems (sems s) s = s) as -> by (by destruct s). by apply plain_sim; rewrite ?Hpc. }
  destruct Hs as (x & Hx & Hw). split.
  - apply good_goto; [|intros q' [= <-]; cbn; unfold sets; cbn; rewrite Hw, length_insert; by eapply lookup_lt_Some].
    split; cbn; unfold sets in *; cbn; rewrite ?Hw, ?length_insert; done.
  - apply shell_change; cbn; rewrite ?Hpc; auto. intros ops q' _ _. split; [done|]. intros (y & Hy & Hb).
    destruct (decide (q' = q)) as [->|Hne]; [by right|left]. exists y. unfold sets at 1. cbn. by rewrite Hw, list_lookup_insert_ne.
Qed.

(** The sets stay, and those that are new start from zero. *)
Definition extends (w w' : ipc) : Prop :=
  exists l, w'.2 = w.2 ++ l /\ forall x n v, x ∈ l -> values x !! n = Some v -> v = mk_value 0 0 0 0.

Lemma extends_refl m m' l : extends (m, l) (m', l).
Proof. exists []. split; [by rewrite app_nil_r|]. by intros x n v ?%elem_of_nil. Qed.

Lemma semget_sets key nsems flags cred now w : extends w (semget key nsems flags cred now w).2.
Proof.
  destruct w as [m l]. assert (Hc : extends (m, l) (semget_create key nsems flags cred now (m, l)).2).
  { unfold semget_create. destruct (_ || _); [apply extends_refl|].
    destruct (create_objects key (new_set key nsems flags cred now) (m, l)) as [E|E]; [exists []|eexists].
    - split; [by rewrite app_nil_r|]. by intros x n v ?%elem_of_nil.
    - split; [exact E|]. intros x n v ->%list_elem_of_singleton Hv. by apply lookup_replicate in Hv as [-> _]. }
  unfold semget. destruct (key =? _); [done|]. cbn [fst]. destruct (by_key m !! key); [apply extends_refl|].
  destruct (_ =? _); [apply extends_refl|done].
Qed.

Lemma semget_sim now s t key nsems flags cred :
  good s -> at_pc s t = Out -> 0 <= nsems ->
  good (do_semget now s key nsems flags cred) /\ vsteps (view_of s) (view_of (do_semget now s key nsems flags cred)).
Proof.
  intros [H1 H2 H3] Hpc Hn. unfold do_semget. pose proof (semget_consistent key nsems flags cred now (sems s) H2 Hn) as Hc.
  pose proof (semget_sets key nsems flags cred now (sems s)) as (l & Hl & _). destruct (semget _ _ _ _ _ _) as [r w]. cbn [snd] in *.
  split.
  - split; [cbn; unfold sets in *; cbn; rewrite length_app, length_replicate, Hl, length_app; lia|done|].
    intros t' q Hq. unfold sets in *. cbn in *. apply H3 in Hq. rewrite Hl, length_app. lia.
  - apply shell_grow; [apply new_queues|]. intros ops q _. split; [done|]. intros (y & Hy & Hb). exists y.
    unfold sets at 1. cbn. rewrite Hl. split; [by apply lookup_app_l_Some|done].
Qed.

Lemma clone_sim s t child share :
  good s -> at_pc s t = Out -> good (do_clone s t child share) /\ vsteps (view_of s) (view_of (do_clone s t child share)).
Proof.
  intros Hg Hpc. unfold do_clone. set (ts := <[child := _]> _).
  assert (Hv : vsteps (view_of s) (view_of (with_tasks ts s)))
    by (eapply vsteps_once; [by apply (vs_states (view_of s) ts), set_task_no_sleep|done]).
  destruct (installed _ !! t); [destruct share|]; (split; [auto|exact Hv]).
Qed.

(** ** The way out *)

Lemma exit_sim s t cred pid :
  good s -> at_pc s t = Out -> good (do_exit s t cred pid) /\ vsteps (view_of s) (view_of (do_exit s t cred pid)).
Proof.
  intros Hg Hpc. unfold do_exit. destruct (installed s !! t); [apply table_sim|apply plain_sim]; rewrite ?Hpc; done.
Qed.

Lemma exit_next_sim s t x :
  good s -> at_pc s t = ExitNext x -> good (do_exit_next s t x) /\ vsteps (view_of s) (view_of (do_exit_next s t x)).
Proof.
  intros Hg Hpc. assert (Hstay : forall p, reg_of p = None -> duty_of p = Nothing ->
    (forall q, set_of p = Some q -> (q < length (sets s))%nat) -> good (goto t p s) /\ vsteps (view_of s) (view_of (goto t p s))).
  { intros p Hr Hd Hs. apply plain_sim; rewrite ?Hpc; done. }
  unfold do_exit_next. destruct (x_rest x) as [|[id adj] rest]; [by apply Hstay|].
  destruct (undo_operations 0 adj) as [[|o ops]|]; [by apply Hstay| |by apply Hstay].
  destruct (set_for_operation (manager s) id) as [q|] eqn:Eq; [|by apply Hstay].
  apply Hstay; [done|done|]. intros q' [= <-]. by eapply good_lookup.
Qed.

(** ** Every step is one of the protocol *)

Lemma try_sim now s t c s' :
  good s -> at_pc s t = Try c -> do_try now s t c = Some s' -> good s' /\ vsteps (view_of s) (view_of s').
Proof.
  intros Hg Hpc Hs. unfold do_try in Hs. destruct (sets s !! c_set c) as [x|] eqn:Hx; [|done]. cbn in Hs.
  destruct (try_apply _ _ _ now x) as [r x'] eqn:Ht. injection Hs as <-.
  eapply batch_sim; try exact Ht; rewrite ?Hpc; try done; destruct r as [[]|]; naive_solver.
Qed.

Lemma register_sim s t c n k s' :
  good s -> at_pc s t = Register c n k -> do_register s t c n k = Some s' -> good s' /\ vsteps (view_of s) (view_of s').
Proof.
  intros Hg Hpc Hs. unfold do_register in Hs. destruct (sets s !! c_set c) as [x|] eqn:Hx; [|done]. cbn in Hs.
  pose proof (register_keeps n k x) as Hk. destruct (register_blocked n k x) as [r x'] eqn:Er. cbn [snd] in Hk. injection Hs as <-.
  apply (section_sim s t (c_set c) x x'); rewrite ?Hpc; [done|done|done|destruct r; naive_solver|by left|by destruct r|left].
  unfold register_blocked in Er. destruct (removed x) eqn:E; [by simplify_eq|]. destruct (values x !! n) as [v|] eqn:Ev; simplify_eq; [|done].
  split; [|done]. unfold vals_of, with_values. cbn. rewrite list_fmap_insert. apply list_insert_id. rewrite list_lookup_fmap, Ev. by destruct k.
Qed.

Lemma unregister_sim s t c n k a s' :
  good s -> at_pc s t = Unregister c n k a -> do_unregister s t c n k a = Some s' -> good s' /\ vsteps (view_of s) (view_of s').
Proof.
  intros Hg Hpc Hs. unfold do_unregister in Hs. destruct (sets s !! c_set c) as [x|] eqn:Hx; [|done]. cbn in Hs. injection Hs as <-.
  apply (section_sim s t (c_set c) x); rewrite ?Hpc;
    [done|done|apply unregister_keeps|destruct a; naive_solver|by destruct a; auto|by destruct a|left].
  unfold unregister_blocked. destruct (values x !! n) as [v|] eqn:Ev; [|done].
  split; [|done]. unfold vals_of, with_values. cbn. rewrite list_fmap_insert. apply list_insert_id. rewrite list_lookup_fmap, Ev. by destruct k.
Qed.

Lemma recheck_sim now s t c n k e s' :
  good s -> at_pc s t = Recheck c n k e -> do_recheck now s t c n k e = Some s' -> good s' /\ vsteps (view_of s) (view_of s').
Proof.
  intros Hg Hpc Hs. unfold do_recheck in Hs. destruct (sets s !! c_set c) as [x|] eqn:Hx; [|done]. cbn in Hs.
  destruct (try_apply _ _ _ now x) as [r x'] eqn:Ht. injection Hs as <-.
  eapply batch_sim; try exact Ht; rewrite ?Hpc; try done; destruct r as [[|n' k']|]; naive_solver.
Qed.

Lemma exit_try_sim now s t x q ops s' :
  good s -> at_pc s t = ExitTry x q ops -> do_exit_try now s t x q ops = Some s' -> good s' /\ vsteps (view_of s) (view_of s').
Proof.
  intros Hg Hpc Hs. unfold do_exit_try in Hs. destruct (sets s !! q) as [y|] eqn:Hx; [|done]. cbn in Hs.
  destruct (try_apply _ _ _ now y) as [r y'] eqn:Ht. injection Hs as <-.
  eapply batch_sim; try exact Ht; rewrite ?Hpc; try done; destruct r as [[]|]; naive_solver.
Qed.

Lemma exit_recheck_sim now s t x q ops e s' :
  good s -> at_pc s t = ExitRecheck x q ops e -> do_exit_recheck now s t x q ops e = Some s' ->
  good s' /\ vsteps (view_of s) (view_of s').
Proof.
  intros Hg Hpc Hs. unfold do_exit_recheck in Hs. destruct (sets s !! q) as [y|] eqn:Hx; [|done]. cbn in Hs.
  destruct (try_apply _ _ _ now y) as [r y'] eqn:Ht. injection Hs as <-.
  eapply batch_sim; try exact Ht; rewrite ?Hpc; try done; destruct r as [[|n' k']|]; naive_solver.
Qed.

(** A task that gives up waiting, or is done with it. *)
Lemma uncommit_sim s t r p :
  good s -> reg_of (at_pc s t) = Some r -> reg_of p = Some (commit false r) -> duty_of p = duty_of (at_pc s t) ->
  set_of p = set_of (at_pc s t) -> good (goto t p s) /\ vsteps (view_of s) (view_of (goto t p s)).
Proof.
  intros Hg Hr Hp Hd Hs. split; [apply good_goto; [done|]; intros q E; apply (good_pcs _ Hg t); congruence|].
  apply sem_goto_moves; [done|]. right. by exists r, false.
Qed.

Lemma stay_sim s t p :
  good s -> reg_of p = reg_of (at_pc s t) -> duty_of p = duty_of (at_pc s t) ->
  (set_of p = None \/ set_of p = set_of (at_pc s t)) -> good (goto t p s) /\ vsteps (view_of s) (view_of (goto t p s)).
Proof.
  intros Hg Hr Hd Hs. apply plain_sim; try done. intros q E. apply (good_pcs _ Hg t). destruct Hs; congruence.
Qed.

Lemma sem_move_sim s s' : good s -> move s s' -> good s' /\ vsteps (view_of s) (view_of s').
Proof.
  intros Hg Hm. destruct Hm as
    [s t q id ops cred pid timed Hpc Hal Hq|now s t c s' Hpc Hs|s t c n k s' Hpc Hs|s t c n k sig ex Hpc|s t c n k Hpc Hal
    |s t c n k e armed Hpc|now s t c n k e s' Hpc Hs|s t c n k e sig ex Hpc|s t c n k e Hpc Ha|s t c n k e a Hpc
    |s t c n k e a Hpc|s t c n k a s' Hpc Hs|s t c sig ex Hpc|s t c Hpc|s t id cmd cred pid Hpc Hal Hr
    |s t id cmd cred pid Hpc|now s t q id cmd cred pid s' Hpc Hs|s t q id Hpc|s t id cred Hpc Hal
    |now s t key nsems flags cred Hpc Hal Hn|s t q k Hpc|s t t' ts k Hpc|s t k Hpc|s t child share Hpc Hal Hf Hc
    |s t cred pid Hpc Hal|s t x Hpc|s t x Hpc|s t x Hpc|s t x Hpc|now s t x q ops s' Hpc Hs|s t x q ops Hpc Hal
    |now s t x q ops e s' Hpc Hs|s t x q ops e b Hpc Ha|s t x q ops e over Hpc|s t x q ops e over Hpc|s t x Hpc|s t k k' Hk Hw].
  - apply plain_sim; rewrite ?Hpc; try done. intros q' [= <-]. by eapply good_lookup.
  - by eapply try_sim.
  - by eapply register_sim.
  - apply stay_sim; rewrite ?Hpc; try done; destruct (interrupted c sig ex); auto.
  - unfold do_prepare. destruct (prepare_to_wait _ _ _) as [w e] eqn:Ep.
    apply (enter_sim s t (c_set c) (c_ops c) _ e w); rewrite ?Hpc; try done. eapply good_here; [done|by rewrite Hpc].
  - apply stay_sim; rewrite ?Hpc; try done; destruct (_ && _); auto.
  - by eapply recheck_sim.
  - destruct (interrupted c sig ex); [|apply stay_sim; rewrite ?Hpc; auto].
    apply (uncommit_sim s t (mk_reg (c_ops c) (c_set c) e true)); by rewrite ?Hpc.
  - apply (uncommit_sim s t (mk_reg (c_ops c) (c_set c) e true)); by rewrite ?Hpc.
  - apply (out_sim s t (c_set c) (c_ops c) e); rewrite ?Hpc; try done; by destruct a.
  - apply tasks_sim; rewrite ?Hpc; try done. apply (finish_no_sleep (world_of s 0)).
  - by eapply unregister_sim.
  - apply stay_sim; rewrite ?Hpc; destruct (interrupted c sig ex); auto.
  - by apply record_sim.
  - apply stay_sim; rewrite ?Hpc; auto.
  - unfold do_lookup. destruct (set_for_operation _ _) eqn:E; apply plain_sim; rewrite ?Hpc; try done.
    intros q' [= <-]. by eapply good_lookup.
  - by eapply set_value_sim.
  - by apply clear_sim.
  - by apply remove_sim.
  - by eapply semget_sim.
  - by apply sem_drain_sim.
  - by apply sem_wake_sim.
  - split; [apply good_goto; [done|by destruct k]|]. unfold do_woken.
    apply shell_done; cbn; rewrite ?Hpc; by destruct k.
  - by apply clone_sim.
  - by apply exit_sim.
  - unfold do_exit_count. destruct (1 <? _)%nat; apply stay_sim; rewrite ?Hpc; auto.
  - unfold do_exit_empty. case_bool_decide; apply stay_sim; rewrite ?Hpc; auto.
  - by apply table_sim; rewrite ?Hpc.
  - by apply exit_next_sim.
  - by eapply exit_try_sim.
  - unfold do_exit_prepare. destruct (prepare_to_wait _ _ _) as [w e] eqn:Ep.
    apply (enter_sim s t q ops _ e w); rewrite ?Hpc; try done. eapply good_here; [done|by rewrite Hpc].
  - by eapply exit_recheck_sim.
  - apply (uncommit_sim s t (mk_reg ops q e b)); by rewrite ?Hpc.
  - apply (out_sim s t q ops e); rewrite ?Hpc; try done; by destruct over.
  - apply tasks_sim; rewrite ?Hpc; [done|apply (finish_no_sleep (world_of s 0))|by destruct over..].
  - by apply table_sim; rewrite ?Hpc.
  - split; [auto|]. eapply vsteps_once; [by apply (vs_states (view_of s)), set_task_no_sleep|done].
Qed.

(** ** No lost wake-ups *)

(** What is left to do for a task that has changed a set: get out of the queue and
    of the count, see to the undo table, and wake. *)
Inductive waker_move : system -> system -> Prop :=
| waker_leave s t c n k e : at_pc s t = Leave c n k e Success -> waker_move s (do_leave s t c n k e Success)
| waker_leave_task s t c n k e :
    at_pc s t = LeaveTask c n k e Success -> waker_move s (do_leave_task s t c n k e Success)
| waker_unregister s t c n k s' :
    at_pc s t = Unregister c n k Success -> do_unregister s t c n k Success = Some s' -> waker_move s s'
| waker_record s t c : at_pc s t = Recording c -> waker_move s (do_record s t c)
| waker_clear s t q id : at_pc s t = Clearing q id -> waker_move s (do_clear s t q id)
| waker_exit_leave s t x q ops e :
    at_pc s t = ExitLeave x q ops e true -> waker_move s (do_exit_leave s t x q ops e true)
| waker_exit_leave_task s t x q ops e :
    at_pc s t = ExitLeaveTask x q ops e true -> waker_move s (do_exit_leave_task s t x q ops e true)
| waker_drains s t q k : at_pc s t = WakeUp q k -> waker_move s (do_drain s t q k)
| waker_wakes s t t' ts k : at_pc s t = Waking (t' :: ts) k -> waker_move s (do_wake s t t' ts k).

Lemma sem_waker_move s s' : waker_move s s' -> move s s'.
Proof.
  destruct 1; eauto using move_leave, move_leave_task, move_unregister, move_record, move_clear, move_exit_leave,
    move_exit_leave_task, move_drain, move_wake.
Qed.

(** Such a step moves one task, which is not one that has decided to wait. *)
Lemma waker_mover s s' :
  waker_move s s' -> exists t p, at_pc s' = <[t := p]> (at_pc s)
    /\ forall r, reg_of (at_pc s t) = Some r -> r_committed r = false.
Proof.
  destruct 1 as [s t c n k e Hpc|s t c n k e Hpc|s t c n k s' Hpc Hs|s t c Hpc|s t q id Hpc|s t x q ops e Hpc|s t x q ops e Hpc
    |s t q k Hpc|s t t' ts k Hpc]; exists t; rewrite Hpc.
  - eexists. split; [done|]. by intros r [= <-].
  - by eexists.
  - unfold do_unregister in Hs. destruct (sets s !! c_set c); [|done]. cbn in Hs. simplify_eq. by eexists.
  - exists (WakeUp (c_set c) Return). split; [|done]. unfold do_record, own_table.
    destruct (existsb _ _); [|done]. by destruct (installed s !! t).
  - exists (WakeUp q Return). split; [|done]. unfold do_clear, own_table. by destruct (installed s !! t).
  - eexists. split; [done|]. by intros r [= <-].
  - by eexists.
  - unfold do_drain. destruct (drain _). by eexists.
  - by eexists.
Qed.

(** A task that owes a wake-up gets to it. *)
Definition gets_to (t q : nat) (s : system) : Prop := exists s1 k, rtc waker_move s s1 /\ at_pc s1 t = WakeUp q k.

Lemma gets_l t q s s' : waker_move s s' -> gets_to t q s' -> gets_to t q s.
Proof. intros Hs (s1 & k & ? & ?). exists s1, k. split; [by eapply rtc_l|done]. Qed.

Lemma gets_now t q k s : at_pc s t = WakeUp q k -> gets_to t q s.
Proof. intros H. by exists s, k. Qed.

Ltac at_next := cbn; by rewrite fn_lookup_insert.

Lemma recording_gets t c s : at_pc s t = Recording c -> gets_to t (c_set c) s.
Proof. intros Hpc. eapply gets_l; [by apply waker_record|]. apply (gets_now _ _ Return). at_next. Qed.

Lemma clearing_gets t q id s : at_pc s t = Clearing q id -> gets_to t q s.
Proof.
  intros Hpc. eapply gets_l; [by apply waker_clear|]. apply (gets_now _ _ Return). unfold do_clear.
  destruct (own_table s t). at_next.
Qed.

Lemma unregister_gets t c n k s : good s -> at_pc s t = Unregister c n k Success -> gets_to t (c_set c) s.
Proof.
  intros Hg Hpc. destruct (good_here s t (c_set c) Hg) as [Hl _]; [by rewrite Hpc|].
  destruct (lookup_lt_is_Some_2 _ _ Hl) as [x Hx].
  eapply gets_l; [eapply (waker_unregister _ _ _ _ _ _ Hpc); unfold do_unregister; by rewrite Hx|].
  apply recording_gets. at_next.
Qed.

Lemma leave_task_gets t c n k e s : good s -> at_pc s t = LeaveTask c n k e Success -> gets_to t (c_set c) s.
Proof.
  intros Hg Hpc. pose proof (waker_leave_task _ _ _ _ _ _ Hpc) as Hs. eapply gets_l; [exact Hs|].
  apply (unregister_gets t c n k); [by eapply sem_move_sim; [|apply sem_waker_move]|at_next].
Qed.

Lemma leave_gets t c n k e s : good s -> at_pc s t = Leave c n k e Success -> gets_to t (c_set c) s.
Proof.
  intros Hg Hpc. pose proof (waker_leave _ _ _ _ _ _ Hpc) as Hs. eapply gets_l; [exact Hs|].
  apply (leave_task_gets t c n k e); [by eapply sem_move_sim; [|apply sem_waker_move]|at_next].
Qed.

Lemma exit_leave_task_gets t x q ops e s : at_pc s t = ExitLeaveTask x q ops e true -> gets_to t q s.
Proof. intros Hpc. eapply gets_l; [by apply waker_exit_leave_task|]. apply (gets_now _ _ (ExitOn x)). at_next. Qed.

Lemma exit_leave_gets t x q ops e s : at_pc s t = ExitLeave x q ops e true -> gets_to t q s.
Proof. intros Hpc. eapply gets_l; [by apply waker_exit_leave|]. apply (exit_leave_task_gets t x q ops e). at_next. Qed.

Lemma to_wake_up s t q : good s -> duty_of (at_pc s t) = Drains q -> gets_to t q s.
Proof.
  intros Hg Hd. destruct (at_pc s t) eqn:Hpc; cbn in Hd; try discriminate Hd; repeat case_match; simplify_eq;
    eauto using gets_now, recording_gets, clearing_gets, unregister_gets, leave_task_gets, leave_gets,
      exit_leave_task_gets, exit_leave_gets.
Qed.

Lemma wakes_pc p ts : duty_of p = Wakes ts -> exists k, p = Waking ts k.
Proof. destruct p; cbn; intros H; repeat case_match; simplify_eq; by eexists. Qed.

#[export] Program Instance sem_waiting : Waiting system pc (list SemOperation) := {
  w_at := at_pc; w_view := view_of; w_boot := boot; w_move := move; w_waker := waker_move; w_good := good
}.
Next Obligation.
  intros s (Hs & Hq & _ & _ & _ & _ & Hpc). unfold sets in *. split.
  - split; [by rewrite Hq; unfold sets; rewrite Hs|rewrite Hs; apply new_consistent|]. intros t q. by rewrite Hpc.
  - split; cbn; [intros t r; by rewrite Hpc|]. intros q e. unfold queue. rewrite Hq. by intros ?%elem_of_nil.
Qed.
Next Obligation. intros s s' Hg _ Hm. by apply sem_move_sim. Qed.
Next Obligation. apply sem_waker_move. Qed.
Next Obligation.
  intros s s' t r Hs Hr Hc. cbn in *. destruct (waker_mover s s' Hs) as (t0 & p & -> & Hno).
  rewrite fn_lookup_insert_ne; [done|]. intros ->. apply Hno in Hr. congruence.
Qed.
Next Obligation.
  intros s k q Hg Hk. destruct (to_wake_up s k q Hg Hk) as (s1 & c & Hr & Hpc).
  exists s1, (do_drain s1 k q c). split_and!; [done|by constructor|cbn; by rewrite Hpc|].
  destruct (drain (v_world (view_of s1) q)) as [w ts] eqn:Ed. unfold do_drain.
  change (world_of s1 q) with (v_world (view_of s1) q). rewrite Ed.
  apply (shell_drain_view reg_of duty_of); cbn; rewrite ?Hpc; try done; exact Ed.
Qed.
Next Obligation.
  intros s k t' ts Hk. apply wakes_pc in Hk as [c Hk]. exists (do_wake s k t' ts c). split; [by constructor|].
  apply (shell_wake_view reg_of duty_of); cbn; by rewrite ?Hk.
Qed.

(** A task that has decided that it must wait for semaphores: [Some] of its batch
    and its set. *)
Definition waits_for (p : pc) : option (list SemOperation * nat) :=
  match p with
  | Asleep c _ _ _ => Some (c_ops c, c_set c)
  | ExitAsleep _ q ops _ true => Some (ops, q)
  | _ => None
  end.

(** ** The counts of those that wait *)

(** The semaphore that a task is counted at, between [register_blocked] and
    [unregister_blocked]. *)
Definition counted_at (p : pc) : option (nat * nat * SemBlockKind) :=
  match p with
  | Check1 c n k | Prepare c n k | Arm c n k _ | Recheck c n k _ | Check2 c n k _ | Asleep c n k _
  | Leave c n k _ _ | LeaveTask c n k _ _ | Unregister c n k _ => Some (c_set c, n, k)
  | _ => None
  end.

Definition count_of (k : SemBlockKind) (v : SemValue) : Z :=
  match k with Increment => semncnt v | Zero => semzcnt v end.

(** The tasks counted at a semaphore. *)
Definition counted_tasks (s : system) (q n : nat) (k : SemBlockKind) : gset nat :=
  filter (fun t => counted_at (at_pc s t) = Some (q, n, k)) (dom (all_tasks s)).

Record counted (s : system) : Prop := {
  counted_alive : forall t, at_pc s t <> Out -> is_Some (all_tasks s !! t);
  counted_exact : forall q x n v k, sets s !! q = Some x -> values x !! n = Some v ->
    count_of k v = Z.of_nat (size (counted_tasks s q n k))
}.

(** What a step that counts nobody does. *)
Definition counts (x : SemSet) : list (Z * Z) := (fun v => (semncnt v, semzcnt v)) <$> values x.

Lemma counts_lookup x x' n v' k :
  counts x' = counts x -> values x' !! n = Some v' -> exists v, values x !! n = Some v /\ count_of k v' = count_of k v.
Proof.
  intros H Hv. assert (E : counts x' !! n = Some (semncnt v', semzcnt v')) by (unfold counts; by rewrite list_lookup_fmap, Hv).
  rewrite H in E. unfold counts in E. rewrite list_lookup_fmap in E. destruct (values x !! n) as [v|]; [|done].
  exists v. split; [done|]. cbn in E. destruct k; cbn; congruence.
Qed.

(** A task moves on, and the tasks that appear are counted nowhere. *)
Lemma counted_frame s s' t p :
  counted s -> (forall t', at_pc s' t' = (<[t := p]> (at_pc s)) t') -> counted_at p = counted_at (at_pc s t) ->
  (p <> Out -> is_Some (all_tasks s !! t)) -> dom (all_tasks s) ⊆ dom (all_tasks s') ->
  (forall t', is_Some (all_tasks s' !! t') -> is_Some (all_tasks s !! t') \/ counted_at (at_pc s t') = None) ->
  (forall q x', sets s' !! q = Some x' -> (exists x, sets s !! q = Some x /\ counts x' = counts x)
     \/ (forall n v k, values x' !! n = Some v -> count_of k v = 0) /\ forall t' n k, counted_at (at_pc s t') <> Some (q, n, k)) ->
  counted s'.
Proof.
  intros [Ha He] Hpc Hp Halive Hd Hn Hs.
  assert (Hat : forall t', counted_at (at_pc s' t') = counted_at (at_pc s t')).
  { intros t'. rewrite Hpc. destruct (decide (t' = t)) as [->|]; [by rewrite fn_lookup_insert|by rewrite fn_lookup_insert_ne]. }
  assert (Hset : forall q n k, counted_tasks s' q n k = counted_tasks s q n k).
  { intros q n k. apply set_eq. intros t'. unfold counted_tasks. rewrite !elem_of_filter, Hat, !elem_of_dom. split; intros [Hc Hx]; (split; [done|]).
    - destruct (Hn t' Hx); [done|congruence].
    - apply elem_of_dom, Hd, elem_of_dom. done. }
  split.
  - intros t' Hc. apply elem_of_dom, Hd, elem_of_dom. rewrite Hpc in Hc.
    destruct (decide (t' = t)) as [->|]; [rewrite fn_lookup_insert in Hc|rewrite fn_lookup_insert_ne in Hc by done]; auto.
  - intros q x' n v' k Hx Hv. rewrite Hset. destruct (Hs q x' Hx) as [(x & Hx0 & Hcs)|[Hz Hno]].
    + destruct (counts_lookup x x' n v' k Hcs Hv) as (v & Hv0 & ->). by eapply He.
    + rewrite (Hz n v' k Hv). assert (counted_tasks s q n k = ∅) as ->; [|done].
      apply set_eq. intros t'. unfold counted_tasks. rewrite elem_of_filter. split; [|set_solver]. intros [Hc _]. by destruct (Hno t' n k).
Qed.

Lemma frame_same s s' t p :
  counted s -> at_pc s' = <[t := p]> (at_pc s) -> counted_at p = counted_at (at_pc s t) ->
  (p <> Out -> is_Some (all_tasks s !! t)) -> dom (all_tasks s') = dom (all_tasks s) ->
  (forall q x', sets s' !! q = Some x' -> exists x, sets s !! q = Some x /\ counts x' = counts x) -> counted s'.
Proof.
  intros Hc Hpc Hp Hal Hd Hs. apply (counted_frame s s' t p); try done; [by rewrite Hpc|by rewrite Hd| |auto].
  intros t' H%elem_of_dom. rewrite Hd in H. left. by apply elem_of_dom.
Qed.

(** A task is counted, or no longer. *)
Lemma counted_change s s' t p q x n k v v' :
  counted s -> at_pc s' = <[t := p]> (at_pc s) -> all_tasks s' = all_tasks s -> is_Some (all_tasks s !! t) ->
  sets s !! q = Some x -> values x !! n = Some v -> sets s' = <[q := with_values (<[n := v']> (values x)) x]> (sets s) ->
  (forall k', k' <> k -> count_of k' v' = count_of k' v) ->
  (counted_at (at_pc s t) = None /\ counted_at p = Some (q, n, k) /\ count_of k v' = count_of k v + 1
   \/ counted_at (at_pc s t) = Some (q, n, k) /\ counted_at p = None /\ count_of k v' = count_of k v - 1) ->
  counted s'.
Proof.
  intros [Ha He] Hpc Ht Hal Hx Hv Hs Hk Hor.
  assert (Hat : forall t', t' <> t -> at_pc s' t' = at_pc s t') by (intros t' Hne; by rewrite Hpc, fn_lookup_insert_ne).
  assert (Hpt : at_pc s' t = p) by (by rewrite Hpc, fn_lookup_insert).
  assert (Hother : forall q' n' k', (q', n', k') <> (q, n, k) -> counted_tasks s' q' n' k' = counted_tasks s q' n' k').
  { intros q' n' k' Hne. apply set_eq. intros t'. unfold counted_tasks. rewrite !elem_of_filter, Ht.
    destruct (decide (t' = t)) as [->|]; [rewrite Hpt; destruct Hor as [(E1 & E2 & _)|(E1 & E2 & _)]; rewrite E1, E2; naive_solver|by rewrite Hat]. }
  assert (Hsize : count_of k v' = Z.of_nat (size (counted_tasks s' q n k))).
  { specialize (He q x n v k Hx Hv). destruct Hor as [(E1 & E2 & ->)|(E1 & E2 & ->)].
    - assert (counted_tasks s' q n k = {[t]} ∪ counted_tasks s q n k) as ->.
      { apply set_eq. intros t'. unfold counted_tasks. rewrite elem_of_union, elem_of_singleton, !elem_of_filter, Ht, elem_of_dom.
        destruct (decide (t' = t)) as [->|]; [rewrite Hpt, E2; naive_solver|rewrite Hat by done; naive_solver]. }
      rewrite size_union, size_singleton; [lia|]. unfold counted_tasks. set_solver.
    - assert (counted_tasks s q n k = {[t]} ∪ counted_tasks s' q n k) as E.
      { apply set_eq. intros t'. unfold counted_tasks. rewrite elem_of_union, elem_of_singleton, !elem_of_filter, Ht, elem_of_dom.
        destruct (decide (t' = t)) as [->|]; [rewrite E1; naive_solver|rewrite Hat by done; naive_solver]. }
      rewrite E, size_union, size_singleton in He; [lia|]. unfold counted_tasks. intros t'. rewrite elem_of_singleton, elem_of_filter.
      intros -> [E' _]. rewrite Hpt, E2 in E'. done. }
  split.
  - intros t' Hc. rewrite Ht. destruct (decide (t' = t)) as [->|]; [done|]. apply Ha. by rewrite <- Hat.
  - intros q' x' n' w k' Hx' Hw. rewrite Hs in Hx'. destruct (decide (q' = q)) as [->|Hq].
    + rewrite list_lookup_insert_eq in Hx' by (by eapply lookup_lt_Some). simplify_eq. cbn in Hw. destruct (decide (n' = n)) as [->|Hn].
      * rewrite list_lookup_insert_eq in Hw by (by eapply lookup_lt_Some). simplify_eq. destruct (decide (k' = k)) as [->|Hkk]; [done|].
        rewrite Hk, Hother by (done || congruence). by eapply He.
      * rewrite list_lookup_insert_ne in Hw by done. rewrite Hother by congruence. by eapply He.
    + rewrite list_lookup_insert_ne in Hx' by done. rewrite Hother by congruence. by eapply He.
Qed.

(** ** Operations count nobody *)

Lemma try_apply_counts ops cred pid now x r x' : try_apply ops cred pid now x = (r, x') -> counts x' = counts x.
Proof.
  intros E. destruct (decide (r = Ok Applied)) as [->|]; [|by apply try_apply_rest in E as [-> _]].
  apply try_apply_applied in E as (_ & _ & Hv & _). apply list_eq. intros i. unfold counts. rewrite !list_lookup_fmap, Hv.
  by destruct (values x !! i).
Qed.

Lemma insert_counts x n v v' :
  values x !! n = Some v -> semncnt v' = semncnt v -> semzcnt v' = semzcnt v ->
  (fun v => (semncnt v, semzcnt v)) <$> <[n := v']> (values x) = counts x.
Proof.
  intros Hv H1 H2. rewrite list_fmap_insert, H1, H2. apply list_insert_id. unfold counts. by rewrite list_lookup_fmap, Hv.
Qed.

Lemma set_value_counts n v cred pid now x x' : set_value n v cred pid now x = Ok x' -> counts x' = counts x.
Proof.
  unfold set_value, refuse, ok_or. intros H. repeat case_match; simplify_eq. by eapply insert_counts.
Qed.

Lemma set_all_counts vals cred pid now x x' : set_all vals cred pid now x = Ok x' -> counts x' = counts x.
Proof.
  unfold set_all, refuse. destruct (Z.eqb_spec (Z.of_nat (length vals)) (nsems_of x)) as [Hl|]; cbn [negb]; [|done].
  intros H. repeat case_match; simplify_eq. unfold counts, nsems_of in *. cbn.
  apply list_eq. intros i. rewrite !list_lookup_fmap, lookup_zip_with. destruct (values x !! i) as [v|] eqn:Ev; [|done]. cbn.
  destruct (lookup_lt_is_Some_2 vals i) as [y ->]; [apply lookup_lt_Some in Ev; lia|]. done.
Qed.

Lemma set_perm_counts u g m cred now x x' : set_perm u g m cred now x = Ok x' -> counts x' = counts x.
Proof. unfold set_perm, refuse. intros H. repeat case_match; by simplify_eq. Qed.

Lemma with_set_counts s q x x' :
  sets s !! q = Some x -> counts x' = counts x ->
  forall q' y, sets (with_set q x' s) !! q' = Some y -> exists z, sets s !! q' = Some z /\ counts y = counts z.
Proof.
  intros Hx Hc q' y Hy. change (<[q := x']> (sets s) !! q' = Some y) in Hy.
  apply list_lookup_insert_Some in Hy as [(<- & <- & _)|[_ Hy]]; [by exists x|by exists y].
Qed.

(** ** The tasks that there are *)

Lemma prepare_dom w t st w' e : is_Some (tasks w !! t) -> prepare_to_wait w t st = (w', e) -> dom (tasks w') = dom (tasks w).
Proof.
  intros Hal Hp. unfold prepare_to_wait in Hp. assert (Hen : forall w1 e1, enqueue w t = (w1, e1) -> tasks w1 = tasks w).
  { intros w1 e1. unfold enqueue. destruct (queued_entry _ _ _); by intros [= <- <-]. }
  destruct (enqueue w t) as [w1 e1]. rewrite <- (Hen w1 e1 eq_refl) in *. destruct (tasks w1 !! t) as [k|] eqn:E; [|by destruct Hal].
  simplify_eq. cbn. apply set_eq. intros t'. rewrite dom_insert, elem_of_union, elem_of_singleton, elem_of_dom.
  split; [intros [->|]; [by rewrite E|done]|by right].
Qed.

Lemma drain_tasks w : tasks (drain w).1 = tasks w.
Proof.
  unfold drain. assert (H : forall q w, tasks (drain_loop q w).1 = tasks w); [|apply (H (waiters w) (set_queue [] w))].
  clear. induction q as [|e q IH]; intros w; cbn [drain_loop]; [done|]. destruct (task_of w e); [|done].
  pose proof (mark_woken_rest w e) as [_ Hm]. destruct (mark_woken w e) as [w1 ok]. specialize (IH w1).
  destruct (drain_loop q w1). cbn [fst] in *. congruence.
Qed.

Lemma insert_dom (ts : gmap nat Task) t k k' : ts !! t = Some k -> dom (<[t := k']> ts) = dom ts.
Proof.
  intros E. apply set_eq. intros t'. rewrite dom_insert, elem_of_union, elem_of_singleton, elem_of_dom.
  split; [intros [->|]; [by rewrite E|done]|by right].
Qed.

Lemma finish_dom w e : dom (tasks (finish_transition true w e)) = dom (tasks w).
Proof.
  unfold finish_transition. destruct (task_of w e) as [t|]; [|done]. destruct (tasks w !! t) eqn:E; [|done]. by eapply insert_dom.
Qed.

Lemma wake_dom w t : dom (tasks (wake_task w t)) = dom (tasks w).
Proof. unfold wake_task. destruct (tasks w !! t) eqn:E; [|done]. by eapply insert_dom. Qed.

(** ** Every step keeps the counts exact *)

Lemma section_counted s t q x x' p :
  counted s -> sets s !! q = Some x -> counts x' = counts x -> counted_at p = counted_at (at_pc s t) -> at_pc s t <> Out ->
  counted (goto t p (with_set q x' s)).
Proof. intros Hc Hx Hcs Hp Hne. pose proof (counted_alive _ Hc t Hne). eapply (frame_same s _ t p); try done. by eapply with_set_counts. Qed.

Lemma goto_counted s s' t p :
  counted s -> sems s' = sems s -> dom (all_tasks s') = dom (all_tasks s) -> at_pc s' = at_pc s ->
  counted_at p = counted_at (at_pc s t) -> at_pc s t <> Out \/ is_Some (all_tasks s !! t) -> counted (goto t p s').
Proof.
  intros Hc Hs Hd Ha Hp Hal. assert (is_Some (all_tasks s !! t)) by (destruct Hal; [by apply (counted_alive _ Hc)|done]). apply (frame_same s _ t p); try done; [cbn; by rewrite Ha|].
  intros q x' Hx. exists x'. split; [|done]. unfold sets in *. cbn in Hx. by rewrite <- Hs.
Qed.

Lemma register_counted s t c n k s' :
  counted s -> good s -> at_pc s t = Register c n k ->
  Z.of_nat (size (all_tasks s)) <= U32_MAX -> do_register s t c n k = Some s' -> counted s'.
Proof.
  intros Hc Hg Hpc Hsz Hs. assert (Hal : is_Some (all_tasks s !! t)) by (apply (counted_alive _ Hc); by rewrite Hpc).
  unfold do_register, register_blocked in Hs. destruct (sets s !! c_set c) as [x|] eqn:Hx; [|done]. cbn in Hs.
  destruct (removed x); [injection Hs as <-; by eapply section_counted; eauto; rewrite Hpc|].
  destruct (values x !! n) as [v|] eqn:Hv; injection Hs as <-; [|by eapply section_counted; eauto; rewrite Hpc].
  assert (Hlt : count_of k v < Z.of_nat (size (all_tasks s))).
  { rewrite (counted_exact _ Hc _ _ _ _ k Hx Hv), <- size_dom. apply Nat2Z.inj_lt. apply subset_size.
    split; [unfold counted_tasks; set_solver|]. intros Hsub. apply elem_of_dom in Hal. apply Hsub in Hal.
    unfold counted_tasks in Hal. rewrite elem_of_filter, Hpc in Hal. by destruct Hal. }
  apply (counted_change s _ t (Check1 c n k) (c_set c) x n k v (count_up k v)); try done; [intros []; by destruct k|].
  left. rewrite Hpc. split_and!; try done. destruct k; cbn in *; lia.
Qed.

(** A semaphore that does not exist is not counted at. *)
Lemma nowhere_counted s t p q n k x :
  counted s -> counted_at (at_pc s t) = Some (q, n, k) -> counted_at p = None -> sets s !! q = Some x -> values x !! n = None ->
  counted (goto t p s).
Proof.
  intros [Ha He] Ht Hp Hx Hn. split.
  - intros t'. cbn. destruct (decide (t' = t)) as [->|]; [intros _; apply Ha; intros E; by rewrite E in Ht|rewrite fn_lookup_insert_ne by done; apply Ha].
  - intros q' x' n' v k' Hx' Hv. rewrite (He q' x' n' v k' Hx' Hv). f_equal. f_equal. apply set_eq. intros t'.
    unfold counted_tasks. rewrite !elem_of_filter. cbn. destruct (decide (t' = t)) as [->|]; [|by rewrite fn_lookup_insert_ne].
    rewrite fn_lookup_insert, Hp, Ht. split; [|by intros [? _]]. intros [[= -> -> ->] _]. unfold sets in *. cbn in *. congruence.
Qed.

Lemma unregister_counted s t c n k a s' :
  counted s -> at_pc s t = Unregister c n k a -> do_unregister s t c n k a = Some s' -> counted s'.
Proof.
  intros Hc Hpc Hs. assert (Hal : is_Some (all_tasks s !! t)) by (apply (counted_alive _ Hc); by rewrite Hpc).
  unfold do_unregister, unregister_blocked in Hs. destruct (sets s !! c_set c) as [x|] eqn:Hx; [|done]. cbn in Hs.
  injection Hs as <-. set (p := match a with Retry => _ | Fail _ => _ | Success => _ end).
  assert (Hp : counted_at p = None) by (by destruct a). destruct (values x !! n) as [v|] eqn:Hv.
  - assert (Hpos : 0 < count_of k v).
    { rewrite (counted_exact _ Hc _ _ _ _ k Hx Hv). assert (t ∈ counted_tasks s (c_set c) n k).
      { unfold counted_tasks. rewrite elem_of_filter, Hpc. split; [done|by apply elem_of_dom]. }
      apply (Nat2Z.inj_lt 0), Nat.neq_0_lt_0. intros Hz%size_empty_inv. set_solver. }
    apply (counted_change s _ t p (c_set c) x n k v (count_down k v)); try done; [intros []; by destruct k|].
    right. rewrite Hpc. split_and!; try done. destruct k; cbn in *; lia.
  - rewrite (with_same_set s _ _ Hx). eapply nowhere_counted; eauto. by rewrite Hpc.
Qed.

Lemma stay_counted s t p :
  counted s -> counted_at p = counted_at (at_pc s t) -> at_pc s t <> Out \/ is_Some (all_tasks s !! t) -> counted (goto t p s).
Proof. intros Hc Hp Hal. by apply (goto_counted s s). Qed.

Lemma tables_counted s tb i h : counted s -> counted (with_tables tb i h s).
Proof. by intros [Ha He]. Qed.

Lemma batch_counted s t q x r x' ops cred pid now p :
  counted s -> sets s !! q = Some x -> try_apply ops cred pid now x = (r, x') -> counted_at p = counted_at (at_pc s t) ->
  at_pc s t <> Out -> counted (goto t p (with_set q x' s)).
Proof. intros Hc Hx Ht Hp Hne. eapply section_counted; eauto using try_apply_counts. Qed.

Lemma semget_counted now s t key nsems flags cred :
  counted s -> good s -> at_pc s t = Out -> counted (do_semget now s key nsems flags cred).
Proof.
  intros Hc Hg Hpc. unfold do_semget. destruct (semget_sets key nsems flags cred now (sems s)) as (l & Hl & Hz).
  destruct (semget _ _ _ _ _ _) as [r w]. cbn [snd] in *. apply (counted_frame s _ t Out); try done.
  - intros t'. cbn. destruct (decide (t' = t)) as [->|]; [by rewrite fn_lookup_insert|by rewrite fn_lookup_insert_ne].
  - by rewrite Hpc.
  - by left.
  - intros q x' Hx. unfold sets in *. cbn in Hx. rewrite Hl in Hx. destruct (decide (q < length (sems s).2)%nat) as [Hq|Hq].
    + left. exists x'. by rewrite lookup_app_l in Hx.
    + right. rewrite lookup_app_r in Hx by lia. split; [intros n v k Hv; rewrite (Hz x' n v (list_elem_of_lookup_2 _ _ _ Hx) Hv); by destruct k|].
      intros t' n k Hat. apply Hq. apply (good_pcs _ Hg t'). destruct (at_pc s t'); cbn in Hat |- *; by simplify_eq.
Qed.

Lemma clone_counted s t child share :
  counted s -> at_pc s t = Out -> at_pc s child = Out -> counted (do_clone s t child share).
Proof.
  intros Hc Hpc Hch. assert (Hts : counted (with_tasks (<[child := mk_task New false]> (all_tasks s)) s)).
  { apply (counted_frame s _ t Out); try done; cbn.
    - intros t'. destruct (decide (t' = t)) as [->|]; [by rewrite fn_lookup_insert|by rewrite fn_lookup_insert_ne].
    - by rewrite Hpc.
    - rewrite dom_insert. set_solver.
    - intros t' Ht'. destruct (decide (t' = child)) as [->|]; [right; by rewrite Hch|left; by rewrite lookup_insert_ne in Ht'].
    - intros q x' Hx. left. by exists x'. }
  unfold do_clone. destruct (installed _ !! t); [destruct share|]; [by apply tables_counted..|done].
Qed.

Lemma do_tables_counted s t p tb i h :
  counted s -> counted_at p = counted_at (at_pc s t) -> at_pc s t <> Out \/ is_Some (all_tasks s !! t) ->
  counted (goto t p (with_tables tb i h s)).
Proof. intros Hc Hp Hal. by apply (goto_counted s). Qed.

Ltac count_batch Hpc Hs :=
  unfold do_try, do_recheck, do_exit_try, do_exit_recheck in Hs; destruct (sets _ !! _) as [y|] eqn:Hy; [|done];
  cbn in Hs; destruct (try_apply _ _ _ _ _) as [r y'] eqn:Ht; injection Hs as <-;
  eapply batch_counted; eauto; rewrite Hpc; [by destruct r as [[]|]|done].

Ltac count_stay Hpc := apply stay_counted; rewrite ?Hpc; [done|by repeat case_match|by auto].

Lemma control_counted now s t q id cmd cred pid s' :
  counted s -> at_pc s t = Control q id cmd cred pid -> do_control now s t q id cmd cred pid = Some s' -> counted s'.
Proof.
  intros Hc Hpc Hs. unfold do_control in Hs. destruct (sets s !! q) as [x|] eqn:Hx; [|done]. cbn in Hs. injection Hs as <-.
  assert (Hne : at_pc s t <> Out) by (by rewrite Hpc).
  destruct cmd as [n v|vals|u g m].
  - destruct (set_value _ _ _ _ _ _) eqn:E; [|count_stay Hpc]. eapply section_counted; eauto using set_value_counts. by rewrite Hpc.
  - destruct (set_all _ _ _ _ _) eqn:E; [|count_stay Hpc]. eapply section_counted; eauto using set_all_counts. by rewrite Hpc.
  - destruct (set_perm _ _ _ _ _ _) eqn:E; [|count_stay Hpc]. eapply section_counted; eauto using set_perm_counts. by rewrite Hpc.
Qed.

Lemma remove_counted s t id cred :
  counted s -> at_pc s t = Out -> is_Some (all_tasks s !! t) -> counted (do_remove s t id cred).
Proof.
  intros Hc Hpc Hal. unfold do_remove, Sem.remove. pose proof (remove_objects id cred (sems s)) as Hs.
  destruct (remove_object id cred (sems s)) as [[q|e] w]; [destruct Hs as (x & Hx & Hw)|subst w].
  - apply (frame_same s _ t (Clearing q id)); try done; [by rewrite Hpc|]. intros q' y Hy. unfold sets in *. cbn in Hy. rewrite Hw in Hy.
    apply list_lookup_insert_Some in Hy as [(<- & <- & _)|[_ Hy]]; [by exists x|by exists y].
  - apply (goto_counted s); rewrite ?Hpc; auto.
Qed.

Lemma own_counted s t f p :
  counted s -> at_pc s t <> Out -> counted_at p = counted_at (at_pc s t) ->
  counted (let '(tb, s) := own_table s t in goto t p (change_table f tb s)).
Proof.
  intros Hc Hne Hp. destruct (own_table_eq s t) as (tb & i & E). destruct (own_table s t) as [n s1]. cbn in E. subst s1.
  apply (do_tables_counted s); auto.
Qed.

Lemma move_counted s s' :
  move s s' -> counted s -> good s -> Z.of_nat (size (all_tasks s)) <= U32_MAX -> counted s'.
Proof.
  intros Hm Hc Hg Hsz. destruct Hm as
    [s t q id ops cred pid timed Hpc Hal Hq|now s t c s' Hpc Hs|s t c n k s' Hpc Hs|s t c n k sig ex Hpc|s t c n k Hpc Hal
    |s t c n k e armed Hpc|now s t c n k e s' Hpc Hs|s t c n k e sig ex Hpc|s t c n k e Hpc Ha|s t c n k e a Hpc
    |s t c n k e a Hpc|s t c n k a s' Hpc Hs|s t c sig ex Hpc|s t c Hpc|s t id cmd cred pid Hpc Hal Hr
    |s t id cmd cred pid Hpc|now s t q id cmd cred pid s' Hpc Hs|s t q id Hpc|s t id cred Hpc Hal
    |now s t key nsems flags cred Hpc Hal Hn|s t q k Hpc|s t t' ts k Hpc|s t k Hpc|s t child share Hpc Hal Hf Hch
    |s t cred pid Hpc Hal|s t x Hpc|s t x Hpc|s t x Hpc|s t x Hpc|now s t x q ops s' Hpc Hs|s t x q ops Hpc Hal
    |now s t x q ops e s' Hpc Hs|s t x q ops e b Hpc Ha|s t x q ops e over Hpc|s t x q ops e over Hpc|s t x Hpc|s t k k' Hk Hw].
  - apply stay_counted; [done|by rewrite Hpc|by right].
  - count_batch Hpc Hs.
  - by eapply register_counted.
  - count_stay Hpc.
  - unfold do_prepare. destruct (prepare_to_wait _ _ _) as [w e] eqn:Ep. apply prepare_dom in Ep; [|done].
    apply (goto_counted s); rewrite ?Hpc; auto.
  - count_stay Hpc.
  - count_batch Hpc Hs.
  - count_stay Hpc.
  - count_stay Hpc.
  - apply (goto_counted s); rewrite ?Hpc; auto.
  - apply (goto_counted s); rewrite ?Hpc; auto. apply (finish_dom (world_of s 0)).
  - by eapply unregister_counted.
  - count_stay Hpc.
  - unfold do_record. destruct (existsb _ _); [|count_stay Hpc].
    pose proof (own_counted s t (record (c_id c) (c_ops c)) (WakeUp (c_set c) Return) Hc) as H. rewrite Hpc in H.
    specialize (H ltac:(done) eq_refl). by destruct (own_table s t).
  - count_stay Hpc.
  - count_stay Hpc.
  - by eapply control_counted.
  - apply own_counted; rewrite ?Hpc; done.
  - by apply remove_counted.
  - by eapply semget_counted.
  - unfold do_drain. destruct (drain _) as [w ts] eqn:Ed. apply (goto_counted s); rewrite ?Hpc; auto.
    pose proof (drain_tasks (world_of s q)) as Hd. rewrite Ed in Hd. cbn in *. by rewrite Hd.
  - apply (goto_counted s); rewrite ?Hpc; auto. apply (wake_dom (world_of s 0)).
  - count_stay Hpc.
  - by apply clone_counted.
  - unfold do_exit. destruct (installed s !! t); [apply do_tables_counted|apply stay_counted]; rewrite ?Hpc; auto.
  - count_stay Hpc.
  - count_stay Hpc.
  - apply do_tables_counted; rewrite ?Hpc; auto.
  - unfold do_exit_next. repeat case_match; count_stay Hpc.
  - count_batch Hpc Hs.
  - unfold do_exit_prepare. destruct (prepare_to_wait _ _ _) as [w e] eqn:Ep. apply prepare_dom in Ep; [|done].
    apply (goto_counted s); rewrite ?Hpc; auto.
  - count_batch Hpc Hs.
  - count_stay Hpc.
  - apply (goto_counted s); rewrite ?Hpc; auto.
  - apply (goto_counted s); rewrite ?Hpc; auto; [apply (finish_dom (world_of s 0))|by destruct over].
  - apply do_tables_counted; rewrite ?Hpc; auto.
  - apply (counted_frame s _ t (at_pc s t)); try done; cbn.
    + intros t'. destruct (decide (t' = t)) as [->|]; [by rewrite fn_lookup_insert|by rewrite fn_lookup_insert_ne].
    + by rewrite (insert_dom _ _ _ _ Hk).
    + intros t' Ht'. left. apply elem_of_dom. rewrite <- (insert_dom _ _ _ k' Hk). by apply elem_of_dom.
    + intros q x' Hx. left. by exists x'.
Qed.

(** Steps of a system that has no more tasks than a [u32] can count. *)
Definition small_move (s s' : system) : Prop := move s s' /\ Z.of_nat (size (all_tasks s)) <= U32_MAX.

Lemma small_moves_counted s0 s : boot s0 -> rtc small_move s0 s -> counted s.
Proof.
  intros Hb. pose proof (w_boot_good (Waiting := sem_waiting) s0 Hb) as [Hg _].
  assert (Hc : counted s0).
  { destruct Hb as (Hs & _ & _ & _ & _ & _ & Hpc). split; [intros t; by rewrite Hpc|]. intros q x n v k. unfold sets. by rewrite Hs. }
  clear Hb. induction 1 as [|a b c [Hab Hsz] _ IH]; [done|]. apply IH; [by apply (sem_move_sim a)|by eapply move_counted].
Qed.

