(* ===== verification/SemProps.v ===== *)
(** * System V semaphores: properties

    What batches, undo tables, the manager and waiting do.  A scheduler carries out
    given steps of the system, to follow concrete runs: witnesses, and the ways in
    which an exit does not do what the undo tables promise. *)

From stdpp Require Import gmap functions.
From S2P Require Import Prelude Cred Ipc Sem SemProofs WaitQueue WaitQueueProofs SemWait SemWaitProofs.

(** ** Batches *)

(** C9. [semop] takes a batch as a whole.  It is applied exactly when it passes the
    checks of its size, of the set and of permissions, and its operations go
    through one after the other: each finds, at the level that the operations
    before it leave, room for what it adds, enough to take, or zero.  Then every
    semaphore moves by the sum of the operations on it, and those named get the
    pid.  Otherwise nothing at all changes, and the answer is that of the first
    check or operation that fails: an error, or the semaphore that blocks and what
    is waited for there. *)
Theorem sem_batch_exact ops cred pid now s :
  match try_apply ops cred pid now s with
  | (Ok Applied, s') => guard ops cred s = None /\ goes_through (vals_of s) ops /\ applied ops pid now s s'
  | (r, s') => s' = s /\ ((exists e, guard ops cred s = Some e /\ r = Err e)
                          \/ guard ops cred s = None /\ stops_at (vals_of s) ops r)
  end.
Proof.
  destruct (try_apply ops cred pid now s) as [r s'] eqn:E.
  destruct r as [[|n k]|e]; [by apply try_apply_applied|by apply (try_apply_rest _ _ _ _ _ _ _ E)..].
Qed.

(** ** Undoing *)

(** C10. What a process does to a set with [SEM_UNDO] is taken back when it exits.
    After any history of its batches on a set of at most [SEMOPM] semaphores, the
    adjustments in its table fit, and make up a batch that is applied, or nothing
    at all if they cancel out; every semaphore is back at the value it had. *)
Theorem sem_undo_restores cred pid id bs s s' t now :
  wf_set s -> nsems_of s <= SEMOPM -> Forall typed_op (history bs) -> all_undo (history bs) ->
  Z.of_nat (length (history bs)) <= 2 ^ 40 ->
  run_batches cred pid id bs s ∅ = Some (s', t) ->
  exists uops, undo_operations 0 (default [] (t !! id)) = Some uops
    /\ ((uops = [] /\ vals_of s' = vals_of s)
        \/ exists s'', try_apply uops cred pid now s' = (Ok Applied, s'') /\ vals_of s'' = vals_of s).
Proof.
  intros (Hwf & _ & _) Hns Hty Hall Hlen Hrun.
  assert (Hb : Forall in_bounds (vals_of s)) by (apply Forall_fmap; eapply Forall_impl; [exact Hwf|by intros v [? _]]).
  destruct (run_batches_ran cred pid id bs s ∅ s' t Hb Hrun) as [Hv Hb' Hn Ht Hp Hrm Hw].
  rewrite lookup_empty in Ht. cbn in Ht. set (adj := default [] (t !! id)) in *. rewrite Hv in Hb'.
  assert (Hadj : forall i, adjustment adj i = - added (history bs) i).
  { intros i. rewrite Ht, record_adjustment by (done || (unfold adjustment; rewrite lookup_nil; cbn; lia)).
    by rewrite to_undo_all. }
  assert (Hal : (length adj <= length (vals_of s))%nat) by (rewrite Ht; apply record_length; [cbn; lia|done]).
  assert (Hvl : Z.of_nat (length (vals_of s)) <= 500) by (unfold vals_of; rewrite length_fmap; exact Hns).
  assert (Hrange : forall i, (i < length (vals_of s))%nat -> -32767 <= added (history bs) i <= 32767).
  { intros i Hi. destruct (lookup_lt_is_Some_2 (vals_of s) i Hi) as [x Hx].
    assert (Hx' : shifted (history bs) (vals_of s) !! i = Some (x + added (history bs) i)) by (by rewrite shifted_lookup, Hx).
    pose proof (Forall_lookup_1 _ _ _ _ Hb Hx) as [? ?]. pose proof (Forall_lookup_1 _ _ _ _ Hb' Hx') as [? ?].
    unfold SEMVMX in *. lia. }
  destruct (undo_operations_some 0 adj) as (uops & Hu & Hul).
  { intros j. destruct (decide (j < length (vals_of s))%nat) as [Hj|]; [rewrite Hadj; specialize (Hrange j Hj); lia|].
    unfold adjustment. rewrite lookup_ge_None_2 by lia. cbn. lia. }
  exists uops. split; [done|]. destruct (undo_goes (vals_of s) (history bs) adj uops) as [Hgo Hback]; try done; [lia|].
  destruct uops as [|o uops']; [left|right].
  - split; [done|]. rewrite Hv. apply shifted_zero. intros i. pose proof (undo_none_zero adj i Hu) as Hz. rewrite Hadj in Hz. lia.
  - rewrite <- Hv in Hgo, Hback. rewrite <- Hback. apply try_apply_goes; [|done].
    assert (Hwr : wrote (history bs)).
    { destruct (undo_operations_split 0 adj (o :: uops') [] o uops' Hu eq_refl) as (j & _ & _ & _ & Ho & Hne & _); [lia|].
      apply (wrote_added _ j). rewrite Hadj in Ho. lia. }
    destruct (Hw Hwr) as [Hr Hm]. apply (undo_guard adj); try done; [unfold SEMOPM; lia|lia|congruence|by rewrite Hp].
Qed.

(** Two batches on a set of two semaphores, both to be undone. *)
Definition worker : Credentials := unprivileged 1000 1000.
Definition pair_set : SemSet := new_set IPC_PRIVATE 2 0x180 worker 0.
Definition both : list (list SemOperation * Z) :=
  [([mk_op 0 3 SEM_UNDO; mk_op 1 2 SEM_UNDO], 5); ([mk_op 1 (-1) SEM_UNDO; mk_op 0 (-3) SEM_UNDO], 6)].

Lemma sem_undo_restores_witness :
  match run_batches worker 7 1 both pair_set ∅ with
  | Some (s', t) => vals_of s' = [0; 1] /\ exists uops, undo_operations 0 (default [] (t !! 1)) = Some uops
      /\ ((uops = [] /\ vals_of s' = vals_of pair_set)
          \/ exists s'', try_apply uops worker 7 9 s' = (Ok Applied, s'') /\ vals_of s'' = vals_of pair_set)
  | None => False
  end.
Proof.
  destruct (run_batches worker 7 1 both pair_set ∅) as [[s' t]|] eqn:E; [|by vm_compute in E].
  split; [vm_compute in E; by injection E as <- <-|].
  apply (sem_undo_restores worker 7 1 both pair_set s' t 9); [|done| | |done|exact E].
  - split; [repeat constructor; done|]. split; [split; done|done].
  - repeat constructor; done.
  - repeat constructor; done.
Defined.

(** ** The manager *)

(** [semget] gives the set of a key that exists, if it is large enough and the
    caller has the rights it asks for; otherwise it makes a new set, under a number
    between 1 and the largest [i32] that no set has.  The search for a number never
    fails: a new set is refused only for its size, or when there are [SEMMNI] of
    them.  An error changes nothing, and numbers, keys and sets stay consistent. *)
Theorem sem_get_exact key nsems flags cred now w :
  consistent w -> 0 <= nsems ->
  match semget key nsems flags cred now w with
  | (Ok id, w') => consistent w' /\
      ((w' = w /\ key <> IPC_PRIVATE /\ by_key w.1 !! key = Some id
        /\ exists q s, by_id w.1 !! id = Some q /\ w.2 !! q = Some s /\ removed s = false /\ perm_key (perm s) = key
             /\ nsems <= nsems_of s /\ (Z.land flags IPC_CREAT = 0 \/ Z.land flags IPC_EXCL = 0)
             /\ check_mode_request cred (perm s) flags = Ok ())
       \/ ((key = IPC_PRIVATE \/ by_key w.1 !! key = None /\ Z.land flags IPC_CREAT <> 0)
           /\ in_ids id /\ by_id w.1 !! id = None /\ by_id w'.1 !! id = Some (length w.2)
           /\ w'.2 = w.2 ++ [new_set key nsems flags cred now]
           /\ (key <> IPC_PRIVATE -> by_key w'.1 !! key = Some id)))
  | (Err e, w') => w' = w
      /\ (key = IPC_PRIVATE \/ by_key w.1 !! key = None ->
          (e = ENOENT /\ key <> IPC_PRIVATE /\ Z.land flags IPC_CREAT = 0)
          \/ (e = EINVAL /\ ~ (0 < nsems <= SEMMSL)) \/ (e = ENOSPC /\ Z.of_nat (size (by_id w.1)) = SEMMNI))
  end.
Proof.
  intros Hcon Hn. pose proof (semget_consistent key nsems flags cred now w Hcon Hn) as Hc.
  destruct w as [m sets]. unfold semget in *. cbn [fst snd] in *.
  pose proof (semget_create_spec key nsems flags cred now m sets Hcon Hn) as Hnew.
  destruct (Z.eqb_spec key IPC_PRIVATE) as [Hk|Hk].
  - specialize (Hnew ltac:(done)). destruct (semget_create _ _ _ _ _ _) as [[id|e] w']; naive_solver.
  - destruct (by_key m !! key) as [id|] eqn:Ek.
    + pose proof (semget_existing_spec id nsems flags cred (m, sets)) as H. pose proof (proj1 (con_keys _ Hcon key id) Ek) as (_ & q0 & s0 & Hq0 & Hs0 & Hp).
      destruct (semget_existing _ _ _ _ _) as [id'|e]; [|split; [done|]; intros [?|?]; done].
      destruct H as (-> & q & s & Hq & Hs & ? & ? & ? & ?). split; [done|]. left. split_and!; try done. exists q, s.
      cbn in *. split_and!; try done. congruence.
    + destruct (Z.eqb_spec (Z.land flags IPC_CREAT) 0) as [Hf|Hf]; [split; [done|]; intros _; by left|].
      specialize (Hnew ltac:(done)). destruct (semget_create _ _ _ _ _ _) as [[id|e] w']; naive_solver.
Qed.

Lemma sem_get_exact_witness :
  match semget 5 3 0x380 worker 0 (new_manager, []) with
  | (Ok id, w') => id = 1 /\ consistent w'
  | (Err _, _) => False
  end.
Proof.
  pose proof (sem_get_exact 5 3 0x380 worker 0 (new_manager, []) new_consistent ltac:(done)) as H.
  destruct (semget 5 3 0x380 worker 0 (new_manager, [])) as [[id|e] w'] eqn:E; [|by vm_compute in E].
  split; [vm_compute in E; by injection E as <-|apply H].
Defined.

(** ** Running the system *)

(** The next step of a task that is under way, without signals or deadlines. *)
Definition advance (s : system) (t : nat) : option system :=
  match at_pc s t with
  | Out | Gone => None
  | Try c => do_try 0 s t c
  | Register c n k => do_register s t c n k
  | Check1 c n k =>
      Some (goto t (match interrupted c false false with Some e => Unregister c n k (Fail e) | None => Prepare c n k end) s)
  | Prepare c n k => if bool_decide (is_Some (all_tasks s !! t)) then Some (do_prepare s t c n k) else None
  | Arm c n k e => Some (goto t (if c_deadline c && negb true then Leave c n k e (Fail EAGAIN) else Recheck c n k e) s)
  | Recheck c n k e => do_recheck 0 s t c n k e
  | Check2 c n k e =>
      Some (goto t (match interrupted c false false with Some err => Leave c n k e (Fail err) | None => Asleep c n k e end) s)
  | Asleep c n k e => if bool_decide (asleep (world_of s 0) t) then None else Some (goto t (Leave c n k e Retry) s)
  | Leave c n k e a => Some (do_leave s t c n k e a)
  | LeaveTask c n k e a => Some (do_leave_task s t c n k e a)
  | Unregister c n k a => do_unregister s t c n k a
  | Check3 c => Some (goto t (match interrupted c false false with Some _ => Out | None => Try c end) s)
  | Recording c => Some (do_record s t c)
  | Lookup id cmd cred pid => Some (do_lookup s t id cmd cred pid)
  | Control q id cmd cred pid => do_control 0 s t q id cmd cred pid
  | Clearing q id => Some (do_clear s t q id)
  | WakeUp q k => Some (do_drain s t q k)
  | Waking [] k => Some (do_woken s t k)
  | Waking (t' :: ts) k => Some (do_wake s t t' ts k)
  | ExitCount x => Some (do_exit_count s t x)
  | ExitEmpty x => Some (do_exit_empty s t x)
  | ExitTake x => Some (do_exit_take s t x)
  | ExitNext x => Some (do_exit_next s t x)
  | ExitTry x q ops => do_exit_try 0 s t x q ops
  | ExitPrepare x q ops => if bool_decide (is_Some (all_tasks s !! t)) then Some (do_exit_prepare s t x q ops) else None
  | ExitRecheck x q ops e => do_exit_recheck 0 s t x q ops e
  | ExitAsleep x q ops e b => if bool_decide (asleep (world_of s 0) t) then None else Some (goto t (ExitLeave x q ops e false) s)
  | ExitLeave x q ops e over => Some (do_exit_leave s t x q ops e over)
  | ExitLeaveTask x q ops e over => Some (do_exit_leave_task s t x q ops e over)
  | ExitDrop x => Some (do_exit_drop s t x)
  end.

Lemma advance_move s t s' : advance s t = Some s' -> move s s'.
Proof.
  unfold advance. intros H. destruct (at_pc s t) eqn:Hpc; try discriminate H; try case_bool_decide; try discriminate H.
  all: try (injection H as <-).
  all: eauto using move_try, move_register, move_prepare, move_recheck, move_resume, move_leave,
    move_leave_task, move_unregister, move_record, move_lookup, move_control, move_clear, move_drain,
    move_exit_count, move_exit_empty, move_exit_take, move_exit_next, move_exit_try, move_exit_prepare, move_exit_recheck,
    move_exit_resume, move_exit_leave, move_exit_leave_task, move_exit_drop.
  - by apply (move_check1 s t c n k false false).
  - by apply (move_arm s t c n k e true).
  - by apply (move_check2 s t c n k e false false).
  - by apply (move_check3 s t c false false).
  - destruct ts; injection H as <-; [by apply move_woken|by apply move_wake].
Qed.

(** Calls, and steps of tasks that are under way. *)
Inductive act : Type :=
| Semop (t : nat) (id : Z) (ops : list SemOperation)
| Setval (t : nat) (id n v : Z)
| Rmid (t : nat) (id : Z)
| Semget (t : nat) (key nsems flags : Z)
| Clone (t child : nat) (share : bool)
| Exit (t : nat)
| Go (t : nat).

Section run.
Context (me : Credentials).

Definition idle (s : system) (t : nat) : bool :=
  match at_pc s t with Out => bool_decide (is_Some (all_tasks s !! t)) | _ => false end.

Definition perform (a : act) (s : system) : option system :=
  match a with
  | Semop t id ops =>
      if idle s t then
        match set_for_operation (manager s) id with
        | Ok q => Some (goto t (Try (mk_call q id ops me (Z.of_nat t) false)) s)
        | Err _ => None
        end
      else None
  | Setval t id n v => if idle s t then Some (goto t (Lookup id (SetValue n v) me (Z.of_nat t)) s) else None
  | Rmid t id => if idle s t then Some (do_remove s t id me) else None
  | Semget t key nsems flags => if idle s t && (0 <=? nsems) then Some (do_semget 0 s key nsems flags me) else None
  | Clone t child share =>
      if idle s t && bool_decide (all_tasks s !! child = None)
      then match at_pc s child with Out => Some (do_clone s t child share) | _ => None end else None
  | Exit t => if idle s t then Some (do_exit s t me (Z.of_nat t)) else None
  | Go t => advance s t
  end.

Fixpoint run (l : list act) (s : system) : option system :=
  match l with
  | [] => Some s
  | a :: l => s' ← perform a s; if Z.of_nat (size (all_tasks s)) <=? U32_MAX then run l s' else None
  end.

Lemma idle_spec s t : idle s t = true -> at_pc s t = Out /\ is_Some (all_tasks s !! t).
Proof. unfold idle. destruct (at_pc s t); try done. by intros ?%bool_decide_eq_true. Qed.

Lemma perform_move a s s' : perform a s = Some s' -> move s s'.
Proof.
  destruct a as [t id ops|t id n v|t id|t key nsems flags|t child share|t|t]; cbn; [..|apply advance_move];
    destruct (idle s t) eqn:E; try done; apply idle_spec in E as [Ho Hal]; cbn.
  - destruct (set_for_operation (manager s) id) eqn:Eq; [|done]. intros [= <-]. by apply move_semop.
  - intros [= <-]. by apply move_semctl.
  - intros [= <-]. by apply move_remove.
  - destruct (Z.leb_spec 0 nsems); [|done]. intros [= <-]. by apply (move_semget 0 s t).
  - case_bool_decide; [|done]. destruct (at_pc s child) eqn:Ec; try done. intros [= <-]. by apply move_clone.
  - intros [= <-]. by apply move_exit.
Qed.

Lemma run_moves l s s' : run l s = Some s' -> rtc small_move s s'.
Proof.
  revert s. induction l as [|a l IH]; intros s; cbn; [by intros [= <-]|].
  destruct (perform a s) as [s1|] eqn:E; [|done]. cbn. destruct (Z.leb_spec (Z.of_nat (size (all_tasks s))) U32_MAX); [|done].
  intros Hr. eapply rtc_l; [by split; [eapply perform_move|]|auto].
Qed.
End run.

(** ** Runs of two processes *)

Definition start : system :=
  mk_system (new_manager, []) [] [] ∅ ∅ [] {[1%nat := mk_task Running false; 2%nat := mk_task Running false]} (fun _ => Out).

Lemma start_boot : boot start.
Proof. done. Qed.

(** The state after a run. *)
Definition after_run (l : list act) : system := default start (run worker l start).
Definition runs (l : list act) : bool := match run worker l start with Some _ => true | None => false end.

Lemma after_run_small l : runs l = true -> rtc small_move start (after_run l).
Proof.
  unfold runs, after_run. destruct (run worker l start) as [s|] eqn:E; [|done]. intros _. by eapply run_moves.
Qed.

Lemma after_run_moves l : runs l = true -> rtc move start (after_run l).
Proof. intros H%after_run_small. induction H as [|a b c [? _] _ IH]; [done|by eapply rtc_l]. Qed.

(** The values of a set, and whether it is gone. *)
Definition look (s : system) (q : nat) : option (list Z * bool) := (fun x => (vals_of x, removed x)) <$> sets s !! q.

(** A set of one semaphore, number 1, that its owner may read and change. *)
Definition create : list act := [Semget 1 IPC_PRIVATE 1 (Z.lor IPC_CREAT 0x180)].

(** A batch of one operation that does not wait. *)
Definition operate (t : nat) (o f : Z) : list act := [Semop t 1 [mk_op 0 o f]; Go t; Go t; Go t; Go t].

(** ** A wait *)


(** Process 2 waits for process 1, which has added one and not yet woken it. *)
Definition waiting_run : list act := create ++ [Semop 2 1 [mk_op 0 (-1) 0]] ++ replicate 7 (Go 2) ++ [Semop 1 1 [mk_op 0 1 0]; Go 1].


(** ** Counts *)

(** C11. [GETNCNT] and [GETZCNT] are exact: at every point of every interleaving, the
    two counts of a semaphore are the numbers of tasks that are between their
    [register_blocked] and [unregister_blocked] there, waiting for an increase and
    for zero.  No way out of a wait, by success, error, signal or deadline, leaves a
    count behind. *)
Theorem sem_counts_exact s0 s q x n v :
  boot s0 -> rtc small_move s0 s -> sets s !! q = Some x -> values x !! n = Some v ->
  semncnt v = Z.of_nat (size (counted_tasks s q n Increment)) /\ semzcnt v = Z.of_nat (size (counted_tasks s q n Zero)).
Proof.
  intros Hb Hr Hx Hv. destruct (small_moves_counted s0 s Hb Hr) as [_ He].
  split; [apply (He q x n v Increment)|apply (He q x n v Zero)]; done.
Qed.

Lemma sem_counts_exact_witness :
  match sets (after_run waiting_run) !! 0%nat with
  | Some x => match values x !! 0%nat with
              | Some v => semncnt v = 1 /\ semncnt v = Z.of_nat (size (counted_tasks (after_run waiting_run) 0 0 Increment))
                  /\ semzcnt v = Z.of_nat (size (counted_tasks (after_run waiting_run) 0 0 Zero))
              | None => False
              end
  | None => False
  end.
Proof.
  assert (Hr : rtc small_move start (after_run waiting_run)) by (apply after_run_small; vm_compute; reflexivity).
  assert (Hl : (fun x => semncnt <$> values x !! 0%nat) <$> sets (after_run waiting_run) !! 0%nat = Some (Some 1)) by (vm_compute; reflexivity).
  destruct (sets (after_run waiting_run) !! 0%nat) as [x|] eqn:Hx; [|done]. cbn in Hl.
  destruct (values x !! 0%nat) as [v|] eqn:Hv; [|done]. split; [by injection Hl|].
  exact (sem_counts_exact start (after_run waiting_run) 0 x 0 v start_boot Hr Hx Hv).
Defined.

(** ** All sets, at all times *)

(** Whatever the processes do, and however it interleaves: the numbers that are
    handed out stand one to one for the sets that are not removed, and the keys for
    those of them that have one; every set has between 1 and [SEMMSL] semaphores,
    each with a value from 0 to [SEMVMX], counts that fit, and a mode of nine bits. *)
Theorem sem_sets_invariant s0 s : boot s0 -> rtc move s0 s -> consistent (sems s) /\ length (queues s) = length (sets s).
Proof.
  intros Hb Hm. destruct (moves_sound (W := sem_waiting) s0 s) as [[Hq Hc _] _]; [by apply w_boot_good|done|]. done.
Qed.

Lemma sem_sets_invariant_witness :
  look (after_run waiting_run) 0 = Some ([1], false)
  /\ consistent (sems (after_run waiting_run)) /\ length (queues (after_run waiting_run)) = length (sets (after_run waiting_run)).
Proof.
  split; [vm_compute; reflexivity|].
  apply (sem_sets_invariant start); [exact start_boot|apply after_run_moves; vm_compute; reflexivity].
Defined.

(** ** What the undo tables do not do *)






(** Process 1 adds five, to be undone; process 2 sets the value to seven; then process
    1 exits. *)
Definition stale_run : list act :=
  create ++ operate 1 5 SEM_UNDO ++ [Setval 2 1 0 7] ++ replicate 5 (Go 2).

(** [SETVAL] does not make the adjustments of other processes void.  It clears the
    table of its caller only: the other one still has them, and its exit takes five
    from the new value. *)
Theorem sem_undo_stale :
  exists s tb, rtc move start s /\ at_pc s 2%nat = Out /\ look s 0 = Some ([7], false)
    /\ installed s !! 1%nat = Some tb /\ (tables s !! tb ≫= (fun t => t !! 1)) = Some [-5]
    /\ exists s', rtc move s s' /\ at_pc s' 1%nat = Gone /\ look s' 0 = Some ([2], false).
Proof.
  destruct (run worker ([Exit 1] ++ replicate 9 (Go 1)) (after_run stale_run)) as [s'|] eqn:E; [|by vm_compute in E].
  exists (after_run stale_run), 0%nat. split_and!; [apply after_run_moves; vm_compute; reflexivity|vm_compute; reflexivity..|].
  assert (Hf : (fun s => (at_pc s 1%nat, look s 0)) <$> run worker ([Exit 1] ++ replicate 9 (Go 1)) (after_run stale_run)
    = Some (Gone, Some ([2], false))) by (vm_compute; reflexivity).
  rewrite E in Hf. injection Hf as H1 H2. exists s'. split_and!; [|done|done].
  apply run_moves in E. clear H1 H2. induction E as [|a b c [? _] _ IH]; [done|by eapply rtc_l].
Qed.

(** A set of 501 semaphores, all raised by one process in two batches. *)
Definition wide_set : SemSet := new_set IPC_PRIVATE 501 0x180 worker 0.
Definition wide_batches : list (list SemOperation * Z) :=
  [((fun i => mk_op (Z.of_nat i) 1 SEM_UNDO) <$> seq 0 500, 0); ([mk_op 500 1 SEM_UNDO], 0)].

(** The bound of [semop] applies to the batch that undoes as well.  A process may
    change more than [SEMOPM] semaphores of a set, a batch at a time; at its exit the
    adjustments are one batch, which is refused, and none of them is made. *)
Theorem sem_undo_too_many :
  wf_set wide_set /\ all_undo (history wide_batches)
  /\ exists s t uops, run_batches worker 1 1 wide_batches wide_set ∅ = Some (s, t)
      /\ undo_operations 0 (default [] (t !! 1)) = Some uops
      /\ try_apply uops worker 1 0 s = (Err E2BIG, s) /\ vals_of wide_set = replicate 501 0 /\ vals_of s = replicate 501 1.
Proof.
  split; [by apply new_set_wf|]. split.
  { apply Forall_app. split; [|repeat constructor; vm_compute; reflexivity]. apply Forall_fmap, Forall_forall. intros i _. vm_compute. reflexivity. }
  assert (Hf : (fun '(s, t) => (vals_of s, length <$> undo_operations 0 (default [] (t !! 1)))) <$> run_batches worker 1 1 wide_batches wide_set ∅
    = Some (replicate 501 1, Some 501%nat)) by (vm_compute; reflexivity).
  destruct (run_batches worker 1 1 wide_batches wide_set ∅) as [[s t]|]; [|done]. injection Hf as Hv Hu.
  destruct (undo_operations 0 (default [] (t !! 1))) as [uops|] eqn:Eu; [|done]. injection Hu as Hl.
  exists s, t, uops. split_and!; [done|done| |vm_compute; reflexivity|done].
  rewrite try_apply_eq. unfold guard. rewrite bool_decide_eq_false_2 by (by intros ->). by rewrite Hl.
Qed.

(** ** Deadlines *)

Lemma i64_le_bytes x : 0 <= x <= I64_MAX -> i64_from_le (le_bytes 8 x) = x.
Proof.
  intros Hx. unfold i64_from_le, as_isize. rewrite of_le_bytes_le. change (256 ^ Z.of_nat 8) with (2 ^ 64).
  unfold I64_MAX in *. rewrite Z.mod_small by lia. by rewrite (proj2 (Z.leb_le _ _)) by lia.
Qed.

(** [semtimedop] takes its timeout for a time of day, as [mq_timedsend] does.  A
    [timespec] in range gives the deadline that lies as far from now as that time
    of day does; so a timeout shorter than the time since 1970, which is what callers
    pass for a time to wait, has run out at once. *)
Theorem sem_timeout_is_time_of_day address user seconds nanoseconds now_realtime now_ns :
  address <> 0 -> user 16 = Ok (le_bytes 8 seconds ++ le_bytes 8 nanoseconds) ->
  0 <= seconds <= I64_MAX -> 0 <= nanoseconds < 1000000000 -> is_u64 now_ns -> 0 <= now_realtime ->
  let t := seconds * 1000000000 + nanoseconds in
  read_sem_deadline address user now_realtime now_ns
  = (if t <=? U64_MAX then Ok (Some (Z.min U64_MAX (now_ns + Z.max 0 (t - now_realtime)))) else Err EINVAL)
  /\ (t <= U64_MAX -> t <= now_realtime -> read_sem_deadline address user now_realtime now_ns = Ok (Some now_ns)).
Proof.
  intros Ha Hu Hs Hn Hnow Hrt t.
  assert (Heq : read_sem_deadline address user now_realtime now_ns
    = if t <=? U64_MAX then Ok (Some (Z.min U64_MAX (now_ns + Z.max 0 (t - now_realtime)))) else Err EINVAL).
  { unfold read_sem_deadline, refuse, ok_or, checked_add, saturating_sub, saturating_add. rewrite (proj2 (Z.eqb_neq _ _)) by done.
    rewrite Hu, take_app_length', drop_app_length' by (by rewrite length_le_bytes).
    rewrite take_ge by (rewrite length_le_bytes; lia). rewrite !i64_le_bytes by (unfold I64_MAX in *; lia).
    rewrite (proj2 (Z.ltb_ge seconds 0)), (proj2 (Z.leb_le 0 nanoseconds)), (proj2 (Z.ltb_lt nanoseconds 1000000000)) by lia. cbn [andb orb negb].
    fold t. destruct (Z.leb_spec t U64_MAX); destruct (Z.ltb_spec U64_MAX (seconds * 1000000000)); try done; unfold t in *; lia. }
  split; [done|]. intros Ht Hle. rewrite Heq, (proj2 (Z.leb_le _ _)) by done. do 2 f_equal. unfold is_u64 in Hnow. lia.
Qed.

(** One second, asked for in 2023, ends now. *)
Lemma sem_timeout_is_time_of_day_witness :
  read_sem_deadline 4096 (fun _ => Ok (le_bytes 8 1 ++ le_bytes 8 0)) 1700000000000000000 5000 = Ok (Some 5000).
Proof.
  refine (proj2 (sem_timeout_is_time_of_day 4096 (fun _ => Ok (le_bytes 8 1 ++ le_bytes 8 0)) 1 0 1700000000000000000 5000
                   _ _ _ _ _ _) _ _); unfold I64_MAX, is_u64, U64_MAX; (done || lia).
Defined.

(** ** Other differences *)

(** [SETALL] asks for the right to read as well, which the set itself does not. *)
Lemma setall_needs_read :
  exists x, set_all [3] worker 1 0 (new_set IPC_PRIVATE 1 0x80 worker 0) = Ok x
  /\ stat worker (new_set IPC_PRIVATE 1 0x80 worker 0) = Err EACCES.
Proof. eexists. split; vm_compute; reflexivity. Qed.

(** Tasks that share tables share none if there was none to share: each makes its own. *)
Definition early_clone_run : list act := create ++ [Clone 1 3 true] ++ operate 1 1 SEM_UNDO ++ operate 3 1 SEM_UNDO.

Lemma early_clone_shares_nothing :
  exists s tb tb', rtc move start s /\ installed s !! 1%nat = Some tb /\ installed s !! 3%nat = Some tb' /\ tb <> tb'.
Proof.
  exists (after_run early_clone_run), 0%nat, 1%nat. split_and!; [apply after_run_moves; vm_compute; reflexivity|vm_compute; reflexivity..|done].
Qed.
