(* ===== verification/Msg.v ===== *)
(** * System V message queues

    The model of [general/src/ipc/msg.rs] and of the calls in
    [kernel/src/syscalls/ipc.rs] that send and receive.  Each operation of a queue
    is one critical section of its lock.  Waiting for room and for messages is a
    system of tasks whose steps interleave, one per critical section. *)

From stdpp Require Import gmap functions.
From S2P Require Import Prelude Cred Ipc WaitQueue WaitQueueProofs.

(** ** Constants, octal in the source *)

Definition MSG_NOERROR : Z := 0x1000.
Definition MSG_EXCEPT : Z := 0x2000.
Definition MSG_COPY : Z := 0x4000.
Definition MSG_TRUNC : Z := 0x8000.
Definition MSGMAX : Z := 8192.
Definition MSGMNB : Z := 16384.
Definition MSGMNI : Z := 32000.
Definition USIZE_MAX : Z := U64_MAX.

Definition flag (flags f : Z) : bool := negb (Z.land flags f =? 0).
(** [flags & !allowed != 0], of a [u32]. *)
Definition flags_beyond (flags allowed : Z) : bool := negb (Z.land flags (Z.lxor U32_MAX allowed) =? 0).

(** ** Messages *)

Record MsgMessage : Type := mk_msg { mtype : Z; data : list Z }.
Record ReceivedMsg : Type := mk_received { r_mtype : Z; r_data : list Z; full_size : Z; copied : bool }.
Inductive MsgRecvOutcome : Type := Received (m : ReceivedMsg) | NoMessage.
Inductive MsgOpAttempt : Type := Sent | NoRoom.

#[export] Instance MsgMessage_eq_dec : EqDecision MsgMessage.
Proof. solve_decision. Defined.

Inductive SearchMode : Type := AnyType | Number (want : Z) | LessEqual (bound : Z) | NotEqual (want : Z).

Definition matches (mode : SearchMode) (t : Z) : bool :=
  match mode with
  | AnyType => true
  | Number want => t =? want
  | LessEqual bound => t <=? bound
  | NotEqual want => negb (t =? want)
  end.

Inductive Access : Type := Receive | Send.

(** ** Queues *)

Record MsgQueue : Type := mk_queue {
  perm : IpcPerm;
  messages : list MsgMessage;
  bytes : Z; qbytes : Z;
  stime : Z; rtime : Z; ctime : Z;
  lspid : Z; lrpid : Z;
  removed : bool
}.

Definition new_queue (key flags : Z) (cred : Credentials) : MsgQueue :=
  mk_queue (new_perm key flags cred) [] 0 MSGMNB 0 0 0 0 0 false.

Definition check_operation_permissions (cred : Credentials) (p : IpcPerm) (access : Access) : result unit Errno :=
  if has_cap cred IpcOwner then Ok ()
  else
    let allowed := match access with Receive => may_read cred p | Send => may_write cred p end in
    if allowed then Ok () else Err EACCES.

(** ** Sending *)

(** [bytes.checked_add(added).map_or(true, |b| b > qbytes)]. *)
Definition no_room (added : Z) (q : MsgQueue) : bool := (USIZE_MAX <? bytes q + added) || (qbytes q <? bytes q + added).

Definition send_checks (t : Z) (d : list Z) (flags : Z) (cred : Credentials) (q : MsgQueue) : result unit Errno :=
  let? _ := refuse (t <? 1) EINVAL in
  let? _ := refuse (MSGMAX <? Z.of_nat (length d)) EINVAL in
  let? _ := refuse (flags_beyond flags IPC_NOWAIT) EINVAL in
  let? _ := refuse (removed q) EIDRM in
  check_operation_permissions cred (perm q) Send.

Definition try_send (t : Z) (d : list Z) (flags : Z) (cred : Credentials) (pid now_sec : Z) (q : MsgQueue)
  : result MsgOpAttempt Errno * MsgQueue :=
  match send_checks t d flags cred q with
  | Err e => (Err e, q)
  | Ok _ =>
      let added := Z.of_nat (length d) in
      if no_room added q then (if flag flags IPC_NOWAIT then (Err EAGAIN, q) else (Ok NoRoom, q))
      else
        (Ok Sent, mk_queue (perm q) (messages q ++ [mk_msg t d]) (bytes q + added) (qbytes q)
                    now_sec (rtime q) (ctime q) pid (lrpid q) (removed q))
  end.

(** ** Receiving *)

(** The index and type of the least type so far; [min_by_key] keeps the first. *)
Fixpoint min_by_type (i : nat) (best : option (nat * Z)) (bound : Z) (l : list MsgMessage) : option nat :=
  match l with
  | [] => fst <$> best
  | m :: l =>
      let best :=
        if mtype m <=? bound then
          match best with
          | Some (j, t) => if mtype m <? t then Some (i, mtype m) else Some (j, t)
          | None => Some (i, mtype m)
          end
        else best in
      min_by_type (S i) best bound l
  end.

Fixpoint position (f : MsgMessage -> bool) (l : list MsgMessage) : option nat :=
  match l with
  | [] => None
  | m :: l => if f m then Some 0%nat else S <$> position f l
  end.

(** [-msgtyp] panics if it overflows. *)
Definition search_mode (msgtyp flags : Z) : exec SearchMode :=
  if flag flags MSG_EXCEPT then Done (NotEqual msgtyp)
  else if msgtyp =? 0 then Done AnyType
  else if msgtyp <? 0 then (if msgtyp =? I64_MIN then Panic else Done (LessEqual (- msgtyp)))
  else Done (Number msgtyp).

(** The index that is found, among the messages of the queue. *)
Definition find_index (mode : SearchMode) (msgtyp flags : Z) (l : list MsgMessage) : result (option nat) Errno :=
  if flag flags MSG_COPY then
    (* [usize::try_from] *)
    let? _ := refuse (msgtyp <? 0) EINVAL in
    Ok (if Z.of_nat (length l) <=? msgtyp then None else Some (Z.to_nat msgtyp))
  else
    Ok (match mode with
        | LessEqual bound => min_by_type 0 None bound l
        | _ => position (fun m => matches mode (mtype m)) l
        end).

Definition receive_flags (msgtyp flags : Z) (cred : Credentials) : result unit Errno :=
  let? _ := refuse (flags_beyond flags (Z.lor (Z.lor (Z.lor (Z.lor MSG_NOERROR MSG_EXCEPT) MSG_COPY) MSG_TRUNC) IPC_NOWAIT)) EINVAL in
  let? _ := refuse (flag flags MSG_TRUNC && negb (flag flags MSG_COPY)) EINVAL in
  let? _ := refuse (flag flags MSG_EXCEPT && (msgtyp <=? 0)) EINVAL in
  if flag flags MSG_COPY then
    let? _ := refuse (flag flags MSG_EXCEPT || negb (flag flags IPC_NOWAIT)) EINVAL in
    refuse (negb (has_cap cred CheckpointRestore) && negb (has_cap cred SysAdmin)) EPERM
  else Ok ().

Definition receive_checks (flags : Z) (cred : Credentials) (q : MsgQueue) : result unit Errno :=
  let? _ := refuse (removed q) EIDRM in
  if flag flags MSG_COPY then Ok () else check_operation_permissions cred (perm q) Receive.

(** The end of [try_receive], for the message at an index of the queue. *)
Definition take_message (i : nat) (msgsz flags pid now_sec : Z) (q : MsgQueue)
  : exec (result MsgRecvOutcome Errno * MsgQueue) :=
  m ← unwrap (messages q !! i);
  let full := Z.of_nat (length (data m)) in
  let copy := flag flags MSG_COPY in
  if negb copy && negb (flag flags MSG_NOERROR) && (msgsz <? full) then mret (Err E2BIG, q)
  else
    let received := mk_received (mtype m) (take (Z.to_nat (Z.min full msgsz)) (data m)) full copy in
    mret (Ok (Received received),
          if copy then q
          else mk_queue (perm q) (delete i (messages q)) (Z.max 0 (bytes q - full)) (qbytes q)
                 (stime q) now_sec (ctime q) (lspid q) pid (removed q)).

Definition try_receive (msgtyp msgsz flags : Z) (cred : Credentials) (pid now_sec : Z) (q : MsgQueue)
  : exec (result MsgRecvOutcome Errno * MsgQueue) :=
  match receive_flags msgtyp flags cred with
  | Err e => mret (Err e, q)
  | Ok _ =>
      mode ← search_mode msgtyp flags;
      match receive_checks flags cred q with
      | Err e => mret (Err e, q)
      | Ok _ =>
          match find_index mode msgtyp flags (messages q) with
          | Err e => mret (Err e, q)
          | Ok None => mret (if flag flags IPC_NOWAIT then Err EAGAIN else Ok NoMessage, q)
          | Ok (Some i) => take_message i msgsz flags pid now_sec q
          end
      end
  end.

(** ** Control *)

Record MsgMetadata : Type := mk_meta {
  meta_perm : IpcPerm; meta_stime : Z; meta_rtime : Z; meta_ctime : Z; meta_bytes : Z; meta_qnum : Z;
  meta_qbytes : Z; meta_lspid : Z; meta_lrpid : Z
}.

Definition stat_inner (cred : Credentials) (check_perms : bool) (q : MsgQueue) : result MsgMetadata Errno :=
  let? _ := refuse (removed q) EIDRM in
  let? _ := (if check_perms then check_operation_permissions cred (perm q) Receive else Ok ()) in
  Ok (mk_meta (perm q) (stime q) (rtime q) (ctime q) (bytes q) (Z.of_nat (length (messages q))) (qbytes q)
        (lspid q) (lrpid q)).
Definition stat (cred : Credentials) (q : MsgQueue) : result MsgMetadata Errno := stat_inner cred true q.
Definition stat_any (q : MsgQueue) : result MsgMetadata Errno := stat_inner root false q.

Definition set (u g : option Z) (mode : option FileMode) (limit : option Z) (cred : Credentials) (now_sec : Z) (q : MsgQueue)
  : result MsgQueue Errno :=
  let? _ := refuse (removed q) EIDRM in
  let? _ := check_control_owner cred (perm q) in
  let? limit := (match limit with
                 | Some n => let? _ := refuse ((MSGMNB <? n) && negb (has_cap cred SysResource)) EPERM in Ok n
                 | None => Ok (qbytes q)
                 end) in
  Ok (mk_queue (change_perm u g mode (perm q)) (messages q) (bytes q) limit (stime q) (rtime q) now_sec
        (lspid q) (lrpid q) (removed q)).

(** ** The manager *)

Definition mark_removed (q : MsgQueue) : MsgQueue :=
  mk_queue (perm q) (messages q) (bytes q) (qbytes q) (stime q) (rtime q) (ctime q) (lspid q) (lrpid q) true.
#[export] Instance queue_object : IpcObject MsgQueue :=
  { obj_perm := perm; obj_removed := removed; obj_mark := mark_removed; obj_max := MSGMNI }.

Definition queue_for_operation : Manager -> Z -> result nat Errno := object_for_operation.

(** A key that exists, in [msgget]. *)
Definition msgget_existing (id flags : Z) (cred : Credentials) (w : registry MsgQueue) : result Z Errno :=
  let? i := ok_or (by_id w.1 !! id) EINVAL in
  let? q := ok_or (w.2 !! i) EINVAL in
  let? _ := refuse (flag flags IPC_CREAT && flag flags IPC_EXCL) EEXIST in
  let? _ := check_requested_mode flags cred q in
  Ok id.

Definition msgget (key flags : Z) (cred : Credentials) (w : registry MsgQueue) : result Z Errno * registry MsgQueue :=
  if key =? IPC_PRIVATE then create_object key (new_queue key flags cred) w
  else
    match by_key w.1 !! key with
    | Some id => (msgget_existing id flags cred w, w)
    | None =>
        if negb (flag flags IPC_CREAT) then (Err ENOENT, w) else create_object key (new_queue key flags cred) w
    end.

Definition remove : Z -> Credentials -> registry MsgQueue -> result nat Errno * registry MsgQueue := remove_object.

Definition queue_by_index : Z -> Manager -> result (Z * nat) Errno := object_by_index.

Record MsgSystemInfo : Type := mk_info { info_queues : Z; info_messages : Z; info_bytes : Z; max_index : Z }.
Definition info (w : registry MsgQueue) : MsgSystemInfo :=
  let ids := btree_iter (by_id w.1) in
  let total (f : MsgQueue -> Z) := foldr Z.add 0 (map (fun x => from_option f 0 (w.2 !! x.2)) ids) in
  mk_info (Z.of_nat (length ids)) (total (fun q => Z.of_nat (length (messages q)))) (total bytes) (from_option fst 0 (last ids)).

(** ** The calls *)

(** [sys_msgsnd] and [sys_msgrcv], after decoding. *)
Inductive request : Type := Sending (t : Z) (d : list Z) | Receiving (msgtyp msgsz : Z).
Record call : Type := mk_call { c_queue : nat; c_req : request; c_flags : Z; c_cred : Credentials; c_pid : Z }.

(** One attempt: whether the operation was made. *)
Definition attempt (now : Z) (c : call) (q : MsgQueue) : exec (result bool Errno * MsgQueue) :=
  match c_req c with
  | Sending t d =>
      let '(r, q) := try_send t d (c_flags c) (c_cred c) (c_pid c) now q in
      mret (match r with Ok Sent => Ok true | Ok NoRoom => Ok false | Err e => Err e end, q)
  | Receiving msgtyp msgsz =>
      '(r, q) ← try_receive msgtyp msgsz (c_flags c) (c_cred c) (c_pid c) now q;
      mret (match r with Ok (Received _) => Ok true | Ok NoMessage => Ok false | Err e => Err e end, q)
  end.

(** What a task does once it is out of the queue. *)
Inductive after : Type := Retry | Fail | Success.

(** Where a task is.  A task in [CopyOut] has taken a message and copies it to its
    user. *)
Inductive pc : Type :=
| Out
| Try (c : call)
| Check1 (c : call)
| Prepare (c : call)
| Recheck (c : call) (e : nat)
| Check2 (c : call) (e : nat)
| Asleep (c : call) (e : nat)
| Leave (c : call) (e : nat) (a : after)
| LeaveTask (c : call) (e : nat) (a : after)
| CopyOut (q : nat)
| Setting (q : nat) (u g : Z) (mode : FileMode) (limit : Z) (cred : Credentials)
| WakeUp (q : nat)
| Waking (ts : list nat).

Record system : Type := mk_system {
  msgs : registry MsgQueue;
  lists : list (list nat);
  all_entries : list WaitQueueEntry;
  all_tasks : gmap nat Task;
  at_pc : nat -> pc
}.

Definition manager (s : system) : Manager := (msgs s).1.
Definition queues (s : system) : list MsgQueue := (msgs s).2.

Definition goto (t : nat) (p : pc) (s : system) : system :=
  mk_system (msgs s) (lists s) (all_entries s) (all_tasks s) (<[t := p]> (at_pc s)).
Definition with_msgs (w : registry MsgQueue) (s : system) : system :=
  mk_system w (lists s) (all_entries s) (all_tasks s) (at_pc s).
Definition with_queue (i : nat) (q : MsgQueue) (s : system) : system := with_msgs (manager s, <[i := q]> (queues s)) s.
Definition with_tasks (ts : gmap nat Task) (s : system) : system :=
  mk_system (msgs s) (lists s) (all_entries s) ts (at_pc s).

Definition waiting_in (s : system) (q : nat) : list nat := default [] (lists s !! q).
Definition world_of (s : system) (q : nat) : world := mk_world (waiting_in s q) (all_entries s) (all_tasks s).
Definition put_world (q : nat) (w : world) (s : system) : system :=
  mk_system (msgs s) (<[q := waiters w]> (lists s)) (entries w) (tasks w) (at_pc s).

(** After a successful attempt a receiver copies the message out; a sender is done
    and wakes. *)
Definition made (c : call) : pc :=
  match c_req c with Sending _ _ => WakeUp (c_queue c) | Receiving _ _ => CopyOut (c_queue c) end.

(** A panic stops the kernel: there is no step. *)
Definition do_try (now : Z) (s : system) (t : nat) (c : call) : option system :=
  q ← queues s !! c_queue c;
  match attempt now c q with
  | Panic => None
  | Done (r, q) =>
      Some (goto t (match r with Ok true => made c | Ok false => Check1 c | Err _ => Out end) (with_queue (c_queue c) q s))
  end.

Definition do_prepare (s : system) (t : nat) (c : call) : system :=
  let '(w, e) := prepare_to_wait (world_of s (c_queue c)) t Sleeping in
  goto t (Recheck c e) (put_world (c_queue c) w s).

Definition do_recheck (now : Z) (s : system) (t : nat) (c : call) (e : nat) : option system :=
  q ← queues s !! c_queue c;
  match attempt now c q with
  | Panic => None
  | Done (r, q) =>
      Some (goto t (match r with Ok true => Leave c e Success | Ok false => Check2 c e | Err _ => Leave c e Fail end)
              (with_queue (c_queue c) q s))
  end.

Definition do_leave (s : system) (t : nat) (c : call) (e : nat) (a : after) : system :=
  goto t (LeaveTask c e a) (put_world (c_queue c) (finish_entry (world_of s (c_queue c)) e) s).

Definition do_leave_task (s : system) (t : nat) (c : call) (e : nat) (a : after) : system :=
  goto t (match a with Retry => Try c | Fail => Out | Success => made c end)
    (with_tasks (tasks (finish_transition true (world_of s 0) e)) s).

(** [copy_to_user] answers whether the address was good; an error returns at once. *)
Definition do_copy_out (s : system) (t : nat) (q : nat) (ok : bool) : system := goto t (if ok then WakeUp q else Out) s.

(** [IPC_SET] in [sys_msgctl]. *)
Definition do_set (now : Z) (s : system) (t : nat) (i : nat) (u g : Z) (mode : FileMode) (limit : Z) (cred : Credentials)
  : option system :=
  q ← queues s !! i;
  Some (goto t Out (match set (Some u) (Some g) (Some mode) (Some limit) cred now q with
                    | Ok q => with_queue i q s
                    | Err _ => s
                    end)).

Definition do_remove (s : system) (t : nat) (id : Z) (cred : Credentials) : system :=
  let '(r, w) := remove id cred (msgs s) in
  goto t (match r with Ok q => WakeUp q | Err _ => Out end) (with_msgs w s).

(** A new queue comes with a new list of waiters. *)
Definition do_msgget (s : system) (key flags : Z) (cred : Credentials) : system :=
  let '(_, w) := msgget key flags cred (msgs s) in
  mk_system w (lists s ++ replicate (length w.2 - length (queues s)) []) (all_entries s) (all_tasks s) (at_pc s).

Definition do_drain (s : system) (t : nat) (q : nat) : system :=
  let '(w, ts) := drain (world_of s q) in goto t (Waking ts) (put_world q w s).

Definition do_wake (s : system) (t : nat) (t' : nat) (ts : list nat) : system :=
  goto t (Waking ts) (with_tasks (tasks (wake_task (world_of s 0) t')) s).

(** ** Steps *)

(** Two steps that can leave tasks asleep: a copy that fails, and a limit that is
    raised. *)
Inductive incident : Type := Usual | Fault | Raise.

Definition raises (s s' : system) (i : nat) : bool :=
  match queues s !! i, queues s' !! i with Some q, Some q' => qbytes q <? qbytes q' | _, _ => false end.

(** A task starts a call or goes on with one.  Times, signals and addresses are
    left open. *)
Inductive move : incident -> system -> system -> Prop :=
| move_call s t q id req flags cred pid :
    at_pc s t = Out -> is_Some (all_tasks s !! t) -> queue_for_operation (manager s) id = Ok q ->
    move Usual s (goto t (Try (mk_call q req flags cred pid)) s)
| move_try now s t c s' : at_pc s t = Try c -> do_try now s t c = Some s' -> move Usual s s'
| move_check1 s t c (signal : bool) : at_pc s t = Check1 c -> move Usual s (goto t (if signal then Out else Prepare c) s)
| move_prepare s t c : at_pc s t = Prepare c -> is_Some (all_tasks s !! t) -> move Usual s (do_prepare s t c)
| move_recheck now s t c e s' : at_pc s t = Recheck c e -> do_recheck now s t c e = Some s' -> move Usual s s'
| move_check2 s t c e (signal : bool) :
    at_pc s t = Check2 c e -> move Usual s (goto t (if signal then Leave c e Fail else Asleep c e) s)
| move_resume s t c e :
    (* the scheduler runs a task again only when it does not sleep *)
    at_pc s t = Asleep c e -> ~ asleep (world_of s 0) t -> move Usual s (goto t (Leave c e Retry) s)
| move_leave s t c e a : at_pc s t = Leave c e a -> move Usual s (do_leave s t c e a)
| move_leave_task s t c e a : at_pc s t = LeaveTask c e a -> move Usual s (do_leave_task s t c e a)
| move_copy_out s t q ok :
    at_pc s t = CopyOut q -> move (if ok : bool then Usual else Fault) s (do_copy_out s t q ok)
| move_msgctl s t q id u g mode limit cred :
    at_pc s t = Out -> is_Some (all_tasks s !! t) -> queue_for_operation (manager s) id = Ok q ->
    move Usual s (goto t (Setting q u g mode limit cred) s)
| move_set now s t q u g mode limit cred s' :
    at_pc s t = Setting q u g mode limit cred -> do_set now s t q u g mode limit cred = Some s' ->
    move (if raises s s' q then Raise else Usual) s s'
| move_remove s t id cred : at_pc s t = Out -> is_Some (all_tasks s !! t) -> move Usual s (do_remove s t id cred)
| move_msgget s t key flags cred :
    at_pc s t = Out -> is_Some (all_tasks s !! t) -> move Usual s (do_msgget s key flags cred)
| move_drain s t q : at_pc s t = WakeUp q -> move Usual s (do_drain s t q)
| move_wake s t t' ts : at_pc s t = Waking (t' :: ts) -> move Usual s (do_wake s t t' ts)
| move_woken s t : at_pc s t = Waking [] -> move Usual s (goto t Out s)
| move_environment s t k k' :
    (* signals, timers and the scheduler: a task changes state, but not into sleep *)
    all_tasks s !! t = Some k -> is_wait (state k') = false -> move Usual s (with_tasks (<[t := k']> (all_tasks s)) s).

Definition boot (s : system) : Prop :=
  msgs s = (new_manager, []) /\ lists s = [] /\ all_entries s = [] /\ forall t, at_pc s t = Out.
