(* ===== verification/MsgProofs.v ===== *)
(** * System V message queues: the operations, and the invariants of waiting

    Which message a search selects, what each operation does to a queue, and that
    waiting for messages and for room is an instance of the protocol of waiting. *)

From stdpp Require Import gmap functions.
From S2P Require Import Prelude Cred Ipc WaitQueue WaitQueueProofs Msg.

(** ** Searching *)

Lemma position_spec f l :
  match position f l with
  | Some i => exists m, l !! i = Some m /\ f m = true /\ forall j m', (j < i)%nat -> l !! j = Some m' -> f m' = false
  | None => forall m, m ∈ l -> f m = false
  end.
Proof.
  induction l as [|m l IH]; cbn [position]; [by intros m ?%elem_of_nil|]. destruct (f m) eqn:Ef.
  { exists m. split_and!; try done. lia. }
  destruct (position f l) as [i|]; cbn.
  - destruct IH as (m' & Hm & Hf & Hb). exists m'. split_and!; try done. intros [|j] x Hj Hx; [by injection Hx as <-|].
    by apply (Hb j); [lia|].
  - intros x [->|Hx]%elem_of_cons; auto.
Qed.

(** The best of the messages so far, and what is better than it. *)
Lemma min_by_type_spec i best bound l pre :
  length pre = i ->
  (match best with
   | Some (j, t) => exists m, pre !! j = Some m /\ mtype m = t /\ t <= bound
       /\ forall k m', pre !! k = Some m' -> mtype m' <= bound -> t <= mtype m' /\ ((k < j)%nat -> t < mtype m')
   | None => forall m, m ∈ pre -> bound < mtype m
   end) ->
  match min_by_type i best bound l with
  | Some j => exists m, (pre ++ l) !! j = Some m /\ mtype m <= bound
      /\ forall k m', (pre ++ l) !! k = Some m' -> mtype m' <= bound -> mtype m <= mtype m' /\ ((k < j)%nat -> mtype m < mtype m')
  | None => forall m, m ∈ pre ++ l -> bound < mtype m
  end.
Proof.
  revert i best pre. induction l as [|x l IH]; intros i best pre Hi Hb; cbn [min_by_type].
  { rewrite app_nil_r. destruct best as [[j t]|]; [|exact Hb]. cbn. destruct Hb as (m & ? & <- & ? & ?). eauto. }
  replace (pre ++ x :: l) with ((pre ++ [x]) ++ l) by (by rewrite <- app_assoc).
  assert (Hx : (pre ++ [x]) !! i = Some x) by (by rewrite lookup_app_r, Hi, Nat.sub_diag by lia).
  assert (Hpre : forall k m', (pre ++ [x]) !! k = Some m' -> pre !! k = Some m' \/ k = i /\ m' = x).
  { intros k m' [?|[? Hk]]%lookup_app_Some; [by left|right]. destruct (k - length pre)%nat eqn:E; [|done]. simplify_eq/=. split; [lia|done]. }
  apply IH; [rewrite length_app; cbn; lia|]. destruct (Z.leb_spec (mtype x) bound) as [Hle|Hgt].
  - destruct best as [[j t]|].
    + destruct Hb as (m & Hm & Ht & Htb & Hmin). destruct (Z.ltb_spec (mtype x) t).
      * exists x. split_and!; try done. intros k m' [Hk|[-> ->]]%Hpre Hb'; [destruct (Hmin k m' Hk Hb'); lia|lia].
      * exists m. split_and!; try done; [by apply lookup_app_l_Some|]. intros k m' [Hk|[-> ->]]%Hpre Hb'; [by apply Hmin|].
        split; [lia|]. apply lookup_lt_Some in Hm. lia.
    + exists x. split_and!; try done. intros k m' [Hk%list_elem_of_lookup_2%Hb|[-> ->]]%Hpre Hb'; lia.
  - destruct best as [[j t]|].
    + destruct Hb as (m & Hm & Ht & Htb & Hmin). exists m. split_and!; try done; [by apply lookup_app_l_Some|].
      intros k m' [Hk|[-> ->]]%Hpre Hb'; [by apply Hmin|lia].
    + intros m [?%Hb| ->%list_elem_of_singleton]%elem_of_app; [done|lia].
Qed.

(** The message that a search mode stands for: the first of the least type that
    is small enough, or the first that matches. *)
Definition selects (mode : SearchMode) (l : list MsgMessage) (i : nat) : Prop :=
  exists m, l !! i = Some m /\ matches mode (mtype m) = true /\
    match mode with
    | LessEqual _ => forall k m', l !! k = Some m' -> matches mode (mtype m') = true ->
        mtype m <= mtype m' /\ ((k < i)%nat -> mtype m < mtype m')
    | _ => forall k m', (k < i)%nat -> l !! k = Some m' -> matches mode (mtype m') = false
    end.
Definition none_matches (mode : SearchMode) (l : list MsgMessage) : Prop := forall m, m ∈ l -> matches mode (mtype m) = false.

Lemma position_selects mode l :
  (forall b, mode <> LessEqual b) ->
  match position (fun m => matches mode (mtype m)) l with Some i => selects mode l i | None => none_matches mode l end.
Proof.
  intros Hm. pose proof (position_spec (fun m => matches mode (mtype m)) l) as H. destruct (position _ l) as [i|]; [|exact H].
  destruct H as (m & ? & ? & ?). exists m. split_and!; try done. destruct mode; [done|done|by edestruct Hm|done].
Qed.

Lemma find_index_spec mode msgtyp flags l :
  flag flags MSG_COPY = false ->
  match find_index mode msgtyp flags l with
  | Ok (Some i) => selects mode l i
  | Ok None => none_matches mode l
  | Err _ => False
  end.
Proof.
  intros Hc. unfold find_index. rewrite Hc. destruct mode as [|w|b|w].
  1,2,4: by apply position_selects.
  pose proof (min_by_type_spec 0 None b l [] eq_refl ltac:(by intros ? ?%elem_of_nil)) as H. cbn [app] in H.
  destruct (min_by_type 0 None b l) as [i|].
  - destruct H as (m & Hm & Hb & Hmin). exists m. cbn. split_and!; [done|lia|]. intros k m' Hk Hb'. apply Hmin; [done|lia].
  - intros m Hm%H. cbn. lia.
Qed.

Lemma selects_lookup mode l i : selects mode l i -> is_Some (l !! i).
Proof. intros (m & ? & _). by exists m. Qed.

(** Whatever the mode, the message is the first of its type. *)
Lemma selects_first mode l i m k m' :
  selects mode l i -> l !! i = Some m -> (k < i)%nat -> l !! k = Some m' -> mtype m' <> mtype m.
Proof.
  intros (x & Hx & Hm & Hs) Hi Hk Hl E. rewrite Hi in Hx. simplify_eq.
  destruct mode; try (by specialize (Hs k m' Hk Hl); rewrite E in Hs; congruence).
  destruct (Hs k m' Hl) as [_ Hlt]; [by rewrite E|]. specialize (Hlt Hk). lia.
Qed.

(** ** Well-formed queues *)

Fixpoint sizes (l : list MsgMessage) : Z :=
  match l with [] => 0 | m :: l => Z.of_nat (length (data m)) + sizes l end.

Definition wf_message (m : MsgMessage) : Prop := 1 <= mtype m /\ Z.of_nat (length (data m)) <= MSGMAX.
Definition wf_queue (q : MsgQueue) : Prop :=
  Forall wf_message (messages q) /\ bytes q = sizes (messages q) /\ 0 <= perm_mode (perm q) <= PERM_MASK.

#[export] Program Instance queue_laws : IpcObjectLaws MsgQueue := {| obj_wf := wf_queue |}.
Solve Obligations with done.

Lemma sizes_nonneg l : 0 <= sizes l.
Proof. induction l; cbn; lia. Qed.

Lemma sizes_app l l' : sizes (l ++ l') = sizes l + sizes l'.
Proof. induction l; cbn; lia. Qed.

Lemma delete_middle {A} (l : list A) i x : l !! i = Some x -> l = take i l ++ x :: drop (S i) l /\ delete i l = take i l ++ drop (S i) l.
Proof. intros H. split; [symmetry; by apply take_drop_middle|apply delete_take_drop]. Qed.

Lemma sizes_delete l i m : l !! i = Some m -> sizes l = Z.of_nat (length (data m)) + sizes (delete i l).
Proof.
  intros [E1 E2]%delete_middle. rewrite E2. rewrite E1 at 1. rewrite !sizes_app. cbn. lia.
Qed.

Lemma new_queue_wf key flags cred : wf_queue (new_queue key flags cred).
Proof.
  split; [done|]. split; [done|]. unfold new_queue, new_perm, mode_from_flags. cbn. by apply land_mask_range.
Qed.

(** ** One operation *)

Definition sent_to (t : Z) (d : list Z) (pid now : Z) (q : MsgQueue) : MsgQueue :=
  mk_queue (perm q) (messages q ++ [mk_msg t d]) (bytes q + Z.of_nat (length d)) (qbytes q) now (rtime q) (ctime q)
    pid (lrpid q) (removed q).

Lemma try_send_spec t d flags cred pid now q :
  match try_send t d flags cred pid now q with
  | (Ok Sent, q') => send_checks t d flags cred q = Ok () /\ no_room (Z.of_nat (length d)) q = false
      /\ q' = sent_to t d pid now q
  | (Ok NoRoom, q') => q' = q /\ send_checks t d flags cred q = Ok () /\ no_room (Z.of_nat (length d)) q = true
      /\ flag flags IPC_NOWAIT = false
  | (Err e, q') => q' = q /\ (send_checks t d flags cred q = Err e
      \/ send_checks t d flags cred q = Ok () /\ e = EAGAIN /\ no_room (Z.of_nat (length d)) q = true
         /\ flag flags IPC_NOWAIT = true)
  end.
Proof.
  unfold try_send. destruct (send_checks t d flags cred q) as [[]|]; [|by auto].
  destruct (no_room _ q) eqn:En; [|done]. destruct (flag flags IPC_NOWAIT); auto 10.
Qed.

Definition taken_from (i : nat) (m : MsgMessage) (pid now : Z) (q : MsgQueue) : MsgQueue :=
  mk_queue (perm q) (delete i (messages q)) (Z.max 0 (bytes q - Z.of_nat (length (data m)))) (qbytes q)
    (stime q) now (ctime q) (lspid q) pid (removed q).

(** The answer of a search that passes the checks. *)
Definition answered (mode : SearchMode) (msgtyp msgsz flags pid now : Z) (q : MsgQueue)
  (r : result MsgRecvOutcome Errno) (q' : MsgQueue) : Prop :=
  let copy := flag flags MSG_COPY in
  match r with
  | Ok (Received x) => exists i m, messages q !! i = Some m
      /\ (if copy then Z.of_nat i = msgtyp else selects mode (messages q) i)
      /\ (copy = true \/ flag flags MSG_NOERROR = true \/ Z.of_nat (length (data m)) <= msgsz)
      /\ x = mk_received (mtype m) (take (Z.to_nat msgsz) (data m)) (Z.of_nat (length (data m))) copy
      /\ q' = (if copy then q else taken_from i m pid now q)
  | Ok NoMessage => q' = q /\ flag flags IPC_NOWAIT = false /\ copy = false /\ none_matches mode (messages q)
  | Err e => q' = q /\
      (e = EAGAIN /\ flag flags IPC_NOWAIT = true
         /\ (if copy then Z.of_nat (length (messages q)) <= msgtyp else none_matches mode (messages q))
       \/ e = EINVAL /\ copy = true /\ msgtyp < 0
       \/ e = E2BIG /\ copy = false /\ flag flags MSG_NOERROR = false
          /\ exists i m, selects mode (messages q) i /\ messages q !! i = Some m /\ msgsz < Z.of_nat (length (data m)))
  end.

Lemma take_min {A} (l : list A) (n : Z) : take (Z.to_nat (Z.min (Z.of_nat (length l)) n)) l = take (Z.to_nat n) l.
Proof.
  destruct (Z.le_gt_cases n (Z.of_nat (length l))); [by rewrite Z.min_r|]. rewrite Z.min_l, Nat2Z.id by lia.
  by rewrite !take_ge by lia.
Qed.

Lemma take_message_spec mode msgtyp i m msgsz flags pid now q :
  messages q !! i = Some m -> (if flag flags MSG_COPY then Z.of_nat i = msgtyp else selects mode (messages q) i) ->
  exists r q', take_message i msgsz flags pid now q = Done (r, q') /\ answered mode msgtyp msgsz flags pid now q r q'.
Proof.
  intros Hm Hs. unfold take_message. rewrite Hm. cbn. rewrite take_min.
  destruct (negb _ && negb _ && _) eqn:E; (do 2 eexists; split; [done|]; cbn).
  - split; [done|]. do 2 right. destruct (flag flags MSG_COPY); [done|]. destruct (flag flags MSG_NOERROR); [done|].
    split_and!; try done. exists i, m. split_and!; try done. cbn in E. lia.
  - exists i, m. split_and!; try done. destruct (flag flags MSG_COPY); [by left|]. right.
    destruct (flag flags MSG_NOERROR); [by left|right]. cbn in E. lia.
Qed.

(** What copying with an index needs. *)
Lemma copy_flags msgtyp flags cred :
  receive_flags msgtyp flags cred = Ok () -> flag flags MSG_COPY = true -> flag flags IPC_NOWAIT = true.
Proof.
  unfold receive_flags, refuse. intros H Hc. rewrite Hc in H.
  destruct (flags_beyond _ _); [done|]. destruct (flag flags MSG_TRUNC && _); [done|].
  destruct (flag flags MSG_EXCEPT && _); [done|].
  by destruct (flag flags IPC_NOWAIT), (flag flags MSG_EXCEPT).
Qed.

Lemma try_receive_spec msgtyp msgsz flags cred pid now q :
  match receive_flags msgtyp flags cred with
  | Err e => try_receive msgtyp msgsz flags cred pid now q = Done (Err e, q)
  | Ok _ =>
      match search_mode msgtyp flags with
      | Panic => try_receive msgtyp msgsz flags cred pid now q = Panic
      | Done mode =>
          match receive_checks flags cred q with
          | Err e => try_receive msgtyp msgsz flags cred pid now q = Done (Err e, q)
          | Ok _ => exists r q', try_receive msgtyp msgsz flags cred pid now q = Done (r, q')
              /\ answered mode msgtyp msgsz flags pid now q r q'
          end
      end
  end.
Proof.
  unfold try_receive. destruct (receive_flags msgtyp flags cred) as [[]|] eqn:Ef; [|done].
  destruct (search_mode msgtyp flags) as [mode|]; [|done]. cbn. destruct (receive_checks flags cred q) as [[]|]; [|done].
  destruct (flag flags MSG_COPY) eqn:Ec.
  - pose proof (copy_flags _ _ _ Ef Ec) as Hn. unfold find_index, refuse. rewrite Ec, Hn.
    destruct (Z.ltb_spec msgtyp 0); [do 2 eexists; split; [done|]; cbn; rewrite Ec; split; [done|]; right; by left|].
    destruct (Z.leb_spec (Z.of_nat (length (messages q))) msgtyp).
    { do 2 eexists. split; [done|]. cbn. rewrite Ec, Hn. split; [done|by left]. }
    destruct (lookup_lt_is_Some_2 (messages q) (Z.to_nat msgtyp)) as [m Hm]; [lia|].
    eapply take_message_spec; [exact Hm|]. rewrite Ec. lia.
  - pose proof (find_index_spec mode msgtyp flags (messages q) Ec) as Hi.
    destruct (find_index mode msgtyp flags (messages q)) as [[i|]|]; [| |done].
    + destruct (selects_lookup _ _ _ Hi) as [m Hm]. eapply take_message_spec; [exact Hm|]. by rewrite Ec.
    + destruct (flag flags IPC_NOWAIT) eqn:En; (do 2 eexists; split; [done|]; cbn; rewrite Ec, ?En; auto 10).
Qed.

Lemma search_mode_panics msgtyp flags :
  search_mode msgtyp flags = Panic <-> flag flags MSG_EXCEPT = false /\ msgtyp = I64_MIN.
Proof.
  unfold search_mode. destruct (flag flags MSG_EXCEPT); [naive_solver|].
  destruct (Z.eqb_spec msgtyp 0) as [->|]; [naive_solver|]. destruct (Z.ltb_spec msgtyp 0).
  - destruct (Z.eqb_spec msgtyp I64_MIN); naive_solver.
  - unfold I64_MIN. split; [done|lia].
Qed.

(** ** Every operation keeps a queue well-formed, and its name *)

Lemma send_checks_Ok t d flags cred q :
  send_checks t d flags cred q = Ok () <->
  1 <= t /\ Z.of_nat (length d) <= MSGMAX /\ flags_beyond flags IPC_NOWAIT = false /\ removed q = false
  /\ check_operation_permissions cred (perm q) Send = Ok ().
Proof.
  unfold send_checks, refuse. destruct (Z.ltb_spec t 1); [split; [done|lia]|].
  destruct (Z.ltb_spec MSGMAX (Z.of_nat (length d))); [split; [done|lia]|].
  destruct (flags_beyond _ _); [naive_solver|]. destruct (removed q); naive_solver.
Qed.

Lemma try_send_keeps t d flags cred pid now q r q' : try_send t d flags cred pid now q = (r, q') -> keeps_object q q'.
Proof.
  intros E. pose proof (try_send_spec t d flags cred pid now q) as H. rewrite E in H.
  destruct r as [[]|]; [destruct H as (Hc & _ & ->)|by destruct H as [-> _]|by destruct H as [-> _]].
  apply send_checks_Ok in Hc as (? & ? & _ & Hr & _). intros (Hf & Hb & Hm). split; [|done]. split_and!; cbn; [|by rewrite sizes_app, Hb; cbn; lia|lia..].
  apply Forall_app. split; [done|]. by constructor.
Qed.

Lemma taken_keeps i m pid now q : messages q !! i = Some m -> keeps_object q (taken_from i m pid now q).
Proof.
  intros Hm (Hf & Hb & Hp). split; [|done]. split_and!; cbn; [by apply Forall_delete| |lia..].
  rewrite Hb, (sizes_delete _ _ _ Hm). pose proof (sizes_nonneg (delete i (messages q))). lia.
Qed.

Lemma try_receive_keeps msgtyp msgsz flags cred pid now q r q' :
  try_receive msgtyp msgsz flags cred pid now q = Done (r, q') -> keeps_object q q'.
Proof.
  intros E. pose proof (try_receive_spec msgtyp msgsz flags cred pid now q) as H. rewrite E in H.
  destruct (receive_flags _ _ _); [|by simplify_eq]. destruct (search_mode _ _) as [mode|]; [|done].
  destruct (receive_checks _ _ _); [|by simplify_eq]. destruct H as (r0 & q0 & [= <- <-] & Ha).
  destruct r as [[x|]|e]; cbn in Ha; [|by destruct Ha as [-> _]|by destruct Ha as [-> _]].
  destruct Ha as (i & m & Hm & _ & _ & _ & ->). destruct (flag flags MSG_COPY); [done|by apply taken_keeps].
Qed.

Lemma set_Ok u g mode limit cred now q q' :
  set u g mode limit cred now q = Ok q' ->
  removed q = false /\ check_control_owner cred (perm q) = Ok ()
  /\ q' = mk_queue (change_perm u g mode (perm q)) (messages q) (bytes q) (default (qbytes q) limit) (stime q) (rtime q) now
            (lspid q) (lrpid q) (removed q).
Proof.
  unfold set, refuse. destruct (removed q); [done|]. destruct (check_control_owner cred (perm q)) as [[]|]; [|done].
  destruct limit as [n|]; [destruct (_ && _); [done|]|]; by intros [= <-].
Qed.

Lemma set_keeps u g mode limit cred now q q' : set u g mode limit cred now q = Ok q' -> keeps_object q q'.
Proof.
  intros (Hr & _ & ->)%set_Ok (Hf & Hb & Hm). split; [|done]. split_and!; cbn; try done; destruct mode; cbn;
    try lia; by apply land_mask_range.
Qed.

(** ** Waiting *)

(** A request must wait: the queue is there, and has no room for the message, or
    none that is asked for. *)
Definition must_wait (c : request * Z) (q : MsgQueue) : Prop :=
  removed q = false /\
  match c.1 with
  | Sending _ d => no_room (Z.of_nat (length d)) q = true
  | Receiving msgtyp _ => exists mode, search_mode msgtyp c.2 = Done mode /\ none_matches mode (messages q)
  end.

Lemma msg_attempt_keeps now c q r q' : attempt now c q = Done (r, q') -> keeps_object q q'.
Proof.
  unfold attempt. destruct (c_req c) as [t d|msgtyp msgsz].
  - destruct (try_send _ _ _ _ _ _ _) as [r0 q0] eqn:E. intros [= _ <-]. by eapply try_send_keeps.
  - destruct (try_receive _ _ _ _ _ _ _) as [[r0 q0]|] eqn:E; [|done]. cbn. intros [= _ <-]. by eapply try_receive_keeps.
Qed.

Lemma attempt_rest now c q r q' :
  attempt now c q = Done (r, q') -> r <> Ok true -> q' = q /\ (r = Ok false -> must_wait (c_req c, c_flags c) q).
Proof.
  unfold attempt, must_wait. destruct (c_req c) as [t d|msgtyp msgsz]; cbn.
  - pose proof (try_send_spec t d (c_flags c) (c_cred c) (c_pid c) now q) as H.
    destruct (try_send _ _ _ _ _ _ _) as [[[]|e] q0]; intros [= <- <-] Hr; [done| |by destruct H as [-> _]].
    destruct H as (-> & Hc & Hn & _). split; [done|]. intros _. by apply send_checks_Ok in Hc as (_ & _ & _ & ? & _).
  - pose proof (try_receive_spec msgtyp msgsz (c_flags c) (c_cred c) (c_pid c) now q) as H.
    destruct (receive_flags _ _ _); [|by rewrite H; cbn; intros [= <- <-]].
    destruct (search_mode _ _) as [mode|] eqn:Em; [|by rewrite H].
    destruct (receive_checks (c_flags c) (c_cred c) q) as [[]|] eqn:Ek; [|by rewrite H; cbn; intros [= <- <-]].
    destruct H as (r0 & q0 & -> & Ha). cbn. intros [= <- <-] Hr. destruct r0 as [[x|]|e]; cbn in Ha; [done| |by destruct Ha as [-> _]].
    destruct Ha as (-> & _ & _ & Hn). split; [done|]. intros _. split; [|by exists mode].
    unfold receive_checks, refuse in Ek. by destruct (removed q).
Qed.

(** A limit that is not raised makes no room. *)
Lemma set_must_wait u g mode limit cred now q q' c :
  set u g mode (Some limit) cred now q = Ok q' -> (qbytes q <? qbytes q') = false -> must_wait c q -> must_wait c q'.
Proof.
  intros (_ & _ & ->)%set_Ok Hle [Hr Hw]. split; [done|]. destruct c as [[t d|msgtyp msgsz] fl]; [|exact Hw].
  unfold no_room in *. cbn in *. lia.
Qed.

(** ** The protocol *)

(** The request, queue and entry of a task that is registered, and whether it has
    seen since that it must wait. *)
Definition reg_of (p : pc) : option (registration (request * Z)) :=
  match p with
  | Recheck c e | Leave c e _ => Some (mk_reg (c_req c, c_flags c) (c_queue c) e false)
  | Check2 c e | Asleep c e => Some (mk_reg (c_req c, c_flags c) (c_queue c) e true)
  | _ => None
  end.

(** A task that changed a queue owes its waiters a [wake_all] from then on. *)
Definition duty_of (p : pc) : duty :=
  match p with
  | Leave c _ Success | LeaveTask c _ Success => Drains (c_queue c)
  | CopyOut q | WakeUp q => Drains q
  | Waking ts => Wakes ts
  | _ => Nothing
  end.

Definition blocked_in (qs : list MsgQueue) (c : request * Z) (i : nat) : Prop :=
  exists q, qs !! i = Some q /\ must_wait c q.

Definition view_of (s : system) : view (request * Z) :=
  shell reg_of duty_of (lists s) (all_entries s) (all_tasks s) (at_pc s) (fun _ _ => True) (blocked_in (queues s)).

(** The queue that a task works on. *)
Definition queue_of (p : pc) : option nat :=
  match p with
  | Try c | Check1 c | Prepare c | Recheck c _ | Check2 c _ | Asleep c _ | Leave c _ _ | LeaveTask c _ _ => Some (c_queue c)
  | CopyOut q | Setting q _ _ _ _ _ | WakeUp q => Some q
  | _ => None
  end.

Record good (s : system) : Prop := {
  good_lists : length (lists s) = length (queues s);
  good_msgs : consistent (msgs s);
  good_pcs : forall t i, queue_of (at_pc s t) = Some i -> (i < length (queues s))%nat
}.

Lemma msg_good_goto s t p :
  good s -> (forall i, queue_of p = Some i -> (i < length (queues s))%nat) -> good (goto t p s).
Proof.
  intros [H1 H2 H3] Hp. split; [done|done|]. intros t' i. cbn [at_pc goto].
  destruct (decide (t' = t)) as [->|]; [rewrite fn_lookup_insert|rewrite fn_lookup_insert_ne by done]; [apply Hp|apply H3].
Qed.

Lemma good_queue s i q q' : good s -> queues s !! i = Some q -> keeps_object q q' -> good (with_queue i q' s).
Proof.
  intros [H1 H2 H3] Hq Hk. destruct (Hk (Forall_lookup_1 _ _ _ _ (con_objects _ H2) Hq)) as [Hwf Hn].
  unfold queues, manager in *. split; unfold with_queue, with_msgs, queues, manager in *; cbn in *.
  - by rewrite length_insert.
  - destruct (msgs s) as [m l]. by eapply update_consistent.
  - rewrite length_insert. apply H3.
Qed.

Lemma msg_good_put s q w : good s -> good (put_world q w s).
Proof. intros [H1 H2 H3]. split; [cbn; by rewrite length_insert|done|done]. Qed.

Lemma msg_good_tasks s ts : good s -> good (with_tasks ts s).
Proof. by intros [H1 H2 H3]. Qed.

#[local] Hint Resolve msg_good_goto msg_good_put msg_good_tasks : core.

(** A task that moves on without a change to the rest. *)
Lemma move_on s t p :
  good s -> duty_of p = duty_of (at_pc s t) -> (forall i, queue_of p = Some i -> (i < length (queues s))%nat) ->
  (reg_of p = reg_of (at_pc s t) \/ exists r b, reg_of (at_pc s t) = Some r /\ reg_of p = Some (commit b r)
     /\ (b = true -> r_committed r = false -> blocked_in (queues s) (r_for r) (r_queue r))) ->
  good (goto t p s) /\ vsteps (view_of s) (view_of (goto t p s)).
Proof.
  intros Hg Hd Hq Hr. split; [auto|]. apply shell_moves; [done|].
  destruct Hr as [?|(r & b & ? & ? & Hb)]; [by left|right]. exists r, b. auto.
Qed.

Lemma msg_stay s t p :
  good s -> reg_of p = reg_of (at_pc s t) -> duty_of p = duty_of (at_pc s t) ->
  (queue_of p = None \/ queue_of p = queue_of (at_pc s t)) -> good (goto t p s) /\ vsteps (view_of s) (view_of (goto t p s)).
Proof.
  intros Hg Hr Hd Hq. apply move_on; auto. intros i E. apply (good_pcs _ Hg t). destruct Hq; congruence.
Qed.

Lemma msg_uncommit s t r p :
  good s -> reg_of (at_pc s t) = Some r -> reg_of p = Some (commit false r) -> duty_of p = duty_of (at_pc s t) ->
  queue_of p = queue_of (at_pc s t) -> good (goto t p s) /\ vsteps (view_of s) (view_of (goto t p s)).
Proof.
  intros Hg Hr Hp Hd Hq. apply move_on; [done|done| |right; by exists r, false].
  intros i E. apply (good_pcs _ Hg t). congruence.
Qed.

Lemma with_same_queue s i q : queues s !! i = Some q -> with_queue i q s = s.
Proof. intros Hq. unfold with_queue, with_msgs. rewrite list_insert_id by done. by destruct s as [[]]. Qed.

(** A task that changes a queue: nobody who must wait has to see it, or it owes a
    wake-up. *)
Lemma change_queue s t i q q' p :
  good s -> queues s !! i = Some q -> keeps_object q q' -> (forall j, queue_of p = Some j -> j = i) ->
  duty_of (at_pc s t) = Nothing -> reg_of p = reg_of (at_pc s t) ->
  (forall c, must_wait c q -> must_wait c q') \/ duty_of p = Drains i ->
  good (goto t p (with_queue i q' s)) /\ vsteps (view_of s) (view_of (goto t p (with_queue i q' s))).
Proof.
  intros Hg Hq Hk Hp Hd Hr Hch. split.
  - apply msg_good_goto; [by eapply good_queue|]. intros j ->%Hp. unfold queues. cbn. rewrite length_insert.
    by eapply lookup_lt_Some.
  - apply shell_change; [by left|done|done|]. intros c j _ _. split; [done|]. intros (y & Hy & Hb). unfold blocked_in, queues. cbn.
    destruct (decide (j = i)) as [->|Hne]; [|left; exists y; by rewrite list_lookup_insert_ne].
    destruct Hch as [Hch|Hch]; [left|by right]. rewrite Hq in Hy. simplify_eq. exists q'.
    rewrite list_lookup_insert_eq by (by eapply lookup_lt_Some). auto.
Qed.

(** ** Every usual step is one of the protocol *)

(** An attempt, and where the task goes in each case. *)
Lemma msg_attempt_sim now c s t q r q' p :
  good s -> queues s !! c_queue c = Some q -> attempt now c q = Done (r, q') ->
  (forall j, queue_of p = Some j -> j = c_queue c) -> duty_of (at_pc s t) = Nothing ->
  (r = Ok true -> duty_of p = Drains (c_queue c) /\ reg_of p = reg_of (at_pc s t)) ->
  (r <> Ok true -> duty_of p = Nothing /\
     (reg_of p = reg_of (at_pc s t) \/ exists rg b, reg_of (at_pc s t) = Some rg /\ reg_of p = Some (commit b rg)
        /\ (b = true -> r_for rg = (c_req c, c_flags c) /\ r_queue rg = c_queue c /\ r = Ok false))) ->
  good (goto t p (with_queue (c_queue c) q' s)) /\ vsteps (view_of s) (view_of (goto t p (with_queue (c_queue c) q' s))).
Proof.
  intros Hg Hq Ht Hp Hd Ha Hn. destruct (decide (r = Ok true)) as [Hr|Hr].
  - destruct (Ha Hr) as [Hdp Hrp]. eapply change_queue; eauto using msg_attempt_keeps.
  - destruct (attempt_rest _ _ _ _ _ Ht Hr) as [-> Hw]. destruct (Hn Hr) as [Hdp Hrp]. rewrite (with_same_queue s _ q Hq).
    apply move_on; [done|congruence|intros j ->%Hp; by eapply lookup_lt_Some|].
    destruct Hrp as [?|(rg & b & Hrg & Hc & Hb)]; [by left|right]. exists rg, b. split_and!; try done. intros Hbt _.
    destruct (Hb Hbt) as (-> & -> & ->). exists q. auto.
Qed.

Lemma made_facts c : queue_of (made c) = Some (c_queue c) /\ duty_of (made c) = Drains (c_queue c) /\ reg_of (made c) = None.
Proof. unfold made. by destruct (c_req c). Qed.

Lemma msg_try_sim now s t c s' :
  good s -> at_pc s t = Try c -> do_try now s t c = Some s' -> good s' /\ vsteps (view_of s) (view_of s').
Proof.
  intros Hg Hpc Hs. unfold do_try in Hs. destruct (queues s !! c_queue c) as [q|] eqn:Hq; [|done]. cbn in Hs.
  destruct (attempt now c q) as [[r q']|] eqn:Ha; [|done]. injection Hs as <-. destruct (made_facts c) as (Hm1 & Hm2 & Hm3).
  eapply msg_attempt_sim; try exact Ha; rewrite ?Hpc; try done; destruct r as [[]|]; rewrite ?Hm1, ?Hm2, ?Hm3; naive_solver.
Qed.

Lemma msg_recheck_sim now s t c e s' :
  good s -> at_pc s t = Recheck c e -> do_recheck now s t c e = Some s' -> good s' /\ vsteps (view_of s) (view_of s').
Proof.
  intros Hg Hpc Hs. unfold do_recheck in Hs. destruct (queues s !! c_queue c) as [q|] eqn:Hq; [|done]. cbn in Hs.
  destruct (attempt now c q) as [[r q']|] eqn:Ha; [|done]. injection Hs as <-.
  eapply msg_attempt_sim; try exact Ha; rewrite ?Hpc; try done; destruct r as [[]|]; naive_solver.
Qed.

Lemma msg_set_sim now s t i u g mode limit cred s' :
  good s -> at_pc s t = Setting i u g mode limit cred -> do_set now s t i u g mode limit cred = Some s' ->
  raises s s' i = false -> good s' /\ vsteps (view_of s) (view_of s').
Proof.
  intros Hg Hpc Hs Hr. unfold do_set in Hs. destruct (queues s !! i) as [q|] eqn:Hq; [|done]. cbn in Hs. injection Hs as <-.
  destruct (set _ _ _ _ cred now q) as [q'|] eqn:E; [|apply msg_stay; rewrite ?Hpc; auto].
  eapply change_queue; rewrite ?Hpc; eauto using set_keeps; [done|]. left. intros c. eapply set_must_wait; [exact E|].
  unfold raises in Hr. rewrite Hq in Hr. unfold queues in *. cbn in Hr.
  by rewrite list_lookup_insert_eq in Hr by (by eapply lookup_lt_Some).
Qed.

Lemma msg_remove_sim s t id cred :
  good s -> at_pc s t = Out -> good (do_remove s t id cred) /\ vsteps (view_of s) (view_of (do_remove s t id cred)).
Proof.
  intros Hg Hpc. pose proof Hg as [H1 H2 H3]. unfold do_remove, remove. pose proof (remove_objects id cred (msgs s)) as Hs.
  pose proof (remove_consistent id cred (msgs s) H2) as Hc. destruct (remove_object id cred (msgs s)) as [[i|e] w]; cbn [snd] in *.
  2: { subst w. assert (with_msgs (msgs s) s = s) as -> by (by destruct s). apply msg_stay; rewrite ?Hpc; auto. }
  destruct Hs as (q & Hq & Hw). split.
  - apply msg_good_goto; [|intros j [= <-]; unfold queues; cbn; rewrite Hw, length_insert; by eapply lookup_lt_Some].
    split; cbn; unfold queues in *; cbn; rewrite ?Hw, ?length_insert; done.
  - apply shell_change; cbn; rewrite ?Hpc; auto. intros c j _ _. split; [done|]. intros (y & Hy & Hb).
    destruct (decide (j = i)) as [->|Hne]; [by right|left]. exists y. unfold queues at 1. cbn. by rewrite Hw, list_lookup_insert_ne.
Qed.

Lemma msgget_queues key flags cred w :
  (msgget key flags cred w).2.2 = w.2 \/ (msgget key flags cred w).2.2 = w.2 ++ [new_queue key flags cred].
Proof.
  unfold msgget. destruct (key =? IPC_PRIVATE); [apply create_objects|]. destruct (by_key w.1 !! key); [by left|].
  destruct (negb _); [by left|apply create_objects].
Qed.

Lemma msgget_consistent key flags cred w : consistent w -> consistent (msgget key flags cred w).2.
Proof.
  destruct w as [m l]. intros Hcon.
  assert (Hc : (key <> IPC_PRIVATE -> by_key m !! key = None) -> consistent (create_object key (new_queue key flags cred) (m, l)).2).
  { intros Hk. pose proof (create_object_spec key (new_queue key flags cred) m l Hcon (new_queue_wf _ _ _) eq_refl eq_refl Hk) as H.
    destruct (create_object _ _ _) as [[id|e] w']; [apply H|by destruct H as [-> _]]. }
  unfold msgget. destruct (Z.eqb_spec key IPC_PRIVATE) as [->|Hk]; [by apply Hc|]. cbn [fst].
  destruct (by_key m !! key); [done|]. by destruct (negb _); [|apply Hc].
Qed.

Lemma msgget_sim s key flags cred :
  good s -> good (do_msgget s key flags cred) /\ vsteps (view_of s) (view_of (do_msgget s key flags cred)).
Proof.
  intros [H1 H2 H3]. unfold do_msgget. pose proof (msgget_consistent key flags cred (msgs s) H2) as Hc.
  assert (Hl : exists l, (msgget key flags cred (msgs s)).2.2 = queues s ++ l).
  { destruct (msgget_queues key flags cred (msgs s)) as [E|E]; rewrite E; [exists []; by rewrite app_nil_r|by eexists]. }
  destruct (msgget key flags cred (msgs s)) as [r w]. cbn [snd] in *. destruct Hl as (l & Hl). split.
  - split; [unfold queues in *; cbn; rewrite length_app, length_replicate, Hl, length_app; lia|done|].
    intros t i Hi. apply H3 in Hi. unfold queues in *. cbn in *. rewrite Hl, length_app. lia.
  - apply shell_grow; [apply new_queues|]. intros c i _. split; [done|]. intros (y & Hy & Hb). exists y.
    unfold queues at 1. cbn. rewrite Hl. split; [by apply lookup_app_l_Some|done].
Qed.

Lemma msg_leave_sim s t c e a :
  good s -> at_pc s t = Leave c e a -> good (do_leave s t c e a) /\ vsteps (view_of s) (view_of (do_leave s t c e a)).
Proof.
  intros Hg Hpc. assert (Hi : (c_queue c < length (queues s))%nat) by (apply (good_pcs _ Hg t); by rewrite Hpc). split.
  - apply msg_good_goto; [auto|]. by intros j [= <-].
  - apply (shell_leave reg_of duty_of _ _ _ _ _ _ t _ (mk_reg (c_req c, c_flags c) (c_queue c) e false)); cbn; rewrite ?Hpc; try done;
      left; by rewrite (good_lists _ Hg).
Qed.

Lemma msg_move_sim s s' : good s -> move Usual s s' -> good s' /\ vsteps (view_of s) (view_of s').
Proof.
  intros Hg Hm. inversion Hm as
    [s0 t q id req flags cred pid Hpc Hal Hq|now s0 t c s0' Hpc Hs|s0 t c sig Hpc|s0 t c Hpc Hal|now s0 t c e s0' Hpc Hs
    |s0 t c e sig Hpc|s0 t c e Hpc Ha|s0 t c e a Hpc|s0 t c e a Hpc|s0 t q ok Hpc Hok|s0 t q id u g mode limit cred Hpc Hal Hq
    |now s0 t q u g mode limit cred s0' Hpc Hs Hu|s0 t id cred Hpc Hal|s0 t key flags cred Hpc Hal|s0 t q Hpc|s0 t t' ts Hpc
    |s0 t Hpc|s0 t k k' Hk Hw]; subst.
  - apply move_on; rewrite ?Hpc; auto. intros i [= <-]. by eapply object_lookup; [apply good_msgs|].
  - by eapply msg_try_sim.
  - apply msg_stay; rewrite ?Hpc; destruct sig; auto.
  - unfold do_prepare. destruct (prepare_to_wait _ _ _) as [w e] eqn:Ep.
    assert (Hi : (c_queue c < length (queues s))%nat) by (apply (good_pcs _ Hg t); by rewrite Hpc).
    split; [apply msg_good_goto; [auto|]; by intros j [= <-]|].
    apply (shell_enter reg_of duty_of _ _ _ _ _ _ t _ (c_req c, c_flags c) (c_queue c) Sleeping w e); cbn; rewrite ?Hpc;
      try done; (exact Ep || by rewrite (good_lists _ Hg)).
  - by eapply msg_recheck_sim.
  - destruct sig; [|apply msg_stay; rewrite ?Hpc; auto].
    apply (msg_uncommit s t (mk_reg (c_req c, c_flags c) (c_queue c) e true)); by rewrite ?Hpc.
  - apply (msg_uncommit s t (mk_reg (c_req c, c_flags c) (c_queue c) e true)); by rewrite ?Hpc.
  - by apply msg_leave_sim.
  - destruct (made_facts c) as (Hm1 & Hm2 & Hm3).
    assert (Hi : (c_queue c < length (queues s))%nat) by (apply (good_pcs _ Hg t); by rewrite Hpc). split.
    + apply msg_good_goto; [auto|]. destruct a; cbn; rewrite ?Hm1; naive_solver.
    + apply shell_tasks; cbn; rewrite ?Hpc; [apply (finish_no_sleep (world_of s 0))|by destruct a; cbn; rewrite ?Hm2, ?Hm3..].
  - destruct ok; [|done]. apply msg_stay; rewrite ?Hpc; auto.
  - apply move_on; rewrite ?Hpc; auto. intros i [= <-]. by eapply object_lookup; [apply good_msgs|].
  - eapply msg_set_sim; eauto. by destruct (raises s s' q).
  - by apply msg_remove_sim.
  - by apply msgget_sim.
  - unfold do_drain. destruct (drain (world_of s q)) as [w ts] eqn:Ed. split; [by apply msg_good_goto; auto|].
    apply (shell_drain reg_of duty_of _ _ _ _ _ _ t _ q w ts); cbn; rewrite ?Hpc; try done; exact Ed.
  - split; [by apply msg_good_goto; auto|]. apply (shell_wake reg_of duty_of _ _ _ _ _ _ t _ t' ts); cbn; by rewrite ?Hpc.
  - split; [by apply msg_good_goto|]. apply shell_done; cbn; by rewrite ?Hpc.
  - split; [auto|]. eapply vsteps_once; [by apply (vs_states (view_of s)), set_task_no_sleep|done].
Qed.

(** The other two keep the invariant of the queues as well. *)
Lemma move_good i s s' : good s -> move i s s' -> good s'.
Proof.
  intros Hg Hm. destruct i; [by eapply msg_move_sim|..]; inversion Hm; subst; try done.
  - destruct ok; [done|]. by apply msg_good_goto.
  - by destruct (raises s s' q).
  - by destruct ok.
  - match goal with H : do_set _ _ _ _ _ _ _ _ _ = Some _ |- _ => rename H into Hs end. unfold do_set in Hs.
    destruct (queues s !! q) as [x|] eqn:Hx; [|done]. cbn in Hs. injection Hs as <-.
    destruct (set _ _ _ _ cred now x) as [x'|] eqn:E; apply msg_good_goto; try done. eapply good_queue; eauto using set_keeps.
Qed.

(** ** No lost wake-ups *)

(** What is left to do for a task that has changed a queue: get out of the list of
    waiters, copy the message to its user without a fault, and wake. *)
Inductive waker_move : system -> system -> Prop :=
| waker_leave s t c e : at_pc s t = Leave c e Success -> waker_move s (do_leave s t c e Success)
| waker_leave_task s t c e : at_pc s t = LeaveTask c e Success -> waker_move s (do_leave_task s t c e Success)
| waker_copy_out s t q : at_pc s t = CopyOut q -> waker_move s (do_copy_out s t q true)
| waker_drain s t q : at_pc s t = WakeUp q -> waker_move s (do_drain s t q)
| waker_wake s t t' ts : at_pc s t = Waking (t' :: ts) -> waker_move s (do_wake s t t' ts).

Lemma msg_waker_move s s' : waker_move s s' -> move Usual s s'.
Proof.
  destruct 1; eauto using move_leave, move_leave_task, move_drain, move_wake. by apply (move_copy_out s t q true).
Qed.

(** Such a step moves one task, which is not one that has decided to wait. *)
Lemma msg_waker_mover s s' :
  waker_move s s' -> exists t p, at_pc s' = <[t := p]> (at_pc s)
    /\ forall r, reg_of (at_pc s t) = Some r -> r_committed r = false.
Proof.
  destruct 1 as [s t c e Hpc|s t c e Hpc|s t q Hpc|s t q Hpc|s t t' ts Hpc]; exists t; rewrite Hpc.
  - eexists. split; [done|]. by intros r [= <-].
  - by eexists.
  - by eexists.
  - unfold do_drain. destruct (drain _). by eexists.
  - by eexists.
Qed.

(** A task that owes a wake-up gets to it. *)
Definition gets_to (t q : nat) (s : system) : Prop := exists s1, rtc waker_move s s1 /\ at_pc s1 t = WakeUp q.

Lemma msg_gets_l t q s s' : waker_move s s' -> gets_to t q s' -> gets_to t q s.
Proof. intros Hs (s1 & ? & ?). exists s1. split; [by eapply rtc_l|done]. Qed.

Lemma wake_up_gets t q s : at_pc s t = WakeUp q -> gets_to t q s.
Proof. intros H. by exists s. Qed.

Lemma copy_out_gets t q s : at_pc s t = CopyOut q -> gets_to t q s.
Proof. intros Hpc. eapply msg_gets_l; [by apply waker_copy_out|]. apply wake_up_gets. cbn. by rewrite fn_lookup_insert. Qed.

Lemma msg_leave_task_gets t c e s : at_pc s t = LeaveTask c e Success -> gets_to t (c_queue c) s.
Proof.
  intros Hpc. eapply msg_gets_l; [by apply waker_leave_task|]. unfold do_leave_task, made.
  destruct (c_req c); [apply wake_up_gets|apply copy_out_gets]; cbn; by rewrite fn_lookup_insert.
Qed.

Lemma msg_leave_gets t c e s : at_pc s t = Leave c e Success -> gets_to t (c_queue c) s.
Proof.
  intros Hpc. eapply msg_gets_l; [by apply waker_leave|]. apply (msg_leave_task_gets t c e). cbn. by rewrite fn_lookup_insert.
Qed.

Lemma msg_to_wake_up s t q : duty_of (at_pc s t) = Drains q -> gets_to t q s.
Proof.
  intros Hd. destruct (at_pc s t) eqn:Hpc; cbn in Hd; try discriminate Hd; repeat case_match; simplify_eq;
    eauto using wake_up_gets, copy_out_gets, msg_leave_task_gets, msg_leave_gets.
Qed.

Lemma msg_wakes_pc p ts : duty_of p = Wakes ts -> p = Waking ts.
Proof. destruct p; cbn; intros H; repeat case_match; by simplify_eq. Qed.

#[export] Program Instance msg_waiting : Waiting system pc (request * Z) := {
  w_at := at_pc; w_view := view_of; w_boot := boot; w_move := move Usual; w_waker := waker_move; w_good := good
}.
Next Obligation.
  intros s (Hs & Hq & _ & Hpc). split.
  - split; [rewrite Hq; unfold queues; by rewrite Hs|rewrite Hs; apply new_consistent|]. intros t i. by rewrite Hpc.
  - split; cbn; [intros t r; by rewrite Hpc|]. intros q e. rewrite Hq. by intros ?%elem_of_nil.
Qed.
Next Obligation. intros s s' Hg _ Hm. by apply msg_move_sim. Qed.
Next Obligation. apply msg_waker_move. Qed.
Next Obligation.
  intros s s' t r Hs Hr Hc. cbn in *. destruct (msg_waker_mover s s' Hs) as (t0 & p & -> & Hno).
  rewrite fn_lookup_insert_ne; [done|]. intros ->. apply Hno in Hr. congruence.
Qed.
Next Obligation.
  intros s k q _ Hk. destruct (msg_to_wake_up s k q Hk) as (s1 & Hr & Hpc).
  exists s1, (do_drain s1 k q). split_and!; [done|by constructor|cbn; by rewrite Hpc|].
  destruct (drain (v_world (view_of s1) q)) as [w ts] eqn:Ed. unfold do_drain.
  change (world_of s1 q) with (v_world (view_of s1) q). rewrite Ed.
  apply (shell_drain_view reg_of duty_of); cbn; rewrite ?Hpc; try done; exact Ed.
Qed.
Next Obligation.
  intros s k t' ts Hk. apply msg_wakes_pc in Hk. exists (do_wake s k t' ts). split; [by constructor|].
  apply (shell_wake_view reg_of duty_of); cbn; by rewrite ?Hk.
Qed.
