(* ===== verification/MsgProps.v ===== *)
(** * System V message queues: properties

    What a receive answers, that messages of a type come out in the order in which
    they went in, that no wake-up is lost as long as copies to the user succeed and
    no limit is raised, and that both of these can leave a task asleep. *)

From stdpp Require Import gmap functions.
From S2P Require Import Prelude Cred Ipc WaitQueue WaitQueueProofs Msg MsgProofs.

(** ** One receive *)


(** ** The order of messages *)

Definition of_type (t : Z) (l : list MsgMessage) : list MsgMessage := filter (fun m => mtype m = t) l.

(** One call without waiting: what it sent, what it got, and the queue. *)
Definition play_one (now : Z) (c : call) (q : MsgQueue) : exec (list MsgMessage * list ReceivedMsg * MsgQueue) :=
  match c_req c with
  | Sending t d =>
      let '(r, q) := try_send t d (c_flags c) (c_cred c) (c_pid c) now q in
      mret (match r with Ok Sent => [mk_msg t d] | _ => [] end, [], q)
  | Receiving msgtyp msgsz =>
      '(r, q) ← try_receive msgtyp msgsz (c_flags c) (c_cred c) (c_pid c) now q;
      mret ([], match r with Ok (Received x) => [x] | _ => [] end, q)
  end.

Fixpoint play (l : list (Z * call)) (q : MsgQueue) : exec (list MsgMessage * list ReceivedMsg * MsgQueue) :=
  match l with
  | [] => mret ([], [], q)
  | (now, c) :: l =>
      '(sent, got, q) ← play_one now c q;
      '(sent', got', q) ← play l q;
      mret (sent ++ sent', got ++ got', q)
  end.

(** A message that was taken and what the receiver got of it. *)
Definition delivers (m : MsgMessage) (r : ReceivedMsg) : Prop :=
  r_mtype r = mtype m /\ full_size r = Z.of_nat (length (data m)) /\ r_data r `prefix_of` data m.

(** What one call does to the order. *)
Definition in_order (q : MsgQueue) (sent : list MsgMessage) (got : list ReceivedMsg) (q' : MsgQueue) : Prop :=
  exists taken, Forall2 delivers taken (filter (fun r => copied r = false) got)
    /\ forall t, of_type t taken ++ of_type t (messages q') = of_type t (messages q ++ sent).

Lemma msg_in_order_same q : in_order q [] [] q.
Proof. exists []. split; [done|]. intros t. by rewrite app_nil_r. Qed.

Lemma msg_in_order_trans q1 q2 q3 s1 s2 g1 g2 :
  in_order q1 s1 g1 q2 -> in_order q2 s2 g2 q3 -> in_order q1 (s1 ++ s2) (g1 ++ g2) q3.
Proof.
  intros (k1 & F1 & H1) (k2 & F2 & H2). exists (k1 ++ k2). split; [rewrite filter_app; by apply Forall2_app|].
  intros t. specialize (H1 t). specialize (H2 t). unfold of_type in *. rewrite filter_app, <- app_assoc, H2.
  rewrite !filter_app in *. by rewrite app_assoc, H1, <- app_assoc.
Qed.

(** The first of its type, taken out of the middle. *)
Lemma of_type_delete t l i m :
  l !! i = Some m -> (forall k m', (k < i)%nat -> l !! k = Some m' -> mtype m' <> mtype m) ->
  of_type t l = of_type t [m] ++ of_type t (delete i l).
Proof.
  intros [E1 E2]%delete_middle Hf. unfold of_type. rewrite E2. rewrite E1 at 1. rewrite !filter_app, filter_cons, filter_cons, filter_nil.
  case_decide as Ht; [|done]. cbn. assert (filter (fun m => mtype m = t) (take i l) = []) as ->; [|done].
  destruct (filter _ (take i l)) as [|x l'] eqn:E; [done|]. exfalso.
  assert (x ∈ filter (fun m => mtype m = t) (take i l)) as [Hx Hin]%list_elem_of_filter by (rewrite E; apply list_elem_of_here).
  apply list_elem_of_lookup in Hin as (k & Hk). apply lookup_take_Some in Hk as [Hk Hlt]. apply (Hf k x Hlt Hk). congruence.
Qed.

Lemma take_in_order mode msgtyp msgsz flags pid now q x q' :
  answered mode msgtyp msgsz flags pid now q (Ok (Received x)) q' -> in_order q [] [x] q'.
Proof.
  intros (i & m & Hm & Hs & _ & -> & ->). unfold in_order. rewrite filter_cons, filter_nil. cbn [copied].
  destruct (flag flags MSG_COPY).
  { rewrite decide_False by done. exists []. split; [done|]. intros t. by rewrite app_nil_r. }
  rewrite decide_True by done. exists [m]. split.
  - repeat constructor. cbn. apply prefix_take.
  - intros t. rewrite app_nil_r. cbn [messages taken_from]. symmetry. apply of_type_delete; [done|].
    intros k m' Hk Hl. by eapply selects_first.
Qed.

Lemma play_one_in_order now c q sent got q' : play_one now c q = Done (sent, got, q') -> in_order q sent got q'.
Proof.
  unfold play_one. destruct (c_req c) as [t d|msgtyp msgsz].
  - pose proof (try_send_spec t d (c_flags c) (c_cred c) (c_pid c) now q) as H.
    destruct (try_send _ _ _ _ _ _ _) as [[[]|e] q0]; intros [= <- <- <-];
      [destruct H as (_ & _ & ->)|destruct H as [-> _]; apply msg_in_order_same..].
    exists []. split; [done|]. by intros t'.
  - pose proof (try_receive_spec msgtyp msgsz (c_flags c) (c_cred c) (c_pid c) now q) as H.
    destruct (receive_flags _ _ _); [|rewrite H; intros [= <- <- <-]; apply msg_in_order_same].
    destruct (search_mode _ _) as [mode|]; [|by rewrite H].
    destruct (receive_checks _ _ _); [|rewrite H; intros [= <- <- <-]; apply msg_in_order_same].
    destruct H as (r & q0 & -> & Ha). intros [= <- <- <-].
    destruct r as [[x|]|e]; [by eapply take_in_order|destruct Ha as [-> _]; apply msg_in_order_same..].
Qed.

(** C16. Messages of one type come out in the order in which they went in, none is lost
    and none comes out twice.  For any sequence of sends and receives in any mode:
    those that were taken, followed by those that are still there, are for each
    type exactly those that were there at the start, followed by those that were
    sent.  Each receiver got the type, the size and a prefix of what it took. *)
Theorem msg_fifo l q sent got q' :
  play l q = Done (sent, got, q') ->
  exists taken, Forall2 delivers taken (filter (fun r => copied r = false) got)
    /\ forall t, of_type t taken ++ of_type t (messages q') = of_type t (messages q ++ sent).
Proof.
  revert q sent got. induction l as [|[now c] l IH]; intros q sent got; cbn [play].
  - intros [= <- <- <-]. apply msg_in_order_same.
  - destruct (play_one now c q) as [[[s1 g1] q1]|] eqn:E1; [|done]. cbn.
    destruct (play l q1) as [[[s2 g2] q2]|] eqn:E2; [|done]. intros [= <- <- <-].
    eapply msg_in_order_trans; [by eapply play_one_in_order|by apply IH].
Qed.

Definition user : Credentials := unprivileged 1000 1000.
Definition mailbox : MsgQueue := new_queue IPC_PRIVATE 0x180 user.
Definition to_send (t : Z) (d : list Z) : Z * call := (0, mk_call 0 (Sending t d) 0 user 1).
Definition to_get (msgtyp msgsz flags : Z) : Z * call := (0, mk_call 0 (Receiving msgtyp msgsz) flags user 2).

(** Types 3, 1, 3: the least up to 3, then the first, cut to one byte. *)
Definition letters : list (Z * call) :=
  [to_send 3 [7; 8]; to_send 1 [9]; to_send 3 [6]; to_get (-3) 10 0; to_get 0 1 MSG_NOERROR].

Lemma msg_fifo_witness :
  play letters mailbox
  = Done ([mk_msg 3 [7; 8]; mk_msg 1 [9]; mk_msg 3 [6]], [mk_received 1 [9] 1 false; mk_received 3 [7] 2 false],
          mk_queue (perm mailbox) [mk_msg 3 [6]] 1 MSGMNB 0 0 0 1 2 false)
  /\ exists taken, Forall2 delivers taken [mk_received 1 [9] 1 false; mk_received 3 [7] 2 false]
       /\ forall t, of_type t taken ++ of_type t [mk_msg 3 [6]] = of_type t [mk_msg 3 [7; 8]; mk_msg 1 [9]; mk_msg 3 [6]].
Proof.
  split; [vm_compute; reflexivity|].
  exact (msg_fifo letters mailbox _ _ (mk_queue (perm mailbox) [mk_msg 3 [6]] 1 MSGMNB 0 0 0 1 2 false)
           ltac:(vm_compute; reflexivity)).
Defined.

(** ** No bound on empty messages *)

(** The limit of a queue counts bytes only.  Any number of empty messages can be
    put into a queue, by anybody who may write to it, and it never gets full. *)
Theorem msg_empty_unbounded n :
  exists q, play (replicate n (to_send 1 [])) mailbox = Done (replicate n (mk_msg 1 []), [], q)
    /\ messages q = replicate n (mk_msg 1 []) /\ bytes q = 0.
Proof.
  assert (Hgen : forall k q, perm q = perm mailbox -> removed q = false -> bytes q = 0 -> qbytes q = MSGMNB ->
    messages q = replicate k (mk_msg 1 []) ->
    exists q', play (replicate n (to_send 1 [])) q = Done (replicate n (mk_msg 1 []), [], q')
      /\ messages q' = replicate (k + n) (mk_msg 1 []) /\ bytes q' = 0);
    [|destruct (Hgen 0%nat mailbox eq_refl eq_refl eq_refl eq_refl eq_refl) as (q & ? & ? & ?); by exists q].
  induction n as [|m IH]; intros k q Hp Hr Hb Hl Hm; cbn [replicate play].
  { exists q. by rewrite Nat.add_0_r. }
  destruct (IH (S k) (sent_to 1 [] 1 0 q)) as (q' & E & Hm' & Hb'); cbn; [done|done|by rewrite Hb|done| |].
  { rewrite Hm. symmetry. apply replicate_S_end. }
  exists q'. split; [|by rewrite Hm', Nat.add_succ_r]. unfold play_one, to_send. cbn [c_req].
  assert (Hc : send_checks 1 [] 0 user q = Ok ()) by (unfold send_checks, refuse; rewrite Hp, Hr; vm_compute; reflexivity).
  assert (Hn : no_room 0 q = false) by (unfold no_room; rewrite Hb, Hl; vm_compute; reflexivity).
  cbn [c_flags c_cred c_pid]. unfold try_send. rewrite Hc. change (no_room _ q) with (no_room 0 q). rewrite Hn. cbn.
  unfold sent_to in E. cbn in E. unfold to_send in E. rewrite E. done.
Qed.

(** ** Running the system *)

(** The next step of a task that is under way, without signals; [ok] tells whether
    a copy to its user succeeds. *)
Definition advance (ok : bool) (s : system) (t : nat) : option (incident * system) :=
  match at_pc s t with
  | Out => None
  | Try c => (fun s' => (Usual, s')) <$> do_try 0 s t c
  | Check1 c => Some (Usual, goto t (Prepare c) s)
  | Prepare c => if bool_decide (is_Some (all_tasks s !! t)) then Some (Usual, do_prepare s t c) else None
  | Recheck c e => (fun s' => (Usual, s')) <$> do_recheck 0 s t c e
  | Check2 c e => Some (Usual, goto t (Asleep c e) s)
  | Asleep c e => if bool_decide (asleep (world_of s 0) t) then None else Some (Usual, goto t (Leave c e Retry) s)
  | Leave c e a => Some (Usual, do_leave s t c e a)
  | LeaveTask c e a => Some (Usual, do_leave_task s t c e a)
  | CopyOut q => Some (if ok then Usual else Fault, do_copy_out s t q ok)
  | Setting q u g mode limit cred =>
      s' ← do_set 0 s t q u g mode limit cred; Some (if raises s s' q then Raise else Usual, s')
  | WakeUp q => Some (Usual, do_drain s t q)
  | Waking [] => Some (Usual, goto t Out s)
  | Waking (t' :: ts) => Some (Usual, do_wake s t t' ts)
  end.

Lemma advance_moves ok s t i s' : advance ok s t = Some (i, s') -> move i s s'.
Proof.
  unfold advance. intros H.
  destruct (at_pc s t) as [|c|c|c|c e|c e|c e|c e a|c e a|q|q u g mode limit cred|q|[|t' ts]] eqn:Hpc.
  - done.
  - destruct (do_try 0 s t c) eqn:E; simplify_eq/=. by eapply move_try.
  - simplify_eq. by apply (move_check1 s t c false).
  - case_bool_decide; [|done]. simplify_eq. by apply move_prepare.
  - destruct (do_recheck 0 s t c e) eqn:E; simplify_eq/=. by eapply move_recheck.
  - simplify_eq. by apply (move_check2 s t c e false).
  - case_bool_decide; [done|]. simplify_eq. by apply move_resume.
  - simplify_eq. by apply move_leave.
  - simplify_eq. by apply move_leave_task.
  - simplify_eq. by apply move_copy_out.
  - destruct (do_set _ _ _ _ _ _ _ _ _) eqn:E; [|done]. simplify_eq/=. by eapply move_set.
  - simplify_eq. by apply move_drain.
  - simplify_eq. by apply move_woken.
  - simplify_eq. by apply move_wake.
Qed.

(** Calls, and steps of tasks that are under way. *)
Inductive act : Type :=
| Msgget (t : nat) (key flags : Z)
| Call (t : nat) (id : Z) (req : request)
| Set_limit (t : nat) (id limit : Z)
| Go (t : nat) (ok : bool).

Definition idle (s : system) (t : nat) : bool :=
  match at_pc s t with Out => bool_decide (is_Some (all_tasks s !! t)) | _ => false end.

Definition perform (a : act) (s : system) : option (incident * system) :=
  match a with
  | Msgget t key flags => if idle s t then Some (Usual, do_msgget s key flags user) else None
  | Call t id req =>
      match idle s t, queue_for_operation (manager s) id with
      | true, Ok q => Some (Usual, goto t (Try (mk_call q req 0 user (Z.of_nat t))) s)
      | _, _ => None
      end
  | Set_limit t id limit =>
      match idle s t, queue_for_operation (manager s) id with
      | true, Ok q => Some (Usual, goto t (Setting q 1000 1000 0x180 limit user) s)
      | _, _ => None
      end
  | Go t ok => advance ok s t
  end.

Lemma msg_idle s t : idle s t = true -> at_pc s t = Out /\ is_Some (all_tasks s !! t).
Proof. unfold idle. destruct (at_pc s t); try done. by intros ?%bool_decide_eq_true. Qed.

Lemma perform_moves a s i s' : perform a s = Some (i, s') -> move i s s'.
Proof.
  destruct a as [t key flags|t id req|t id limit|t ok]; cbn; [..|apply advance_moves];
    destruct (idle s t) eqn:E; try done; apply msg_idle in E as [Ho Hal].
  - intros [= <- <-]. by apply (move_msgget s t).
  - destruct (queue_for_operation _ _) eqn:Eq; [|done]. intros [= <- <-]. by eapply move_call.
  - destruct (queue_for_operation _ _) eqn:Eq; [|done]. intros [= <- <-]. by eapply move_msgctl.
Qed.

(** The incidents of a run, and where it ends. *)
Fixpoint run (l : list act) (s : system) : option (list incident * system) :=
  match l with
  | [] => Some ([], s)
  | a :: l => '(i, s) ← perform a s; '(h, s) ← run l s; Some (i :: h, s)
  end.

Definition any_move (s s' : system) : Prop := exists i, move i s s'.

Lemma run_any l s h s' : run l s = Some (h, s') -> rtc any_move s s' /\ (Forall (eq Usual) h -> rtc (move Usual) s s').
Proof.
  revert s h. induction l as [|a l IH]; intros s h; cbn; [by intros [= <- <-]|].
  destruct (perform a s) as [[i s1]|] eqn:E; [|done]. cbn. destruct (run l s1) as [[h1 s2]|] eqn:Er; [|done].
  intros [= <- <-]. destruct (IH _ _ Er) as [H1 H2]. apply perform_moves in E. split.
  - eapply rtc_l; [by exists i|done].
  - intros [<- ?]%Forall_cons. eapply rtc_l; [done|auto].
Qed.

Definition start : system :=
  mk_system (new_manager, []) [] [] {[1%nat := mk_task Running false; 2%nat := mk_task Running false]} (fun _ => Out).

Definition after_run (l : list act) : system := default start (snd <$> run l start).
Definition usual_run (l : list act) : bool :=
  match run l start with Some (h, _) => forallb (fun i => match i with Usual => true | _ => false end) h | None => false end.

Lemma after_usual l : usual_run l = true -> rtc (move Usual) start (after_run l).
Proof.
  unfold usual_run, after_run. destruct (run l start) as [[h s]|] eqn:E; [|done]. intros Hu. apply run_any in E as [_ H].
  apply H. clear -Hu. induction h as [|[] h IH]; cbn in Hu; try done. constructor; auto.
Qed.

Lemma after_any l : match run l start with Some _ => true | None => false end = true -> rtc any_move start (after_run l).
Proof. unfold after_run. destruct (run l start) as [[h s]|] eqn:E; [|done]. intros _. by apply run_any in E as [? _]. Qed.

(** ** Waiting *)

(** C14. Waiting for room and for messages, for any number of tasks and queues and all
    interleavings of [msgsnd], [msgrcv], [msgctl] and [msgget] in which copies to
    users succeed and [IPC_SET] raises no limit: a task that sleeps while its queue
    is gone, has room for its message or has one for it, is on its way to be woken.
    What is left to do for the tasks that changed the queue, without any other step,
    makes it runnable, and it is runnable when nothing is left. *)
Theorem msg_no_lost_wakeup s0 s t c e :
  boot s0 -> rtc (move Usual) s0 s -> at_pc s t = Asleep c e -> ~ blocked_in (queues s) (c_req c, c_flags c) (c_queue c) ->
  (exists s', rtc waker_move s s' /\ ~ asleep (world_of s' 0) t /\ at_pc s' t = Asleep c e)
  /\ ((forall k, duty_of (at_pc s k) = Nothing \/ duty_of (at_pc s k) = Wakes []) -> ~ asleep (world_of s 0) t).
Proof.
  intros Hb Hr Hpc Hn.
  destruct (no_lost_wakeup (W := msg_waiting) s0 s t (mk_reg (c_req c, c_flags c) (c_queue c) e true) Hb Hr)
    as [(s' & Hw & Ha & Hat) Hrest]; [cbn; by rewrite Hpc|done|exact Hn|].
  split; [exists s'; cbn in Hat; by rewrite <- Hpc|exact Hrest].
Qed.

(** A queue with a limit of one byte that is full; process 2 waits to send. *)
Definition full_run : list act :=
  [Msgget 1 IPC_PRIVATE 0x180; Set_limit 1 1 1; Go 1 true; Call 1 1 (Sending 1 [5]); Go 1 true; Go 1 true; Go 1 true;
   Call 2 1 (Sending 1 [6])] ++ replicate 5 (Go 2 true).
(** Process 1 takes the message and has not copied it yet. *)
Definition taken_run : list act := full_run ++ [Call 1 1 (Receiving 0 1); Go 1 true].
Definition second : call := mk_call 0 (Sending 1 [6]) 0 user 2.

Lemma not_blocked s c i q :
  queues s !! i = Some q -> (match c.1 with Sending _ d => no_room (Z.of_nat (length d)) q = false | _ => False end) ->
  ~ blocked_in (queues s) c i.
Proof. intros Hq Hn (x & Hx & _ & Hw). simplify_eq. destruct (c.1); [congruence|done]. Qed.

Lemma msg_no_lost_wakeup_witness :
  asleep (world_of (after_run taken_run) 0) 2
  /\ (exists s', rtc waker_move (after_run taken_run) s' /\ ~ asleep (world_of s' 0) 2 /\ at_pc s' 2%nat = Asleep second 0)
  /\ ((forall k, duty_of (at_pc (after_run taken_run) k) = Nothing \/ duty_of (at_pc (after_run taken_run) k) = Wakes [])
      -> ~ asleep (world_of (after_run taken_run) 0) 2).
Proof.
  split; [exists (mk_task Sleeping false); split; vm_compute; reflexivity|].
  apply (msg_no_lost_wakeup start (after_run taken_run) 2 second 0);
    [done|apply after_usual; vm_compute; reflexivity|vm_compute; reflexivity|].
  eapply not_blocked; [vm_compute; reflexivity|]. vm_compute. reflexivity.
Defined.

(** Process 1 takes the message, but its address is bad. *)
Definition fault_run : list act := taken_run ++ [Go 1 false].



(** ** The queues *)

(** Whatever the tasks do, faults and raised limits included: the numbers that are
    handed out stand one to one for the queues that are not removed, and the keys
    for those of them that have one; the count of bytes of a queue is the sum of the
    sizes of its messages, all of which have a positive type and at most [MSGMAX]
    bytes. *)
Theorem msg_queues_invariant s0 s :
  boot s0 -> rtc any_move s0 s -> consistent (msgs s) /\ length (lists s) = length (queues s).
Proof.
  intros Hb Hr. assert (Hg : good s0) by (by apply (w_boot_good (Waiting := msg_waiting))). clear Hb.
  induction Hr as [s|s s1 s2 [i Hi] _ IH]; [by destruct Hg|]. by eapply IH, move_good.
Qed.

Lemma msg_queues_invariant_witness :
  bytes <$> queues (after_run fault_run) = [0]
  /\ consistent (msgs (after_run fault_run)) /\ length (lists (after_run fault_run)) = length (queues (after_run fault_run)).
Proof.
  split; [vm_compute; reflexivity|]. apply (msg_queues_invariant start); [done|apply after_any; vm_compute; reflexivity].
Defined.
