(* ===== verification/Mqueue.v ===== *)
(** * POSIX message queues

    The model of [general/src/ipc/mqueue.rs], of the descriptors and the directory
    of [general/src/vfs/mqueue.rs], and of the calls of
    [kernel/src/syscalls/ipc.rs] on them.  Each operation of a queue is one critical
    section of its lock: [try_send] and [try_receive] read [msgsize] in a section of
    its own, but that never changes.  Waiting for room and for messages is a system
    of tasks whose steps interleave, one per critical section. *)

From stdpp Require Import gmap functions strings.
From S2P Require Import Prelude Cred Ipc WaitQueue WaitQueueProofs.

(** ** Constants *)

Definition MQ_PRIO_MAX : Z := 32768.
Definition MQ_DEFAULT_MAXMSG : Z := 10.
Definition MQ_DEFAULT_MSGSIZE : Z := 8192.
Definition MQ_MAXMSG_MAX : Z := 65536.
Definition MQ_MSGSIZE_MAX : Z := 65536.
Definition MQ_QUEUES_MAX : Z := 256.
Definition MQ_NAME_MAX : Z := 255.
Definition SIGEV_SIGNAL : Z := 0.
Definition SIGEV_NONE : Z := 1.
Definition SIGEV_THREAD : Z := 2.

(** ** Messages and notifications *)

Record MqAttr : Type := mk_attr { attr_maxmsg : Z; attr_msgsize : Z; attr_curmsgs : Z }.
Definition default_new : MqAttr := mk_attr MQ_DEFAULT_MAXMSG MQ_DEFAULT_MSGSIZE 0.

Record MqMessage : Type := mk_msg { priority : Z; data : list Z }.
Inductive MqNotifyKind : Type := NotifyNone | Signal (signo value : Z) | Thread (function value : Z).
Record MqNotification : Type := mk_notification { kind : MqNotifyKind; notify_pid : Z; sender_pid : Z; sender_uid : Z }.

#[export] Instance MqMessage_eq_dec : EqDecision MqMessage.
Proof. solve_decision. Defined.
#[export] Instance MqNotifyKind_eq_dec : EqDecision MqNotifyKind.
Proof. solve_decision. Defined.

(** ** Queues *)

(** [MqInner]; the observers of its state are left out. *)
Record MqObject : Type := mk_mq {
  perm_uid : Z; perm_gid : Z; perm_mode : FileMode;
  maxmsg : Z; msgsize : Z;
  messages : gmap Z (list MqMessage);
  curmsgs : Z;
  notify : option MqNotification;
  removed : bool
}.

Definition new_mq (a : MqAttr) (mode : FileMode) (cred : Credentials) : MqObject :=
  mk_mq (euid cred) (egid cred) (mask mode PERM_MASK) (attr_maxmsg a) (attr_msgsize a) ∅ 0 None false.

Definition with_messages (m : gmap Z (list MqMessage)) (n : Z) (o : option MqNotification) (q : MqObject) : MqObject :=
  mk_mq (perm_uid q) (perm_gid q) (perm_mode q) (maxmsg q) (msgsize q) m n o (removed q).
Definition with_notify (o : option MqNotification) (q : MqObject) : MqObject :=
  with_messages (messages q) (curmsgs q) o q.
Definition mark_removed (q : MqObject) : MqObject :=
  mk_mq (perm_uid q) (perm_gid q) (perm_mode q) (maxmsg q) (msgsize q) (messages q) (curmsgs q) (notify q) true.

Definition attr (q : MqObject) : MqAttr := mk_attr (maxmsg q) (msgsize q) (curmsgs q).

Definition validate_attr (a : MqAttr) (cred : Credentials) : result unit Errno :=
  let? _ := refuse ((attr_maxmsg a <? 1) || (attr_msgsize a <? 1)) EINVAL in
  let maxmsg_max := if has_cap cred SysResource then MQ_MAXMSG_MAX else MQ_DEFAULT_MAXMSG in
  let msgsize_max := if has_cap cred SysResource then MQ_MSGSIZE_MAX else MQ_DEFAULT_MSGSIZE in
  refuse ((maxmsg_max <? attr_maxmsg a) || (msgsize_max <? attr_msgsize a)) EINVAL.

Definition validate_priority (p : Z) : result unit Errno := refuse (MQ_PRIO_MAX <=? p) EINVAL.

Definition check_access (write : bool) (cred : Credentials) (q : MqObject) : result unit Errno :=
  let? _ := refuse (removed q) EINVAL in
  let allowed :=
    if write then can_write cred (perm_uid q) (perm_gid q) (perm_mode q)
    else can_read cred (perm_uid q) (perm_gid q) (perm_mode q) in
  if allowed then Ok () else Err EACCES.

Definition full (q : MqObject) : bool := maxmsg q <=? curmsgs q.

(** [entry(p).or_default().push_back(m)]. *)
Definition push_message (m : MqMessage) (l : gmap Z (list MqMessage)) : gmap Z (list MqMessage) :=
  <[priority m := default [] (l !! priority m) ++ [m]]> l.

(** Whether the message was sent, and the notification that is due. *)
Definition try_send (p : Z) (d : list Z) (pid uid : Z) (nonblock : bool) (q : MqObject)
  : result (bool * option MqNotification) Errno * MqObject :=
  match validate_priority p with
  | Err e => (Err e, q)
  | Ok _ =>
      if msgsize q <? Z.of_nat (length d) then (Err EMSGSIZE, q)
      else if full q then (if nonblock then (Err EAGAIN, q) else (Ok (false, None), q))
      else
        let was_empty := curmsgs q =? 0 in
        let due := if was_empty then (fun n => mk_notification (kind n) (notify_pid n) pid uid) <$> notify q else None in
        (Ok (true, due),
         with_messages (push_message (mk_msg p d) (messages q)) (curmsgs q + 1) (if was_empty then None else notify q) q)
  end.

(** [iter_mut().next_back()] of a [BTreeMap]. *)
Definition next_back {A} (m : gmap Z A) : option (Z * A) := last (btree_iter m).

Definition try_receive (maxsize : Z) (nonblock : bool) (q : MqObject) : exec (result (option MqMessage) Errno * MqObject) :=
  if as_isize maxsize <? msgsize q then mret (Err EMSGSIZE, q)
  else
    match next_back (messages q) with
    | None => mret (if nonblock then Err EAGAIN else Ok None, q)
    | Some (p, l) =>
        m ← unwrap (head l);
        let rest := tail l in
        let left := if bool_decide (rest = []) then delete p (messages q) else <[p := rest]> (messages q) in
        (* [curmsgs -= 1] panics below zero *)
        n ← unwrap (checked_sub (curmsgs q) 1);
        mret (Ok (Some m), with_messages left n (notify q) q)
    end.

Definition register_notify (k : MqNotifyKind) (pid : Z) (q : MqObject) : result unit Errno * MqObject :=
  if bool_decide (k = NotifyNone) then (Ok (), with_notify None q)
  else if removed q then (Err EINVAL, q)
  else if match notify q with Some n => negb (notify_pid n =? pid) | None => false end then (Err EBUSY, q)
  else (Ok (), with_notify (Some (mk_notification k pid 0 0)) q).

Definition has_messages (q : MqObject) : bool := negb (curmsgs q =? 0).
Definition has_space (q : MqObject) : bool := (curmsgs q <? maxmsg q) && negb (removed q).

(** ** The registry *)

(** The names, and the queues that were ever made; a queue is named by its place
    among them, as the [Arc] that the source holds. *)
Definition MqRegistry : Type := gmap string nat * list MqObject.
Definition new_registry : MqRegistry := (∅, []).

Definition SLASH : Ascii.ascii := Ascii.ascii_of_nat 47.
Fixpoint contains_slash (s : string) : bool :=
  match s with
  | EmptyString => false
  | String c s => Ascii.eqb c SLASH || contains_slash s
  end.

Definition validate_name (name : string) : result unit Errno :=
  match name with
  | EmptyString => Err EINVAL
  | String c rest =>
      let? _ := refuse (negb (Ascii.eqb c SLASH)) EINVAL in
      let? _ := refuse (contains_slash rest) EINVAL in
      refuse (MQ_NAME_MAX <? Z.of_nat (String.length name)) ENAMETOOLONG
  end.

Definition open (name : string) (create excl : bool) (a : option MqAttr) (mode : FileMode) (cred : Credentials) (w : MqRegistry)
  : result nat Errno * MqRegistry :=
  match validate_name name with
  | Err e => (Err e, w)
  | Ok _ =>
      match w.1 !! name with
      | Some i => (if create && excl then Err EEXIST else Ok i, w)
      | None =>
          if negb create then (Err ENOENT, w)
          else if MQ_QUEUES_MAX <=? Z.of_nat (size w.1) then (Err ENOSPC, w)
          else
            let a := default default_new a in
            match validate_attr a cred with
            | Err e => (Err e, w)
            | Ok _ => (Ok (length w.2), (<[name := length w.2]> w.1, w.2 ++ [new_mq a mode cred]))
            end
      end
  end.

(** The queue that lost its name. *)
Definition unlink (name : string) (w : MqRegistry) : result nat Errno * MqRegistry :=
  match validate_name name with
  | Err e => (Err e, w)
  | Ok _ =>
      match w.1 !! name with
      | None => (Err ENOENT, w)
      | Some i =>
          match w.2 !! i with
          | None => (Err ENOENT, w)
          | Some q =>
              if removed q then (Err ENOENT, w) else (Ok i, (delete name w.1, <[i := mark_removed q]> w.2))
          end
      end
  end.

(** ** Descriptors *)

Inductive AccessMode : Type := ReadOnly | WriteOnly | ReadWrite.
Definition readable (a : AccessMode) : bool := match a with WriteOnly => false | _ => true end.
Definition writable (a : AccessMode) : bool := match a with ReadOnly => false | _ => true end.

(** An open file: its flags, and the flag that [MqFileShared] keeps. *)
Record MqFile : Type := mk_file { f_queue : nat; f_access : AccessMode; f_nonblock : bool; shared_nonblock : bool }.

Definition O_ACCMODE : Z := 0x3.
Definition O_CREAT : Z := 0x40.
Definition O_EXCL : Z := 0x80.
Definition O_NONBLOCK : Z := 0x800.
Definition O_CLOEXEC : Z := 0x80000.
Definition oflag_has (oflag f : Z) : bool := negb (Z.land oflag f =? 0).

Definition access_of (oflag : Z) : result AccessMode Errno :=
  match Z.land oflag O_ACCMODE with
  | 0 => Ok ReadOnly
  | 1 => Ok WriteOnly
  | 2 => Ok ReadWrite
  | _ => Err EINVAL
  end.

(** The mode of a new queue; [umask] is that of the process, if it has one. *)
Definition created_mode (mode : Z) (umask : option FileMode) : FileMode :=
  let m := Z.land (Z.land mode U16_MAX) 0x1ff in
  match umask with Some u => Z.land m (Z.lxor U16_MAX u) | None => m end.

Definition check_open (access : AccessMode) (cred : Credentials) (q : MqObject) : result unit Errno :=
  let? _ := (if readable access then check_access false cred q else Ok ()) in
  if writable access then check_access true cred q else Ok ().

(** [sys_mq_open] after its arguments are copied in, up to the queue. *)
Definition open_request (name : string) (oflag mode : Z) (a : option MqAttr) (umask : option FileMode) (cred : Credentials)
  (w : MqRegistry) : result (nat * AccessMode) Errno * MqRegistry :=
  if oflag_has oflag (Z.lxor U64_MAX (Z.lor (Z.lor (Z.lor (Z.lor O_ACCMODE O_CREAT) O_EXCL) O_NONBLOCK) O_CLOEXEC))
  then (Err EINVAL, w)
  else
    match access_of oflag with
    | Err e => (Err e, w)
    | Ok access =>
        let '(r, w) := open name (oflag_has oflag O_CREAT) (oflag_has oflag O_EXCL) a (created_mode mode umask) cred w in
        (let? i := r in Ok (i, access), w)
    end.

(** The rest of it; [slot] is what the table of descriptors answers. *)
Definition finish_open (i : nat) (access : AccessMode) (oflag : Z) (cred : Credentials) (slot : result nat Errno)
  (q : MqObject) (fs : gmap nat MqFile) : result nat Errno * gmap nat MqFile :=
  match check_open access cred q, slot with
  | Err e, _ | _, Err e => (Err e, fs)
  | Ok _, Ok fd =>
      let nonblock := oflag_has oflag O_NONBLOCK in (Ok fd, <[fd := mk_file i access nonblock nonblock]> fs)
  end.

Definition sys_mq_open (name : string) (oflag mode : Z) (a : option MqAttr) (umask : option FileMode) (cred : Credentials)
  (slot : result nat Errno) (w : MqRegistry) (fs : gmap nat MqFile) : exec (result nat Errno * (MqRegistry * gmap nat MqFile)) :=
  match open_request name oflag mode a umask cred w with
  | (Err e, w) => mret (Err e, (w, fs))
  | (Ok (i, access), w) =>
      (* the queue of an [Arc] is there *)
      q ← unwrap (w.2 !! i);
      let '(r, fs) := finish_open i access oflag cred slot q fs in mret (r, (w, fs))
  end.

(** The argument of [mq_notify]: value, signal, kind and function. *)
Record sigevent : Type := mk_sigevent { sigev_value : Z; sigev_signo : Z; sigev_notify : Z; sigev_function : Z }.

Definition notify_kind (ev : sigevent) : result MqNotifyKind Errno :=
  if sigev_notify ev =? SIGEV_NONE then Ok NotifyNone
  else if sigev_notify ev =? SIGEV_SIGNAL then Ok (Signal (sigev_signo ev) (sigev_value ev))
  else if sigev_notify ev =? SIGEV_THREAD then Ok (Thread (sigev_function ev) (sigev_value ev))
  else Err EINVAL.

(** [sys_mq_notify] up to the registration: its kind and process. *)
Definition notify_request (ev : option sigevent) (cred : Credentials) (pid : Z) (q : MqObject)
  : result (MqNotifyKind * Z) Errno :=
  match ev with
  | None => Ok (NotifyNone, 0)
  | Some ev =>
      let? k := notify_kind ev in
      if bool_decide (k = NotifyNone) then Ok (NotifyNone, 0)
      else let? _ := check_access false cred q in Ok (k, pid)
  end.

Definition sys_mq_notify (ev : option sigevent) (cred : Credentials) (pid : Z) (q : MqObject) : result unit Errno * MqObject :=
  match notify_request ev cred pid q with
  | Err e => (Err e, q)
  | Ok (k, pid) => register_notify k pid q
  end.

(** The new flags, if any, and the old attributes with the flags. *)
Definition sys_mq_getsetattr (newflags : option Z) (cred : Credentials) (q : MqObject) (f : MqFile)
  : result (Z * MqAttr) Errno * MqFile :=
  let flags_of f := if f_nonblock f then O_NONBLOCK else 0 in
  let set :=
    match newflags with
    | None => Ok f
    | Some flags =>
        let? _ := check_access false cred q in
        let? _ := refuse (oflag_has flags (Z.lxor U64_MAX O_NONBLOCK)) EINVAL in
        Ok (if flags =? flags_of f then f
            else mk_file (f_queue f) (f_access f) (oflag_has flags O_NONBLOCK) (shared_nonblock f))
    end in
  match set with
  | Err e => (Err e, f)
  | Ok f => (Ok (flags_of f, attr q), f)
  end.

(** [read_mq_deadline]: an absolute time of day, as a time of the other clock. *)
Definition read_mq_deadline (seconds nanoseconds now_realtime now : Z) : result Z Errno :=
  let? _ := refuse ((seconds <? 0) || negb ((0 <=? nanoseconds) && (nanoseconds <? 1000000000))) EINVAL in
  let? abs := (if U64_MAX <? seconds * 1000000000 then Err EINVAL
               else ok_or (checked_add (seconds * 1000000000) nanoseconds) EINVAL) in
  Ok (saturating_add now (saturating_sub abs now_realtime)).

(** ** Reading, writing and polling *)

Inductive VfsError : Type :=
| WouldBlock | MessageTooLong | InvalidArgument | PermissionDenied | NotFound | AlreadyExists | NameTooLong
| TooManyOpenFiles | NoSpace | OperationNotPermitted | BadFileDescriptor | Io.

Definition errno_to_vfs (e : Errno) : VfsError :=
  match e with
  | EAGAIN => WouldBlock | EMSGSIZE => MessageTooLong | EINVAL => InvalidArgument | EACCES => PermissionDenied
  | ENOENT => NotFound | EEXIST => AlreadyExists | ENAMETOOLONG => NameTooLong | EMFILE => TooManyOpenFiles
  | ENOSPC => NoSpace | EPERM => OperationNotPermitted | _ => Io
  end.

(** The bytes that [read_at] puts into a buffer of a length. *)
Definition read_at (len : Z) (nonblock : bool) (q : MqObject) : exec (result (list Z) VfsError * MqObject) :=
  '(r, q) ← try_receive len nonblock q;
  mret (match r with
        | Ok (Some m) => Ok (take (Z.to_nat (Z.min (Z.of_nat (length (data m))) len)) (data m))
        | Ok None => Err WouldBlock
        | Err e => Err (errno_to_vfs e)
        end, q).

(** The length, and the notification that is dispatched. *)
Definition write_at (buf : list Z) (nonblock : bool) (q : MqObject) : result Z VfsError * option MqNotification * MqObject :=
  match try_send 0 buf 0 0 nonblock q with
  | (Ok (true, due), q) => (Ok (Z.of_nat (length buf)), due, q)
  | (Ok (false, _), q) => (Err WouldBlock, None, q)
  | (Err e, q) => (Err (errno_to_vfs e), None, q)
  end.

Definition POLLIN : Z := 0x1.
Definition POLLOUT : Z := 0x4.
Definition POLLHUP : Z := 0x10.

Definition readiness (q : MqObject) : Z :=
  Z.lor (Z.lor (if has_messages q then POLLIN else 0) (if has_space q then POLLOUT else 0))
    (if removed q then POLLHUP else 0).
Definition poll (interest : Z) (q : MqObject) : Z := Z.land (readiness q) interest.

(** ** The directory *)

Definition root_lookup (name : string) (w : MqRegistry) : result unit VfsError :=
  if bool_decide (name = "."%string) || bool_decide (name = ".."%string) then Err NotFound
  else match (open name false false None 0x180 root w).1 with Ok _ => Ok () | Err e => Err (errno_to_vfs e) end.

Definition root_create (name : string) (mode : FileMode) (cred : Credentials) (w : MqRegistry)
  : result unit VfsError * MqRegistry :=
  let '(r, w) := open name true true None mode cred w in
  (match r with Ok _ => Ok () | Err e => Err (errno_to_vfs e) end, w).

(** The queue whose waiters are to be woken. *)
Definition root_unlink (name : string) (w : MqRegistry) : result nat VfsError * MqRegistry :=
  let '(r, w) := unlink name w in
  (match r with Ok i => Ok i | Err e => Err (errno_to_vfs e) end, w).

(** [open] of the file of a queue; [path_only] is among the options. *)
Definition inode_open (name : string) (access : AccessMode) (path_only nonblock : bool) (cred : Credentials) (w : MqRegistry)
  : result MqFile VfsError :=
  match (open name false false None 0x180 cred w).1 with
  | Err e => Err (errno_to_vfs e)
  | Ok i =>
      match w.2 !! i with
      | None => Err NotFound
      | Some q =>
          if path_only then Err BadFileDescriptor
          else match check_open access cred q with
               | Err e => Err (errno_to_vfs e)
               | Ok _ => Ok (mk_file i access nonblock nonblock)
               end
      end
  end.

(** ** Waiting *)

(** Each queue has a list of tasks that wait to send and one of those that wait to
    receive. *)
Definition senders (i : nat) : nat := 2 * i.
Definition receivers (i : nat) : nat := 2 * i + 1.

Inductive request : Type := Sending (p : Z) (d : list Z) (pid uid : Z) | Receiving (maxsize : Z).

(** A call of [sys_mq_timedsend] or [sys_mq_timedreceive], and whether it has a
    deadline. *)
Record call : Type := mk_call { c_queue : nat; c_req : request; c_nonblock : bool; c_deadline : bool }.

Definition timedsend (f : MqFile) (msg_prio : Z) (d : list Z) (pid uid : Z) (deadline : bool) : call :=
  mk_call (f_queue f) (Sending (Z.land msg_prio U32_MAX) d pid uid) (f_nonblock f) deadline.
Definition timedreceive (f : MqFile) (msg_len : Z) (deadline : bool) : call :=
  mk_call (f_queue f) (Receiving msg_len) (f_nonblock f) deadline.

(** Where the call waits, and whom it wakes. *)
Definition waits_in (c : call) : nat :=
  match c_req c with Sending _ _ _ _ => senders (c_queue c) | Receiving _ => receivers (c_queue c) end.
Definition wakes_in (c : call) : nat :=
  match c_req c with Sending _ _ _ _ => receivers (c_queue c) | Receiving _ => senders (c_queue c) end.

(** One attempt: whether the operation was made. *)
Definition attempt (c : call) (q : MqObject) : exec (result bool Errno * MqObject) :=
  match c_req c with
  | Sending p d pid uid =>
      let '(r, q) := try_send p d pid uid (c_nonblock c) q in
      mret (match r with Ok (sent, _) => Ok sent | Err e => Err e end, q)
  | Receiving maxsize =>
      '(r, q) ← try_receive maxsize (c_nonblock c) q;
      mret (match r with Ok (Some _) => Ok true | Ok None => Ok false | Err e => Err e end, q)
  end.

(** What a task does after it has woken the waiters of a list: return, leave the
    list it is in, or go on with another list. *)
Inductive next : Type := Return | LeaveWith (c : call) (e : nat) | ThenWake (q : nat).

(** Where a task is. *)
Inductive pc : Type :=
| Out
| Try (c : call)
| Check1 (c : call)
| Prepare (c : call)
| Arm (c : call) (e : nat)
| Recheck (c : call) (e : nat)
| Check2 (c : call) (e : nat)
| Asleep (c : call) (e : nat)
| Leave (c : call) (e : nat) (again : bool)
| LeaveTask (c : call) (e : nat) (again : bool)
| Opening (i : nat) (access : AccessMode) (oflag : Z) (cred : Credentials)
| Registering (i : nat) (k : MqNotifyKind) (pid : Z)
| WakeUp (q : nat) (n : next)
| Waking (ts : list nat) (n : next).

Definition go_on (n : next) : pc :=
  match n with Return => Out | LeaveWith c e => Leave c e false | ThenWake q => WakeUp q Return end.

Record system : Type := mk_system {
  mqs : MqRegistry;
  files : gmap nat MqFile;
  lists : list (list nat);
  all_entries : list WaitQueueEntry;
  all_tasks : gmap nat Task;
  at_pc : nat -> pc
}.

Definition objects (s : system) : list MqObject := (mqs s).2.

Definition goto (t : nat) (p : pc) (s : system) : system :=
  mk_system (mqs s) (files s) (lists s) (all_entries s) (all_tasks s) (<[t := p]> (at_pc s)).
Definition with_mqs (w : MqRegistry) (s : system) : system :=
  mk_system w (files s) (lists s) (all_entries s) (all_tasks s) (at_pc s).
Definition with_object (i : nat) (q : MqObject) (s : system) : system := with_mqs ((mqs s).1, <[i := q]> (objects s)) s.
Definition with_files (fs : gmap nat MqFile) (s : system) : system :=
  mk_system (mqs s) fs (lists s) (all_entries s) (all_tasks s) (at_pc s).
Definition with_tasks (ts : gmap nat Task) (s : system) : system :=
  mk_system (mqs s) (files s) (lists s) (all_entries s) ts (at_pc s).

Definition world_of (s : system) (q : nat) : world := mk_world (default [] (lists s !! q)) (all_entries s) (all_tasks s).
Definition put_world (q : nat) (w : world) (s : system) : system :=
  mk_system (mqs s) (files s) (<[q := waiters w]> (lists s)) (entries w) (tasks w) (at_pc s).

(** The first attempt.  A panic stops the kernel: there is no step. *)
Definition do_try (s : system) (t : nat) (c : call) : option system :=
  q ← objects s !! c_queue c;
  match attempt c q with
  | Panic => None
  | Done (r, q) =>
      Some (goto t (match r with Ok true => WakeUp (wakes_in c) Return | Ok false => Check1 c | Err _ => Out end)
              (with_object (c_queue c) q s))
  end.

Definition do_prepare (s : system) (t : nat) (c : call) : system :=
  let '(w, e) := prepare_to_wait (world_of s (waits_in c)) t Sleeping in
  goto t (if c_deadline c then Arm c e else Recheck c e) (put_world (waits_in c) w s).

(** The second attempt wakes others before the task leaves the list it waits in. *)
Definition do_recheck (s : system) (t : nat) (c : call) (e : nat) : option system :=
  q ← objects s !! c_queue c;
  match attempt c q with
  | Panic => None
  | Done (r, q) =>
      Some (goto t (match r with
                    | Ok true => WakeUp (wakes_in c) (LeaveWith c e)
                    | Ok false => Check2 c e
                    | Err _ => Leave c e false
                    end)
              (with_object (c_queue c) q s))
  end.

(** The two halves of [finish_wait]. *)
Definition do_leave (s : system) (t : nat) (c : call) (e : nat) (again : bool) : system :=
  goto t (LeaveTask c e again) (put_world (waits_in c) (finish_entry (world_of s (waits_in c)) e) s).
Definition do_leave_task (s : system) (t : nat) (c : call) (e : nat) (again : bool) : system :=
  goto t (if again then Try c else Out) (with_tasks (tasks (finish_transition true (world_of s 0) e)) s).

Definition do_read (s : system) (t : nat) (f : MqFile) (len : Z) : option system :=
  q ← objects s !! f_queue f;
  match read_at len (shared_nonblock f) q with
  | Panic => None
  | Done (r, q) =>
      Some (goto t (match r with Ok _ => WakeUp (senders (f_queue f)) Return | Err _ => Out end) (with_object (f_queue f) q s))
  end.

Definition do_write (s : system) (t : nat) (f : MqFile) (buf : list Z) : option system :=
  q ← objects s !! f_queue f;
  let '(r, _, q) := write_at buf (shared_nonblock f) q in
  Some (goto t (match r with Ok _ => WakeUp (receivers (f_queue f)) Return | Err _ => Out end) (with_object (f_queue f) q s)).

Definition do_register (s : system) (t : nat) (i : nat) (k : MqNotifyKind) (pid : Z) : option system :=
  q ← objects s !! i; Some (goto t Out (with_object i (register_notify k pid q).2 s)).

(** A new queue comes with two lists. *)
Definition do_open (s : system) (t : nat) (name : string) (oflag mode : Z) (a : option MqAttr) (umask : option FileMode)
  (cred : Credentials) : system :=
  let '(r, w) := open_request name oflag mode a umask cred (mqs s) in
  mk_system w (files s) (lists s ++ replicate (2 * (length w.2 - length (objects s))) []) (all_entries s) (all_tasks s)
    (<[t := match r with Ok (i, access) => Opening i access oflag cred | Err _ => Out end]> (at_pc s)).

Definition do_finish_open (s : system) (t : nat) (i : nat) (access : AccessMode) (oflag : Z) (cred : Credentials)
  (slot : result nat Errno) : option system :=
  q ← objects s !! i; Some (goto t Out (with_files (finish_open i access oflag cred slot q (files s)).2 s)).

(** [unlink] wakes both lists. *)
Definition do_unlink (s : system) (t : nat) (name : string) : system :=
  let '(r, w) := unlink name (mqs s) in
  goto t (match r with Ok i => WakeUp (senders i) (ThenWake (receivers i)) | Err _ => Out end) (with_mqs w s).

(** The last reference to an open file is gone: [release]. *)
Definition do_close (s : system) (t : nat) (fd : nat) (f : MqFile) : system :=
  goto t (WakeUp (senders (f_queue f)) (ThenWake (receivers (f_queue f)))) (with_files (delete fd (files s)) s).

Definition do_drain (s : system) (t : nat) (q : nat) (n : next) : system :=
  let '(w, ts) := drain (world_of s q) in goto t (Waking ts n) (put_world q w s).
Definition do_wake (s : system) (t : nat) (t' : nat) (ts : list nat) (n : next) : system :=
  goto t (Waking ts n) (with_tasks (tasks (wake_task (world_of s 0) t')) s).

(** A task starts a call or goes on with one.  What follows a successful attempt
    (the copy of the message to the user, the delivery of a notification) touches no
    queue and wakes nobody.  Times, signals and the flags of open files are left
    open; [read] and [write] look at the access mode before they get to the queue. *)
Inductive move : system -> system -> Prop :=
| move_send s t fd f msg_prio d pid uid deadline :
    at_pc s t = Out -> is_Some (all_tasks s !! t) -> files s !! fd = Some f ->
    move s (goto t (Try (timedsend f msg_prio d pid uid deadline)) s)
| move_receive s t fd f msg_len deadline :
    at_pc s t = Out -> is_Some (all_tasks s !! t) -> files s !! fd = Some f ->
    move s (goto t (Try (timedreceive f msg_len deadline)) s)
| move_try s t c s' : at_pc s t = Try c -> do_try s t c = Some s' -> move s s'
| move_check1 s t c (stop : bool) : at_pc s t = Check1 c -> move s (goto t (if stop then Out else Prepare c) s)
| move_prepare s t c : at_pc s t = Prepare c -> is_Some (all_tasks s !! t) -> move s (do_prepare s t c)
| move_arm s t c e (expired : bool) :
    at_pc s t = Arm c e -> move s (goto t (if expired then Leave c e false else Recheck c e) s)
| move_recheck s t c e s' : at_pc s t = Recheck c e -> do_recheck s t c e = Some s' -> move s s'
| move_check2 s t c e (stop : bool) :
    at_pc s t = Check2 c e -> move s (goto t (if stop then Leave c e false else Asleep c e) s)
| move_resume s t c e :
    (* the scheduler runs a task again only when it does not sleep *)
    at_pc s t = Asleep c e -> ~ asleep (world_of s 0) t -> move s (goto t (Leave c e true) s)
| move_leave s t c e again : at_pc s t = Leave c e again -> move s (do_leave s t c e again)
| move_leave_task s t c e again : at_pc s t = LeaveTask c e again -> move s (do_leave_task s t c e again)
| move_read s t fd f len s' :
    at_pc s t = Out -> is_Some (all_tasks s !! t) -> files s !! fd = Some f -> readable (f_access f) = true ->
    do_read s t f len = Some s' -> move s s'
| move_write s t fd f buf s' :
    at_pc s t = Out -> is_Some (all_tasks s !! t) -> files s !! fd = Some f -> writable (f_access f) = true ->
    do_write s t f buf = Some s' -> move s s'
| move_notify s t fd f q ev cred pid :
    at_pc s t = Out -> is_Some (all_tasks s !! t) -> files s !! fd = Some f -> objects s !! f_queue f = Some q ->
    move s (goto t (match notify_request ev cred pid q with Ok (k, pid) => Registering (f_queue f) k pid | Err _ => Out end) s)
| move_register s t i k pid s' : at_pc s t = Registering i k pid -> do_register s t i k pid = Some s' -> move s s'
| move_open s t name oflag mode a umask cred :
    at_pc s t = Out -> is_Some (all_tasks s !! t) -> move s (do_open s t name oflag mode a umask cred)
| move_finish_open s t i access oflag cred slot s' :
    at_pc s t = Opening i access oflag cred -> (forall fd, slot = Ok fd -> files s !! fd = None) ->
    do_finish_open s t i access oflag cred slot = Some s' -> move s s'
| move_unlink s t name : at_pc s t = Out -> is_Some (all_tasks s !! t) -> move s (do_unlink s t name)
| move_close s t fd f :
    at_pc s t = Out -> is_Some (all_tasks s !! t) -> files s !! fd = Some f -> move s (do_close s t fd f)
| move_flags s fd f nonblock :
    files s !! fd = Some f ->
    move s (with_files (<[fd := mk_file (f_queue f) (f_access f) nonblock (shared_nonblock f)]> (files s)) s)
| move_drain s t q n : at_pc s t = WakeUp q n -> move s (do_drain s t q n)
| move_wake s t t' ts n : at_pc s t = Waking (t' :: ts) n -> move s (do_wake s t t' ts n)
| move_woken s t n : at_pc s t = Waking [] n -> move s (goto t (go_on n) s)
| move_environment s t k k' :
    (* signals, timers and the scheduler: a task changes state, but not into sleep *)
    all_tasks s !! t = Some k -> is_wait (state k') = false -> move s (with_tasks (<[t := k']> (all_tasks s)) s).

Definition boot (s : system) : Prop :=
  mqs s = new_registry /\ files s = ∅ /\ lists s = [] /\ all_entries s = [] /\ forall t, at_pc s t = Out.
