(* ===== verification/MqueueProofs.v ===== *)
(** * POSIX message queues: the order of messages, and the invariants of waiting

    A queue is a list of messages in the order of their priorities: what each of its
    operations does to that list.  The names of queues, and that waiting for messages
    and for room is an instance of the protocol of waiting. *)

From stdpp Require Import gmap functions strings sorting.
From S2P Require Import Prelude Cred Ipc WaitQueue WaitQueueProofs Mqueue.

(** ** The last of a map *)

Lemma btree_iter_elem {A} (m : gmap Z A) k a : (k, a) ∈ btree_iter m <-> m !! k = Some a.
Proof. unfold btree_iter. rewrite merge_sort_Permutation. apply elem_of_map_to_list. Qed.

Lemma next_back_spec {A} (m : gmap Z A) :
  match next_back m with
  | None => m = ∅
  | Some (p, a) => m !! p = Some a /\ forall k, is_Some (m !! k) -> k <= p
  end.
Proof.
  unfold next_back. destruct (last (btree_iter m)) as [[p a]|] eqn:E.
  - apply last_Some in E as (l & E). split.
    + apply btree_iter_elem. rewrite E. set_solver.
    + intros k [b Hb]. apply btree_iter_elem in Hb. rewrite E in Hb. apply elem_of_app in Hb as [Hb|Hb].
      * assert (Hs : StronglySorted key_le (btree_iter m)).
        { apply StronglySorted_merge_sort; intros [] [] *; unfold key_le; cbn; lia. }
        rewrite E in Hs. apply StronglySorted_app in Hs as (Hs & _). apply (Hs (k, b) (p, a)); [done|]. set_solver.
      * apply list_elem_of_singleton in Hb. by simplify_eq.
  - apply last_None in E. apply map_empty. intros k. destruct (m !! k) as [a|] eqn:Ek; [|done].
    apply btree_iter_elem in Ek. rewrite E in Ek. by apply elem_of_nil in Ek.
Qed.

(** ** The order of messages *)

(** The reference: a message goes behind all those whose priority is not lower. *)
Fixpoint put (m : MqMessage) (l : list MqMessage) : list MqMessage :=
  match l with
  | [] => [m]
  | x :: l => if priority x <? priority m then m :: x :: l else x :: put m l
  end.

Definition no_lower (x y : MqMessage) : Prop := priority y <= priority x.
Definition of_priority (p : Z) (l : list MqMessage) : list MqMessage := filter (fun m => priority m = p) l.

(** The list of the messages of a queue: in the order of priorities, and for each
    priority those of its FIFO. *)
Record represents (m : gmap Z (list MqMessage)) (l : list MqMessage) : Prop := {
  rep_sorted : StronglySorted no_lower l;
  rep_fifo : forall p, of_priority p l = default [] (m !! p);
  rep_nonempty : forall p b, m !! p = Some b -> b <> []
}.

Lemma of_priority_cons p m l : of_priority p (m :: l) = (if decide (priority m = p) then [m] else []) ++ of_priority p l.
Proof. unfold of_priority. rewrite filter_cons. by case_decide. Qed.

Lemma of_priority_low p l : Forall (fun m => priority m < p) l -> of_priority p l = [].
Proof.
  induction 1 as [|m l Hm _ IH]; [done|]. rewrite of_priority_cons, IH, decide_False; [done|lia].
Qed.

Lemma put_elem x m l : x ∈ put m l <-> x = m \/ x ∈ l.
Proof. induction l as [|y l IH]; cbn; [|case_match]; set_solver. Qed.

Lemma put_sorted m l : StronglySorted no_lower l -> StronglySorted no_lower (put m l).
Proof.
  induction 1 as [|x l Hl IH Hx]; cbn; [repeat constructor|]. destruct (Z.ltb_spec (priority x) (priority m)).
  - constructor; [by constructor|]. constructor; [unfold no_lower; lia|]. eapply Forall_impl; [exact Hx|].
    unfold no_lower. cbn. lia.
  - constructor; [done|]. rewrite Forall_forall in *. intros y [->|Hy]%put_elem; [done|auto].
Qed.

Lemma put_fifo p m l :
  StronglySorted no_lower l -> of_priority p (put m l) = of_priority p l ++ (if decide (priority m = p) then [m] else []).
Proof.
  induction 1 as [|x l Hl IH Hx]; cbn [put]; [done|]. destruct (Z.ltb_spec (priority x) (priority m)) as [Hlt|].
  - rewrite (of_priority_cons p m). case_decide as Hp; [|by rewrite app_nil_r].
    rewrite (of_priority_low p (x :: l)); [done|]. subst p. constructor; [done|].
    eapply Forall_impl; [exact Hx|]. unfold no_lower. cbn. lia.
  - by rewrite !of_priority_cons, IH, app_assoc.
Qed.

Lemma put_length m l : length (put m l) = S (length l).
Proof. induction l as [|x l IH]; cbn; [done|]. case_match; cbn; lia. Qed.

Lemma represents_empty : represents ∅ [].
Proof. split; [constructor|intros p; by rewrite lookup_empty|intros p b; by rewrite lookup_empty]. Qed.

Lemma represents_push x m l : represents m l -> represents (push_message x m) (put x l).
Proof.
  intros [Hs Hf Hn]. split; [by apply put_sorted|..]; unfold push_message.
  - intros p. rewrite put_fifo, Hf by done. case_decide as Hp.
    + subst p. by rewrite lookup_insert_eq.
    + by rewrite lookup_insert_ne, app_nil_r.
  - intros p b. destruct (decide (p = priority x)) as [->|]; [|rewrite lookup_insert_ne by done; apply Hn].
    rewrite lookup_insert_eq. intros [= <-]. by destruct (default _ _).
Qed.

Lemma represents_priority m l x : represents m l -> x ∈ l -> exists b, m !! priority x = Some b.
Proof.
  intros [_ Hf _] Hx. assert (Hin : x ∈ of_priority (priority x) l) by (by apply list_elem_of_filter).
  rewrite Hf in Hin. destruct (m !! priority x) as [b|]; [by exists b|by apply elem_of_nil in Hin].
Qed.

(** The first of the greatest priority is the head of the list. *)
Lemma represents_next m l :
  represents m l ->
  match next_back m with
  | None => l = []
  | Some (p, b) => exists x b' l', b = x :: b' /\ l = x :: l'
      /\ represents (if bool_decide (b' = []) then delete p m else <[p := b']> m) l'
  end.
Proof.
  intros Hr. pose proof Hr as [Hs Hf Hn]. pose proof (next_back_spec m) as Hnb. destruct (next_back m) as [[p b]|].
  2: { subst m. destruct l as [|x l]; [done|]. destruct (represents_priority _ _ x Hr) as (b & Hb); [apply list_elem_of_here|].
       by rewrite lookup_empty in Hb. }
  destruct Hnb as [Hb Hmax]. specialize (Hn p b Hb) as Hne.
  assert (Hfp : of_priority p l = b) by (by rewrite Hf, Hb).
  destruct l as [|x l']; [by subst b|]. destruct (StronglySorted_inv Hs) as [Hs' Hx].
  assert (Hp : priority x = p).
  { destruct (represents_priority _ _ x Hr) as (bx & Hbx); [apply list_elem_of_here|].
    assert (priority x <= p) by (apply Hmax; by exists bx). destruct b as [|y b]; [done|].
    assert (y ∈ of_priority p (x :: l')) as [Hy [->|Hin]%elem_of_cons]%list_elem_of_filter
      by (rewrite Hfp; apply list_elem_of_here); [done|].
    rewrite Forall_forall in Hx. specialize (Hx y Hin). unfold no_lower in Hx. lia. }
  rewrite of_priority_cons, decide_True in Hfp by done. exists x, (of_priority p l'), l'. split_and!; [done|done|].
  assert (Hk : forall k, k <> p -> of_priority k l' = default [] (m !! k)).
  { intros k Hk. specialize (Hf k). by rewrite of_priority_cons, decide_False in Hf by congruence. }
  case_bool_decide as E; (split; [done|intros k|intros k c]); (destruct (decide (k = p)) as [->|Hne'];
    [rewrite ?lookup_delete_eq, ?lookup_insert_eq|rewrite ?lookup_delete_ne, ?lookup_insert_ne by done]); try done; auto.
  - by apply (rep_nonempty _ _ Hr).
  - by intros [= <-].
  - by apply (rep_nonempty _ _ Hr).
Qed.

(** ** Queues *)

(** The messages that a queue holds. *)
Record holds (q : MqObject) (l : list MqMessage) : Prop := {
  holds_list : represents (messages q) l;
  holds_count : curmsgs q = Z.of_nat (length l);
  holds_room : curmsgs q <= maxmsg q;
  holds_sizes : Forall (fun m => priority m < MQ_PRIO_MAX /\ Z.of_nat (length (data m)) <= msgsize q) l
}.

Definition mq_wf (q : MqObject) : Prop :=
  (exists l, holds q l) /\ 1 <= maxmsg q <= MQ_MAXMSG_MAX /\ 1 <= msgsize q <= MQ_MSGSIZE_MAX.

Definition sent_to (p : Z) (d : list Z) (q : MqObject) : MqObject :=
  with_messages (push_message (mk_msg p d) (messages q)) (curmsgs q + 1) (if curmsgs q =? 0 then None else notify q) q.

Lemma mq_try_send_spec p d pid uid nonblock q l :
  holds q l ->
  match try_send p d pid uid nonblock q with
  | (Ok (true, due), q') =>
      full q = false /\ p < MQ_PRIO_MAX /\ Z.of_nat (length d) <= msgsize q /\ q' = sent_to p d q
      /\ holds q' (put (mk_msg p d) l)
      /\ due = match l with [] => (fun n => mk_notification (kind n) (notify_pid n) pid uid) <$> notify q | _ => None end
  | (Ok (false, due), q') => full q = true /\ nonblock = false /\ due = None /\ q' = q
  | (Err e, q') => q' = q
  end.
Proof.
  intros [Hr Hc Hm Hs]. unfold try_send, validate_priority, refuse. destruct (Z.leb_spec MQ_PRIO_MAX p) as [|Hp]; [done|].
  destruct (Z.ltb_spec (msgsize q) (Z.of_nat (length d))) as [|Hd]; [done|]. destruct (full q) eqn:Hf; [by destruct nonblock|].
  assert (Hlt : curmsgs q < maxmsg q) by (unfold full in Hf; lia). split_and!; try done.
  - split; [by apply (represents_push (mk_msg p d))|cbn; rewrite put_length; lia|cbn; lia|]. cbn. rewrite Forall_forall in *.
    intros x [->|Hx]%put_elem; [done|auto].
  - rewrite Hc. by destruct l.
Qed.

Lemma mq_try_receive_spec maxsize nonblock q l :
  holds q l ->
  exists r q', try_receive maxsize nonblock q = Done (r, q') /\
  match r with
  | Ok (Some m) => msgsize q <= as_isize maxsize
      /\ exists l', l = m :: l' /\ holds q' l' /\ q' = with_messages (messages q') (curmsgs q - 1) (notify q) q
  | Ok None => msgsize q <= as_isize maxsize /\ l = [] /\ nonblock = false /\ q' = q
  | Err e => q' = q /\ (e = EMSGSIZE /\ as_isize maxsize < msgsize q
                        \/ e = EAGAIN /\ msgsize q <= as_isize maxsize /\ l = [] /\ nonblock = true)
  end.
Proof.
  intros [Hr Hc Hm Hs]. unfold try_receive. destruct (Z.ltb_spec (as_isize maxsize) (msgsize q)) as [Hlt|Hge].
  { do 2 eexists. split; [done|]. cbn. auto. }
  pose proof (represents_next _ _ Hr) as Hn. destruct (next_back (messages q)) as [[p b]|].
  2: { subst l. destruct nonblock; do 2 eexists; (split; [done|]); cbn; naive_solver. }
  destruct Hn as (x & b' & l' & -> & -> & Hr'). apply Forall_cons in Hs as [_ Hs']. cbn [head tail unwrap mbind exec_bind].
  assert (checked_sub (curmsgs q) 1 = Some (curmsgs q - 1)) as ->
    by (unfold checked_sub; rewrite (proj2 (Z.leb_le _ _)); [done|cbn in Hc; lia]).
  do 2 eexists. split; [done|]. cbn. split; [done|]. exists l'. split_and!; try done.
  split; cbn in *; [exact Hr'|lia|lia|done].
Qed.

Lemma register_notify_same k pid q :
  exists o, (register_notify k pid q).2 = with_notify o q.
Proof.
  unfold register_notify. destruct q. repeat case_match; cbn; eauto; by eexists.
Qed.

Lemma with_notify_wf o q : mq_wf q -> mq_wf (with_notify o q).
Proof. intros [(l & [? ? ? ?]) ?]. split; [by exists l|done]. Qed.

Lemma validate_attr_Ok a cred :
  validate_attr a cred = Ok () -> 1 <= attr_maxmsg a <= MQ_MAXMSG_MAX /\ 1 <= attr_msgsize a <= MQ_MSGSIZE_MAX.
Proof.
  unfold validate_attr, refuse. destruct ((attr_maxmsg a <? 1) || (attr_msgsize a <? 1)) eqn:E1; [done|].
  unfold MQ_MAXMSG_MAX, MQ_MSGSIZE_MAX, MQ_DEFAULT_MAXMSG, MQ_DEFAULT_MSGSIZE in *.
  destruct (has_cap cred SysResource); case_match eqn:E2; try done; intros _; lia.
Qed.

Lemma new_mq_holds a mode cred : 1 <= attr_maxmsg a -> holds (new_mq a mode cred) [].
Proof. intros H. split; cbn; [apply represents_empty|done|lia|done]. Qed.

Lemma new_mq_wf a mode cred : validate_attr a cred = Ok () -> mq_wf (new_mq a mode cred).
Proof. intros [H1 H2]%validate_attr_Ok. split; [exists []; apply new_mq_holds; lia|done]. Qed.

(** An operation that keeps a queue well formed, and what may not change. *)
Definition keeps_mq (q q' : MqObject) : Prop := mq_wf q -> mq_wf q' /\ removed q' = removed q.

(** ** Names *)

(** Names stand one to one for the queues that are not unlinked. *)
Record mq_consistent (w : MqRegistry) : Prop := {
  mc_named : forall name i, w.1 !! name = Some i -> validate_name name = Ok () /\ removed <$> w.2 !! i = Some false;
  mc_names : forall i q, w.2 !! i = Some q -> removed q = false -> exists name, w.1 !! name = Some i;
  mc_inj : forall n1 n2 i, w.1 !! n1 = Some i -> w.1 !! n2 = Some i -> n1 = n2;
  mc_size : Z.of_nat (size w.1) <= MQ_QUEUES_MAX;
  mc_wf : Forall mq_wf w.2
}.

Lemma mq_new_consistent : mq_consistent new_registry.
Proof.
  split; cbn; try done.
Qed.

Lemma mc_lookup w name i : mq_consistent w -> w.1 !! name = Some i -> exists q, w.2 !! i = Some q /\ removed q = false /\ mq_wf q.
Proof.
  intros Hc Hn. destruct (mc_named _ Hc _ _ Hn) as [_ Hq]. destruct (w.2 !! i) as [q|] eqn:Eq; [|done]. exists q.
  split_and!; [done|by injection Hq|]. by eapply Forall_lookup_1; [apply mc_wf|].
Qed.

(** What [open] answers, and what it does to the registry. *)
Lemma open_cases name create excl a mode cred w :
  match open name create excl a mode cred w with
  | (Err e, w') => w' = w
  | (Ok i, w') => validate_name name = Ok () /\
      (w.1 !! name = Some i /\ w' = w /\ create && excl = false
       \/ w.1 !! name = None /\ create = true /\ Z.of_nat (size w.1) < MQ_QUEUES_MAX
          /\ validate_attr (default default_new a) cred = Ok () /\ i = length w.2
          /\ w' = (<[name := i]> w.1, w.2 ++ [new_mq (default default_new a) mode cred]))
  end.
Proof.
  unfold open. destruct (validate_name name) as [[]|]; [|done]. destruct (w.1 !! name) as [i|] eqn:En.
  { destruct (create && excl) eqn:E; [done|]. auto. }
  destruct create; [|done]. cbn [negb]. destruct (Z.leb_spec MQ_QUEUES_MAX (Z.of_nat (size w.1))); [done|].
  destruct (validate_attr _ cred) as [[]|] eqn:Ea; [|done]. split; [done|]. right. by split_and!.
Qed.

Lemma open_consistent name create excl a mode cred w :
  mq_consistent w -> mq_consistent (open name create excl a mode cred w).2.
Proof.
  intros Hc. pose proof (open_cases name create excl a mode cred w) as H. destruct (open _ _ _ _ _ _ w) as [[i|e] w'];
    [|by subst]. destruct H as (Hv & [(_ & -> & _)|(Hn & _ & Hsz & Ha & -> & ->)]); [done|]. destruct Hc as [H1 H2 H3 H4 H5].
  assert (Hlt : forall n i, w.1 !! n = Some i -> (i < length w.2)%nat).
  { intros n i Hi. destruct (H1 _ _ Hi) as [_ Hr]. destruct (w.2 !! i) eqn:E; [|done]. by eapply lookup_lt_Some. }
  split; cbn.
  - intros n i. destruct (decide (n = name)) as [->|].
    + rewrite lookup_insert_eq. intros [= <-]. by rewrite list_lookup_middle.
    + rewrite lookup_insert_ne by done. intros Hi. rewrite lookup_app_l by (by eapply Hlt). auto.
  - intros i q [Hq|[Hle Hq]]%lookup_app_Some Hr.
    + destruct (H2 _ _ Hq Hr) as (n & Hn'). exists n. rewrite lookup_insert_ne; [done|congruence].
    + exists name. rewrite lookup_insert_eq. f_equal. apply lookup_lt_Some in Hq. cbn in Hq. lia.
  - intros n1 n2 i. destruct (decide (n1 = name)) as [->|], (decide (n2 = name)) as [->|];
      rewrite ?lookup_insert_eq, ?lookup_insert_ne by done; [done|..|apply H3]; intros E1 E2; simplify_eq;
      exfalso; [apply Hlt in E2|apply Hlt in E1]; lia.
  - rewrite map_size_insert_None by done. lia.
  - apply Forall_app. split; [done|]. constructor; [by apply new_mq_wf|done].
Qed.

Lemma unlink_cases name w :
  mq_consistent w ->
  match unlink name w with
  | (Err e, w') => w' = w /\ (validate_name name = Err e \/ validate_name name = Ok () /\ w.1 !! name = None /\ e = ENOENT)
  | (Ok i, w') => w.1 !! name = Some i /\ exists q, w.2 !! i = Some q /\ removed q = false
      /\ w' = (delete name w.1, <[i := mark_removed q]> w.2)
  end.
Proof.
  intros Hc. unfold unlink. destruct (validate_name name) as [[]|]; [|auto]. destruct (w.1 !! name) as [i|] eqn:En; [|auto].
  destruct (mc_lookup _ _ _ Hc En) as (q & Hq & Hr & _). rewrite Hq, Hr. split; [done|]. by exists q.
Qed.

Lemma unlink_consistent name w : mq_consistent w -> mq_consistent (unlink name w).2.
Proof.
  intros Hc. pose proof (unlink_cases name w Hc) as H. destruct (unlink name w) as [[i|e] w']; [|by destruct H as [-> _]].
  destruct H as (Hn & q & Hq & Hr & ->). destruct Hc as [H1 H2 H3 H4 H5].
  split; cbn.
  - intros n j [Hne Hj]%lookup_delete_Some. assert (j <> i) by (intros ->; by rewrite (H3 _ _ _ Hj Hn) in Hne).
    rewrite list_lookup_insert_ne by done. auto.
  - intros j x Hx Hrx. destruct (decide (j = i)) as [->|Hne].
    + rewrite list_lookup_insert_eq in Hx by (by eapply lookup_lt_Some). by simplify_eq.
    + rewrite list_lookup_insert_ne in Hx by done. destruct (H2 _ _ Hx Hrx) as (n & ?). exists n.
      rewrite lookup_delete_ne; [done|congruence].
  - intros n1 n2 j [_ E1]%lookup_delete_Some [_ E2]%lookup_delete_Some. by eapply H3.
  - rewrite map_size_delete_Some by done. lia.
  - apply Forall_insert; [done|]. pose proof (Forall_lookup_1 _ _ _ _ H5 Hq) as [(l & [? ? ? ?]) ?]. split; [by exists l|done].
Qed.

Lemma update_mq_consistent w i q q' :
  mq_consistent w -> w.2 !! i = Some q -> keeps_mq q q' -> mq_consistent (w.1, <[i := q']> w.2).
Proof.
  intros [H1 H2 H3 H4 H5] Hq Hk. destruct (Hk (Forall_lookup_1 _ _ _ _ H5 Hq)) as [Hwf Hr].
  split; cbn; [..|done|done|by apply Forall_insert].
  - intros n j Hj. destruct (H1 _ _ Hj) as [? Hrj]. split; [done|]. destruct (decide (j = i)) as [->|].
    + rewrite list_lookup_insert_eq by (by eapply lookup_lt_Some). rewrite Hq in Hrj. cbn in *. congruence.
    + by rewrite list_lookup_insert_ne.
  - intros j x Hx Hrx. destruct (decide (j = i)) as [->|].
    + rewrite list_lookup_insert_eq in Hx by (by eapply lookup_lt_Some). simplify_eq. apply (H2 i q); congruence.
    + rewrite list_lookup_insert_ne in Hx by done. eauto.
Qed.

(** ** Attempts *)

(** Nobody waits in a list without a reason: the queue is full, or it is empty. *)
Definition blocked_at (q : MqObject) (i j : nat) : Prop :=
  j = senders i /\ full q = true \/ j = receivers i /\ curmsgs q = 0.
Definition blocked_in (qs : list MqObject) (j : nat) : Prop := exists i q, qs !! i = Some q /\ blocked_at q i j.

Lemma lists_inj i j : senders i = senders j \/ receivers i = receivers j -> i = j.
Proof. unfold senders, receivers. lia. Qed.
Lemma lists_apart i j : senders i <> receivers j.
Proof. unfold senders, receivers. lia. Qed.

(** A queue after a message was sent or taken. *)
Lemma send_keeps p d pid uid nonblock q r q' :
  try_send p d pid uid nonblock q = (r, q') ->
  keeps_mq q q' /\ (mq_wf q -> forall i j, blocked_at q i j -> blocked_at q' i j \/ (exists n, r = Ok (true, n)) /\ j = receivers i).
Proof.
  intros Hs. assert (Hgo : mq_wf q -> mq_wf q' /\ removed q' = removed q
    /\ forall i j, blocked_at q i j -> blocked_at q' i j \/ (exists n, r = Ok (true, n)) /\ j = receivers i).
  { intros [(l & Hl) Hwf]. pose proof (mq_try_send_spec p d pid uid nonblock q l Hl) as H. rewrite Hs in H.
    destruct r as [[[] due]|e].
    - destruct H as (Hf & _ & _ & -> & Hl' & _). split_and!; [split; [by eexists|done]|done|].
      intros i j [[-> Hb]|[-> Hb]]; [congruence|right; eauto].
    - destruct H as (_ & _ & _ & ->). split_and!; [split; [by eexists|done]|done|auto].
    - subst q'. split_and!; [split; [by eexists|done]|done|auto]. }
  split; [intros Hwf; by destruct (Hgo Hwf) as (? & ? & _)|intros Hwf; by apply Hgo].
Qed.

Lemma receive_keeps maxsize nonblock q :
  mq_wf q -> exists r q', try_receive maxsize nonblock q = Done (r, q') /\ mq_wf q' /\ removed q' = removed q
    /\ forall i j, blocked_at q i j -> blocked_at q' i j \/ (exists m, r = Ok (Some m)) /\ j = senders i.
Proof.
  intros [(l & Hl) Hwf]. destruct (mq_try_receive_spec maxsize nonblock q l Hl) as (r & q' & -> & H). exists r, q'.
  split; [done|]. destruct r as [[m|]|e].
  - destruct H as (_ & l' & -> & Hl' & E). rewrite E in Hl' |- *. split_and!; [split; [by eexists|done]|done|].
    intros i j [[-> Hb]|[-> Hb]]; [right; eauto|]. rewrite (holds_count _ _ Hl) in Hb. cbn in Hb. lia.
  - destruct H as (_ & _ & _ & ->). split_and!; [split; [by eexists|done]|done|auto].
  - destruct H as (-> & _). split_and!; [split; [by eexists|done]|done|auto].
Qed.

(** One attempt of a call: it does not panic, and it says why it must wait. *)
Lemma mq_attempt_spec c q :
  mq_wf q -> exists r q', attempt c q = Done (r, q') /\ keeps_mq q q'
    /\ (forall j, blocked_at q (c_queue c) j -> blocked_at q' (c_queue c) j \/ r = Ok true /\ j = wakes_in c)
    /\ (r <> Ok true -> q' = q) /\ (r = Ok false -> blocked_at q (c_queue c) (waits_in c)).
Proof.
  intros Hwf. unfold attempt, waits_in, wakes_in. destruct (c_req c) as [p d pid uid|maxsize].
  - destruct (try_send p d pid uid (c_nonblock c) q) as [r q'] eqn:E. destruct (send_keeps _ _ _ _ _ _ _ _ E) as [Hk Hb].
    do 2 eexists. split; [done|]. split; [done|]. split.
    { intros j Hj. destruct (Hb Hwf _ _ Hj) as [?|[(n & ->) ->]]; auto. }
    destruct Hwf as [(l & Hl) _]. pose proof (mq_try_send_spec p d pid uid (c_nonblock c) q l Hl) as H. rewrite E in H.
    destruct r as [[[] due]|e]; (split; [|try done]); try naive_solver. intros _. left. naive_solver.
  - destruct (receive_keeps maxsize (c_nonblock c) q Hwf) as (r & q' & E & Hwf' & Hr & Hb). rewrite E.
    do 2 eexists. split; [done|]. split; [done|]. split.
    { intros j Hj. destruct (Hb _ _ Hj) as [?|[(m & ->) ->]]; auto. }
    destruct Hwf as [(l & Hl) _]. destruct (mq_try_receive_spec maxsize (c_nonblock c) q l Hl) as (r1 & q1 & E1 & H).
    rewrite E1 in E. simplify_eq. destruct r as [[m|]|e]; (split; [|try done]); try naive_solver.
    intros _. right. split; [done|]. destruct H as (_ & -> & _). apply (holds_count _ _ Hl).
Qed.

(** ** The protocol *)

(** The list and entry of a task that is registered, and whether it has seen since
    that it must wait. *)
Definition reg_of (p : pc) : option (registration unit) :=
  match p with
  | Arm c e | Recheck c e | Leave c e _ | WakeUp _ (LeaveWith c e) | Waking _ (LeaveWith c e) =>
      Some (mk_reg () (waits_in c) e false)
  | Check2 c e | Asleep c e => Some (mk_reg () (waits_in c) e true)
  | _ => None
  end.

Definition duty_of (p : pc) : duty :=
  match p with
  | WakeUp q _ => Drains q
  | Waking ts _ => Wakes ts
  | _ => Nothing
  end.

Definition view_of (s : system) : view unit :=
  shell reg_of duty_of (lists s) (all_entries s) (all_tasks s) (at_pc s) (fun _ _ => True) (fun _ => blocked_in (objects s)).

(** The queue that a task works on. *)
Definition object_of (p : pc) : option nat :=
  match p with
  | Try c | Check1 c | Prepare c | Arm c _ | Recheck c _ | Check2 c _ | Asleep c _ | Leave c _ _ | LeaveTask c _ _
  | WakeUp _ (LeaveWith c _) | Waking _ (LeaveWith c _) => Some (c_queue c)
  | Opening i _ _ _ | Registering i _ _ => Some i
  | _ => None
  end.

Record good (s : system) : Prop := {
  good_lists : length (lists s) = (2 * length (objects s))%nat;
  good_mqs : mq_consistent (mqs s);
  good_files : forall fd f, files s !! fd = Some f -> (f_queue f < length (objects s))%nat;
  good_pcs : forall t i, object_of (at_pc s t) = Some i -> (i < length (objects s))%nat
}.

Lemma mq_good_goto s t p :
  good s -> (forall i, object_of p = Some i -> (i < length (objects s))%nat) -> good (goto t p s).
Proof.
  intros [H1 H2 H3 H4] Hp. split; [done..|]. intros t' i. cbn [at_pc goto].
  destruct (decide (t' = t)) as [->|]; [rewrite fn_lookup_insert|rewrite fn_lookup_insert_ne by done]; [apply Hp|apply H4].
Qed.

Lemma good_object s i q q' : good s -> objects s !! i = Some q -> keeps_mq q q' -> good (with_object i q' s).
Proof.
  intros [H1 H2 H3 H4] Hq Hk. unfold objects in *. split; unfold with_object, with_mqs, objects in *; cbn in *;
    rewrite ?length_insert; try done. by eapply update_mq_consistent.
Qed.

Lemma mq_good_put s q w : good s -> good (put_world q w s).
Proof. intros [H1 H2 H3 H4]. split; [cbn; by rewrite length_insert|done..]. Qed.
Lemma mq_good_tasks s ts : good s -> good (with_tasks ts s).
Proof. by intros [H1 H2 H3 H4]. Qed.

#[local] Hint Resolve mq_good_goto mq_good_put mq_good_tasks : core.

Lemma waits_in_bound s c : good s -> (c_queue c < length (objects s))%nat -> (waits_in c < length (lists s))%nat.
Proof. intros Hg Hc. rewrite (good_lists _ Hg). unfold waits_in, senders, receivers. destruct (c_req c); lia. Qed.

(** A task that moves on without a change to the rest. *)
Lemma mq_move_on s t p :
  good s -> duty_of p = duty_of (at_pc s t) -> (forall i, object_of p = Some i -> (i < length (objects s))%nat) ->
  (reg_of p = reg_of (at_pc s t) \/ exists r b, reg_of (at_pc s t) = Some r /\ reg_of p = Some (commit b r)
     /\ (b = true -> r_committed r = false -> blocked_in (objects s) (r_queue r))) ->
  good (goto t p s) /\ vsteps (view_of s) (view_of (goto t p s)).
Proof.
  intros Hg Hd Hq Hr. split; [auto|]. apply shell_moves; [done|].
  destruct Hr as [?|(r & b & ? & ? & Hb)]; [by left|right]. exists r, b. auto.
Qed.

Lemma mq_stay s t p :
  good s -> reg_of p = reg_of (at_pc s t) -> duty_of p = duty_of (at_pc s t) ->
  (object_of p = None \/ object_of p = object_of (at_pc s t)) -> good (goto t p s) /\ vsteps (view_of s) (view_of (goto t p s)).
Proof.
  intros Hg Hr Hd Hq. apply mq_move_on; auto. intros i E. apply (good_pcs _ Hg t). destruct Hq; congruence.
Qed.

Lemma mq_uncommit s t r p :
  good s -> reg_of (at_pc s t) = Some r -> reg_of p = Some (commit false r) -> duty_of p = duty_of (at_pc s t) ->
  object_of p = object_of (at_pc s t) -> good (goto t p s) /\ vsteps (view_of s) (view_of (goto t p s)).
Proof.
  intros Hg Hr Hp Hd Hq. apply mq_move_on; [done|done| |right; by exists r, false].
  intros i E. apply (good_pcs _ Hg t). congruence.
Qed.

Lemma with_same_object s i q : objects s !! i = Some q -> with_object i q s = s.
Proof. intros Hq. unfold with_object, with_mqs. rewrite list_insert_id by done. by destruct s as [[]]. Qed.

(** A task that changes a queue: those who must wait still must, or the task owes
    their list a wake-up. *)
Lemma change_object s t i q q' p :
  good s -> objects s !! i = Some q -> keeps_mq q q' -> (forall j, object_of p = Some j -> j = i) ->
  duty_of (at_pc s t) = Nothing -> reg_of p = reg_of (at_pc s t) ->
  (forall j, blocked_at q i j -> blocked_at q' i j \/ duty_of p = Drains j) ->
  good (goto t p (with_object i q' s)) /\ vsteps (view_of s) (view_of (goto t p (with_object i q' s))).
Proof.
  intros Hg Hq Hk Hp Hd Hr Hch. split.
  - apply mq_good_goto; [by eapply good_object|]. intros j ->%Hp. unfold objects. cbn. rewrite length_insert.
    by eapply lookup_lt_Some.
  - apply shell_change; [by left|done|done|]. intros _ j _ _. split; [done|]. intros (i' & x & Hx & Hb). unfold blocked_in, objects. cbn.
    destruct (decide (i' = i)) as [->|Hne]; [|left; exists i', x; by rewrite list_lookup_insert_ne].
    rewrite Hq in Hx. simplify_eq. destruct (Hch j Hb) as [?|?]; [left|by right]. exists i, q'.
    by rewrite list_lookup_insert_eq by (by eapply lookup_lt_Some).
Qed.

(** ** Every step is one of the protocol *)

Lemma good_wf s i q : good s -> objects s !! i = Some q -> mq_wf q.
Proof. intros Hg Hq. by eapply Forall_lookup_1; [apply (mc_wf _ (good_mqs _ Hg))|]. Qed.

(** An attempt, and where the task goes in each case. *)
Lemma mq_attempt_sim s t c q r q' p :
  good s -> objects s !! c_queue c = Some q -> attempt c q = Done (r, q') ->
  (forall j, object_of p = Some j -> j = c_queue c) -> duty_of (at_pc s t) = Nothing ->
  (r = Ok true -> duty_of p = Drains (wakes_in c) /\ reg_of p = reg_of (at_pc s t)) ->
  (r <> Ok true -> duty_of p = Nothing /\
     (reg_of p = reg_of (at_pc s t) \/ exists rg b, reg_of (at_pc s t) = Some rg /\ reg_of p = Some (commit b rg)
        /\ (b = true -> r_queue rg = waits_in c /\ r = Ok false))) ->
  good (goto t p (with_object (c_queue c) q' s)) /\ vsteps (view_of s) (view_of (goto t p (with_object (c_queue c) q' s))).
Proof.
  intros Hg Hq Ht Hp Hd Ha Hn. destruct (mq_attempt_spec c q) as (r1 & q1 & E & Hk & Hb & Hsame & Hw); [by eapply good_wf|].
  rewrite E in Ht. simplify_eq. destruct (decide (r = Ok true)) as [Hr|Hr].
  - destruct (Ha Hr) as [Hdp Hrp]. eapply change_object; eauto. intros j Hj. destruct (Hb j Hj) as [?|[_ ->]]; auto.
  - rewrite (Hsame Hr), (with_same_object s _ q Hq). destruct (Hn Hr) as [Hdp Hrp].
    apply mq_move_on; [done|congruence|intros j ->%Hp; by eapply lookup_lt_Some|].
    destruct Hrp as [?|(rg & b & Hrg & Hc & Hbt)]; [by left|right]. exists rg, b. split_and!; try done. intros Hbt' _.
    destruct (Hbt Hbt') as (-> & ->). exists (c_queue c), q. auto.
Qed.

Lemma mq_try_sim s t c s' :
  good s -> at_pc s t = Try c -> do_try s t c = Some s' -> good s' /\ vsteps (view_of s) (view_of s').
Proof.
  intros Hg Hpc Hs. unfold do_try in Hs. destruct (objects s !! c_queue c) as [q|] eqn:Hq; [|done]. cbn in Hs.
  destruct (attempt c q) as [[r q']|] eqn:Ha; [|done]. injection Hs as <-.
  eapply mq_attempt_sim; try exact Ha; rewrite ?Hpc; try done; destruct r as [[]|]; naive_solver.
Qed.

Lemma mq_recheck_sim s t c e s' :
  good s -> at_pc s t = Recheck c e -> do_recheck s t c e = Some s' -> good s' /\ vsteps (view_of s) (view_of s').
Proof.
  intros Hg Hpc Hs. unfold do_recheck in Hs. destruct (objects s !! c_queue c) as [q|] eqn:Hq; [|done]. cbn in Hs.
  destruct (attempt c q) as [[r q']|] eqn:Ha; [|done]. injection Hs as <-.
  eapply mq_attempt_sim; try exact Ha; rewrite ?Hpc; try done; destruct r as [[]|]; naive_solver.
Qed.

Lemma mq_read_sim s t f len s' :
  good s -> at_pc s t = Out -> do_read s t f len = Some s' -> good s' /\ vsteps (view_of s) (view_of s').
Proof.
  intros Hg Hpc Hs. unfold do_read in Hs. destruct (objects s !! f_queue f) as [q|] eqn:Hq; [|done]. cbn in Hs.
  unfold read_at in Hs. destruct (receive_keeps len (shared_nonblock f) q) as (r & q' & E & Hwf & Hr & Hb); [by eapply good_wf|].
  rewrite E in Hs. cbn in Hs. injection Hs as <-. eapply change_object; rewrite ?Hpc; try done.
  - by destruct r as [[]|].
  - by destruct r as [[]|].
  - intros j Hj. destruct (Hb _ j Hj) as [?|[(m & ->) ->]]; [by left|by right].
Qed.

Lemma mq_write_sim s t f buf s' :
  good s -> at_pc s t = Out -> do_write s t f buf = Some s' -> good s' /\ vsteps (view_of s) (view_of s').
Proof.
  intros Hg Hpc Hs. unfold do_write in Hs. destruct (objects s !! f_queue f) as [q|] eqn:Hq; [|done]. cbn in Hs.
  unfold write_at in Hs. destruct (try_send 0 buf 0 0 (shared_nonblock f) q) as [r q'] eqn:E.
  destruct (send_keeps _ _ _ _ _ _ _ _ E) as [Hk Hb]. pose proof (good_wf _ _ _ Hg Hq) as Hwf.
  destruct r as [[[] due]|e]; injection Hs as <-; eapply change_object; rewrite ?Hpc; try done;
    intros j Hj; destruct (Hb Hwf _ j Hj) as [?|[(m & ?) ->]]; try done; by (left + right).
Qed.

Lemma mq_register_sim s t i k pid s' :
  good s -> at_pc s t = Registering i k pid -> do_register s t i k pid = Some s' -> good s' /\ vsteps (view_of s) (view_of s').
Proof.
  intros Hg Hpc Hs. unfold do_register in Hs. destruct (objects s !! i) as [q|] eqn:Hq; [|done]. cbn in Hs. injection Hs as <-.
  destruct (register_notify_same k pid q) as (o & ->). eapply change_object; rewrite ?Hpc; try done.
  - intros Hwf. split; [by apply with_notify_wf|done].
  - intros j Hj. by left.
Qed.

Lemma open_request_cases name oflag mode a umask cred w :
  mq_consistent w ->
  let '(r, w') := open_request name oflag mode a umask cred w in
  mq_consistent w' /\ (exists l, w'.2 = w.2 ++ l)
  /\ forall i access, r = Ok (i, access) -> (i < length w'.2)%nat.
Proof.
  intros Hc. unfold open_request. destruct (oflag_has oflag _); [split_and!; [done|exists []; by rewrite app_nil_r|done]|].
  destruct (access_of oflag) as [access|]; [|split_and!; [done|exists []; by rewrite app_nil_r|done]].
  set (cr := oflag_has oflag O_CREAT). set (ex := oflag_has oflag O_EXCL). set (m := created_mode mode umask).
  pose proof (open_consistent name cr ex a m cred w Hc) as Hc'. pose proof (open_cases name cr ex a m cred w) as H.
  destruct (open _ _ _ _ _ _ w) as [[i|e] w']; cbn [snd] in Hc'; [|subst w'; split_and!; [done|exists []; by rewrite app_nil_r|done]].
  split; [done|]. destruct H as (_ & [(Hn & -> & _)|(_ & _ & _ & _ & -> & ->)]).
  - split; [exists []; by rewrite app_nil_r|]. intros j ac [= <- <-]. destruct (mc_lookup _ _ _ Hc Hn) as (q & Hq & _).
    by eapply lookup_lt_Some.
  - split; [by eexists|]. intros j ac [= <- <-]. cbn. rewrite length_app. cbn. lia.
Qed.

Lemma mq_open_sim s t name oflag mode a umask cred :
  good s -> at_pc s t = Out ->
  good (do_open s t name oflag mode a umask cred) /\ vsteps (view_of s) (view_of (do_open s t name oflag mode a umask cred)).
Proof.
  intros [H1 H2 H3 H4] Hpc. unfold do_open. pose proof (open_request_cases name oflag mode a umask cred (mqs s) H2) as H.
  destruct (open_request _ _ _ _ _ _ _) as [r w]. destruct H as (Hc & (l & Hl) & Hi). unfold objects in *.
  assert (Hlen : (length (mqs s).2 <= length w.2)%nat) by (rewrite Hl, length_app; lia). split.
  - split; unfold objects; cbn; [rewrite length_app, length_replicate; lia|done| |].
    + intros fd f Hf. apply H3 in Hf. lia.
    + intros t' i. destruct (decide (t' = t)) as [->|]; [rewrite fn_lookup_insert|rewrite fn_lookup_insert_ne by done].
      * destruct r as [[j ac]|]; [|done]. intros [= <-]. by eapply Hi.
      * intros Hj%H4. lia.
  - apply shell_change; rewrite ?Hpc; [by left|by destruct r as [[]|]|apply new_queues|]. intros _ j _ _. split; [done|].
    intros (i & x & Hx & Hb). left. exists i, x. unfold objects. cbn. rewrite Hl. split; [by apply lookup_app_l_Some|done].
Qed.

Lemma mq_finish_open_sim s t i access oflag cred slot s' :
  good s -> at_pc s t = Opening i access oflag cred -> do_finish_open s t i access oflag cred slot = Some s' ->
  good s' /\ vsteps (view_of s) (view_of s').
Proof.
  intros Hg Hpc Hs. unfold do_finish_open in Hs. destruct (objects s !! i) as [q|] eqn:Hq; [|done]. cbn in Hs. injection Hs as <-.
  split; [|apply shell_moves; cbn; rewrite ?Hpc; auto]. apply mq_good_goto; [|done]. destruct Hg as [H1 H2 H3 H4].
  split; [done|done| |done]. cbn. unfold finish_open. intros fd f.
  destruct (check_open access cred q), slot as [fd'|]; cbn; try apply H3. intros [[<- <-]|[_ ?]]%lookup_insert_Some; [|by eapply H3].
  by eapply lookup_lt_Some.
Qed.

Lemma mq_unlink_sim s t name :
  good s -> at_pc s t = Out -> good (do_unlink s t name) /\ vsteps (view_of s) (view_of (do_unlink s t name)).
Proof.
  intros Hg Hpc. pose proof Hg as [H1 H2 H3 H4]. unfold do_unlink. pose proof (unlink_cases name (mqs s) H2) as H.
  pose proof (unlink_consistent name (mqs s) H2) as Hc. destruct (unlink name (mqs s)) as [[i|e] w]; cbn [snd] in Hc.
  2: { destruct H as [-> _]. assert (with_mqs (mqs s) s = s) as -> by (by destruct s). apply mq_stay; rewrite ?Hpc; auto. }
  destruct H as (_ & q & Hq & _ & ->). split.
  - apply mq_good_goto; [|done]. split; unfold objects in *; cbn; rewrite ?length_insert; done.
  - apply shell_change; cbn; rewrite ?Hpc; auto. intros _ j _ _. split; [done|]. intros (i' & x & Hx & Hb). left.
    unfold blocked_in, objects in *. cbn. destruct (decide (i' = i)) as [->|Hne].
    + exists i, (mark_removed q). rewrite list_lookup_insert_eq by (by eapply lookup_lt_Some). split; [done|].
      rewrite Hq in Hx. by simplify_eq.
    + exists i', x. by rewrite list_lookup_insert_ne.
Qed.

Lemma mq_leave_sim s t c e again :
  good s -> at_pc s t = Leave c e again -> good (do_leave s t c e again) /\ vsteps (view_of s) (view_of (do_leave s t c e again)).
Proof.
  intros Hg Hpc. assert (Hi : (c_queue c < length (objects s))%nat) by (apply (good_pcs _ Hg t); by rewrite Hpc). split.
  - apply mq_good_goto; [auto|]. by intros j [= <-].
  - apply (shell_leave reg_of duty_of _ _ _ _ _ _ t _ (mk_reg () (waits_in c) e false)); cbn; rewrite ?Hpc; try done;
      left; by apply waits_in_bound.
Qed.

Lemma mq_move_sim s s' : good s -> move s s' -> good s' /\ vsteps (view_of s) (view_of s').
Proof.
  intros Hg Hm. destruct Hm as
    [s t fd f prio d pid uid dl Hpc Hal Hf|s t fd f len dl Hpc Hal Hf|s t c s' Hpc Hs|s t c stop Hpc|s t c Hpc Hal
    |s t c e ex Hpc|s t c e s' Hpc Hs|s t c e stop Hpc|s t c e Hpc Ha|s t c e again Hpc|s t c e again Hpc
    |s t fd f len s' Hpc Hal Hf Hac Hs|s t fd f buf s' Hpc Hal Hf Hac Hs|s t fd f q ev cred pid Hpc Hal Hf Hq|s t i k pid s' Hpc Hs
    |s t name oflag mode a umask cred Hpc Hal|s t i access oflag cred slot s' Hpc Hsl Hs|s t name Hpc Hal|s t fd f Hpc Hal Hf
    |s fd f nb Hf|s t q n Hpc|s t t' ts n Hpc|s t n Hpc|s t k k' Hk Hw].
  - apply mq_move_on; rewrite ?Hpc; auto. intros i [= <-]. by eapply good_files.
  - apply mq_move_on; rewrite ?Hpc; auto. intros i [= <-]. by eapply good_files.
  - by eapply mq_try_sim.
  - apply mq_stay; rewrite ?Hpc; destruct stop; auto.
  - unfold do_prepare. destruct (prepare_to_wait _ _ _) as [w e] eqn:Ep.
    assert (Hi : (c_queue c < length (objects s))%nat) by (apply (good_pcs _ Hg t); by rewrite Hpc).
    split; [apply mq_good_goto; [auto|]; destruct (c_deadline c); by intros j [= <-]|].
    apply (shell_enter reg_of duty_of _ _ _ _ _ _ t _ () (waits_in c) Sleeping w e); cbn; rewrite ?Hpc;
      try done; try (by destruct (c_deadline c)); (exact Ep || by apply waits_in_bound).
  - apply mq_stay; rewrite ?Hpc; destruct ex; auto.
  - by eapply mq_recheck_sim.
  - destruct stop; [|apply mq_stay; rewrite ?Hpc; auto].
    apply (mq_uncommit s t (mk_reg () (waits_in c) e true)); by rewrite ?Hpc.
  - apply (mq_uncommit s t (mk_reg () (waits_in c) e true)); by rewrite ?Hpc.
  - by apply mq_leave_sim.
  - assert (Hi : (c_queue c < length (objects s))%nat) by (apply (good_pcs _ Hg t); by rewrite Hpc). split.
    + apply mq_good_goto; [auto|]. destruct again; naive_solver.
    + apply shell_tasks; cbn; rewrite ?Hpc; [apply (finish_no_sleep (world_of s 0))|by destruct again..].
  - by eapply mq_read_sim.
  - by eapply mq_write_sim.
  - apply mq_move_on; rewrite ?Hpc; try done; destruct (notify_request _ _ _ _) as [[k p]|]; try done; [|by left..].
    intros i [= <-]. by eapply good_files.
  - by eapply mq_register_sim.
  - by apply mq_open_sim.
  - by eapply mq_finish_open_sim.
  - by apply mq_unlink_sim.
  - split.
    + apply mq_good_goto; [|done]. destruct Hg as [H1 H2 H3 H4]. split; [done|done| |done].
      cbn. intros fd' f' [_ ?]%lookup_delete_Some. by eapply H3.
    + apply shell_change; cbn; rewrite ?Hpc; auto.
  - destruct Hg as [H1 H2 H3 H4]. split; [|apply vsteps_refl; reflexivity]. split; [done|done| |done].
    cbn. intros fd' f' [[<- <-]|[_ ?]]%lookup_insert_Some; [apply (H3 fd f Hf)|by eapply H3].
  - unfold do_drain. destruct (drain (world_of s q)) as [w ts] eqn:Ed. split.
    + apply mq_good_goto; [auto|]. intros i E. apply (good_pcs _ Hg t). by rewrite Hpc.
    + apply (shell_drain reg_of duty_of _ _ _ _ _ _ t _ q w ts); cbn; rewrite ?Hpc; try done; exact Ed.
  - split.
    + apply mq_good_goto; [auto|]. intros i E. apply (good_pcs _ Hg t). by rewrite Hpc.
    + apply (shell_wake reg_of duty_of _ _ _ _ _ _ t _ t' ts); cbn; by rewrite ?Hpc.
  - split.
    + apply mq_good_goto; [auto|]. intros i E. apply (good_pcs _ Hg t). rewrite Hpc. by destruct n.
    + apply shell_done; cbn; rewrite ?Hpc; [done|by destruct n].
  - split; [auto|]. eapply vsteps_once; [by apply (vs_states (view_of s)), set_task_no_sleep|done].
Qed.

(** ** No lost wake-ups *)

(** What is left to do for a task that wakes. *)
Inductive waker_move : system -> system -> Prop :=
| waker_drain s t q n : at_pc s t = WakeUp q n -> waker_move s (do_drain s t q n)
| waker_wake s t t' ts n : at_pc s t = Waking (t' :: ts) n -> waker_move s (do_wake s t t' ts n).

(** Such a step moves one task, which is not one that has decided to wait. *)
Lemma mq_waker_mover s s' :
  waker_move s s' -> exists t p, at_pc s' = <[t := p]> (at_pc s)
    /\ forall r, reg_of (at_pc s t) = Some r -> r_committed r = false.
Proof.
  destruct 1 as [s t q n Hpc|s t t' ts n Hpc]; exists t; rewrite Hpc.
  - unfold do_drain. destruct (drain _). eexists. split; [done|]. destruct n; naive_solver.
  - eexists. split; [done|]. destruct n; naive_solver.
Qed.

#[export] Program Instance mq_waiting : Waiting system pc unit := {
  w_at := at_pc; w_view := view_of; w_boot := boot; w_move := move; w_waker := waker_move; w_good := good
}.
Next Obligation.
  intros s (Hs & Hf & Hq & _ & Hpc). split.
  - split; [rewrite Hq; unfold objects; by rewrite Hs|rewrite Hs; apply mq_new_consistent| |].
    + intros fd f. rewrite Hf. by rewrite lookup_empty.
    + intros t i. by rewrite Hpc.
  - split; cbn; [intros t r; by rewrite Hpc|]. intros q e. rewrite Hq. by intros ?%elem_of_nil.
Qed.
Next Obligation. intros s s' Hg _ Hm. by apply mq_move_sim. Qed.
Next Obligation. destruct 1; eauto using move_drain, move_wake. Qed.
Next Obligation.
  intros s s' t r Hs Hr Hc. cbn in *. destruct (mq_waker_mover s s' Hs) as (t0 & p & -> & Hno).
  rewrite fn_lookup_insert_ne; [done|]. intros ->. apply Hno in Hr. congruence.
Qed.
Next Obligation.
  intros s k q _ Hk. cbn in Hk. destruct (at_pc s k) as [| | | | | | | | | | | |q' n|] eqn:Hpc; try discriminate Hk.
  injection Hk as ->. exists s, (do_drain s k q n). split_and!; [done|by constructor|cbn; by rewrite Hpc|].
  destruct (drain (v_world (view_of s) q)) as [w ts] eqn:Ed. unfold do_drain.
  change (world_of s q) with (v_world (view_of s) q). rewrite Ed.
  apply (shell_drain_view reg_of duty_of); cbn; rewrite ?Hpc; try done; exact Ed.
Qed.
Next Obligation.
  intros s k t' ts Hk. cbn in Hk. destruct (at_pc s k) as [| | | | | | | | | | | | |l n] eqn:Hpc; try discriminate Hk.
  injection Hk as ->. exists (do_wake s k t' ts n). split; [by constructor|].
  apply (shell_wake_view reg_of duty_of); cbn; by rewrite ?Hpc.
Qed.
