(* ===== verification/MqueueProps.v ===== *)
(** * POSIX message queues: properties

    A queue is a list in the order of priorities; the names of queues; no wake-up is
    lost; and where the calls do not keep to the rights of descriptors and processes,
    or to what they promise. *)

From stdpp Require Import gmap functions strings sorting.
From S2P Require Import Prelude Cred Ipc WaitQueue WaitQueueProofs Mqueue MqueueProofs.

(** ** A queue is a list of messages *)

(** The reference: one list, and the process that is to be told. *)
Record spec : Type := mk_spec {
  s_maxmsg : Z; s_msgsize : Z; s_list : list MqMessage; s_notify : option MqNotification; s_removed : bool
}.

Inductive op : Type :=
| Send (p : Z) (d : list Z) (pid uid : Z) (nonblock : bool)
| Receive (maxsize : Z) (nonblock : bool)
| Register_for (k : MqNotifyKind) (pid : Z)
| Poll
| Unlink.
Inductive answer : Type :=
| Sends (r : result (bool * option MqNotification) Errno)
| Receives (r : result (option MqMessage) Errno)
| Registers (r : result unit Errno)
| Ready (input output hup : bool)
| Unlinks.

Definition spec_send (p : Z) (d : list Z) (pid uid : Z) (nonblock : bool) (σ : spec)
  : result (bool * option MqNotification) Errno * spec :=
  let '(mk_spec mx sz l n g) := σ in
  if MQ_PRIO_MAX <=? p then (Err EINVAL, σ)
  else if sz <? Z.of_nat (length d) then (Err EMSGSIZE, σ)
  else if mx <=? Z.of_nat (length l) then (if nonblock then Err EAGAIN else Ok (false, None), σ)
  else match l with
       | [] => (Ok (true, (fun x => mk_notification (kind x) (notify_pid x) pid uid) <$> n), mk_spec mx sz [mk_msg p d] None g)
       | _ => (Ok (true, None), mk_spec mx sz (put (mk_msg p d) l) n g)
       end.

Definition spec_receive (maxsize : Z) (nonblock : bool) (σ : spec) : result (option MqMessage) Errno * spec :=
  let '(mk_spec mx sz l n g) := σ in
  if as_isize maxsize <? sz then (Err EMSGSIZE, σ)
  else match l with
       | [] => (if nonblock then Err EAGAIN else Ok None, σ)
       | m :: l => (Ok (Some m), mk_spec mx sz l n g)
       end.

Definition spec_register (k : MqNotifyKind) (pid : Z) (σ : spec) : result unit Errno * spec :=
  let '(mk_spec mx sz l n g) := σ in
  match k with
  | NotifyNone => (Ok (), mk_spec mx sz l None g)
  | _ =>
      if g then (Err EINVAL, σ)
      else match n with
           | Some x => if notify_pid x =? pid then (Ok (), mk_spec mx sz l (Some (mk_notification k pid 0 0)) g) else (Err EBUSY, σ)
           | None => (Ok (), mk_spec mx sz l (Some (mk_notification k pid 0 0)) g)
           end
  end.

Definition spec_step (o : op) (σ : spec) : answer * spec :=
  match o with
  | Send p d pid uid nonblock => let '(r, σ) := spec_send p d pid uid nonblock σ in (Sends r, σ)
  | Receive maxsize nonblock => let '(r, σ) := spec_receive maxsize nonblock σ in (Receives r, σ)
  | Register_for k pid => let '(r, σ) := spec_register k pid σ in (Registers r, σ)
  | Poll =>
      (Ready (bool_decide (s_list σ <> [])) ((Z.of_nat (length (s_list σ)) <? s_maxmsg σ) && negb (s_removed σ)) (s_removed σ), σ)
  | Unlink => (Unlinks, mk_spec (s_maxmsg σ) (s_msgsize σ) (s_list σ) (s_notify σ) true)
  end.

(** The queue itself. *)
Definition mq_step (o : op) (q : MqObject) : exec (answer * MqObject) :=
  match o with
  | Send p d pid uid nonblock => let '(r, q) := try_send p d pid uid nonblock q in mret (Sends r, q)
  | Receive maxsize nonblock => '(r, q) ← try_receive maxsize nonblock q; mret (Receives r, q)
  | Register_for k pid => let '(r, q) := register_notify k pid q in mret (Registers r, q)
  | Poll =>
      let bit b := negb (poll b q =? 0) in mret (Ready (bit POLLIN) (bit POLLOUT) (bit POLLHUP), q)
  | Unlink => mret (Unlinks, mark_removed q)
  end.

Fixpoint spec_run (ops : list op) (σ : spec) : list answer * spec :=
  match ops with
  | [] => ([], σ)
  | o :: ops => let '(x, σ) := spec_step o σ in let '(l, σ) := spec_run ops σ in (x :: l, σ)
  end.
Fixpoint mq_run (ops : list op) (q : MqObject) : exec (list answer * MqObject) :=
  match ops with
  | [] => mret ([], q)
  | o :: ops => '(x, q) ← mq_step o q; '(l, q) ← mq_run ops q; mret (x :: l, q)
  end.

(** A queue and its reference. *)
Definition matches (q : MqObject) (σ : spec) : Prop :=
  holds q (s_list σ) /\ maxmsg q = s_maxmsg σ /\ msgsize q = s_msgsize σ /\ notify q = s_notify σ /\ removed q = s_removed σ.

Lemma send_matches p d pid uid nonblock q σ :
  matches q σ ->
  (try_send p d pid uid nonblock q).1 = (spec_send p d pid uid nonblock σ).1
  /\ matches (try_send p d pid uid nonblock q).2 (spec_send p d pid uid nonblock σ).2.
Proof.
  destruct σ as [mx sz l n g]. intros (Hh & Hmx & Hsz & Hn & Hg). cbn in *.
  pose proof (mq_try_send_spec p d pid uid nonblock q l Hh) as Hs. unfold try_send, spec_send, validate_priority, refuse in *.
  destruct (MQ_PRIO_MAX <=? p); [done|]. rewrite Hsz in *. destruct (sz <? _); [done|].
  assert (full q = (mx <=? Z.of_nat (length l))) as Hf by (unfold full; by rewrite (holds_count _ _ Hh), Hmx).
  rewrite Hf in *. destruct (mx <=? _); [by destruct nonblock|]. destruct Hs as (_ & _ & _ & _ & Hh' & Hdue).
  assert (Hz : (curmsgs q =? 0) = match l with [] => true | _ => false end) by (rewrite (holds_count _ _ Hh); by destruct l).
  rewrite Hz in *. unfold matches. destruct l as [|x l]; cbn [fst snd] in *; rewrite <- ?Hn; by split_and!.
Qed.

Lemma receive_matches maxsize nonblock q σ :
  matches q σ -> exists q', try_receive maxsize nonblock q = Done ((spec_receive maxsize nonblock σ).1, q')
    /\ matches q' (spec_receive maxsize nonblock σ).2.
Proof.
  destruct σ as [mx sz l n g]. intros (Hh & Hmx & Hsz & Hn & Hg). cbn in *.
  destruct (mq_try_receive_spec maxsize nonblock q l Hh) as (r & q' & -> & Hr). exists q'. rewrite Hsz in Hr.
  destruct r as [[m|]|e].
  - destruct Hr as (Hle & l' & -> & Hh' & E). rewrite (proj2 (Z.ltb_ge _ _)) by done. split; [done|].
    split_and!; [done|by rewrite E..].
  - destruct Hr as (Hle & -> & -> & ->). by rewrite (proj2 (Z.ltb_ge _ _)).
  - destruct Hr as (-> & [(-> & Hlt)|(-> & Hle & -> & ->)]); [by rewrite (proj2 (Z.ltb_lt _ _))|by rewrite (proj2 (Z.ltb_ge _ _))].
Qed.

Lemma register_matches k pid q σ :
  matches q σ ->
  (register_notify k pid q).1 = (spec_register k pid σ).1 /\ matches (register_notify k pid q).2 (spec_register k pid σ).2.
Proof.
  destruct σ as [mx sz l n g]. intros (Hh & Hmx & Hsz & Hn & Hg). cbn in *.
  assert (Hw : forall o, holds (with_notify o q) l) by (intros o; by destruct Hh).
  unfold register_notify, spec_register, matches. rewrite Hg, Hn. 
  destruct k; cbn [bool_decide]; rewrite ?bool_decide_true, ?bool_decide_false by done; [by split_and!; try apply Hw|..];
    (destruct g; [by split_and!|]); (destruct n as [x|]; [destruct (notify_pid x =? pid)|]); by split_and!; try apply Hw.
Qed.

(** The bits of [readiness]. *)
Lemma poll_bits q :
  negb (poll POLLIN q =? 0) = has_messages q /\ negb (poll POLLOUT q =? 0) = has_space q
  /\ negb (poll POLLHUP q =? 0) = removed q.
Proof. unfold poll, readiness. destruct (has_messages q), (has_space q), (removed q); done. Qed.

Lemma step_matches o q σ :
  matches q σ -> exists q', mq_step o q = Done ((spec_step o σ).1, q') /\ matches q' (spec_step o σ).2.
Proof.
  intros Hm. destruct o as [p d pid uid nb|maxsize nb|k pid| |]; cbn [mq_step spec_step].
  - destruct (send_matches p d pid uid nb q σ Hm) as [E ?]. destruct (try_send _ _ _ _ _ q) as [r q'], (spec_send _ _ _ _ _ σ).
    cbn in *. subst. by exists q'.
  - destruct (receive_matches maxsize nb q σ Hm) as (q' & -> & ?). destruct (spec_receive _ _ σ). by exists q'.
  - destruct (register_matches k pid q σ Hm) as [E ?]. destruct (register_notify _ _ q) as [r q'], (spec_register _ _ σ).
    cbn in *. subst. by exists q'.
  - exists q. split; [|done]. destruct (poll_bits q) as (-> & -> & ->). destruct Hm as (Hh & Hmx & _ & _ & Hg).
    unfold has_messages, has_space. rewrite (holds_count _ _ Hh), Hmx, Hg. do 2 f_equal. cbn [s_list].
    by destruct (s_list σ).
  - destruct Hm as ([] & ? & ? & ? & ?). eexists. split; [done|]. by split.
Qed.

(** C18. A queue does what a list of messages in the order of their priorities does.
    For any sequence of sends, receives, registrations, polls and an unlink, on a
    queue that [mq_open] can make: no step panics, and the answers are those of the
    reference.  There a message goes behind all whose priority is not lower, a
    receive takes the head, a send fails or waits exactly when the list is as long
    as allowed, a registration is told once, by the first send to an empty list, and
    after an unlink everything but registering and polling goes on as before.  The
    messages that are left are those of the reference, highest priority first. *)
Theorem mq_refines ops a mode cred :
  validate_attr a cred = Ok () ->
  let '(l, σ) := spec_run ops (mk_spec (attr_maxmsg a) (attr_msgsize a) [] None false) in
  exists q, mq_run ops (new_mq a mode cred) = Done (l, q) /\ holds q (s_list σ) /\ StronglySorted no_lower (s_list σ).
Proof.
  intros [Ha _]%validate_attr_Ok. set (σ0 := mk_spec _ _ _ _ _). set (q0 := new_mq a mode cred).
  assert (Hm : matches q0 σ0) by (split; [apply new_mq_holds; lia|done]). clearbody σ0 q0. revert q0 σ0 Hm.
  induction ops as [|o ops IH]; intros q σ Hm; cbn [spec_run mq_run].
  - exists q. destruct Hm as (Hh & _). split_and!; [done|done|]. apply (rep_sorted _ _ (holds_list _ _ Hh)).
  - destruct (step_matches o q σ Hm) as (q1 & -> & Hm1). destruct (spec_step o σ) as [x σ1]. specialize (IH q1 σ1 Hm1).
    destruct (spec_run ops σ1) as [l σ2]. destruct IH as (q2 & E & ?). exists q2. cbn. by rewrite E.
Qed.

(** Priorities 1, 5, 1, 5: the two of 5 come first, each pair in its order. *)
Definition mixed : list op :=
  [Register_for (Signal 10 7) 100; Send 1 [1] 200 300 true; Send 5 [2] 200 300 true; Send 1 [3] 200 300 true;
   Send 5 [4] 200 300 true; Poll; Unlink; Receive 8 true; Receive 8 true; Receive 8 true; Poll].
Definition four : MqAttr := mk_attr 4 8 0.

Lemma mq_refines_witness :
  (spec_run mixed (mk_spec 4 8 [] None false)).1
  = [Registers (Ok ()); Sends (Ok (true, Some (mk_notification (Signal 10 7) 100 200 300))); Sends (Ok (true, None));
     Sends (Ok (true, None)); Sends (Ok (true, None)); Ready true false false; Unlinks;
     Receives (Ok (Some (mk_msg 5 [2]))); Receives (Ok (Some (mk_msg 5 [4]))); Receives (Ok (Some (mk_msg 1 [1])));
     Ready true false true]
  /\ let '(l, σ) := spec_run mixed (mk_spec 4 8 [] None false) in
     exists q, mq_run mixed (new_mq four 0x180 root) = Done (l, q) /\ holds q (s_list σ) /\ StronglySorted no_lower (s_list σ).
Proof. split; [vm_compute; reflexivity|]. exact (mq_refines mixed four 0x180 root ltac:(vm_compute; reflexivity)). Defined.

(** ** Running the system *)

(** The next step of a task that is under way, without signals and before any
    deadline; [slot] is the number that a file that is opened gets. *)
Definition advance (slot : nat) (s : system) (t : nat) : option system :=
  match at_pc s t with
  | Out => None
  | Try c => do_try s t c
  | Check1 c => Some (goto t (Prepare c) s)
  | Prepare c => if bool_decide (is_Some (all_tasks s !! t)) then Some (do_prepare s t c) else None
  | Arm c e => Some (goto t (Recheck c e) s)
  | Recheck c e => do_recheck s t c e
  | Check2 c e => Some (goto t (Asleep c e) s)
  | Asleep c e => if bool_decide (asleep (world_of s 0) t) then None else Some (goto t (Leave c e true) s)
  | Leave c e again => Some (do_leave s t c e again)
  | LeaveTask c e again => Some (do_leave_task s t c e again)
  | Opening i access oflag cred =>
      match files s !! slot with None => do_finish_open s t i access oflag cred (Ok slot) | Some _ => None end
  | Registering i k pid => do_register s t i k pid
  | WakeUp q n => Some (do_drain s t q n)
  | Waking [] n => Some (goto t (go_on n) s)
  | Waking (t' :: ts) n => Some (do_wake s t t' ts n)
  end.

Lemma mq_advance_moves slot s t s' : advance slot s t = Some s' -> move s s'.
Proof.
  unfold advance. intros H.
  destruct (at_pc s t) as [|c|c|c|c e|c e|c e|c e|c e again|c e again|i access oflag cred|i k pid|q n|[|t' ts] n] eqn:Hpc.
  - done.
  - by eapply move_try.
  - simplify_eq. by apply (move_check1 s t c false).
  - case_bool_decide; [|done]. simplify_eq. by apply move_prepare.
  - simplify_eq. by apply (move_arm s t c e false).
  - by eapply move_recheck.
  - simplify_eq. by apply (move_check2 s t c e false).
  - case_bool_decide; [done|]. simplify_eq. by apply move_resume.
  - simplify_eq. by apply move_leave.
  - simplify_eq. by apply move_leave_task.
  - destruct (files s !! slot) eqn:Hf; [done|]. apply (move_finish_open s t i access oflag cred (Ok slot)); [done|by intros fd [= <-]|done].
  - by eapply move_register.
  - simplify_eq. by apply move_drain.
  - simplify_eq. by apply move_woken.
  - simplify_eq. by apply move_wake.
Qed.

(** Calls of processes, and steps of tasks that are under way. *)
Inductive act : Type :=
| Opens (t : nat) (name : string) (oflag mode : Z) (a : option MqAttr) (cred : Credentials)
| Timedsend (t fd : nat) (prio : Z) (d : list Z) (cred : Credentials)
| Timedreceive (t fd : nat) (len : Z)
| Notifies (t fd : nat) (ev : option sigevent) (cred : Credentials)
| Go (t slot : nat).

Definition idle (s : system) (t : nat) : bool :=
  match at_pc s t with Out => bool_decide (is_Some (all_tasks s !! t)) | _ => false end.

Definition perform (x : act) (s : system) : option system :=
  match x with
  | Opens t name oflag mode a cred => if idle s t then Some (do_open s t name oflag mode a None cred) else None
  | Timedsend t fd prio d cred =>
      f ← files s !! fd;
      if idle s t then Some (goto t (Try (timedsend f prio d (Z.of_nat t) (uid cred) false)) s) else None
  | Timedreceive t fd len =>
      f ← files s !! fd; if idle s t then Some (goto t (Try (timedreceive f len false)) s) else None
  | Notifies t fd ev cred =>
      f ← files s !! fd;
      q ← objects s !! f_queue f;
      if idle s t then
        Some (goto t (match notify_request ev cred (Z.of_nat t) q with
                      | Ok (k, pid) => Registering (f_queue f) k pid
                      | Err _ => Out
                      end) s)
      else None
  | Go t slot => advance slot s t
  end.

Lemma mq_idle s t : idle s t = true -> at_pc s t = Out /\ is_Some (all_tasks s !! t).
Proof. unfold idle. destruct (at_pc s t); try done. by intros ?%bool_decide_eq_true. Qed.

Lemma mq_perform_moves x s s' : perform x s = Some s' -> move s s'.
Proof.
  destruct x as [t name oflag mode a cred|t fd prio d cred|t fd len|t fd ev cred|t slot]; cbn [perform];
    [|destruct (files s !! fd) as [f|] eqn:Ef; [|done]; cbn..|apply mq_advance_moves].
  4: destruct (objects s !! f_queue f) as [q|] eqn:Eq; [|done]; cbn.
  all: destruct (idle s t) eqn:E; try done; apply mq_idle in E as [Ho Hal]; intros [= <-].
  - by apply move_open.
  - by eapply move_send.
  - by eapply move_receive.
  - by eapply move_notify.
Qed.

Fixpoint run (l : list act) (s : system) : option system :=
  match l with
  | [] => Some s
  | x :: l => s ← perform x s; run l s
  end.

Definition start : system :=
  mk_system new_registry ∅ [] [] {[1%nat := mk_task Running false; 2%nat := mk_task Running false]} (fun _ => Out).
Definition after_run (l : list act) : system := default start (run l start).

Lemma mq_after l : match run l start with Some _ => true | None => false end = true -> rtc move start (after_run l).
Proof.
  unfold after_run. destruct (run l start) as [s'|] eqn:E; [|done]. intros _. cbn. revert E. generalize start.
  induction l as [|x l IH]; intros s; cbn; [by intros [= ->]|].
  destruct (perform x s) as [s1|] eqn:E; [|done]. cbn. intros H. eapply rtc_l; [by eapply mq_perform_moves|by apply IH].
Qed.

(** ** Waiting *)

(** A sender need not wait for room, or a receiver for a message. *)
Definition may_go_on (c : call) (q : MqObject) : Prop :=
  match c_req c with Sending _ _ _ _ => full q = false | Receiving _ => curmsgs q <> 0 end.

(** C19. Waiting for room and for messages, for any number of tasks, queues and open
    files and all interleavings of the calls, of [read] and [write], of deadlines,
    signals, unlinks and closes: a task that sleeps while its queue has room, or a
    message for it, is on its way to be woken.  What is left to do for the tasks that
    changed the queue, without any other step, makes it runnable, and it is runnable
    when nothing is left.  Unlike for System V queues there is no exception: the
    waiters are woken before the message is copied to its user. *)
Theorem mq_no_lost_wakeup s0 s t c e q :
  boot s0 -> rtc move s0 s -> at_pc s t = Asleep c e -> objects s !! c_queue c = Some q -> may_go_on c q ->
  (exists s', rtc waker_move s s' /\ ~ asleep (world_of s' 0) t /\ at_pc s' t = Asleep c e)
  /\ ((forall k, duty_of (at_pc s k) = Nothing \/ duty_of (at_pc s k) = Wakes []) -> ~ asleep (world_of s 0) t).
Proof.
  intros Hb Hr Hpc Hq Hn. destruct (no_lost_wakeup (W := mq_waiting) s0 s t (mk_reg () (waits_in c) e true) Hb Hr)
    as [(s' & Hw & Ha & Hat) Hrest]; [cbn; by rewrite Hpc|done| |].
  - cbn. intros (i & x & Hx & Hbl). unfold blocked_at, waits_in, may_go_on in *.
    destruct (c_req c), Hbl as [[E Hf]|[E Hf]]; try (by apply lists_apart in E); try (by symmetry in E; apply lists_apart in E).
    + rewrite (lists_inj (c_queue c) i) in Hq by auto. congruence.
    + rewrite (lists_inj (c_queue c) i) in Hq by auto. congruence.
  - split; [exists s'; cbn in Hat; by rewrite <- Hpc|exact Hrest].
Qed.

Definition user : Credentials := unprivileged 1000 1000.
Definition O_RDWR : Z := 2.
(** Process 1 makes a queue for one message and fills it; process 2 waits to send. *)
Definition full_run : list act :=
  [Opens 1 "/q" (Z.lor O_RDWR O_CREAT) 0x180 (Some (mk_attr 1 8 0)) user; Go 1 0; Timedsend 1 0 3 [5] user; Go 1 0; Go 1 0; Go 1 0;
   Timedsend 2 0 4 [6] user] ++ replicate 5 (Go 2 0).
(** Process 1 takes the message. *)
Definition taken_run : list act := full_run ++ [Timedreceive 1 0 8; Go 1 0].
Definition second : call := mk_call 0 (Sending 4 [6] 2 1000) false false.
Definition emptied : MqObject := mk_mq 1000 1000 0x180 1 8 ∅ 0 None false.

Lemma mq_no_lost_wakeup_witness :
  asleep (world_of (after_run taken_run) 0) 2
  /\ (exists s', rtc waker_move (after_run taken_run) s' /\ ~ asleep (world_of s' 0) 2 /\ at_pc s' 2%nat = Asleep second 0)
  /\ ((forall k, duty_of (at_pc (after_run taken_run) k) = Nothing \/ duty_of (at_pc (after_run taken_run) k) = Wakes [])
      -> ~ asleep (world_of (after_run taken_run) 0) 2).
Proof.
  split; [exists (mk_task Sleeping false); split; vm_compute; reflexivity|].
  apply (mq_no_lost_wakeup start (after_run taken_run) 2 second 0 emptied);
    [done|apply mq_after; vm_compute; reflexivity|vm_compute; reflexivity..].
Defined.

(** ** Names *)

(** C20. Whatever the tasks do: names stand one to one for the queues that are not
    unlinked, there are at most [MQ_QUEUES_MAX] of them, every open file has a queue,
    and each queue has a list of senders and one of receivers.  The FIFOs of a queue
    are not empty and hold as many messages as it counts, never more than it allows,
    each of a valid size and priority.  No attempt to send or to receive panics. *)
Theorem mq_queues_invariant s0 s :
  boot s0 -> rtc move s0 s ->
  mq_consistent (mqs s) /\ length (lists s) = (2 * length (objects s))%nat
  /\ (forall fd f, files s !! fd = Some f -> is_Some (objects s !! f_queue f))
  /\ (forall i q c, objects s !! i = Some q -> exists r q', attempt c q = Done (r, q')).
Proof.
  intros Hb Hr. assert (Hg : good s).
  { apply (moves_sound (W := mq_waiting) s0); [by apply w_boot_good|exact Hr]. }
  split_and!; [apply Hg|apply Hg| |].
  - intros fd f Hf. apply lookup_lt_is_Some. by eapply good_files.
  - intros i q c Hq. destruct (mq_attempt_spec c q) as (r & q' & ? & _); [by eapply good_wf|]. eauto.
Qed.

Lemma mq_queues_invariant_witness :
  curmsgs <$> objects (after_run full_run) = [1] /\
  mq_consistent (mqs (after_run full_run)) /\ length (lists (after_run full_run)) = (2 * length (objects (after_run full_run)))%nat
  /\ (forall fd f, files (after_run full_run) !! fd = Some f -> is_Some (objects (after_run full_run) !! f_queue f))
  /\ (forall i q c, objects (after_run full_run) !! i = Some q -> exists r q', attempt c q = Done (r, q')).
Proof.
  split; [vm_compute; reflexivity|]. apply (mq_queues_invariant start); [done|apply mq_after; vm_compute; reflexivity].
Defined.

(** ** Opening *)

(** The registry with a new queue under a name that was free. *)
Definition created (name : string) (q : MqObject) (w w' : MqRegistry) : Prop :=
  w.1 !! name = None /\ w' = (<[name := length w.2]> w.1, w.2 ++ [q]).

Lemma check_open_Ok access cred q :
  check_open access cred q = Ok () ->
  (readable access = true -> can_read cred (perm_uid q) (perm_gid q) (perm_mode q) = true)
  /\ (writable access = true -> can_write cred (perm_uid q) (perm_gid q) (perm_mode q) = true).
Proof. unfold check_open, check_access, refuse. by destruct access; cbn; repeat case_match. Qed.

Lemma check_open_Err access cred q e : removed q = false -> check_open access cred q = Err e -> e = EACCES.
Proof. unfold check_open, check_access, refuse. intros ->. by destruct access; cbn; repeat case_match; intros; simplify_eq. Qed.

(** C21. [mq_open] on a registry whose names are in order: it does not panic and keeps
    them in order.  A file it opens has the access that was asked for, to the queue
    of the name, and the process may read or write the queue as it asked; the queue
    was there before, or is new because the flags asked for it.  A call that fails
    opens no file; but the queue it made on the way stays, if the process has no
    right to it or no descriptor is left. *)
Theorem mq_open_exact name oflag mode a umask cred slot w fs :
  mq_consistent w ->
  let new := new_mq (default default_new a) (created_mode mode umask) cred in
  let made w' := oflag_has oflag O_CREAT = true /\ created name new w w' in
  exists r w' fs', sys_mq_open name oflag mode a umask cred slot w fs = Done (r, (w', fs')) /\ mq_consistent w' /\
  match r with
  | Ok fd => slot = Ok fd /\ exists access i q,
      access_of oflag = Ok access /\ w'.1 !! name = Some i /\ w'.2 !! i = Some q
      /\ (readable access = true -> can_read cred (perm_uid q) (perm_gid q) (perm_mode q) = true)
      /\ (writable access = true -> can_write cred (perm_uid q) (perm_gid q) (perm_mode q) = true)
      /\ fs' = <[fd := mk_file i access (oflag_has oflag O_NONBLOCK) (oflag_has oflag O_NONBLOCK)]> fs
      /\ (w' = w /\ oflag_has oflag O_CREAT && oflag_has oflag O_EXCL = false \/ made w')
  | Err e => fs' = fs /\ (w' = w \/ made w' /\ (e = EACCES \/ slot = Err e))
  end.
Proof.
  intros Hc new made. unfold sys_mq_open, open_request. destruct (oflag_has oflag (Z.lxor _ _)); [eexists _, w, fs; split; [done|]; split; [done|]; split; [done|by left]|].
  destruct (access_of oflag) as [access|] eqn:Ea; [|eexists _, w, fs; split; [done|]; split; [done|]; split; [done|by left]].
  set (cr := oflag_has oflag O_CREAT) in *. set (ex := oflag_has oflag O_EXCL). set (m := created_mode mode umask) in *.
  pose proof (open_consistent name cr ex a m cred w Hc) as Hc'. pose proof (open_cases name cr ex a m cred w) as H.
  destruct (open _ _ _ _ _ _ w) as [[i|e] w']; cbn [snd] in Hc'; [|subst w'; eexists _, w, fs; split; [done|]; split; [done|]; split; [done|by left]].
  destruct H as (_ & H). assert (Hn : w'.1 !! name = Some i).
  { destruct H as [(? & -> & _)|(_ & _ & _ & _ & -> & ->)]; [done|apply lookup_insert_eq]. }
  assert (Hmade : w' = w /\ cr && ex = false \/ made w').
  { destruct H as [(_ & -> & ?)|(? & ? & _ & _ & -> & ->)]; [by left|right; by repeat split]. }
  destruct (mc_lookup _ _ _ Hc' Hn) as (q & Hq & Hr & _). rewrite Hq. cbn. unfold finish_open.
  destruct (check_open access cred q) as [[]|e] eqn:Eo, slot as [fd|e']; (do 3 eexists; split; [done|]; split; [done|]).
  - split; [done|]. exists access, i, q. destruct (check_open_Ok _ _ _ Eo). by split_and!.
  - split; [done|]. destruct Hmade as [[? _]|?]; auto.
  - apply check_open_Err in Eo; [|done]. split; [done|]. destruct Hmade as [[? _]|?]; auto.
  - apply check_open_Err in Eo; [|done]. split; [done|]. destruct Hmade as [[? _]|?]; auto.
Qed.

(** A queue that may be read only, by one who asks to read and to write. *)
Definition refused_open : exec (result nat Errno * (MqRegistry * gmap nat MqFile)) :=
  sys_mq_open "/q" (Z.lor (Z.lor O_RDWR O_CREAT) O_EXCL) 0x100 None None user (Ok 0%nat) new_registry ∅.

Lemma mq_open_exact_witness :
  let new := new_mq default_new 0x100 user in
  refused_open = Done (Err EACCES, ({["/q" := 0%nat]}, [new], ∅))
  /\ exists r w' fs', refused_open = Done (r, (w', fs')) /\ mq_consistent w' /\
     match r with
     | Ok fd => True
     | Err e => fs' = ∅ /\ (w' = new_registry \/ (true = true /\ created "/q" new new_registry w') /\ (e = EACCES \/ Ok 0%nat = Err e))
     end.
Proof.
  split; [vm_compute; reflexivity|].
  destruct (mq_open_exact "/q" (Z.lor (Z.lor O_RDWR O_CREAT) O_EXCL) 0x100 None None user (Ok 0%nat) new_registry ∅ mq_new_consistent)
    as (r & w' & fs' & E & Hc & H).
  exists r, w', fs'. split_and!; [exact E|exact Hc|]. destruct r; [exact I|exact H].
Defined.

(** A call of [mq_open] that is refused leaves a queue behind.  Process 1 asks to
    create a queue that it may only read, to read and to write it: it gets [EACCES],
    but from then on the name is taken, and asking for the same again gives
    [EEXIST]. *)
Theorem mq_open_refused_creates :
  exists w, refused_open = Done (Err EACCES, (w, ∅)) /\ is_Some (w.1 !! "/q"%string)
    /\ sys_mq_open "/q" (Z.lor (Z.lor O_RDWR O_CREAT) O_EXCL) 0x100 None None user (Ok 0%nat) w ∅ = Done (Err EEXIST, (w, ∅)).
Proof. eexists. split_and!; [vm_compute; reflexivity|by eexists; vm_compute|vm_compute; reflexivity]. Qed.

(** ** Rights *)

Definition O_RDONLY : Z := 0.

(** Root makes a queue that others may read; a user opens it to read and sends. *)
Definition shared_run : list act :=
  [Opens 1 "/q" (Z.lor O_RDWR O_CREAT) 0x1a4 None root; Go 1 0; Opens 2 "/q" O_RDONLY 0 None user; Go 2 1].


(** C23. The one registration of a queue is not safe from others.  A process that wants
    to be told gets [EBUSY] while another is registered; but any process with a
    descriptor can cancel that, and register itself then.  The next message to the
    empty queue is reported to it, and not to the process that registered first. *)
Theorem mq_notify_taken_away q n ev k cred pid p d spid suid :
  notify q = Some n -> notify_pid n <> pid -> notify_kind ev = Ok k -> k <> NotifyNone -> check_access false cred q = Ok () ->
  curmsgs q = 0 -> 1 <= maxmsg q -> p < MQ_PRIO_MAX -> Z.of_nat (length d) <= msgsize q ->
  sys_mq_notify (Some ev) cred pid q = (Err EBUSY, q)
  /\ exists q1 q2, sys_mq_notify None cred pid q = (Ok (), q1) /\ sys_mq_notify (Some ev) cred pid q1 = (Ok (), q2)
     /\ (try_send p d spid suid true q2).1 = Ok (true, Some (mk_notification k pid spid suid)).
Proof.
  intros Hn Hne Hk Hkn Hc Hz Hm Hp Hd. unfold sys_mq_notify, notify_request. rewrite Hk, bool_decide_false by done.
  assert (Hr : removed q = false) by (unfold check_access, refuse in Hc; by destruct (removed q)).
  assert (Hreg : forall q0, removed q0 = false -> register_notify k pid q0
    = if match notify q0 with Some n => negb (notify_pid n =? pid) | None => false end then (Err EBUSY, q0)
      else (Ok (), with_notify (Some (mk_notification k pid 0 0)) q0)).
  { intros q0 H0. unfold register_notify. by rewrite bool_decide_false, H0. }
  rewrite Hc, (Hreg q Hr), Hn, (proj2 (Z.eqb_neq _ _) Hne). split; [done|].
  exists (with_notify None q), (with_notify (Some (mk_notification k pid 0 0)) q). split; [done|].
  change (check_access false cred (with_notify None q)) with (check_access false cred q). rewrite Hc, Hreg by done. split; [done|].
  unfold try_send, validate_priority, refuse, full. cbn. rewrite Hz, (proj2 (Z.leb_gt _ _) Hp), (proj2 (Z.ltb_ge _ _) Hd).
  by rewrite (proj2 (Z.leb_gt _ _)) by lia.
Qed.

Definition watched : MqObject := with_notify (Some (mk_notification (Signal 10 0) 1 0 0)) (new_mq default_new 0x1a4 root).

Lemma mq_notify_taken_away_witness :
  let ev := mk_sigevent 0 12 SIGEV_SIGNAL 0 in
  sys_mq_notify (Some ev) user 2 watched = (Err EBUSY, watched)
  /\ exists q1 q2, sys_mq_notify None user 2 watched = (Ok (), q1) /\ sys_mq_notify (Some ev) user 2 q1 = (Ok (), q2)
     /\ (try_send 0 [1] 3 0 true q2).1 = Ok (true, Some (mk_notification (Signal 12 0) 2 3 0)).
Proof.
  apply (mq_notify_taken_away watched (mk_notification (Signal 10 0) 1 0 0) (mk_sigevent 0 12 SIGEV_SIGNAL 0) (Signal 12 0) user 2);
    try done; vm_compute; try reflexivity; discriminate.
Defined.

(** [mq_getsetattr] reports the new flags as the old ones. *)
Lemma mq_setattr_reports_new cred q f :
  check_access false cred q = Ok () -> f_nonblock f = false ->
  (sys_mq_getsetattr (Some O_NONBLOCK) cred q f).1 = Ok (O_NONBLOCK, attr q).
Proof. intros Hc Hf. unfold sys_mq_getsetattr. by rewrite Hc, Hf. Qed.

(** A queue without a name takes messages, but is not ready to for [poll]. *)
Lemma mq_poll_after_unlink q :
  0 <= msgsize q -> curmsgs q < maxmsg q -> removed q = true ->
  poll POLLOUT q = 0 /\ exists due, (try_send 0 [] 0 0 true q).1 = Ok (true, due).
Proof.
  intros Hs Hm Hr. split.
  - unfold poll, readiness, has_space. rewrite Hr, andb_false_r. by destruct (has_messages q).
  - unfold try_send, full. cbn. rewrite (proj2 (Z.ltb_ge _ _)), (proj2 (Z.leb_gt _ _)) by done. by eexists.
Qed.

(** ** The directory *)

(** The file system of the queues cannot reach any of them.  The names of queues
    start with a slash, but the names by which a directory is searched have none:
    looking up, creating and unlinking any name in the directory fails with
    [InvalidArgument], whatever queues there are, and changes nothing. *)
Theorem mq_directory_unusable name mode cred w :
  contains_slash name = false ->
  (name <> "."%string -> name <> ".."%string -> root_lookup name w = Err InvalidArgument)
  /\ root_create name mode cred w = (Err InvalidArgument, w)
  /\ root_unlink name w = (Err InvalidArgument, w).
Proof.
  intros Hs. assert (Hv : validate_name name = Err EINVAL).
  { destruct name as [|c rest]; [done|]. cbn in *. by destruct (Ascii.eqb c SLASH). }
  unfold root_lookup, root_create, root_unlink, open, unlink. rewrite Hv. split_and!; [|done..]. intros H1 H2.
  by rewrite !bool_decide_false.
Qed.

Lemma mq_directory_unusable_witness :
  let w := mqs (after_run shared_run) in
  is_Some (w.1 !! "/q"%string) /\
  ("q"%string <> "."%string -> "q"%string <> ".."%string -> root_lookup "q" w = Err InvalidArgument)
  /\ root_create "q" 0x180 root w = (Err InvalidArgument, w)
  /\ root_unlink "q" w = (Err InvalidArgument, w).
Proof.
  split; [by eexists; vm_compute|]. exact (mq_directory_unusable "q" 0x180 root (mqs (after_run shared_run)) eq_refl).
Defined.
