(* ===== verification/Buddy.v ===== *)
(** * The physical page allocator

    The buddy allocator of [libs/allocator/src/buddy.rs] after its
    initialisation: the array of block descriptors with one slot per page, the
    free lists threaded through it, allocation by splitting, release by merging,
    the deferred merging of single pages, exact placement and the page cache.

    A pointer to a descriptor is its index in the array plus one, 0 is the null
    pointer; reading through a pointer outside the array, and indexing one of
    the fixed arrays out of range, is a [Panic].  Orders, segment numbers and
    free-list numbers are [nat], addresses and page counts [Z].  The counters of
    events wrap, as in a release build; the other sums are plain, and the
    invariant of [BuddyProofs] bounds them by the number of pages. *)

From S2P Require Import Prelude.

Definition PAGE_SIZE : Z := 4096.
(** [usize::BITS - PAGE_SHIFT - 1] *)
Definition MAX_TRACKED_ORDER : nat := 51.
Definition VM_NFREELIST : nat := 2.
Definition VM_FREELIST_DEFAULT : nat := 0.
Definition VM_FREELIST_DMA : nat := 1.
Definition DEFERRED_ORDER0_COALESCE_TARGET : nat := 128.
Definition DEFERRED_ORDER0_MIN_FREE_PERCENT : Z := 25.

Record MemorySegment : Type := mkRange { start : Z; size : Z }.
Definition seg_end (r : MemorySegment) : Z := saturating_add (start r) (size r).
#[global] Instance MemorySegment_eq_dec : EqDecision MemorySegment.
Proof. solve_decision. Defined.

Inductive BuddyNumaError : Type :=
| NumaNotInitialized | NumaInvalidRange | ConflictingRange | SegmentBoundaryMismatch.
Inductive BuddyAllocError : Type :=
| AllocNotInitialized | AllocInvalidOrder | AllocInvalidAddress | AllocBlockOutOfRange
| BlockNotFree | Fragmented | AllocMetadataOutOfMemory.
Inductive BuddyFreeError : Type :=
| FreeNotInitialized | FreeInvalidOrder | FreeInvalidAddress | FreeBlockOutOfRange
| NotAllocated | OrderMismatch | CorruptTail.

Record BuddySegment : Type := mkSegment {
  range : MemorySegment;
  total_pages : Z;
  max_order : nat;
  fl_type : nat;
  node_base : Z;
  numa_node_id : option Z }.

Inductive NodeState : Type := NODE_INACTIVE | NODE_FREE | NODE_ALLOCATED | NODE_CACHED.
#[global] Instance NodeState_eq_dec : EqDecision NodeState.
Proof. solve_decision. Defined.

Record BlockNode : Type := mkNode {
  n_start : Z;
  n_order : nat;
  n_seg_idx : nat;
  n_fl_type : nat;
  n_state : NodeState;
  n_cache_eligible : bool;
  n_ref_count : Z;
  n_slab_zone_id : Z;
  n_free_next : nat;
  n_free_prev : nat }.

Definition empty_node : BlockNode := mkNode 0 0 0 0 NODE_INACTIVE false 0 0 0 0.

Definition with_state (st : NodeState) (n : BlockNode) : BlockNode :=
  mkNode (n_start n) (n_order n) (n_seg_idx n) (n_fl_type n) st (n_cache_eligible n)
    (n_ref_count n) (n_slab_zone_id n) (n_free_next n) (n_free_prev n).
Definition with_next (p : nat) (n : BlockNode) : BlockNode :=
  mkNode (n_start n) (n_order n) (n_seg_idx n) (n_fl_type n) (n_state n)
    (n_cache_eligible n) (n_ref_count n) (n_slab_zone_id n) p (n_free_prev n).
Definition with_prev (p : nat) (n : BlockNode) : BlockNode :=
  mkNode (n_start n) (n_order n) (n_seg_idx n) (n_fl_type n) (n_state n)
    (n_cache_eligible n) (n_ref_count n) (n_slab_zone_id n) (n_free_next n) p.
Definition with_ref_count (c : Z) (n : BlockNode) : BlockNode :=
  mkNode (n_start n) (n_order n) (n_seg_idx n) (n_fl_type n) (n_state n)
    (n_cache_eligible n) c (n_slab_zone_id n) (n_free_next n) (n_free_prev n).
Definition with_slab_zone (z : Z) (n : BlockNode) : BlockNode :=
  mkNode (n_start n) (n_order n) (n_seg_idx n) (n_fl_type n) (n_state n)
    (n_cache_eligible n) (n_ref_count n) z (n_free_next n) (n_free_prev n).
Definition with_cache_eligible (n : BlockNode) : BlockNode :=
  mkNode (n_start n) (n_order n) (n_seg_idx n) (n_fl_type n) (n_state n)
    true (n_ref_count n) (n_slab_zone_id n) (n_free_next n) (n_free_prev n).

(** The counters of events, part of [BuddyStats] in the source. *)
Record BuddyEvents : Type := mkEvents {
  alloc_requests : Z;
  free_requests : Z;
  split_count : Z;
  coalesce_count : Z;
  deferred_coalesce_count : Z;
  deferred_reclaim_count : Z;
  chain_corruptions : Z;
  alloc_failures : Z }.

Definition no_events : BuddyEvents := mkEvents 0 0 0 0 0 0 0 0.

Record BuddyStats : Type := mkStats {
  st_total_pages : Z;
  allocated_pages : Z;
  free_pages_count : Z;
  reserved_pages : Z;
  metadata_pages : Z;
  st_max_order : nat;
  free_count_per_order : list nat;
  events : BuddyEvents }.

Record BuddyAllocator : Type := mkAllocator {
  segments : list BuddySegment;
  reserved_ranges : list MemorySegment;
  metadata_ranges : list MemorySegment;
  nodes : list BlockNode;
  node_used : nat;
  free_heads : list nat;
  initialized : bool;
  stats : BuddyStats }.

Definition node_capacity (s : BuddyAllocator) : Z := Z.of_nat (length (nodes s)).

Definition set_nodes (ns : list BlockNode) (s : BuddyAllocator) : BuddyAllocator :=
  mkAllocator (segments s) (reserved_ranges s) (metadata_ranges s) ns (node_used s)
    (free_heads s) (initialized s) (stats s).
Definition set_node_used (n : nat) (s : BuddyAllocator) : BuddyAllocator :=
  mkAllocator (segments s) (reserved_ranges s) (metadata_ranges s) (nodes s) n
    (free_heads s) (initialized s) (stats s).
Definition set_free_heads (hs : list nat) (s : BuddyAllocator) : BuddyAllocator :=
  mkAllocator (segments s) (reserved_ranges s) (metadata_ranges s) (nodes s) (node_used s)
    hs (initialized s) (stats s).
Definition set_stats (st : BuddyStats) (s : BuddyAllocator) : BuddyAllocator :=
  mkAllocator (segments s) (reserved_ranges s) (metadata_ranges s) (nodes s) (node_used s)
    (free_heads s) (initialized s) st.
Definition set_segments (segs : list BuddySegment) (s : BuddyAllocator) : BuddyAllocator :=
  mkAllocator segs (reserved_ranges s) (metadata_ranges s) (nodes s) (node_used s)
    (free_heads s) (initialized s) (stats s).

Definition set_allocated (v : Z) (t : BuddyStats) : BuddyStats :=
  mkStats (st_total_pages t) v (free_pages_count t) (reserved_pages t) (metadata_pages t)
    (st_max_order t) (free_count_per_order t) (events t).
Definition set_free (v : Z) (t : BuddyStats) : BuddyStats :=
  mkStats (st_total_pages t) (allocated_pages t) v (reserved_pages t) (metadata_pages t)
    (st_max_order t) (free_count_per_order t) (events t).
Definition set_reserved (v : Z) (t : BuddyStats) : BuddyStats :=
  mkStats (st_total_pages t) (allocated_pages t) (free_pages_count t) v (metadata_pages t)
    (st_max_order t) (free_count_per_order t) (events t).
Definition set_counts (v : list nat) (t : BuddyStats) : BuddyStats :=
  mkStats (st_total_pages t) (allocated_pages t) (free_pages_count t) (reserved_pages t)
    (metadata_pages t) (st_max_order t) v (events t).
Definition set_events (v : BuddyEvents) (t : BuddyStats) : BuddyStats :=
  mkStats (st_total_pages t) (allocated_pages t) (free_pages_count t) (reserved_pages t)
    (metadata_pages t) (st_max_order t) (free_count_per_order t) v.

(** The events, each counted by adding one. *)
Inductive Event : Type :=
| AllocRequest | FreeRequest | Split | Coalesce | DeferredCoalesce | DeferredReclaim
| ChainCorruption | AllocFailure.

Definition count_event (e : Event) (v : BuddyEvents) : BuddyEvents :=
  let '(mkEvents a f s c dc dr cc af) := v in
  let inc x := wrapping_add x 1 in
  match e with
  | AllocRequest => mkEvents (inc a) f s c dc dr cc af
  | FreeRequest => mkEvents a (inc f) s c dc dr cc af
  | Split => mkEvents a f (inc s) c dc dr cc af
  | Coalesce => mkEvents a f s (inc c) dc dr cc af
  | DeferredCoalesce => mkEvents a f s c (inc dc) dr cc af
  | DeferredReclaim => mkEvents a f s c dc (inc dr) cc af
  | ChainCorruption => mkEvents a f s c dc dr (saturating_add cc 1) af
  | AllocFailure => mkEvents a f s c dc dr cc (inc af)
  end.

(** ** Operations on the allocator *)

(** An operation reads and writes the allocator and may panic. *)
Definition M (A : Type) : Type := BuddyAllocator -> exec (A * BuddyAllocator).
#[global] Instance M_ret : MRet M := fun _ a s => Done (a, s).
#[global] Instance M_bind : MBind M := fun _ _ k m s =>
  match m s with Done (a, s') => k a s' | Panic => Panic end.

Definition get : M BuddyAllocator := fun s => Done (s, s).
Definition modify (f : BuddyAllocator -> BuddyAllocator) : M unit := fun s => Done (tt, f s).
Definition panic {A} : M A := fun _ => Panic.
Definition expect {A} (o : option A) : M A :=
  match o with Some a => mret a | None => panic end.
Definition map_stats (f : BuddyStats -> BuddyStats) : M unit :=
  modify (fun s => set_stats (f (stats s)) s).
Definition count (e : Event) : M unit :=
  map_stats (fun t => set_events (count_event e (events t)) t).

(** [1usize << order], in pages. *)
Definition block_pages (order : nat) : Z := Z.shiftl 1 (Z.of_nat order).
(** [order as u8], [seg_idx as u32]. *)
Definition as_u8 (n : nat) : nat := Z.to_nat (Z.of_nat n mod 256).
Definition as_u32 (n : nat) : nat := Z.to_nat (Z.of_nat n mod 4294967296).

Definition align_down (value align : Z) : Z := Z.land value (U64_MAX - (align - 1)).

Definition node_ref (p : nat) : M BlockNode := fun s =>
  match p with
  | O => Panic
  | S i => match nodes s !! i with Some n => Done (n, s) | None => Panic end
  end.

Definition node_mut (p : nat) (f : BlockNode -> BlockNode) : M unit := fun s =>
  match p with
  | O => Panic
  | S i => match nodes s !! i with
           | Some _ => Done (tt, set_nodes (alter f i (nodes s)) s)
           | None => Panic
           end
  end.

Definition free_head_index (fl order : nat) : nat := fl * (MAX_TRACKED_ORDER + 1) + order.

Definition free_head (fl order : nat) : M nat := fun s =>
  match free_heads s !! free_head_index fl order with
  | Some h => Done (h, s)
  | None => Panic
  end.

Definition set_free_head (fl order head : nat) : M unit := fun s =>
  match free_heads s !! free_head_index fl order with
  | Some _ => Done (tt, set_free_heads (<[free_head_index fl order := head]> (free_heads s)) s)
  | None => Panic
  end.

Definition free_count (order : nat) : M nat := fun s =>
  match free_count_per_order (stats s) !! order with
  | Some c => Done (c, s)
  | None => Panic
  end.

Definition set_free_count (order c : nat) : M unit :=
  map_stats (fun t => set_counts (<[order := c]> (free_count_per_order t)) t).

Definition note_chain_corruption : M unit := count ChainCorruption.

Definition segment (s : BuddyAllocator) (index : nat) : option BuddySegment :=
  segments s !! index.

Fixpoint page_location_from (seg_idx : nat) (segs : list BuddySegment) (addr : Z)
    : option (nat * Z) :=
  match segs with
  | [] => None
  | seg :: segs =>
      if (addr <? start (range seg)) || (seg_end (range seg) <=? addr)
      then page_location_from (S seg_idx) segs addr
      else
        let page_idx := (addr - start (range seg)) / PAGE_SIZE in
        if page_idx <? total_pages seg then Some (seg_idx, page_idx)
        else page_location_from (S seg_idx) segs addr
  end.

Definition page_location (s : BuddyAllocator) (addr : Z) : option (nat * Z) :=
  page_location_from 0 (segments s) addr.

Definition node_addr_for (s : BuddyAllocator) (addr : Z) : option nat :=
  if negb (addr mod PAGE_SIZE =? 0) then None else
  '(seg_idx, page_idx) ← page_location s addr;
  seg ← segment s seg_idx;
  node_idx ← checked_add (node_base seg) page_idx;
  if node_capacity s <=? node_idx then None else Some (S (Z.to_nat node_idx)).

(** The state of the descriptor behind a pointer of the array. *)
Definition state_at (s : BuddyAllocator) (p : nat) : NodeState :=
  match p with
  | O => NODE_INACTIVE
  | S i => match nodes s !! i with Some n => n_state n | None => NODE_INACTIVE end
  end.

Definition node_slot_is_inactive (s : BuddyAllocator) (addr : Z) : bool :=
  match node_addr_for s addr with
  | Some p => bool_decide (state_at s p = NODE_INACTIVE)
  | None => false
  end.

Definition hash_find (addr : Z) : M nat :=
  s ← get;
  match node_addr_for s addr with
  | None => mret 0%nat
  | Some p =>
      node ← node_ref p;
      mret (if bool_decide (n_state node = NODE_INACTIVE) || negb (n_start node =? addr)
            then 0%nat else p)
  end.

(** [compare_exchange] on the state of a descriptor, which counts as used until
    it succeeds. *)
Definition deactivate_node (p : nat) (expected : NodeState) : M bool :=
  node ← node_ref p;
  if bool_decide (n_state node = expected) then
    node_mut p (with_state NODE_INACTIVE);;
    modify (fun s => set_node_used (node_used s - 1) s);;
    mret true
  else mret false.

Definition recycle_node (p : nat) : M unit := node_mut p (fun _ => empty_node).

Definition initialize_node (p : nat) (start : Z) (order seg_idx fl : nat) (is_free : bool) : M unit :=
  node_mut p (fun _ =>
    mkNode start (as_u8 order) (as_u32 seg_idx) (as_u8 fl)
      (if is_free then NODE_FREE else NODE_ALLOCATED) false (if is_free then 0 else 1) 0 0 0).

Definition new_node (start : Z) (order seg_idx fl : nat) (is_free : bool) : M (option nat) :=
  s ← get;
  match node_addr_for s start with
  | None => mret None
  | Some p =>
      node ← node_ref p;
      if bool_decide (n_state node = NODE_INACTIVE) then
        initialize_node p start order seg_idx fl is_free;;
        modify (fun s => set_node_used (S (node_used s)) s);;
        mret (Some p)
      else mret None
  end.

Definition add_to_free_list (p : nat) : M unit :=
  node ← node_ref p;
  let fl := n_fl_type node in
  let order := n_order node in
  head ← free_head fl order;
  node_mut p (fun n => with_next head (with_prev 0 (with_state NODE_FREE n)));;
  (if (head =? 0)%nat then mret tt else node_mut head (with_prev p));;
  set_free_head fl order p;;
  c ← free_count order;
  set_free_count order (S c).

Definition remove_from_free_list (p : nat) : M unit :=
  node ← node_ref p;
  let fl := n_fl_type node in
  let order := n_order node in
  let prev := n_free_prev node in
  let next := n_free_next node in
  (if (prev =? 0)%nat then set_free_head fl order next else node_mut prev (with_next next));;
  (if (next =? 0)%nat then mret tt else node_mut next (with_prev prev));;
  node_mut p (fun n => with_next 0 (with_prev 0 n));;
  c ← free_count order;
  set_free_count order (c - 1).

(** ** Merging *)

(** The loop of [free_pages] and of [coalesce_free_node]: while the buddy of the
    block is a free block of the same order, take it off its list and go on with
    the two together.  [room] is [seg.max_order - merged_order], so that the
    guard of the loop is [room <> 0]; the result is the block and the number of
    merges, which only [coalesce_free_node] uses. *)
Fixpoint coalesce_loop (room : nat) (seg : BuddySegment) (seg_idx fl : nat)
    (merged_addr : Z) (merged_order : nat) (merged_count : Z) : M (Z * nat * Z) :=
  let stop := mret (merged_addr, merged_order, merged_count) in
  match room with
  | O => stop
  | S room =>
      let pages := block_pages merged_order in
      let pfn := merged_addr / PAGE_SIZE in
      let buddy_pfn := Z.lxor pfn pages in
      let buddy_addr := buddy_pfn * PAGE_SIZE in
      if buddy_addr <? start (range seg) then stop else
      let buddy_page := (buddy_addr - start (range seg)) / PAGE_SIZE in
      if total_pages seg <? buddy_page + pages then stop else
      p ← hash_find buddy_addr;
      if (p =? 0)%nat then stop else
      buddy ← node_ref p;
      if negb (bool_decide (n_state buddy = NODE_FREE))
         || negb (n_order buddy =? merged_order)%nat
         || negb (n_seg_idx buddy =? seg_idx)%nat
         || negb (n_fl_type buddy =? fl)%nat
      then stop else
      ok ← deactivate_node p NODE_FREE;
      if negb ok then note_chain_corruption;; stop else
      remove_from_free_list p;;
      recycle_node p;;
      count Coalesce;;
      coalesce_loop room seg seg_idx fl (Z.min merged_addr buddy_addr) (S merged_order)
        (saturating_add merged_count 1)
  end.

Definition should_defer_order0_coalesce (order fl : nat) : M bool :=
  if negb (order =? 0)%nat || negb (fl =? VM_FREELIST_DEFAULT)%nat then mret false else
  s ← get;
  if st_total_pages (stats s) =? 0 then mret false else
  c ← free_count 0;
  if (DEFERRED_ORDER0_COALESCE_TARGET <=? c)%nat then mret false else
  let free_percent := saturating_mul (free_pages_count (stats s)) 100 / st_total_pages (stats s) in
  mret (DEFERRED_ORDER0_MIN_FREE_PERCENT <=? free_percent).

Definition free_pages (addr : Z) (order : nat) : M (result unit BuddyFreeError) :=
  s ← get;
  if negb (initialized s) then mret (Err FreeNotInitialized) else
  if (MAX_TRACKED_ORDER <? order)%nat then mret (Err FreeInvalidOrder) else
  p ← hash_find addr;
  if (p =? 0)%nat then mret (Err NotAllocated) else
  node ← node_ref p;
  if negb (bool_decide (n_state node = NODE_ALLOCATED)) then mret (Err NotAllocated) else
  if negb (n_order node =? order)%nat then mret (Err OrderMismatch) else
  let seg_idx := n_seg_idx node in
  match segment s seg_idx with
  | None => mret (Err FreeInvalidAddress)
  | Some seg =>
      if (max_order seg <? order)%nat then mret (Err FreeInvalidOrder) else
      let fl := fl_type seg in
      defer ← should_defer_order0_coalesce order fl;
      (if defer : bool then count DeferredCoalesce else mret tt);;
      ok ← deactivate_node p NODE_ALLOCATED;
      if negb ok then mret (Err NotAllocated) else
      recycle_node p;;
      count FreeRequest;;
      map_stats (fun t => set_allocated (saturating_sub (allocated_pages t) (block_pages order)) t);;
      map_stats (fun t => set_free (free_pages_count t + block_pages order) t);;
      '(merged_addr, merged_order, _) ←
        (if defer : bool then mret (addr, order, 0)
         else coalesce_loop (max_order seg - order) seg seg_idx fl addr order 0);
      merged ← new_node merged_addr merged_order seg_idx fl true;
      match merged with
      | None => mret (Err CorruptTail)
      | Some p => add_to_free_list p;; mret (Ok tt)
      end
  end.

Definition coalesce_free_node (p : nat) : M Z :=
  node ← node_ref p;
  if negb (bool_decide (n_state node = NODE_FREE)) then mret 0 else
  let seg_idx := n_seg_idx node in
  s ← get;
  match segment s seg_idx with
  | None => mret 0
  | Some seg =>
      let fl := n_fl_type node in
      ok ← deactivate_node p NODE_FREE;
      if negb ok then mret 0 else
      remove_from_free_list p;;
      recycle_node p;;
      '(merged_addr, merged_order, merged_count) ←
        coalesce_loop (max_order seg - n_order node) seg seg_idx fl (n_start node) (n_order node) 0;
      merged ← new_node merged_addr merged_order seg_idx fl true;
      match merged with
      | None => mret 0
      | Some p => add_to_free_list p;; mret merged_count
      end
  end.

(** The scan of [reclaim_deferred_order0].  Every merge restarts it with fewer
    blocks, so a number of rounds quadratic in the number of blocks is enough. *)
Fixpoint reclaim_loop (fuel : nat) (current visited : nat) (merged_total : Z) : M Z :=
  match fuel with
  | O => panic
  | S fuel =>
      if (current =? 0)%nat then mret merged_total else
      c ← free_count 0;
      if (c <=? visited)%nat then note_chain_corruption;; mret merged_total else
      node ← node_ref current;
      merged ← coalesce_free_node current;
      if merged =? 0 then reclaim_loop fuel (n_free_next node) (S visited) merged_total
      else
        head ← free_head VM_FREELIST_DEFAULT 0;
        reclaim_loop fuel head 0 (saturating_add merged_total merged)
  end.

Definition reclaim_fuel (s : BuddyAllocator) : nat :=
  node_used s * (node_used s + 2) + node_used s + 1.

Definition reclaim_deferred_order0 : M Z :=
  head ← free_head VM_FREELIST_DEFAULT 0;
  s ← get;
  merged_total ← reclaim_loop (reclaim_fuel s) head 0 0;
  (if merged_total =? 0 then mret tt else count DeferredReclaim);;
  mret merged_total.

(** ** Splitting *)

(** The right halves of a block of order [current] at [start], split down to
    [target]: one per order, from the largest. *)
Fixpoint split_loop (needed : nat) (current : nat) (start : Z) (seg_idx fl : nat) : M unit :=
  match needed with
  | O => mret tt
  | S needed =>
      let split_order := (current - 1)%nat in
      let right_start := start + block_pages split_order * PAGE_SIZE in
      buddy ← new_node right_start split_order seg_idx fl true;
      buddy_node ← expect buddy;
      add_to_free_list buddy_node;;
      count Split;;
      split_loop needed split_order start seg_idx fl
  end.

(** The test, before anything is changed, that the slots of those halves are
    not in use. *)
Fixpoint right_slots_inactive (s : BuddyAllocator) (needed current : nat) (start : Z) : bool :=
  match needed with
  | O => true
  | S needed =>
      let split_order := (current - 1)%nat in
      if node_slot_is_inactive s (start + block_pages split_order * PAGE_SIZE)
      then right_slots_inactive s needed split_order start
      else false
  end.

Definition allocate_from_free_node (p target_order : nat) : M (option Z) :=
  node ← node_ref p;
  let current_order := n_order node in
  if (current_order <? target_order)%nat || negb (bool_decide (n_state node = NODE_FREE))
  then mret None else
  let needed := (current_order - target_order)%nat in
  let seg_idx := n_seg_idx node in
  let fl := n_fl_type node in
  let current_start := n_start node in
  s ← get;
  if negb (right_slots_inactive s needed current_order current_start) then mret None else
  ok ← deactivate_node p NODE_FREE;
  if negb ok then note_chain_corruption;; mret None else
  remove_from_free_list p;;
  recycle_node p;;
  split_loop needed current_order current_start seg_idx fl;;
  allocated ← new_node current_start target_order seg_idx fl false;
  expect allocated;;
  map_stats (fun t => set_allocated (allocated_pages t + block_pages target_order) t);;
  map_stats (fun t => set_free (saturating_sub (free_pages_count t) (block_pages target_order)) t);;
  mret (Some current_start).

(** The walk along one free list; [room] is [visit_limit - visited]. *)
Fixpoint zone_scan (room : nat) (p target_order : nat) (numa : option Z) : M (option Z) :=
  if (p =? 0)%nat then mret None else
  match room with
  | O => note_chain_corruption;; mret None
  | S room =>
      node ← node_ref p;
      s ← get;
      let matches_numa :=
        match numa with
        | None => true
        | Some expected =>
            match segment s (n_seg_idx node) with
            | Some seg => bool_decide (numa_node_id seg = Some expected)
            | None => false
            end
        end in
      if negb matches_numa then zone_scan room (n_free_next node) target_order numa else
      result ← allocate_from_free_node p target_order;
      match result with
      | Some a => mret (Some a)
      | None => zone_scan room (n_free_next node) target_order numa
      end
  end.

(** The orders from [current] on, [n] of them. *)
Fixpoint zone_orders (n current target_order fl : nat) (numa : option Z) : M (option Z) :=
  match n with
  | O => mret None
  | S n =>
      head ← free_head fl current;
      visit_limit ← free_count current;
      result ← zone_scan visit_limit head target_order numa;
      match result with
      | Some a => mret (Some a)
      | None => zone_orders n (S current) target_order fl numa
      end
  end.

Definition alloc_from_zone_matching (order fl : nat) (numa : option Z) : M (option Z) :=
  zone_orders (S MAX_TRACKED_ORDER - order) order order fl numa.

Definition alloc_from_zone (order fl : nat) : M (option Z) :=
  alloc_from_zone_matching order fl None.

(** [self.reclaim_deferred_order0() != 0], only evaluated when [cond]. *)
Definition reclaimed_if (cond : bool) : M bool :=
  if cond then merged ← reclaim_deferred_order0; mret (negb (merged =? 0)) else mret false.

(** The retry every allocation has: when the first attempt fails, and [cond]
    allows it, merge the deferred pages and, if that merged anything, try again. *)
Definition retry_reclaimed (cond : bool) (attempt : M (option Z)) : M (option Z) :=
  first ← attempt;
  match first with
  | Some a => mret (Some a)
  | None => again ← reclaimed_if cond; if again : bool then attempt else mret None
  end.

(** The body [alloc_pages] and [alloc_pages_from_numa] have in common. *)
Definition alloc_any_zone (order : nat) (numa : option Z) : M (option Z) :=
  s ← get;
  if negb (initialized s) || (MAX_TRACKED_ORDER <? order)%nat then mret None else
  count AllocRequest;;
  first ← retry_reclaimed (0 <? order)%nat (alloc_from_zone_matching order VM_FREELIST_DEFAULT numa);
  match first with
  | Some a => mret (Some a)
  | None =>
      second ← alloc_from_zone_matching order VM_FREELIST_DMA numa;
      match second with
      | Some a => mret (Some a)
      | None => count AllocFailure;; mret None
      end
  end.

Definition alloc_pages (order : nat) : M (option Z) := alloc_any_zone order None.
Definition alloc_pages_from_numa (order : nat) (node_id : Z) : M (option Z) :=
  alloc_any_zone order (Some node_id).

Definition alloc_pages_from_zone (order fl : nat) : M (option Z) :=
  s ← get;
  if negb (initialized s) || (MAX_TRACKED_ORDER <? order)%nat || (VM_NFREELIST <=? fl)%nat
  then mret None else
  count AllocRequest;;
  result ← retry_reclaimed ((0 <? order)%nat && (fl =? VM_FREELIST_DEFAULT)%nat)
             (alloc_from_zone order fl);
  match result with
  | Some a => mret (Some a)
  | None => count AllocFailure;; mret None
  end.

(** ** Exact placement *)

(** The descent to [target_addr]: the halves left behind, from the largest, and
    where the block ends up. *)
Fixpoint exact_path (needed current : nat) (current_start target_addr : Z) : list Z * Z :=
  match needed with
  | O => ([], current_start)
  | S needed =>
      let split_order := (current - 1)%nat in
      let right_start := current_start + block_pages split_order * PAGE_SIZE in
      if target_addr <? right_start then
        let '(starts, final) := exact_path needed split_order current_start target_addr in
        (right_start :: starts, final)
      else
        let '(starts, final) := exact_path needed split_order right_start target_addr in
        (current_start :: starts, final)
  end.

(** One new free block per half left behind. *)
Fixpoint exact_split_loop (buddy_starts : list Z) (current seg_idx fl : nat) : M unit :=
  match buddy_starts with
  | [] => mret tt
  | buddy_start :: buddy_starts =>
      let split_order := (current - 1)%nat in
      buddy ← new_node buddy_start split_order seg_idx fl true;
      buddy_node ← expect buddy;
      add_to_free_list buddy_node;;
      count Split;;
      exact_split_loop buddy_starts split_order seg_idx fl
  end.

Definition allocate_exact_from_node (p target_order : nat) (target_addr : Z) : M (option Z) :=
  node ← node_ref p;
  let current_order := n_order node in
  let seg_idx := n_seg_idx node in
  s ← get;
  match segment s seg_idx with
  | None => mret None
  | Some seg =>
      let needed := (current_order - target_order)%nat in
      let original_start := n_start node in
      let '(buddy_starts, current_start) :=
        exact_path needed current_order original_start target_addr in
      if existsb (fun a => negb (a =? original_start) && negb (node_slot_is_inactive s a))
           (buddy_starts ++ [current_start])
      then mret None else
      ok ← deactivate_node p NODE_FREE;
      if negb ok then note_chain_corruption;; mret None else
      remove_from_free_list p;;
      recycle_node p;;
      exact_split_loop buddy_starts current_order seg_idx (fl_type seg);;
      allocated ← new_node current_start target_order seg_idx (fl_type seg) false;
      expect allocated;;
      map_stats (fun t => set_allocated (allocated_pages t + block_pages target_order) t);;
      map_stats (fun t => set_free (saturating_sub (free_pages_count t) (block_pages target_order)) t);;
      mret (Some current_start)
  end.

(** The orders from [current] on, [n] of them, in which a block may contain the
    wanted one. *)
Fixpoint exact_orders (n current : nat) (addr : Z) (order seg_idx : nat) (seg : BuddySegment)
    : M (option Z) :=
  match n with
  | O => mret None
  | S n =>
      let next := exact_orders n (S current) addr order seg_idx seg in
      let current_pages := block_pages current in
      let current_pfn := align_down (addr / PAGE_SIZE) current_pages in
      let current_addr := current_pfn * PAGE_SIZE in
      if (current_addr <? start (range seg)) || (seg_end (range seg) <=? current_addr) then next else
      let current_page := (current_addr - start (range seg)) / PAGE_SIZE in
      if total_pages seg <? current_page + current_pages then next else
      p ← hash_find current_addr;
      if (p =? 0)%nat then next else
      node ← node_ref p;
      if negb (bool_decide (n_state node = NODE_FREE))
         || negb (n_order node =? current)%nat
         || negb (n_seg_idx node =? seg_idx)%nat
      then next else
      result ← allocate_exact_from_node p order addr;
      match result with
      | Some a => mret (Some a)
      | None => next
      end
  end.

Definition try_alloc_pages_exact_from_free (addr : Z) (order seg_idx : nat) (seg : BuddySegment)
    : M (option Z) :=
  exact_orders (S (max_order seg) - order) order addr order seg_idx seg.

Definition alloc_pages_exact (addr : Z) (order : nat) : M (result Z BuddyAllocError) :=
  s ← get;
  if negb (initialized s) then mret (Err AllocNotInitialized) else
  if (MAX_TRACKED_ORDER <? order)%nat then mret (Err AllocInvalidOrder) else
  match page_location s addr with
  | None => mret (Err AllocInvalidAddress)
  | Some (seg_idx, page_idx) =>
      match segment s seg_idx with
      | None => mret (Err AllocInvalidAddress)
      | Some seg =>
          if (max_order seg <? order)%nat then mret (Err AllocInvalidOrder) else
          let pages := block_pages order in
          if negb (Z.land addr (pages * PAGE_SIZE - 1) =? 0) then mret (Err AllocInvalidAddress) else
          if total_pages seg <? page_idx + pages then mret (Err AllocBlockOutOfRange) else
          count AllocRequest;;
          result ← retry_reclaimed (0 <? order)%nat
                     (try_alloc_pages_exact_from_free addr order seg_idx seg);
          match result with
          | Some a => mret (Ok a)
          | None => count AllocFailure;; mret (Err BlockNotFree)
          end
      end
  end.

(** ** Requests *)

Inductive PagePolicy : Type := BaseOnly | PreferLarge | RequireLarge.
Inductive MemoryPlacement : Type := Any | LowMem | NumaNode (node_id : Z) | ExactPhys (addr : Z).
Inductive AllocationRequestError : Type :=
| InvalidSize | InvalidAlignment | SizeOverflow | UnsupportedOrder | InvalidPlacement.

Record PhysicalAllocRequest : Type := mkRequest {
  rq_size : Z;
  rq_align : Z;
  page_policy : PagePolicy;
  placement : MemoryPlacement }.

Record PhysicalAllocation : Type := mkAllocation {
  paddr : Z;
  pa_size : Z;
  pa_order : nat;
  pa_page_size : Z }.

Definition div_ceil (a b : Z) : Z := a / b + (if a mod b =? 0 then 0 else 1).

Definition pages_for_checked (bytes : Z) : result Z AllocationRequestError :=
  if bytes =? 0 then Err InvalidSize else Ok (Z.max (div_ceil bytes PAGE_SIZE) 1).

(** The loop of [pages_to_order_bounded]; [room] is [MAX_TRACKED_ORDER - order]. *)
Fixpoint order_loop (room order : nat) (block pages : Z) : result nat AllocationRequestError :=
  if block <? pages then
    match room with
    | O => Err UnsupportedOrder
    | S room => order_loop room (S order) (Z.shiftl block 1) pages
    end
  else Ok order.

Definition pages_to_order_bounded (pages : Z) : result nat AllocationRequestError :=
  if block_pages MAX_TRACKED_ORDER <? pages then Err UnsupportedOrder
  else order_loop MAX_TRACKED_ORDER 0 1 pages.

Definition MIN_LARGE_PAGE_ORDER : nat := 9.

Definition required_order (rq : PhysicalAllocRequest) : result nat AllocationRequestError :=
  if rq_size rq =? 0 then Err InvalidSize else
  if (rq_align rq =? 0) || negb (is_power_of_two (rq_align rq)) then Err InvalidAlignment else
  match pages_for_checked (rq_size rq), pages_for_checked (Z.max (rq_align rq) PAGE_SIZE) with
  | Err e, _ => Err e
  | Ok _, Err e => Err e
  | Ok size_pages, Ok align_pages =>
      match pages_to_order_bounded (Z.max size_pages align_pages) with
      | Err e => Err e
      | Ok order =>
          let order := match page_policy rq with
                       | RequireLarge => Nat.max order MIN_LARGE_PAGE_ORDER
                       | _ => order
                       end in
          if (MAX_TRACKED_ORDER <? order)%nat then Err UnsupportedOrder else
          match placement rq with
          | ExactPhys addr =>
              if negb (Z.land addr (block_pages order * PAGE_SIZE - 1) =? 0) then Err InvalidPlacement
              else Ok order
          | _ => Ok order
          end
      end
  end.

Definition buddy_alloc_error_from_request (e : AllocationRequestError) : BuddyAllocError :=
  match e with
  | InvalidPlacement => AllocInvalidAddress
  | _ => AllocInvalidOrder
  end.

Definition alloc_pages_with (rq : PhysicalAllocRequest)
    : M (result PhysicalAllocation BuddyAllocError) :=
  s ← get;
  if negb (initialized s) then mret (Err AllocNotInitialized) else
  match required_order rq with
  | Err e => mret (Err (buddy_alloc_error_from_request e))
  | Ok order =>
      let page_size := block_pages order * PAGE_SIZE in
      let or_fragmented (m : M (option Z)) : M (result Z BuddyAllocError) :=
        r ← m; mret (match r with Some a => Ok a | None => Err Fragmented end) in
      r ← match placement rq with
          | ExactPhys addr => alloc_pages_exact addr order
          | LowMem => or_fragmented (alloc_pages_from_zone order VM_FREELIST_DMA)
          | NumaNode node_id => or_fragmented (alloc_pages_from_numa order node_id)
          | Any => or_fragmented (alloc_pages order)
          end;
      mret (match r with
            | Ok paddr => Ok (mkAllocation paddr page_size order page_size)
            | Err e => Err e
            end)
  end.

Definition free_allocation (a : PhysicalAllocation) : M (result unit BuddyFreeError) :=
  free_pages (paddr a) (pa_order a).

(** ** Reference counts and the page cache *)

Definition inc_ref (addr : Z) : M unit :=
  p ← hash_find addr;
  if (p =? 0)%nat then mret tt else
  node ← node_ref p;
  if bool_decide (n_state node = NODE_ALLOCATED)
  then node_mut p (fun n => with_ref_count (Z.min U16_MAX (n_ref_count n + 1)) n)
  else mret tt.

Definition dec_ref (addr : Z) : M bool :=
  p ← hash_find addr;
  if (p =? 0)%nat then mret false else
  node ← node_ref p;
  if negb (bool_decide (n_state node = NODE_ALLOCATED)) || (n_ref_count node =? 0)
  then mret false else
  node_mut p (fun n => with_ref_count (n_ref_count n - 1) n);;
  if n_ref_count node - 1 =? 0 then
    r ← free_pages addr (n_order node);
    mret (match r with Ok _ => true | Err _ => false end)
  else mret false.

Definition set_slab_zone (addr zone_id : Z) : M unit :=
  p ← hash_find addr;
  if (p =? 0)%nat then mret tt else
  node ← node_ref p;
  if bool_decide (n_state node = NODE_ALLOCATED) then node_mut p (with_slab_zone zone_id)
  else mret tt.

Definition alloc_cacheable_order0 : M (option PhysicalAllocation) :=
  r ← alloc_pages 0;
  match r with
  | None => mret None
  | Some paddr =>
      p ← hash_find paddr;
      if (p =? 0)%nat then mret None else
      node ← node_ref p;
      if negb (bool_decide (n_state node = NODE_ALLOCATED)) || negb (n_order node =? 0)%nat
      then mret None else
      node_mut p with_cache_eligible;;
      mret (Some (mkAllocation paddr PAGE_SIZE 0 PAGE_SIZE))
  end.

(** [PageCacheIndex::node_for_addr]: the segments and the descriptors seen
    through the pointers of the index. *)
Fixpoint node_for_addr_from (segs : list BuddySegment) (capacity addr : Z) : option nat :=
  match segs with
  | [] => None
  | seg :: segs =>
      if (addr <? start (range seg)) || (seg_end (range seg) <=? addr)
      then node_for_addr_from segs capacity addr
      else
        node_idx ← checked_add (node_base seg) ((addr - start (range seg)) / PAGE_SIZE);
        if capacity <=? node_idx then None else Some (S (Z.to_nat node_idx))
  end.

Definition node_for_addr (s : BuddyAllocator) (addr : Z) : option nat :=
  if negb (addr mod PAGE_SIZE =? 0) then None
  else node_for_addr_from (segments s) (node_capacity s) addr.

Inductive PageCacheTransitionError : Type :=
| Invalid (e : BuddyFreeError) | NotEligible | CacheNotAllocated.

Definition try_cache (a : PhysicalAllocation) : M (result unit PageCacheTransitionError) :=
  if negb (pa_order a =? 0)%nat || negb (pa_size a =? PAGE_SIZE) || negb (pa_page_size a =? PAGE_SIZE)
  then mret (Err (Invalid OrderMismatch)) else
  s ← get;
  match node_for_addr s (paddr a) with
  | None => mret (Err (Invalid FreeInvalidAddress))
  | Some p =>
      node ← node_ref p;
      if negb (bool_decide (n_state node = NODE_ALLOCATED)) then mret (Err CacheNotAllocated) else
      node_mut p (with_state NODE_CACHED);;
      if (n_order node =? 0)%nat && n_cache_eligible node then mret (Ok tt) else
      node_mut p (with_state NODE_ALLOCATED);;
      mret (Err NotEligible)
  end.

Definition try_activate (addr : Z) : M (result unit BuddyFreeError) :=
  s ← get;
  match node_for_addr s addr with
  | None => mret (Err FreeInvalidAddress)
  | Some p =>
      node ← node_ref p;
      if bool_decide (n_state node = NODE_CACHED)
      then node_mut p (with_state NODE_ALLOCATED);; mret (Ok tt)
      else mret (Err NotAllocated)
  end.

Definition allocated_range (s : BuddyAllocator) (addr : Z) : exec (option PhysicalAllocation) :=
  match node_addr_for s addr with
  | None => Done None
  | Some p =>
      match node_ref p s with
      | Panic => Panic
      | Done (node, _) =>
          if negb (bool_decide (n_state node = NODE_ALLOCATED)) || negb (n_start node =? addr)
          then Done None else
          let size := block_pages (n_order node) * PAGE_SIZE in
          if U64_MAX <? size then Done None
          else Done (Some (mkAllocation addr size (n_order node) size))
      end
  end.
