(* ===== verification/BuddyInit.v ===== *)
(** * Setting up the page allocator

    The part of [libs/allocator/src/buddy.rs] that turns a memory map into an
    allocator: the normalisation of the segments and their division at the DMA
    limit, the placement of the metadata, the seeding of the free lists with the
    pages that are neither reserved nor metadata, the later release of a
    reserved range, and the NUMA ranges.

    The compiler chooses the layout of the metadata records, so their sizes and
    alignments are the parameter [Layouts]; the function from physical to virtual
    addresses is an argument of [init]. *)

From S2P Require Import Prelude Buddy.

Definition DMA_ZONE_LIMIT : Z := 16 * 1024 * 1024.

Inductive BuddyInitError : Type := EmptyMemoryMap | InitMetadataOutOfMemory.
Inductive BuddyReleaseReservedError : Type :=
| ReleaseNotInitialized | Unaligned | ReleaseInvalidAddress | OverlapsTrackedBlock
| ReleaseMetadataOutOfMemory.

(** [Layout::new::<T>()] of the records kept in the metadata. *)
Record Layout : Type := mkLayout { l_size : Z; l_align : Z }.
Class Layouts : Type := {
  layout_BuddySegment : Layout;
  layout_MemorySegment : Layout;
  layout_BlockNode : Layout;
  layout_AtomicUsize : Layout }.

(** [Layout::array::<T>(count)]: the size, unless it passes [isize::MAX]. *)
Definition array_size (l : Layout) (count : Z) : option Z :=
  if l_size l * count <=? I64_MAX - (l_align l - 1) then Some (l_size l * count) else None.

Definition align_up_checked (value align : Z) : option Z :=
  if (align =? 0) || negb (is_power_of_two align) then None else
  v ← checked_add value (align - 1);
  Some (Z.land v (U64_MAX - (align - 1))).

Definition align_down_checked (value align : Z) : option Z :=
  if (align =? 0) || negb (is_power_of_two align) then None
  else Some (Z.land value (U64_MAX - (align - 1))).

(** ** Segments *)

Definition normalize_segment (seg : MemorySegment) : MemorySegment :=
  match checked_add (start seg) (size seg), align_up_checked (start seg) PAGE_SIZE with
  | Some raw_end, Some first =>
      if raw_end <=? first then mkRange 0 0
      else mkRange first ((raw_end - first) / PAGE_SIZE * PAGE_SIZE)
  | _, _ => mkRange 0 0
  end.

(** The calls [for_each_effective_segment] makes, in order. *)
Definition effective_segments (raw : MemorySegment) : list (MemorySegment * nat) :=
  let seg := normalize_segment raw in
  if size seg <? PAGE_SIZE then [] else
  let segment_end := seg_end seg in
  if (start seg <? DMA_ZONE_LIMIT) && (DMA_ZONE_LIMIT <? segment_end) then
    let low := mkRange (start seg) (DMA_ZONE_LIMIT - start seg) in
    let high := mkRange DMA_ZONE_LIMIT (segment_end - DMA_ZONE_LIMIT) in
    (if PAGE_SIZE <=? size low then [(low, VM_FREELIST_DMA)] else [])
    ++ (if PAGE_SIZE <=? size high then [(high, VM_FREELIST_DEFAULT)] else [])
  else
    [(seg, if segment_end <=? DMA_ZONE_LIMIT then VM_FREELIST_DMA else VM_FREELIST_DEFAULT)].

Definition all_effective (segs : list MemorySegment) : list (MemorySegment * nat) :=
  mjoin (effective_segments <$> segs).

Definition count_effective_segments (segs : list MemorySegment) : Z :=
  Z.of_nat (length (all_effective segs)).

Definition estimate_total_pages (segs : list MemorySegment) : option Z :=
  let total := fold_left (fun total e => saturating_add total (size e.1 / PAGE_SIZE))
                 (all_effective segs) 0 in
  if total =? U64_MAX then None else Some total.

(** The loop of [max_order_for_pages]; [room] is [MAX_TRACKED_ORDER - order]. *)
Fixpoint max_order_loop (room order : nat) (block pages : Z) : nat :=
  match room with
  | O => order
  | S room =>
      if block <=? pages / 2 then max_order_loop room (S order) (Z.shiftl block 1) pages
      else order
  end.

Definition max_order_for_pages (pages : Z) : nat := max_order_loop MAX_TRACKED_ORDER 0 1 pages.

(** The segment records, with the descriptors of each starting where those of
    the one before end. *)
Fixpoint build_segments (base : Z) (l : list (MemorySegment * nat)) : list BuddySegment :=
  match l with
  | [] => []
  | (r, fl) :: l =>
      let pages := size r / PAGE_SIZE in
      mkSegment r pages (max_order_for_pages pages) fl base None :: build_segments (base + pages) l
  end.

(** ** Reserved runs *)

Definition choose_earlier (current : option (Z * Z)) (candidate : Z * Z) : option (Z * Z) :=
  match current with
  | Some existing =>
      if existing.1 <? candidate.1 then Some existing
      else if (existing.1 =? candidate.1) && (candidate.2 <=? existing.2) then Some existing
      else Some candidate
  | None => Some candidate
  end.

(** One round of the loop that extends a run by the intervals that touch it; a
    round that changes nothing is the last. *)
Definition extend_pass (ivs : list (Z * Z)) (end_ : Z) : Z :=
  fold_left (fun e iv => if (iv.1 <=? e) && (e <? iv.2) then iv.2 else e) ivs end_.

Fixpoint extend_loop (fuel : nat) (ivs : list (Z * Z)) (end_ : Z) : Z :=
  match fuel with
  | O => end_
  | S fuel =>
      let e := extend_pass ivs end_ in
      if e =? end_ then end_ else extend_loop fuel ivs e
  end.

(** The first run of intervals that ends after [current]: the shape
    [next_reserved_page_run] and [next_reserved_phys_run] share.  Each round of
    the extension passes the end of one more interval. *)
Definition next_run (ivs : list (Z * Z)) (current : Z) : option (Z * Z) :=
  let next := fold_left (fun n iv => if current <? iv.2 then choose_earlier n iv else n) ivs None in
  match next with
  | None => None
  | Some (first, end_) => Some (first, extend_loop (S (length ivs)) ivs end_)
  end.

Definition clipped_phys_interval (seg : MemorySegment) (iv : Z * Z) : option (Z * Z) :=
  if iv.2 <=? iv.1 then None else
  let overlap_start := Z.max iv.1 (start seg) in
  let overlap_end := Z.min iv.2 (seg_end seg) in
  if overlap_start <? overlap_end then Some (overlap_start, overlap_end) else None.

Definition next_reserved_phys_run (seg : MemorySegment) (current : Z) (reserved : list (Z * Z))
    : option (Z * Z) :=
  next_run (omap (clipped_phys_interval seg) reserved) current.

Definition clipped_page_interval (seg : BuddySegment) (iv : Z * Z) : option (Z * Z) :=
  if iv.2 <=? iv.1 then None else
  let overlap_start := Z.max iv.1 (start (range seg)) in
  let overlap_end := Z.min iv.2 (seg_end (range seg)) in
  if overlap_end <=? overlap_start then None else
  let start_page := (overlap_start - start (range seg)) / PAGE_SIZE in
  let end_page := div_ceil (overlap_end - start (range seg)) PAGE_SIZE in
  if start_page <? end_page then Some (start_page, Z.min end_page (total_pages seg)) else None.

Definition range_interval (r : MemorySegment) : Z * Z := (start r, seg_end r).

Definition next_reserved_page_run (s : BuddyAllocator) (seg : BuddySegment) (current : Z)
    (reserved : list (Z * Z)) : option (Z * Z) :=
  match next_run (omap (clipped_page_interval seg)
                    (reserved ++ (range_interval <$> metadata_ranges s))) current with
  | None => None
  | Some (first, end_) => Some (first, Z.min end_ (total_pages seg))
  end.

(** ** Metadata *)

Definition metadata_candidate_is_better (candidate : MemorySegment) (fl : nat)
    (best : option MemorySegment) (best_fl : nat) : bool :=
  match best with
  | None => true
  | Some best =>
      if (fl =? VM_FREELIST_DEFAULT)%nat && negb (best_fl =? VM_FREELIST_DEFAULT)%nat then true
      else if negb (fl =? VM_FREELIST_DEFAULT)%nat && (best_fl =? VM_FREELIST_DEFAULT)%nat then false
      else start best <? start candidate
  end.

Definition consider_metadata_gap (gap_start gap_end sz : Z) (fl : nat)
    (best : option MemorySegment * nat) : option MemorySegment * nat :=
  if (gap_end <=? gap_start) || (gap_end - gap_start <? sz) then best else
  match align_down_checked gap_end PAGE_SIZE, checked_add gap_start sz with
  | Some aligned_end, Some min_end =>
      if aligned_end <? min_end then best else
      let candidate := mkRange (aligned_end - sz) sz in
      if metadata_candidate_is_better candidate fl best.1 best.2 then (Some candidate, fl) else best
  | _, _ => best
  end.

(** The gaps of one segment.  Every round passes at least one reserved interval. *)
Fixpoint carve_segment (fuel : nat) (seg : MemorySegment) (fl : nat) (current : Z)
    (reserved : list (Z * Z)) (sz : Z) (best : option MemorySegment * nat)
    : option MemorySegment * nat :=
  match fuel with
  | O => best
  | S fuel =>
      if current <? seg_end seg then
        let run := next_reserved_phys_run seg current reserved in
        let gap_end := match run with Some (first, _) => first | None => seg_end seg end in
        let best := consider_metadata_gap current gap_end sz fl best in
        match run with
        | Some (_, end_) => carve_segment fuel seg fl (Z.max current end_) reserved sz best
        | None => best
        end
      else best
  end.

Definition carve_metadata_range (segs : list MemorySegment) (reserved : list (Z * Z)) (sz : Z)
    : option MemorySegment :=
  sz ← align_up_checked (Z.max sz PAGE_SIZE) PAGE_SIZE;
  fst (fold_left (fun best e =>
         carve_segment (S (length reserved)) e.1 e.2 (start e.1) reserved sz best)
       (all_effective segs) (None, VM_FREELIST_DMA)).

Section layouts.
Context `{!Layouts}.

Definition bump_metadata_size (l : Layout) (count cursor : Z) : option Z :=
  if count =? 0 then Some cursor else
  sz ← array_size l count;
  aligned ← align_up_checked cursor (l_align l);
  checked_add aligned sz.

Definition buddy_metadata_bytes (segment_count reserved_count capacity : Z) : option Z :=
  cursor ← bump_metadata_size layout_BuddySegment segment_count 0;
  cursor ← bump_metadata_size layout_MemorySegment reserved_count cursor;
  cursor ← bump_metadata_size layout_MemorySegment 1 cursor;
  cursor ← bump_metadata_size layout_BlockNode capacity cursor;
  cursor ← bump_metadata_size layout_AtomicUsize capacity cursor;
  align_up_checked cursor PAGE_SIZE.

(** [MetadataBump::alloc_array], with the cursor it leaves. *)
Definition alloc_array (l : Layout) (count cursor end_ : Z) : option Z :=
  if count =? 0 then Some cursor else
  sz ← array_size l count;
  aligned ← align_up_checked cursor (l_align l);
  next ← checked_add aligned sz;
  if end_ <? next then None else Some next.

(** The arrays [init] takes from the metadata range, in order. *)
Definition alloc_metadata (segment_count reserved_count capacity base end_ : Z) : option Z :=
  cursor ← alloc_array layout_BuddySegment segment_count base end_;
  cursor ← alloc_array layout_MemorySegment reserved_count cursor end_;
  cursor ← alloc_array layout_MemorySegment 1 cursor end_;
  cursor ← alloc_array layout_BlockNode capacity cursor end_;
  alloc_array layout_AtomicUsize capacity cursor end_.

End layouts.

(** ** Seeding *)

(** The loop of [pages_to_order_floor]; 64 doublings pass any [usize]. *)
Fixpoint order_floor_loop (fuel order : nat) (block pages : Z) : nat :=
  match fuel with
  | O => order
  | S fuel =>
      if Z.shiftl block 1 <=? pages then order_floor_loop fuel (S order) (Z.shiftl block 1) pages
      else order
  end.

Definition pages_to_order_floor (pages : Z) : nat := order_floor_loop 64 0 1 pages.

Fixpoint seed_order_loop (order : nat) (pfn : Z) : nat :=
  match order with
  | O => O
  | S lower =>
      if negb (Z.land pfn (block_pages order - 1) =? 0) then seed_order_loop lower pfn else order
  end.

Definition best_seed_order (max_order : nat) (pfn available : Z) : nat :=
  seed_order_loop (Nat.min (pages_to_order_floor available) max_order) pfn.

(** The loop of [seed_free_range]: every round places a block of at least one
    page, so the number of pages bounds the rounds. *)
Fixpoint seed_loop (fuel : nat) (seg_idx : nat) (seg : BuddySegment) (current range_end : Z)
    : M (result unit BuddyInitError) :=
  match fuel with
  | O => if current <? range_end then panic else mret (Ok tt)
  | S fuel =>
      if current <? range_end then
        let available := range_end - current in
        let first := start (range seg) + current * PAGE_SIZE in
        let pfn := first / PAGE_SIZE in
        let order := best_seed_order (max_order seg) pfn available in
        node ← new_node first order seg_idx (fl_type seg) true;
        match node with
        | None => mret (Err InitMetadataOutOfMemory)
        | Some p =>
            add_to_free_list p;;
            map_stats (fun t => set_free (free_pages_count t + block_pages order) t);;
            seed_loop fuel seg_idx seg (current + block_pages order) range_end
        end
      else mret (Ok tt)
  end.

Definition seed_free_range (seg_idx : nat) (range_start range_end : Z)
    : M (result unit BuddyInitError) :=
  s ← get;
  match segment s seg_idx with
  | None => mret (Err InitMetadataOutOfMemory)
  | Some seg => seed_loop (Z.to_nat (range_end - range_start)) seg_idx seg range_start range_end
  end.

(** The inner loop of [seed_initial_free_ranges]: skip the runs that start at or
    before [current]. *)
Fixpoint skip_runs (fuel : nat) (s : BuddyAllocator) (seg : BuddySegment) (current : Z)
    (reserved : list (Z * Z)) : Z :=
  match fuel with
  | O => current
  | S fuel =>
      match next_reserved_page_run s seg current reserved with
      | Some (overlap_start, overlap_end) =>
          if current <? overlap_start then current
          else skip_runs fuel s seg (Z.max current overlap_end) reserved
      | None => current
      end
  end.

(** The pages of one segment, from [current] on.  Each round passes a reserved
    interval. *)
Fixpoint seed_segment (fuel : nat) (seg_idx : nat) (seg : BuddySegment) (current : Z)
    (reserved : list (Z * Z)) : M (result unit BuddyInitError) :=
  match fuel with
  | O => panic
  | S fuel =>
      if current <? total_pages seg then
        s ← get;
        match next_reserved_page_run s seg current reserved with
        | None => seed_free_range seg_idx current (total_pages seg)
        | Some (reserved_start, reserved_end) =>
            r ← (if current <? reserved_start then seed_free_range seg_idx current reserved_start
                 else mret (Ok tt));
            match r with
            | Err e => mret (Err e)
            | Ok _ =>
                let current := Z.max current reserved_end in
                let current := skip_runs (S (length reserved + length (metadata_ranges s)))
                                 s seg current reserved in
                seed_segment fuel seg_idx seg current reserved
            end
        end
      else mret (Ok tt)
  end.

Fixpoint seed_segments (seg_idx : nat) (segs : list BuddySegment) (reserved : list (Z * Z))
    : M (result unit BuddyInitError) :=
  match segs with
  | [] => mret (Ok tt)
  | seg :: segs =>
      s ← get;
      r ← seed_segment (S (S (length reserved + length (metadata_ranges s)))) seg_idx seg 0 reserved;
      match r with
      | Err e => mret (Err e)
      | Ok _ => seed_segments (S seg_idx) segs reserved
      end
  end.

Definition seed_initial_free_ranges (reserved : list (Z * Z)) : M (result unit BuddyInitError) :=
  s ← get; seed_segments 0 (segments s) reserved.

(** ** Initialisation *)

Definition new_stats : BuddyStats :=
  mkStats 0 0 0 0 0 0 (replicate (S MAX_TRACKED_ORDER) 0%nat) no_events.
Definition free_heads_null : list nat := replicate (VM_NFREELIST * (S MAX_TRACKED_ORDER)) 0%nat.
Definition new_allocator : BuddyAllocator :=
  mkAllocator [] [] [] [] 0 free_heads_null false new_stats.

(** [self.stats.total_pages] and [self.stats.max_order] over the segments. *)
Definition sum_pages (segs : list BuddySegment) : Z :=
  fold_left (fun t seg => saturating_add t (total_pages seg)) segs 0.
Definition max_orders (segs : list BuddySegment) : nat :=
  fold_left (fun m seg => Nat.max m (max_order seg)) segs 0%nat.

Definition stored_reserved (reserved : list (Z * Z)) : list MemorySegment :=
  (fun iv => mkRange iv.1 (iv.2 - iv.1)) <$> List.filter (fun iv => iv.1 <? iv.2) reserved.

(** The allocator before seeding; the descriptors are the zeroed memory of the
    metadata range, and a zeroed descriptor is [empty_node]. *)
Definition prepared (segs : list MemorySegment) (reserved : list (Z * Z)) (capacity : Z)
    (metadata : MemorySegment) : BuddyAllocator :=
  let built := build_segments 0 (all_effective segs) in
  mkAllocator built (stored_reserved reserved) [metadata]
    (replicate (Z.to_nat capacity) empty_node) 0 free_heads_null false
    (mkStats (sum_pages built) 0 0 0 (size metadata / PAGE_SIZE) (max_orders built)
       (replicate (S MAX_TRACKED_ORDER) 0%nat) no_events).

Definition set_initialized (s : BuddyAllocator) : BuddyAllocator :=
  mkAllocator (segments s) (reserved_ranges s) (metadata_ranges s) (nodes s) (node_used s)
    (free_heads s) true (stats s).

Section init.
Context `{!Layouts}.

(** [init]: the state it leaves when it fails early is the reset one. *)
Definition init (segs : list MemorySegment) (reserved : list (Z * Z)) (phys_to_virt : Z -> Z)
    : exec (result unit BuddyInitError * BuddyAllocator) :=
  let fail e := Done (Err e, new_allocator) in
  let effective_count := count_effective_segments segs in
  if effective_count =? 0 then fail EmptyMemoryMap else
  match estimate_total_pages segs with
  | None => fail InitMetadataOutOfMemory
  | Some capacity =>
      if capacity =? 0 then fail EmptyMemoryMap else
      if U64_MAX / PAGE_SIZE <? capacity then fail InitMetadataOutOfMemory else
      let reserved_count := Z.of_nat (length (List.filter (fun iv => iv.1 <? iv.2) reserved)) in
      match buddy_metadata_bytes effective_count reserved_count capacity with
      | None => fail InitMetadataOutOfMemory
      | Some metadata_bytes =>
          match carve_metadata_range segs reserved metadata_bytes with
          | None => fail InitMetadataOutOfMemory
          | Some metadata =>
              let base := phys_to_virt (start metadata) in
              match checked_add base (size metadata) with
              | None => fail InitMetadataOutOfMemory
              | Some end_ =>
                  match alloc_metadata effective_count reserved_count capacity base end_ with
                  | None => fail InitMetadataOutOfMemory
                  | Some _ =>
                      (r ← seed_initial_free_ranges reserved;
                       match r with
                       | Err e => mret (Err e)
                       | Ok _ =>
                           map_stats (fun t => set_reserved
                             (saturating_sub (st_total_pages t)
                                (free_pages_count t + allocated_pages t)) t);;
                           modify set_initialized;;
                           mret (Ok tt)
                       end) (prepared segs reserved capacity metadata)
                  end
              end
          end
      end
  end.

End init.

(** ** Releasing reserved pages *)

Definition any_tracked_block_overlaps (s : BuddyAllocator) (first end_ : Z) : bool :=
  existsb (fun n =>
    negb (bool_decide (n_state n = NODE_INACTIVE)) &&
    (let sz := saturating_mul (block_pages (n_order n)) PAGE_SIZE in
     let node_end := saturating_add (n_start n) sz in
     (n_start n <? end_) && (first <? node_end))) (nodes s).

Definition release_reserved_range (first sz : Z) : M (result Z BuddyReleaseReservedError) :=
  s ← get;
  if negb (initialized s) then mret (Err ReleaseNotInitialized) else
  if sz =? 0 then mret (Ok 0) else
  if negb (first mod PAGE_SIZE =? 0) || negb (sz mod PAGE_SIZE =? 0) then mret (Err Unaligned) else
  match checked_add first sz with
  | None => mret (Err ReleaseInvalidAddress)
  | Some end_ =>
      match page_location s first, page_location s (end_ - PAGE_SIZE) with
      | Some (seg_idx, start_page), Some (end_seg_idx, end_last_page) =>
          if negb (seg_idx =? end_seg_idx)%nat then mret (Err ReleaseInvalidAddress) else
          if any_tracked_block_overlaps s first end_ then mret (Err OverlapsTrackedBlock) else
          r ← seed_free_range seg_idx start_page (end_last_page + 1);
          match r with
          | Err _ => mret (Err ReleaseMetadataOutOfMemory)
          | Ok _ =>
              let released := sz / PAGE_SIZE in
              map_stats (fun t => set_reserved (saturating_sub (reserved_pages t) released) t);;
              mret (Ok released)
          end
      | _, _ => mret (Err ReleaseInvalidAddress)
      end
  end.

(** ** NUMA ranges *)

Record NumaMemoryRange : Type := mkNuma { nr_range : MemorySegment; node_id : Z }.

Definition ranges_overlap (a b : MemorySegment) : bool :=
  (start a <? seg_end b) && (start b <? seg_end a).

(** The check of the ranges, each against those before it. *)
Fixpoint numa_ranges_ok (before ranges : list NumaMemoryRange) : result unit BuddyNumaError :=
  match ranges with
  | [] => Ok tt
  | r :: ranges =>
      let normalized := normalize_segment (nr_range r) in
      if (size normalized =? 0) || negb (bool_decide (normalized = nr_range r))
      then Err NumaInvalidRange else
      if existsb (fun other => ranges_overlap (nr_range r) (nr_range other)
                               && negb (node_id r =? node_id other)) before
      then Err ConflictingRange
      else numa_ranges_ok (before ++ [r]) ranges
  end.

(** The range a segment lies in. *)
Fixpoint match_range (seg : MemorySegment) (matched : option Z) (ranges : list NumaMemoryRange)
    : result (option Z) BuddyNumaError :=
  match ranges with
  | [] => Ok matched
  | r :: ranges =>
      if negb (ranges_overlap seg (nr_range r)) then match_range seg matched ranges else
      if (start seg <? start (nr_range r)) || (seg_end (nr_range r) <? seg_end seg)
      then Err SegmentBoundaryMismatch else
      if match matched with Some m => negb (m =? node_id r) | None => false end
      then Err ConflictingRange
      else match_range seg (Some (node_id r)) ranges
  end.

Definition set_numa (v : option Z) (seg : BuddySegment) : BuddySegment :=
  mkSegment (range seg) (total_pages seg) (max_order seg) (fl_type seg) (node_base seg) v.

(** The segments are marked one after the other, up to the first that fails. *)
Fixpoint install_loop (segs : list BuddySegment) (ranges : list NumaMemoryRange)
    : list BuddySegment * result unit BuddyNumaError :=
  match segs with
  | [] => ([], Ok tt)
  | seg :: segs =>
      match match_range (range seg) None ranges with
      | Err e => (seg :: segs, Err e)
      | Ok matched =>
          let '(rest, r) := install_loop segs ranges in (set_numa matched seg :: rest, r)
      end
  end.

Definition install_numa_ranges (ranges : list NumaMemoryRange) : M (result unit BuddyNumaError) :=
  s ← get;
  if negb (initialized s) then mret (Err NumaNotInitialized) else
  match numa_ranges_ok [] ranges with
  | Err e => mret (Err e)
  | Ok _ =>
      let '(segs, r) := install_loop (segments s) ranges in
      modify (set_segments segs);; mret r
  end.

Definition numa_node_for_addr (s : BuddyAllocator) (addr : Z) : option Z :=
  '(seg_idx, _) ← page_location s addr;
  seg ← segment s seg_idx;
  numa_node_id seg.
