(* ===== verification/BuddyAudit.v ===== *)
(** * The audit of the allocator

    [libs/allocator/src/buddy.rs] recounts its own state on demand: the segments,
    every descriptor, every free list, and the statistics against them.  The
    scan is modelled with its flags and counters; on an allocator that satisfies
    the invariant it raises no flag. *)

From S2P Require Import Prelude Buddy BuddyInit.

Definition FREE_LIST_LOOP : Z := 2.
Definition HASH_NODE_INVALID : Z := 8.
Definition FREE_LIST_NODE_INVALID : Z := 16.
Definition NODE_ACCOUNTING_MISMATCH : Z := 32.
Definition PAGE_ACCOUNTING_MISMATCH : Z := 64.
Definition FREE_COUNT_MISMATCH : Z := 128.
Definition SEGMENT_ACCOUNTING_MISMATCH : Z := 256.

(** The fields the scan writes. *)
Record BuddyAudit : Type := mkAudit {
  flags : Z;
  scanned_segments : Z;
  scanned_total_pages : Z;
  scanned_allocated_pages : Z;
  scanned_free_pages : Z;
  scanned_reserved_pages : Z;
  scanned_hash_nodes : Z;
  scanned_hash_free_nodes : Z;
  scanned_free_nodes : Z;
  scanned_free_list_pages : Z;
  scanned_free_count_per_order : list nat }.

Definition audit_default : BuddyAudit :=
  mkAudit 0 0 0 0 0 0 0 0 0 0 (replicate (S MAX_TRACKED_ORDER) 0%nat).

(** [audit.flags.insert(flag)], when [bad] holds. *)
Definition insert_if (bad : bool) (flag : Z) (a : BuddyAudit) : BuddyAudit :=
  if bad then
    mkAudit (Z.lor (flags a) flag) (scanned_segments a) (scanned_total_pages a)
      (scanned_allocated_pages a) (scanned_free_pages a) (scanned_reserved_pages a)
      (scanned_hash_nodes a) (scanned_hash_free_nodes a) (scanned_free_nodes a)
      (scanned_free_list_pages a) (scanned_free_count_per_order a)
  else a.

(** ** Segments *)

Definition saw_segment (pages : Z) (a : BuddyAudit) : BuddyAudit :=
  mkAudit (flags a) (scanned_segments a + 1) (saturating_add (scanned_total_pages a) pages)
    (scanned_allocated_pages a) (scanned_free_pages a) (scanned_reserved_pages a)
    (scanned_hash_nodes a) (scanned_hash_free_nodes a) (scanned_free_nodes a)
    (scanned_free_list_pages a) (scanned_free_count_per_order a).

Definition segment_bad (seg : BuddySegment) : bool :=
  negb (size (range seg) / PAGE_SIZE =? total_pages seg)
  || negb (start (range seg) mod PAGE_SIZE =? 0)
  || negb (size (range seg) mod PAGE_SIZE =? 0)
  || negb (max_order seg =? max_order_for_pages (total_pages seg))%nat
  || (VM_NFREELIST <=? fl_type seg)%nat.

Definition audit_segments (s : BuddyAllocator) (a : BuddyAudit) : BuddyAudit :=
  fold_left (fun a seg =>
    insert_if (segment_bad seg) SEGMENT_ACCOUNTING_MISMATCH (saw_segment (total_pages seg) a))
    (segments s) a.

(** ** Descriptors *)

Definition saw_node (a : BuddyAudit) : BuddyAudit :=
  mkAudit (flags a) (scanned_segments a) (scanned_total_pages a)
    (scanned_allocated_pages a) (scanned_free_pages a) (scanned_reserved_pages a)
    (scanned_hash_nodes a + 1) (scanned_hash_free_nodes a) (scanned_free_nodes a)
    (scanned_free_list_pages a) (scanned_free_count_per_order a).

Definition saw_free_node (pages : Z) (a : BuddyAudit) : BuddyAudit :=
  mkAudit (flags a) (scanned_segments a) (scanned_total_pages a)
    (scanned_allocated_pages a) (saturating_add (scanned_free_pages a) pages)
    (scanned_reserved_pages a) (scanned_hash_nodes a) (scanned_hash_free_nodes a + 1)
    (scanned_free_nodes a) (scanned_free_list_pages a) (scanned_free_count_per_order a).

Definition saw_allocated_node (pages : Z) (a : BuddyAudit) : BuddyAudit :=
  mkAudit (flags a) (scanned_segments a) (scanned_total_pages a)
    (saturating_add (scanned_allocated_pages a) pages) (scanned_free_pages a)
    (scanned_reserved_pages a) (scanned_hash_nodes a) (scanned_hash_free_nodes a)
    (scanned_free_nodes a) (scanned_free_list_pages a) (scanned_free_count_per_order a).

Definition checked_mul (a b : Z) : option Z := if a * b <=? U64_MAX then Some (a * b) else None.

Definition valid_node_block_pages (s : BuddyAllocator) (node : BlockNode) : option Z :=
  let order := n_order node in
  if (MAX_TRACKED_ORDER <? order)%nat || (VM_NFREELIST <=? n_fl_type node)%nat then None else
  seg ← segment s (n_seg_idx node);
  let pages := block_pages order in
  block_size ← checked_mul pages PAGE_SIZE;
  block_end ← checked_add (n_start node) block_size;
  let pfn := n_start node / PAGE_SIZE in
  if (max_order seg <? order)%nat
     || negb (n_start node mod PAGE_SIZE =? 0)
     || negb (pfn mod pages =? 0)
     || (n_start node <? start (range seg))
     || (seg_end (range seg) <? block_end)
  then None else Some pages.

Definition audit_hash_node (s : BuddyAllocator) (node : BlockNode) (a : BuddyAudit) : BuddyAudit :=
  let a := saw_node a in
  match valid_node_block_pages s node with
  | None => insert_if true HASH_NODE_INVALID a
  | Some pages =>
      match n_state node with
      | NODE_FREE =>
          insert_if (negb (n_ref_count node =? 0)) HASH_NODE_INVALID (saw_free_node pages a)
      | NODE_ALLOCATED | NODE_CACHED =>
          insert_if ((n_ref_count node =? 0) || negb (n_free_next node =? 0)%nat
                     || negb (n_free_prev node =? 0)%nat)
            HASH_NODE_INVALID (saw_allocated_node pages a)
      | _ => insert_if true HASH_NODE_INVALID a
      end
  end.

(** [node_idx] is the place of the descriptor in the array. *)
Definition audit_pfn_node (s : BuddyAllocator) (a : BuddyAudit) (entry : nat * BlockNode) : BuddyAudit :=
  let '(node_idx, node) := entry in
  if bool_decide (n_state node = NODE_INACTIVE) then a else
  match node_addr_for s (n_start node) with
  | None => insert_if true HASH_NODE_INVALID a
  | Some node_addr =>
      audit_hash_node s node
        (insert_if (negb (node_addr =? S node_idx)%nat) HASH_NODE_INVALID a)
  end.

Definition audit_pfn_index (s : BuddyAllocator) (a : BuddyAudit) : BuddyAudit :=
  fold_left (audit_pfn_node s) (imap pair (nodes s)) a.

(** ** Free lists *)

Definition saw_listed_node (order : nat) (a : BuddyAudit) : BuddyAudit :=
  mkAudit (flags a) (scanned_segments a) (scanned_total_pages a)
    (scanned_allocated_pages a) (scanned_free_pages a) (scanned_reserved_pages a)
    (scanned_hash_nodes a) (scanned_hash_free_nodes a) (scanned_free_nodes a + 1)
    (saturating_add (scanned_free_list_pages a) (block_pages order))
    (alter S order (scanned_free_count_per_order a)).

(** A pointer into the array of descriptors: [node_addr_is_allocated_slot]. *)
Definition node_addr_is_allocated_slot (s : BuddyAllocator) (p : nat) : bool :=
  negb (p =? 0)%nat && (p <=? length (nodes s))%nat.

(** The walk of one list; [room] is what is left of [node_used] visits. *)
Fixpoint audit_list (room : nat) (s : BuddyAllocator) (fl order p prev : nat) (a : BuddyAudit)
    : BuddyAudit :=
  if (p =? 0)%nat then a else
  match room with
  | O => insert_if true FREE_LIST_LOOP a
  | S room =>
      if negb (node_addr_is_allocated_slot s p) then insert_if true FREE_LIST_NODE_INVALID a else
      match nodes s !! (p - 1)%nat with
      | None => a
      | Some node =>
          let bad := negb (bool_decide (n_state node = NODE_FREE))
                     || negb (n_order node =? order)%nat
                     || negb (n_fl_type node =? fl)%nat
                     || negb (n_free_prev node =? prev)%nat
                     || negb (bool_decide (node_addr_for s (n_start node) = Some p)) in
          audit_list room s fl order (n_free_next node) p
            (saw_listed_node order (insert_if bad FREE_LIST_NODE_INVALID a))
      end
  end.

(** The lists in the order of the two loops; the heads are a fixed array. *)
Definition list_keys : list (nat * nat) :=
  fl ← seq 0 VM_NFREELIST; pair fl <$> seq 0 (S MAX_TRACKED_ORDER).

Definition audit_free_lists (s : BuddyAllocator) (a : BuddyAudit) : BuddyAudit :=
  fold_left (fun a key =>
    let head := default 0%nat (free_heads s !! free_head_index key.1 key.2) in
    audit_list (node_used s) s key.1 key.2 head 0 a) list_keys a.

(** ** Accounts *)

Definition count_reserved (a : BuddyAudit) : BuddyAudit :=
  mkAudit (flags a) (scanned_segments a) (scanned_total_pages a)
    (scanned_allocated_pages a) (scanned_free_pages a)
    (saturating_sub (scanned_total_pages a)
       (saturating_add (scanned_allocated_pages a) (scanned_free_pages a)))
    (scanned_hash_nodes a) (scanned_hash_free_nodes a) (scanned_free_nodes a)
    (scanned_free_list_pages a) (scanned_free_count_per_order a).

Definition audit_accounting (s : BuddyAllocator) (a : BuddyAudit) : BuddyAudit :=
  let a := count_reserved a in
  let a := insert_if
    (negb (scanned_segments a =? Z.of_nat (length (segments s)))
     || negb (scanned_total_pages a =? st_total_pages (stats s))) SEGMENT_ACCOUNTING_MISMATCH a in
  let a := insert_if
    (negb (scanned_allocated_pages a =? allocated_pages (stats s))
     || negb (scanned_free_pages a =? free_pages_count (stats s))
     || negb (scanned_reserved_pages a =? reserved_pages (stats s))) PAGE_ACCOUNTING_MISMATCH a in
  let a := insert_if
    (negb (scanned_hash_nodes a =? Z.of_nat (node_used s))
     || (node_capacity s <? Z.of_nat (node_used s))) NODE_ACCOUNTING_MISMATCH a in
  insert_if
    (negb (scanned_hash_free_nodes a =? scanned_free_nodes a)
     || negb (scanned_free_pages a =? scanned_free_list_pages a)
     || negb (bool_decide (scanned_free_count_per_order a = free_count_per_order (stats s))))
    FREE_COUNT_MISMATCH a.

Definition audit (s : BuddyAllocator) : BuddyAudit :=
  if negb (initialized s) then audit_default
  else audit_accounting s (audit_free_lists s (audit_pfn_index s (audit_segments s audit_default))).

Definition is_consistent (a : BuddyAudit) : bool := flags a =? 0.

(** ** Short forms *)

Definition alloc_frame : M (option Z) := alloc_pages 0.
Definition free_frame (addr : Z) : M unit := free_pages addr 0;; mret tt.

Record BuddyReclaimStats : Type := mkReclaimStats { deferred_reclaim_passes : Z; merged_blocks : Z }.

Definition reclaim_deferred : M BuddyReclaimStats :=
  s ← get;
  let before_passes := deferred_reclaim_count (events (stats s)) in
  merged ← reclaim_deferred_order0;
  s ← get;
  mret (mkReclaimStats (saturating_sub (deferred_reclaim_count (events (stats s))) before_passes) merged).
