(* ===== verification/BuddyLinks.v ===== *)
(** * The free lists of the page allocator

    What it means that the links between the descriptors represent one list of
    free blocks per zone and order, and that the steps every operation is made
    of - take a block off its list, put a new block on its list, mark a block
    allocated - keep that and change one descriptor each. *)

From stdpp Require Import functions.
From S2P Require Import Prelude Buddy.

(** ** Steps of the monad *)

Lemma bindM {A B} (m : M A) (k : A -> M B) s a s' :
  m s = Done (a, s') -> (m ≫= k) s = k a s'.
Proof. intros H. unfold mbind, M_bind. by rewrite H. Qed.

Lemma get_bind {B} (k : BuddyAllocator -> M B) s : (get ≫= k) s = k s s.
Proof. done. Qed.

Lemma ret_bind {A B} (a : A) (k : A -> M B) s : ((mret a : M A) ≫= k) s = k a s.
Proof. done. Qed.

Lemma modify_bind {B} f (k : unit -> M B) s : (modify f ≫= k) s = k tt (f s).
Proof. done. Qed.

Lemma map_stats_bind {B} f (k : unit -> M B) s :
  (map_stats f ≫= k) s = k tt (set_stats (f (stats s)) s).
Proof. done. Qed.

Lemma count_bind {B} e (k : unit -> M B) s :
  (count e ≫= k) s =
  k tt (set_stats (set_events (count_event e (events (stats s))) (stats s)) s).
Proof. done. Qed.

Lemma node_ref_ok s i n : nodes s !! i = Some n -> node_ref (S i) s = Done (n, s).
Proof. intros H. unfold node_ref. by rewrite H. Qed.

Lemma node_mut_ok s i n f :
  nodes s !! i = Some n -> node_mut (S i) f s = Done (tt, set_nodes (alter f i (nodes s)) s).
Proof. intros H. unfold node_mut. by rewrite H. Qed.

(** ** Doubly linked lists

    [nx] and [pv] give the links of an index; a link is an index plus one. *)

Fixpoint dll (nx pv : nat -> nat) (prev hd : nat) (l : list nat) : Prop :=
  match l with
  | [] => hd = 0%nat
  | i :: l => hd = S i /\ pv i = prev /\ dll nx pv (S i) (nx i) l
  end.

Lemma dll_ext nx pv nx' pv' prev hd l :
  (forall i, i ∈ l -> nx' i = nx i /\ pv' i = pv i) ->
  dll nx pv prev hd l -> dll nx' pv' prev hd l.
Proof.
  revert prev hd. induction l as [|i l IH]; intros prev hd Heq; simpl; [done|].
  destruct (Heq i) as [-> ->]; [by left|].
  intros (-> & <- & Hl). split_and!; [done|done|]. apply IH; [|done].
  intros j Hj. apply Heq. by right.
Qed.

Lemma dll_head nx pv prev hd l : dll nx pv prev hd l -> hd = 0%nat <-> l = [].
Proof. destruct l; simpl; naive_solver. Qed.

Lemma dll_push nx pv nx' pv' hd l i :
  dll nx pv 0 hd l -> i ∉ l -> NoDup l ->
  (forall j, nx' j = if decide (j = i) then hd else nx j) ->
  (forall j, pv' j = if decide (j = i) then 0%nat
                     else if decide (S j = hd) then S i else pv j) ->
  dll nx' pv' 0 (S i) (i :: l).
Proof.
  intros Hl Hi Hnd Hnx Hpv. simpl. rewrite Hnx, Hpv, !decide_True by done.
  split_and!; [done|done|].
  destruct l as [|j l]; simpl in *; [done|]. destruct Hl as (-> & Hj & Hl).
  apply NoDup_cons in Hnd as [Hjl Hnd]. apply not_elem_of_cons in Hi as [Hij Hi].
  rewrite Hpv, Hnx, (decide_False (P := j = i)), (decide_True (P := S j = S j)) by done.
  rewrite decide_False by done.
  split_and!; [done|done|]. eapply dll_ext; [|exact Hl].
  intros k Hk. assert (k <> i /\ k <> j) as [? ?] by (split; intros ->; done).
  by rewrite Hnx, Hpv, !decide_False by (congruence || lia).
Qed.

(** The same for a part of a list, with the links at its end. *)
Fixpoint dseg (nx pv : nat -> nat) (prev hd : nat) (l : list nat) (prev' hd' : nat) : Prop :=
  match l with
  | [] => prev = prev' /\ hd = hd'
  | i :: l => hd = S i /\ pv i = prev /\ dseg nx pv (S i) (nx i) l prev' hd'
  end.

Lemma dll_app nx pv prev hd l1 l2 :
  dll nx pv prev hd (l1 ++ l2) <->
  exists prev' hd', dseg nx pv prev hd l1 prev' hd' /\ dll nx pv prev' hd' l2.
Proof.
  revert prev hd. induction l1 as [|i l1 IH]; intros prev hd; simpl; [naive_solver|].
  rewrite IH. naive_solver.
Qed.

Lemma dseg_ext nx pv nx' pv' prev hd l prev' hd' :
  (forall i, i ∈ l -> nx' i = nx i /\ pv' i = pv i) ->
  dseg nx pv prev hd l prev' hd' -> dseg nx' pv' prev hd l prev' hd'.
Proof.
  revert prev hd. induction l as [|i l IH]; intros prev hd Heq; simpl; [done|].
  destruct (Heq i) as [-> ->]; [by left|].
  intros (-> & <- & Hl). split_and!; [done|done|]. apply IH; [|done].
  intros j Hj. apply Heq. by right.
Qed.

(** Making the neighbours of an element point to each other. *)
Lemma dll_skip nx pv nx' pv' prev i l :
  dll nx pv prev (S i) (i :: l) -> NoDup l -> (forall j, j ∈ l -> S j <> prev) ->
  (forall j, j ∈ l -> nx' j = if decide (S j = pv i) then nx i else nx j) ->
  (forall j, j ∈ l -> pv' j = if decide (S j = nx i) then pv i else pv j) ->
  dll nx' pv' prev (nx i) l.
Proof.
  intros (_ & Hi & Hl) Hnd Hprev Hnx Hpv. destruct l as [|j l]; simpl in *; [done|].
  destruct Hl as (Hnxi & Hj & Hl). apply NoDup_cons in Hnd as [Hjl Hnd].
  split_and!; [done|by rewrite Hpv, decide_True by (done || left)|].
  rewrite Hnx by left. rewrite decide_False by (rewrite Hi; apply Hprev; left).
  eapply dll_ext; [|exact Hl]. intros k Hk. rewrite Hnx, Hpv by (by right).
  rewrite !decide_False; [done|rewrite Hnxi; intros [= ->]; done|].
  rewrite Hi. apply Hprev. by right.
Qed.

Lemma dll_remove nx pv nx' pv' hd l1 i l2 :
  dll nx pv 0 hd (l1 ++ i :: l2) -> NoDup (l1 ++ i :: l2) ->
  (forall j, j ∈ l1 ++ l2 -> nx' j = if decide (S j = pv i) then nx i else nx j) ->
  (forall j, j ∈ l1 ++ l2 -> pv' j = if decide (S j = nx i) then pv i else pv j) ->
  dll nx' pv' 0 (if decide (pv i = 0%nat) then nx i else hd) (l1 ++ l2).
Proof.
  intros Hl Hnd Hnx Hpv. destruct l1 as [|m l1 _] using rev_ind.
  { simpl in Hl. pose proof Hl as (-> & Hi & _). rewrite Hi, decide_True by done.
    apply NoDup_cons in Hnd as [_ Hnd]. eapply dll_skip; [exact Hl|done|lia|done|done]. }
  rewrite <- app_assoc in *. simpl in *.
  apply dll_app in Hl as (p & h & Hseg & -> & Hm & Hl).
  pose proof Hl as (Hnxm & Hi & Hl2). rewrite Hi, decide_False by done.
  apply NoDup_app in Hnd as (_ & Hdis & Hnd). apply NoDup_cons in Hnd as [Hml Hnd].
  apply NoDup_cons in Hnd as [Hil Hnd].
  assert (forall j, S j = nx i -> j ∈ l2) as Hnxi.
  { intros j Hj. destruct l2 as [|k l2]; simpl in Hl2; [congruence|].
    destruct Hl2 as [Hk _]. assert (j = k) as -> by congruence. left. }
  apply dll_app. exists p, (S m). split.
  - eapply dseg_ext; [|exact Hseg]. intros j Hj.
    rewrite Hnx, Hpv by (apply elem_of_app; by left). rewrite !decide_False; [done| |].
    + intros Hc%Hnxi. apply (Hdis j Hj). by do 2 right.
    + rewrite Hi. intros [= ->]. apply (Hdis m Hj). left.
  - simpl. assert (m ∈ l1 ++ m :: l2) as Hin by (apply elem_of_app; right; left).
    rewrite Hnx, Hpv by done. rewrite (decide_True (P := S m = pv i)) by done. split_and!; [done| |].
    + rewrite decide_False; [done|]. intros Hc%Hnxi. apply Hml. by right.
    + rewrite Hnxm in Hl. eapply dll_skip; [exact Hl|done| | |].
      * intros j Hj [= ->]. apply Hml. by right.
      * intros j Hj. apply Hnx, elem_of_app. right. by right.
      * intros j Hj. apply Hpv, elem_of_app. right. by right.
Qed.

(** ** Sums over the descriptors *)

Definition sumZ {A} (f : A -> Z) (l : list A) : Z := foldr (fun x acc => f x + acc) 0 l.

Lemma sumZ_insert {A} (f : A -> Z) l i x y :
  l !! i = Some x -> sumZ f (<[i := y]> l) = sumZ f l - f x + f y.
Proof.
  revert i. induction l as [|z l IH]; intros [|i] Hi; simplify_eq/=; [lia|].
  rewrite (IH _ Hi). lia.
Qed.

Lemma sumZ_nonneg {A} (f : A -> Z) l : (forall x, x ∈ l -> 0 <= f x) -> 0 <= sumZ f l.
Proof.
  induction l as [|x l IH]; simpl; intros Hf; [lia|].
  pose proof (Hf x ltac:(left)). specialize (IH ltac:(intros; apply Hf; by right)). lia.
Qed.

Lemma sumZ_app {A} (f : A -> Z) l1 l2 : sumZ f (l1 ++ l2) = sumZ f l1 + sumZ f l2.
Proof. induction l1; simpl; lia. Qed.

Lemma sumZ_lookup {A} (f : A -> Z) l i x :
  (forall y, y ∈ l -> 0 <= f y) -> l !! i = Some x -> f x <= sumZ f l.
Proof.
  revert i. induction l as [|z l IH]; intros [|i] Hf Hi; simplify_eq/=.
  - pose proof (sumZ_nonneg f l ltac:(intros; apply Hf; by right)). lia.
  - specialize (IH _ ltac:(intros; apply Hf; by right) Hi).
    pose proof (Hf z ltac:(left)). lia.
Qed.

(** ** Descriptors without their links *)

Definition erase (n : BlockNode) : BlockNode := with_next 0 (with_prev 0 n).
Definition blocks (s : BuddyAllocator) : list BlockNode := erase <$> nodes s.

(** What the steps below leave alone; counting events does not matter to it. *)
Definition core (s : BuddyAllocator) : BuddyAllocator :=
  set_nodes [] (set_node_used 0 (set_free_heads []
    (set_stats (set_counts [] (set_events no_events (stats s))) s))).

Definition nx (ns : list BlockNode) (i : nat) : nat := from_option n_free_next 0%nat (ns !! i).
Definition pv (ns : list BlockNode) (i : nat) : nat := from_option n_free_prev 0%nat (ns !! i).

Definition active (n : BlockNode) : bool := negb (bool_decide (n_state n = NODE_INACTIVE)).

Lemma active_state b : n_state b <> NODE_INACTIVE -> active b = true.
Proof. intros H. unfold active. by rewrite bool_decide_false. Qed.

Lemma inactive_state b : n_state b = NODE_INACTIVE -> active b = false.
Proof. intros H. unfold active. by rewrite bool_decide_true. Qed.

(** The links represent the lists [L], by zone and order. *)
Record linked (s : BuddyAllocator) (L : nat * nat -> list nat) : Prop := {
  lk_heads : length (free_heads s) = (VM_NFREELIST * S MAX_TRACKED_ORDER)%nat;
  lk_list fl o : (fl < VM_NFREELIST)%nat -> (o <= MAX_TRACKED_ORDER)%nat ->
    exists h, free_heads s !! free_head_index fl o = Some h /\
      dll (nx (nodes s)) (pv (nodes s)) 0 h (L (fl, o));
  lk_elem i k : i ∈ L k <->
    exists b, blocks s !! i = Some b /\ n_state b = NODE_FREE /\ (n_fl_type b, n_order b) = k;
  lk_nodup k : NoDup (L k);
  lk_range i b : blocks s !! i = Some b -> n_state b = NODE_FREE ->
    (n_fl_type b < VM_NFREELIST)%nat /\ (n_order b <= MAX_TRACKED_ORDER)%nat;
  lk_counts : length (free_count_per_order (stats s)) = S MAX_TRACKED_ORDER;
  lk_count o : (o <= MAX_TRACKED_ORDER)%nat ->
    free_count_per_order (stats s) !! o =
      Some (length (L (VM_FREELIST_DEFAULT, o)) + length (L (VM_FREELIST_DMA, o)))%nat;
  lk_used : Z.of_nat (node_used s) = sumZ (fun b => if active b then 1 else 0) (blocks s);
  lk_off i b : blocks s !! i = Some b -> n_state b <> NODE_FREE ->
    nx (nodes s) i = 0%nat /\ pv (nodes s) i = 0%nat }.

Lemma lookup_blocks s i b :
  blocks s !! i = Some b -> exists n, nodes s !! i = Some n /\ b = erase n.
Proof. unfold blocks. rewrite list_lookup_fmap. intros (n & Hn & ->)%fmap_Some. by exists n. Qed.

Lemma blocks_lookup s i n : nodes s !! i = Some n -> blocks s !! i = Some (erase n).
Proof. unfold blocks. rewrite list_lookup_fmap. by intros ->. Qed.

Lemma length_blocks s : length (blocks s) = length (nodes s).
Proof. apply length_fmap. Qed.

Lemma alter_const {A} (x : A) (i : nat) (l : list A) : alter (fun _ => x) i l = <[i := x]> l.
Proof. revert i. induction l as [|y l IH]; intros [|i]; simpl; [done..|]. f_equal. apply IH. Qed.

Lemma fmap_alter_same {A B} (g : A -> B) (f : A -> A) (i : nat) (l : list A) :
  (forall x, g (f x) = g x) -> g <$> alter f i l = g <$> l.
Proof.
  intros Hg. revert i. induction l as [|x l IH]; intros [|i]; simpl; [done..|by rewrite Hg|].
  f_equal. apply IH.
Qed.

(** A change through a pointer that may be null. *)
Definition at_ptr (p : nat) (f : BlockNode -> BlockNode) (ns : list BlockNode) : list BlockNode :=
  match p with O => ns | S k => alter f k ns end.

Definition valid_ptr (ns : list BlockNode) (p : nat) : Prop :=
  match p with O => True | S k => is_Some (ns !! k) end.

Lemma set_nodes_id s : set_nodes (nodes s) s = s.
Proof. by destruct s. Qed.

Lemma node_mut_opt s p f :
  valid_ptr (nodes s) p ->
  (if (p =? 0)%nat then mret tt else node_mut p f : M unit) s =
  Done (tt, set_nodes (at_ptr p f (nodes s)) s).
Proof.
  destruct p as [|k]; simpl.
  - intros _. by rewrite set_nodes_id.
  - intros [n Hn]. by rewrite Hn.
Qed.

Lemma at_ptr_lookup p f ns j :
  at_ptr p f ns !! j = if decide (S j = p) then f <$> (ns !! j) else ns !! j.
Proof.
  destruct p as [|k]; cbn [at_ptr]; [by rewrite decide_False|].
  destruct (decide (S j = S k)) as [[= ->]|Hne]; [by rewrite list_lookup_alter_eq|].
  apply list_lookup_alter_ne. congruence.
Qed.

Lemma length_at_ptr p f ns : length (at_ptr p f ns) = length ns.
Proof. destruct p; simpl; [done|apply length_alter]. Qed.

Lemma at_ptr_erase p f ns : (forall n, erase (f n) = erase n) -> erase <$> at_ptr p f ns = erase <$> ns.
Proof. intros Hf. destruct p; simpl; [done|by apply fmap_alter_same]. Qed.

Lemma nx_at_next p v ns j :
  valid_ptr ns p -> nx (at_ptr p (with_next v) ns) j = if decide (S j = p) then v else nx ns j.
Proof.
  unfold nx. intros Hp. rewrite at_ptr_lookup. destruct (decide (S j = p)) as [<-|]; [|done].
  destruct Hp as [n ->]. done.
Qed.

Lemma pv_at_next p v ns j : pv (at_ptr p (with_next v) ns) j = pv ns j.
Proof.
  unfold pv. rewrite at_ptr_lookup. destruct (decide _); [|done]. by destruct (ns !! j).
Qed.

Lemma pv_at_prev p v ns j :
  valid_ptr ns p -> pv (at_ptr p (with_prev v) ns) j = if decide (S j = p) then v else pv ns j.
Proof.
  unfold pv. intros Hp. rewrite at_ptr_lookup. destruct (decide (S j = p)) as [<-|]; [|done].
  destruct Hp as [n ->]. done.
Qed.

Lemma nx_at_prev p v ns j : nx (at_ptr p (with_prev v) ns) j = nx ns j.
Proof.
  unfold nx. rewrite at_ptr_lookup. destruct (decide _); [|done]. by destruct (ns !! j).
Qed.

Lemma nx_insert ns i n j :
  is_Some (ns !! i) -> nx (<[i := n]> ns) j = if decide (j = i) then n_free_next n else nx ns j.
Proof.
  intros Hi%lookup_lt_is_Some_1. unfold nx. destruct (decide (j = i)) as [->|].
  - by rewrite list_lookup_insert_eq.
  - by rewrite list_lookup_insert_ne.
Qed.

Lemma pv_insert ns i n j :
  is_Some (ns !! i) -> pv (<[i := n]> ns) j = if decide (j = i) then n_free_prev n else pv ns j.
Proof.
  intros Hi%lookup_lt_is_Some_1. unfold pv. destruct (decide (j = i)) as [->|].
  - by rewrite list_lookup_insert_eq.
  - by rewrite list_lookup_insert_ne.
Qed.

(** ** A new block *)

Definition block_node (a : Z) (o k fl : nat) (is_free : bool) : BlockNode :=
  mkNode a o k fl (if is_free then NODE_FREE else NODE_ALLOCATED) false
    (if is_free then 0 else 1) 0 0 0.

Definition placed (s : BuddyAllocator) (i : nat) (n : BlockNode) : BuddyAllocator :=
  set_node_used (S (node_used s)) (set_nodes (<[i := n]> (nodes s)) s).

Lemma as_u8_small n : (n <= MAX_TRACKED_ORDER)%nat -> as_u8 n = n.
Proof. unfold as_u8, MAX_TRACKED_ORDER. intros. rewrite Z.mod_small by lia. lia. Qed.

Lemma as_u32_small n : Z.of_nat n < 4294967296 -> as_u32 n = n.
Proof. unfold as_u32. intros. rewrite Z.mod_small by lia. lia. Qed.

Lemma new_node_ok s i a o k fl b n :
  node_addr_for s a = Some (S i) -> nodes s !! i = Some n -> n_state n = NODE_INACTIVE ->
  (o <= MAX_TRACKED_ORDER)%nat -> Z.of_nat k < 4294967296 -> (fl < VM_NFREELIST)%nat ->
  new_node a o k fl b s = Done (Some (S i), placed s i (block_node a o k fl b)).
Proof.
  intros Ha Hn Hst Ho Hk Hfl. unfold new_node. rewrite get_bind, Ha.
  rewrite (bindM _ _ _ _ _ (node_ref_ok _ _ _ Hn)), bool_decide_true by done.
  unfold initialize_node. rewrite (bindM _ _ _ _ _ (node_mut_ok _ _ _ _ Hn)), alter_const.
  rewrite as_u8_small, as_u32_small, as_u8_small by (unfold VM_NFREELIST, MAX_TRACKED_ORDER in *; lia).
  done.
Qed.

Lemma alter_insert_eq {A} (f : A -> A) (i : nat) x (l : list A) :
  alter f i (<[i := x]> l) = <[i := f x]> l.
Proof. revert i. induction l as [|y l IH]; intros [|i]; simpl; [done..|]. f_equal. apply IH. Qed.

Lemma free_head_index_lt fl o :
  (fl < VM_NFREELIST)%nat -> (o <= MAX_TRACKED_ORDER)%nat ->
  (free_head_index fl o < VM_NFREELIST * S MAX_TRACKED_ORDER)%nat.
Proof. unfold free_head_index, VM_NFREELIST, MAX_TRACKED_ORDER. lia. Qed.

Lemma free_head_index_inj fl o fl' o' :
  (o <= MAX_TRACKED_ORDER)%nat -> (o' <= MAX_TRACKED_ORDER)%nat ->
  free_head_index fl o = free_head_index fl' o' -> (fl, o) = (fl', o').
Proof. unfold free_head_index, MAX_TRACKED_ORDER. intros. f_equal; lia. Qed.

Lemma insert_fmap_alter {A B} (f : A -> B) (g : A -> A) (i : nat) y (l : list A) :
  <[i := y]> (f <$> alter g i l) = <[i := y]> (f <$> l).
Proof. revert i. induction l as [|x l IH]; intros [|i]; simpl; [done..|]. f_equal. apply IH. Qed.

Lemma insert_alter_eq {A} (g : A -> A) (i : nat) y (l : list A) :
  <[i := y]> (alter g i l) = <[i := y]> l.
Proof. revert i. induction l as [|x l IH]; intros [|i]; simpl; [done..|]. f_equal. apply IH. Qed.

Definition deactivated (s : BuddyAllocator) (i : nat) : BuddyAllocator :=
  set_node_used (node_used s - 1) (set_nodes (alter (with_state NODE_INACTIVE) i (nodes s)) s).

Lemma deactivate_ok s i n :
  nodes s !! i = Some n -> deactivate_node (S i) (n_state n) s = Done (true, deactivated s i).
Proof.
  intros Hn. unfold deactivate_node. rewrite (bindM _ _ _ _ _ (node_ref_ok _ _ _ Hn)).
  rewrite bool_decide_true by done. by rewrite (bindM _ _ _ _ _ (node_mut_ok _ _ _ _ Hn)).
Qed.

Section steps.
Context (s : BuddyAllocator) (L : nat * nat -> list nat) (Hlk : linked s L).

Lemma free_head_ok fl o :
  (fl < VM_NFREELIST)%nat -> (o <= MAX_TRACKED_ORDER)%nat ->
  exists h, free_heads s !! free_head_index fl o = Some h /\
    dll (nx (nodes s)) (pv (nodes s)) 0 h (L (fl, o)) /\ valid_ptr (nodes s) h.
Proof.
  intros Hfl Ho. destruct (lk_list _ _ Hlk fl o Hfl Ho) as (h & Hh & Hl).
  exists h. split_and!; [done|done|]. destruct (L (fl, o)) as [|i l] eqn:HL; simpl in Hl; [by rewrite Hl|].
  destruct Hl as [-> _]. assert (i ∈ L (fl, o)) as Hi by (rewrite HL; left).
  apply (lk_elem _ _ Hlk) in Hi as (b & Hb & _). apply lookup_blocks in Hb as (n & Hn & _). by exists n.
Qed.

(** The lists after one of them changes, and the number of their elements. *)
Lemma counts_update k (l : list nat) (c : nat) o :
  (k.1 < VM_NFREELIST)%nat -> (k.2 <= MAX_TRACKED_ORDER)%nat -> (o <= MAX_TRACKED_ORDER)%nat ->
  Z.of_nat c = Z.of_nat (length (L (VM_FREELIST_DEFAULT, k.2)) + length (L (VM_FREELIST_DMA, k.2)))
               + Z.of_nat (length l) - Z.of_nat (length (L k)) ->
  <[k.2 := c]> (free_count_per_order (stats s)) !! o =
    Some (length ((<[k := l]> L) (VM_FREELIST_DEFAULT, o))
          + length ((<[k := l]> L) (VM_FREELIST_DMA, o)))%nat.
Proof.
  destruct k as [fl ko]. simpl. intros Hfl Hko Ho Hc.
  destruct (decide (o = ko)) as [->|Hne].
  - rewrite list_lookup_insert_eq by (rewrite (lk_counts _ _ Hlk); lia). f_equal.
    unfold VM_NFREELIST, VM_FREELIST_DEFAULT, VM_FREELIST_DMA in *.
    assert (fl = 0 \/ fl = 1)%nat as [->| ->] by lia;
      rewrite fn_lookup_insert, fn_lookup_insert_ne by congruence; lia.
  - rewrite list_lookup_insert_ne by done. rewrite !fn_lookup_insert_ne by congruence.
    by apply (lk_count _ _ Hlk).
Qed.

Lemma heads_update k hd (l : list nat) nx' pv' fl o :
  (k.1 < VM_NFREELIST)%nat -> (k.2 <= MAX_TRACKED_ORDER)%nat ->
  (fl < VM_NFREELIST)%nat -> (o <= MAX_TRACKED_ORDER)%nat ->
  dll nx' pv' 0 hd l ->
  (forall i, i ∉ L k -> (fl, o) <> k -> i ∈ L (fl, o) ->
     nx' i = nx (nodes s) i /\ pv' i = pv (nodes s) i) ->
  exists h, <[free_head_index k.1 k.2 := hd]> (free_heads s) !! free_head_index fl o = Some h /\
    dll nx' pv' 0 h ((<[k := l]> L) (fl, o)).
Proof.
  destruct k as [kf ko]. simpl. intros Hkf Hko Hfl Ho Hl Hframe.
  destruct (decide ((fl, o) = (kf, ko))) as [[= -> ->]|Hne].
  - exists hd. rewrite fn_lookup_insert. split; [|done].
    apply list_lookup_insert_eq. rewrite (lk_heads _ _ Hlk). by apply free_head_index_lt.
  - rewrite fn_lookup_insert_ne by done. destruct (lk_list _ _ Hlk fl o Hfl Ho) as (h & Hh & Hd).
    exists h. split.
    + rewrite list_lookup_insert_ne; [done|]. intros Hc. apply Hne. symmetry.
      by apply free_head_index_inj.
    + eapply dll_ext; [|exact Hd]. intros i Hi. apply Hframe; [|done|done].
      intros Hik. apply (lk_elem _ _ Hlk) in Hi as (b & Hb & _ & Hk1).
      apply (lk_elem _ _ Hlk) in Hik as (b' & Hb' & _ & Hk2). congruence.
Qed.

(** One descriptor changes, and with it the one list [k]. *)
Lemma linked_change s' i b0 b k (l : list nat) hd c :
  (k.1 < VM_NFREELIST)%nat -> (k.2 <= MAX_TRACKED_ORDER)%nat ->
  blocks s !! i = Some b0 -> blocks s' = <[i := b]> (blocks s) ->
  (n_state b0 = NODE_FREE -> (n_fl_type b0, n_order b0) = k) ->
  (n_state b = NODE_FREE -> (n_fl_type b, n_order b) = k) ->
  (n_state b <> NODE_FREE -> nx (nodes s') i = 0%nat /\ pv (nodes s') i = 0%nat) ->
  free_heads s' = <[free_head_index k.1 k.2 := hd]> (free_heads s) ->
  free_count_per_order (stats s') = <[k.2 := c]> (free_count_per_order (stats s)) ->
  Z.of_nat c = Z.of_nat (length (L (VM_FREELIST_DEFAULT, k.2)) + length (L (VM_FREELIST_DMA, k.2)))
               + Z.of_nat (length l) - Z.of_nat (length (L k)) ->
  Z.of_nat (node_used s') = Z.of_nat (node_used s) - (if active b0 then 1 else 0)
                            + (if active b then 1 else 0) ->
  dll (nx (nodes s')) (pv (nodes s')) 0 hd l -> NoDup l ->
  (forall j, j ∈ l <-> (j = i /\ n_state b = NODE_FREE) \/ (j <> i /\ j ∈ L k)) ->
  (forall j, j ∉ L k -> j <> i ->
     nx (nodes s') j = nx (nodes s) j /\ pv (nodes s') j = pv (nodes s) j) ->
  linked s' (<[k := l]> L).
Proof.
  intros Hk1 Hk2 Hb0 Hbl Hkey0 Hkey Hoff Hheads Hcounts Hc Hused Hl Hnd Hel Hframe.
  assert (i < length (blocks s))%nat as Hlt by (by eapply lookup_lt_Some).
  assert (forall j b', blocks s' !! j = Some b' <->
    (j = i /\ b' = b) \/ (j <> i /\ blocks s !! j = Some b')) as Hlook.
  { intros j b'. rewrite Hbl, list_lookup_insert_Some. naive_solver. }
  constructor.
  - rewrite Hheads, length_insert. apply (lk_heads _ _ Hlk).
  - intros fl o Hfl Ho. rewrite Hheads. apply heads_update; try done.
    intros j Hj Hne Hin. apply Hframe; [done|]. intros ->.
    apply (lk_elem _ _ Hlk) in Hin as (b' & Hb' & Hst & Hk'). simplify_eq. naive_solver.
  - intros j k'. destruct (decide (k' = k)) as [->|Hne].
    + rewrite fn_lookup_insert, Hel, (lk_elem _ _ Hlk). naive_solver.
    + rewrite fn_lookup_insert_ne by done. rewrite (lk_elem _ _ Hlk). naive_solver.
  - intros k'. destruct (decide (k' = k)) as [->|Hne].
    + by rewrite fn_lookup_insert.
    + rewrite fn_lookup_insert_ne by done. apply (lk_nodup _ _ Hlk).
  - intros j b' [[-> ->]|[Hne Hj]]%Hlook Hst; [|by apply (lk_range _ _ Hlk j)].
    specialize (Hkey Hst). by subst k.
  - rewrite Hcounts, length_insert. apply (lk_counts _ _ Hlk).
  - intros o Ho. rewrite Hcounts. by apply counts_update.
  - rewrite Hused, Hbl, (sumZ_insert _ _ _ _ _ Hb0), (lk_used _ _ Hlk). lia.
  - intros j b' [[-> ->]|[Hne Hj]]%Hlook Hst; [by apply Hoff|].
    destruct (Hframe j) as [-> ->]; [|done|by apply (lk_off _ _ Hlk j b')].
    intros Hin. apply (lk_elem _ _ Hlk) in Hin as (b'' & Hb'' & Hst' & _). congruence.
Qed.

(** The state after a block is put at the head [h] of its list of [c] blocks. *)
Definition pushed (i : nat) (bn : BlockNode) (fl o h c : nat) : BuddyAllocator :=
  set_stats (set_counts (<[o := S c]> (free_count_per_order (stats s))) (stats s))
    (set_free_heads (<[free_head_index fl o := S i]> (free_heads s))
      (set_nodes (at_ptr h (with_prev (S i)) (<[i := with_next h bn]> (nodes s)))
        (set_node_used (S (node_used s)) s))).

Lemma push_runs i a o k fl h c :
  is_Some (nodes s !! i) -> free_heads s !! free_head_index fl o = Some h -> valid_ptr (nodes s) h ->
  free_count_per_order (stats s) !! o = Some c ->
  let bn := block_node a o k fl true in
  add_to_free_list (S i) (placed s i bn) = Done (tt, pushed i bn fl o h c).
Proof.
  intros Hn Hh Hv Hc bn.
  assert (nodes (placed s i bn) !! i = Some bn) as Hn1 by (by apply list_lookup_insert_eq, lookup_lt_is_Some_1).
  unfold add_to_free_list. rewrite (bindM _ _ _ _ _ (node_ref_ok _ _ _ Hn1)). simpl.
  erewrite (bindM (free_head fl o)) by (unfold free_head; simpl; by rewrite Hh).
  rewrite (bindM _ _ _ _ _ (node_mut_ok _ _ _ _ Hn1)). simpl. rewrite alter_insert_eq.
  erewrite (bindM (if (h =? 0)%nat then _ else _)).
  2: { apply node_mut_opt. simpl. destruct h as [|j]; [done|]. simpl.
       apply lookup_lt_is_Some_2. rewrite length_insert. by apply lookup_lt_is_Some_1. }
  erewrite (bindM (set_free_head fl o _)) by (unfold set_free_head; simpl; by rewrite Hh).
  erewrite (bindM (free_count o)) by (unfold free_count; simpl; by rewrite Hc). done.
Qed.

(** Its links: the new head points to the old one, which points back. *)
Lemma pushed_links i bn fl o h c l :
  is_Some (nodes s !! i) -> valid_ptr (nodes s) h -> dll (nx (nodes s)) (pv (nodes s)) 0 h l -> i ∉ l ->
  (forall j, nx (nodes (pushed i bn fl o h c)) j = if decide (j = i) then h else nx (nodes s) j) /\
  (forall j, pv (nodes (pushed i bn fl o h c)) j =
    if decide (j = i) then n_free_prev bn else if decide (S j = h) then S i else pv (nodes s) j).
Proof.
  intros Hn Hv Hl Hfresh. assert (valid_ptr (<[i := with_next h bn]> (nodes s)) h) as Hv'.
  { destruct h as [|j]; [done|]. simpl. apply lookup_lt_is_Some_2. rewrite length_insert.
    by apply lookup_lt_is_Some_1. }
  split; intros j; simpl.
  - by rewrite nx_at_prev, nx_insert by done.
  - rewrite pv_at_prev, pv_insert by done. destruct (decide (j = i)) as [->|]; [|done]. rewrite decide_False; [done|].
    intros <-. destruct l; simpl in Hl; [done|]. destruct Hl as [[= ->] _]. apply Hfresh. left.
Qed.

(** Putting a block at the head of its list. *)
Lemma put_free i n a o k fl :
  nodes s !! i = Some n -> n_state n = NODE_INACTIVE ->
  (fl < VM_NFREELIST)%nat -> (o <= MAX_TRACKED_ORDER)%nat ->
  exists s', add_to_free_list (S i) (placed s i (block_node a o k fl true)) = Done (tt, s') /\
    linked s' (<[(fl, o) := i :: L (fl, o)]> L) /\
    blocks s' = <[i := block_node a o k fl true]> (blocks s) /\ core s' = core s.
Proof.
  intros Hn Hst Hfl Ho. destruct (free_head_ok fl o Hfl Ho) as (h & Hh & Hl & Hv).
  assert (is_Some (nodes s !! i)) as Hsome by done. pose proof (lk_count _ _ Hlk o Ho) as Hc.
  set (c := (length (L (VM_FREELIST_DEFAULT, o)) + length (L (VM_FREELIST_DMA, o)))%nat) in Hc.
  set (bn := block_node a o k fl true). set (s' := pushed i bn fl o h c).
  assert (blocks s' = <[i := bn]> (blocks s)) as Hbl.
  { unfold blocks. simpl. rewrite at_ptr_erase by done. by rewrite list_fmap_insert. }
  exists s'. split_and!; [by apply push_runs| |done|done].
  assert (i ∉ L (fl, o)) as Hfresh.
  { intros Hi. apply (lk_elem _ _ Hlk) in Hi as (b & Hb & Hb' & _).
    apply lookup_blocks in Hb as (n' & Hn' & ->). simplify_eq. simpl in Hb'. congruence. }
  destruct (pushed_links i bn fl o h c _ Hsome Hv Hl Hfresh) as [Hnx Hpv].
  eapply (linked_change s' i (erase n) bn (fl, o) _ (S i) (S c)); try done.
  - by apply blocks_lookup.
  - simpl. by rewrite Hst.
  - cbn [snd]. simpl. lia.
  - simpl. unfold active. simpl. rewrite Hst, bool_decide_true by done. simpl. lia.
  - by apply (dll_push _ _ _ _ h _ i Hl Hfresh (lk_nodup _ _ Hlk _)).
  - constructor; [done|apply (lk_nodup _ _ Hlk)].
  - intros j. rewrite elem_of_cons. destruct (decide (j = i)) as [->|]; simpl; naive_solver.
  - intros j Hj Hne. unfold s'. rewrite Hnx, Hpv, !decide_False; [done| |done|done].
    intros <-. destruct (L (fl, o)) as [|j' l]; simpl in Hl; [done|].
    destruct Hl as [[= ->] _]. apply Hj. left.
Qed.

(** The links of a listed block. *)
Lemma listed_links i n :
  nodes s !! i = Some n -> n_state n = NODE_FREE ->
  exists h l1 l2, L (n_fl_type n, n_order n) = l1 ++ i :: l2 /\
    (n_fl_type n < VM_NFREELIST)%nat /\ (n_order n <= MAX_TRACKED_ORDER)%nat /\
    free_heads s !! free_head_index (n_fl_type n) (n_order n) = Some h /\
    dll (nx (nodes s)) (pv (nodes s)) 0 h (l1 ++ i :: l2) /\ NoDup (l1 ++ i :: l2) /\
    (forall j, S j = n_free_next n \/ S j = n_free_prev n -> j ∈ l1 ++ l2 /\ is_Some (nodes s !! j)).
Proof.
  intros Hn Hst. pose proof (blocks_lookup _ _ _ Hn) as Hb.
  destruct (lk_range _ _ Hlk _ _ Hb Hst) as [Hfl Ho]. simpl in Hfl, Ho.
  assert (i ∈ L (n_fl_type n, n_order n)) as Hi by (apply (lk_elem _ _ Hlk); by exists (erase n)).
  apply list_elem_of_split in Hi as (l1 & l2 & HL).
  destruct (lk_list _ _ Hlk _ _ Hfl Ho) as (h & Hh & Hl).
  pose proof (lk_nodup _ _ Hlk (n_fl_type n, n_order n)) as Hnd. rewrite HL in Hl, Hnd.
  exists h, l1, l2. split_and!; try done. intros j Hj.
  assert (j ∈ l1 ++ l2) as Hin.
  { apply elem_of_app. apply dll_app in Hl as (p & h' & Hseg & -> & Hp & Hl2).
    unfold nx, pv in Hp, Hl2. rewrite Hn in Hp, Hl2. simpl in Hp, Hl2. destruct Hj as [Hj|Hj].
    - right. destruct l2 as [|j2 l2]; simpl in Hl2; [congruence|]. destruct Hl2 as [Hj2 _].
      assert (j = j2) as -> by congruence. left.
    - left. destruct l1 as [|j1 l1 _] using rev_ind; [destruct Hseg; congruence|].
      apply elem_of_app. right. clear -Hj Hp Hseg. revert Hseg. generalize 0%nat h.
      induction l1 as [|x l1 IH]; simpl; intros q h0.
      + intros (_ & _ & <- & _). assert (j = j1) as -> by congruence. left.
      + intros (_ & _ & Hseg). by eapply IH. }
  split; [done|]. assert (j ∈ L (n_fl_type n, n_order n)) as Hin'.
  { rewrite HL. apply elem_of_app in Hin. apply elem_of_app. destruct Hin; [by left|right; by right]. }
  apply (lk_elem _ _ Hlk) in Hin' as (b & Hbj & _). apply lookup_blocks in Hbj as (m & Hm & _). by exists m.
Qed.

(** Taking a block off its list. *)
Definition unlinked (i : nat) (n : BlockNode) : list BlockNode :=
  at_ptr (n_free_next n) (with_prev (n_free_prev n))
    (at_ptr (n_free_prev n) (with_next (n_free_next n))
       (alter (with_state NODE_INACTIVE) i (nodes s))).

Lemma remove_run i n c :
  nodes s !! i = Some n -> n_state n = NODE_FREE ->
  free_count_per_order (stats s) !! n_order n = Some c ->
  exists hs, remove_from_free_list (S i) (deactivated s i) = Done (tt,
      set_stats (set_counts (<[n_order n := (c - 1)%nat]> (free_count_per_order (stats s))) (stats s))
        (set_nodes (alter (fun n => with_next 0 (with_prev 0 n)) i (unlinked i n))
          (set_free_heads hs (set_node_used (node_used s - 1) s)))) /\
    forall h, free_heads s !! free_head_index (n_fl_type n) (n_order n) = Some h ->
      hs = <[free_head_index (n_fl_type n) (n_order n) :=
               if decide (n_free_prev n = 0%nat) then n_free_next n else h]> (free_heads s).
Proof.
  intros Hn Hst Hc.
  destruct (listed_links i n Hn Hst) as (h & l1 & l2 & HL & Hfl & Ho & Hh & Hl & Hnd & Hnb).
  set (n' := with_state NODE_INACTIVE n).
  assert (nodes (deactivated s i) !! i = Some n') as Hn'.
  { simpl. rewrite list_lookup_alter_eq, Hn. done. }
  assert (i ∉ l1 ++ l2) as Hil.
  { apply NoDup_app in Hnd as (Hnd1 & Hdis & Hnd2). apply NoDup_cons in Hnd2 as [? _].
    intros [Hi|Hi]%elem_of_app; [|done]. apply (Hdis i Hi). left. }
  assert (forall p, p = n_free_next n \/ p = n_free_prev n ->
            valid_ptr (alter (with_state NODE_INACTIVE) i (nodes s)) p) as Hv.
  { intros [|j] Hp; [done|]. simpl. apply lookup_lt_is_Some_2. rewrite length_alter.
    apply lookup_lt_is_Some_1. eapply Hnb. naive_solver. }
  exists (if decide (n_free_prev n = 0%nat)
          then <[free_head_index (n_fl_type n) (n_order n) := n_free_next n]> (free_heads s)
          else free_heads s). split.
  - unfold remove_from_free_list. rewrite (bindM _ _ _ _ _ (node_ref_ok _ _ _ Hn')). simpl.
    set (s2 := set_nodes (at_ptr (n_free_prev n) (with_next (n_free_next n))
                  (alter (with_state NODE_INACTIVE) i (nodes s)))
        (set_free_heads (if decide (n_free_prev n = 0%nat)
            then <[free_head_index (n_fl_type n) (n_order n) := n_free_next n]> (free_heads s)
            else free_heads s) (set_node_used (node_used s - 1) s))).
    erewrite (bindM (if (n_free_prev n =? 0)%nat then _ else _) _ _ _ s2).
    2: { unfold s2. destruct (n_free_prev n) as [|j] eqn:Hp; simpl.
         - unfold set_free_head. simpl. by rewrite Hh.
         - destruct (Hv (S j)) as [m Hm]; [by right|]. simpl in Hm. by rewrite Hm. }
    assert (valid_ptr (nodes s2) (n_free_next n)) as Hv2.
    { specialize (Hv (n_free_next n) ltac:(by left)). unfold s2. destruct (n_free_next n); [done|].
      cbn in *. apply lookup_lt_is_Some_2. rewrite length_at_ptr. by apply lookup_lt_is_Some_1. }
    rewrite (bindM _ _ _ _ _ (node_mut_opt s2 (n_free_next n) _ Hv2)).
    assert (exists m, nodes (set_nodes (unlinked i n) s2) !! i = Some m) as [m Hm].
    { apply lookup_lt_is_Some_2. simpl. unfold unlinked. rewrite !length_at_ptr, length_alter.
      by eapply lookup_lt_Some. }
    rewrite (bindM _ _ _ _ _ (node_mut_ok _ _ _ _ Hm)).
    erewrite (bindM (free_count _)) by (unfold free_count; simpl; by rewrite Hc). done.
  - intros h' Hh'. simplify_eq. destruct (decide (n_free_prev n = 0%nat)); [done|].
    symmetry. by apply list_insert_id.
Qed.

Lemma nx_alter_state st i ns j : nx (alter (with_state st) i ns) j = nx ns j.
Proof.
  unfold nx. destruct (decide (j = i)) as [->|].
  - rewrite list_lookup_alter_eq. by destruct (ns !! i).
  - by rewrite list_lookup_alter_ne.
Qed.

Lemma pv_alter_state st i ns j : pv (alter (with_state st) i ns) j = pv ns j.
Proof.
  unfold pv. destruct (decide (j = i)) as [->|].
  - rewrite list_lookup_alter_eq. by destruct (ns !! i).
  - by rewrite list_lookup_alter_ne.
Qed.

(** The links once the neighbours point to each other and [i] is empty. *)
Lemma unlinked_links i n j :
  nodes s !! i = Some n -> n_state n = NODE_FREE ->
  nx (<[i := empty_node]> (unlinked i n)) j =
    (if decide (j = i) then 0%nat else
     if decide (S j = n_free_prev n) then n_free_next n else nx (nodes s) j) /\
  pv (<[i := empty_node]> (unlinked i n)) j =
    (if decide (j = i) then 0%nat else
     if decide (S j = n_free_next n) then n_free_prev n else pv (nodes s) j).
Proof.
  intros Hn Hst.
  destruct (listed_links i n Hn Hst) as (h & l1 & l2 & HL & Hfl & Ho & Hh & Hl & Hnd & Hnb).
  assert (is_Some (unlinked i n !! i)) as Hi.
  { apply lookup_lt_is_Some_2. unfold unlinked. rewrite !length_at_ptr, length_alter.
    by eapply lookup_lt_Some. }
  assert (forall p, p = n_free_next n \/ p = n_free_prev n ->
            valid_ptr (alter (with_state NODE_INACTIVE) i (nodes s)) p) as Hv.
  { intros [|k] Hp; [done|]. simpl. apply lookup_lt_is_Some_2. rewrite length_alter.
    apply lookup_lt_is_Some_1. eapply Hnb. naive_solver. }
  assert (valid_ptr (at_ptr (n_free_prev n) (with_next (n_free_next n))
    (alter (with_state NODE_INACTIVE) i (nodes s))) (n_free_next n)) as Hv2.
  { specialize (Hv (n_free_next n) ltac:(by left)). destruct (n_free_next n); [done|].
    cbn in *. apply lookup_lt_is_Some_2. rewrite length_at_ptr. by apply lookup_lt_is_Some_1. }
  rewrite nx_insert, pv_insert by done. unfold unlinked.
  rewrite nx_at_prev, nx_at_next, nx_alter_state by (apply Hv; by right).
  rewrite pv_at_prev, pv_at_next, pv_alter_state by done. done.
Qed.

Lemma take_free_linked i n l1 l2 s3 h :
  nodes s !! i = Some n -> n_state n = NODE_FREE ->
  L (n_fl_type n, n_order n) = l1 ++ i :: l2 ->
  free_heads s !! free_head_index (n_fl_type n) (n_order n) = Some h ->
  nodes s3 = <[i := empty_node]> (unlinked i n) ->
  blocks s3 = <[i := empty_node]> (blocks s) ->
  node_used s3 = (node_used s - 1)%nat ->
  free_heads s3 = <[free_head_index (n_fl_type n) (n_order n) :=
     if decide (n_free_prev n = 0%nat) then n_free_next n else h]> (free_heads s) ->
  free_count_per_order (stats s3) = <[n_order n :=
     (length (L (VM_FREELIST_DEFAULT, n_order n)) + length (L (VM_FREELIST_DMA, n_order n)) - 1)%nat]>
     (free_count_per_order (stats s)) ->
  linked s3 (<[(n_fl_type n, n_order n) := l1 ++ l2]> L).
Proof.
  intros Hn Hst HL Hh Hns Hbl Hus Hhs Hcs.
  destruct (listed_links i n Hn Hst) as (h' & l1' & l2' & HL' & Hfl & Ho & Hh' & Hl & Hnd & Hnb).
  rewrite <- HL', HL in Hl, Hnd. assert (h' = h) as -> by congruence.
  pose proof Hnd as (Hnd1 & Hdis & [Hil2 Hnd2]%NoDup_cons)%NoDup_app.
  assert (i ∉ l1 ++ l2) as Hil.
  { intros [Hi|Hi]%elem_of_app; [|done]. apply (Hdis i Hi). left. }
  assert (nx (nodes s) i = n_free_next n /\ pv (nodes s) i = n_free_prev n) as [Hnxi Hpvi]
    by (unfold nx, pv; by rewrite Hn).
  pose proof (fun j => proj1 (unlinked_links i n j Hn Hst)) as Hnx.
  pose proof (fun j => proj2 (unlinked_links i n j Hn Hst)) as Hpv.
  rewrite <- Hns in Hnx, Hpv.
  assert (forall j, j ∈ l1 ++ l2 -> j <> i) as Hne by (intros j Hj ->; done).
  eapply (linked_change s3 i (erase n) empty_node (n_fl_type n, n_order n) _ _ _ Hfl Ho (blocks_lookup _ _ _ Hn) Hbl);
    [done|done| |exact Hhs|exact Hcs| | | | | |].
  - intros _. by rewrite Hnx, Hpv, !decide_True by done.
  - assert (0 < length (L (VM_FREELIST_DEFAULT, n_order n)) + length (L (VM_FREELIST_DMA, n_order n)))%nat.
    { unfold VM_FREELIST_DEFAULT, VM_FREELIST_DMA, VM_NFREELIST in *.
      assert (n_fl_type n = 0 \/ n_fl_type n = 1)%nat as [E|E] by lia;
        rewrite E in HL; rewrite HL, !length_app; simpl; lia. }
    rewrite HL, !length_app. cbn [snd length]. lia.
  - pose proof (sumZ_lookup (fun b => if active b then 1 else 0) _ _ _
      ltac:(intros b _; simpl; destruct (active b); lia) (blocks_lookup _ _ _ Hn)) as Hone.
    rewrite <- (lk_used _ _ Hlk) in Hone. change (active empty_node) with false.
    rewrite (active_state (erase n)) in Hone |- * by (simpl; congruence). lia.
  - rewrite <- Hpvi, <- Hnxi. eapply dll_remove; [exact Hl|done| |].
    + intros j Hj. by rewrite Hnx, decide_False, Hnxi, Hpvi by auto.
    + intros j Hj. by rewrite Hpv, decide_False, Hnxi, Hpvi by auto.
  - apply NoDup_app. split_and!; [done| |done]. intros j Hj Hj2. apply (Hdis j Hj). by right.
  - intros j. rewrite HL. specialize (Hne j). revert Hne. rewrite !elem_of_app, elem_of_cons. simpl. naive_solver.
  - intros j Hj Hji. rewrite Hnx, Hpv, !(decide_False (P := j = i)) by done.
    rewrite !decide_False; [done| |]; intros Hc; apply Hj; rewrite HL';
      destruct (Hnb j) as [Hin _]; try by auto; rewrite elem_of_app in Hin |- *; rewrite elem_of_cons; tauto.
Qed.

Lemma take_free i n :
  nodes s !! i = Some n -> n_state n = NODE_FREE ->
  exists s2 s3 l1 l2, remove_from_free_list (S i) (deactivated s i) = Done (tt, s2) /\
    recycle_node (S i) s2 = Done (tt, s3) /\
    L (n_fl_type n, n_order n) = l1 ++ i :: l2 /\
    linked s3 (<[(n_fl_type n, n_order n) := l1 ++ l2]> L) /\
    blocks s3 = <[i := empty_node]> (blocks s) /\ core s3 = core s.
Proof.
  intros Hn Hst.
  destruct (listed_links i n Hn Hst) as (h & l1 & l2 & HL & Hfl & Ho & Hh & Hl & Hnd & Hnb).
  pose proof (lk_count _ _ Hlk _ Ho) as Hc.
  destruct (remove_run i n _ Hn Hst Hc) as (hs & Hrun & Hhs). specialize (Hhs h Hh).
  match type of Hrun with _ = Done (tt, ?s2) => set (s2' := s2) in Hrun end.
  set (s3 := set_nodes (<[i := empty_node]> (unlinked i n)) s2').
  assert (blocks s3 = <[i := empty_node]> (blocks s)) as Hbl.
  { unfold blocks. simpl. rewrite list_fmap_insert. unfold unlinked.
    rewrite !at_ptr_erase by done. apply insert_fmap_alter. }
  exists s2', s3, l1, l2. split_and!; try done.
  - assert (i < length (unlinked i n))%nat as [m Hm]%lookup_lt_is_Some_2.
    { unfold unlinked. rewrite !length_at_ptr, length_alter. by eapply lookup_lt_Some. }
    unfold recycle_node.
    erewrite node_mut_ok by (unfold s2'; simpl; by rewrite list_lookup_alter_eq, Hm).
    unfold s3, s2'. simpl. by rewrite alter_const, insert_alter_eq.
  - by apply (take_free_linked i n l1 l2 s3 h).
Qed.

(** A change of a descriptor that is on no list. *)
Lemma linked_quiet s' i b0 b :
  blocks s !! i = Some b0 -> n_state b0 <> NODE_FREE -> n_state b <> NODE_FREE ->
  blocks s' = <[i := b]> (blocks s) ->
  (forall j, nx (nodes s') j = nx (nodes s) j /\ pv (nodes s') j = pv (nodes s) j) ->
  free_heads s' = free_heads s ->
  free_count_per_order (stats s') = free_count_per_order (stats s) ->
  Z.of_nat (node_used s') = Z.of_nat (node_used s) - (if active b0 then 1 else 0)
                            + (if active b then 1 else 0) ->
  linked s' L.
Proof.
  intros Hb0 Hst0 Hst Hbl Hlinks Hheads Hcounts Hused.
  assert (i < length (blocks s))%nat as Hlt by (by eapply lookup_lt_Some).
  assert (forall j b', blocks s' !! j = Some b' <->
    (j = i /\ b' = b) \/ (j <> i /\ blocks s !! j = Some b')) as Hlook.
  { intros j b'. rewrite Hbl, list_lookup_insert_Some. naive_solver. }
  constructor.
  - rewrite Hheads. apply (lk_heads _ _ Hlk).
  - intros fl o Hfl Ho. rewrite Hheads. destruct (lk_list _ _ Hlk fl o Hfl Ho) as (h & Hh & Hl).
    exists h. split; [done|]. eapply dll_ext; [|exact Hl]. auto.
  - intros j k. rewrite (lk_elem _ _ Hlk). naive_solver.
  - apply (lk_nodup _ _ Hlk).
  - intros j b' [[-> ->]|[Hne Hj]]%Hlook ?; [done|by apply (lk_range _ _ Hlk j)].
  - rewrite Hcounts. apply (lk_counts _ _ Hlk).
  - rewrite Hcounts. apply (lk_count _ _ Hlk).
  - rewrite Hused, Hbl, (sumZ_insert _ _ _ _ _ Hb0), (lk_used _ _ Hlk). lia.
  - intros j b' Hj ?. destruct (Hlinks j) as [-> ->].
    apply Hlook in Hj as [[-> ->]|[Hne Hj]]; by eapply (lk_off _ _ Hlk).
Qed.

Lemma put_alloc i n a o k fl :
  nodes s !! i = Some n -> n_state n = NODE_INACTIVE ->
  linked (placed s i (block_node a o k fl false)) L /\
  blocks (placed s i (block_node a o k fl false)) = <[i := block_node a o k fl false]> (blocks s) /\
  core (placed s i (block_node a o k fl false)) = core s.
Proof.
  intros Hn Hst. pose proof (blocks_lookup _ _ _ Hn) as Hb.
  assert (blocks (placed s i (block_node a o k fl false)) = <[i := block_node a o k fl false]> (blocks s))
    as Hbl by (unfold blocks; simpl; by rewrite list_fmap_insert).
  split_and!; [|done|done].
  destruct (lk_off _ _ Hlk _ _ Hb) as [Hnx Hpv]; [simpl; congruence|].
  apply (linked_quiet _ i (erase n) (block_node a o k fl false)); try done; [simpl; congruence| |].
  - intros j. simpl. rewrite nx_insert, pv_insert by done.
    destruct (decide (j = i)) as [->|]; [by rewrite Hnx, Hpv|done].
  - simpl. rewrite inactive_state by done. simpl. lia.
Qed.

Lemma take_alloc i n :
  nodes s !! i = Some n -> n_state n = NODE_ALLOCATED ->
  exists s', recycle_node (S i) (deactivated s i) = Done (tt, s') /\ linked s' L /\
    blocks s' = <[i := empty_node]> (blocks s) /\ core s' = core s.
Proof.
  intros Hn Hst. pose proof (blocks_lookup _ _ _ Hn) as Hb.
  destruct (lk_off _ _ Hlk _ _ Hb) as [Hnx Hpv]; [simpl; congruence|].
  exists (set_nodes (<[i := empty_node]> (nodes s)) (deactivated s i)).
  assert (blocks (set_nodes (<[i := empty_node]> (nodes s)) (deactivated s i))
          = <[i := empty_node]> (blocks s)) as Hbl by (unfold blocks; simpl; by rewrite list_fmap_insert).
  split_and!; [| |done|done].
  - unfold recycle_node. erewrite node_mut_ok by (simpl; by rewrite list_lookup_alter_eq, Hn).
    simpl. by rewrite alter_const, insert_alter_eq.
  - apply (linked_quiet _ i (erase n) empty_node); try done; [simpl; congruence| |].
    + intros j. simpl. rewrite nx_insert, pv_insert by done.
      destruct (decide (j = i)) as [->|]; [by rewrite Hnx, Hpv|done].
    + pose proof (sumZ_lookup (fun b => if active b then 1 else 0) _ _ _
        ltac:(intros b _; simpl; destruct (active b); lia) Hb) as Hone.
      rewrite <- (lk_used _ _ Hlk) in Hone. change (active empty_node) with false. simpl.
      rewrite (active_state (erase n)) in Hone |- * by (simpl; congruence). lia.
Qed.

(** A change of the fields of an allocated descriptor. *)
Lemma touch_alloc i n f :
  nodes s !! i = Some n -> n_state n <> NODE_FREE -> n_state (f n) <> NODE_FREE ->
  active (f n) = active n -> n_free_next (f n) = n_free_next n -> n_free_prev (f n) = n_free_prev n ->
  exists s', node_mut (S i) f s = Done (tt, s') /\ linked s' L /\
    blocks s' = <[i := erase (f n)]> (blocks s) /\ core s' = core s.
Proof.
  intros Hn Hst Hst' Hact Hnx Hpv. pose proof (blocks_lookup _ _ _ Hn) as Hb.
  assert (alter f i (nodes s) = <[i := f n]> (nodes s)) as Halt.
  { apply list_eq. intros j. destruct (decide (j = i)) as [->|].
    - rewrite list_lookup_alter_eq, Hn, list_lookup_insert_eq by (by eapply lookup_lt_Some). done.
    - by rewrite list_lookup_alter_ne, list_lookup_insert_ne. }
  eexists. split; [by eapply node_mut_ok|]. rewrite Halt.
  assert (blocks (set_nodes (<[i := f n]> (nodes s)) s) = <[i := erase (f n)]> (blocks s))
    as Hbl by (unfold blocks; simpl; by rewrite list_fmap_insert).
  split_and!; [|done|done].
  apply (linked_quiet _ i (erase n) (erase (f n))); try done.
  - intros j. simpl. rewrite nx_insert, pv_insert by done.
    destruct (decide (j = i)) as [->|]; [|done]. unfold nx, pv. by rewrite Hn, Hnx, Hpv.
  - unfold active in *. simpl in *. rewrite Hact. lia.
Qed.

(** Only the fields of [core] change. *)
Lemma linked_core s' :
  nodes s' = nodes s -> free_heads s' = free_heads s -> node_used s' = node_used s ->
  free_count_per_order (stats s') = free_count_per_order (stats s) -> linked s' L.
Proof.
  intros Hn Hh Hu Hc. destruct Hlk. unfold blocks in *. rewrite <- Hn in *.
  constructor; try rewrite Hh; try rewrite Hu; try rewrite Hc; try done.
Qed.

End steps.
