(* ===== verification/BuddyBlocks.v ===== *)
(** * Blocks of pages

    The arithmetic of the buddy allocator: powers of two and the buddy of an
    aligned block, how an address finds its descriptor in the segments, and what
    it means that the active descriptors are aligned blocks that do not overlap.
    Everything here is about the segments and the list of descriptors without
    their links. *)

From stdpp Require Import functions.
From S2P Require Import Prelude Buddy BuddyLinks.

(** ** Powers of two *)

Definition pow2 (o : nat) : Z := 2 ^ Z.of_nat o.

Lemma pow2_pos o : 0 < pow2 o.
Proof. unfold pow2. lia. Qed.

Lemma pow2_S o : pow2 (S o) = 2 * pow2 o.
Proof. unfold pow2. rewrite Nat2Z.inj_succ, Z.pow_succ_r; lia. Qed.

Lemma pow2_0 : pow2 0 = 1.
Proof. done. Qed.

Lemma pow2_le o o' : (o <= o')%nat -> pow2 o <= pow2 o'.
Proof. intros. apply Z.pow_le_mono_r; lia. Qed.

Lemma pow2_lt o o' : pow2 o < pow2 o' -> (o < o')%nat.
Proof. intros H. destruct (decide (o < o')%nat) as [|Hn]; [done|]. pose proof (pow2_le o' o). lia. Qed.

Lemma pow2_divide o o' : (o <= o')%nat -> (pow2 o | pow2 o').
Proof.
  intros. exists (pow2 (o' - o)). unfold pow2. rewrite <- Z.pow_add_r by lia. f_equal. lia.
Qed.

Lemma block_pages_pow2 o : block_pages o = pow2 o.
Proof. unfold block_pages, pow2. rewrite Z.shiftl_1_l. done. Qed.

#[global] Hint Resolve pow2_pos : core.

(** A point aligned to a smaller power of two inside an aligned block leaves
    room for a whole smaller block. *)
Lemma aligned_inside x m p k :
  (k <= m)%nat -> (pow2 m | x) -> (pow2 k | p) -> x <= p < x + pow2 m -> p + pow2 k <= x + pow2 m.
Proof.
  intros Hkm [q ->] [r ->] Hp. destruct (pow2_divide k m Hkm) as [t Ht].
  pose proof (pow2_pos k) as Hk. rewrite Ht in *.
  assert (r < q * t + t) by (apply (Z.mul_lt_mono_pos_r (pow2 k)); lia).
  assert ((r + 1) * pow2 k <= (q * t + t) * pow2 k) by (apply Z.mul_le_mono_nonneg_r; lia). lia.
Qed.

(** Two aligned blocks that meet are nested. *)
Lemma aligned_nested x m p k :
  (k <= m)%nat -> (pow2 m | x) -> (pow2 k | p) ->
  p < x + pow2 m -> x < p + pow2 k -> x <= p /\ p + pow2 k <= x + pow2 m.
Proof.
  intros Hkm Hx Hp H1 H2. assert (x <= p) as Hle.
  { destruct (pow2_divide k m Hkm) as [t Ht]. destruct Hx as [q ->], Hp as [r ->].
    pose proof (pow2_pos k) as Hk. rewrite Ht in *.
    assert (q * t < r + 1) by (apply (Z.mul_lt_mono_pos_r (pow2 k)); lia).
    assert (q * t * pow2 k <= r * pow2 k) by (apply Z.mul_le_mono_nonneg_r; lia). lia. }
  split; [done|]. by apply aligned_inside.
Qed.

Lemma lxor_even q : Z.lxor (2 * q) 1 = 2 * q + 1.
Proof. symmetry. apply Z.add_nocarry_lxor. apply Z.bits_inj'. intros n Hn.
  rewrite Z.land_spec, Z.bits_0. destruct (Z.eq_dec n 0) as [->|].
  - by rewrite Z.testbit_even_0.
  - rewrite (Z.bits_above_log2 1 n); [apply andb_false_r|lia|simpl; lia].
Qed.

Lemma lxor_odd q : Z.lxor (2 * q + 1) 1 = 2 * q.
Proof. rewrite <- lxor_even, Z.lxor_assoc, Z.lxor_nilpotent. apply Z.lxor_0_r. Qed.

Lemma div_ceil_le a b c : 0 < b -> 0 <= a -> div_ceil a b <= c <-> a <= c * b.
Proof.
  intros Hb Ha. unfold div_ceil. pose proof (Z.div_mod a b ltac:(lia)). pose proof (Z.mod_pos_bound a b Hb).
  destruct (Z.eqb_spec (a mod b) 0) as [Hz|Hz]; nia.
Qed.

(** The buddy of an aligned block. *)
Lemma lxor_buddy q o :
  (pow2 o | q) ->
  ((pow2 (S o) | q) /\ Z.lxor q (pow2 o) = q + pow2 o) \/
  ((pow2 (S o) | q - pow2 o) /\ Z.lxor q (pow2 o) = q - pow2 o).
Proof.
  intros [r ->]. rewrite pow2_S.
  assert (forall x, x * pow2 o = Z.shiftl x (Z.of_nat o)) as Hsh
    by (intros; rewrite Z.shiftl_mul_pow2 by lia; done).
  assert (Z.lxor (r * pow2 o) (pow2 o) = Z.lxor r 1 * pow2 o) as Hx.
  { rewrite <- (Z.mul_1_l (pow2 o)) at 2. by rewrite !Hsh, Z.shiftl_lxor. }
  rewrite Hx. destruct (Z.Even_or_Odd r) as [[h ->]|[h ->]].
  - left. rewrite lxor_even. split; [exists h; lia|lia].
  - right. rewrite lxor_odd. split; [exists h; lia|lia].
Qed.

Lemma land_pow2_minus_1 a o : Z.land a (pow2 o - 1) = a mod pow2 o.
Proof. unfold pow2. rewrite <- Z.land_ones by lia. f_equal. rewrite Z.ones_equiv. lia. Qed.

Lemma align_down_pow2 a o :
  0 <= a <= U64_MAX -> (o < 64)%nat -> align_down a (pow2 o) = a - a mod pow2 o.
Proof.
  intros Ha Ho. unfold align_down. change U64_MAX with (Z.ones 64) in *.
  replace (pow2 o - 1) with (Z.ones (Z.of_nat o)) by (unfold pow2; rewrite Z.ones_equiv; lia).
  rewrite Z.sub_nocarry_ldiff.
  2: { apply Z.bits_inj'. intros n Hn. rewrite Z.ldiff_spec, Z.bits_0.
       destruct (Z.lt_ge_cases n 64).
       - rewrite (Z.ones_spec_low 64) by lia. apply andb_false_r.
       - by rewrite (Z.ones_spec_high (Z.of_nat o)) by lia. }
  transitivity (Z.ldiff a (Z.ones (Z.of_nat o))).
  - apply Z.bits_inj'. intros n Hn. rewrite Z.land_spec, !Z.ldiff_spec.
    destruct (Z.lt_ge_cases n 64).
    + rewrite (Z.ones_spec_low 64) by lia. done.
    + rewrite (testbit_above a 64) by (lia || (rewrite Z.ones_equiv in Ha; lia)). done.
  - rewrite Z.ldiff_ones_r, Z.shiftr_div_pow2, Z.shiftl_mul_pow2 by lia. fold (pow2 o).
    pose proof (Z.div_mod a (pow2 o)). pose proof (pow2_pos o). lia.
Qed.

(** ** Segments *)

Record seg_ok (seg : BuddySegment) : Prop := {
  so_start : 0 <= start (range seg);
  so_aligned : (PAGE_SIZE | start (range seg));
  so_size : size (range seg) = total_pages seg * PAGE_SIZE;
  so_pages : 1 <= total_pages seg;
  so_end : start (range seg) + size (range seg) <= U64_MAX;
  so_order : pow2 (max_order seg) <= total_pages seg < pow2 (S (max_order seg));
  so_max : (max_order seg <= MAX_TRACKED_ORDER)%nat;
  so_fl : (fl_type seg < VM_NFREELIST)%nat }.

(** The segments are disjoint and share the [cap] descriptors in order. *)
Record segs_ok (segs : list BuddySegment) (cap : Z) : Prop := {
  sg_ok k seg : segs !! k = Some seg -> seg_ok seg;
  sg_base k seg : segs !! k = Some seg -> node_base seg = sumZ total_pages (take k segs);
  sg_cap : cap = sumZ total_pages segs;
  sg_cap_max : cap <= U64_MAX;
  sg_disjoint k1 k2 s1 s2 : segs !! k1 = Some s1 -> segs !! k2 = Some s2 -> k1 <> k2 ->
    start (range s1) + size (range s1) <= start (range s2) \/
    start (range s2) + size (range s2) <= start (range s1);
  sg_count : Z.of_nat (length segs) < 4294967296 }.

(** The descriptors of a segment, the address and the frame number of one. *)
Definition in_seg (seg : BuddySegment) (p : Z) : Prop :=
  node_base seg <= p < node_base seg + total_pages seg.
Definition addr_of (seg : BuddySegment) (p : Z) : Z :=
  start (range seg) + (p - node_base seg) * PAGE_SIZE.
Definition pfn_of (seg : BuddySegment) (p : Z) : Z :=
  start (range seg) / PAGE_SIZE + (p - node_base seg).

Lemma seg_end_ok seg : seg_ok seg -> seg_end (range seg) = start (range seg) + size (range seg).
Proof. intros []. unfold seg_end, saturating_add. lia. Qed.

Lemma addr_of_pfn seg p : seg_ok seg -> addr_of seg p = pfn_of seg p * PAGE_SIZE.
Proof.
  intros []. unfold addr_of, pfn_of. destruct so_aligned0 as [q Hq]. rewrite Hq.
  rewrite Z.div_mul by done. lia.
Qed.

Lemma addr_of_div seg p : seg_ok seg -> addr_of seg p / PAGE_SIZE = pfn_of seg p.
Proof. intros H. rewrite addr_of_pfn by done. by rewrite Z.div_mul. Qed.

Lemma addr_of_range seg p :
  seg_ok seg -> in_seg seg p ->
  start (range seg) <= addr_of seg p /\ addr_of seg p + PAGE_SIZE <= start (range seg) + size (range seg).
Proof. intros [] []. rewrite so_size0. unfold addr_of, PAGE_SIZE. lia. Qed.

Lemma pfn_of_range seg p : seg_ok seg -> in_seg seg p -> 0 <= pfn_of seg p < 2 ^ 52.
Proof.
  intros Hseg Hp. pose proof (addr_of_range _ _ Hseg Hp) as [H1 H2].
  rewrite addr_of_pfn in * by done. destruct Hseg. unfold PAGE_SIZE, U64_MAX in *. lia.
Qed.

Section segments.
Context (segs : list BuddySegment) (cap : Z) (Hsegs : segs_ok segs cap).

Lemma take_sum_mono k1 k2 s1 :
  segs !! k1 = Some s1 -> (k1 < k2)%nat ->
  sumZ total_pages (take k1 segs) + total_pages s1 <= sumZ total_pages (take k2 segs).
Proof.
  intros Hk1 Hlt. assert (forall n, sumZ total_pages (take (S k1) segs) <= sumZ total_pages (take (S k1 + n) segs)) as Hmono.
  { intros n. induction n as [|n IH]; [by rewrite Nat.add_0_r|].
    rewrite Nat.add_succ_r. destruct (segs !! (S k1 + n)%nat) as [x|] eqn:Hx.
    - rewrite (take_S_r _ _ _ Hx), sumZ_app. simpl.
      pose proof (so_pages _ (sg_ok _ _ Hsegs _ _ Hx)). simpl in *. lia.
    - apply lookup_ge_None in Hx. rewrite (take_ge segs (S k1 + n)) in IH by lia.
      by rewrite (take_ge segs (S (S k1 + n))) by lia. }
  specialize (Hmono (k2 - S k1)%nat). replace (S k1 + (k2 - S k1))%nat with k2 in Hmono by lia.
  rewrite (take_S_r _ _ _ Hk1), sumZ_app in Hmono. simpl in Hmono. lia.
Qed.

Lemma in_seg_cap k seg p : segs !! k = Some seg -> in_seg seg p -> 0 <= p < cap.
Proof.
  intros Hk [H1 H2]. rewrite (sg_base _ _ Hsegs _ _ Hk) in *.
  assert (forall n, 0 <= sumZ total_pages (take n segs)).
  { intros n. apply sumZ_nonneg. intros x (j & Hj)%list_elem_of_lookup.
    apply lookup_take_Some in Hj as [Hj _]. pose proof (so_pages _ (sg_ok _ _ Hsegs _ _ Hj)). lia. }
  pose proof (take_sum_mono k (length segs) seg Hk) as Hm.
  specialize (Hm ltac:(by eapply lookup_lt_Some)). rewrite (take_ge segs (length segs)), <- (sg_cap _ _ Hsegs) in Hm by lia.
  specialize (H k). lia.
Qed.

Lemma in_seg_inj k1 k2 s1 s2 p :
  segs !! k1 = Some s1 -> segs !! k2 = Some s2 -> in_seg s1 p -> in_seg s2 p -> k1 = k2.
Proof.
  intros H1 H2 [? ?] [? ?]. rewrite (sg_base _ _ Hsegs _ _ H1), (sg_base _ _ Hsegs _ _ H2) in *.
  destruct (Nat.lt_trichotomy k1 k2) as [Hl|[Hl|Hl]]; [|done|].
  - pose proof (take_sum_mono _ _ _ H1 Hl). lia.
  - pose proof (take_sum_mono _ _ _ H2 Hl). lia.
Qed.

(** ** Addresses *)

Lemma page_location_from_hit m l k seg a :
  l !! k = Some seg -> start (range seg) <= a < seg_end (range seg) ->
  (a - start (range seg)) / PAGE_SIZE < total_pages seg ->
  (forall j s, (j < k)%nat -> l !! j = Some s -> a < start (range s) \/ seg_end (range s) <= a) ->
  page_location_from m l a = Some ((m + k)%nat, (a - start (range seg)) / PAGE_SIZE).
Proof.
  revert m k. induction l as [|s l IH]; intros m k Hk Ha Hp Hbefore; [done|]. cbn [page_location_from].
  destruct k as [|k]; simplify_eq/=.
  - destruct (Z.ltb_spec a (start (range seg))); [lia|].
    destruct (Z.leb_spec (seg_end (range seg)) a); [lia|]. simpl.
    destruct (Z.ltb_spec ((a - start (range seg)) / PAGE_SIZE) (total_pages seg)); [|lia].
    by rewrite Nat.add_0_r.
  - replace ((a <? start (range s)) || (seg_end (range s) <=? a)) with true.
    + rewrite (IH (S m) k Hk Ha Hp); [by rewrite Nat.add_succ_comm|].
      intros j s' Hj Hs'. apply (Hbefore (S j)); [lia|done].
    + symmetry. apply orb_true_iff. rewrite Z.ltb_lt, Z.leb_le.
      apply (Hbefore 0%nat s); [lia|done].
Qed.

Lemma page_location_from_inv m l a r p :
  page_location_from m l a = Some (r, p) ->
  exists k seg, r = (m + k)%nat /\ l !! k = Some seg /\
    start (range seg) <= a < seg_end (range seg) /\
    p = (a - start (range seg)) / PAGE_SIZE /\ p < total_pages seg.
Proof.
  revert m. induction l as [|s l IH]; intros m; cbn [page_location_from]; [done|].
  assert (page_location_from (S m) l a = Some (r, p) -> exists k seg, r = (m + k)%nat /\
    (s :: l) !! k = Some seg /\ start (range seg) <= a < seg_end (range seg) /\
    p = (a - start (range seg)) / PAGE_SIZE /\ p < total_pages seg) as Hrec.
  { intros (k & seg & -> & Hk & H)%IH. exists (S k), seg. split; [lia|done]. }
  destruct (_ || _) eqn:Hout; [done|]. apply orb_false_iff in Hout as [H1%Z.ltb_ge H2%Z.leb_gt].
  destruct (Z.ltb_spec ((a - start (range s)) / PAGE_SIZE) (total_pages s)); [|done].
  intros [= <- <-]. exists 0%nat, s. split_and!; try done; lia.
Qed.

Lemma page_location_hit k seg a :
  segs !! k = Some seg -> start (range seg) <= a < start (range seg) + size (range seg) ->
  page_location_from 0 segs a = Some (k, (a - start (range seg)) / PAGE_SIZE).
Proof.
  intros Hk Ha. pose proof (sg_ok _ _ Hsegs _ _ Hk) as Hseg.
  apply (page_location_from_hit 0 segs k seg a Hk).
  - by rewrite seg_end_ok.
  - destruct Hseg. apply Z.div_lt_upper_bound; [done|]. rewrite so_size0 in Ha. lia.
  - intros j s Hj Hs. rewrite seg_end_ok by (by eapply sg_ok).
    destruct (sg_disjoint _ _ Hsegs j k s seg Hs Hk ltac:(lia)); lia.
Qed.

End segments.

Section slots.
Context (s : BuddyAllocator) (Hsegs : segs_ok (segments s) (node_capacity s)).

Lemma node_addr_for_hit k seg i :
  segments s !! k = Some seg -> in_seg seg (Z.of_nat i) ->
  node_addr_for s (addr_of seg (Z.of_nat i)) = Some (S i).
Proof.
  intros Hk Hi. pose proof (sg_ok _ _ Hsegs _ _ Hk) as Hseg.
  pose proof (in_seg_cap _ _ Hsegs _ _ _ Hk Hi) as Hcap.
  pose proof (addr_of_range _ _ Hseg Hi) as Hr.
  unfold node_addr_for. rewrite addr_of_pfn at 1 by done. rewrite Z.mod_mul by done. simpl.
  unfold page_location. rewrite (page_location_hit _ _ Hsegs k seg _ Hk)
    by (unfold PAGE_SIZE in *; lia). simpl. unfold segment. rewrite Hk. simpl.
  replace ((addr_of seg (Z.of_nat i) - start (range seg)) / PAGE_SIZE)
    with (Z.of_nat i - node_base seg).
  2: { unfold addr_of. replace (_ + _ - _) with ((Z.of_nat i - node_base seg) * PAGE_SIZE) by lia.
       by rewrite Z.div_mul. }
  rewrite checked_add_ok by (pose proof (sg_cap_max _ _ Hsegs); lia). simpl.
  replace (node_base seg + (Z.of_nat i - node_base seg)) with (Z.of_nat i) by lia.
  destruct (Z.leb_spec (node_capacity s) (Z.of_nat i)); [lia|]. by rewrite Nat2Z.id.
Qed.

Lemma node_addr_for_inv a q :
  node_addr_for s a = Some q ->
  exists k seg i, q = S i /\ segments s !! k = Some seg /\ in_seg seg (Z.of_nat i) /\
    a = addr_of seg (Z.of_nat i).
Proof.
  unfold node_addr_for. destruct (Z.eqb_spec (a mod PAGE_SIZE) 0) as [Hmod|]; simpl; [|done].
  destruct (page_location s a) as [[k p]|] eqn:Hloc; simpl; [|done].
  apply page_location_from_inv in Hloc as (k' & seg & -> & Hk & Ha & -> & Hp). simpl.
  unfold segment. rewrite Hk. simpl. pose proof (sg_ok _ _ Hsegs _ _ Hk) as Hseg.
  intros Hq.
  destruct (checked_add _ _) as [idx|] eqn:Hadd; simpl in Hq; [|done].
  apply checked_add_Some in Hadd as [_ ->].
  destruct (Z.leb_spec (node_capacity s) (node_base seg + (a - start (range seg)) / PAGE_SIZE)); [done|].
  assert (0 <= (a - start (range seg)) / PAGE_SIZE) by (apply Z.div_pos; [lia|done]).
  assert (in_seg seg (node_base seg + (a - start (range seg)) / PAGE_SIZE)) as Hin by (unfold in_seg; lia).
  pose proof (in_seg_cap _ _ Hsegs _ _ _ Hk Hin) as Hc.
  exists k', seg, (Z.to_nat (node_base seg + (a - start (range seg)) / PAGE_SIZE)).
  rewrite Z2Nat.id by lia. split_and!; [congruence|done|done|].
  unfold addr_of. destruct (so_aligned _ Hseg) as [x Hx]. rewrite Hx in *.
  apply Z.mod_divide in Hmod as [y ->]; [|done].
  replace (y * PAGE_SIZE - x * PAGE_SIZE) with ((y - x) * PAGE_SIZE) by lia.
  rewrite Z.div_mul by done. lia.
Qed.

Lemma addr_of_inj k1 k2 s1 s2 p1 p2 :
  segments s !! k1 = Some s1 -> segments s !! k2 = Some s2 -> in_seg s1 p1 -> in_seg s2 p2 ->
  addr_of s1 p1 = addr_of s2 p2 -> k1 = k2 /\ p1 = p2.
Proof.
  intros H1 H2 Hp1 Hp2 Ha.
  pose proof (addr_of_range _ _ (sg_ok _ _ Hsegs _ _ H1) Hp1).
  pose proof (addr_of_range _ _ (sg_ok _ _ Hsegs _ _ H2) Hp2).
  destruct (decide (k1 = k2)) as [->|Hne].
  - simplify_eq. split; [done|]. unfold addr_of, PAGE_SIZE in Ha. lia.
  - unfold PAGE_SIZE in *. destruct (sg_disjoint _ _ Hsegs _ _ _ _ H1 H2 Hne); lia.
Qed.

End slots.

(** ** Blocks *)

Definition fits (segs : list BuddySegment) (p : Z) (o k : nat) (seg : BuddySegment) : Prop :=
  segs !! k = Some seg /\ node_base seg <= p /\
  p + pow2 o <= node_base seg + total_pages seg /\
  (o <= max_order seg)%nat /\ (pow2 o | pfn_of seg p).

(** A free descriptor holds nothing but the block. *)
Definition plain (b : BlockNode) : Prop :=
  b = block_node (n_start b) (n_order b) (n_seg_idx b) (n_fl_type b) true.

Definition block_ok (segs : list BuddySegment) (i : nat) (b : BlockNode) : Prop :=
  (n_state b = NODE_FREE -> plain b) /\
  exists seg, fits segs (Z.of_nat i) (n_order b) (n_seg_idx b) seg /\
    n_start b = addr_of seg (Z.of_nat i) /\ n_fl_type b = fl_type seg.

(** The active descriptors are blocks that do not overlap. *)
Record geom (segs : list BuddySegment) (bl : list BlockNode) : Prop := {
  gm_ok i b : bl !! i = Some b -> active b = true -> block_ok segs i b;
  gm_disjoint i j bi bj : bl !! i = Some bi -> bl !! j = Some bj ->
    active bi = true -> active bj = true -> (i < j)%nat ->
    Z.of_nat i + pow2 (n_order bi) <= Z.of_nat j }.

(** No active block meets the pages [p .. p + 2^o). *)
Definition vacant (bl : list BlockNode) (p : Z) (o : nat) : Prop :=
  forall j b, bl !! j = Some b -> active b = true ->
    Z.of_nat j + pow2 (n_order b) <= p \/ p + pow2 o <= Z.of_nat j.

Definition covers (i : nat) (o : nat) (p : Z) : Prop := Z.of_nat i <= p < Z.of_nat i + pow2 o.

(** A page in a free block; a block handed out. *)
Definition page_free (bl : list BlockNode) (p : Z) : Prop :=
  exists i b, bl !! i = Some b /\ n_state b = NODE_FREE /\ covers i (n_order b) p.
Definition held (bl : list BlockNode) (i : nat) (b : BlockNode) : Prop :=
  bl !! i = Some b /\ (n_state b = NODE_ALLOCATED \/ n_state b = NODE_CACHED).

Lemma fits_in segs p o k seg : fits segs p o k seg -> in_seg seg p.
Proof. intros (_ & H1 & H2 & _). pose proof (pow2_pos o). unfold in_seg. lia. Qed.

Lemma fits_left segs p o k seg : fits segs p (S o) k seg -> fits segs p o k seg.
Proof.
  intros (Hk & H1 & H2 & H3 & H4). rewrite pow2_S in H2. pose proof (pow2_pos o).
  split_and!; [done|done|lia|lia|]. etrans; [|exact H4]. apply pow2_divide. lia.
Qed.

Lemma fits_right segs p o k seg : fits segs p (S o) k seg -> fits segs (p + pow2 o) o k seg.
Proof.
  intros (Hk & H1 & H2 & H3 & H4). rewrite pow2_S in H2. pose proof (pow2_pos o).
  split_and!; [done|lia|lia|lia|]. unfold pfn_of in *.
  replace (_ + (p + pow2 o - _)) with (start (range seg) / PAGE_SIZE + (p - node_base seg) + pow2 o) by lia.
  apply Z.divide_add_r; [|done]. etrans; [|exact H4]. apply pow2_divide. lia.
Qed.

Section geometry.
Context (segs : list BuddySegment).
Implicit Types (bl : list BlockNode).

Lemma vacant_inactive bl i o b : vacant bl (Z.of_nat i) o -> bl !! i = Some b -> n_state b = NODE_INACTIVE.
Proof.
  intros Hv Hb. destruct (active b) eqn:Ha.
  - pose proof (Hv _ _ Hb Ha). pose proof (pow2_pos o). pose proof (pow2_pos (n_order b)). lia.
  - unfold active in Ha. apply negb_false_iff, bool_decide_eq_true in Ha. done.
Qed.

Lemma vacant_sub bl p o p' o' :
  vacant bl p o -> p <= p' -> p' + pow2 o' <= p + pow2 o -> vacant bl p' o'.
Proof. intros Hv H1 H2 j b Hb Ha. specialize (Hv j b Hb Ha). lia. Qed.

Lemma geom_take bl i b :
  geom segs bl -> bl !! i = Some b -> active b = true ->
  geom segs (<[i := empty_node]> bl) /\ vacant (<[i := empty_node]> bl) (Z.of_nat i) (n_order b).
Proof.
  intros [Hok Hdis] Hb Ha. split; [split|].
  - intros j b'. rewrite list_lookup_insert_Some. intros [(-> & <- & _)|[Hne Hj]]; [done|by apply Hok].
  - intros j1 j2 b1 b2. rewrite !list_lookup_insert_Some.
    intros [(-> & <- & _)|[Hne1 Hj1]]; [done|]. intros [(-> & <- & _)|[Hne2 Hj2]]; [done|].
    by apply Hdis.
  - intros j b'. rewrite list_lookup_insert_Some. intros [(-> & <- & _)|[Hne Hj]]; [done|].
    intros Ha'. destruct (decide (i < j)%nat).
    + right. by eapply Hdis.
    + left. eapply Hdis; [done|done|done|done|lia].
Qed.

Lemma geom_put bl i b :
  geom segs bl -> vacant bl (Z.of_nat i) (n_order b) -> block_ok segs i b -> (i < length bl)%nat ->
  geom segs (<[i := b]> bl).
Proof.
  intros [Hok Hdis] Hv Hb Hi. split.
  - intros j b'. rewrite list_lookup_insert_Some. intros [(-> & <- & _)|[Hne Hj]]; [done|by apply Hok].
  - intros j1 j2 b1 b2. rewrite !list_lookup_insert_Some.
    intros [(-> & <- & _)|[Hne1 Hj1]] [(-> & <- & _)|[Hne2 Hj2]] Ha1 Ha2 Hlt; [lia| | |by eapply Hdis].
    + destruct (Hv _ _ Hj2 Ha2) as [Hc|Hc]; [|done]. pose proof (pow2_pos (n_order b2)). lia.
    + destruct (Hv _ _ Hj1 Ha1) as [Hc|Hc]; [done|]. pose proof (pow2_pos (n_order b)). lia.
Qed.

Lemma vacant_put bl i b p o :
  vacant bl p o -> Z.of_nat i + pow2 (n_order b) <= p \/ p + pow2 o <= Z.of_nat i ->
  vacant (<[i := b]> bl) p o.
Proof.
  intros Hv Hd j b'. rewrite list_lookup_insert_Some. intros [(-> & <- & _)|[Hne Hj]]; [done|by apply Hv].
Qed.

(** What one change does to the free pages and to the blocks handed out. *)
Lemma page_free_insert bl i b0 b p :
  geom segs bl -> bl !! i = Some b0 ->
  page_free (<[i := b]> bl) p <->
  (n_state b = NODE_FREE /\ covers i (n_order b) p) \/
  (page_free bl p /\ ~ (n_state b0 = NODE_FREE /\ covers i (n_order b0) p)).
Proof.
  intros [Hok Hdis] Hb0. assert (i < length bl)%nat by (by eapply lookup_lt_Some). split.
  - intros (j & b' & Hj & Hst & Hc). apply list_lookup_insert_Some in Hj as [(-> & <- & _)|[Hne Hj]]; [by left|].
    right. split; [by exists j, b'|]. intros [Hst0 Hc0]. unfold covers in *.
    assert (active b0 = true /\ active b' = true) as [? ?]
      by (split; apply active_state; congruence).
    destruct (Nat.lt_total i j) as [Hlt|[->|Hlt]]; [|done|].
    + specialize (Hdis _ _ _ _ Hb0 Hj ltac:(done) ltac:(done) Hlt). lia.
    + specialize (Hdis _ _ _ _ Hj Hb0 ltac:(done) ltac:(done) Hlt). lia.
  - intros [[Hst Hc]|[(j & b' & Hj & Hst & Hc) Hn]].
    + exists i, b. rewrite list_lookup_insert_eq by done. done.
    + exists j, b'. rewrite list_lookup_insert_ne; [done|]. intros ->. simplify_eq. naive_solver.
Qed.

Lemma held_insert bl i b0 b j b' :
  bl !! i = Some b0 ->
  held (<[i := b]> bl) j b' <->
  (j = i /\ b' = b /\ held (<[i := b]> bl) i b) \/ (j <> i /\ held bl j b').
Proof.
  intros Hb0. assert (i < length bl)%nat by (by eapply lookup_lt_Some).
  unfold held. rewrite (list_lookup_insert_eq bl i b), list_lookup_insert_Some by done. naive_solver.
Qed.

End geometry.

(** ** Buddies *)

Definition is_buddy (seg : BuddySegment) (p q : Z) (o : nat) : Prop :=
  pfn_of seg q = Z.lxor (pfn_of seg p) (pow2 o).

Lemma buddy_exists seg p o : exists q, is_buddy seg p q o.
Proof.
  exists (Z.lxor (pfn_of seg p) (pow2 o) - start (range seg) / PAGE_SIZE + node_base seg).
  unfold is_buddy. unfold pfn_of at 1. lia.
Qed.

Lemma buddy_sym seg p q o : is_buddy seg p q o -> is_buddy seg q p o.
Proof.
  unfold is_buddy. intros ->. by rewrite Z.lxor_assoc, Z.lxor_nilpotent, Z.lxor_0_r.
Qed.

Lemma buddy_unique seg p q q' o : is_buddy seg p q o -> is_buddy seg p q' o -> q = q'.
Proof. unfold is_buddy. intros H1 H2. rewrite <- H2 in H1. unfold pfn_of in H1. lia. Qed.

Lemma buddy_addr seg p q o :
  seg_ok seg -> is_buddy seg p q o ->
  Z.lxor (addr_of seg p / PAGE_SIZE) (block_pages o) * PAGE_SIZE = addr_of seg q.
Proof.
  intros Hseg Hq. rewrite addr_of_div, block_pages_pow2, <- Hq by done. by rewrite addr_of_pfn.
Qed.

Lemma buddy_cases seg p q o :
  (pow2 o | pfn_of seg p) -> is_buddy seg p q o ->
  (q = p + pow2 o /\ (pow2 (S o) | pfn_of seg p)) \/
  (q = p - pow2 o /\ (pow2 (S o) | pfn_of seg q)).
Proof.
  intros Hal Hq. unfold is_buddy in Hq.
  destruct (lxor_buddy _ _ Hal) as [[Hd Hx]|[Hd Hx]]; rewrite Hx in Hq.
  - left. split; [|done]. unfold pfn_of in Hq. lia.
  - right. rewrite Hq. split; [|done]. unfold pfn_of in Hq. lia.
Qed.

Lemma buddy_fits segs p q o k seg :
  fits segs p o k seg -> is_buddy seg p q o ->
  node_base seg <= q -> q + pow2 o <= node_base seg + total_pages seg -> fits segs q o k seg.
Proof.
  intros (Hk & H1 & H2 & H3 & H4) Hq H5 H6. split_and!; try done.
  destruct (buddy_cases _ _ _ _ H4 Hq) as [[-> Hd]|[-> Hd]].
  - replace (pfn_of seg (p + pow2 o)) with (pfn_of seg p + pow2 o) by (unfold pfn_of; lia).
    by apply Z.divide_add_r.
  - etrans; [|exact Hd]. apply pow2_divide. lia.
Qed.

(** A block and its buddy make a block of the next order. *)
Lemma buddy_merge segs p q o k seg :
  fits segs p o k seg -> fits segs q o k seg -> is_buddy seg p q o -> (o < max_order seg)%nat ->
  fits segs (Z.min p q) (S o) k seg /\
  (forall x, Z.min p q <= x < Z.min p q + pow2 (S o) <->
     p <= x < p + pow2 o \/ q <= x < q + pow2 o).
Proof.
  intros (Hk & H1 & H2 & H3 & H4) (_ & H5 & H6 & _) Hq Ho. rewrite pow2_S.
  pose proof (pow2_pos o). destruct (buddy_cases _ _ _ _ H4 Hq) as [[-> Hd]|[-> Hd]].
  - rewrite Z.min_l by lia. split; [|lia]. split_and!; [done|done|rewrite pow2_S; lia|lia|done].
  - rewrite Z.min_r by lia. split; [|lia]. split_and!; [done|done|rewrite pow2_S; lia|lia|done].
Qed.

(** ** Sums *)

Definition free_size (b : BlockNode) : Z :=
  if bool_decide (n_state b = NODE_FREE) then pow2 (n_order b) else 0.
Definition held_size (b : BlockNode) : Z :=
  if bool_decide (n_state b = NODE_ALLOCATED \/ n_state b = NODE_CACHED) then pow2 (n_order b) else 0.
Definition active_size (b : BlockNode) : Z := if active b then 1 else 0.

Lemma free_size_nonneg b : 0 <= free_size b.
Proof. unfold free_size. case_bool_decide; [|lia]. pose proof (pow2_pos (n_order b)). lia. Qed.

Lemma held_size_nonneg b : 0 <= held_size b.
Proof. unfold held_size. case_bool_decide; [|lia]. pose proof (pow2_pos (n_order b)). lia. Qed.

Lemma sizes_inactive b : n_state b = NODE_INACTIVE -> free_size b = 0 /\ held_size b = 0.
Proof. unfold free_size, held_size. by intros ->. Qed.

Lemma sizes_free b : n_state b = NODE_FREE -> free_size b = pow2 (n_order b) /\ held_size b = 0.
Proof. unfold free_size, held_size. by intros ->. Qed.

Lemma sizes_held b :
  n_state b = NODE_ALLOCATED \/ n_state b = NODE_CACHED ->
  free_size b = 0 /\ held_size b = pow2 (n_order b).
Proof. unfold free_size, held_size. by intros [-> | ->]. Qed.

Lemma sizes_new a o k fl f :
  free_size (block_node a o k fl f) = (if f then pow2 o else 0) /\
  held_size (block_node a o k fl f) = (if f then 0 else pow2 o).
Proof. by destruct f. Qed.
