(* ===== verification/BuddyShape.v ===== *)
(** * Steps of the page allocator on well-shaped states

    The shape of an allocator joins the free lists of [BuddyLinks] with the
    geometry of [BuddyBlocks].  Each step an operation is made of keeps the
    shape, and the loop that merges a block with its buddies ends with a block
    that has no free buddy left, over the same pages. *)

From stdpp Require Import functions.
From S2P Require Import Prelude Buddy BuddyLinks BuddyBlocks.

Record shape (s : BuddyAllocator) (L : nat * nat -> list nat) : Prop := {
  sh_segs : segs_ok (segments s) (node_capacity s);
  sh_linked : linked s L;
  sh_geom : geom (segments s) (blocks s) }.

(** ** What a step leaves alone *)

Lemma core_segments s s' : core s' = core s -> segments s' = segments s.
Proof. intros H. apply (f_equal segments) in H. done. Qed.

Lemma core_metadata s s' : core s' = core s -> metadata_ranges s' = metadata_ranges s.
Proof. intros H. apply (f_equal metadata_ranges) in H. done. Qed.

Lemma core_initialized s s' : core s' = core s -> initialized s' = initialized s.
Proof. intros H. apply (f_equal initialized) in H. done. Qed.

Lemma core_total s s' : core s' = core s -> st_total_pages (stats s') = st_total_pages (stats s).
Proof. intros H. apply (f_equal (fun s => st_total_pages (stats s))) in H. done. Qed.

Lemma core_allocated s s' : core s' = core s -> allocated_pages (stats s') = allocated_pages (stats s).
Proof. intros H. apply (f_equal (fun s => allocated_pages (stats s))) in H. done. Qed.

Lemma core_free s s' : core s' = core s -> free_pages_count (stats s') = free_pages_count (stats s).
Proof. intros H. apply (f_equal (fun s => free_pages_count (stats s))) in H. done. Qed.

Lemma core_reserved s s' : core s' = core s -> reserved_pages (stats s') = reserved_pages (stats s).
Proof. intros H. apply (f_equal (fun s => reserved_pages (stats s))) in H. done. Qed.

Lemma node_capacity_blocks s : node_capacity s = Z.of_nat (length (blocks s)).
Proof. unfold node_capacity. by rewrite length_blocks. Qed.

(** A step that changes one descriptor. *)
Lemma shape_step s s' L L' i b :
  shape s L -> linked s' L' -> blocks s' = <[i := b]> (blocks s) -> core s' = core s ->
  geom (segments s) (<[i := b]> (blocks s)) -> shape s' L'.
Proof.
  intros [Hsegs _ _] Hlk Hbl Hcore Hgeom. pose proof (core_segments _ _ Hcore) as Hs.
  split; [|done|by rewrite Hs, Hbl].
  rewrite Hs. by rewrite node_capacity_blocks, Hbl, length_insert, <- node_capacity_blocks.
Qed.

(** A change of the counters only. *)
Lemma shape_stats s t L :
  shape s L -> free_count_per_order t = free_count_per_order (stats s) -> shape (set_stats t s) L.
Proof.
  intros [Hsegs Hlk Hgeom] Ht. split; [done| |done]. by apply (linked_core s L Hlk).
Qed.

Section step.
Context (s : BuddyAllocator) (L : nat * nat -> list nat) (Hsh : shape s L).

Lemma block_lookup p k seg :
  segments s !! k = Some seg -> in_seg seg p ->
  exists b, blocks s !! Z.to_nat p = Some b.
Proof.
  intros Hk Hp. pose proof (in_seg_cap _ _ (sh_segs _ _ Hsh) _ _ _ Hk Hp) as Hc.
  apply lookup_lt_is_Some_2. rewrite node_capacity_blocks in Hc. lia.
Qed.

(** The block an active descriptor stands for. *)
Lemma block_fits i b :
  blocks s !! i = Some b -> active b = true ->
  exists seg, fits (segments s) (Z.of_nat i) (n_order b) (n_seg_idx b) seg /\
    seg_ok seg /\ n_start b = addr_of seg (Z.of_nat i) /\ n_fl_type b = fl_type seg.
Proof.
  intros Hb Ha. destruct (gm_ok _ _ (sh_geom _ _ Hsh) _ _ Hb Ha) as (_ & seg & Hf & Hst & Hfl).
  exists seg. split_and!; try done. apply (sg_ok _ _ (sh_segs _ _ Hsh) _ _ (proj1 Hf)).
Qed.

(** Finding a descriptor by the address of a page of a segment. *)
Lemma hash_find_hit k seg i b :
  segments s !! k = Some seg -> in_seg seg (Z.of_nat i) -> blocks s !! i = Some b ->
  hash_find (addr_of seg (Z.of_nat i)) s = Done (if active b then S i else 0%nat, s).
Proof.
  intros Hk Hi Hb. apply lookup_blocks in Hb as Hn. destruct Hn as (n & Hn & ->).
  unfold hash_find. rewrite get_bind, (node_addr_for_hit _ (sh_segs _ _ Hsh) k) by done.
  rewrite (bindM _ _ _ _ _ (node_ref_ok _ _ _ Hn)).
  assert (bool_decide (n_state n = NODE_INACTIVE) = negb (active (erase n))) as ->
    by (unfold active; by rewrite negb_involutive).
  destruct (active (erase n)) eqn:Ha; simpl; [|done].
  destruct (block_fits _ _ Hb Ha) as (seg' & Hf & Hseg' & Hst & _). simpl in Hst.
  assert (seg' = seg) as ->.
  { pose proof (in_seg_inj _ _ (sh_segs _ _ Hsh) _ _ _ _ _ (proj1 Hf) Hk (fits_in _ _ _ _ _ Hf) Hi).
    destruct Hf as [Hk' _]. congruence. }
  rewrite Hst, Z.eqb_refl. done.
Qed.

(** Finding a descriptor by any address. *)
Lemma hash_find_any a :
  (exists i b, hash_find a s = Done (S i, s) /\ blocks s !! i = Some b /\ active b = true /\
     n_start b = a) \/
  (hash_find a s = Done (0%nat, s) /\
   forall i b, blocks s !! i = Some b -> active b = true -> n_start b <> a).
Proof.
  destruct (node_addr_for s a) as [q|] eqn:Hq.
  - destruct (node_addr_for_inv _ (sh_segs _ _ Hsh) _ _ Hq) as (k & seg & i & -> & Hk & Hi & ->).
    destruct (block_lookup _ _ _ Hk Hi) as [b Hb]. rewrite Nat2Z.id in Hb.
    rewrite (hash_find_hit _ _ _ _ Hk Hi Hb). destruct (active b) eqn:Ha.
    + left. exists i, b. split_and!; try done.
      destruct (block_fits _ _ Hb Ha) as (seg' & Hf & _ & -> & _).
      pose proof (in_seg_inj _ _ (sh_segs _ _ Hsh) _ _ _ _ _ (proj1 Hf) Hk (fits_in _ _ _ _ _ Hf) Hi).
      destruct Hf as [Hk' _]. congruence.
    + right. split; [done|]. intros j b' Hb' Ha' Hst.
      destruct (block_fits _ _ Hb' Ha') as (seg' & Hf & _ & Hst' & _). rewrite Hst' in Hst.
      destruct (addr_of_inj _ (sh_segs _ _ Hsh) _ _ _ _ _ _ (proj1 Hf) Hk (fits_in _ _ _ _ _ Hf) Hi Hst) as [_ ?].
      assert (j = i) as -> by lia. congruence.
  - right. unfold hash_find. rewrite get_bind, Hq. split; [done|]. intros j b' Hb' Ha' Hst.
    destruct (block_fits _ _ Hb' Ha') as (seg' & Hf & _ & Hst' & _).
    rewrite <- Hst, Hst', (node_addr_for_hit _ (sh_segs _ _ Hsh) _ _ _ (proj1 Hf) (fits_in _ _ _ _ _ Hf)) in Hq.
    done.
Qed.

(** No two blocks start at the same address. *)
Lemma start_inj i j b b' :
  blocks s !! i = Some b -> blocks s !! j = Some b' -> active b = true -> active b' = true ->
  n_start b = n_start b' -> i = j.
Proof.
  intros Hb Hb' Ha Ha' Heq. destruct (block_fits _ _ Hb Ha) as (seg & Hf & _ & Hst & _).
  destruct (block_fits _ _ Hb' Ha') as (seg' & Hf' & _ & Hst' & _). rewrite Hst, Hst' in Heq.
  destruct (addr_of_inj _ (sh_segs _ _ Hsh) _ _ _ _ _ _ (proj1 Hf) (proj1 Hf')
    (fits_in _ _ _ _ _ Hf) (fits_in _ _ _ _ _ Hf') Heq). lia.
Qed.

Lemma fits_bounds p o k seg :
  fits (segments s) p o k seg ->
  seg_ok seg /\ (o <= MAX_TRACKED_ORDER)%nat /\ (fl_type seg < VM_NFREELIST)%nat /\
  Z.of_nat k < 4294967296 /\ 0 <= p < node_capacity s.
Proof.
  intros Hf. pose proof Hf as (Hk & _ & _ & Ho & _).
  pose proof (sg_ok _ _ (sh_segs _ _ Hsh) _ _ Hk) as Hseg. split_and!; try done.
  - pose proof (so_max _ Hseg). lia.
  - apply (so_fl _ Hseg).
  - pose proof (sg_count _ _ (sh_segs _ _ Hsh)). apply lookup_lt_Some in Hk. lia.
  - apply (in_seg_cap _ _ (sh_segs _ _ Hsh) _ _ _ Hk (fits_in _ _ _ _ _ Hf)).
  - apply (in_seg_cap _ _ (sh_segs _ _ Hsh) _ _ _ Hk (fits_in _ _ _ _ _ Hf)).
Qed.

(** A new block in a vacant place. *)
Lemma step_new i o k seg is_free :
  fits (segments s) (Z.of_nat i) o k seg -> vacant (blocks s) (Z.of_nat i) o ->
  new_node (addr_of seg (Z.of_nat i)) o k (fl_type seg) is_free s =
    Done (Some (S i), placed s i (block_node (addr_of seg (Z.of_nat i)) o k (fl_type seg) is_free)) /\
  exists n, nodes s !! i = Some n /\ n_state n = NODE_INACTIVE /\
    geom (segments s) (<[i := block_node (addr_of seg (Z.of_nat i)) o k (fl_type seg) is_free]> (blocks s)).
Proof.
  intros Hf Hv. destruct (fits_bounds _ _ _ _ Hf) as (Hseg & Ho & Hfl & Hk32 & Hcap).
  destruct (block_lookup _ _ _ (proj1 Hf) (fits_in _ _ _ _ _ Hf)) as [b Hb]. rewrite Nat2Z.id in Hb.
  apply lookup_blocks in Hb as Hn. destruct Hn as (n & Hn & ->).
  pose proof (vacant_inactive _ _ _ _ Hv Hb) as Hin. simpl in Hin. split.
  - eapply new_node_ok; try done.
    apply (node_addr_for_hit _ (sh_segs _ _ Hsh) k); [apply Hf|by eapply fits_in].
  - exists n. split_and!; [done|done|]. apply geom_put; [apply Hsh|done| |by eapply lookup_lt_Some].
    split; [by destruct is_free|]. by exists seg.
Qed.

Lemma step_put_free i o k seg :
  fits (segments s) (Z.of_nat i) o k seg -> vacant (blocks s) (Z.of_nat i) o ->
  exists s1 s', new_node (addr_of seg (Z.of_nat i)) o k (fl_type seg) true s = Done (Some (S i), s1) /\
    add_to_free_list (S i) s1 = Done (tt, s') /\
    shape s' (<[(fl_type seg, o) := i :: L (fl_type seg, o)]> L) /\
    blocks s' = <[i := block_node (addr_of seg (Z.of_nat i)) o k (fl_type seg) true]> (blocks s) /\
    core s' = core s.
Proof.
  intros Hf Hv. destruct (step_new i o k seg true Hf Hv) as (Hnew & n & Hn & Hst & Hg).
  destruct (fits_bounds _ _ _ _ Hf) as (Hseg & Ho & Hfl & Hk32 & Hcap).
  destruct (put_free s L (sh_linked _ _ Hsh) i n (addr_of seg (Z.of_nat i)) o k (fl_type seg) Hn Hst Hfl Ho)
    as (s' & Hrun & Hlk & Hbl & Hcore).
  eexists _, s'. split_and!; try done. by eapply shape_step.
Qed.

Lemma step_put_alloc i o k seg :
  fits (segments s) (Z.of_nat i) o k seg -> vacant (blocks s) (Z.of_nat i) o ->
  exists s', new_node (addr_of seg (Z.of_nat i)) o k (fl_type seg) false s = Done (Some (S i), s') /\
    shape s' L /\
    blocks s' = <[i := block_node (addr_of seg (Z.of_nat i)) o k (fl_type seg) false]> (blocks s) /\
    core s' = core s.
Proof.
  intros Hf Hv. destruct (step_new i o k seg false Hf Hv) as (Hnew & n & Hn & Hst & Hg).
  destruct (put_alloc s L (sh_linked _ _ Hsh) i n (addr_of seg (Z.of_nat i)) o k (fl_type seg) Hn Hst)
    as (Hlk & Hbl & Hcore).
  eexists. split_and!; try done. by eapply shape_step.
Qed.

Lemma step_take_free i b :
  blocks s !! i = Some b -> n_state b = NODE_FREE ->
  exists s1 s2 s3 l1 l2, deactivate_node (S i) NODE_FREE s = Done (true, s1) /\
    remove_from_free_list (S i) s1 = Done (tt, s2) /\ recycle_node (S i) s2 = Done (tt, s3) /\
    L (n_fl_type b, n_order b) = l1 ++ i :: l2 /\
    shape s3 (<[(n_fl_type b, n_order b) := l1 ++ l2]> L) /\
    blocks s3 = <[i := empty_node]> (blocks s) /\ core s3 = core s /\
    vacant (blocks s3) (Z.of_nat i) (n_order b).
Proof.
  intros Hb Hst. apply lookup_blocks in Hb as Hn. destruct Hn as (n & Hn & ->). simpl in Hst |- *.
  destruct (take_free s L (sh_linked _ _ Hsh) i n Hn Hst)
    as (s2 & s3 & l1 & l2 & Hrem & Hrec & HL & Hlk & Hbl & Hcore).
  destruct (geom_take _ _ _ _ (sh_geom _ _ Hsh) Hb) as [Hg Hv]; [by apply active_state; simpl; congruence|].
  exists (deactivated s i), s2, s3, l1, l2. split_and!; try done.
  - rewrite <- Hst. by apply deactivate_ok.
  - by eapply shape_step.
  - by rewrite Hbl.
Qed.

Lemma step_take_alloc i b :
  blocks s !! i = Some b -> n_state b = NODE_ALLOCATED ->
  exists s1 s2, deactivate_node (S i) NODE_ALLOCATED s = Done (true, s1) /\
    recycle_node (S i) s1 = Done (tt, s2) /\ shape s2 L /\
    blocks s2 = <[i := empty_node]> (blocks s) /\ core s2 = core s /\
    vacant (blocks s2) (Z.of_nat i) (n_order b).
Proof.
  intros Hb Hst. apply lookup_blocks in Hb as Hn. destruct Hn as (n & Hn & ->). simpl in Hst |- *.
  destruct (take_alloc s L (sh_linked _ _ Hsh) i n Hn Hst) as (s2 & Hrec & Hlk & Hbl & Hcore).
  destruct (geom_take _ _ _ _ (sh_geom _ _ Hsh) Hb) as [Hg Hv]; [by apply active_state; simpl; congruence|].
  exists (deactivated s i), s2. split_and!; try done.
  - rewrite <- Hst. by apply deactivate_ok.
  - by eapply shape_step.
  - by rewrite Hbl.
Qed.

End step.

(** ** Merging *)

(** No free block is the buddy of the block [p] of order [o]. *)
Definition unmergeable (bl : list BlockNode) (p : Z) (o k : nat) (seg : BuddySegment) : Prop :=
  (o < max_order seg)%nat -> forall j b, bl !! j = Some b -> n_state b = NODE_FREE ->
    n_order b = o -> n_seg_idx b = k -> ~ is_buddy seg p (Z.of_nat j) o.

(** From [s] and the vacant block [i] of order [o], blocks have been taken off
    the free lists to leave [s'] and the vacant block [i'] of order [o']. *)
Record merged (s : BuddyAllocator) (L : nat * nat -> list nat) (i o k : nat) (seg : BuddySegment)
    (s' : BuddyAllocator) (L' : nat * nat -> list nat) (i' o' : nat) : Prop := {
  mg_shape : shape s' L';
  mg_fits : fits (segments s) (Z.of_nat i') o' k seg;
  mg_vacant : vacant (blocks s') (Z.of_nat i') o';
  mg_core : core s' = core s;
  mg_pages p : page_free (blocks s) p \/ covers i o p <-> page_free (blocks s') p \/ covers i' o' p;
  mg_sub j b : blocks s' !! j = Some b -> active b = true -> blocks s !! j = Some b;
  mg_held j b : held (blocks s') j b <-> held (blocks s) j b;
  mg_free_sum : sumZ free_size (blocks s) + pow2 o = sumZ free_size (blocks s') + pow2 o';
  mg_held_sum : sumZ held_size (blocks s) = sumZ held_size (blocks s');
  mg_used : (node_used s' + (o' - o) = node_used s)%nat;
  mg_order : (o <= o')%nat;
  mg_same : o' = o -> L' = L /\ blocks s' = blocks s /\ i' = i }.

Lemma merged_refl s L i o k seg :
  shape s L -> fits (segments s) (Z.of_nat i) o k seg -> vacant (blocks s) (Z.of_nat i) o ->
  merged s L i o k seg s L i o.
Proof. intros. split; try done. lia. Qed.

(** One free buddy is taken. *)
Lemma merged_step s L i o k seg j b :
  shape s L -> fits (segments s) (Z.of_nat i) o k seg -> vacant (blocks s) (Z.of_nat i) o ->
  fits (segments s) (Z.of_nat j) o k seg -> is_buddy seg (Z.of_nat i) (Z.of_nat j) o ->
  (o < max_order seg)%nat -> blocks s !! j = Some b -> n_state b = NODE_FREE -> n_order b = o ->
  exists s1 s2 s3 L', deactivate_node (S j) NODE_FREE s = Done (true, s1) /\
    remove_from_free_list (S j) s1 = Done (tt, s2) /\ recycle_node (S j) s2 = Done (tt, s3) /\
    merged s L i o k seg s3 L' (Nat.min i j) (S o).
Proof.
  intros Hsh Hfi Hv Hfj Hbud Hmax Hb Hst Hord.
  destruct (step_take_free s L Hsh j b Hb Hst)
    as (s1 & s2 & s3 & l1 & l2 & H1 & H2 & H3 & HL & Hsh' & Hbl & Hcore & Hv').
  exists s1, s2, s3, (<[(n_fl_type b, n_order b) := l1 ++ l2]> L). split_and!; [done..|].
  destruct (buddy_merge _ _ _ _ _ _ Hfi Hfj Hbud Hmax) as [Hf Hcov].
  rewrite <- Nat2Z.inj_min in Hf, Hcov.
  assert (forall f : BlockNode -> Z, sumZ f (blocks s3) = sumZ f (blocks s) - f b + f empty_node) as Hsum.
  { intros f. by rewrite Hbl, (sumZ_insert _ _ _ _ _ Hb). }
  assert (active b = true) as Ha by (apply active_state; congruence).
  assert (forall j' b', blocks s3 !! j' = Some b' -> active b' = true -> j' <> j /\ blocks s !! j' = Some b')
    as Hsub.
  { intros j' b'. rewrite Hbl, list_lookup_insert_Some. intros [(-> & <- & _)|[? ?]]; done. }
  split; try done.
  - rewrite Hord in Hv'. intros j' b' Hb' Ha'.
    destruct (Hsub _ _ Hb' Ha') as [_ Hb2]. pose proof (Hv _ _ Hb2 Ha') as H4.
    pose proof (Hv' _ _ Hb' Ha') as H5. pose proof (pow2_pos (n_order b')) as Hp.
    destruct (buddy_cases _ _ _ _ (proj2 (proj2 (proj2 (proj2 Hfi)))) Hbud) as [[Hj _]|[Hj _]];
      rewrite pow2_S; lia.
  - intros p. rewrite Hbl, (page_free_insert (segments s) _ _ b) by (done || apply Hsh).
    assert (covers (Nat.min i j) (S o) p <-> covers i o p \/ covers j o p) as -> by apply Hcov.
    rewrite Hord.
    assert (covers j o p -> page_free (blocks s) p) by (intros; exists j, b; by rewrite Hord).
    assert (covers j o p \/ ~ covers j o p) by (unfold covers; lia).
    assert (n_state empty_node <> NODE_FREE) by done. rewrite Hst. tauto.
  - intros j' b' Hb' Ha'. by destruct (Hsub _ _ Hb' Ha').
  - intros j' b'. rewrite Hbl, (held_insert _ _ b) by done.
    destruct (decide (j' = j)) as [->|]; [|clear -n; naive_solver].
    split; [intros [(_ & _ & _ & [?|?])|[? _]]; done|].
    intros [Hb' Hs']. destruct Hs'; congruence.
  - rewrite Hsum. unfold free_size at 3 4. rewrite bool_decide_true, bool_decide_false by done.
    rewrite Hord, pow2_S. lia.
  - rewrite Hsum. unfold held_size at 3 4. rewrite !bool_decide_false; [lia|by intros [?|?]|].
    rewrite Hst. by intros [?|?].
  - pose proof (lk_used _ _ (sh_linked _ _ Hsh)) as Hu. pose proof (lk_used _ _ (sh_linked _ _ Hsh')) as Hu'.
    rewrite Hsum in Hu'. rewrite Ha in Hu'. simpl in Hu'. lia.
  - lia.
  - lia.
Qed.

Lemma merged_trans s0 L0 i0 o0 k seg s1 L1 i1 o1 s2 L2 i2 o2 :
  merged s0 L0 i0 o0 k seg s1 L1 i1 o1 -> merged s1 L1 i1 o1 k seg s2 L2 i2 o2 ->
  merged s0 L0 i0 o0 k seg s2 L2 i2 o2.
Proof.
  intros [] []. split; try done.
  - by rewrite <- (core_segments _ _ mg_core0).
  - congruence.
  - intros p. by rewrite mg_pages0, mg_pages1.
  - eauto.
  - intros j b. by rewrite mg_held1, mg_held0.
  - lia.
  - lia.
  - lia.
  - lia.
  - intros ->. assert (o1 = o0) as -> by lia.
    destruct (mg_same0 eq_refl) as (-> & <- & ->). by apply mg_same1.
Qed.

Lemma merged_stats s L i o k seg s' L' i' o' t :
  merged s L i o k seg s' L' i' o' -> free_count_per_order t = free_count_per_order (stats s') ->
  core (set_stats t s') = core s' -> merged s L i o k seg (set_stats t s') L' i' o'.
Proof. intros [] Ht Hc. split; try done; [by apply shape_stats|congruence]. Qed.

(** Where the loop stops, the buddy is not a free block of the same order. *)
Lemma not_free_buddy s L i o k seg q :
  shape s L -> fits (segments s) (Z.of_nat i) o k seg -> is_buddy seg (Z.of_nat i) q o ->
  ~ (node_base seg <= q /\ q + pow2 o <= node_base seg + total_pages seg /\
     exists b, blocks s !! Z.to_nat q = Some b /\ n_state b = NODE_FREE /\ n_order b = o /\ n_seg_idx b = k) ->
  unmergeable (blocks s) (Z.of_nat i) o k seg.
Proof.
  intros Hsh Hf Hq Hno _ j b Hb Hst Ho Hk Hj.
  assert (q = Z.of_nat j) as -> by (by eapply buddy_unique).
  apply Hno. rewrite Nat2Z.id.
  destruct (block_fits _ _ Hsh _ _ Hb) as (seg' & Hf' & _); [by apply active_state; congruence|].
  destruct Hf' as (Hk' & H1 & H2 & _). rewrite Hk, Ho in *.
  assert (seg' = seg) as -> by (destruct Hf as [? _]; congruence).
  split_and!; [done|done|by exists b].
Qed.

(** One round: either the loop stops, or it takes the buddy. *)
Lemma coalesce_round k seg room s L i o c :
  shape s L -> fits (segments s) (Z.of_nat i) o k seg -> vacant (blocks s) (Z.of_nat i) o ->
  (o < max_order seg)%nat ->
  (unmergeable (blocks s) (Z.of_nat i) o k seg /\
   coalesce_loop (S room) seg k (fl_type seg) (addr_of seg (Z.of_nat i)) o c s =
     Done (addr_of seg (Z.of_nat i), o, c, s)) \/
  exists s' L' j, merged s L i o k seg s' L' (Nat.min i j) (S o) /\
    coalesce_loop (S room) seg k (fl_type seg) (addr_of seg (Z.of_nat i)) o c s =
      coalesce_loop room seg k (fl_type seg) (addr_of seg (Z.of_nat (Nat.min i j))) (S o)
        (saturating_add c 1) s'.
Proof.
  intros Hsh Hf Hv Hmax. destruct (fits_bounds _ _ Hsh _ _ _ _ Hf) as (Hseg & Ho & Hfl & Hk32 & Hcap).
  destruct (buddy_exists seg (Z.of_nat i) o) as [q Hq].
  cbn [coalesce_loop]. rewrite (buddy_addr _ _ _ _ Hseg Hq), block_pages_pow2.
  pose proof (not_free_buddy _ _ _ _ _ _ _ Hsh Hf Hq) as Hno.
  destruct (Z.ltb_spec (addr_of seg q) (start (range seg))) as [Hlt|Hge].
  { left. split; [|done]. apply Hno. unfold addr_of, PAGE_SIZE in Hlt. lia. }
  replace ((addr_of seg q - start (range seg)) / PAGE_SIZE) with (q - node_base seg).
  2: { unfold addr_of. replace (_ + _ - _) with ((q - node_base seg) * PAGE_SIZE) by lia. by rewrite Z.div_mul. }
  destruct (Z.ltb_spec (total_pages seg) (q - node_base seg + pow2 o)) as [Hlt|Hle].
  { left. split; [|done]. apply Hno. lia. }
  assert (node_base seg <= q) as Hbase by (unfold addr_of, PAGE_SIZE in Hge; lia).
  assert (fits (segments s) q o k seg) as Hfq by (eapply buddy_fits; [done|done|done|lia]).
  destruct (fits_bounds _ _ Hsh _ _ _ _ Hfq) as (_ & _ & _ & _ & Hqcap).
  destruct (block_lookup _ _ Hsh _ _ _ (proj1 Hf) (fits_in _ _ _ _ _ Hfq)) as [b Hb].
  replace q with (Z.of_nat (Z.to_nat q)) in Hfq, Hq |- * by lia. set (j := Z.to_nat q) in *.
  rewrite (bindM _ _ _ _ _ (hash_find_hit _ _ Hsh k seg j b (proj1 Hf) (fits_in _ _ _ _ _ Hfq) Hb)).
  destruct (active b) eqn:Ha; cbn [Nat.eqb].
  2: { left. split; [|done]. apply Hno. intros (_ & _ & b' & Hb' & Hst' & _). simplify_eq.
       rewrite active_state in Ha by congruence. done. }
  apply lookup_blocks in Hb as Hn. destruct Hn as (n & Hn & ->).
  rewrite (bindM _ _ _ _ _ (node_ref_ok _ _ _ Hn)).
  destruct (negb (bool_decide (n_state n = NODE_FREE)) || _ || _ || _) eqn:Hcond.
  { left. split; [|done]. apply Hno. intros (_ & _ & b' & Hb' & Hst' & Ho' & Hk'). simplify_eq. simpl in *.
    destruct (block_fits _ _ Hsh _ _ Hb Ha) as (seg' & [Hk2 _] & _ & _ & Hfl').
    destruct Hf as [Hk1 _]. simpl in *. assert (seg' = seg) as -> by congruence.
    rewrite Hst', Hfl', bool_decide_true, !Nat.eqb_refl in Hcond by done. done. }
  rewrite !orb_false_iff, !negb_false_iff, !Nat.eqb_eq, bool_decide_eq_true in Hcond.
  destruct Hcond as [[[Hst Ho'] Hk'] _].
  destruct (merged_step s L i o k seg j (erase n) Hsh Hf Hv Hfq Hq Hmax Hb Hst Ho')
    as (s1 & s2 & s3 & L3 & H1 & H2 & H3 & Hm).
  right. exists (set_stats (set_events (count_event Coalesce (events (stats s3))) (stats s3)) s3), L3, j.
  split; [by apply merged_stats|].
  rewrite (bindM _ _ _ _ _ H1). cbn [negb].
  rewrite (bindM _ _ _ _ _ H2), (bindM _ _ _ _ _ H3), count_bind.
  by replace (Z.min _ (addr_of seg (Z.of_nat j))) with (addr_of seg (Z.of_nat (Nat.min i j))) by
    (rewrite Nat2Z.inj_min; unfold addr_of, PAGE_SIZE; lia).
Qed.

Lemma coalesce_loop_spec k seg room s L i o c :
  shape s L -> fits (segments s) (Z.of_nat i) o k seg -> vacant (blocks s) (Z.of_nat i) o ->
  room = (max_order seg - o)%nat -> 0 <= c -> c + Z.of_nat room <= U64_MAX ->
  exists s' L' i' o', coalesce_loop room seg k (fl_type seg) (addr_of seg (Z.of_nat i)) o c s =
      Done (addr_of seg (Z.of_nat i'), o', c + Z.of_nat (o' - o), s') /\
    merged s L i o k seg s' L' i' o' /\ unmergeable (blocks s') (Z.of_nat i') o' k seg.
Proof.
  revert s L i o c. induction room as [|room IH]; intros s L i o c Hsh Hf Hv Hroom Hc Hmax.
  { exists s, L, i, o. rewrite Nat.sub_diag, Z.add_0_r.
    split_and!; [done|by apply merged_refl|intros ?; lia]. }
  destruct (coalesce_round k seg room s L i o c Hsh Hf Hv ltac:(lia))
    as [[Hun Hrun]|(s1 & L1 & j & Hm & Hrun)]; rewrite Hrun.
  { exists s, L, i, o. rewrite Nat.sub_diag, Z.add_0_r. split_and!; [done|by apply merged_refl|done]. }
  replace (saturating_add c 1) with (c + 1) by (unfold saturating_add; lia).
  pose proof (core_segments _ _ (mg_core _ _ _ _ _ _ _ _ _ _ Hm)) as Hs.
  destruct (IH s1 L1 (Nat.min i j) (S o) (c + 1)) as (s' & L' & i' & o' & Hrun' & Hm2 & Hun);
    [by destruct Hm|rewrite Hs; by destruct Hm|by destruct Hm|lia|lia|lia|].
  exists s', L', i', o'. split_and!; [|by eapply merged_trans|done].
  pose proof (mg_order _ _ _ _ _ _ _ _ _ _ Hm2). rewrite Hrun'. do 3 f_equal. lia.
Qed.

(** ** A block given back

    [s'] has the blocks of [s] and the pages of [i .. i + 2^o) free besides. *)
Record given_back (s : BuddyAllocator) (i o : nat) (s' : BuddyAllocator) : Prop := {
  gb_core : core s' = core s;
  gb_pages p : page_free (blocks s') p <-> page_free (blocks s) p \/ covers i o p;
  gb_held j b : held (blocks s') j b <-> held (blocks s) j b;
  gb_free_sum : sumZ free_size (blocks s') = sumZ free_size (blocks s) + pow2 o;
  gb_held_sum : sumZ held_size (blocks s') = sumZ held_size (blocks s) }.

Lemma merged_put s L i o k seg s1 L1 i1 o1 :
  merged s L i o k seg s1 L1 i1 o1 ->
  exists s2 s', new_node (addr_of seg (Z.of_nat i1)) o1 k (fl_type seg) true s1 = Done (Some (S i1), s2) /\
    add_to_free_list (S i1) s2 = Done (tt, s') /\
    shape s' (<[(fl_type seg, o1) := i1 :: L1 (fl_type seg, o1)]> L1) /\
    blocks s' = <[i1 := block_node (addr_of seg (Z.of_nat i1)) o1 k (fl_type seg) true]> (blocks s1) /\
    node_used s' = S (node_used s1) /\ given_back s i o s'.
Proof.
  intros []. rewrite <- (core_segments _ _ mg_core0) in mg_fits0.
  destruct (step_put_free s1 L1 mg_shape0 i1 o1 k seg mg_fits0 mg_vacant0)
    as (s2 & s' & H1 & H2 & Hsh & Hbl & Hcore).
  destruct (block_lookup _ _ mg_shape0 _ _ _ (proj1 mg_fits0) (fits_in _ _ _ _ _ mg_fits0)) as [b0 Hb0].
  rewrite Nat2Z.id in Hb0. pose proof (vacant_inactive _ _ _ _ mg_vacant0 Hb0) as Hin.
  exists s2, s'. split_and!; try done.
  { pose proof (lk_used _ _ (sh_linked _ _ Hsh)) as Hu. pose proof (lk_used _ _ (sh_linked _ _ mg_shape0)).
    rewrite Hbl, (sumZ_insert _ _ _ _ _ Hb0), (inactive_state b0) in Hu by done. simpl in Hu. lia. }
  split.
  - congruence.
  - intros p. rewrite Hbl, (page_free_insert (segments s1) _ _ b0) by (done || apply mg_shape0).
    rewrite mg_pages0, Hin. simpl. clear. intuition congruence.
  - intros j b. rewrite Hbl, (held_insert _ _ b0) by done. rewrite <- mg_held0.
    destruct (decide (j = i1)) as [->|]; [|clear -n; naive_solver].
    split; [intros [(_ & _ & _ & [?|?])|[? _]]; done|].
    intros [Hb' Hs']. destruct Hs'; congruence.
  - rewrite Hbl, (sumZ_insert _ _ _ _ _ Hb0). unfold free_size at 2 3. simpl.
    rewrite bool_decide_false by congruence. lia.
  - rewrite Hbl, (sumZ_insert _ _ _ _ _ Hb0), mg_held_sum0. unfold held_size at 2 3. simpl.
    rewrite (bool_decide_false (n_state b0 = _ \/ _)) by (rewrite Hin; by intros [?|?]). lia.
Qed.

(** ** Buddies left unmerged

    No two free blocks of an order below the largest are buddies; with [lax],
    single pages of the default zone may be. *)
Definition tidy (lax : bool) (segs : list BuddySegment) (bl : list BlockNode) : Prop :=
  forall i j bi bj seg, bl !! i = Some bi -> bl !! j = Some bj ->
    n_state bi = NODE_FREE -> n_state bj = NODE_FREE -> n_seg_idx bi = n_seg_idx bj ->
    n_order bi = n_order bj -> segs !! n_seg_idx bi = Some seg -> (n_order bi < max_order seg)%nat ->
    is_buddy seg (Z.of_nat i) (Z.of_nat j) (n_order bi) ->
    lax = true /\ n_order bi = 0%nat /\ fl_type seg = VM_FREELIST_DEFAULT.

Lemma tidy_sub lax segs bl bl' :
  (forall j b, bl' !! j = Some b -> n_state b = NODE_FREE -> bl !! j = Some b) ->
  tidy lax segs bl -> tidy lax segs bl'.
Proof. intros Hsub Ht i j bi bj seg Hi Hj Hsi Hsj. apply (Ht i j); auto. Qed.

Lemma tidy_lax segs bl : tidy false segs bl -> tidy true segs bl.
Proof. intros Ht i j bi bj seg Hi Hj H1 H2 H3 H4 H5 H6 H7. by destruct (Ht i j bi bj seg). Qed.

Lemma buddy_irrefl seg p o : ~ is_buddy seg p p o.
Proof.
  unfold is_buddy. intros H. assert (pow2 o = 0) as Hz; [|pose proof (pow2_pos o); lia].
  apply (f_equal (Z.lxor (pfn_of seg p))) in H.
  by rewrite <- Z.lxor_assoc, Z.lxor_nilpotent, Z.lxor_0_l in H.
Qed.

Lemma tidy_put lax segs bl i b seg :
  tidy lax segs bl -> segs !! n_seg_idx b = Some seg ->
  unmergeable bl (Z.of_nat i) (n_order b) (n_seg_idx b) seg \/
  (lax = true /\ n_order b = 0%nat /\ fl_type seg = VM_FREELIST_DEFAULT) ->
  tidy lax segs (<[i := b]> bl).
Proof.
  intros Ht Hseg Hun i1 i2 b1 b2 seg'. rewrite !list_lookup_insert_Some.
  intros [(<- & <- & _)|[Hne1 Hi1]] [(<- & <- & _)|[Hne2 Hi2]] H1 H2 H3 H4 H5 H6 H7.
  - by apply buddy_irrefl in H7.
  - simplify_eq. destruct Hun as [Hun|?]; [|done]. exfalso. by eapply Hun.
  - rewrite H3 in H5. simplify_eq. destruct Hun as [Hun|Hun]; [|by rewrite H4].
    exfalso. rewrite H4 in H6, H7. eapply Hun; try done. by apply buddy_sym.
  - by eapply (Ht i1 i2).
Qed.

Lemma tidy_merged lax s L i o k seg s1 L1 i1 o1 :
  merged s L i o k seg s1 L1 i1 o1 -> tidy lax (segments s) (blocks s) ->
  unmergeable (blocks s1) (Z.of_nat i1) o1 k seg \/
  (lax = true /\ o1 = 0%nat /\ fl_type seg = VM_FREELIST_DEFAULT) ->
  tidy lax (segments s)
    (<[i1 := block_node (addr_of seg (Z.of_nat i1)) o1 k (fl_type seg) true]> (blocks s1)).
Proof.
  intros Hm Ht Hun. apply (tidy_put lax _ _ _ _ seg); [|apply (mg_fits _ _ _ _ _ _ _ _ _ _ Hm)|done].
  eapply tidy_sub; [|exact Ht]. intros j b Hj Hst. eapply mg_sub; [done|done|].
  apply active_state. congruence.
Qed.
