(* ===== verification/BuddyProofs.v ===== *)
(** * The operations of the page allocator

    The invariant of an allocator - shape, accounting, reference counts - and
    what each operation does to the pages: an allocation hands out a block of
    free pages, a release frees the pages of its block, and nothing else changes,
    however blocks are split and merged to get there.  Deferred merging walks the
    list of single free pages, moving each page that has no free buddy to the
    front and starting again after every merge; it ends, changes no page, and
    leaves no two free buddies. *)

From stdpp Require Import functions.
From S2P Require Import Prelude Buddy BuddyLinks BuddyBlocks BuddyShape.

Record accounts (s : BuddyAllocator) : Prop := {
  ac_shape : exists L, shape s L;
  ac_free : free_pages_count (stats s) = sumZ free_size (blocks s);
  ac_held : allocated_pages (stats s) = sumZ held_size (blocks s);
  ac_total : st_total_pages (stats s) = node_capacity s;
  ac_reserved : initialized s = true -> reserved_pages (stats s) =
    node_capacity s - sumZ free_size (blocks s) - sumZ held_size (blocks s) }.

(** The invariant of the allocator: the counters are right, and every block
    handed out has a reference. *)
Record binv (s : BuddyAllocator) : Prop := {
  bi_accounts : accounts s;
  bi_held_refs i b : held (blocks s) i b -> 1 <= n_ref_count b <= U16_MAX }.

Lemma bi_shape s : binv s -> exists L, shape s L.
Proof. intros [[] _]. done. Qed.

(** The blocks after [i] is taken out of those handed out. *)
Record released (s : BuddyAllocator) (i o : nat) (s' : BuddyAllocator) : Prop := {
  rl_pages p : page_free (blocks s') p <-> page_free (blocks s) p \/ covers i o p;
  rl_held j b : held (blocks s') j b <-> held (blocks s) j b /\ j <> i;
  rl_segments : segments s' = segments s;
  rl_initialized : initialized s' = initialized s }.

Lemma held_size_le s i b :
  blocks s !! i = Some b -> held_size b <= sumZ held_size (blocks s).
Proof. apply sumZ_lookup. intros. apply held_size_nonneg. Qed.

Lemma free_size_le s i b :
  blocks s !! i = Some b -> free_size b <= sumZ free_size (blocks s).
Proof. apply sumZ_lookup. intros. apply free_size_nonneg. Qed.

(** ** Release *)

Lemma should_defer_ok s L o fl :
  shape s L -> exists d, should_defer_order0_coalesce o fl s = Done (d, s) /\
    (d = true -> o = 0%nat /\ fl = VM_FREELIST_DEFAULT).
Proof.
  intros Hsh. unfold should_defer_order0_coalesce.
  destruct (Nat.eqb_spec o 0) as [->|]; simpl; [|by exists false].
  destruct (Nat.eqb_spec fl VM_FREELIST_DEFAULT) as [->|]; simpl; [|by exists false].
  rewrite get_bind. destruct (st_total_pages (stats s) =? 0); [by exists false|].
  erewrite (bindM (free_count 0)).
  2: { unfold free_count. rewrite (lk_count _ _ (sh_linked _ _ Hsh)) by (unfold MAX_TRACKED_ORDER; lia). done. }
  case_match; [by exists false|by eexists].
Qed.

(** The end of [free_pages]: merge the vacant block, unless that is deferred,
    and list it. *)
Definition free_tail (defer : bool) (seg : BuddySegment) (k : nat) (a : Z) (o : nat)
    : M (result unit BuddyFreeError) :=
  '(merged_addr, merged_order, _) ←
    (if defer then mret (a, o, 0)
     else coalesce_loop (max_order seg - o) seg k (fl_type seg) a o 0);
  merged ← new_node merged_addr merged_order k (fl_type seg) true;
  match merged with
  | None => mret (Err CorruptTail)
  | Some p => add_to_free_list p;; mret (Ok tt)
  end.

Lemma free_tail_ok defer s L i o k seg :
  shape s L -> fits (segments s) (Z.of_nat i) o k seg -> vacant (blocks s) (Z.of_nat i) o ->
  (defer = true -> o = 0%nat /\ fl_type seg = VM_FREELIST_DEFAULT) ->
  exists s' L', free_tail defer seg k (addr_of seg (Z.of_nat i)) o s = Done (Ok tt, s') /\
    shape s' L' /\ given_back s i o s' /\
    (tidy true (segments s) (blocks s) -> tidy true (segments s) (blocks s')).
Proof.
  intros Hsh Hf Hv Hd. unfold free_tail.
  destruct (fits_bounds _ _ Hsh _ _ _ _ Hf) as (Hseg & Ho & _ & _ & _).
  pose proof (so_max _ Hseg) as Hmax. unfold MAX_TRACKED_ORDER in Hmax.
  assert (exists s1 L1 i1 o1 c, (if defer then mret (addr_of seg (Z.of_nat i), o, 0)
      else coalesce_loop (max_order seg - o) seg k (fl_type seg) (addr_of seg (Z.of_nat i)) o 0) s
      = Done (addr_of seg (Z.of_nat i1), o1, c, s1) /\ merged s L i o k seg s1 L1 i1 o1 /\
    (unmergeable (blocks s1) (Z.of_nat i1) o1 k seg \/
     (true = true /\ o1 = 0%nat /\ fl_type seg = VM_FREELIST_DEFAULT)))
    as (s1 & L1 & i1 & o1 & c & Hrun & Hm & Hun).
  { destruct defer.
    - exists s, L, i, o, 0. split_and!; [done|by apply merged_refl|right; naive_solver].
    - destruct (coalesce_loop_spec k seg (max_order seg - o) s L i o 0)
        as (s1 & L1 & i1 & o1 & ? & ? & ?); try done; [unfold U64_MAX; lia|].
      eexists s1, L1, i1, o1, _. split_and!; [done|done|by left]. }
  rewrite (bindM _ _ _ _ _ Hrun).
  destruct (merged_put _ _ _ _ _ _ _ _ _ _ Hm) as (s2 & s' & H1 & H2 & Hsh' & Hbl & _ & Hgb).
  rewrite (bindM _ _ _ _ _ H1), (bindM _ _ _ _ _ H2).
  eexists s', _. split_and!; [done|exact Hsh'|done|]. intros Ht. rewrite Hbl.
  by eapply tidy_merged.
Qed.

Lemma shape_capacity s L s' L' :
  shape s L -> shape s' L' -> segments s' = segments s -> node_capacity s' = node_capacity s.
Proof.
  intros [H1 _ _] [H2 _ _] Heq. rewrite (sg_cap _ _ H1), (sg_cap _ _ H2). by rewrite Heq.
Qed.

(** Why [free_pages] refuses a block: the first test of the code that fails. *)
Definition free_error (s : BuddyAllocator) (a : Z) (o : nat) (e : BuddyFreeError) : Prop :=
  (e = FreeInvalidOrder /\ (MAX_TRACKED_ORDER < o)%nat) \/
  ((o <= MAX_TRACKED_ORDER)%nat /\
   ((e = NotAllocated /\
       forall i b, blocks s !! i = Some b -> n_state b = NODE_ALLOCATED -> n_start b <> a) \/
    (e = OrderMismatch /\ exists i b, blocks s !! i = Some b /\ n_state b = NODE_ALLOCATED /\
       n_start b = a /\ n_order b <> o))).

(** The state [free_pages] passes to its end. *)
Definition vacated (s : BuddyAllocator) (o : nat) (s3 : BuddyAllocator) (v : BuddyEvents) : BuddyAllocator :=
  set_stats (set_free (free_pages_count (stats s) + block_pages o)
    (set_allocated (saturating_sub (allocated_pages (stats s)) (block_pages o))
       (set_events v (stats s3)))) s3.

Lemma free_pages_front s L i b o k seg :
  shape s L -> initialized s = true -> (o <= MAX_TRACKED_ORDER)%nat ->
  blocks s !! i = Some b -> n_state b = NODE_ALLOCATED -> n_order b = o -> n_seg_idx b = k ->
  fits (segments s) (Z.of_nat i) o k seg -> n_start b = addr_of seg (Z.of_nat i) ->
  hash_find (n_start b) s = Done (S i, s) ->
  exists defer s3 v, free_pages (n_start b) o s = free_tail defer seg k (n_start b) o (vacated s o s3 v) /\
    (defer = true -> o = 0%nat /\ fl_type seg = VM_FREELIST_DEFAULT) /\
    shape (vacated s o s3 v) L /\ blocks s3 = <[i := empty_node]> (blocks s) /\ core s3 = core s /\
    vacant (blocks s3) (Z.of_nat i) o.
Proof.
  intros Hsh Hinit Ho Hb Hst Hord Hk Hf Hstart Hhash.
  apply lookup_blocks in Hb as Hn. destruct Hn as (n & Hn & ->). simpl in Hst, Hord, Hk, Hstart, Hhash |- *.
  destruct (should_defer_ok s L o (fl_type seg) Hsh) as (d & Hdefer & Hd).
  set (s1 := if d then set_stats (set_events (count_event DeferredCoalesce (events (stats s))) (stats s)) s else s).
  assert (shape s1 L) as Hsh1 by (unfold s1; destruct d; [by apply shape_stats|done]).
  assert (blocks s1 = blocks s /\ core s1 = core s /\ nodes s1 = nodes s) as (Hbl1 & Hcore1 & Hns1)
    by (unfold s1; by destruct d).
  destruct (step_take_alloc s1 L Hsh1 i (erase n)) as (s2 & s3 & H1 & H2 & Hsh3 & Hbl3 & Hcore3 & Hv3);
    [by rewrite Hbl1|done|].
  simpl in Hv3. rewrite Hord in Hv3. rewrite Hbl1 in Hbl3. rewrite Hcore1 in Hcore3.
  exists d, s3, (count_event FreeRequest (events (stats s3))). split_and!; try done.
  2: by apply shape_stats.
  unfold free_pages. rewrite get_bind, Hinit. simpl.
  destruct (Nat.ltb_spec MAX_TRACKED_ORDER o); [lia|].
  rewrite (bindM _ _ _ _ _ Hhash). simpl. rewrite (bindM _ _ _ _ _ (node_ref_ok _ _ _ Hn)).
  rewrite bool_decide_true, Hord, Nat.eqb_refl by done. simpl. unfold segment.
  rewrite Hk, (proj1 Hf). destruct (Nat.ltb_spec (max_order seg) o) as [Hlt|]; [destruct Hf as (_ & _ & _ & ? & _); lia|].
  rewrite (bindM _ _ _ _ _ Hdefer).
  erewrite (bindM (if d then _ else _) _ _ _ s1) by (unfold s1; by destruct d).
  rewrite (bindM _ _ _ _ _ H1). cbn [negb]. rewrite (bindM _ _ _ _ _ H2), count_bind, !map_stats_bind.
  unfold vacated. cbn [set_stats stats allocated_pages free_pages_count set_allocated set_free].
  rewrite <- (core_allocated _ _ Hcore3), <- (core_free _ _ Hcore3). done.
Qed.

(** The accounts once the block [i] is given back. *)
Lemma vacated_released s L i b o s3 v s' L' :
  accounts s -> shape s L -> blocks s !! i = Some b -> n_state b = NODE_ALLOCATED -> n_order b = o ->
  blocks s3 = <[i := empty_node]> (blocks s) -> core s3 = core s ->
  shape s' L' -> given_back (vacated s o s3 v) i o s' -> accounts s' /\ released s i o s'.
Proof.
  intros Hinv Hsh Hb Hst Ho Hbl3 Hcore3 Hsh' [Gcore Gpages Gheld Gfree_sum Gheld_sum].
  change (blocks (vacated s o s3 v)) with (blocks s3) in *. rewrite Hbl3 in *.
  assert (held_size b = pow2 o /\ free_size b = 0) as [Hh Hfr].
  { unfold held_size, free_size. rewrite Hst, Ho. done. }
  pose proof (held_size_le _ _ _ Hb) as Hle.
  assert (segments s' = segments s /\ initialized s' = initialized s) as [Hsegs' Hinit'].
  { pose proof (core_segments _ _ Gcore) as E1. pose proof (core_initialized _ _ Gcore) as E2.
    pose proof (core_segments _ _ Hcore3) as E3. pose proof (core_initialized _ _ Hcore3) as E4.
    simpl in E1, E2. split; congruence. }
  pose proof (shape_capacity _ _ _ _ Hsh Hsh' Hsegs') as Hcap.
  rewrite (sumZ_insert _ _ _ _ _ Hb) in Gfree_sum.
  rewrite (sumZ_insert _ _ _ _ _ Hb) in Gheld_sum.
  rewrite Hfr in Gfree_sum. rewrite Hh in Gheld_sum, Hle.
  change (free_size empty_node) with 0 in Gfree_sum. change (held_size empty_node) with 0 in Gheld_sum.
  destruct Hinv. split; split; try done.
  - by exists L'.
  - rewrite (core_free _ _ Gcore). simpl. rewrite block_pages_pow2. lia.
  - rewrite (core_allocated _ _ Gcore). simpl. rewrite block_pages_pow2. unfold saturating_sub. lia.
  - rewrite (core_total _ _ Gcore), Hcap. simpl. by rewrite (core_total _ _ Hcore3).
  - rewrite Hinit'. intros Hi. rewrite (core_reserved _ _ Gcore), Hcap. simpl.
    rewrite (core_reserved _ _ Hcore3), (ac_reserved0 Hi). lia.
  - intros p. rewrite Gpages, (page_free_insert (segments s) _ _ b) by (done || apply Hsh).
    rewrite Hst. simpl. clear. intuition congruence.
  - intros j b'. rewrite Gheld, (held_insert _ _ b) by done.
    split; [|by intros [? ?]; right]. intros [(_ & -> & _ & [?|?])|[? ?]]; done.
Qed.

Lemma free_pages_refused s a o p :
  initialized s = true -> (o <= MAX_TRACKED_ORDER)%nat -> hash_find a s = Done (p, s) ->
  (p = 0%nat -> free_pages a o s = Done (Err NotAllocated, s)) /\
  (forall i n, p = S i -> nodes s !! i = Some n ->
     (n_state n <> NODE_ALLOCATED -> free_pages a o s = Done (Err NotAllocated, s)) /\
     (n_state n = NODE_ALLOCATED -> n_order n <> o -> free_pages a o s = Done (Err OrderMismatch, s))).
Proof.
  intros Hinit Ho Hhash. unfold free_pages. rewrite !get_bind, Hinit. simpl.
  destruct (Nat.ltb_spec MAX_TRACKED_ORDER o); [lia|]. rewrite (bindM _ _ _ _ _ Hhash).
  split; [by intros ->|]. intros i n -> Hn. simpl. rewrite (bindM _ _ _ _ _ (node_ref_ok _ _ _ Hn)).
  split; [intros Hst; by rewrite bool_decide_false|]. intros Hst Hord.
  rewrite bool_decide_true by done. simpl. by destruct (Nat.eqb_spec (n_order n) o).
Qed.

(** Every release succeeds or is refused for one of three reasons, and leaves
    the allocator well formed; refused, it changes nothing. *)
Lemma free_pages_accounts s a o :
  accounts s -> initialized s = true ->
  exists r s', free_pages a o s = Done (r, s') /\ accounts s' /\
    match r with
    | Ok _ => exists i b, blocks s !! i = Some b /\ n_state b = NODE_ALLOCATED /\ n_start b = a /\
        n_order b = o /\ released s i o s' /\
        (tidy true (segments s) (blocks s) -> tidy true (segments s) (blocks s'))
    | Err e => s' = s /\ free_error s a o e
    end.
Proof.
  intros Hinv Hinit. destruct (ac_shape _ Hinv) as [L Hsh].
  destruct (Nat.ltb_spec MAX_TRACKED_ORDER o) as [Hlt|Hle].
  { exists (Err FreeInvalidOrder), s. split_and!; [|done|done|by left].
    unfold free_pages. rewrite get_bind, Hinit. simpl. by destruct (Nat.ltb_spec MAX_TRACKED_ORDER o); [|lia]. }
  destruct (hash_find_any s L Hsh a) as [(i & b & Hhash & Hb & Ha & Hstart)|[Hhash Hnone]];
    destruct (free_pages_refused s a o _ Hinit Hle Hhash) as [Hr0 Hr].
  2: { exists (Err NotAllocated), s. split_and!; [by apply Hr0|done|done|right; split; [done|left; split; [done|]]].
    intros i b Hb Hst. apply (Hnone i b Hb), active_state. congruence. }
  destruct (block_fits _ _ Hsh _ _ Hb Ha) as (seg & Hf & Hseg & Hst & Hfl).
  apply lookup_blocks in Hb as Hn. destruct Hn as (n & Hn & Hbn).
  destruct (Hr i n eq_refl Hn) as [Hr1 Hr2]. clear Hr Hr0.
  destruct (decide (n_state b = NODE_ALLOCATED)) as [Hal|Hal].
  2: { exists (Err NotAllocated), s. split_and!; [apply Hr1; by subst b|done|done|].
    right. split; [done|]. left. split; [done|]. intros j b' Hb' Hst' Heq.
    assert (j = i) as ->; [|congruence].
    eapply (start_inj _ _ Hsh); [done|done|apply active_state; congruence|done|congruence]. }
  destruct (decide (n_order b = o)) as [Hord|Hord].
  2: { exists (Err OrderMismatch), s. split_and!; [apply Hr2; by subst b|done|done|].
    right. split; [done|]. right. split; [done|]. by exists i, b. }
  rewrite Hord in Hf. rewrite <- Hstart in Hhash |- *.
  destruct (free_pages_front s L i b o (n_seg_idx b) seg Hsh Hinit Hle Hb Hal Hord eq_refl Hf Hst Hhash)
    as (d & s3 & v & Hrun & Hd & Hsh3 & Hbl3 & Hcore3 & Hv3). rewrite Hrun, Hst.
  assert (segments (vacated s o s3 v) = segments s) as Hsg by apply (core_segments _ _ Hcore3).
  destruct (free_tail_ok d (vacated s o s3 v) L i o (n_seg_idx b) seg Hsh3)
    as (s' & L' & Hrun' & Hsh' & Hgb & Ht); [by rewrite Hsg|done|done|].
  destruct (vacated_released s L i b o s3 v s' L') as [Hinv' Hrel]; try done.
  exists (Ok tt), s'. split_and!; [done|done|]. exists i, b. split_and!; try done.
  rewrite Hsg in Ht. intros Ht0. apply Ht. change (blocks (vacated s o s3 v)) with (blocks s3).
  rewrite Hbl3. eapply tidy_sub; [|exact Ht0].
  intros j b' [(_ & <- & _)|[_ Hj]]%list_lookup_insert_Some ?; done.
Qed.

Lemma released_refs s i o s' j b :
  released s i o s' -> (forall j b, j <> i -> held (blocks s) j b -> 1 <= n_ref_count b <= U16_MAX) ->
  held (blocks s') j b -> 1 <= n_ref_count b <= U16_MAX.
Proof. intros Hrel Hrefs [Hb Hne]%(rl_held _ _ _ _ Hrel). by eapply Hrefs. Qed.

Lemma free_pages_spec s a o :
  binv s -> initialized s = true ->
  exists r s', free_pages a o s = Done (r, s') /\ binv s' /\
    match r with
    | Ok _ => exists i b, blocks s !! i = Some b /\ n_state b = NODE_ALLOCATED /\ n_start b = a /\
        n_order b = o /\ released s i o s' /\
        (tidy true (segments s) (blocks s) -> tidy true (segments s) (blocks s'))
    | Err e => s' = s /\ free_error s a o e
    end.
Proof.
  intros [Hac Hrefs] Hinit. destruct (free_pages_accounts s a o Hac Hinit) as (r & s' & Hrun & Hac' & Hr).
  exists r, s'. split; [done|]. split; [|done]. split; [done|]. intros j b Hj. destruct r as [[]|e].
  - destruct Hr as (i & b' & _ & _ & _ & _ & Hrel & _). eapply released_refs; [done| |done]. intros; by eapply Hrefs.
  - destruct Hr as [-> _]. by eapply Hrefs.
Qed.

(** The same pages in other blocks. *)
Record repacked (s s' : BuddyAllocator) : Prop := {
  rp_core : core s' = core s;
  rp_pages p : page_free (blocks s') p <-> page_free (blocks s) p;
  rp_held j b : held (blocks s') j b <-> held (blocks s) j b;
  rp_free_sum : sumZ free_size (blocks s') = sumZ free_size (blocks s);
  rp_held_sum : sumZ held_size (blocks s') = sumZ held_size (blocks s) }.

Lemma repacked_refl s : repacked s s.
Proof. by split. Qed.

Lemma repacked_trans s1 s2 s3 : repacked s1 s2 -> repacked s2 s3 -> repacked s1 s3.
Proof.
  intros [] []. split; try congruence.
  - intros p. by rewrite rp_pages1.
  - intros j b. by rewrite rp_held1.
Qed.

(** The pages on a list are counted among the active descriptors. *)
Lemma active_count bl (l : list nat) :
  NoDup l -> (forall i, i ∈ l -> exists b, bl !! i = Some b /\ active b = true) ->
  Z.of_nat (length l) <= sumZ active_size bl.
Proof.
  revert bl. induction l as [|i l IH]; intros bl Hnd Hl.
  { apply sumZ_nonneg. intros b _. unfold active_size. destruct (active b); lia. }
  apply NoDup_cons in Hnd as [Hi Hnd]. destruct (Hl i ltac:(left)) as (b & Hb & Ha).
  assert (Z.of_nat (length l) <= sumZ active_size (<[i := empty_node]> bl)) as Hle.
  { apply IH; [done|]. intros j Hj. rewrite list_lookup_insert_ne by (intros ->; done).
    apply Hl. by right. }
  rewrite (sumZ_insert _ _ _ _ _ Hb) in Hle. unfold active_size at 2 3 in Hle. rewrite Ha in Hle.
  simpl length. simpl in Hle. lia.
Qed.

Lemma length_list_le s L k : shape s L -> (length (L k) <= node_used s)%nat.
Proof.
  intros Hsh. pose proof (sh_linked _ _ Hsh) as Hlk.
  pose proof (active_count (blocks s) (L k) (lk_nodup _ _ Hlk k)) as Hc.
  pose proof (lk_used _ _ Hlk) as Hu. fold active_size in Hu.
  change (fun b => if active b then 1 else 0) with active_size in Hu.
  assert (Z.of_nat (length (L k)) <= sumZ active_size (blocks s)); [|lia].
  apply Hc. intros i Hi. apply (lk_elem _ _ Hlk) in Hi as (b & Hb & Hst & _).
  exists b. split; [done|]. apply active_state. congruence.
Qed.

(** A single page with no free buddy. *)
Definition settled (segs : list BuddySegment) (bl : list BlockNode) (i : nat) : Prop :=
  exists b seg, bl !! i = Some b /\ segs !! n_seg_idx b = Some seg /\
    unmergeable bl (Z.of_nat i) (n_order b) (n_seg_idx b) seg.

(** A free block taken off its list and given back. *)
Lemma taken_back s L i b s3 s' :
  shape s L -> blocks s !! i = Some b -> n_state b = NODE_FREE ->
  blocks s3 = <[i := empty_node]> (blocks s) -> core s3 = core s ->
  given_back s3 i (n_order b) s' -> repacked s s'.
Proof.
  intros Hsh Hb Hst Hbl Hcore []. rewrite Hbl in *.
  assert (free_size b = pow2 (n_order b) /\ held_size b = 0) as [Hf Hh].
  { unfold held_size, free_size. by rewrite Hst. }
  split.
  - congruence.
  - intros p. rewrite gb_pages, (page_free_insert (segments s) _ _ b) by (done || apply Hsh).
    assert (covers i (n_order b) p -> page_free (blocks s) p) by (intros; by exists i, b).
    assert (covers i (n_order b) p \/ ~ covers i (n_order b) p) by (unfold covers; lia).
    rewrite Hst. simpl. intuition congruence.
  - intros j b'. rewrite gb_held, (held_insert _ _ b) by done.
    destruct (decide (j = i)) as [->|Hne]; [|clear -Hne; naive_solver].
    split; [intros [(_ & -> & _ & [?|?])|[? _]]; done|]. intros [Hb' [?|?]]; congruence.
  - rewrite gb_free_sum, (sumZ_insert _ _ _ _ _ Hb), Hf. change (free_size empty_node) with 0. lia.
  - rewrite gb_held_sum, (sumZ_insert _ _ _ _ _ Hb), Hh. change (held_size empty_node) with 0. lia.
Qed.

Lemma free_block_eq s L i b :
  shape s L -> blocks s !! i = Some b -> n_state b = NODE_FREE ->
  b = block_node (n_start b) (n_order b) (n_seg_idx b) (n_fl_type b) true.
Proof.
  intros Hsh Hb Hst. destruct (gm_ok _ _ (sh_geom _ _ Hsh) _ _ Hb ltac:(apply active_state; congruence)) as [Hpl _].
  by apply Hpl.
Qed.

Lemma coalesce_free_node_spec s L i b :
  shape s L -> blocks s !! i = Some b -> n_state b = NODE_FREE ->
  exists c s' L', coalesce_free_node (S i) s = Done (c, s') /\ shape s' L' /\ repacked s s' /\
    0 <= c <= U64_MAX /\ Z.of_nat (node_used s') + c = Z.of_nat (node_used s) /\
    (forall lax, tidy lax (segments s) (blocks s) -> tidy lax (segments s) (blocks s')) /\
    (c = 0 -> blocks s' = blocks s /\ settled (segments s) (blocks s) i /\
       exists l1 l2, L (n_fl_type b, n_order b) = l1 ++ i :: l2 /\
         L' (n_fl_type b, n_order b) = i :: l1 ++ l2).
Proof.
  intros Hsh Hb Hst. assert (active b = true) as Ha by (apply active_state; congruence).
  destruct (block_fits _ _ Hsh _ _ Hb Ha) as (seg & Hf & Hseg & Hstart & Hfl).
  apply lookup_blocks in Hb as Hn. destruct Hn as (n & Hn & Hbn).
  destruct (step_take_free s L Hsh i b Hb Hst)
    as (s1 & s2 & s3 & l1 & l2 & H1 & H2 & H3 & HL & Hsh3 & Hbl3 & Hcore3 & Hv3).
  rewrite <- (core_segments _ _ Hcore3) in Hf.
  pose proof (so_max _ Hseg) as Hmax. unfold MAX_TRACKED_ORDER in Hmax.
  destruct (coalesce_loop_spec (n_seg_idx b) seg (max_order seg - n_order b) s3 _ i (n_order b) 0 Hsh3 Hf Hv3)
    as (s4 & L4 & i4 & o4 & Hrun & Hm & Hun); [done|done|unfold U64_MAX; lia|].
  destruct (merged_put _ _ _ _ _ _ _ _ _ _ Hm) as (s5 & s' & H5 & H6 & Hsh' & Hbl' & Hused' & Hgb).
  exists (Z.of_nat (o4 - n_order b)), s', (<[(fl_type seg, o4) := i4 :: L4 (fl_type seg, o4)]> L4).
  assert (coalesce_free_node (S i) s = Done (Z.of_nat (o4 - n_order b), s')) as Hcode.
  { unfold coalesce_free_node. rewrite (bindM _ _ _ _ _ (node_ref_ok _ _ _ Hn)).
    subst b. simpl in *. rewrite bool_decide_true by done. simpl. rewrite get_bind. unfold segment.
    rewrite <- (core_segments _ _ Hcore3), (proj1 Hf), (bindM _ _ _ _ _ H1). cbn [negb].
    rewrite (bindM _ _ _ _ _ H2), (bindM _ _ _ _ _ H3), Hstart, Hfl, (bindM _ _ _ _ _ Hrun).
    rewrite (bindM _ _ _ _ _ H5), (bindM _ _ _ _ _ H6). done. }
  clear Hrun H1 H2 H3 H5 H6. split_and!; [done|done| |lia| | | |].
  - by eapply taken_back.
  - pose proof (mg_order _ _ _ _ _ _ _ _ _ _ Hm). unfold U64_MAX.
    pose proof (mg_fits _ _ _ _ _ _ _ _ _ _ Hm) as (_ & _ & _ & ? & _). lia.
  - pose proof (mg_used _ _ _ _ _ _ _ _ _ _ Hm). pose proof (mg_order _ _ _ _ _ _ _ _ _ _ Hm).
    pose proof (lk_used _ _ (sh_linked _ _ Hsh)). pose proof (lk_used _ _ (sh_linked _ _ Hsh3)) as Hu.
    rewrite Hbl3, (sumZ_insert _ _ _ _ _ Hb), Ha in Hu. simpl in Hu. lia.
  - intros lax Ht. rewrite Hbl', <- (core_segments _ _ Hcore3).
    apply (tidy_merged lax _ _ _ _ _ _ _ _ _ _ Hm); [|by left].
    rewrite (core_segments _ _ Hcore3), Hbl3. eapply tidy_sub; [|exact Ht].
    intros j b' [(_ & <- & _)|[_ Hj]]%list_lookup_insert_Some ?; done.
  - intros Hc. pose proof (mg_order _ _ _ _ _ _ _ _ _ _ Hm).
    assert (o4 = n_order b) as -> by lia.
    destruct (mg_same _ _ _ _ _ _ _ _ _ _ Hm eq_refl) as (-> & Hbl4 & ->). rewrite Hbl4, Hbl3 in *.
    assert (blocks s' = blocks s) as Hsame.
    { rewrite Hbl', list_insert_insert_eq. apply list_insert_id.
      by rewrite Hb, (free_block_eq s L i b Hsh Hb Hst), Hstart, Hfl at 1. }
    split_and!; [done| |].
    + exists b, seg. rewrite <- (core_segments _ _ Hcore3). split_and!; [done|apply Hf|].
      intros Hlt j b' Hj Hst' Ho' Hk' Hbud. destruct (decide (j = i)) as [->|Hne].
      * by apply buddy_irrefl in Hbud.
      * apply (Hun Hlt j b'); try done. by rewrite list_lookup_insert_ne.
    + exists l1, l2. split; [done|]. by rewrite <- Hfl, !fn_lookup_insert.
Qed.

(** ** The scan *)

Abbreviation zero_list L := (L (VM_FREELIST_DEFAULT, 0%nat)).

Definition ptr_of (l : list nat) : nat := match l with [] => 0%nat | i :: _ => S i end.

Lemma dll_ptr nx pv prev hd l : dll nx pv prev hd l -> hd = ptr_of l.
Proof. destruct l; simpl; naive_solver. Qed.

(** The link of a listed block leads to the rest of its list. *)
Lemma listed_next s L k V i R n :
  linked s L -> (k.1 < VM_NFREELIST)%nat -> (k.2 <= MAX_TRACKED_ORDER)%nat ->
  L k = V ++ i :: R -> nodes s !! i = Some n -> n_free_next n = ptr_of R.
Proof.
  intros Hlk H1 H2 HL Hn. destruct k as [fl o]. destruct (lk_list _ _ Hlk fl o H1 H2) as (h & _ & Hl).
  rewrite HL in Hl. apply dll_app in Hl as (p & h' & _ & Hl). simpl in Hl.
  destruct Hl as (_ & _ & Hl). apply dll_ptr in Hl. unfold nx in Hl. rewrite Hn in Hl. done.
Qed.

Lemma settled_tidy segs bl L s :
  blocks s = bl -> segments s = segs -> shape s L ->
  (forall i, i ∈ zero_list L -> settled segs bl i) -> tidy true segs bl -> tidy false segs bl.
Proof.
  intros <- <- Hsh Hset Ht i j bi bj seg Hi Hj Hsi Hsj Hk Ho Hseg Hlt Hbud.
  destruct (Ht i j bi bj seg Hi Hj Hsi Hsj Hk Ho Hseg Hlt Hbud) as (_ & Ho0 & Hfl). exfalso.
  destruct (block_fits _ _ Hsh _ _ Hi) as (seg' & Hf & _ & _ & Hfl'); [apply active_state; congruence|].
  assert (seg' = seg) as -> by (destruct Hf as [? _]; congruence).
  destruct (Hset i) as (b & seg' & Hb & Hseg' & Hun).
  { apply (lk_elem _ _ (sh_linked _ _ Hsh)). exists bi. split_and!; [done|done|congruence]. }
  simplify_eq. by eapply (Hun Hlt j bj).
Qed.

Lemma nodup_split {A} (x : A) V R l1 l2 :
  V ++ x :: R = l1 ++ x :: l2 -> NoDup (V ++ x :: R) -> V = l1 /\ R = l2.
Proof.
  revert l1. induction V as [|y V IH]; intros [|z l1] Heq Hnd; simpl in *;
    apply NoDup_cons in Hnd as [Hx Hnd].
  - by injection Heq as ->.
  - injection Heq as -> ->. set_solver.
  - injection Heq as -> <-. set_solver.
  - injection Heq as -> Heq. by destruct (IH _ Heq Hnd) as [-> ->].
Qed.

(** What the scan promises from a state with [total] merges behind it. *)
Definition reclaims (s : BuddyAllocator) (total t : Z) (s' : BuddyAllocator) : Prop :=
  (exists L', shape s' L') /\ repacked s s' /\ total <= t /\
  (tidy true (segments s) (blocks s) -> tidy false (segments s) (blocks s')) /\
  (t = 0 -> blocks s' = blocks s).

Lemma reclaim_loop_spec fuel s L V R total :
  shape s L -> zero_list L = V ++ R ->
  (forall i, i ∈ V -> settled (segments s) (blocks s) i) -> 0 <= total <= U64_MAX ->
  (node_used s * (node_used s + 2) + length R < fuel)%nat ->
  exists t s', reclaim_loop fuel (ptr_of R) (length V) total s = Done (t, s') /\ reclaims s total t s'.
Proof.
  revert s L V R total. induction fuel as [|fuel IH]; intros s L V R total Hsh HL Hset Ht Hfuel; [lia|].
  cbn [reclaim_loop]. destruct R as [|i R]; cbn [ptr_of Nat.eqb].
  { exists total, s. split; [done|]. split_and!; [by exists L|apply repacked_refl|done| |done].
    apply (settled_tidy _ _ L s); try done. intros i Hi. apply Hset. by rewrite HL, app_nil_r in Hi. }
  pose proof (sh_linked _ _ Hsh) as Hlk.
  assert (i ∈ zero_list L) as Hi by (rewrite HL; set_solver).
  apply (lk_elem _ _ Hlk) in Hi as (b & Hb & Hst & [= Hfl Ho]).
  apply lookup_blocks in Hb as Hn. destruct Hn as (n & Hn & Hbn).
  erewrite (bindM (free_count 0)).
  2: { unfold free_count. rewrite (lk_count _ _ Hlk) by (unfold MAX_TRACKED_ORDER; lia). done. }
  rewrite HL, length_app. cbn [length]. destruct (Nat.leb_spec (length V + S (length R) +
    length (L (VM_FREELIST_DMA, 0%nat))) (length V)) as [Hc|_]; [lia|].
  rewrite (bindM _ _ _ _ _ (node_ref_ok _ _ _ Hn)).
  destruct (coalesce_free_node_spec s L i b Hsh Hb Hst)
    as (c & s1 & L1 & Hrun & Hsh1 & Hrp & Hc & Hused & Htidy & Hzero).
  rewrite (bindM _ _ _ _ _ Hrun). pose proof (core_segments _ _ (rp_core _ _ Hrp)) as Hsg.
  destruct (Z.eqb_spec c 0) as [->|Hne].
  - destruct (Hzero eq_refl) as (Hsame & Hseti & l1 & l2 & HL1 & HL2).
    rewrite Hfl, Ho, HL in HL1. pose proof (lk_nodup _ _ Hlk (VM_FREELIST_DEFAULT, 0%nat)) as Hnd.
    rewrite HL in Hnd. destruct (nodup_split _ _ _ _ _ HL1 Hnd) as [<- <-].
    rewrite (listed_next s L (VM_FREELIST_DEFAULT, 0%nat) V i R n Hlk
      ltac:(simpl; unfold VM_NFREELIST, VM_FREELIST_DEFAULT; lia) ltac:(simpl; lia) HL Hn).
    destruct (IH s1 L1 (i :: V) R total) as (t & s' & Hrun' & HL' & Hrp' & Hle & Htd & Hz); try done.
    + rewrite <- Hfl, <- Ho at 1. by rewrite HL2.
    + rewrite Hsg, Hsame. intros j [->|Hj]%elem_of_cons; [done|by apply Hset].
    + assert (node_used s1 = node_used s) as -> by lia. cbn [length] in Hfuel. lia.
    + exists t, s'. split; [done|]. rewrite Hsg, Hsame in *. split_and!; try done.
      by eapply repacked_trans.
  - assert (VM_FREELIST_DEFAULT < VM_NFREELIST)%nat as Hd by (unfold VM_FREELIST_DEFAULT, VM_NFREELIST; lia).
    destruct (lk_list _ _ (sh_linked _ _ Hsh1) VM_FREELIST_DEFAULT 0 Hd ltac:(lia)) as (h & Hh & Hl).
    apply dll_ptr in Hl as ->.
    erewrite (bindM (free_head _ _)) by (unfold free_head; by rewrite Hh).
    assert (1 <= saturating_add total c <= U64_MAX) as Htot by (unfold saturating_add; ulia).
    destruct (IH s1 L1 [] (zero_list L1) (saturating_add total c))
      as (t & s' & Hrun' & HL' & Hrp' & Hle & Htd & Hz); try done; [set_solver|lia| |].
    + pose proof (length_list_le s1 L1 (VM_FREELIST_DEFAULT, 0%nat) Hsh1). cbn [length] in Hfuel.
      pose proof (Nat.mul_le_mono (node_used s1 + 1) (node_used s) (node_used s1 + 3) (node_used s + 2)). lia.
    + exists t, s'. split; [done|]. split_and!; [done|by eapply repacked_trans| | |lia].
      * unfold saturating_add in Hle. ulia.
      * intros Ht0. rewrite <- Hsg. apply Htd. rewrite Hsg. auto.
Qed.

Lemma reclaim_spec s L :
  shape s L -> exists t s', reclaim_deferred_order0 s = Done (t, s') /\ reclaims s 0 t s'.
Proof.
  intros Hsh. unfold reclaim_deferred_order0.
  assert (VM_FREELIST_DEFAULT < VM_NFREELIST)%nat as Hd by (unfold VM_FREELIST_DEFAULT, VM_NFREELIST; lia).
  destruct (lk_list _ _ (sh_linked _ _ Hsh) VM_FREELIST_DEFAULT 0 Hd ltac:(lia)) as (h & Hh & Hl).
  apply dll_ptr in Hl as ->. erewrite (bindM (free_head _ _)) by (unfold free_head; by rewrite Hh).
  rewrite get_bind.
  destruct (reclaim_loop_spec (reclaim_fuel s) s L [] (zero_list L) 0) as (t & s' & Hrun & [L' Hsh'] & Hrp & Hle & Htd & Hz);
    [done|done|set_solver|unfold U64_MAX; lia| |].
  { pose proof (length_list_le s L (VM_FREELIST_DEFAULT, 0%nat) Hsh). unfold reclaim_fuel. lia. }
  rewrite (bindM _ _ _ _ _ Hrun). destruct (Z.eqb_spec t 0) as [->|Hne].
  - exists 0, s'. split; [done|]. split_and!; try done. by exists L'.
  - rewrite count_bind. eexists t, _. split; [done|]. split_and!; try done; [|by destruct Hrp].
    exists L'. by apply shape_stats.
Qed.
