(* ===== verification/BuddySplit.v ===== *)
(** * Splitting

    A vacant block is cut in halves, one half of which goes to the free lists,
    until it has the wanted order; the block that is left is handed out.  The
    pages of the other halves are free as before, and none of them has a free
    buddy. *)

From stdpp Require Import functions.
From S2P Require Import Prelude Buddy BuddyLinks BuddyBlocks BuddyShape.

(** From the vacant block [i] of order [o] in [s], pieces have been put on the
    free lists to leave the vacant block [i'] of order [o'] in [s']. *)
Record carved (s : BuddyAllocator) (i o k : nat) (seg : BuddySegment)
    (s' : BuddyAllocator) (i' o' : nat) : Prop := {
  cv_shape : exists L', shape s' L';
  cv_fits : fits (segments s) (Z.of_nat i') o' k seg;
  cv_vacant : vacant (blocks s') (Z.of_nat i') o';
  cv_core : core s' = core s;
  cv_pages p : page_free (blocks s) p \/ covers i o p <-> page_free (blocks s') p \/ covers i' o' p;
  cv_held j b : held (blocks s') j b <-> held (blocks s) j b;
  cv_free_sum : sumZ free_size (blocks s) + pow2 o = sumZ free_size (blocks s') + pow2 o';
  cv_held_sum : sumZ held_size (blocks s) = sumZ held_size (blocks s');
  cv_tidy lax : tidy lax (segments s) (blocks s) -> tidy lax (segments s) (blocks s') }.

Lemma carved_refl s L i o k seg :
  shape s L -> fits (segments s) (Z.of_nat i) o k seg -> vacant (blocks s) (Z.of_nat i) o ->
  carved s i o k seg s i o.
Proof. intros. split; try done. by exists L. Qed.

Lemma carved_trans s0 i0 o0 k seg s1 i1 o1 s2 i2 o2 :
  carved s0 i0 o0 k seg s1 i1 o1 -> carved s1 i1 o1 k seg s2 i2 o2 -> carved s0 i0 o0 k seg s2 i2 o2.
Proof.
  intros [] []. pose proof (core_segments _ _ cv_core0) as Hs. rewrite Hs in *. split; try done.
  - congruence.
  - intros p. by rewrite cv_pages0, cv_pages1.
  - intros j b. by rewrite cv_held1, cv_held0.
  - lia.
  - lia.
  - auto.
Qed.

Lemma carved_stats s i o k seg s' i' o' t :
  carved s i o k seg s' i' o' -> free_count_per_order t = free_count_per_order (stats s') ->
  core (set_stats t s') = core s' -> carved s i o k seg (set_stats t s') i' o'.
Proof.
  intros [[L' HL'] ? ? ? ? ? ? ? ?] Ht Hc. split; try done; [exists L'; by apply shape_stats|congruence].
Qed.

(** The halves of an aligned block are buddies. *)
Lemma halves_buddies seg p o :
  (pow2 (S o) | pfn_of seg p) -> is_buddy seg p (p + pow2 o) o.
Proof.
  intros Hd. unfold is_buddy. assert (pfn_of seg (p + pow2 o) = pfn_of seg p + pow2 o) as ->
    by (unfold pfn_of; lia).
  destruct (lxor_buddy (pfn_of seg p) o) as [[_ ->]|[Hd' _]]; [|done|].
  - etrans; [|exact Hd]. apply pow2_divide. lia.
  - exfalso. rewrite pow2_S in *. destruct Hd as [x Hx], Hd' as [y Hy].
    pose proof (pow2_pos o).
    assert (2 * (x - y) = 1) by (apply (Z.mul_reg_r _ _ (pow2 o)); lia). lia.
Qed.

(** One half [q] of a vacant block becomes free, the other half [p] stays vacant. *)
Lemma carve_step s L i o k seg q p :
  shape s L -> fits (segments s) (Z.of_nat i) (S o) k seg -> vacant (blocks s) (Z.of_nat i) (S o) ->
  (p = i /\ Z.of_nat q = Z.of_nat i + pow2 o) \/ (q = i /\ Z.of_nat p = Z.of_nat i + pow2 o) ->
  exists s1 s', new_node (addr_of seg (Z.of_nat q)) o k (fl_type seg) true s = Done (Some (S q), s1) /\
    add_to_free_list (S q) s1 = Done (tt, s') /\ carved s i (S o) k seg s' p o.
Proof.
  intros Hsh Hf Hv Hpq. pose proof (pow2_S o) as HS. pose proof (pow2_pos o) as Hpos.
  assert (fits (segments s) (Z.of_nat q) o k seg) as Hfq.
  { destruct Hpq as [[_ ->]|[-> _]]; [by apply fits_right|by apply fits_left]. }
  assert (fits (segments s) (Z.of_nat p) o k seg) as Hfp.
  { destruct Hpq as [[-> _]|[_ ->]]; [by apply fits_left|by apply fits_right]. }
  assert (vacant (blocks s) (Z.of_nat q) o) as Hvq by (eapply vacant_sub; [exact Hv|lia|lia]).
  assert (is_buddy seg (Z.of_nat q) (Z.of_nat p) o) as Hbud.
  { pose proof (halves_buddies seg (Z.of_nat i) o (proj2 (proj2 (proj2 (proj2 Hf))))) as Hh.
    destruct Hpq as [[-> ->]|[-> ->]]; [by apply buddy_sym|done]. }
  destruct (step_put_free s L Hsh q o k seg Hfq Hvq) as (s1 & s' & H1 & H2 & Hsh' & Hbl & Hcore).
  exists s1, s'. split_and!; [done|done|].
  destruct (block_lookup _ _ Hsh _ _ _ (proj1 Hfq) (fits_in _ _ _ _ _ Hfq)) as [b0 Hb0].
  rewrite Nat2Z.id in Hb0. pose proof (vacant_inactive _ _ _ _ Hvq Hb0) as Hin.
  split; try done; rewrite ?Hbl.
  - by eexists.
  - apply vacant_put; [|simpl; lia]. eapply vacant_sub; [exact Hv|lia|lia].
  - intros x. rewrite (page_free_insert (segments s) _ _ b0) by (done || apply Hsh).
    assert (covers i (S o) x <-> covers q o x \/ covers p o x) as -> by (unfold covers; lia).
    rewrite Hin. simpl. clear. intuition congruence.
  - intros j b. rewrite (held_insert _ _ b0) by done.
    destruct (decide (j = q)) as [->|Hne]; [|clear -Hne; naive_solver].
    split; [intros [(_ & -> & _ & [?|?])|[? _]]; done|]. intros [Hb' [?|?]]; congruence.
  - rewrite (sumZ_insert _ _ _ _ _ Hb0), (proj1 (sizes_inactive _ Hin)), (proj1 (sizes_new _ _ _ _ _)). lia.
  - rewrite (sumZ_insert _ _ _ _ _ Hb0), (proj2 (sizes_inactive _ Hin)), (proj2 (sizes_new _ _ _ _ _)). lia.
  - intros lax Ht. apply (tidy_put lax _ _ _ _ seg Ht); [apply Hfq|]. left.
    intros _ j b Hj Hst _ _ Hbud'. simpl in Hbud'.
    assert (Z.of_nat j = Z.of_nat p) as Hjp by (by eapply buddy_unique). apply Nat2Z.inj in Hjp as ->.
    assert (active b = true) as Ha by (apply active_state; congruence).
    pose proof (Hv _ _ Hj Ha) as Hc. pose proof (pow2_pos (n_order b)). lia.
Qed.

Lemma addr_shift seg p o : addr_of seg p + block_pages o * PAGE_SIZE = addr_of seg (p + pow2 o).
Proof. rewrite block_pages_pow2. unfold addr_of. lia. Qed.

(** The index of the right half of a block. *)
Definition right_of (i o : nat) : nat := (i + Z.to_nat (pow2 o))%nat.

Lemma right_of_Z i o : Z.of_nat (right_of i o) = Z.of_nat i + pow2 o.
Proof. unfold right_of. pose proof (pow2_pos o). lia. Qed.

(** The slots inside a block are not in use. *)
Lemma interior_inactive s L i b seg r :
  shape s L -> blocks s !! i = Some b -> active b = true ->
  fits (segments s) (Z.of_nat i) (n_order b) (n_seg_idx b) seg ->
  Z.of_nat i < Z.of_nat r < Z.of_nat i + pow2 (n_order b) ->
  node_slot_is_inactive s (addr_of seg (Z.of_nat r)) = true.
Proof.
  intros Hsh Hb Ha Hf Hr. pose proof Hf as (Hk & H1 & H2 & _).
  assert (in_seg seg (Z.of_nat r)) as Hin by (unfold in_seg; lia).
  unfold node_slot_is_inactive. rewrite (node_addr_for_hit _ (sh_segs _ _ Hsh) _ _ _ Hk Hin).
  apply bool_decide_true. destruct (block_lookup _ _ Hsh _ _ _ Hk Hin) as [b' Hb']. rewrite Nat2Z.id in Hb'.
  apply lookup_blocks in Hb' as Hn. destruct Hn as (n & Hn & ->). unfold state_at. rewrite Hn.
  destruct (active (erase n)) eqn:Ha'.
  - pose proof (gm_disjoint _ _ (sh_geom _ _ Hsh) i r _ _ Hb Hb' Ha Ha' ltac:(lia)). lia.
  - unfold active in Ha'. by apply negb_false_iff, bool_decide_eq_true in Ha'.
Qed.

Lemma right_slots_ok s L i b seg needed cur :
  shape s L -> blocks s !! i = Some b -> active b = true ->
  fits (segments s) (Z.of_nat i) (n_order b) (n_seg_idx b) seg ->
  (needed <= cur <= n_order b)%nat ->
  right_slots_inactive s needed cur (addr_of seg (Z.of_nat i)) = true.
Proof.
  intros Hsh Hb Ha Hf. revert cur. induction needed as [|needed IH]; intros cur Hc; [done|].
  cbn [right_slots_inactive]. rewrite addr_shift, <- right_of_Z.
  rewrite (interior_inactive s L i b seg); [apply IH; lia|done..|].
  rewrite right_of_Z. pose proof (pow2_pos (cur - 1)). pose proof (pow2_le (S (cur - 1)) (n_order b)) as Hle.
  rewrite pow2_S in Hle. lia.
Qed.

Lemma split_loop_spec k seg i needed s L cur :
  shape s L -> fits (segments s) (Z.of_nat i) cur k seg -> vacant (blocks s) (Z.of_nat i) cur ->
  (needed <= cur)%nat ->
  exists s', split_loop needed cur (addr_of seg (Z.of_nat i)) k (fl_type seg) s = Done (tt, s') /\
    carved s i cur k seg s' i (cur - needed).
Proof.
  revert s L cur. induction needed as [|needed IH]; intros s L cur Hsh Hf Hv Hle.
  { exists s. rewrite Nat.sub_0_r. split; [done|by eapply carved_refl]. }
  destruct cur as [|cur]; [lia|]. cbn [split_loop]. replace (S cur - 1)%nat with cur by lia.
  rewrite addr_shift, <- right_of_Z.
  destruct (carve_step s L i cur k seg (right_of i cur) i Hsh Hf Hv) as (s1 & s2 & H1 & H2 & Hc);
    [left; split; [done|apply right_of_Z]|].
  rewrite (bindM _ _ _ _ _ H1). unfold expect. rewrite ret_bind, (bindM _ _ _ _ _ H2), count_bind.
  set (s3 := set_stats _ s2).
  assert (carved s i (S cur) k seg s3 i cur) as Hc3 by (by apply carved_stats).
  pose proof Hc3 as [[L3 Hsh3] Hf3 Hv3 Hcore3 _ _ _ _ _].
  destruct (IH s3 L3 cur Hsh3) as (s' & Hrun & Hc'); [by rewrite (core_segments _ _ Hcore3)|done|lia|].
  exists s'. split; [done|]. replace (S cur - S needed)%nat with (cur - needed)%nat by lia.
  by eapply carved_trans.
Qed.

(** ** Handing out *)

(** The block [i] of order [o] is handed out, and its pages were free. *)
Record given_out (segs : list BuddySegment) (bl : list BlockNode) (i o : nat) (nb : BlockNode)
    (bl' : list BlockNode) : Prop := {
  go_was_free p : covers i o p -> page_free bl p;
  go_pages p : page_free bl' p <-> page_free bl p /\ ~ covers i o p;
  go_held j b : held bl' j b <-> held bl j b \/ (j = i /\ b = nb);
  go_fresh b : ~ held bl i b;
  go_free_sum : sumZ free_size bl' = sumZ free_size bl - pow2 o;
  go_held_sum : sumZ held_size bl' = sumZ held_size bl + pow2 o;
  go_tidy lax : tidy lax segs bl -> tidy lax segs bl' }.

(** A free block [i] is taken off its list, carved down to the block [i'] of
    order [o'] inside it, and that is handed out. *)
Lemma carved_given s L i b k seg s3 s4 i' o' nb :
  shape s L -> blocks s !! i = Some b -> n_state b = NODE_FREE ->
  blocks s3 = <[i := empty_node]> (blocks s) -> segments s3 = segments s ->
  carved s3 i (n_order b) k seg s4 i' o' ->
  n_state nb = NODE_ALLOCATED -> n_order nb = o' ->
  given_out (segments s) (blocks s) i' o' nb (<[i' := nb]> (blocks s4)).
Proof.
  intros Hsh Hb Hst Hbl3 Hs3 [[L4 Hsh4] Hf4 Hv4 Hcore4 Hpg4 Hh4 Hfs4 Hhs4 Htd4] Hnb Hno.
  rewrite <- (core_segments _ _ Hcore4) in Hf4. rewrite Hbl3 in Hpg4, Hh4, Hfs4, Hhs4, Htd4. rewrite Hs3 in Htd4.
  destruct (block_lookup _ _ Hsh4 _ _ _ (proj1 Hf4) (fits_in _ _ _ _ _ Hf4)) as [b0 Hb0].
  rewrite Nat2Z.id in Hb0. pose proof (vacant_inactive _ _ _ _ Hv4 Hb0) as Hin0.
  assert (i' < length (blocks s4))%nat as Hlt by (by eapply lookup_lt_Some).
  assert (forall p, page_free (blocks s) p <-> page_free (blocks s4) p \/ covers i' o' p) as Hpages.
  { intros p. rewrite <- Hpg4, (page_free_insert (segments s) _ _ b) by (done || apply Hsh).
    assert (covers i (n_order b) p -> page_free (blocks s) p) by (intros; by exists i, b).
    assert (covers i (n_order b) p \/ ~ covers i (n_order b) p) by (unfold covers; lia).
    rewrite Hst. simpl. intuition congruence. }
  assert (forall p, covers i' o' p -> ~ page_free (blocks s4) p) as Hout.
  { intros p Hc (j & b' & Hj & Hst' & Hc'). unfold covers in *.
    pose proof (Hv4 _ _ Hj ltac:(apply active_state; congruence)). lia. }
  assert (forall j b', held (blocks s4) j b' <-> held (blocks s) j b') as Hheld.
  { intros j b'. rewrite Hh4, (held_insert _ _ b) by done.
    destruct (decide (j = i)) as [->|Hne]; [|clear -Hne; naive_solver].
    split; [intros [(_ & -> & _ & [?|?])|[? _]]; done|]. intros [Hb' [?|?]]; congruence. }
  rewrite (sumZ_insert _ _ _ _ _ Hb), (proj1 (sizes_free _ Hst)) in Hfs4.
  rewrite (sumZ_insert _ _ _ _ _ Hb), (proj2 (sizes_free _ Hst)) in Hhs4.
  change (free_size empty_node) with 0 in Hfs4. change (held_size empty_node) with 0 in Hhs4.
  destruct (sizes_held nb) as [Hsf Hsh'']; [by left|]. rewrite Hno in Hsh''.
  split; try rewrite (sumZ_insert _ _ _ _ _ Hb0).
  - intros p Hc. apply Hpages. by right.
  - intros p. rewrite (page_free_insert (segments s4) _ _ b0) by (done || apply Hsh4).
    rewrite Hpages, Hin0, Hnb. specialize (Hout p). clear -Hout. intuition congruence.
  - intros j b'. rewrite (held_insert _ _ b0), <- Hheld by done.
    assert (held (<[i' := nb]> (blocks s4)) i' nb) by (split; [by apply list_lookup_insert_eq|by left]).
    destruct (decide (j = i')) as [->|Hne]; [|clear -Hne; naive_solver].
    split; [intros [(_ & -> & _)|[? _]]; [by right|done]|].
    intros [[Hb' [?|?]]|[_ ->]]; [congruence|congruence|by left].
  - intros b' [Hb' [?|?]]%Hheld; congruence.
  - rewrite (proj1 (sizes_inactive _ Hin0)), Hsf. lia.
  - rewrite (proj2 (sizes_inactive _ Hin0)), Hsh''. lia.
  - intros lax Ht. eapply tidy_sub; [|apply Htd4; eapply tidy_sub; [|exact Ht]].
    + intros j b' [(_ & <- & _)|[_ Hj]]%list_lookup_insert_Some ?; congruence.
    + intros j b' [(_ & <- & _)|[_ Hj]]%list_lookup_insert_Some ?; done.
Qed.

(** An allocation, with the counters. *)
Record handed_out (s : BuddyAllocator) (i o k : nat) (seg : BuddySegment) (s' : BuddyAllocator) : Prop := {
  ho_shape : exists L', shape s' L';
  ho_fits : fits (segments s) (Z.of_nat i) o k seg;
  ho_segments : segments s' = segments s;
  ho_initialized : initialized s' = initialized s;
  ho_given : given_out (segments s) (blocks s) i o
    (block_node (addr_of seg (Z.of_nat i)) o k (fl_type seg) false) (blocks s');
  ho_total : st_total_pages (stats s') = st_total_pages (stats s);
  ho_reserved : reserved_pages (stats s') = reserved_pages (stats s);
  ho_free : free_pages_count (stats s') = saturating_sub (free_pages_count (stats s)) (pow2 o);
  ho_allocated : allocated_pages (stats s') = allocated_pages (stats s) + pow2 o }.

(** The end of both allocations: mark the block, adjust the counters. *)
Definition hand_out (a : Z) (o k fl : nat) : M (option Z) :=
  allocated ← new_node a o k fl false;
  expect allocated;;
  map_stats (fun t => set_allocated (allocated_pages t + block_pages o) t);;
  map_stats (fun t => set_free (saturating_sub (free_pages_count t) (block_pages o)) t);;
  mret (Some a).

Lemma hand_out_spec s L i b k seg s3 s4 i' o' :
  shape s L -> blocks s !! i = Some b -> n_state b = NODE_FREE ->
  blocks s3 = <[i := empty_node]> (blocks s) -> core s3 = core s ->
  carved s3 i (n_order b) k seg s4 i' o' ->
  exists s', hand_out (addr_of seg (Z.of_nat i')) o' k (fl_type seg) s4 =
      Done (Some (addr_of seg (Z.of_nat i')), s') /\ handed_out s i' o' k seg s'.
Proof.
  intros Hsh Hb Hst Hbl3 Hcore3 Hcv. pose proof Hcv as [[L4 Hsh4] Hf4 Hv4 Hcore4 _ _ _ _ _].
  pose proof (core_segments _ _ Hcore3) as Hs3. pose proof (core_segments _ _ Hcore4) as Hs4.
  rewrite <- Hs4 in Hf4.
  destruct (step_put_alloc s4 L4 Hsh4 i' o' k seg Hf4 Hv4) as (s5 & H5 & Hsh5 & Hbl5 & Hcore5).
  assert (core s5 = core s) as Hcore by congruence.
  unfold hand_out. rewrite (bindM _ _ _ _ _ H5). unfold expect. rewrite ret_bind, !map_stats_bind.
  eexists. split; [done|]. split.
  - exists L4. eapply shape_stats; [eapply shape_stats; [exact Hsh5|done]|done].
  - by rewrite Hs4, Hs3 in Hf4.
  - apply (core_segments _ _ Hcore).
  - apply (core_initialized _ _ Hcore).
  - change (blocks (set_stats _ (set_stats _ s5))) with (blocks s5). rewrite Hbl5.
    by eapply (carved_given s L i b k seg s3 s4).
  - apply (core_total _ _ Hcore).
  - apply (core_reserved _ _ Hcore).
  - simpl. by rewrite block_pages_pow2, (core_free _ _ Hcore).
  - simpl. by rewrite block_pages_pow2, (core_allocated _ _ Hcore).
Qed.

Lemma allocate_from_free_node_spec s L i b target :
  shape s L -> blocks s !! i = Some b -> n_state b = NODE_FREE -> (target <= n_order b)%nat ->
  exists s' seg, allocate_from_free_node (S i) target s = Done (Some (n_start b), s') /\
    n_start b = addr_of seg (Z.of_nat i) /\ handed_out s i target (n_seg_idx b) seg s'.
Proof.
  intros Hsh Hb Hst Ht. assert (active b = true) as Ha by (apply active_state; congruence).
  destruct (block_fits _ _ Hsh _ _ Hb Ha) as (seg & Hf & Hseg & Hstart & Hfl).
  apply lookup_blocks in Hb as Hn. destruct Hn as (n & Hn & Hbn).
  destruct (step_take_free s L Hsh i b Hb Hst)
    as (s1 & s2 & s3 & l1 & l2 & H1 & H2 & H3 & HL & Hsh3 & Hbl3 & Hcore3 & Hv3).
  destruct (split_loop_spec (n_seg_idx b) seg i (n_order b - target) s3 _ (n_order b) Hsh3)
    as (s4 & H4 & Hc4); [by rewrite (core_segments _ _ Hcore3)|done|lia|].
  replace (n_order b - (n_order b - target))%nat with target in Hc4 by lia.
  destruct (hand_out_spec s L i b (n_seg_idx b) seg s3 s4 i target Hsh Hb Hst Hbl3 Hcore3 Hc4)
    as (s' & H5 & Hho).
  exists s', seg. split_and!; [|done|done]. unfold allocate_from_free_node.
  rewrite (bindM _ _ _ _ _ (node_ref_ok _ _ _ Hn)).
  assert (n_order n = n_order b /\ n_state n = n_state b /\ n_seg_idx n = n_seg_idx b /\
    n_fl_type n = n_fl_type b /\ n_start n = n_start b) as (-> & -> & -> & -> & ->) by (by subst b).
  destruct (Nat.ltb_spec (n_order b) target); [lia|]. rewrite bool_decide_true by done. simpl.
  rewrite get_bind, Hstart, (right_slots_ok s L i b seg) by (done || lia). cbn [negb].
  rewrite (bindM _ _ _ _ _ H1). cbn [negb].
  rewrite (bindM _ _ _ _ _ H2), (bindM _ _ _ _ _ H3), Hfl, (bindM _ _ _ _ _ H4). exact H5.
Qed.
