(* ===== verification/BuddyAlloc.v ===== *)
(** * Allocation

    The search for a free block: along one list, over the orders of a zone, over
    the zones with a round of deferred merging in between.  A block is found
    whenever there is one, and on a tidy allocator whenever an aligned run of
    free pages of the wanted size exists at all. *)

From stdpp Require Import functions.
From S2P Require Import Prelude Buddy BuddyLinks BuddyBlocks BuddyShape.
From S2P Require Import BuddyProofs BuddySplit.

(** ** Runs of free pages *)

Lemma block_pages_aligned s L i b seg :
  shape s L -> blocks s !! i = Some b -> active b = true -> segments s !! n_seg_idx b = Some seg ->
  fits (segments s) (Z.of_nat i) (n_order b) (n_seg_idx b) seg.
Proof.
  intros Hsh Hb Ha Hseg. destruct (block_fits _ _ Hsh _ _ Hb Ha) as (seg' & Hf & _).
  destruct Hf as (Hk & Hf). simplify_eq. by split.
Qed.

(** A free run of one page lies in a free block of the same segment. *)
Lemma page_covered s L p k seg :
  shape s L -> segments s !! k = Some seg -> in_seg seg p -> page_free (blocks s) p ->
  exists j b, blocks s !! j = Some b /\ n_state b = NODE_FREE /\ n_seg_idx b = k /\
    fits (segments s) (Z.of_nat j) (n_order b) k seg /\ covers j (n_order b) p.
Proof.
  intros Hsh Hk Hp (j & b & Hb & Hst & Hc). exists j, b.
  destruct (block_fits _ _ Hsh _ _ Hb) as (seg' & Hf & _ & _ & _); [by apply active_state; congruence|].
  assert (in_seg seg' p) as Hp'.
  { destruct Hf as (_ & H1 & H2 & _). unfold in_seg, covers in *. lia. }
  pose proof Hf as (Hk' & _).
  assert (n_seg_idx b = k) as Heq by (by eapply (in_seg_inj _ _ (sh_segs _ _ Hsh))).
  rewrite Heq in *. simplify_eq. done.
Qed.

Lemma nested_in seg i o j m :
  (pow2 m | pfn_of seg j) -> (pow2 o | pfn_of seg i) -> (o <= m)%nat ->
  (exists p, (i <= p < i + pow2 o) /\ (j <= p < j + pow2 m)) ->
  j <= i /\ i + pow2 o <= j + pow2 m.
Proof.
  intros Hj Hi Hm (p & H1 & H2).
  destruct (aligned_nested _ _ _ _ Hm Hj Hi) as [? ?]; unfold pfn_of in *; lia.
Qed.

(** Enough is merged for the free runs of order [o] of the zone to be whole blocks. *)
Definition runs_merged (s : BuddyAllocator) (o fl : nat) : Prop :=
  exists lax, tidy lax (segments s) (blocks s) /\
    (lax = false \/ o = 0%nat \/ fl <> VM_FREELIST_DEFAULT).

(** On a tidy allocator an aligned run of free pages lies in one free block. *)
Lemma run_covered s L o i k seg :
  shape s L -> runs_merged s o (fl_type seg) ->
  fits (segments s) i o k seg -> (forall p, i <= p < i + pow2 o -> page_free (blocks s) p) ->
  exists j b, blocks s !! j = Some b /\ n_state b = NODE_FREE /\ n_seg_idx b = k /\
    (o <= n_order b)%nat /\ fits (segments s) (Z.of_nat j) (n_order b) k seg /\
    Z.of_nat j <= i /\ i + pow2 o <= Z.of_nat j + pow2 (n_order b).
Proof.
  intros Hsh (lax & Ht & Hlax). revert i. induction o as [|o IH]; intros i Hf Hfree.
  { destruct (page_covered s L i k seg Hsh (proj1 Hf) (fits_in _ _ _ _ _ Hf)) as (j & b & H1 & H2 & H3 & H4 & H5).
    - apply Hfree. rewrite pow2_0. lia.
    - exists j, b. unfold covers in H5. rewrite pow2_0. split_and!; try done; lia. }
  assert (lax = false \/ fl_type seg <> VM_FREELIST_DEFAULT) as Hl by (clear -Hlax; intuition congruence).
  assert (lax = false \/ o = 0%nat \/ fl_type seg <> VM_FREELIST_DEFAULT) as Hl' by (clear -Hl; tauto).
  pose proof (pow2_pos o) as Hpos. pose proof (pow2_S o) as HS.
  destruct (IH Hl' i (fits_left _ _ _ _ _ Hf)) as (j1 & b1 & H1 & H2 & H3 & H4 & H5 & H6 & H7);
    [intros; apply Hfree; lia|].
  destruct (IH Hl' (i + pow2 o) (fits_right _ _ _ _ _ Hf))
    as (j2 & b2 & K1 & K2 & K3 & K4 & K5 & K6 & K7); [intros; apply Hfree; lia|].
  pose proof Hf as (Hk & _ & _ & Hmax & Hal).
  destruct (decide (S o <= n_order b1)%nat) as [Hge|Hlt].
  { exists j1, b1. split_and!; try done; eapply (nested_in seg i (S o)); try done; try apply H5; exists i; lia. }
  destruct (decide (S o <= n_order b2)%nat) as [Hge2|Hlt2].
  { exists j2, b2. split_and!; try done; eapply (nested_in seg i (S o)); try done; try apply K5; exists (i + pow2 o); lia. }
  exfalso. assert (n_order b1 = o /\ n_order b2 = o) as [Ho1 Ho2] by lia. rewrite Ho1 in *. rewrite Ho2 in *.
  assert (Z.of_nat j1 = i /\ Z.of_nat j2 = i + pow2 o) as [Hj1 Hj2] by lia.
  destruct (Ht j1 j2 b1 b2 seg) as (? & _ & ?); try congruence; [lia| |by destruct Hl; congruence].
  rewrite Ho1, Hj1, Hj2. by apply halves_buddies.
Qed.

(** ** The search *)

Definition numa_ok (segs : list BuddySegment) (numa : option Z) (k : nat) : Prop :=
  match numa with
  | None => True
  | Some e => exists seg, segs !! k = Some seg /\ numa_node_id seg = Some e
  end.

(** A block is handed out of the zone [fl] and the NUMA node. *)
Definition found (s : BuddyAllocator) (o fl : nat) (numa : option Z) (a : Z) (s' : BuddyAllocator) : Prop :=
  exists i k seg, a = addr_of seg (Z.of_nat i) /\ handed_out s i o k seg s' /\
    fl_type seg = fl /\ numa_ok (segments s) numa k.

(** No free block of the zone and the NUMA node is large enough. *)
Definition none_free (o fl : nat) (numa : option Z) (segs : list BuddySegment) (bl : list BlockNode)
    : Prop :=
  forall i b, bl !! i = Some b -> n_state b = NODE_FREE -> n_fl_type b = fl ->
    (o <= n_order b)%nat -> numa_ok segs numa (n_seg_idx b) -> False.

Lemma zone_scan_spec s L fl cur o numa V R room :
  shape s L -> (fl < VM_NFREELIST)%nat -> (cur <= MAX_TRACKED_ORDER)%nat -> (o <= cur)%nat ->
  L (fl, cur) = V ++ R -> (length R <= room)%nat ->
  (exists a s', zone_scan room (ptr_of R) o numa s = Done (Some a, s') /\ found s o fl numa a s') \/
  (zone_scan room (ptr_of R) o numa s = Done (None, s) /\
   forall i b, i ∈ R -> blocks s !! i = Some b -> ~ numa_ok (segments s) numa (n_seg_idx b)).
Proof.
  intros Hsh Hfl Hcur Ho. revert V R. induction room as [|room IH]; intros V R HL Hlen;
    (destruct R as [|i R]; [right; split; [done|set_solver]|]); [simpl in Hlen; lia|].
  cbn [zone_scan ptr_of Nat.eqb]. pose proof (sh_linked _ _ Hsh) as Hlk.
  assert (i ∈ L (fl, cur)) as Hi by (rewrite HL; set_solver).
  apply (lk_elem _ _ Hlk) in Hi as (b & Hb & Hst & [= Hbfl Hbo]).
  apply lookup_blocks in Hb as Hn. destruct Hn as (n & Hn & Hbn).
  rewrite (bindM _ _ _ _ _ (node_ref_ok _ _ _ Hn)), get_bind.
  assert (n_seg_idx n = n_seg_idx b) as -> by (by subst b).
  rewrite (listed_next s L (fl, cur) V i R n Hlk Hfl Hcur HL Hn).
  set (m := match numa with None => true | Some expected => _ end).
  assert (if m then numa_ok (segments s) numa (n_seg_idx b)
          else ~ numa_ok (segments s) numa (n_seg_idx b)) as Hm.
  { unfold m, numa_ok, segment. destruct numa as [e|]; [|done].
    destruct (segments s !! n_seg_idx b) as [seg|]; [|naive_solver].
    case_bool_decide; naive_solver. }
  destruct m; cbn [negb].
  - destruct (allocate_from_free_node_spec s L i b o Hsh Hb Hst ltac:(lia)) as (s' & seg & Hrun & Ha & Hho).
    rewrite (bindM _ _ _ _ _ Hrun). left. exists (n_start b), s'. split; [done|].
    exists i, (n_seg_idx b), seg. split_and!; try done.
    destruct (block_fits _ _ Hsh _ _ Hb) as (seg' & [Hk _] & _ & _ & Hfl'); [apply active_state; congruence|].
    destruct (ho_fits _ _ _ _ _ _ Hho) as [Hk' _]. congruence.
  - destruct (IH (V ++ [i]) R) as [Hf|[Hrun Hno]]; [by rewrite <- app_assoc|simpl in Hlen; lia|by left|].
    right. split; [done|]. intros j b' [->|Hj]%elem_of_cons Hb'; [|by eapply Hno]. congruence.
Qed.

Lemma zone_orders_spec s L fl o numa n cur :
  shape s L -> (fl < VM_NFREELIST)%nat -> (o <= cur)%nat -> (cur + n <= S MAX_TRACKED_ORDER)%nat ->
  (exists a s', zone_orders n cur o fl numa s = Done (Some a, s') /\ found s o fl numa a s') \/
  (zone_orders n cur o fl numa s = Done (None, s) /\
   forall i b, blocks s !! i = Some b -> n_state b = NODE_FREE -> n_fl_type b = fl ->
     (cur <= n_order b < cur + n)%nat -> ~ numa_ok (segments s) numa (n_seg_idx b)).
Proof.
  intros Hsh Hfl. revert cur. induction n as [|n IH]; intros cur Ho Hn.
  { right. split; [done|]. intros. lia. }
  pose proof (sh_linked _ _ Hsh) as Hlk. cbn [zone_orders].
  destruct (lk_list _ _ Hlk fl cur Hfl ltac:(lia)) as (h & Hh & Hl). apply dll_ptr in Hl as ->.
  erewrite (bindM (free_head _ _)) by (unfold free_head; by rewrite Hh).
  pose proof (lk_count _ _ Hlk cur ltac:(lia)) as Hc.
  erewrite (bindM (free_count _)) by (unfold free_count; by rewrite Hc).
  destruct (zone_scan_spec s L fl cur o numa [] (L (fl, cur))
    (length (L (VM_FREELIST_DEFAULT, cur)) + length (L (VM_FREELIST_DMA, cur))) Hsh Hfl ltac:(lia) Ho eq_refl)
    as [(a & s' & Hrun & Hf)|[Hrun Hno]].
  { unfold VM_NFREELIST, VM_FREELIST_DEFAULT, VM_FREELIST_DMA in *.
    assert (fl = 0 \/ fl = 1)%nat as [->| ->] by lia; lia. }
  - left. rewrite (bindM _ _ _ _ _ Hrun). by exists a, s'.
  - rewrite (bindM _ _ _ _ _ Hrun). destruct (IH (S cur)) as [Hf|[Hrun' Hno']]; [lia|lia|by left|].
    right. split; [done|]. intros i b Hb Hst Hbfl Hbo.
    destruct (decide (n_order b = cur)) as [Heq|]; [|apply (Hno' i); try done; lia].
    apply (Hno i); [|done]. apply (lk_elem _ _ Hlk). exists b. split_and!; [done|done|congruence].
Qed.

Lemma alloc_zone_spec s L o fl numa :
  shape s L -> (fl < VM_NFREELIST)%nat -> (o <= MAX_TRACKED_ORDER)%nat ->
  (exists a s', alloc_from_zone_matching o fl numa s = Done (Some a, s') /\ found s o fl numa a s') \/
  (alloc_from_zone_matching o fl numa s = Done (None, s) /\ none_free o fl numa (segments s) (blocks s)).
Proof.
  intros Hsh Hfl Ho. unfold alloc_from_zone_matching.
  destruct (zone_orders_spec s L fl o numa (S MAX_TRACKED_ORDER - o) o Hsh Hfl ltac:(lia) ltac:(lia))
    as [Hf|[Hrun Hno]]; [by left|]. right. split; [done|].
  intros i b Hb Hst Hbfl Hbo. apply (Hno i b); try done. split; [done|].
  pose proof (lk_range _ _ (sh_linked _ _ Hsh) i b Hb Hst). lia.
Qed.

(** ** The invariant *)

Lemma binv_repacked s s' : binv s -> (exists L, shape s' L) -> repacked s s' -> binv s'.
Proof.
  intros [[[L Hsh] H1 H2 H3 H4] H5] [L' Hsh'] [].
  pose proof (shape_capacity _ _ _ _ Hsh Hsh' (core_segments _ _ rp_core)) as Hcap. split; [split|].
  - by exists L'.
  - by rewrite (core_free _ _ rp_core), rp_free_sum.
  - by rewrite (core_allocated _ _ rp_core), rp_held_sum.
  - by rewrite (core_total _ _ rp_core), Hcap.
  - rewrite (core_initialized _ _ rp_core), (core_reserved _ _ rp_core), Hcap, rp_free_sum, rp_held_sum. done.
  - intros i b Hb. apply rp_held in Hb. by eapply H5.
Qed.

Lemma repacked_events s v : repacked s (set_stats (set_events v (stats s)) s).
Proof. by split. Qed.

Lemma binv_events s v : binv s -> binv (set_stats (set_events v (stats s)) s).
Proof.
  intros Hinv. apply (binv_repacked s); [done| |apply repacked_events].
  destruct (bi_shape _ Hinv) as [L Hsh]. exists L. by apply shape_stats.
Qed.

Lemma binv_handed s i o k seg s' : binv s -> handed_out s i o k seg s' -> binv s'.
Proof.
  intros [[[L Hsh] H1 H2 H3 H4] H5] [[L' Hsh'] Hf Hs Hin [] Ht Hr Hfr Hal].
  pose proof (shape_capacity _ _ _ _ Hsh Hsh' Hs) as Hcap.
  assert (0 <= sumZ free_size (blocks s')) by (apply sumZ_nonneg; intros; apply free_size_nonneg).
  split; [split|].
  - by exists L'.
  - rewrite Hfr. unfold saturating_sub. lia.
  - rewrite Hal. lia.
  - congruence.
  - rewrite Hin, Hr, Hcap. intros Hi. rewrite (H4 Hi). lia.
  - intros j b Hb. apply go_held in Hb as [Hb|[-> ->]]; [by eapply H5|]. simpl. unfold U16_MAX. lia.
Qed.

(** The block [i] of order [o], in the segment [k], is handed out: its pages were
    free, no other page and no other block changes. *)
Record allocated (s : BuddyAllocator) (i o k : nat) (seg : BuddySegment) (s' : BuddyAllocator) : Prop := {
  al_fits : fits (segments s) (Z.of_nat i) o k seg;
  al_was_free p : covers i o p -> page_free (blocks s) p;
  al_fresh b : ~ held (blocks s) i b;
  al_pages p : page_free (blocks s') p <-> page_free (blocks s) p /\ ~ covers i o p;
  al_held j b : held (blocks s') j b <-> held (blocks s) j b \/
    (j = i /\ b = block_node (addr_of seg (Z.of_nat i)) o k (fl_type seg) false) }.

Lemma allocated_repacked s s1 i o k seg s' :
  repacked s s1 -> handed_out s1 i o k seg s' -> allocated s i o k seg s'.
Proof.
  intros [Hcore Hp Hh _ _] [_ Hf _ _ [Hwas Hpg Hhd Hfr _ _ _] _ _ _ _].
  rewrite (core_segments _ _ Hcore) in Hf. split.
  - done.
  - intros p Hc. by apply Hp, Hwas.
  - intros b Hb. apply (Hfr b). by apply Hh.
  - intros p. by rewrite Hpg, Hp.
  - intros j b. by rewrite Hhd, Hh.
Qed.

(** An operation ends well: the invariant holds, the segments are the same, and
    no buddies are left unmerged but those that may be. *)
Record keeps (s s' : BuddyAllocator) : Prop := {
  kp_inv : binv s';
  kp_segments : segments s' = segments s;
  kp_initialized : initialized s' = initialized s;
  kp_tidy : tidy true (segments s) (blocks s) -> tidy true (segments s) (blocks s') }.

Lemma keeps_handed s s1 i o k seg s' :
  keeps s s1 -> handed_out s1 i o k seg s' -> keeps s s'.
Proof.
  intros [Hi Hs Hn Ht] Hho. pose proof (binv_handed _ _ _ _ _ _ Hi Hho) as Hinv.
  destruct Hho as [_ _ Hs' Hn' [] _ _ _ _]. split; [done|congruence|congruence|].
  intros H. rewrite <- Hs. apply go_tidy. rewrite Hs. by apply Ht.
Qed.

(** [reclaimed_if]: the pages are the same, and when merging was tried no free
    buddies are left; a negative answer means nothing changed. *)
Lemma reclaimed_if_spec s cond :
  binv s ->
  exists again s', reclaimed_if cond s = Done (again, s') /\ keeps s s' /\ repacked s s' /\
    (again = false -> blocks s' = blocks s) /\
    (cond = true -> tidy true (segments s) (blocks s) -> tidy false (segments s) (blocks s')).
Proof.
  intros Hinv. unfold reclaimed_if. destruct cond.
  2: { exists false, s. split_and!; [done|by split|apply repacked_refl|done|done]. }
  destruct (bi_shape _ Hinv) as [L Hsh].
  destruct (reclaim_spec s L Hsh) as (t & s' & Hrun & HL' & Hrp & Hle & Htd & Hz).
  rewrite (bindM _ _ _ _ _ Hrun). exists (negb (t =? 0)), s'. split_and!; [done| |done| |done].
  - split; [by eapply binv_repacked|apply (core_segments _ _ (rp_core _ _ Hrp))|
      apply (core_initialized _ _ (rp_core _ _ Hrp))|]. intros Ht. by apply tidy_lax, Htd.
  - intros Ht%negb_false_iff%Z.eqb_eq. by apply Hz.
Qed.

(** No aligned run of [2^o] free pages in the zone and the NUMA node. *)
Definition no_run (s : BuddyAllocator) (o fl : nat) (numa : option Z) : Prop :=
  forall p k seg, fits (segments s) p o k seg -> fl_type seg = fl -> numa_ok (segments s) numa k ->
    ~ forall q, p <= q < p + pow2 o -> page_free (blocks s) q.

Lemma none_free_no_run s o fl numa :
  binv s -> runs_merged s o fl -> none_free o fl numa (segments s) (blocks s) -> no_run s o fl numa.
Proof.
  intros Hinv Ht Hno p k seg Hf <- Hn Hall. destruct (bi_shape _ Hinv) as [L Hsh].
  destruct (run_covered s L o p k seg Hsh Ht Hf Hall) as (j & b & Hb & Hst & Hk & Ho & Hfb & _).
  apply (Hno j b Hb Hst); [|done|by rewrite Hk].
  destruct (block_fits _ _ Hsh _ _ Hb) as (seg' & [Hk' _] & _ & _ & Hfl'); [apply active_state; congruence|].
  destruct Hfb as [Hk2 _]. congruence.
Qed.

Lemma no_run_repacked s s' o fl numa :
  repacked s s' -> no_run s' o fl numa -> no_run s o fl numa.
Proof.
  intros [Hcore Hp _ _ _] Hno p k seg Hf Hfl Hn Hall. pose proof (core_segments _ _ Hcore) as Hs.
  apply (Hno p k seg); rewrite ?Hs; try done. intros q Hq. by apply Hp, Hall.
Qed.

Lemma zone_lt fl : (fl < VM_NFREELIST)%nat <-> fl = VM_FREELIST_DEFAULT \/ fl = VM_FREELIST_DMA.
Proof. unfold VM_NFREELIST, VM_FREELIST_DEFAULT, VM_FREELIST_DMA. lia. Qed.

(** An attempt that hands out a block or fails for a reason [P] and changes
    nothing, where [P] depends on the blocks only. *)
Lemma retry_spec s cond attempt (Q : nat -> nat -> BuddySegment -> Prop)
    (P : list BuddySegment -> list BlockNode -> Prop) o :
  binv s ->
  (forall s1, binv s1 -> segments s1 = segments s ->
     (exists i k seg s', attempt s1 = Done (Some (addr_of seg (Z.of_nat i)), s') /\
        handed_out s1 i o k seg s' /\ Q i k seg) \/
     (attempt s1 = Done (None, s1) /\ P (segments s1) (blocks s1))) ->
  exists r s', retry_reclaimed cond attempt s = Done (r, s') /\ keeps s s' /\
    match r with
    | Some a => exists i k seg, a = addr_of seg (Z.of_nat i) /\ allocated s i o k seg s' /\ Q i k seg
    | None => repacked s s' /\ P (segments s') (blocks s') /\
        (cond = true -> tidy true (segments s) (blocks s) -> tidy false (segments s) (blocks s'))
    end.
Proof.
  intros Hinv Hatt. unfold retry_reclaimed.
  destruct (Hatt s Hinv eq_refl) as [(i & k & seg & s' & Hrun & Hho & HQ)|[Hrun HP]];
    rewrite (bindM _ _ _ _ _ Hrun).
  { eexists _, s'. split; [done|]. split; [eapply keeps_handed; [by split|done]|].
    exists i, k, seg. split_and!; try done. eapply allocated_repacked; [apply repacked_refl|done]. }
  destruct (reclaimed_if_spec s cond Hinv) as (again & s1 & Hrun1 & Hk & Hrp & Hsame & Htd).
  rewrite (bindM _ _ _ _ _ Hrun1). pose proof (core_segments _ _ (rp_core _ _ Hrp)) as Hs.
  destruct again.
  - destruct (Hatt s1 (kp_inv _ _ Hk) Hs) as [(i & k & seg & s' & Hrun' & Hho & HQ)|[Hrun' HP']]; rewrite Hrun'.
    + eexists _, s'. split; [done|]. split; [by eapply keeps_handed|].
      exists i, k, seg. split_and!; try done. by eapply allocated_repacked.
    + exists None, s1. by split_and!.
  - exists None, s1. split_and!; try done. by rewrite Hs, Hsame.
Qed.

Lemma zone_attempt s o fl numa :
  binv s -> (fl < VM_NFREELIST)%nat -> (o <= MAX_TRACKED_ORDER)%nat ->
  (exists i k seg s', alloc_from_zone_matching o fl numa s = Done (Some (addr_of seg (Z.of_nat i)), s') /\
     handed_out s i o k seg s' /\ fl_type seg = fl /\ numa_ok (segments s) numa k) \/
  (alloc_from_zone_matching o fl numa s = Done (None, s) /\ none_free o fl numa (segments s) (blocks s)).
Proof.
  intros Hinv Hfl Ho. destruct (bi_shape _ Hinv) as [L Hsh].
  destruct (alloc_zone_spec s L o fl numa Hsh Hfl Ho) as [(a & s' & Hrun & i & k & seg & -> & Hho & Hseg & Hn)|?];
    [|by right]. left. by exists i, k, seg, s'.
Qed.

Lemma keeps_refl s : binv s -> keeps s s.
Proof. by split. Qed.

Lemma keeps_trans s1 s2 s3 : keeps s1 s2 -> keeps s2 s3 -> keeps s1 s3.
Proof.
  intros [] []. split; [done|congruence|congruence|]. intros Ht. rewrite <- kp_segments0. apply kp_tidy1.
  rewrite kp_segments0. auto.
Qed.

Lemma keeps_events s v : binv s -> keeps s (set_stats (set_events v (stats s)) s).
Proof. intros. split; [by apply binv_events|done|done|done]. Qed.

(** ** Allocation *)

(** What an allocation does: the block is free before, in one of the zones and
    of the NUMA node, and the only change; or nothing is allocated, and then no
    aligned run of that many free pages was there. *)
Definition alloc_outcome (s : BuddyAllocator) (o : nat) (zone : nat -> Prop) (numa : option Z)
    (r : option Z) (s' : BuddyAllocator) : Prop :=
  keeps s s' /\
  match r with
  | Some a => exists i k seg, a = addr_of seg (Z.of_nat i) /\ allocated s i o k seg s' /\
      zone (fl_type seg) /\ numa_ok (segments s) numa k
  | None => repacked s s' /\
      (tidy true (segments s) (blocks s) -> forall fl, zone fl -> no_run s o fl numa)
  end.

Lemma allocated_after s s0 i o k seg s' :
  repacked s s0 -> allocated s0 i o k seg s' -> allocated s i o k seg s'.
Proof.
  intros [Hcore Hp Hh _ _] []. rewrite (core_segments _ _ Hcore) in *. split; try done.
  - intros p Hc. by apply Hp, al_was_free0.
  - intros b Hb. by apply (al_fresh0 b), Hh.
  - intros p. by rewrite al_pages0, Hp.
  - intros j b. by rewrite al_held0, Hh.
Qed.

Lemma outcome_after s s0 o zone numa r s' :
  keeps s s0 -> repacked s s0 -> alloc_outcome s0 o zone numa r s' -> alloc_outcome s o zone numa r s'.
Proof.
  intros Hk Hrp [Hk' Hr]. split; [by eapply keeps_trans|].
  pose proof (core_segments _ _ (rp_core _ _ Hrp)) as Hs. destruct r as [a|].
  - destruct Hr as (i & k & seg & Ha & Hal & Hz & Hn). exists i, k, seg. rewrite <- Hs.
    split_and!; try done. by eapply allocated_after.
  - destruct Hr as [Hrp' Hno]. split; [by eapply repacked_trans|]. intros Ht fl Hz.
    apply (no_run_repacked s s0); [done|]. apply Hno; [|done]. rewrite Hs. by apply Hk.
Qed.

(** Orders no segment has. *)
Lemma no_run_order s o fl numa : binv s -> (MAX_TRACKED_ORDER < o)%nat -> no_run s o fl numa.
Proof.
  intros Hinv Ho p k seg (Hk & _ & _ & Hm & _). destruct (bi_shape _ Hinv) as [L Hsh].
  pose proof (so_max _ (sg_ok _ _ (sh_segs _ _ Hsh) _ _ Hk)). lia.
Qed.

Lemma outcome_order s o zone numa :
  binv s -> (MAX_TRACKED_ORDER < o)%nat -> alloc_outcome s o zone numa None s.
Proof.
  intros. split; [by apply keeps_refl|]. split; [apply repacked_refl|]. intros. by apply no_run_order.
Qed.

(** One zone, with the retry. *)
Lemma zone_retry s o fl numa cond :
  binv s -> (fl < VM_NFREELIST)%nat -> (o <= MAX_TRACKED_ORDER)%nat ->
  cond = true \/ o = 0%nat \/ fl <> VM_FREELIST_DEFAULT ->
  exists r s', retry_reclaimed cond (alloc_from_zone_matching o fl numa) s = Done (r, s') /\
    alloc_outcome s o (eq fl) numa r s'.
Proof.
  intros Hinv Hfl Ho Hcond.
  destruct (retry_spec s cond (alloc_from_zone_matching o fl numa)
    (fun _ k seg => fl = fl_type seg /\ numa_ok (segments s) numa k) (none_free o fl numa) o Hinv)
    as (r & s' & Hrun & Hk & Hr).
  { intros s1 Hinv1 Hs1. rewrite <- Hs1.
    destruct (zone_attempt s1 o fl numa Hinv1 Hfl Ho) as [(i & k & seg & s' & ? & ? & ? & ?)|?]; [|by right].
    left. by exists i, k, seg, s'. }
  exists r, s'. split; [done|]. split; [done|]. destruct r as [a|]; [done|].
  destruct Hr as (Hrp & Hno & Htd). split; [done|]. intros Ht fl' <-.
  apply (no_run_repacked s s'); [done|]. apply none_free_no_run; [apply Hk| |done].
  rewrite (kp_segments _ _ Hk) in *. destruct Hcond as [Hc|Hc].
  - exists false. rewrite (kp_segments _ _ Hk). auto.
  - exists true. rewrite (kp_segments _ _ Hk). split; [by apply Hk|]. by right.
Qed.

Lemma retry_never attempt s : retry_reclaimed false attempt s = attempt s.
Proof. unfold retry_reclaimed, mbind, M_bind. by destruct (attempt s) as [[[a|] s1]|]. Qed.

(** A search that failed, with the failure counted. *)
Lemma outcome_failed s o zone numa s' v :
  alloc_outcome s o zone numa None s' ->
  alloc_outcome s o zone numa None (set_stats (set_events v (stats s')) s').
Proof.
  intros (Hk & Hrp & Hno). split; [|split; [|done]].
  - eapply keeps_trans; [done|]. by apply keeps_events, Hk.
  - eapply repacked_trans; [done|]. apply repacked_events.
Qed.

Lemma alloc_any_zone_spec s o numa :
  binv s -> initialized s = true ->
  exists r s', alloc_any_zone o numa s = Done (r, s') /\
    alloc_outcome s o (fun fl => (fl < VM_NFREELIST)%nat) numa r s'.
Proof.
  intros Hinv Hi. unfold alloc_any_zone. rewrite get_bind, Hi. cbn [negb orb].
  destruct (Nat.ltb_spec MAX_TRACKED_ORDER o) as [Ho|Ho].
  { exists None, s. split; [done|]. by apply outcome_order. }
  rewrite count_bind. set (s0 := set_stats _ s).
  assert (keeps s s0) as Hk0 by (by apply keeps_events).
  assert (repacked s s0) as Hrp0 by apply repacked_events.
  destruct (zone_retry s0 o VM_FREELIST_DEFAULT numa (0 <? o)%nat (kp_inv _ _ Hk0)) as (r & s1 & Hrun & Hout);
    [unfold VM_NFREELIST, VM_FREELIST_DEFAULT; lia|done|destruct o; auto|].
  rewrite (bindM _ _ _ _ _ Hrun). destruct r as [a|].
  { exists (Some a), s1. split; [done|]. apply (outcome_after s s0); [done..|].
    destruct Hout as (Hk & i & k & seg & ? & ? & Hz & ?). split; [done|].
    exists i, k, seg. rewrite <- Hz. split_and!; try done. apply zone_lt. by left. }
  destruct Hout as (Hk1 & Hrp1 & Hno1).
  destruct (zone_retry s1 o VM_FREELIST_DMA numa false (kp_inv _ _ Hk1)) as (r & s2 & Hrun2 & Hout);
    [unfold VM_NFREELIST, VM_FREELIST_DMA; lia|done|by right; right|].
  rewrite retry_never in Hrun2. rewrite (bindM _ _ _ _ _ Hrun2).
  apply (outcome_after s0 s1) in Hout; [|done..]. apply (outcome_after s s0) in Hout; [|done..].
  destruct r as [a|].
  - exists (Some a), s2. split; [done|]. destruct Hout as (Hk & i & k & seg & ? & ? & Hz & ?). split; [done|].
    exists i, k, seg. rewrite <- Hz. split_and!; try done. apply zone_lt. by right.
  - rewrite count_bind. eexists None, _. split; [done|]. apply outcome_failed.
    destruct Hout as (Hk & Hrp & Hno). split; [done|]. split; [done|].
    intros Ht fl [->| ->]%zone_lt; [|by apply Hno]. apply (no_run_repacked s s0); [done|].
    apply Hno1; [|done]. by apply Hk0.
Qed.

Lemma alloc_from_zone_spec s o fl :
  binv s -> initialized s = true -> (fl < VM_NFREELIST)%nat ->
  exists r s', alloc_pages_from_zone o fl s = Done (r, s') /\ alloc_outcome s o (eq fl) None r s'.
Proof.
  intros Hinv Hi Hfl. unfold alloc_pages_from_zone. rewrite get_bind, Hi. cbn [negb orb].
  rewrite (proj2 (Nat.leb_gt VM_NFREELIST fl) Hfl), orb_false_r.
  destruct (Nat.ltb_spec MAX_TRACKED_ORDER o) as [Ho|Ho].
  { exists None, s. split; [done|]. by apply outcome_order. }
  rewrite count_bind. set (s0 := set_stats _ s).
  assert (keeps s s0) as Hk0 by (by apply keeps_events).
  assert (repacked s s0) as Hrp0 by apply repacked_events. unfold alloc_from_zone.
  destruct (zone_retry s0 o fl None ((0 <? o)%nat && (fl =? VM_FREELIST_DEFAULT)%nat) (kp_inv _ _ Hk0))
    as (r & s1 & Hrun & Hout); [done|done| |].
  { destruct o; [auto|]. destruct (Nat.eqb_spec fl VM_FREELIST_DEFAULT); auto. }
  rewrite (bindM _ _ _ _ _ Hrun). apply (outcome_after s s0) in Hout; [|done..]. destruct r as [a|].
  - by exists (Some a), s1.
  - rewrite count_bind. eexists None, _. split; [done|]. by apply outcome_failed.
Qed.

(** Zones that do not exist, and an allocator that is not set up. *)
Lemma alloc_refused s o fl numa :
  initialized s = false \/ (VM_NFREELIST <= fl)%nat -> 
  alloc_pages_from_zone o fl s = Done (None, s) /\
  (initialized s = false -> alloc_any_zone o numa s = Done (None, s)).
Proof.
  intros H. unfold alloc_pages_from_zone, alloc_any_zone. rewrite !get_bind. split; [|by intros ->].
  destruct H as [->| ->%Nat.leb_le]; [done|]. by rewrite !orb_true_r.
Qed.
