(* ===== verification/BuddyExact.v ===== *)
(** * Allocation at a given address

    The block that holds the wanted address is split towards it: the halves left
    behind become free, the wanted block is handed out.  The request is served
    exactly when all its pages are free. *)

From stdpp Require Import functions.
From S2P Require Import Prelude Buddy BuddyLinks BuddyBlocks BuddyShape.
From S2P Require Import BuddyProofs BuddySplit BuddyAlloc.

(** ** The descent *)

Lemma addr_of_lt seg p q : addr_of seg p < addr_of seg q <-> p < q.
Proof. unfold addr_of, PAGE_SIZE. lia. Qed.

(** An aligned block inside one of twice the size or more lies in one of its halves. *)
Lemma in_half seg i o t m :
  (pow2 (S o) | pfn_of seg i) -> (pow2 m | pfn_of seg t) -> (m <= o)%nat ->
  i <= t -> t + pow2 m <= i + pow2 (S o) ->
  (t < i + pow2 o /\ t + pow2 m <= i + pow2 o) \/ i + pow2 o <= t.
Proof.
  intros Hi Ht Hm H1 H2. destruct (Z.lt_ge_cases t (i + pow2 o)) as [Hlt|]; [left|by right].
  split; [done|]. assert (pow2 o | pfn_of seg i) as Hi' by (etrans; [|exact Hi]; apply pow2_divide; lia).
  pose proof (aligned_inside _ _ _ _ Hm Hi' Ht). unfold pfn_of in *. lia.
Qed.

(** The addresses the descent touches are pages of the block. *)
Definition inside (seg : BuddySegment) (i o : nat) (a : Z) : Prop :=
  exists q, a = addr_of seg (Z.of_nat q) /\ covers i o (Z.of_nat q).

Lemma inside_self seg i o : inside seg i o (addr_of seg (Z.of_nat i)).
Proof. exists i. unfold covers. pose proof (pow2_pos o). split; [done|lia]. Qed.

Lemma inside_half seg i j o a :
  j = i \/ j = right_of i o -> inside seg j o a -> inside seg i (S o) a.
Proof.
  intros Hj (q & Ha & Hq). exists q. split; [done|]. unfold covers in *. rewrite pow2_S.
  pose proof (pow2_pos o). pose proof (right_of_Z i o). destruct Hj as [->| ->]; lia.
Qed.

Lemma inside_right seg i o : inside seg i (S o) (addr_of seg (Z.of_nat (right_of i o))).
Proof. eapply inside_half; [by right|apply inside_self]. Qed.

Lemma exact_split_spec k seg t needed s L i cur :
  shape s L -> fits (segments s) (Z.of_nat i) cur k seg -> vacant (blocks s) (Z.of_nat i) cur ->
  (needed <= cur)%nat -> (pow2 (cur - needed) | pfn_of seg (Z.of_nat t)) ->
  Z.of_nat i <= Z.of_nat t -> Z.of_nat t + pow2 (cur - needed) <= Z.of_nat i + pow2 cur ->
  exists starts s', exact_path needed cur (addr_of seg (Z.of_nat i)) (addr_of seg (Z.of_nat t)) =
      (starts, addr_of seg (Z.of_nat t)) /\ Forall (inside seg i cur) starts /\
    exact_split_loop starts cur k (fl_type seg) s = Done (tt, s') /\
    carved s i cur k seg s' t (cur - needed).
Proof.
  revert s L i cur. induction needed as [|needed IH]; intros s L i cur Hsh Hf Hv Hle Hal H1 H2.
  { exists [], s. rewrite Nat.sub_0_r in *. assert (i = t) as -> by lia.
    split_and!; [done|constructor|done|by eapply carved_refl]. }
  destruct cur as [|cur]; [lia|]. cbn [exact_path exact_split_loop].
  replace (S cur - 1)%nat with cur by lia. replace (S cur - S needed)%nat with (cur - needed)%nat in * by lia.
  rewrite addr_shift, <- right_of_Z. pose proof (right_of_Z i cur) as Hr. pose proof (pow2_S cur) as HS.
  pose proof (in_half _ _ _ _ _ (proj2 (proj2 (proj2 (proj2 Hf)))) Hal ltac:(lia) H1 H2) as Hhalf.
  set (left_side := addr_of seg (Z.of_nat t) <? _).
  assert (exists q p, (if left_side then q = right_of i cur /\ p = i else q = i /\ p = right_of i cur) /\
    Z.of_nat p <= Z.of_nat t /\ Z.of_nat t + pow2 (cur - needed) <= Z.of_nat p + pow2 cur) as (q & p & Hqp & Hp1 & Hp2).
  { unfold left_side. destruct (Z.ltb_spec (addr_of seg (Z.of_nat t)) (addr_of seg (Z.of_nat (right_of i cur)))) as [Hlt|Hge].
    - apply addr_of_lt in Hlt. exists (right_of i cur), i. lia.
    - assert (~ Z.of_nat t < Z.of_nat (right_of i cur)) by (rewrite <- (addr_of_lt seg); lia).
      exists i, (right_of i cur). lia. }
  destruct (carve_step s L i cur k seg q p Hsh Hf Hv) as (s1 & s2 & R1 & R2 & Hc);
    [destruct left_side; [left|right]; destruct Hqp as [-> ->]; auto|].
  set (s3 := set_stats (set_events (count_event Split (events (stats s2))) (stats s2)) s2).
  assert (carved s i (S cur) k seg s3 p cur) as Hc3 by (by apply carved_stats).
  pose proof Hc3 as [[L3 Hsh3] Hf3 Hv3 Hcore3 _ _ _ _ _].
  destruct (IH s3 L3 p cur Hsh3) as (starts & s' & Hpath & Hin & Hrun & Hc'); try done; try lia;
    [by rewrite (core_segments _ _ Hcore3)|].
  exists (addr_of seg (Z.of_nat q) :: starts), s'. split_and!.
  - destruct left_side, Hqp as [-> ->]; by rewrite Hpath.
  - constructor.
    + destruct left_side, Hqp as [-> ->]; [apply inside_right|apply inside_self].
    + eapply Forall_impl; [exact Hin|]. intros a. apply inside_half. destruct left_side, Hqp as [-> ->]; auto.
  - cbn [exact_split_loop]. replace (S cur - 1)%nat with cur by lia.
    rewrite (bindM _ _ _ _ _ R1). unfold expect.
    rewrite ret_bind, (bindM _ _ _ _ _ R2), count_bind. exact Hrun.
  - by eapply carved_trans.
Qed.

Lemma allocate_exact_spec s L i b t o seg :
  shape s L -> blocks s !! i = Some b -> n_state b = NODE_FREE -> (o <= n_order b)%nat ->
  segments s !! n_seg_idx b = Some seg -> (pow2 o | pfn_of seg (Z.of_nat t)) ->
  Z.of_nat i <= Z.of_nat t -> Z.of_nat t + pow2 o <= Z.of_nat i + pow2 (n_order b) ->
  exists s', allocate_exact_from_node (S i) o (addr_of seg (Z.of_nat t)) s =
      Done (Some (addr_of seg (Z.of_nat t)), s') /\ handed_out s t o (n_seg_idx b) seg s'.
Proof.
  intros Hsh Hb Hst Ho Hseg Hal H1 H2. assert (active b = true) as Ha by (apply active_state; congruence).
  destruct (block_fits _ _ Hsh _ _ Hb Ha) as (seg' & Hf & Hseg' & Hstart & Hfl).
  assert (seg' = seg) as -> by (destruct Hf; congruence).
  apply lookup_blocks in Hb as Hn. destruct Hn as (n & Hn & Hbn).
  destruct (step_take_free s L Hsh i b Hb Hst)
    as (s1 & s2 & s3 & l1 & l2 & R1 & R2 & R3 & HL & Hsh3 & Hbl3 & Hcore3 & Hv3).
  assert ((n_order b - (n_order b - o))%nat = o) as Hsub by lia.
  destruct (exact_split_spec (n_seg_idx b) seg t (n_order b - o) s3 _ i (n_order b) Hsh3)
    as (starts & s4 & Hpath & Hin & R4 & Hc4); rewrite ?Hsub; try done; try lia;
    [by rewrite (core_segments _ _ Hcore3)|].
  rewrite Hsub in Hc4.
  destruct (hand_out_spec s L i b (n_seg_idx b) seg s3 s4 t o Hsh Hb Hst Hbl3 Hcore3 Hc4) as (s' & R5 & Hho).
  exists s'. split; [|done]. unfold allocate_exact_from_node.
  rewrite (bindM _ _ _ _ _ (node_ref_ok _ _ _ Hn)).
  assert (n_order n = n_order b /\ n_seg_idx n = n_seg_idx b /\ n_start n = n_start b)
    as (-> & -> & ->) by (by subst b).
  rewrite get_bind. unfold segment. rewrite Hseg, Hstart, Hpath.
  replace (existsb _ _) with false.
  2: { symmetry. apply not_true_iff_false. intros (a & Hina & Hbad)%existsb_exists.
    apply List.in_app_iff, or_comm in Hina as Hina'.
    assert (inside seg i (n_order b) a) as (q & -> & Hq).
    { destruct Hina' as [[<-|[]]|Hina']; [exists t|].
      - pose proof (pow2_pos o). unfold covers. split; [done|lia].
      - rewrite Forall_forall in Hin. apply Hin. by apply list_elem_of_In. }
    apply andb_true_iff in Hbad as [Hne Hbad].
    destruct (decide (q = i)) as [->|]; [by rewrite Z.eqb_refl in Hne|].
    rewrite (interior_inactive s L i b seg) in Hbad by (done || unfold covers in Hq; lia). done. }
  rewrite (bindM _ _ _ _ _ R1). cbn [negb].
  rewrite (bindM _ _ _ _ _ R2), (bindM _ _ _ _ _ R3), (bindM _ _ _ _ _ R4). exact R5.
Qed.

(** ** The search *)

(** The only block of an order that can hold the page [t]. *)
Definition holder (seg : BuddySegment) (cur t : nat) : Z :=
  Z.of_nat t - pfn_of seg (Z.of_nat t) mod pow2 cur.

Lemma holder_spec seg cur t :
  (pow2 cur | pfn_of seg (holder seg cur t)) /\
  holder seg cur t <= Z.of_nat t < holder seg cur t + pow2 cur.
Proof.
  unfold holder. pose proof (pow2_pos cur). pose proof (Z.mod_pos_bound (pfn_of seg (Z.of_nat t)) (pow2 cur)).
  split; [|lia]. exists (pfn_of seg (Z.of_nat t) / pow2 cur).
  pose proof (Z.div_mod (pfn_of seg (Z.of_nat t)) (pow2 cur)). unfold pfn_of in *. lia.
Qed.

Lemma holder_unique seg cur t j :
  (pow2 cur | pfn_of seg j) -> j <= Z.of_nat t < j + pow2 cur -> j = holder seg cur t.
Proof.
  intros Hj Hc. destruct (holder_spec seg cur t) as [Hh Hc'].
  destruct (nested_in seg j cur (holder seg cur t) cur Hh Hj (le_n _)); [by exists (Z.of_nat t)|lia].
Qed.

Lemma holder_addr seg cur t :
  seg_ok seg -> in_seg seg (Z.of_nat t) -> (cur <= MAX_TRACKED_ORDER)%nat ->
  align_down (addr_of seg (Z.of_nat t) / PAGE_SIZE) (block_pages cur) * PAGE_SIZE =
  addr_of seg (holder seg cur t).
Proof.
  intros Hseg Ht Hc. pose proof (addr_of_range _ _ Hseg Ht) as Hr. pose proof Hseg as [].
  rewrite block_pages_pow2, align_down_pow2, addr_of_div, !addr_of_pfn by
    (done || (rewrite ?addr_of_div by done; unfold MAX_TRACKED_ORDER in *; 
     rewrite addr_of_pfn in Hr by done; unfold PAGE_SIZE in *; lia)).
  unfold holder, pfn_of. lia.
Qed.

(** No free block of the segment [k], of an order from [cur] up to [top], holds
    the page [t]. *)
Definition not_held_free (k t cur top : nat) (bl : list BlockNode) : Prop :=
  forall j b, bl !! j = Some b -> n_state b = NODE_FREE -> n_seg_idx b = k ->
    (cur <= n_order b < top)%nat -> ~ covers j (n_order b) (Z.of_nat t).

Lemma addr_page seg q : (addr_of seg q - start (range seg)) / PAGE_SIZE = q - node_base seg.
Proof.
  unfold addr_of. replace (_ - _) with ((q - node_base seg) * PAGE_SIZE) by lia. by apply Z.div_mul.
Qed.

(** The tests of the search: the block lies in the segment. *)
Lemma exact_guard {A} seg q cur (inside next : A) :
  seg_ok seg ->
  (if (addr_of seg q <? start (range seg)) || (seg_end (range seg) <=? addr_of seg q) then next
   else if total_pages seg <? (addr_of seg q - start (range seg)) / PAGE_SIZE + block_pages cur then next
   else inside) =
  (if decide (in_seg seg q /\ q + pow2 cur <= node_base seg + total_pages seg) then inside else next).
Proof.
  intros Hseg. rewrite addr_page, block_pages_pow2, seg_end_ok, (so_size _ Hseg) by done.
  unfold in_seg, addr_of, PAGE_SIZE.
  destruct (Z.ltb_spec (start (range seg) + (q - node_base seg) * 4096) (start (range seg)));
    [destruct (decide _); [lia|done]|].
  destruct (Z.leb_spec (start (range seg) + total_pages seg * 4096) (start (range seg) + (q - node_base seg) * 4096));
    [destruct (decide _); [lia|done]|]. cbn [orb].
  destruct (Z.ltb_spec (total_pages seg) (q - node_base seg + pow2 cur)); destruct (decide _); (done || lia).
Qed.

(** A free block of order [cur] that covers the page is its holder. *)
Lemma holder_only s L t k seg cur j b :
  shape s L -> segments s !! k = Some seg -> blocks s !! j = Some b -> n_state b = NODE_FREE -> n_seg_idx b = k ->
  n_order b = cur -> covers j (n_order b) (Z.of_nat t) ->
  fits (segments s) (Z.of_nat j) cur k seg /\ Z.of_nat j = holder seg cur t.
Proof.
  intros Hsh Hk Hb Hst Hkb Ho Hcov. rewrite <- Ho, <- Hkb in *.
  pose proof (block_pages_aligned s L j b seg Hsh Hb ltac:(apply active_state; congruence) Hk) as Hfj.
  split; [done|]. apply holder_unique; [apply Hfj|done].
Qed.

(** One order: the block of that order that holds the page is used, or there is
    no such free block and the search goes on. *)
Lemma exact_here s L t o k seg n cur :
  shape s L -> fits (segments s) (Z.of_nat t) o k seg -> (o <= cur <= max_order seg)%nat ->
  (exists s', exact_orders (S n) cur (addr_of seg (Z.of_nat t)) o k seg s =
      Done (Some (addr_of seg (Z.of_nat t)), s') /\ handed_out s t o k seg s') \/
  (exact_orders (S n) cur (addr_of seg (Z.of_nat t)) o k seg s =
     exact_orders n (S cur) (addr_of seg (Z.of_nat t)) o k seg s /\
   not_held_free k t cur (S cur) (blocks s)).
Proof.
  intros Hsh Hf Hc. pose proof Hf as (Hk & Ht1 & Ht2 & Hmax & Hal).
  pose proof (sg_ok _ _ (sh_segs _ _ Hsh) _ _ Hk) as Hseg.
  assert (in_seg seg (Z.of_nat t)) as Hin by (by eapply fits_in).
  destruct (holder_spec seg cur t) as [Hh1 Hh2]. cbn [exact_orders].
  rewrite (holder_addr seg cur t Hseg Hin) by (pose proof (so_max _ Hseg); lia).
  pose proof (fun j b => holder_only s L t k seg cur j b Hsh Hk) as Honly.
  set (q := holder seg cur t) in *. clearbody q. rewrite exact_guard by done.
  destruct (decide _) as [[Hq Hqe]|Hout].
  2: { right. split; [done|]. intros j b Hb Hst Hkb Ho Hcov. assert (n_order b = cur) as Heq by lia.
    destruct (Honly j b Hb Hst Hkb Heq Hcov) as [Hfj <-].
    apply Hout. split; [by eapply fits_in|apply Hfj]. }
  pose proof (in_seg_cap _ _ (sh_segs _ _ Hsh) _ _ _ Hk Hq) as Hcap.
  destruct (block_lookup _ _ Hsh _ _ _ Hk Hq) as [b Hb].
  assert (exists j, q = Z.of_nat j) as [j ->] by (exists (Z.to_nat q); lia). rewrite Nat2Z.id in Hb.
  rewrite (bindM _ _ _ _ _ (hash_find_hit _ _ Hsh _ _ _ _ Hk Hq Hb)).
  set (usable := bool_decide (n_state b = NODE_FREE) && (n_order b =? cur)%nat && (n_seg_idx b =? k)%nat).
  destruct usable eqn:Hu; unfold usable in Hu.
  - apply andb_true_iff in Hu as [[Hst%bool_decide_eq_true Ho%Nat.eqb_eq]%andb_true_iff Hkb%Nat.eqb_eq].
    rewrite active_state by congruence. cbn [Nat.eqb].
    apply lookup_blocks in Hb as Hn. destruct Hn as (n' & Hn & Hbn).
    rewrite (bindM _ _ _ _ _ (node_ref_ok _ _ _ Hn)).
    assert (n_state n' = n_state b /\ n_order n' = n_order b /\ n_seg_idx n' = n_seg_idx b)
      as (-> & -> & ->) by (by subst b).
    rewrite Hst, Ho, Hkb, bool_decide_true, !Nat.eqb_refl by done. cbn [negb orb]. left.
    destruct (allocate_exact_spec s L j b t o seg Hsh Hb Hst) as (s' & Hrun & Hho); rewrite ?Ho, ?Hkb; try done; try lia.
    { destruct (nested_in seg (Z.of_nat t) o (Z.of_nat j) cur Hh1 Hal ltac:(lia)); [|lia].
      exists (Z.of_nat t). pose proof (pow2_pos o). lia. }
    rewrite (bindM _ _ _ _ _ Hrun). exists s'. by rewrite Hkb in Hho.
  - right. split.
    2: { intros j' b' Hb' Hst' Hkb' Ho' Hcov. assert (n_order b' = cur) as Heq by lia.
      destruct (Honly j' b' Hb' Hst' Hkb' Heq Hcov) as [_ ->%Nat2Z.inj]. simplify_eq.
      rewrite bool_decide_true, !Nat.eqb_refl in Hu; done. }
    destruct (active b) eqn:Ha; [|done]. cbn [Nat.eqb].
    apply lookup_blocks in Hb as Hn. destruct Hn as (n' & Hn & Hbn).
    rewrite (bindM _ _ _ _ _ (node_ref_ok _ _ _ Hn)).
    assert (n_state n' = n_state b /\ n_order n' = n_order b /\ n_seg_idx n' = n_seg_idx b)
      as (-> & -> & ->) by (by subst b).
    rewrite <- !negb_andb, Hu. done.
Qed.

Lemma exact_orders_spec s L t o k seg n cur :
  shape s L -> fits (segments s) (Z.of_nat t) o k seg -> (o <= cur)%nat -> (cur + n <= S (max_order seg))%nat ->
  (exists s', exact_orders n cur (addr_of seg (Z.of_nat t)) o k seg s =
      Done (Some (addr_of seg (Z.of_nat t)), s') /\ handed_out s t o k seg s') \/
  (exact_orders n cur (addr_of seg (Z.of_nat t)) o k seg s = Done (None, s) /\
   not_held_free k t cur (cur + n) (blocks s)).
Proof.
  intros Hsh Hf. revert cur. induction n as [|n IH]; intros cur Ho Hn.
  { right. split; [done|]. intros j b _ _ _ ?. lia. }
  destruct (exact_here s L t o k seg n cur Hsh Hf ltac:(lia)) as [?|[Hrun Hno]]; [by left|]. rewrite Hrun.
  destruct (IH (S cur) ltac:(lia) ltac:(lia)) as [?|[Hrun' Hno']]; [by left|]. right. split; [done|].
  intros j b Hb Hst Hkb Hbo. destruct (decide (n_order b = cur)) as [Heq|];
    [apply (Hno j b)|apply (Hno' j b)]; try done; lia.
Qed.

(** ** The request *)

Lemma aligned_land a o : Z.land a (block_pages o * PAGE_SIZE - 1) = a mod (pow2 o * PAGE_SIZE).
Proof.
  rewrite block_pages_pow2. change PAGE_SIZE with (2 ^ 12).
  assert (pow2 o * 2 ^ 12 = pow2 (o + 12)) as ->
    by (unfold pow2; rewrite Nat2Z.inj_add, Z.pow_add_r by lia; done).
  apply land_pow2_minus_1.
Qed.

(** The tests of [alloc_pages_exact] together: there is such a block. *)
Lemma exact_located s L a o :
  shape s L ->
  match page_location s a with
  | Some (k, page) => exists seg, segment s k = Some seg /\
      ((o <= max_order seg)%nat /\ a mod (pow2 o * PAGE_SIZE) = 0 /\ page + pow2 o <= total_pages seg ->
       exists t, a = addr_of seg (Z.of_nat t) /\ fits (segments s) (Z.of_nat t) o k seg) /\
      (forall t k' seg', a = addr_of seg' (Z.of_nat t) -> fits (segments s) (Z.of_nat t) o k' seg' ->
       (o <= max_order seg)%nat /\ a mod (pow2 o * PAGE_SIZE) = 0 /\ page + pow2 o <= total_pages seg)
  | None => forall t k seg, a = addr_of seg (Z.of_nat t) -> ~ fits (segments s) (Z.of_nat t) o k seg
  end.
Proof.
  intros Hsh. pose proof (sh_segs _ _ Hsh) as Hsegs.
  assert (forall t k seg, a = addr_of seg (Z.of_nat t) -> fits (segments s) (Z.of_nat t) o k seg ->
    page_location s a = Some (k, Z.of_nat t - node_base seg)) as Hloc.
  { intros t k seg -> Hf. pose proof (sg_ok _ _ Hsegs _ _ (proj1 Hf)) as Hseg.
    pose proof (addr_of_range _ _ Hseg (fits_in _ _ _ _ _ Hf)). unfold page_location.
    rewrite (page_location_hit _ _ Hsegs k seg) by (apply Hf || unfold PAGE_SIZE in *; lia).
    by rewrite addr_page. }
  destruct (page_location s a) as [[k page]|] eqn:Hpl.
  2: { intros t k seg Ha Hf. by specialize (Hloc t k seg Ha Hf). }
  apply page_location_from_inv in Hpl as Hinv. destruct Hinv as (k' & seg & -> & Hk & Ha & -> & Hp).
  pose proof (sg_ok _ _ Hsegs _ _ Hk) as Hseg. rewrite seg_end_ok in Ha by done.
  exists seg. split; [done|]. split.
  - intros (Ho & Hmod & Hend). apply Z.mod_divide in Hmod as [x Hx];
      [|pose proof (pow2_pos o); unfold PAGE_SIZE; lia].
    destruct (so_aligned _ Hseg) as [y Hy].
    assert ((a - start (range seg)) / PAGE_SIZE = x * pow2 o - y) as Hpage.
    { rewrite Hx, Hy. replace (_ - _) with ((x * pow2 o - y) * PAGE_SIZE) by lia. by apply Z.div_mul. }
    assert (0 <= x * pow2 o - y) by (rewrite <- Hpage; apply Z.div_pos; unfold PAGE_SIZE; lia).
    rewrite Hpage in *. pose proof (pow2_pos o).
    assert (in_seg seg (node_base seg + (x * pow2 o - y))) as Hin by (unfold in_seg; lia).
    pose proof (in_seg_cap _ _ Hsegs _ _ _ Hk Hin).
    exists (Z.to_nat (node_base seg + (x * pow2 o - y))). rewrite Z2Nat.id by lia. split.
    + unfold addr_of. lia.
    + split_and!; try done; try lia. exists x. unfold pfn_of. rewrite Hy, Z.div_mul by done. lia.
  - intros t k0 seg' Heq Hf. pose proof (Hloc t k0 seg' Heq Hf) as Hl. injection Hl as -> Hpg.
    assert (seg' = seg) as -> by (destruct Hf; congruence). rewrite Hpg.
    destruct Hf as (_ & H1 & H2 & H3 & [x Hx]). split_and!; [done| |lia].
    rewrite Heq, addr_of_pfn, Hx by done. replace (x * pow2 o * PAGE_SIZE) with (x * (pow2 o * PAGE_SIZE)) by lia.
    apply Z.mod_mul. pose proof (pow2_pos o). unfold PAGE_SIZE. lia.
Qed.

(** The two attempts. *)
Lemma exact_retry s t o k seg :
  binv s -> fits (segments s) (Z.of_nat t) o k seg ->
  exists r s', retry_reclaimed (0 <? o)%nat
      (try_alloc_pages_exact_from_free (addr_of seg (Z.of_nat t)) o k seg) s = Done (r, s') /\ keeps s s' /\
    match r with
    | Some a => a = addr_of seg (Z.of_nat t) /\ allocated s t o k seg s'
    | None => repacked s s' /\
        (tidy true (segments s) (blocks s) -> ~ forall p, covers t o p -> page_free (blocks s) p)
    end.
Proof.
  intros Hinv Hf. destruct (retry_spec s (0 <? o)%nat
    (try_alloc_pages_exact_from_free (addr_of seg (Z.of_nat t)) o k seg)
    (fun i k' seg' => i = t /\ k' = k /\ seg' = seg)
    (fun _ bl => not_held_free k t o (S (max_order seg)) bl) o Hinv) as (r & s' & Hrun & Hk & Hr).
  { intros s1 Hinv1 Hs1. rewrite <- Hs1 in Hf. destruct (bi_shape _ Hinv1) as [L1 Hsh1].
    assert (o <= max_order seg)%nat as Hm by apply Hf. unfold try_alloc_pages_exact_from_free.
    destruct (exact_orders_spec s1 L1 t o k seg (S (max_order seg) - o) o Hsh1 Hf) as [(s' & ? & ?)|[? Hno]];
      [lia|lia|left; by exists t, k, seg, s'|right].
    replace (o + (S (max_order seg) - o))%nat with (S (max_order seg)) in Hno by lia. done. }
  exists r, s'. split; [done|]. split; [done|]. destruct r as [a|].
  { destruct Hr as (i & k' & seg' & -> & Hal & -> & -> & ->). done. }
  destruct Hr as (Hrp & Hno & Htd). split; [done|]. intros Ht Hall.
  pose proof (kp_segments _ _ Hk) as Hs. rewrite <- Hs in Hf.
  destruct (bi_shape _ (kp_inv _ _ Hk)) as [L' Hsh'].
  destruct (run_covered s' L' o (Z.of_nat t) k seg Hsh') as (j & b & Hb & Hst & Hkb & Ho & Hfb & H1 & H2).
  - destruct o as [|o']; [exists true|exists false]; rewrite Hs; split; auto. by apply Hk.
  - done.
  - intros p Hp. by apply (rp_pages _ _ Hrp), Hall.
  - apply (Hno j b Hb Hst Hkb).
    + destruct Hfb as (_ & _ & _ & ? & _). lia.
    + unfold covers. pose proof (pow2_pos o). lia.
Qed.

(** What the request ends with: the block was free and is handed out; or some of
    its pages were not free; or there is no such block. *)
Lemma alloc_exact_spec s a o :
  binv s -> initialized s = true ->
  exists r s', alloc_pages_exact a o s = Done (r, s') /\ keeps s s' /\
    match r with
    | Ok a' => a' = a /\ exists t k seg, a = addr_of seg (Z.of_nat t) /\ allocated s t o k seg s'
    | Err BlockNotFree => repacked s s' /\ exists t k seg, a = addr_of seg (Z.of_nat t) /\
        fits (segments s) (Z.of_nat t) o k seg /\
        (tidy true (segments s) (blocks s) -> ~ forall p, covers t o p -> page_free (blocks s) p)
    | Err _ => s' = s /\ forall t k seg, a = addr_of seg (Z.of_nat t) -> ~ fits (segments s) (Z.of_nat t) o k seg
    end.
Proof.
  intros Hinv Hi. destruct (bi_shape _ Hinv) as [L Hsh]. unfold alloc_pages_exact.
  rewrite get_bind, Hi. cbn [negb]. pose proof (keeps_refl s Hinv) as Hkr.
  pose proof (exact_located s L a o Hsh) as Hloc.
  destruct (Nat.ltb_spec MAX_TRACKED_ORDER o) as [Hbig|Hbig].
  { exists (Err AllocInvalidOrder), s. split_and!; try done. intros t k seg _ (Hk & _ & _ & Hm & _).
    pose proof (so_max _ (sg_ok _ _ (sh_segs _ _ Hsh) _ _ Hk)). lia. }
  destruct (page_location s a) as [[k page]|]; [|by exists (Err AllocInvalidAddress), s].
  destruct Hloc as (seg & -> & Hyes & Hno). rewrite aligned_land, block_pages_pow2.
  destruct (Nat.ltb_spec (max_order seg) o) as [Hm|Hm].
  { exists (Err AllocInvalidOrder), s. split_and!; try done. intros t k' seg' Ha Hf.
    destruct (Hno t k' seg' Ha Hf). lia. }
  destruct (Z.eqb_spec (a mod (pow2 o * PAGE_SIZE)) 0) as [Hmod|Hmod]; cbn [negb].
  2: { exists (Err AllocInvalidAddress), s. split_and!; try done. intros t k' seg' Ha Hf.
    by destruct (Hno t k' seg' Ha Hf) as (_ & ? & _). }
  destruct (Z.ltb_spec (total_pages seg) (page + pow2 o)) as [He|He].
  { exists (Err AllocBlockOutOfRange), s. split_and!; try done. intros t k' seg' Ha Hf.
    destruct (Hno t k' seg' Ha Hf). lia. }
  destruct Hyes as (t & -> & Hf); [done|]. clear Hno. rewrite count_bind. set (s0 := set_stats _ s).
  assert (keeps s s0) as Hk0 by (by apply keeps_events).
  destruct (exact_retry s0 t o k seg (kp_inv _ _ Hk0) Hf) as (r & s1 & Hrun & Hk1 & Hr).
  rewrite (bindM _ _ _ _ _ Hrun). pose proof (keeps_trans _ _ _ Hk0 Hk1) as Hk. destruct r as [a|].
  - destruct Hr as [-> Hal]. eexists (Ok _), s1. split_and!; [done|done|done|]. exists t, k, seg. split; [done|].
    by apply (allocated_after s s0); [apply repacked_events|].
  - destruct Hr as [Hrp Hnf]. rewrite count_bind. eexists (Err BlockNotFree), _. split; [done|]. split_and!.
    + eapply keeps_trans; [exact Hk|]. by apply keeps_events, Hk.
    + eapply repacked_trans; [apply repacked_events|]. eapply repacked_trans; [exact Hrp|apply repacked_events].
    + by exists t, k, seg.
Qed.
