(* ===== verification/BuddyRequest.v ===== *)
(** * Requests

    The order a request asks for is the least that is large enough and aligned
    enough; the allocation of a request is the allocation of a block of that
    order where the request wants it. *)

From stdpp Require Import functions.
From S2P Require Import Prelude Buddy BuddyLinks BuddyBlocks BuddyShape.
From S2P Require Import BuddyProofs BuddySplit BuddyAlloc BuddyExact.

(** ** The order of a request *)

Lemma order_loop_spec room order pages :
  match order_loop room order (pow2 order) pages with
  | Ok o => (order <= o <= order + room)%nat /\ pages <= pow2 o /\
      forall m, (order <= m)%nat -> pages <= pow2 m -> (o <= m)%nat
  | Err e => e = UnsupportedOrder /\ pow2 (order + room) < pages
  end.
Proof.
  revert order. induction room as [|room IH]; intros order; cbn [order_loop];
    destruct (Z.ltb_spec (pow2 order) pages) as [Hlt|Hge].
  - by rewrite Nat.add_0_r.
  - split_and!; [lia|lia|done|auto].
  - replace (Z.shiftl (pow2 order) 1) with (pow2 (S order)) by (rewrite pow2_S, Z.shiftl_mul_pow2; lia).
    specialize (IH (S order)). rewrite Nat.add_succ_comm in IH. destruct (order_loop _ _ _ _) as [o|e]; [|done].
    destruct IH as (H1 & H2 & H3). split_and!; [lia|lia|done|]. intros m Hm Hp.
    destruct (decide (m = order)) as [->|]; [lia|]. apply H3; [lia|done].
  - split_and!; [lia|lia|done|auto].
Qed.

Lemma order_bounded_spec pages :
  match pages_to_order_bounded pages with
  | Ok o => (o <= MAX_TRACKED_ORDER)%nat /\ pages <= pow2 o /\ forall m, pages <= pow2 m -> (o <= m)%nat
  | Err e => e = UnsupportedOrder /\ forall m, pages <= pow2 m -> (MAX_TRACKED_ORDER < m)%nat
  end.
Proof.
  unfold pages_to_order_bounded. rewrite block_pages_pow2.
  assert (forall m, pow2 MAX_TRACKED_ORDER < pages -> pages <= pow2 m -> (MAX_TRACKED_ORDER < m)%nat) as Hbig.
  { intros m H1 H2. destruct (decide (MAX_TRACKED_ORDER < m)%nat); [done|].
    pose proof (pow2_le m MAX_TRACKED_ORDER ltac:(lia)). lia. }
  destruct (Z.ltb_spec (pow2 MAX_TRACKED_ORDER) pages) as [Hlt|Hge]; [split; auto|].
  pose proof (order_loop_spec MAX_TRACKED_ORDER 0 pages) as H. rewrite pow2_0 in H.
  destruct (order_loop _ _ _ _) as [o|e].
  - destruct H as (H1 & H2 & H3). split_and!; [lia|done|]. intros m. apply H3. lia.
  - destruct H as [-> H]. simpl in H. lia.
Qed.

(** A block of order [m] is large enough and aligned enough for the request. *)
Definition serves (rq : PhysicalAllocRequest) (m : nat) : Prop :=
  rq_size rq <= pow2 m * PAGE_SIZE /\ (rq_align rq | pow2 m * PAGE_SIZE) /\
  (page_policy rq = RequireLarge -> (MIN_LARGE_PAGE_ORDER <= m)%nat).

Lemma pow2_divides_le k m : 0 <= k -> (2 ^ k | pow2 m * PAGE_SIZE) <-> 2 ^ k <= pow2 m * PAGE_SIZE.
Proof.
  intros Hk. assert (pow2 m * PAGE_SIZE = 2 ^ (Z.of_nat m + 12)) as ->
    by (unfold pow2; rewrite Z.pow_add_r by lia; done).
  split; [intros H; apply Z.divide_pos_le; [lia|done]|]. intros H.
  apply Z.pow_le_mono_r_iff in H; [|lia..]. exists (2 ^ (Z.of_nat m + 12 - k)).
  rewrite <- Z.pow_add_r by lia. f_equal. lia.
Qed.

(** The pages the request counts are enough exactly for such blocks. *)
Lemma pages_enough size k m :
  0 < size -> 0 <= k ->
  Z.max (Z.max (div_ceil size PAGE_SIZE) 1) (Z.max (div_ceil (Z.max (2 ^ k) PAGE_SIZE) PAGE_SIZE) 1) <= pow2 m <->
  size <= pow2 m * PAGE_SIZE /\ (2 ^ k | pow2 m * PAGE_SIZE).
Proof.
  intros Hs Hk. rewrite pow2_divides_le by done. pose proof (pow2_pos m).
  assert (0 < PAGE_SIZE) by done. rewrite <- !div_ceil_le by lia.
  rewrite !Z.max_lub_iff, (div_ceil_le (Z.max _ _)), (div_ceil_le (2 ^ k)) by lia. nia.
Qed.

Definition request_misplaced (rq : PhysicalAllocRequest) (o : nat) : bool :=
  match placement rq with
  | ExactPhys addr => negb (addr mod (pow2 o * PAGE_SIZE) =? 0)
  | _ => false
  end.

(** The order is the least that serves the request; each error has its reason. *)
Lemma required_order_spec rq :
  0 <= rq_size rq -> 0 <= rq_align rq ->
  match required_order rq with
  | Ok o => (o <= MAX_TRACKED_ORDER)%nat /\ serves rq o /\ (forall m, serves rq m -> (o <= m)%nat) /\
      request_misplaced rq o = false
  | Err InvalidSize => rq_size rq = 0
  | Err InvalidAlignment => is_power_of_two (rq_align rq) = false
  | Err UnsupportedOrder => forall m, serves rq m -> (MAX_TRACKED_ORDER < m)%nat
  | Err InvalidPlacement => exists o, serves rq o /\ (forall m, serves rq m -> (o <= m)%nat) /\
      request_misplaced rq o = true
  | Err SizeOverflow => False
  end.
Proof.
  intros Hs Ha. unfold required_order. destruct (Z.eqb_spec (rq_size rq) 0) as [|Hs0]; [done|].
  destruct (is_power_of_two (rq_align rq)) eqn:Hp; [|by rewrite orb_true_r].
  apply is_power_of_two_spec in Hp as (k & Hk & Halign). pose proof (Z.pow_pos_nonneg 2 k ltac:(lia) Hk).
  destruct (Z.eqb_spec (rq_align rq) 0) as [|_]; [lia|]. cbn [orb negb].
  unfold pages_for_checked. rewrite (proj2 (Z.eqb_neq _ 0) Hs0).
  destruct (Z.eqb_spec (Z.max (rq_align rq) PAGE_SIZE) 0); [unfold PAGE_SIZE in *; lia|].
  set (pages := Z.max (Z.max (div_ceil (rq_size rq) PAGE_SIZE) 1) _).
  assert (forall m, serves rq m <-> pages <= pow2 m /\
    (page_policy rq = RequireLarge -> (MIN_LARGE_PAGE_ORDER <= m)%nat)) as Hsv.
  { intros m. unfold serves, pages. rewrite Halign, pages_enough by lia. tauto. }
  pose proof (order_bounded_spec pages) as Hb. destruct (pages_to_order_bounded pages) as [o|e].
  2: { destruct Hb as [-> Hb]. intros m [Hm _]%Hsv. by apply Hb. }
  destruct Hb as (Ho & Hpg & Hleast).
  set (o' := match page_policy rq with RequireLarge => _ | _ => _ end).
  assert ((o' <= MAX_TRACKED_ORDER)%nat /\ serves rq o' /\ forall m, serves rq m -> (o' <= m)%nat)
    as (Ho' & Hs' & Hl').
  { unfold o'. split_and!; [destruct (page_policy rq); unfold MAX_TRACKED_ORDER, MIN_LARGE_PAGE_ORDER in *; lia| |].
    - apply Hsv. pose proof (pow2_le o (Nat.max o MIN_LARGE_PAGE_ORDER) ltac:(lia)).
      destruct (page_policy rq); split; try done; lia.
    - intros m [Hm Hp]%Hsv. specialize (Hleast m Hm). destruct (page_policy rq); [done|done|].
      specialize (Hp eq_refl). lia. }
  clearbody o'. rewrite (proj2 (Nat.ltb_ge _ _) Ho'). unfold request_misplaced.
  destruct (placement rq) as [| | |a] eqn:Hpl; [done..|]. rewrite aligned_land.
  destruct (Z.eqb_spec (a mod (pow2 o' * PAGE_SIZE)) 0) as [Hz|Hz]; cbn [negb].
  - split_and!; try done. by rewrite Hz.
  - exists o'. split_and!; try done. by apply negb_true_iff, Z.eqb_neq.
Qed.

(** ** Serving a request *)

Definition placed_right (rq : PhysicalAllocRequest) (p : Z) (seg : BuddySegment) : Prop :=
  match placement rq with
  | Any => True
  | LowMem => fl_type seg = VM_FREELIST_DMA
  | NumaNode node_id => numa_node_id seg = Some node_id
  | ExactPhys a => addr_of seg p = a
  end.

(** The block is handed out, where the request wants it; or no run of free pages
    could have been. *)
Definition request_outcome (s : BuddyAllocator) (rq : PhysicalAllocRequest) (o : nat)
    (r : option Z) (s' : BuddyAllocator) : Prop :=
  keeps s s' /\
  match r with
  | Some a => exists i k seg, a = addr_of seg (Z.of_nat i) /\ allocated s i o k seg s' /\
      placed_right rq (Z.of_nat i) seg
  | None => repacked s s' /\ (tidy true (segments s) (blocks s) ->
      forall p k seg, fits (segments s) p o k seg -> placed_right rq p seg ->
        ~ forall q, p <= q < p + pow2 o -> page_free (blocks s) q)
  end.

Lemma outcome_placed s rq o zone numa r s' :
  alloc_outcome s o zone numa r s' -> binv s ->
  (forall p k seg, fits (segments s) p o k seg ->
     placed_right rq p seg <-> zone (fl_type seg) /\ numa_ok (segments s) numa k) ->
  request_outcome s rq o r s'.
Proof.
  intros [Hk Hr] Hinv Hplaced. split; [done|]. destruct r as [a|].
  - destruct Hr as (i & k & seg & -> & Hal & Hz & Hn). exists i, k, seg. split_and!; try done.
    apply (Hplaced _ k); [apply Hal|done].
  - destruct Hr as [Hrp Hno]. split; [done|]. intros Ht p k seg Hf Hpl. apply (Hplaced p k seg Hf) in Hpl as Hz.
    by apply (Hno Ht (fl_type seg) (proj1 Hz) p k seg Hf eq_refl (proj2 Hz)).
Qed.

Lemma request_exact s rq o a :
  binv s -> initialized s = true -> placement rq = ExactPhys a ->
  exists r s', alloc_pages_exact a o s = Done (r, s') /\
    request_outcome s rq o (match r with Ok b => Some b | Err _ => None end) s'.
Proof.
  intros Hinv Hi Hpl. destruct (alloc_exact_spec s a o Hinv Hi) as (r & s' & Hrun & Hk & Hr).
  exists r, s'. split; [done|]. split; [done|]. unfold placed_right. rewrite Hpl. destruct r as [b|e].
  { destruct Hr as (-> & t & k & seg & -> & Hal). by exists t, k, seg. }
  destruct (bi_shape _ Hinv) as [L Hsh].
  assert (e = BlockNotFree \/ s' = s /\ forall t k seg, a = addr_of seg (Z.of_nat t) ->
    ~ fits (segments s) (Z.of_nat t) o k seg) as [->|[-> Hno]] by (destruct e; auto).
  - destruct Hr as (Hrp & t & k & seg & -> & Hf & Hno). split; [done|]. intros Ht p k' seg' Hf' Heq Hall.
    apply (Hno Ht). intros q Hq. apply Hall. unfold covers in Hq.
    destruct (addr_of_inj s (sh_segs _ _ Hsh) k' k seg' seg p (Z.of_nat t)) as [_ ->];
      [apply Hf'|apply Hf|by eapply fits_in|by eapply fits_in|done|done].
  - split; [apply repacked_refl|]. intros _ p k seg Hf Heq Hall.
    pose proof (in_seg_cap _ _ (sh_segs _ _ Hsh) _ _ _ (proj1 Hf) (fits_in _ _ _ _ _ Hf)).
    apply (Hno (Z.to_nat p) k seg); rewrite Z2Nat.id by lia; done.
Qed.

Lemma seg_zone s k seg : binv s -> segments s !! k = Some seg -> (fl_type seg < VM_NFREELIST)%nat.
Proof. intros Hinv Hk. destruct (bi_shape _ Hinv) as [L Hsh]. apply (so_fl _ (sg_ok _ _ (sh_segs _ _ Hsh) _ _ Hk)). Qed.

Lemma aligned_addr segs cap p o k seg a :
  segs_ok segs cap -> fits segs p o k seg -> (a | pow2 o * PAGE_SIZE) -> (a | addr_of seg p).
Proof.
  intros Hsegs Hf Ha. rewrite addr_of_pfn by apply (sg_ok _ _ Hsegs _ _ (proj1 Hf)).
  etrans; [exact Ha|]. apply Z.mul_divide_mono_r, Hf.
Qed.

Lemma fragmented_run (m : M (option Z)) s r s' :
  m s = Done (r, s') ->
  (r ← m; mret (match r with Some a => Ok a | None => Err Fragmented end) : M (result Z BuddyAllocError)) s =
  Done (match r with Some a => Ok a | None => Err Fragmented end, s').
Proof. intros H. by rewrite (bindM _ _ _ _ _ H). Qed.

(** The whole request. *)
Lemma alloc_with_spec s rq :
  binv s -> initialized s = true ->
  exists r s', alloc_pages_with rq s = Done (r, s') /\
    match required_order rq with
    | Err e => r = Err (buddy_alloc_error_from_request e) /\ s' = s
    | Ok o => exists r', request_outcome s rq o r' s' /\
        match r' with
        | Some a => r = Ok (mkAllocation a (pow2 o * PAGE_SIZE) o (pow2 o * PAGE_SIZE))
        | None => exists e, r = Err e
        end
    end.
Proof.
  intros Hinv Hi. unfold alloc_pages_with. rewrite get_bind, Hi. cbn [negb].
  destruct (required_order rq) as [o|e]; [|by eexists _, s]. rewrite block_pages_pow2.
  destruct (placement rq) as [| |node_id|a] eqn:Hpl.
  - destruct (alloc_any_zone_spec s o None Hinv Hi) as (r & s' & Hrun & Hout). unfold alloc_pages.
    rewrite (bindM _ _ _ _ _ (fragmented_run _ _ _ _ Hrun)).
    eexists _, s'. split; [done|]. exists r. split; [|destruct r; by eauto].
    apply (outcome_placed _ _ _ _ _ _ _ Hout Hinv). intros p k seg Hf. unfold placed_right. rewrite Hpl.
    pose proof (seg_zone _ _ _ Hinv (proj1 Hf)). done.
  - destruct (alloc_from_zone_spec s o VM_FREELIST_DMA Hinv Hi) as (r & s' & Hrun & Hout);
      [unfold VM_FREELIST_DMA, VM_NFREELIST; lia|].
    rewrite (bindM _ _ _ _ _ (fragmented_run _ _ _ _ Hrun)).
    eexists _, s'. split; [done|]. exists r. split; [|destruct r; by eauto].
    apply (outcome_placed _ _ _ _ _ _ _ Hout Hinv). intros p k seg Hf. unfold placed_right. rewrite Hpl.
    simpl. clear. intuition congruence.
  - destruct (alloc_any_zone_spec s o (Some node_id) Hinv Hi) as (r & s' & Hrun & Hout).
    unfold alloc_pages_from_numa. rewrite (bindM _ _ _ _ _ (fragmented_run _ _ _ _ Hrun)).
    eexists _, s'. split; [done|]. exists r. split; [|destruct r; by eauto].
    apply (outcome_placed _ _ _ _ _ _ _ Hout Hinv). intros p k seg Hf. unfold placed_right. rewrite Hpl.
    pose proof (seg_zone _ _ _ Hinv (proj1 Hf)). destruct Hf as [Hk _]. simpl.
    split; [intros ?; split; [done|by exists seg]|]. intros [_ (seg' & ? & ?)]. congruence.
  - destruct (request_exact s rq o a Hinv Hi Hpl) as (r & s' & Hrun & Hout).
    rewrite (bindM _ _ _ _ _ Hrun). eexists _, s'. split; [done|]. eexists. split; [exact Hout|].
    destruct r; by eauto.
Qed.
