(* ===== verification/BuddyRefs.v ===== *)
(** * Reference counts and the page cache

    What the operations on blocks already handed out do: they change the fields
    of one descriptor, and a block is given back with its last reference. *)

From stdpp Require Import functions.
From S2P Require Import Prelude Buddy BuddyLinks BuddyBlocks BuddyShape.
From S2P Require Import BuddyProofs BuddySplit BuddyAlloc.

(** ** Changing a field *)

Definition held_state (st : NodeState) : Prop := st = NODE_ALLOCATED \/ st = NODE_CACHED.

(** A change of a descriptor that leaves its block alone. *)
Record retag (f : BlockNode -> BlockNode) : Prop := {
  rt_erase n : erase (f n) = f (erase n);
  rt_links n : n_free_next (f n) = n_free_next n /\ n_free_prev (f n) = n_free_prev n;
  rt_block n : n_start (f n) = n_start n /\ n_order (f n) = n_order n /\
    n_seg_idx (f n) = n_seg_idx n /\ n_fl_type (f n) = n_fl_type n }.

Lemma retag_ref_count g : retag (fun n => with_ref_count (g (n_ref_count n)) n).
Proof. by split. Qed.
Lemma retag_slab_zone z : retag (with_slab_zone z).
Proof. by split. Qed.
Lemma retag_state st : retag (with_state st).
Proof. by split. Qed.
Lemma retag_cache_eligible : retag with_cache_eligible.
Proof. by split. Qed.

(** The block [i] is now described by [b']; nothing else changed. *)
Record retagged (s : BuddyAllocator) (i : nat) (b' : BlockNode) (s' : BuddyAllocator) : Prop := {
  rg_accounts : accounts s';
  rg_blocks : blocks s' = <[i := b']> (blocks s);
  rg_segments : segments s' = segments s;
  rg_initialized : initialized s' = initialized s;
  rg_pages p : page_free (blocks s') p <-> page_free (blocks s) p;
  rg_tidy lax segs : tidy lax segs (blocks s) -> tidy lax segs (blocks s') }.

Lemma held_active b : held_state (n_state b) -> active b = true.
Proof. intros H. apply active_state. by destruct H as [->| ->]. Qed.

Lemma geom_retag segs bl i b b' :
  geom segs bl -> bl !! i = Some b -> held_state (n_state b) -> held_state (n_state b') ->
  n_start b' = n_start b -> n_order b' = n_order b -> n_seg_idx b' = n_seg_idx b -> n_fl_type b' = n_fl_type b ->
  geom segs (<[i := b']> bl).
Proof.
  intros Hg Hb Hst Hst' H1 H2 H3 H4. pose proof (held_active _ Hst) as Ha.
  assert (forall j x, <[i := b']> bl !! j = Some x -> active x = true ->
    exists y, bl !! j = Some y /\ active y = true /\ n_order x = n_order y /\
      (block_ok segs j y -> block_ok segs j x)) as Hold.
  { intros j x [(-> & <- & _)|[_ Hj]]%list_lookup_insert_Some Hx; [|by exists x].
    exists b. split_and!; try done. intros [_ (seg & ? & ? & ?)]. split.
    - intros Hf. by destruct Hst' as [E|E]; rewrite E in Hf.
    - exists seg. by rewrite H1, H2, H3, H4. }
  split.
  - intros j x Hj Hx. destruct (Hold j x Hj Hx) as (y & Hy & Hay & _ & Hok). by apply Hok, (gm_ok _ _ Hg).
  - intros j k x z Hj Hk Hx Hz Hlt. destruct (Hold j x Hj Hx) as (y & Hy & Hay & -> & _).
    destruct (Hold k z Hk Hz) as (w & Hw & Haw & _). by eapply (gm_disjoint _ _ Hg j k).
Qed.

Lemma retag_spec s i b f :
  accounts s -> retag f -> blocks s !! i = Some b -> held_state (n_state b) -> held_state (n_state (f b)) ->
  exists s', node_mut (S i) f s = Done (tt, s') /\ retagged s i (f b) s'.
Proof.
  intros Hac [Her Hlinks Hblock] Hb Hst Hst'. destruct (ac_shape _ Hac) as [L Hsh].
  apply lookup_blocks in Hb as Hn. destruct Hn as (n & Hn & ->).
  assert (n_state (f n) = n_state (f (erase n))) as Hsf by (by rewrite <- Her).
  destruct (touch_alloc s L (sh_linked _ _ Hsh) i n f Hn) as (s' & Hrun & Hlk & Hbl & Hcore).
  - by destruct Hst as [E|E]; simpl in E; rewrite E.
  - rewrite Hsf. by destruct Hst' as [E|E]; rewrite E.
  - rewrite (held_active n) by done. apply held_active. by rewrite Hsf.
  - apply Hlinks.
  - apply Hlinks.
  - rewrite Her in Hbl. exists s'. split; [done|].
    destruct (Hblock (erase n)) as (E1 & E2 & E3 & E4).
    assert (shape s' L) as Hsh'.
    { eapply shape_step; [done..|]. by eapply geom_retag; [apply Hsh|..]. }
    destruct (sizes_held _ Hst) as [F1 F2]. destruct (sizes_held _ Hst') as [F3 F4].
    assert (sumZ free_size (blocks s') = sumZ free_size (blocks s)) as Hfs
      by (rewrite Hbl, (sumZ_insert _ _ _ _ _ Hb); lia).
    assert (sumZ held_size (blocks s') = sumZ held_size (blocks s)) as Hhs
      by (rewrite Hbl, (sumZ_insert _ _ _ _ _ Hb), F2, F4, E2; lia).
    pose proof (core_segments _ _ Hcore) as Hs. pose proof (shape_capacity _ _ _ _ Hsh Hsh' Hs) as Hcap.
    destruct Hac as [_ A1 A2 A3 A4]. split; [split|..]; try done.
    + by exists L.
    + by rewrite (core_free _ _ Hcore), Hfs.
    + by rewrite (core_allocated _ _ Hcore), Hhs.
    + by rewrite (core_total _ _ Hcore), Hcap.
    + by rewrite (core_initialized _ _ Hcore), (core_reserved _ _ Hcore), Hfs, Hhs, Hcap.
    + apply (core_initialized _ _ Hcore).
    + intros p. rewrite Hbl, (page_free_insert (segments s) _ _ (erase n)) by (done || apply Hsh).
      assert (n_state (f (erase n)) <> NODE_FREE /\ n_state (erase n) <> NODE_FREE) as [? ?]
        by (destruct Hst as [E|E], Hst' as [E'|E']; by rewrite E, E').
      clear -H H0. tauto.
    + intros lax segs. apply tidy_sub. rewrite Hbl.
      intros j x [(_ & <- & _)|[_ Hj]]%list_lookup_insert_Some Hx; [|done].
      by destruct Hst' as [E|E]; rewrite E in Hx.
Qed.

(** The invariant, once the references of the block are right again. *)
Lemma retagged_keeps s i b' s' :
  binv s -> retagged s i b' s' -> 1 <= n_ref_count b' <= U16_MAX -> keeps s s'.
Proof.
  intros [Hac Hrefs] [] Hr. split; [split; [done|]|done|done|auto].
  rewrite rg_blocks0. intros j x [[(_ & <- & _)|[_ Hj]]%list_lookup_insert_Some Hx]; [done|].
  by apply (Hrefs j x).
Qed.

(** ** References *)

(** The allocated block that starts at an address, if there is one. *)
Lemma allocated_at s a :
  binv s ->
  (exists i b n, hash_find a s = Done (S i, s) /\ nodes s !! i = Some n /\ b = erase n /\
     blocks s !! i = Some b /\ n_state b = NODE_ALLOCATED /\ n_start b = a) \/
  (exists p, hash_find a s = Done (p, s) /\
     (p = 0%nat \/ exists i n, p = S i /\ nodes s !! i = Some n /\ n_state n <> NODE_ALLOCATED) /\
     forall i b, blocks s !! i = Some b -> n_state b = NODE_ALLOCATED -> n_start b <> a).
Proof.
  intros Hinv. destruct (bi_shape _ Hinv) as [L Hsh].
  destruct (hash_find_any s L Hsh a) as [(i & b & Hh & Hb & Ha & Hst)|[Hh Hno]].
  - apply lookup_blocks in Hb as Hn. destruct Hn as (n & Hn & Hbn).
    destruct (decide (n_state b = NODE_ALLOCATED)) as [Hal|Hal]; [left; by exists i, b, n|right].
    exists (S i). split; [done|]. split; [right; exists i, n; by subst b|].
    intros j b' Hb' Hst' Heq. assert (j = i) as ->; [|congruence].
    eapply (start_inj _ _ Hsh); [done|done|apply active_state; congruence|done|congruence].
  - right. exists 0%nat. split; [done|]. split; [by left|]. intros i b Hb Hal. apply (Hno i b Hb).
    apply active_state. congruence.
Qed.

(** An operation on the allocated block at [a] changes it to [f]; on any other
    address it does nothing. *)
Definition on_block (s : BuddyAllocator) (a : Z) (f : BlockNode -> BlockNode) (s' : BuddyAllocator) : Prop :=
  (exists i b, blocks s !! i = Some b /\ n_state b = NODE_ALLOCATED /\ n_start b = a /\ retagged s i (f b) s') \/
  (s' = s /\ forall i b, blocks s !! i = Some b -> n_state b = NODE_ALLOCATED -> n_start b <> a).

Lemma inc_ref_spec s a :
  binv s -> exists s', inc_ref a s = Done (tt, s') /\ keeps s s' /\
    on_block s a (fun b => with_ref_count (Z.min U16_MAX (n_ref_count b + 1)) b) s'.
Proof.
  intros Hinv. unfold inc_ref.
  destruct (allocated_at s a Hinv) as [(i & b & n & Hh & Hn & Hbn & Hb & Hst & Ha)|(p & Hh & Hp & Hno)];
    rewrite (bindM _ _ _ _ _ Hh).
  - cbn [Nat.eqb]. rewrite (bindM _ _ _ _ _ (node_ref_ok _ _ _ Hn)).
    rewrite bool_decide_true by (by subst b).
    destruct (retag_spec s i b _ (bi_accounts _ Hinv)
      (retag_ref_count (fun c => Z.min U16_MAX (c + 1))) Hb) as (s' & Hrun & Hrg); [by left|by left|].
    exists s'. split_and!; [done| |left; by exists i, b].
    pose proof (bi_held_refs _ Hinv i b) as Hr. destruct Hr as [? ?]; [split; [done|by left]|].
    eapply retagged_keeps; [done..|]. simpl. unfold U16_MAX in *. lia.
  - exists s. split_and!; [|by apply keeps_refl|by right].
    destruct Hp as [->|(i & n & -> & Hn & Hst)]; [done|]. cbn [Nat.eqb].
    by rewrite (bindM _ _ _ _ _ (node_ref_ok _ _ _ Hn)), bool_decide_false.
Qed.

Lemma set_slab_zone_spec s a z :
  binv s -> exists s', set_slab_zone a z s = Done (tt, s') /\ keeps s s' /\ on_block s a (with_slab_zone z) s'.
Proof.
  intros Hinv. unfold set_slab_zone.
  destruct (allocated_at s a Hinv) as [(i & b & n & Hh & Hn & Hbn & Hb & Hst & Ha)|(p & Hh & Hp & Hno)];
    rewrite (bindM _ _ _ _ _ Hh).
  - cbn [Nat.eqb]. rewrite (bindM _ _ _ _ _ (node_ref_ok _ _ _ Hn)).
    rewrite bool_decide_true by (by subst b).
    destruct (retag_spec s i b _ (bi_accounts _ Hinv) (retag_slab_zone z) Hb) as (s' & Hrun & Hrg); [by left|by left|].
    exists s'. split_and!; [done| |left; by exists i, b].
    eapply retagged_keeps; [done..|]. apply (bi_held_refs _ Hinv i b). split; [done|by left].
  - exists s. split_and!; [|by apply keeps_refl|by right].
    destruct Hp as [->|(i & n & -> & Hn & Hst)]; [done|]. cbn [Nat.eqb].
    by rewrite (bindM _ _ _ _ _ (node_ref_ok _ _ _ Hn)), bool_decide_false.
Qed.

(** The end of the last reference: the block, whose count is now zero, is freed. *)
Lemma free_last s i b s1 :
  binv s -> initialized s = true -> retagged s i b s1 -> n_state b = NODE_ALLOCATED -> (i < length (blocks s))%nat ->
  exists s', free_pages (n_start b) (n_order b) s1 = Done (Ok tt, s') /\ keeps s s' /\ released s i (n_order b) s'.
Proof.
  intros [Hac Hrefs] Hi [Hac1 Hbl Hs Hin Hpg Htd] Hst Hlen.
  assert (blocks s1 !! i = Some b) as Hb by (rewrite Hbl; by apply list_lookup_insert_eq).
  destruct (ac_shape _ Hac1) as [L1 Hsh1].
  assert (forall j x, blocks s1 !! j = Some x -> n_state x = NODE_ALLOCATED -> n_start x = n_start b -> j = i) as Honly.
  { intros j x Hx Hsx Hax. eapply (start_inj _ _ Hsh1); [done|done|apply active_state; congruence..|done]. }
  destruct (free_pages_accounts s1 (n_start b) (n_order b) Hac1) as (r & s' & Hrun & Hac' & Hr); [congruence|].
  destruct r as [[]|e].
  2: { exfalso. destruct Hr as [_ [[_ Hbig]|[_ [[_ Hno]|(_ & j & x & Hx & Hsx & Hax & Hne)]]]].
    - destruct (block_fits _ _ Hsh1 _ _ Hb) as (seg & Hf & Hseg & _); [apply active_state; congruence|].
      pose proof (so_max _ Hseg). destruct Hf as (_ & _ & _ & ? & _). lia.
    - by apply (Hno i b Hb Hst).
    - rewrite (Honly j x Hx Hsx Hax) in Hx. congruence. }
  destruct Hr as (j & x & Hx & Hsx & Hax & _ & Hrel & Ht).
  rewrite (Honly j x Hx Hsx Hax) in Hrel. exists s'. split; [done|].
  assert (forall j x, j <> i -> held (blocks s1) j x <-> held (blocks s) j x) as Hheld.
  { intros j' x' Hne. unfold held. rewrite Hbl, list_lookup_insert_ne by done. done. }
  destruct Hrel as [R1 R2 R3 R4]. split; split; try congruence.
  - split; [done|]. intros j' x' Hj'. apply R2 in Hj' as [Hj' Hne]. apply (Hrefs j' x'). by apply Hheld.
  - rewrite Hs in Ht. intros Ht0. by apply Ht, Htd.
  - intros p. rewrite R1. by rewrite Hpg.
  - intros j' x'. rewrite R2. split; intros [H Hne]; (split; [by apply Hheld|done]).
Qed.

(** Giving up one of several references, and giving up the last. *)
Lemma dec_ref_spec s a :
  binv s -> initialized s = true ->
  exists r s', dec_ref a s = Done (r, s') /\ keeps s s' /\
    ((r = true /\ exists i b, blocks s !! i = Some b /\ n_state b = NODE_ALLOCATED /\ n_start b = a /\
        n_ref_count b = 1 /\ released s i (n_order b) s') \/
     (r = false /\ on_block s a (fun b => with_ref_count (n_ref_count b - 1) b) s' /\
        forall i b, blocks s !! i = Some b -> n_state b = NODE_ALLOCATED -> n_start b = a -> 1 < n_ref_count b)).
Proof.
  intros Hinv Hi. unfold dec_ref.
  destruct (allocated_at s a Hinv) as [(i & b & n & Hh & Hn & Hbn & Hb & Hst & Ha)|(p & Hh & Hp & Hno)];
    rewrite (bindM _ _ _ _ _ Hh).
  2: { exists false, s. split_and!; [|by apply keeps_refl|right; split_and!; [done|by right|]].
    - destruct Hp as [->|(i & n & -> & Hn & Hst)]; [done|]. cbn [Nat.eqb].
      by rewrite (bindM _ _ _ _ _ (node_ref_ok _ _ _ Hn)), bool_decide_false.
    - intros i b Hb Hst Ha. by destruct (Hno i b Hb Hst). }
  pose proof (bi_held_refs _ Hinv i b) as Hr. destruct Hr as [Hr1 Hr2]; [split; [done|by left]|].
  destruct (bi_shape _ Hinv) as [L Hsh].
  cbn [Nat.eqb]. rewrite (bindM _ _ _ _ _ (node_ref_ok _ _ _ Hn)).
  assert (n_state n = n_state b /\ n_ref_count n = n_ref_count b /\ n_order n = n_order b)
    as (-> & -> & ->) by (by subst b).
  rewrite bool_decide_true by done. destruct (Z.eqb_spec (n_ref_count b) 0); [lia|]. cbn [negb orb].
  destruct (retag_spec s i b _ (bi_accounts _ Hinv) (retag_ref_count (fun c => c - 1)) Hb)
    as (s1 & Hrun & Hrg); [by left|by left|]. rewrite (bindM _ _ _ _ _ Hrun).
  assert (forall j x, blocks s !! j = Some x -> n_state x = NODE_ALLOCATED -> n_start x = a -> x = b) as Honly.
  { intros j x Hx Hsx Hax. assert (j = i) as ->; [|congruence].
    eapply (start_inj _ _ Hsh); [done|done|apply active_state; congruence..|congruence]. }
  destruct (Z.eqb_spec (n_ref_count b - 1) 0) as [Hz|Hz].
  - destruct (free_last s i (with_ref_count (n_ref_count b - 1) b) s1 Hinv Hi Hrg Hst) as (s' & Hfree & Hk & Hrel);
      [by eapply lookup_lt_Some|]. simpl in Hfree, Hrel. rewrite Ha in Hfree.
    rewrite (bindM _ _ _ _ _ Hfree). exists true, s'. split_and!; [done|done|left].
    split; [done|]. exists i, b. split_and!; try done. lia.
  - exists false, s1. split_and!; [done|eapply retagged_keeps; [done..|simpl; lia]|right].
    split_and!; [done|left; by exists i, b|]. intros j x Hx Hsx Hax.
    rewrite (Honly j x Hx Hsx Hax). lia.
Qed.

(** ** The page cache *)

(** The index of the page cache finds the same descriptor as the allocator. *)
Lemma node_for_addr_eq s cap a :
  segs_ok (segments s) cap -> cap = node_capacity s -> node_for_addr s a = node_addr_for s a.
Proof.
  intros Hsegs ->. unfold node_for_addr, node_addr_for, page_location, segment.
  destruct (negb _); [done|].
  assert (forall l m, (forall j seg, l !! j = Some seg -> segments s !! (m + j)%nat = Some seg) ->
    node_for_addr_from l (node_capacity s) a =
    ('(k, p) ← page_location_from m l a; seg ← segments s !! k; idx ← checked_add (node_base seg) p;
     if node_capacity s <=? idx then None else Some (S (Z.to_nat idx)))) as Hgen; [|by apply Hgen].
  intros l. induction l as [|seg l IH]; intros m Hl; [done|]. cbn [node_for_addr_from page_location_from].
  assert (segments s !! m = Some seg) as Hk by (rewrite <- (Nat.add_0_r m); by apply Hl).
  pose proof (sg_ok _ _ Hsegs _ _ Hk) as Hseg.
  destruct ((a <? start (range seg)) || (seg_end (range seg) <=? a)) eqn:Hout.
  - apply IH. intros j x Hj. rewrite Nat.add_succ_comm. by apply Hl.
  - apply orb_false_iff in Hout as [H1%Z.ltb_ge H2%Z.leb_gt]. rewrite seg_end_ok in H2 by done.
    rewrite (so_size _ Hseg) in H2.
    destruct (Z.ltb_spec ((a - start (range seg)) / PAGE_SIZE) (total_pages seg)) as [|Hge].
    + simpl. by rewrite Hk.
    + exfalso. enough ((a - start (range seg)) / PAGE_SIZE < total_pages seg) by lia.
      apply Z.div_lt_upper_bound; [done|lia].
Qed.

(** The descriptor of an address, if it is the address of a page. *)
Lemma node_for_addr_cases s a :
  binv s ->
  node_for_addr s a = None \/
  exists i n, node_for_addr s a = Some (S i) /\ nodes s !! i = Some n /\ blocks s !! i = Some (erase n) /\
    (active n = true -> n_start n = a).
Proof.
  intros Hinv. destruct (bi_shape _ Hinv) as [L Hsh].
  rewrite (node_for_addr_eq s _ a (sh_segs _ _ Hsh) eq_refl).
  destruct (node_addr_for s a) as [q|] eqn:Hq; [right|by left].
  destruct (node_addr_for_inv _ (sh_segs _ _ Hsh) _ _ Hq) as (k & seg & i & -> & Hk & Hi & ->).
  destruct (block_lookup _ _ Hsh _ _ _ Hk Hi) as [b Hb]. rewrite Nat2Z.id in Hb.
  apply lookup_blocks in Hb as Hn. destruct Hn as (n & Hn & ->). exists i, n. split_and!; try done.
  intros Ha. destruct (block_fits _ _ Hsh _ _ Hb Ha) as (seg' & Hf & _ & Hst & _). simpl in Hst, Hf. rewrite Hst.
  destruct Hf as (Hk' & Hf). assert (in_seg seg' (Z.of_nat i)) as Hi' by (eapply fits_in; by split).
  pose proof (in_seg_inj _ _ (sh_segs _ _ Hsh) _ _ _ _ _ Hk Hk' Hi Hi'). by simplify_eq.
Qed.

Lemma node_for_addr_hit s i b :
  binv s -> blocks s !! i = Some b -> active b = true -> node_for_addr s (n_start b) = Some (S i).
Proof.
  intros Hinv Hb Ha. destruct (bi_shape _ Hinv) as [L Hsh].
  destruct (block_fits _ _ Hsh _ _ Hb Ha) as (seg & Hf & _ & -> & _).
  rewrite (node_for_addr_eq s _ _ (sh_segs _ _ Hsh) eq_refl).
  apply (node_addr_for_hit _ (sh_segs _ _ Hsh) _ _ _ (proj1 Hf)). by eapply fits_in.
Qed.

(** Marking a block cached and back again changes nothing. *)
Lemma alter_back s i n f g :
  nodes s !! i = Some n -> g (f n) = n ->
  exists s1, node_mut (S i) f s = Done (tt, s1) /\ node_mut (S i) g s1 = Done (tt, s).
Proof.
  intros Hn Hgf. eexists. split; [by eapply node_mut_ok|]. erewrite node_mut_ok.
  2: { simpl. rewrite list_lookup_alter_eq, Hn. done. }
  f_equal. f_equal. simpl.
  assert (alter g i (alter f i (nodes s)) = nodes s) as ->; [|by destruct s].
  apply list_eq. intros j. destruct (decide (j = i)) as [->|]; [|by rewrite !list_lookup_alter_ne].
  rewrite !list_lookup_alter_eq, Hn. simpl. by rewrite Hgf.
Qed.

Lemma try_cache_spec s pa :
  binv s -> pa_order pa = 0%nat -> pa_size pa = PAGE_SIZE -> pa_page_size pa = PAGE_SIZE ->
  exists r s', try_cache pa s = Done (r, s') /\ keeps s s' /\
    match r with
    | Ok _ => exists i b, blocks s !! i = Some b /\ n_state b = NODE_ALLOCATED /\ n_start b = paddr pa /\
        n_order b = 0%nat /\ n_cache_eligible b = true /\ retagged s i (with_state NODE_CACHED b) s'
    | Err NotEligible => s' = s /\ exists i b, blocks s !! i = Some b /\ n_state b = NODE_ALLOCATED /\
        n_start b = paddr pa /\ (n_order b <> 0%nat \/ n_cache_eligible b = false)
    | Err _ => s' = s
    end.
Proof.
  intros Hinv Ho Hs Hp. unfold try_cache. rewrite Ho, Hs, Hp, !Z.eqb_refl. cbn [Nat.eqb negb orb]. rewrite get_bind.
  pose proof (keeps_refl s Hinv) as Hk.
  destruct (node_for_addr_cases s (paddr pa) Hinv) as [->|(i & n & -> & Hn & Hb & Ha)];
    [by exists (Err (Invalid FreeInvalidAddress)), s|].
  rewrite (bindM _ _ _ _ _ (node_ref_ok _ _ _ Hn)).
  destruct (decide (n_state n = NODE_ALLOCATED)) as [Hst|Hst];
    [rewrite bool_decide_true by done|rewrite bool_decide_false by done; by exists (Err CacheNotAllocated), s].
  cbn [negb]. specialize (Ha ltac:(apply active_state; congruence)).
  destruct ((n_order n =? 0)%nat && n_cache_eligible n) eqn:Hel.
  - apply andb_true_iff in Hel as [Hord%Nat.eqb_eq Hel].
    destruct (retag_spec s i (erase n) _ (bi_accounts _ Hinv) (retag_state NODE_CACHED) Hb) as (s' & Hrun & Hrg);
      [by left|by right|]. rewrite (bindM _ _ _ _ _ Hrun). exists (Ok tt), s'. split_and!; [done| |by exists i, (erase n)].
    eapply retagged_keeps; [done..|]. apply (bi_held_refs _ Hinv i (erase n)). split; [done|by left].
  - destruct (alter_back s i n (with_state NODE_CACHED) (with_state NODE_ALLOCATED) Hn) as (s1 & R1 & R2);
      [destruct n; simpl in *; by subst|].
    rewrite (bindM _ _ _ _ _ R1), (bindM _ _ _ _ _ R2). exists (Err NotEligible), s. split_and!; try done.
    exists i, (erase n). split_and!; try done. simpl.
    apply andb_false_iff in Hel as [?%Nat.eqb_neq|?]; auto.
Qed.

Lemma try_activate_spec s a :
  binv s ->
  exists r s', try_activate a s = Done (r, s') /\ keeps s s' /\
    match r with
    | Ok _ => exists i b, blocks s !! i = Some b /\ n_state b = NODE_CACHED /\ n_start b = a /\
        retagged s i (with_state NODE_ALLOCATED b) s'
    | Err _ => s' = s /\ forall i b, blocks s !! i = Some b -> n_state b = NODE_CACHED -> n_start b <> a
    end.
Proof.
  intros Hinv. unfold try_activate. rewrite get_bind. pose proof (keeps_refl s Hinv) as Hk.
  pose proof (node_for_addr_hit s) as Hhit.
  destruct (node_for_addr_cases s a Hinv) as [Hno|(i & n & Hyes & Hn & Hb & Ha)].
  { rewrite Hno. exists (Err FreeInvalidAddress), s. split_and!; try done.
    intros i b Hb Hst <-. rewrite (Hhit i b) in Hno; [done|done..|apply active_state; congruence]. }
  rewrite Hyes, (bindM _ _ _ _ _ (node_ref_ok _ _ _ Hn)).
  destruct (decide (n_state n = NODE_CACHED)) as [Hst|Hst];
    [rewrite bool_decide_true by done|rewrite bool_decide_false by done].
  - specialize (Ha ltac:(apply active_state; congruence)).
    destruct (retag_spec s i (erase n) _ (bi_accounts _ Hinv) (retag_state NODE_ALLOCATED) Hb) as (s' & Hrun & Hrg);
      [by right|by left|]. rewrite (bindM _ _ _ _ _ Hrun). exists (Ok tt), s'. split_and!; [done| |by exists i, (erase n)].
    eapply retagged_keeps; [done..|]. apply (bi_held_refs _ Hinv i (erase n)). split; [done|by right].
  - exists (Err NotAllocated), s. split_and!; try done. intros j b Hj Hsj <-.
    rewrite (Hhit j b) in Hyes; [|done..|apply active_state; congruence]. by simplify_eq.
Qed.

(** No block is handed out at the address. *)
Lemma free_gone s a o :
  binv s -> initialized s = true -> (o <= MAX_TRACKED_ORDER)%nat ->
  (forall j x, blocks s !! j = Some x -> n_state x = NODE_ALLOCATED -> n_start x <> a) ->
  free_pages a o s = Done (Err NotAllocated, s).
Proof.
  intros Hinv Hi Ho Hno. destruct (free_pages_spec s a o Hinv Hi) as ([[]|e] & s' & Hrun & _ & Hr).
  - destruct Hr as (j & x & Hx & Hsx & Hax & _). by destruct (Hno j x Hx Hsx).
  - destruct Hr as [-> [[_ ?]|[_ [[-> _]|(_ & j & x & Hx & Hsx & Hax & _)]]]]; [lia|done|].
    by destruct (Hno j x Hx Hsx).
Qed.

(** A cached page cannot be freed, and has no reference to give up. *)
Lemma cached_not_freed s i b o :
  binv s -> initialized s = true -> blocks s !! i = Some b -> n_state b = NODE_CACHED -> (o <= MAX_TRACKED_ORDER)%nat ->
  free_pages (n_start b) o s = Done (Err NotAllocated, s) /\ dec_ref (n_start b) s = Done (false, s).
Proof.
  intros Hinv Hi Hb Hst Ho. destruct (bi_shape _ Hinv) as [L Hsh].
  assert (forall j x, blocks s !! j = Some x -> n_state x = NODE_ALLOCATED -> n_start x <> n_start b) as Hno.
  { intros j x Hx Hsx Hax. assert (j = i) as ->; [|congruence].
    eapply (start_inj _ _ Hsh); [done|done|apply active_state; congruence..|done]. }
  split.
  - by apply free_gone.
  - destruct (dec_ref_spec s (n_start b) Hinv Hi) as (r & s' & Hrun & _ & Hr).
    destruct Hr as [(_ & j & x & Hx & Hsx & Hax & _)|(-> & [(j & x & Hx & Hsx & Hax & _)|[-> _]] & _)];
      [by destruct (Hno j x Hx Hsx)..|done].
Qed.

(** A page for the cache is a page handed out and marked; there is none only if
    no page is free. *)
Lemma alloc_cacheable_spec s :
  binv s -> initialized s = true ->
  exists r s', alloc_cacheable_order0 s = Done (r, s') /\ keeps s s' /\
    match r with
    | Some pa => exists i k seg s1, pa = mkAllocation (addr_of seg (Z.of_nat i)) PAGE_SIZE 0 PAGE_SIZE /\
        allocated s i 0 k seg s1 /\
        retagged s1 i (with_cache_eligible (block_node (paddr pa) 0 k (fl_type seg) false)) s'
    | None => repacked s s' /\
        (tidy true (segments s) (blocks s) -> forall fl, (fl < VM_NFREELIST)%nat -> no_run s 0 fl None)
    end.
Proof.
  intros Hinv Hi. unfold alloc_cacheable_order0, alloc_pages.
  destruct (alloc_any_zone_spec s 0 None Hinv Hi) as (r & s1 & Hrun & Hk & Hr).
  rewrite (bindM _ _ _ _ _ Hrun). destruct r as [a|]; [|by exists None, s1].
  destruct Hr as (i & k & seg & -> & Hal & _ & _).
  set (nb := block_node (addr_of seg (Z.of_nat i)) 0 k (fl_type seg) false).
  assert (held (blocks s1) i nb) as [Hb Hst] by (apply (al_held _ _ _ _ _ _ Hal); by right).
  destruct (bi_shape _ (kp_inv _ _ Hk)) as [L1 Hsh1].
  pose proof (al_fits _ _ _ _ _ _ Hal) as Hf. rewrite <- (kp_segments _ _ Hk) in Hf.
  rewrite (bindM _ _ _ _ _ (hash_find_hit _ _ Hsh1 _ _ _ _ (proj1 Hf) (fits_in _ _ _ _ _ Hf) Hb)).
  cbn [Nat.eqb].
  apply lookup_blocks in Hb as Hn. destruct Hn as (n & Hn & Hbn).
  rewrite (bindM _ _ _ _ _ (node_ref_ok _ _ _ Hn)).
  assert (n_state n = n_state nb /\ n_order n = n_order nb) as (-> & ->) by (by rewrite Hbn).
  rewrite bool_decide_true by done. cbn [negb orb Nat.eqb nb block_node n_order].
  destruct (retag_spec s1 i nb _ (bi_accounts _ (kp_inv _ _ Hk)) retag_cache_eligible Hb) as (s' & Hrun' & Hrg);
    [by left|by left|]. rewrite (bindM _ _ _ _ _ Hrun'). eexists (Some _), s'. split; [done|]. split.
  - eapply keeps_trans; [exact Hk|]. eapply retagged_keeps; [apply Hk|done|]. simpl. unfold U16_MAX. lia.
  - by exists i, k, seg, s1.
Qed.
