(* ===== verification/BuddySeed.v ===== *)
(** * Seeding the free lists

    A range of pages that belong to no block is cut into the largest aligned
    blocks; afterwards exactly these pages are free in addition.  The cut leaves
    no two free buddies behind, unless a free block ended where the range
    begins. *)

From stdpp Require Import functions.
From S2P Require Import Prelude Buddy BuddyInit BuddyLinks BuddyBlocks BuddyShape.
From S2P Require Import BuddyProofs BuddySplit BuddyAlloc.

(** ** The order of the next block *)

Lemma order_floor_loop_spec fuel order pages :
  pow2 order <= pages < pow2 (order + fuel) ->
  let o := order_floor_loop fuel order (pow2 order) pages in pow2 o <= pages < pow2 (S o).
Proof.
  revert order. induction fuel as [|fuel IH]; intros order Hp; cbn [order_floor_loop].
  { rewrite Nat.add_0_r in Hp. lia. }
  replace (Z.shiftl (pow2 order) 1) with (pow2 (S order)) by (rewrite pow2_S, Z.shiftl_mul_pow2; lia).
  destruct (Z.leb_spec (pow2 (S order)) pages); [|lia]. apply IH. rewrite Nat.add_succ_comm. lia.
Qed.

Lemma pages_to_order_floor_spec pages :
  1 <= pages <= U64_MAX ->
  pow2 (pages_to_order_floor pages) <= pages < pow2 (S (pages_to_order_floor pages)).
Proof.
  intros Hp. unfold pages_to_order_floor. apply (order_floor_loop_spec 64 0 pages).
  rewrite pow2_0. change (pow2 (0 + 64)) with 18446744073709551616. unfold U64_MAX in Hp. lia.
Qed.

Lemma seed_order_loop_spec order pfn :
  let o := seed_order_loop order pfn in
  (o <= order)%nat /\ (pow2 o | pfn) /\ forall m, (m <= order)%nat -> (pow2 m | pfn) -> (m <= o)%nat.
Proof.
  induction order as [|order IH]; cbn [seed_order_loop].
  { split_and!; [done|exists pfn; rewrite pow2_0; lia|done]. }
  rewrite block_pages_pow2, land_pow2_minus_1. pose proof (pow2_pos (S order)).
  destruct (Z.eqb_spec (pfn mod pow2 (S order)) 0) as [Hz|Hz]; cbn [negb].
  - split_and!; [done|apply Z.mod_divide; lia|done].
  - destruct IH as (H1 & H2 & H3). split_and!; [lia|done|]. intros m Hm Hd.
    destruct (decide (m = S order)) as [->|]; [|apply H3; [lia|done]].
    apply Z.mod_divide in Hd; lia.
Qed.

(** The largest order that is allowed, available and aligned. *)
Lemma best_seed_order_spec max pfn available :
  1 <= available <= U64_MAX ->
  let o := best_seed_order max pfn available in
  (o <= max)%nat /\ pow2 o <= available /\ (pow2 o | pfn) /\
  forall m, (m <= max)%nat -> pow2 m <= available -> (pow2 m | pfn) -> (m <= o)%nat.
Proof.
  intros Ha. unfold best_seed_order. pose proof (pages_to_order_floor_spec available Ha) as Hf.
  set (f := pages_to_order_floor available) in *.
  destruct (seed_order_loop_spec (Nat.min f max) pfn) as (H1 & H2 & H3).
  set (o := seed_order_loop (Nat.min f max) pfn) in *. split_and!; [lia| |done|].
  - pose proof (pow2_le o f ltac:(lia)). lia.
  - intros m Hm Hav Hd. apply H3; [|done]. assert (m < S f)%nat by (apply pow2_lt; lia). lia.
Qed.

(** ** Placing a block *)

(** No active block meets the pages [a .. b). *)
Definition clear_run (bl : list BlockNode) (a b : Z) : Prop :=
  forall j x, bl !! j = Some x -> active x = true -> Z.of_nat j + pow2 (n_order x) <= a \/ b <= Z.of_nat j.

(** The pages [P], [n] of them, are free in addition, and counted. *)
Record seeded (s : BuddyAllocator) (P : Z -> Prop) (n : Z) (s' : BuddyAllocator) : Prop := {
  sd_shape : exists L', shape s' L';
  sd_core : core s' = core (set_stats (set_free (free_pages_count (stats s) + n) (stats s)) s);
  sd_pages p : page_free (blocks s') p <-> page_free (blocks s) p \/ P p;
  sd_held j b : held (blocks s') j b <-> held (blocks s) j b;
  sd_free_sum : sumZ free_size (blocks s') = sumZ free_size (blocks s) + n;
  sd_held_sum : sumZ held_size (blocks s') = sumZ held_size (blocks s);
  sd_active j b : blocks s' !! j = Some b -> active b = true ->
    blocks s !! j = Some b \/ forall p, covers j (n_order b) p -> P p }.

Definition run (a n : Z) : Z -> Prop := fun p => a <= p < a + n.

Lemma core_set_free s s' v :
  core s' = core s -> core (set_stats (set_free v (stats s')) s') = core (set_stats (set_free v (stats s)) s).
Proof. destruct s as [? ? ? ? ? ? ? []], s' as [? ? ? ? ? ? ? []]. unfold core. simpl. intros [=]. by subst. Qed.

Lemma seeded_refl s L P : shape s L -> (forall p, ~ P p) -> seeded s P 0 s.
Proof.
  intros Hsh HP. split; try done.
  - by exists L.
  - rewrite Z.add_0_r. by destruct s as [? ? ? ? ? ? ? []].
  - intros p. specialize (HP p). tauto.
  - lia.
  - intros. by left.
Qed.

Lemma seeded_trans s1 s2 s3 P Q R n m :
  seeded s1 P n s2 -> seeded s2 Q m s3 -> (forall p, R p <-> P p \/ Q p) -> seeded s1 R (n + m) s3.
Proof.
  intros [] [] HR. split; try done.
  - rewrite sd_core1. rewrite (core_set_free _ _ _ sd_core0). f_equal.
    apply (f_equal (fun s => free_pages_count (stats s))) in sd_core0. simpl in sd_core0. rewrite sd_core0.
    destruct s1 as [? ? ? ? ? ? ? []]. simpl. by rewrite Z.add_assoc.
  - intros p. rewrite sd_pages1, sd_pages0, HR. tauto.
  - intros j b. by rewrite sd_held1.
  - lia.
  - lia.
  - intros j b Hb Ha. destruct (sd_active1 j b Hb Ha) as [Hj|Hj].
    + destruct (sd_active0 j b Hj Ha) as [?|Hp]; [by left|right]. intros p Hc. apply HR. left. by apply Hp.
    + right. intros p Hc. apply HR. right. by apply Hj.
Qed.

Lemma seeded_iff s P Q n s' : seeded s P n s' -> (forall p, P p <-> Q p) -> seeded s Q n s'.
Proof.
  intros [] HPQ. split; try done.
  - intros p. by rewrite sd_pages0, HPQ.
  - intros j b Hb Ha. destruct (sd_active0 j b Hb Ha) as [?|Hp]; [by left|right].
    intros p Hc. by apply HPQ, Hp.
Qed.

Lemma seeded_segments s P n s' : seeded s P n s' -> segments s' = segments s.
Proof. intros []. apply (core_segments _ _ sd_core0). Qed.

Lemma seeded_clear s P n s' a b :
  seeded s P n s' -> clear_run (blocks s) a b -> (forall p, P p -> p < a \/ b <= p) -> a < b ->
  clear_run (blocks s') a b.
Proof.
  intros Hsd Hc HP Hab j x Hx Ha. destruct (sd_active _ _ _ _ Hsd j x Hx Ha) as [?|Hp]; [by eapply Hc|].
  pose proof (pow2_pos (n_order x)).
  assert (forall p, Z.of_nat j <= p < Z.of_nat j + pow2 (n_order x) -> p < a \/ b <= p) as Hout by (intros; by apply HP, Hp).
  destruct (Z.lt_ge_cases (Z.of_nat j) a); [left|right; destruct (Hout (Z.of_nat j)); lia].
  destruct (Z.lt_ge_cases a (Z.of_nat j + pow2 (n_order x))); [|done]. destruct (Hout a); lia.
Qed.

(** One block is placed and counted. *)
Lemma seed_step s L k seg i o :
  shape s L -> fits (segments s) (Z.of_nat i) o k seg -> vacant (blocks s) (Z.of_nat i) o ->
  exists s1 s2, new_node (addr_of seg (Z.of_nat i)) o k (fl_type seg) true s = Done (Some (S i), s1) /\
    add_to_free_list (S i) s1 = Done (tt, s2) /\
    blocks s2 = <[i := block_node (addr_of seg (Z.of_nat i)) o k (fl_type seg) true]> (blocks s) /\
    segments s2 = segments s /\
    seeded s (run (Z.of_nat i) (pow2 o)) (pow2 o) (set_stats (set_free (free_pages_count (stats s2) + block_pages o) (stats s2)) s2).
Proof.
  intros Hsh Hf Hv. destruct (step_put_free s L Hsh i o k seg Hf Hv) as (s1 & s2 & H1 & H2 & Hsh2 & Hbl & Hcore).
  destruct (block_lookup _ _ Hsh _ _ _ (proj1 Hf) (fits_in _ _ _ _ _ Hf)) as [b0 Hb0].
  rewrite Nat2Z.id in Hb0. pose proof (vacant_inactive _ _ _ _ Hv Hb0) as Hin.
  exists s1, s2. split_and!; [done|done|done|apply (core_segments _ _ Hcore)|].
  rewrite block_pages_pow2. set (s3 := set_stats _ s2). assert (blocks s3 = blocks s2) as Hbl3 by done.
  split; rewrite ?Hbl3, ?Hbl.
  - eexists. unfold s3. by eapply shape_stats.
  - unfold s3. rewrite (core_set_free _ _ _ Hcore). by rewrite (core_free _ _ Hcore).
  - intros p. rewrite (page_free_insert (segments s) _ _ b0) by (done || apply Hsh). rewrite Hin. simpl.
    unfold covers, run. clear. intuition congruence.
  - intros j b. rewrite (held_insert _ _ b0) by done.
    destruct (decide (j = i)) as [->|Hne]; [|clear -Hne; naive_solver].
    split; [intros [(_ & -> & _ & [?|?])|[? _]]; done|]. intros [Hb' [?|?]]; congruence.
  - rewrite (sumZ_insert _ _ _ _ _ Hb0), (proj1 (sizes_inactive _ Hin)), (proj1 (sizes_new _ _ _ _ _)). lia.
  - rewrite (sumZ_insert _ _ _ _ _ Hb0), (proj2 (sizes_inactive _ Hin)), (proj2 (sizes_new _ _ _ _ _)). lia.
  - intros j b [(-> & <- & _)|[_ Hj]]%list_lookup_insert_Some _; [by right|by left].
Qed.

(** ** A range *)

(** A free block of the segment that ends at [e] could not have been larger
    within the pages up to [r]. *)
Definition greedy_end (bl : list BlockNode) (k : nat) (seg : BuddySegment) (e r : Z) : Prop :=
  forall j b, bl !! j = Some b -> n_state b = NODE_FREE -> n_seg_idx b = k ->
    Z.of_nat j + pow2 (n_order b) = e -> (n_order b < max_order seg)%nat ->
    (pow2 (S (n_order b)) | pfn_of seg (Z.of_nat j)) -> r < Z.of_nat j + pow2 (S (n_order b)).

Lemma greedy_start bl k seg e r : ~ page_free bl (e - 1) -> greedy_end bl k seg e r.
Proof.
  intros Hn j b Hb Hst _ He _ _. destruct Hn. exists j, b. split_and!; try done. unfold covers.
  pose proof (pow2_pos (n_order b)). lia.
Qed.

(** Placing the block at the start of the run does not leave buddies unmerged. *)
Lemma greedy_tidy segs bl k seg i o a fl r :
  tidy false segs bl -> segs !! k = Some seg -> greedy_end bl k seg (Z.of_nat i) r ->
  clear_run bl (Z.of_nat i) r -> ~ page_free bl r -> Z.of_nat i + pow2 o <= r ->
  (pow2 o | pfn_of seg (Z.of_nat i)) -> tidy false segs (<[i := block_node a o k fl true]> bl).
Proof.
  intros Ht Hk Hgr Hclear Hnr Hr Hal. apply (tidy_put _ _ _ _ _ seg); [done|done|left]. simpl.
  intros Hmax j b Hj Hst Hord Hkb Hbud. pose proof (pow2_pos o). pose proof (pow2_S o).
  pose proof (Hclear j b Hj ltac:(apply active_state; congruence)) as Hcl.
  destruct (buddy_cases _ _ _ _ Hal Hbud) as [[Hq _]|[Hq Hd]]; rewrite Hord in Hcl.
  { apply Hnr. exists j, b. split_and!; try done. unfold covers. rewrite Hord. lia. }
  pose proof (Hgr j b Hj Hst Hkb) as Hgj. rewrite Hord in Hgj.
  specialize (Hgj ltac:(lia) Hmax Hd). lia.
Qed.

(** The block itself could not have been larger. *)
Lemma greedy_next bl k seg i o a fl r :
  clear_run bl (Z.of_nat i) r -> Z.of_nat i + pow2 o <= r ->
  (forall m, (m <= max_order seg)%nat -> pow2 m <= r - Z.of_nat i ->
     (pow2 m | pfn_of seg (Z.of_nat i)) -> (m <= o)%nat) ->
  greedy_end (<[i := block_node a o k fl true]> bl) k seg (Z.of_nat i + pow2 o) r.
Proof.
  intros Hclear Hr Hmax j b [(-> & <- & _)|[Hne Hj]]%list_lookup_insert_Some Hst Hk He Ho Hd; simpl in *.
  - destruct (Z.lt_ge_cases r (Z.of_nat j + pow2 (S o))) as [|Hge]; [done|].
    specialize (Hmax (S o) Ho ltac:(lia) Hd). lia.
  - pose proof (Hclear j b Hj ltac:(apply active_state; congruence)).
    pose proof (pow2_pos o). pose proof (pow2_pos (n_order b)). lia.
Qed.

Lemma pages_u64 s L k seg :
  shape s L -> segments s !! k = Some seg -> 0 <= node_base seg /\ total_pages seg <= U64_MAX.
Proof.
  intros Hsh Hk. pose proof (sh_segs _ _ Hsh) as Hsegs. pose proof (so_pages _ (sg_ok _ _ Hsegs _ _ Hk)).
  pose proof (sg_cap_max _ _ Hsegs).
  pose proof (in_seg_cap _ _ Hsegs k seg (node_base seg) Hk ltac:(unfold in_seg; lia)).
  pose proof (in_seg_cap _ _ Hsegs k seg (node_base seg + total_pages seg - 1) Hk ltac:(unfold in_seg; lia)). lia.
Qed.

Lemma seed_loop_spec k seg r fuel s L cur :
  shape s L -> segments s !! k = Some seg -> 0 <= cur <= r -> r <= total_pages seg ->
  clear_run (blocks s) (node_base seg + cur) (node_base seg + r) -> r - cur <= Z.of_nat fuel ->
  exists s', seed_loop fuel k seg cur r s = Done (Ok tt, s') /\
    seeded s (run (node_base seg + cur) (r - cur)) (r - cur) s' /\
    (tidy false (segments s) (blocks s) ->
     greedy_end (blocks s) k seg (node_base seg + cur) (node_base seg + r) ->
     ~ page_free (blocks s) (node_base seg + r) ->
     tidy false (segments s) (blocks s')).
Proof.
  revert s L cur. induction fuel as [|fuel IH]; intros s L cur Hsh Hk Hc Hr Hclear Hfuel; cbn [seed_loop];
    (destruct (Z.ltb_spec cur r) as [Hlt|Hge];
      [|exists s; replace (r - cur) with 0 by lia; split_and!; [done|eapply seeded_refl; [done|unfold run; lia]|done]]); [lia|].
  pose proof (sg_ok _ _ (sh_segs _ _ Hsh) _ _ Hk) as Hseg.
  destruct (pages_u64 _ _ _ _ Hsh Hk) as [Hbase Hu].
  assert (exists i, node_base seg + cur = Z.of_nat i) as [i Hi] by (exists (Z.to_nat (node_base seg + cur)); lia).
  replace (start (range seg) + cur * PAGE_SIZE) with (addr_of seg (Z.of_nat i)) by (unfold addr_of; lia).
  rewrite Hi, addr_of_div in * by done.
  destruct (best_seed_order_spec (max_order seg) (pfn_of seg (Z.of_nat i)) (r - cur)) as (O1 & O2 & O3 & O4).
  { lia. }
  set (o := best_seed_order _ _ _) in *. clearbody o. pose proof (pow2_pos o) as Hpos.
  destruct (seed_step s L k seg i o Hsh) as (s1 & s2 & R1 & R2 & Hbl & Hs2 & Hsd).
  { split_and!; try done; lia. }
  { intros j b Hb Ha. pose proof (Hclear j b Hb Ha). lia. }
  rewrite (bindM _ _ _ _ _ R1), (bindM _ _ _ _ _ R2), map_stats_bind.
  set (s3 := set_stats _ s2) in *. destruct (sd_shape _ _ _ _ Hsd) as [L3 Hsh3].
  rewrite block_pages_pow2.
  assert (node_base seg + (cur + pow2 o) = Z.of_nat i + pow2 o) as Hnext by lia.
  destruct (IH s3 L3 (cur + pow2 o) Hsh3) as (s' & Hrun & Hsd' & Ht); rewrite ?Hnext in *; try lia.
  - by change (segments s3) with (segments s2); rewrite Hs2.
  - intros j b Hb Ha. destruct (sd_active _ _ _ _ Hsd j b Hb Ha) as [Hj|Hj].
    + pose proof (Hclear j b Hj Ha). lia.
    + pose proof (pow2_pos (n_order b)). specialize (Hj (Z.of_nat j + pow2 (n_order b) - 1)).
      unfold covers, run in Hj. lia.
  - exists s'. split; [done|]. split.
    + replace (r - cur) with (pow2 o + (r - (cur + pow2 o))) by lia.
      eapply seeded_trans; [done|done|]. intros p. unfold run. lia.
    + intros Htd Hgr Hnr. change (segments s3) with (segments s2) in Ht. rewrite Hs2 in Ht.
      change (blocks s3) with (blocks s2) in Ht. rewrite Hbl in Ht. apply Ht.
      * eapply greedy_tidy; try done; lia.
      * apply greedy_next; [done|lia|]. intros m H1 H2. apply O4; [done|lia].
      * rewrite <- Hbl. intros [Hp|Hp]%(sd_pages _ _ _ _ Hsd); [done|unfold run in Hp; lia].
Qed.

Lemma seed_free_range_spec s L k seg a r :
  shape s L -> segments s !! k = Some seg -> 0 <= a <= r -> r <= total_pages seg ->
  clear_run (blocks s) (node_base seg + a) (node_base seg + r) ->
  exists s', seed_free_range k a r s = Done (Ok tt, s') /\ 
    seeded s (run (node_base seg + a) (r - a)) (r - a) s' /\
    (tidy false (segments s) (blocks s) ->
     greedy_end (blocks s) k seg (node_base seg + a) (node_base seg + r) ->
     ~ page_free (blocks s) (node_base seg + r) -> tidy false (segments s) (blocks s')).
Proof.
  intros. unfold seed_free_range, segment. rewrite get_bind, H0. eapply seed_loop_spec; try done. lia.
Qed.
