(* ===== verification/BuddyMeta.v ===== *)
(** * The segments and the metadata of the allocator

    What the search for the next reserved run finds: the first interval not yet
    passed, extended by the intervals that touch it, and nothing that no interval
    covers.  On it rest the placement of the metadata and the division of a
    segment into free ranges.

    The memory map handed to [init], normalised and divided at the DMA limit, is
    a list of disjoint, page aligned segments; numbering their pages one after
    the other gives every page one descriptor.  The range for the segment records
    and the descriptors is a page aligned hole of the memory map that no reserved
    interval meets, and is found if there is one; the arrays the allocator takes
    from it always fit. *)

From S2P Require Import Prelude Buddy BuddyInit BuddyLinks BuddyBlocks.

(** ** Intervals *)

Definition nonempty (iv : Z * Z) : Prop := iv.1 < iv.2.
Definition covered (ivs : list (Z * Z)) (x : Z) : Prop := exists iv, iv ∈ ivs /\ iv.1 <= x < iv.2.

(** The intervals that end after [c]: each round of each search passes one. *)
Definition ahead (c : Z) (ivs : list (Z * Z)) : list (Z * Z) := filter (fun iv => c < iv.2) ivs.

Lemma ahead_le c c' ivs : c <= c' -> (length (ahead c' ivs) <= length (ahead c ivs))%nat.
Proof.
  intros Hc. unfold ahead. induction ivs as [|iv ivs IH]; [done|]. rewrite !filter_cons.
  destruct (decide (c' < iv.2)), (decide (c < iv.2)); simpl; lia.
Qed.

Lemma ahead_lt c c' ivs iv :
  c <= c' -> iv ∈ ivs -> c < iv.2 <= c' -> (length (ahead c' ivs) < length (ahead c ivs))%nat.
Proof.
  intros Hc Hin Hiv. induction ivs as [|x ivs IH]; [by apply elem_of_nil in Hin|].
  pose proof (ahead_le c c' ivs Hc) as Hle. unfold ahead in *. rewrite !filter_cons.
  apply elem_of_cons in Hin as [<-|Hin].
  - destruct (decide (c' < iv.2)), (decide (c < iv.2)); simpl; lia.
  - specialize (IH Hin). destruct (decide (c' < x.2)), (decide (c < x.2)); simpl; lia.
Qed.

Lemma ahead_length c ivs : (length (ahead c ivs) <= length ivs)%nat.
Proof. apply length_filter. Qed.

(** ** The first interval *)

Lemma next_fold_spec cur ivs acc :
  (forall c, acc = Some c -> cur < c.2) ->
  match fold_left (fun n iv => if cur <? iv.2 then choose_earlier n iv else n) ivs acc with
  | None => acc = None /\ forall iv, iv ∈ ivs -> iv.2 <= cur
  | Some c => cur < c.2 /\ (c ∈ ivs \/ acc = Some c) /\
      (forall iv, iv ∈ ivs -> cur < iv.2 -> c.1 <= iv.1) /\ (forall a, acc = Some a -> c.1 <= a.1)
  end.
Proof.
  revert acc. induction ivs as [|iv ivs IH]; intros acc Hacc; cbn [fold_left].
  { destruct acc as [c|]; [|split; [done|by intros ? ?%elem_of_nil]].
    split_and!; [auto|auto|by intros ? ?%elem_of_nil|]. intros a [= ->]. done. }
  set (acc' := if cur <? iv.2 then choose_earlier acc iv else acc).
  assert ((cur < iv.2 -> exists c, acc' = Some c /\ (c = iv \/ acc = Some c) /\ c.1 <= iv.1 /\
             forall a, acc = Some a -> c.1 <= a.1) /\ (iv.2 <= cur -> acc' = acc)) as [Hin Hout].
  { unfold acc'. destruct (Z.ltb_spec cur iv.2); split; try lia; try done. intros _. unfold choose_earlier.
    destruct acc as [a|]; [|exists iv; split_and!; [done|auto|lia|done]].
    destruct (Z.ltb_spec a.1 iv.1); [exists a; split_and!; [done|auto|lia|by intros ? [= ->]]|].
    destruct (Z.eqb_spec a.1 iv.1); simpl.
    - destruct (iv.2 <=? a.2); [exists a|exists iv]; (split_and!; [done|auto|lia|intros ? [= ->]; lia]).
    - exists iv. split_and!; [done|auto|lia|intros ? [= ->]; lia]. }
  specialize (IH acc'). destruct (Z.lt_ge_cases cur iv.2) as [Hlt|Hge].
  - destruct (Hin Hlt) as (c0 & Hc0 & Hfrom & Hle & Hall). rewrite Hc0 in IH.
    assert (cur < c0.2) as Hc02 by (destruct Hfrom as [->|?]; auto).
    specialize (IH ltac:(intros ? [= ->]; done)). rewrite Hc0.
    destruct (fold_left _ ivs _) as [c|]; [|by destruct IH].
    destruct IH as (H1 & H2 & H3 & H4). specialize (H4 c0 eq_refl). split_and!; [done| | |].
    + destruct H2 as [?|[= ->]]; [left; by right|]. destruct Hfrom as [->|?]; [left; by left|auto].
    + intros x [->|Hx]%elem_of_cons Hc; [lia|auto].
    + intros a Ha. specialize (Hall a Ha). lia.
  - rewrite (Hout Hge) in *. specialize (IH Hacc). destruct (fold_left _ ivs _) as [c|].
    + destruct IH as (H1 & H2 & H3 & H4). split_and!; [done| | |done].
      * destruct H2; [left; by right|auto].
      * intros x [->|Hx]%elem_of_cons Hc; [lia|auto].
    + destruct IH as [-> IH]. split; [done|]. intros x [->|Hx]%elem_of_cons; auto.
Qed.

(** ** The extension *)

(** A round moves the end over covered points only, to the end of an interval,
    and stays where it is only if nothing touches it. *)
Lemma extend_pass_spec ivs e :
  let e' := extend_pass ivs e in
  e <= e' /\ (forall x, e <= x < e' -> covered ivs x) /\
  (e < e' -> exists iv, iv ∈ ivs /\ iv.2 = e') /\
  (e' = e -> forall iv, iv ∈ ivs -> iv.1 <= e -> iv.2 <= e).
Proof.
  unfold extend_pass. revert e. induction ivs as [|iv ivs IH]; intros e; cbn [fold_left].
  { split_and!; [lia|lia|lia|]. by intros _ ? ?%elem_of_nil. }
  set (e1 := if (iv.1 <=? e) && (e <? iv.2) then iv.2 else e).
  assert ((e1 = iv.2 /\ iv.1 <= e < iv.2) \/ (e1 = e /\ (iv.1 <= e -> iv.2 <= e))) as He1.
  { unfold e1. destruct (Z.leb_spec iv.1 e), (Z.ltb_spec e iv.2); simpl; lia. }
  destruct (IH e1) as (H1 & H2 & H3 & H4). set (e' := fold_left _ ivs e1) in *. clearbody e1 e'.
  assert (forall x, covered ivs x -> covered (iv :: ivs) x) as Hmore.
  { intros x (v & Hv & Hx). exists v. split; [by right|done]. }
  split_and!.
  - lia.
  - intros x Hx. destruct (Z.lt_ge_cases x e1); [|apply Hmore, H2; lia].
    exists iv. split; [by left|lia].
  - intros Hlt. destruct (Z.lt_ge_cases e1 e') as [Hl|Hl].
    + destruct (H3 Hl) as (v & Hv & ?). exists v. split; [by right|done].
    + exists iv. split; [by left|lia].
  - intros He v [->|Hv]%elem_of_cons Hle; [lia|]. assert (e1 = e) as -> by lia. by apply H4.
Qed.

Lemma extend_loop_spec ivs fuel e :
  (length (ahead e ivs) < fuel)%nat ->
  let e' := extend_loop fuel ivs e in
  e <= e' /\ (forall x, e <= x < e' -> covered ivs x) /\ (forall iv, iv ∈ ivs -> iv.1 <= e' -> iv.2 <= e').
Proof.
  revert e. induction fuel as [|fuel IH]; intros e Hf; [lia|]. cbn [extend_loop].
  destruct (extend_pass_spec ivs e) as (H1 & H2 & H3 & H4). set (e1 := extend_pass ivs e) in *. clearbody e1.
  destruct (Z.eqb_spec e1 e) as [->|Hne]; [split_and!; [lia|lia|auto]|].
  destruct (H3 ltac:(lia)) as (v & Hv & Hv2).
  destruct (IH e1) as (K1 & K2 & K3).
  { pose proof (ahead_lt e e1 ivs v ltac:(lia) Hv ltac:(lia)). lia. }
  split_and!; [lia| |done]. intros x Hx. destruct (Z.lt_ge_cases x e1); [apply H2; lia|apply K2; lia].
Qed.

(** The next run: it starts at the first interval that ends after [cur], no
    interval meets the points before it, each of its points is in an interval,
    and it takes in every interval that touches it. *)
Lemma next_run_spec ivs cur :
  Forall nonempty ivs ->
  match next_run ivs cur with
  | None => forall iv, iv ∈ ivs -> iv.2 <= cur
  | Some (first, e) =>
      (exists iv, iv ∈ ivs /\ iv.1 = first /\ cur < iv.2 <= e) /\
      (forall x, cur <= x < first -> ~ covered ivs x) /\
      (forall x, first <= x < e -> covered ivs x) /\
      (forall iv, iv ∈ ivs -> iv.1 <= e -> iv.2 <= e)
  end.
Proof.
  intros Hne. unfold next_run. pose proof (next_fold_spec cur ivs None ltac:(done)) as Hf.
  destruct (fold_left _ ivs None) as [[first e0]|]; [|apply Hf].
  destruct Hf as (H1 & [Hin|] & H3 & _); [|done].
  destruct (extend_loop_spec ivs (S (length ivs)) e0) as (K1 & K2 & K3); [pose proof (ahead_length e0 ivs); lia|].
  set (e := extend_loop _ ivs e0) in *. clearbody e. simpl in *. split_and!; [|..|done].
  - exists (first, e0). simpl. split_and!; [done|done|lia|lia].
  - intros x Hx (iv & Hiv & Hc). specialize (H3 iv Hiv ltac:(lia)). lia.
  - intros x Hx. destruct (Z.lt_ge_cases x e0); [|apply K2; lia]. exists (first, e0). simpl. split; [done|lia].
Qed.

(** ** Page alignment *)

Lemma land_page v : 0 <= v <= U64_MAX -> Z.land v (U64_MAX - (PAGE_SIZE - 1)) = v - v mod PAGE_SIZE.
Proof. intros Hv. change PAGE_SIZE with (pow2 12). rewrite <- align_down_pow2 by (done || lia). done. Qed.

Lemma is_power_of_two_pow2 o : is_power_of_two (pow2 o) = true.
Proof.
  unfold is_power_of_two. pose proof (pow2_pos o). rewrite land_pow2_minus_1, Z.mod_same by lia.
  by rewrite (proj2 (Z.ltb_lt 0 (pow2 o))).
Qed.

Lemma align_up_pow2 v o :
  0 <= v -> (o < 64)%nat ->
  match align_up_checked v (pow2 o) with
  | Some x => v <= x < v + pow2 o /\ (pow2 o | x)
  | None => U64_MAX < v + (pow2 o - 1)
  end.
Proof.
  intros Hv Ho. unfold align_up_checked. rewrite is_power_of_two_pow2. pose proof (pow2_pos o).
  destruct (Z.eqb_spec (pow2 o) 0); [lia|]. simpl.
  destruct (checked_add v (pow2 o - 1)) as [w|] eqn:Hw; simpl.
  - apply checked_add_Some in Hw as [Hw ->]. fold (align_down (v + (pow2 o - 1)) (pow2 o)).
    rewrite align_down_pow2 by (done || lia).
    set (w := v + _) in *. pose proof (Z.mod_pos_bound w (pow2 o) ltac:(lia)).
    pose proof (Z.div_mod w (pow2 o) ltac:(lia)). split; [unfold w in *; lia|]. exists (w / pow2 o). lia.
  - unfold checked_add in Hw. destruct (Z.leb_spec (v + (pow2 o - 1)) U64_MAX); [done|lia].
Qed.

Lemma align_up_page v :
  0 <= v ->
  match align_up_checked v PAGE_SIZE with
  | Some x => v <= x < v + PAGE_SIZE /\ (PAGE_SIZE | x)
  | None => U64_MAX < v + (PAGE_SIZE - 1)
  end.
Proof. intros Hv. apply (align_up_pow2 v 12); [done|lia]. Qed.

(** ** Effective segments *)

Definition range_ok (r : MemorySegment) : Prop := 0 <= start r <= U64_MAX /\ 0 <= size r <= U64_MAX.
Definition inside_range (r raw : MemorySegment) : Prop :=
  start raw <= start r /\ start r + size r <= start raw + size raw.

(** A page aligned range of at least one page, in the zone of its addresses. *)
Record effective (e : MemorySegment * nat) : Prop := {
  ef_start : 0 <= start e.1;
  ef_aligned : (PAGE_SIZE | start e.1);
  ef_size : (PAGE_SIZE | size e.1);
  ef_pages : PAGE_SIZE <= size e.1;
  ef_end : start e.1 + size e.1 <= U64_MAX;
  ef_zone : (e.2 = VM_FREELIST_DMA /\ start e.1 + size e.1 <= DMA_ZONE_LIMIT) \/
            (e.2 = VM_FREELIST_DEFAULT /\ DMA_ZONE_LIMIT <= start e.1) }.

Lemma normalize_spec raw :
  range_ok raw ->
  let seg := normalize_segment raw in
  size seg = 0 \/
  (0 <= start seg /\ (PAGE_SIZE | start seg) /\ (PAGE_SIZE | size seg) /\ 0 <= size seg /\
   start seg + size seg <= U64_MAX /\ inside_range seg raw).
Proof.
  intros [Hs Hz]. unfold normalize_segment. pose proof (align_up_page (start raw) ltac:(lia)) as Ha.
  destruct (checked_add (start raw) (size raw)) as [re|] eqn:Hre; [|by left].
  apply checked_add_Some in Hre as [Hre ->].
  destruct (align_up_checked (start raw) PAGE_SIZE) as [first|]; [|by left].
  destruct (Z.leb_spec (start raw + size raw) first); [by left|right]. simpl. unfold inside_range. simpl.
  set (n := start raw + size raw - first). pose proof (Z.div_mod n PAGE_SIZE ltac:(done)).
  pose proof (Z.mod_pos_bound n PAGE_SIZE ltac:(done)).
  assert (0 <= n / PAGE_SIZE) by (apply Z.div_pos; [unfold n; lia|done]).
  destruct Ha as [Ha Hd]. unfold n in *. split_and!; try lia; try done; [by eexists|unfold PAGE_SIZE in *; lia].
Qed.

Lemma effective_segments_spec raw e :
  range_ok raw -> e ∈ effective_segments raw -> effective e /\ inside_range e.1 raw.
Proof.
  intros Hok. unfold effective_segments. pose proof (normalize_spec raw Hok) as Hn.
  set (seg := normalize_segment raw) in *. clearbody seg.
  destruct (Z.ltb_spec (size seg) PAGE_SIZE) as [|Hbig]; [by intros ?%elem_of_nil|].
  destruct Hn as [Hz|(H1 & H2 & H3 & H4 & H5 & H6 & H7)]; [unfold PAGE_SIZE in *; lia|].
  assert (seg_end seg = start seg + size seg) as -> by (unfold seg_end, saturating_add; lia).
  assert (PAGE_SIZE | DMA_ZONE_LIMIT) as HD by (by exists 4096).
  assert (forall x y, (PAGE_SIZE | x) -> (PAGE_SIZE | y) -> x < y -> PAGE_SIZE <= y - x) as Hgap.
  { intros x y [u ->] [v ->] Hlt. unfold PAGE_SIZE in *. lia. }
  destruct (Z.ltb_spec (start seg) DMA_ZONE_LIMIT) as [Hlo|Hlo]; simpl.
  - destruct (Z.ltb_spec DMA_ZONE_LIMIT (start seg + size seg)) as [Hhi|Hhi].
    + pose proof (Hgap _ _ H2 HD Hlo) as G1.
      pose proof (Hgap _ _ HD (Z.divide_add_r _ _ _ H2 H3) Hhi) as G2.
      rewrite (proj2 (Z.leb_le _ _) G1), (proj2 (Z.leb_le _ _) G2). simpl.
      intros [->|[->|[]%elem_of_nil]%elem_of_cons]%elem_of_cons; (split; [split|]); simpl; try lia; try done;
        try (by apply Z.divide_sub_r; [|done]); try (left; lia); try (right; split; [done|lia]);
        unfold inside_range; simpl; try lia. by apply Z.divide_sub_r; [apply Z.divide_add_r|].
    + intros [->|[]%elem_of_nil]%elem_of_cons. rewrite (proj2 (Z.leb_le _ _) Hhi).
      split; [split|]; simpl; try done. by left.
  - intros [->|[]%elem_of_nil]%elem_of_cons.
    destruct (Z.leb_spec (start seg + size seg) DMA_ZONE_LIMIT); [unfold PAGE_SIZE in *; lia|].
    split; [split|]; simpl; try done. by right.
Qed.

(** ** Disjointness *)

Definition apart (a b : MemorySegment) : Prop :=
  start a + size a <= start b \/ start b + size b <= start a.

Fixpoint all_apart (l : list MemorySegment) : Prop :=
  match l with
  | [] => True
  | r :: l => Forall (apart r) l /\ all_apart l
  end.

Lemma all_apart_app l1 l2 :
  all_apart (l1 ++ l2) <-> all_apart l1 /\ all_apart l2 /\ Forall (fun a => Forall (apart a) l2) l1.
Proof.
  induction l1 as [|r l1 IH]; simpl; [by rewrite Forall_nil; tauto|].
  rewrite Forall_app, IH, Forall_cons. tauto.
Qed.

Lemma all_apart_lookup l i j a b :
  all_apart l -> l !! i = Some a -> l !! j = Some b -> i <> j -> apart a b.
Proof.
  revert i j. induction l as [|r l IH]; intros i j Hl Hi Hj Hne; [done|].
  destruct Hl as [Hr Hl]. rewrite Forall_forall in Hr.
  destruct i as [|i], j as [|j]; simpl in *; [done| | |apply (IH i j); [done..|congruence]]; simplify_eq.
  - apply Hr. by eapply list_elem_of_lookup_2.
  - destruct (Hr a); [by eapply list_elem_of_lookup_2|by right|by left].
Qed.

Lemma apart_inside a b ra rb : inside_range a ra -> inside_range b rb -> apart ra rb -> apart a b.
Proof. unfold inside_range, apart. lia. Qed.

Lemma effective_apart raw : range_ok raw -> all_apart (fst <$> effective_segments raw).
Proof.
  intros Hok. unfold effective_segments. pose proof (normalize_spec raw Hok) as Hn.
  set (seg := normalize_segment raw) in *. clearbody seg. destruct (Z.ltb_spec (size seg) PAGE_SIZE); [done|].
  destruct Hn as [Hz|(_ & _ & _ & _ & H5 & _)]; [unfold PAGE_SIZE in *; lia|].
  assert (seg_end seg = start seg + size seg) as -> by (unfold seg_end, saturating_add; lia).
  destruct ((start seg <? DMA_ZONE_LIMIT) && (DMA_ZONE_LIMIT <? start seg + size seg)); [|by split].
  destruct (PAGE_SIZE <=? _), (PAGE_SIZE <=? _); simpl; rewrite ?Forall_nil, ?Forall_singleton; try done.
  split_and!; try done. left. simpl. lia.
Qed.

Lemma all_effective_apart segs :
  Forall range_ok segs -> all_apart segs -> all_apart (fst <$> all_effective segs).
Proof.
  intros Hok Hap. unfold all_effective. induction segs as [|raw segs IH]; [done|].
  apply Forall_cons in Hok as [Hraw Hok]. destruct Hap as [Hr Hap]. simpl. rewrite fmap_app.
  apply all_apart_app. split_and!; [by apply effective_apart|by apply IH|].
  apply Forall_fmap, Forall_forall. intros e He. apply Forall_fmap, Forall_forall.
  intros e' (l & He' & (raw' & -> & Hraw')%list_elem_of_fmap)%list_elem_of_join. simpl.
  rewrite Forall_forall in Hr, Hok.
  eapply apart_inside; [by eapply effective_segments_spec|
    eapply effective_segments_spec; [by apply Hok|done]|by apply Hr].
Qed.

Lemma all_effective_ok segs e :
  Forall range_ok segs -> e ∈ all_effective segs -> effective e /\ exists raw, raw ∈ segs /\ inside_range e.1 raw.
Proof.
  intros Hok (l & He & (raw & -> & Hraw)%list_elem_of_fmap)%list_elem_of_join. rewrite Forall_forall in Hok.
  destruct (effective_segments_spec raw e (Hok raw Hraw) He). split; [done|by exists raw].
Qed.

(** ** Descriptors *)

Definition pages_of (e : MemorySegment * nat) : Z := size e.1 / PAGE_SIZE.

Lemma max_order_loop_spec room order pages :
  pow2 order <= pages < pow2 (S (order + room)) ->
  let o := max_order_loop room order (pow2 order) pages in
  pow2 o <= pages < pow2 (S o) /\ (o <= order + room)%nat.
Proof.
  revert order. induction room as [|room IH]; intros order Hp; cbn [max_order_loop].
  { rewrite Nat.add_0_r in *. split; [done|lia]. }
  replace (Z.shiftl (pow2 order) 1) with (pow2 (S order)) by (rewrite pow2_S, Z.shiftl_mul_pow2; lia).
  pose proof (pow2_S order) as HS. pose proof (Z.div_mod pages 2 ltac:(done)). pose proof (Z.mod_pos_bound pages 2 ltac:(done)).
  destruct (Z.leb_spec (pow2 order) (pages / 2)).
  - specialize (IH (S order)). rewrite Nat.add_succ_comm in IH. apply IH. lia.
  - split; [lia|lia].
Qed.

Lemma max_order_spec pages :
  1 <= pages <= U64_MAX / PAGE_SIZE ->
  pow2 (max_order_for_pages pages) <= pages < pow2 (S (max_order_for_pages pages)) /\
  (max_order_for_pages pages <= MAX_TRACKED_ORDER)%nat.
Proof.
  intros Hp. apply (max_order_loop_spec MAX_TRACKED_ORDER 0 pages).
  change (pow2 (S (0 + MAX_TRACKED_ORDER))) with 4503599627370496. change (U64_MAX / PAGE_SIZE) with 4503599627370495 in Hp.
  rewrite pow2_0. lia.
Qed.

Lemma build_lookup base l k seg :
  build_segments base l !! k = Some seg ->
  exists e, l !! k = Some e /\
    seg = mkSegment e.1 (pages_of e) (max_order_for_pages (pages_of e)) e.2 (base + sumZ pages_of (take k l)) None.
Proof.
  revert base k. induction l as [|[r fl] l IH]; intros base k Hk; [done|].
  destruct k as [|k]; simpl in Hk.
  - simplify_eq. exists (r, fl). split; [done|]. simpl. by rewrite Z.add_0_r.
  - apply IH in Hk as (e & He & ->). exists e. split; [done|]. simpl. unfold pages_of at 4. simpl. by rewrite Z.add_assoc.
Qed.

Lemma build_pages base l : sumZ total_pages (build_segments base l) = sumZ pages_of l.
Proof. revert base. induction l as [|[r fl] l IH]; intros base; simpl; [done|]. by rewrite IH. Qed.

Lemma build_take base l k : take k (build_segments base l) = build_segments base (take k l).
Proof. revert base k. induction l as [|[r fl] l IH]; intros base [|k]; simpl; [done..|]. by rewrite IH. Qed.

Lemma build_length base l : length (build_segments base l) = length l.
Proof. revert base. induction l as [|[r fl] l IH]; intros base; simpl; [done|]. by rewrite IH. Qed.

Lemma pages_of_effective e : effective e -> size e.1 = pages_of e * PAGE_SIZE /\ 1 <= pages_of e.
Proof.
  intros []. destruct ef_size0 as [n Hn]. unfold pages_of. rewrite Hn, Z.div_mul by done.
  unfold PAGE_SIZE in *. lia.
Qed.

(** What [init] records is a well-formed list of segments. *)
Lemma build_segs_ok l cap :
  Forall effective l -> all_apart (fst <$> l) -> cap = sumZ pages_of l -> cap <= U64_MAX / PAGE_SIZE ->
  Z.of_nat (length l) < 4294967296 -> segs_ok (build_segments 0 l) cap.
Proof.
  intros Hef Hap -> Hcap Hlen. rewrite Forall_forall in Hef.
  assert (forall k e, l !! k = Some e -> effective e) as Hat by (intros; apply Hef; by eapply list_elem_of_lookup_2).
  assert (forall e, e ∈ l -> 0 <= pages_of e) as Hnn by (intros e He; destruct (pages_of_effective e (Hef e He)); lia).
  split.
  - intros k seg (e & He & ->)%build_lookup. destruct (pages_of_effective e (Hat k e He)) as [Hsz Hp].
    destruct (max_order_spec (pages_of e)) as [Ho Hm].
    { split; [done|]. pose proof (sumZ_lookup pages_of l k e Hnn He). lia. }
    destruct (Hat k e He). split; simpl; try done.
    unfold VM_NFREELIST. destruct ef_zone0 as [[-> _]|[-> _]]; unfold VM_FREELIST_DMA, VM_FREELIST_DEFAULT; lia.
  - intros k seg Hk. pose proof Hk as (e & He & ->)%build_lookup. simpl. by rewrite build_take, build_pages.
  - by rewrite build_pages.
  - change (U64_MAX / PAGE_SIZE) with 4503599627370495 in Hcap. unfold U64_MAX. lia.
  - intros k1 k2 s1 s2 (e1 & H1 & ->)%build_lookup (e2 & H2 & ->)%build_lookup Hne. simpl.
    apply (all_apart_lookup (fst <$> l) k1 k2); [done|..|done]; by rewrite list_lookup_fmap, ?H1, ?H2.
  - by rewrite build_length.
Qed.

(** The sums of the code saturate; below the limit they are exact. *)
Lemma saturating_sum {A} (f : A -> Z) l acc :
  (forall x, x ∈ l -> 0 <= f x) -> 0 <= acc <= U64_MAX ->
  fold_left (fun t x => saturating_add t (f x)) l acc = Z.min U64_MAX (acc + sumZ f l).
Proof.
  revert acc. induction l as [|x l IH]; intros acc Hf Ha; simpl; [lia|].
  assert (0 <= f x) by (apply Hf; by left).
  pose proof (sumZ_nonneg f l ltac:(intros; apply Hf; by right)).
  rewrite IH; unfold saturating_add; [lia|intros; apply Hf; by right|lia].
Qed.

Lemma estimate_spec segs :
  Forall range_ok segs ->
  match estimate_total_pages segs with
  | Some cap => cap = sumZ pages_of (all_effective segs)
  | None => U64_MAX <= sumZ pages_of (all_effective segs)
  end.
Proof.
  intros Hok. unfold estimate_total_pages.
  change (fun (total : Z) (e : MemorySegment * nat) => saturating_add total (size e.1 / PAGE_SIZE))
    with (fun t e => saturating_add t (pages_of e)).
  rewrite saturating_sum; [|intros e He; destruct (all_effective_ok segs e Hok He) as [Hef _];
    pose proof (pages_of_effective e Hef); lia|unfold U64_MAX; lia].
  set (total := sumZ pages_of (all_effective segs)). destruct (Z.eqb_spec (Z.min U64_MAX (0 + total)) U64_MAX); lia.
Qed.

Lemma sum_pages_spec segs : (forall seg, seg ∈ segs -> 0 <= total_pages seg) ->
  sumZ total_pages segs <= U64_MAX -> sum_pages segs = sumZ total_pages segs.
Proof. intros Hf Hle. unfold sum_pages. rewrite saturating_sum; [lia|done|unfold U64_MAX; lia]. Qed.

(** ** Holes *)

(** An aligned range of [sz] bytes inside [seg] that meets no reserved interval. *)
Definition hole (reserved : list (Z * Z)) (seg : MemorySegment) (sz x : Z) : Prop :=
  (PAGE_SIZE | x) /\ start seg <= x /\ x + sz <= start seg + size seg /\
  forall y, x <= y < x + sz -> ~ covered reserved y.

Definition phys_ivs (seg : MemorySegment) (reserved : list (Z * Z)) : list (Z * Z) :=
  omap (clipped_phys_interval seg) reserved.

Lemma phys_ivs_spec seg reserved :
  seg_end seg = start seg + size seg ->
  Forall nonempty (phys_ivs seg reserved) /\
  (forall x, covered (phys_ivs seg reserved) x <-> covered reserved x /\ start seg <= x < start seg + size seg) /\
  (length (phys_ivs seg reserved) <= length reserved)%nat.
Proof.
  intros Hend. unfold phys_ivs.
  assert (forall iv, match clipped_phys_interval seg iv with
    | Some v => nonempty v /\ forall x, v.1 <= x < v.2 <-> iv.1 <= x < iv.2 /\ start seg <= x < start seg + size seg
    | None => forall x, ~ (iv.1 <= x < iv.2 /\ start seg <= x < start seg + size seg) end) as Hclip.
  { intros iv. unfold clipped_phys_interval, nonempty. rewrite Hend. destruct (Z.leb_spec iv.2 iv.1); [intros x; lia|].
    destruct (Z.ltb_spec (Z.max iv.1 (start seg)) (Z.min iv.2 (start seg + size seg)));
      [split; [done|intros x; simpl; lia]|intros x; lia]. }
  split_and!.
  - apply Forall_forall. intros v (iv & _ & Hv)%list_elem_of_omap. specialize (Hclip iv). rewrite Hv in Hclip. by destruct Hclip.
  - intros x. split.
    + intros (v & (iv & Hiv & Hv)%list_elem_of_omap & Hx). specialize (Hclip iv). rewrite Hv in Hclip.
      apply Hclip in Hx as [? ?]. split; [by exists iv|done].
    + intros [(iv & Hiv & Hx) Hs]. specialize (Hclip iv). destruct (clipped_phys_interval seg iv) as [v|] eqn:Hv.
      * exists v. split; [apply list_elem_of_omap; by exists iv|by apply Hclip].
      * by destruct (Hclip x).
  - induction reserved as [|iv l IH]; [done|]. cbn [omap list_omap].
    destruct (clipped_phys_interval seg iv); simpl; lia.
Qed.

(** ** One gap *)

Lemma consider_gap_spec a b sz fl best :
  0 <= a -> b <= U64_MAX -> 0 < sz -> (PAGE_SIZE | sz) ->
  let best' := consider_metadata_gap a b sz fl best in
  (forall m, best'.1 = Some m -> best.1 = Some m \/
     (size m = sz /\ (PAGE_SIZE | start m) /\ a <= start m /\ start m + sz <= b)) /\
  (best.1 <> None -> best'.1 <> None) /\
  ((exists x, (PAGE_SIZE | x) /\ a <= x /\ x + sz <= b) -> best'.1 <> None).
Proof.
  intros Ha Hb Hsz Hd. unfold consider_metadata_gap.
  destruct ((b <=? a) || (b - a <? sz)) eqn:Hg.
  { split_and!; [by left|done|]. intros (x & _ & ? & ?). reflect_bools. lia. }
  assert (a + sz <= b) as Hfit by (apply orb_false_iff in Hg as [?%Z.leb_gt ?%Z.ltb_ge]; lia). clear Hg.
  unfold align_down_checked. replace (is_power_of_two PAGE_SIZE) with true by done. cbn [Z.eqb PAGE_SIZE orb negb].
  change 4096 with PAGE_SIZE. rewrite land_page by lia.
  unfold checked_add. rewrite (proj2 (Z.leb_le (a + sz) U64_MAX)) by lia.
  set (e := b - b mod PAGE_SIZE). pose proof (Z.mod_pos_bound b PAGE_SIZE ltac:(done)).
  assert (PAGE_SIZE | e) as He.
  { exists (b / PAGE_SIZE). unfold e. pose proof (Z.div_mod b PAGE_SIZE ltac:(done)). lia. }
  destruct (Z.ltb_spec e (a + sz)) as [Hlt|Hge].
  - split_and!; [by left|done|]. intros (x & [u ->] & ? & ?). destruct Hd as [v ->], He as [w Hw].
    assert (e < (u + v) * PAGE_SIZE) by lia. exfalso. unfold e, PAGE_SIZE in *. lia.
  - destruct (metadata_candidate_is_better _ _ _ _) eqn:Hbetter; simpl.
    + split_and!; [|done|done]. intros m [= <-]. right. simpl. split_and!; [done|by apply Z.divide_sub_r|lia|lia].
    + split_and!; [by left|done|]. by destruct best as [[m|] fl'].
Qed.

(** ** One segment *)

Lemma carve_segment_spec reserved seg fl sz fuel cur best :
  seg_end seg = start seg + size seg -> 0 <= start seg <= cur -> start seg + size seg <= U64_MAX ->
  0 < sz -> (PAGE_SIZE | sz) -> (length (ahead cur (phys_ivs seg reserved)) < fuel)%nat ->
  let best' := carve_segment fuel seg fl cur reserved sz best in
  (forall m, best'.1 = Some m -> best.1 = Some m \/ (size m = sz /\ hole reserved seg sz (start m))) /\
  (best.1 <> None -> best'.1 <> None) /\
  ((exists x, cur <= x /\ hole reserved seg sz x) -> best'.1 <> None).
Proof.
  intros Hend Hcur Hu Hsz Hd. destruct (phys_ivs_spec seg reserved Hend) as (Hne & Hcov & _).
  revert cur best Hcur. induction fuel as [|fuel IH]; intros cur best Hcur Hf; [lia|]. cbn [carve_segment].
  rewrite Hend. destruct (Z.ltb_spec cur (start seg + size seg)) as [Hlt|Hge].
  2: { split_and!; [by left|done|]. intros (x & ? & _ & _ & ? & _). lia. }
  unfold next_reserved_phys_run. fold (phys_ivs seg reserved).
  pose proof (next_run_spec (phys_ivs seg reserved) cur Hne) as Hnx.
  destruct (next_run (phys_ivs seg reserved) cur) as [[first e]|].
  - destruct Hnx as ((iv & Hiv & <- & Hiv2) & Hfree & Htaken & _).
    assert (iv.1 < iv.2) as Hivn by (rewrite Forall_forall in Hne; by apply Hne).
    assert (covered (phys_ivs seg reserved) iv.1) as [_ Hin]%Hcov by (exists iv; split; [done|lia]).
    destruct (consider_gap_spec cur iv.1 sz fl best ltac:(lia) ltac:(lia) Hsz Hd) as (G1 & G2 & G3).
    set (best1 := consider_metadata_gap _ _ _ _ best) in *. rewrite Z.max_r by lia.
    destruct (IH e best1) as (K1 & K2 & K3); [lia|pose proof (ahead_lt cur e _ iv ltac:(lia) Hiv ltac:(lia)); lia|].
    split_and!; [|auto|].
    + intros m [Hm|?]%K1; [|by right]. apply G1 in Hm as [?|(Hs & Ha & H1 & H2)]; [by left|right].
      split; [done|]. split_and!; [done|lia|lia|]. intros y Hy Hc.
      apply (Hfree y); [lia|]. apply Hcov. split; [done|lia].
    + intros (x & Hx & Ha & H1 & H2 & H3). destruct (Z.le_gt_cases (x + sz) iv.1) as [Hle|Hgt].
      { apply K2, G3. by exists x. }
      apply K3. exists x. split; [|done].
      assert (~ covered (phys_ivs seg reserved) x) as Hxc by (intros [Hc _]%Hcov; by apply (H3 x); [lia|]).
      destruct (Z.lt_ge_cases x iv.1); [|destruct (Z.lt_ge_cases x e); [by destruct Hxc; apply Htaken|done]].
      exfalso. apply (H3 iv.1); [lia|]. apply Hcov. exists iv. split; [done|lia].
  - destruct (consider_gap_spec cur (start seg + size seg) sz fl best ltac:(lia) Hu Hsz Hd) as (G1 & G2 & G3).
    split_and!; [|done|].
    + intros m [?|(Hs & Ha & H1 & H2)]%G1; [by left|right]. split; [done|]. split_and!; [done|lia|done|].
      intros y Hy Hc. assert (covered (phys_ivs seg reserved) y) as (iv & Hiv & Hv) by (apply Hcov; split; [done|lia]).
      specialize (Hnx iv Hiv). lia.
    + intros (x & Hx & Ha & H1 & H2 & H3). apply G3. exists x. split_and!; [done|lia|lia].
Qed.

(** ** The whole map *)

Definition carve_all (reserved : list (Z * Z)) (sz : Z) (l : list (MemorySegment * nat))
    (best : option MemorySegment * nat) : option MemorySegment * nat :=
  fold_left (fun best e => carve_segment (S (length reserved)) e.1 e.2 (start e.1) reserved sz best) l best.

Lemma carve_all_spec reserved sz l best :
  0 < sz -> (PAGE_SIZE | sz) -> (forall e, e ∈ l -> effective e) ->
  let r := (carve_all reserved sz l best).1 in
  (forall m, r = Some m -> best.1 = Some m \/ (size m = sz /\ exists e, e ∈ l /\ hole reserved e.1 sz (start m))) /\
  (best.1 <> None -> r <> None) /\ (forall e x, e ∈ l -> hole reserved e.1 sz x -> r <> None).
Proof.
  intros Hpos Hd. unfold carve_all. revert best. induction l as [|e l IH]; intros best Hef; cbn [fold_left].
  { split_and!; [by left|done|by intros ? ? ?%elem_of_nil]. }
  destruct (Hef e ltac:(by left)) as [E1 E2 E3 E4 E5 _].
  assert (seg_end e.1 = start e.1 + size e.1) as Hend by (unfold seg_end, saturating_add; lia).
  destruct (carve_segment_spec reserved e.1 e.2 sz (S (length reserved)) (start e.1) best) as (C1 & C2 & C3); try done; try lia.
  { pose proof (ahead_length (start e.1) (phys_ivs e.1 reserved)).
    destruct (phys_ivs_spec e.1 reserved Hend) as (_ & _ & ?). lia. }
  set (best1 := carve_segment _ _ _ _ _ _ best) in *.
  destruct (IH best1 ltac:(intros; apply Hef; by right)) as (I1 & I2 & I3). split_and!.
  - intros m [Hm|(? & e' & ? & ?)]%I1; [|right; split; [done|]; exists e'; split; [by right|done]].
    apply C1 in Hm as [?|[? ?]]; [by left|right]. split; [done|]. exists e. split; [by left|done].
  - auto.
  - intros e' x [->|He']%elem_of_cons Hh; [|by eapply I3]. apply I2, C3. exists x. split; [apply Hh|done].
Qed.

(** The range is a hole of one of the segments, at least as large as asked for;
    there is none only if there is no hole. *)
Lemma carve_spec segs reserved sz :
  Forall range_ok segs -> 0 <= sz ->
  match align_up_checked (Z.max sz PAGE_SIZE) PAGE_SIZE with
  | None => carve_metadata_range segs reserved sz = None
  | Some sz' => sz <= sz' /\ PAGE_SIZE <= sz' /\ (PAGE_SIZE | sz') /\
      match carve_metadata_range segs reserved sz with
      | Some m => size m = sz' /\ exists e, e ∈ all_effective segs /\ hole reserved e.1 sz' (start m)
      | None => forall e x, e ∈ all_effective segs -> ~ hole reserved e.1 sz' x
      end
  end.
Proof.
  intros Hok Hsz. unfold carve_metadata_range. pose proof (align_up_page (Z.max sz PAGE_SIZE) ltac:(lia)) as Ha.
  destruct (align_up_checked (Z.max sz PAGE_SIZE) PAGE_SIZE) as [sz'|]; [|done]. simpl.
  destruct Ha as [Hsz' Hd]. split_and!; [lia|lia|done|].
  assert (0 < sz') as Hpos by (unfold PAGE_SIZE in *; lia).
  destruct (carve_all_spec reserved sz' (all_effective segs) (None, VM_FREELIST_DMA) Hpos Hd) as (F1 & _ & F3).
  { intros e He. by apply (all_effective_ok segs e Hok He). }
  unfold carve_all in *. destruct (fold_left _ _ _).1 as [m|].
  - destruct (F1 m eq_refl) as [?|?]; [done|done].
  - intros e x He Hh. by apply (F3 e x He Hh).
Qed.

(** ** The arrays *)

(** What the layouts of the records have in common. *)
Record layout_ok (l : Layout) : Prop := {
  ly_size : 0 <= l_size l;
  ly_align : exists o, (o <= 12)%nat /\ l_align l = pow2 o }.

Section layouts.
Context `{!Layouts}.
Context (Hseg : layout_ok layout_BuddySegment) (Hmem : layout_ok layout_MemorySegment)
  (Hnode : layout_ok layout_BlockNode) (Hatomic : layout_ok layout_AtomicUsize).

(** Taking an array from a page aligned base is what the estimate counted. *)
Lemma alloc_array_bump l count cur next base end_ :
  layout_ok l -> 0 <= count -> 0 <= cur -> 0 <= base -> (PAGE_SIZE | base) -> end_ <= U64_MAX ->
  bump_metadata_size l count cur = Some next -> base + next <= end_ ->
  alloc_array l count (base + cur) end_ = Some (base + next) /\ cur <= next.
Proof.
  intros [Hs (o & Ho & Hal)] Hc Hcur Hb Hd He. unfold bump_metadata_size, alloc_array.
  destruct (Z.eqb_spec count 0); [intros [= ->]; by split|].
  destruct (array_size l count) as [sz|] eqn:Hsz; simpl; [|done].
  assert (0 <= sz) as Hsz0.
  { unfold array_size in Hsz. case_match; simplify_eq. apply Z.mul_nonneg_nonneg; lia. }
  rewrite Hal. pose proof (align_up_pow2 cur o Hcur ltac:(lia)) as Ha.
  destruct (align_up_checked cur (pow2 o)) as [x|]; simpl; [|done]. destruct Ha as [Hx [u Hu]].
  intros [Hn ->]%checked_add_Some Hfit. pose proof (align_up_pow2 (base + cur) o ltac:(lia) ltac:(lia)) as Hb'.
  assert (pow2 o | PAGE_SIZE) as [v Hv] by (change PAGE_SIZE with (pow2 12); apply pow2_divide; lia).
  destruct Hd as [w Hw]. assert (U64_MAX + 1 = 4503599627370496 * (v * pow2 o)) as Hmax by (rewrite <- Hv; done).
  pose proof (pow2_pos o) as Hpos.
  assert (base + x = (w * v + u) * pow2 o) as Hbx by (rewrite Hu, Hw, Hv; lia).
  destruct (align_up_checked (base + cur) (pow2 o)) as [y|]; simpl.
  - destruct Hb' as [Hy [z Hz]]. assert (z = w * v + u) as -> by nia.
    assert (y = base + x) as -> by lia. unfold checked_add.
    rewrite (proj2 (Z.leb_le (base + x + sz) U64_MAX)) by lia. simpl.
    destruct (Z.ltb_spec end_ (base + x + sz)); [lia|]. split; [f_equal; lia|lia].
  - exfalso. assert (w * v + u < 4503599627370496 * v) by (apply (Z.mul_lt_mono_pos_r (pow2 o)); lia).
    assert ((w * v + u + 1) * pow2 o <= 4503599627370496 * v * pow2 o) by (apply Z.mul_le_mono_nonneg_r; lia). lia.
Qed.

Lemma bump_mono l n c c' :
  layout_ok l -> 0 <= n -> 0 <= c -> bump_metadata_size l n c = Some c' -> c <= c'.
Proof.
  intros [Hs (o & Ho & Hal)] Hn Hc. unfold bump_metadata_size.
  destruct (n =? 0); [intros [= ->]; done|]. destruct (array_size l n) as [sz|] eqn:Hsz; simpl; [|done].
  assert (0 <= sz) by (unfold array_size in Hsz; case_match; simplify_eq; apply Z.mul_nonneg_nonneg; lia).
  rewrite Hal. pose proof (align_up_pow2 c o Hc ltac:(lia)) as Ha.
  destruct (align_up_checked c (pow2 o)); simpl; [|done]. intros [_ ->]%checked_add_Some. lia.
Qed.

(** The steps of the estimate. *)
Lemma metadata_bytes_inv nseg nres cap bytes :
  0 <= nseg -> 0 <= nres -> 0 <= cap -> buddy_metadata_bytes nseg nres cap = Some bytes ->
  exists c1 c2 c3 c4 c5, bump_metadata_size layout_BuddySegment nseg 0 = Some c1 /\
    bump_metadata_size layout_MemorySegment nres c1 = Some c2 /\
    bump_metadata_size layout_MemorySegment 1 c2 = Some c3 /\
    bump_metadata_size layout_BlockNode cap c3 = Some c4 /\
    bump_metadata_size layout_AtomicUsize cap c4 = Some c5 /\
    0 <= c1 <= c2 /\ c2 <= c3 <= c4 /\ c4 <= c5 <= bytes.
Proof.
  intros H1 H2 H3. unfold buddy_metadata_bytes.
  destruct (bump_metadata_size layout_BuddySegment nseg 0) as [c1|] eqn:B1; simpl; [|done].
  destruct (bump_metadata_size layout_MemorySegment nres c1) as [c2|] eqn:B2; simpl; [|done].
  destruct (bump_metadata_size layout_MemorySegment 1 c2) as [c3|] eqn:B3; simpl; [|done].
  destruct (bump_metadata_size layout_BlockNode cap c3) as [c4|] eqn:B4; simpl; [|done].
  destruct (bump_metadata_size layout_AtomicUsize cap c4) as [c5|] eqn:B5; simpl; [|done].
  intros Hbytes. exists c1, c2, c3, c4, c5.
  pose proof (bump_mono _ nseg 0 _ Hseg H1 ltac:(lia) B1). pose proof (bump_mono _ nres c1 _ Hmem H2 ltac:(lia) B2).
  pose proof (bump_mono _ 1 c2 _ Hmem ltac:(lia) ltac:(lia) B3). pose proof (bump_mono _ cap c3 _ Hnode H3 ltac:(lia) B4).
  pose proof (bump_mono _ cap c4 _ Hatomic H3 ltac:(lia) B5).
  pose proof (align_up_page c5 ltac:(lia)) as Ha. rewrite Hbytes in Ha. split_and!; (done || lia).
Qed.

(** The arrays of [init] fit into a range of the estimated size. *)
Lemma alloc_metadata_ok nseg nres cap bytes base end_ :
  0 <= nseg -> 0 <= nres -> 0 <= cap -> 0 <= base -> (PAGE_SIZE | base) -> end_ <= U64_MAX ->
  buddy_metadata_bytes nseg nres cap = Some bytes -> base + bytes <= end_ ->
  is_Some (alloc_metadata nseg nres cap base end_).
Proof.
  intros H1 H2 H3 Hb Hd He Hbytes Hfit.
  destruct (metadata_bytes_inv _ _ _ _ H1 H2 H3 Hbytes)
    as (c1 & c2 & c3 & c4 & c5 & B1 & B2 & B3 & B4 & B5 & ? & ? & ?).
  unfold alloc_metadata. rewrite <- (Z.add_0_r base) at 1.
  rewrite (proj1 (alloc_array_bump _ nseg 0 _ base end_ Hseg H1 ltac:(lia) Hb Hd He B1 ltac:(lia))). simpl.
  rewrite (proj1 (alloc_array_bump _ nres c1 _ base end_ Hmem H2 ltac:(lia) Hb Hd He B2 ltac:(lia))). simpl.
  rewrite (proj1 (alloc_array_bump _ 1 c2 _ base end_ Hmem ltac:(lia) ltac:(lia) Hb Hd He B3 ltac:(lia))). simpl.
  rewrite (proj1 (alloc_array_bump _ cap c3 _ base end_ Hnode H3 ltac:(lia) Hb Hd He B4 ltac:(lia))). simpl.
  rewrite (proj1 (alloc_array_bump _ cap c4 _ base end_ Hatomic H3 ltac:(lia) Hb Hd He B5 ltac:(lia))). done.
Qed.
End layouts.
