(* ===== verification/BuddyStart.v ===== *)
(** * Starting the allocator

    The pages of a segment that no reserved interval and no metadata meets are
    seeded, range by range; the others stay out of the allocator.

    Initialisation ends with an allocator whose free pages are exactly the pages
    of the memory map that are neither reserved nor metadata, with no two free
    buddies unmerged; or it fails, for one of the reasons there are, and leaves
    the empty allocator.  A reserved range given up later joins the free pages. *)

From stdpp Require Import functions.
From S2P Require Import Prelude Buddy BuddyInit BuddyLinks BuddyBlocks BuddyShape.
From S2P Require Import BuddyProofs BuddySplit BuddyAlloc BuddySeed BuddyMeta.

(** ** Reserved pages *)

(** The intervals that are kept out: those reserved, and the metadata. *)
Definition kept_out (s : BuddyAllocator) (reserved : list (Z * Z)) : list (Z * Z) :=
  reserved ++ (range_interval <$> metadata_ranges s).

Definition page_ivs (seg : BuddySegment) (ivs : list (Z * Z)) : list (Z * Z) :=
  omap (clipped_page_interval seg) ivs.

(** The page [q] of the segment meets one of the intervals. *)
Definition page_taken (seg : BuddySegment) (ivs : list (Z * Z)) (q : Z) : Prop :=
  exists iv, iv ∈ ivs /\ Z.max iv.1 (start (range seg) + q * PAGE_SIZE) <
    Z.min iv.2 (start (range seg) + (q + 1) * PAGE_SIZE).

Lemma clipped_page_spec seg iv :
  seg_ok seg ->
  match clipped_page_interval seg iv with
  | Some (a, b) => 0 <= a < b /\ b <= total_pages seg /\ forall q, 0 <= q < total_pages seg ->
      a <= q < b <-> Z.max iv.1 (start (range seg) + q * PAGE_SIZE) < Z.min iv.2 (start (range seg) + (q + 1) * PAGE_SIZE)
  | None => forall q, 0 <= q < total_pages seg ->
      ~ Z.max iv.1 (start (range seg) + q * PAGE_SIZE) < Z.min iv.2 (start (range seg) + (q + 1) * PAGE_SIZE)
  end.
Proof.
  intros Hseg. unfold clipped_page_interval. rewrite seg_end_ok, (so_size _ Hseg) by done.
  set (t := total_pages seg). set (z := start (range seg)).
  destruct (Z.leb_spec iv.2 iv.1); [lia|].
  set (lo := Z.max iv.1 z). set (hi := Z.min iv.2 (z + t * PAGE_SIZE)).
  destruct (Z.leb_spec hi lo); [intros q Hq; unfold lo, hi, PAGE_SIZE in *; lia|].
  assert (forall q, (lo - z) / PAGE_SIZE <= q <-> lo - z < (q + 1) * PAGE_SIZE) as Hlo.
  { intros q. pose proof (Z.div_mod (lo - z) PAGE_SIZE ltac:(done)).
    pose proof (Z.mod_pos_bound (lo - z) PAGE_SIZE ltac:(done)). unfold PAGE_SIZE in *. lia. }
  assert (forall q, q < div_ceil (hi - z) PAGE_SIZE <-> q * PAGE_SIZE < hi - z) as Hhi.
  { intros q. pose proof (div_ceil_le (hi - z) PAGE_SIZE q ltac:(done) ltac:(lia)). lia. }
  assert (0 <= (lo - z) / PAGE_SIZE) by (apply Z.div_pos; [lia|done]).
  assert ((lo - z) / PAGE_SIZE <= div_ceil (hi - z) PAGE_SIZE - 1) by (apply Hlo; specialize (Hhi (div_ceil (hi - z) PAGE_SIZE)); unfold PAGE_SIZE in *; lia).
  assert ((lo - z) / PAGE_SIZE <= t - 1) by (apply Hlo; unfold PAGE_SIZE in *; lia).
  destruct (Z.ltb_spec ((lo - z) / PAGE_SIZE) (div_ceil (hi - z) PAGE_SIZE)); [|lia].
  split_and!; [lia|lia|lia|]. intros q Hq. rewrite Hlo, Z.min_glb_lt_iff, Hhi. unfold PAGE_SIZE in *. lia.
Qed.

Lemma page_ivs_spec seg ivs :
  seg_ok seg ->
  Forall nonempty (page_ivs seg ivs) /\
  (forall iv, iv ∈ page_ivs seg ivs -> 0 <= iv.1 /\ iv.2 <= total_pages seg) /\
  (forall q, 0 <= q < total_pages seg -> covered (page_ivs seg ivs) q <-> page_taken seg ivs q).
Proof.
  intros Hseg. unfold page_ivs, covered, page_taken. split_and!.
  - apply Forall_forall. intros iv (x & Hx & Hiv)%list_elem_of_omap.
    pose proof (clipped_page_spec seg x Hseg) as H. rewrite Hiv in H. destruct iv. unfold nonempty. simpl. lia.
  - intros iv (x & Hx & Hiv)%list_elem_of_omap.
    pose proof (clipped_page_spec seg x Hseg) as H. rewrite Hiv in H. destruct iv. simpl. lia.
  - intros q Hq. split.
    + intros (iv & (x & Hx & Hiv)%list_elem_of_omap & Hin). exists x. split; [done|].
      pose proof (clipped_page_spec seg x Hseg) as H. rewrite Hiv in H. destruct iv. simpl in *.
      apply H; [done|lia].
    + intros (x & Hx & Hin). pose proof (clipped_page_spec seg x Hseg) as H.
      destruct (clipped_page_interval seg x) as [[a b]|] eqn:Hiv; [|by destruct (H q Hq)].
      exists (a, b). split; [apply list_elem_of_omap; by exists x|]. simpl. by apply H.
Qed.

(** The next run of taken pages. *)
Lemma next_page_run_spec s seg cur reserved :
  seg_ok seg ->
  let ivs := page_ivs seg (kept_out s reserved) in
  match next_reserved_page_run s seg cur reserved with
  | None => forall q, cur <= q -> ~ covered ivs q
  | Some (first, e) => cur < e <= total_pages seg /\ (exists iv, iv ∈ ivs /\ iv.1 = first /\ cur < iv.2 <= e) /\
      first < e /\ 0 <= first /\ (forall q, cur <= q < first -> ~ covered ivs q) /\
      (forall q, first <= q < e -> covered ivs q) /\ (forall iv, iv ∈ ivs -> iv.1 <= e -> iv.2 <= e)
  end.
Proof.
  intros Hseg ivs. unfold next_reserved_page_run. fold (kept_out s reserved).
  change (omap (clipped_page_interval seg) (kept_out s reserved)) with ivs.
  destruct (page_ivs_spec seg (kept_out s reserved) Hseg) as (Hne & Hbd & _). fold ivs in Hne, Hbd.
  pose proof (next_run_spec ivs cur Hne) as H. destruct (next_run ivs cur) as [[first e]|].
  - destruct H as ((iv & Hiv & <- & Hcur) & H2 & H3 & H4). rewrite Forall_forall in Hne.
    pose proof (Hne iv Hiv) as Hn. unfold nonempty in Hn. pose proof (Hbd iv Hiv) as Hb.
    assert (e <= total_pages seg) as He.
    { destruct (H3 (e - 1) ltac:(lia)) as (v & Hv & Hc). pose proof (Hbd v Hv). lia. }
    rewrite Z.min_l by done. split_and!; try done; try lia. exists iv. split; [done|lia].
  - intros q Hq (iv & Hiv & Hc). specialize (H iv Hiv). lia.
Qed.

(** After a run the next one starts later, so the inner loop stops at once. *)
Lemma skip_runs_closed s seg fuel c reserved :
  seg_ok seg -> (forall iv, iv ∈ page_ivs seg (kept_out s reserved) -> iv.1 <= c -> iv.2 <= c) ->
  skip_runs (S fuel) s seg c reserved = c.
Proof.
  intros Hseg Hcl. cbn [skip_runs]. pose proof (next_page_run_spec s seg c reserved Hseg) as H.
  destruct (next_reserved_page_run s seg c reserved) as [[first e]|]; [|done].
  destruct H as (_ & (iv & Hiv & <- & Hc) & _). specialize (Hcl iv Hiv).
  destruct (Z.ltb_spec c iv.1); [done|lia].
Qed.

(** ** One segment *)

(** All blocks end by [e]; no free block of the segment ends at [e]. *)
Definition below (bl : list BlockNode) (e : Z) : Prop :=
  forall j x, bl !! j = Some x -> active x = true -> Z.of_nat j + pow2 (n_order x) <= e.
Definition fence (bl : list BlockNode) (k : nat) (e : Z) : Prop :=
  forall j x, bl !! j = Some x -> n_state x = NODE_FREE -> n_seg_idx x = k ->
    Z.of_nat j + pow2 (n_order x) <> e.

Lemma below_clear bl a b : below bl a -> clear_run bl a b.
Proof. intros H j x Hx Ha. left. by apply (H j x). Qed.

Lemma below_not_free bl e p : below bl e -> e <= p -> ~ page_free bl p.
Proof.
  intros H Hp (j & b & Hb & Hst & Hc). pose proof (H j b Hb ltac:(apply active_state; congruence)).
  unfold covers in Hc. lia.
Qed.

Lemma fence_not_free bl k e : ~ page_free bl (e - 1) -> fence bl k e.
Proof.
  intros Hn j b Hb Hst _ He. apply Hn. exists j, b. split_and!; try done. unfold covers.
  pose proof (pow2_pos (n_order b)). lia.
Qed.

Lemma fence_greedy bl k seg e r : fence bl k e -> greedy_end bl k seg e r.
Proof. intros Hf j b Hb Hst Hk He _ _. by destruct (Hf j b). Qed.

Lemma seeded_below s P n s' e :
  seeded s P n s' -> below (blocks s) e -> (forall p, P p -> p < e) -> below (blocks s') e.
Proof.
  intros Hsd Hb HP j x Hx Ha. destruct (sd_active _ _ _ _ Hsd j x Hx Ha) as [?|Hj]; [by eapply Hb|].
  pose proof (pow2_pos (n_order x)). specialize (HP (Z.of_nat j + pow2 (n_order x) - 1)).
  enough (Z.of_nat j + pow2 (n_order x) - 1 < e) by lia. apply HP, Hj. unfold covers. lia.
Qed.

Lemma below_le bl e e' : below bl e -> e <= e' -> below bl e'.
Proof. intros H He j x Hx Ha. specialize (H j x Hx Ha). lia. Qed.

(** A free range of the segment, with everything after it still empty. *)
Lemma fill_range s L k seg a r :
  shape s L -> segments s !! k = Some seg -> 0 <= a <= r -> r <= total_pages seg ->
  below (blocks s) (node_base seg + a) ->
  exists s', seed_free_range k a r s = Done (Ok tt, s') /\
    seeded s (run (node_base seg + a) (r - a)) (r - a) s' /\ below (blocks s') (node_base seg + r) /\
    (tidy false (segments s) (blocks s) -> fence (blocks s) k (node_base seg + a) ->
     tidy false (segments s) (blocks s')).
Proof.
  intros Hsh Hk Ha Hr Hb.
  destruct (seed_free_range_spec s L k seg a r Hsh Hk Ha Hr) as (s' & Hrun & Hsd & Ht); [by apply below_clear|].
  exists s'. split_and!; [done|done| |].
  - eapply seeded_below; [exact Hsd|eapply below_le; [done|lia]|unfold run; lia].
  - intros Htd Hf. apply Ht; [done|by apply fence_greedy|]. eapply below_not_free; [done|lia].
Qed.

(** The range before a run of taken pages, which may be empty. *)
Lemma fill_before s L k seg a r :
  shape s L -> segments s !! k = Some seg -> 0 <= a -> r <= total_pages seg -> below (blocks s) (node_base seg + a) ->
  exists s', (if a <? r then seed_free_range k a r else mret (Ok tt)) s = Done (Ok tt, s') /\
    seeded s (run (node_base seg + a) (Z.max a r - a)) (Z.max a r - a) s' /\
    below (blocks s') (node_base seg + Z.max a r) /\
    (tidy false (segments s) (blocks s) -> fence (blocks s) k (node_base seg + a) ->
     tidy false (segments s) (blocks s')).
Proof.
  intros Hsh Hk Ha Hr Hb. destruct (Z.ltb_spec a r) as [Hlt|Hge].
  - rewrite Z.max_r by lia. apply (fill_range s L); try done; lia.
  - rewrite Z.max_l, Z.sub_diag by lia. exists s. split_and!; try done.
    eapply seeded_refl; [done|unfold run; lia].
Qed.

(** The pages of the segment from [cur] on that are not taken. *)
Definition untaken (seg : BuddySegment) (ivs : list (Z * Z)) (cur : Z) : Z -> Prop := fun p =>
  cur <= p - node_base seg < total_pages seg /\ ~ covered ivs (p - node_base seg).

Lemma seed_segment_spec k seg reserved ivs fuel s L cur :
  shape s L -> segments s !! k = Some seg -> ivs = page_ivs seg (kept_out s reserved) -> 0 <= cur ->
  below (blocks s) (node_base seg + cur) -> (length (ahead cur ivs) < fuel)%nat ->
  exists s' n, seed_segment fuel k seg cur reserved s = Done (Ok tt, s') /\
    seeded s (untaken seg ivs cur) n s' /\ 0 <= n <= Z.max 0 (total_pages seg - cur) /\
    below (blocks s') (node_base seg + Z.max cur (total_pages seg)) /\
    (tidy false (segments s) (blocks s) -> fence (blocks s) k (node_base seg + cur) ->
     tidy false (segments s) (blocks s')).
Proof.
  revert s L cur. induction fuel as [|fuel IH]; intros s L cur Hsh Hk Hivs Hc Hb Hfuel; [lia|]. cbn [seed_segment].
  destruct (Z.ltb_spec cur (total_pages seg)) as [Hlt|Hge].
  2: { exists s, 0. split_and!; [done|eapply seeded_refl; [done|unfold untaken; lia]|lia|lia| |done].
    eapply below_le; [done|lia]. }
  pose proof (sg_ok _ _ (sh_segs _ _ Hsh) _ _ Hk) as Hseg. rewrite get_bind.
  pose proof (next_page_run_spec s seg cur reserved Hseg) as Hnx. rewrite <- Hivs in Hnx. cbv zeta in Hnx.
  destruct (next_reserved_page_run s seg cur reserved) as [[rs re]|].
  2: { destruct (fill_range s L k seg cur (total_pages seg) Hsh Hk ltac:(lia) ltac:(lia) Hb)
      as (s' & Hrun & Hsd & Hbl & Ht). exists s', (total_pages seg - cur).
    split_and!; [done| |lia|lia|by rewrite Z.max_r by lia|done].
    eapply seeded_iff; [done|]. intros p. unfold run, untaken. specialize (Hnx (p - node_base seg)).
    split; [intros; split; [lia|apply Hnx; lia]|lia]. }
  destruct Hnx as (Hre & (iv & Hiv & Hrs & Hiv2) & Hlt' & Hrs0 & Hfree & Htaken & Hcl).
  destruct (fill_before s L k seg cur rs Hsh Hk ltac:(lia) ltac:(lia) Hb) as (s1 & R1 & Hsd1 & Hb1 & Ht1).
  rewrite (bindM _ _ _ _ _ R1), Z.max_r by lia. rewrite skip_runs_closed by (done || by rewrite <- Hivs).
  pose proof (seeded_segments _ _ _ _ Hsd1) as Hs1. destruct (sd_shape _ _ _ _ Hsd1) as [L1 Hsh1].
  destruct (IH s1 L1 re Hsh1) as (s' & n & Hrun & Hsd & Hn & Hb' & Ht).
  - by rewrite Hs1.
  - unfold kept_out. by rewrite (core_metadata _ _ (sd_core _ _ _ _ Hsd1)).
  - lia.
  - eapply below_le; [done|lia].
  - pose proof (ahead_lt cur re ivs iv ltac:(lia) Hiv ltac:(lia)). lia.
  - exists s', (Z.max cur rs - cur + n). split_and!; [done| |lia|lia|by replace (Z.max cur (total_pages seg)) with (Z.max re (total_pages seg)) by lia|].
    + eapply seeded_trans; [done|done|]. intros p. unfold run, untaken.
      specialize (Hfree (p - node_base seg)). specialize (Htaken (p - node_base seg)).
      destruct (Z.lt_ge_cases (p - node_base seg) re); [|split; [intros [? ?]; right; split; [lia|done]|]; intros [?|[? ?]]; [lia|split; [lia|done]]].
      split; [intros [? Hnc]; left; destruct (Z.lt_ge_cases (p - node_base seg) rs); [lia|destruct Hnc; apply Htaken; lia]|].
      intros [?|?]; [split; [lia|apply Hfree; lia]|lia].
    + rewrite Hs1 in Ht. intros Htd Hf. apply Ht; [by apply Ht1|]. apply fence_not_free.
      intros [Hp|Hp]%(sd_pages _ _ _ _ Hsd1); [|unfold run in Hp; lia].
      by eapply below_not_free in Hp; [|exact Hb|lia].
Qed.

(** ** All segments *)

Lemma page_ivs_length seg ivs : (length (page_ivs seg ivs) <= length ivs)%nat.
Proof.
  unfold page_ivs. induction ivs as [|iv ivs IH]; [done|]. cbn [omap list_omap].
  destruct (clipped_page_interval seg iv); simpl; lia.
Qed.

(** The free pages of the segments from [k] on. *)
Definition open_pages (s : BuddyAllocator) (reserved : list (Z * Z)) (k : nat) : Z -> Prop := fun p =>
  exists j seg, (k <= j)%nat /\ segments s !! j = Some seg /\
    untaken seg (page_ivs seg (kept_out s reserved)) 0 p.

Lemma fence_base s L k seg : shape s L -> segments s !! k = Some seg -> fence (blocks s) k (node_base seg).
Proof.
  intros Hsh Hk j b Hb Hst Hkb He.
  pose proof (block_pages_aligned s L j b seg Hsh Hb ltac:(apply active_state; congruence)) as Hf.
  rewrite Hkb in Hf. destruct (Hf Hk) as (_ & H1 & _). pose proof (pow2_pos (n_order b)). lia.
Qed.

Lemma seed_segments_spec reserved l k s L :
  shape s L -> drop k (segments s) = l -> below (blocks s) (sumZ total_pages (take k (segments s))) ->
  exists s' n, seed_segments k l reserved s = Done (Ok tt, s') /\
    seeded s (open_pages s reserved k) n s' /\ 0 <= n <= sumZ total_pages l /\
    (tidy false (segments s) (blocks s) -> tidy false (segments s) (blocks s')).
Proof.
  revert k s L. induction l as [|seg l IH]; intros k s L Hsh Hl Hb.
  { exists s, 0. split_and!; [done| |done|done|done]. eapply seeded_refl; [done|].
    intros p (j & seg & Hj & Hs & _). apply lookup_lt_Some in Hs.
    apply (f_equal length) in Hl. rewrite length_drop in Hl. simpl in Hl. lia. }
  assert (segments s !! k = Some seg) as Hk.
  { rewrite <- (Nat.add_0_r k), <- lookup_drop, Hl. done. }
  pose proof (sg_base _ _ (sh_segs _ _ Hsh) _ _ Hk) as Hbase. rewrite <- Hbase in Hb.
  pose proof (so_pages _ (sg_ok _ _ (sh_segs _ _ Hsh) _ _ Hk)) as Hpages.
  cbn [seed_segments]. rewrite get_bind.
  destruct (seed_segment_spec k seg reserved (page_ivs seg (kept_out s reserved))
    (S (S (length reserved + length (metadata_ranges s)))) s L 0 Hsh Hk eq_refl ltac:(lia))
    as (s1 & n1 & R1 & Hsd1 & Hn1 & Hb1 & Ht1).
  { by rewrite Z.add_0_r. }
  { pose proof (ahead_length 0 (page_ivs seg (kept_out s reserved))).
    pose proof (page_ivs_length seg (kept_out s reserved)) as Hlen.
    unfold kept_out in Hlen at 2. rewrite length_app, length_fmap in Hlen. lia. }
  rewrite (bindM _ _ _ _ _ R1). pose proof (seeded_segments _ _ _ _ Hsd1) as Hs1.
  destruct (sd_shape _ _ _ _ Hsd1) as [L1 Hsh1].
  destruct (IH (S k) s1 L1 Hsh1) as (s' & n & Hrun & Hsd & Hn & Ht).
  { rewrite Hs1. replace (S k) with (k + 1)%nat by lia. by rewrite <- drop_drop, Hl. }
  { rewrite Hs1, (take_S_r _ _ _ Hk), sumZ_app. simpl. rewrite <- Hbase.
    eapply below_le; [exact Hb1|]. rewrite Z.max_r by lia. lia. }
  exists s', (n1 + n). split_and!; [done| |lia|simpl; lia|].
  - eapply seeded_trans; [done|done|]. intros p. unfold open_pages, kept_out.
    rewrite Hs1, (core_metadata _ _ (sd_core _ _ _ _ Hsd1)). simpl. split.
    + intros (j & seg' & Hj & Hsj & Hu). destruct (decide (j = k)) as [->|]; [left|right; exists j, seg'; split_and!; [lia|done|done]].
      by simplify_eq.
    + intros [Hu|(j & seg' & Hj & Hsj & Hu)]; [by exists k, seg|exists j, seg'; split_and!; [lia|done|done]].
  - rewrite Hs1 in Ht. intros Htd. apply Ht, Ht1; [done|]. rewrite Z.add_0_r. by eapply fence_base.
Qed.

(** ** Before the seeding *)

Lemma no_node_active n i b : (erase <$> replicate n empty_node) !! i = Some b -> n_state b = NODE_INACTIVE.
Proof. rewrite list_lookup_fmap. intros (x & [-> _]%lookup_replicate_1 & ->)%fmap_Some. done. Qed.

Lemma prepared_shape segs reserved cap m :
  segs_ok (build_segments 0 (all_effective segs)) cap -> 0 <= cap ->
  shape (prepared segs reserved cap m) (fun _ => []).
Proof.
  intros Hsegs Hcap. set (s := prepared segs reserved cap m).
  assert (forall i b, blocks s !! i = Some b -> n_state b = NODE_INACTIVE) as Hin by (intros i b; apply no_node_active).
  split.
  - assert (node_capacity s = cap) as -> by (unfold node_capacity, s; simpl; rewrite length_replicate; lia). done.
  - split.
    + done.
    + intros fl o Hfl Ho. exists 0%nat. split; [|done]. change (free_heads s) with free_heads_null. apply lookup_replicate_2.
      unfold free_head_index, VM_NFREELIST, MAX_TRACKED_ORDER in *. lia.
    + intros i k. split; [by intros ?%elem_of_nil|]. intros (b & Hb & Hst & _).
      by rewrite (Hin i b Hb) in Hst.
    + intros _. constructor.
    + intros i b Hb Hst. by rewrite (Hin i b Hb) in Hst.
    + done.
    + intros o Ho. change (free_count_per_order (stats s)) with (replicate (S MAX_TRACKED_ORDER) 0%nat).
      apply lookup_replicate_2. lia.
    + unfold blocks, s. simpl. induction (Z.to_nat cap) as [|n IH]; [done|exact IH].
    + intros i b Hb _. unfold nx, pv. simpl.
      destruct (replicate (Z.to_nat cap) empty_node !! i) as [x|] eqn:Hx; [|done].
      apply lookup_replicate in Hx as [-> _]. done.
  - split.
    + intros i b Hb Ha. by rewrite inactive_state in Ha by (by eapply Hin).
    + intros i j bi bj Hb _ Ha. by rewrite inactive_state in Ha by (by eapply Hin).
Qed.

Lemma shape_initialized s L : shape s L -> shape (set_initialized s) L.
Proof. intros []. split; [done|by eapply linked_core|done]. Qed.

Lemma prepared_sums segs reserved cap m :
  sumZ free_size (blocks (prepared segs reserved cap m)) = 0 /\
  sumZ held_size (blocks (prepared segs reserved cap m)) = 0.
Proof. unfold blocks. simpl. induction (Z.to_nat cap) as [|n IH]; [done|exact IH]. Qed.

(** ** Seeding *)

(** The page [q] of the segment meets no reserved interval and no metadata. *)
Definition page_usable (reserved : list (Z * Z)) (m : MemorySegment) (seg : BuddySegment) (q : Z) : Prop :=
  ~ page_taken seg (reserved ++ [range_interval m]) q.

Lemma open_pages_at s cap reserved k seg q :
  segs_ok (segments s) cap -> segments s !! k = Some seg -> 0 <= q < total_pages seg ->
  open_pages s reserved 0 (node_base seg + q) <-> ~ page_taken seg (kept_out s reserved) q.
Proof.
  intros Hsegs Hk Hq. pose proof (sg_ok _ _ Hsegs _ _ Hk) as Hseg.
  rewrite <- (proj2 (proj2 (page_ivs_spec seg (kept_out s reserved) Hseg))) by done. split.
  - intros (j & seg' & _ & Hj & Hu).
    assert (j = k) as ->.
    { eapply (in_seg_inj _ _ Hsegs j k seg' seg (node_base seg + q)); [done|done| |unfold in_seg; lia].
      unfold untaken, in_seg in *. lia. }
    simplify_eq. destruct Hu as [_ Hu]. by replace (node_base seg + q - node_base seg) with q in Hu by lia.
  - intros Hu. exists k, seg. split_and!; [lia|done|].
    unfold untaken. replace (node_base seg + q - node_base seg) with q by lia. done.
Qed.

Record started (segs : list MemorySegment) (reserved : list (Z * Z)) (m : MemorySegment)
    (s : BuddyAllocator) : Prop := {
  st_init : initialized s = true;
  st_inv : binv s;
  st_tidy : tidy false (segments s) (blocks s);
  st_none_held i b : ~ held (blocks s) i b;
  st_metadata : metadata_ranges s = [m];
  st_segments : segments s = build_segments 0 (all_effective segs);
  st_pages k seg q : segments s !! k = Some seg -> 0 <= q < total_pages seg ->
    page_free (blocks s) (node_base seg + q) <-> page_usable reserved m seg q }.

Definition finish : M (result unit BuddyInitError) :=
  map_stats (fun t => set_reserved (saturating_sub (st_total_pages t) (free_pages_count t + allocated_pages t)) t);;
  modify set_initialized;;
  mret (Ok tt).

Lemma seeding_spec segs reserved cap m :
  segs_ok (build_segments 0 (all_effective segs)) cap -> 0 <= cap ->
  exists s, (r ← seed_initial_free_ranges reserved;
             match r with Err e => mret (Err e) | Ok _ => finish end)
              (prepared segs reserved cap m) = Done (Ok tt, s) /\ started segs reserved m s.
Proof.
  intros Hsegs Hcap. set (s0 := prepared segs reserved cap m).
  pose proof (prepared_shape segs reserved cap m Hsegs Hcap) as Hsh. fold s0 in Hsh.
  assert (forall i b, blocks s0 !! i = Some b -> n_state b = NODE_INACTIVE) as Hin by (intros i b; apply no_node_active).
  destruct (seed_segments_spec reserved (segments s0) 0 s0 _ Hsh) as (s1 & n & Hrun & Hsd & Hn & Ht).
  { done. }
  { intros j x Hx Ha. by rewrite inactive_state in Ha by (by eapply Hin). }
  pose proof (seeded_segments _ _ _ _ Hsd) as Hs1. pose proof Hsd as [[L1 Hsh1] Hcore Hpg Hh Hfs Hhs _].
  destruct (prepared_sums segs reserved cap m) as [Hf0 Hh0]. fold s0 in Hf0, Hh0.
  assert (cap = sumZ total_pages (segments s0)) as Hsum by apply (sg_cap _ _ Hsegs).
  assert (st_total_pages (stats s0) = cap) as Htot.
  { simpl. rewrite sum_pages_spec; [done| |].
    - intros seg (k & Hk)%list_elem_of_lookup. pose proof (so_pages _ (sg_ok _ _ Hsegs _ _ Hk)). lia.
    - rewrite <- (sg_cap _ _ Hsegs). apply (sg_cap_max _ _ Hsegs). }
  assert (free_pages_count (stats s1) = n /\ allocated_pages (stats s1) = 0 /\ st_total_pages (stats s1) = cap) as (E1 & E2 & E3).
  { split_and!; [rewrite (core_free _ _ Hcore); done|rewrite (core_allocated _ _ Hcore); done|].
    rewrite (core_total _ _ Hcore). done. }
  assert (node_capacity s1 = cap) as Hcap1 by (rewrite (sg_cap _ _ (sh_segs _ _ Hsh1)), Hs1; done).
  assert (seed_initial_free_ranges reserved s0 = Done (Ok tt, s1)) as Hseed
    by (unfold seed_initial_free_ranges; by rewrite get_bind).
  rewrite (bindM _ _ _ _ _ Hseed). unfold finish. rewrite map_stats_bind. erewrite (bindM (modify _)) by done.
  eexists. split; [done|]. rewrite E1, E2, E3.
  split; [done| |by rewrite <- Hs1 in Ht; apply Ht; intros i ? ? ? ? Hi; rewrite (Hin i _ Hi)| | |done|].
  - split; [split|]; try done.
    + exists L1. apply shape_initialized. by apply shape_stats.
    + etrans; [exact E1|]. change (blocks _) with (blocks s1). lia.
    + etrans; [exact E2|]. change (blocks _) with (blocks s1). lia.
    + etrans; [exact E3|]. by symmetry.
    + intros _. change (blocks _) with (blocks s1). change (node_capacity _) with (node_capacity s1).
      simpl. unfold saturating_sub. rewrite Hsum in *. lia.
    + intros i b [Hb Hst]%Hh. rewrite (Hin i b Hb) in Hst. by destruct Hst.
  - intros i b [Hb Hst]%Hh. rewrite (Hin i b Hb) in Hst. by destruct Hst.
  - etrans; [exact (core_metadata _ _ Hcore)|done].
  - intros k seg q Hk Hq. change (blocks _) with (blocks s1). rewrite Hpg.
    change (segments s1 !! k = Some seg) in Hk. rewrite Hs1 in Hk.
    rewrite (open_pages_at s0 cap) by done. unfold page_usable.
    change (reserved ++ [range_interval m]) with (kept_out s0 reserved).
    split; [|by right]. intros [(i & b & Hb & Hst & _)|?]; [|done]. by rewrite (Hin i b Hb) in Hst.
Qed.

(** ** Initialisation *)

Section init.
Context `{!Layouts}.
Context (Hseg : layout_ok layout_BuddySegment) (Hmem : layout_ok layout_MemorySegment)
  (Hnode : layout_ok layout_BlockNode) (Hatomic : layout_ok layout_AtomicUsize).
Context (segs : list MemorySegment) (reserved : list (Z * Z)) (phys_to_virt : Z -> Z).

(** The memory map is of machine words, and no two of its ranges overlap. *)
Context (Hok : Forall range_ok segs) (Hap : all_apart segs)
  (Hcount : count_effective_segments segs < 4294967296).

(** The direct map keeps pages aligned. *)
Context (Hvirt : forall p, 0 <= p -> (PAGE_SIZE | p) -> 0 <= phys_to_virt p /\ (PAGE_SIZE | phys_to_virt p)).

Definition reserved_count : Z := Z.of_nat (length (List.filter (fun iv => iv.1 <? iv.2) reserved)).

(** Why there is no room for the metadata: more pages than can be counted, an
    estimate that overflows, no hole large enough, or a virtual range that
    passes the end of the address space. *)
Definition no_metadata : Prop :=
  U64_MAX / PAGE_SIZE < sumZ pages_of (all_effective segs) \/
  buddy_metadata_bytes (count_effective_segments segs) reserved_count (sumZ pages_of (all_effective segs)) = None \/
  exists bytes, buddy_metadata_bytes (count_effective_segments segs) reserved_count
      (sumZ pages_of (all_effective segs)) = Some bytes /\
    (carve_metadata_range segs reserved bytes = None \/
     exists m, carve_metadata_range segs reserved bytes = Some m /\ U64_MAX < phys_to_virt (start m) + size m).

Local Abbreviation cap := (sumZ pages_of (all_effective segs)).

Lemma capacity_facts :
  0 <= cap /\ (count_effective_segments segs = 0 -> all_effective segs = []) /\
  (count_effective_segments segs <> 0 -> cap <> 0) /\ 0 <= count_effective_segments segs /\ 0 <= reserved_count.
Proof.
  assert (forall e, e ∈ all_effective segs -> 1 <= pages_of e) as Hpg
    by (intros e He; eapply pages_of_effective, all_effective_ok; done).
  assert (forall l, (forall e, e ∈ l -> 1 <= pages_of e) -> 0 <= sumZ pages_of l) as Hsum.
  { intros l Hl. apply sumZ_nonneg. intros e He. specialize (Hl e He). lia. }
  unfold count_effective_segments, reserved_count.
  destruct (all_effective segs) as [|e l]; [simpl; split_and!; (done || lia)|].
  pose proof (Hpg e ltac:(by left)). pose proof (Hsum l ltac:(intros x Hx; apply Hpg; by right)). simpl.
  split_and!; (done || lia).
Qed.

(** The range carved for the tables lies in a hole of the map, and they fit it. *)
Lemma metadata_placed bytes m :
  buddy_metadata_bytes (count_effective_segments segs) reserved_count cap = Some bytes ->
  carve_metadata_range segs reserved bytes = Some m ->
  (exists e, e ∈ all_effective segs /\ hole reserved e.1 (size m) (start m)) /\
  0 <= phys_to_virt (start m) /\
  (phys_to_virt (start m) + size m <= U64_MAX -> exists c,
     alloc_metadata (count_effective_segments segs) reserved_count cap (phys_to_virt (start m))
       (phys_to_virt (start m) + size m) = Some c).
Proof.
  intros Hbytes Hm. destruct capacity_facts as (Hc & _ & _ & Hn1 & Hn2).
  assert (0 <= bytes) as Hb0.
  { destruct (metadata_bytes_inv Hseg Hmem Hnode Hatomic _ _ _ _ Hn1 Hn2 Hc Hbytes)
      as (c1 & c2 & c3 & c4 & c5 & _ & _ & _ & _ & _ & ? & ? & ?). lia. }
  pose proof (carve_spec segs reserved bytes Hok Hb0) as Hcarve. rewrite Hm in Hcarve.
  destruct (align_up_checked (Z.max bytes PAGE_SIZE) PAGE_SIZE) as [sz|]; [|done].
  destruct Hcarve as (Hs1 & Hs2 & Hs3 & Hsize & e & He & Hh). rewrite <- Hsize in Hh.
  assert (0 <= start m) as Hm0.
  { pose proof (ef_start _ (proj1 (all_effective_ok segs e Hok He))). destruct Hh as (_ & ? & _). lia. }
  destruct (Hvirt (start m) Hm0 (proj1 Hh)) as [Hv0 Hv1]. split_and!; [by exists e|done|]. intros Hle.
  eapply (alloc_metadata_ok Hseg Hmem Hnode Hatomic _ _ _ bytes); try done; lia.
Qed.

Definition init_outcome (r : result unit BuddyInitError) (s : BuddyAllocator) : Prop :=
  match r with
  | Ok _ => exists m, started segs reserved m s /\
      exists e, e ∈ all_effective segs /\ hole reserved e.1 (size m) (start m)
  | Err EmptyMemoryMap => s = new_allocator /\ all_effective segs = []
  | Err InitMetadataOutOfMemory => s = new_allocator /\ no_metadata
  end.

Lemma init_spec : exists r s, init segs reserved phys_to_virt = Done (r, s) /\ init_outcome r s.
Proof.
  unfold init. destruct capacity_facts as (Hcap0 & Hempty & Hsome & _).
  destruct (Z.eqb_spec (count_effective_segments segs) 0) as [Hz|Hnz].
  { exists (Err EmptyMemoryMap), new_allocator. split; [done|split; auto]. }
  pose proof (estimate_spec segs Hok) as Hest. pose proof (Hsome Hnz) as Hcap.
  assert (no_metadata -> exists r s, Done (Err InitMetadataOutOfMemory, new_allocator) = Done (r, s) /\
    init_outcome r s) as Hfail by (intros; by eexists _, _).
  destruct (estimate_total_pages segs) as [c|].
  2: { apply Hfail. left. eapply Z.lt_le_trans; [|exact Hest]. done. }
  rewrite Hest. destruct (Z.eqb_spec cap 0) as [|_]; [done|].
  destruct (Z.ltb_spec (U64_MAX / PAGE_SIZE) cap) as [Hlt|Hle]; [apply Hfail; by left|].
  fold reserved_count. destruct (buddy_metadata_bytes _ reserved_count cap) as [bytes|] eqn:Hbytes.
  2: { apply Hfail. right. by left. }
  destruct (carve_metadata_range segs reserved bytes) as [m|] eqn:Hm.
  2: { apply Hfail. right. right. exists bytes. split; [done|by left]. }
  destruct (metadata_placed bytes m Hbytes Hm) as (Hh & Hv & Halloc).
  destruct (checked_add (phys_to_virt (start m)) (size m)) as [end_|] eqn:Hend.
  2: { apply Hfail. right. right. exists bytes. split; [done|]. right. exists m. split; [done|].
    unfold checked_add in Hend. destruct (Z.leb_spec (phys_to_virt (start m) + size m) U64_MAX); [done|lia]. }
  apply checked_add_Some in Hend as [Hend ->]. destruct (Halloc ltac:(lia)) as [c' ->].
  destruct (seeding_spec segs reserved cap m) as (s & Hrun & Hst); [|done|].
  { apply build_segs_ok; [|by apply all_effective_apart|done|done|done].
    apply Forall_forall. intros e He. by eapply all_effective_ok. }
  exists (Ok tt), s. split; [exact Hrun|]. by exists m.
Qed.
End init.
