(* ===== verification/BuddyRelease.v ===== *)
(** * Giving up reserved pages, and NUMA nodes

    [release_reserved_range] adds the pages of a range no block meets to the free
    pages, and the accounts stay right.  Installing the NUMA ranges changes
    nothing but the node of each segment, and afterwards every address of memory
    is on the node of the range it lies in. *)

From stdpp Require Import functions.
From S2P Require Import Prelude Buddy BuddyInit BuddyLinks BuddyBlocks BuddyShape.
From S2P Require Import BuddyProofs BuddySplit BuddyAlloc BuddySeed BuddyExact.

(** ** The pages of the blocks *)

(** Disjoint blocks below [m] have at most [m] pages. *)
Lemma blocks_below bl n m :
  (forall i j bi bj, bl !! i = Some bi -> bl !! j = Some bj -> active bi = true -> active bj = true -> (i < j)%nat ->
     Z.of_nat i + pow2 (n_order bi) <= Z.of_nat j) ->
  0 <= m -> (forall i b, (i < n)%nat -> bl !! i = Some b -> active b = true -> Z.of_nat i + pow2 (n_order b) <= m) ->
  sumZ free_size (take n bl) + sumZ held_size (take n bl) <= m.
Proof.
  intros Hdis. revert m. induction n as [|n IH]; intros m Hm Hbound; [done|].
  destruct (bl !! n) as [b|] eqn:Hb.
  2: { rewrite take_ge by (apply lookup_ge_None in Hb; lia). rewrite <- (take_ge bl n) by (by apply lookup_ge_None).
    apply IH; [done|]. intros i b' Hi. apply Hbound. lia. }
  rewrite (take_S_r _ _ _ Hb), !sumZ_app. simpl. destruct (active b) eqn:Ha.
  - assert (sumZ free_size (take n bl) + sumZ held_size (take n bl) <= Z.of_nat n) as Hle.
    { apply IH; [lia|]. intros i b' Hi Hb' Ha'. by apply (Hdis i n b' b). }
    pose proof (Hbound n b ltac:(lia) Hb Ha).
    assert (free_size b + held_size b = pow2 (n_order b)) as Hs.
    { unfold free_size, held_size. unfold active in Ha. destruct (n_state b); simpl in *; try done; lia. }
    lia.
  - destruct (sizes_inactive b) as [-> ->].
    { unfold active in Ha. by apply negb_false_iff, bool_decide_eq_true in Ha. }
    specialize (IH m Hm ltac:(intros i b' Hi; apply Hbound; lia)). lia.
Qed.

Lemma pages_fit s L : shape s L -> sumZ free_size (blocks s) + sumZ held_size (blocks s) <= node_capacity s.
Proof.
  intros Hsh. rewrite <- (take_ge (blocks s) (length (blocks s))) by done.
  apply blocks_below; [apply Hsh|unfold node_capacity; lia|].
  intros i b _ Hb Ha. destruct (block_fits _ _ Hsh _ _ Hb Ha) as (seg & (Hk & H1 & H2 & _) & _).
  pose proof (pow2_pos (n_order b)).
  pose proof (in_seg_cap _ _ (sh_segs _ _ Hsh) _ _ (Z.of_nat i + pow2 (n_order b) - 1) Hk ltac:(unfold in_seg; lia)). lia.
Qed.

(** ** The range *)

Lemma no_overlap_clear s L k seg a n :
  shape s L -> segments s !! k = Some seg -> 0 <= a -> 0 < n -> a + n <= total_pages seg ->
  any_tracked_block_overlaps s (addr_of seg (node_base seg + a)) (addr_of seg (node_base seg + a + n)) = false ->
  clear_run (blocks s) (node_base seg + a) (node_base seg + a + n).
Proof.
  intros Hsh Hk Ha Hn0 Hn Hov j x Hx Hact. pose proof (sh_segs _ _ Hsh) as Hsegs.
  destruct (block_fits _ _ Hsh _ _ Hx Hact) as (seg' & Hf & Hseg' & Hstart & _).
  pose proof Hf as (Hk' & H1 & H2 & _). pose proof (pow2_pos (n_order x)) as Hpos.
  destruct (decide (n_seg_idx x = k)) as [Heq|Hne].
  2: { destruct (Z.le_gt_cases (Z.of_nat j + pow2 (n_order x)) (node_base seg + a)) as [|Hgt]; [by left|].
    right. destruct (Z.le_gt_cases (node_base seg + a + n) (Z.of_nat j)) as [|Hgt']; [done|]. exfalso. apply Hne.
    eapply (in_seg_inj _ _ Hsegs _ _ seg' seg (Z.max (Z.of_nat j) (node_base seg + a))); [done|done|unfold in_seg; lia..]. }
  rewrite Heq in Hk'. assert (seg' = seg) as -> by congruence.
  apply lookup_blocks in Hx as (nd & Hnd & ->). simpl in *.
  assert (n_start nd + pow2 (n_order nd) * PAGE_SIZE = addr_of seg (Z.of_nat j + pow2 (n_order nd))) as Hend
    by (rewrite Hstart; unfold addr_of; lia).
  assert (addr_of seg (Z.of_nat j + pow2 (n_order nd)) <= U64_MAX) as Hu.
  { pose proof (so_end _ Hseg') as He. rewrite (so_size _ Hseg') in He. unfold addr_of, PAGE_SIZE in *. lia. }
  assert (0 <= addr_of seg (Z.of_nat j)) by (pose proof (so_start _ Hseg'); unfold addr_of, PAGE_SIZE; lia).
  assert ((addr_of seg (Z.of_nat j) <? addr_of seg (node_base seg + a + n)) &&
    (addr_of seg (node_base seg + a) <? addr_of seg (Z.of_nat j + pow2 (n_order nd))) = false) as Hno.
  { apply not_true_iff_false. intros Htrue. apply not_true_iff_false in Hov. apply Hov.
    apply existsb_exists. exists nd. split; [by apply list_elem_of_In; eapply list_elem_of_lookup_2|].
    change (bool_decide (n_state nd = NODE_INACTIVE)) with (bool_decide (n_state (erase nd) = NODE_INACTIVE)).
    fold (active (erase nd)). rewrite Hact, block_pages_pow2. simpl.
    replace (saturating_add (n_start nd) (saturating_mul (pow2 (n_order nd)) PAGE_SIZE))
      with (addr_of seg (Z.of_nat j + pow2 (n_order nd))); [by rewrite Hstart|].
    rewrite <- Hend. unfold saturating_add, saturating_mul. lia. }
  apply andb_false_iff in Hno as [Hno%Z.ltb_ge|Hno%Z.ltb_ge]; unfold addr_of, PAGE_SIZE in Hno; lia.
Qed.

(** The invariant once the pages are taken off the reserved ones. *)
Lemma seeded_inv s P n s1 :
  binv s -> initialized s = true -> seeded s P n s1 -> 0 <= n ->
  binv (set_stats (set_reserved (saturating_sub (reserved_pages (stats s1)) n) (stats s1)) s1).
Proof.
  intros [[[L Hsh] A1 A2 A3 A4] Hrefs] Hi [[L1 Hsh1] Hcore Hpg Hh Hfs Hhs _] Hn.
  pose proof (core_segments _ _ Hcore) as Hs. pose proof (shape_capacity _ _ _ _ Hsh Hsh1 Hs) as Hcap.
  pose proof (pages_fit _ _ Hsh1) as Hfit. specialize (A4 Hi). split; [split|].
  - exists L1. by apply shape_stats.
  - etrans; [exact (core_free _ _ Hcore)|]. simpl. change (blocks (set_stats _ s1)) with (blocks s1). lia.
  - etrans; [exact (core_allocated _ _ Hcore)|]. simpl. change (blocks (set_stats _ s1)) with (blocks s1). lia.
  - etrans; [exact (core_total _ _ Hcore)|]. simpl. change (node_capacity (set_stats _ s1)) with (node_capacity s1). lia.
  - intros _. change (blocks (set_stats _ s1)) with (blocks s1).
    change (node_capacity (set_stats _ s1)) with (node_capacity s1). simpl.
    assert (reserved_pages (stats s1) = reserved_pages (stats s)) as -> by apply (core_reserved _ _ Hcore).
    unfold saturating_sub. lia.
  - intros j b Hj. apply (Hrefs j b). by apply Hh.
Qed.

(** What the release of a range ends with: the range was inside a segment and
    met no block, and its pages are free now; or nothing happened. *)
Lemma release_range_spec s first sz :
  binv s -> initialized s = true -> 0 <= first -> 0 <= sz ->
  exists r s', release_reserved_range first sz s = Done (r, s') /\ binv s' /\
    segments s' = segments s /\ initialized s' = true /\
    match r with
    | Ok n => n * PAGE_SIZE = sz /\ (forall j b, held (blocks s') j b <-> held (blocks s) j b) /\
        ((n = 0 /\ s' = s) \/
         exists k seg a, segments s !! k = Some seg /\ first = addr_of seg a /\
           node_base seg <= a /\ a + n <= node_base seg + total_pages seg /\
           clear_run (blocks s) a (a + n) /\
           forall p, page_free (blocks s') p <-> page_free (blocks s) p \/ a <= p < a + n)
    | Err _ => s' = s
    end.
Proof.
  intros Hinv Hi Hf0 Hs0. unfold release_reserved_range. rewrite get_bind, Hi. cbn [negb].
  destruct (Z.eqb_spec sz 0) as [->|Hsz].
  { exists (Ok 0), s. split_and!; try done. by left. }
  destruct (Z.eqb_spec (first mod PAGE_SIZE) 0) as [Hm1|]; [|by exists (Err Unaligned), s]. 
  destruct (Z.eqb_spec (sz mod PAGE_SIZE) 0) as [Hm2|]; [|by exists (Err Unaligned), s]. cbn [negb orb].
  destruct (checked_add first sz) as [end_|] eqn:Hend; [|by exists (Err ReleaseInvalidAddress), s].
  apply checked_add_Some in Hend as [Hend ->].
  destruct (page_location s first) as [[k a]|] eqn:Hl1; [|by exists (Err ReleaseInvalidAddress), s].
  destruct (page_location s (first + sz - PAGE_SIZE)) as [[k2 z]|] eqn:Hl2; [|by exists (Err ReleaseInvalidAddress), s].
  destruct (Nat.eqb_spec k k2) as [<-|]; [|by exists (Err ReleaseInvalidAddress), s]. cbn [negb].
  apply Z.mod_divide in Hm1 as [u ->]; [|done]. apply Z.mod_divide in Hm2 as [n ->]; [|done].
  destruct (any_tracked_block_overlaps s _ _) eqn:Hov; [by exists (Err OverlapsTrackedBlock), s|].
  apply page_location_from_inv in Hl1 as (k' & seg & -> & Hk & Hr1 & -> & Hp1).
  apply page_location_from_inv in Hl2 as (k'' & seg' & Hkk & Hk' & Hr2 & -> & Hp2). simpl in *.
  assert (k'' = k') as -> by lia. assert (seg' = seg) as -> by congruence.
  destruct (bi_shape _ Hinv) as [L Hsh]. pose proof (sg_ok _ _ (sh_segs _ _ Hsh) _ _ Hk) as Hseg.
  destruct (so_aligned _ Hseg) as [w Hw]. rewrite Hw in *.
  replace ((u * PAGE_SIZE - w * PAGE_SIZE) / PAGE_SIZE) with (u - w) in *
    by (rewrite <- Z.mul_sub_distr_r; by rewrite Z.div_mul).
  replace ((u * PAGE_SIZE + n * PAGE_SIZE - PAGE_SIZE - w * PAGE_SIZE) / PAGE_SIZE) with (u - w + n - 1) in *
    by (replace (u * PAGE_SIZE + n * PAGE_SIZE - PAGE_SIZE - w * PAGE_SIZE) with ((u - w + n - 1) * PAGE_SIZE) by lia;
        by rewrite Z.div_mul).
  assert (0 < n /\ 0 <= u - w) as [Hn Hu] by (unfold PAGE_SIZE in *; lia).
  assert (forall x, addr_of seg (node_base seg + x) = (w + x) * PAGE_SIZE) as Haddr
    by (intros x; unfold addr_of; rewrite Hw; lia).
  assert (clear_run (blocks s) (node_base seg + (u - w)) (node_base seg + (u - w) + n)) as Hclear.
  { apply (no_overlap_clear s L k'); try done; [lia|]. rewrite <- Z.add_assoc, !Haddr, <- Hov. f_equal; lia. }
  destruct (seed_free_range_spec s L k' seg (u - w) (u - w + n - 1 + 1) Hsh Hk) as (s1 & Hrun & Hsd & _);
    [lia|lia|by replace (node_base seg + (u - w + n - 1 + 1)) with (node_base seg + (u - w) + n) by lia|].
  replace (u - w + n - 1 + 1 - (u - w)) with n in Hsd by lia.
  rewrite (bindM _ _ _ _ _ Hrun), Z.div_mul, map_stats_bind by done. set (s2 := set_stats _ s1).
  exists (Ok n), s2. split; [done|]. split_and!; try done.
  - apply (seeded_inv s _ n s1 Hinv Hi Hsd). lia.
  - apply (seeded_segments _ _ _ _ Hsd).
  - etrans; [exact (core_initialized _ _ (sd_core _ _ _ _ Hsd))|done].
  - apply (sd_held _ _ _ _ Hsd).
  - right. exists k', seg, (node_base seg + (u - w)). split_and!; try done; try lia.
    + rewrite Haddr. lia.
    + apply (sd_pages _ _ _ _ Hsd).
Qed.

(** ** Segments up to their node *)

Definition plain_segs (segs : list BuddySegment) : list BuddySegment := set_numa None <$> segs.

Lemma plain_lookup segs segs' k seg' :
  plain_segs segs' = plain_segs segs -> segs' !! k = Some seg' ->
  exists seg, segs !! k = Some seg /\ set_numa None seg' = set_numa None seg.
Proof.
  intros Heq Hk. assert (plain_segs segs' !! k = Some (set_numa None seg')) as Hp
    by (unfold plain_segs; by rewrite list_lookup_fmap, Hk).
  rewrite Heq in Hp. unfold plain_segs in Hp. rewrite list_lookup_fmap in Hp.
  destruct (segs !! k) as [seg|]; simpl in Hp; [|done]. simplify_eq. exists seg. split; [done|].
  by destruct seg, seg'; simplify_eq/=.
Qed.

Lemma plain_sum segs segs' n :
  plain_segs segs' = plain_segs segs -> sumZ total_pages (take n segs') = sumZ total_pages (take n segs).
Proof.
  revert n segs'. induction segs as [|x segs IH]; intros n [|y segs'] Heq; simplify_eq/=; [done|].
  destruct n as [|n]; [done|]. simpl. destruct x, y; simplify_eq/=. by rewrite (IH n segs').
Qed.

Lemma segs_ok_plain segs segs' cap :
  plain_segs segs' = plain_segs segs -> segs_ok segs cap -> segs_ok segs' cap.
Proof.
  intros Heq [Gok Gbase Gcap Gmax Gdis Gcount]. assert (length segs' = length segs) as Hlen.
  { apply (f_equal length) in Heq. unfold plain_segs in Heq. by rewrite !length_fmap in Heq. }
  split.
  - intros k seg' Hk. destruct (plain_lookup _ _ _ _ Heq Hk) as (seg & Hs & He).
    destruct (Gok k seg Hs). destruct seg, seg'; simplify_eq/=. by split.
  - intros k seg' Hk. destruct (plain_lookup _ _ _ _ Heq Hk) as (seg & Hs & He).
    rewrite (plain_sum _ _ _ Heq), <- (Gbase k seg Hs). destruct seg, seg'; by simplify_eq/=.
  - rewrite Gcap. pose proof (plain_sum _ _ (length segs) Heq) as Hp.
    rewrite !take_ge in Hp by lia. done.
  - done.
  - intros k1 k2 s1 s2 H1 H2 Hne. destruct (plain_lookup _ _ _ _ Heq H1) as (x1 & Hx1 & E1).
    destruct (plain_lookup _ _ _ _ Heq H2) as (x2 & Hx2 & E2).
    specialize (Gdis k1 k2 x1 x2 Hx1 Hx2 Hne). destruct s1, s2, x1, x2; simplify_eq/=. done.
  - by rewrite Hlen.
Qed.

Lemma fits_plain segs segs' p o k seg :
  plain_segs segs' = plain_segs segs -> fits segs p o k seg ->
  exists seg', fits segs' p o k seg' /\ set_numa None seg' = set_numa None seg.
Proof.
  intros Heq (Hk & Hf). destruct (plain_lookup _ _ _ _ (eq_sym Heq) Hk) as (seg' & Hs & He).
  exists seg'. split; [|done]. split; [done|]. destruct seg, seg'; by simplify_eq/=.
Qed.

Lemma shape_plain s L segs' :
  plain_segs segs' = plain_segs (segments s) -> shape s L -> shape (set_segments segs' s) L.
Proof.
  intros Heq [H1 H2 H3]. split; [by eapply segs_ok_plain|by eapply linked_core|].
  split; [|apply H3]. intros i b Hb Ha. destruct (gm_ok _ _ H3 i b Hb Ha) as [Hp (seg & Hf & Hst & Hfl)].
  split; [done|]. destruct (fits_plain _ _ _ _ _ _ Heq Hf) as (seg' & Hf' & He). exists seg'. split; [done|].
  destruct seg, seg'; by simplify_eq/=.
Qed.

Lemma tidy_plain lax segs segs' bl : plain_segs segs' = plain_segs segs -> tidy lax segs bl -> tidy lax segs' bl.
Proof.
  intros Heq Ht i j bi bj seg' Hi Hj H1 H2 H3 H4 Hk H5 H6.
  destruct (plain_lookup _ _ _ _ Heq Hk) as (seg & Hs & He).
  specialize (Ht i j bi bj seg Hi Hj H1 H2 H3 H4 Hs). destruct seg, seg'; simplify_eq/=. by apply Ht.
Qed.

(** ** The node of a segment *)

Lemma match_range_spec seg ranges matched m :
  match_range seg matched ranges = Ok m ->
  (forall r, r ∈ ranges -> ranges_overlap seg (nr_range r) = true ->
     start (nr_range r) <= start seg /\ seg_end seg <= seg_end (nr_range r) /\ m = Some (node_id r)) /\
  (m = matched \/ exists r, r ∈ ranges /\ ranges_overlap seg (nr_range r) = true /\ m = Some (node_id r)) /\
  (forall n, matched = Some n -> m = Some n).
Proof.
  revert matched. induction ranges as [|r ranges IH]; intros matched; cbn [match_range].
  { intros [= ->]. split_and!; [by intros ? ?%elem_of_nil|by left|done]. }
  destruct (ranges_overlap seg (nr_range r)) eqn:Hov; cbn [negb].
  2: { intros (H1 & H2 & H3)%IH. split_and!; [|destruct H2 as [?|(x & ? & ?)]; [by left|right; exists x; split; [by right|done]]|done].
    intros x [->|Hx]%elem_of_cons; [by rewrite Hov|by apply H1]. }
  destruct ((start seg <? start (nr_range r)) || (seg_end (nr_range r) <? seg_end seg)) eqn:Hin; [done|].
  apply orb_false_iff in Hin as [Hin1%Z.ltb_ge Hin2%Z.ltb_ge].
  assert (match matched with Some m => negb (m =? node_id r) | None => false end = false ->
    forall n, matched = Some n -> n = node_id r) as Hsame.
  { intros Hm n ->. apply negb_false_iff, Z.eqb_eq in Hm. done. }
  destruct (match matched with Some m => _ | None => _ end); [done|].
  intros (H1 & H2 & H3)%IH. specialize (H3 _ eq_refl). split_and!.
  - intros x [->|Hx]%elem_of_cons Hx'; [done|by apply H1].
  - right. exists r. split_and!; [by left|done|done].
  - intros n Hn. rewrite H3. f_equal. symmetry. by apply Hsame.
Qed.

Lemma install_loop_spec segs ranges :
  let '(segs', r) := install_loop segs ranges in
  plain_segs segs' = plain_segs segs /\
  (r = Ok tt -> forall k seg', segs' !! k = Some seg' -> match_range (range seg') None ranges = Ok (numa_node_id seg')).
Proof.
  induction segs as [|seg segs IH]; cbn [install_loop]; [done|].
  destruct (match_range (range seg) None ranges) as [m|e] eqn:Hm; [|done].
  destruct (install_loop segs ranges) as [segs' r]. destruct IH as [Heq Hall]. split.
  - unfold plain_segs in *. by rewrite !fmap_cons, Heq.
  - intros Hr [|k] seg' Hk; simpl in Hk; [by simplify_eq|by eapply Hall].
Qed.

(** Nothing but the nodes changes; and after a success an address of memory is
    on a node exactly if a range of that node contains it. *)
Lemma install_spec s ranges :
  binv s -> initialized s = true ->
  exists r s', install_numa_ranges ranges s = Done (r, s') /\ binv s' /\
    blocks s' = blocks s /\ plain_segs (segments s') = plain_segs (segments s) /\ initialized s' = true /\
    (tidy true (segments s) (blocks s) -> tidy true (segments s') (blocks s')) /\
    (r = Ok tt -> forall a k q n, page_location s a = Some (k, q) ->
       numa_node_for_addr s' a = Some n <->
       exists x, x ∈ ranges /\ node_id x = n /\ start (nr_range x) <= a < seg_end (nr_range x)).
Proof.
  intros Hinv Hi. unfold install_numa_ranges. rewrite get_bind, Hi. cbn [negb].
  destruct (numa_ranges_ok [] ranges) as [[]|e]; [|by exists (Err e), s].
  pose proof (install_loop_spec (segments s) ranges) as Hloop.
  destruct (install_loop (segments s) ranges) as [segs' r]. destruct Hloop as [Heq Hall].
  erewrite (bindM (modify _)) by done. set (s' := set_segments segs' s).
  destruct Hinv as [[[L Hsh] A1 A2 A3 A4] Hrefs].
  pose proof (shape_plain s L segs' Heq Hsh) as Hsh'. fold s' in Hsh'.
  exists r, s'. split_and!; try done.
  - split; [split|]; try done. by exists L.
  - by apply tidy_plain.
  - intros Hr a k q n Hl.
    apply page_location_from_inv in Hl as (k' & seg & -> & Hk & Ha & -> & Hp).
    destruct (plain_lookup _ _ _ _ (eq_sym Heq) Hk) as (seg' & Hk' & He).
    assert (range seg' = range seg) as Hrg by (by destruct seg, seg'; simplify_eq/=).
    pose proof (sg_ok _ _ (sh_segs _ _ Hsh') k' seg' Hk') as Hseg'.
    destruct (match_range_spec _ _ _ _ (Hall Hr k' seg' Hk')) as (M1 & M2 & _).
    assert (numa_node_for_addr s' a = numa_node_id seg') as ->.
    { unfold numa_node_for_addr, page_location.
      rewrite (page_location_hit _ _ (sh_segs _ _ Hsh') k' seg') by
        (done || (rewrite Hrg, <- (seg_end_ok seg) by apply (sg_ok _ _ (sh_segs _ _ Hsh) _ _ Hk); done)).
      simpl. unfold segment. change (segments s') with segs'. by rewrite Hk'. }
    rewrite Hrg in *. split.
    + intros Hn. destruct M2 as [M2|(x & Hx & Hov & M2)]; [congruence|].
      destruct (M1 x Hx Hov) as (B1 & B2 & _). exists x. split_and!; [done|congruence|lia|lia].
    + intros (x & Hx & <- & Hax). apply (M1 x Hx). unfold ranges_overlap.
      apply andb_true_iff. split; apply Z.ltb_lt; lia.
Qed.
