(* ===== verification/BuddyAuditProofs.v ===== *)
(** * The audit finds nothing

    On an allocator that satisfies the invariant every check of the audit passes,
    and the recount agrees with the statistics. *)

From stdpp Require Import functions.
From S2P Require Import Prelude Buddy BuddyInit BuddyAudit BuddyLinks BuddyBlocks BuddyShape.
From S2P Require Import BuddyProofs BuddySplit BuddyAlloc BuddyMeta BuddyRelease.

(** ** Segments *)

Lemma max_order_unique seg : seg_ok seg -> max_order seg = max_order_for_pages (total_pages seg).
Proof.
  intros [_ _ _ Hp _ [Ho1 Ho2] Hm _]. destruct (max_order_spec (total_pages seg)) as [[H1 H2] _].
  { split; [done|]. change (U64_MAX / PAGE_SIZE) with (pow2 52 - 1).
    pose proof (pow2_le (S (max_order seg)) 52 ltac:(unfold MAX_TRACKED_ORDER in Hm; lia)). lia. }
  set (m := max_order_for_pages _) in *.
  assert (max_order seg < S m)%nat by (apply pow2_lt; lia).
  assert (m < S (max_order seg))%nat by (apply pow2_lt; lia). lia.
Qed.

Lemma segment_good seg : seg_ok seg -> segment_bad seg = false.
Proof.
  intros Hseg. unfold segment_bad. rewrite <- (max_order_unique seg Hseg), Nat.eqb_refl.
  destruct Hseg as [_ Hal Hsz _ _ _ _ Hfl]. rewrite Hsz, Z.div_mul, Z.mod_mul, !Z.eqb_refl by done.
  apply Z.mod_divide in Hal; [|done]. rewrite Hal. by rewrite (proj2 (Nat.leb_gt _ _) Hfl).
Qed.

Lemma audit_segments_spec s a :
  (forall seg, seg ∈ segments s -> seg_ok seg) -> 0 <= scanned_total_pages a <= U64_MAX ->
  audit_segments s a =
    mkAudit (flags a) (scanned_segments a + Z.of_nat (length (segments s)))
      (Z.min U64_MAX (scanned_total_pages a + sumZ total_pages (segments s)))
      (scanned_allocated_pages a) (scanned_free_pages a) (scanned_reserved_pages a)
      (scanned_hash_nodes a) (scanned_hash_free_nodes a) (scanned_free_nodes a)
      (scanned_free_list_pages a) (scanned_free_count_per_order a).
Proof.
  unfold audit_segments. generalize (segments s) as l. intros l. revert a.
  induction l as [|seg l IH]; intros a Hok Ha; cbn [fold_left].
  - destruct a; simpl in *. rewrite !Z.add_0_r, Z.min_r by lia. done.
  - assert (seg_ok seg) as Hseg by (apply Hok; by left). rewrite segment_good by done. simpl.
    pose proof (so_pages _ Hseg).
    assert (0 <= sumZ total_pages l) by (apply sumZ_nonneg; intros x Hx; pose proof (so_pages _ (Hok x ltac:(by right))); lia).
    rewrite IH; [|intros; apply Hok; by right|simpl; unfold saturating_add; lia].
    simpl. f_equal; [lia|]. unfold saturating_add. lia.
Qed.

(** ** Descriptors *)

Definition is_free (b : BlockNode) : Z := if bool_decide (n_state b = NODE_FREE) then 1 else 0.

Lemma valid_pages s L i b :
  shape s L -> blocks s !! i = Some b -> active b = true -> valid_node_block_pages s b = Some (pow2 (n_order b)).
Proof.
  intros Hsh Hb Ha. destruct (block_fits _ _ Hsh _ _ Hb Ha) as (seg & Hf & Hseg & Hst & Hfl).
  pose proof Hf as (Hk & H1 & H2 & Hm & Hal). unfold valid_node_block_pages, segment.
  pose proof (so_max _ Hseg) as Hmax. rewrite (proj2 (Nat.ltb_ge _ _)) by lia.
  rewrite Hfl, (proj2 (Nat.leb_gt _ _) (so_fl _ Hseg)). simpl. rewrite Hk. simpl.
  rewrite block_pages_pow2, seg_end_ok, Hst by done. pose proof (pow2_pos (n_order b)) as Hpos.
  assert (addr_of seg (Z.of_nat i) + pow2 (n_order b) * PAGE_SIZE <= start (range seg) + size (range seg)) as Hend
    by (rewrite (so_size _ Hseg); unfold addr_of, PAGE_SIZE; lia).
  pose proof (so_end _ Hseg). pose proof (so_start _ Hseg).
  assert (start (range seg) <= addr_of seg (Z.of_nat i)) by (unfold addr_of, PAGE_SIZE; lia).
  unfold checked_mul, checked_add. rewrite (proj2 (Z.leb_le _ U64_MAX)) by lia. simpl.
  rewrite (proj2 (Z.leb_le _ U64_MAX)) by lia. simpl. rewrite addr_of_div by done.
  rewrite (proj2 (Nat.ltb_ge _ _)) by done.
  apply Z.mod_divide in Hal; [|lia]. rewrite Hal, addr_of_pfn, Z.mod_mul by done. rewrite <- addr_of_pfn by done.
  rewrite (proj2 (Z.ltb_ge _ _)) by done. rewrite (proj2 (Z.ltb_ge _ _)) by lia. done.
Qed.

(** What one descriptor adds to the recount. *)
Definition counted (f h act fr : Z) (a : BuddyAudit) : BuddyAudit :=
  mkAudit (flags a) (scanned_segments a) (scanned_total_pages a)
    (Z.min U64_MAX (scanned_allocated_pages a + h)) (Z.min U64_MAX (scanned_free_pages a + f))
    (scanned_reserved_pages a) (scanned_hash_nodes a + act) (scanned_hash_free_nodes a + fr)
    (scanned_free_nodes a) (scanned_free_list_pages a) (scanned_free_count_per_order a).

Definition in_bounds (a : BuddyAudit) : Prop :=
  0 <= scanned_allocated_pages a <= U64_MAX /\ 0 <= scanned_free_pages a <= U64_MAX.

Lemma counted_add f1 h1 x1 y1 f2 h2 x2 y2 a :
  in_bounds a -> 0 <= f1 -> 0 <= h1 -> 0 <= f2 -> 0 <= h2 ->
  counted f2 h2 x2 y2 (counted f1 h1 x1 y1 a) = counted (f1 + f2) (h1 + h2) (x1 + x2) (y1 + y2) a.
Proof. intros [B1 B2] ? ? ? ?. unfold counted. simpl. f_equal; lia. Qed.

Lemma audit_node_spec s L a i n :
  shape s L -> (forall j b, held (blocks s) j b -> 1 <= n_ref_count b) -> in_bounds a -> nodes s !! i = Some n ->
  audit_pfn_node s a (i, n) =
    counted (free_size (erase n)) (held_size (erase n)) (active_size (erase n)) (is_free (erase n)) a.
Proof.
  intros Hsh Hrefs [Ha1 Ha2] Hn. pose proof (blocks_lookup _ _ _ Hn) as Hb.
  unfold audit_pfn_node. destruct (decide (n_state n = NODE_INACTIVE)) as [Hst|Hst].
  { rewrite bool_decide_true by done. destruct (sizes_inactive (erase n) Hst) as [-> ->].
    unfold active_size, is_free. rewrite inactive_state by done. rewrite bool_decide_false by (simpl; congruence).
    unfold counted. rewrite !Z.add_0_r, !Z.min_r by lia. by destruct a. }
  rewrite bool_decide_false by done. assert (active (erase n) = true) as Hact by (by apply active_state).
  destruct (block_fits _ _ Hsh _ _ Hb Hact) as (seg & Hf & Hseg & Hstart & Hfl). simpl in Hstart.
  rewrite Hstart, (node_addr_for_hit _ (sh_segs _ _ Hsh) _ _ _ (proj1 Hf)) by (by eapply fits_in).
  rewrite Nat.eqb_refl. cbn [negb insert_if]. unfold audit_hash_node.
  change (valid_node_block_pages s n) with (valid_node_block_pages s (erase n)).
  rewrite (valid_pages s L i (erase n)) by done. unfold active_size. rewrite Hact.
  destruct (n_state n) eqn:Hs; [done| |..].
  { destruct (sizes_free (erase n) Hs) as [-> ->]. unfold is_free. rewrite bool_decide_true by done.
    pose proof (proj1 (gm_ok _ _ (sh_geom _ _ Hsh) i (erase n) Hb Hact) Hs) as Hp. unfold plain in Hp.
    assert (n_ref_count n = 0) as -> by (apply (f_equal n_ref_count) in Hp; done). simpl.
    unfold counted, saw_free_node, saw_node, saturating_add. simpl.
    by rewrite Z.add_0_r, (Z.min_r U64_MAX (scanned_allocated_pages a)) by lia. }
  all: assert (n_state (erase n) = NODE_ALLOCATED \/ n_state (erase n) = NODE_CACHED) as Hh by auto;
    destruct (sizes_held (erase n) Hh) as [-> ->]; unfold is_free; rewrite bool_decide_false by (simpl; congruence);
    assert (1 <= n_ref_count n) by (by apply (Hrefs i (erase n)));
    destruct (lk_off _ _ (sh_linked _ _ Hsh) i (erase n) Hb) as [Hx Hp]; [simpl; congruence|];
    unfold nx, pv in Hx, Hp; rewrite Hn in Hx, Hp; simpl in Hx, Hp; rewrite Hx, Hp;
    (destruct (Z.eqb_spec (n_ref_count n) 0); [lia|]); simpl;
    unfold counted, saw_allocated_node, saw_node, saturating_add; simpl;
    by rewrite !Z.add_0_r, (Z.min_r U64_MAX (scanned_free_pages a)) by lia.
Qed.

Lemma audit_pfn_spec s L a :
  shape s L -> (forall j b, held (blocks s) j b -> 1 <= n_ref_count b) -> in_bounds a ->
  audit_pfn_index s a = counted (sumZ free_size (blocks s)) (sumZ held_size (blocks s))
    (sumZ active_size (blocks s)) (sumZ is_free (blocks s)) a.
Proof.
  intros Hsh Hrefs. unfold audit_pfn_index, blocks.
  assert (forall l off a, (forall j n, l !! j = Some n -> nodes s !! (off + j)%nat = Some n) -> in_bounds a ->
    fold_left (audit_pfn_node s) (imap (fun j n => ((off + j)%nat, n)) l) a =
    counted (sumZ free_size (erase <$> l)) (sumZ held_size (erase <$> l))
      (sumZ active_size (erase <$> l)) (sumZ is_free (erase <$> l)) a) as Hgen.
  2: { intros Ha. apply (Hgen (nodes s) 0%nat); done. }
  clear a. induction l as [|n l IH]; intros off a Hl Hbd.
  - unfold counted. simpl. destruct Hbd. rewrite !Z.add_0_r, !Z.min_r by lia. by destruct a.
  - rewrite imap_cons. cbn [fold_left]. rewrite Nat.add_0_r.
    rewrite (audit_node_spec s L) by (done || by rewrite <- (Nat.add_0_r off); apply Hl).
    pose proof (free_size_nonneg (erase n)). pose proof (held_size_nonneg (erase n)).
    pose proof (sumZ_nonneg free_size (erase <$> l) ltac:(intros; apply free_size_nonneg)).
    pose proof (sumZ_nonneg held_size (erase <$> l) ltac:(intros; apply held_size_nonneg)).
    rewrite (imap_ext _ (fun j n => ((S off + j)%nat, n))) by (intros; simpl; f_equal; lia).
    rewrite IH.
    + by apply counted_add.
    + intros j x Hx. rewrite Nat.add_succ_comm. by apply Hl.
    + destruct Hbd. unfold in_bounds, counted. simpl. lia.
Qed.

(** ** Free lists *)

(** What the walk of lists adds to the recount: [N] blocks of [P] pages, [C o]
    of them of order [o]. *)
Record walked (a : BuddyAudit) (N P : Z) (C : nat -> nat) (a' : BuddyAudit) : Prop := {
  wk_flags : flags a' = flags a;
  wk_segments : scanned_segments a' = scanned_segments a;
  wk_total : scanned_total_pages a' = scanned_total_pages a;
  wk_allocated : scanned_allocated_pages a' = scanned_allocated_pages a;
  wk_free : scanned_free_pages a' = scanned_free_pages a;
  wk_hash_nodes : scanned_hash_nodes a' = scanned_hash_nodes a;
  wk_hash_free : scanned_hash_free_nodes a' = scanned_hash_free_nodes a;
  wk_nodes : scanned_free_nodes a' = scanned_free_nodes a + N;
  wk_pages : scanned_free_list_pages a' = Z.min U64_MAX (scanned_free_list_pages a + P);
  wk_counts o : scanned_free_count_per_order a' !! o = Nat.add (C o) <$> scanned_free_count_per_order a !! o }.

Lemma walked_refl a : 0 <= scanned_free_list_pages a <= U64_MAX -> walked a 0 0 (fun _ => 0%nat) a.
Proof.
  intros Ha. split; try done; [lia|lia|]. intros o. by destruct (scanned_free_count_per_order a !! o).
Qed.

Lemma walked_trans a a1 a2 N1 P1 C1 N2 P2 C2 :
  0 <= P1 -> 0 <= P2 -> walked a N1 P1 C1 a1 -> walked a1 N2 P2 C2 a2 ->
  walked a (N1 + N2) (P1 + P2) (fun o => (C1 o + C2 o)%nat) a2.
Proof.
  intros Hp1 Hp2 [] []. split; try congruence; [lia|lia|]. intros o.
  rewrite wk_counts1, wk_counts0. destruct (scanned_free_count_per_order a !! o); simpl; [f_equal; lia|done].
Qed.

Lemma walked_ext a N P C N' P' C' a' :
  walked a N P C a' -> N = N' -> P = P' -> (forall o, C o = C' o) -> walked a N' P' C' a'.
Proof. intros [] <- <- HC. split; try done. intros o. by rewrite <- HC. Qed.

Lemma walked_bounds a N P C a' :
  walked a N P C a' -> 0 <= P -> 0 <= scanned_free_list_pages a -> 0 <= scanned_free_list_pages a' <= U64_MAX.
Proof. intros [] HP Ha. rewrite wk_pages0. unfold U64_MAX. lia. Qed.

(** One block of a list. *)
Lemma listed_walked o a :
  walked a 1 (pow2 o) (fun o' => if decide (o' = o) then 1%nat else 0%nat) (saw_listed_node o a).
Proof.
  split; try done.
  - simpl. unfold saturating_add. by rewrite block_pages_pow2.
  - intros o'. simpl. destruct (decide (o' = o)) as [->|].
    + by rewrite list_lookup_alter_eq.
    + rewrite list_lookup_alter_ne by done. by destruct (scanned_free_count_per_order a !! o').
Qed.

Lemma audit_list_spec s L fl o R room p prev a :
  shape s L -> dll (nx (nodes s)) (pv (nodes s)) prev p R ->
  (forall i, i ∈ R -> exists b, blocks s !! i = Some b /\ n_state b = NODE_FREE /\ (n_fl_type b, n_order b) = (fl, o)) ->
  (length R <= room)%nat -> 0 <= scanned_free_list_pages a <= U64_MAX ->
  walked a (Z.of_nat (length R)) (Z.of_nat (length R) * pow2 o)
    (fun o' => if decide (o' = o) then length R else 0%nat) (audit_list room s fl o p prev a).
Proof.
  intros Hsh. revert room p prev a. induction R as [|i R IH]; intros room p prev a Hl Hel Hlen Ha.
  { simpl in Hl. subst p. assert (audit_list room s fl o 0 prev a = a) as -> by (by destruct room).
    eapply walked_ext; [by apply walked_refl|done|done|]. intros o'. by destruct (decide (o' = o)). }
  destruct Hl as (-> & Hpv & Hl). destruct room as [|room]; [simpl in Hlen; lia|]. cbn [audit_list Nat.eqb].
  destruct (Hel i ltac:(by left)) as (b & Hb & Hst & [= Hbfl Hbo]).
  apply lookup_blocks in Hb as Hn. destruct Hn as (n & Hn & Hbn). pose proof (lookup_lt_Some _ _ _ Hn) as Hlt.
  destruct (block_fits _ _ Hsh _ _ Hb) as (seg & Hf & Hseg & Hstart & _); [apply active_state; congruence|].
  unfold node_addr_is_allocated_slot. rewrite (proj2 (Nat.leb_le _ _)) by lia. cbn [negb andb Nat.eqb].
  replace (S i - 1)%nat with i by lia. rewrite Hn.
  assert (n_state n = NODE_FREE /\ n_order n = o /\ n_fl_type n = fl /\ n_start n = n_start b) as (-> & -> & -> & ->)
    by (by subst b).
  unfold pv in Hpv. unfold nx in Hl at 2. rewrite Hn in Hpv, Hl. simpl in Hpv, Hl. rewrite Hpv, !Nat.eqb_refl.
  rewrite Hstart, (node_addr_for_hit _ (sh_segs _ _ Hsh) _ _ _ (proj1 Hf)) by (by eapply fits_in).
  rewrite !bool_decide_true by done. cbn [negb orb insert_if]. pose proof (pow2_pos o).
  pose proof (listed_walked o a) as Hw. eapply walked_ext.
  - eapply walked_trans; [| |exact Hw|apply IH; [exact Hl| | |]]; [lia|lia|intros; apply Hel; by right|simpl in Hlen; lia|].
    eapply walked_bounds; [exact Hw|lia|lia].
  - simpl. lia.
  - simpl. lia.
  - intros o'. simpl. destruct (decide (o' = o)); lia.
Qed.

(** All lists. *)
Definition listed_pages (L : nat * nat -> list nat) (k : nat * nat) : Z := Z.of_nat (length (L k)) * pow2 k.2.
Definition count_at (L : nat * nat -> list nat) (ks : list (nat * nat)) (o : nat) : nat :=
  sum_list_with (fun k => if decide (k.2 = o) then length (L k) else 0%nat) ks.

Lemma list_keys_spec k : k ∈ list_keys <-> (k.1 < VM_NFREELIST)%nat /\ (k.2 <= MAX_TRACKED_ORDER)%nat.
Proof.
  destruct k as [fl o]. unfold list_keys. rewrite list_elem_of_bind. split.
  - intros (fl' & (o' & [= -> ->] & Ho)%list_elem_of_fmap & Hfl). apply elem_of_seq in Ho, Hfl. simpl. lia.
  - intros [Hfl Ho]. cbn [fst snd] in *. exists fl. split; [apply list_elem_of_fmap; exists o; split; [done|]|];
      apply elem_of_seq; lia.
Qed.

Lemma list_keys_nodup : NoDup list_keys.
Proof.
  apply NoDup_bind; [|intros fl _; apply NoDup_fmap_2; [congruence|apply NoDup_seq]|apply NoDup_seq].
  intros fl1 fl2 k _ _ (o1 & -> & _)%list_elem_of_fmap (o2 & [= ->] & _)%list_elem_of_fmap. done.
Qed.

Lemma count_seq (g : nat -> nat) o n start :
  sum_list_with (fun x => if decide (x = o) then g x else 0%nat) (seq start n) =
  if decide (start <= o < start + n)%nat then g o else 0%nat.
Proof.
  revert start. induction n as [|n IH]; intros start; simpl.
  { case_decide; [lia|done]. }
  rewrite IH. repeat case_decide; subst; lia.
Qed.

Lemma sum_list_with_fmap {A B} (f : A -> B) (g : B -> nat) l :
  sum_list_with g (f <$> l) = sum_list_with (fun x => g (f x)) l.
Proof. induction l as [|x l IH]; [done|]. simpl. by rewrite <- IH. Qed.

Lemma count_keys L o :
  (o <= MAX_TRACKED_ORDER)%nat ->
  count_at L list_keys o = (length (L (VM_FREELIST_DEFAULT, o)) + length (L (VM_FREELIST_DMA, o)))%nat.
Proof.
  intros Ho. unfold count_at.
  change list_keys with ((pair VM_FREELIST_DEFAULT <$> seq 0 (S MAX_TRACKED_ORDER)) ++
    (pair VM_FREELIST_DMA <$> seq 0 (S MAX_TRACKED_ORDER)) ++ []).
  rewrite !sum_list_with_app, !sum_list_with_fmap. cbn [snd].
  rewrite (count_seq (fun x => length (L (VM_FREELIST_DEFAULT, x)))), (count_seq (fun x => length (L (VM_FREELIST_DMA, x)))).
  rewrite !decide_True by lia. simpl. lia.
Qed.

Lemma listed_pages_nonneg L ks : 0 <= sumZ (listed_pages L) ks.
Proof. apply sumZ_nonneg. intros k _. unfold listed_pages. pose proof (pow2_pos k.2). lia. Qed.

Lemma audit_lists_spec s L a :
  shape s L -> 0 <= scanned_free_list_pages a <= U64_MAX ->
  walked a (sumZ (fun k => Z.of_nat (length (L k))) list_keys) (sumZ (listed_pages L) list_keys)
    (count_at L list_keys) (audit_free_lists s a).
Proof.
  intros Hsh Ha. unfold audit_free_lists. pose proof (fun k => proj1 (list_keys_spec k)) as Hks.
  revert a Ha Hks. generalize list_keys as ks. induction ks as [|k ks IH]; intros a Ha Hks.
  { eapply walked_ext; [by apply walked_refl|done|done|done]. }
  pose proof (sh_linked _ _ Hsh) as Hlk. destruct (Hks k ltac:(by left)) as [H1 H2].
  destruct (lk_list _ _ Hlk k.1 k.2 H1 H2) as (h & Hh & Hl). cbn [fold_left]. rewrite Hh. cbn [default].
  destruct k as [fl o]. simpl in *. pose proof (pow2_pos o).
  assert (walked a (Z.of_nat (length (L (fl, o)))) (listed_pages L (fl, o))
    (fun o' => if decide (o' = o) then length (L (fl, o)) else 0%nat) (audit_list (node_used s) s fl o h 0 a)) as Hw.
  { eapply audit_list_spec; [exact Hsh|exact Hl| |by eapply length_list_le|done].
    intros i Hi. by apply (lk_elem _ _ Hlk). }
  assert (0 <= listed_pages L (fl, o)) as Hp by (unfold listed_pages; simpl; lia).
  eapply walked_ext.
  - eapply walked_trans; [| |exact Hw|apply IH]; [done|apply listed_pages_nonneg| |intros; apply Hks; by right].
    eapply walked_bounds; [exact Hw|done|lia].
  - done.
  - done.
  - intros o'. unfold count_at. simpl. f_equal. destruct (decide (o' = o)), (decide (o = o')); congruence.
Qed.

(** ** The lists hold all free blocks *)

Lemma sumZ_cons {A} (f : A -> Z) x l : sumZ f (x :: l) = f x + sumZ f l.
Proof. done. Qed.

Lemma sumZ_ext {A} (f g : A -> Z) l : (forall x, x ∈ l -> f x = g x) -> sumZ f l = sumZ g l.
Proof.
  induction l as [|x l IH]; intros H; [done|]. rewrite !sumZ_cons, (H x) by (by left).
  rewrite IH; [done|]. intros; apply H; by right.
Qed.

Lemma sumZ_perm {A} (f : A -> Z) l l' : l ≡ₚ l' -> sumZ f l = sumZ f l'.
Proof. induction 1; rewrite ?sumZ_cons; lia. Qed.

Lemma sumZ_bind {A B} (g : B -> Z) (f : A -> list B) l : sumZ g (l ≫= f) = sumZ (fun x => sumZ g (f x)) l.
Proof. induction l as [|x l IH]; [done|]. by rewrite bind_cons, sumZ_app, sumZ_cons, IH. Qed.

Lemma sumZ_const {A} (f : A -> Z) c l : (forall x, x ∈ l -> f x = c) -> sumZ f l = Z.of_nat (length l) * c.
Proof.
  intros H. rewrite (sumZ_ext f (fun _ => c)) by done. clear H.
  induction l as [|x l IH]; [done|]. rewrite sumZ_cons, IH. simpl. lia.
Qed.

Lemma sumZ_index {A} (f : A -> Z) l : sumZ (fun i => from_option f 0 (l !! i)) (seq 0 (length l)) = sumZ f l.
Proof.
  induction l as [|x l IH] using rev_ind; [done|].
  rewrite length_app, seq_app, !sumZ_app, <- IH. cbn [length seq]. rewrite !sumZ_cons, lookup_app_r by lia.
  rewrite Nat.sub_diag. cbn [lookup list_lookup from_option]. f_equal. apply sumZ_ext. intros i Hi%elem_of_seq. by rewrite lookup_app_l by lia.
Qed.

Lemma sumZ_filter {A} (P : A -> Prop) `{!forall x, Decision (P x)} (f : A -> Z) l :
  sumZ f (filter P l) = sumZ (fun x => if decide (P x) then f x else 0) l.
Proof.
  induction l as [|x l IH]; [done|]. rewrite filter_cons, sumZ_cons.
  destruct (decide (P x)); rewrite ?sumZ_cons, IH; lia.
Qed.

(** Summing over the lists is summing over the free blocks. *)
Lemma listed_sum s L (f : BlockNode -> Z) :
  linked s L ->
  sumZ (fun k => sumZ (fun i => from_option f 0 (blocks s !! i)) (L k)) list_keys =
  sumZ (fun b => if decide (n_state b = NODE_FREE) then f b else 0) (blocks s).
Proof.
  intros Hlk. set (at_ i := from_option f 0 (blocks s !! i)).
  set (free i := n_state <$> blocks s !! i = Some NODE_FREE).
  rewrite <- (sumZ_bind at_ L list_keys).
  rewrite (sumZ_perm at_ _ (filter free (seq 0 (length (blocks s))))).
  - rewrite sumZ_filter, <- (sumZ_index _ (blocks s)). apply sumZ_ext. intros i Hi%elem_of_seq.
    unfold at_, free. destruct (blocks s !! i) as [b|]; simpl; repeat case_decide; congruence.
  - apply NoDup_Permutation.
    + apply NoDup_bind; [|intros; apply (lk_nodup _ _ Hlk)|apply list_keys_nodup].
      intros k1 k2 i _ _ (b1 & Hb1 & _ & <-)%(lk_elem _ _ Hlk) (b2 & Hb2 & _ & <-)%(lk_elem _ _ Hlk). congruence.
    + apply NoDup_filter, NoDup_seq.
    + intros i. rewrite list_elem_of_bind, list_elem_of_filter, elem_of_seq. unfold free. split.
      * intros (k & (b & Hb & Hst & _)%(lk_elem _ _ Hlk) & _). rewrite Hb. simpl. rewrite Hst.
        apply lookup_lt_Some in Hb. split; [done|lia].
      * intros [Hf _]. destruct (blocks s !! i) as [b|] eqn:Hb; simpl in Hf; [|done]. simplify_eq.
        exists (n_fl_type b, n_order b). split; [apply (lk_elem _ _ Hlk); by exists b|].
        apply list_keys_spec. by apply (lk_range _ _ Hlk i b).
Qed.

Lemma listed_totals s L :
  linked s L ->
  sumZ (fun k => Z.of_nat (length (L k))) list_keys = sumZ is_free (blocks s) /\
  sumZ (listed_pages L) list_keys = sumZ free_size (blocks s).
Proof.
  intros Hlk. split.
  - etrans; [|etrans; [exact (listed_sum s L (fun _ => 1) Hlk)|]].
    + apply sumZ_ext. intros k _. rewrite (sumZ_const _ 1); [lia|].
      intros i (b & Hb & _)%(lk_elem _ _ Hlk). by rewrite Hb.
    + apply sumZ_ext. intros b _. unfold is_free. by repeat case_decide.
  - etrans; [|etrans; [exact (listed_sum s L (fun b => pow2 (n_order b)) Hlk)|]].
    + apply sumZ_ext. intros k _. rewrite (sumZ_const _ (pow2 k.2)); [done|].
      intros i (b & Hb & _ & <-)%(lk_elem _ _ Hlk). by rewrite Hb.
    + apply sumZ_ext. intros b _. unfold free_size. case_decide; [by rewrite bool_decide_true|by rewrite bool_decide_false].
Qed.

(** ** The audit *)

Lemma insert_if_false flag a : insert_if false flag a = a.
Proof. done. Qed.

(** The recount of the segments and the descriptors. *)
Lemma audit_index_recount s L :
  binv s -> shape s L ->
  audit_pfn_index s (audit_segments s audit_default) =
    mkAudit 0 (Z.of_nat (length (segments s))) (node_capacity s) (sumZ held_size (blocks s))
      (sumZ free_size (blocks s)) 0 (Z.of_nat (node_used s)) (sumZ is_free (blocks s)) 0 0
      (replicate (S MAX_TRACKED_ORDER) 0%nat).
Proof.
  intros Hinv Hsh. pose proof (pages_fit _ _ Hsh) as Hfit. pose proof (sg_cap_max _ _ (sh_segs _ _ Hsh)) as Hcap.
  pose proof (sumZ_nonneg free_size (blocks s) ltac:(intros; apply free_size_nonneg)) as Hf0.
  pose proof (sumZ_nonneg held_size (blocks s) ltac:(intros; apply held_size_nonneg)) as Hh0.
  rewrite audit_segments_spec;
    [|intros seg (k & Hk)%list_elem_of_lookup; apply (sg_ok _ _ (sh_segs _ _ Hsh) _ _ Hk)|simpl; unfold U64_MAX; lia].
  rewrite <- (sg_cap _ _ (sh_segs _ _ Hsh)).
  rewrite (audit_pfn_spec s L); [|done|intros j b Hb; apply (bi_held_refs _ Hinv j b Hb)|
    unfold in_bounds; simpl; unfold U64_MAX; lia].
  pose proof (lk_used _ _ (sh_linked _ _ Hsh)) as Hu.
  change (fun b => if active b then 1 else 0) with active_size in Hu.
  assert (0 <= node_capacity s) by (unfold node_capacity; lia).
  unfold counted, audit_default. cbn [flags scanned_segments scanned_total_pages scanned_allocated_pages
    scanned_free_pages scanned_reserved_pages scanned_hash_nodes scanned_hash_free_nodes scanned_free_nodes
    scanned_free_list_pages scanned_free_count_per_order]. rewrite Hu. f_equal; lia.
Qed.

Lemma sumZ_le_length {A} (f : A -> Z) l : (forall x, x ∈ l -> f x <= 1) -> sumZ f l <= Z.of_nat (length l).
Proof.
  induction l as [|x l IH]; intros H; [done|]. rewrite sumZ_cons. simpl.
  pose proof (H x ltac:(by left)). specialize (IH ltac:(intros; apply H; by right)). lia.
Qed.

Lemma accounting_clean s a :
  scanned_segments a = Z.of_nat (length (segments s)) -> scanned_total_pages a = st_total_pages (stats s) ->
  scanned_allocated_pages a = allocated_pages (stats s) -> scanned_free_pages a = free_pages_count (stats s) ->
  saturating_sub (scanned_total_pages a) (saturating_add (scanned_allocated_pages a) (scanned_free_pages a)) =
    reserved_pages (stats s) ->
  scanned_hash_nodes a = Z.of_nat (node_used s) -> Z.of_nat (node_used s) <= node_capacity s ->
  scanned_hash_free_nodes a = scanned_free_nodes a -> scanned_free_pages a = scanned_free_list_pages a ->
  scanned_free_count_per_order a = free_count_per_order (stats s) ->
  flags (audit_accounting s a) = flags a.
Proof.
  intros H1 H2 H3 H4 H5 H6 H7 H8 H9 H10. unfold audit_accounting. cbv zeta. unfold count_reserved.
  cbn [scanned_segments scanned_total_pages]. rewrite H1, H2, !Z.eqb_refl. cbn [negb orb insert_if
    scanned_allocated_pages scanned_free_pages scanned_reserved_pages]. rewrite <- H2, H5, H3, H4, !Z.eqb_refl.
  cbn [negb orb insert_if scanned_hash_nodes]. rewrite H6, Z.eqb_refl, (proj2 (Z.ltb_ge _ _) H7).
  cbn [negb orb insert_if scanned_hash_free_nodes scanned_free_nodes scanned_free_pages scanned_free_list_pages
    scanned_free_count_per_order]. rewrite H8, <- H9, H4, !Z.eqb_refl, bool_decide_true by done. done.
Qed.

(** The recount of an initialised allocator agrees with its statistics, and no
    check of the audit fails. *)
Lemma audit_clean s : binv s -> initialized s = true -> is_consistent (audit s) = true.
Proof.
  intros Hinv Hi. destruct (bi_shape _ Hinv) as [L Hsh]. pose proof (sh_linked _ _ Hsh) as Hlk.
  unfold is_consistent, audit. rewrite Hi, (audit_index_recount s L) by done. cbn [negb].
  pose proof (pages_fit _ _ Hsh) as Hfit. pose proof (sg_cap_max _ _ (sh_segs _ _ Hsh)) as Hcap.
  pose proof (sumZ_nonneg free_size (blocks s) ltac:(intros; apply free_size_nonneg)) as Hf0.
  pose proof (sumZ_nonneg held_size (blocks s) ltac:(intros; apply held_size_nonneg)) as Hh0.
  set (a := mkAudit 0 _ _ _ _ _ _ _ _ _ _).
  pose proof (audit_lists_spec s L a Hsh ltac:(simpl; unfold U64_MAX; lia)) as Hw.
  destruct (listed_totals s L Hlk) as [T1 T2]. rewrite T1, T2 in Hw.
  set (a' := audit_free_lists s a) in *. clearbody a'. destruct Hw as [W1 W2 W3 W4 W5 W6 W7 W8 W9 W10].
  subst a. cbn [flags scanned_segments scanned_total_pages scanned_allocated_pages
    scanned_free_pages scanned_reserved_pages scanned_hash_nodes scanned_hash_free_nodes scanned_free_nodes
    scanned_free_list_pages scanned_free_count_per_order] in *.
  destruct Hinv as [[_ A1 A2 A3 A4] _]. specialize (A4 Hi).
  assert (scanned_free_count_per_order a' = free_count_per_order (stats s)) as Hcounts.
  { apply list_eq. intros o. rewrite W10. destruct (decide (o <= MAX_TRACKED_ORDER)%nat) as [Ho|Ho].
    - rewrite (lk_count _ _ Hlk o Ho), lookup_replicate_2, count_keys by lia. simpl. f_equal. lia.
    - rewrite (lookup_ge_None_2 (replicate _ _)) by (rewrite length_replicate; lia).
      symmetry. apply lookup_ge_None_2. rewrite (lk_counts _ _ Hlk). lia. }
  assert (Z.of_nat (node_used s) <= node_capacity s) as Hused.
  { rewrite (lk_used _ _ Hlk), node_capacity_blocks. apply sumZ_le_length. intros b _. by destruct (active b). }
  rewrite accounting_clean; [by rewrite W1|..]; try lia; try congruence.
  unfold saturating_sub, saturating_add. lia.
Qed.
