(* ===== verification/BuddyOwners.v ===== *)
(** * The owners of slab pages

    The lock-free index of [libs/allocator/src/buddy.rs] from a page to the slab
    that owns it: one atomic slot per descriptor, published and cleared with
    compare-and-exchange.  What other processors do to the slots between two
    accesses is the argument [env]; they do not touch the slots of an owner that
    is not theirs. *)

From S2P Require Import Prelude Buddy BuddyLinks BuddyBlocks BuddyExact.

(** ** The operations *)

(** The slots, and how many accesses have been made: [env n] happens before the
    access [n]. *)
Abbreviation Owners := (list Z).
Definition Env : Type := nat -> Owners -> Owners.

(** The segments in turn; the first that contains the address decides. *)
Fixpoint slot_scan (segs : list BuddySegment) (capacity paddr : Z) : option Z :=
  match segs with
  | [] => None
  | seg :: segs =>
      if (paddr <? start (range seg)) || (seg_end (range seg) <=? paddr)
      then slot_scan segs capacity paddr
      else
        slot ← checked_add (node_base seg) ((paddr - start (range seg)) / PAGE_SIZE);
        if slot <? capacity then Some slot else None
  end.

Definition slot_for_addr (s : BuddyAllocator) (capacity paddr : Z) : option Z :=
  slot_scan (segments s) capacity paddr.

Definition range_slots (s : BuddyAllocator) (capacity paddr sz : Z) : option (nat * nat) :=
  if (sz =? 0) || negb (paddr mod PAGE_SIZE =? 0) || negb (sz mod PAGE_SIZE =? 0) then None else
  first ← slot_for_addr s capacity paddr;
  end_ ← checked_add first (sz / PAGE_SIZE);
  if capacity <? end_ then None else
  last ← checked_add paddr (sz - 1);
  last_slot ← slot_for_addr s capacity last;
  if negb (last_slot + 1 =? end_) then None
  else Some (Z.to_nat first, Z.to_nat (end_ - first)).

(** [AtomicUsize::compare_exchange] on a slot. *)
Definition compare_exchange (slot : nat) (expected new : Z) (o : Owners) : bool * Owners :=
  match o !! slot with
  | Some v => if v =? expected then (true, <[slot := new]> o) else (false, o)
  | None => (false, o)
  end.

(** Whether each of the [n] slots from [first] on satisfies [test]; the walk
    stops at the first that does not. *)
Fixpoint all_slots (env : Env) (t : nat) (first n : nat) (test : Z -> bool) (o : Owners)
    : bool * nat * Owners :=
  match n with
  | O => (true, t, o)
  | S n =>
      let o := env t o in
      if test (default 0 (o !! first)) then all_slots env (S t) (S first) n test o
      else (false, S t, o)
  end.

(** Exchange [expected] for [new] in each of the slots; the answer says whether
    all exchanges succeeded. *)
Fixpoint exchange_all (env : Env) (t : nat) (first n : nat) (expected new : Z) (o : Owners)
    : bool * nat * Owners :=
  match n with
  | O => (true, t, o)
  | S n =>
      let '(ok, o) := compare_exchange first expected new (env t o) in
      let '(rest, t, o) := exchange_all env (S t) (S first) n expected new o in
      (ok && rest, t, o)
  end.

(** The publishing loop: the slots written before a failure are written back. *)
Fixpoint publish_loop (env : Env) (t : nat) (first n : nat) (owner : Z)
    (rollback : nat -> option (nat * nat)) (published : nat) (o : Owners) : bool * Owners :=
  match n with
  | O => (true, o)
  | S n =>
      let '(ok, o) := compare_exchange first 0 owner (env t o) in
      if ok then publish_loop env (S t) (S first) n owner rollback (S published) o
      else
        match rollback published with
        | Some (back, k) => let '(_, _, o) := exchange_all env (S t) back k owner 0 o in (false, o)
        | None => (false, o)
        end
  end.

Definition publish_range (s : BuddyAllocator) (capacity : Z) (env : Env) (paddr sz owner : Z)
    (o : Owners) : bool * Owners :=
  match range_slots s capacity paddr sz with
  | None => (false, o)
  | Some (first, n) =>
      if owner =? 0 then (false, o) else
      let '(vacant, t, o) := all_slots env 0 first n (fun v => v =? 0) o in
      if negb vacant then (false, o) else
      publish_loop env t first n owner
        (fun published => range_slots s capacity paddr (Z.of_nat published * PAGE_SIZE)) 0 o
  end.

Definition clear_range (s : BuddyAllocator) (capacity : Z) (env : Env) (paddr sz owner : Z)
    (o : Owners) : bool * Owners :=
  match range_slots s capacity paddr sz with
  | None => (false, o)
  | Some (first, n) => let '(ok, _, o) := exchange_all env 0 first n owner 0 o in (ok, o)
  end.

Definition owns_range (s : BuddyAllocator) (capacity paddr sz owner : Z) (o : Owners) : bool :=
  match range_slots s capacity paddr sz with
  | None => false
  | Some (first, n) => (all_slots (fun _ o => o) 0 first n (fun v => v =? owner) o).1.1
  end.

Definition lookup_owner (s : BuddyAllocator) (capacity paddr : Z) (o : Owners) : option Z :=
  slot ← slot_for_addr s capacity paddr;
  let owner := default 0 (o !! Z.to_nat slot) in
  if owner =? 0 then None else Some owner.

(** ** The slots of a range *)

Section slots.
Context (s : BuddyAllocator) (cap : Z) (Hsegs : segs_ok (segments s) cap).

Lemma slot_for_addr_hit k seg x :
  segments s !! k = Some seg -> start (range seg) <= x < start (range seg) + size (range seg) ->
  slot_for_addr s cap x = Some (node_base seg + (x - start (range seg)) / PAGE_SIZE).
Proof.
  intros Hk Hx. pose proof (sg_ok _ _ Hsegs _ _ Hk) as Hseg. unfold slot_for_addr.
  assert (in_seg seg (node_base seg + (x - start (range seg)) / PAGE_SIZE)) as Hin.
  { unfold in_seg. assert (0 <= (x - start (range seg)) / PAGE_SIZE) by (apply Z.div_pos; [lia|done]).
    assert ((x - start (range seg)) / PAGE_SIZE < total_pages seg); [|lia].
    apply Z.div_lt_upper_bound; [done|]. rewrite (so_size _ Hseg) in Hx. lia. }
  pose proof (in_seg_cap _ _ Hsegs _ _ _ Hk Hin) as Hc. pose proof (sg_cap_max _ _ Hsegs).
  assert (forall l off, (forall j y, l !! j = Some y -> segments s !! (off + j)%nat = Some y) ->
    (off <= k < off + length l)%nat ->
    slot_scan l cap x = Some (node_base seg + (x - start (range seg)) / PAGE_SIZE)) as Hgen.
  2: { apply (Hgen (segments s) 0%nat); [done|]. apply lookup_lt_Some in Hk. lia. }
  intros l. induction l as [|y l IH]; intros off Hl Hoff; [simpl in Hoff; lia|]. cbn [slot_scan].
  assert (segments s !! off = Some y) as Hy by (rewrite <- (Nat.add_0_r off); by apply Hl).
  destruct (decide (off = k)) as [->|Hne].
  - assert (y = seg) as -> by congruence.
    rewrite (proj2 (Z.ltb_ge _ _)) by lia. rewrite seg_end_ok, (proj2 (Z.leb_gt _ _)) by (done || lia). simpl.
    unfold checked_add. rewrite (proj2 (Z.leb_le _ _)) by lia. simpl. by rewrite (proj2 (Z.ltb_lt _ _)) by lia.
  - pose proof (sg_disjoint _ _ Hsegs off k y seg Hy Hk Hne) as Hd.
    pose proof (so_start _ (sg_ok _ _ Hsegs _ _ Hy)).
    assert ((x <? start (range y)) || (seg_end (range y) <=? x) = true) as ->.
    { rewrite seg_end_ok by apply (sg_ok _ _ Hsegs _ _ Hy). apply orb_true_iff.
      destruct Hd; [right; apply Z.leb_le; lia|left; apply Z.ltb_lt; lia]. }
    apply (IH (S off)); [|simpl in Hoff; lia]. intros j z Hj. rewrite Nat.add_succ_comm. by apply Hl.
Qed.

Lemma range_slots_hit k seg a n :
  segments s !! k = Some seg -> node_base seg <= Z.of_nat a -> (0 < n)%nat ->
  Z.of_nat a + Z.of_nat n <= node_base seg + total_pages seg ->
  range_slots s cap (addr_of seg (Z.of_nat a)) (Z.of_nat n * PAGE_SIZE) = Some (a, n).
Proof.
  intros Hk Ha Hn He. pose proof (sg_ok _ _ Hsegs _ _ Hk) as Hseg. unfold range_slots.
  assert (in_seg seg (Z.of_nat a + Z.of_nat n - 1)) as Hlast by (unfold in_seg; lia).
  pose proof (in_seg_cap _ _ Hsegs _ _ _ Hk Hlast). pose proof (sg_cap_max _ _ Hsegs).
  pose proof (addr_of_range _ _ Hseg Hlast) as Hr. pose proof (so_end _ Hseg). pose proof (so_start _ Hseg).
  rewrite addr_of_pfn, Z.mod_mul, Z.mod_mul, Z.div_mul, <- addr_of_pfn by done.
  destruct (Z.eqb_spec (Z.of_nat n * PAGE_SIZE) 0); [unfold PAGE_SIZE in *; lia|]. cbn [negb orb Z.eqb].
  rewrite (slot_for_addr_hit k seg) by (done || unfold addr_of, PAGE_SIZE in *; lia). simpl. rewrite addr_page.
  replace (node_base seg + (Z.of_nat a - node_base seg)) with (Z.of_nat a) by lia.
  unfold checked_add. rewrite (proj2 (Z.leb_le (Z.of_nat a + Z.of_nat n) U64_MAX)) by lia. simpl.
  rewrite (proj2 (Z.ltb_ge _ _)) by lia.
  rewrite (proj2 (Z.leb_le _ U64_MAX)) by (unfold addr_of, PAGE_SIZE in *; lia). simpl.
  rewrite (slot_for_addr_hit k seg) by (done || unfold addr_of, PAGE_SIZE in *; lia). simpl.
  replace ((addr_of seg (Z.of_nat a) + (Z.of_nat n * PAGE_SIZE - 1) - start (range seg)) / PAGE_SIZE)
    with (Z.of_nat a - node_base seg + Z.of_nat n - 1).
  2: { apply (Z.div_unique_pos _ _ _ (PAGE_SIZE - 1)); [unfold PAGE_SIZE; lia|unfold addr_of, PAGE_SIZE; lia]. }
  destruct (Z.eqb_spec (node_base seg + (Z.of_nat a - node_base seg + Z.of_nat n - 1) + 1) (Z.of_nat a + Z.of_nat n)); [|lia].
  simpl. do 2 f_equal; lia.
Qed.
End slots.

(** ** The protocol *)

Section protocol.
Context (owner : Z) (Howner : owner <> 0) (env : Env).

Definition holds (o : Owners) (i : nat) : Prop := o !! i = Some owner.
Definition in_slots (first n i : nat) : Prop := (first <= i < first + n)%nat.

(** The others neither write nor erase this owner. *)
Context (Henv_length : forall t o, length (env t o) = length o)
  (Henv_holds : forall t o i, holds (env t o) i <-> holds o i).

Lemma erase_spec slot o :
  let '(ok, o') := compare_exchange slot owner 0 o in
  length o' = length o /\ (ok = true <-> holds o slot) /\ (forall i, holds o' i <-> holds o i /\ i <> slot).
Proof.
  unfold compare_exchange, holds. destruct (o !! slot) as [v|] eqn:Hv.
  - destruct (Z.eqb_spec v owner) as [->|Hne].
    + split_and!; [apply length_insert|done|]. intros i.
      rewrite list_lookup_insert_Some. split; [intros [(_ & ? & _)|[? ?]]; [congruence|by split]|].
      intros [? ?]. right. by split.
    + split_and!; [done|split; congruence|]. intros i. split; [|intros [? _]; assumption]. intros Hi. split; [done|]. intros ->. congruence.
  - split_and!; [done|split; congruence|]. intros i. split; [|intros [? _]; assumption]. intros Hi. split; [done|]. intros ->. congruence.
Qed.

Lemma write_spec slot o :
  (slot < length o)%nat ->
  let '(ok, o') := compare_exchange slot 0 owner o in
  length o' = length o /\ (ok = true -> ~ holds o slot /\ forall i, holds o' i <-> holds o i \/ i = slot) /\
  (ok = false -> o' = o).
Proof.
  intros Hlt. unfold compare_exchange, holds. destruct (o !! slot) as [v|] eqn:Hv; [|apply lookup_ge_None in Hv; lia].
  destruct (Z.eqb_spec v 0) as [->|Hne]; [|simpl; split; [done|]; split; [done|done]].
  split_and!; [apply length_insert| |done]. intros _. split; [congruence|]. intros i.
  rewrite list_lookup_insert_Some. split; [intros [(-> & _)|[_ ?]]; auto|]. intros [Hi| ->]; [|by left].
  destruct (decide (slot = i)) as [->|]; [congruence|by right].
Qed.

Lemma exchange_all_spec t first n o :
  let '(ok, _, o') := exchange_all env t first n owner 0 o in
  length o' = length o /\ (ok = true <-> forall i, in_slots first n i -> holds o i) /\
  (forall i, holds o' i <-> holds o i /\ ~ in_slots first n i).
Proof.
  revert t first o. induction n as [|n IH]; intros t first o; cbn [exchange_all].
  { unfold in_slots. split_and!; [done|split; [intros _ i Hi; lia|done]|]. intros i. split; [|intros [? _]; assumption].
    intros Hi. split; [done|lia]. }
  pose proof (erase_spec first (env t o)) as He.
  destruct (compare_exchange first owner 0 (env t o)) as [ok1 o1]. destruct He as (El & Eok & Eh).
  specialize (IH (S t) (S first) o1). destruct (exchange_all env (S t) (S first) n owner 0 o1) as [[ok2 t2] o2].
  destruct IH as (Il & Iok & Ih). rewrite Henv_holds in Eok.
  assert (forall i, in_slots first (S n) i <-> i = first \/ in_slots (S first) n i) as Hin by (unfold in_slots; lia).
  split_and!; [by rewrite Il, El, Henv_length| |].
  - rewrite andb_true_iff, Eok, Iok. setoid_rewrite Hin. setoid_rewrite Eh. setoid_rewrite Henv_holds. split.
    + intros [H1 H2] i [->|Hi]; [done|by apply H2].
    + intros H. split; [apply H; by left|]. intros i Hi. split; [apply H; by right|]. unfold in_slots in Hi. lia.
  - intros i. rewrite Ih, Eh, Henv_holds, Hin. tauto.
Qed.

Lemma all_slots_holds t first n test o :
  let '(_, _, o') := all_slots env t first n test o in
  length o' = length o /\ forall i, holds o' i <-> holds o i.
Proof.
  revert t first o. induction n as [|n IH]; intros t first o; cbn [all_slots]; [done|].
  destruct (test _); [|by split; [|intros i; apply Henv_holds]].
  specialize (IH (S t) (S first) (env t o)). destruct (all_slots env (S t) (S first) n test (env t o)) as [[r t'] o'].
  destruct IH as [Il Ih]. split; [by rewrite Il|]. intros i. by rewrite Ih, Henv_holds.
Qed.

(** A success holds all slots; a failure leaves none of those written. *)
Lemma publish_loop_spec rollback base t n k o :
  (forall p, (0 < p <= k + n)%nat -> rollback p = Some (base, p)) -> rollback 0%nat = None ->
  (base + k + n <= length o)%nat ->
  let '(r, o') := publish_loop env t (base + k) n owner rollback k o in
  length o' = length o /\
  (r = true -> forall i, holds o' i <-> holds o i \/ in_slots (base + k) n i) /\
  (r = false -> forall i, holds o' i <-> holds o i /\ ~ in_slots base k i).
Proof.
  intros Hroll Hroll0. revert t k o Hroll. induction n as [|n IH]; intros t k o Hroll Hlen; cbn [publish_loop].
  { split_and!; [done| |done]. intros _ i. unfold in_slots. split; [by left|]. intros [?|?]; [done|lia]. }
  pose proof (write_spec (base + k) (env t o) ltac:(rewrite Henv_length; lia)) as Hw.
  destruct (compare_exchange (base + k) 0 owner (env t o)) as [ok o1]. destruct Hw as (Wl & Wt & Wf).
  rewrite Henv_length in Wl. destruct ok.
  - destruct (Wt eq_refl) as [Wn Wh]. rewrite Henv_holds in Wn.
    specialize (IH (S t) (S k) o1 ltac:(intros p Hp; apply Hroll; lia) ltac:(lia)). rewrite Nat.add_succ_r in IH.
    destruct (publish_loop env (S t) (S (base + k)) n owner rollback (S k) o1) as [r o'].
    destruct IH as (Il & It & If). split_and!; [by rewrite Il| |].
    + intros Hr i. rewrite (It Hr), Wh, Henv_holds. unfold in_slots. split.
      * intros [[?|?]|?]; [by left|right; lia|right; lia].
      * intros [?|?]; [by left; left|]. destruct (decide (i = base + k)%nat); [left; by right|right; lia].
    + intros Hr i. rewrite (If Hr), Wh, Henv_holds. unfold in_slots. split.
      * intros [[?|?] ?]; [split; [done|lia]|lia].
      * intros [Hi ?]. split; [by left|]. intros ?. assert (i = base + k)%nat as -> by lia. done.
  - rewrite (Wf eq_refl). destruct (decide (k = 0)%nat) as [->|Hk].
    + rewrite Hroll0. split_and!; [by rewrite Henv_length|done|]. intros _ i. rewrite Henv_holds. unfold in_slots.
      split; [intros Hi; split; [done|lia]|intros [? _]; assumption].
    + rewrite Hroll by lia. pose proof (exchange_all_spec (S t) base k (env t o)) as He.
      destruct (exchange_all env (S t) base k owner 0 (env t o)) as [[x t'] o']. destruct He as (El & _ & Eh).
      split_and!; [by rewrite El, Henv_length|done|]. intros _ i. by rewrite Eh, Henv_holds.
Qed.

(** Nobody else touches the slots, and they are vacant: publishing succeeds. *)
Context (first n : nat) (Hquiet : forall t o i, in_slots first n i -> env t o !! i = o !! i).

Lemma all_slots_vacant t f m o :
  (first <= f)%nat -> (f + m <= first + n)%nat -> (forall i, in_slots f m i -> o !! i = Some 0) ->
  exists t' o', all_slots env t f m (fun v => v =? 0) o = (true, t', o') /\
    forall i, in_slots first n i -> o' !! i = o !! i.
Proof.
  revert t f o. induction m as [|m IH]; intros t f o Hf Hm Hv; cbn [all_slots]; [by exists t, o|].
  rewrite Hquiet, Hv by (unfold in_slots; lia). cbn [default Z.eqb from_option id].
  destruct (IH (S t) (S f) (env t o)) as (t' & o' & -> & Heq); [lia|lia| |].
  { intros i Hi. rewrite Hquiet by (unfold in_slots in *; lia). apply Hv. unfold in_slots in *. lia. }
  exists t', o'. split; [done|]. intros i Hi. by rewrite Heq, Hquiet.
Qed.

Lemma publish_loop_vacant rollback t f m p o :
  (first <= f)%nat -> (f + m <= first + n)%nat -> (forall i, in_slots f m i -> o !! i = Some 0) ->
  (publish_loop env t f m owner rollback p o).1 = true.
Proof.
  revert t f p o. induction m as [|m IH]; intros t f p o Hf Hm Hv; cbn [publish_loop]; [done|].
  unfold compare_exchange. rewrite Hquiet, Hv by (unfold in_slots; lia). cbn [Z.eqb].
  apply IH; [lia|lia|]. intros i Hi. rewrite list_lookup_insert_ne by (unfold in_slots in *; lia).
  rewrite Hquiet by (unfold in_slots in *; lia). apply Hv. unfold in_slots in *. lia.
Qed.
End protocol.

(** ** Ranges *)

Section ranges.
Context (s : BuddyAllocator) (cap : Z) (Hsegs : segs_ok (segments s) cap).
Context (owner : Z) (Howner : owner <> 0) (env : Env).
Context (Henv_length : forall t o, length (env t o) = length o)
  (Henv_holds : forall t o i, holds owner (env t o) i <-> holds owner o i).
Context (k a n : nat) (seg : BuddySegment) (Hk : segments s !! k = Some seg)
  (Ha : node_base seg <= Z.of_nat a) (Hn : (0 < n)%nat)
  (He : Z.of_nat a + Z.of_nat n <= node_base seg + total_pages seg).

(** Publishing a range of pages is all or nothing, whatever the others do. *)
Lemma publish_range_spec o :
  Z.of_nat (length o) = cap ->
  let '(r, o') := publish_range s cap env (addr_of seg (Z.of_nat a)) (Z.of_nat n * PAGE_SIZE) owner o in
  length o' = length o /\
  forall i, holds owner o' i <-> holds owner o i \/ (r = true /\ in_slots a n i).
Proof.
  intros Hlen. unfold publish_range. rewrite (range_slots_hit s cap Hsegs k seg) by done.
  rewrite (proj2 (Z.eqb_neq owner 0) Howner).
  pose proof (all_slots_holds owner env Henv_length Henv_holds 0 a n (fun v => v =? 0) o) as Hall.
  destruct (all_slots env 0 a n (fun v => v =? 0) o) as [[vacant t] o1]. destruct Hall as [Hl1 Hh1].
  destruct vacant; cbn [negb].
  2: { split; [done|]. intros i. rewrite Hh1. split; [by left|]. intros [?|[? _]]; done. }
  assert (in_seg seg (Z.of_nat a + Z.of_nat n - 1)) as Hlast by (unfold in_seg; lia).
  pose proof (in_seg_cap _ _ Hsegs _ _ _ Hk Hlast) as Hc.
  set (roll := fun p => range_slots s cap (addr_of seg (Z.of_nat a)) (Z.of_nat p * PAGE_SIZE)).
  pose proof (publish_loop_spec owner Howner env Henv_length Henv_holds roll a t n 0 o1) as Hp.
  rewrite Nat.add_0_r in Hp.
  destruct (publish_loop env t a n owner roll 0 o1) as [r o2].
  destruct Hp as (Pl & Pt & Pf); [|done|lia|].
  { intros p Hp. apply (range_slots_hit s cap Hsegs k seg); (done || lia). }
  split; [lia|]. intros i. destruct r.
  - rewrite (Pt eq_refl), Hh1. split; [intros [?|?]; [by left|by right]|]. intros [?|[_ ?]]; [by left|by right].
  - rewrite (Pf eq_refl), Hh1. unfold in_slots. split; [intros [? _]; by left|].
    intros [?|[? _]]; [|done]. split; [done|lia].
Qed.

Lemma publish_range_vacant o :
  (forall t o i, in_slots a n i -> env t o !! i = o !! i) -> (forall i, in_slots a n i -> o !! i = Some 0) ->
  (publish_range s cap env (addr_of seg (Z.of_nat a)) (Z.of_nat n * PAGE_SIZE) owner o).1 = true.
Proof.
  intros Hq Hv. unfold publish_range. rewrite (range_slots_hit s cap Hsegs k seg) by done.
  rewrite (proj2 (Z.eqb_neq owner 0) Howner).
  destruct (all_slots_vacant env a n Hq 0 a n o) as (t & o' & -> & Heq); [lia|lia|done|]. cbn [negb].
  apply (publish_loop_vacant owner env a n Hq); [lia|lia|]. intros i Hi. rewrite Heq by done. by apply Hv.
Qed.

(** Clearing a range leaves no slot of the owner behind, and says whether all
    of them were its. *)
Lemma clear_range_spec o :
  let '(r, o') := clear_range s cap env (addr_of seg (Z.of_nat a)) (Z.of_nat n * PAGE_SIZE) owner o in
  length o' = length o /\ (r = true <-> forall i, in_slots a n i -> holds owner o i) /\
  forall i, holds owner o' i <-> holds owner o i /\ ~ in_slots a n i.
Proof.
  unfold clear_range. rewrite (range_slots_hit s cap Hsegs k seg) by done.
  pose proof (exchange_all_spec owner Howner env Henv_length Henv_holds 0 a n o) as Hx.
  destruct (exchange_all env 0 a n owner 0 o) as [[r t] o']. done.
Qed.

(** An address of a published range is found to belong to its owner. *)
Lemma lookup_published o p x :
  (forall i, in_slots a n i -> holds owner o i) -> in_slots a n p -> 0 <= x < PAGE_SIZE ->
  lookup_owner s cap (addr_of seg (Z.of_nat p) + x) o = Some owner.
Proof.
  intros Hh Hp Hx. pose proof (sg_ok _ _ Hsegs _ _ Hk) as Hseg. pose proof Hp as [Hp1 Hp2].
  assert (in_seg seg (Z.of_nat p)) as Hin by (unfold in_seg; lia).
  pose proof (addr_of_range _ _ Hseg Hin). unfold lookup_owner.
  rewrite (slot_for_addr_hit s cap Hsegs k seg) by (done || lia). cbn [mbind option_bind]. cbv zeta.
  replace (node_base seg + (addr_of seg (Z.of_nat p) + x - start (range seg)) / PAGE_SIZE) with (Z.of_nat p).
  2: { assert ((addr_of seg (Z.of_nat p) + x - start (range seg)) / PAGE_SIZE = Z.of_nat p - node_base seg) as ->; [|lia].
    symmetry. apply (Z.div_unique_pos _ _ _ x); [lia|]. unfold addr_of. lia. }
  rewrite Nat2Z.id. specialize (Hh p Hp). unfold holds in Hh. rewrite !Hh. cbn [default].
  unfold id. by destruct (Z.eqb_spec owner 0).
Qed.

Lemma lookup_in_range o x :
  (forall i, in_slots a n i -> holds owner o i) ->
  addr_of seg (Z.of_nat a) <= x < addr_of seg (Z.of_nat a) + Z.of_nat n * PAGE_SIZE ->
  lookup_owner s cap x o = Some owner.
Proof.
  intros Hh Hx. set (d := (x - addr_of seg (Z.of_nat a)) / PAGE_SIZE).
  pose proof (Z.div_mod (x - addr_of seg (Z.of_nat a)) PAGE_SIZE ltac:(done)) as Hdm.
  pose proof (Z.mod_pos_bound (x - addr_of seg (Z.of_nat a)) PAGE_SIZE ltac:(done)) as Hm. fold d in Hdm.
  set (e := (x - addr_of seg (Z.of_nat a)) mod PAGE_SIZE) in *. clearbody d e.
  assert (0 <= d < Z.of_nat n) as Hd by (unfold PAGE_SIZE in *; lia).
  replace x with (addr_of seg (Z.of_nat (a + Z.to_nat d)) + e) by (unfold addr_of, PAGE_SIZE in *; lia).
  apply lookup_published; [done|unfold in_slots; lia|done].
Qed.
End ranges.
