(* ===== verification/BuddyOps.v ===== *)
(** * Sequences of operations

    Every operation of the allocator on an allocator that satisfies the
    invariant ends, keeps the invariant, and does to the pages one or two of five
    things: hand out a block of free pages, take one back, change the fields of
    one handed out, add reserved pages, or nothing. *)

From stdpp Require Import functions.
From S2P Require Import Prelude Buddy BuddyInit BuddyLinks BuddyBlocks BuddyShape.
From S2P Require Import BuddyProofs BuddySplit BuddyAlloc BuddyExact BuddyRequest BuddyRefs.
From S2P Require Import BuddySeed BuddyRelease BuddyAudit.

(** ** The operations *)

Inductive op : Type :=
| OpAlloc (order : nat)
| OpAllocZone (order fl : nat)
| OpAllocExact (addr : Z) (order : nat)
| OpAllocWith (rq : PhysicalAllocRequest)
| OpAllocCacheable
| OpFree (addr : Z) (order : nat)
| OpFreeAllocation (a : PhysicalAllocation)
| OpIncRef (addr : Z)
| OpDecRef (addr : Z)
| OpSetSlabZone (addr zone_id : Z)
| OpTryCache (a : PhysicalAllocation)
| OpTryActivate (addr : Z)
| OpReclaim
| OpInstallNuma (ranges : list NumaMemoryRange)
| OpRelease (first sz : Z).

Definition ignore {A} (m : M A) : M unit := m;; mret tt.

Definition run_op (c : op) : M unit :=
  match c with
  | OpAlloc order => ignore (alloc_pages order)
  | OpAllocZone order fl => ignore (alloc_pages_from_zone order fl)
  | OpAllocExact addr order => ignore (alloc_pages_exact addr order)
  | OpAllocWith rq => ignore (alloc_pages_with rq)
  | OpAllocCacheable => ignore alloc_cacheable_order0
  | OpFree addr order => ignore (free_pages addr order)
  | OpFreeAllocation a => ignore (free_allocation a)
  | OpIncRef addr => inc_ref addr
  | OpDecRef addr => ignore (dec_ref addr)
  | OpSetSlabZone addr z => set_slab_zone addr z
  | OpTryCache a => ignore (try_cache a)
  | OpTryActivate addr => ignore (try_activate addr)
  | OpReclaim => ignore reclaim_deferred
  | OpInstallNuma ranges => ignore (install_numa_ranges ranges)
  | OpRelease first sz => ignore (release_reserved_range first sz)
  end.

Fixpoint run_ops (l : list op) : M unit :=
  match l with
  | [] => mret tt
  | c :: l => run_op c;; run_ops l
  end.

(** The arguments are machine words. *)
Definition op_ok (c : op) : Prop :=
  match c with
  | OpRelease first sz => 0 <= first /\ 0 <= sz
  | _ => True
  end.

Definition is_release (c : op) : bool := match c with OpRelease _ _ => true | _ => false end.

(** ** What an operation does to the pages *)

(** [give] says whether pages may be added. *)
Inductive page_step (give : bool) (s s' : BuddyAllocator) : Prop :=
| step_none :
    (forall p, page_free (blocks s') p <-> page_free (blocks s) p) ->
    (forall j b, held (blocks s') j b <-> held (blocks s) j b) -> page_step give s s'
| step_alloc i o k seg : allocated s i o k seg s' -> page_step give s s'
| step_free i o b : held (blocks s) i b -> n_order b = o -> released s i o s' -> page_step give s s'
| step_touch i b b' :
    held (blocks s) i b -> n_start b' = n_start b -> n_order b' = n_order b ->
    (forall p, page_free (blocks s') p <-> page_free (blocks s) p) ->
    (forall j x, held (blocks s') j x <-> (held (blocks s) j x /\ j <> i) \/ (j = i /\ x = b')) ->
    page_step give s s'
| step_give a n :
    give = true -> clear_run (blocks s) a (a + n) ->
    (forall p, page_free (blocks s') p <-> page_free (blocks s) p \/ a <= p < a + n) ->
    (forall j b, held (blocks s') j b <-> held (blocks s) j b) -> page_step give s s'.

(** An operation ends well. *)
Record op_done (c : op) (s s' : BuddyAllocator) : Prop := {
  od_inv : binv s';
  od_initialized : initialized s' = true;
  od_segments : plain_segs (segments s') = plain_segs (segments s);
  od_steps : rtc (page_step (is_release c)) s s';
  od_tidy : is_release c = false ->
    tidy true (segments s) (blocks s) -> tidy true (segments s') (blocks s') }.

Lemma done_keeps c s s' :
  initialized s = true -> keeps s s' -> rtc (page_step (is_release c)) s s' -> op_done c s s'.
Proof.
  intros Hi [K1 K2 K3 K4] Hst. split; [done|congruence|by rewrite K2|done|]. intros _ Ht. rewrite K2. by apply K4.
Qed.

Lemma done_same c s : binv s -> initialized s = true -> op_done c s s.
Proof. intros. apply done_keeps; [done|by apply keeps_refl|apply rtc_refl]. Qed.

Lemma repacked_steps g s s' : repacked s s' -> rtc (page_step g) s s'.
Proof. intros []. apply rtc_once. by apply step_none. Qed.

Lemma retagged_step g s i b b' s' :
  held (blocks s) i b -> n_start b' = n_start b -> n_order b' = n_order b ->
  n_state b' = NODE_ALLOCATED \/ n_state b' = NODE_CACHED ->
  retagged s i b' s' -> page_step g s s'.
Proof.
  intros Hb H1 H2 Hst Hrg. apply (step_touch g s s' i b b'); try done; [apply Hrg|].
  intros j x. rewrite (rg_blocks _ _ _ _ Hrg).
  unfold held. rewrite list_lookup_insert_Some. destruct Hb as [Hb _]. apply lookup_lt_Some in Hb. split.
  - intros [[(-> & <- & _)|[? ?]] ?]; [by right|left]. by split_and!.
  - intros [[[? ?] ?]|[-> ->]]; (split; [|done]); [right|left]; by split_and!.
Qed.

Lemma on_block_steps g s a f s' :
  retag f -> (forall b, n_state (f b) = n_state b) -> on_block s a f s' -> rtc (page_step g) s s'.
Proof.
  intros [_ _ Hb] Hst [(i & b & Hi & Hal & _ & Hrg)|[-> _]]; [|apply rtc_refl].
  apply rtc_once. destruct (Hb b) as (E1 & E2 & _).
  apply (retagged_step g s i b (f b)); try done; [split; [done|by left]|]. rewrite Hst. by left.
Qed.

Lemma ignore_run {A} (m : M A) s r s' : m s = Done (r, s') -> ignore m s = Done (tt, s').
Proof. intros H. unfold ignore. by rewrite (bindM _ _ _ _ _ H). Qed.

Lemma outcome_done c s o zone numa r s' :
  initialized s = true -> alloc_outcome s o zone numa r s' -> op_done c s s'.
Proof.
  intros Hi [Hk Hr]. apply done_keeps; [done|done|]. destruct r as [a|]; [|apply repacked_steps, Hr].
  destruct Hr as (i & k & seg & _ & Hal & _). apply rtc_once. by eapply step_alloc.
Qed.

Lemma request_done c s rq o r s' :
  initialized s = true -> request_outcome s rq o r s' -> op_done c s s'.
Proof.
  intros Hi [Hk Hr]. apply done_keeps; [done|done|]. destruct r as [a|]; [|apply repacked_steps, Hr].
  destruct Hr as (i & k & seg & _ & Hal & _). apply rtc_once. by eapply step_alloc.
Qed.

(** ** Every operation ends well *)

Lemma free_done c s a o :
  binv s -> initialized s = true -> exists r s', free_pages a o s = Done (r, s') /\ op_done c s s'.
Proof.
  intros Hinv Hi. destruct (free_pages_spec s a o Hinv Hi) as (r & s' & Hrun & Hinv' & Hr).
  exists r, s'. split; [done|]. destruct r as [[]|e]; [|by destruct Hr as [-> _]; apply done_same].
  destruct Hr as (i & b & Hb & Hst & _ & Ho & Hrel & Ht). destruct Hrel as [R1 R2 R3 R4] eqn:Heq. clear Heq.
  split; [done|congruence|by rewrite R3| |intros _; rewrite R3; done].
  apply rtc_once. apply (step_free _ s s' i o b); [split; [done|by left]|done|by split].
Qed.

Lemma exact_done s a o :
  binv s -> initialized s = true ->
  exists r s', alloc_pages_exact a o s = Done (r, s') /\ op_done (OpAllocExact a o) s s'.
Proof.
  intros Hinv Hi. destruct (alloc_exact_spec s a o Hinv Hi) as (r & s' & Hrun & Hk & Hr).
  exists r, s'. split; [done|]. apply done_keeps; [done|done|]. destruct r as [x|e].
  - destruct Hr as (_ & t & k & seg & _ & Hal). apply rtc_once. by eapply step_alloc.
  - destruct e; try (destruct Hr as [-> _]; apply rtc_refl). by apply repacked_steps, Hr.
Qed.

Lemma cacheable_done s :
  binv s -> initialized s = true ->
  exists r s', alloc_cacheable_order0 s = Done (r, s') /\ op_done OpAllocCacheable s s'.
Proof.
  intros Hinv Hi. destruct (alloc_cacheable_spec s Hinv Hi) as (r & s' & Hrun & Hk & Hr). exists r, s'.
  split; [done|]. apply done_keeps; [done|done|]. destruct r as [pa|]; [|apply repacked_steps, Hr].
  destruct Hr as (i & k & seg & s1 & -> & Hal & Hrg). eapply rtc_l; [by eapply step_alloc|]. apply rtc_once.
  eapply retagged_step; [apply (al_held _ _ _ _ _ _ Hal); by right| | | |exact Hrg]; [done|done|by left].
Qed.

Lemma dec_ref_done s a :
  binv s -> initialized s = true -> exists r s', dec_ref a s = Done (r, s') /\ op_done (OpDecRef a) s s'.
Proof.
  intros Hinv Hi. destruct (dec_ref_spec s a Hinv Hi) as (r & s' & Hrun & Hk & Hr). exists r, s'. split; [done|].
  apply done_keeps; [done|done|]. destruct Hr as [(_ & i & b & Hb & Hst & _ & _ & Hrel)|(_ & Hon & _)].
  - apply rtc_once. apply (step_free _ s s' i (n_order b) b); [split; [done|by left]|done|done].
  - exact (on_block_steps _ _ _ _ _ (retag_ref_count (fun c => c - 1)) ltac:(done) Hon).
Qed.

Lemma cache_done s pa :
  binv s -> initialized s = true -> exists r s', try_cache pa s = Done (r, s') /\ op_done (OpTryCache pa) s s'.
Proof.
  intros Hinv Hi. destruct (decide (pa_order pa = 0%nat /\ pa_size pa = PAGE_SIZE /\ pa_page_size pa = PAGE_SIZE))
    as [(H1 & H2 & H3)|Hne].
  - destruct (try_cache_spec s pa Hinv H1 H2 H3) as (r & s' & Hrun & Hk & Hr). exists r, s'. split; [done|].
    apply done_keeps; [done|done|]. destruct r as [u|e].
    + destruct Hr as (i & b & Hb & Hst & _ & _ & _ & Hrg). apply rtc_once.
      eapply retagged_step; [split; [exact Hb|by left]| | | |exact Hrg]; [done|done|by right].
    + assert (s' = s) as -> by (destruct e; [done|by destruct Hr|done]). apply rtc_refl.
  - exists (Err (Invalid OrderMismatch)), s. split; [|by apply done_same]. unfold try_cache.
    destruct (Nat.eqb_spec (pa_order pa) 0), (Z.eqb_spec (pa_size pa) PAGE_SIZE), (Z.eqb_spec (pa_page_size pa) PAGE_SIZE);
      simpl; try done. by destruct Hne.
Qed.

Lemma activate_done s a :
  binv s -> initialized s = true -> exists r s', try_activate a s = Done (r, s') /\ op_done (OpTryActivate a) s s'.
Proof.
  intros Hinv Hi. destruct (try_activate_spec s a Hinv) as (r & s' & Hrun & Hk & Hr). exists r, s'. split; [done|].
  apply done_keeps; [done|done|]. destruct r as [u|e]; [|destruct Hr as [-> _]; apply rtc_refl].
  destruct Hr as (i & b & Hb & Hst & _ & Hrg). apply rtc_once.
  eapply retagged_step; [split; [exact Hb|by right]| | | |exact Hrg]; [done|done|by left].
Qed.

Lemma reclaim_done s :
  binv s -> initialized s = true -> exists r s', reclaim_deferred s = Done (r, s') /\ op_done OpReclaim s s'.
Proof.
  intros Hinv Hi. destruct (reclaimed_if_spec s true Hinv) as (again & s' & Hrun & Hk & Hrp & _).
  unfold reclaim_deferred, reclaimed_if in *. rewrite get_bind. unfold mbind, M_bind in *.
  destruct (reclaim_deferred_order0 s) as [[t s1]|]; [|done]. unfold mret, M_ret in Hrun. simplify_eq.
  eexists _, s'. split; [done|]. apply done_keeps; [done|done|by apply repacked_steps].
Qed.

Lemma numa_done s ranges :
  binv s -> initialized s = true ->
  exists r s', install_numa_ranges ranges s = Done (r, s') /\ op_done (OpInstallNuma ranges) s s'.
Proof.
  intros Hinv Hi. destruct (install_spec s ranges Hinv Hi) as (r & s' & Hrun & Hinv' & Hbl & Hsegs & Hi' & Ht & _).
  exists r, s'. split; [done|]. split; [done|done|done| |by intros _]. apply rtc_once, step_none; by rewrite Hbl.
Qed.

Lemma release_done s first sz :
  binv s -> initialized s = true -> 0 <= first -> 0 <= sz ->
  exists r s', release_reserved_range first sz s = Done (r, s') /\ op_done (OpRelease first sz) s s'.
Proof.
  intros Hinv Hi H1 H2. destruct (release_range_spec s first sz Hinv Hi H1 H2) as (r & s' & Hrun & Hinv' & Hs & Hi' & Hr).
  exists r, s'. split; [done|]. split; [done|done|by rewrite Hs| |done]. destruct r as [n|e]; [|subst s'; apply rtc_refl].
  destruct Hr as (_ & Hh & [[_ ->]|(k & seg & a & _ & _ & _ & _ & Hc & Hp)]); [apply rtc_refl|].
  apply rtc_once. by apply (step_give _ s s' a n).
Qed.

Lemma run_op_done c s :
  binv s -> initialized s = true -> op_ok c -> exists s', run_op c s = Done (tt, s') /\ op_done c s s'.
Proof.
  intros Hinv Hi Hok.
  assert (forall A (m : M A), (exists r s', m s = Done (r, s') /\ op_done c s s') ->
    exists s', ignore m s = Done (tt, s') /\ op_done c s s') as Hign.
  { intros A m (r & s' & Hrun & Hd). exists s'. split; [by eapply ignore_run|done]. }
  destruct c; cbn [run_op op_ok] in *; try (apply Hign; clear Hign).
  - destruct (alloc_any_zone_spec s order None Hinv Hi) as (r & s' & Hrun & Hout).
    exists r, s'. split; [done|by eapply outcome_done].
  - destruct (decide (fl < VM_NFREELIST)%nat) as [Hfl|Hfl].
    + destruct (alloc_from_zone_spec s order fl Hinv Hi Hfl) as (r & s' & Hrun & Hout).
      exists r, s'. split; [done|by eapply outcome_done].
    + exists None, s. split; [|by apply done_same]. apply (alloc_refused s order fl None). right. lia.
  - by apply exact_done.
  - destruct (alloc_with_spec s rq Hinv Hi) as (r & s' & Hrun & Hr). exists r, s'. split; [done|].
    destruct (required_order rq) as [o|e]; [|destruct Hr as [_ ->]; by apply done_same].
    destruct Hr as (r' & Hout & _). by eapply request_done.
  - by apply cacheable_done.
  - by apply free_done.
  - by apply free_done.
  - destruct (inc_ref_spec s addr Hinv) as (s' & Hrun & Hk & Hon). exists s'. split; [done|].
    apply done_keeps; [done|done|].
    exact (on_block_steps _ _ _ _ _ (retag_ref_count (fun c => Z.min U16_MAX (c + 1))) ltac:(done) Hon).
  - by apply dec_ref_done.
  - destruct (set_slab_zone_spec s addr zone_id Hinv) as (s' & Hrun & Hk & Hon). exists s'. split; [done|].
    apply done_keeps; [done|done|]. exact (on_block_steps _ _ _ _ _ (retag_slab_zone zone_id) ltac:(done) Hon).
  - by apply cache_done.
  - by apply activate_done.
  - by apply reclaim_done.
  - by apply numa_done.
  - destruct Hok. by apply release_done.
Qed.

(** ** Sequences *)

Lemma run_ops_done l s :
  binv s -> initialized s = true -> Forall op_ok l ->
  exists s', run_ops l s = Done (tt, s') /\ binv s' /\ initialized s' = true /\
    plain_segs (segments s') = plain_segs (segments s) /\
    (forall g, Forall (fun c => is_release c = g \/ is_release c = false) l -> rtc (page_step g) s s') /\
    (Forall (fun c => is_release c = false) l ->
     tidy true (segments s) (blocks s) -> tidy true (segments s') (blocks s')).
Proof.
  revert s. induction l as [|c l IH]; intros s Hinv Hi Hok; cbn [run_ops].
  { exists s. split_and!; try done. }
  apply Forall_cons in Hok as [Hc Hok]. destruct (run_op_done c s Hinv Hi Hc) as (s1 & Hrun & [D1 D2 D3 D4 D5]).
  rewrite (bindM _ _ _ _ _ Hrun). destruct (IH s1 D1 D2 Hok) as (s' & Hrun' & I1 & I2 & I3 & I4 & I5).
  exists s'. split_and!; try done; [congruence|..].
  - intros g [Hg Hl]%Forall_cons. etrans; [|by apply I4].
    eapply rtc_subrel; [|exact D4]. intros x y []; [by eapply step_none|by eapply step_alloc|by eapply step_free|by eapply step_touch|].
    eapply step_give; [|done..]. destruct Hg; congruence.
  - intros [Hg Hl]%Forall_cons Ht. apply I5; [done|]. by apply D5.
Qed.

(** ** Conservation *)

(** The page is free, or in a block that is handed out. *)
Definition managed (s : BuddyAllocator) (p : Z) : Prop :=
  page_free (blocks s) p \/ exists i b, held (blocks s) i b /\ covers i (n_order b) p.

Lemma managed_step s s' p : page_step false s s' -> managed s' p <-> managed s p.
Proof.
  unfold managed. intros [Hf Hh|i o k seg [_ Hwas _ Hf Hh]|i o b Hb Ho [Hf Hh _ _]|i b b' Hb _ Ho Hf Hh|a n Hg _ _ _].
  - rewrite Hf. by setoid_rewrite Hh.
  - rewrite Hf. setoid_rewrite Hh. split.
    + intros [[? _]|(j & x & [Hj|[-> ->]] & Hc)]; [by left|right; by exists j, x|left; by apply Hwas].
    + intros [Hp|(j & x & Hj & Hc)]; [|right; exists j, x; split; [by left|done]].
      destruct (decide (Z.of_nat i <= p < Z.of_nat i + pow2 o)) as [Hc|Hc]; [right|by left].
      eexists i, _. split; [by right|done].
  - rewrite Hf. setoid_rewrite Hh. split.
    + intros [[?|Hc]|(j & x & [Hj _] & Hc)]; [by left|right; exists i, b; by rewrite Ho|right; by exists j, x].
    + intros [?|(j & x & Hj & Hc)]; [by left; left|]. destruct (decide (j = i)) as [->|]; [left; right|right; by exists j, x].
      destruct Hj as [Hj _], Hb as [Hb _]. by simplify_eq.
  - rewrite Hf. setoid_rewrite Hh. split; (intros [?|(j & x & Hj & Hc)]; [by left|right]).
    + destruct Hj as [[Hj _]|[-> ->]]; [by exists j, x|exists i, b; by rewrite <- Ho].
    + destruct (decide (j = i)) as [->|]; [|exists j, x; split; [by left|done]].
      destruct Hj as [Hj _], Hb as [Hb _]. simplify_eq. exists i, b'. split; [by right|by rewrite Ho].
  - done.
Qed.

Lemma managed_steps s s' p : rtc (page_step false) s s' -> managed s' p <-> managed s p.
Proof. induction 1 as [|x y z Hxy _ IH]; [done|]. rewrite IH. by apply managed_step. Qed.

(** A page is in one block only. *)
Lemma one_block s i j bi bj p :
  binv s -> blocks s !! i = Some bi -> blocks s !! j = Some bj -> active bi = true -> active bj = true ->
  covers i (n_order bi) p -> covers j (n_order bj) p -> i = j.
Proof.
  intros Hinv Hi Hj Hai Haj Hci Hcj. destruct (bi_shape _ Hinv) as [L Hsh]. unfold covers in *.
  destruct (Nat.lt_trichotomy i j) as [Hlt|[->|Hlt]]; [|done|].
  - pose proof (gm_disjoint _ _ (sh_geom _ _ Hsh) i j bi bj Hi Hj Hai Haj Hlt). lia.
  - pose proof (gm_disjoint _ _ (sh_geom _ _ Hsh) j i bj bi Hj Hi Haj Hai Hlt). lia.
Qed.
