(* ===== verification/BuddyProps.v ===== *)
(** * The buddy allocator: what it promises

    The theorems on [libs/allocator/src/buddy.rs] and
    [libs/allocator/src/request.rs], for an allocator started by [init] on any
    memory map and then used by any sequence of its operations. *)

From stdpp Require Import functions.
From S2P Require Import Prelude Buddy BuddyInit BuddyAudit BuddyLinks BuddyBlocks BuddyShape.
From S2P Require Import BuddyProofs BuddySplit BuddyAlloc BuddyExact BuddyRequest BuddyRefs.
From S2P Require Import BuddySeed BuddyMeta BuddyStart BuddyRelease.
From S2P Require Import BuddyAuditProofs BuddyOwners BuddyOps.

(** ** Runs *)

(** The arguments of [init]: the memory map, the reserved intervals, the direct
    map, and the layouts of the tables. *)
Record boot : Type := mkBoot {
  bt_layouts : Layouts;
  bt_segs : list MemorySegment;
  bt_reserved : list (Z * Z);
  bt_virt : Z -> Z }.

Record boot_ok (B : boot) : Prop := {
  bo_layouts : Forall layout_ok [@layout_BuddySegment (bt_layouts B); @layout_MemorySegment (bt_layouts B);
    @layout_BlockNode (bt_layouts B); @layout_AtomicUsize (bt_layouts B)];
  bo_range : Forall range_ok (bt_segs B);
  bo_apart : all_apart (bt_segs B);
  bo_count : count_effective_segments (bt_segs B) < 4294967296;
  bo_virt p : 0 <= p -> (PAGE_SIZE | p) -> 0 <= bt_virt B p /\ (PAGE_SIZE | bt_virt B p) }.

Definition start_up (B : boot) : exec (result unit BuddyInitError * BuddyAllocator) :=
  @init (bt_layouts B) (bt_segs B) (bt_reserved B) (bt_virt B).

(** The allocator was started as [s0], and the operations [l] led to [s]. *)
Record reaches (B : boot) (s0 : BuddyAllocator) (l : list op) (s : BuddyAllocator) : Prop := {
  rc_boot : boot_ok B;
  rc_start : start_up B = Done (Ok tt, s0);
  rc_ops : Forall op_ok l;
  rc_run : run_ops l s0 = Done (tt, s) }.

Definition no_release (l : list op) : Prop := Forall (fun c => is_release c = false) l.

Lemma start_up_spec B :
  boot_ok B ->
  exists r s, start_up B = Done (r, s) /\
    @init_outcome (bt_layouts B) (bt_segs B) (bt_reserved B) (bt_virt B) r s.
Proof.
  intros [Hl H1 H2 H3 H4]. do 4 (apply Forall_cons in Hl as [? Hl]). by apply init_spec.
Qed.

Lemma started_at B s : boot_ok B -> start_up B = Done (Ok tt, s) ->
  exists m, started (bt_segs B) (bt_reserved B) m s.
Proof.
  intros Hok Hs. destruct (start_up_spec B Hok) as (r & s' & Hrun & Hr). rewrite Hs in Hrun. simplify_eq.
  destruct Hr as (m & Hst & _). by exists m.
Qed.

Lemma reaches_inv B s0 l s : reaches B s0 l s ->
  binv s /\ initialized s = true /\ plain_segs (segments s) = plain_segs (segments s0) /\
  (no_release l -> rtc (page_step false) s0 s /\ tidy true (segments s) (blocks s)).
Proof.
  intros [Hok Hs Hl Hrun]. destruct (started_at B s0 Hok Hs) as [m []].
  destruct (run_ops_done l s0) as (s' & Hrun' & R1 & R2 & R3 & R4 & R5); [done..|].
  rewrite Hrun in Hrun'. simplify_eq. split_and!; [done..|]. intros Hno. split.
  - apply R4. eapply Forall_impl; [exact Hno|]. auto.
  - by apply R5, tidy_lax.
Qed.

(** A map of two ranges, one below the limit of the DMA zone, neither aligned,
    with a reserved interval inside each. *)
Definition demo : boot :=
  mkBoot {| layout_BuddySegment := mkLayout 56 8; layout_MemorySegment := mkLayout 16 8;
            layout_BlockNode := mkLayout 64 8; layout_AtomicUsize := mkLayout 8 8 |}
    [mkRange 0x100800 0x20900; mkRange 0x80000000 0x10000]
    [(0x105000, 0x106001); (0x80003000, 0x80003010)]
    (fun p => p + 0x1000000000000).

Definition state_of {A} (x : exec (A * BuddyAllocator)) : BuddyAllocator :=
  match x with Done (_, s) => s | _ => new_allocator end.

Definition demo_start : BuddyAllocator := state_of (start_up demo).
Definition demo_ops : list op :=
  [OpAlloc 0; OpAlloc 2; OpAllocExact 0x80004000 1; OpAllocCacheable; OpIncRef 0x80008000;
   OpInstallNuma [mkNuma (mkRange 0x80000000 0x10000) 3]; OpFree 0x80004000 1].
Definition demo_state : BuddyAllocator := state_of (run_ops demo_ops demo_start).

Lemma demo_ok : boot_ok demo.
Proof.
  split.
  - repeat (apply Forall_cons_2; [split; [done|by exists 3%nat; split; [lia|]]|]). constructor.
  - repeat constructor; done.
  - repeat constructor; done.
  - vm_compute. done.
  - intros p Hp [q ->]. cbn [demo bt_virt]. split; [lia|]. exists (q + 0x1000000000). unfold PAGE_SIZE. lia.
Qed.

Lemma demo_reaches : reaches demo demo_start demo_ops demo_state.
Proof. split; [exact demo_ok|by vm_compute|repeat constructor|by vm_compute]. Qed.

Lemma demo_keeps : no_release demo_ops.
Proof. repeat constructor. Qed.

(** ** Starting, and using *)



(** C2. Any sequence of operations after the start ends without a panic, in
    a state that satisfies the invariant of the allocator and that its own audit
    finds consistent. *)
Theorem buddy_runs_safely B s0 l :
  boot_ok B -> start_up B = Done (Ok tt, s0) -> Forall op_ok l ->
  exists s, run_ops l s0 = Done (tt, s) /\ binv s /\ is_consistent (audit s) = true.
Proof.
  intros Hok Hs Hl. destruct (started_at B s0 Hok Hs) as [m []].
  destruct (run_ops_done l s0) as (s & Hrun & Hinv & Hi & _); [done..|].
  exists s. split_and!; [done|done|by apply audit_clean].
Qed.

Lemma buddy_runs_safely_witness :
  exists s, run_ops demo_ops demo_start = Done (tt, s) /\ binv s /\ is_consistent (audit s) = true.
Proof. exact (buddy_runs_safely demo demo_start demo_ops demo_ok (rc_start _ _ _ _ demo_reaches) (rc_ops _ _ _ _ demo_reaches)). Defined.

(** C3. Every operation, whatever its arguments, does to the pages what the
    abstract allocator allows, and nothing else: hand out one aligned block of
    free pages, take one back, change the descriptor of one handed out, or leave
    all as it is; only the release of a reserved range adds pages. *)
Theorem buddy_op_refines B s0 l s c :
  reaches B s0 l s -> op_ok c ->
  exists s', run_op c s = Done (tt, s') /\ rtc (page_step (is_release c)) s s'.
Proof.
  intros (Hinv & Hi & _)%reaches_inv Hc. destruct (run_op_done c s Hinv Hi Hc) as (s' & Hrun & Hd).
  exists s'. split; [done|apply Hd].
Qed.

Lemma buddy_op_refines_witness :
  exists s', run_op (OpAlloc 3) demo_state = Done (tt, s') /\ rtc (page_step false) demo_state s'.
Proof. exact (buddy_op_refines demo demo_start demo_ops demo_state (OpAlloc 3) demo_reaches I). Defined.

(** ** Conservation *)





(** ** Allocating *)

(** An aligned run of [2^o] free pages. *)
Definition free_run (s : BuddyAllocator) (o : nat) (p : Z) (k : nat) (seg : BuddySegment) : Prop :=
  fits (segments s) p o k seg /\ forall q, p <= q < p + pow2 o -> page_free (blocks s) q.

Lemma allocated_free_run s i o k seg s' : allocated s i o k seg s' -> free_run s o (Z.of_nat i) k seg.
Proof. intros [Hf Hw _ _ _]. split; [done|exact Hw]. Qed.




(** A request is served by a block of the least order that its size,
    its alignment and its page policy allow; it is refused when a field is
    invalid, when that order is beyond the largest tracked, or when the exact
    address asked for is not aligned to the block. *)
Theorem buddy_order_least rq :
  0 <= rq_size rq -> 0 <= rq_align rq ->
  match required_order rq with
  | Ok o => (o <= MAX_TRACKED_ORDER)%nat /\ serves rq o /\
      (forall m, serves rq m -> (o <= m)%nat) /\ request_misplaced rq o = false
  | Err InvalidSize => rq_size rq = 0
  | Err InvalidAlignment => is_power_of_two (rq_align rq) = false
  | Err SizeOverflow => False
  | Err UnsupportedOrder => forall m, serves rq m -> (MAX_TRACKED_ORDER < m)%nat
  | Err InvalidPlacement => exists o, serves rq o /\
      (forall m, serves rq m -> (o <= m)%nat) /\ request_misplaced rq o = true
  end.
Proof. apply required_order_spec. Qed.

Definition demo_request : PhysicalAllocRequest :=
  {| rq_size := 5000; rq_align := 16384; page_policy := PreferLarge; placement := NumaNode 3 |}.

Lemma buddy_order_least_witness :
  required_order demo_request = Ok 2%nat /\ forall m, serves demo_request m -> (2 <= m)%nat.
Proof.
  pose proof (buddy_order_least demo_request ltac:(simpl; lia) ltac:(simpl; lia)) as H.
  assert (required_order demo_request = Ok 2%nat) as E by (vm_compute; reflexivity).
  split; [exact E|]. rewrite E in H. destruct H as (_ & _ & H & _). exact H.
Defined.

(** A valid request gets a block exactly when there is an aligned run of
    free pages where it asks for it: anywhere, in the DMA zone, in the NUMA node,
    or at the exact address.  The descriptor it gets describes the block; an
    invalid request changes nothing, and one that cannot be served changes no
    page. *)
Theorem buddy_request_exact B s0 l s rq :
  reaches B s0 l s -> no_release l ->
  exists r s', alloc_pages_with rq s = Done (r, s') /\
    match required_order rq with
    | Err e => r = Err (buddy_alloc_error_from_request e) /\ s' = s
    | Ok o =>
        ((exists pa, r = Ok pa) <-> exists p k seg, free_run s o p k seg /\ placed_right rq p seg) /\
        match r with
        | Ok pa => exists i k seg, allocated s i o k seg s' /\ placed_right rq (Z.of_nat i) seg /\
            pa = {| paddr := addr_of seg (Z.of_nat i); pa_size := pow2 o * PAGE_SIZE; pa_order := o;
                    pa_page_size := pow2 o * PAGE_SIZE |}
        | Err _ => repacked s s'
        end
    end.
Proof.
  intros (Hinv & Hi & _ & Hn)%reaches_inv Hno. destruct (Hn Hno) as [_ Ht].
  destruct (alloc_with_spec s rq Hinv Hi) as (r & s' & Hrun & Hr). exists r, s'. split; [done|].
  destruct (required_order rq) as [o|e]; [|done]. destruct Hr as (r' & [_ Hout] & Hr). destruct r' as [a|].
  - destruct Hout as (i & k & seg & -> & Hal & Hpl). subst r. split; [split; [intros _|by eexists]|by exists i, k, seg].
    exists (Z.of_nat i), k, seg. split; [by eapply allocated_free_run|done].
  - destruct Hout as [Hrp Hnone], Hr as [e ->]. split; [split; [by intros []|]|done].
    intros (p & k & seg & [Hf Hall] & Hpl). by destruct (Hnone Ht p k seg Hf Hpl).
Qed.

Lemma buddy_request_exact_witness :
  exists r s', alloc_pages_with demo_request demo_state = Done (r, s') /\
    ((exists pa, r = Ok pa) <-> exists p k seg, free_run demo_state 2 p k seg /\ placed_right demo_request p seg).
Proof.
  destruct (buddy_request_exact demo demo_start demo_ops demo_state demo_request) as (r & s' & Hrun & Hr);
    [exact demo_reaches|exact demo_keeps|]. exists r, s'. split; [exact Hrun|].
  assert (required_order demo_request = Ok 2%nat) as E by (vm_compute; reflexivity).
  rewrite E in Hr. exact (proj1 Hr).
Defined.

(** [alloc_pages_exact] hands out the block at the address exactly when
    the address is that of an aligned run of free pages; otherwise it says which
    fails, that the block is in use or that there is no such block, and changes
    no page. *)
Theorem buddy_exact_placement B s0 l s a o :
  reaches B s0 l s -> no_release l ->
  exists r s', alloc_pages_exact a o s = Done (r, s') /\
    match r with
    | Ok a' => a' = a /\ exists t k seg, a = addr_of seg (Z.of_nat t) /\ free_run s o (Z.of_nat t) k seg /\
        allocated s t o k seg s'
    | Err BlockNotFree => repacked s s' /\ exists t k seg, a = addr_of seg (Z.of_nat t) /\
        fits (segments s) (Z.of_nat t) o k seg /\ ~ free_run s o (Z.of_nat t) k seg
    | Err _ => s' = s /\ forall t k seg, a = addr_of seg (Z.of_nat t) -> ~ fits (segments s) (Z.of_nat t) o k seg
    end.
Proof.
  intros (Hinv & Hi & _ & Hn)%reaches_inv Hno. destruct (Hn Hno) as [_ Ht].
  destruct (alloc_exact_spec s a o Hinv Hi) as (r & s' & Hrun & _ & Hr). exists r, s'. split; [done|].
  destruct r as [a'|[]]; try done.
  - destruct Hr as (-> & t & k & seg & Ha & Hal). split; [done|]. exists t, k, seg.
    split_and!; [done|by eapply allocated_free_run|done].
  - destruct Hr as (Hrp & t & k & seg & Ha & Hf & Hnot). split; [done|]. exists t, k, seg.
    split_and!; [done|done|]. intros [_ Hall]. by apply (Hnot Ht).
Qed.

Lemma buddy_exact_placement_witness :
  exists s', alloc_pages_exact 0x80004000 2 demo_state = Done (Ok 0x80004000, s') /\
    exists t k seg, 0x80004000 = addr_of seg (Z.of_nat t) /\ allocated demo_state t 2 k seg s'.
Proof.
  destruct (buddy_exact_placement demo demo_start demo_ops demo_state 0x80004000 2) as (r & s' & Hrun & Hr);
    [exact demo_reaches|exact demo_keeps|].
  assert (exists x, alloc_pages_exact 0x80004000 2 demo_state = Done (Ok 0x80004000, x)) as [x Hx]
    by (eexists; vm_compute; reflexivity).
  rewrite Hx in Hrun. injection Hrun as <- <-. exists x. split; [exact Hx|].
  destruct Hr as (_ & t & k & seg & H1 & _ & H2). exists t, k, seg. split; [exact H1|exact H2].
Defined.

(** ** Freeing *)

(** C5. [free_pages] takes back a block handed out at this address with this
    order, and nothing else: its pages become free, the other blocks stay.  Every
    other call is refused with the reason, and changes nothing. *)
Theorem buddy_free_exact B s0 l s a o :
  reaches B s0 l s ->
  exists r s', free_pages a o s = Done (r, s') /\
    match r with
    | Ok _ => exists i b, blocks s !! i = Some b /\ n_state b = NODE_ALLOCATED /\ n_start b = a /\
        n_order b = o /\ released s i o s'
    | Err e => s' = s /\ free_error s a o e
    end.
Proof.
  intros (Hinv & Hi & _)%reaches_inv. destruct (free_pages_spec s a o Hinv Hi) as (r & s' & Hrun & _ & Hr).
  exists r, s'. split; [done|]. destruct r as [[]|e]; [|done].
  destruct Hr as (i & b & ? & ? & ? & ? & ? & _). by exists i, b.
Qed.

Lemma buddy_free_exact_witness :
  free_pages 0x80008000 1 demo_state = Done (Err OrderMismatch, demo_state) /\
  free_error demo_state 0x80008000 1 OrderMismatch.
Proof.
  assert (exists x, free_pages 0x80008000 1 demo_state = Done (Err OrderMismatch, x)) as [x Hx]
    by (eexists; vm_compute; reflexivity).
  destruct (buddy_free_exact demo demo_start demo_ops demo_state 0x80008000 1 demo_reaches) as (r & s' & Hrun & Hr).
  rewrite Hx in Hrun. injection Hrun as <- <-. destruct Hr as [E H]. rewrite E in Hx. split; [exact Hx|exact H].
Defined.

Lemma held_start s i j b b' :
  binv s -> held (blocks s) i b -> held (blocks s) j b' -> n_start b = n_start b' -> i = j.
Proof.
  intros Hinv [Hb Hst] [Hb' Hst'] Heq. destruct (bi_shape _ Hinv) as [L Hsh].
  eapply (start_inj _ _ Hsh i j b b'); try done; apply active_state; intros E; destruct Hst, Hst'; congruence.
Qed.

Lemma held_order s i b : binv s -> held (blocks s) i b -> (n_order b <= MAX_TRACKED_ORDER)%nat.
Proof.
  intros Hinv [Hb Hst]. destruct (bi_shape _ Hinv) as [L Hsh].
  destruct (block_fits _ _ Hsh i b Hb) as (seg & Hf & _); [apply active_state; intros E; destruct Hst; congruence|].
  pose proof (so_max _ (sg_ok _ _ (sh_segs _ _ Hsh) _ _ (proj1 Hf))). unfold fits in Hf. lia.
Qed.

(** A block handed out can be freed once. *)
Lemma freed_once s i b :
  binv s -> initialized s = true -> blocks s !! i = Some b -> n_state b = NODE_ALLOCATED ->
  exists s', free_pages (n_start b) (n_order b) s = Done (Ok tt, s') /\ released s i (n_order b) s' /\
    free_pages (n_start b) (n_order b) s' = Done (Err NotAllocated, s').
Proof.
  intros Hinv Hi Hb Hst. assert (held (blocks s) i b) as Hh by (by split; [|left]).
  pose proof (held_order s i b Hinv Hh) as Ho.
  assert (forall j x, blocks s !! j = Some x -> n_state x = NODE_ALLOCATED -> n_start x = n_start b -> j = i) as Hsame.
  { intros j x Hx Hsx Heq. eapply (held_start s); [done|by split; [|left]|done|done]. }
  destruct (free_pages_spec s (n_start b) (n_order b) Hinv Hi) as ([[]|e] & s' & Hrun & Hinv' & Hr).
  2: { destruct Hr as [-> [[_ Hlt]|[_ [[_ Hno]|(_ & j & x & Hx & Hsx & Hax & Hne)]]]]; [lia|by destruct (Hno i b)|].
    rewrite (Hsame j x Hx Hsx Hax) in Hx. by simplify_eq. }
  destruct Hr as (j & x & Hx & Hsx & Hax & _ & Hrel & _). rewrite (Hsame j x Hx Hsx Hax) in Hrel.
  exists s'. split_and!; [done|done|].
  apply free_gone; [done|by rewrite (rl_initialized _ _ _ _ Hrel)|done|]. intros k y Hy Hsy Hay.
  destruct (proj1 (rl_held _ _ _ _ Hrel k y)) as [[Hk _] Hne]; [by split; [|left]|]. by eapply Hne, Hsame.
Qed.

(** C6. Freeing the block an allocation gave takes the allocation back: the
    same pages are free and the same blocks are handed out as before.  Freeing it
    a second time is refused, and changes nothing. *)
Theorem buddy_alloc_free_roundtrip B s0 l s o numa a s1 :
  reaches B s0 l s -> alloc_any_zone o numa s = Done (Some a, s1) ->
  exists s2, free_pages a o s1 = Done (Ok tt, s2) /\
    (forall p, page_free (blocks s2) p <-> page_free (blocks s) p) /\
    (forall j b, held (blocks s2) j b <-> held (blocks s) j b) /\
    free_pages a o s2 = Done (Err NotAllocated, s2).
Proof.
  intros (Hinv & Hi & _)%reaches_inv Hal.
  destruct (alloc_any_zone_spec s o numa Hinv Hi) as (r & s1' & Hrun & [Hk1 _ Hk3 _] & Hr). rewrite Hal in Hrun. simplify_eq.
  destruct Hr as (i & k & seg & -> & [Hf Hwas Hfresh Hpages Hheld] & _).
  set (b := block_node (addr_of seg (Z.of_nat i)) o k (fl_type seg) false) in *.
  destruct (proj2 (Hheld i b)) as [Hb _]; [by right|].
  destruct (freed_once s1' i b) as (s2 & Hfree & [Hp Hh _ _] & Htwice); [done|congruence|done|done|].
  exists s2. split_and!; [done| | |done].
  - intros p. rewrite Hp, Hpages. split; [|by destruct (decide (Z.of_nat i <= p < Z.of_nat i + pow2 o)); auto].
    intros [[? _]|?]; [done|by apply Hwas].
  - intros j x. rewrite Hh, Hheld. split; [by intros [[?|[-> _]] ?]|]. intros Hj. split; [by left|]. intros ->. by eapply Hfresh.
Qed.

Lemma buddy_alloc_free_roundtrip_witness : exists a s1 s2,
  alloc_any_zone 3 None demo_state = Done (Some a, s1) /\ free_pages a 3 s1 = Done (Ok tt, s2) /\
  free_pages a 3 s2 = Done (Err NotAllocated, s2).
Proof.
  assert (exists a s1, alloc_any_zone 3 None demo_state = Done (Some a, s1)) as (a & s1 & Hal)
    by (eexists _, _; vm_compute; reflexivity).
  destruct (buddy_alloc_free_roundtrip demo demo_start demo_ops demo_state 3 None a s1 demo_reaches Hal)
    as (s2 & H1 & _ & _ & H2). exists a, s1, s2. split; [exact Hal|split; [exact H1|exact H2]].
Defined.

(** ** References *)

Fixpoint inc_refs (n : nat) (a : Z) : M unit :=
  match n with
  | O => mret tt
  | S n => inc_ref a;; inc_refs n a
  end.

Fixpoint dec_refs (n : nat) (a : Z) : M (list bool) :=
  match n with
  | O => mret []
  | S n => freed ← dec_ref a; rest ← dec_refs n a; mret (freed :: rest)
  end.

(** The block [i] of [s], with [c] references, in [s']; all else is as in [s]. *)
Record referenced (s : BuddyAllocator) (i : nat) (b : BlockNode) (c : Z) (s' : BuddyAllocator) : Prop := {
  rf_inv : binv s';
  rf_initialized : initialized s' = true;
  rf_block : blocks s' !! i = Some (with_ref_count c b);
  rf_pages p : page_free (blocks s') p <-> page_free (blocks s) p;
  rf_others j x : j <> i -> held (blocks s') j x <-> held (blocks s) j x }.

Lemma referenced_retag s i b c s1 d s2 :
  referenced s i b c s1 -> keeps s1 s2 -> retagged s1 i (with_ref_count d (with_ref_count c b)) s2 ->
  referenced s i b d s2.
Proof.
  intros [H1 H2 H3 H4 H5] [K1 _ K3 _] [_ R1 _ _ R2 _]. apply lookup_lt_Some in H3. split; [done|congruence| | |].
  - rewrite R1, list_lookup_insert_eq by done. by destruct b.
  - intros p. by rewrite R2.
  - intros j x Hj. rewrite <- H5 by done. unfold held. by rewrite R1, list_lookup_insert_ne.
Qed.

Lemma referenced_alloc s i b c s1 :
  n_state b = NODE_ALLOCATED -> referenced s i b c s1 ->
  forall j x, blocks s1 !! j = Some x -> n_state x = NODE_ALLOCATED -> n_start x = n_start b ->
    j = i /\ x = with_ref_count c b.
Proof.
  intros Hst [H1 _ H3 _ _] j x Hx Hsx Hax.
  assert (j = i) as ->; [|by simplify_eq].
  eapply (held_start s1 j i x (with_ref_count c b)); [done|by split; [|left]|by split; [|left]|done].
Qed.

Lemma inc_refs_spec n s i b c s1 :
  n_state b = NODE_ALLOCATED -> referenced s i b c s1 -> c + Z.of_nat n <= U16_MAX ->
  exists s2, inc_refs n (n_start b) s1 = Done (tt, s2) /\ referenced s i b (c + Z.of_nat n) s2.
Proof.
  intros Hst. revert c s1. induction n as [|n IH]; intros c s1 Hr Hle; cbn [inc_refs].
  { exists s1. split; [done|]. by rewrite Z.add_0_r. }
  destruct (inc_ref_spec s1 (n_start b) (rf_inv _ _ _ _ _ Hr)) as (s2 & Hrun & Hk & Hon).
  rewrite (bindM _ _ _ _ _ Hrun). destruct Hon as [(j & x & Hx & Hsx & Hax & Hrg)|[_ Hno]].
  2: { by destruct (Hno i _ (rf_block _ _ _ _ _ Hr)). }
  destruct (referenced_alloc _ _ _ _ _ Hst Hr j x Hx Hsx Hax) as [-> ->].
  destruct (IH (c + 1) s2) as (s3 & Hrun3 & Hr3); [|lia|].
  { eapply referenced_retag; [done|done|]. change (n_ref_count (with_ref_count c b)) with c in Hrg.
    by replace (Z.min U16_MAX (c + 1)) with (c + 1) in Hrg by lia. }
  exists s3. split; [done|]. by replace (c + Z.of_nat (S n)) with (c + 1 + Z.of_nat n) by lia.
Qed.

Lemma dec_refs_spec n s i b s1 :
  n_state b = NODE_ALLOCATED -> referenced s i b (Z.of_nat (S n)) s1 ->
  exists s2, dec_refs (S n) (n_start b) s1 = Done (replicate n false ++ [true], s2) /\
    (forall p, page_free (blocks s2) p <-> page_free (blocks s) p \/ covers i (n_order b) p) /\
    (forall j x, held (blocks s2) j x <-> held (blocks s) j x /\ j <> i).
Proof.
  intros Hst. revert s1. induction n as [|n IH]; intros s1 Hr;
    destruct (dec_ref_spec s1 (n_start b) (rf_inv _ _ _ _ _ Hr) (rf_initialized _ _ _ _ _ Hr)) as (r & s2 & Hrun & Hk & Hout);
    cbn [dec_refs]; rewrite (bindM _ _ _ _ _ Hrun).
  - destruct Hout as [(-> & j & x & Hx & Hsx & Hax & _ & Hrel)|(_ & _ & Hmore)].
    2: { specialize (Hmore i _ (rf_block _ _ _ _ _ Hr) Hst eq_refl). simpl in Hmore. lia. }
    destruct (referenced_alloc _ _ _ _ _ Hst Hr j x Hx Hsx Hax) as [-> ->].
    exists s2. destruct Hr as [_ _ _ Hp Hh], Hrel as [Hp' Hh' _ _]. split_and!; [done|..].
    + intros p. by rewrite Hp', Hp.
    + intros j x'. rewrite Hh'. split; intros [? ?]; (split; [|done]); by apply Hh.
  - destruct Hout as [(_ & j & x & Hx & Hsx & Hax & Hc & _)|(-> & [(j & x & Hx & Hsx & Hax & Hrg)|[_ Hno]] & _)].
    3: { by destruct (Hno i _ (rf_block _ _ _ _ _ Hr)). }
    all: destruct (referenced_alloc _ _ _ _ _ Hst Hr j x Hx Hsx Hax) as [-> ->].
    { simpl in Hc. lia. }
    destruct (IH s2) as (s3 & Hrun3 & Hrest).
    { eapply referenced_retag; [done|done|]. change (n_ref_count (with_ref_count _ b)) with (Z.of_nat (S (S n))) in Hrg.
      by replace (Z.of_nat (S (S n)) - 1) with (Z.of_nat (S n)) in Hrg by lia. }
    exists s3. split; [|done]. by rewrite (bindM _ _ _ _ _ Hrun3).
Qed.

(** A block is freed when the last of its references is given up, and
    not before: [k] more references to a block of [c] take [c + k] calls of
    [dec_ref], of which only the last says that it freed the block.  The count is
    16 bits wide, and [inc_ref] saturates. *)
Theorem buddy_last_reference_frees B s0 l s i b k :
  reaches B s0 l s -> blocks s !! i = Some b -> n_state b = NODE_ALLOCATED ->
  n_ref_count b + Z.of_nat k <= U16_MAX ->
  exists n s1 s2, Z.of_nat (S n) = n_ref_count b + Z.of_nat k /\
    inc_refs k (n_start b) s = Done (tt, s1) /\
    dec_refs (S n) (n_start b) s1 = Done (replicate n false ++ [true], s2) /\
    (forall p, page_free (blocks s2) p <-> page_free (blocks s) p \/ covers i (n_order b) p) /\
    (forall j x, held (blocks s2) j x <-> held (blocks s) j x /\ j <> i).
Proof.
  intros (Hinv & Hi & _)%reaches_inv Hb Hst Hle.
  pose proof (bi_held_refs _ Hinv i b (conj Hb (or_introl Hst))) as Hc.
  assert (referenced s i b (n_ref_count b) s) as Hr by (split; try done; by destruct b).
  destruct (inc_refs_spec k s i b _ s Hst Hr Hle) as (s1 & Hinc & Hr1).
  set (n := Z.to_nat (n_ref_count b + Z.of_nat k - 1)).
  assert (Z.of_nat (S n) = n_ref_count b + Z.of_nat k) as Hn by lia.
  rewrite <- Hn in Hr1. destruct (dec_refs_spec n s i b s1 Hst Hr1) as (s2 & Hdec & Hp & Hh).
  by exists n, s1, s2.
Qed.

Lemma buddy_last_reference_frees_witness : exists s1 s2,
  inc_refs 3 0x80008000 demo_state = Done (tt, s1) /\
  dec_refs 5 0x80008000 s1 = Done ([false; false; false; false; true], s2).
Proof.
  assert (exists b, blocks demo_state !! 40%nat = Some b /\ n_state b = NODE_ALLOCATED /\ n_ref_count b = 2 /\
    n_start b = 0x80008000) as (b & Hb & Hst & Hc & Ha) by (eexists; vm_compute; repeat split).
  destruct (buddy_last_reference_frees demo demo_start demo_ops demo_state 40 b 3 demo_reaches Hb Hst)
    as (n & s1 & s2 & Hn & Hinc & Hdec & _); [rewrite Hc; unfold U16_MAX; lia|].
  rewrite Hc in Hn. rewrite Ha in Hinc, Hdec. assert (n = 4%nat) as -> by lia.
  exists s1, s2. split; [exact Hinc|exact Hdec].
Defined.

(** ** Reclaiming *)

(** [reclaim_deferred] ends, and merges every pair of free buddies that
    freeing left apart: afterwards no two free blocks of a zone could be merged,
    and the same pages are free and the same blocks handed out as before. *)
Theorem buddy_reclaim_merges B s0 l s :
  reaches B s0 l s -> no_release l ->
  exists r s', reclaim_deferred s = Done (r, s') /\ tidy false (segments s') (blocks s') /\
    (forall p, page_free (blocks s') p <-> page_free (blocks s) p) /\
    (forall j b, held (blocks s') j b <-> held (blocks s) j b).
Proof.
  intros (Hinv & _ & _ & Hn)%reaches_inv Hno. destruct (Hn Hno) as [_ Ht]. destruct (bi_shape _ Hinv) as [L Hsh].
  destruct (reclaim_spec s L Hsh) as (t & s' & Hrun & _ & [Hc Hp Hh _ _] & _ & Htd & _).
  unfold reclaim_deferred. rewrite get_bind, (bindM _ _ _ _ _ Hrun), get_bind. eexists _, s'.
  split_and!; [done| |done|done]. rewrite (core_segments _ _ Hc). by apply Htd.
Qed.

Lemma buddy_reclaim_merges_witness : exists r s',
  reclaim_deferred demo_state = Done (r, s') /\ tidy false (segments s') (blocks s').
Proof.
  destruct (buddy_reclaim_merges demo demo_start demo_ops demo_state demo_reaches demo_keeps) as (r & s' & H1 & H2 & _).
  exists r, s'. split; [exact H1|exact H2].
Defined.

(** ** The owners of slab pages *)

(** What the other processors may do: anything but to the slots of this owner. *)
Record others (owner : Z) (env : Env) : Prop := {
  ot_length t o : length (env t o) = length o;
  ot_holds t o i : holds owner (env t o) i <-> holds owner o i }.

(** The index from pages to slabs, under any interference of the other
    processors.  Publishing the pages of a block is all or nothing: on success
    all its slots are the owner's, on failure none is that was not before.  It
    succeeds if the slots are vacant and nobody touches them.  While it is
    published, any address in the block leads to the owner, and clearing the
    block succeeds and leaves no slot of it behind. *)
Theorem buddy_owner_published B s0 l s owner env env' k seg a n o :
  reaches B s0 l s -> owner <> 0 -> others owner env -> others owner env' ->
  segments s !! k = Some seg -> node_base seg <= Z.of_nat a -> (0 < n)%nat ->
  Z.of_nat a + Z.of_nat n <= node_base seg + total_pages seg -> Z.of_nat (length o) = node_capacity s ->
  let sz := Z.of_nat n * PAGE_SIZE in
  let addr := addr_of seg (Z.of_nat a) in
  let cap := node_capacity s in
  let '(r, o1) := publish_range s cap env addr sz owner o in
  (forall i, holds owner o1 i <-> holds owner o i \/ (r = true /\ in_slots a n i)) /\
  ((forall t o' i, in_slots a n i -> env t o' !! i = o' !! i) ->
   (forall i, in_slots a n i -> o !! i = Some 0) -> r = true) /\
  (r = true ->
    (forall x, addr <= x < addr + sz -> lookup_owner s cap x o1 = Some owner) /\
    let '(r', o2) := clear_range s cap env' addr sz owner o1 in
    r' = true /\ forall i, holds owner o2 i <-> holds owner o1 i /\ ~ in_slots a n i).
Proof.
  intros (Hinv & _)%reaches_inv Ho [E1 E2] [F1 F2] Hk Ha Hn He Hlen. cbv zeta.
  destruct (bi_shape _ Hinv) as [L Hsh]. pose proof (sh_segs _ _ Hsh) as Hsegs.
  pose proof (publish_range_spec s _ Hsegs owner Ho env E1 E2 k a n seg Hk Ha Hn He o Hlen) as Hpub.
  pose proof (publish_range_vacant s _ Hsegs owner Ho env k a n seg Hk Ha Hn He o) as Hvac.
  destruct (publish_range _ _ _ _ _ _ o) as [r o1]. destruct Hpub as [Hl1 Hh1]. split_and!; [done|done|]. intros ->.
  assert (forall i, in_slots a n i -> holds owner o1 i) as Hall by (intros i Hi; apply Hh1; by right). split.
  - intros x Hx. by eapply (lookup_in_range s _ Hsegs owner Ho k a n seg).
  - pose proof (clear_range_spec s _ Hsegs owner Ho env' F1 F2 k a n seg Hk Ha Hn He o1) as Hclr.
    destruct (clear_range _ _ _ _ _ _ o1) as [r' o2]. destruct Hclr as (_ & Hr' & Hh2). split; [by apply Hr'|done].
Qed.

(** Another processor that writes the slot [j] whenever it may. *)
Definition meddler (owner : Z) (j : nat) : Env := fun t o =>
  if bool_decide (o !! j = Some owner) then o else <[j := owner + 1 + Z.of_nat t]> o.

Lemma meddler_others owner j : others owner (meddler owner j).
Proof.
  split; intros t o; unfold meddler; case_bool_decide as Hj; try done; [apply length_insert|].
  intros i. unfold holds. rewrite list_lookup_insert_Some. split.
  - intros [(_ & ? & _)|[_ ?]]; [lia|done].
  - intros Hi. right. split; [|done]. intros ->. done.
Qed.

Lemma buddy_owner_published_witness :
  let '(r, o1) := publish_range demo_state 48 (meddler 5 0) 0x80008000 0x4000 5 (replicate 48 0) in
  r = true /\ forall x, 0x80008000 <= x < 0x8000C000 -> lookup_owner demo_state 48 x o1 = Some 5.
Proof.
  assert (exists seg, segments demo_state !! 1%nat = Some seg /\ node_base seg = 32 /\ total_pages seg = 16 /\
    start (range seg) = 0x80000000) as (seg & Hk & H1 & H2 & H3) by (eexists; vm_compute; repeat split).
  assert (node_capacity demo_state = 48) as Hcap by (vm_compute; reflexivity).
  pose proof (buddy_owner_published demo demo_start demo_ops demo_state 5 (meddler 5 0) (meddler 5 1) 1 seg 40 4
    (replicate 48 0) demo_reaches ltac:(lia) (meddler_others 5 0) (meddler_others 5 1) Hk ltac:(lia) ltac:(lia)
    ltac:(lia) ltac:(rewrite Hcap; reflexivity)) as H. cbv zeta in H.
  assert (addr_of seg (Z.of_nat 40) = 0x80008000) as Haddr by (unfold addr_of; rewrite H1, H3; reflexivity).
  assert (Z.of_nat 4 * PAGE_SIZE = 0x4000) as Hsz by reflexivity. rewrite Hcap, Haddr, Hsz in H.
  destruct (publish_range demo_state 48 (meddler 5 0) 0x80008000 0x4000 5 (replicate 48 0)) as [r o1].
  destruct H as (_ & Hok & Hres). assert (r = true) as Hr.
  { apply Hok.
    - intros t o i [Hi _]. unfold meddler. case_bool_decide; [reflexivity|]. apply list_lookup_insert_ne. lia.
    - intros i [_ Hi]. apply lookup_replicate_2. lia. }
  split; [exact Hr|]. intros x Hx. destruct (Hres Hr) as [Hlook _]. apply Hlook. lia.
Defined.
